(* ===== verification/_CoqProject ===== *)
-Q . S2P
Prelude.v
Varint.v
PatchDelta.v
DeltaFormat.v
Rabin.v
DeltaIndex.v
DiffDelta.v
Bswap.v
Sha1.v
Alloc.v
PrioQueue.v
Hex.v
Base85.v
StableQsort.v
LineLog.v
EwahRlw.v
Ewah.v
EwahIter.v
EwahXor.v
Bitmap.v
CString.v
Strbuf.v
StrbufText.v
Url.v
Quote.v
QuoteC.v
EwahIo.v
Wildmatch.v
Glob.v
Hashmap.v
HashmapSpec.v
RefName.v
StringList.v
StringListSpec.v
StringListSplit.v
StringListSort.v
CsumFile.v
HashLookup.v
PackIdx.v
PackWrite.v
PackRoundtrip.v
RevSort.v
PackRevindex.v
TreeWalk.v
Utf8.v
NtfsNames.v
FsckOrder.v
FsckTree.v
FsckCommit.v
FsckTag.v
CbTree.v
MemPool.v
OidTree.v
