(* ===== verification/Prelude.v ===== *)
(** * Verification of the core of Git

    Git is a collection of commands around a library.  This development models
    the part of the library that everything else is built on and that does not
    depend on the state of a repository: the data structures (strings, lists, hash
    maps, queues, bitmaps, sorting), the codecs (object names, deltas, varints,
    base85, pack indexes, bitmap files, trees, quoting, URLs, UTF-8) and the
    decision procedures (shell patterns, names of references and files, line ranges,
    the checks of [git fsck]).  The commands, the object database and the
    transports call these functions and rely on them.

    ** How C is modelled

    A C function is a function into the monad [res] of this file: [Ok v] when it
    returns, [Fault f] when the program leaves C: undefined behaviour ([UB]: an
    access outside of an object, an unset pointer, a signed overflow), [die()]
    ([Died]), [BUG()] ([BugHit]), or the fuel of the model ([OutOfFuel]).  Integers are
    [Z]; a wrap-around of a w-bit type is written out ([u8], [u32], [u64], [to_int]).
    The machine is LP64 and little-endian.  An object of C is a list of cells and a
    pointer into it is an index; [rd], [wr], [rd_slice] and [wr_slice] are the
    accesses, which fault outside of the object.  Structures that are linked
    through pointers (hash maps) live in a heap, a finite map from addresses.
    Functions that write in place thread the object they write to.

    A loop is [loop fuel step]: one [..._step] definition per loop of the source;
    a counting loop is [for_range].  The fuel is a bound on the turns that the
    function computes from its input (the size of the buffer that is walked or the
    number of items, plus one), or an argument that the theorem bounds from below.
    Every theorem states that the function returns: a run out of fuel is a fault like
    the others and is excluded by the statement, so the bounds are proved to be
    enough and are also proofs of termination.  (One theorem is about a loop that
    does not end: it runs out of every fuel.)  [wp F m Q] says that [m] returns
    a value that satisfies [Q] or leaves with a fault that [F] allows: none at
    all ([total]), the lack of memory ([oom] of [Alloc.v]), or that and a failing
    write ([io] of [CsumFile.v]).

    What is not under src/, and what another component promises, is an interface:
    the allocator ([Memory], and [junk] for the contents of fresh memory), [qsort]
    ([QsortOk]), comparison functions ([CmpOk], [CompareOk], the key comparison of
    hash maps), hash functions ([Hasher], [HasherOk]), the file that a checksum file
    writes to ([Disk]), [bsearch] of the C library ([Bsearch], [BsearchOk]), sets
    of object names ([OidSet]), the output of [vsnprintf] and the callbacks of the
    callers.  The hypotheses on sizes (lengths below 2^31 or 2^40, say) exclude the
    wrap-arounds that the sources do not handle; each is named in the comment of its theorem.

    ** The files

    Foundations.  [Prelude.v]: the monad, accesses, [wp], bit arithmetic, tactics.
    [Alloc.v]: [xmalloc] and its relatives of wrapper.c, [ALLOC_GROW] and the
    overflow-checked sizes of git-compat-util.h.  [Bswap.v]: compat/bswap.h.
    [CString.v]: ctype.c, sane-ctype.h and the prefix and suffix tests, with
    [ctype_ascii] and [prefix_tests].

    Deltas, the compression of pack files.  [Varint.v]: varint.c.  [PatchDelta.v]:
    delta.h and patch-delta.c.  [DeltaFormat.v]: the abstract syntax of a delta and what
    it means.  [Rabin.v], [DeltaIndex.v], [DiffDelta.v]: diff-delta.c: the rolling hash,
    the index of the source, and [create_delta].  The class [IndexOk] is what
    [create_delta_index] promises to [create_delta].  Shown: [patch_delta] is safe on any
    bytes, but for two defects that the theorem delimits, an undefined shift and a read of the byte behind
    the delta ([patch_delta_safe]); every delta that [create_delta] returns makes [patch_delta]
    rebuild the target ([diff_delta_roundtrip], [create_delta_contract]), the index is
    well-formed ([create_delta_index_ok]), the rolling hash is the hash of the window
    ([rabin_roll]), varints round-trip ([varint_roundtrip]).

    Object names.  [Sha1.v]: block-sha1, equal to the FIPS definition
    ([blk_SHA1_digest]).  [Hex.v]: hex.c, hex-ll.c and the table of algorithms
    ([get_oid_hex_exact]).  [Base85.v]: base85.c ([decode_85_exact]).  [HashLookup.v]:
    the searches of hash-lookup.c ([oid_pos_finds]).

    Packs.  [CsumFile.v]: the buffered files with a trailing checksum of csum-file.c
    ([csum_file_stream]).  [PackIdx.v]: the readers of pack indexes of packfile.c, which stay
    inside of any file that passed the check ([idx_reader_safe]).  [PackWrite.v]: the writers of
    pack-write.c.  [PackRoundtrip.v]: the readers find what the writers wrote
    ([write_idx_roundtrip]), through the relation [idx_repr].  [RevSort.v], [PackRevindex.v]: the radix
    sort and the reverse indexes of pack-revindex.c, in memory and on disk, which agree
    ([revindex_finds], [rev_file_agrees], through [rev_repr]).

    Objects.  [TreeWalk.v]: tree-walk.c and the comparisons of tree.c for one tree
    ([tree_walk_exact]).  [Utf8.v]: utf8.c: decoding, validity, and the names that HFS+
    folds to .git ([utf8_strings_exact], [hfs_names_exact]).  [NtfsNames.v]: the names that NTFS
    takes for .git, of path.c ([ntfs_names_exact]).  [FsckOrder.v], [FsckTree.v], [FsckCommit.v],
    [FsckTag.v]: the checks of fsck.c: a check is silent exactly on the well-formed
    objects, and stays inside of the buffer on all others ([fsck_tree_exact], [fsck_commit_exact],
    [fsck_tag_exact]), for commits and tags as long as the object is not on the skip list and the
    messages that guard the memory are errors; two theorems show where it does not do what it means to
    ([fsck_commit_skiplisted], [fsck_tag_forgets_tagger]).

    Sets of object names.  [CbTree.v]: the crit-bit trees of cbtree.c, with their tagged pointers, against finite
    maps ([cb_tree_map]).  [MemPool.v]: the memory pools of mem-pool.c, whose pieces never overlap
    ([mem_pool_pieces]); the class [MallocOk] is what the C library promises.  [OidTree.v]: oidtree.c, which is
    built from the two, against sets of object names and their abbreviations ([oid_tree_set]).

    Containers.  [PrioQueue.v]: prio-queue.c against a list sorted by priority and
    age ([prio_queue_refines]).  [StableQsort.v]: stable-qsort.c against insertion sort
    ([git_stable_qsort_stable]).  [Hashmap.v], [HashmapSpec.v]: hashmap.c against finite maps
    ([hashmap_refines]).  [StringList.v], [StringListSpec.v], [StringListSplit.v], [StringListSort.v]:
    string-list.c against ordered maps, the fields of a text and ordered sets
    ([string_list_refines], [string_list_split_pieces]).  [Strbuf.v], [StrbufText.v]: strbuf.c against
    lists of bytes ([strbuf_refines]).  [LineLog.v]: the range sets of line-log.c against sets
    of lines ([map_across_diff_covers]).

    Bitmaps of reachable objects, the directory ewah/.  [EwahRlw.v]: the run-length words.
    [Ewah.v]: appending.  [EwahIter.v]: iterators, the pool, the checksum.
    [EwahXor.v]: ewah_rlw.c and [ewah_xor].  [Bitmap.v]: bitmap.c.  [EwahIo.v]: the file
    format, with the class [Writer] for the callback that [ewah_serialize_to]
    gets.  Compressed bitmaps stand for lists of words and plain ones for sets of
    positions; shown are the conversions and set operations ([ewah_xor_bits],
    [bitmap_ops_refine], [bitmap_ewah_roundtrip]), the round trip of the file format and the
    bounds of its reader ([ewah_io_roundtrip], [ewah_read_mmap_bounds]).

    Text.  [Url.v]: url.c and the percent encoder ([url_roundtrip]).  [Quote.v], [QuoteC.v]: the shell
    and C-style quoting of quote.c ([cquote_roundtrip], [unquote_c_style_exact]).  [Wildmatch.v],
    [Glob.v]: wildmatch.c against a declarative pattern language ([wildmatch_decides]).
    [RefName.v]: the check of reference names of refs.c against the numbered rules of its manual
    page ([check_refname_format_rules]).

    ** Not modelled

    Commands, option parsing, files, processes, the network, the object
    database, the index, the revision walk, the diff and merge machinery: they are
    glue around the operating system or around mutable global state, and their
    correctness is not a property of one function.  Releasing memory is not an
    observable operation of the model.  Of strbuf.c the functions that read files or expand
    placeholders, of quote.c the quoting for scripting languages, of hashmap.c the string
    interning, of line-log.c the revision walk, of tree-walk.c the walks of several
    trees, of utf8.c the wrapping, padding and conversions, of mem-pool.c the functions that fill pieces, and of fsck.c the blobs (which are
    configuration files), the configuration of messages and the walk over objects are left.
    Vendored code (sha1dc, nedmalloc, the regex library) is not part of the program. *)

From stdpp Require Import prelude numbers list sorting.
From Stdlib Require Export Btauto.
From coqutil Require Export Z.bitblast.

#[global] Open Scope Z_scope.

(** ** Faults and the result monad

    A C function of the development returns [Ok v] when it returns, and
    [Fault f] when its execution leaves the C program: undefined behaviour (a
    read or write outside an object, an oversized shift), [die()], [BUG()] or a
    failed [assert].  [OutOfFuel] is what the executable loops return when the
    bound they were given is too small; every theorem that says that a function
    returns also says that this does not happen. *)

Inductive fault := UB | Died | BugHit | OutOfFuel.

Inductive res (A : Type) :=
| Ok (a : A)
| Fault (f : fault).
Arguments Ok {A} a.
Arguments Fault {A} f.

#[export] Instance fault_eq_dec : EqDecision fault.
Proof. solve_decision. Defined.

#[export] Instance res_ret : MRet res := fun A a => Ok a.
#[export] Instance res_bind : MBind res :=
  fun A B k m => match m with Ok a => k a | Fault f => Fault f end.

(** [loop fuel step s] runs [step] until it leaves the loop with [inr r]. *)
Fixpoint loop {S R : Type} (fuel : nat) (step : S -> res (S + R)) (s : S) : res R :=
  match fuel with
  | O => Fault OutOfFuel
  | Datatypes.S n =>
      match step s with
      | Ok (inl s') => loop n step s'
      | Ok (inr r) => Ok r
      | Fault f => Fault f
      end
  end.

(** [for (i = i0; i < i0 + n; i++)], the number of turns known before. *)
Fixpoint for_range {S : Type} (n : nat) (i : Z) (body : Z -> S -> res S) (s : S) : res S :=
  match n with
  | O => Ok s
  | Datatypes.S n => s ← body i s; for_range n (i + 1) body s
  end.

(** The C macro. *)
Definition assert (b : bool) : res unit := if b then Ok tt else Fault BugHit.

(** ** Machine integers

    A [w]-bit unsigned integer is a [Z] in [0 .. 2^w-1]; the conversions below
    are the wrap-around that C prescribes for unsigned types. *)

Definition u8 (x : Z) : Z := x `mod` 2 ^ 8.
Definition u32 (x : Z) : Z := x `mod` 2 ^ 32.
Definition u64 (x : Z) : Z := x `mod` 2 ^ 64.

(** Conversion to [int]. *)
Definition to_int (x : Z) : Z := if u32 x <? 2 ^ 31 then u32 x else u32 x - 2 ^ 32.

Declare Scope c_scope.
Delimit Scope c_scope with C.
Infix "&." := Z.land (at level 40, left associativity) : c_scope.
Infix "|." := Z.lor (at level 41, left associativity) : c_scope.
Infix "^." := Z.lxor (at level 41, left associativity) : c_scope.
Infix "<<." := Z.shiftl (at level 39, left associativity) : c_scope.
Infix ">>." := Z.shiftr (at level 39, left associativity) : c_scope.
#[global] Open Scope c_scope.

(** Truth value of a C integer. *)
Definition tr (x : Z) : bool := negb (x =? 0).

Definition is_byte (b : Z) : Prop := 0 <= b < 256.
Abbreviation is_bytes := (Forall is_byte).

(** [lia] with the quotients and remainders of the context unfolded. *)
Ltac dlia := Z.div_mod_to_equations; lia.

(** ** Checked accesses

    [rd] and [wr] are the accesses [p[i]] of an object whose contents are the
    list [l]: outside of the object they are undefined behaviour. *)

Definition rd {A} (l : list A) (i : Z) : res A :=
  if i <? 0 then Fault UB
  else match l !! Z.to_nat i with Some x => Ok x | None => Fault UB end.

Definition wr {A} (l : list A) (i : Z) (x : A) : res (list A) :=
  if i <? 0 then Fault UB
  else if decide (Z.to_nat i < length l)%nat then Ok (<[Z.to_nat i := x]> l)
  else Fault UB.

(** [len] is the size of an object as a C integer. *)
Definition len {A} (l : list A) : Z := Z.of_nat (length l).

(** [lia] on goals about sizes. *)
Ltac llia := unfold len in *; lia.

(** [slice l i n] is the [n] cells of [l] from [i] on. *)
Definition slice {A} (l : list A) (i n : Z) : list A :=
  take (Z.to_nat n) (drop (Z.to_nat i) l).

(** [memcpy] out of [l]: undefined behaviour when the range is not inside. *)
Definition rd_slice {A} (l : list A) (i n : Z) : res (list A) :=
  if (i <? 0) || (n <? 0) || (len l <? i + n) then Fault UB
  else Ok (slice l i n).

(** [memcpy] into [l] at [i]. *)
Definition wr_slice {A} (l : list A) (i : Z) (src : list A) : res (list A) :=
  if (i <? 0) || (len l <? i + len src) then Fault UB
  else Ok (take (Z.to_nat i) l ++ src ++ drop (Z.to_nat i + length src) l).

(** ** A weakest precondition for [res]

    [wp F m Q]: [m] returns a value that satisfies [Q], or leaves the program
    with a fault that [F] allows. *)

Definition wp {A} (F : fault -> Prop) (m : res A) (Q : A -> Prop) : Prop :=
  match m with Ok a => Q a | Fault f => F f end.

(** No fault at all. *)
Definition no_fault (f : fault) : Prop := False.
(** Only [die()], the documented fatal error. *)
Definition only_die (f : fault) : Prop := f = Died.

Abbreviation total m Q := (wp no_fault m Q).

Section Wp.
Context {A B : Type} (F : fault -> Prop).

Lemma wp_ret (a : A) (Q : A -> Prop) : Q a -> wp F (Ok a) Q.
Proof. done. Qed.

Lemma wp_bind (m : res A) (k : A -> res B) (Q : B -> Prop) :
  wp F m (fun a => wp F (k a) Q) -> wp F (m ≫= k) Q.
Proof. by destruct m. Qed.

Lemma wp_mono (m : res A) (P Q : A -> Prop) :
  wp F m P -> (forall a, P a -> Q a) -> wp F m Q.
Proof. destruct m; simpl; auto. Qed.

Lemma wp_and (m : res A) (P Q : A -> Prop) :
  wp F m P -> wp F m Q -> wp F m (fun a => P a /\ Q a).
Proof. by destruct m. Qed.

Lemma wp_ok (m : res A) (Q : A -> Prop) a : wp F m Q -> m = Ok a -> Q a.
Proof. by intros H ->. Qed.

Lemma wp_weaken (G : fault -> Prop) (m : res A) (Q : A -> Prop) :
  wp F m Q -> (forall f, F f -> G f) -> wp G m Q.
Proof. destruct m; simpl; auto. Qed.

(** Loop rule: an invariant [I] and a measure [mu] that bounds the fuel. *)
Lemma wp_loop (I : A -> Prop) (mu : A -> nat) (Q : B -> Prop)
    (step : A -> res (A + B)) :
  (forall s, I s ->
     wp F (step s) (fun x => match x with
                             | inl s' => I s' /\ (mu s' < mu s)%nat
                             | inr r => Q r end)) ->
  forall fuel s, I s -> (mu s < fuel)%nat -> wp F (loop fuel step s) Q.
Proof.
  intros Hstep fuel. induction fuel as [|n IH]; intros s HI Hfuel; [lia|].
  simpl. specialize (Hstep s HI).
  destruct (step s) as [[s'|r]|f]; simpl in *; [|done|done].
  destruct Hstep as [HI' Hmu]. apply IH; [done|lia].
Qed.
(** The rule for counted loops. *)
Lemma wp_for_range (I : Z -> A -> Prop) (body : Z -> A -> res A) : forall n i s,
  (forall k s, i <= k < i + Z.of_nat n -> I k s -> wp F (body k s) (I (k + 1))) -> I i s -> wp F (for_range n i body s) (I (i + Z.of_nat n)).
Proof.
  induction n as [|n IH]; intros i s Hb HI; [by rewrite Z.add_0_r|]. cbn [for_range]. specialize (Hb i s ltac:(lia) HI) as Hi. destruct (body i s) as [s'|f]; [|done]. cbn [mbind res_bind].
  replace (i + Z.of_nat (Datatypes.S n)) with (i + 1 + Z.of_nat n) by lia. apply IH; [|done]. intros k s'' Hk. apply Hb. lia.
Qed.
End Wp.

Lemma res_bind_assoc {A B D} (m : res A) (k : A -> res B) (h : B -> res D) : (m ≫= k) ≫= h = m ≫= (fun x => k x ≫= h).
Proof. by destruct m. Qed.

Lemma res_bind_ok {A} (m : res A) : m ≫= (fun x => Ok x) = m.
Proof. by destruct m. Qed.

Lemma res_bind_ext {A B} (m : res A) (k h : A -> res B) : (forall x, k x = h x) -> m ≫= k = m ≫= h.
Proof. intros E. destruct m as [a|e]; [apply E|done]. Qed.

Lemma total_ok {A} (m : res A) (Q : A -> Prop) :
  total m Q <-> exists a, m = Ok a /\ Q a.
Proof.
  destruct m as [a|f]; simpl; split.
  - by exists a.
  - by intros (? & [= ->] & ?).
  - done.
  - by intros (? & ? & ?).
Qed.

Lemma total_wp {A} F (m : res A) (Q : A -> Prop) : total m Q -> wp F m Q.
Proof. by destruct m. Qed.

Lemma loop_S {S R} n (step : S -> res (S + R)) s :
  loop (Datatypes.S n) step s =
  match step s with Ok (inl s') => loop n step s' | Ok (inr r) => Ok r | Fault f => Fault f end.
Proof. done. Qed.

Lemma wp_loop_S {S R} F n (step : S -> res (S + R)) s (Q : R -> Prop) :
  wp F (step s) (fun x => match x with inl s' => wp F (loop n step s') Q | inr r => Q r end) ->
  wp F (loop (Datatypes.S n) step s) Q.
Proof. rewrite loop_S. by destruct (step s) as [[]|]. Qed.

(** The result of a loop does not depend on the fuel once it is enough. *)
Lemma loop_fuel {S R} (step : S -> res (S + R)) n m s r :
  loop n step s = Ok r -> (n <= m)%nat -> loop m step s = Ok r.
Proof.
  revert m s. induction n as [|n IH]; intros m s H Hle; [done|].
  destruct m as [|m]; [lia|]. simpl in *.
  destruct (step s) as [[s'|r']|f]; auto. apply IH; [done|lia].
Qed.

(** ** Lemmas on the accesses *)

Lemma len_nonneg {A} (l : list A) : 0 <= len l.
Proof. unfold len. lia. Qed.

Lemma len_app {A} (k l : list A) : len (k ++ l) = len k + len l.
Proof. unfold len. rewrite length_app. lia. Qed.

Lemma len_cons {A} (x : A) l : len (x :: l) = 1 + len l.
Proof. unfold len. simpl. lia. Qed.

Lemma len_nil {A} : len (@nil A) = 0.
Proof. done. Qed.

Lemma wp_rd {A} `{!Inhabited A} F (l : list A) i (Q : A -> Prop) :
  0 <= i < len l -> Q (l !!! Z.to_nat i) -> wp F (rd l i) Q.
Proof.
  intros Hi HQ. unfold rd, len in *.
  destruct (Z.ltb_spec i 0); [lia|].
  destruct (l !! Z.to_nat i) eqn:E.
  - apply list_lookup_total_correct in E. by subst.
  - apply lookup_ge_None in E. lia.
Qed.

Lemma rd_ok {A} `{!Inhabited A} (l : list A) i :
  0 <= i < len l -> rd l i = Ok (l !!! Z.to_nat i).
Proof.
  intros Hi. generalize (wp_rd no_fault l i (fun x => x = l !!! Z.to_nat i) Hi eq_refl).
  by destruct (rd l i); simpl; [intros ->|].
Qed.

Lemma rd_Some {A} (l : list A) i x :
  0 <= i -> l !! Z.to_nat i = Some x -> rd l i = Ok x.
Proof. intros Hi Hx. unfold rd. destruct (Z.ltb_spec i 0); [lia|]. by rewrite Hx. Qed.

Lemma rd_inv {A} (l : list A) i x :
  rd l i = Ok x -> 0 <= i < len l /\ l !! Z.to_nat i = Some x.
Proof.
  unfold rd, len. destruct (Z.ltb_spec i 0); [done|].
  destruct (l !! Z.to_nat i) eqn:E; [|done]. intros [= ->].
  apply lookup_lt_Some in E as ?. split; [lia|done].
Qed.

Lemma wr_ok {A} (l : list A) i x :
  0 <= i < len l -> wr l i x = Ok (<[Z.to_nat i := x]> l).
Proof.
  intros Hi. unfold wr, len in *. destruct (Z.ltb_spec i 0); [lia|].
  rewrite decide_True by lia. done.
Qed.

Lemma wp_wr {A} F (l : list A) i x (Q : list A -> Prop) :
  0 <= i < len l -> Q (<[Z.to_nat i := x]> l) -> wp F (wr l i x) Q.
Proof. intros Hi HQ. by rewrite wr_ok. Qed.

Lemma len_insert {A} (l : list A) i x : len (<[i := x]> l) = len l.
Proof. unfold len. by rewrite length_insert. Qed.

Lemma len_slice {A} (l : list A) i n :
  0 <= i -> 0 <= n -> i + n <= len l -> len (slice l i n) = n.
Proof. intros. unfold slice, len in *. rewrite length_take, length_drop. lia. Qed.

Lemma rd_slice_ok {A} (l : list A) i n :
  0 <= i -> 0 <= n -> i + n <= len l -> rd_slice l i n = Ok (slice l i n).
Proof.
  intros. unfold rd_slice.
  destruct (Z.ltb_spec i 0); [lia|]. destruct (Z.ltb_spec n 0); [lia|].
  destruct (Z.ltb_spec (len l) (i + n)); [lia|]. done.
Qed.

Lemma wr_slice_ok {A} (l : list A) i src :
  0 <= i -> i + len src <= len l ->
  wr_slice l i src = Ok (take (Z.to_nat i) l ++ src ++ drop (Z.to_nat i + length src) l).
Proof.
  intros. unfold wr_slice. destruct (Z.ltb_spec i 0); [lia|].
  destruct (Z.ltb_spec (len l) (i + len src)); [lia|]. done.
Qed.

Lemma slice_split {A} (l : list A) n k : 0 <= k <= n ->
  slice l 0 n = slice l 0 k ++ slice l k (n - k).
Proof.
  intros Hk. unfold slice. change (drop (Z.to_nat 0) l) with l.
  rewrite <- (take_drop (Z.to_nat k) (take (Z.to_nat n) l)).
  rewrite take_take, skipn_firstn_comm. f_equal; f_equal; lia.
Qed.

Lemma slice_all {A} (l : list A) : slice l 0 (len l) = l.
Proof. unfold slice, len. rewrite Nat2Z.id. by rewrite take_ge. Qed.

Lemma slice_cons {A} (b : list A) i n x : 0 <= i -> 0 < n -> b !! Z.to_nat i = Some x ->
  slice b i n = x :: slice b (i + 1) (n - 1).
Proof.
  intros Hi Hn Hx. unfold slice. rewrite (drop_S _ _ _ Hx).
  replace (Z.to_nat n) with (S (Z.to_nat (n - 1))) by lia.
  replace (Z.to_nat (i + 1)) with (S (Z.to_nat i)) by lia. done.
Qed.

Lemma slice_nil {A} (b : list A) i n : n <= 0 -> slice b i n = [].
Proof. intros Hn. unfold slice. by replace (Z.to_nat n) with 0%nat by lia. Qed.

Lemma slice_add {A} (b : list A) i m n : 0 <= i -> 0 <= m -> 0 <= n ->
  slice b i (m + n) = slice b i m ++ slice b (i + m) n.
Proof.
  intros. unfold slice. rewrite !Z2Nat.inj_add, <- drop_drop by lia.
  rewrite <- (take_drop (Z.to_nat m) (take (Z.to_nat m + Z.to_nat n) _)).
  rewrite take_take, skipn_firstn_comm. f_equal; f_equal; lia.
Qed.

Lemma slice_app_at {A} (l1 l2 l3 : list A) i n :
  len l1 = i -> len l2 = n -> slice (l1 ++ l2 ++ l3) i n = l2.
Proof.
  intros <- <-. unfold slice, len. rewrite !Nat2Z.id, drop_app_length. by apply take_app_length.
Qed.

(** A store of a sequence over the middle of a block. *)
Lemma wr_slice_mid {A} (a b c src : list A) i : i = len a -> len src = len b ->
  wr_slice (a ++ b ++ c) i src = Ok (a ++ src ++ c).
Proof.
  intros -> Hl. rewrite wr_slice_ok by (try apply len_nonneg; rewrite !len_app; pose proof (len_nonneg c); lia).
  f_equal. unfold len in *. rewrite Nat2Z.id, take_app_length. f_equal. f_equal.
  rewrite app_assoc, drop_app_length'; [done|]. rewrite length_app. lia.
Qed.

Lemma wr_mid {A} (a : list A) x c i y : i = len a -> wr (a ++ x :: c) i y = Ok (a ++ y :: c).
Proof.
  intros ->. rewrite wr_ok by (rewrite len_app, len_cons; pose proof (len_nonneg a); pose proof (len_nonneg c); lia).
  f_equal. unfold len. rewrite Nat2Z.id, <- (Nat.add_0_r (length a)), insert_app_r. done.
Qed.

Lemma rd_mid {A} (a : list A) x c i : i = len a -> rd (a ++ x :: c) i = Ok x.
Proof.
  intros ->. apply rd_Some; [apply len_nonneg|]. unfold len. rewrite Nat2Z.id, lookup_app_r by lia. by rewrite Nat.sub_diag.
Qed.

Lemma rd_slice_mid {A} (a b c : list A) i n : i = len a -> n = len b -> rd_slice (a ++ b ++ c) i n = Ok b.
Proof.
  intros -> ->. rewrite rd_slice_ok; [|apply len_nonneg..|rewrite !len_app; pose proof (len_nonneg c); lia].
  by rewrite slice_app_at.
Qed.

Lemma rd_slice_head {A} (a b : list A) n : n = len a -> rd_slice (a ++ b) 0 n = Ok a.
Proof. intros ->. exact (rd_slice_mid [] a b 0 (len a) eq_refl eq_refl). Qed.

(** Filters that keep everything or nothing. *)
(** A cell of a table of cells of one size. *)
Lemma drop_concat_cell {A} (w : Z) (cells : list (list A)) i x tail : Forall (fun c => len c = w) cells -> cells !! i = Some x ->
  drop (Z.to_nat (Z.of_nat i * w)) (concat cells ++ tail) = x ++ concat (drop (S i) cells) ++ tail.
Proof.
  intros Hw. revert i. induction Hw as [|c cells Hc Hw IH]; intros i Hx; [done|]. destruct i as [|i]; cbn in Hx.
  - injection Hx as ->. cbn. by rewrite <- app_assoc.
  - cbn [concat]. rewrite <- app_assoc. pose proof (len_nonneg c). replace (Z.to_nat (Z.of_nat (S i) * w)) with (length c + Z.to_nat (Z.of_nat i * w))%nat by (unfold len in *; lia).
    rewrite drop_app_add. by apply IH.
Qed.

Lemma len_concat_cells {A} (w : Z) (cells : list (list A)) : Forall (fun c => len c = w) cells -> len (concat cells) = len cells * w.
Proof. induction 1 as [|c cells Hc Hw IH]; [done|]. cbn [concat]. rewrite len_app, len_cons. lia. Qed.

Lemma list_filter_none {A} (P : A -> Prop) `{!forall x, Decision (P x)} l : Forall (fun x => ~ P x) l -> filter P l = [].
Proof. induction 1 as [|x l Hx _ IH]; [done|]. by rewrite filter_cons, decide_False. Qed.

Lemma filter_all {A} (P : A -> Prop) `{!forall x, Decision (P x)} l : Forall P l -> filter P l = l.
Proof. induction 1 as [|x l Hx _ IH]; [done|]. by rewrite filter_cons, decide_True, IH. Qed.

Lemma sorted_lookup {A} (R : A -> A -> Prop) l (i j : nat) x y : StronglySorted R l -> (i < j)%nat -> l !! i = Some x -> l !! j = Some y -> R x y.
Proof.
  intros Hs. revert i j. induction Hs as [|z l _ IH Hz]; intros i j Hij Hx Hy; [done|]. destruct j as [|j]; [lia|].
  destruct i as [|i]; cbn in *; [injection Hx as ->; by eapply Forall_lookup_1 in Hz|]. eapply IH; [|done|done]. lia.
Qed.

Lemma sorted_fmap {A B} (f : A -> B) (R : B -> B -> Prop) l : StronglySorted (fun x y => R (f x) (f y)) l -> StronglySorted R (f <$> l).
Proof. induction 1 as [|x l _ IH Hx]; [apply SSorted_nil|]. rewrite fmap_cons. apply SSorted_cons; [done|]. by apply Forall_fmap. Qed.

Lemma is_byte_lookup l (i : nat) b : is_bytes l -> l !! i = Some b -> is_byte b.
Proof. intros. by eapply Forall_lookup_1. Qed.

Lemma is_byte_lookup_total l i :
  is_bytes l -> (i < length l)%nat -> is_byte (l !!! i).
Proof.
  intros Hl Hi. destruct (lookup_lt_is_Some_2 l i Hi) as [x Hx].
  rewrite (list_lookup_total_correct _ _ _ Hx). by eapply is_byte_lookup.
Qed.

(** A boolean property of bytes is decided by evaluating it on all of them. *)
Lemma byte_forall (P : Z -> bool) :
  forallb P (seqZ 0 256) = true -> forall b, is_byte b -> P b = true.
Proof.
  intros H b Hb. rewrite forallb_forall in H. apply H.
  apply list_elem_of_In, elem_of_seqZ. unfold is_byte in Hb. lia.
Qed.

(** ** Bit arithmetic

    [bitsolve] proves an equation between bitwise expressions by comparing the
    bits: it rewrites [Z.testbit] of the operations, decides the positions with
    [lia] and the remaining booleans with [btauto]. *)

Ltac bits_rw :=
  repeat first
    [ rewrite Z.land_spec | rewrite Z.lor_spec | rewrite Z.lxor_spec
    | rewrite Z.ldiff_spec | rewrite Z.bits_0
    | rewrite Z.shiftl_spec' | rewrite Z.shiftr_spec'
    | rewrite Z.lnot_spec' | rewrite Z.testbit_mod_pow2 by lia
    | rewrite Z.testbit_ones by lia ].

Ltac bits_split :=
  repeat match goal with
  | |- context [?a <? ?b] => destruct (Z.ltb_spec a b); try (exfalso; lia)
  | |- context [?a <=? ?b] => destruct (Z.leb_spec a b); try (exfalso; lia)
  end.

Ltac bits_index :=
  repeat match goal with
  | |- context [Z.testbit ?a ?n] =>
      rewrite (Z.testbit_neg_r a n) by lia
  | |- context [Z.testbit ?a ?n] =>
      match goal with
      | |- context [Z.testbit ?b ?m] =>
          lazymatch m with
          | context [n] => fail
          | _ => replace n with m by lia
          end
      end
  end.

Ltac bitsolve :=
  apply Z.bits_inj';
  let i := fresh "i" in let Hi := fresh "Hi" in
  intros i Hi; bits_rw; bits_split; bits_index; simpl; rewrite ?andb_false_r; try btauto.

Lemma land_mask x m k : 0 <= k -> m = Z.ones k -> Z.land x m = x `mod` 2 ^ k.
Proof. intros ? ->. by apply Z.land_ones. Qed.

(** [a | b] is [a + b] when the bits of [b] are below those of [a]. *)
Lemma lor_add a b k : 0 <= k -> a `mod` 2 ^ k = 0 -> 0 <= b < 2 ^ k -> Z.lor a b = a + b.
Proof.
  intros Hk Ha Hb. symmetry. apply Z.add_nocarry_lor.
  rewrite <- (Z.mod_small b (2 ^ k)) by done.
  apply Z.bits_inj'. intros i Hi. rewrite Z.land_spec, Z.bits_0, Z.testbit_mod_pow2 by done.
  destruct (Z.ltb_spec i k); [|by rewrite andb_false_r].
  assert (Z.testbit (a `mod` 2 ^ k) i = false) as Hz by (by rewrite Ha, Z.bits_0).
  rewrite Z.testbit_mod_pow2 in Hz by done.
  destruct (Z.ltb_spec i k); [|lia]. simpl in *. by rewrite Hz.
Qed.

Lemma lor_shiftl_add a b k : 0 <= k -> 0 <= b < 2 ^ k -> Z.lor (Z.shiftl a k) b = a * 2 ^ k + b.
Proof.
  intros Hk Hb. rewrite Z.shiftl_mul_pow2 by done. apply (lor_add _ _ k); [done| |done].
  apply Z_mod_mult.
Qed.

Lemma u8_byte x : is_byte (u8 x).
Proof. unfold u8, is_byte. apply Z.mod_pos_bound. lia. Qed.

Lemma u8_small x : is_byte x -> u8 x = x.
Proof. unfold u8, is_byte. intros. by apply Z.mod_small. Qed.

Lemma u32_range x : 0 <= u32 x < 2 ^ 32.
Proof. apply Z.mod_pos_bound. lia. Qed.

Lemma u32_small x : 0 <= x < 2 ^ 32 -> u32 x = x.
Proof. intros. by apply Z.mod_small. Qed.

Lemma to_int_small x : 0 <= x < 2 ^ 31 -> to_int x = x.
Proof. intros. unfold to_int. rewrite u32_small by lia. destruct (Z.ltb_spec x (2 ^ 31)); [done|lia]. Qed.

Lemma u64_range x : 0 <= u64 x < 2 ^ 64.
Proof. apply Z.mod_pos_bound. lia. Qed.

Lemma u64_small x : 0 <= x < 2 ^ 64 -> u64 x = x.
Proof. intros. by apply Z.mod_small. Qed.

Lemma tr_true x : tr x = true <-> x <> 0.
Proof. unfold tr. destruct (Z.eqb_spec x 0); simpl; split; congruence. Qed.

Lemma tr_false x : tr x = false <-> x = 0.
Proof. unfold tr. destruct (Z.eqb_spec x 0); simpl; split; congruence. Qed.

Lemma mask_bit k p : 0 <= k -> 0 <= p -> Z.testbit (1 <<. k) p = (p =? k).
Proof.
  intros Hk Hp. rewrite Z.shiftl_spec by done. destruct (Z.eqb_spec p k) as [->|]; [by rewrite Z.sub_diag|].
  destruct (Z_lt_le_dec (p - k) 0); [by rewrite Z.testbit_neg_r|].
  apply (Z.bits_above_log2 1); [lia|]. change (Z.log2 1) with 0. lia.
Qed.

Lemma test_mask x c : 0 <= c -> tr (x &. (1 <<. c)) = Z.testbit x c.
Proof.
  intros Hc. destruct (Z.testbit x c) eqn:E.
  - apply tr_true. intros H. apply (f_equal (fun y => Z.testbit y c)) in H.
    rewrite Z.land_spec, E, mask_bit, Z.eqb_refl, Z.bits_0 in H by done. done.
  - apply tr_false. apply Z.bits_inj'. intros i Hi. rewrite Z.land_spec, mask_bit, Z.bits_0 by done.
    destruct (Z.eqb_spec i c) as [->|]; [by rewrite E|apply andb_false_r].
Qed.

Lemma bit31 x : 0 <= x < 2 ^ 32 -> tr (x &. 0x80000000) = (2 ^ 31 <=? x).
Proof.
  intros Hx. change 0x80000000 with (1 <<. 31). rewrite test_mask by lia. rewrite Z.testbit_odd, Z.shiftr_div_pow2 by lia. destruct (Z.leb_spec (2 ^ 31) x).
  - by replace (x `div` 2 ^ 31) with 1 by dlia.
  - by rewrite Z.div_small by lia.
Qed.

Lemma byte_bit7 c : is_byte c -> tr (c &. 128) = (128 <=? c).
Proof.
  intros Hc. apply eqb_true_iff.
  by apply (byte_forall (fun c => Bool.eqb (tr (c &. 128)) (128 <=? c))).
Qed.

(** ** Automation *)

Create HintDb git discriminated.
#[export] Hint Constants Opaque : git.
#[export] Hint Resolve u8_byte len_nonneg wp_ret : git.
#[export] Hint Constructors Forall : git.
Create Rewrite HintDb len.
#[export] Hint Rewrite @len_app @len_cons @len_nil @len_insert : len.

(** Case analysis on the integer comparisons of the goal. *)
Ltac cases_Z :=
  repeat match goal with
  | |- context [?a <? ?b] => destruct (Z.ltb_spec a b)
  | |- context [?a <=? ?b] => destruct (Z.leb_spec a b)
  | |- context [?a =? ?b] => destruct (Z.eqb_spec a b)
  end.

(** One step of symbolic execution of a [wp] goal. *)
Ltac wp_step :=
  lazymatch goal with
  | |- wp _ (mbind _ _) _ => apply wp_bind
  | |- wp _ (Ok _) _ => apply wp_ret
  | |- wp _ (mret _) _ => apply wp_ret
  end.
