(* ===== verification/Varint.v ===== *)
(** * Variable-length integers: [varint.c]

    The offset encoding used by the index and by the pack index extensions:
    seven bits per byte, most significant first, where a continuation bit adds
    one to what has been read, so that each integer has exactly one encoding. *)

From stdpp Require Import prelude numbers list.
From S2P Require Import Prelude.

(** [MSB(x, bits)] of git-compat-util.h on a [uint64_t]. *)
Definition MSB (x bits : Z) : Z := x &. u64 (Z.ones 64 <<. (64 - bits)).

Record decode_state := DecodeState { ds_pos : Z; ds_c : Z; ds_val : Z }.

(** One turn of [while (c & 128)]; the loop leaves with the value and the new
    [*bufp], which is untouched on overflow. *)
Definition decode_step (buf : list Z) (bufp : Z) (s : decode_state)
    : res (decode_state + (Z * Z)) :=
  if tr (ds_c s &. 128) then
    let val := u64 (ds_val s + 1) in
    if (val =? 0) || tr (MSB val 7) then Ok (inr (0, bufp))
    else
      c ← rd buf (ds_pos s);
      Ok (inl (DecodeState (ds_pos s + 1) c (u64 (u64 (val <<. 7) + (c &. 127)))))
  else Ok (inr (ds_val s, ds_pos s)).

Definition decode_varint (buf : list Z) (bufp : Z) : res (Z * Z) :=
  c ← rd buf bufp;
  loop (S (length buf)) (decode_step buf bufp)
    (DecodeState (bufp + 1) c (c &. 127)).

(** One turn of [while (value >>= 7)]. *)
Definition encode_step (s : list Z * Z * Z) : res (list Z * Z * Z + list Z * Z) :=
  let '(varint, pos, value) := s in
  let value := value >>. 7 in
  if tr value then
    let value := value - 1 in
    varint ← wr varint (pos - 1) (128 |. (value &. 127));
    Ok (inl (varint, pos - 1, value))
  else Ok (inr (varint, pos)).

Definition encode_varint (value : Z) (buf : option (list Z))
    : res (option (list Z) * Z) :=
  varint ← wr (replicate 16 0) 15 (value &. 127);
  '(varint, pos) ← loop 16 encode_step (varint, 15, value);
  buf ← match buf with
        | None => Ok None
        | Some b => src ← rd_slice varint pos (16 - pos);
                    b ← wr_slice b 0 src;
                    Ok (Some b)
        end;
  Ok (buf, u8 (16 - pos)).

(** ** The abstract encoding

    A varint is a non-empty sequence of 7-bit digits; [vfold] is its value over
    the unbounded integers and [flag] its bytes. *)

Definition digit (d : Z) : Prop := 0 <= d < 128.

Fixpoint vfold (a : Z) (ds : list Z) : Z :=
  match ds with [] => a | d :: ds => vfold ((a + 1) * 128 + d) ds end.

Fixpoint flag (d : Z) (ds : list Z) : list Z :=
  match ds with [] => [d] | d' :: ds' => (128 + d) :: flag d' ds' end.

Lemma length_flag d ds : length (flag d ds) = S (length ds).
Proof. revert d. induction ds as [|d' ds IH]; intros; simpl; [done|by rewrite IH]. Qed.

Lemma vfold_ge a ds : 0 <= a -> Forall digit ds -> a <= vfold a ds.
Proof.
  intros Ha Hds. revert a Ha. induction Hds as [|d ds Hd _ IH]; intros a Ha; simpl; [lia|].
  unfold digit in Hd. etrans; [|apply IH]; nia.
Qed.

Lemma digit_byte d : digit d -> is_byte d /\ is_byte (128 + d).
Proof. unfold digit, is_byte. lia. Qed.

Lemma digit_land d : digit d -> d &. 127 = d /\ (128 + d) &. 127 = d.
Proof.
  unfold digit. intros. rewrite !(land_mask _ 127 7) by done. dlia.
Qed.

Lemma digit_cont d : digit d -> tr (d &. 128) = false /\ tr ((128 + d) &. 128) = true.
Proof.
  intros Hd. destruct (digit_byte d Hd). rewrite !byte_bit7 by done.
  unfold digit in Hd. cases_Z; split; done || lia.
Qed.

Lemma MSB_7 x : 0 <= x < 2 ^ 64 -> tr (MSB x 7) = (2 ^ 57 <=? x).
Proof.
  intros Hx. unfold MSB.
  replace (u64 (Z.ones 64 <<. (64 - 7))) with (Z.ones 7 <<. 57) by done.
  assert (x &. (Z.ones 7 <<. 57) = (x >>. 57) <<. 57) as ->.
  { rewrite <- (Z.mod_small x (2 ^ 64)) by done. bitsolve. }
  rewrite Z.shiftl_mul_pow2, Z.shiftr_div_pow2 by done.
  unfold tr. cases_Z; simpl; try done; exfalso; dlia.
Qed.

(** The overflow test of the decoder is exact. *)
Lemma decode_overflow_test val d :
  0 <= val < 2 ^ 64 -> digit d ->
  ((u64 (val + 1) =? 0) || tr (MSB (u64 (val + 1)) 7)) = (2 ^ 64 <=? (val + 1) * 128 + d).
Proof.
  intros Hv Hd. unfold digit in Hd. rewrite MSB_7 by apply u64_range.
  destruct (decide (val = 2 ^ 64 - 1)) as [->|].
  - change (u64 (2 ^ 64 - 1 + 1)) with 0. simpl. symmetry. apply Z.leb_le. lia.
  - rewrite (u64_small (val + 1)) by lia. cases_Z; simpl; try done; lia.
Qed.

Lemma decode_loop buf bufp rest : forall ds d fuel pos val,
  digit d -> Forall digit ds ->
  0 < pos -> drop (Z.to_nat (pos - 1)) buf = flag d ds ++ rest ->
  0 <= val < 2 ^ 64 -> (length ds < fuel)%nat ->
  loop fuel (decode_step buf bufp)
    (DecodeState pos (match ds with [] => d | _ => 128 + d end) val) =
  Ok (if vfold val ds <? 2 ^ 64 then (vfold val ds, pos + len ds) else (0, bufp)).
Proof.
  induction ds as [|d' ds IH]; intros d fuel pos val Hd Hds Hpos Hdrop Hval Hfuel;
    (destruct fuel as [|fuel]; [simpl in Hfuel; lia|]); cbn [loop].
  - unfold decode_step; cbn [ds_c ds_val ds_pos].
    rewrite (proj1 (digit_cont d Hd)). simpl. rewrite (proj2 (Z.ltb_lt _ _)) by lia.
    by rewrite len_nil, Z.add_0_r.
  - apply Forall_cons in Hds as [Hd' Hds].
    unfold decode_step at 1; cbn [ds_c ds_val ds_pos].
    rewrite (proj2 (digit_cont d Hd)), (decode_overflow_test val d') by done.
    destruct (Z.leb_spec (2 ^ 64) ((val + 1) * 128 + d')) as [Hov|Hov].
    + cbn [vfold]. destruct (Z.ltb_spec (vfold ((val + 1) * 128 + d') ds) (2 ^ 64)) as [Hlt|]; [|done].
      pose proof (vfold_ge ((val + 1) * 128 + d') ds ltac:(lia) Hds). lia.
    + assert (drop (Z.to_nat (pos + 1 - 1)) buf = flag d' ds ++ rest) as Hdrop'.
      { replace (Z.to_nat (pos + 1 - 1)) with (Z.to_nat (pos - 1) + 1)%nat by lia.
        rewrite <- drop_drop, Hdrop. done. }
      set (c' := match ds with [] => d' | _ => 128 + d' end).
      assert (rd buf pos = Ok c') as ->.
      { apply rd_Some; [lia|].
        replace (Z.to_nat pos) with (Z.to_nat (pos + 1 - 1) + 0)%nat by lia.
        rewrite <- lookup_drop, Hdrop'. unfold c'. by destruct ds. }
      cbn [mbind res_bind].
      unfold digit in Hd'.
      assert (c' &. 127 = d') as ->.
      { unfold c'. destruct (digit_land d' Hd'). by destruct ds. }
      rewrite (u64_small (val + 1)), Z.shiftl_mul_pow2 by lia.
      change (2 ^ 7) with 128. rewrite (u64_small ((val + 1) * 128)), u64_small by lia.
      subst c'. rewrite (IH d' fuel (pos + 1) ((val + 1) * 128 + d')) by (done || lia || (simpl in Hfuel; lia)).
      cbn [vfold]. rewrite len_cons. f_equal.
      by replace (pos + 1 + len ds) with (pos + (1 + len ds)) by lia.
Qed.

(** Decoding computes the value of the digits, or reports the overflow. *)
Lemma decode_flag pre d ds rest :
  digit d -> Forall digit ds ->
  decode_varint (pre ++ flag d ds ++ rest) (len pre) =
  Ok (if vfold d ds <? 2 ^ 64 then (vfold d ds, len pre + 1 + len ds) else (0, len pre)).
Proof.
  intros Hd Hds. unfold decode_varint.
  set (c := match ds with [] => d | _ => 128 + d end).
  assert (rd (pre ++ flag d ds ++ rest) (len pre) = Ok c) as ->.
  { apply rd_Some; [apply len_nonneg|]. unfold len. rewrite Nat2Z.id, lookup_app_r, Nat.sub_diag by lia.
    unfold c. by destruct ds. }
  cbn [mbind res_bind].
  replace (c &. 127) with d by (unfold c; destruct (digit_land d Hd); by destruct ds).
  unfold digit in Hd.
  rewrite (decode_loop _ _ rest ds d); try done.
  - pose proof (len_nonneg pre). lia.
  - replace (Z.to_nat (len pre + 1 - 1)) with (length pre) by (unfold len; lia).
    by rewrite drop_app_length.
  - lia.
  - rewrite !length_app, length_flag. lia.
Qed.

(** ** The encoder *)

(** What the loop keeps: the bytes already stored are a varint whose value,
    prolonged by what is left in [value], is the integer to encode. *)
Definition encode_inv (v : Z) (s : list Z * Z * Z) : Prop :=
  let '(varint, pos, value) := s in
  exists d ds, digit d /\ Forall digit ds /\ length varint = 16%nat /\
    0 <= pos /\ pos + 1 + len ds = 16 /\
    drop (Z.to_nat pos) varint = flag d ds /\
    0 <= value < 2 ^ (7 * pos - 41) /\ vfold ((value >>. 7) * 128 + d) ds = v.

Lemma encode_step_inv v s :
  encode_inv v s ->
  total (encode_step s) (fun x =>
    match x with
    | inl s' => encode_inv v s' /\ (Z.to_nat s'.1.2 < Z.to_nat s.1.2)%nat
    | inr (varint, pos) => exists d ds, digit d /\ Forall digit ds /\
        length varint = 16%nat /\ 6 <= pos /\ pos + 1 + len ds = 16 /\
        drop (Z.to_nat pos) varint = flag d ds /\ vfold d ds = v
    end).
Proof.
  destruct s as [[varint pos] value].
  intros (d & ds & Hd & Hds & Hl & Hpos & Hlen & Hdrop & Hval & Hv).
  assert (6 <= pos) as Hpos6.
  { destruct (Z.le_gt_cases 6 pos) as [|Hlt]; [done|]. rewrite (Z.pow_neg_r 2) in Hval; lia. }
  unfold encode_step. destruct (tr (value >>. 7)) eqn:Et.
  - apply tr_true in Et. rewrite Z.shiftr_div_pow2 in * by done.
    assert (0 < value / 2 ^ 7 < 2 ^ (7 * (pos - 1) - 41)) as Hq.
    { assert (1 <= pos - 6) as Hp.
      { destruct (Z.eq_dec pos 6) as [->|]; [|lia].
        change (2 ^ (7 * 6 - 41)) with 2 in Hval. dlia. }
      split; [dlia|]. apply Z.div_lt_upper_bound; [done|].
      rewrite <- Z.pow_add_r by lia.
      replace (7 + (7 * (pos - 1) - 41)) with (7 * pos - 41) by lia. lia. }
    rewrite wr_ok by llia. cbn [mbind res_bind wp fst snd].
    split; [|lia].
    assert (digit ((value / 2 ^ 7 - 1) `mod` 2 ^ 7)) as Hd' by (unfold digit; dlia).
    exists ((value / 2 ^ 7 - 1) `mod` 2 ^ 7), (d :: ds).
    rewrite length_insert, len_cons.
    split_and!; try done; try llia.
    + by constructor.
    + rewrite drop_insert_ge by lia.
      replace (Z.to_nat (pos - 1) - Z.to_nat (pos - 1))%nat with 0%nat by lia.
      destruct (drop (Z.to_nat (pos - 1)) varint) as [|y l] eqn:Ed.
      { apply (f_equal length) in Ed. rewrite length_drop in Ed. simpl in Ed. llia. }
      replace (Z.to_nat pos) with (Z.to_nat (pos - 1) + 1)%nat in Hdrop by lia.
      rewrite <- drop_drop, Ed in Hdrop. simpl in Hdrop. rewrite skipn_O in Hdrop. subst l.
      cbn [flag]. change (<[0%nat:=?a]> (?b :: ?c)) with (a :: c). f_equal.
      rewrite (land_mask _ 127 7) by done.
      apply (lor_add 128 _ 7); [done..|]. apply Hd'.
    + cbn [vfold]. rewrite Z.shiftr_div_pow2 by done. rewrite <- Hv. f_equal.
      change (2 ^ 7) with 128. dlia.
  - apply tr_false in Et. cbn [wp]. exists d, ds. split_and!; try done. by rewrite Et in Hv.
Qed.

(** The bytes that [encode_varint] produces, for any 64-bit value. *)
Lemma encode_digits v :
  0 <= v < 2 ^ 64 ->
  exists d ds, digit d /\ Forall digit ds /\ len ds <= 9 /\ vfold d ds = v /\
    (encode_varint v None = Ok (None, 1 + len ds)) /\
    (forall b, 1 + len ds <= len b ->
       encode_varint v (Some b) =
         Ok (Some (flag d ds ++ drop (S (length ds)) b), 1 + len ds)).
Proof.
  intros Hv. set (r := loop 16 encode_step (<[15%nat := v &. 127]> (replicate 16 0), 15, v)).
  assert (total r (fun x => exists d ds, digit d /\ Forall digit ds /\
        length x.1 = 16%nat /\ 6 <= x.2 /\ x.2 + 1 + len ds = 16 /\
        drop (Z.to_nat x.2) x.1 = flag d ds /\ vfold d ds = v)) as Hr.
  { apply (wp_loop _ (encode_inv v) (fun s => Z.to_nat s.1.2)); [|unfold encode_inv|simpl; lia].
    - intros s Hs. eapply wp_mono; [by apply encode_step_inv|].
      intros [s'|[varint pos]]; auto.
    - exists (v &. 127), []. rewrite (land_mask _ 127 7), Z.shiftr_div_pow2 by done.
      cbn [vfold]. split_and!; try done; unfold digit; dlia. }
  apply total_ok in Hr as ([varint pos] & Hr & d & ds & Hd & Hds & Hl & Hpos & Hlen & Hdrop & Hval).
  simpl in Hl, Hpos, Hlen, Hdrop.
  exists d, ds. pose proof (len_nonneg ds).
  assert (u8 (16 - pos) = 1 + len ds) as Hu by (rewrite u8_small; unfold is_byte; lia).
  assert (forall buf, encode_varint v buf =
    buf ← match buf with
          | None => Ok None
          | Some b => src ← rd_slice varint pos (16 - pos); b ← wr_slice b 0 src; Ok (Some b)
          end; Ok (buf, u8 (16 - pos))) as Henc.
  { intros buf. unfold encode_varint. rewrite wr_ok by done. cbn [mbind res_bind].
    change (Z.to_nat 15) with 15%nat. unfold r in Hr. by rewrite Hr. }
  split_and!; try done; try lia.
  - rewrite Henc. simpl. by rewrite Hu.
  - intros b Hb. rewrite Henc, rd_slice_ok by llia. cbn [mbind res_bind].
    assert (slice varint pos (16 - pos) = flag d ds) as ->.
    { unfold slice. rewrite Hdrop. apply take_ge. rewrite length_flag. llia. }
    unfold wr_slice. simpl (0 <? 0). unfold len at 2. rewrite length_flag.
    destruct (Z.ltb_spec (len b) (0 + Z.of_nat (S (length ds)))); [llia|].
    cbn [orb mbind res_bind]. by rewrite Hu.
Qed.

(** ** Uniqueness of the encoding *)

Lemma vfold_snoc a ds x : vfold a (ds ++ [x]) = (vfold a ds + 1) * 128 + x.
Proof. revert a. induction ds as [|d ds IH]; intros a; simpl; [done|apply IH]. Qed.

Lemma vfold_inj d e : digit d -> digit e -> forall ds es,
  Forall digit ds -> Forall digit es -> vfold d ds = vfold e es -> d = e /\ ds = es.
Proof.
  intros Hd He ds. induction ds as [|x ds IH] using rev_ind; intros es Hds Hes;
    destruct es as [|y es _] using rev_ind; rewrite ?vfold_snoc; intros Heq;
    rewrite ?Forall_app, ?Forall_singleton in *; unfold digit in *.
  - done.
  - destruct Hes as [Hes Hy]. pose proof (vfold_ge e es ltac:(lia) Hes). simpl in *. lia.
  - destruct Hds as [Hds Hx]. pose proof (vfold_ge d ds ltac:(lia) Hds). simpl in *. lia.
  - destruct Hes as [Hes Hy], Hds as [Hds Hx].
    assert (x = y /\ vfold d ds = vfold e es) as [-> Hf] by lia.
    by destruct (IH es Hds Hes Hf) as [-> ->].
Qed.

(** Input bytes either start with a varint or never end one. *)
Lemma flag_split l : is_bytes l ->
  (exists d ds rest, l = flag d ds ++ rest /\ digit d /\ Forall digit ds) \/
  Forall (fun c => 128 <= c) l.
Proof.
  intros Hl. induction Hl as [|c l Hc Hl IH]; [by right|].
  unfold is_byte in Hc. destruct (Z.le_gt_cases 128 c).
  - destruct IH as [(d & ds & rest & -> & Hd & Hds)|IH]; [left|right; by constructor].
    exists (c - 128), (d :: ds), rest. split_and!; [|unfold digit; lia|by constructor].
    simpl. f_equal. lia.
  - left. exists c, [], l. split_and!; [done|unfold digit; lia|done].
Qed.

Lemma decode_unterminated buf bufp r : is_bytes buf -> 0 <= bufp ->
  Forall (fun c => 128 <= c) (drop (Z.to_nat bufp) buf) ->
  decode_varint buf bufp = Ok r -> r = (0, bufp).
Proof.
  intros Hb Hp Hall.
  assert (forall i c, bufp <= i -> rd buf i = Ok c -> tr (c &. 128) = true) as Hrd.
  { intros i c Hi Hc. apply rd_inv in Hc as [Hi2 Hc].
    rewrite byte_bit7 by (by eapply is_byte_lookup). apply Z.leb_le.
    eapply (Forall_lookup_1 _ _ (Z.to_nat i - Z.to_nat bufp)); [exact Hall|].
    rewrite lookup_drop. rewrite <- Hc. f_equal. lia. }
  unfold decode_varint. destruct (rd buf bufp) as [c|] eqn:Ec; [|done]. cbn [mbind res_bind].
  apply Hrd in Ec; [|lia]. generalize (c &. 127), (S (length buf)). intros val fuel.
  assert (bufp <= bufp + 1) as Hle by lia. revert Hle. generalize (bufp + 1). revert Ec.
  revert c val. induction fuel as [|fuel IH]; intros c val Ec pos Hle; [done|].
  cbn [loop]. unfold decode_step at 1. cbn [ds_c ds_val ds_pos]. rewrite Ec.
  destruct ((_ =? 0) || _); [by intros [= <-]|].
  destruct (rd buf pos) as [c'|] eqn:Ec'; [|done]. cbn [mbind res_bind].
  apply IH; [by eapply Hrd|lia].
Qed.

(** C5: round trip.  Every 64-bit value survives encoding and decoding: whatever
    the output buffer and whatever surrounds the encoding in the input,
    [encode_varint] writes its return value in bytes at the start of the buffer,
    at most ten of them, and [decode_varint] at their position gives the value
    back and leaves [*bufp] just behind them. *)
Theorem varint_roundtrip v b pre rest :
  0 <= v < 2 ^ 64 -> 10 <= len b ->
  exists bytes tail, encode_varint v (Some b) = Ok (Some (bytes ++ tail), len bytes) /\
    encode_varint v None = Ok (None, len bytes) /\
    1 <= len bytes <= 10 /\ len (bytes ++ tail) = len b /\
    decode_varint (pre ++ bytes ++ rest) (len pre) = Ok (v, len pre + len bytes).
Proof.
  intros Hv Hb. destruct (encode_digits v Hv) as (d & ds & Hd & Hds & Hl & Hval & Hnone & Hsome).
  exists (flag d ds), (drop (S (length ds)) b).
  assert (len (flag d ds) = 1 + len ds) as Hf by (unfold len; rewrite length_flag; lia).
  pose proof (len_nonneg ds). rewrite Hf.
  split_and!; [apply Hsome; lia|done|lia|lia| |].
  - rewrite len_app, Hf. unfold len in *. rewrite length_drop. lia.
  - rewrite decode_flag, Hval by done. rewrite (proj2 (Z.ltb_lt _ _)) by lia. do 2 f_equal. lia.
Qed.

Lemma varint_roundtrip_witness :
  exists bytes tail,
    encode_varint 18446744073709551615 (Some (replicate 12 7)) = Ok (Some (bytes ++ tail), len bytes) /\
    encode_varint 18446744073709551615 None = Ok (None, len bytes) /\
    1 <= len bytes <= 10 /\ len (bytes ++ tail) = len (replicate 12 7) /\
    decode_varint ([1; 2] ++ bytes ++ [200]) (len [1; 2]) =
      Ok (18446744073709551615, len [1; 2] + len bytes).
Proof. apply varint_roundtrip; [lia|]. vm_compute. congruence. Defined.

(** canonicity and overflow.  Whatever the input, when [decode_varint]
    returns it either reports an overflow (value 0, [*bufp] unchanged) or the
    bytes it consumed are exactly the bytes that [encode_varint] writes for the
    value it returns: no integer has two encodings. *)
Theorem decode_varint_canonical buf bufp v p' b :
  is_bytes buf -> 0 <= bufp -> 10 <= len b ->
  decode_varint buf bufp = Ok (v, p') ->
  (v = 0 /\ p' = bufp) \/
  (bufp < p' /\ 0 <= v < 2 ^ 64 /\ exists tail,
     encode_varint v (Some b) = Ok (Some (slice buf bufp (p' - bufp) ++ tail), p' - bufp)).
Proof.
  intros Hb Hp Hlb Hdec.
  destruct (flag_split (drop (Z.to_nat bufp) buf)) as [(d & ds & rest & Hl & Hd & Hds)|Hall].
  { by apply Forall_drop. }
  2: { apply decode_unterminated in Hdec; [|done..]. left. by simplify_eq. }
  assert (Z.to_nat bufp <= length buf)%nat as Hlen.
  { apply (f_equal length) in Hl. rewrite length_drop, length_app, length_flag in Hl. lia. }
  pose proof (take_drop (Z.to_nat bufp) buf) as Hsplit. rewrite Hl in Hsplit.
  assert (bufp = len (take (Z.to_nat bufp) buf)) as Hbp.
  { unfold len. rewrite length_take. lia. }
  pose proof (decode_flag (take (Z.to_nat bufp) buf) d ds rest Hd Hds) as Hf.
  rewrite Hsplit, <- Hbp, Hdec in Hf.
  destruct (Z.ltb_spec (vfold d ds) (2 ^ 64)) as [Hlt|]; injection Hf as -> ->; [right|by left].
  pose proof (len_nonneg ds). unfold digit in Hd. pose proof (vfold_ge d ds ltac:(lia) Hds).
  destruct (encode_digits (vfold d ds)) as (e & es & He & Hes & Hle & Hval & _ & Hsome); [lia|].
  destruct (vfold_inj e d He Hd es ds Hes Hds Hval) as [-> ->].
  split_and!; [lia..|]. exists (drop (S (length ds)) b).
  rewrite Hsome by lia. unfold slice. rewrite Hl.
  rewrite (take_app_length' (flag d ds)); [do 2 f_equal; lia|]. rewrite length_flag. llia.
Qed.

Lemma decode_varint_canonical_witness :
  (145 = 0 /\ 3 = 1) \/
  (1 < 3 /\ 0 <= 145 < 2 ^ 64 /\ exists tail,
     encode_varint 145 (Some (replicate 10 0)) =
       Ok (Some (slice [9; 128; 17; 4] 1 (3 - 1) ++ tail), 3 - 1)).
Proof.
  apply decode_varint_canonical; [|lia|by vm_compute|by vm_compute].
  repeat constructor; unfold is_byte; lia.
Defined.
