(* ===== verification/PatchDelta.v ===== *)
(** * Applying deltas: [delta.h] and [patch-delta.c]

    A delta is two size headers followed by copy and insert instructions.  The
    delta is read from memory [mem], of which the first [top] bytes are the
    delta: a read at or after the end of [mem] is undefined behaviour. *)

From stdpp Require Import prelude numbers list.
From S2P Require Import Prelude.

Definition DELTA_SIZE_MIN : Z := 4.

(** [unsigned_left_shift_overflows] and [st_left_shift] on a [size_t]; shifting
    a 64-bit type by 64 or more is undefined. *)
Definition unsigned_left_shift_overflows (a shift : Z) : bool :=
  (shift <? 64) && (Z.ones 64 >>. shift <? a).

Definition st_left_shift (a shift : Z) : res Z :=
  if unsigned_left_shift_overflows a shift then Fault Died
  else if 64 <=? shift then Fault UB
  else Ok (u64 (a <<. shift)).

(** [unsigned long] has 64 bits here. *)
Definition cast_size_t_to_ulong (a : Z) : res Z :=
  if a =? u64 a then Ok (u64 a) else Fault Died.

Definition unsigned_add_overflows (a b : Z) : bool := Z.ones 64 - a <? b.

(** The do-while loop of [get_delta_hdr_size]: state [data], [size], [i]. *)
Definition hdr_step (mem : list Z) (top : Z) (s : Z * Z * Z)
    : res (Z * Z * Z + Z * Z) :=
  let '(data, size, i) := s in
  cmd ← rd mem data;
  part ← st_left_shift (cmd &. 0x7f) i;
  let data := data + 1 in
  let size := size |. part in
  let i := i + 7 in
  if tr (cmd &. 0x80) && (data <? top) then Ok (inl (data, size, i))
  else Ok (inr (data, size)).

(** Returns the new [*datap] and the size. *)
Definition get_delta_hdr_size (mem : list Z) (top data : Z) : res (Z * Z) :=
  '(data, size) ← loop (S (length mem)) (hdr_step mem top) (data, 0, 0);
  size ← cast_size_t_to_ulong size;
  Ok (data, size).

(** [PARSE_CP_PARAM(bit, var, shift)]; [None] is [goto bad_length]. *)
Definition PARSE_CP_PARAM (mem : list Z) (top cmd bit shift : Z) (s : Z * Z)
    : res (option (Z * Z)) :=
  let '(data, var) := s in
  if tr (cmd &. bit) then
    if top <=? data then Ok None
    else b ← rd mem data; Ok (Some (data + 1, var |. u32 (b <<. shift)))
  else Ok (Some (data, var)).

(** Sequencing of computations that may jump to the error label. *)
Definition obind {A B} (m : res (option A)) (k : A -> res (option B)) : res (option B) :=
  m ≫= (fun o => match o with Some a => k a | None => Ok None end).
Notation "'let?' x := m 'in' k" := (obind m (fun x => k))
  (at level 200, x pattern, right associativity) : c_scope.

Record patch_state := PatchState { pt_data : Z; pt_out : list Z; pt_size : Z }.

(** [memcpy(out, bytes, n); out += n]: [out] is what has been written to
    [dst_buf], an object of [cap] bytes. *)
Definition append_out (cap : Z) (out bytes : list Z) : res (list Z) :=
  if cap <? len out + len bytes then Fault UB else Ok (out ++ bytes).

(** The copy instruction: [Ok None] is [goto bad_length]. *)
Definition patch_copy (src mem : list Z) (top cap cmd : Z) (s : patch_state)
    : res (option patch_state) :=
  let src_size := len src in
  let? (data, cp_off) := PARSE_CP_PARAM mem top cmd 0x01 0 (pt_data s, 0) in
  let? (data, cp_off) := PARSE_CP_PARAM mem top cmd 0x02 8 (data, cp_off) in
  let? (data, cp_off) := PARSE_CP_PARAM mem top cmd 0x04 16 (data, cp_off) in
  let? (data, cp_off) := PARSE_CP_PARAM mem top cmd 0x08 24 (data, cp_off) in
  let? (data, cp_size) := PARSE_CP_PARAM mem top cmd 0x10 0 (data, 0) in
  let? (data, cp_size) := PARSE_CP_PARAM mem top cmd 0x20 8 (data, cp_size) in
  let? (data, cp_size) := PARSE_CP_PARAM mem top cmd 0x40 16 (data, cp_size) in
  let cp_size := if cp_size =? 0 then 0x10000 else cp_size in
  if unsigned_add_overflows cp_off cp_size || (src_size <? u64 (cp_off + cp_size))
     || (pt_size s <? cp_size) then Ok None
  else
    bytes ← rd_slice src cp_off cp_size;
    out ← append_out cap (pt_out s) bytes;
    Ok (Some (PatchState data out (pt_size s - cp_size))).

(** The insert instruction. *)
Definition patch_insert (mem : list Z) (top cap cmd : Z) (s : patch_state)
    : res (option patch_state) :=
  if (pt_size s <? cmd) || (top - pt_data s <? cmd) then Ok None
  else
    bytes ← rd_slice mem (pt_data s) cmd;
    out ← append_out cap (pt_out s) bytes;
    Ok (Some (PatchState (pt_data s + cmd) out (pt_size s - cmd))).

(** One turn of [while (data < top)]; [inr None] is a jump to [bad_length] or
    [bad]. *)
Definition patch_step (src mem : list Z) (top cap : Z) (s : patch_state)
    : res (patch_state + option patch_state) :=
  if pt_data s <? top then
    cmd ← rd mem (pt_data s);
    let s' := PatchState (pt_data s + 1) (pt_out s) (pt_size s) in
    o ← (if tr (cmd &. 0x80) then patch_copy src mem top cap cmd s'
         else if tr cmd then patch_insert mem top cap cmd s'
         else Ok None);
    match o with
    | Some s' => Ok (inl s')
    | None => Ok (inr None)
    end
  else Ok (inr (Some s)).

Section PatchDelta.
(** Whether [malloc] of that many bytes succeeds. *)
Context (malloc_ok : Z -> bool).

(** [xmallocz]: dies when [size + 1] overflows and when memory runs out. *)
Definition xmallocz (size : Z) : res Z :=
  if unsigned_add_overflows size 1 then Fault Died
  else if malloc_ok (size + 1) then Ok (size + 1) else Fault Died.

(** [None] is the [NULL] result. *)
Definition patch_delta (src mem : list Z) (delta_size : Z) : res (option (list Z)) :=
  if delta_size <? DELTA_SIZE_MIN then Ok None
  else
    let top := delta_size in
    '(data, size) ← get_delta_hdr_size mem top 0;
    if negb (size =? len src) then Ok None
    else
      '(data, size) ← get_delta_hdr_size mem top data;
      cap ← xmallocz size;
      o ← loop (S (length mem)) (patch_step src mem top cap) (PatchState data [] size);
      match o with
      | None => Ok None
      | Some s =>
          if negb (pt_data s =? top) || negb (pt_size s =? 0) then Ok None
          else Ok (Some (pt_out s))
      end.
End PatchDelta.

(** ** Memory safety *)

(** Ten consecutive bytes of the delta with the continuation bit set: what it
    takes to drive the header parser to an undefined shift. *)
Definition long_header (mem : list Z) (top : Z) : Prop :=
  exists data, 0 <= data /\ data + 10 < top /\
    forall k, 0 <= k < 10 -> exists c, rd mem (data + k) = Ok c /\ tr (c &. 0x80) = true.

Definition hdr_fault (mem : list Z) (top : Z) (f : fault) : Prop :=
  f = Died \/ (f = UB /\ long_header mem top).

Lemma lor_range a b k : 0 <= k -> 0 <= a < 2 ^ k -> 0 <= b < 2 ^ k -> 0 <= Z.lor a b < 2 ^ k.
Proof.
  intros Hk Ha Hb. assert (Z.lor a b = Z.lor a b `mod` 2 ^ k) as ->.
  { rewrite <- (Z.mod_small a (2 ^ k)), <- (Z.mod_small b (2 ^ k)) at 1 by done.
    rewrite <- (Z.mod_small a (2 ^ k)), <- (Z.mod_small b (2 ^ k)) at 1 by done. bitsolve. }
  apply Z.mod_pos_bound. lia.
Qed.















(** With one more byte behind the same delta it is refused. *)
Example patch_delta_guarded :
  patch_delta (fun _ => true) [1; 2; 3; 4; 5] [0x85; 0x80; 0x80; 0x80; 0] 4 = Ok None.
Proof. done. Qed.

(** The undefined shift: the overflow check lets shifts of 64 bits and more
    through. *)
Example long_header_shift :
  unsigned_left_shift_overflows 1 70 = false /\
  patch_delta (fun _ => true) [] (replicate 11 0x80 ++ [0; 0]) 12 = Fault UB.
Proof. done. Qed.
