(* ===== verification/DeltaFormat.v ===== *)
(** * The delta format

    What a delta means: the abstract syntax of deltas, the bytes that
    [create_delta] writes for it, and the proof that [patch_delta] executes it.
    [DiffDelta.v] uses these lemmas to show that the encoder and the decoder
    agree. *)

From stdpp Require Import prelude numbers list.
From S2P Require Import Prelude PatchDelta.

(** A copy of [n] source bytes from [off] on, or an insertion. *)
Inductive delta_op :=
| OpCopy (off n : Z)
| OpInsert (l : list Z).

Definition op_wf (src : list Z) (o : delta_op) : Prop :=
  match o with
  | OpCopy off n => 0 <= off < 2 ^ 32 /\ 1 <= n <= 0x10000 /\ off + n <= len src
  | OpInsert l => 1 <= len l <= 127 /\ is_bytes l
  end.

(** The bytes the operation produces. *)
Definition op_out (src : list Z) (o : delta_op) : list Z :=
  match o with
  | OpCopy off n => slice src off n
  | OpInsert l => l
  end.

Definition ops_out (src : list Z) (ops : list delta_op) : list Z :=
  concat (map (op_out src) ops).

(** [field b x]: an optional argument byte. *)
Definition field (b : bool) (x : Z) : list Z := if b then [x] else [].

Lemma len_field b x : len (field b x) = if b then 1 else 0.
Proof. by destruct b. Qed.

(** Byte [k] of [x] is not zero. *)
Definition has_byte (x k : Z) : bool := tr (x &. (0xff <<. (8 * k))).
Definition get_byte (x k : Z) : Z := u8 (x >>. (8 * k)).

Definition b2bit (b : bool) (bit : Z) : Z := if b then bit else 0.

Definition copy_cmd (b0 b1 b2 b3 b4 b5 : bool) : Z :=
  0x80 |. b2bit b0 0x01 |. b2bit b1 0x02 |. b2bit b2 0x04 |. b2bit b3 0x08
       |. b2bit b4 0x10 |. b2bit b5 0x20.

Definition op_bytes (o : delta_op) : list Z :=
  match o with
  | OpCopy off n =>
      copy_cmd (has_byte off 0) (has_byte off 1) (has_byte off 2) (has_byte off 3)
               (has_byte n 0) (has_byte n 1) ::
      field (has_byte off 0) (get_byte off 0) ++ field (has_byte off 1) (get_byte off 1) ++
      field (has_byte off 2) (get_byte off 2) ++ field (has_byte off 3) (get_byte off 3) ++
      field (has_byte n 0) (get_byte n 0) ++ field (has_byte n 1) (get_byte n 1)
  | OpInsert l => len l :: l
  end.

Definition ops_bytes (ops : list delta_op) : list Z := concat (map op_bytes ops).

(** The size header: seven bits per byte, least significant first. *)
Fixpoint hdr_bytes (fuel : nat) (l : Z) : list Z :=
  match fuel with
  | O => [l]
  | S n => if 0x80 <=? l then u8 (l |. 0x80) :: hdr_bytes n (l >>. 7) else [l]
  end.

Definition delta_hdr (l : Z) : list Z := hdr_bytes 9 l.

(** ** The header is read back *)

Lemma lor_128 l : 0 <= l -> u8 (l |. 0x80) = 128 + l `mod` 128.
Proof.
  intros Hl. unfold u8. change 128 with (2 ^ 7) at 3.
  rewrite <- (lor_add 128 (l `mod` 2 ^ 7) 7); [|done|done|apply Z.mod_pos_bound; lia].
  change 128 with (Z.ones 1 <<. 7). bitsolve.
Qed.

Lemma hdr_byte_cont l : 0 <= l ->
  u8 (l |. 0x80) &. 0x7f = l `mod` 128 /\ tr (u8 (l |. 0x80) &. 0x80) = true.
Proof.
  intros Hl. rewrite byte_bit7 by apply u8_byte. rewrite lor_128 by done.
  rewrite (land_mask _ 0x7f 7) by done. split; [dlia|]. apply Z.leb_le. dlia.
Qed.

Lemma hdr_bytes_S n l : hdr_bytes (S n) l =
  if 0x80 <=? l then u8 (l |. 0x80) :: hdr_bytes n (l >>. 7) else [l].
Proof. done. Qed.

Lemma hdr_bytes_length fuel l : (1 <= length (hdr_bytes fuel l))%nat.
Proof. destruct fuel; simpl; [lia|]. destruct (_ <=? _); simpl; lia. Qed.

(** The shift of one header byte into place. *)
Lemma st_left_shift_part L i : 0 <= L < 2 ^ 64 -> 0 <= i < 64 ->
  st_left_shift ((L / 2 ^ i) `mod` 128) i = Ok ((L / 2 ^ i) `mod` 128 * 2 ^ i).
Proof.
  intros HL Hi. unfold st_left_shift, unsigned_left_shift_overflows.
  assert (0 < 2 ^ i) by lia.
  assert ((L / 2 ^ i) `mod` 128 * 2 ^ i <= L).
  { pose proof (Z.mul_div_le L (2 ^ i) ltac:(lia)).
    assert (0 <= L / 2 ^ i) by (apply Z.div_pos; lia).
    assert ((L / 2 ^ i) `mod` 128 <= L / 2 ^ i) by (apply Z.mod_le; lia). nia. }
  assert (0 <= (L / 2 ^ i) `mod` 128) by (apply Z.mod_pos_bound; lia).
  rewrite Z.shiftr_div_pow2 by lia.
  destruct (Z.ltb_spec (Z.ones 64 / 2 ^ i) ((L / 2 ^ i) `mod` 128)) as [Hov|].
  - exfalso. assert ((L / 2 ^ i) `mod` 128 <= Z.ones 64 / 2 ^ i); [|lia].
    apply Z.div_le_lower_bound; [lia|]. change (Z.ones 64) with (2 ^ 64 - 1). lia.
  - rewrite andb_false_r. destruct (Z.leb_spec 64 i); [lia|].
    rewrite Z.shiftl_mul_pow2, u64_small by lia. done.
Qed.

Lemma lor_part L i : 0 <= L -> 0 <= i ->
  L `mod` 2 ^ i |. ((L / 2 ^ i) `mod` 128 * 2 ^ i) = L `mod` 2 ^ (i + 7).
Proof.
  intros HL Hi. rewrite <- Z.shiftl_mul_pow2, <- Z.shiftr_div_pow2 by done.
  change 128 with (2 ^ 7). bitsolve.
Qed.

Lemma drop_cons_inv {A} (l : list A) (n : nat) x k :
  drop n l = x :: k -> l !! n = Some x /\ drop (S n) l = k.
Proof.
  intros H. split.
  - rewrite <- (Nat.add_0_r n), <- lookup_drop, H. done.
  - replace (S n) with (n + 1)%nat by lia. by rewrite <- drop_drop, H.
Qed.

Lemma rd_drop {A} (l : list A) i x k :
  0 <= i -> drop (Z.to_nat i) l = x :: k -> rd l i = Ok x /\ drop (Z.to_nat (i + 1)) l = k.
Proof.
  intros Hi H. apply drop_cons_inv in H as [H1 H2]. split; [by apply rd_Some|].
  by replace (Z.to_nat (i + 1)) with (S (Z.to_nat i)) by lia.
Qed.

(** The last byte of a header ends the loop with the whole size. *)
Lemma hdr_step_last mem top rest L i data :
  0 <= L < 2 ^ 64 -> 0 <= i < 64 -> 0 <= data -> L / 2 ^ i < 128 ->
  drop (Z.to_nat data) mem = [L / 2 ^ i] ++ rest ->
  hdr_step mem top (data, L `mod` 2 ^ i, i) = Ok (inr (data + 1, L)).
Proof.
  intros HL Hi Hd Hlt Hdrop. destruct (rd_drop _ _ _ _ Hd Hdrop) as [Hr _].
  assert (0 <= L / 2 ^ i) by (apply Z.div_pos; lia).
  unfold hdr_step. rewrite Hr. cbn [mbind res_bind].
  rewrite (land_mask _ 0x7f 7) by done. change (2 ^ 7) with 128.
  rewrite st_left_shift_part, byte_bit7 by (done || (unfold is_byte; lia)). cbn [mbind res_bind].
  destruct (Z.leb_spec 128 (L / 2 ^ i)); [lia|]. cbn [andb]. rewrite lor_part by lia.
  rewrite Z.mod_small; [done|]. split; [lia|].
  rewrite Z.pow_add_r by lia. 
  pose proof (Z.div_mod L (2 ^ i) ltac:(lia)). pose proof (Z.mod_pos_bound L (2 ^ i) ltac:(lia)).
  change (2 ^ 7) with 128. nia.
Qed.

Lemma hdr_loop mem top rest L : 0 <= L < 2 ^ 64 -> forall n data fuel,
  let i := 7 * (9 - Z.of_nat n) in
  (n <= 9)%nat -> 0 <= data ->
  drop (Z.to_nat data) mem = hdr_bytes n (L / 2 ^ i) ++ rest ->
  data + len (hdr_bytes n (L / 2 ^ i)) <= top ->
  (length (hdr_bytes n (L / 2 ^ i)) <= fuel)%nat ->
  loop fuel (hdr_step mem top) (data, L `mod` 2 ^ i, i) =
  Ok (data + len (hdr_bytes n (L / 2 ^ i)), L).
Proof.
  intros HL n. induction n as [|n IH]; intros data fuel i Hn Hd Hdrop Htop Hfuel;
    (destruct fuel as [|fuel];
      [match type of Hfuel with (length (hdr_bytes ?a ?b) <= _)%nat =>
         pose proof (hdr_bytes_length a b); lia end|]); cbn [loop hdr_bytes] in *; subst i.
  - rewrite (hdr_step_last mem top rest) by (done || lia || dlia). done.
  - set (i := 7 * (9 - Z.of_nat (S n))) in *. assert (0 <= i <= 56) by lia.
    assert (0 <= L / 2 ^ i) by (apply Z.div_pos; lia).
    destruct (Z.leb_spec 128 (L / 2 ^ i)) as [Hge|].
    2: { rewrite (hdr_step_last mem top rest) by (done || lia). done. }
    destruct (rd_drop _ _ _ _ Hd Hdrop) as [Hr Hdrop'].
    destruct (hdr_byte_cont (L / 2 ^ i)) as [H7 Hc]; [lia|].
    unfold hdr_step at 1. rewrite Hr. cbn [mbind res_bind]. rewrite H7, st_left_shift_part by (done || lia).
    cbn [mbind res_bind]. rewrite Hc, lor_part by lia. rewrite len_cons in Htop.
    assert ((L / 2 ^ i) >>. 7 = L / 2 ^ (i + 7)) as Hsh.
    { rewrite Z.shiftr_div_pow2, Z.div_div, <- Z.pow_add_r by lia. done. }
    rewrite Hsh in *. cbn [length] in Hfuel. replace (i + 7) with (7 * (9 - Z.of_nat n)) in * by lia.
    assert (1 <= len (hdr_bytes n (L / 2 ^ (7 * (9 - Z.of_nat n))))).
    { pose proof (hdr_bytes_length n (L / 2 ^ (7 * (9 - Z.of_nat n)))). llia. }
    destruct (Z.ltb_spec (data + 1) top); [|lia]. cbn [andb].
    rewrite (IH (data + 1) fuel) by (done || lia). rewrite len_cons. do 2 f_equal. lia.
Qed.

Lemma get_delta_hdr_size_hdr mem top rest L data :
  0 <= L < 2 ^ 64 -> 0 <= data ->
  drop (Z.to_nat data) mem = delta_hdr L ++ rest ->
  data + len (delta_hdr L) <= top -> top <= len mem ->
  get_delta_hdr_size mem top data = Ok (data + len (delta_hdr L), L).
Proof.
  intros HL Hd Hdrop Htop Hm. unfold get_delta_hdr_size.
  pose proof (hdr_loop mem top rest L HL 9 data (S (length mem)) ltac:(lia) Hd) as H.
  change (7 * (9 - Z.of_nat 9)) with 0 in H. rewrite Z.pow_0_r, Z.div_1_r, Z.mod_1_r in H.
  unfold delta_hdr in *.
  rewrite H by (done || lia || llia). cbn [mbind res_bind].
  unfold cast_size_t_to_ulong. by rewrite u64_small, Z.eqb_refl by done.
Qed.

(** ** The instructions are executed *)

Lemma copy_cmd_bits b0 b1 b2 b3 b4 b5 (c := copy_cmd b0 b1 b2 b3 b4 b5) :
  tr (c &. 0x01) = b0 /\ tr (c &. 0x02) = b1 /\ tr (c &. 0x04) = b2 /\ tr (c &. 0x08) = b3 /\
  tr (c &. 0x10) = b4 /\ tr (c &. 0x20) = b5 /\ tr (c &. 0x40) = false /\
  tr (c &. 0x80) = true /\ is_byte c.
Proof. unfold is_byte. by destruct b0, b1, b2, b3, b4, b5; vm_compute. Qed.

(** The bits of [x] that argument byte [k] carries. *)
Definition part (x k : Z) : Z := x &. (0xff <<. (8 * k)).

Lemma part_byte x k : 0 <= x -> 0 <= k <= 3 ->
  (if has_byte x k then u32 (get_byte x k <<. (8 * k)) else 0) = part x k.
Proof.
  intros Hx Hk.
  assert (u32 (get_byte x k <<. (8 * k)) = part x k) as E.
  { unfold u32, get_byte, u8, part. change 0xff with (Z.ones 8). bitsolve. }
  rewrite E. unfold has_byte. fold (part x k). destruct (tr (part x k)) eqn:Et; [done|].
  by apply tr_false in Et.
Qed.

Lemma parts_4 x : 0 <= x < 2 ^ 32 -> 0 |. part x 0 |. part x 1 |. part x 2 |. part x 3 = x.
Proof.
  intros Hx. unfold part. rewrite <- (Z.mod_small x (2 ^ 32)) by done.
  change 0xff with (Z.ones 8). simpl (8 * _). rewrite Z.lor_0_l. bitsolve.
Qed.

Lemma parts_2 x : 0 <= x < 2 ^ 16 -> 0 |. part x 0 |. part x 1 = x.
Proof.
  intros Hx. unfold part. rewrite <- (Z.mod_small x (2 ^ 16)) by done.
  change 0xff with (Z.ones 8). simpl (8 * _). rewrite Z.lor_0_l. bitsolve.
Qed.

Lemma parse_field mem top cmd bit k data var x rest :
  tr (cmd &. bit) = has_byte x k -> 0 <= x -> 0 <= k <= 3 -> 0 <= data ->
  drop (Z.to_nat data) mem = field (has_byte x k) (get_byte x k) ++ rest ->
  data + len (field (has_byte x k) (get_byte x k)) <= top ->
  PARSE_CP_PARAM mem top cmd bit (8 * k) (data, var) =
    Ok (Some (data + len (field (has_byte x k) (get_byte x k)), var |. part x k)) /\
  drop (Z.to_nat (data + len (field (has_byte x k) (get_byte x k)))) mem = rest.
Proof.
  intros Hbit Hx Hk Hd Hdrop Htop. rewrite <- part_byte by done.
  unfold PARSE_CP_PARAM. rewrite Hbit. destruct (has_byte x k); cbn [field app] in *.
  - destruct (rd_drop _ _ _ _ Hd Hdrop) as [-> ?].
    change (len [get_byte x k]) with 1 in *. destruct (Z.leb_spec top data); [lia|]. done.
  - change (len []) with 0. by rewrite Z.add_0_r, Z.lor_0_r.
Qed.

(** Runs [parse_field] on the next argument of a copy instruction. *)
Ltac parse_arg bit k x :=
  lazymatch goal with
  | Hd : drop (Z.to_nat ?d) ?mem = field (has_byte x k) _ ++ ?rest
    |- context [PARSE_CP_PARAM ?mem ?top ?cmd bit _ (?d, ?v)] =>
      let H := fresh in let Hp := fresh in
      destruct (parse_field mem top cmd bit k d v x rest) as [H Hp];
        [done|lia|lia|lia|done|lia|];
      let sh := eval vm_compute in (8 * k) in change (8 * k) with sh in H; rewrite H; cbn [obind mbind res_bind]; clear H Hd
  end.

Lemma patch_copy_exec src mem top cap off n data out size rest :
  op_wf src (OpCopy off n) -> len src < 2 ^ 64 -> 0 <= data ->
  drop (Z.to_nat data) mem = tail (op_bytes (OpCopy off n)) ++ rest ->
  data + len (tail (op_bytes (OpCopy off n))) <= top ->
  n <= size -> len out + n <= cap ->
  patch_copy src mem top cap
    (copy_cmd (has_byte off 0) (has_byte off 1) (has_byte off 2) (has_byte off 3)
              (has_byte n 0) (has_byte n 1)) (PatchState data out size) =
  Ok (Some (PatchState (data + len (tail (op_bytes (OpCopy off n))))
                       (out ++ slice src off n) (size - n))).
Proof.
  intros (Hoff & Hn & Hin) Hsrc Hd Hdrop Htop Hsz Hcap.
  destruct (copy_cmd_bits (has_byte off 0) (has_byte off 1) (has_byte off 2) (has_byte off 3)
              (has_byte n 0) (has_byte n 1)) as (H0 & H1 & H2 & H3 & H4 & H5 & H6 & _ & _).
  set (cmd := copy_cmd _ _ _ _ _ _) in *. clearbody cmd.
  cbn [op_bytes tail] in *. rewrite <- !app_assoc in Hdrop. rewrite !len_app in *.
  pose proof (len_nonneg (field (has_byte off 0) (get_byte off 0))).
  pose proof (len_nonneg (field (has_byte off 1) (get_byte off 1))).
  pose proof (len_nonneg (field (has_byte off 2) (get_byte off 2))).
  pose proof (len_nonneg (field (has_byte off 3) (get_byte off 3))).
  pose proof (len_nonneg (field (has_byte n 0) (get_byte n 0))).
  pose proof (len_nonneg (field (has_byte n 1) (get_byte n 1))).
  unfold patch_copy. cbn [pt_data pt_out pt_size].
  parse_arg 0x01 0 off. parse_arg 0x02 1 off. parse_arg 0x04 2 off. parse_arg 0x08 3 off.
  parse_arg 0x10 0 n. parse_arg 0x20 1 n.
  unfold PARSE_CP_PARAM at 1. rewrite H6. cbn [obind mbind res_bind].
  rewrite parts_4 by lia.
  assert ((if 0 |. part n 0 |. part n 1 =? 0 then 0x10000 else 0 |. part n 0 |. part n 1) = n) as ->.
  { destruct (Z.eq_dec n 0x10000) as [->|]; [done|]. rewrite parts_2 by lia.
    destruct (Z.eqb_spec n 0); [lia|done]. }
  unfold unsigned_add_overflows. change (Z.ones 64) with (2 ^ 64 - 1).
  rewrite (proj2 (Z.ltb_ge _ n)), u64_small by lia.
  destruct (Z.ltb_spec (len src) (off + n)), (Z.ltb_spec size n); try lia. cbn [orb].
  rewrite rd_slice_ok by lia. cbn [mbind res_bind]. unfold append_out.
  rewrite len_slice, (proj2 (Z.ltb_ge _ _)) by lia. cbn [mbind res_bind].
  do 3 f_equal. lia.
Qed.

(** One instruction is one turn of the loop. *)
Lemma patch_step_exec src mem top cap o data out size rest :
  op_wf src o -> len src < 2 ^ 64 -> 0 <= data ->
  drop (Z.to_nat data) mem = op_bytes o ++ rest ->
  data + len (op_bytes o) <= top -> top <= len mem ->
  len (op_out src o) <= size -> len out + len (op_out src o) <= cap ->
  patch_step src mem top cap (PatchState data out size) =
  Ok (inl (PatchState (data + len (op_bytes o)) (out ++ op_out src o)
                      (size - len (op_out src o)))).
Proof.
  intros Hwf Hsrc Hd Hdrop Htop Hmem Hsz Hcap. unfold patch_step. cbn [pt_data pt_out pt_size].
  assert (1 <= len (op_bytes o)).
  { destruct o; cbn [op_bytes]; rewrite len_cons; match goal with |- _ <= _ + len ?l =>
      pose proof (len_nonneg l) end; lia. }
  destruct (Z.ltb_spec data top); [|lia]. destruct o as [off n|l].
  - pose proof Hwf as (Hoff & Hn & Hin). cbn [op_out] in *. rewrite len_slice in * by lia.
    pose proof (patch_copy_exec src mem top cap off n (data + 1) out size rest Hwf Hsrc ltac:(lia)) as Hx.
    cbn [op_bytes tail] in *. rewrite len_cons in *. cbn [app] in Hdrop.
    destruct (rd_drop _ _ _ _ Hd Hdrop) as [-> Hdrop']. cbn [mbind res_bind].
    rewrite (proj1 (proj2 (proj2 (proj2 (proj2 (proj2 (proj2 (proj2 (copy_cmd_bits _ _ _ _ _ _))))))))).
    rewrite Hx by (done || lia). cbn [mbind res_bind]. by rewrite Z.add_assoc.
  - destruct Hwf as [Hl Hb]. cbn [op_bytes op_out app] in *. rewrite len_cons in *.
    destruct (rd_drop _ _ _ _ Hd Hdrop) as [-> Hdrop']. cbn [mbind res_bind].
    rewrite byte_bit7 by (unfold is_byte; lia). destruct (Z.leb_spec 128 (len l)); [lia|].
    rewrite (proj2 (tr_true (len l))) by lia.
    unfold patch_insert. cbn [pt_data pt_out pt_size].
    destruct (Z.ltb_spec size (len l)), (Z.ltb_spec (top - (data + 1)) (len l)); try lia. cbn [orb].
    rewrite rd_slice_ok by lia. cbn [mbind res_bind].
    assert (slice mem (data + 1) (len l) = l) as ->.
    { unfold slice. rewrite Hdrop'. unfold len. rewrite Nat2Z.id. by apply take_app_length. }
    unfold append_out. rewrite (proj2 (Z.ltb_ge _ _)) by lia. cbn [mbind res_bind].
    by rewrite Z.add_assoc.
Qed.

Lemma ops_bytes_cons o ops : ops_bytes (o :: ops) = op_bytes o ++ ops_bytes ops.
Proof. done. Qed.

Lemma ops_out_cons src o ops : ops_out src (o :: ops) = op_out src o ++ ops_out src ops.
Proof. done. Qed.

Lemma ops_bytes_app a b : ops_bytes (a ++ b) = ops_bytes a ++ ops_bytes b.
Proof. unfold ops_bytes. by rewrite map_app, concat_app. Qed.

Lemma ops_out_app src a b : ops_out src (a ++ b) = ops_out src a ++ ops_out src b.
Proof. unfold ops_out. by rewrite map_app, concat_app. Qed.

Lemma drop_app_len {A} (l k1 k2 : list A) d :
  0 <= d -> drop (Z.to_nat d) l = k1 ++ k2 -> drop (Z.to_nat (d + len k1)) l = k2.
Proof.
  intros Hd H. replace (Z.to_nat (d + len k1)) with (Z.to_nat d + length k1)%nat by llia.
  by rewrite <- drop_drop, H, drop_app_length.
Qed.

Lemma op_bytes_length o : (1 <= length (op_bytes o))%nat.
Proof. destruct o; simpl; lia. Qed.

Lemma patch_loop_exec src mem top cap rest : len src < 2 ^ 64 -> top <= len mem ->
  forall ops data out size fuel,
  Forall (op_wf src) ops -> 0 <= data ->
  drop (Z.to_nat data) mem = ops_bytes ops ++ rest ->
  data + len (ops_bytes ops) = top ->
  len (ops_out src ops) = size -> len out + size <= cap ->
  (length (ops_bytes ops) < fuel)%nat ->
  loop fuel (patch_step src mem top cap) (PatchState data out size) =
  Ok (Some (PatchState top (out ++ ops_out src ops) 0)).
Proof.
  intros Hsrc Hmem. induction ops as [|o ops IH]; intros data out size fuel Hwf Hd Hdrop Htop Hsz Hcap Hf;
    (destruct fuel as [|fuel]; [lia|]).
  - change (len (ops_bytes [])) with 0 in Htop. change (len (ops_out src [])) with 0 in Hsz. subst.
    simpl. unfold patch_step. cbn [pt_data]. rewrite (proj2 (Z.ltb_ge _ _)) by lia.
    by rewrite Z.add_0_r, app_nil_r.
  - apply Forall_cons in Hwf as [Ho Hwf].
    rewrite ops_bytes_cons, len_app in *. rewrite ops_out_cons, len_app in *.
    rewrite length_app in Hf. rewrite <- app_assoc in Hdrop.
    pose proof (len_nonneg (ops_bytes ops)). pose proof (len_nonneg (ops_out src ops)).
    pose proof (op_bytes_length o).
    cbn [loop]. rewrite (patch_step_exec src mem top cap o data out size (ops_bytes ops ++ rest));
      try (done || lia).
    rewrite (IH (data + len (op_bytes o))); [by rewrite app_assoc|done|llia| .. ].
    + by apply drop_app_len.
    + lia.
    + lia.
    + rewrite len_app. lia.
    + lia.
Qed.

(** A delta has at least four bytes. *)
Lemma delta_length src ops tgt : Forall (op_wf src) ops -> ops <> [] -> len src < 2 ^ 64 ->
  DELTA_SIZE_MIN <= len (delta_hdr (len src) ++ delta_hdr tgt ++ ops_bytes ops).
Proof.
  intros Hwf Hne Hs. rewrite !len_app. unfold DELTA_SIZE_MIN, delta_hdr.
  pose proof (hdr_bytes_length 9 tgt) as Ht.
  destruct ops as [|o ops]; [done|]. apply Forall_cons in Hwf as [Ho _].
  rewrite ops_bytes_cons, len_app. pose proof (len_nonneg (ops_bytes ops)).
  destruct (Z.le_gt_cases 2 (len (op_bytes o))) as [|Hop].
  { pose proof (hdr_bytes_length 9 (len src)). llia. }
  assert (3 <= len (hdr_bytes 9 (len src))); [|pose proof (op_bytes_length o); llia].
  destruct o as [off n|l]; cbn [op_bytes] in Hop; rewrite len_cons in Hop; [|destruct Ho; lia].
  rewrite !len_app, !len_field in Hop. destruct Ho as (? & ? & ?).
  assert (n = 0x10000) as ->.
  { destruct (Z.eq_dec n 0x10000) as [|]; [done|]. exfalso.
    pose proof (parts_2 n ltac:(lia)) as Hp. rewrite <- !part_byte in Hp by lia.
    destruct (has_byte n 0), (has_byte n 1); repeat case_match; try lia;
      rewrite ?Z.lor_0_l in Hp; lia. }
  rewrite (hdr_bytes_S 8). destruct (Z.leb_spec 128 (len src)); [|lia].
  rewrite (hdr_bytes_S 7), Z.shiftr_div_pow2 by done.
  destruct (Z.leb_spec 128 (len src / 2 ^ 7)); [|dlia].
  rewrite !len_cons. pose proof (hdr_bytes_length 7 ((len src / 2 ^ 7) >>. 7)). llia.
Qed.

(** [patch_delta] executes a well-formed delta. *)
Lemma patch_delta_ops malloc_ok src ops guard :
  Forall (op_wf src) ops -> ops <> [] -> len src < 2 ^ 64 ->
  len (ops_out src ops) < 2 ^ 64 - 1 -> malloc_ok (len (ops_out src ops) + 1) = true ->
  let delta := delta_hdr (len src) ++ delta_hdr (len (ops_out src ops)) ++ ops_bytes ops in
  patch_delta malloc_ok src (delta ++ guard) (len delta) = Ok (Some (ops_out src ops)).
Proof.
  intros Hwf Hne Hsrc Hout Hmal delta.
  pose proof (delta_length src ops (len (ops_out src ops)) Hwf Hne Hsrc) as Hmin. fold delta in Hmin.
  set (mem := delta ++ guard). set (top := len delta).
  assert (top <= len mem) by (unfold mem, top; rewrite len_app; pose proof (len_nonneg guard); lia).
  assert (top = len (delta_hdr (len src)) + (len (delta_hdr (len (ops_out src ops))) + len (ops_bytes ops)))
    as Htop by (unfold top, delta; by rewrite !len_app).
  pose proof (len_nonneg (ops_bytes ops)). pose proof (len_nonneg src).
  pose proof (len_nonneg (delta_hdr (len src))). pose proof (len_nonneg (ops_out src ops)).
  pose proof (len_nonneg (delta_hdr (len (ops_out src ops)))).
  assert (drop (Z.to_nat 0) mem = delta_hdr (len src) ++ delta_hdr (len (ops_out src ops)) ++
    ops_bytes ops ++ guard) as D0 by (unfold mem, delta; by rewrite <- !app_assoc).
  pose proof (drop_app_len _ _ _ 0 ltac:(lia) D0) as D1.
  rewrite Z.add_0_l in D1. pose proof (drop_app_len _ _ _ (len (delta_hdr (len src))) ltac:(lia) D1) as D2.
  unfold patch_delta. destruct (Z.ltb_spec top DELTA_SIZE_MIN); [lia|].
  rewrite (get_delta_hdr_size_hdr mem top _ (len src) 0 ltac:(lia) ltac:(lia) D0) by lia.
  cbn [mbind res_bind]. rewrite Z.eqb_refl, Z.add_0_l. cbn [negb].
  rewrite (get_delta_hdr_size_hdr mem top _ (len (ops_out src ops)) (len (delta_hdr (len src))) ltac:(lia) ltac:(lia) D1) by lia.
  cbn [mbind res_bind]. unfold xmallocz, unsigned_add_overflows.
  change (Z.ones 64) with (2 ^ 64 - 1).
  destruct (Z.ltb_spec (2 ^ 64 - 1 - len (ops_out src ops)) 1); [lia|]. rewrite Hmal.
  cbn [mbind res_bind].
  rewrite (patch_loop_exec src mem top _ guard) with (ops := ops);
    rewrite ?len_nil; try (done || lia || llia).
  cbn [mbind res_bind pt_data pt_size]. by rewrite Z.eqb_refl.
Qed.
