(* ===== verification/DeltaIndex.v ===== *)
(** * Indexing the source of a delta: [create_delta_index] of [diff-delta.c]

    A pointer into the source buffer is its offset.  The unpacked entries are an
    array, in the order of their allocation, and the linked list of a bucket is
    the list of the positions of its entries, so that [entry[-1]] is the last
    entry of the array whichever bucket holds it. *)

From stdpp Require Import prelude numbers list.
From S2P Require Import Prelude Rabin.

Definition HASH_LIMIT : Z := 64.

Record index_entry := IndexEntry { ie_ptr : Z; ie_val : Z }.

#[export] Instance index_entry_inhabited : Inhabited index_entry := populate (IndexEntry 0 0).

Record delta_index := DeltaIndex {
  di_memsize : Z;
  di_src : list Z;                 (** [src_buf] and [src_size] *)
  di_hash_mask : Z;
  di_hash : list Z;                (** positions in the packed entries *)
  di_entries : list index_entry }.

(** The unpacked index under construction: [entry] (allocated so far), [hash],
    [hash_count], [entries] and [prev_val]. *)
Record unpacked := Unpacked {
  up_ents : list index_entry;
  up_hash : list (list Z);
  up_count : list Z;
  up_entries : Z;
  up_prev : Z }.

(** [for (i = 4; (1u << i) < hsize; i++);] *)
Definition hash_bits (hsize : Z) : res Z :=
  loop 32 (fun i => if u32 (1 <<. i) <? hsize then Ok (inl (i + 1)) else Ok (inr i)) 4.

(** The hash of the sixteen bytes [data[1] .. data[16]]. *)
Definition block_hash (buf : list Z) (data : Z) : res Z :=
  cs ← rd_slice buf (data + 1) RABIN_WINDOW;
  rabin_pushes 0 cs.

(** The body of the loop that populates the index. *)
Definition index_block (buf : list Z) (hmask data : Z) (s : unpacked) : res unpacked :=
  val ← block_hash buf data;
  if val =? up_prev s then
    last ← rd (up_ents s) (len (up_ents s) - 1);
    ents ← wr (up_ents s) (len (up_ents s) - 1) (IndexEntry (data + RABIN_WINDOW) (ie_val last));
    Ok (Unpacked ents (up_hash s) (up_count s) (u32 (up_entries s - 1)) (up_prev s))
  else
    let i := val &. hmask in
    chain ← rd (up_hash s) i;
    hash ← wr (up_hash s) i (len (up_ents s) :: chain);
    n ← rd (up_count s) i;
    count ← wr (up_count s) i (u32 (n + 1));
    Ok (Unpacked (up_ents s ++ [IndexEntry (data + RABIN_WINDOW) val]) hash count
                 (up_entries s) val).

Definition index_step (buf : list Z) (hmask : Z) (s : Z * unpacked)
    : res (Z * unpacked + unpacked) :=
  let '(data, u) := s in
  if 0 <=? data then
    u ← index_block buf hmask data u;
    Ok (inl (data - RABIN_WINDOW, u))
  else Ok (inr u).

(** The inner loop of the culling: [do { entry = entry->next; acc -= HASH_LIMIT; }
    while (acc > 0)].  A chain stands for the pointer to its first entry. *)
Definition skip_step (s : list Z * Z) : res (list Z * Z + list Z * Z) :=
  match s with
  | ([], _) => Fault UB
  | (_ :: entry, acc) =>
      let acc := acc - HASH_LIMIT in
      if 0 <? acc then Ok (inl (entry, acc)) else Ok (inr (entry, acc))
  end.

(** The culling of one bucket of [n] entries: the entries kept so far, [entry]
    and [acc]. *)
Definition cull_step (n : Z) (s : list Z * list Z * Z)
    : res (list Z * list Z * Z + list Z) :=
  let '(kept, entry, acc) := s in
  match entry with
  | [] => Fault UB
  | keep :: next =>
      let acc := acc + (n - HASH_LIMIT) in
      '(next, acc) ← (if 0 <? acc then
          '(entry, acc) ← loop (S (length entry)) skip_step (entry, acc);
          match entry with
          | [] => Fault UB
          | _ :: next => Ok (next, acc)
          end
        else Ok (next, acc));
      match next with
      | [] => Ok (inr (kept ++ [keep]))
      | _ => Ok (inl (kept ++ [keep], next, acc))
      end
  end.

Definition cull_bucket (n : Z) (chain : list Z) : res (list Z) :=
  loop (S (length chain)) (cull_step n) ([], chain, 0).

(** [for (i = 0; i < hsize; i++)]: the buckets that are too long. *)
Fixpoint cull_buckets (hash : list (list Z)) (count : list Z) (entries : Z)
    : res (list (list Z) * Z) :=
  match hash, count with
  | chain :: hash, n :: count =>
      if n <=? HASH_LIMIT then
        '(hash, entries) ← cull_buckets hash count entries;
        Ok (chain :: hash, entries)
      else
        let entries := u32 (entries - (n - HASH_LIMIT)) in
        chain ← cull_bucket n chain;
        '(hash, entries) ← cull_buckets hash count entries;
        Ok (chain :: hash, entries)
  | _, _ => Ok ([], entries)
  end.

(** Copying the entries of a chain. *)
Fixpoint pack_chain (ents : list index_entry) (chain : list Z) : res (list index_entry) :=
  match chain with
  | [] => Ok []
  | e :: chain => x ← rd ents e; xs ← pack_chain ents chain; Ok (x :: xs)
  end.

(** The packed hash and entries; [pos] is [packed_entry] on entry.  The last cell
    of the hash is the sentinel. *)
Fixpoint pack_buckets (ents : list index_entry) (hash : list (list Z)) (pos : Z)
    : res (list Z * list index_entry) :=
  match hash with
  | [] => Ok ([pos], [])
  | chain :: hash =>
      es ← pack_chain ents chain;
      '(ph, pe) ← pack_buckets ents hash (pos + len es);
      Ok (pos :: ph, es ++ pe)
  end.

Section CreateDeltaIndex.
Context (malloc_ok : Z -> bool).

(** [sizeof] of a pointer and of the structures, on a 64-bit machine. *)
Definition sizeof_ptr : Z := 8.
Definition sizeof_index_entry : Z := 16.
Definition sizeof_unpacked_index_entry : Z := 24.
Definition sizeof_delta_index_struct : Z := 32.

Definition index_entries (bufsize : Z) : Z :=
  if 0xffffffff <=? bufsize then 0xfffffffe / RABIN_WINDOW
  else u32 ((bufsize - 1) / RABIN_WINDOW).

(** [create_delta_index(buf, bufsize)]; [None] is [NULL]. *)
Definition create_delta_index (buf : list Z) : res (option delta_index) :=
  let bufsize := len buf in
  if bufsize =? 0 then Ok None
  else
    let entries := index_entries bufsize in
    i ← hash_bits (entries / 4);
    let hsize := u32 (1 <<. i) in
    let hmask := hsize - 1 in
    if negb (malloc_ok (sizeof_ptr * hsize + sizeof_unpacked_index_entry * entries)) then Ok None
    else if negb (malloc_ok (hsize * 4)) then Ok None
    else
      u ← loop (S (Z.to_nat entries)) (index_step buf hmask)
            (entries * RABIN_WINDOW - RABIN_WINDOW,
             Unpacked [] (replicate (Z.to_nat hsize) []) (replicate (Z.to_nat hsize) 0)
                      entries (Z.ones 32));
      '(hash, entries) ← cull_buckets (up_hash u) (up_count u) (up_entries u);
      let memsize := sizeof_delta_index_struct + sizeof_ptr * (hsize + 1)
                     + sizeof_index_entry * entries in
      if negb (malloc_ok memsize) then Ok None
      else
        '(packed_hash, packed_entry) ← pack_buckets (up_ents u) hash 0;
        if entries <? len packed_entry then Fault UB
        else if negb (len packed_entry =? entries) then Fault BugHit
        else Ok (Some (DeltaIndex memsize buf hmask packed_hash packed_entry)).

(** [sizeof_delta_index]; [None] is [NULL]. *)
Definition sizeof_delta_index (index : option delta_index) : Z :=
  match index with Some i => di_memsize i | None => 0 end.
End CreateDeltaIndex.

(** ** Culling leaves exactly [HASH_LIMIT] entries *)

(** [k] turns of the inner loop advance [entry] by [k]. *)
Lemma skip_loop chain : forall acc fuel k,
  0 < acc -> (k <= length chain)%nat -> 64 * (Z.of_nat k - 1) < acc <= 64 * Z.of_nat k ->
  (k <= fuel)%nat ->
  loop fuel skip_step (chain, acc) = Ok (drop k chain, acc - 64 * Z.of_nat k).
Proof.
  induction chain as [|e chain IH]; intros acc fuel k Hacc Hk Hb Hf; simpl in Hk; [lia|].
  destruct k as [|k]; [lia|]. destruct fuel as [|fuel]; [lia|].
  cbn [loop skip_step]. unfold HASH_LIMIT. destruct (Z.ltb_spec 0 (acc - 64)).
  - rewrite (IH (acc - 64) fuel k) by lia. do 2 f_equal. lia.
  - assert (k = 0%nat) as -> by lia. simpl. rewrite skipn_O. done.
Qed.

(** What the culling loop keeps, after [j] entries were kept and [dr] dropped. *)
Definition cull_inv (P : Z -> Prop) (n : Z) (s : list Z * list Z * Z) : Prop :=
  let '(kept, entry, acc) := s in
  exists dr, 0 <= dr /\ 1 <= len entry /\ len kept + dr + len entry = n /\
    acc = len kept * (n - 64) - 64 * dr /\ -64 < acc <= 0 /\ Forall P kept /\ Forall P entry.

Lemma cull_step_inv P n s : 64 < n -> cull_inv P n s ->
  total (cull_step n s) (fun x =>
    match x with
    | inl s' => cull_inv P n s' /\ (length s'.1.2 < length s.1.2)%nat
    | inr kept => len kept = 64 /\ Forall P kept
    end).
Proof.
  destruct s as [[kept entry] acc]. intros Hn (dr & Hdr & Hne & Hsum & Hacc & Hrange & Pk & Pe).
  destruct entry as [|keep next]; [done|]. apply Forall_cons in Pe as [Pkeep Pnext].
  rewrite len_cons in Hsum. pose proof (len_nonneg next) as Hnn. pose proof (len_nonneg kept).
  assert (len kept < 64) as Hj by nia.
  unfold cull_step, HASH_LIMIT. set (acc1 := acc + (n - 64)).
  set (k := Z.to_nat (if 0 <? acc1 then (acc1 + 63) / 64 else 0)).
  assert (len kept + 1 + (dr + Z.of_nat k) <= n) as Hk.
  { unfold k. destruct (Z.ltb_spec 0 acc1); [|nia].
    rewrite Z2Nat.id by (apply Z.div_pos; lia).
    assert (64 * ((acc1 + 63) / 64) <= acc1 + 63) by (apply Z.mul_div_le; lia). nia. }
  apply wp_bind.
  assert (total (if 0 <? acc1 then
          '(entry, acc) ← loop (S (length (keep :: next))) skip_step (keep :: next, acc1);
          match entry with [] => Fault UB | _ :: next => Ok (next, acc) end
        else Ok (next, acc1)) (fun x => x = (drop k next, acc1 - 64 * Z.of_nat k) /\ -64 < x.2 <= 0)) as Hskip.
  { unfold k in *. destruct (Z.ltb_spec 0 acc1).
    - assert (64 * ((acc1 + 63) / 64) <= acc1 + 63 < 64 * ((acc1 + 63) / 64) + 64) by dlia.
      set (q := Z.to_nat ((acc1 + 63) / 64)) in *.
      assert (Z.of_nat q = (acc1 + 63) / 64) by (unfold q; rewrite Z2Nat.id; [done|dlia]).
      rewrite (skip_loop _ _ _ q) by (simpl; llia). cbn [mbind res_bind].
      assert (1 <= q)%nat by lia.
      destruct (drop q (keep :: next)) as [|e rest] eqn:Ed.
      { apply (f_equal length) in Ed. rewrite length_drop in Ed. simpl in Ed. llia. }
      cbn [wp snd]. split; [|lia]. f_equal.
      destruct q as [|q']; [lia|]. cbn [drop] in Ed. apply (f_equal (drop 1)) in Ed.
      rewrite drop_drop in Ed. simpl (drop 1 (_ :: _)) in Ed. rewrite skipn_O in Ed. rewrite <- Ed. f_equal. lia.
    - cbn [wp snd]. rewrite drop_0. change (Z.of_nat (Z.to_nat 0)) with 0.
      split; [f_equal; lia|lia]. }
  eapply wp_mono; [exact Hskip|]. intros [next' acc'] [[= -> ->] Hr]. cbn [snd] in Hr.
  assert (Forall P (kept ++ [keep])) as Pk' by (by apply Forall_app_2, Forall_singleton).
  assert (Forall P (drop k next)) as Pn' by (by apply Forall_drop).
  assert (len (drop k next) = len next - Z.of_nat k) as Hd by (unfold len in *; rewrite length_drop; lia).
  assert (len (kept ++ [keep]) = len kept + 1) as Hl by (by rewrite len_app).
  assert (acc1 - 64 * Z.of_nat k = (len kept + 1) * (n - 64) - 64 * (dr + Z.of_nat k)) as Ha by (unfold acc1; lia).
  destruct (drop k next) as [|e rest] eqn:Ed; cbn [wp].
  - change (len (@nil Z)) with 0 in Hd. rewrite Hl. split; [|done]. rewrite Ha in Hr. nia.
  - split.
    + exists (dr + Z.of_nat k). pose proof (len_cons e rest). pose proof (len_nonneg rest). rewrite Hl, Hd.
      split_and!; try done; try lia.
    + cbn [fst snd]. rewrite <- Ed, length_drop. simpl. lia.
Qed.

Lemma cull_bucket_ok (P : Z -> Prop) n chain :
  64 < n -> len chain = n -> Forall P chain ->
  total (cull_bucket n chain) (fun kept => len kept = 64 /\ Forall P kept).
Proof.
  intros Hn Hl HP. unfold cull_bucket.
  apply (wp_loop _ (cull_inv P n) (fun s => length s.1.2)).
  - intros s Hs. eapply wp_mono; [by apply cull_step_inv|]. by intros [s'|kept].
  - exists 0. change (len (@nil Z)) with 0. split_and!; (done || lia).
  - simpl. lia.
Qed.

Lemma cull_buckets_ok (P : nat -> Z -> Prop) hash count : forall entries k,
  Forall2 (fun chain n => n = len chain) hash count ->
  (forall i chain, hash !! i = Some chain -> Forall (P (k + i)%nat) chain) ->
  len (concat hash) <= entries < 2 ^ 32 ->
  total (cull_buckets hash count entries) (fun '(hash', entries') =>
    entries' - len (concat hash') = entries - len (concat hash) /\ length hash' = length hash /\
    forall i chain, hash' !! i = Some chain -> len chain <= HASH_LIMIT /\ Forall (P (k + i)%nat) chain).
Proof.
  intros entries k H. revert entries k.
  induction H as [|chain n hash count -> H IH]; intros entries k HP Hent; [done|].
  cbn [cull_buckets concat] in *. rewrite len_app in *.
  pose proof (len_nonneg (concat hash)). pose proof (len_nonneg chain).
  assert (Forall (P k) chain) as Hc by (rewrite <- (Nat.add_0_r k); by apply (HP 0%nat)).
  assert (forall i c, hash !! i = Some c -> Forall (P (S k + i)%nat) c) as HP'.
  { intros i c Hi. replace (S k + i)%nat with (k + S i)%nat by lia. by apply HP. }
  destruct (Z.leb_spec (len chain) HASH_LIMIT) as [Hle|Hgt]; unfold HASH_LIMIT in *.
  - apply wp_bind. eapply wp_mono; [apply (IH entries (S k)); [done|lia]|].
    intros [hash' entries'] (He & Hl & Hch). cbn [wp concat length]. rewrite len_app.
    split_and!; [lia|lia|]. intros [|i] c Hi; simpl in Hi.
    + injection Hi as <-. by rewrite Nat.add_0_r.
    + replace (k + S i)%nat with (S k + i)%nat by lia. by apply Hch.
  - rewrite u32_small by lia. apply wp_bind.
    eapply wp_mono; [by apply (cull_bucket_ok (P k))|]. intros kept [Hk Pk]. apply wp_bind.
    eapply wp_mono; [apply (IH (entries - (len chain - 64)) (S k)); [done|lia]|].
    intros [hash' entries'] (He & Hl & Hch). cbn [wp concat length]. rewrite len_app.
    split_and!; [lia|lia|]. intros [|i] c Hi; simpl in Hi.
    + injection Hi as <-. rewrite Nat.add_0_r. by split; [lia|].
    + replace (k + S i)%nat with (S k + i)%nat by lia. by apply Hch.
Qed.

(** ** Packing *)

(** [e] is the position of an entry that satisfies [Q]. *)
Definition points_to (Q : index_entry -> Prop) (ents : list index_entry) (e : Z) : Prop :=
  exists x, rd ents e = Ok x /\ Q x.

Lemma pack_chain_ok Q ents chain : Forall (points_to Q ents) chain ->
  total (pack_chain ents chain) (fun es => len es = len chain /\ Forall Q es).
Proof.
  induction 1 as [|e chain (x & Hx & HQ) _ IH]; [done|]. cbn [pack_chain]. rewrite Hx.
  cbn [mbind res_bind]. apply wp_bind. eapply wp_mono; [exact IH|]. intros xs [Hl HF].
  cbn [wp]. rewrite !len_cons. split; [lia|by constructor].
Qed.

(** Bucket [i] of a packed index is the cells [ph[i] .. ph[i+1]-1]. *)
Definition bucket_ok (ph : list Z) (pe : list index_entry) (base : Z)
    (Q : index_entry -> Prop) (i : Z) : Prop :=
  exists lo hi, rd ph i = Ok lo /\ rd ph (i + 1) = Ok hi /\ base <= lo <= hi /\
    hi <= lo + HASH_LIMIT /\ hi <= base + len pe /\
    forall k, lo <= k < hi -> points_to Q pe (k - base).

Lemma points_to_app_l Q l1 l2 e : points_to Q l1 e -> points_to Q (l1 ++ l2) e.
Proof.
  intros (x & Hx & HQ). exists x. split; [|done]. apply rd_inv in Hx as [Hr Hx].
  apply rd_Some; [lia|]. by apply lookup_app_l_Some.
Qed.

Lemma points_to_app_r Q l1 l2 e : points_to Q l2 (e - len l1) -> points_to Q (l1 ++ l2) e.
Proof.
  intros (x & Hx & HQ). exists x. split; [|done]. apply rd_inv in Hx as [Hr Hx].
  apply rd_Some; [llia|]. rewrite lookup_app_r by llia. rewrite <- Hx. f_equal. llia.
Qed.

Lemma rd_tail {A} (x : A) l i : 1 <= i -> rd (x :: l) i = rd l (i - 1).
Proof.
  intros Hi. unfold rd. destruct (Z.ltb_spec i 0), (Z.ltb_spec (i - 1) 0); try lia.
  replace (Z.to_nat i) with (S (Z.to_nat (i - 1))) by lia. done.
Qed.

Lemma pack_buckets_ok (Q : Z -> index_entry -> Prop) ents hash : forall pos base,
  (forall i chain, hash !! i = Some chain ->
     len chain <= HASH_LIMIT /\ Forall (points_to (Q (base + Z.of_nat i)) ents) chain) ->
  total (pack_buckets ents hash pos) (fun '(ph, pe) =>
    rd ph 0 = Ok pos /\ len ph = len hash + 1 /\ len pe = len (concat hash) /\
    forall i, 0 <= i < len hash -> bucket_ok ph pe pos (Q (base + i)) i).
Proof.
  induction hash as [|chain hash IH]; intros pos base Hch.
  { cbn. split_and!; try done. intros i Hi. unfold len in Hi. simpl in Hi. lia. }
  cbn [pack_buckets concat]. destruct (Hch 0%nat chain eq_refl) as [Hlim Hc].
  rewrite Z.add_0_r in Hc. apply wp_bind. eapply wp_mono; [by eapply pack_chain_ok|].
  intros es [Hes HQ]. apply wp_bind. eapply wp_mono.
  { apply (IH (pos + len es) (base + 1)). intros i c Hi.
    replace (base + 1 + Z.of_nat i) with (base + Z.of_nat (S i)) by lia. by apply Hch. }
  intros [ph pe] (Hhd & Hlph & Hlpe & Hb). cbn [wp].
  pose proof (len_nonneg es). pose proof (len_nonneg pe). pose proof (len_nonneg hash).
  rewrite !len_cons, !len_app. split_and!; [done|lia|lia|]. intros i Hi.
  destruct (Z.eq_dec i 0) as [->|].
  - exists pos, (pos + len es). rewrite (rd_tail pos ph (0 + 1)) by lia. split_and!; try (done || lia).
    { rewrite len_app. lia. }
    intros k Hk. apply points_to_app_l. rewrite Z.add_0_r.
    exists (es !!! Z.to_nat (k - pos)). rewrite rd_ok by lia. split; [done|].
    apply (Forall_lookup_total_1 _ _ _ HQ). llia.
  - destruct (Hb (i - 1) ltac:(lia)) as (lo & hi & B1 & B2 & B3 & B4 & B5 & B6).
    exists lo, hi. rewrite !rd_tail by lia. replace (i + 1 - 1) with (i - 1 + 1) by lia.
    split_and!; try (done || lia). { rewrite len_app. lia. }
    intros k Hk. apply points_to_app_r.
    replace (base + i) with (base + 1 + (i - 1)) by lia.
    replace (k - pos - len es) with (k - (pos + len es)) by lia. by apply B6.
Qed.

(** ** Populating the index *)

Lemma len_concat_insert {A} (l : list (list A)) i c c' :
  l !! i = Some c -> len (concat (<[i := c']> l)) = len (concat l) - len c + len c'.
Proof.
  revert i. induction l as [|a l IH]; intros [|i] Hi; simplify_eq/=; rewrite !len_app; [lia|].
  rewrite (IH i Hi). lia.
Qed.

Lemma concat_replicate_nil {A} n : concat (replicate n (@nil A)) = [].
Proof. by induction n. Qed.

(** What an entry promises: it is the position behind a block of the source, and
    [val] is the hash of the block. *)
Definition entry_ok (buf : list Z) (e : index_entry) : Prop :=
  16 <= ie_ptr e < len buf /\ ie_ptr e <= 0xfffffffe /\
  block_hash buf (ie_ptr e - 16) = Ok (ie_val e).

Definition in_bucket (buf : list Z) (hmask i : Z) (e : index_entry) : Prop :=
  entry_ok buf e /\ ie_val e &. hmask = i.

(** The invariant of the populating loop with [r] blocks to go. *)
Record up_inv (buf : list Z) (hmask r : Z) (u : unpacked) : Prop := {
  ui_len : len (up_hash u) = hmask + 1;
  ui_count : Forall2 (fun chain n => n = len chain) (up_hash u) (up_count u);
  ui_chain : forall i chain, up_hash u !! i = Some chain ->
    Forall (points_to (in_bucket buf hmask (Z.of_nat i)) (up_ents u)) chain;
  ui_sum : len (concat (up_hash u)) = len (up_ents u);
  ui_entries : up_entries u = len (up_ents u) + r;
  ui_bound : len (up_ents u) + r <= 2 ^ 28;
  ui_prev : (up_ents u = [] /\ up_prev u = Z.ones 32) \/
    exists x, rd (up_ents u) (len (up_ents u) - 1) = Ok x /\ ie_val x = up_prev u }.

Section Populate.
Context (buf : list Z) (bits : Z) (Hbuf : is_bytes buf) (Hbits : 0 <= bits).
Let hmask := 2 ^ bits - 1.

Lemma block_hash_ok data : 0 <= data -> data + 16 < len buf ->
  exists val, block_hash buf data = Ok val /\ is_hash val.
Proof.
  intros Hd Hl. unfold block_hash, RABIN_WINDOW. rewrite rd_slice_ok by lia. cbn [mbind res_bind].
  destruct (rabin_pushes_ok (slice buf (data + 1) 16)) with (v := 0) as [Hv Hh];
    [by apply Forall_take, Forall_drop|unfold is_hash; lia|]. eauto.
Qed.

Lemma land_hmask val : 0 <= val -> 0 <= val &. hmask <= hmask.
Proof.
  intros Hv. unfold hmask. rewrite (land_mask _ _ bits); [|done|by rewrite Z.ones_equiv].
  pose proof (Z.mod_pos_bound val (2 ^ bits) ltac:(lia)). lia.
Qed.

Lemma rd_snoc {A} (l : list A) x : rd (l ++ [x]) (len l) = Ok x.
Proof.
  apply rd_Some; [apply len_nonneg|]. unfold len. rewrite Nat2Z.id.
  by rewrite lookup_app_r, Nat.sub_diag by lia.
Qed.

(** Updating the last entry of the array. *)
Lemma points_to_update_last Q ents x x' e :
  rd ents (len ents - 1) = Ok x -> (Q x -> Q x') ->
  points_to Q ents e -> points_to Q (<[Z.to_nat (len ents - 1) := x']> ents) e.
Proof.
  intros Hx HQ (y & Hy & HQy). apply rd_inv in Hy as [He Hy]. apply rd_inv in Hx as [Hl Hx].
  destruct (Z.eq_dec e (len ents - 1)) as [->|].
  - exists x'. split; [|apply HQ; by simplify_eq]. apply rd_Some; [lia|].
    apply list_lookup_insert_eq. llia.
  - exists y. split; [|done]. apply rd_Some; [lia|]. rewrite list_lookup_insert_ne by lia. done.
Qed.

Lemma index_block_merge data r u x val :
  up_inv buf hmask r u -> 0 < r -> 0 <= data -> data + 16 < len buf -> data + 16 <= 0xfffffffe ->
  block_hash buf data = Ok val -> rd (up_ents u) (len (up_ents u) - 1) = Ok x -> ie_val x = val ->
  up_prev u = val ->
  up_inv buf hmask (r - 1)
    (Unpacked (<[Z.to_nat (len (up_ents u) - 1) := IndexEntry (data + 16) val]> (up_ents u))
       (up_hash u) (up_count u) (u32 (up_entries u - 1)) (up_prev u)).
Proof.
  intros [Hl Hc Hch Hs He Hb Hp] Hr Hd Hdl Hd32 Hh Hx Hxv Hpv.
  pose proof (len_nonneg (up_ents u)). apply rd_inv in Hx as Hx'. destruct Hx' as [Hx1 Hx2].
  split; cbn; rewrite ?len_insert; try done.
  - intros i chain Hi. eapply Forall_impl; [by apply Hch|]. intros e.
    apply (points_to_update_last _ _ x); [done|]. intros [_ Hm]. split.
    + unfold entry_ok. cbn. replace (data + 16 - 16) with data by lia. split_and!; (done || lia).
    + cbn. by rewrite <- Hxv.
  - rewrite u32_small by lia. lia.
  - lia.
  - right. exists (IndexEntry (data + 16) val). split; [|done]. apply rd_Some; [lia|].
    apply list_lookup_insert_eq. llia.
Qed.

Lemma index_block_new data r u val chain n :
  up_inv buf hmask r u -> 0 < r -> 0 <= data -> data + 16 < len buf -> data + 16 <= 0xfffffffe ->
  block_hash buf data = Ok val -> 0 <= val ->
  rd (up_hash u) (val &. hmask) = Ok chain -> rd (up_count u) (val &. hmask) = Ok n ->
  up_inv buf hmask (r - 1)
    (Unpacked (up_ents u ++ [IndexEntry (data + 16) val])
       (<[Z.to_nat (val &. hmask) := len (up_ents u) :: chain]> (up_hash u))
       (<[Z.to_nat (val &. hmask) := u32 (n + 1)]> (up_count u)) (up_entries u) val).
Proof.
  intros [Hl Hc Hch Hs He Hb Hp] Hr Hd Hdl Hd32 Hh Hv Hrc Hrn.
  set (i := val &. hmask) in *. apply rd_inv in Hrc as [Hi Hrc], Hrn as [Hi' Hrn].
  pose proof (len_nonneg (up_ents u)).
  assert (n = len chain) as -> by (by eapply (Forall2_lookup_lr _ _ _ _ _ _ Hc)).
  assert (len chain <= len (concat (up_hash u))) as Hcl.
  { pose proof (len_concat_insert _ _ _ [] Hrc) as E. change (len (@nil Z)) with 0 in E.
    pose proof (len_nonneg (concat (<[Z.to_nat i:=[]]> (up_hash u)))). lia. }
  pose proof (len_nonneg chain).
  split; cbn; rewrite ?len_insert, ?len_app; try done.
  - apply Forall2_insert; [done|]. rewrite len_cons, u32_small by lia. lia.
  - intros j c Hj. destruct (decide (Z.to_nat i = j)) as [<-|Hne].
    + rewrite list_lookup_insert_eq in Hj by llia. injection Hj as <-.
      rewrite Z2Nat.id by lia. apply Forall_cons. split.
      * exists (IndexEntry (data + 16) val). rewrite rd_snoc. split; [done|]. split; [|done].
        unfold entry_ok. cbn. replace (data + 16 - 16) with data by lia. split_and!; (done || lia).
      * eapply Forall_impl; [by apply Hch|]. intros e He'. rewrite Z2Nat.id in He' by lia.
        by apply points_to_app_l.
    + rewrite list_lookup_insert_ne in Hj by done.
      eapply Forall_impl; [by apply Hch|]. intros e He'. by apply points_to_app_l.
  - rewrite (len_concat_insert _ _ _ _ Hrc), len_cons. change (len [_]) with 1. lia.
  - change (len [_]) with 1. lia.
  - change (len [_]) with 1. lia.
  - right. exists (IndexEntry (data + 16) val). change (len [_]) with 1.
    replace (len (up_ents u) + 1 - 1) with (len (up_ents u)) by lia. by rewrite rd_snoc.
Qed.

Lemma index_block_inv data r u :
  up_inv buf hmask r u -> 0 < r -> 0 <= data -> data + 16 < len buf -> data + 16 <= 0xfffffffe ->
  total (index_block buf hmask data u) (up_inv buf hmask (r - 1)).
Proof.
  intros HI Hr Hd Hdl Hd32. destruct (block_hash_ok data Hd Hdl) as (val & Hh & Hv).
  unfold index_block. rewrite Hh. cbn [mbind res_bind]. pose proof HI as [Hl Hc _ _ _ _ Hp].
  unfold is_hash in Hv. destruct (Z.eqb_spec val (up_prev u)) as [Heq|].
  - destruct Hp as [[_ Hp]|(x & Hx & Hxv)]; [change (Z.ones 32) with (2 ^ 32 - 1) in Hp; lia|].
    rewrite Hx. cbn [mbind res_bind]. apply rd_inv in Hx as Hx'. destruct Hx' as [Hx1 _].
    rewrite wr_ok by done. cbn [mbind res_bind wp]. unfold RABIN_WINDOW.
    rewrite Hxv, <- Heq. rewrite Heq at 2. eapply index_block_merge; (done || congruence).
  - pose proof (land_hmask val ltac:(lia)) as Hm.
    rewrite (rd_ok (up_hash u)) by lia. cbn [mbind res_bind]. rewrite wr_ok by lia. cbn [mbind res_bind].
    assert (len (up_count u) = len (up_hash u)) as Hlc.
    { apply Forall2_length in Hc. llia. }
    rewrite (rd_ok (up_count u)) by lia. cbn [mbind res_bind]. rewrite wr_ok by lia.
    cbn [mbind res_bind wp]. unfold RABIN_WINDOW.
    apply index_block_new; try (done || lia); apply rd_ok; lia.
Qed.

Lemma index_loop_inv entries fuel u :
  up_inv buf hmask entries u -> 0 <= entries -> entries * 16 < len buf -> entries * 16 <= 0xfffffffe ->
  (Z.to_nat entries < fuel)%nat ->
  total (loop fuel (index_step buf hmask) (entries * 16 - 16, u)) (up_inv buf hmask 0).
Proof.
  intros HI He Hl H32 Hf.
  apply (wp_loop _ (fun '(data, u) => exists r, 0 <= r <= entries /\ data = r * 16 - 16 /\ up_inv buf hmask r u)
           (fun '(data, u) => Z.to_nat ((data + 16) / 16))).
  - intros [data u'] (r & Hr & -> & HI'). unfold index_step.
    destruct (Z.leb_spec 0 (r * 16 - 16)).
    + apply wp_bind. eapply wp_mono; [apply (index_block_inv _ r); (done || lia)|].
      intros u'' HI''. cbn [wp]. unfold RABIN_WINDOW. split.
      * exists (r - 1). split_and!; (done || lia).
      * replace ((r * 16 - 16 - 16 + 16) / 16) with (r - 1) by dlia.
        replace ((r * 16 - 16 + 16) / 16) with r by dlia. lia.
    + cbn [wp]. by replace r with 0 in HI' by lia.
  - exists entries. split_and!; (done || lia).
  - replace ((entries * 16 - 16 + 16) / 16) with entries by dlia. done.
Qed.
End Populate.

(** ** What the index promises to [create_delta] *)

Class IndexOk (idx : delta_index) : Prop := {
  io_bytes : is_bytes (di_src idx);
  io_mask : exists bits, 0 <= bits <= 31 /\ di_hash_mask idx = 2 ^ bits - 1;
  io_len : len (di_hash idx) = di_hash_mask idx + 2;
  io_bucket : forall i, 0 <= i <= di_hash_mask idx ->
    bucket_ok (di_hash idx) (di_entries idx) 0 (in_bucket (di_src idx) (di_hash_mask idx) i) i }.

Lemma index_entries_ok n : 0 < n ->
  0 <= index_entries n < 2 ^ 28 /\ index_entries n * 16 < n /\ index_entries n * 16 <= 0xfffffffe.
Proof.
  intros Hn. unfold index_entries, RABIN_WINDOW.
  destruct (Z.leb_spec 0xffffffff n).
  - change (0xfffffffe / 16) with 0x0fffffff. lia.
  - rewrite u32_small by dlia. dlia.
Qed.

Lemma hash_bits_ok h : h <= 2 ^ 26 -> total (hash_bits h) (fun i => 4 <= i <= 26).
Proof.
  intros Hh. unfold hash_bits.
  apply (wp_loop _ (fun i => 4 <= i <= 26) (fun i => Z.to_nat (27 - i))); [|lia|simpl; lia].
  intros i Hi. rewrite Z.shiftl_1_l. rewrite u32_small.
  2: { split; [lia|]. apply Z.pow_lt_mono_r; lia. }
  destruct (Z.ltb_spec (2 ^ i) h) as [Hlt|]; cbn [wp]; [|lia].
  assert (i < 26); [|lia]. apply (Z.pow_lt_mono_r_iff 2); lia.
Qed.

Lemma up_inv_init buf bits entries : 0 <= bits -> 0 <= entries <= 2 ^ 28 ->
  up_inv buf (2 ^ bits - 1) entries
    (Unpacked [] (replicate (Z.to_nat (2 ^ bits)) []) (replicate (Z.to_nat (2 ^ bits)) 0) entries (Z.ones 32)).
Proof.
  intros Hb He. assert (0 < 2 ^ bits) by lia.
  split; cbn [up_hash up_count up_ents up_entries up_prev]; change (len (@nil index_entry)) with 0.
  - unfold len. rewrite length_replicate. lia.
  - by apply Forall2_replicate.
  - intros i chain Hi. apply lookup_replicate in Hi as [-> _]. done.
  - by rewrite concat_replicate_nil.
  - lia.
  - lia.
  - by left.
Qed.

Lemma create_delta_index_spec malloc_ok buf :
  is_bytes buf ->
  total (create_delta_index malloc_ok buf) (fun o =>
    match o with
    | None => buf = [] \/ exists n, malloc_ok n = false
    | Some idx => di_src idx = buf /\ IndexOk idx
    end).
Proof.
  intros Hb. unfold create_delta_index.
  destruct (Z.eqb_spec (len buf) 0) as [H0|H0].
  { left. destruct buf; [done|]. rewrite len_cons in H0. pose proof (len_nonneg buf). lia. }
  pose proof (len_nonneg buf).
  destruct (index_entries_ok (len buf)) as ([He1 He2] & He3 & He4); [lia|].
  set (E := index_entries (len buf)) in *.
  apply wp_bind. eapply wp_mono; [apply hash_bits_ok; dlia|]. intros bits Hbits. cbv beta in *.
  rewrite Z.shiftl_1_l, (u32_small (2 ^ bits)) by (split; [lia|apply Z.pow_lt_mono_r; lia]).
  destruct (malloc_ok _) eqn:M1; [|right; eauto]. destruct (malloc_ok (2 ^ bits * 4)) eqn:M2; [|right; eauto].
  cbn [negb]. unfold RABIN_WINDOW. apply wp_bind. eapply wp_mono.
  { apply (index_loop_inv buf bits Hb ltac:(lia) E); try (done || lia). apply up_inv_init; lia. }
  intros u [Hl Hc Hch Hs He Hbd _]. apply wp_bind. eapply wp_mono.
  { apply (cull_buckets_ok (fun i => points_to (in_bucket buf (2 ^ bits - 1) (Z.of_nat i)) (up_ents u))
             _ _ _ 0 Hc Hch). pose proof (len_nonneg (up_ents u)). lia. }
  intros [hash entries] (Hent & Hlen & Hch'). cbv zeta.
  match goal with |- context [negb (malloc_ok ?n)] => destruct (malloc_ok n) eqn:M3 end;
    [|right; eauto]. cbn [negb].
  apply wp_bind. eapply wp_mono.
  { apply (pack_buckets_ok (fun i => in_bucket buf (2 ^ bits - 1) i) (up_ents u) hash 0 0).
    intros i chain Hi. simpl. by apply Hch'. }
  intros [ph pe] (_ & Hlph & Hlpe & Hbk).
  assert (len pe = entries) as Hpe by lia. rewrite Hpe, Z.ltb_irrefl, Z.eqb_refl. cbn [negb wp].
  split; [done|]. assert (len hash = 2 ^ bits) by llia.
  split; cbn; [done|exists bits; lia|lia|]. intros i Hi. apply (Hbk i). lia.
Qed.

(** C4: the index.  [create_delta_index] never accesses memory out of bounds and
    its assertion holds; it returns [NULL] only for an empty buffer or when memory
    runs out, and otherwise an index in which no bucket has more than
    [HASH_LIMIT] entries and every entry of bucket [i] points behind a
    sixteen-byte block of the source, carries the Rabin hash of that block and
    hashes to [i]. *)
Theorem create_delta_index_ok malloc_ok buf :
  is_bytes buf ->
  total (create_delta_index malloc_ok buf) (fun o =>
    match o with
    | None => buf = [] \/ exists n, malloc_ok n = false
    | Some idx => di_src idx = buf /\ IndexOk idx
    end).
Proof. apply create_delta_index_spec. Qed.

Lemma create_delta_index_ok_witness :
  total (create_delta_index (fun _ => true) (repeat 7 20)) (fun o =>
    match o with
    | None => repeat 7 20 = [] \/ exists n : Z, (fun _ : Z => true) n = false
    | Some idx => di_src idx = repeat 7 20 /\ IndexOk idx
    end).
Proof. apply create_delta_index_ok. repeat constructor; unfold is_byte; lia. Defined.
