(* ===== verification/DiffDelta.v ===== *)
(** * Computing deltas: [create_delta] of [diff-delta.c] and [diff_delta] of [delta.h]

    The output buffer is an array of [outsize] cells of which the first [outpos]
    hold the delta; what [malloc] and [realloc] leave in fresh cells is the
    parameter [junk].  Pointers into the target are offsets. *)

From stdpp Require Import prelude numbers list.
From S2P Require Import Prelude Rabin PatchDelta DeltaFormat DeltaIndex.

Definition MAX_OP_SIZE : Z := 5 + 5 + 1 + RABIN_WINDOW + 7.

Record cd_state := CdState {
  cd_out : list Z;      (** the array [out], of [outsize] cells *)
  cd_outpos : Z;
  cd_data : Z;
  cd_inscnt : Z;
  cd_moff : Z;
  cd_msize : Z;
  cd_val : Z }.

(** [out[outpos++] = b] *)
Definition put_byte (o : list Z * Z) (b : Z) : res (list Z * Z) :=
  let '(out, outpos) := o in
  out ← wr out outpos (u8 b);
  Ok (out, outpos + 1).

(** [while (l >= 0x80) { out[outpos++] = l | 0x80; l >>= 7; }] *)
Definition size_step (s : list Z * Z * Z) : res (list Z * Z * Z + list Z * Z * Z) :=
  let '(o, l) := s in
  if 0x80 <=? l then
    o ← put_byte o (l |. 0x80);
    Ok (inl (o, l >>. 7))
  else Ok (inr (o, l)).

(** The loop, then [out[outpos++] = l]. *)
Definition put_size (o : list Z * Z) (l : Z) : res (list Z * Z) :=
  '(o, l) ← loop 10 size_step (o, l);
  put_byte o l.

(** The literal bytes of the first window: [for (i = 0; i < RABIN_WINDOW && data < top;
    i++, data++)]; the loop starts with [i = data = 0]. *)
Definition window_step (trg : list Z) (s : list Z * Z * Z * Z)
    : res (list Z * Z * Z * Z + list Z * Z * Z * Z) :=
  let '(out, outpos, i, val) := s in
  if (i <? RABIN_WINDOW) && (i <? len trg) then
    c ← rd trg i;
    '(out, outpos) ← put_byte (out, outpos) c;
    val ← rabin_push val c;
    Ok (inl (out, outpos, i + 1, val))
  else Ok (inr (out, outpos, i, val)).

(** [while (ref_size-- && *src++ == *ref) ref++;]: the new [ref]. *)
Definition match_step (src trg : list Z) (s : Z * Z * Z) : res (Z * Z * Z + Z) :=
  let '(ref_size, sp, ref) := s in
  if ref_size =? 0 then Ok (inr ref)
  else
    a ← rd trg sp;
    b ← rd src ref;
    if a =? b then Ok (inl (ref_size - 1, sp + 1, ref + 1)) else Ok (inr ref).

(** The loop over the entries of a bucket: state [entry], [msize], [moff]. *)
Definition search_step (src trg : list Z) (entries : list index_entry) (stop val data : Z)
    (s : Z * Z * Z) : res (Z * Z * Z + Z * Z) :=
  let '(entry, msize, moff) := s in
  if entry <? stop then
    e ← rd entries entry;
    let ref := ie_ptr e in
    let ref_size := u32 (len src - ref) in
    if negb (ie_val e =? val) then Ok (inl (entry + 1, msize, moff))
    else
      let ref_size := if len trg - data <? ref_size then u32 (len trg - data) else ref_size in
      if ref_size <=? msize then Ok (inr (msize, moff))
      else
        ref ← loop (S (Z.to_nat ref_size)) (match_step src trg) (ref_size, data, ref);
        if msize <? ref - ie_ptr e then
          let msize := ref - ie_ptr e in
          let moff := ie_ptr e in
          if 4096 <=? msize then Ok (inr (msize, moff))
          else Ok (inl (entry + 1, msize, moff))
        else Ok (inl (entry + 1, msize, moff))
  else Ok (inr (msize, moff)).

(** The search for a match at [data]: new [val], [msize] and [moff]. *)
Definition search (idx : delta_index) (trg : list Z) (s : cd_state) : res (Z * Z * Z) :=
  if cd_msize s <? 4096 then
    old ← rd trg (cd_data s - RABIN_WINDOW);
    val ← rabin_pop (cd_val s) old;
    c ← rd trg (cd_data s);
    val ← rabin_push val c;
    let i := val &. di_hash_mask idx in
    first ← rd (di_hash idx) i;
    stop ← rd (di_hash idx) (i + 1);
    '(msize, moff) ← loop (S (length (di_entries idx)))
        (search_step (di_src idx) trg (di_entries idx) stop val (cd_data s))
        (first, cd_msize s, cd_moff s);
    Ok (val, msize, moff)
  else Ok (cd_val s, cd_msize s, cd_moff s).

(** [msize < 4]: one more literal byte. *)
Definition emit_literal (trg : list Z) (s : cd_state) : res cd_state :=
  let outpos := if cd_inscnt s =? 0 then cd_outpos s + 1 else cd_outpos s in
  c ← rd trg (cd_data s);
  '(out, outpos) ← put_byte (cd_out s, outpos) c;
  let inscnt := cd_inscnt s + 1 in
  if inscnt =? 0x7f then
    out ← wr out (outpos - inscnt - 1) (u8 inscnt);
    Ok (CdState out outpos (cd_data s + 1) 0 (cd_moff s) 0 (cd_val s))
  else Ok (CdState out outpos (cd_data s + 1) inscnt (cd_moff s) 0 (cd_val s)).

(** The loop that extends a match backwards over pending literals. *)
Record back_state := BackState {
  bk_moff : Z; bk_data : Z; bk_msize : Z; bk_outpos : Z; bk_inscnt : Z }.

Definition back_step (src trg : list Z) (s : back_state) : res (back_state + back_state) :=
  if bk_moff s =? 0 then Ok (inr s)
  else
    a ← rd src (bk_moff s - 1);
    b ← rd trg (bk_data s - 1);
    if a =? b then
      let s := BackState (bk_moff s - 1) (bk_data s - 1) (bk_msize s + 1)
                         (bk_outpos s - 1) (bk_inscnt s - 1) in
      if tr (bk_inscnt s) then Ok (inl s)
      else Ok (inr (BackState (bk_moff s) (bk_data s) (bk_msize s) (bk_outpos s - 1) (-1)))
    else Ok (inr s).

(** [if (inscnt) { ... }] at the head of the copy branch. *)
Definition flush_literals (src trg : list Z) (s : cd_state) : res cd_state :=
  if cd_inscnt s =? 0 then Ok s
  else
    b ← loop 128 (back_step src trg)
          (BackState (cd_moff s) (cd_data s) (cd_msize s) (cd_outpos s) (cd_inscnt s));
    out ← wr (cd_out s) (bk_outpos b - bk_inscnt b - 1) (u8 (bk_inscnt b));
    Ok (CdState out (bk_outpos b) (bk_data b) 0 (bk_moff b) (bk_msize b) (cd_val s)).

(** [if (x & mask) { out[outpos++] = x >> shift; i |= bit; }] *)
Definition put_arg (x mask shift bit : Z) (o : list Z * Z * Z) : res (list Z * Z * Z) :=
  let '(out, outpos, i) := o in
  if tr (x &. mask) then
    '(out, outpos) ← put_byte (out, outpos) (x >>. shift);
    Ok (out, outpos, i |. bit)
  else Ok (out, outpos, i).

(** The recomputation of the hash of [data[-RABIN_WINDOW .. -1]]. *)
Definition rehash_window (trg : list Z) (data : Z) : res Z :=
  cs ← rd_slice trg (data - RABIN_WINDOW) RABIN_WINDOW;
  rabin_pushes 0 cs.

(** The copy branch. *)
Definition emit_copy (src trg : list Z) (s : cd_state) : res cd_state :=
  s ← flush_literals src trg s;
  let moff := cd_moff s in
  let left := u32 (if cd_msize s <? 0x10000 then 0 else cd_msize s - 0x10000) in
  let msize := cd_msize s - left in
  let op := cd_outpos s in
  let outpos := cd_outpos s + 1 in
  '(out, outpos, i) ← put_arg moff 0x000000ff 0 0x01 (cd_out s, outpos, 0x80);
  '(out, outpos, i) ← put_arg moff 0x0000ff00 8 0x02 (out, outpos, i);
  '(out, outpos, i) ← put_arg moff 0x00ff0000 16 0x04 (out, outpos, i);
  '(out, outpos, i) ← put_arg moff 0xff000000 24 0x08 (out, outpos, i);
  '(out, outpos, i) ← put_arg msize 0x00ff 0 0x10 (out, outpos, i);
  '(out, outpos, i) ← put_arg msize 0xff00 8 0x20 (out, outpos, i);
  out ← wr out op (u8 i);
  let data := cd_data s + msize in
  let moff := moff + msize in
  let msize := if 0xffffffff <? moff then 0 else left in
  val ← (if msize <? 4096 then rehash_window trg data else Ok (cd_val s));
  Ok (CdState out outpos data (cd_inscnt s) moff msize val).

Section CreateDelta.
Context (malloc_ok : Z -> bool) (junk : Z).

(** [realloc(out, outsize)] *)
Definition resize (out : list Z) (outsize : Z) : list Z :=
  take (Z.to_nat outsize) out ++ replicate (Z.to_nat (outsize - len out)) junk.

(** The end of a turn: grows the buffer.  [inr None] is the failure of
    [realloc], [inr (Some s)] the [break]. *)
Definition grow (max_size : Z) (s : cd_state) : res (cd_state + option cd_state) :=
  let outsize := len (cd_out s) in
  if outsize - MAX_OP_SIZE <=? cd_outpos s then
    let outsize := u64 (outsize * 3) / 2 in
    let outsize := if tr max_size && (max_size <=? outsize)
                   then u64 (max_size + MAX_OP_SIZE + 1) else outsize in
    if tr max_size && (max_size <? cd_outpos s) then Ok (inr (Some s))
    else if malloc_ok outsize then
      Ok (inl (CdState (resize (cd_out s) outsize) (cd_outpos s) (cd_data s) (cd_inscnt s)
                       (cd_moff s) (cd_msize s) (cd_val s)))
    else Ok (inr None)
  else Ok (inl s).

(** One turn of [while (data < top)]. *)
Definition delta_step (idx : delta_index) (trg : list Z) (max_size : Z) (s : cd_state)
    : res (cd_state + option cd_state) :=
  if cd_data s <? len trg then
    '(val, msize, moff) ← search idx trg s;
    let s := CdState (cd_out s) (cd_outpos s) (cd_data s) (cd_inscnt s) moff msize val in
    s ← (if msize <? 4 then emit_literal trg s else emit_copy (di_src idx) trg s);
    grow max_size s
  else Ok (inr (Some s)).

(** [create_delta]; [None] is [NULL], otherwise the result is the first
    [*delta_size] bytes of [out]. *)
Definition create_delta (idx : delta_index) (trg : list Z) (max_size : Z)
    : res (option (list Z)) :=
  if len trg =? 0 then Ok None
  else
    let outsize := if tr max_size && (max_size <=? 8192)
                   then u64 (max_size + MAX_OP_SIZE + 1) else 8192 in
    if negb (malloc_ok outsize) then Ok None
    else
      let out := replicate (Z.to_nat outsize) junk in
      '(out, outpos) ← put_size (out, 0) (len (di_src idx));
      '(out, outpos) ← put_size (out, outpos) (len trg);
      '(out, outpos, i, val) ← loop 17 (window_step trg) (out, outpos + 1, 0, 0);
      o ← loop (S (length trg)) (delta_step idx trg max_size) (CdState out outpos i i 0 0 val);
      match o with
      | None => Ok None
      | Some s =>
          out ← (if tr (cd_inscnt s)
                 then wr (cd_out s) (cd_outpos s - cd_inscnt s - 1) (u8 (cd_inscnt s))
                 else Ok (cd_out s));
          if tr max_size && (max_size <? cd_outpos s) then Ok None
          else Ok (Some (take (Z.to_nat (cd_outpos s)) out))
      end.

(** [diff_delta]: index, encode, free the index. *)
Definition diff_delta (src trg : list Z) (max_size : Z) : res (option (list Z)) :=
  o ← create_delta_index malloc_ok src;
  match o with
  | Some idx => create_delta idx trg max_size
  | None => Ok None
  end.
End CreateDelta.

Example diff_delta_runs :
  diff_delta (fun _ => true) 99 (seqZ 1 60) (seqZ 1 50 ++ [7; 7] ++ seqZ 10 40) 0
  = Ok (Some [60; 92; 0x90; 50; 2; 7; 7; 0x91; 9; 40]).
Proof. vm_compute. done. Qed.

(** ** The written prefix of the output buffer *)

(** The first [p] cells of [out] are [l]. *)
Definition prefix (out : list Z) (p : Z) (l : list Z) : Prop :=
  0 <= p <= len out /\ take (Z.to_nat p) out = l.

Lemma prefix_len out p l : prefix out p l -> len l = p.
Proof. intros [Hp <-]. unfold len in *. rewrite length_take. lia. Qed.

Lemma prefix_skip out p l : prefix out p l -> p < len out ->
  exists x, prefix out (p + 1) (l ++ [x]).
Proof.
  intros [Hp Hl] Hlt.
  destruct (lookup_lt_is_Some_2 out (Z.to_nat p)) as [x Hx]; [llia|]. exists x.
  split; [lia|]. replace (Z.to_nat (p + 1)) with (S (Z.to_nat p)) by lia.
  by rewrite (take_S_r _ _ _ Hx), Hl.
Qed.

Lemma put_byte_ok out p l b : prefix out p l -> p < len out ->
  put_byte (out, p) b = Ok (<[Z.to_nat p := u8 b]> out, p + 1) /\
  prefix (<[Z.to_nat p := u8 b]> out) (p + 1) (l ++ [u8 b]).
Proof.
  intros [Hp Hl] Hlt. unfold put_byte. rewrite wr_ok by lia. split; [done|].
  split; [rewrite len_insert; lia|]. replace (Z.to_nat (p + 1)) with (S (Z.to_nat p)) by lia.
  rewrite (take_S_r _ _ (u8 b)) by (apply list_lookup_insert_eq; llia).
  by rewrite take_insert_ge, Hl by lia.
Qed.

(** Writing the cell at the end of [l1]. *)
Lemma prefix_patch out p l1 x y l2 : prefix out p (l1 ++ x :: l2) ->
  wr out (len l1) y = Ok (<[Z.to_nat (len l1) := y]> out) /\
  prefix (<[Z.to_nat (len l1) := y]> out) p (l1 ++ y :: l2).
Proof.
  intros Hp. pose proof (prefix_len _ _ _ Hp) as Hl. destruct Hp as [Hp Ht].
  rewrite len_app, len_cons in Hl. pose proof (len_nonneg l1). pose proof (len_nonneg l2).
  rewrite wr_ok by lia. split; [done|]. split; [by rewrite len_insert|].
  rewrite take_insert_lt, Ht by lia. unfold len. rewrite Nat2Z.id.
  rewrite insert_app_r_alt, Nat.sub_diag by lia. done.
Qed.

Lemma prefix_shrink out p l1 l2 : prefix out p (l1 ++ l2) -> prefix out (len l1) l1.
Proof.
  intros Hp. pose proof (prefix_len _ _ _ Hp) as Hl. destruct Hp as [Hp Ht].
  rewrite len_app in Hl. pose proof (len_nonneg l2). pose proof (len_nonneg l1). split; [lia|].
  replace (Z.to_nat (len l1)) with (Nat.min (length l1) (Z.to_nat p)) by llia.
  rewrite <- take_take, Ht, take_app_length. done.
Qed.

Lemma prefix_beyond out p l y : prefix out p l -> p < len out ->
  wr out p y = Ok (<[Z.to_nat p := y]> out) /\ prefix (<[Z.to_nat p := y]> out) p l.
Proof.
  intros [Hp Ht] Hlt. rewrite wr_ok by lia. split; [done|]. split; [by rewrite len_insert|].
  by rewrite take_insert_ge by lia.
Qed.

Lemma u8_idem b : u8 (u8 b) = u8 b.
Proof. apply u8_small, u8_byte. Qed.

(** [put_size] writes the header. *)
Lemma put_size_ok out p l L : prefix out p l -> 0 <= L < 2 ^ 64 -> p + 10 <= len out ->
  total (put_size (out, p) L) (fun '(out', p') =>
    prefix out' p' (l ++ delta_hdr L) /\ len out' = len out).
Proof.
  intros Hp HL Hroom. unfold put_size, delta_hdr.
  assert (forall n fuel L out p l, (n <= 9)%nat -> (n < fuel)%nat -> prefix out p l -> p + Z.of_nat n < len out ->
    0 <= L < 2 ^ (7 * Z.of_nat n + 1) ->
    total ('(o, l) ← loop fuel size_step ((out, p), L); put_byte o l) (fun '(out', p') =>
      prefix out' p' (l ++ hdr_bytes n L) /\ len out' = len out)) as Hmain.
  { clear. induction n as [|n IH]; intros fuel L out p l Hn Hf Hp Hroom HL;
      (destruct fuel as [|fuel]; [lia|]); cbn [loop hdr_bytes]; unfold size_step at 1.
    - change (2 ^ (7 * Z.of_nat 0 + 1)) with 2 in HL. destruct (Z.leb_spec 128 L); [lia|].
      cbn [mbind res_bind]. destruct (put_byte_ok out p l L Hp ltac:(lia)) as [-> H'].
      cbn [wp]. rewrite (u8_small L) in * by (unfold is_byte; lia). by rewrite len_insert.
    - destruct (Z.leb_spec 128 L).
      + destruct (put_byte_ok out p l (L |. 128) Hp ltac:(lia)) as [-> H']. cbn [mbind res_bind].
        eapply wp_mono.
        * apply (IH fuel (L >>. 7) _ _ _ ltac:(lia) ltac:(lia) H'); rewrite ?len_insert; [lia|].
          rewrite Z.shiftr_div_pow2 by done. split; [dlia|]. apply Z.div_lt_upper_bound; [done|].
          rewrite <- Z.pow_add_r by lia. eapply Z.lt_le_trans; [apply HL|]. apply Z.pow_le_mono_r; lia.
        * intros [out' p']. rewrite len_insert, <- app_assoc. done.
      + cbn [mbind res_bind]. destruct (put_byte_ok out p l L Hp ltac:(lia)) as [-> H'].
        cbn [wp]. rewrite (u8_small L) in * by (unfold is_byte; lia). by rewrite len_insert. }
  apply (Hmain 9%nat); try (done || lia). 
Qed.

Lemma delta_hdr_short L : 0 <= L < 2 ^ 35 -> 1 <= len (delta_hdr L) <= 5.
Proof.
  intros HL. unfold delta_hdr.
  assert (forall k n L, (k <= n)%nat -> 0 <= L < 2 ^ (7 * Z.of_nat (S k)) -> 1 <= len (hdr_bytes n L) <= Z.of_nat (S k)) as Hk.
  { clear. induction k as [|k IH]; intros n L Hkn HL.
    - change (2 ^ _) with 128 in HL. destruct n as [|n]; [done|]. rewrite hdr_bytes_S.
      destruct (Z.leb_spec 128 L); [lia|]. done.
    - destruct n as [|n]; [lia|]. rewrite hdr_bytes_S. destruct (Z.leb_spec 128 L).
      + rewrite len_cons. assert (1 <= len (hdr_bytes n (L >>. 7)) <= Z.of_nat (S k)); [|lia].
        apply IH; [lia|]. rewrite Z.shiftr_div_pow2 by done. split; [dlia|].
        apply Z.div_lt_upper_bound; [done|]. rewrite <- Z.pow_add_r by lia.
        eapply Z.lt_le_trans; [apply HL|]. apply Z.pow_le_mono_r; lia.
      + rewrite len_cons, len_nil. lia. }
  change 5 with (Z.of_nat 5). apply Hk; [lia|]. done.
Qed.

(** ** Searching for a match *)

Lemma slice_S {A} `{!Inhabited A} (l : list A) i n : 0 <= i -> 0 <= n -> i + n < len l ->
  slice l i (n + 1) = slice l i n ++ [l !!! Z.to_nat (i + n)].
Proof.
  intros Hi Hn Hl. unfold slice. replace (Z.to_nat (n + 1)) with (S (Z.to_nat n)) by lia.
  apply take_S_r. rewrite lookup_drop. replace (Z.to_nat i + Z.to_nat n)%nat with (Z.to_nat (i + n)) by lia.
  apply list_lookup_lookup_total_lt. llia.
Qed.

Lemma slice_extend_left {A} `{!Inhabited A} (l : list A) i n : 0 < i -> 0 <= n -> i <= len l ->
  slice l (i - 1) (n + 1) = l !!! Z.to_nat (i - 1) :: slice l i n.
Proof.
  intros Hi Hn Hl. unfold slice. replace (Z.to_nat (n + 1)) with (S (Z.to_nat n)) by lia.
  rewrite (drop_S l (l !!! Z.to_nat (i - 1)) (Z.to_nat (i - 1))).
  - simpl. f_equal. f_equal. f_equal. lia.
  - apply list_lookup_lookup_total_lt. llia.
Qed.

Lemma slice_drop {A} (l : list A) i n k : 0 <= i -> 0 <= k <= n ->
  slice l (i + k) (n - k) = drop (Z.to_nat k) (slice l i n).
Proof.
  intros. unfold slice. rewrite skipn_firstn_comm, drop_drop. f_equal; [|f_equal]; lia.
Qed.

Lemma slice_take {A} (l : list A) i n k : 0 <= k <= n ->
  slice l i k = take (Z.to_nat k) (slice l i n).
Proof. intros. unfold slice. rewrite take_take. f_equal. lia. Qed.

(** The source bytes from [moff] on are the target bytes from [data] on. *)
Definition match_ok (src trg : list Z) (data msize moff : Z) : Prop :=
  0 <= msize /\ 0 <= moff /\
  (0 < msize -> moff <= 0xffffffff /\ moff + msize <= len src /\ data + msize <= len trg /\
     slice src moff msize = slice trg data msize).

Lemma match_loop_ok src trg data ref n :
  0 <= ref -> 0 <= data -> 0 <= n -> ref + n <= len src -> data + n <= len trg ->
  total (loop (S (Z.to_nat n)) (match_step src trg) (n, data, ref)) (fun ref' =>
    ref <= ref' <= ref + n /\ slice src ref (ref' - ref) = slice trg data (ref' - ref)).
Proof.
  intros Hr Hd Hn Hs Ht.
  apply (wp_loop _ (fun '(m, sp, rf) => exists k, 0 <= k <= n /\ m = n - k /\ sp = data + k /\ rf = ref + k /\
           slice src ref k = slice trg data k) (fun '(m, _, _) => Z.to_nat m)).
  - intros [[m sp] rf] (k & Hk & -> & -> & -> & Heq). unfold match_step.
    destruct (Z.eqb_spec (n - k) 0).
    + cbn [wp]. replace (ref + k - ref) with k by lia. split; [lia|done].
    + rewrite (rd_ok trg), (rd_ok src) by lia. cbn [mbind res_bind].
      destruct (Z.eqb_spec (trg !!! Z.to_nat (data + k)) (src !!! Z.to_nat (ref + k))) as [E|]; cbn [wp].
      * split; [|lia]. exists (k + 1). split_and!; try lia.
        rewrite !slice_S by lia. by rewrite Heq, E.
      * replace (ref + k - ref) with k by lia. split; [lia|done].
  - exists 0. split_and!; try lia. done.
  - lia.
Qed.

Lemma search_loop_ok src trg entries first stop val data msize moff :
  0 <= first <= stop -> stop <= len entries -> 0 <= data < len trg ->
  (forall k, first <= k < stop -> points_to (entry_ok src) entries k) ->
  match_ok src trg data msize moff -> msize < 2 ^ 32 ->
  total (loop (S (length entries)) (search_step src trg entries stop val data) (first, msize, moff))
    (fun '(msize', moff') => match_ok src trg data msize' moff' /\ msize' < 2 ^ 32).
Proof.
  intros Hf Hs Hd He Hm Hm32.
  apply (wp_loop _ (fun '(e, msize, moff) => first <= e /\ match_ok src trg data msize moff /\ msize < 2 ^ 32)
           (fun '(e, _, _) => Z.to_nat (stop - e))); [|done|llia].
  intros [[e ms] mo] (Hfe & Hmo & Hlt). unfold search_step.
  destruct (Z.ltb_spec e stop); [|done].
  destruct (He e ltac:(lia)) as (x & -> & (Hp1 & Hp2 & _)). cbn [mbind res_bind].
  destruct (ie_val x =? val); [|cbn; split; [|lia]; split_and!; (done || lia)].
  cbn [negb]. set (rs := if _ <? _ then _ else _).
  assert (0 <= rs < 2 ^ 32 /\ ie_ptr x + rs <= len src /\ data + rs <= len trg) as (Hrs & Hrs1 & Hrs2).
  { pose proof (u32_range (len src - ie_ptr x)).
    assert (u32 (len src - ie_ptr x) <= len src - ie_ptr x) by (apply Z.mod_le; lia).
    unfold rs. destruct (Z.ltb_spec (len trg - data) (u32 (len src - ie_ptr x)));
      rewrite ?(u32_small (len trg - data)) by lia; lia. }
  clearbody rs. destruct (Z.leb_spec rs ms); [done|].
  apply wp_bind. eapply wp_mono; [apply (match_loop_ok src trg data (ie_ptr x) rs); lia|].
  intros ref (Hr1 & Hr2). cbv beta.
  destruct (Z.ltb_spec ms (ref - ie_ptr x)); [|cbn; split; [|lia]; split_and!; (done || lia)].
  assert (match_ok src trg data (ref - ie_ptr x) (ie_ptr x)) as Hnew.
  { unfold match_ok. split_and!; try lia. intros _. split_and!; try lia. done. }
  destruct (Z.leb_spec 4096 (ref - ie_ptr x)); cbn [wp]; [split; [done|lia]|].
  split; [|lia]. split_and!; (done || lia).
Qed.

Lemma search_ok idx trg s : IndexOk idx -> is_bytes trg ->
  16 <= cd_data s < len trg -> cd_msize s < 2 ^ 32 ->
  match_ok (di_src idx) trg (cd_data s) (cd_msize s) (cd_moff s) ->
  (cd_msize s < 4096 -> is_hash (cd_val s)) ->
  total (search idx trg s) (fun '(val, msize, moff) =>
    match_ok (di_src idx) trg (cd_data s) msize moff /\ msize < 2 ^ 32 /\ (msize < 4096 -> is_hash val)).
Proof.
  intros Hidx Hb Hd Hm32 Hm Hv. unfold search, RABIN_WINDOW.
  destruct (Z.ltb_spec (cd_msize s) 4096) as [Hlt|]; [|cbn; split_and!; (done || lia)].
  rewrite !rd_ok by lia. cbn [mbind res_bind].
  pose proof (is_byte_lookup_total trg (Z.to_nat (cd_data s - 16)) Hb ltac:(llia)) as Hc1.
  pose proof (is_byte_lookup_total trg (Z.to_nat (cd_data s)) Hb ltac:(llia)) as Hc2.
  destruct (pop_hash _ _ (Hv Hlt) Hc1) as [-> Hh]. cbn [mbind res_bind].
  rewrite rabin_push_ok by done. cbn [mbind res_bind].
  set (val := push _ _). assert (is_hash val) as Hval by (by apply push_hash).
  destruct (io_mask) as (bits & Hbits & Hmask).
  assert (0 <= val &. di_hash_mask idx <= di_hash_mask idx) as Hi.
  { rewrite Hmask. apply land_hmask; [lia|]. apply Hval. }
  destruct (io_bucket _ Hi) as (lo & hi & -> & -> & Hlo & _ & Hhi & Hbk). cbn [mbind res_bind].
  apply wp_bind. eapply wp_mono.
  - apply (search_loop_ok _ _ _ lo hi); try (done || lia).
    intros k Hk. destruct (Hbk k Hk) as (x & Hx & [Hx' _]). rewrite Z.sub_0_r in Hx. by exists x.
  - intros [msize moff] [H1 H2]. cbn. split_and!; done.
Qed.

(** ** What has been emitted

    The buffer holds the header [hdr], complete instructions [ops], and possibly
    an open insert instruction: a slot for its count and the literals [lits].
    Together they stand for the target bytes before [data]. *)
Definition emitted (src trg hdr out : list Z) (outpos data inscnt : Z) : Prop :=
  exists ops lits tl, Forall (op_wf src) ops /\
    ops_out src ops ++ lits = take (Z.to_nat data) trg /\ len lits = inscnt /\
    ((tl = [] /\ lits = []) \/ (lits <> [] /\ exists slot, tl = slot :: lits)) /\
    prefix out outpos (hdr ++ ops_bytes ops ++ tl).

Lemma app_take_prefix {A} (l1 l2 l : list A) (n m : nat) :
  l1 ++ l2 = take n l -> (length l1 <= m <= n)%nat -> (n <= length l)%nat ->
  l1 ++ take (m - length l1) l2 = take m l.
Proof.
  intros H Hm Hn. replace m with (Nat.min m n) at 2 by lia.
  rewrite <- take_take, <- H, take_app. f_equal. by rewrite take_ge by lia.
Qed.

(** Closing the open insert instruction. *)
Lemma close_insert src hdr out outpos ops lits slot inscnt :
  Forall (op_wf src) ops -> is_bytes lits -> len lits = inscnt -> 1 <= inscnt <= 127 ->
  prefix out outpos (hdr ++ ops_bytes ops ++ slot :: lits) ->
  let out' := <[Z.to_nat (outpos - inscnt - 1) := u8 inscnt]> out in
  wr out (outpos - inscnt - 1) (u8 inscnt) = Ok out' /\
  Forall (op_wf src) (ops ++ [OpInsert lits]) /\
  prefix out' outpos (hdr ++ ops_bytes (ops ++ [OpInsert lits]) ++ []).
Proof.
  intros Hwf Hb Hl Hn Hp out'. rewrite app_assoc in Hp.
  pose proof (prefix_len _ _ _ Hp) as Hlen. rewrite len_app, len_cons in Hlen.
  destruct (prefix_patch _ _ _ _ (u8 inscnt) _ Hp) as [Hw Hp'].
  replace (len (hdr ++ ops_bytes ops)) with (outpos - inscnt - 1) in * by lia.
  split; [done|]. split.
  - apply Forall_app_2; [done|]. apply Forall_singleton. simpl. split; [lia|done].
  - rewrite ops_bytes_app, app_nil_r. unfold ops_bytes at 2. simpl. rewrite app_nil_r.
    rewrite u8_small in Hp' by (unfold is_byte; lia). rewrite <- app_assoc in Hp'.
    unfold out'. rewrite u8_small by (unfold is_byte; lia). by rewrite Hl.
Qed.

Lemma emit_literal_ok src trg hdr s :
  is_bytes trg -> 0 <= cd_data s < len trg -> 0 <= cd_inscnt s <= 126 ->
  cd_outpos s + 2 <= len (cd_out s) ->
  emitted src trg hdr (cd_out s) (cd_outpos s) (cd_data s) (cd_inscnt s) ->
  total (emit_literal trg s) (fun s' =>
    emitted src trg hdr (cd_out s') (cd_outpos s') (cd_data s') (cd_inscnt s') /\
    0 <= cd_inscnt s' <= 126 /\ cd_data s' = cd_data s + 1 /\ cd_msize s' = 0 /\
    cd_moff s' = cd_moff s /\ cd_val s' = cd_val s /\ len (cd_out s') = len (cd_out s) /\
    cd_outpos s' <= cd_outpos s + 2).
Proof.
  intros Hb Hd Hi Hroom (ops & lits & tl & Hwf & Hout & Hlits & Htl & Hp).
  assert (exists p1 slot, p1 = (if cd_inscnt s =? 0 then cd_outpos s + 1 else cd_outpos s) /\
    prefix (cd_out s) p1 (hdr ++ ops_bytes ops ++ slot :: lits)) as (p1 & slot & Hp1 & Hpre).
  { destruct Htl as [[-> ->]|(Hne & slot & ->)].
    - rewrite <- Hlits. destruct (prefix_skip _ _ _ Hp ltac:(lia)) as [x Hx].
      exists (cd_outpos s + 1), x. split; [done|]. by rewrite <- !app_assoc in Hx.
    - exists (cd_outpos s), slot. split; [|done]. rewrite <- Hlits.
      destruct lits; [done|]. rewrite len_cons. pose proof (len_nonneg lits).
      destruct (Z.eqb_spec (1 + len lits) 0); [lia|done]. }
  unfold emit_literal. rewrite <- Hp1. rewrite rd_ok by lia. cbn [mbind res_bind].
  assert (p1 <= cd_outpos s + 1) by (rewrite Hp1; cases_Z; lia).
  pose proof (is_byte_lookup_total trg (Z.to_nat (cd_data s)) Hb ltac:(llia)) as Hc.
  set (c := trg !!! _) in *.
  destruct (put_byte_ok _ _ _ c Hpre ltac:(lia)) as [-> Hpre']. cbn [mbind res_bind].
  rewrite (u8_small c) in * by done. rewrite <- !app_assoc in Hpre'. simpl in Hpre'.
  assert (ops_out src ops ++ lits ++ [c] = take (Z.to_nat (cd_data s + 1)) trg) as Hout'.
  { rewrite app_assoc, Hout. replace (Z.to_nat (cd_data s + 1)) with (S (Z.to_nat (cd_data s))) by lia.
    symmetry. apply take_S_r. apply list_lookup_lookup_total_lt. llia. }
  assert (len (lits ++ [c]) = cd_inscnt s + 1) as Hl' by (rewrite len_app; by rewrite Hlits).
  assert (is_bytes (lits ++ [c])) as Hbl.
  { assert (is_bytes (ops_out src ops ++ lits ++ [c])) as H' by (rewrite Hout'; by apply Forall_take).
    by apply Forall_app in H' as [_ H']. }
  destruct (Z.eqb_spec (cd_inscnt s + 1) 127) as [E|].
  - destruct (close_insert src hdr _ _ ops (lits ++ [c]) slot (cd_inscnt s + 1) Hwf Hbl Hl' ltac:(lia) Hpre')
      as (-> & Hwf' & Hp'). cbn [mbind res_bind wp cd_out cd_outpos cd_data cd_inscnt cd_msize cd_moff cd_val].
    rewrite !len_insert. split_and!; try (done || lia).
    exists (ops ++ [OpInsert (lits ++ [c])]), [], []. split_and!; try done; [|by left].
    rewrite app_nil_r, ops_out_app. unfold ops_out at 2. simpl. by rewrite app_nil_r.
  - cbn [wp cd_out cd_outpos cd_data cd_inscnt cd_msize cd_moff cd_val].
    rewrite !len_insert. split_and!; try (done || lia).
    exists ops, (lits ++ [c]), (slot :: lits ++ [c]). split_and!; try done.
    right. split; [by destruct lits|by exists slot].
Qed.

(** After [b] turns of the backward loop; [-1] marks that the count slot went. *)
Definition back_inv (src trg : list Z) (s : cd_state) (b : Z) (k : back_state) : Prop :=
  bk_moff k = cd_moff s - b /\ bk_data k = cd_data s - b /\ bk_msize k = cd_msize s + b /\
  bk_outpos k = cd_outpos s - b /\ bk_inscnt k = cd_inscnt s - b /\
  match_ok src trg (bk_data k) (bk_msize k) (bk_moff k).

Lemma back_step_ok src trg s b k :
  back_inv src trg s b k -> 0 <= b < cd_inscnt s -> cd_inscnt s <= cd_data s -> 0 < cd_msize s ->
  total (back_step src trg k) (fun x =>
    match x with
    | inl k' => back_inv src trg s (b + 1) k' /\ b + 1 < cd_inscnt s
    | inr k' => (back_inv src trg s b k') \/
        (b + 1 = cd_inscnt s /\ back_inv src trg s (b + 1)
           (BackState (bk_moff k') (bk_data k') (bk_msize k') (bk_outpos k' + 1) 0) /\ bk_inscnt k' = -1)
    end).
Proof.
  intros (H1 & H2 & H3 & H4 & H5 & Hm) Hb Hd Hms. pose proof Hm as (M1 & M2 & M3).
  destruct M3 as (M4 & M5 & M6 & M7); [lia|]. unfold back_step.
  destruct (Z.eqb_spec (bk_moff k) 0); [by left; split_and!|].
  rewrite !rd_ok by lia. cbn [mbind res_bind].
  destruct (Z.eqb_spec (src !!! Z.to_nat (bk_moff k - 1)) (trg !!! Z.to_nat (bk_data k - 1))) as [E|];
    [|by left; split_and!].
  assert (match_ok src trg (bk_data k - 1) (bk_msize k + 1) (bk_moff k - 1)) as Hm'.
  { unfold match_ok. split_and!; try lia. intros _. split_and!; try lia.
    rewrite !slice_extend_left by lia. by rewrite E, M7. }
  cbn [bk_inscnt bk_moff bk_data bk_msize bk_outpos]. destruct (tr (bk_inscnt k - 1)) eqn:Et; cbn [wp].
  - apply tr_true in Et. split; [|lia]. unfold back_inv. cbn. split_and!; (done || lia).
  - apply tr_false in Et. right. unfold back_inv. cbn. split_and!; (done || lia).
Qed.

Lemma flush_literals_ok src trg hdr s :
  is_bytes trg -> 0 <= cd_data s <= len trg -> 0 <= cd_inscnt s <= 126 ->
  cd_outpos s < len (cd_out s) ->
  0 < cd_msize s -> match_ok src trg (cd_data s) (cd_msize s) (cd_moff s) ->
  emitted src trg hdr (cd_out s) (cd_outpos s) (cd_data s) (cd_inscnt s) ->
  total (flush_literals src trg s) (fun s' => exists b, 0 <= b <= cd_inscnt s /\
    emitted src trg hdr (cd_out s') (cd_outpos s') (cd_data s') 0 /\ cd_inscnt s' = 0 /\
    cd_data s' = cd_data s - b /\ 0 <= cd_data s' /\ cd_msize s' = cd_msize s + b /\
    match_ok src trg (cd_data s') (cd_msize s') (cd_moff s') /\
    cd_val s' = cd_val s /\ len (cd_out s') = len (cd_out s) /\ cd_outpos s' <= cd_outpos s).
Proof.
  intros Hb Hd Hi Hroom Hms Hm Hem. unfold flush_literals.
  destruct (Z.eqb_spec (cd_inscnt s) 0) as [E|E].
  { cbn. exists 0. rewrite E in *. split_and!; (done || lia). }
  destruct Hem as (ops & lits & tl & Hwf & Hout & Hlits & Htl & Hp).
  destruct Htl as [[_ ->]|(_ & slot & ->)]; [by rewrite <- Hlits in E|].
  assert (length (ops_out src ops) + length lits = Z.to_nat (cd_data s))%nat as Hlen.
  { rewrite <- length_app, Hout, length_take. llia. }
  assert (is_bytes lits) as Hbl.
  { assert (is_bytes (ops_out src ops ++ lits)) as H' by (rewrite Hout; by apply Forall_take).
    by apply Forall_app in H' as [_ H']. }
  apply wp_bind. eapply wp_mono.
  { apply (wp_loop _ (fun k => exists b, 0 <= b < cd_inscnt s /\ back_inv src trg s b k)
      (fun k => Z.to_nat (bk_inscnt k))
      (fun k => (exists b, 0 <= b < cd_inscnt s /\ back_inv src trg s b k) \/
        (back_inv src trg s (cd_inscnt s)
           (BackState (bk_moff k) (bk_data k) (bk_msize k) (bk_outpos k + 1) 0) /\ bk_inscnt k = -1))).
    - intros k (b & Hbb & HI). eapply wp_mono; [apply (back_step_ok src trg s b k); (done || llia)|].
      pose proof HI as (_ & _ & _ & _ & Hk & _).
      intros [k'|k'].
      + intros [HI' Hlt]. split; [exists (b + 1); split; [lia|done]|].
        destruct HI' as (_ & _ & _ & _ & -> & _). lia.
      + intros [HI'|(<- & HI' & Hk')]; [left; by exists b|right; done].
    - exists 0. split; [lia|]. unfold back_inv. cbn. rewrite !Z.sub_0_r, Z.add_0_r. split_and!; done.
    - cbn. lia. }
  intros k Hk. cbv beta in *. pose proof (prefix_len _ _ _ Hp) as Hpl. rewrite !len_app, len_cons in Hpl.
  destruct Hk as [(b & Hbb & K1 & K2 & K3 & K4 & K5 & K6)|[(K1 & K2 & K3 & K4 & _ & K6) K5]].
  - (* some literals remain: close the instruction *)
    set (lits' := take (Z.to_nat (cd_inscnt s - b)) lits).
    assert (len lits' = bk_inscnt k) as Hl' by (unfold lits', len in *; rewrite length_take; lia).
    assert (prefix (cd_out s) (bk_outpos k) (hdr ++ ops_bytes ops ++ slot :: lits')) as Hp'.
    { replace (hdr ++ ops_bytes ops ++ slot :: lits)
        with ((hdr ++ ops_bytes ops ++ slot :: lits') ++ drop (Z.to_nat (cd_inscnt s - b)) lits) in Hp
        by (rewrite <- !app_assoc; simpl; unfold lits'; by rewrite take_drop).
      apply prefix_shrink in Hp. rewrite !len_app, len_cons, Hl' in Hp.
      replace (bk_outpos k) with (len hdr + (len (ops_bytes ops) + (1 + bk_inscnt k))) by lia. done. }
    destruct (close_insert src hdr (cd_out s) (bk_outpos k) ops lits' slot (bk_inscnt k) Hwf)
      as (-> & Hwf' & Hp''); [by apply Forall_take|done|lia|done|].
    cbn [mbind res_bind wp cd_out cd_outpos cd_data cd_inscnt cd_msize cd_moff cd_val].
    exists b. rewrite len_insert. split_and!; try (done || lia || llia).
    exists (ops ++ [OpInsert lits']), [], []. split_and!; try done; [|by left].
    rewrite app_nil_r, ops_out_app. unfold ops_out at 2. simpl. rewrite app_nil_r.
    assert (lits' = take (Z.to_nat (bk_data k) - length (ops_out src ops)) lits) as ->.
    { unfold lits'. f_equal. llia. }
    eapply app_take_prefix; [exact Hout|llia|llia].
  - (* every literal is matched: the instruction disappears *)
    cbn in K1, K2, K3, K4, K6. rewrite K5.
    rewrite app_assoc in Hp. apply prefix_shrink in Hp as Hp'. rewrite len_app in Hp'. replace (len hdr + len (ops_bytes ops)) with (bk_outpos k) in Hp' by lia.
    destruct (prefix_beyond _ _ _ (u8 (-1)) Hp' ltac:(lia)) as [Hw Hp''].
    replace (bk_outpos k - -1 - 1) with (bk_outpos k) by lia. rewrite Hw.
    cbn [mbind res_bind wp cd_out cd_outpos cd_data cd_inscnt cd_msize cd_moff cd_val].
    exists (cd_inscnt s). rewrite len_insert. split_and!; try (done || lia || llia).
    exists ops, [], []. rewrite !app_nil_r. split_and!; try done; [|by left].
    rewrite <- (app_nil_r (ops_out src ops)).
    assert (@nil Z = take (Z.to_nat (bk_data k) - length (ops_out src ops)) lits) as ->.
    { replace (Z.to_nat (bk_data k) - length (ops_out src ops))%nat with 0%nat by llia. done. }
    eapply app_take_prefix; [exact Hout|llia|llia].
Qed.

Lemma put_arg_ok x k bit out p l i (Q : list Z * Z * Z -> Prop) :
  0 <= k -> prefix out p l -> p < len out ->
  (forall out' p', prefix out' p' (l ++ field (has_byte x k) (get_byte x k)) -> p <= p' <= p + 1 ->
     len out' = len out -> Q (out', p', i |. b2bit (has_byte x k) bit)) ->
  total (put_arg x (0xff <<. (8 * k)) (8 * k) bit (out, p, i)) Q.
Proof.
  intros Hk Hp Hroom HQ. unfold put_arg. fold (has_byte x k). destruct (has_byte x k).
  - destruct (put_byte_ok _ _ _ (x >>. (8 * k)) Hp Hroom) as [-> Hp']. cbn [mbind res_bind wp].
    apply HQ; [done|lia|by rewrite len_insert].
  - cbn [wp]. cbn [b2bit field] in HQ. rewrite Z.lor_0_r, app_nil_r in HQ. apply HQ; (done || lia).
Qed.

Lemma rehash_ok trg data : is_bytes trg -> 16 <= data <= len trg ->
  exists val, rehash_window trg data = Ok val /\ is_hash val.
Proof.
  intros Hb Hd. unfold rehash_window, RABIN_WINDOW. rewrite rd_slice_ok by lia. cbn [mbind res_bind].
  destruct (rabin_pushes_ok (slice trg (data - 16) 16)) with (v := 0) as [Hv Hh];
    [by apply Forall_take, Forall_drop|unfold is_hash; lia|]. eauto.
Qed.

Lemma take_slice {A} (l : list A) i n : 0 <= i -> 0 <= n ->
  take (Z.to_nat i) l ++ slice l i n = take (Z.to_nat (i + n)) l.
Proof.
  intros. unfold slice. rewrite Z2Nat.inj_add by lia. by rewrite <- take_take_drop.
Qed.

Lemma emit_copy_ok src trg hdr s :
  is_bytes trg -> 16 <= cd_data s <= len trg -> 0 <= cd_inscnt s <= 126 ->
  cd_outpos s + 7 <= len (cd_out s) -> len src < 2 ^ 64 ->
  4 <= cd_msize s < 2 ^ 32 -> match_ok src trg (cd_data s) (cd_msize s) (cd_moff s) ->
  emitted src trg hdr (cd_out s) (cd_outpos s) (cd_data s) (cd_inscnt s) ->
  total (emit_copy src trg s) (fun s' =>
    emitted src trg hdr (cd_out s') (cd_outpos s') (cd_data s') 0 /\ cd_inscnt s' = 0 /\
    cd_data s + 4 <= cd_data s' <= len trg /\ cd_msize s' < 2 ^ 32 /\
    match_ok src trg (cd_data s') (cd_msize s') (cd_moff s') /\
    (cd_msize s' < 4096 -> is_hash (cd_val s')) /\ len (cd_out s') = len (cd_out s) /\
    cd_outpos s' <= cd_outpos s + 7).
Proof.
  intros Hb Hd Hi Hroom Hsrc Hms Hm Hem. unfold emit_copy. apply wp_bind.
  eapply wp_mono; [apply (flush_literals_ok src trg hdr s); (done || lia)|].
  intros s1 (b & Hbb & Hem1 & Hi1 & Hd1 & Hd0 & Hms1 & Hm1 & Hv1 & Ho1 & Hp1).
  pose proof Hm1 as (_ & M2 & M3). destruct M3 as (M4 & M5 & M6 & M7); [lia|].
  set (left := u32 (if cd_msize s1 <? 0x10000 then 0 else cd_msize s1 - 0x10000)).
  assert (left = Z.max 0 (cd_msize s1 - 0x10000)) as Hleft.
  { unfold left. destruct (Z.ltb_spec (cd_msize s1) 0x10000); rewrite u32_small; lia. }
  clearbody left. set (n := cd_msize s1 - left). assert (1 <= n <= 0x10000) as Hn by lia.
  destruct Hem1 as (ops & lits & tl & Hwf & Hout & Hlits & Htl & Hp).
  assert (lits = []) as -> by (destruct lits; [done|]; rewrite len_cons in Hlits; pose proof (len_nonneg lits); lia).
  destruct Htl as [[-> _]|[]]; [|done]. rewrite !app_nil_r in *.
  destruct (prefix_skip _ _ _ Hp ltac:(lia)) as [op Hpop].
  eapply wp_bind, (put_arg_ok (cd_moff s1) 0); [lia|exact Hpop|lia|]. intros o0 p0 P0 B0 L0.
  eapply wp_bind, (put_arg_ok (cd_moff s1) 1); [lia|exact P0|lia|]. intros o1 p1 P1 B1 L1.
  eapply wp_bind, (put_arg_ok (cd_moff s1) 2); [lia|exact P1|lia|]. intros o2 p2 P2 B2 L2.
  eapply wp_bind, (put_arg_ok (cd_moff s1) 3); [lia|exact P2|lia|]. intros o3 p3 P3 B3 L3.
  eapply wp_bind, (put_arg_ok n 0); [lia|exact P3|lia|]. intros o4 p4 P4 B4 L4.
  eapply wp_bind, (put_arg_ok n 1); [lia|exact P4|lia|]. intros o5 p5 P5 B5 L5.
  set (cmd := _ |. b2bit (has_byte n 1) _). rewrite <- !app_assoc in P5. rewrite app_assoc in P5. cbn [app] in P5.
  assert (len (hdr ++ ops_bytes ops) = cd_outpos s1) as Hlp by (by apply prefix_len in Hp).
  destruct (prefix_patch _ _ _ _ (u8 cmd) _ P5) as [Hw P6]. rewrite Hlp in Hw, P6. rewrite Hw. cbn [mbind res_bind].
  assert (u8 cmd = cmd) as Hcmd.
  { apply u8_small. apply (copy_cmd_bits (has_byte (cd_moff s1) 0) (has_byte (cd_moff s1) 1)
      (has_byte (cd_moff s1) 2) (has_byte (cd_moff s1) 3) (has_byte n 0) (has_byte n 1)). }
  assert (op_wf src (OpCopy (cd_moff s1) n)) as Hop by (simpl; lia).
  assert (slice src (cd_moff s1) n = slice trg (cd_data s1) n) as Hsl.
  { rewrite (slice_take _ _ (cd_msize s1)), M7 by lia. symmetry. apply slice_take. lia. }
  assert (emitted src trg hdr (<[Z.to_nat (cd_outpos s1):=u8 cmd]> o5) p5 (cd_data s1 + n) 0) as Hem'.
  { exists (ops ++ [OpCopy (cd_moff s1) n]), [], []. rewrite app_nil_r, ops_out_app, ops_bytes_app.
    split_and!; [by apply Forall_app_2, Forall_singleton| |done|by left|].
    - unfold ops_out at 2. simpl. rewrite app_nil_r, Hsl, Hout. apply take_slice; lia.
    - unfold ops_bytes at 2. cbn [map concat op_bytes]. rewrite !app_nil_r, app_assoc.
      unfold copy_cmd. fold cmd. rewrite Hcmd in P6 |- *. done. }
  set (msize' := if 0xffffffff <? cd_moff s1 + n then 0 else left).
  assert (match_ok src trg (cd_data s1 + n) msize' (cd_moff s1 + n)) as Hm'.
  { unfold msize'. destruct (Z.ltb_spec 0xffffffff (cd_moff s1 + n)); unfold match_ok; split_and!; try lia.
    intros Hl. split_and!; try lia. replace left with (cd_msize s1 - n) by lia.
    rewrite !slice_drop by lia. by rewrite M7. }
  assert (cd_data s + 4 <= cd_data s1 + n <= len trg) as Hdat by lia.
  assert (msize' < 2 ^ 32) by (unfold msize'; destruct (_ <? _); lia).
  destruct (rehash_ok trg (cd_data s1 + n) Hb ltac:(lia)) as (v & Hrv & Hh).
  apply wp_bind. destruct (Z.ltb_spec msize' 4096); [rewrite Hrv|];
    cbn [wp cd_out cd_outpos cd_data cd_inscnt cd_msize cd_moff cd_val]; rewrite len_insert;
    split_and!; try (done || lia).
Qed.

(** ** The main loop *)

Section MainLoop.
Context (malloc_ok : Z -> bool) (junk : Z) (idx : delta_index) (trg hdr : list Z) (max_size : Z).
Context `{!IndexOk idx} (Htrg : is_bytes trg) (Hmax : 0 <= max_size).
Context (Hsrc35 : len (di_src idx) < 2 ^ 35) (Htrg35 : len trg < 2 ^ 35).
Let src := di_src idx.

(** The bound on the output that keeps the buffer arithmetic from overflowing. *)
Definition out_bound (data : Z) : Z := 64 + 2 * data.

(** What holds between the emission and the growth of the buffer. *)
Definition mid_inv (s : cd_state) : Prop :=
  emitted src trg hdr (cd_out s) (cd_outpos s) (cd_data s) (cd_inscnt s) /\
  0 <= cd_inscnt s <= 126 /\ Z.min 16 (len trg) <= cd_data s <= len trg /\ cd_msize s < 2 ^ 32 /\
  match_ok src trg (cd_data s) (cd_msize s) (cd_moff s) /\
  (cd_msize s < 4096 -> is_hash (cd_val s)) /\
  36 <= len (cd_out s) /\ cd_outpos s <= len (cd_out s) /\
  cd_outpos s <= out_bound (cd_data s) /\ len (cd_out s) <= 8300 + 2 * out_bound (cd_data s).

(** The loop invariant: there is room for the longest instruction. *)
Definition loop_inv (s : cd_state) : Prop := mid_inv s /\ cd_outpos s + 7 <= len (cd_out s).

Lemma len_resize out n : 0 <= n -> len (resize junk out n) = n.
Proof.
  intros Hn. unfold resize. rewrite len_app. unfold len. rewrite length_take, length_replicate. lia.
Qed.

Lemma resize_prefix out p l n : prefix out p l -> p <= n -> prefix (resize junk out n) p l.
Proof.
  intros [Hp Ht] Hn. split; [rewrite len_resize; lia|]. unfold resize.
  rewrite take_app_le, take_take by (rewrite length_take; llia).
  by replace (Nat.min (Z.to_nat p) (Z.to_nat n)) with (Z.to_nat p) by lia.
Qed.

Lemma emitted_resize out outpos data inscnt n :
  emitted src trg hdr out outpos data inscnt -> outpos <= n ->
  emitted src trg hdr (resize junk out n) outpos data inscnt.
Proof.
  intros (ops & lits & tl & H1 & H2 & H3 & H4 & H5) Hn. exists ops, lits, tl.
  split_and!; try done. by apply resize_prefix.
Qed.

Lemma grow_ok s : mid_inv s ->
  total (grow malloc_ok junk max_size s) (fun x =>
    match x with
    | inl s' => loop_inv s' /\ cd_data s' = cd_data s
    | inr (Some s') => s' = s /\ 0 < max_size < cd_outpos s
    | inr None => exists n, malloc_ok n = false
    end).
Proof.
  intros (Hem & Hi & Hd & Hm32 & Hm & Hv & H36 & Hpl & Hb1 & Hb2). unfold grow, MAX_OP_SIZE, RABIN_WINDOW.
  destruct (Z.leb_spec (len (cd_out s) - (5 + 5 + 1 + 16 + 7)) (cd_outpos s)) as [Hfull|].
  2: { cbn [wp]. split; [|done]. unfold loop_inv, mid_inv. split_and!; (done || lia). }
  unfold out_bound in *. rewrite (u64_small (len (cd_out s) * 3)) by lia.
  set (n0 := len (cd_out s) * 3 / 2). assert (len (cd_out s) + 18 <= n0 <= len (cd_out s) * 2) as Hn0 by (unfold n0; dlia).
  clearbody n0. destruct (tr max_size && (max_size <? cd_outpos s)) eqn:Ebr.
  { apply andb_true_iff in Ebr as [Ebm%tr_true Ebr%Z.ltb_lt]. cbn. split; [done|lia]. }
  set (n := if tr max_size && (max_size <=? n0) then _ else n0).
  assert (cd_outpos s + 7 <= n <= 8300 + 2 * (64 + 2 * cd_data s) /\ 36 <= n) as [Hn Hn36].
  { unfold n. destruct (tr max_size) eqn:Et; cbn [andb] in *.
    - apply Z.ltb_ge in Ebr. apply tr_true in Et.
      destruct (Z.leb_spec max_size n0); [rewrite u64_small by lia|]; lia.
    - lia. }
  clearbody n. destruct (malloc_ok n) eqn:Emal; [|cbn; eauto]. cbn [wp]. split; [|done].
  unfold loop_inv, mid_inv, out_bound. cbn. rewrite len_resize by lia.
  split_and!; try (done || lia). apply emitted_resize; [done|lia].
Qed.

Lemma delta_step_ok s : loop_inv s ->
  total (delta_step malloc_ok junk idx trg max_size s) (fun x =>
    match x with
    | inl s' => loop_inv s' /\ cd_data s < cd_data s' <= len trg
    | inr (Some s') => mid_inv s' /\ (cd_data s' = len trg \/ 0 < max_size < cd_outpos s')
    | inr None => exists n, malloc_ok n = false
    end).
Proof.
  intros [HI Hroom]. pose proof HI as (Hem & Hi & Hd & Hm32 & Hm & Hv & H36 & Hpl & Hb1 & Hb2).
  unfold delta_step. destruct (Z.ltb_spec (cd_data s) (len trg)).
  2: { cbn [wp]. split; [done|]. left. lia. }
  apply wp_bind. eapply wp_mono; [apply search_ok; (done || lia)|].
  intros [[val msize] moff] (Hm' & Hm32' & Hv'). cbv zeta.
  set (s1 := CdState _ _ _ _ _ _ _).
  assert (total (if msize <? 4 then emit_literal trg s1 else emit_copy (di_src idx) trg s1)
    (fun s' => mid_inv s' /\ cd_data s < cd_data s')) as Hemit.
  { unfold out_bound in *. destruct (Z.ltb_spec msize 4).
    - eapply wp_mono; [apply (emit_literal_ok src trg hdr s1); simpl; (done || lia)|].
      intros s' (A1 & A2 & A3 & A4 & A5 & A6 & A7 & A8). simpl in *. split; [|lia].
      unfold mid_inv, out_bound. split_and!; try (done || lia).
      + unfold match_ok. rewrite A5. destruct Hm' as (? & ? & _). lia.
      + intros _. rewrite A6. apply Hv'. lia.
    - eapply wp_mono; [apply (emit_copy_ok src trg hdr s1); simpl; (done || lia || (unfold src; lia))|].
      intros s' (A1 & A2 & A3 & A4 & A5 & A6 & A7 & A8). simpl in *. split; [|lia].
      unfold mid_inv, out_bound. rewrite A2. split_and!; try (done || lia). }
  apply wp_bind. eapply wp_mono; [exact Hemit|]. intros s' [HI' Hlt].
  eapply wp_mono; [by apply grow_ok|]. intros [s''|[s''|]]; [|intros [-> ?]|done].
  - intros [HI'' Hd'']. rewrite Hd''. split; [done|].
    destruct HI' as (_ & _ & ? & _). lia.
  - split; [done|by right].
Qed.

Lemma delta_loop_ok s : loop_inv s ->
  total (loop (S (length trg)) (delta_step malloc_ok junk idx trg max_size) s) (fun o =>
    match o with
    | Some s' => mid_inv s' /\ (cd_data s' = len trg \/ 0 < max_size < cd_outpos s')
    | None => exists n, malloc_ok n = false
    end).
Proof.
  intros HI. apply (wp_loop _ loop_inv (fun s => Z.to_nat (len trg - cd_data s))); [|done|].
  - intros s' HI'. eapply wp_mono; [by apply delta_step_ok|]. intros [s''|[s''|]]; try done.
    intros [? ?]. split; [done|lia].
  - destruct HI as [(_ & _ & ? & _) _]. llia.
Qed.
End MainLoop.

Lemma window_ok trg hdr out p slot : is_bytes trg ->
  prefix out p (hdr ++ [slot]) -> p + 16 <= len out ->
  total (loop 17 (window_step trg) (out, p, 0, 0)) (fun '(out', p', i, val) =>
    i = Z.min 16 (len trg) /\ prefix out' p' (hdr ++ slot :: take (Z.to_nat i) trg) /\
    is_hash val /\ len out' = len out /\ p' = p + i).
Proof.
  intros Hb Hp Hroom. pose proof (len_nonneg trg).
  apply (wp_loop _ (fun '(out', p', i, val) => 0 <= i <= Z.min 16 (len trg) /\
      prefix out' p' (hdr ++ slot :: take (Z.to_nat i) trg) /\ is_hash val /\ len out' = len out /\ p' = p + i)
    (fun '(_, _, i, _) => Z.to_nat (16 - i))).
  - intros [[[o q] i] val] (Hi & Hpre & Hv & Hl & ->). unfold window_step, RABIN_WINDOW.
    destruct (Z.ltb_spec i 16), (Z.ltb_spec i (len trg)); cbn [andb wp]; try (split_and!; (done || lia)).
    rewrite rd_ok by lia. cbn [mbind res_bind].
    pose proof (is_byte_lookup_total trg (Z.to_nat i) Hb ltac:(llia)) as Hc. set (c := trg !!! _) in *.
    destruct (put_byte_ok _ _ _ c Hpre ltac:(lia)) as [-> Hpre']. cbn [mbind res_bind].
    rewrite rabin_push_ok by done. cbn [mbind res_bind wp]. rewrite (u8_small c) in * by done.
    split; [|lia]. rewrite len_insert. split_and!; try (lia || by apply push_hash).
    replace (Z.to_nat (i + 1)) with (S (Z.to_nat i)) by lia.
    rewrite (take_S_r _ _ c) by (apply list_lookup_lookup_total_lt; llia).
    by rewrite <- app_assoc in Hpre'.
  - split_and!; try (done || lia).
  - simpl. lia.
Qed.

(** The delta of a state in which the whole target has been emitted. *)
Lemma emitted_delta src trg out outpos inscnt :
  let hdr := delta_hdr (len src) ++ delta_hdr (len trg) in
  is_bytes trg -> trg <> [] -> len src < 2 ^ 64 -> len trg < 2 ^ 64 - 1 -> 0 <= inscnt <= 126 ->
  emitted src trg hdr out outpos (len trg) inscnt ->
  total (if tr inscnt then wr out (outpos - inscnt - 1) (u8 inscnt) else Ok out) (fun out' =>
    forall malloc_ok guard, malloc_ok (len trg + 1) = true ->
    let delta := take (Z.to_nat outpos) out' in
    len delta = outpos /\ patch_delta malloc_ok src (delta ++ guard) (len delta) = Ok (Some trg)).
Proof.
  intros hdr Hb Hne Hs Ht Hi (ops & lits & tl & Hwf & Hout & Hlits & Htl & Hp).
  rewrite take_ge in Hout by llia.
  assert (forall out' ops', Forall (op_wf src) ops' -> ops_out src ops' = trg ->
    prefix out' outpos (hdr ++ ops_bytes ops') -> forall malloc_ok guard, malloc_ok (len trg + 1) = true ->
    let delta := take (Z.to_nat outpos) out' in
    len delta = outpos /\ patch_delta malloc_ok src (delta ++ guard) (len delta) = Ok (Some trg)) as Hdone.
  { clear - Hs Ht Hne. intros out' ops' Hwf Hout Hp malloc_ok guard Hmal delta. pose proof (prefix_len _ _ _ Hp) as Hl.
    destruct Hp as [Hp Htk]. unfold delta. rewrite Htk. split; [done|].
    assert (ops' <> []) by (by intros ->). unfold hdr. subst trg.
    pose proof (patch_delta_ops malloc_ok src ops' guard Hwf ltac:(done) Hs Ht Hmal) as Hx.
    cbv zeta in Hx. rewrite !app_assoc in Hx. done. }
  destruct Htl as [[-> ->]|(Hnl & slot & ->)].
  - rewrite <- Hlits. cbn [tr negb]. simpl. apply (Hdone out ops); [done|by rewrite app_nil_r in Hout|by rewrite app_nil_r in Hp].
  - assert (1 <= inscnt) by (destruct lits; [done|]; rewrite len_cons in Hlits; pose proof (len_nonneg lits); lia).
    rewrite (proj2 (tr_true inscnt)) by lia.
    assert (is_bytes lits) as Hbl by (rewrite <- Hout in Hb; by apply Forall_app in Hb as [_ Hb]).
    destruct (close_insert src hdr out outpos ops lits slot inscnt Hwf Hbl Hlits ltac:(lia) Hp) as (-> & Hwf' & Hp').
    cbn [wp]. apply (Hdone _ (ops ++ [OpInsert lits])); [done| |by rewrite app_nil_r in Hp'].
    rewrite ops_out_app. unfold ops_out at 2. simpl. by rewrite app_nil_r.
Qed.

(** What [create_delta] promises, for any index that keeps the promises of
    [IndexOk]. *)
Definition delta_spec (malloc_ok : Z -> bool) (src trg : list Z) (max_size : Z)
    (o : option (list Z)) : Prop :=
  match o with
  | None => (exists n, malloc_ok n = false) \/ 0 < max_size
  | Some delta =>
      (0 < max_size -> len delta <= max_size) /\
      forall malloc_ok' guard, malloc_ok' (len trg + 1) = true ->
        patch_delta malloc_ok' src (delta ++ guard) (len delta) = Ok (Some trg)
  end.

Lemma create_delta_spec malloc_ok junk idx trg max_size :
  IndexOk idx -> is_bytes trg -> trg <> [] -> 0 <= max_size ->
  len (di_src idx) < 2 ^ 35 -> len trg < 2 ^ 35 ->
  total (create_delta malloc_ok junk idx trg max_size) (delta_spec malloc_ok (di_src idx) trg max_size).
Proof.
  intros Hidx Hb Hne Hmax Hs Ht. unfold create_delta.
  pose proof (len_nonneg trg). pose proof (len_nonneg (di_src idx)).
  destruct (Z.eqb_spec (len trg) 0) as [E|Hnz].
  { destruct trg; [done|]. rewrite len_cons in E. pose proof (len_nonneg trg). lia. }
  set (outsize := if tr max_size && (max_size <=? 8192) then _ else 8192).
  assert (36 <= outsize <= 8300) as Hos.
  { unfold outsize, MAX_OP_SIZE, RABIN_WINDOW. destruct (tr max_size) eqn:Et; cbn [andb]; [|lia].
    apply tr_true in Et. destruct (Z.leb_spec max_size 8192); [rewrite u64_small by lia|]; lia. }
  clearbody outsize. destruct (malloc_ok outsize) eqn:Em; [|left; eauto]. cbn [negb].
  set (out0 := replicate (Z.to_nat outsize) junk).
  assert (len out0 = outsize) as Hl0 by (unfold out0, len; rewrite length_replicate; lia).
  pose proof (delta_hdr_short (len (di_src idx)) ltac:(lia)). pose proof (delta_hdr_short (len trg) ltac:(lia)).
  apply wp_bind. eapply wp_mono; [apply (put_size_ok out0 0 []); [split; [lia|done]|lia|lia]|].
  intros [out1 p1] [Hp1 Hl1]. cbv beta iota. rewrite app_nil_l in Hp1.
  pose proof (prefix_len _ _ _ Hp1). apply wp_bind.
  eapply wp_mono; [apply (put_size_ok out1 p1 _ (len trg) Hp1); lia|].
  intros [out2 p2] [Hp2 Hl2]. cbv beta iota. pose proof (prefix_len _ _ _ Hp2) as Hpl2. rewrite len_app in Hpl2.
  destruct (prefix_skip _ _ _ Hp2 ltac:(lia)) as [slot Hp3]. apply wp_bind.
  eapply wp_mono; [apply (window_ok trg _ _ _ _ Hb Hp3); lia|].
  intros [[[out3 p3] i] val] (Hi & Hp4 & Hv & Hl3 & Hp3'). cbv beta iota.
  set (hdr := delta_hdr (len (di_src idx)) ++ delta_hdr (len trg)) in *.
  assert (loop_inv idx trg hdr (CdState out3 p3 i i 0 0 val)) as HI.
  { unfold loop_inv, mid_inv, out_bound. cbn. split_and!; try (done || lia).
    exists [], (take (Z.to_nat i) trg), (slot :: take (Z.to_nat i) trg). split_and!; try done.
    - unfold len in *. rewrite length_take. lia.
    - right. split; [|eauto]. replace (Z.to_nat i) with (S (pred (Z.to_nat i))) by lia. by destruct trg. }
  apply wp_bind. eapply wp_mono; [by apply (delta_loop_ok malloc_ok junk idx trg hdr max_size)|].
  intros [s|] Hloop; [|by left]. destruct Hloop as [HM Hfin].
  pose proof HM as (Hem & Hic & _). apply wp_bind.
  destruct Hfin as [Hdat|Hbig].
  - rewrite Hdat in Hem. eapply wp_mono; [apply (emitted_delta (di_src idx) trg); (done || lia)|].
    intros out' Hout'. cbv beta in *. destruct (tr max_size && (max_size <? cd_outpos s)) eqn:Eb.
    + apply andb_true_iff in Eb as [Eb%tr_true _]. right. lia.
    + cbn [wp delta_spec]. split; [|intros; by apply Hout'].
      intros Hpos. rewrite (proj2 (tr_true max_size)) in Eb by lia. apply Z.ltb_ge in Eb.
      destruct (Hout' (fun _ => true) [] eq_refl) as [-> _]. done.
  - assert (total (if tr (cd_inscnt s) then wr (cd_out s) (cd_outpos s - cd_inscnt s - 1) (u8 (cd_inscnt s))
                  else Ok (cd_out s)) (fun _ => True)) as Hw.
    { destruct (tr (cd_inscnt s)) eqn:Et; [|done]. apply tr_true in Et.
      destruct Hem as (ops & lits & tl & _ & _ & Hlits & Htl & Hp). pose proof (prefix_len _ _ _ Hp) as Hpl.
      destruct Htl as [[_ ->]|(_ & sl & ->)]; [by rewrite <- Hlits in Et|].
      rewrite !len_app, len_cons in Hpl. pose proof (len_nonneg hdr). pose proof (len_nonneg (ops_bytes ops)).
      destruct Hp as [Hp _]. by rewrite wr_ok by lia. }
    eapply wp_mono; [exact Hw|]. intros out' _.
    rewrite (proj2 (tr_true max_size)), (proj2 (Z.ltb_lt _ _)) by lia. right. lia.
Qed.

Lemma diff_delta_spec malloc_ok junk src trg max_size :
  is_bytes src -> is_bytes trg -> src <> [] -> trg <> [] -> 0 <= max_size ->
  len src < 2 ^ 35 -> len trg < 2 ^ 35 ->
  total (diff_delta malloc_ok junk src trg max_size) (delta_spec malloc_ok src trg max_size).
Proof.
  intros Hbs Hbt Hs Ht Hmax Hs35 Ht35. unfold diff_delta. apply wp_bind.
  eapply wp_mono; [by apply create_delta_index_spec|]. intros [idx|].
  - intros [<- Hidx]. by apply create_delta_spec.
  - intros [->|Hm]; [done|]. by left.
Qed.

(** C1: encoding and decoding are inverse.  For non-empty source and target (of
    less than 32 GiB), when memory does not run out and no size limit is given,
    [diff_delta] returns a delta without ever leaving a buffer, and
    [patch_delta] applied to the source and that delta returns the target. *)
Theorem diff_delta_roundtrip junk src trg guard :
  is_bytes src -> is_bytes trg -> src <> [] -> trg <> [] ->
  len src < 2 ^ 35 -> len trg < 2 ^ 35 ->
  exists delta, diff_delta (fun _ => true) junk src trg 0 = Ok (Some delta) /\
    patch_delta (fun _ => true) src (delta ++ guard) (len delta) = Ok (Some trg).
Proof.
  intros Hbs Hbt Hs Ht Hs35 Ht35.
  pose proof (diff_delta_spec (fun _ => true) junk src trg 0 Hbs Hbt Hs Ht ltac:(lia) Hs35 Ht35) as H.
  apply total_ok in H as ([delta|] & Hd & Hspec).
  - exists delta. split; [done|]. by apply Hspec.
  - destruct Hspec as [[n Hn]|H]; [done|lia].
Qed.

Lemma diff_delta_roundtrip_witness :
  exists delta, diff_delta (fun _ => true) 99 (seqZ 1 60) (seqZ 1 50 ++ [7; 7] ++ seqZ 10 40) 0
      = Ok (Some delta) /\
    patch_delta (fun _ => true) (seqZ 1 60) (delta ++ [0]) (len delta)
      = Ok (Some (seqZ 1 50 ++ [7; 7] ++ seqZ 10 40)).
Proof.
  apply diff_delta_roundtrip; try done.
  - apply Forall_forall. intros x Hx. apply elem_of_seqZ in Hx. unfold is_byte. lia.
  - repeat apply Forall_app_2; [| |]; try (apply Forall_forall; intros x Hx;
      apply elem_of_seqZ in Hx; unfold is_byte; lia).
    repeat constructor; unfold is_byte; lia.
Defined.

(** C3: the contract of [create_delta] with a size limit and with failing
    allocations.  Against any index that keeps the promises of [IndexOk], source
    and target of less than 32 GiB, all accesses are in bounds.  For an empty
    target the result is [NULL]; for any other target a returned delta respects a
    non-zero [max_size] and reconstructs the target, and [NULL] is returned only
    if the allocator refuses some size or a limit was given. *)
Theorem create_delta_contract malloc_ok junk idx trg max_size :
  IndexOk idx -> is_bytes trg -> 0 <= max_size ->
  len (di_src idx) < 2 ^ 35 -> len trg < 2 ^ 35 ->
  exists o, create_delta malloc_ok junk idx trg max_size = Ok o /\
    match o with
    | None => trg = [] \/ (exists n, malloc_ok n = false) \/ 0 < max_size
    | Some delta =>
        trg <> [] /\
        (0 < max_size -> len delta <= max_size) /\
        forall malloc_ok' guard, malloc_ok' (len trg + 1) = true ->
          patch_delta malloc_ok' (di_src idx) (delta ++ guard) (len delta) = Ok (Some trg)
    end.
Proof.
  intros Hidx Hb Hmax Hs Ht. destruct (decide (trg = [])) as [->|Hne].
  { exists None. split; [done|by left]. }
  pose proof (create_delta_spec malloc_ok junk idx trg max_size Hidx Hb Hne Hmax Hs Ht) as H.
  apply total_ok in H as ([delta|] & Hd & Hspec); eexists; (split; [exact Hd|]); [by split|by right].
Qed.

(** A target of 23 bytes against the index of a source of 20: a literal, a copy
    of the whole source and another literal. *)
Lemma create_delta_contract_witness :
  exists idx delta,
    create_delta_index (fun _ => true) (seqZ 1 20) = Ok (Some idx) /\
    create_delta (fun _ => true) 0 idx ([99] ++ seqZ 1 20 ++ [7; 8]) 100 = Ok (Some delta) /\
    delta = [20; 23; 1; 99; 0x90; 20; 2; 7; 8] /\
    len delta <= 100 /\
    forall guard, patch_delta (fun _ => true) (seqZ 1 20) (delta ++ guard) (len delta)
      = Ok (Some ([99] ++ seqZ 1 20 ++ [7; 8])).
Proof.
  assert (is_bytes (seqZ 1 20)) as Hb by (repeat constructor; unfold is_byte; lia).
  pose proof (create_delta_index_spec (fun _ => true) (seqZ 1 20) Hb) as Hidx.
  destruct (create_delta_index (fun _ => true) (seqZ 1 20)) as [[idx|]|f] eqn:E; [|by vm_compute in E..].
  destruct Hidx as [Hsrc Hidx].
  destruct (create_delta_contract (fun _ => true) 0 idx ([99] ++ seqZ 1 20 ++ [7; 8]) 100)
    as (o & Ho & Hspec); [done|repeat constructor; unfold is_byte; lia|lia|by rewrite Hsrc|done|].
  assert (o = Some [20; 23; 1; 99; 0x90; 20; 2; 7; 8]) as ->.
  { vm_compute in E. injection E as <-. vm_compute in Ho. by injection Ho. }
  exists idx, [20; 23; 1; 99; 0x90; 20; 2; 7; 8]. destruct Hspec as (_ & Hle & Hpatch).
  split_and!; [done|done|done|by apply Hle|]. intros guard. rewrite <- Hsrc at 1. by apply Hpatch.
Defined.
