(* ===== verification/Bswap.v ===== *)
(** * Byte order: [compat/bswap.h]

    The accessors of big-endian fields and the byte swaps behind [htonl] and
    [htonll] on a little-endian machine. *)

From stdpp Require Import prelude numbers list.
From S2P Require Import Prelude.

Definition default_swab32 (val : Z) : Z :=
  ((val &. 0xff000000) >>. 24) |. ((val &. 0x00ff0000) >>. 8) |.
  u32 ((val &. 0x0000ff00) <<. 8) |. u32 ((val &. 0x000000ff) <<. 24).

Definition default_bswap64 (val : Z) : Z :=
  u64 ((val &. 0x00000000000000ff) <<. 56) |.
  u64 ((val &. 0x000000000000ff00) <<. 40) |.
  u64 ((val &. 0x0000000000ff0000) <<. 24) |.
  u64 ((val &. 0x00000000ff000000) <<. 8) |.
  ((val &. 0x000000ff00000000) >>. 8) |.
  ((val &. 0x0000ff0000000000) >>. 24) |.
  ((val &. 0x00ff000000000000) >>. 40) |.
  ((val &. 0xff00000000000000) >>. 56).

(** [ntohl], [htonl], [ntohll], [htonll] of a little-endian machine. *)
Definition htonl (x : Z) : Z := default_swab32 x.
Definition htonll (x : Z) : Z := default_bswap64 x.

Definition get_be16 (p : list Z) (i : Z) : res Z :=
  a ← rd p i; b ← rd p (i + 1);
  Ok ((a <<. 8) |. (b <<. 0)).

Definition get_be32 (p : list Z) (i : Z) : res Z :=
  a ← rd p i; b ← rd p (i + 1); c ← rd p (i + 2); d ← rd p (i + 3);
  Ok ((a <<. 24) |. (b <<. 16) |. (c <<. 8) |. (d <<. 0)).

Definition get_be64 (p : list Z) (i : Z) : res Z :=
  hi ← get_be32 p i; lo ← get_be32 p (i + 4);
  Ok ((hi <<. 32) |. (lo <<. 0)).

Definition put_be32 (p : list Z) (i value : Z) : res (list Z) :=
  p ← wr p i ((value >>. 24) &. 0xff);
  p ← wr p (i + 1) ((value >>. 16) &. 0xff);
  p ← wr p (i + 2) ((value >>. 8) &. 0xff);
  wr p (i + 3) ((value >>. 0) &. 0xff).

Definition put_be64 (p : list Z) (i value : Z) : res (list Z) :=
  p ← wr p i ((value >>. 56) &. 0xff);
  p ← wr p (i + 1) ((value >>. 48) &. 0xff);
  p ← wr p (i + 2) ((value >>. 40) &. 0xff);
  p ← wr p (i + 3) ((value >>. 32) &. 0xff);
  p ← wr p (i + 4) ((value >>. 24) &. 0xff);
  p ← wr p (i + 5) ((value >>. 16) &. 0xff);
  p ← wr p (i + 6) ((value >>. 8) &. 0xff);
  wr p (i + 7) ((value >>. 0) &. 0xff).

(** The bytes of an object of type [uint32_t] in memory, little-endian. *)
Definition le_bytes32 (x : Z) : list Z :=
  [u8 x; u8 (x >>. 8); u8 (x >>. 16); u8 (x >>. 24)].

(** The bytes of an [eword_t] in memory, least significant first. *)
Definition eword_bytes (x : Z) : list Z := (fun i => u8 (x >>. (8 * Z.of_nat i))) <$> seq 0 8.

Definition is_word (x : Z) : Prop := 0 <= x < 2 ^ 64.

(** The big-endian bytes of a 32-bit and a 64-bit integer. *)
Definition be32 (x : Z) : list Z := [u8 (x >>. 24); u8 (x >>. 16); u8 (x >>. 8); u8 x].
Definition be64 (x : Z) : list Z := be32 (x >>. 32) ++ be32 (u32 x).

(** The integer that four big-endian bytes stand for. *)
Definition of_be (l : list Z) : Z := fold_left (fun a b => a * 256 + b) l 0.

Lemma land_255 x : x &. 0xff = u8 x.
Proof. by rewrite (land_mask x 0xff 8). Qed.

Lemma be32_bytes x : is_bytes (be32 x).
Proof. unfold be32. repeat constructor; apply u8_byte. Qed.

Lemma be64_bytes x : is_bytes (be64 x).
Proof. apply Forall_app_2; apply be32_bytes. Qed.

(** Storing [htonl(x)] on a little-endian machine lays out [x] big-endian. *)
Lemma htonl_le_bytes x : 0 <= x < 2 ^ 32 -> le_bytes32 (htonl x) = be32 x.
Proof.
  intros Hx. unfold le_bytes32, htonl, default_swab32, be32, u8, u32.
  rewrite <- (Z.mod_small x (2 ^ 32)) by done.
  change 0xff000000 with (Z.ones 8 <<. 24). change 0x00ff0000 with (Z.ones 8 <<. 16).
  change 0x0000ff00 with (Z.ones 8 <<. 8). change 0xff with (Z.ones 8).
  f_equal; [|f_equal; [|f_equal; [|f_equal]]]; bitsolve.
Qed.

Lemma eword_bytes_list x : eword_bytes x =
  [u8 x; u8 (x >>. 8); u8 (x >>. 16); u8 (x >>. 24); u8 (x >>. 32); u8 (x >>. 40); u8 (x >>. 48); u8 (x >>. 56)].
Proof. unfold eword_bytes. cbn -[u8]. by rewrite Z.shiftr_0_r. Qed.

Lemma mask_byte x k : 0 <= k -> x &. (Z.ones 8 <<. k) = u8 (x >>. k) <<. k.
Proof. intros Hk. unfold u8. bitsolve. Qed.

(** The bytes of a swapped word, in the other order. *)
Lemma bswap_sum x : let b k := u8 (x >>. (8 * k)) in
  default_bswap64 x = b 0 * 2 ^ 56 + b 1 * 2 ^ 48 + b 2 * 2 ^ 40 + b 3 * 2 ^ 32 + b 4 * 2 ^ 24 + b 5 * 2 ^ 16 + b 6 * 2 ^ 8 + b 7.
Proof.
  intros b. unfold default_bswap64.
  change 0xff00000000000000 with (Z.ones 8 <<. 56). change 0xff000000000000 with (Z.ones 8 <<. 48).
  change 0xff0000000000 with (Z.ones 8 <<. 40). change 0xff00000000 with (Z.ones 8 <<. 32).
  change 0xff000000 with (Z.ones 8 <<. 24). change 0x00ff0000 with (Z.ones 8 <<. 16).
  change 0x0000ff00 with (Z.ones 8 <<. 8). change (x &. 0xff) with (x &. (Z.ones 8 <<. 0)). rewrite !mask_byte by done.
  change (u8 (x >>. 0)) with (b 0). change (u8 (x >>. 8)) with (b 1). change (u8 (x >>. 16)) with (b 2). change (u8 (x >>. 24)) with (b 3).
  change (u8 (x >>. 32)) with (b 4). change (u8 (x >>. 40)) with (b 5). change (u8 (x >>. 48)) with (b 6). change (u8 (x >>. 56)) with (b 7).
  assert (forall k, 0 <= b k < 2 ^ 8) as Hb by (intros k; apply u8_byte). rewrite !Z.shiftr_shiftl_l by done. rewrite !Z.shiftl_shiftl by done.
  rewrite !Z.shiftl_mul_pow2 by done. clearbody b.
  pose proof (Hb 0). pose proof (Hb 1). pose proof (Hb 2). pose proof (Hb 3). pose proof (Hb 4). pose proof (Hb 5). pose proof (Hb 6). pose proof (Hb 7).
  rewrite !u64_small by lia. change (0 + 56) with 56. change (8 + 40) with 48. change (16 + 24) with 40. change (24 + 8) with 32.
  change (32 - 8) with 24. change (40 - 24) with 16. change (48 - 40) with 8. change (56 - 56) with 0. rewrite Z.pow_0_r, Z.mul_1_r.
  rewrite (lor_add _ (b 1 * 2 ^ 48) 56), (lor_add _ (b 2 * 2 ^ 40) 48), (lor_add _ (b 3 * 2 ^ 32) 40), (lor_add _ (b 4 * 2 ^ 24) 32),
    (lor_add _ (b 5 * 2 ^ 16) 24), (lor_add _ (b 6 * 2 ^ 8) 16), (lor_add _ (b 7) 8); first [done|lia|dlia].
Qed.

Lemma bswap_bytes x : is_word x -> eword_bytes (htonll x) = be64 x.
Proof.
  intros Hx. rewrite eword_bytes_list. unfold htonll. rewrite bswap_sum. unfold be64, be32. cbn [app].
  assert (forall k, 0 <= k <= 3 -> u8 (u32 x >>. (8 * k)) = u8 (x >>. (8 * k))) as Hlow.
  { intros k Hk. unfold u8, u32. bitsolve. }
  pose proof (Hlow 0 ltac:(lia)) as E0. pose proof (Hlow 1 ltac:(lia)) as E1. pose proof (Hlow 2 ltac:(lia)) as E2. pose proof (Hlow 3 ltac:(lia)) as E3.
  change (8 * 3) with 24 in *. change (8 * 2) with 16 in *. change (8 * 1) with 8 in *. change (8 * 0) with 0 in *.
  change (8 * 4) with 32. change (8 * 5) with 40. change (8 * 6) with 48. change (8 * 7) with 56. rewrite !Z.shiftr_0_r in *.
  rewrite E0, E1, E2, E3, !Z.shiftr_shiftr by done.
  change (32 + 24) with 56. change (32 + 16) with 48. change (32 + 8) with 40.
  generalize (u8_byte x) (u8_byte (x >>. 8)) (u8_byte (x >>. 16)) (u8_byte (x >>. 24)) (u8_byte (x >>. 32)) (u8_byte (x >>. 40)) (u8_byte (x >>. 48)) (u8_byte (x >>. 56)).
  generalize (u8 x) (u8 (x >>. 8)) (u8 (x >>. 16)) (u8 (x >>. 24)) (u8 (x >>. 32)) (u8 (x >>. 40)) (u8 (x >>. 48)) (u8 (x >>. 56)).
  unfold is_byte, u8. intros. rewrite !Z.shiftr_div_pow2 by done.
  repeat (f_equal; [dlia|]). f_equal. dlia.
Qed.

Lemma get_be32_drop p i a b c d rest : 0 <= i ->
  drop (Z.to_nat i) p = a :: b :: c :: d :: rest ->
  get_be32 p i = Ok ((a <<. 24) |. (b <<. 16) |. (c <<. 8) |. (d <<. 0)).
Proof.
  intros Hi Hd. assert (forall k x, (a :: b :: c :: d :: rest) !! k = Some x ->
    rd p (i + Z.of_nat k) = Ok x) as Hk.
  { intros k x Hx. apply rd_Some; [lia|]. rewrite <- Hd, lookup_drop in Hx.
    rewrite <- Hx. f_equal. lia. }
  pose proof (Hk 0%nat a eq_refl) as K0. change (Z.of_nat 0) with 0 in K0. rewrite Z.add_0_r in K0.
  pose proof (Hk 1%nat b eq_refl) as K1. pose proof (Hk 2%nat c eq_refl) as K2.
  pose proof (Hk 3%nat d eq_refl) as K3.
  change (Z.of_nat 1) with 1 in K1. change (Z.of_nat 2) with 2 in K2. change (Z.of_nat 3) with 3 in K3.
  unfold get_be32. by rewrite K0, K1, K2, K3.
Qed.

Lemma be_lor a b c d : is_byte a -> is_byte b -> is_byte c -> is_byte d ->
  (a <<. 24) |. (b <<. 16) |. (c <<. 8) |. (d <<. 0) = of_be [a; b; c; d].
Proof.
  unfold is_byte, of_be. intros. cbn [fold_left]. rewrite !Z.shiftl_mul_pow2 by done.
  rewrite Z.pow_0_r, Z.mul_1_r.
  rewrite (lor_add (a * 2 ^ 24) (b * 2 ^ 16) 24); [|lia|apply Z_mod_mult|lia].
  rewrite (lor_add _ (c * 2 ^ 8) 16); [|lia|dlia|lia].
  rewrite (lor_add _ d 8); [lia|lia|dlia|lia].
Qed.

Lemma of_be_be32 x : 0 <= x < 2 ^ 32 -> of_be (be32 x) = x.
Proof.
  intros Hx. unfold be32. rewrite <- be_lor by apply u8_byte. unfold u8.
  rewrite <- (Z.mod_small x (2 ^ 32)) by done. bitsolve.
Qed.

Lemma be32_of_be a b c d : is_byte a -> is_byte b -> is_byte c -> is_byte d ->
  be32 (of_be [a; b; c; d]) = [a; b; c; d].
Proof.
  intros Ha Hb Hc Hd. rewrite <- be_lor by done. unfold is_byte in *. unfold be32, u8.
  rewrite <- (Z.mod_small a (2 ^ 8)), <- (Z.mod_small b (2 ^ 8)),
    <- (Z.mod_small c (2 ^ 8)), <- (Z.mod_small d (2 ^ 8)) by done.
  f_equal; [|f_equal; [|f_equal; [|f_equal]]]; bitsolve.
Qed.

(** Reading a big-endian word inside a buffer. *)
Lemma get_be32_ok p i : is_bytes p -> 0 <= i -> i + 4 <= len p ->
  get_be32 p i = Ok (of_be (slice p i 4)) /\ 0 <= of_be (slice p i 4) < 2 ^ 32.
Proof.
  intros Hb Hi Hl. destruct (drop (Z.to_nat i) p) as [|a [|b [|c [|d rest]]]] eqn:E;
    try (apply (f_equal length) in E; rewrite length_drop in E; cbn in E; llia).
  assert (is_bytes (a :: b :: c :: d :: rest)) as Hr by (rewrite <- E; by apply Forall_drop).
  rewrite !Forall_cons in Hr. destruct Hr as (Ha & Hb' & Hc & Hd & _).
  rewrite (get_be32_drop _ _ _ _ _ _ _ Hi E), be_lor by done.
  unfold slice. rewrite E. change (take (Z.to_nat 4) _) with [a; b; c; d]. split; [done|].
  clear - Ha Hb' Hc Hd. unfold is_byte, of_be in *. cbn [fold_left]. lia.
Qed.

(** The four stores of [put_be32]. *)
Lemma put_be32_ok p i x : 0 <= i -> i + 4 <= len p ->
  put_be32 p i x = Ok (take (Z.to_nat i) p ++ be32 x ++ drop (Z.to_nat i + 4) p).
Proof.
  intros Hi Hl. unfold put_be32. rewrite !land_255, Z.shiftr_0_r.
  do 4 (rewrite wr_ok by (rewrite ?len_insert; lia); cbn [mbind res_bind]).
  f_equal. destruct (drop (Z.to_nat i) p) as [|a [|b [|c [|d rest]]]] eqn:E;
    try (apply (f_equal length) in E; rewrite length_drop in E; simpl in E; llia).
  rewrite <- drop_drop, E. rewrite <- (take_drop (Z.to_nat i) p) at 1. rewrite E.
  set (l1 := take (Z.to_nat i) p). assert (length l1 = Z.to_nat i) as Hl1.
  { unfold l1. rewrite length_take. llia. }
  replace (Z.to_nat i) with (length l1 + 0)%nat by lia.
  replace (Z.to_nat (i + 1)) with (length l1 + 1)%nat by lia.
  replace (Z.to_nat (i + 2)) with (length l1 + 2)%nat by lia.
  replace (Z.to_nat (i + 3)) with (length l1 + 3)%nat by lia.
  rewrite !insert_app_r. done.
Qed.

(** the big-endian accessors.  [put_be32] stays inside the four bytes at its
    pointer, [get_be32] reads the value back, and both agree with storing
    [htonl] of the value on a little-endian machine. *)
Theorem be32_roundtrip p i x :
  is_bytes p -> 0 <= i -> i + 4 <= len p -> 0 <= x < 2 ^ 32 ->
  exists p', put_be32 p i x = Ok p' /\ get_be32 p' i = Ok x /\
    slice p' i 4 = le_bytes32 (htonl x) /\ len p' = len p /\
    (forall k, 0 <= k < i \/ i + 4 <= k -> rd p' k = rd p k).
Proof.
  intros Hb Hi Hl Hx. rewrite put_be32_ok, htonl_le_bytes by done.
  set (l1 := take (Z.to_nat i) p). assert (len l1 = i) as Hl1.
  { unfold l1, len in *. rewrite length_take. lia. }
  set (l3 := drop (Z.to_nat i + 4) p). eexists. split; [done|].
  assert (slice (l1 ++ be32 x ++ l3) i 4 = be32 x) as Hs by (by apply slice_app_at).
  assert (len (l1 ++ be32 x ++ l3) = len p) as Hlen.
  { rewrite !len_app, Hl1. change (len (be32 x)) with 4. unfold l3, len in *. rewrite length_drop. lia. }
  assert (is_bytes (l1 ++ be32 x ++ l3)) as Hb'.
  { apply Forall_app_2; [by apply Forall_take|]. apply Forall_app_2; [apply be32_bytes|by apply Forall_drop]. }
  split_and!; try done.
  - rewrite (proj1 (get_be32_ok _ i Hb' Hi ltac:(lia))), Hs. f_equal. by apply of_be_be32.
  - intros k Hk. unfold rd. destruct (Z.ltb_spec k 0); [done|].
    assert ((l1 ++ be32 x ++ l3) !! Z.to_nat k = p !! Z.to_nat k) as ->; [|done].
    destruct Hk as [Hk|Hk].
    + rewrite lookup_app_l by llia. unfold l1. apply lookup_take_lt. lia.
    + rewrite app_assoc, lookup_app_r by (rewrite length_app; simpl; llia).
      unfold l3. rewrite lookup_drop. f_equal. rewrite length_app. simpl. llia.
Qed.

Lemma be32_roundtrip_witness :
  exists p', put_be32 [1; 2; 3; 4; 5; 6] 1 0xdeadbeef = Ok p' /\ get_be32 p' 1 = Ok 0xdeadbeef /\
    slice p' 1 4 = le_bytes32 (htonl 0xdeadbeef) /\ len p' = len [1; 2; 3; 4; 5; 6] /\
    (forall k, 0 <= k < 1 \/ 1 + 4 <= k -> rd p' k = rd [1; 2; 3; 4; 5; 6] k).
Proof.
  apply be32_roundtrip; [|lia|by vm_compute|lia]. repeat constructor; unfold is_byte; lia.
Defined.
