(* ===== verification/Sha1.v ===== *)
(** * SHA-1: [block-sha1/sha1.c], [block-sha1/sha1.h]

    The context, the unrolled compression function with its renamed registers
    and its 16-word rolling array, and the buffering of [Init], [Update] and
    [Final].  [Module Fips] is the reference: the padding, message schedule and
    compression of FIPS 180.  The theorems say that the unrolled block equals the
    reference compression, and that any sequence of updates followed by [Final]
    writes the FIPS digest of the concatenated data. *)

From stdpp Require Import prelude numbers list.
From S2P Require Import Prelude Bswap.

(** ** The code *)

Record blk_SHA_CTX := mkCTX { ctx_size : Z; ctx_H : list Z; ctx_W : list Z }.

Definition SHA_ROT (X l r : Z) : Z := u32 (X <<. l) |. (X >>. r).
Definition SHA_ROL (X n : Z) : Z := SHA_ROT X n (32 - n).
Definition SHA_ROR (X n : Z) : Z := SHA_ROT X (32 - n) n.

(** The registers [A] to [E] of [blk_SHA1_Block]; the macros are given their
    names in a different order in each round. *)
Inductive reg := rA | rB | rC | rD | rE.
Record regs := mkRegs { vA : Z; vB : Z; vC : Z; vD : Z; vE : Z }.

Definition get (s : regs) (r : reg) : Z :=
  match r with rA => vA s | rB => vB s | rC => vC s | rD => vD s | rE => vE s end.

Definition set (s : regs) (r : reg) (x : Z) : regs :=
  let 'mkRegs a b c d e := s in
  match r with
  | rA => mkRegs x b c d e | rB => mkRegs a x c d e | rC => mkRegs a b x d e
  | rD => mkRegs a b c x e | rE => mkRegs a b c d x
  end.

(** The automatic array [unsigned int array[16]] starts uninitialised: reading a
    cell that was not written is a fault. *)
Definition W (array : list (option Z)) (x : Z) : res Z :=
  c ← rd array (x &. 15);
  match c with Some v => Ok v | None => Fault UB end.

Definition setW (array : list (option Z)) (x val : Z) : res (list (option Z)) :=
  wr array (x &. 15) (Some val).

Definition SHA_SRC (block : list Z) (pos t : Z) : res Z := get_be32 block (pos + t * 4).

Definition SHA_MIX (array : list (option Z)) (t : Z) : res Z :=
  w13 ← W array (t + 13); w8 ← W array (t + 8); w2 ← W array (t + 2); w0 ← W array t;
  Ok (SHA_ROL (w13 ^. w8 ^. w2 ^. w0) 1).

Definition SHA_ROUND (t : Z) (input : list (option Z) -> Z -> res Z)
    (fn : Z -> Z -> Z -> Z) (constant : Z) (A B C D E : reg)
    (s : list (option Z) * regs) : res (list (option Z) * regs) :=
  let '(array, r) := s in
  TEMP ← input array t;
  array ← setW array t TEMP;
  let r := set r E (u32 (get r E + (TEMP + SHA_ROL (get r A) 5 +
                                    fn (get r B) (get r C) (get r D) + constant))) in
  let r := set r B (SHA_ROR (get r B) 2) in
  Ok (array, r).

(** One line of the unrolled block, with the arguments the macro is given. *)
Inductive round :=
| T_0_15 (t : Z) (A B C D E : reg)
| T_16_19 (t : Z) (A B C D E : reg)
| T_20_39 (t : Z) (A B C D E : reg)
| T_40_59 (t : Z) (A B C D E : reg)
| T_60_79 (t : Z) (A B C D E : reg).

Definition run_round (block : list Z) (pos : Z) (s : list (option Z) * regs) (l : round)
    : res (list (option Z) * regs) :=
  match l with
  | T_0_15 t A B C D E =>
      SHA_ROUND t (fun _ => SHA_SRC block pos) (fun B C D => ((C ^. D) &. B) ^. D)
        0x5a827999 A B C D E s
  | T_16_19 t A B C D E =>
      SHA_ROUND t SHA_MIX (fun B C D => ((C ^. D) &. B) ^. D) 0x5a827999 A B C D E s
  | T_20_39 t A B C D E =>
      SHA_ROUND t SHA_MIX (fun B C D => B ^. C ^. D) 0x6ed9eba1 A B C D E s
  | T_40_59 t A B C D E =>
      SHA_ROUND t SHA_MIX (fun B C D => u32 ((B &. C) + (D &. (B ^. C)))) 0x8f1bbcdc A B C D E s
  | T_60_79 t A B C D E =>
      SHA_ROUND t SHA_MIX (fun B C D => B ^. C ^. D) 0xca62c1d6 A B C D E s
  end.

Definition blk_SHA1_rounds : list round :=
  [
    T_0_15 0 rA rB rC rD rE;  T_0_15 1 rE rA rB rC rD;
    T_0_15 2 rD rE rA rB rC;  T_0_15 3 rC rD rE rA rB;
    T_0_15 4 rB rC rD rE rA;  T_0_15 5 rA rB rC rD rE;
    T_0_15 6 rE rA rB rC rD;  T_0_15 7 rD rE rA rB rC;
    T_0_15 8 rC rD rE rA rB;  T_0_15 9 rB rC rD rE rA;
    T_0_15 10 rA rB rC rD rE;  T_0_15 11 rE rA rB rC rD;
    T_0_15 12 rD rE rA rB rC;  T_0_15 13 rC rD rE rA rB;
    T_0_15 14 rB rC rD rE rA;  T_0_15 15 rA rB rC rD rE;
    T_16_19 16 rE rA rB rC rD;  T_16_19 17 rD rE rA rB rC;
    T_16_19 18 rC rD rE rA rB;  T_16_19 19 rB rC rD rE rA;
    T_20_39 20 rA rB rC rD rE;  T_20_39 21 rE rA rB rC rD;
    T_20_39 22 rD rE rA rB rC;  T_20_39 23 rC rD rE rA rB;
    T_20_39 24 rB rC rD rE rA;  T_20_39 25 rA rB rC rD rE;
    T_20_39 26 rE rA rB rC rD;  T_20_39 27 rD rE rA rB rC;
    T_20_39 28 rC rD rE rA rB;  T_20_39 29 rB rC rD rE rA;
    T_20_39 30 rA rB rC rD rE;  T_20_39 31 rE rA rB rC rD;
    T_20_39 32 rD rE rA rB rC;  T_20_39 33 rC rD rE rA rB;
    T_20_39 34 rB rC rD rE rA;  T_20_39 35 rA rB rC rD rE;
    T_20_39 36 rE rA rB rC rD;  T_20_39 37 rD rE rA rB rC;
    T_20_39 38 rC rD rE rA rB;  T_20_39 39 rB rC rD rE rA;
    T_40_59 40 rA rB rC rD rE;  T_40_59 41 rE rA rB rC rD;
    T_40_59 42 rD rE rA rB rC;  T_40_59 43 rC rD rE rA rB;
    T_40_59 44 rB rC rD rE rA;  T_40_59 45 rA rB rC rD rE;
    T_40_59 46 rE rA rB rC rD;  T_40_59 47 rD rE rA rB rC;
    T_40_59 48 rC rD rE rA rB;  T_40_59 49 rB rC rD rE rA;
    T_40_59 50 rA rB rC rD rE;  T_40_59 51 rE rA rB rC rD;
    T_40_59 52 rD rE rA rB rC;  T_40_59 53 rC rD rE rA rB;
    T_40_59 54 rB rC rD rE rA;  T_40_59 55 rA rB rC rD rE;
    T_40_59 56 rE rA rB rC rD;  T_40_59 57 rD rE rA rB rC;
    T_40_59 58 rC rD rE rA rB;  T_40_59 59 rB rC rD rE rA;
    T_60_79 60 rA rB rC rD rE;  T_60_79 61 rE rA rB rC rD;
    T_60_79 62 rD rE rA rB rC;  T_60_79 63 rC rD rE rA rB;
    T_60_79 64 rB rC rD rE rA;  T_60_79 65 rA rB rC rD rE;
    T_60_79 66 rE rA rB rC rD;  T_60_79 67 rD rE rA rB rC;
    T_60_79 68 rC rD rE rA rB;  T_60_79 69 rB rC rD rE rA;
    T_60_79 70 rA rB rC rD rE;  T_60_79 71 rE rA rB rC rD;
    T_60_79 72 rD rE rA rB rC;  T_60_79 73 rC rD rE rA rB;
    T_60_79 74 rB rC rD rE rA;  T_60_79 75 rA rB rC rD rE;
    T_60_79 76 rE rA rB rC rD;  T_60_79 77 rD rE rA rB rC;
    T_60_79 78 rC rD rE rA rB;  T_60_79 79 rB rC rD rE rA
  ].

(** The statements of the block in order. *)
Fixpoint run_rounds (block : list Z) (pos : Z) (ls : list round)
    (s : list (option Z) * regs) : res (list (option Z) * regs) :=
  match ls with
  | [] => Ok s
  | l :: ls => s ← run_round block pos s l; run_rounds block pos ls s
  end.

(** [blk_SHA1_Block(ctx, block + pos)]. *)
Definition blk_SHA1_Block (ctx : blk_SHA_CTX) (block : list Z) (pos : Z) : res blk_SHA_CTX :=
  let H := ctx_H ctx in
  A ← rd H 0; B ← rd H 1; C ← rd H 2; D ← rd H 3; E ← rd H 4;
  '(_, r) ← run_rounds block pos blk_SHA1_rounds (replicate 16 None, mkRegs A B C D E);
  h ← rd H 0; H ← wr H 0 (u32 (h + vA r));
  h ← rd H 1; H ← wr H 1 (u32 (h + vB r));
  h ← rd H 2; H ← wr H 2 (u32 (h + vC r));
  h ← rd H 3; H ← wr H 3 (u32 (h + vD r));
  h ← rd H 4; H ← wr H 4 (u32 (h + vE r));
  Ok (mkCTX (ctx_size ctx) H (ctx_W ctx)).

Definition blk_SHA1_Init (ctx : blk_SHA_CTX) : res blk_SHA_CTX :=
  let H := ctx_H ctx in
  H ← wr H 0 0x67452301;
  H ← wr H 1 0xefcdab89;
  H ← wr H 2 0x98badcfe;
  H ← wr H 3 0x10325476;
  H ← wr H 4 0xc3d2e1f0;
  Ok (mkCTX 0 H (ctx_W ctx)).

(** The loop over the full blocks of the input: [data] has advanced by [pos]. *)
Definition update_step (data : list Z) (s : blk_SHA_CTX * Z * Z)
    : res (blk_SHA_CTX * Z * Z + blk_SHA_CTX * Z * Z) :=
  let '(ctx, pos, len) := s in
  if 64 <=? len then
    ctx ← blk_SHA1_Block ctx data pos;
    Ok (inl (ctx, pos + 64, len - 64))
  else Ok (inr (ctx, pos, len)).

Definition update_tail (ctx : blk_SHA_CTX) (data : list Z) (pos len : Z) : res blk_SHA_CTX :=
  '(ctx, pos, len) ← loop (S (Z.to_nat len)) (update_step data) (ctx, pos, len);
  if tr len then
    d ← rd_slice data pos len;
    W ← wr_slice (ctx_W ctx) 0 d;
    Ok (mkCTX (ctx_size ctx) (ctx_H ctx) W)
  else Ok ctx.

Definition blk_SHA1_Update (ctx : blk_SHA_CTX) (data : list Z) (len : Z) : res blk_SHA_CTX :=
  let lenW := ctx_size ctx &. 63 in
  let ctx := mkCTX (u64 (ctx_size ctx + len)) (ctx_H ctx) (ctx_W ctx) in
  if tr lenW then
    let left := 64 - lenW in
    let left := if len <? left then len else left in
    d ← rd_slice data 0 left;
    W ← wr_slice (ctx_W ctx) lenW d;
    let ctx := mkCTX (ctx_size ctx) (ctx_H ctx) W in
    let lenW := (lenW + left) &. 63 in
    let len := len - left in
    if tr lenW then Ok ctx
    else
      ctx ← blk_SHA1_Block ctx (ctx_W ctx) 0;
      update_tail ctx data left len
  else update_tail ctx data 0 len.

(** [static const unsigned char pad[64] = { 0x80 }]. *)
Definition pad : list Z := 0x80 :: replicate 63 0.

(** The output loop of [Final], from [i] on. *)
Definition final_step (H : list Z) (s : list Z * Z) : res (list Z * Z + list Z) :=
  let '(hashout, i) := s in
  if i <? 5 then
    h ← rd H i;
    hashout ← put_be32 hashout (i * 4) h;
    Ok (inl (hashout, i + 1))
  else Ok (inr hashout).

Definition blk_SHA1_Final (hashout : list Z) (ctx : blk_SHA_CTX) : res (list Z * blk_SHA_CTX) :=
  let padlen := le_bytes32 (htonl (u32 (ctx_size ctx >>. 29))) ++
                le_bytes32 (htonl (u32 (u64 (ctx_size ctx <<. 3)))) in
  let i := ctx_size ctx &. 63 in
  ctx ← blk_SHA1_Update ctx pad (1 + (63 &. (55 - i)));
  ctx ← blk_SHA1_Update ctx padlen 8;
  hashout ← loop 6 (final_step (ctx_H ctx)) (hashout, 0);
  Ok (hashout, ctx).

(** ** The reference *)

Module Fips.

Definition rotl (n x : Z) : Z := u32 (x <<. n) |. (x >>. (32 - n)).

Definition Ch (x y z : Z) : Z := (x &. y) ^. (Z.lnot x &. z).
Definition Parity (x y z : Z) : Z := x ^. y ^. z.
Definition Maj (x y z : Z) : Z := (x &. y) ^. (x &. z) ^. (y &. z).

Definition f (t : nat) : Z -> Z -> Z -> Z :=
  if decide (t < 20)%nat then Ch else if decide (t < 40)%nat then Parity
  else if decide (t < 60)%nat then Maj else Parity.

Definition K (t : nat) : Z :=
  if decide (t < 20)%nat then 0x5a827999 else if decide (t < 40)%nat then 0x6ed9eba1
  else if decide (t < 60)%nat then 0x8f1bbcdc else 0xca62c1d6.

(** The first sixteen block_words of the schedule. *)
Definition block_words (block : list Z) : list Z :=
  (fun t => of_be (slice block (4 * Z.of_nat t) 4)) <$> seq 0 16.

Definition schedule_word (w : list Z) : Z :=
  let t := length w in
  rotl 1 (w !!! (t - 3)%nat ^. w !!! (t - 8)%nat ^. w !!! (t - 14)%nat ^. w !!! (t - 16)%nat).

Fixpoint schedule (n : nat) (w : list Z) {struct n} : list Z :=
  match n with O => w | S n => schedule n (w ++ [schedule_word w]) end.

Definition W (block : list Z) : list Z := schedule 64 (block_words block).

Definition step (w : list Z) (s : Z * Z * Z * Z * Z) (t : nat) : Z * Z * Z * Z * Z :=
  let '(a, b, c, d, e) := s in
  (u32 (rotl 5 a + f t b c d + e + K t + w !!! t), a, rotl 30 b, c, d).

Definition compress (H : list Z) (block : list Z) : list Z :=
  match H with
  | [h0; h1; h2; h3; h4] =>
      let '(a, b, c, d, e) := foldl (step (W block)) (h0, h1, h2, h3, h4) (seq 0 80) in
      [u32 (h0 + a); u32 (h1 + b); u32 (h2 + c); u32 (h3 + d); u32 (h4 + e)]
  | _ => H
  end.

Definition H0 : list Z := [0x67452301; 0xefcdab89; 0x98badcfe; 0x10325476; 0xc3d2e1f0].

(** The hash state after [n] blocks. *)
Fixpoint process (H : list Z) (n : nat) (msg : list Z) {struct n} : list Z :=
  match n with
  | O => H
  | S n => process (compress H (take 64 msg)) n (drop 64 msg)
  end.

Definition padding (n : Z) : list Z :=
  0x80 :: replicate (Z.to_nat ((55 - n) `mod` 64)) 0 ++ be64 (8 * n).

Definition sha1 (msg : list Z) : list Z :=
  let m := msg ++ padding (len msg) in
  concat (be32 <$> process H0 (length m / 64) m).

End Fips.

(** FIPS 180, the one-block example: the digest of "abc". *)
Example sha1_abc :
  Fips.sha1 [97; 98; 99] =
  [0xa9; 0x99; 0x3e; 0x36; 0x47; 0x06; 0x81; 0x6a; 0xba; 0x3e; 0x25; 0x71; 0x78; 0x50;
   0xc2; 0x6c; 0x9c; 0xd0; 0xd8; 0x9d].
Proof. vm_compute. reflexivity. Qed.

(** ** The compression function *)

(** Five block_words of 32 bits. *)
Definition is_w32 (x : Z) : Prop := 0 <= x < 2 ^ 32.

Lemma lor_w32 x y : is_w32 x -> is_w32 y -> is_w32 (x |. y).
Proof.
  unfold is_w32. intros Hx Hy. rewrite <- (Z.mod_small x (2 ^ 32)), <- (Z.mod_small y (2 ^ 32)) by done.
  replace (_ |. _) with ((x |. y) `mod` 2 ^ 32) by bitsolve. by apply Z.mod_pos_bound.
Qed.

Lemma rotl_w32 n x : 0 <= n <= 32 -> is_w32 x -> is_w32 (Fips.rotl n x).
Proof.
  intros Hn Hx. apply lor_w32; [apply u32_range|]. unfold is_w32 in *.
  rewrite Z.shiftr_div_pow2 by lia. pose proof (Z.pow_pos_nonneg 2 (32 - n)).
  split; [apply Z.div_pos; lia|]. apply Z.div_lt_upper_bound; nia.
Qed.

Lemma ch_eq b c d : ((c ^. d) &. b) ^. d = Fips.Ch b c d.
Proof. unfold Fips.Ch. bitsolve. Qed.

Lemma maj_eq b c d : is_w32 b -> is_w32 c -> is_w32 d ->
  u32 ((b &. c) + (d &. (b ^. c))) = Fips.Maj b c d.
Proof.
  unfold is_w32. intros Hb Hc Hd. unfold Fips.Maj, u32. rewrite Z.add_nocarry_lor by bitsolve.
  rewrite <- (Z.mod_small b (2 ^ 32)), <- (Z.mod_small c (2 ^ 32)), <- (Z.mod_small d (2 ^ 32)) by done.
  bitsolve.
Qed.

Lemma schedule_prefix n w i : (i < length w)%nat -> Fips.schedule n w !!! i = w !!! i.
Proof.
  revert w. induction n as [|n IH]; intros w Hi; [done|]. simpl.
  rewrite IH by (rewrite length_app; simpl; lia). by apply lookup_total_app_l.
Qed.

Lemma schedule_next n w i : (16 <= length w <= i)%nat -> (i < n + length w)%nat ->
  Fips.schedule n w !!! i =
  Fips.rotl 1 (Fips.schedule n w !!! (i - 3)%nat ^. Fips.schedule n w !!! (i - 8)%nat ^.
               Fips.schedule n w !!! (i - 14)%nat ^. Fips.schedule n w !!! (i - 16)%nat).
Proof.
  revert w. induction n as [|n IH]; intros w Hw Hi; [lia|]. simpl.
  destruct (decide (i = length w)) as [->|Hne].
  - rewrite !schedule_prefix by (rewrite length_app; simpl; lia).
    rewrite lookup_total_app_r, Nat.sub_diag by lia. rewrite !lookup_total_app_l by lia. done.
  - apply IH; rewrite length_app; simpl; lia.
Qed.

Lemma words_length block : length (Fips.block_words block) = 16%nat.
Proof. unfold Fips.block_words. by rewrite length_fmap, length_seq. Qed.

Lemma words_lookup block t : (t < 16)%nat ->
  Fips.block_words block !!! t = of_be (slice block (4 * Z.of_nat t) 4).
Proof.
  intros Ht. apply list_lookup_total_correct. unfold Fips.block_words.
  rewrite list_lookup_fmap, lookup_seq_lt by lia. done.
Qed.

Lemma get_set r s x : get (set s r x) r = x.
Proof. by destruct s, r. Qed.

Lemma get_set_ne r r' s x : r <> r' -> get (set s r x) r' = get s r'.
Proof. by destruct s, r, r'. Qed.

(** The roles of the registers in round [t], and the line the round is. *)
Definition rot (p : reg * reg * reg * reg * reg) : reg * reg * reg * reg * reg :=
  let '(A, B, C, D, E) := p in (E, A, B, C, D).
Definition perm (t : nat) : reg * reg * reg * reg * reg := Nat.iter t rot (rA, rB, rC, rD, rE).

Definition row (t : nat) : round :=
  let '(A, B, C, D, E) := perm t in
  (if decide (t < 16)%nat then T_0_15 else if decide (t < 20)%nat then T_16_19
   else if decide (t < 40)%nat then T_20_39 else if decide (t < 60)%nat then T_40_59
   else T_60_79) (Z.of_nat t) A B C D E.

Lemma rounds_rows : blk_SHA1_rounds = row <$> seq 0 80.
Proof. reflexivity. Qed.

Definition distinct (p : reg * reg * reg * reg * reg) : Prop :=
  let '(A, B, C, D, E) := p in
  (A <> B /\ A <> C /\ A <> D /\ A <> E /\ B <> C) /\
  (B <> D /\ B <> E /\ C <> D /\ C <> E /\ D <> E).

Lemma perm_distinct t : distinct (perm t).
Proof.
  induction t as [|t IH]; [by simpl|].
  change (perm (S t)) with (rot (perm t)).
  destruct (perm t) as [[[[A B] C] D] E]. simpl in *.
  destruct_and!. split_and!; congruence.
Qed.

Definition view (p : reg * reg * reg * reg * reg) (r : regs) : Z * Z * Z * Z * Z :=
  let '(A, B, C, D, E) := p in (get r A, get r B, get r C, get r D, get r E).

Definition all_w32 (s : Z * Z * Z * Z * Z) : Prop :=
  let '(a, b, c, d, e) := s in is_w32 a /\ is_w32 b /\ is_w32 c /\ is_w32 d /\ is_w32 e.

(** The state of the unrolled block before round [t]. *)
Record block_inv (w : list Z) (h : Z * Z * Z * Z * Z) (t : nat)
    (s : list (option Z) * regs) : Prop := {
  bi_len : length s.1 = 16%nat;
  bi_view : view (perm t) s.2 = foldl (Fips.step w) h (seq 0 t);
  bi_w32 : all_w32 (view (perm t) s.2);
  bi_win : forall j, (j < t)%nat -> (t <= j + 16)%nat -> s.1 !! (j mod 16)%nat = Some (Some (w !!! j));
}.

Lemma land_15 (x : Z) : x &. 15 = x `mod` 16.
Proof. by rewrite (land_mask x 15 4). Qed.

Lemma W_window w h t s j x : block_inv w h t s ->
  (j < t)%nat -> (t <= j + 16)%nat -> (x `mod` 16 = Z.of_nat j `mod` 16) ->
  W s.1 x = Ok (w !!! j).
Proof.
  intros Hinv Hj Ht Hx. unfold W. rewrite land_15, Hx.
  rewrite (rd_Some _ _ (Some (w !!! j))); [done|dlia|].
  rewrite <- (bi_win _ _ _ _ Hinv j Hj Ht). f_equal.
  rewrite Z2Nat.inj_mod by lia. by rewrite Nat2Z.id.
Qed.

Lemma W_window_mix n ws h t s : block_inv (Fips.schedule n ws) h t s ->
  length ws = 16%nat -> (16 <= t < n + 16)%nat ->
  SHA_MIX s.1 (Z.of_nat t) = Ok (Fips.schedule n ws !!! t).
Proof.
  intros Hinv Hws Ht. unfold SHA_MIX.
  rewrite (W_window _ _ _ _ (t - 3) (Z.of_nat t + 13) Hinv) by (lia || dlia).
  rewrite (W_window _ _ _ _ (t - 8) (Z.of_nat t + 8) Hinv) by (lia || dlia).
  rewrite (W_window _ _ _ _ (t - 14) (Z.of_nat t + 2) Hinv) by (lia || dlia).
  rewrite (W_window _ _ _ _ (t - 16) (Z.of_nat t) Hinv) by (lia || dlia).
  simpl. rewrite (schedule_next n ws t) by lia. done.
Qed.

(** One round, whatever its input, function and constant. *)
Lemma round_ok w h t s input fn k :
  block_inv w h t s -> input s.1 (Z.of_nat t) = Ok (w !!! t) -> k = Fips.K t ->
  (forall b c d, is_w32 b -> is_w32 c -> is_w32 d -> fn b c d = Fips.f t b c d) ->
  let '(A, B, C, D, E) := perm t in
  exists s', SHA_ROUND (Z.of_nat t) input fn k A B C D E s = Ok s' /\ block_inv w h (S t) s'.
Proof.
  intros [Hlen Hview H32 Hwin] Hin -> Hfn.
  pose proof (perm_distinct t) as Hd. change (perm (S t)) with (rot (perm t)) in *.
  destruct (perm t) as [[[[A B] C] D] E] eqn:Ep. destruct s as [array r]. simpl in *.
  rewrite Hin. simpl. unfold setW. rewrite land_15, wr_ok by (unfold len; dlia). simpl.
  eexists. split; [done|].
  destruct_and! Hd.
  set (x := u32 _).
  assert (x = u32 (Fips.rotl 5 (get r A) + Fips.f t (get r B) (get r C) (get r D) +
                   get r E + Fips.K t + w !!! t)) as Hx.
  { unfold x. rewrite Hfn by tauto. unfold u32, SHA_ROL, SHA_ROT, Fips.rotl, u32. f_equal. lia. }
  assert (view (perm (S t)) (set (set r E x) B (SHA_ROR (get (set r E x) B) 2)) =
          (x, get r A, Fips.rotl 30 (get r B), get r C, get r D)) as Hv.
  { change (perm (S t)) with (rot (perm t)). rewrite Ep. simpl.
    rewrite (get_set B), !(get_set_ne B) by done. rewrite (get_set E), !(get_set_ne E) by done. done. }
  constructor; cbn [fst snd].
  - by rewrite length_insert.
  - rewrite Hv, Hx, seq_S, foldl_snoc, <- Hview. done.
  - rewrite Hv. simpl. destruct H32 as (Ha & Hb & Hc & Hd' & He).
    split_and!; [apply u32_range|done|by apply rotl_w32|done|done].
  - intros j Hj Ht. assert (Z.to_nat (Z.of_nat t `mod` 16) = (t mod 16)%nat) as ->.
    { rewrite Z2Nat.inj_mod by lia. by rewrite Nat2Z.id. }
    destruct (decide (j = t)) as [->|Hne].
    + apply list_lookup_insert_eq. rewrite Hlen. apply Nat.mod_upper_bound. lia.
    + rewrite list_lookup_insert_ne; [apply Hwin; lia|]. intros Heq.
      pose proof (Nat.div_mod_eq j 16). pose proof (Nat.div_mod_eq t 16). lia.
Qed.

#[local] Opaque Fips.schedule Fips.block_words.

Section Block.
Context (block : list Z) (pos : Z) (h : Z * Z * Z * Z * Z).
Hypothesis Hblock : is_bytes block.
Hypothesis Hpos : 0 <= pos.
Hypothesis Hlen : pos + 64 <= len block.

Let w := Fips.W (slice block pos 64).

Lemma src_ok t : (t < 16)%nat -> SHA_SRC block pos (Z.of_nat t) = Ok (w !!! t).
Proof using Hblock Hpos Hlen.
  intros Ht. unfold SHA_SRC, w, Fips.W.
  rewrite schedule_prefix, words_lookup by (rewrite ?words_length; lia).
  rewrite (proj1 (get_be32_ok block (pos + Z.of_nat t * 4) Hblock ltac:(lia) ltac:(lia))).
  do 2 f_equal. unfold slice. rewrite skipn_firstn_comm, drop_drop, take_take.
  f_equal; [lia|f_equal; lia].
Qed.

Lemma run_round_ok t s : (t < 80)%nat -> block_inv w h t s ->
  exists s', run_round block pos s (row t) = Ok s' /\ block_inv w h (S t) s'.
Proof using Hblock Hpos Hlen.
  intros Ht Hinv. unfold row.
  assert (forall fn k, k = Fips.K t ->
    (forall b c d, is_w32 b -> is_w32 c -> is_w32 d -> fn b c d = Fips.f t b c d) ->
    (16 <= t)%nat ->
    let '(A, B, C, D, E) := perm t in
    exists s', SHA_ROUND (Z.of_nat t) SHA_MIX fn k A B C D E s = Ok s' /\ block_inv w h (S t) s')
    as Hmix.
  { intros fn k Hk Hfn H16. apply round_ok; [done| |done|done].
    apply (W_window_mix 64 (Fips.block_words (slice block pos 64)) h t s Hinv); [by apply words_length|lia]. }
  pose proof (round_ok w h t s (fun _ => SHA_SRC block pos)
    (fun B C D => ((C ^. D) &. B) ^. D) 0x5a827999 Hinv) as Hsrc.
  destruct (perm t) as [[[[A B] C] D] E].
  unfold Fips.K, Fips.f in *. repeat case_decide; try lia; simpl.
  - apply Hsrc; [by apply src_ok|done|intros; apply ch_eq].
  - apply Hmix; [done|intros; apply ch_eq|lia].
  - apply Hmix; [done|done|lia].
  - apply Hmix; [done|intros; by apply maj_eq|lia].
  - apply Hmix; [done|done|lia].
Qed.

Lemma run_rounds_ok n t s : (t + n <= 80)%nat -> block_inv w h t s ->
  exists s', run_rounds block pos (row <$> seq t n) s = Ok s' /\ block_inv w h (t + n) s'.
Proof using Hblock Hpos Hlen.
  revert t s. induction n as [|n IH]; intros t s Ht Hinv.
  - exists s. rewrite Nat.add_0_r. done.
  - destruct (run_round_ok t s ltac:(lia) Hinv) as (s1 & E1 & Hinv1).
    destruct (IH (S t) s1 ltac:(lia) Hinv1) as (s2 & E2 & Hinv2).
    exists s2. rewrite <- Nat.add_succ_comm. split; [|done].
    cbn [seq fmap list_fmap run_rounds]. rewrite E1. exact E2.
Qed.
End Block.

Definition is_H (H : list Z) : Prop := length H = 5%nat /\ Forall is_w32 H.

Lemma is_H_inv H : is_H H -> exists a b c d e, H = [a; b; c; d; e] /\ all_w32 (a, b, c, d, e).
Proof.
  intros [Hl Hf]. destruct H as [|a [|b [|c [|d [|e [|]]]]]]; try done.
  exists a, b, c, d, e. rewrite !Forall_cons in Hf. split; [done|simpl; tauto].
Qed.

Lemma blk_SHA1_Block_spec ctx block pos :
  is_bytes block -> 0 <= pos -> pos + 64 <= len block -> is_H (ctx_H ctx) ->
  blk_SHA1_Block ctx block pos =
  Ok (mkCTX (ctx_size ctx) (Fips.compress (ctx_H ctx) (slice block pos 64)) (ctx_W ctx)).
Proof.
  intros Hb Hp Hl (a & b & c & d & e & HH & Hw)%is_H_inv.
  unfold blk_SHA1_Block. rewrite HH.
  change (rd [a; b; c; d; e] 0) with (Ok a). change (rd [a; b; c; d; e] 1) with (Ok b).
  change (rd [a; b; c; d; e] 2) with (Ok c). change (rd [a; b; c; d; e] 3) with (Ok d).
  change (rd [a; b; c; d; e] 4) with (Ok e). cbn [mbind res_bind].
  rewrite rounds_rows.
  destruct (run_rounds_ok block pos (a, b, c, d, e) Hb Hp Hl 80 0
    (replicate 16 None, mkRegs a b c d e)) as ([arr [xa xb xc xd xe]] & Es & Hinv); [lia| |].
  { constructor; [done|done|done|lia]. }
  rewrite Es. cbn [mbind res_bind]. pose proof (bi_view _ _ _ _ Hinv) as Hv.
  cbn [snd Nat.add] in Hv. change (view (perm 80) _) with (xa, xb, xc, xd, xe) in Hv.
  unfold Fips.compress. rewrite <- Hv. reflexivity.
Qed.

(** ** Buffering *)

Lemma compress_is_H H b : is_H H -> is_H (Fips.compress H b).
Proof.
  intros (x0 & x1 & x2 & x3 & x4 & -> & Hw)%is_H_inv. unfold Fips.compress.
  destruct (foldl _ _ _) as [[[[y0 y1] y2] y3] y4].
  split; [done|]. repeat constructor; apply u32_range.
Qed.

#[local] Opaque Fips.compress.

Lemma process_is_H n : forall H m, is_H H -> is_H (Fips.process H n m).
Proof.
  induction n as [|n IH]; intros H m HH; [done|]. cbn [Fips.process].
  apply IH, compress_is_H, HH.
Qed.

Lemma process_app n k : forall H m1 m2, length m1 = (64 * n)%nat ->
  Fips.process H (n + k) (m1 ++ m2) = Fips.process (Fips.process H n m1) k m2.
Proof.
  induction n as [|n IH]; intros H m1 m2 Hl.
  - by destruct m1.
  - cbn [Nat.add Fips.process]. rewrite take_app_le, drop_app_le by lia.
    apply IH. rewrite length_drop. lia.
Qed.

(** The loop over full blocks. *)
Lemma update_loop data (n fuel : nat) : forall ctx pos l,
  is_bytes data -> is_H (ctx_H ctx) -> 0 <= pos -> 0 <= l -> pos + l <= len data ->
  64 * Z.of_nat n <= l < 64 * Z.of_nat n + 64 -> (n < fuel)%nat ->
  loop fuel (update_step data) (ctx, pos, l) =
  Ok (mkCTX (ctx_size ctx) (Fips.process (ctx_H ctx) n (slice data pos l)) (ctx_W ctx),
      pos + 64 * Z.of_nat n, l - 64 * Z.of_nat n).
Proof.
  revert fuel. induction n as [|n IH]; intros fuel ctx pos l Hb HH Hp Hl Hd Hn Hf;
    (destruct fuel as [|fuel]; [lia|]); cbn [loop]; unfold update_step at 1.
  - destruct (Z.leb_spec 64 l); [lia|]. destruct ctx. simpl. by rewrite Z.add_0_r, Z.sub_0_r.
  - destruct (Z.leb_spec 64 l); [|lia].
    rewrite blk_SHA1_Block_spec by (done || lia). cbn [mbind res_bind].
    rewrite IH by (done || lia || (by apply compress_is_H)). cbn [ctx_size ctx_H ctx_W Fips.process].
    assert (take 64 (slice data pos l) = slice data pos 64) as ->.
    { unfold slice. rewrite take_take. f_equal. lia. }
    assert (drop 64 (slice data pos l) = slice data (pos + 64) (l - 64)) as ->.
    { unfold slice. rewrite skipn_firstn_comm, drop_drop. f_equal; [lia|f_equal; lia]. }
    replace (pos + 64 + 64 * Z.of_nat n) with (pos + 64 * Z.of_nat (S n)) by lia.
    by replace (l - 64 - 64 * Z.of_nat n) with (l - 64 * Z.of_nat (S n)) by lia.
Qed.

(** The invariant of a context that has absorbed [msg]: [H] holds the hash of
    the full blocks, the head of [W] the bytes after them. *)
Record sha_repr (ctx : blk_SHA_CTX) (msg : list Z) : Prop := {
  sr_bytes : is_bytes msg;
  sr_size : ctx_size ctx = u64 (len msg);
  sr_W : length (ctx_W ctx) = 64%nat;
  sr_Wb : is_bytes (ctx_W ctx);
  sr_hash : exists n full rest, msg = full ++ rest /\ length full = (64 * n)%nat /\
    (length rest < 64)%nat /\ ctx_H ctx = Fips.process Fips.H0 n full /\
    take (length rest) (ctx_W ctx) = rest;
}.

Lemma H0_is_H : is_H Fips.H0.
Proof. split; [done|]. repeat constructor; unfold is_w32; lia. Qed.

(** The part of [Update] after the context's own block is empty. *)
Lemma update_tail_spec ctx data pos l msg n :
  is_bytes data -> 0 <= pos -> 0 <= l -> pos + l <= len data ->
  is_bytes msg -> length msg = (64 * n)%nat -> ctx_H ctx = Fips.process Fips.H0 n msg ->
  length (ctx_W ctx) = 64%nat -> is_bytes (ctx_W ctx) ->
  ctx_size ctx = u64 (len msg + l) ->
  exists ctx', update_tail ctx data pos l = Ok ctx' /\ sha_repr ctx' (msg ++ slice data pos l).
Proof.
  intros Hb Hp Hl Hd Hm Hn HH HW HWb Hsz. unfold update_tail.
  assert (is_H (ctx_H ctx)) as HiH by (rewrite HH; apply process_is_H, H0_is_H).
  set (k := Z.to_nat (l `div` 64)).
  assert (64 * Z.of_nat k <= l < 64 * Z.of_nat k + 64) as Hk by (unfold k; dlia).
  rewrite (update_loop data k) by (done || lia). cbn [mbind res_bind].
  set (d := slice data pos l). set (r := l - 64 * Z.of_nat k).
  assert (is_bytes d) as Hdb by (by apply Forall_take, Forall_drop).
  assert (len d = l) as Hdl by (by apply len_slice).
  assert (length (take (64 * k) d) = (64 * k)%nat) as Htk by (rewrite length_take; llia).
  assert (Fips.process (ctx_H ctx) k d = Fips.process Fips.H0 (n + k) (msg ++ take (64 * k) d)) as Hproc.
  { rewrite process_app by done. rewrite <- HH, <- (take_drop (64 * k) d) at 1.
    rewrite <- (Nat.add_0_r k) at 1. by rewrite process_app. }
  assert (length (drop (64 * k) d) = Z.to_nat r) as Hdr by (rewrite length_drop; llia).
  assert (forall W', length W' = 64%nat -> is_bytes W' -> take (Z.to_nat r) W' = drop (64 * k) d ->
    sha_repr (mkCTX (ctx_size ctx) (Fips.process (ctx_H ctx) k d) W') (msg ++ d)) as Hrepr.
  { intros W' HW' HWb' Ht. constructor; [by apply Forall_app_2| |done|done|].
    - cbn [ctx_size]. rewrite Hsz, len_app. do 2 f_equal. done.
    - exists (n + k)%nat, (msg ++ take (64 * k) d), (drop (64 * k) d).
      rewrite <- app_assoc, take_drop. split_and!; [done| |lia|done|by rewrite Hdr].
      rewrite length_app. lia. }
  cbn [ctx_size ctx_H ctx_W]. destruct (tr r) eqn:Er.
  - rewrite rd_slice_ok by lia. cbn [mbind res_bind].
    assert (slice data (pos + 64 * Z.of_nat k) r = drop (64 * k) d) as ->.
    { unfold d, slice. rewrite skipn_firstn_comm, drop_drop. f_equal; [lia|f_equal; lia]. }
    rewrite wr_slice_ok by llia. cbn [mbind res_bind].
    eexists. split; [done|]. apply Hrepr.
    + rewrite !length_app, Hdr, length_drop. simpl. lia.
    + apply Forall_app_2; [constructor|]. apply Forall_app_2; by apply Forall_drop.
    + rewrite Hdr. simpl. rewrite <- Hdr. by rewrite take_app_length.
  - apply tr_false in Er. eexists. split; [done|]. apply Hrepr; [done|done|].
    rewrite Er in *. destruct (drop (64 * k) d); done.
Qed.

Lemma land_63 (x : Z) : x &. 63 = x `mod` 64.
Proof. by rewrite (land_mask x 63 6). Qed.

Lemma u64_mod64 x : u64 x `mod` 64 = x `mod` 64.
Proof. unfold u64. dlia. Qed.

Lemma blk_SHA1_Update_spec ctx msg data l :
  sha_repr ctx msg -> is_bytes data -> 0 <= l <= len data ->
  exists ctx', blk_SHA1_Update ctx data l = Ok ctx' /\ sha_repr ctx' (msg ++ slice data 0 l).
Proof.
  intros [Hm Hsz HW HWb (n & full & rest & -> & Hfull & Hrest & HH & Ht)] Hb Hl.
  apply Forall_app in Hm as [Hmf Hmr].
  unfold blk_SHA1_Update. rewrite Hsz, land_63, u64_mod64.
  assert (len (full ++ rest) `mod` 64 = len rest) as ->.
  { rewrite len_app. unfold len. rewrite Hfull. dlia. }
  assert (u64 (u64 (len (full ++ rest)) + l) = u64 (len (full ++ rest) + l)) as ->.
  { unfold u64. by rewrite Zplus_mod_idemp_l. }
  cbn [ctx_size ctx_H ctx_W]. destruct (tr (len rest)) eqn:Er.
  2:{ apply tr_false in Er. destruct rest; [|rewrite len_cons in Er; llia].
      rewrite app_nil_r. apply (update_tail_spec _ _ _ _ _ n); try done; lia. }
  apply tr_true in Er. set (left := if l <? 64 - len rest then l else 64 - len rest).
  assert (0 <= left <= l /\ left <= 64 - len rest /\ (left = l \/ left = 64 - len rest))
    as (Hleft & Hleft' & Hcase) by (unfold left; destruct (Z.ltb_spec l (64 - len rest)); llia).
  rewrite rd_slice_ok by lia. cbn [mbind res_bind]. set (d := slice data 0 left).
  assert (len d = left) as Hdl by (apply len_slice; lia).
  rewrite wr_slice_ok by llia. cbn [mbind res_bind].
  set (W' := take (Z.to_nat (len rest)) (ctx_W ctx) ++ d ++ _).
  assert (is_bytes d) as Hdb by (by apply Forall_take, Forall_drop).
  assert (W' = (rest ++ d) ++ drop (length rest + length d) (ctx_W ctx)) as HW'.
  { unfold W'. unfold len. rewrite Nat2Z.id, Ht, app_assoc. done. }
  assert (length W' = 64%nat) as HW'l.
  { rewrite HW', !length_app, length_drop. llia. }
  assert (is_bytes W') as HW'b.
  { rewrite HW'. repeat apply Forall_app_2; try done. by apply Forall_drop. }
  rewrite land_63. destruct (tr ((len rest + left) `mod` 64)) eqn:Ew.
  - apply tr_true in Ew. assert (left = l) as Hll by (destruct Hcase as [Hc|Hc]; [done|]; rewrite Hc in Ew;
      exfalso; apply Ew; by replace (len rest + (64 - len rest)) with 64 by lia).
    assert (slice data 0 l = d) as -> by (unfold d; by rewrite Hll).
    assert (len rest + left < 64) as Hlt.
    { destruct (decide (len rest + left = 64)) as [E|]; [by rewrite E in Ew|lia]. }
    eexists. split; [done|]. constructor; cbn [ctx_size ctx_H ctx_W]; try done.
    + repeat apply Forall_app_2; done.
    + by rewrite (len_app (full ++ rest)), Hdl, Hll.
    + exists n, full, (rest ++ d). rewrite <- app_assoc, length_app. split_and!; try done; [llia|].
      rewrite HW', <- length_app. by rewrite take_app_length.
  - apply tr_false in Ew. assert (len rest + left = 64) as H64 by (unfold len in *; dlia).
    rewrite (blk_SHA1_Block_spec (mkCTX _ _ W')); cbn [ctx_size ctx_H ctx_W];
      [|done|lia|llia|rewrite HH; apply process_is_H, H0_is_H].
    cbn [mbind res_bind].
    assert (slice W' 0 64 = rest ++ d) as ->.
    { unfold slice. rewrite HW'. simpl (drop _ _). apply take_app_length'. rewrite length_app. llia. }
    assert (slice data 0 l = d ++ slice data left (l - left)) as ->.
    { unfold d. rewrite (slice_split data l left) by lia. done. }
    rewrite <- app_assoc, (app_assoc rest), (app_assoc full).
    apply (update_tail_spec _ _ _ _ _ (S n)); cbn [ctx_size ctx_H ctx_W]; try done; try lia.
    + repeat apply Forall_app_2; done.
    + rewrite !length_app. llia.
    + rewrite <- Nat.add_1_r, process_app, HH by done. cbn [Fips.process].
      rewrite take_ge by (rewrite length_app; llia). done.
    + rewrite !len_app, Hdl. f_equal. lia.
Qed.

(** ** The whole digest *)

Lemma pad_bytes : is_bytes pad.
Proof. apply Forall_cons_2; [done|]. by apply Forall_replicate. Qed.

Lemma padding_updates n : 0 <= n < 2 ^ 61 ->
  slice pad 0 (1 + (63 &. (55 - u64 n &. 63))) ++
  slice (le_bytes32 (htonl (u32 (u64 n >>. 29))) ++ le_bytes32 (htonl (u32 (u64 (u64 n <<. 3))))) 0 8 =
  Fips.padding n.
Proof.
  intros Hn. rewrite u64_small by lia. rewrite !htonl_le_bytes by apply u32_range.
  rewrite Z.shiftr_div_pow2, Z.shiftl_mul_pow2 by done.
  rewrite u64_small by lia. rewrite (u32_small (n `div` 2 ^ 29)) by dlia.
  rewrite (Z.land_comm 63), land_63, land_63. unfold Fips.padding, be64, slice.
  rewrite Z.shiftr_div_pow2 by done.
  replace ((8 * n) `div` 2 ^ 32) with (n `div` 2 ^ 29) by dlia.
  replace (n * 2 ^ 3) with (8 * n) by lia. change (Z.to_nat 0) with 0%nat. rewrite !drop_0.
  rewrite (take_ge (_ ++ _)) by (simpl; lia).
  rewrite Zminus_mod_idemp_r. set (k := (55 - n) `mod` 64).
  assert (0 <= k < 64) as Hk by (apply Z.mod_pos_bound; lia).
  replace (Z.to_nat (1 + k)) with (S (Z.to_nat k)) by lia. unfold pad.
  rewrite firstn_cons, take_replicate, Nat.min_l by lia. done.
Qed.

Lemma padding_length n : 0 <= n -> exists k, len (Fips.padding n) + n = 64 * k.
Proof.
  intros Hn. unfold Fips.padding, len. simpl. rewrite length_app, length_replicate. simpl.
  exists ((n + 9 + (55 - n) `mod` 64) `div` 64). dlia.
Qed.

Lemma final_step_ok H hashout i h : 0 <= i < 5 -> H !! Z.to_nat i = Some h ->
  i * 4 + 4 <= len hashout ->
  final_step H (hashout, i) =
  Ok (inl (take (Z.to_nat (i * 4)) hashout ++ be32 h ++ drop (Z.to_nat (i * 4) + 4) hashout, i + 1)).
Proof.
  intros Hi Hh Hl. unfold final_step. destruct (Z.ltb_spec i 5); [|lia].
  rewrite (rd_Some _ _ h) by (lia || done). cbn [mbind res_bind]. by rewrite put_be32_ok by lia.
Qed.

Lemma final_loop x0 x1 x2 x3 x4 hashout : 20 <= len hashout ->
  loop 6 (final_step [x0; x1; x2; x3; x4]) (hashout, 0) =
  Ok (concat (be32 <$> [x0; x1; x2; x3; x4]) ++ drop 20 hashout).
Proof.
  intros Hl. do 20 (destruct hashout as [|? hashout]; [unfold len in Hl; simpl in Hl; lia|]).
  change (drop 20 _) with hashout.
  cbn [loop].
  rewrite (final_step_ok _ _ 0 x0), (final_step_ok _ _ 1 x1), (final_step_ok _ _ 2 x2),
    (final_step_ok _ _ 3 x3), (final_step_ok _ _ 4 x4);
    first [reflexivity | lia | (unfold len; simpl; lia)].
Qed.

Lemma blk_SHA1_Final_spec ctx msg hashout :
  sha_repr ctx msg -> len msg < 2 ^ 61 -> 20 <= len hashout ->
  exists ctx', blk_SHA1_Final hashout ctx = Ok (Fips.sha1 msg ++ drop 20 hashout, ctx').
Proof.
  intros Hr Hlt Hout. pose proof (len_nonneg msg) as Hn0.
  unfold blk_SHA1_Final. rewrite (sr_size _ _ Hr).
  pose proof (padding_updates (len msg) ltac:(lia)) as Hpad.
  set (padlen := le_bytes32 _ ++ le_bytes32 _) in *.
  set (k := 1 + (63 &. (55 - u64 (len msg) &. 63))) in *.
  assert (0 <= k <= 64) as Hk.
  { unfold k. rewrite (Z.land_comm 63), land_63. pose proof (Z.mod_pos_bound (55 - u64 (len msg) &. 63) 64). lia. }
  assert (is_bytes padlen) as Hlb by (repeat (apply Forall_cons_2; [apply u8_byte|]); apply Forall_nil_2).
  destruct (blk_SHA1_Update_spec ctx msg pad k Hr pad_bytes) as (ctx1 & -> & Hr1); [exact Hk|].
  cbn [mbind res_bind].
  destruct (blk_SHA1_Update_spec ctx1 _ padlen 8 Hr1 Hlb) as (ctx2 & -> & Hr2); [done|].
  cbn [mbind res_bind]. rewrite <- app_assoc, Hpad in Hr2.
  destruct Hr2 as [_ _ _ _ (n & full & rest & Hm & Hfull & Hrest & HH & _)].
  destruct (padding_length (len msg) Hn0) as (j & Hj).
  assert (rest = []) as ->.
  { apply (f_equal len) in Hm. rewrite !len_app in Hm. destruct rest; [done|].
    unfold len in *. simpl in *. lia. }
  rewrite app_nil_r in Hm.
  pose proof (process_is_H n Fips.H0 full H0_is_H) as HiH.
  destruct (is_H_inv _ HiH) as (x0 & x1 & x2 & x3 & x4 & Hx & _).
  rewrite HH, Hx, final_loop by done. cbn [mbind res_bind]. exists ctx2.
  unfold Fips.sha1. rewrite Hm, Hfull, Nat.mul_comm, Nat.div_mul by lia. by rewrite Hx.
Qed.

(** A sequence of [Update] calls, each with a whole chunk. *)
Fixpoint blk_SHA1_Updates (ctx : blk_SHA_CTX) (chunks : list (list Z)) : res blk_SHA_CTX :=
  match chunks with
  | [] => Ok ctx
  | c :: cs => ctx ← blk_SHA1_Update ctx c (len c); blk_SHA1_Updates ctx cs
  end.

Lemma blk_SHA1_Updates_spec chunks : forall ctx msg,
  sha_repr ctx msg -> Forall is_bytes chunks ->
  exists ctx', blk_SHA1_Updates ctx chunks = Ok ctx' /\ sha_repr ctx' (msg ++ concat chunks).
Proof.
  induction chunks as [|c cs IH]; intros ctx msg Hr Hc; simpl.
  - exists ctx. by rewrite app_nil_r.
  - apply Forall_cons in Hc as [Hc Hcs]. pose proof (len_nonneg c).
    destruct (blk_SHA1_Update_spec ctx msg c (len c) Hr Hc) as (ctx1 & -> & Hr1); [lia|].
    rewrite slice_all in Hr1. cbn [mbind res_bind].
    destruct (IH ctx1 _ Hr1 Hcs) as (ctx2 & -> & Hr2). exists ctx2. by rewrite app_assoc.
Qed.

Lemma blk_SHA1_Init_spec ctx : len (ctx_H ctx) = 5 -> len (ctx_W ctx) = 64 -> is_bytes (ctx_W ctx) ->
  exists ctx', blk_SHA1_Init ctx = Ok ctx' /\ sha_repr ctx' [].
Proof.
  intros HH HW Hb. destruct ctx as [sz H W]. cbn [ctx_H ctx_W ctx_size] in *.
  destruct H as [|a [|b [|c [|d [|e [|]]]]]]; unfold len in HH; simpl in HH; try lia.
  eexists. split; [reflexivity|]. constructor; cbn [ctx_H ctx_W ctx_size]; try done; [llia|].
  exists 0%nat, [], []. split_and!; [done|done|simpl; lia|done|done].
Qed.

(** The unrolled and register-renamed [blk_SHA1_Block] computes the
    compression function of FIPS 180 on the 64 bytes it is given: no access
    leaves the block or the rolling array, no uninitialised word is read, and the
    size and the buffer of the context are untouched. *)
Theorem blk_SHA1_Block_compress ctx block pos :
  is_bytes block -> 0 <= pos -> pos + 64 <= len block ->
  len (ctx_H ctx) = 5 -> Forall is_w32 (ctx_H ctx) ->
  blk_SHA1_Block ctx block pos =
  Ok (mkCTX (ctx_size ctx) (Fips.compress (ctx_H ctx) (slice block pos 64)) (ctx_W ctx)).
Proof. intros. apply blk_SHA1_Block_spec; try done. split; [llia|done]. Qed.

Lemma blk_SHA1_Block_compress_witness :
  blk_SHA1_Block (mkCTX 0 Fips.H0 (replicate 64 0)) (replicate 70 7) 6 =
  Ok (mkCTX 0 (Fips.compress Fips.H0 (slice (replicate 70 7) 6 64)) (replicate 64 0)).
Proof.
  apply (blk_SHA1_Block_compress (mkCTX 0 Fips.H0 (replicate 64 0))); try done.
  - apply Forall_replicate. done.
  - apply H0_is_H.
Defined.

(** C6: the digest does not depend on how the data is cut.  [Init], any sequence
    of [Update]s and [Final] run without a fault and write the FIPS 180 SHA-1 of
    the concatenated data into the first 20 bytes of the output, for any data of
    less than 2^61 bytes and whatever the uninitialised context held. *)
Theorem blk_SHA1_digest ctx chunks hashout :
  len (ctx_H ctx) = 5 -> len (ctx_W ctx) = 64 -> is_bytes (ctx_W ctx) ->
  Forall is_bytes chunks -> len (concat chunks) < 2 ^ 61 -> 20 <= len hashout ->
  total (ctx ← blk_SHA1_Init ctx; ctx ← blk_SHA1_Updates ctx chunks; blk_SHA1_Final hashout ctx)
    (fun '(out, _) => out = Fips.sha1 (concat chunks) ++ drop 20 hashout).
Proof.
  intros HH HW Hb Hc Hlt Hout.
  destruct (blk_SHA1_Init_spec ctx HH HW Hb) as (ctx1 & -> & Hr1). cbn [mbind res_bind].
  destruct (blk_SHA1_Updates_spec chunks ctx1 [] Hr1 Hc) as (ctx2 & -> & Hr2). cbn [mbind res_bind].
  destruct (blk_SHA1_Final_spec ctx2 _ hashout Hr2 Hlt Hout) as (ctx3 & ->). done.
Qed.

Lemma blk_SHA1_digest_witness :
  total (ctx ← blk_SHA1_Init (mkCTX 77 (replicate 5 9) (replicate 64 3));
         ctx ← blk_SHA1_Updates ctx [[97]; []; [98; 99]]; blk_SHA1_Final (replicate 32 0) ctx)
    (fun '(out, _) => out = Fips.sha1 (concat [[97]; []; [98; 99]]) ++ drop 20 (replicate 32 0)).
Proof.
  apply (blk_SHA1_digest (mkCTX 77 (replicate 5 9) (replicate 64 3))); try done.
  - apply Forall_replicate. done.
  - repeat constructor; done.
Defined.
