(* ===== verification/Alloc.v ===== *)
(** * Memory: the allocators of [wrapper.c] and the growing arrays of
    [git-compat-util.h]

    The C library's [malloc], [calloc] and [realloc] and the environment
    variable [GIT_ALLOC_LIMIT] are parameters, the class [Memory].  A function
    that runs out of memory dies; [oom] is the fault predicate of the functions
    that only do that. *)

From stdpp Require Import prelude numbers list.
From S2P Require Import Prelude PatchDelta.

Class Memory := {
  git_alloc_limit : Z;        (** [git_env_ulong("GIT_ALLOC_LIMIT", 0)] *)
  libc_alloc : Z -> bool;     (** does the C library find that many bytes? *)
}.

Section Wrapper.
Context `{Memory}.

Definition memory_limit_check (size : Z) (gentle : bool) : res Z :=
  let limit := if git_alloc_limit =? 0 then Z.ones 64 else git_alloc_limit in
  if limit <? size then if gentle then Ok (-1) else Fault Died else Ok 0.

(** [false] is the [NULL] of a gentle allocation. *)
Definition do_xmalloc (size : Z) (gentle : bool) : res bool :=
  c ← memory_limit_check size gentle;
  if tr c then Ok false
  else
    let ret := libc_alloc size in
    let ret := if negb ret && negb (tr size) then libc_alloc 1 else ret in
    if negb ret then if gentle then Ok false else Fault Died else Ok true.

Definition xmalloc (size : Z) : res unit := _ ← do_xmalloc size false; Ok tt.

Definition xrealloc (size : Z) : res unit :=
  if negb (tr size) then xmalloc 0
  else
    _ ← memory_limit_check size false;
    if libc_alloc size then Ok tt else Fault Died.

(** [a] and [b] of type [size_t]. *)
Definition unsigned_mult_overflows (a b : Z) : bool := tr a && (Z.ones 64 `div` a <? b).

Definition st_add (a b : Z) : res Z :=
  if unsigned_add_overflows a b then Fault Died else Ok (u64 (a + b)).
Definition st_mult (a b : Z) : res Z :=
  if unsigned_mult_overflows a b then Fault Died else Ok (u64 (a * b)).
Definition st_sub (a b : Z) : res Z :=
  if a <? b then Fault Died else Ok (a - b).

Definition xcalloc (nmemb size : Z) : res unit :=
  if unsigned_mult_overflows nmemb size then Fault Died
  else
    _ ← memory_limit_check (u64 (size * nmemb)) false;
    let ret := libc_alloc (u64 (size * nmemb)) in
    let ret := if negb ret && (negb (tr nmemb) || negb (tr size)) then libc_alloc 1 else ret in
    if ret then Ok tt else Fault Died.

Section Arrays.
(** Cells of [sizeof] bytes; fresh cells hold [junk]. *)
Context {A : Type} (junk : A) (sizeof : Z).

Definition ALLOC_ARRAY (alloc : Z) : res (list A) :=
  n ← st_mult sizeof alloc; _ ← xmalloc n; Ok (replicate (Z.to_nat alloc) junk).

(** [calloc]: [zero] is the cell of zero bytes. *)
Definition CALLOC_ARRAY (zero : A) (alloc : Z) : res (list A) :=
  _ ← xcalloc alloc sizeof; Ok (replicate (Z.to_nat alloc) zero).

Definition REALLOC_ARRAY (x : list A) (alloc : Z) : res (list A) :=
  n ← st_mult sizeof alloc; _ ← xrealloc n;
  Ok (take (Z.to_nat alloc) x ++ replicate (Z.to_nat alloc - length x) junk).

(** [wrap] is the wrap-around of the type of [alloc], [u64] for a [size_t]. *)
Definition alloc_nr (wrap : Z -> Z) (x : Z) : Z := wrap (wrap (x + 16) * 3) `div` 2.

Definition ALLOC_GROW (wrap : Z -> Z) (x : list A) (nr alloc : Z) : res (list A * Z) :=
  if alloc <? nr then
    let alloc := if alloc_nr wrap alloc <? nr then wrap nr else alloc_nr wrap alloc in
    x ← REALLOC_ARRAY x alloc; Ok (x, alloc)
  else Ok (x, alloc).

(** [zero] is the cell that [memset(.., 0, ..)] leaves; it returns [x], [nr] and
    [alloc]. *)
Definition ALLOC_GROW_BY (zero : A) (x : list A) (nr increase alloc : Z) : res (list A * Z * Z) :=
  if tr increase then
    let new_nr := u64 (nr + increase) in
    if new_nr <? nr then Fault BugHit
    else
      '(x, alloc) ← ALLOC_GROW u64 x new_nr alloc;
      x ← wr_slice x nr (replicate (Z.to_nat increase) zero);
      Ok (x, new_nr, alloc)
  else Ok (x, nr, alloc).

End Arrays.
End Wrapper.

(** ** The contract of the allocators *)

Section Contract.
Context `{Memory}.

(** An allocation of [n] bytes succeeds. *)
Definition can_alloc (n : Z) : bool :=
  ((git_alloc_limit =? 0) || (n <=? git_alloc_limit)) && libc_alloc n.

(** The program died because an allocation failed. *)
Definition oom (f : fault) : Prop := f = Died /\ exists n, can_alloc n = false.

Lemma oom_total {A} (m : res A) Q : (forall n, can_alloc n = true) -> wp oom m Q -> total m Q.
Proof.
  intros Hc Hm. eapply wp_weaken; [exact Hm|]. intros f (_ & n & Hn). by rewrite Hc in Hn.
Qed.

Lemma xrealloc_oom n : 0 < n < 2 ^ 64 -> wp oom (xrealloc n) (fun _ => True).
Proof.
  intros Hn. unfold xrealloc. replace (tr n) with true by (symmetry; apply tr_true; lia).
  simpl. unfold memory_limit_check.
  assert (forall b, can_alloc n = b -> b = false -> oom Died) as Hf
    by (intros b Hb ->; split; [done|by exists n]).
  destruct (can_alloc n) eqn:Hc; unfold can_alloc in Hc.
  - apply andb_true_iff in Hc as [Hl ->].
    destruct (Z.eqb_spec git_alloc_limit 0); [|simpl in Hl; apply Z.leb_le in Hl];
      match goal with |- context [?x <? n] => destruct (Z.ltb_spec x n) as [Hlt|] end;
      try done; rewrite ?Z.ones_equiv in Hlt; lia.
  - destruct (_ <? n); simpl; [by eapply Hf|]. destruct (libc_alloc n); simpl; [done|by eapply Hf].
Qed.

Lemma xmalloc_oom n : 0 < n < 2 ^ 64 -> wp oom (xmalloc n) (fun _ => True).
Proof.
  intros Hn. pose proof (xrealloc_oom n Hn) as Hr. unfold xrealloc in Hr. unfold xmalloc, do_xmalloc.
  replace (tr n) with true in * by (symmetry; apply tr_true; lia). cbn [negb] in *.
  destruct (memory_limit_check n false) as [c|f] eqn:Ec; [|done].
  assert (c = 0) as ->.
  { unfold memory_limit_check in Ec. destruct (_ <? n); congruence. }
  cbn [mbind res_bind] in *. cbn [tr Z.eqb negb]. rewrite andb_false_r.
  destruct (libc_alloc n); [done|exact Hr].
Qed.

Lemma xmalloc_oom0 : wp oom (xmalloc 0) (fun _ => True).
Proof.
  unfold xmalloc, do_xmalloc, memory_limit_check.
  assert (forall n, can_alloc n = false -> oom Died) as Hf by (intros n Hn; split; [done|by exists n]).
  destruct (_ <? 0) eqn:El.
  - apply (Hf 0). unfold can_alloc. destruct (Z.eqb_spec git_alloc_limit 0); [done|].
    apply Z.ltb_lt in El. destruct (Z.leb_spec 0 git_alloc_limit); [lia|done].
  - cbn [mbind res_bind tr Z.eqb negb]. rewrite andb_true_r.
    destruct (libc_alloc 0) eqn:E0; [done|]. cbn [negb].
    destruct (libc_alloc 1); [done|]. apply (Hf 0). unfold can_alloc. rewrite E0. apply andb_false_r.
Qed.

Lemma st_mult_ok a b : 0 <= a -> 0 <= b -> a * b < 2 ^ 64 -> st_mult a b = Ok (a * b).
Proof.
  intros Ha Hb Hab. unfold st_mult, unsigned_mult_overflows. rewrite Z.ones_equiv.
  destruct (tr a) eqn:Et; simpl.
  - apply tr_true in Et. destruct (Z.ltb_spec (Z.pred (2 ^ 64) `div` a) b) as [Hlt|].
    + exfalso. assert (b <= Z.pred (2 ^ 64) `div` a) by (apply Z.div_le_lower_bound; nia). lia.
    + rewrite u64_small by nia. done.
  - apply tr_false in Et as ->. by rewrite u64_small by lia.
Qed.

Lemma ALLOC_ARRAY_oom {A} (junk : A) sizeof n : 0 <= sizeof -> 0 <= n -> sizeof * n < 2 ^ 64 -> wp oom (ALLOC_ARRAY junk sizeof n) (fun x => x = replicate (Z.to_nat n) junk).
Proof.
  intros Hs Hn Hsn. unfold ALLOC_ARRAY. rewrite st_mult_ok by done. cbn [mbind res_bind]. apply wp_bind.
  assert (wp oom (xmalloc (sizeof * n)) (fun _ => True)) as Hx by (destruct (decide (sizeof * n = 0)) as [->|]; [apply xmalloc_oom0|apply xmalloc_oom; nia]).
  eapply wp_mono; [exact Hx|]. intros [] _. by apply wp_ret.
Qed.

Lemma xcalloc_oom nmemb size : 0 <= nmemb -> 0 <= size -> nmemb * size < 2 ^ 64 ->
  wp oom (xcalloc nmemb size) (fun _ => True).
Proof.
  intros Hn Hs Hns. unfold xcalloc.
  pose proof (st_mult_ok nmemb size Hn Hs Hns) as Hm. unfold st_mult in Hm.
  destruct (unsigned_mult_overflows nmemb size); [done|]. rewrite Z.mul_comm in Hns. rewrite u64_small by nia.
  assert (forall n, can_alloc n = false -> oom Died) as Hf by (intros n Hcn; split; [done|by exists n]).
  unfold memory_limit_check. destruct (_ <? size * nmemb) eqn:El; cbn [mbind res_bind].
  - apply (Hf (size * nmemb)). unfold can_alloc. apply Z.ltb_lt in El. rewrite Z.ones_equiv in El.
    destruct (Z.eqb_spec git_alloc_limit 0); [lia|]. destruct (Z.leb_spec (size * nmemb) git_alloc_limit); [lia|done].
  - destruct (libc_alloc (size * nmemb)) eqn:E0; [done|]. cbn [negb andb].
    assert (oom Died) by (apply (Hf (size * nmemb)); unfold can_alloc; rewrite E0; apply andb_false_r).
    destruct (negb (tr nmemb) || negb (tr size)); [|done]. by destruct (libc_alloc 1).
Qed.

Lemma st_add_ok a b : 0 <= a -> 0 <= b -> a + b < 2 ^ 64 -> st_add a b = Ok (a + b).
Proof.
  intros. unfold st_add, unsigned_add_overflows. rewrite Z.ones_equiv.
  destruct (Z.ltb_spec (Z.pred (2 ^ 64) - a) b); [lia|]. by rewrite u64_small by lia.
Qed.

Context {A : Type} (junk : A) (sizeof : Z).

(** [ALLOC_GROW] dies for lack of memory, or makes room for [nr] cells and
    keeps the ones that were there; below [B] the type of [alloc] does not wrap. *)
Lemma ALLOC_GROW_spec_gen wrap B (x : list A) nr alloc :
  (forall y, 0 <= y < 4 * B -> wrap y = y) -> 64 <= B <= 2 ^ 48 ->
  len x = alloc -> alloc < B -> 0 <= nr < B -> 0 < sizeof < 2 ^ 8 ->
  wp oom (ALLOC_GROW junk sizeof wrap x nr alloc) (fun '(x', alloc') =>
    exists pad, x' = x ++ pad /\ len x' = alloc' /\ alloc <= alloc' /\ nr <= alloc' /\
      (alloc' = alloc \/ alloc' <= 2 * nr + 24)).
Proof.
  intros Hw HB Hx Ha Hn Hs. unfold ALLOC_GROW. pose proof (len_nonneg x).
  destruct (Z.ltb_spec alloc nr) as [Hlt|Hge].
  2:{ simpl. exists []. rewrite app_nil_r. split_and!; (done || lia || auto). }
  assert (alloc_nr wrap alloc = ((alloc + 16) * 3) `div` 2) as ->.
  { unfold alloc_nr. by rewrite !Hw by (rewrite ?Hw; lia). }
  rewrite Hw by lia. set (alloc' := if _ : bool then _ else _).
  assert (nr <= alloc' < 2 ^ 50 /\ alloc' <= 2 * nr + 24) as [Hb Hb'].
  { unfold alloc'. destruct (Z.ltb_spec (((alloc + 16) * 3) `div` 2) nr); [lia|dlia]. }
  unfold REALLOC_ARRAY. rewrite st_mult_ok by nia. apply wp_bind, wp_bind, wp_ret, wp_bind.
  eapply wp_mono; [apply xrealloc_oom; nia|]. intros [] _. do 2 apply wp_ret.
  rewrite take_ge by llia. eexists. split; [done|]. rewrite len_app.
  unfold len in *. rewrite length_replicate. lia.
Qed.

Lemma ALLOC_GROW_spec (x : list A) nr alloc :
  len x = alloc -> alloc < 2 ^ 48 -> 0 <= nr < 2 ^ 48 -> 0 < sizeof < 2 ^ 8 ->
  wp oom (ALLOC_GROW junk sizeof u64 x nr alloc) (fun '(x', alloc') =>
    exists pad, x' = x ++ pad /\ len x' = alloc' /\ alloc <= alloc' /\ nr <= alloc' /\
      (alloc' = alloc \/ alloc' <= 2 * nr + 24)).
Proof. intros. apply (ALLOC_GROW_spec_gen u64 (2 ^ 48)); try done. intros. apply u64_small. lia. Qed.
End Contract.

(** Enough memory, for concrete instances. *)
Definition plenty : Memory := {| git_alloc_limit := 0; libc_alloc := fun _ => true |}.
