(* ===== verification/PrioQueue.v ===== *)
(** * Priority queues: [prio-queue.c], [prio-queue.h]

    The binary heap with insertion counters, and the same structure used as a
    LIFO stack when it has no comparison function.  The abstract queue is a list
    sorted by the comparison function and, among equals, by insertion; the
    theorems say that every sequence of operations behaves as on the abstract
    queue (or stack) and that the documentation of [prio_queue_replace] holds. *)

From stdpp Require Import prelude numbers list sorting.
From S2P Require Import Prelude PatchDelta Alloc.

Section Code.
Context `{Memory} {T C : Type}.

Record prio_queue_entry := mkEntry { ctr : Z; data : T }.

Record prio_queue := mkQueue {
  compare_fn : option (T -> T -> C -> Z);
  insertion_ctr : Z;
  cb_data : C;
  alloc : Z;
  nr : Z;
  array : list prio_queue_entry;
}.

Definition set_array (q : prio_queue) (a : list prio_queue_entry) : prio_queue :=
  mkQueue (compare_fn q) (insertion_ctr q) (cb_data q) (alloc q) (nr q) a.
Definition set_nr (q : prio_queue) (n : Z) : prio_queue :=
  mkQueue (compare_fn q) (insertion_ctr q) (cb_data q) (alloc q) n (array q).

(** [>] and [<] of C, as the integers they are. *)
Definition gt01 (a b : Z) : Z := if b <? a then 1 else 0.

Definition compare (queue : prio_queue) (i j : Z) : res Z :=
  match compare_fn queue with
  | None => Fault UB
  | Some f =>
      a ← rd (array queue) i; b ← rd (array queue) j;
      let cmp := f (data a) (data b) (cb_data queue) in
      Ok (if cmp =? 0 then gt01 (ctr a) (ctr b) - gt01 (ctr b) (ctr a) else cmp)
  end.

Definition swap (queue : prio_queue) (i j : Z) : res prio_queue :=
  a ← rd (array queue) i; b ← rd (array queue) j;
  arr ← wr (array queue) i b; arr ← wr arr j a;
  Ok (set_array queue arr).

Definition reverse_step (s : prio_queue * Z) : res (prio_queue * Z + prio_queue) :=
  let '(queue, i) := s in
  let j := u64 (u64 (nr queue - 1) - i) in
  if i <? j then queue ← swap queue i j; Ok (inl (queue, i + 1))
  else Ok (inr queue).

Definition prio_queue_reverse (queue : prio_queue) : res prio_queue :=
  match compare_fn queue with
  | Some _ => Fault BugHit
  | None =>
      if negb (tr (nr queue)) then Ok queue
      else loop (S (Z.to_nat (nr queue))) reverse_step (queue, 0)
  end.

Definition clear_prio_queue (queue : prio_queue) : prio_queue :=
  mkQueue (compare_fn queue) 0 (cb_data queue) 0 0 [].

(** The loop that bubbles up the new entry. *)
Definition put_step (s : prio_queue * Z) : res (prio_queue * Z + prio_queue) :=
  let '(queue, ix) := s in
  if tr ix then
    let parent := (ix - 1) `div` 2 in
    c ← compare queue parent ix;
    if c <=? 0 then Ok (inr queue)
    else queue ← swap queue parent ix; Ok (inl (queue, parent))
  else Ok (inr queue).

(** [sizeof(struct prio_queue_entry)]. *)
Definition sizeof_entry : Z := 16.

Definition prio_queue_put (junk : prio_queue_entry) (queue : prio_queue) (thing : T)
    : res prio_queue :=
  '(arr, al) ← ALLOC_GROW junk sizeof_entry u64 (array queue) (nr queue + 1) (alloc queue);
  arr ← wr arr (nr queue) (mkEntry (insertion_ctr queue) thing);
  let queue := mkQueue (compare_fn queue) (u64 (insertion_ctr queue + 1)) (cb_data queue)
                 al (nr queue + 1) arr in
  match compare_fn queue with
  | None => Ok queue
  | Some _ => loop (S (Z.to_nat (nr queue))) put_step (queue, nr queue - 1)
  end.

Definition sift_step (s : prio_queue * Z) : res (prio_queue * Z + prio_queue) :=
  let '(queue, ix) := s in
  if ix * 2 + 1 <? nr queue then
    let child := ix * 2 + 1 in
    right ← (if child + 1 <? nr queue then
               c ← compare queue child (child + 1); Ok (0 <=? c)
             else Ok false);
    let child := if right : bool then child + 1 else child in
    c ← compare queue ix child;
    if c <=? 0 then Ok (inr queue)
    else queue ← swap queue child ix; Ok (inl (queue, child))
  else Ok (inr queue).

Definition sift_down_root (queue : prio_queue) : res prio_queue :=
  loop (S (Z.to_nat (nr queue))) sift_step (queue, 0).

(** [None] is the [NULL] result. *)
Definition prio_queue_get (queue : prio_queue) : res (option T * prio_queue) :=
  if negb (tr (nr queue)) then Ok (None, queue)
  else match compare_fn queue with
  | None =>
      let queue := set_nr queue (nr queue - 1) in
      e ← rd (array queue) (nr queue); Ok (Some (data e), queue)
  | Some _ =>
      e ← rd (array queue) 0;
      let result := data e in
      let queue := set_nr queue (nr queue - 1) in
      if negb (tr (nr queue)) then Ok (Some result, queue)
      else
        last ← rd (array queue) (nr queue);
        arr ← wr (array queue) 0 last;
        queue ← sift_down_root (set_array queue arr);
        Ok (Some result, queue)
  end.

Definition prio_queue_peek (queue : prio_queue) : res (option T) :=
  if negb (tr (nr queue)) then Ok None
  else match compare_fn queue with
  | None => e ← rd (array queue) (nr queue - 1); Ok (Some (data e))
  | Some _ => e ← rd (array queue) 0; Ok (Some (data e))
  end.

Definition prio_queue_replace (junk : prio_queue_entry) (queue : prio_queue) (thing : T)
    : res prio_queue :=
  if negb (tr (nr queue)) then prio_queue_put junk queue thing
  else
    let set_at (i : Z) :=
      arr ← wr (array queue) i (mkEntry (insertion_ctr queue) thing);
      Ok (mkQueue (compare_fn queue) (u64 (insertion_ctr queue + 1)) (cb_data queue)
            (alloc queue) (nr queue) arr) in
    match compare_fn queue with
    | None => set_at (nr queue - 1)
    | Some _ => queue ← set_at 0; sift_down_root queue
    end.

End Code.
Arguments prio_queue_entry : clear implicits.
Arguments prio_queue : clear implicits.

(** ** The abstract queue *)

(** What the documentation of [prio_queue_compare_fn] asks of the function: its
    sign is that of a difference. *)
Class CompareOk {T C} (f : T -> T -> C -> Z) (cb : C) : Prop := {
  cmp_anti x y : f x y cb < 0 <-> 0 < f y x cb;
  cmp_trans x y z : f x y cb <= 0 -> f y z cb <= 0 -> f x z cb <= 0;
}.

Inductive op {T : Type} := Put (x : T) | Get | Peek | Replace (x : T).
Arguments op : clear implicits.

Section Spec.
Context {T C : Type} (f : T -> T -> C -> Z) (cb : C).

(** Before: by the comparison function, then by age. *)
Definition before (a b : prio_queue_entry T) : bool :=
  let c := f (data a) (data b) cb in
  if c =? 0 then ctr a <? ctr b else c <? 0.

Fixpoint insert_sorted (e : prio_queue_entry T) (l : list (prio_queue_entry T)) :=
  match l with
  | [] => [e]
  | x :: l' => if before e x then e :: l else x :: insert_sorted e l'
  end.

(** The number of insertions so far and the entries in order. *)
Definition spec_state : Type := Z * list (prio_queue_entry T).

Definition spec_put (s : spec_state) (x : T) : spec_state :=
  (s.1 + 1, insert_sorted (mkEntry s.1 x) s.2).

Definition spec_op (s : spec_state) (o : op T) : option (option T) * spec_state :=
  match o with
  | Put x => (None, spec_put s x)
  | Get => (Some (data <$> head s.2), (s.1, tail s.2))
  | Peek => (Some (data <$> head s.2), s)
  | Replace x => (None, spec_put (s.1, tail s.2) x)
  end.

Fixpoint spec_run (s : spec_state) (ops : list (op T)) : list (option (option T)) :=
  match ops with
  | [] => []
  | o :: ops => let '(r, s) := spec_op s o in r :: spec_run s ops
  end.
End Spec.

Section Run.
Context `{Memory} {T C : Type} (junk : prio_queue_entry T).

Definition run_op (q : prio_queue T C) (o : op T) : res (option (option T) * prio_queue T C) :=
  match o with
  | Put x => q ← prio_queue_put junk q x; Ok (None, q)
  | Get => '(r, q) ← prio_queue_get q; Ok (Some r, q)
  | Peek => r ← prio_queue_peek q; Ok (Some r, q)
  | Replace x => q ← prio_queue_replace junk q x; Ok (None, q)
  end.

Fixpoint run (q : prio_queue T C) (ops : list (op T))
    : res (list (option (option T)) * prio_queue T C) :=
  match ops with
  | [] => Ok ([], q)
  | o :: ops => '(r, q) ← run_op q o; '(rs, q) ← run q ops; Ok (r :: rs, q)
  end.
End Run.

(** ** The heap *)

Section Heap.
Context {T C : Type} (f : T -> T -> C -> Z) (cb : C) `{!CompareOk f cb}.
Context (junk : prio_queue_entry T).
Local Abbreviation entry := (prio_queue_entry T).

#[local] Instance entry_inhabited : Inhabited entry := populate junk.

Definition ecmp (a b : entry) : Z :=
  let c := f (data a) (data b) cb in
  if c =? 0 then gt01 (ctr a) (ctr b) - gt01 (ctr b) (ctr a) else c.

Definition le (a b : entry) : Prop := ecmp a b <= 0.

Ltac ecmp_cases :=
  unfold le, ecmp, gt01, before in *;
  repeat match goal with
  | H : context [?a =? ?b] |- _ => destruct (Z.eqb_spec a b)
  | H : context [?a <? ?b] |- _ => destruct (Z.ltb_spec a b)
  | |- context [?a =? ?b] => destruct (Z.eqb_spec a b)
  | |- context [?a <? ?b] => destruct (Z.ltb_spec a b)
  end.

Lemma ecmp_anti a b : ecmp a b < 0 <-> 0 < ecmp b a.
Proof using All.
  pose proof (cmp_anti (data a) (data b)). pose proof (cmp_anti (data b) (data a)).
  ecmp_cases; lia.
Qed.

Lemma le_trans a b c : le a b -> le b c -> le a c.
Proof using All.
  intros Hab Hbc.
  pose proof (cmp_anti (data a) (data b)). pose proof (cmp_anti (data b) (data a)).
  pose proof (cmp_anti (data b) (data c)). pose proof (cmp_anti (data c) (data b)).
  pose proof (cmp_anti (data a) (data c)). pose proof (cmp_anti (data c) (data a)).
  pose proof (cmp_trans (data a) (data b) (data c)).
  pose proof (cmp_trans (data c) (data b) (data a)).
  pose proof (cmp_trans (data c) (data a) (data b)).
  pose proof (cmp_trans (data b) (data c) (data a)).
  ecmp_cases; lia.
Qed.

Lemma before_ecmp a b : before f cb a b = true <-> ecmp a b < 0.
Proof. ecmp_cases; rewrite ?Z.ltb_lt; split; try done; lia. Qed.

Lemma ecmp_distinct a b : ctr a <> ctr b -> ecmp a b <> 0.
Proof. ecmp_cases; lia. Qed.

(** *** Exchanging two cells *)

Definition at_ (a : list entry) (i : Z) : entry := a !!! Z.to_nat i.

Definition swapl (a : list entry) (i j : Z) : list entry :=
  <[Z.to_nat j := at_ a i]> (<[Z.to_nat i := at_ a j]> a).

Lemma len_swapl a i j : len (swapl a i j) = len a.
Proof. unfold swapl. by rewrite !len_insert. Qed.

Lemma at_insert a i k x : 0 <= i < len a -> 0 <= k ->
  at_ (<[Z.to_nat i := x]> a) k = if k =? i then x else at_ a k.
Proof.
  intros Hi Hk. unfold at_. destruct (Z.eqb_spec k i) as [->|Hne].
  - apply list_lookup_total_insert_eq. llia.
  - apply list_lookup_total_insert_ne. lia.
Qed.

Lemma at_swapl a i j k : 0 <= i < len a -> 0 <= j < len a -> 0 <= k ->
  at_ (swapl a i j) k = if k =? j then at_ a i else if k =? i then at_ a j else at_ a k.
Proof.
  intros Hi Hj Hk. unfold swapl. rewrite at_insert by (rewrite ?len_insert; lia).
  by rewrite at_insert.
Qed.

Lemma swapl_perm a i j n : 0 <= i < n -> 0 <= j < n -> n <= len a ->
  take (Z.to_nat n) (swapl a i j) ≡ₚ take (Z.to_nat n) a.
Proof.
  intros Hi Hj Hn. apply Permutation_inj. split.
  { rewrite !length_take. unfold swapl. by rewrite !length_insert. }
  set (g := fun k : nat => if decide (k = Z.to_nat i) then Z.to_nat j
                    else if decide (k = Z.to_nat j) then Z.to_nat i else k).
  exists g. split; [intros x y; unfold g; repeat case_decide; lia|].
  intros k. destruct (decide (k < Z.to_nat n)%nat) as [Hk|Hk].
  - assert (g k < Z.to_nat n)%nat as Hg by (unfold g; repeat case_decide; lia).
    rewrite !lookup_take_lt by done.
    rewrite (list_lookup_lookup_total_lt (swapl a i j))
      by (unfold swapl; rewrite !length_insert; llia).
    rewrite (list_lookup_lookup_total_lt a) by llia.
    pose proof (at_swapl a i j (Z.of_nat k) ltac:(lia) ltac:(lia) ltac:(lia)) as Hat.
    unfold at_ in Hat. rewrite Nat2Z.id in Hat. rewrite Hat. f_equal.
    unfold g. destruct (Z.eqb_spec (Z.of_nat k) j), (Z.eqb_spec (Z.of_nat k) i); repeat case_decide;
      (done || (exfalso; lia) || (f_equal; lia)).
  - rewrite !lookup_take_ge by (unfold g; repeat case_decide; lia). done.
Qed.

(** *** Heap order, and heap order but for one cell *)

Definition par (k : Z) : Z := (k - 1) `div` 2.

Definition heap (a : list entry) (n : Z) : Prop :=
  forall k, 0 < k < n -> le (at_ a (par k)) (at_ a k).

(** The cell [ix] may be smaller than its parent. *)
Definition heap_up (a : list entry) (n ix : Z) : Prop :=
  (forall k, 0 < k < n -> k <> ix -> le (at_ a (par k)) (at_ a k)) /\
  (forall k, 0 < k < n -> par k = ix -> 0 < ix -> le (at_ a (par ix)) (at_ a k)).

(** The cell [ix] may be larger than its children. *)
Definition heap_down (a : list entry) (n ix : Z) : Prop :=
  (forall k, 0 < k < n -> par k <> ix -> le (at_ a (par k)) (at_ a k)) /\
  (forall k, 0 < k < n -> par k = ix -> 0 < ix -> le (at_ a (par ix)) (at_ a k)).

Lemma par_lt k : 0 < k -> 0 <= par k < k.
Proof. unfold par. intros. dlia. Qed.

Lemma le_refl a : le a a.
Proof using All. pose proof (ecmp_anti a a). unfold le. lia. Qed.

Lemma heap_up_step a n ix : heap_up a n ix -> 0 < ix < n -> n <= len a ->
  0 < ecmp (at_ a (par ix)) (at_ a ix) -> heap_up (swapl a (par ix) ix) n (par ix).
Proof using All.
  intros [H1 H2] Hix Hn Hc. pose proof (par_lt ix ltac:(lia)) as Hp.
  assert (le (at_ a ix) (at_ a (par ix))) as Hle.
  { apply ecmp_anti in Hc. unfold le. lia. }
  split.
  - intros k Hk Hne. pose proof (par_lt k ltac:(lia)).
    destruct (decide (k = ix)) as [->|Hki].
    + rewrite !at_swapl by lia. rewrite Z.eqb_refl.
      destruct (Z.eqb_spec (par ix) ix); [lia|]. by rewrite Z.eqb_refl.
    + rewrite (at_swapl _ _ _ k) by lia.
      destruct (Z.eqb_spec k ix); [lia|]. destruct (Z.eqb_spec k (par ix)); [lia|].
      rewrite at_swapl by lia. destruct (Z.eqb_spec (par k) ix) as [E|E].
      * apply H2; (done || lia).
      * destruct (Z.eqb_spec (par k) (par ix)) as [E'|E']; [|by apply H1].
        apply (le_trans _ (at_ a (par ix))); [done|]. rewrite <- E'. by apply H1.
  - intros k Hk Hpk Hp0. pose proof (par_lt (par ix) Hp0).
    assert (le (at_ a (par (par ix))) (at_ a (par ix))) as Hpp by (apply H1; lia).
    rewrite (at_swapl _ _ _ (par (par ix))) by lia.
    destruct (Z.eqb_spec (par (par ix)) ix); [lia|].
    destruct (Z.eqb_spec (par (par ix)) (par ix)); [lia|].
    rewrite at_swapl by lia. destruct (Z.eqb_spec k ix); [done|].
    destruct (Z.eqb_spec k (par ix)); [pose proof (par_lt k); lia|].
    apply (le_trans _ (at_ a (par ix))); [done|]. rewrite <- Hpk. by apply H1.
Qed.

Lemma heap_up_done a n ix : heap_up a n ix ->
  (ix = 0 \/ le (at_ a (par ix)) (at_ a ix)) -> heap a n.
Proof. intros [H1 _] Hd k Hk. destruct (decide (k = ix)) as [->|]; [destruct Hd; [lia|done]|by apply H1]. Qed.

Lemma heap_down_step a n ix c : heap_down a n ix -> 0 <= ix -> 0 < c < n -> n <= len a -> par c = ix ->
  (forall k, 0 < k < n -> par k = ix -> le (at_ a c) (at_ a k)) ->
  0 < ecmp (at_ a ix) (at_ a c) -> heap_down (swapl a c ix) n c.
Proof using All.
  intros [H1 H2] Hix Hc Hn Hpc Hmin Hgt. pose proof (par_lt c ltac:(lia)) as Hp.
  assert (le (at_ a c) (at_ a ix)) as Hle by (apply ecmp_anti in Hgt; unfold le; lia).
  split.
  - intros k Hk Hne. pose proof (par_lt k ltac:(lia)).
    rewrite (at_swapl _ _ _ (par k)), (at_swapl _ _ _ k) by lia.
    destruct (Z.eqb_spec (par k) ix) as [E|E].
    + destruct (Z.eqb_spec k ix); [lia|]. destruct (Z.eqb_spec k c); [done|]. by apply Hmin.
    + destruct (Z.eqb_spec (par k) c); [lia|]. destruct (Z.eqb_spec k ix) as [->|].
      * apply H2; (done || lia).
      * destruct (Z.eqb_spec k c); [congruence|]. by apply H1.
  - intros k Hk Hpk _. pose proof (par_lt k ltac:(lia)).
    rewrite Hpc, !at_swapl by lia. rewrite Z.eqb_refl.
    destruct (Z.eqb_spec k ix); [lia|]. destruct (Z.eqb_spec k c); [lia|].
    rewrite <- Hpk. apply H1; lia.
Qed.

Lemma heap_down_done a n ix : heap_down a n ix ->
  (forall k, 0 < k < n -> par k = ix -> le (at_ a ix) (at_ a k)) -> heap a n.
Proof.
  intros [H1 _] Hd k Hk. destruct (decide (par k = ix)) as [E|]; [rewrite E; by apply Hd|by apply H1].
Qed.

(** The root of a heap comes first. *)
Lemma heap_root a n : heap a n -> forall k, 0 <= k < n -> le (at_ a 0) (at_ a k).
Proof using All.
  intros Hh k [Hk0 Hkn]. revert Hkn. revert k Hk0. apply (Z_lt_induction (fun k => k < n -> _)).
  intros k IH Hk. destruct (Z_lt_le_dec k 0) as [Hneg|].
  { unfold at_. rewrite !Z2Nat.nonpos by lia. apply le_refl. }
  destruct (decide (k = 0)) as [->|]; [apply le_refl|].
  pose proof (par_lt k ltac:(lia)). apply (le_trans _ (at_ a (par k))); [apply IH; lia|apply Hh; lia].
Qed.

(** *** The loops *)

Section Loops.
Context (q : prio_queue T C).
Hypothesis Hf : compare_fn q = Some f.
Hypothesis Hcb : cb_data q = cb.

Lemma compare_ok a i j : 0 <= i < len a -> 0 <= j < len a ->
  compare (set_array q a) i j = Ok (ecmp (at_ a i) (at_ a j)).
Proof using Hf Hcb.
  intros Hi Hj. unfold compare, set_array. simpl. rewrite Hf, Hcb.
  by rewrite !rd_ok by done.
Qed.

Lemma swap_ok a i j : 0 <= i < len a -> 0 <= j < len a ->
  swap (set_array q a) i j = Ok (set_array q (swapl a i j)).
Proof.
  intros Hi Hj. unfold swap, set_array. simpl.
  rewrite !rd_ok by done. cbn [mbind res_bind]. rewrite wr_ok by done. cbn [mbind res_bind].
  by rewrite wr_ok by (rewrite len_insert; done).
Qed.

Lemma put_loop fuel a ix : heap_up a (nr q) ix -> 0 <= ix < nr q -> nr q <= len a ->
  (Z.to_nat ix < fuel)%nat ->
  total (loop fuel put_step (set_array q a, ix)) (fun q' =>
    exists a', q' = set_array q a' /\ heap a' (nr q) /\ len a' = len a /\
      take (Z.to_nat (nr q)) a' ≡ₚ take (Z.to_nat (nr q)) a).
Proof using All.
  intros Hh Hix Hn Hfuel.
  apply (wp_loop _ (fun '(q', i) => exists a', q' = set_array q a' /\ heap_up a' (nr q) i /\
      0 <= i < nr q /\ len a' = len a /\ take (Z.to_nat (nr q)) a' ≡ₚ take (Z.to_nat (nr q)) a)
    (fun s => Z.to_nat s.2)); [|by exists a|done].
  intros [q' i] (b & -> & Hb & Hi & Hlen & Hperm). unfold put_step.
  destruct (tr i) eqn:Ei.
  2:{ apply tr_false in Ei as ->. apply wp_ret. exists b. split_and!; try done.
      eapply heap_up_done; [done|by left]. }
  apply tr_true in Ei. change ((i - 1) `div` 2) with (par i).
  pose proof (par_lt i ltac:(lia)). rewrite compare_ok by lia. cbn [mbind res_bind].
  destruct (Z.leb_spec (ecmp (at_ b (par i)) (at_ b i)) 0).
  - apply wp_ret. exists b. split_and!; try done. eapply heap_up_done; [done|by right].
  - rewrite swap_ok by lia. apply wp_ret. split; [|simpl; lia].
    eexists. split; [done|]. rewrite len_swapl, swapl_perm by lia.
    split_and!; try done; try lia. apply heap_up_step; (done || lia).
Qed.

Lemma child_par k ix : 0 <= ix -> 0 < k -> par k = ix <-> (k = ix * 2 + 1 \/ k = ix * 2 + 2).
Proof. unfold par. intros. dlia. Qed.

Lemma sift_loop fuel a ix : heap_down a (nr q) ix -> 0 <= ix -> nr q <= len a ->
  (Z.to_nat (nr q - ix) < fuel)%nat ->
  total (loop fuel sift_step (set_array q a, ix)) (fun q' =>
    exists a', q' = set_array q a' /\ heap a' (nr q) /\ len a' = len a /\
      take (Z.to_nat (nr q)) a' ≡ₚ take (Z.to_nat (nr q)) a).
Proof using All.
  intros Hh Hix Hn Hfuel.
  apply (wp_loop _ (fun '(q', i) => exists a', q' = set_array q a' /\ heap_down a' (nr q) i /\
      0 <= i /\ len a' = len a /\ take (Z.to_nat (nr q)) a' ≡ₚ take (Z.to_nat (nr q)) a)
    (fun s => Z.to_nat (nr q - s.2))); [|by exists a|done].
  intros [q' i] (b & -> & Hb & Hi & Hlen & Hperm). unfold sift_step.
  change (nr (set_array q b)) with (nr q).
  destruct (Z.ltb_spec (i * 2 + 1) (nr q)) as [Hl|Hl].
  2:{ apply wp_ret. exists b. split_and!; try done. eapply heap_down_done; [done|].
      intros k Hk Hp. apply child_par in Hp; lia. }
  assert (exists c : bool, (if i * 2 + 1 + 1 <? nr q then
            c ← compare (set_array q b) (i * 2 + 1) (i * 2 + 1 + 1); Ok (0 <=? c)
          else Ok false) = Ok c /\
    let c := if c then i * 2 + 1 + 1 else i * 2 + 1 in
    i < c < nr q /\ par c = i /\ (forall k, 0 < k < nr q -> par k = i -> le (at_ b c) (at_ b k)))
    as (c & -> & Hc).
  { destruct (Z.ltb_spec (i * 2 + 1 + 1) (nr q)) as [Hr|Hr].
    - rewrite compare_ok by lia. cbn [mbind res_bind]. eexists. split; [done|].
      pose proof (ecmp_anti (at_ b (i * 2 + 1 + 1)) (at_ b (i * 2 + 1))).
      destruct (Z.leb_spec 0 (ecmp (at_ b (i * 2 + 1)) (at_ b (i * 2 + 1 + 1)))).
      all: simpl; rewrite child_par by lia; split_and!; try lia.
      all: intros k Hk Hp; apply child_par in Hp as [-> | ->]; try lia.
      all: try replace (i * 2 + 2) with (i * 2 + 1 + 1) by lia.
      all: try apply le_refl; unfold le.
      + pose proof (ecmp_anti (at_ b (i * 2 + 1)) (at_ b (i * 2 + 1 + 1))). lia.
      + lia.
    - exists false. split; [done|]. simpl. rewrite child_par by lia. split_and!; try lia.
      intros k Hk Hp. apply child_par in Hp as [-> | ->]; try lia. apply le_refl. }
  cbn [mbind res_bind]. cbv zeta in Hc. set (child := if c then _ else _) in *.
  destruct Hc as (Hc & Hpc & Hmin).
  rewrite compare_ok by lia. cbn [mbind res_bind].
  destruct (Z.leb_spec (ecmp (at_ b i) (at_ b child)) 0) as [Hle|Hgt].
  - apply wp_ret. exists b. split_and!; try done. eapply heap_down_done; [done|].
    intros k Hk Hp. eapply le_trans; [exact Hle|by apply Hmin].
  - rewrite swap_ok by lia. apply wp_ret. split; [|simpl; lia].
    eexists. split; [done|]. rewrite len_swapl, swapl_perm by lia.
    split_and!; try done; try lia. apply (heap_down_step _ _ i); (done || lia).
Qed.
End Loops.

(** *** The operations refine the abstract queue *)

Local Abbreviation sorted := (StronglySorted (fun a b => ecmp a b < 0)).

Record repr (q : prio_queue T C) (s : spec_state) : Prop := {
  r_fn : compare_fn q = Some f;
  r_cb : cb_data q = cb;
  r_ctr : insertion_ctr q = s.1;
  r_alloc : len (array q) = alloc q;
  r_nr : 0 <= nr q <= alloc q;
  r_heap : heap (array q) (nr q);
  r_perm : take (Z.to_nat (nr q)) (array q) ≡ₚ s.2;
  r_sorted : sorted s.2;
  r_old : Forall (fun e => ctr e < s.1) s.2;
  r_bound : nr q <= s.1 /\ alloc q <= 2 * s.1 + 24;
}.

Lemma insert_sorted_perm e l : insert_sorted f cb e l ≡ₚ e :: l.
Proof.
  induction l as [|x l IH]; [done|]. simpl. destruct (before f cb e x); [done|].
  rewrite IH. apply Permutation_swap.
Qed.

Lemma insert_sorted_sorted e l : sorted l -> Forall (fun x => ctr x < ctr e) l ->
  sorted (insert_sorted f cb e l).
Proof using All.
  induction l as [|x l IH]; simpl; intros Hs Hc; [by repeat constructor|].
  apply StronglySorted_inv in Hs as [Hs Hx]. apply Forall_cons in Hc as [Hcx Hc].
  destruct (before f cb e x) eqn:Eb.
  - apply before_ecmp in Eb. constructor; [by constructor|]. constructor; [done|].
    eapply Forall_impl; [exact Hx|]. intros y Hy. simpl in *.
    pose proof (le_trans e x y ltac:(unfold le; lia) ltac:(unfold le; lia)) as Hle.
    pose proof (ecmp_anti e y). pose proof (ecmp_anti x y). pose proof (ecmp_anti e x).
    pose proof (le_trans y e x) as Ht. unfold le in *. lia.
  - constructor; [by apply IH|]. rewrite insert_sorted_perm. constructor; [|done].
    assert (~ ecmp e x < 0) as Hn by (by rewrite <- before_ecmp, Eb).
    pose proof (ecmp_distinct e x ltac:(lia)). pose proof (ecmp_anti x e). lia.
Qed.

Lemma spec_put_sorted s x : sorted s.2 -> Forall (fun e => ctr e < s.1) s.2 ->
  sorted (spec_put f cb s x).2 /\ Forall (fun e => ctr e < (spec_put f cb s x).1) (spec_put f cb s x).2.
Proof using All.
  intros Hs Hc. split; [by apply insert_sorted_sorted|].
  simpl. rewrite insert_sorted_perm. constructor; [simpl; lia|].
  eapply Forall_impl; [exact Hc|]. simpl. lia.
Qed.

(** A nonempty heap holds the first entry at its root. *)
Lemma repr_head q s : repr q s -> 0 < nr q -> exists rest, s.2 = at_ (array q) 0 :: rest.
Proof using All.
  intros Hr Hn. destruct Hr as [_ _ _ Hal Hnr Hh Hp Hs _ _].
  assert (at_ (array q) 0 ∈ s.2) as Hin.
  { rewrite <- Hp. apply list_elem_of_lookup. exists 0%nat.
    rewrite lookup_take_lt by lia. apply list_lookup_lookup_total_lt. llia. }
  destruct s as [c [|e rest]]; simpl in *; [set_solver|].
  exists rest. f_equal. apply elem_of_cons in Hin as [|Hin]; [done|]. exfalso.
  apply StronglySorted_inv in Hs as [_ Hs]. rewrite Forall_forall in Hs. specialize (Hs _ Hin).
  assert (e ∈ take (Z.to_nat (nr q)) (array q)) as He by (rewrite Hp; left).
  apply list_elem_of_lookup in He as (k & Hk). apply lookup_take_Some in Hk as [Hk Hkn].
  pose proof (heap_root _ _ Hh (Z.of_nat k) ltac:(lia)) as Hle.
  unfold at_ at 2 in Hle. rewrite Nat2Z.id in Hle.
  rewrite (list_lookup_total_correct _ _ _ Hk) in Hle. apply ecmp_anti in Hs. unfold le in Hle. lia.
Qed.

Lemma take_insert_head (a : list entry) e n : 0 < n <= len a ->
  take (Z.to_nat n) a ≡ₚ at_ a 0 :: take (Z.to_nat (n - 1)) (drop 1 a) /\
  take (Z.to_nat n) (<[Z.to_nat 0 := e]> a) = e :: take (Z.to_nat (n - 1)) (drop 1 a).
Proof.
  intros Hn. destruct a as [|x a]; [unfold len in Hn; simpl in Hn; lia|].
  replace (Z.to_nat n) with (S (Z.to_nat (n - 1))) by lia. done.
Qed.

(** Writing the root keeps the order of all the cells but the root. *)
Lemma heap_down_root a n m e : heap a n -> m <= n -> 0 < n <= len a ->
  heap_down (<[Z.to_nat 0 := e]> a) m 0.
Proof.
  intros Hh Hm Hn. split; [|lia]. intros k Hk Hp. pose proof (par_lt k ltac:(lia)).
  rewrite !at_insert by lia. destruct (Z.eqb_spec (par k) 0); [lia|].
  destruct (Z.eqb_spec k 0); [lia|]. apply Hh. lia.
Qed.

Lemma nr_tr n : 0 <= n -> tr n = (0 <? n).
Proof. intros. unfold tr. destruct (Z.eqb_spec n 0), (Z.ltb_spec 0 n); (done || lia). Qed.

Context `{Memory}.

Lemma put_repr q s x : repr q s -> s.1 < 2 ^ 46 ->
  wp oom (prio_queue_put junk q x) (fun q' => repr q' (spec_put f cb s x)).
Proof using All.
  intros Hr Hlt. pose proof Hr as [Hf Hcb Hct Hal Hnr Hh Hp Hs Hold Hbnd].
  unfold prio_queue_put. apply wp_bind. eapply wp_mono.
  { apply ALLOC_GROW_spec; [done|lia|lia|done]. }
  intros [arr al] (pad & -> & Hlen & Hal1 & Hal2 & Hal3).
  rewrite wr_ok by lia. cbn [mbind res_bind compare_fn]. rewrite Hf.
  set (e := mkEntry (insertion_ctr q) x). set (a := <[_ := e]> (array q ++ pad)).
  set (q1 := mkQueue _ _ _ _ _ a).
  change (q1, nr q1 - 1) with (set_array q1 a, nr q + 1 - 1). change (nr q1) with (nr q + 1).
  replace (nr q + 1 - 1) with (nr q) by lia.
  assert (len a = al) as Hla by (unfold a; rewrite len_insert; done).
  assert (forall k, 0 <= k < nr q -> at_ a k = at_ (array q) k) as Hat.
  { intros k Hk. unfold a. rewrite at_insert by lia. destruct (Z.eqb_spec k (nr q)); [lia|].
    unfold at_. apply lookup_total_app_l. llia. }
  assert (take (Z.to_nat (nr q + 1)) a = take (Z.to_nat (nr q)) (array q) ++ [e]) as Htk.
  { replace (Z.to_nat (nr q + 1)) with (S (Z.to_nat (nr q))) by lia.
    rewrite (take_S_r _ _ e). 2:{ unfold a. apply list_lookup_insert_eq. llia. }
    f_equal. unfold a. rewrite take_insert_ge by lia. rewrite take_app_le by llia. done. }
  apply total_wp. eapply wp_mono.
  { apply (put_loop q1 eq_refl Hcb _ a (nr q)); unfold q1; cbn [nr]; [|lia|lia|lia].
    split; [|intros k Hk Hpk; pose proof (par_lt k); lia].
    intros k Hk Hne. pose proof (par_lt k ltac:(lia)). rewrite !Hat by lia. apply Hh. lia. }
  intros q' (a' & -> & Hh' & Hl' & Hp'). unfold q1 in Hh', Hp'. cbn [nr] in Hh', Hp'.
  destruct (spec_put_sorted s x Hs Hold) as [Hs' Hold'].
  constructor; cbn; try done; try lia.
  - rewrite Hct, u64_small; [done|]. lia.
  - rewrite Hp', Htk, insert_sorted_perm, Hp, Permutation_app_comm. unfold e. by rewrite Hct.
Qed.

Lemma get_repr q s : repr q s ->
  total (prio_queue_get q) (fun '(r, q') => r = data <$> head s.2 /\ repr q' (s.1, tail s.2)).
Proof using All.
  intros Hr. pose proof Hr as [Hf Hcb Hct Hal Hnr Hh Hp Hs Hold Hbnd].
  unfold prio_queue_get. rewrite nr_tr by lia. destruct (Z.ltb_spec 0 (nr q)) as [Hn|Hn]; simpl negb; cbv iota.
  2:{ assert (nr q = 0) as E by lia. rewrite E in Hp. simpl in Hp.
      apply Permutation_nil_l in Hp. destruct s as [c l]. simpl in *. subst l. done. }
  rewrite Hf. rewrite (rd_ok (array q) 0) by llia. cbn [mbind res_bind]. change (array q !!! _) with (at_ (array q) 0).
  destruct (repr_head q s Hr Hn) as (rest & Hrest). rewrite Hrest in *. simpl (head _). simpl (tail _).
  apply StronglySorted_inv in Hs as [Hs _]. apply Forall_cons in Hold as [_ Hold].
  cbn [nr set_nr]. rewrite nr_tr by lia. destruct (Z.ltb_spec 0 (nr q - 1)) as [Hn1|Hn1]; simpl negb; cbv iota.
  - rewrite rd_ok by (cbn; llia). cbn [mbind res_bind array set_nr]. rewrite wr_ok by llia.
    cbn [mbind res_bind]. set (last := array q !!! _). set (a := <[_ := last]> (array q)).
    unfold sift_down_root. cbn [nr set_nr set_array].
    destruct (take_insert_head (array q) last (nr q - 1) ltac:(llia)) as [_ Ht].
    destruct (take_insert_head (array q) last (nr q) ltac:(llia)) as [Ht2 _].
    assert (take (Z.to_nat (nr q - 1)) a ≡ₚ rest) as Hpa.
    { apply (Permutation_cons_inv (a := at_ (array q) 0)). rewrite <- Hp, Ht2. apply Permutation_skip.
      unfold a. rewrite Ht. replace (Z.to_nat (nr q - 1)) with (S (Z.to_nat (nr q - 1 - 1))) by lia.
      rewrite (take_S_r _ _ last), Permutation_app_comm; [done|].
      rewrite lookup_drop. unfold last. rewrite <- list_lookup_lookup_total_lt by llia. f_equal. lia. }
    apply wp_bind. eapply wp_mono.
    { apply (sift_loop (set_nr q (nr q - 1)) Hf Hcb _ a 0); cbn [nr set_nr]; [|lia|unfold a; rewrite len_insert; lia|lia].
      apply (heap_down_root _ (nr q)); [done|lia|lia]. }
    intros q' (a' & -> & Hh' & Hl' & Hp'). cbn [nr set_nr] in Hh', Hp'. apply wp_ret. split; [done|].
    constructor; cbn; try done; try lia.
    + rewrite Hl'. unfold a. by rewrite len_insert.
    + by rewrite Hp'.
  - apply wp_ret. split; [done|]. assert (nr q = 1) as E by lia.
    constructor; cbn; try done; try lia.
    + intros k Hk. lia.
    + rewrite E. simpl. destruct (take_insert_head (array q) junk (nr q) ltac:(llia)) as [Ht2 _].
      rewrite Ht2, E in Hp. simpl in Hp. by apply Permutation_cons_inv in Hp.
Qed.

Lemma peek_repr q s : repr q s -> prio_queue_peek q = Ok (data <$> head s.2).
Proof using All.
  intros Hr. pose proof Hr as [Hf Hcb Hct Hal Hnr Hh Hp Hs Hold Hbnd].
  unfold prio_queue_peek. rewrite nr_tr by lia. destruct (Z.ltb_spec 0 (nr q)) as [Hn|Hn]; simpl negb; cbv iota.
  - rewrite Hf, rd_ok by llia. destruct (repr_head q s Hr Hn) as (rest & ->). done.
  - assert (nr q = 0) as E by lia. rewrite E in Hp. simpl in Hp.
    apply Permutation_nil_l in Hp. by rewrite <- Hp.
Qed.

Lemma replace_repr q s x : repr q s -> s.1 < 2 ^ 46 ->
  wp oom (prio_queue_replace junk q x) (fun q' => repr q' (spec_put f cb (s.1, tail s.2) x)).
Proof using All.
  intros Hr Hlt. pose proof Hr as [Hf Hcb Hct Hal Hnr Hh Hp Hs Hold Hbnd].
  unfold prio_queue_replace. rewrite nr_tr by lia. destruct (Z.ltb_spec 0 (nr q)) as [Hn|Hn]; simpl negb; cbv iota.
  2:{ assert (nr q = 0) as E by lia. rewrite E in Hp. simpl in Hp. apply Permutation_nil_l in Hp.
      destruct s as [c l]. simpl in *. subst l. by apply (put_repr q (c, [])). }
  rewrite Hf, wr_ok by llia. cbn [mbind res_bind].
  set (e := mkEntry (insertion_ctr q) x). set (a := <[_ := e]> (array q)).
  set (q1 := mkQueue _ _ _ _ _ a). unfold sift_down_root.
  destruct (repr_head q s Hr Hn) as (rest & Hrest). rewrite Hrest in *. simpl (tail _).
  apply StronglySorted_inv in Hs as [Hs _]. apply Forall_cons in Hold as [_ Hold].
  destruct (take_insert_head (array q) e (nr q) ltac:(llia)) as [Ht1 Ht2].
  apply total_wp. eapply wp_mono.
  { apply (sift_loop q1 eq_refl Hcb _ a 0); unfold q1; cbn [nr]; [|lia|unfold a; rewrite len_insert; lia|lia].
    apply (heap_down_root _ (nr q)); [done|lia|lia]. }
  intros q' (a' & -> & Hh' & Hl' & Hp'). unfold q1 in Hh', Hp'. cbn [nr] in Hh', Hp'.
  destruct (spec_put_sorted (s.1, rest) x Hs Hold) as [Hs' Hold'].
  constructor; cbn; try done; try lia.
  - rewrite Hct, u64_small; [done|]. lia.
  - rewrite Hl'. unfold a. by rewrite len_insert.
  - rewrite Hp'. unfold a. rewrite Ht2, insert_sorted_perm. unfold e. rewrite Hct. apply Permutation_skip.
    apply (Permutation_cons_inv (a := at_ (array q) 0)). by rewrite <- Hp, Ht1.
Qed.

Lemma run_repr ops : forall q s, repr q s -> s.1 + len ops < 2 ^ 46 ->
  wp oom (run junk q ops) (fun '(rs, _) => rs = spec_run f cb s ops).
Proof using All.
  induction ops as [|o ops IH]; intros q s Hr Hlt; [done|]. cbn [run spec_run].
  rewrite len_cons in Hlt. pose proof (len_nonneg ops).
  assert (wp oom (run_op junk q o) (fun '(r, q') =>
    r = (spec_op f cb s o).1 /\ repr q' (spec_op f cb s o).2 /\ (spec_op f cb s o).2.1 <= s.1 + 1)) as Hop.
  { destruct o as [x| | |x]; cbn [run_op spec_op]; apply wp_bind.
    - eapply wp_mono; [apply (put_repr q s); [done|lia]|]. intros q' Hq'. apply wp_ret. simpl. split_and!; (done || lia).
    - eapply wp_mono; [apply total_wp, (get_repr q s); done|]. intros [r q'] [-> Hq']. apply wp_ret. simpl. split_and!; (done || lia).
    - rewrite (peek_repr q s) by done. do 2 apply wp_ret. simpl. split_and!; (done || lia).
    - eapply wp_mono; [apply (replace_repr q s); [done|lia]|]. intros q' Hq'. apply wp_ret. simpl. split_and!; (done || lia). }
  apply wp_bind. eapply wp_mono; [exact Hop|]. intros [r q'] (-> & Hq' & Hb).
  destruct (spec_op f cb s o) as [r s'] eqn:Es. simpl in *.
  apply wp_bind. eapply wp_mono; [apply (IH q' s'); [done|lia]|]. intros [rs q''] ->. done.
Qed.
End Heap.

(** ** The LIFO stack *)

Inductive lifo_op {T : Type} := LPut (x : T) | LGet | LPeek | LReplace (x : T) | LReverse.
Arguments lifo_op : clear implicits.

(** The stack, its top first. *)
Definition lifo_spec {T} (l : list T) (o : lifo_op T) : option (option T) * list T :=
  match o with
  | LPut x => (None, x :: l)
  | LGet => (Some (head l), tail l)
  | LPeek => (Some (head l), l)
  | LReplace x => (None, x :: tail l)
  | LReverse => (None, reverse l)
  end.

Fixpoint lifo_spec_run {T} (l : list T) (ops : list (lifo_op T)) : list (option (option T)) :=
  match ops with
  | [] => []
  | o :: ops => let '(r, l) := lifo_spec l o in r :: lifo_spec_run l ops
  end.

Section Lifo.
Context `{Memory} {T C : Type} (junk : prio_queue_entry T).
#[local] Hint Extern 0 (Inhabited (prio_queue_entry T)) =>
  exact (entry_inhabited junk) : typeclass_instances.

Definition lifo_run_op (q : prio_queue T C) (o : lifo_op T)
    : res (option (option T) * prio_queue T C) :=
  match o with
  | LPut x => run_op junk q (Put x)
  | LGet => run_op junk q Get
  | LPeek => run_op junk q Peek
  | LReplace x => run_op junk q (Replace x)
  | LReverse => q ← prio_queue_reverse q; Ok (None, q)
  end.

Fixpoint lifo_run (q : prio_queue T C) (ops : list (lifo_op T))
    : res (list (option (option T)) * prio_queue T C) :=
  match ops with
  | [] => Ok ([], q)
  | o :: ops => '(r, q) ← lifo_run_op q o; '(rs, q) ← lifo_run q ops; Ok (r :: rs, q)
  end.

(** [n] operations have been run and the stack is [l]. *)
Record lifo_repr (n : Z) (q : prio_queue T C) (l : list T) : Prop := {
  l_fn : compare_fn q = None;
  l_alloc : len (array q) = alloc q;
  l_nr : nr q = len l;
  l_le : nr q <= alloc q;
  l_data : data <$> take (length l) (array q) = reverse l;
  l_bound : nr q <= n /\ alloc q <= 2 * n + 24;
}.

Lemma lifo_top n q x l : lifo_repr n q (x :: l) ->
  rd (array q) (nr q - 1) = Ok (array q !!! length l) /\ data (array q !!! length l) = x /\
  data <$> take (length l) (array q) = reverse l.
Proof.
  intros [_ Hal Hnr Hle Hd _]. assert (length l < length (array q))%nat as Hl.
  { rewrite len_cons in Hnr. llia. }
  assert (array q !! length l = Some (array q !!! length l)) as E
    by (by apply list_lookup_lookup_total_lt).
  simpl length in Hd. rewrite (take_S_r _ _ _ E), fmap_app, reverse_cons in Hd.
  apply app_inj_2 in Hd as [Hd [= Hx]]; [|done]. split_and!; [|done|done].
  rewrite len_cons in Hnr. apply rd_Some; [llia|]. rewrite <- E. f_equal. llia.
Qed.

Lemma lifo_put_repr n q l x : lifo_repr n q l -> n < 2 ^ 46 ->
  wp oom (prio_queue_put junk q x) (fun q' => lifo_repr (n + 1) q' (x :: l)).
Proof.
  intros [Hf Hal Hnr Hle Hd Hb] Hn. pose proof (len_nonneg l).
  unfold prio_queue_put. apply wp_bind. eapply wp_mono.
  { apply ALLOC_GROW_spec; [done|lia|lia|done]. }
  intros [arr al] (pad & -> & Hlen & Hal1 & Hal2 & Hal3).
  rewrite wr_ok by lia. cbn [mbind res_bind compare_fn]. rewrite Hf. apply wp_ret.
  constructor; cbn [compare_fn array alloc nr]; rewrite ?len_insert, ?len_cons; try (done || lia).
  simpl length. rewrite reverse_cons, <- Hd.
  assert (Z.to_nat (nr q) = length l) as -> by llia.
  rewrite (take_S_r _ _ (mkEntry (insertion_ctr q) x)).
  2:{ apply list_lookup_insert_eq. llia. }
  rewrite take_insert_ge, take_app_le, fmap_app by llia. done.
Qed.

Lemma reverse_loop (q : prio_queue T C) : compare_fn q = None -> 0 < nr q <= len (array q) -> nr q < 2 ^ 64 ->
  total (loop (S (Z.to_nat (nr q))) reverse_step (q, 0)) (fun q' =>
    exists a, q' = set_array q a /\ len a = len (array q) /\
      forall k, 0 <= k < nr q -> at_ junk a k = at_ junk (array q) (nr q - 1 - k)).
Proof.
  intros Hf Hn Hlt.
  apply (wp_loop _ (fun '(q', i) => exists a, q' = set_array q a /\ len a = len (array q) /\
      0 <= i /\ 2 * i <= nr q /\ forall k, 0 <= k < nr q -> at_ junk a k =
        if (k <? i) || (nr q - 1 - i <? k) then at_ junk (array q) (nr q - 1 - k)
        else at_ junk (array q) k)
    (fun s => Z.to_nat (nr q - s.2))); [| |simpl; lia].
  2:{ exists (array q). split_and!; try done; try lia; [by destruct q|].
      intros k Hk. destruct (Z.ltb_spec k 0); [lia|].
      destruct (Z.ltb_spec (nr q - 1 - 0) k); [lia|done]. }
  intros [q' i] (a & -> & Hl & Hi & Hi2 & Ha). unfold reverse_step.
  change (nr (set_array q a)) with (nr q). rewrite (u64_small (nr q - 1)) by lia.
  destruct (decide (2 * i = nr q)) as [E|E].
  { replace (nr q - 1 - i) with (i - 1) in * by lia.
    assert ((i <? u64 (i - 1)) = false) as ->.
    { destruct (decide (i = 0)); [lia|]. rewrite u64_small by lia. apply Z.ltb_ge. lia. }
    apply wp_ret. exists a. split_and!; [done|done|]. intros k Hk. rewrite Ha by done.
    destruct (Z.ltb_spec k i); [done|]. destruct (Z.ltb_spec (i - 1) k); [done|lia]. }
  rewrite u64_small by lia. destruct (Z.ltb_spec i (nr q - 1 - i)) as [Hlt'|Hge].
  - rewrite (swap_ok junk) by lia. cbn [mbind res_bind]. apply wp_ret. split; [|simpl; lia].
    eexists. split; [done|]. rewrite len_swapl. split_and!; try done; try lia.
    intros k Hk. rewrite at_swapl by lia. rewrite !Ha by lia.
    repeat match goal with |- context [?x =? ?y] => destruct (Z.eqb_spec x y) end;
    repeat match goal with |- context [?x <? ?y] => destruct (Z.ltb_spec x y) end;
    simpl; (done || lia || (f_equal; lia)).
  - apply wp_ret. exists a. split_and!; [done|done|]. intros k Hk. rewrite Ha by done.
    destruct (Z.ltb_spec k i); [done|]. destruct (Z.ltb_spec (nr q - 1 - i) k); [done|].
    simpl. f_equal. lia.
Qed.

Lemma lifo_reverse_repr n q l : lifo_repr n q l -> n < 2 ^ 46 ->
  total (prio_queue_reverse q) (fun q' => lifo_repr n q' (reverse l)).
Proof.
  intros Hr Hn. pose proof Hr as [Hf Hal Hnr Hle Hd Hb]. unfold prio_queue_reverse. rewrite Hf.
  pose proof (len_nonneg l). rewrite nr_tr by lia. destruct (Z.ltb_spec 0 (nr q)) as [Hp|Hp]; simpl negb; cbv iota.
  2:{ destruct l; [done|rewrite len_cons in Hnr; llia]. }
  eapply wp_mono; [apply reverse_loop; (done || lia)|].
  intros q' (a & -> & Hl & Ha). constructor; cbn [compare_fn array alloc nr set_array]; try done.
  - by rewrite Hl.
  - unfold len. by rewrite length_reverse.
  - rewrite length_reverse, reverse_involutive. apply list_eq. intros k.
    destruct (decide (k < length l)%nat) as [Hk|Hk].
    + rewrite list_lookup_fmap, lookup_take_lt by done.
      rewrite list_lookup_lookup_total_lt by llia.
      pose proof (Ha (Z.of_nat k) ltac:(llia)) as E. unfold at_ in E. rewrite Nat2Z.id in E.
      rewrite E. assert (Z.to_nat (nr q - 1 - Z.of_nat k) = length l - S k)%nat as -> by llia.
      apply (f_equal (fun l => l !! (length l - S k)%nat)) in Hd.
      rewrite length_fmap, length_take_le in Hd by llia.
      rewrite list_lookup_fmap, lookup_take_lt, list_lookup_lookup_total_lt in Hd by llia.
      cbn [fmap option_fmap option_map] in *. rewrite Hd, length_reverse, reverse_lookup by lia.
      f_equal. lia.
    + rewrite !lookup_ge_None_2; [done|lia|]. rewrite length_fmap, length_take. lia.
Qed.

Lemma lifo_op_repr n q l o : lifo_repr n q l -> n < 2 ^ 46 ->
  wp oom (lifo_run_op q o) (fun '(r, q') =>
    r = (lifo_spec l o).1 /\ lifo_repr (n + 1) q' (lifo_spec l o).2).
Proof.
  intros Hr Hn. pose proof Hr as [Hf Hal Hnr Hle Hd Hb]. pose proof (len_nonneg l).
  assert (forall q', lifo_repr n q' l -> lifo_repr (n + 1) q' l) as Hmon.
  { intros q' []. constructor; (done || lia). }
  assert (tr (nr q) = (0 <? nr q)) as Htr by (apply nr_tr; lia).
  destruct o; cbn [lifo_run_op run_op lifo_spec].
  - apply wp_bind. eapply wp_mono; [by apply lifo_put_repr|]. done.
  - unfold prio_queue_get. rewrite Htr. destruct l as [|x l].
    { rewrite Hnr. simpl. split; [done|]. by apply Hmon. }
    rewrite len_cons in Hnr. pose proof (len_nonneg l). destruct (Z.ltb_spec 0 (nr q)); [|lia].
    destruct (lifo_top _ _ _ _ Hr) as (Ht & Hx & Hd'). cbn [negb]. rewrite Hf.
    cbn [array set_nr nr]. rewrite Ht. cbn [mbind res_bind]. apply wp_ret. simpl. rewrite Hx.
    split; [done|]. constructor; cbn [compare_fn array alloc nr set_nr]; (done || lia).
  - unfold prio_queue_peek. rewrite Htr. destruct l as [|x l].
    { rewrite Hnr. simpl. split; [done|]. by apply Hmon. }
    rewrite len_cons in Hnr. pose proof (len_nonneg l). destruct (Z.ltb_spec 0 (nr q)); [|lia].
    destruct (lifo_top _ _ _ _ Hr) as (Ht & Hx & Hd'). cbn [negb]. rewrite Hf, Ht. simpl. rewrite Hx.
    split; [done|]. by apply Hmon.
  - unfold prio_queue_replace. rewrite Htr. apply wp_bind. destruct l as [|x' l].
    { rewrite Hnr. eapply wp_mono; [by apply lifo_put_repr|]. done. }
    rewrite len_cons in Hnr. pose proof (len_nonneg l). destruct (Z.ltb_spec 0 (nr q)); [|lia].
    destruct (lifo_top _ _ _ _ Hr) as (Ht & Hx & Hd'). cbn [negb]. rewrite Hf.
    rewrite wr_ok by lia. cbn [mbind res_bind]. do 2 apply wp_ret. split; [done|]. cbn [snd tail].
    assert (Z.to_nat (nr q - 1) = length l) as -> by llia.
    constructor; cbn [compare_fn array alloc nr]; rewrite ?len_insert, ?len_cons; try (done || lia).
    cbn [length]. rewrite reverse_cons, (take_S_r _ _ (mkEntry (insertion_ctr q) x)).
    2:{ apply list_lookup_insert_eq. llia. }
    rewrite take_insert_ge, fmap_app, Hd' by lia. done.
  - apply wp_bind. eapply wp_mono; [by eapply total_wp, lifo_reverse_repr|].
    intros q' []. apply wp_ret. split; [done|]. constructor; (done || lia).
Qed.

Lemma lifo_run_repr ops : forall n q l, lifo_repr n q l -> n + len ops < 2 ^ 46 ->
  wp oom (lifo_run q ops) (fun '(rs, _) => rs = lifo_spec_run l ops).
Proof.
  induction ops as [|o ops IH]; intros n q l Hr Hlt; [done|]. cbn [lifo_run lifo_spec_run].
  rewrite len_cons in Hlt. pose proof (len_nonneg ops). apply wp_bind.
  eapply wp_mono; [apply (lifo_op_repr n); [done|lia]|]. intros [r q'] [-> Hq'].
  destruct (lifo_spec l o) as [r l']. apply wp_bind.
  eapply wp_mono; [apply (IH (n + 1) q' l'); [done|lia]|]. intros [rs q''] ->. done.
Qed.
End Lifo.

(** ** Claims *)

(** C7: a queue with a comparison function is a stable priority queue.  Whatever
    sequence of fewer than [2 ^ 46] puts, gets, peeks and replaces is run on an empty queue, each
    operation returns what it returns on the list sorted by the comparison
    function and, between equals, by age; in particular [prio_queue_replace] is
    a get followed by a put.  No operation faults, unless an allocation fails. *)
Theorem prio_queue_refines `{Memory} {T C} (f : T -> T -> C -> Z) (cb : C) `{!CompareOk f cb}
    (junk : prio_queue_entry T) ops :
  len ops < 2 ^ 46 ->
  wp oom (run junk (mkQueue (Some f) 0 cb 0 0 []) ops)
    (fun '(rs, _) => rs = spec_run f cb (0, []) ops).
Proof.
  intros Hlt. apply run_repr; [done| |done].
  constructor; cbn; try done; [intros k Hk; lia|constructor].
Qed.

#[local] Instance memory_unlimited : Memory := {| git_alloc_limit := 0; libc_alloc := fun _ => true |}.

Lemma prio_queue_refines_witness :
  wp oom (run (mkEntry 0 0) (mkQueue (Some (fun x y (_ : unit) => x `mod` 10 - y `mod` 10)) 0 tt 0 0 [])
            [Put 31; Put 12; Put 41; Put 2; Get; Get; Replace 51; Get; Peek; Get; Get])
    (fun '(rs, _) => rs = spec_run (fun x y (_ : unit) => x `mod` 10 - y `mod` 10) tt (0, [])
            [Put 31; Put 12; Put 41; Put 2; Get; Get; Replace 51; Get; Peek; Get; Get]).
Proof.
  apply (prio_queue_refines (fun x y (_ : unit) => x `mod` 10 - y `mod` 10) tt
           (CompareOk0 := ltac:(split; intros; lia))); done.
Defined.

(** a queue without a comparison function is a stack: put, get, peek,
    replace and reverse return what they return on a list whose head is the top. *)
Theorem prio_queue_lifo `{Memory} {T C} (cb : C) (junk : prio_queue_entry T) ops :
  len ops < 2 ^ 46 ->
  wp oom (lifo_run junk (mkQueue None 0 cb 0 0 []) ops)
    (fun '(rs, _) => rs = lifo_spec_run [] ops).
Proof. intros Hlt. by apply (lifo_run_repr junk ops 0). Qed.

Lemma prio_queue_lifo_witness :
  wp oom (lifo_run (mkEntry 0 0) (mkQueue None 0 tt 0 0 [])
            [LPut 1; LPut 2; LPut 3; LReverse; LGet; LReplace 7; LPeek; LGet; LGet; LGet])
    (fun '(rs, _) => rs = lifo_spec_run [] [LPut 1; LPut 2; LPut 3; LReverse; LGet; LReplace 7; LPeek; LGet; LGet; LGet]).
Proof. apply prio_queue_lifo. done. Defined.

(** The abstract queue on the operations of the witness. *)
Example prio_queue_example :
  spec_run (fun x y (_ : unit) => x `mod` 10 - y `mod` 10) tt (0, [])
    [Put 31; Put 12; Put 41; Put 2; Get; Get; Replace 51; Get; Peek; Get; Get] =
  [None; None; None; None; Some (Some 31); Some (Some 41); None; Some (Some 51); Some (Some 2);
   Some (Some 2); Some None].
Proof. vm_compute. reflexivity. Qed.
