(* ===== verification/Hex.v ===== *)
(** * Hexadecimal object names: [hex-ll.c], [hex-ll.h], [hex.c]

    The digit table, the decoders and encoders of object names, and the four
    rotating result buffers of [hash_to_hex_algop].  Characters are bytes, a C
    string is a buffer that holds a NUL.  The theorems: the decoder accepts
    exactly the strings of hexadecimal digits and never reads behind the NUL of a
    short string; an object name survives printing and parsing, also when the
    algorithm is not known in advance; and a printed name stays valid for the
    next three calls. *)

From stdpp Require Import prelude numbers list.
From S2P Require Import Prelude Bswap.

(** [(int)x] of an [unsigned int]. *)
Definition s32 (x : Z) : Z := if x <? 2 ^ 31 then x else x - 2 ^ 32.

Definition hexval_table : list Z :=
  [ -1; -1; -1; -1; -1; -1; -1; -1;
    -1; -1; -1; -1; -1; -1; -1; -1;
    -1; -1; -1; -1; -1; -1; -1; -1;
    -1; -1; -1; -1; -1; -1; -1; -1;
    -1; -1; -1; -1; -1; -1; -1; -1;
    -1; -1; -1; -1; -1; -1; -1; -1;
    0; 1; 2; 3; 4; 5; 6; 7;
    8; 9; -1; -1; -1; -1; -1; -1;
    -1; 10; 11; 12; 13; 14; 15; -1;
    -1; -1; -1; -1; -1; -1; -1; -1;
    -1; -1; -1; -1; -1; -1; -1; -1;
    -1; -1; -1; -1; -1; -1; -1; -1;
    -1; 10; 11; 12; 13; 14; 15; -1;
    -1; -1; -1; -1; -1; -1; -1; -1;
    -1; -1; -1; -1; -1; -1; -1; -1;
    -1; -1; -1; -1; -1; -1; -1; -1;
    -1; -1; -1; -1; -1; -1; -1; -1;
    -1; -1; -1; -1; -1; -1; -1; -1;
    -1; -1; -1; -1; -1; -1; -1; -1;
    -1; -1; -1; -1; -1; -1; -1; -1;
    -1; -1; -1; -1; -1; -1; -1; -1;
    -1; -1; -1; -1; -1; -1; -1; -1;
    -1; -1; -1; -1; -1; -1; -1; -1;
    -1; -1; -1; -1; -1; -1; -1; -1;
    -1; -1; -1; -1; -1; -1; -1; -1;
    -1; -1; -1; -1; -1; -1; -1; -1;
    -1; -1; -1; -1; -1; -1; -1; -1;
    -1; -1; -1; -1; -1; -1; -1; -1;
    -1; -1; -1; -1; -1; -1; -1; -1;
    -1; -1; -1; -1; -1; -1; -1; -1;
    -1; -1; -1; -1; -1; -1; -1; -1;
    -1; -1; -1; -1; -1; -1; -1; -1].

Definition hexval (c : Z) : res Z := v ← rd hexval_table c; Ok (u32 v).

(** [hex2chr(s + i)]. *)
Definition hex2chr (s : list Z) (i : Z) : res Z :=
  c ← rd s i; val ← hexval c;
  if tr (val &. u32 (Z.lnot 0xf)) then Ok (s32 val)
  else c ← rd s (i + 1); v ← hexval c; Ok (s32 (u32 (val <<. 4) |. v)).

(** The loop of [hex_to_bytes]: [binary] and [hex] have advanced by [b] and [h]. *)
Definition hex_to_bytes_step (hex : list Z) (s : list Z * Z * Z * Z)
    : res (list Z * Z * Z * Z + Z * list Z) :=
  let '(binary, b, h, n) := s in
  if tr n then
    c0 ← rd hex h; v0 ← hexval c0; c1 ← rd hex (h + 1); v1 ← hexval c1;
    let val := u32 (v0 <<. 4) |. v1 in
    if tr (val &. u32 (Z.lnot 0xff)) then Ok (inr (-1, binary))
    else binary ← wr binary b (u8 val); Ok (inl (binary, b + 1, h + 2, n - 1))
  else Ok (inr (0, binary)).

Definition hex_to_bytes (binary hex : list Z) (n : Z) : res (Z * list Z) :=
  loop (S (Z.to_nat n)) (hex_to_bytes_step hex) (binary, 0, 0, n).

(** ** Hash algorithms: the sizes of [hash_algos] in [hash.c] *)

Definition GIT_HASH_UNKNOWN : Z := 0.
Definition GIT_HASH_SHA1 : Z := 1.
Definition GIT_HASH_SHA256 : Z := 2.
Definition GIT_HASH_NALGOS : Z := GIT_HASH_SHA256 + 1.
Definition GIT_MAX_RAWSZ : Z := 32.
Definition GIT_MAX_HEXSZ : Z := 2 * GIT_MAX_RAWSZ.

Record git_hash_algo := mkAlgo { format_id : Z; rawsz : Z; hexsz : Z; blksz : Z }.

Definition hash_algos : list git_hash_algo :=
  [ mkAlgo 0 0 0 0; mkAlgo 0x73686131 20 (2 * 20) 64; mkAlgo 0x73323536 32 (2 * 32) 64 ].

(** A [struct git_hash_algo *] that points into [hash_algos] is its index. *)
Definition algop (i : Z) : res git_hash_algo := rd hash_algos i.

(** The loops over [hash_algos]: the first index from [i] on that passes. *)
Definition algo_step (ok : git_hash_algo -> Z -> bool) (i : Z) : res (Z + Z) :=
  if i <? GIT_HASH_NALGOS then
    a ← algop i; if ok a i then Ok (inr i) else Ok (inl (i + 1))
  else Ok (inr GIT_HASH_UNKNOWN).

Definition hash_algo_by_id (id : Z) : res Z := loop 4 (algo_step (fun a _ => id =? format_id a)) 1.
Definition hash_algo_by_length (n : Z) : res Z := loop 4 (algo_step (fun a _ => n =? rawsz a)) 1.
Definition hash_algo_by_ptr (p : Z) : res Z := loop 4 (algo_step (fun _ i => p =? i)) 0.

Record object_id := mkOid { oid_hash : list Z; oid_algo : Z }.

Definition oid_set_algo (oid : object_id) (algo : Z) : res object_id :=
  i ← hash_algo_by_ptr algo; Ok (mkOid (oid_hash oid) i).

(** ** [hex.c] *)

(** The loop of [get_hash_hex_algop]: [hash] has advanced by [i], [hex] to [h]. *)
Definition get_hash_hex_step (hex : list Z) (n : Z) (s : list Z * Z * Z)
    : res (list Z * Z * Z + Z * list Z) :=
  let '(hash, i, h) := s in
  if i <? n then
    val ← hex2chr hex h;
    if val <? 0 then Ok (inr (-1, hash))
    else hash ← wr hash i (u8 val); Ok (inl (hash, i + 1, h + 2))
  else Ok (inr (0, hash)).

Definition get_hash_hex_algop (hex : list Z) (h : Z) (hash : list Z) (algo : Z)
    : res (Z * list Z) :=
  a ← algop algo;
  loop (S (Z.to_nat (rawsz a))) (get_hash_hex_step hex (rawsz a)) (hash, 0, h).

Definition get_oid_hex_algop (hex : list Z) (h : Z) (oid : object_id) (algo : Z)
    : res (Z * object_id) :=
  '(ret, hash) ← get_hash_hex_algop hex h (oid_hash oid) algo;
  let oid := mkOid hash (oid_algo oid) in
  if negb (tr ret) then
    oid ← oid_set_algo oid algo;
    a ← algop algo;
    if negb (rawsz a =? GIT_MAX_RAWSZ) then
      hash ← wr_slice (oid_hash oid) (rawsz a)
               (replicate (Z.to_nat (GIT_MAX_RAWSZ - rawsz a)) 0);
      Ok (ret, mkOid hash (oid_algo oid))
    else Ok (ret, oid)
  else Ok (ret, oid).

Definition get_oid_hex_any_step (hex : list Z) (h : Z) (s : object_id * Z)
    : res (object_id * Z + Z * object_id) :=
  let '(oid, i) := s in
  if 0 <? i then
    '(ret, oid) ← get_oid_hex_algop hex h oid i;
    if negb (tr ret) then Ok (inr (i, oid)) else Ok (inl (oid, i - 1))
  else Ok (inr (GIT_HASH_UNKNOWN, oid)).

Definition get_oid_hex_any (hex : list Z) (h : Z) (oid : object_id) : res (Z * object_id) :=
  loop (Z.to_nat GIT_HASH_NALGOS) (get_oid_hex_any_step hex h) (oid, GIT_HASH_NALGOS - 1).

(** [end_] is what [*end] points to before the call. *)
Definition parse_oid_hex_algop (hex : list Z) (h : Z) (oid : object_id) (end_ algo : Z)
    : res (Z * object_id * Z) :=
  '(ret, oid) ← get_oid_hex_algop hex h oid algo;
  if negb (tr ret) then a ← algop algo; Ok (ret, oid, h + hexsz a) else Ok (ret, oid, end_).

Definition parse_oid_hex_any (hex : list Z) (h : Z) (oid : object_id) (end_ : Z)
    : res (Z * object_id * Z) :=
  '(ret, oid) ← get_oid_hex_any hex h oid;
  if tr ret then a ← algop ret; Ok (ret, oid, h + hexsz a) else Ok (ret, oid, end_).

(** ["0123456789abcdef"]. *)
Definition hex_digits : list Z :=
  [48; 49; 50; 51; 52; 53; 54; 55; 56; 57; 97; 98; 99; 100; 101; 102; 0].

Definition to_hex_step (hash : list Z) (n : Z) (s : list Z * Z * Z)
    : res (list Z * Z * Z + list Z * Z) :=
  let '(buf, b, i) := s in
  if i <? n then
    val ← rd hash i;
    d ← rd hex_digits (val >>. 4); buf ← wr buf b d;
    d ← rd hex_digits (val &. 0xf); buf ← wr buf (b + 1) d;
    Ok (inl (buf, b + 2, i + 1))
  else Ok (inr (buf, b)).

Section Printing.
(** [the_hash_algo], as an index into [hash_algos]. *)
Context (the_hash_algo : Z).

Definition hash_to_hex_algop_r (buffer hash : list Z) (algo : Z) : res (list Z) :=
  let algo := if algo =? 0 then the_hash_algo else algo in
  a ← algop algo;
  '(buf, b) ← loop (S (Z.to_nat (rawsz a))) (to_hex_step hash (rawsz a)) (buffer, 0, 0);
  wr buf b 0.

Definition oid_to_hex_r (buffer : list Z) (oid : object_id) : res (list Z) :=
  hash_to_hex_algop_r buffer (oid_hash oid) (oid_algo oid).

(** The static [bufno] and [hexbuffer]. *)
Record hex_state := mkHex { bufno : Z; hexbuffer : list (list Z) }.

(** The result is a pointer to the buffer whose index is returned. *)
Definition hash_to_hex_algop (st : hex_state) (hash : list Z) (algo : Z) : res (Z * hex_state) :=
  let b := (bufno st + 1) `mod` 4 in
  buf ← rd (hexbuffer st) b;
  buf ← hash_to_hex_algop_r buf hash algo;
  bufs ← wr (hexbuffer st) b buf;
  Ok (b, mkHex b bufs).

Definition hash_to_hex (st : hex_state) (hash : list Z) : res (Z * hex_state) :=
  hash_to_hex_algop st hash the_hash_algo.

Definition oid_to_hex (st : hex_state) (oid : object_id) : res (Z * hex_state) :=
  hash_to_hex_algop st (oid_hash oid) (oid_algo oid).

Definition get_hash_hex (hex : list Z) (h : Z) (sha1 : list Z) : res (Z * list Z) :=
  get_hash_hex_algop hex h sha1 the_hash_algo.

Definition get_oid_hex (hex : list Z) (h : Z) (oid : object_id) : res (Z * object_id) :=
  get_oid_hex_algop hex h oid the_hash_algo.

Definition parse_oid_hex (hex : list Z) (h : Z) (oid : object_id) (end_ : Z)
    : res (Z * object_id * Z) :=
  parse_oid_hex_algop hex h oid end_ the_hash_algo.
End Printing.

(** ** Reference *)

Definition hexdigit (c : Z) : option Z :=
  if (48 <=? c) && (c <=? 57) then Some (c - 48)
  else if (65 <=? c) && (c <=? 70) then Some (c - 55)
  else if (97 <=? c) && (c <=? 102) then Some (c - 87)
  else None.

(** The bytes that the first [2 * n] digits of [s] stand for. *)
Fixpoint unhex (n : nat) (s : list Z) : option (list Z) :=
  match n, s with
  | O, _ => Some []
  | S n, a :: b :: s =>
      x ← hexdigit a; y ← hexdigit b; bs ← unhex n s; Some (x * 16 + y :: bs)
  | S _, _ => None
  end.

Definition digit (x : Z) : Z := if x <? 10 then 48 + x else 87 + x.
Definition tohex (bs : list Z) : list Z := b ← bs; [digit (b `div` 16); digit (b `mod` 16)].

(** ** Decoding *)

Lemma hexdigit_range c x : hexdigit c = Some x -> 0 <= x < 16 /\ c <> 0.
Proof.
  unfold hexdigit. repeat match goal with |- context [?a <=? ?b] => destruct (Z.leb_spec a b) end;
    simpl; intros [= <-]; lia.
Qed.

Lemma hexval_ok c : is_byte c ->
  hexval c = Ok (match hexdigit c with Some d => d | None => 2 ^ 32 - 1 end).
Proof.
  intros Hc. assert (match hexval c with
    | Ok v => v =? match hexdigit c with Some d => d | None => 2 ^ 32 - 1 end
    | Fault _ => false end = true) as Hb.
  { by apply (byte_forall (fun c => match hexval c with
      | Ok v => v =? match hexdigit c with Some d => d | None => 2 ^ 32 - 1 end
      | Fault _ => false end)). }
  destruct (hexval c); [|done]. apply Z.eqb_eq in Hb. by subst.
Qed.

Lemma low_nibble x : 0 <= x < 16 -> tr (x &. u32 (Z.lnot 0xf)) = false.
Proof.
  intros Hx. pose proof (byte_forall (fun x => (16 <=? x) || negb (tr (x &. u32 (Z.lnot 0xf)))) eq_refl x) as H.
  unfold is_byte in H. destruct (Z.leb_spec 16 x); [lia|]. destruct (tr _); [|done].
  simpl in H. discriminate H; lia.
Qed.

Lemma nibbles x y : 0 <= x < 16 -> 0 <= y < 16 -> u32 (x <<. 4) |. y = x * 16 + y.
Proof.
  intros Hx Hy. rewrite u32_small by (rewrite Z.shiftl_mul_pow2; lia).
  rewrite lor_shiftl_add by lia. done.
Qed.

Lemma lor_all_ones x : u32 x |. (2 ^ 32 - 1) = 2 ^ 32 - 1.
Proof. change (2 ^ 32 - 1) with (Z.ones 32). unfold u32. bitsolve. Qed.

(** [hex2chr] looks at the second character only behind a digit. *)
Lemma hex2chr_ok s i c : rd s i = Ok c -> is_byte c ->
  (hexdigit c <> None -> exists d, rd s (i + 1) = Ok d /\ is_byte d) ->
  hex2chr s i = Ok (match hexdigit c with
                    | Some x => match rd s (i + 1) with
                                | Ok d => match hexdigit d with Some y => x * 16 + y | None => -1 end
                                | Fault _ => -1 end
                    | None => -1 end).
Proof.
  intros Hc Hb Hnext. unfold hex2chr. rewrite Hc. cbn [mbind res_bind]. rewrite hexval_ok by done.
  cbn [mbind res_bind]. destruct (hexdigit c) as [x|] eqn:Ex; [|done].
  destruct (hexdigit_range _ _ Ex) as [Hx _]. rewrite low_nibble by done.
  destruct (Hnext ltac:(done)) as (d & -> & Hd). cbn [mbind res_bind]. rewrite hexval_ok by done.
  cbn [mbind res_bind]. destruct (hexdigit d) as [y|] eqn:Ey.
  - destruct (hexdigit_range _ _ Ey) as [Hy _]. rewrite nibbles by done. unfold s32.
    destruct (Z.ltb_spec (x * 16 + y) (2 ^ 31)); [done|lia].
  - by rewrite lor_all_ones.
Qed.

(** There is a NUL at or behind [h]. *)
Definition nul_from (hex : list Z) (h : Z) : Prop :=
  exists k, h <= k < len hex /\ hex !! Z.to_nat k = Some 0.

Lemma nul_from_next hex h c : 0 <= h -> nul_from hex h -> hex !! Z.to_nat h = Some c -> c <> 0 ->
  nul_from hex (h + 1).
Proof.
  intros Hh (k & Hk & E) Hc Hne. exists k. split; [|done].
  destruct (decide (k = h)) as [->|]; [congruence|lia].
Qed.

Lemma nul_from_lookup hex h : 0 <= h -> nul_from hex h -> is_bytes hex ->
  exists c, hex !! Z.to_nat h = Some c /\ is_byte c /\ rd hex h = Ok c /\
    drop (Z.to_nat h) hex = c :: drop (Z.to_nat (h + 1)) hex.
Proof.
  intros Hh (k & Hk & _) Hb. destruct (lookup_lt_is_Some_2 hex (Z.to_nat h)) as [c Hc]; [llia|].
  exists c. split_and!; [done|by eapply is_byte_lookup|by apply rd_Some|].
  rewrite (drop_S _ _ _ Hc). do 2 f_equal. lia.
Qed.

(** There is a byte that is no digit at or behind [h]. *)
Definition nondigit_from (hex : list Z) (h : Z) : Prop :=
  exists k c, h <= k < len hex /\ hex !! Z.to_nat k = Some c /\ hexdigit c = None.

Lemma nul_nondigit hex h : nul_from hex h -> nondigit_from hex h.
Proof. intros (k & Hk & E). by exists k, 0. Qed.

Lemma nondigit_next hex h c : 0 <= h -> nondigit_from hex h -> hex !! Z.to_nat h = Some c -> hexdigit c <> None ->
  nondigit_from hex (h + 1).
Proof.
  intros Hh (k & d & Hk & E & Hd) Hc Hne. exists k, d. split; [|done].
  destruct (decide (k = h)) as [->|]; [congruence|lia].
Qed.

Lemma nondigit_lookup hex h : 0 <= h -> nondigit_from hex h -> is_bytes hex ->
  exists c, hex !! Z.to_nat h = Some c /\ is_byte c /\ rd hex h = Ok c /\
    drop (Z.to_nat h) hex = c :: drop (Z.to_nat (h + 1)) hex.
Proof.
  intros Hh (k & d & Hk & _) Hb. destruct (lookup_lt_is_Some_2 hex (Z.to_nat h)) as [c Hc]; [llia|].
  exists c. split_and!; [done|by eapply is_byte_lookup|by apply rd_Some|].
  rewrite (drop_S _ _ _ Hc). do 2 f_equal. lia.
Qed.

Lemma get_hash_hex_loop hex n k : forall fuel i h hash,
  is_bytes hex -> 0 <= i -> 0 <= h -> nondigit_from hex h -> i + Z.of_nat k = n -> n <= len hash ->
  (k < fuel)%nat ->
  match unhex k (drop (Z.to_nat h) hex) with
  | Some bs => loop fuel (get_hash_hex_step hex n) (hash, i, h) =
               Ok (0, take (Z.to_nat i) hash ++ bs ++ drop (Z.to_nat n) hash)
  | None => exists hash', loop fuel (get_hash_hex_step hex n) (hash, i, h) = Ok (-1, hash') /\
              len hash' = len hash
  end.
Proof.
  induction k as [|k IH]; intros fuel i h hash Hb Hi Hh Hnul Hik Hl Hf;
    (destruct fuel as [|fuel]; [lia|]); cbn [unhex];
    remember (loop (S fuel) _ _) as R eqn:HR; cbn [loop] in HR; unfold get_hash_hex_step at 1 in HR.
  - destruct (Z.ltb_spec i n); [lia|]. replace n with i by lia. cbn [app]. by rewrite take_drop.
  - destruct (nondigit_lookup hex h Hh Hnul Hb) as (c & Hc & Hcb & Hrc & ->).
    destruct (Z.ltb_spec i n); [|lia].
    destruct (hexdigit c) as [x|] eqn:Ex.
    2:{ rewrite (hex2chr_ok _ _ c Hrc Hcb), Ex in HR by (rewrite Ex; by intros []).
        destruct (drop _ hex); by exists hash. }
    destruct (hexdigit_range _ _ Ex) as [Hx Hc0].
    pose proof (nondigit_next _ _ _ Hh Hnul Hc ltac:(by rewrite Ex)) as Hnul1.
    destruct (nondigit_lookup hex (h + 1) ltac:(lia) Hnul1 Hb) as (d & Hd & Hdb & Hrd & ->).
    rewrite (hex2chr_ok _ _ c Hrc Hcb), Ex, Hrd in HR by eauto. cbn [mbind res_bind] in HR.
    cbn [mbind option_bind]. destruct (hexdigit d) as [y|] eqn:Ey; [|by exists hash].
    destruct (hexdigit_range _ _ Ey) as [Hy Hd0]. cbn [mbind option_bind].
    destruct (Z.ltb_spec (x * 16 + y) 0); [lia|].
    rewrite wr_ok in HR by lia. cbn [mbind res_bind] in HR. rewrite u8_small in HR by (unfold is_byte; lia).
    pose proof (nondigit_next hex (h + 1) d ltac:(lia) Hnul1 Hd ltac:(by rewrite Ey)) as Hnul2.
    replace (h + 1 + 1) with (h + 2) in * by lia.
    specialize (IH fuel (i + 1) (h + 2) (<[Z.to_nat i := x * 16 + y]> hash) Hb ltac:(lia) ltac:(lia)
      Hnul2 ltac:(lia) ltac:(rewrite len_insert; lia) ltac:(lia)).
    rewrite <- HR in IH. clear HR. destruct (unhex k (drop (Z.to_nat (h + 2)) hex)) as [bs|].
    + cbn [mbind option_bind]. rewrite IH. replace (Z.to_nat (i + 1)) with (S (Z.to_nat i)) by lia.
      rewrite (take_S_r _ _ (x * 16 + y)) by (apply list_lookup_insert_eq; llia).
      rewrite take_insert_ge, drop_insert_lt by lia. by rewrite <- app_assoc.
    + destruct IH as (hash' & -> & Hl'). exists hash'. by rewrite len_insert in Hl'.
Qed.

Lemma unhex_length n s bs : unhex n s = Some bs -> length bs = n.
Proof.
  revert s bs. induction n as [|n IH]; intros s bs; simpl; [by intros [= <-]|].
  destruct s as [|a [|b s]]; [done|done|].
  destruct (hexdigit a), (hexdigit b); try done; simpl.
  destruct (unhex n s) eqn:E; [|done]. intros [= <-]. simpl. f_equal. by eapply IH.
Qed.

(** The algorithms that have names to parse. *)
Definition algo_rawsz (algo : Z) : Z := if algo =? 1 then 20 else 32.

Lemma algop_ok algo : algo = 1 \/ algo = 2 ->
  exists f, algop algo = Ok (mkAlgo f (algo_rawsz algo) (2 * algo_rawsz algo) 64) /\
    hash_algo_by_ptr algo = Ok algo /\ algo_rawsz algo <= 32.
Proof. intros [-> | ->]; eexists; done. Qed.

Lemma get_oid_hex_algop_gen hex h oid algo :
  is_bytes hex -> 0 <= h -> nondigit_from hex h -> len (oid_hash oid) = 32 -> algo = 1 \/ algo = 2 ->
  match unhex (Z.to_nat (algo_rawsz algo)) (drop (Z.to_nat h) hex) with
  | Some bs => get_oid_hex_algop hex h oid algo =
      Ok (0, mkOid (bs ++ replicate (Z.to_nat (32 - algo_rawsz algo)) 0) algo)
  | None => exists hash', get_oid_hex_algop hex h oid algo = Ok (-1, mkOid hash' (oid_algo oid)) /\
              len hash' = 32
  end.
Proof.
  intros Hb Hh Hnul Hl Halgo. destruct (algop_ok algo Halgo) as (f & Ea & Ep & Hr).
  unfold get_oid_hex_algop, get_hash_hex_algop. rewrite Ea. cbn [mbind res_bind rawsz].
  assert (0 <= algo_rawsz algo) as Hr0 by (destruct Halgo as [-> | ->]; done).
  pose proof (get_hash_hex_loop hex (algo_rawsz algo) (Z.to_nat (algo_rawsz algo))
    (S (Z.to_nat (algo_rawsz algo))) 0 h (oid_hash oid) Hb ltac:(lia) Hh Hnul ltac:(lia) ltac:(lia) ltac:(lia)) as Hloop.
  destruct (unhex _ _) as [bs|] eqn:Eu.
  - change (take (Z.to_nat 0) _ ++ ?x) with x in Hloop.
    rewrite Hloop. cbn [mbind res_bind]. unfold oid_set_algo. rewrite Ep.
    cbn [mbind res_bind oid_hash oid_algo rawsz tr Z.eqb negb].
    pose proof (unhex_length _ _ _ Eu) as Hbs. destruct Halgo as [-> | ->].
    + change (algo_rawsz 1) with 20 in *. change (negb (20 =? GIT_MAX_RAWSZ)) with true. cbv iota.
      unfold len in Hl. rewrite wr_slice_ok; [|done|].
      2:{ rewrite len_app. unfold len. rewrite length_drop, length_replicate. unfold GIT_MAX_RAWSZ. lia. }
      cbn [mbind res_bind]. rewrite take_app_length' by done. rewrite (drop_ge (_ ++ _)), app_nil_r.
      2:{ rewrite length_app, length_drop, length_replicate. unfold GIT_MAX_RAWSZ. lia. }
      done.
    + change (algo_rawsz 2) with 32 in *. simpl (negb (32 =? GIT_MAX_RAWSZ)). cbv iota.
      rewrite drop_ge by llia. done.
  - destruct Hloop as (hash' & -> & Hl'). cbn [mbind res_bind]. exists hash'. split; [done|lia].
Qed.

Lemma get_oid_hex_algop_spec hex h oid algo :
  is_bytes hex -> 0 <= h -> nul_from hex h -> len (oid_hash oid) = 32 -> algo = 1 \/ algo = 2 ->
  match unhex (Z.to_nat (algo_rawsz algo)) (drop (Z.to_nat h) hex) with
  | Some bs => get_oid_hex_algop hex h oid algo =
      Ok (0, mkOid (bs ++ replicate (Z.to_nat (32 - algo_rawsz algo)) 0) algo)
  | None => exists hash', get_oid_hex_algop hex h oid algo = Ok (-1, mkOid hash' (oid_algo oid)) /\
              len hash' = 32
  end.
Proof. intros Hb Hh Hnul. apply get_oid_hex_algop_gen; [done|done|by apply nul_nondigit]. Qed.

(** ** Printing *)

Lemma digit_hexdigit x : 0 <= x < 16 -> hexdigit (digit x) = Some x.
Proof.
  intros Hx. unfold digit, hexdigit. cases_Z; simpl; try lia; f_equal; lia.
Qed.

Lemma hex_digits_ok x : 0 <= x < 16 -> rd hex_digits x = Ok (digit x).
Proof.
  intros Hx. pose proof (byte_forall (fun x => (16 <=? x) ||
    match rd hex_digits x with Ok d => d =? digit x | Fault _ => false end) eq_refl x) as H.
  unfold is_byte in H. specialize (H ltac:(lia)). destruct (Z.leb_spec 16 x); [lia|].
  simpl in H. destruct (rd hex_digits x); [|done]. apply Z.eqb_eq in H. by subst.
Qed.

Lemma tohex_cons b bs : tohex (b :: bs) = digit (b `div` 16) :: digit (b `mod` 16) :: tohex bs.
Proof. done. Qed.

Lemma tohex_length bs : length (tohex bs) = (2 * length bs)%nat.
Proof. induction bs as [|b bs IH]; [done|]. rewrite tohex_cons. simpl. lia. Qed.

Lemma tohex_app bs cs : tohex (bs ++ cs) = tohex bs ++ tohex cs.
Proof. apply bind_app. Qed.

Lemma hex_digit_byte x : 0 <= x < 16 -> is_byte (digit x).
Proof. unfold digit, is_byte. intros. cases_Z; lia. Qed.

Lemma tohex_bytes bs : is_bytes bs -> is_bytes (tohex bs).
Proof.
  induction 1 as [|b bs Hb _ IH]; [constructor|]. rewrite tohex_cons. unfold is_byte in Hb.
  repeat constructor; try done; apply hex_digit_byte; dlia.
Qed.

Lemma unhex_tohex bs rest : is_bytes bs -> unhex (length bs) (tohex bs ++ rest) = Some bs.
Proof.
  induction 1 as [|b bs Hb _ IH]; [done|]. rewrite tohex_cons. cbn [length app unhex].
  unfold is_byte in Hb. rewrite !digit_hexdigit by dlia. cbn [mbind option_bind]. rewrite IH.
  cbn [mbind option_bind]. do 2 f_equal. dlia.
Qed.

(** A name that ends too early is refused. *)
Lemma unhex_short n bs rest : is_bytes bs -> (length bs < n)%nat ->
  unhex n (tohex bs ++ 0 :: rest) = None.
Proof.
  revert n. induction bs as [|b bs IH]; intros n Hb Hn; (destruct n as [|n]; [simpl in Hn; lia|]).
  - by destruct rest.
  - apply Forall_cons in Hb as [Hb Hbs]. unfold is_byte in Hb. rewrite tohex_cons. cbn [app unhex].
    rewrite !digit_hexdigit by dlia. cbn [mbind option_bind].
    rewrite IH; [done|done|simpl in Hn; lia].
Qed.

Lemma to_hex_loop hash n k : forall fuel buf i,
  is_bytes hash -> 0 <= i -> i + Z.of_nat k = n -> n <= len hash -> 2 * n <= len buf -> (k < fuel)%nat ->
  loop fuel (to_hex_step hash n) (buf, 2 * i, i) =
  Ok (take (Z.to_nat (2 * i)) buf ++ tohex (slice hash i (Z.of_nat k)) ++ drop (Z.to_nat (2 * n)) buf, 2 * n).
Proof.
  induction k as [|k IH]; intros fuel buf i Hb Hi Hik Hl Hbuf Hf;
    (destruct fuel as [|fuel]; [lia|]); cbn [loop]; unfold to_hex_step at 1.
  - destruct (Z.ltb_spec i n); [lia|]. replace n with i by lia.
    change (slice hash i (Z.of_nat 0)) with (@nil Z). cbn [tohex mbind list_bind app].
    by rewrite take_drop.
  - destruct (Z.ltb_spec i n); [|lia].
    destruct (lookup_lt_is_Some_2 hash (Z.to_nat i)) as [v Hv]; [llia|].
    pose proof (is_byte_lookup _ _ _ Hb Hv) as Hvb. unfold is_byte in Hvb.
    rewrite (rd_Some _ _ v) by (done || lia). cbn [mbind res_bind].
    rewrite Z.shiftr_div_pow2, (land_mask v 15 4) by done. change (2 ^ 4) with 16.
    rewrite !hex_digits_ok by dlia. cbn [mbind res_bind]. rewrite wr_ok by lia. cbn [mbind res_bind].
    rewrite wr_ok by (rewrite len_insert; lia). cbn [mbind res_bind].
    replace (2 * i + 2) with (2 * (i + 1)) by lia.
    rewrite IH by (rewrite ?len_insert; done || lia). f_equal. f_equal.
    assert (slice hash i (Z.of_nat (S k)) = v :: slice hash (i + 1) (Z.of_nat k)) as ->.
    { unfold slice. rewrite (drop_S _ _ _ Hv). replace (Z.to_nat (i + 1)) with (S (Z.to_nat i)) by lia.
      replace (Z.to_nat (Z.of_nat (S k))) with (S (Z.to_nat (Z.of_nat k))) by lia. done. }
    rewrite tohex_cons. rewrite !drop_insert_lt by lia.
    replace (Z.to_nat (2 * (i + 1))) with (S (S (Z.to_nat (2 * i)))) by lia.
    replace (Z.to_nat (2 * i + 1)) with (S (Z.to_nat (2 * i))) by lia.
    rewrite (take_S_r _ _ (digit (v `mod` 16))) by (apply list_lookup_insert_eq; rewrite length_insert; llia).
    rewrite take_insert_ge by lia.
    rewrite (take_S_r _ _ (digit (v `div` 16))) by (apply list_lookup_insert_eq; llia).
    rewrite take_insert_ge by lia. by rewrite <- !app_assoc.
Qed.

(** Printing fills [2 * rawsz + 1] bytes of the buffer. *)
Lemma hash_to_hex_algop_r_spec tha buffer hash algo :
  is_bytes hash -> algo = 1 \/ algo = 2 -> algo_rawsz algo <= len hash ->
  2 * algo_rawsz algo + 1 <= len buffer ->
  hash_to_hex_algop_r tha buffer hash algo =
  Ok (tohex (slice hash 0 (algo_rawsz algo)) ++ 0 :: drop (Z.to_nat (2 * algo_rawsz algo + 1)) buffer).
Proof.
  intros Hb Halgo Hl Hbuf. destruct (algop_ok algo Halgo) as (f & Ea & Ep & Hr).
  unfold hash_to_hex_algop_r.
  replace (algo =? 0) with false by (symmetry; apply Z.eqb_neq; lia).
  rewrite Ea. cbn [mbind res_bind rawsz].
  assert (0 <= algo_rawsz algo) as Hr0 by (destruct Halgo as [-> | ->]; done).
  pose proof (to_hex_loop hash (algo_rawsz algo) (Z.to_nat (algo_rawsz algo))
    (S (Z.to_nat (algo_rawsz algo))) buffer 0 Hb ltac:(lia) ltac:(lia) ltac:(lia) ltac:(lia) ltac:(lia)) as Hloop.
  change (2 * 0) with 0 in Hloop. rewrite Hloop.
  cbn [mbind res_bind]. change (take (Z.to_nat 0) buffer ++ ?x) with x.
  rewrite Z2Nat.id by lia. set (t := tohex _).
  assert (length t = Z.to_nat (2 * algo_rawsz algo)) as Ht.
  { unfold t. rewrite tohex_length. pose proof (len_slice hash 0 (algo_rawsz algo)). llia. }
  rewrite wr_ok by (rewrite len_app; unfold len in *; rewrite length_drop; lia).
  f_equal. rewrite <- Ht, <- (Nat.add_0_r (length t)), insert_app_r, (Nat.add_0_r (length t)), Ht.
  destruct (drop _ buffer) as [|x r] eqn:E.
  { apply (f_equal length) in E. rewrite length_drop in E. simpl in E. llia. }
  simpl. do 2 f_equal. replace (Z.to_nat (2 * algo_rawsz algo + 1)) with (Z.to_nat (2 * algo_rawsz algo) + 1)%nat by lia.
  by rewrite <- drop_drop, E.
Qed.

Lemma get_oid_hex_any_spec hex h oid :
  is_bytes hex -> 0 <= h -> nul_from hex h -> len (oid_hash oid) = 32 ->
  match unhex 32 (drop (Z.to_nat h) hex), unhex 20 (drop (Z.to_nat h) hex) with
  | Some bs, _ => get_oid_hex_any hex h oid = Ok (2, mkOid bs 2)
  | None, Some bs => get_oid_hex_any hex h oid = Ok (1, mkOid (bs ++ replicate 12 0) 1)
  | None, None => exists oid', get_oid_hex_any hex h oid = Ok (0, oid')
  end.
Proof.
  intros Hb Hh Hnul Hl. unfold get_oid_hex_any. change (Z.to_nat GIT_HASH_NALGOS) with 3%nat.
  pose proof (get_oid_hex_algop_spec hex h oid 2 Hb Hh Hnul Hl ltac:(auto)) as H2.
  cbn [loop get_oid_hex_any_step]. change (0 <? GIT_HASH_NALGOS - 1) with true.
  change (GIT_HASH_NALGOS - 1) with 2. cbv iota. change (Z.to_nat (algo_rawsz 2)) with 32%nat in H2.
  destruct (unhex 32 _) as [bs|].
  { rewrite H2. cbn [mbind res_bind]. change (Z.to_nat (32 - algo_rawsz 2)) with 0%nat. simpl. by rewrite app_nil_r. }
  destruct H2 as (hash2 & -> & Hl2). cbn [mbind res_bind]. change (tr (-1)) with true.
  cbn [negb get_oid_hex_any_step]. change (0 <? 2 - 1) with true. change (2 - 1) with 1. cbv iota.
  pose proof (get_oid_hex_algop_spec hex h (mkOid hash2 (oid_algo oid)) 1 Hb Hh Hnul Hl2 ltac:(auto)) as H1.
  change (Z.to_nat (algo_rawsz 1)) with 20%nat in H1.
  destruct (unhex 20 _) as [bs|]; [by rewrite H1|].
  destruct H1 as (hash1 & -> & Hl1). by eexists.
Qed.

(** An object name as Git keeps them: unused bytes are zero. *)
Record oid_ok (oid : object_id) : Prop := {
  oo_algo : oid_algo oid = 1 \/ oid_algo oid = 2;
  oo_bytes : is_bytes (oid_hash oid);
  oo_len : len (oid_hash oid) = GIT_MAX_RAWSZ;
  oo_hash : oid_hash oid = slice (oid_hash oid) 0 (algo_rawsz (oid_algo oid)) ++
              replicate (Z.to_nat (32 - algo_rawsz (oid_algo oid))) 0;
}.

(** C8: [get_oid_hex_algop] accepts exactly the strings that start with
    [hexsz] hexadecimal digits, of either case, and returns the object name they
    stand for, with the unused bytes cleared.  On a NUL-terminated string it never
    reads behind the NUL, however short the string is. *)
Theorem get_oid_hex_exact hex h oid algo :
  is_bytes hex -> 0 <= h -> nul_from hex h -> len (oid_hash oid) = 32 -> algo = 1 \/ algo = 2 ->
  match unhex (Z.to_nat (algo_rawsz algo)) (drop (Z.to_nat h) hex) with
  | Some bs => get_oid_hex_algop hex h oid algo =
      Ok (0, mkOid (bs ++ replicate (Z.to_nat (32 - algo_rawsz algo)) 0) algo)
  | None => exists hash', get_oid_hex_algop hex h oid algo = Ok (-1, mkOid hash' (oid_algo oid)) /\
              len hash' = 32
  end.
Proof. apply get_oid_hex_algop_spec. Qed.

Lemma get_oid_hex_exact_witness :
  exists hash', get_oid_hex_algop [65; 98; 0] 0 (mkOid (replicate 32 9) 0) 1 = Ok (-1, mkOid hash' 0) /\
    len hash' = 32.
Proof.
  apply (get_oid_hex_exact [65; 98; 0] 0 (mkOid (replicate 32 9) 0) 1).
  - repeat constructor; unfold is_byte; lia.
  - done.
  - by exists 2.
  - done.
  - by left.
Defined.

(** Printing an object name and parsing the text without knowing the
    algorithm gives the name back, and the end pointer behind its last digit; the
    printer stays inside a buffer of [GIT_MAX_HEXSZ + 1] bytes. *)
Theorem oid_hex_roundtrip tha buffer oid oid0 e :
  oid_ok oid -> is_bytes buffer -> GIT_MAX_HEXSZ + 1 <= len buffer -> len (oid_hash oid0) = 32 ->
  total (oid_to_hex_r tha buffer oid) (fun text =>
    len text = len buffer /\
    parse_oid_hex_any text 0 oid0 e = Ok (oid_algo oid, oid, 2 * algo_rawsz (oid_algo oid))).
Proof.
  intros [Ha Hb Hlh Hh] Hbuf Hl Hl0. unfold oid_to_hex_r. unfold GIT_MAX_HEXSZ, GIT_MAX_RAWSZ in Hl.
  destruct oid as [hash algo]. cbn [oid_hash oid_algo] in *.
  assert (0 <= algo_rawsz algo <= 32) as Hr by (destruct Ha as [-> | ->]; done).
  unfold GIT_MAX_RAWSZ in Hlh.
  assert (length (slice hash 0 (algo_rawsz algo)) = Z.to_nat (algo_rawsz algo)) as Hs.
  { pose proof (len_slice hash 0 (algo_rawsz algo)). llia. }
  rewrite hash_to_hex_algop_r_spec by (done || lia). apply wp_ret.
  set (bs := slice hash 0 (algo_rawsz algo)) in *. set (text := tohex bs ++ 0 :: _).
  assert (is_bytes bs) as Hbs by (by apply Forall_take).
  split.
  { unfold text. rewrite len_app, len_cons. unfold len. rewrite tohex_length, length_drop. llia. }
  assert (is_bytes text) as Htb.
  { apply Forall_app_2; [by apply tohex_bytes|]. constructor; [done|by apply Forall_drop]. }
  assert (nul_from text 0) as Hnul.
  { exists (2 * algo_rawsz algo). unfold text. rewrite len_app, len_cons. unfold len. rewrite tohex_length.
    split; [lia|]. rewrite lookup_app_r by (rewrite tohex_length; lia).
    rewrite tohex_length. replace (_ - _)%nat with 0%nat by lia. done. }
  pose proof (get_oid_hex_any_spec text 0 oid0 Htb ltac:(lia) Hnul Hl0) as Hany.
  change (drop (Z.to_nat 0) text) with text in Hany. unfold parse_oid_hex_any.
  assert (unhex (length bs) text = Some bs) as Eu by (by apply unhex_tohex).
  rewrite Hs in Eu. destruct Ha as [-> | ->].
  - assert (unhex 32 text = None) as En by (apply unhex_short; [done|rewrite Hs; change (algo_rawsz 1) with 20; lia]).
    rewrite En in Hany. change (Z.to_nat (algo_rawsz 1)) with 20%nat in Eu. rewrite Eu in Hany. rewrite Hany, Hh. done.
  - change (Z.to_nat (algo_rawsz 2)) with 32%nat in Eu. rewrite Eu in Hany. rewrite Hany.
    rewrite Hh. by rewrite app_nil_r.
Qed.

Lemma oid_hex_roundtrip_witness :
  let oid := mkOid (replicate 20 171 ++ replicate 12 0) 1 in
  total (oid_to_hex_r 1 (replicate 65 7) oid) (fun text =>
    len text = len (replicate 65 7) /\
    parse_oid_hex_any text 0 (mkOid (replicate 32 0) 0) 0 = Ok (1, oid, 40)).
Proof.
  apply (oid_hex_roundtrip 1 (replicate 65 7) (mkOid (replicate 20 171 ++ replicate 12 0) 1)).
  - split; [by left| |done|done]. apply Forall_app_2; by apply Forall_replicate.
  - by apply Forall_replicate.
  - done.
  - done.
Defined.

(** ** The static buffers *)

Fixpoint hex_calls (tha : Z) (st : hex_state) (cs : list (list Z * Z)) : res hex_state :=
  match cs with
  | [] => Ok st
  | (hash, algo) :: cs => '(_, st) ← hash_to_hex_algop tha st hash algo; hex_calls tha st cs
  end.

Record hex_state_ok (st : hex_state) : Prop := {
  hs_bufno : 0 <= bufno st < 4;
  hs_bufs : length (hexbuffer st) = 4%nat;
  hs_len : Forall (fun b => len b = GIT_MAX_HEXSZ + 1) (hexbuffer st);
}.

Definition call_ok (c : list Z * Z) : Prop :=
  is_bytes c.1 /\ (c.2 = 1 \/ c.2 = 2) /\ algo_rawsz c.2 <= len c.1.

Lemma hash_to_hex_algop_spec tha st hash algo : hex_state_ok st -> call_ok (hash, algo) ->
  exists buf, hash_to_hex_algop tha st hash algo =
    Ok ((bufno st + 1) `mod` 4,
        mkHex ((bufno st + 1) `mod` 4) (<[Z.to_nat ((bufno st + 1) `mod` 4) := buf]> (hexbuffer st))) /\
    take (Z.to_nat (2 * algo_rawsz algo + 1)) buf = tohex (slice hash 0 (algo_rawsz algo)) ++ [0] /\
    len buf = GIT_MAX_HEXSZ + 1.
Proof.
  intros [Hn Hbl Hlen] (Hb & Ha & Hl). cbn [fst snd] in *. unfold hash_to_hex_algop.
  set (b := (bufno st + 1) `mod` 4). assert (0 <= b < 4) as Hb4 by (unfold b; dlia).
  destruct (lookup_lt_is_Some_2 (hexbuffer st) (Z.to_nat b)) as [old Hold]; [lia|].
  rewrite (rd_Some _ _ old) by (done || lia). cbn [mbind res_bind].
  pose proof (Forall_lookup_1 _ _ _ _ Hlen Hold) as Hol. cbn beta in Hol. unfold GIT_MAX_HEXSZ, GIT_MAX_RAWSZ in *.
  assert (0 <= algo_rawsz algo <= 32) as Hr by (destruct Ha as [-> | ->]; done).
  rewrite hash_to_hex_algop_r_spec by (done || lia). cbn [mbind res_bind].
  rewrite wr_ok by llia. cbn [mbind res_bind]. eexists. split; [done|].
  assert (length (tohex (slice hash 0 (algo_rawsz algo))) = Z.to_nat (2 * algo_rawsz algo)) as Ht.
  { rewrite tohex_length. pose proof (len_slice hash 0 (algo_rawsz algo)). llia. }
  split.
  - rewrite take_app_ge, Ht by lia.
    replace (_ - _)%nat with 1%nat by lia. done.
  - rewrite len_app, len_cons. unfold len in *. rewrite Ht, length_drop. lia.
Qed.

Lemma hex_calls_keep tha cs : forall st d b, hex_state_ok st -> Forall call_ok cs ->
  0 <= b < 4 -> (b + d) `mod` 4 = bufno st -> 0 <= d -> d + len cs < 4 ->
  total (hex_calls tha st cs) (fun st' => rd (hexbuffer st') b = rd (hexbuffer st) b).
Proof.
  induction cs as [|[hash algo] cs IH]; intros st d b Hst Hcs Hb Hd Hd0 Hlt; [done|].
  apply Forall_cons in Hcs as [Hc Hcs]. rewrite len_cons in Hlt. pose proof (len_nonneg cs).
  cbn [hex_calls]. destruct (hash_to_hex_algop_spec tha st hash algo Hst Hc) as (buf & -> & _ & Hbl).
  cbn [mbind res_bind]. destruct Hst as [Hn Hl Hlen].
  set (b' := (bufno st + 1) `mod` 4).
  eapply wp_mono; [apply (IH _ (d + 1) b); cbn [bufno hexbuffer]; try done; try lia|].
  - constructor; cbn [bufno hexbuffer]; [unfold b'; dlia|by rewrite length_insert|].
    by apply Forall_insert.
  - unfold b'. rewrite <- Hd. dlia.
  - cbn [hexbuffer]. intros st' ->. unfold rd. destruct (Z.ltb_spec b 0); [done|].
    rewrite list_lookup_insert_ne; [done|]. assert (b <> b'); [|unfold b' in *; dlia].
    unfold b'. rewrite <- Hd. dlia.
Qed.

(** [hash_to_hex_algop] returns one of four static buffers, and the text in
    it survives the next three calls, whatever they print. *)
Theorem hash_to_hex_survives tha st hash algo cs :
  hex_state_ok st -> call_ok (hash, algo) -> Forall call_ok cs -> len cs <= 3 ->
  total ('(b, st) ← hash_to_hex_algop tha st hash algo; st ← hex_calls tha st cs; rd (hexbuffer st) b)
    (fun text => take (Z.to_nat (2 * algo_rawsz algo + 1)) text =
                 tohex (slice hash 0 (algo_rawsz algo)) ++ [0]).
Proof.
  intros Hst Hc Hcs Hl. destruct (hash_to_hex_algop_spec tha st hash algo Hst Hc) as (buf & -> & Ht & Hbl).
  cbn [mbind res_bind]. destruct Hst as [Hn Hbs Hlen]. set (b := (bufno st + 1) `mod` 4).
  assert (0 <= b < 4) as Hb by (unfold b; dlia). apply wp_bind.
  eapply wp_mono; [apply (hex_calls_keep tha cs _ 0 b); cbn [bufno hexbuffer]; try done; try lia|].
  - constructor; cbn [bufno hexbuffer]; [done|by rewrite length_insert|by apply Forall_insert].
  - rewrite Z.add_0_r. unfold b. dlia.
  - cbn [hexbuffer]. intros st' ->. rewrite (rd_Some _ _ buf); [done|lia|].
    apply list_lookup_insert_eq. lia.
Qed.

Lemma hash_to_hex_survives_witness :
  let st := mkHex 3 (replicate 4 (replicate 65 0)) in
  total ('(b, st) ← hash_to_hex_algop 1 st (replicate 20 1) 1;
         st ← hex_calls 1 st (replicate 3 (replicate 32 2, 2)); rd (hexbuffer st) b)
    (fun text => take 41 text = tohex (slice (replicate 20 1) 0 20) ++ [0]).
Proof.
  apply (hash_to_hex_survives 1 (mkHex 3 (replicate 4 (replicate 65 0))) (replicate 20 1) 1).
  - split; [done|done|by apply Forall_replicate].
  - split; [by apply Forall_replicate|]. split; [by left|done].
  - apply Forall_replicate. split; [by apply Forall_replicate|]. split; [by right|done].
  - done.
Defined.
