(* ===== verification/Base85.v ===== *)
(** * Base-85 text of binary patches: [base85.c]

    The alphabet, its lazily built inverse, [decode_85] and [encode_85], with
    their pointers as offsets into the buffers.  The theorems: [decode_85] on any
    NUL-terminated text stays inside its buffers and accepts exactly the groups
    of five digits whose value fits 32 bits, and it inverts [encode_85]. *)

From stdpp Require Import prelude numbers list.
From S2P Require Import Prelude Bswap Hex.

Definition en85 : list Z :=
  [ 48; 49; 50; 51; 52; 53; 54; 55; 56; 57; 65; 66; 67; 68; 69; 70; 71;
    72; 73; 74; 75; 76; 77; 78; 79; 80; 81; 82; 83; 84; 85; 86; 87; 88;
    89; 90; 97; 98; 99; 100; 101; 102; 103; 104; 105; 106; 107; 108; 109; 110; 111;
    112; 113; 114; 115; 116; 117; 118; 119; 120; 121; 122; 33; 35; 36; 37; 38; 40;
    41; 42; 43; 45; 59; 60; 61; 62; 63; 64; 94; 95; 96; 123; 124; 125; 126 ].

(** The loop of [prep_base85] from [i] on. *)
Definition prep_step (s : list Z * Z) : res (list Z * Z + list Z) :=
  let '(de85, i) := s in
  if i <? len en85 then
    ch ← rd en85 i; de85 ← wr de85 ch (i + 1); Ok (inl (de85, i + 1))
  else Ok (inr de85).

(** [static char de85[256]] is the state. *)
Definition prep_base85 (de85 : list Z) : res (list Z) :=
  z ← rd de85 90;
  if tr z then Ok de85 else loop 86 prep_step (de85, 0).

(** [ch = *buffer++; de = de85[ch]; if (--de < 0)]: [None] is the error. *)
Definition de_char (de85 buffer : list Z) (b : Z) : res (option Z) :=
  ch ← rd buffer b; de ← rd de85 ch;
  let de := de - 1 in
  if de <? 0 then Ok None else Ok (Some de).

(** The do-while loop over the first four digits. *)
Definition acc_step (de85 buffer : list Z) (s : Z * Z * Z)
    : res (Z * Z * Z + option (Z * Z)) :=
  let '(acc, b, cnt) := s in
  o ← de_char de85 buffer b;
  match o with
  | None => Ok (inr None)
  | Some de =>
      let acc := u32 (acc * 85 + de) in
      let cnt := cnt - 1 in
      if tr cnt then Ok (inl (acc, b + 1, cnt)) else Ok (inr (Some (acc, b + 1)))
  end.

(** One group of five digits; [None] is one of the three errors. *)
Definition decode_group (de85 buffer : list Z) (b : Z) : res (option Z) :=
  o ← loop 5 (acc_step de85 buffer) (0, b, 4);
  match o with
  | None => Ok None
  | Some (acc, b) =>
      o ← de_char de85 buffer b;
      match o with
      | None => Ok None
      | Some de =>
          if 0xffffffff `div` 85 <? acc then Ok None
          else
            let acc := u32 (acc * 85) in
            if u32 (0xffffffff - de) <? acc then Ok None
            else Ok (Some (u32 (acc + de)))
      end
  end.

(** The do-while loop that stores the bytes of a group. *)
Definition emit_step (s : list Z * Z * Z * Z) : res (list Z * Z * Z * Z + list Z * Z) :=
  let '(dst, d, acc, cnt) := s in
  let acc := u32 (acc <<. 8) |. (acc >>. 24) in
  dst ← wr dst d (u8 acc);
  let cnt := cnt - 1 in
  if tr cnt then Ok (inl (dst, d + 1, acc, cnt)) else Ok (inr (dst, d + 1)).

Definition decode85_step (de85 buffer : list Z) (s : list Z * Z * Z * Z)
    : res (list Z * Z * Z * Z + Z * list Z) :=
  let '(dst, d, b, n) := s in
  if tr n then
    o ← decode_group de85 buffer b;
    match o with
    | None => Ok (inr (-1, dst))
    | Some acc =>
        let cnt := if n <? 4 then n else 4 in
        '(dst, d) ← loop 5 emit_step (dst, d, acc, cnt);
        Ok (inl (dst, d, b + 5, n - cnt))
    end
  else Ok (inr (0, dst)).

(** Returns the result, [dst] and the static table. *)
Definition decode_85 (de85 dst buffer : list Z) (n : Z) : res (Z * list Z * list Z) :=
  de85 ← prep_base85 de85;
  '(ret, dst) ← loop (S (Z.to_nat n)) (decode85_step de85 buffer) (dst, 0, 0, n);
  Ok (ret, dst, de85).

(** The loop that gathers up to four bytes. *)
Definition gather_step (data : list Z) (s : Z * Z * Z * Z) : res (Z * Z * Z * Z + Z * Z * Z) :=
  let '(acc, p, bytes, cnt) := s in
  if 0 <=? cnt then
    ch ← rd data p;
    let acc := acc |. u32 (ch <<. cnt) in
    let bytes := bytes - 1 in
    if bytes =? 0 then Ok (inr (acc, p + 1, bytes))
    else Ok (inl (acc, p + 1, bytes, cnt - 8))
  else Ok (inr (acc, p, bytes)).

(** The loop that stores five digits, the last one first. *)
Definition digits_step (b : Z) (s : list Z * Z * Z) : res (list Z * Z * Z + list Z) :=
  let '(buf, acc, cnt) := s in
  if 0 <=? cnt then
    let val := acc `mod` 85 in
    c ← rd en85 val;
    buf ← wr buf (b + cnt) c;
    Ok (inl (buf, acc `div` 85, cnt - 1))
  else Ok (inr buf).

Definition encode85_step (data : list Z) (s : list Z * Z * Z * Z)
    : res (list Z * Z * Z * Z + list Z * Z) :=
  let '(buf, b, p, bytes) := s in
  if tr bytes then
    '(acc, p, bytes) ← loop 5 (gather_step data) (0, p, bytes, 24);
    buf ← loop 6 (digits_step b) (buf, acc, 4);
    Ok (inl (buf, b + 5, p, bytes))
  else Ok (inr (buf, b)).

Definition encode_85 (buf data : list Z) (bytes : Z) : res (list Z) :=
  '(buf, b) ← loop (S (Z.to_nat bytes)) (encode85_step data) (buf, 0, 0, bytes);
  wr buf b 0.

(** ** Reference *)

Definition digits85 (v : Z) : list Z :=
  [v `div` 85 ^ 4 `mod` 85; v `div` 85 ^ 3 `mod` 85; v `div` 85 ^ 2 `mod` 85;
   v `div` 85 `mod` 85; v `mod` 85].

Definition en (d : Z) : Z := en85 !!! Z.to_nat d.

(** A group of up to four bytes, padded with zeros, in five characters. *)
Definition enc_group (bs : list Z) : list Z :=
  en <$> digits85 (of_be (bs ++ replicate (4 - length bs) 0)).

Fixpoint enc85 (data : list Z) : list Z :=
  match data with
  | [] => []
  | a :: b :: c :: d :: rest => enc_group [a; b; c; d] ++ enc85 rest
  | bs => enc_group bs
  end.

(** The digit that a character stands for. *)
Definition de (c : Z) : option Z :=
  match list_find (fun x => x = c) en85 with Some (i, _) => Some (Z.of_nat i) | None => None end.

(** The value of the first [n] characters behind a prefix of value [acc]. *)
Fixpoint dec_digits (n : nat) (acc : Z) (s : list Z) : option Z :=
  match n, s with
  | O, _ => Some acc
  | S n, c :: s => d ← de c; dec_digits n (acc * 85 + d) s
  | S _, [] => None
  end.

Definition dec_group (s : list Z) : option Z :=
  v ← dec_digits 5 0 s; if v <? 2 ^ 32 then Some v else None.

(** The first [n] bytes of the groups of [s]; [k] bounds the groups. *)
Fixpoint dec85 (k : nat) (n : Z) (s : list Z) : option (list Z) :=
  if n <=? 0 then Some []
  else match k with
  | O => None
  | S k =>
      v ← dec_group s;
      bs ← dec85 k (n - 4) (drop 5 s);
      Some (take (Z.to_nat n) (be32 v) ++ bs)
  end.

(** ** Decoding *)

Definition table85 : list Z :=
  match loop 86 prep_step (replicate 256 0, 0) with Ok t => t | Fault _ => [] end.

(** The static table is zero or complete. *)
Definition de85_ok (t : list Z) : Prop := t = replicate 256 0 \/ t = table85.

Lemma prep_base85_ok t : de85_ok t -> prep_base85 t = Ok table85.
Proof. intros [-> | ->]; vm_compute; reflexivity. Qed.

Lemma table85_de c : is_byte c ->
  (v ← rd table85 c; Ok (if v - 1 <? 0 then None else Some (v - 1))) = Ok (de c).
Proof.
  intros Hc. assert (match rd table85 c, de c with
    | Ok v, Some d => (v =? d + 1) && (0 <=? d) | Ok v, None => v =? 0 | Fault _, _ => false end = true) as H.
  { by apply (byte_forall (fun c => match rd table85 c, de c with
      | Ok v, Some d => (v =? d + 1) && (0 <=? d) | Ok v, None => v =? 0 | Fault _, _ => false end)). }
  destruct (rd table85 c) as [v|]; [|done]. cbn [mbind res_bind]. destruct (de c) as [d|].
  - apply andb_true_iff in H as [H1 H2]. apply Z.eqb_eq in H1 as ->. apply Z.leb_le in H2.
    replace (d + 1 - 1) with d by lia. destruct (Z.ltb_spec d 0); [lia|done].
  - apply Z.eqb_eq in H as ->. done.
Qed.

Lemma de_range c d : is_byte c -> de c = Some d -> 0 <= d < 85 /\ c <> 0.
Proof.
  intros Hc Hd. assert (match de c with
    | Some d => (0 <=? d) && (d <? 85) && negb (c =? 0) | None => true end = true) as H.
  { by apply (byte_forall (fun c => match de c with
      | Some d => (0 <=? d) && (d <? 85) && negb (c =? 0) | None => true end)). }
  rewrite Hd in H.
  apply andb_true_iff in H as [H H3]. apply andb_true_iff in H as [H1 H2].
  apply Z.leb_le in H1. apply Z.ltb_lt in H2. apply negb_true_iff, Z.eqb_neq in H3. lia.
Qed.

Section Decode.
Context (buffer : list Z).
Hypothesis Hbuf : is_bytes buffer.

Lemma de_next b : 0 <= b -> nul_from buffer b ->
  exists c, drop (Z.to_nat b) buffer = c :: drop (Z.to_nat (b + 1)) buffer /\
    de_char table85 buffer b = Ok (de c) /\
    (forall d, de c = Some d -> 0 <= d < 85 /\ nul_from buffer (b + 1)).
Proof using Hbuf.
  intros Hb Hnul. destruct (nul_from_lookup buffer b Hb Hnul Hbuf) as (c & Hc & Hcb & Hrc & Hd).
  exists c. split_and!; [done| |].
  - unfold de_char. rewrite Hrc. cbn [mbind res_bind]. rewrite <- (table85_de c Hcb).
    destruct (rd table85 c) as [v|]; [|done]. cbn [mbind res_bind]. by destruct (v - 1 <? 0).
  - intros d Ed. destruct (de_range c d Hcb Ed). split; [done|]. by eapply nul_from_next.
Qed.

Lemma acc_loop k : forall fuel acc b, 0 <= b -> nul_from buffer b -> (k < 4)%nat ->
  0 <= acc < 85 ^ (3 - Z.of_nat k) -> (k < fuel)%nat ->
  loop fuel (acc_step table85 buffer) (acc, b, Z.of_nat (S k)) =
    Ok (match dec_digits (S k) acc (drop (Z.to_nat b) buffer) with
        | Some v => Some (v, b + Z.of_nat (S k)) | None => None end) /\
  (forall v, dec_digits (S k) acc (drop (Z.to_nat b) buffer) = Some v ->
     0 <= v < 85 ^ 4 /\ nul_from buffer (b + Z.of_nat (S k))).
Proof using Hbuf.
  induction k as [|k IH]; intros fuel acc b Hb Hnul Hk Hacc Hf;
    (destruct fuel as [|fuel]; [lia|]); cbn [loop]; unfold acc_step at 1;
    destruct (de_next b Hb Hnul) as (c & -> & -> & Hd); cbn [mbind res_bind dec_digits];
    (destruct (de c) as [d|]; [|done]); cbn [mbind option_bind]; destruct (Hd d eq_refl) as [Hd' Hn].
  - change (3 - Z.of_nat 0) with 3 in Hacc. rewrite u32_small by lia.
    change (tr (Z.of_nat 1 - 1)) with false. cbv iota. split; [done|]. intros v [= <-]. split; [lia|done].
  - assert (85 * 85 ^ (3 - Z.of_nat (S k)) = 85 ^ (3 - Z.of_nat k)) as E.
    { rewrite <- Z.pow_succ_r by lia. f_equal. lia. }
    assert (85 ^ (3 - Z.of_nat k) <= 85 ^ 3) by (apply Z.pow_le_mono_r; lia).
    rewrite u32_small by lia.
    replace (tr (Z.of_nat (S (S k)) - 1)) with true by (symmetry; apply tr_true; lia).
    replace (Z.of_nat (S (S k)) - 1) with (Z.of_nat (S k)) by lia.
    replace (b + Z.of_nat (S (S k))) with (b + 1 + Z.of_nat (S k)) by lia.
    apply (IH fuel (acc * 85 + d) (b + 1)); [lia|done|lia|lia|lia].
Qed.

Lemma dec_digits_app n m : forall acc s, dec_digits (n + m) acc s =
  (v ← dec_digits n acc s; dec_digits m v (drop n s)).
Proof.
  induction n as [|n IH]; intros acc s; [done|]. destruct s as [|c s]; [done|].
  cbn [Nat.add dec_digits drop]. destruct (de c); [|done]. cbn [mbind option_bind]. apply IH.
Qed.

Lemma decode_group_ok b : 0 <= b -> nul_from buffer b ->
  decode_group table85 buffer b = Ok (dec_group (drop (Z.to_nat b) buffer)) /\
  (forall v, dec_group (drop (Z.to_nat b) buffer) = Some v -> 0 <= v < 2 ^ 32 /\ nul_from buffer (b + 5)).
Proof using Hbuf.
  intros Hb Hnul. unfold decode_group, dec_group. rewrite (dec_digits_app 4 1).
  destruct (acc_loop 3 5 0 b Hb Hnul ltac:(lia) ltac:(done) ltac:(lia)) as [E Hv].
  change (Z.of_nat 4) with 4 in *. rewrite E. cbn [mbind res_bind].
  destruct (dec_digits 4 0 _) as [acc|]; [|done]. cbn [mbind option_bind].
  destruct (Hv acc eq_refl) as [Hacc Hn4]. clear Hv E.
  destruct (de_next (b + 4) ltac:(lia) Hn4) as (c & Ed & Ec & Hd).
  rewrite drop_drop. replace (Z.to_nat b + 4)%nat with (Z.to_nat (b + 4)) by lia.
  rewrite Ed, Ec. cbn [dec_digits mbind option_bind res_bind].
  destruct (de c) as [d|]; [|done]. cbn [mbind option_bind]. destruct (Hd d eq_refl) as [Hd' Hn].
  replace (b + 4 + 1) with (b + 5) in Hn by lia.
  destruct (Z.ltb_spec (0xffffffff `div` 85) acc) as [H1|H1].
  { change (0xffffffff `div` 85) with 50529027 in H1.
    destruct (Z.ltb_spec (acc * 85 + d) (2 ^ 32)); [lia|done]. }
  change (0xffffffff `div` 85) with 50529027 in H1.
  rewrite (u32_small (acc * 85)), (u32_small (0xffffffff - d)) by lia.
  destruct (Z.ltb_spec (0xffffffff - d) (acc * 85)), (Z.ltb_spec (acc * 85 + d) (2 ^ 32)); try lia; [done|].
  rewrite u32_small by lia. split; [done|]. intros v [= <-]. split; [lia|done].
Qed.
End Decode.

Lemma rot8 a b c d : is_byte a -> is_byte b -> is_byte c -> is_byte d ->
  let v := of_be [a; b; c; d] in
  u32 (v <<. 8) |. (v >>. 24) = of_be [b; c; d; a] /\ u8 (of_be [b; c; d; a]) = a.
Proof.
  unfold is_byte, of_be, u8, u32. intros Ha Hb Hc Hd. cbn [fold_left]. cbv zeta.
  rewrite Z.shiftr_div_pow2, Z.shiftl_mul_pow2 by done. split; [|dlia].
  replace (((((0 * 256 + a) * 256 + b) * 256 + c) * 256 + d) `div` 2 ^ 24) with a by dlia.
  replace ((((((0 * 256 + a) * 256 + b) * 256 + c) * 256 + d) * 2 ^ 8) `mod` 2 ^ 32)
    with ((b * 65536 + c * 256 + d) * 256) by dlia.
  rewrite (lor_add _ a 8); [lia|lia|dlia|lia].
Qed.

Lemma emit_loop k : forall fuel dst p a b c d,
  is_byte a -> is_byte b -> is_byte c -> is_byte d -> (k < 4)%nat -> (k < fuel)%nat ->
  0 <= p -> p + Z.of_nat (S k) <= len dst ->
  loop fuel emit_step (dst, p, of_be [a; b; c; d], Z.of_nat (S k)) =
  Ok (take (Z.to_nat p) dst ++ take (S k) [a; b; c; d] ++ drop (Z.to_nat p + S k) dst,
      p + Z.of_nat (S k)).
Proof.
  induction k as [|k IH]; intros fuel dst p a b c d Ha Hb Hc Hd Hk Hf Hp Hl;
    (destruct fuel as [|fuel]; [lia|]); cbn [loop]; unfold emit_step at 1;
    destruct (rot8 a b c d Ha Hb Hc Hd) as [-> ->]; rewrite wr_ok by lia; cbn [mbind res_bind].
  - change (tr (Z.of_nat 1 - 1)) with false. cbv iota.
    rewrite insert_take_drop by llia. rewrite Nat.add_1_r. done.
  - replace (tr (Z.of_nat (S (S k)) - 1)) with true by (symmetry; apply tr_true; lia).
    replace (Z.of_nat (S (S k)) - 1) with (Z.of_nat (S k)) by lia.
    rewrite (IH fuel _ (p + 1)) by (rewrite ?len_insert; done || lia).
    replace (p + Z.of_nat (S (S k))) with (p + 1 + Z.of_nat (S k)) by lia. f_equal. f_equal.
    replace (Z.to_nat (p + 1)) with (S (Z.to_nat p)) by lia.
    rewrite (take_S_r _ _ a) by (apply list_lookup_insert_eq; llia).
    rewrite take_insert_ge, drop_insert_lt, <- app_assoc by lia. cbn [app].
    replace (S (Z.to_nat p) + S k)%nat with (Z.to_nat p + S (S k))%nat by lia.
    destruct k as [|[|[|k]]]; [done|done|done|lia].
Qed.

Lemma take_be32_4 n v : take (Z.to_nat n) (be32 v) = take (Z.to_nat (if n <? 4 then n else 4)) (be32 v).
Proof. destruct (Z.ltb_spec n 4); [done|]. rewrite !take_ge; [done|simpl; lia|simpl; lia]. Qed.

Lemma decode85_loop buffer k : is_bytes buffer -> forall fuel dst d b n,
  0 <= n -> n <= 4 * Z.of_nat k -> 0 <= d -> d + n <= len dst -> 0 <= b -> nul_from buffer b ->
  (k < fuel)%nat ->
  match dec85 k n (drop (Z.to_nat b) buffer) with
  | Some bs => loop fuel (decode85_step table85 buffer) (dst, d, b, n) =
      Ok (0, take (Z.to_nat d) dst ++ bs ++ drop (Z.to_nat (d + n)) dst)
  | None => exists dst', loop fuel (decode85_step table85 buffer) (dst, d, b, n) = Ok (-1, dst') /\
      len dst' = len dst
  end.
Proof.
  intros Hbuf. induction k as [|k IH]; intros fuel dst d b n Hn Hnk Hd Hl Hb Hnul Hf;
    (destruct fuel as [|fuel]; [lia|]); cbn [dec85];
    remember (loop (S fuel) _ _) as R eqn:HR; cbn [loop] in HR; unfold decode85_step at 1 in HR.
  - destruct (Z.leb_spec n 0); [|lia]. replace n with 0 in * by lia. rewrite Z.add_0_r. cbn [app].
    by rewrite take_drop.
  - destruct (Z.leb_spec n 0) as [Hn0|Hn0].
    { replace n with 0 in * by lia. rewrite Z.add_0_r. cbn [app]. by rewrite take_drop. }
    replace (tr n) with true in HR by (symmetry; apply tr_true; lia).
    destruct (decode_group_ok buffer Hbuf b Hb Hnul) as [E Hv]. rewrite E in HR. clear E.
    destruct (dec_group _) as [v|]; cbn [mbind res_bind option_bind] in *; [|by exists dst].
    destruct (Hv v eq_refl) as [Hv32 Hnul5]. clear Hv.
    set (cnt := if n <? 4 then n else 4) in *.
    assert (0 < cnt <= 4 /\ cnt <= n /\ (n <= 4 -> cnt = n) /\ (4 <= n -> cnt = 4)) as (Hc & Hcn & Hc1 & Hc2).
    { unfold cnt. destruct (Z.ltb_spec n 4); lia. }
    rewrite <- (of_be_be32 v) in HR by done. pose proof (be32_bytes v) as Hbs.
    assert (exists x0 x1 x2 x3, be32 v = [x0; x1; x2; x3]) as (x0 & x1 & x2 & x3 & Ev) by (by eexists _, _, _, _).
    rewrite Ev in HR, Hbs. rewrite !Forall_cons in Hbs. destruct Hbs as (H0 & H1 & H2 & H3 & _).
    replace cnt with (Z.of_nat (S (Z.to_nat (cnt - 1)))) in HR by lia.
    rewrite emit_loop in HR by (done || lia). cbn [mbind res_bind] in HR.
    replace (S (Z.to_nat (cnt - 1))) with (Z.to_nat cnt) in HR by lia. rewrite Z2Nat.id in HR by lia.
    rewrite <- Ev in HR. rewrite (take_be32_4 n v). fold cnt.
    assert (length (take (Z.to_nat cnt) (be32 v)) = Z.to_nat cnt) as Htl by (rewrite length_take; simpl; lia).
    set (t := take (Z.to_nat cnt) (be32 v)) in *. set (dst1 := _ ++ t ++ _) in HR.
    assert (length (take (Z.to_nat d) dst) = Z.to_nat d) as Htd by (rewrite length_take; llia).
    assert (len dst1 = len dst) as Hl1.
    { unfold dst1. rewrite !len_app. unfold len in *. rewrite Htd, Htl, length_drop. lia. }
    assert (dec85 k (n - 4) (drop 5 (drop (Z.to_nat b) buffer)) =
            dec85 k (n - cnt) (drop (Z.to_nat (b + 5)) buffer)) as ->.
    { rewrite drop_drop. replace (Z.to_nat b + 5)%nat with (Z.to_nat (b + 5)) by lia.
      destruct (decide (4 <= n)); [by rewrite Hc2|].
      rewrite Hc1, Z.sub_diag by lia. destruct k; cbn [dec85]; (destruct (Z.leb_spec (n - 4) 0); [done|lia]). }
    specialize (IH fuel dst1 (d + cnt) (b + 5) (n - cnt) ltac:(lia) ltac:(lia) ltac:(lia) ltac:(lia)
      ltac:(lia) Hnul5 ltac:(lia)). rewrite <- HR in IH. clear HR.
    destruct (dec85 k (n - cnt) _) as [bs|]; cbn [mbind option_bind].
    + rewrite IH. f_equal. f_equal. replace (d + cnt + (n - cnt)) with (d + n) by lia.
      assert (length (take (Z.to_nat d) dst ++ t) = Z.to_nat (d + cnt)) as Hpre
        by (rewrite length_app, Htd, Htl; lia).
      assert (take (Z.to_nat (d + cnt)) dst1 = take (Z.to_nat d) dst ++ t) as ->.
      { unfold dst1. rewrite app_assoc. by apply take_app_length'. }
      assert (drop (Z.to_nat (d + n)) dst1 = drop (Z.to_nat (d + n)) dst) as ->.
      { unfold dst1. rewrite app_assoc, drop_app_ge, Hpre, drop_drop by lia. f_equal. lia. }
      by rewrite <- !app_assoc.
    + destruct IH as (dst' & -> & Hl'). exists dst'. split; [done|lia].
Qed.

Lemma decode_85_spec t dst buffer n :
  de85_ok t -> is_bytes buffer -> nul_from buffer 0 -> 0 <= n <= len dst ->
  match dec85 (Z.to_nat n) n buffer with
  | Some bs => decode_85 t dst buffer n = Ok (0, bs ++ drop (Z.to_nat n) dst, table85)
  | None => exists dst', decode_85 t dst buffer n = Ok (-1, dst', table85) /\ len dst' = len dst
  end.
Proof.
  intros Ht Hb Hnul Hn. unfold decode_85. rewrite prep_base85_ok by done. cbn [mbind res_bind].
  pose proof (decode85_loop buffer (Z.to_nat n) Hb (S (Z.to_nat n)) dst 0 0 n ltac:(lia) ltac:(lia)
    ltac:(lia) ltac:(lia) ltac:(lia) Hnul ltac:(lia)) as Hloop.
  change (drop (Z.to_nat 0) buffer) with buffer in Hloop.
  destruct (dec85 _ _ _) as [bs|].
  - rewrite Hloop. done.
  - destruct Hloop as (dst' & -> & Hl). by exists dst'.
Qed.

(** ** Encoding *)

Lemma en85_ok d : 0 <= d < 85 -> rd en85 d = Ok (en d).
Proof. intros Hd. by apply rd_ok. Qed.

Lemma shift_or acc b k : acc `mod` 2 ^ (k + 8) = 0 -> is_byte b -> 0 <= k <= 24 ->
  acc |. u32 (b <<. k) = acc + b * 2 ^ k.
Proof.
  intros Hm Hb Hk. unfold is_byte in Hb. rewrite Z.shiftl_mul_pow2 by lia.
  pose proof (Z.pow_pos_nonneg 2 k). pose proof (Z.pow_le_mono_r 2 k 24).
  rewrite u32_small by nia. apply (lor_add _ _ (k + 8)); [lia|done|].
  rewrite Z.pow_add_r by lia. nia.
Qed.

Lemma of_be_acc l : forall a, fold_left (fun a b => a * 256 + b) l a = a * 256 ^ len l + of_be l.
Proof.
  induction l as [|x l IH]; intros a; [unfold of_be; simpl; rewrite len_nil; lia|].
  unfold of_be. cbn [fold_left]. rewrite IH, (IH (0 * 256 + x)), len_cons.
  rewrite Z.pow_add_r by (pose proof (len_nonneg l); lia). lia.
Qed.

Lemma of_be_cons x l : of_be (x :: l) = x * 256 ^ len l + of_be l.
Proof. unfold of_be at 1. cbn [fold_left]. rewrite of_be_acc. lia. Qed.

Lemma of_be_zeros n : of_be (replicate n 0) = 0.
Proof. induction n as [|n IH]; [done|]. cbn [replicate]. rewrite of_be_cons, IH. lia. Qed.

(** Gathering into [j] free byte positions. *)
Lemma gather_loop data j : forall acc p m bs rest,
  is_bytes data -> 0 <= p -> 0 < m -> (j <= 4)%nat ->
  drop (Z.to_nat p) data = bs ++ rest -> length bs = Nat.min (Z.to_nat m) j ->
  acc `mod` 2 ^ (8 * Z.of_nat j) = 0 ->
  loop (S j) (gather_step data) (acc, p, m, 8 * Z.of_nat j - 8) =
  Ok (acc + of_be (bs ++ replicate (j - length bs) 0), p + len bs, m - len bs).
Proof.
  induction j as [|j IH]; intros acc p m bs rest Hdata Hp Hm Hj Hd Hl Ha.
  { destruct bs; [|simpl in Hl; lia]. cbn. by rewrite !Z.add_0_r, Z.sub_0_r. }
  destruct bs as [|x bs]; [simpl in Hl; lia|].
  assert (data !! Z.to_nat p = Some x) as Hx.
  { rewrite <- (Nat.add_0_r (Z.to_nat p)), <- lookup_drop, Hd. done. }
  rewrite loop_S. unfold gather_step at 1. destruct (Z.leb_spec 0 (8 * Z.of_nat (S j) - 8)); [|lia].
  rewrite (rd_Some _ _ x) by (done || lia). cbn [mbind res_bind].
  rewrite shift_or; [|by replace (8 * Z.of_nat (S j) - 8 + 8) with (8 * Z.of_nat (S j)) by lia
                     |by eapply is_byte_lookup|lia].
  cbn [length app Nat.sub]. rewrite of_be_cons, len_cons.
  assert (len (bs ++ replicate (j - length bs) 0) = Z.of_nat j) as Hlen.
  { rewrite len_app. unfold len. rewrite length_replicate. simpl in Hl. lia. }
  assert (2 ^ (8 * Z.of_nat (S j) - 8) = 256 ^ Z.of_nat j) as ->.
  { change 256 with (2 ^ 8). rewrite <- Z.pow_mul_r by lia. f_equal. lia. }
  rewrite Hlen. destruct (Z.eqb_spec (m - 1) 0) as [E1|E1].
  - destruct bs; [|simpl in Hl; lia]. cbn [app length]. rewrite of_be_zeros.
    change (len (@nil Z)) with 0.
    replace m with 1 by lia. by rewrite !Z.add_0_r.
  - replace (8 * Z.of_nat (S j) - 8 - 8) with (8 * Z.of_nat j - 8) by lia.
    rewrite (IH _ (p + 1) (m - 1) bs rest); [f_equal; f_equal; [f_equal|]; lia|done|lia|lia|lia| |simpl in Hl; lia|].
    + replace (Z.to_nat (p + 1)) with (Z.to_nat p + 1)%nat by lia. by rewrite <- drop_drop, Hd.
    + replace (8 * Z.of_nat (S j)) with (8 * Z.of_nat j + 8) in Ha by lia.
      rewrite Z.pow_add_r in Ha by lia. change 256 with (2 ^ 8). rewrite <- Z.pow_mul_r by lia.
      pose proof (Z.pow_pos_nonneg 2 (8 * Z.of_nat j)). rewrite Z_mod_plus_full.
      apply Z.mod_divide in Ha; [|nia]. destruct Ha as [q ->].
      apply Z.mod_divide; [lia|]. exists (q * 2 ^ 8). lia.
Qed.

Lemma gather_ok data p m bs rest : is_bytes data -> 0 <= p -> 0 < m ->
  drop (Z.to_nat p) data = bs ++ rest -> length bs = Nat.min (Z.to_nat m) 4 ->
  loop 5 (gather_step data) (0, p, m, 24) =
  Ok (of_be (bs ++ replicate (4 - length bs) 0), p + len bs, m - len bs).
Proof. intros. by apply (gather_loop data 4 0 p m bs rest). Qed.

Lemma digits_step_ok b buf v cnt : 0 <= b -> 0 <= cnt -> b + cnt < len buf -> 0 <= v ->
  digits_step b (buf, v, cnt) =
  Ok (inl (<[Z.to_nat (b + cnt) := en (v `mod` 85)]> buf, v `div` 85, cnt - 1)).
Proof.
  intros Hb Hc Hl Hv. unfold digits_step. destruct (Z.leb_spec 0 cnt); [|lia].
  rewrite en85_ok by dlia. cbn [mbind res_bind]. by rewrite wr_ok by lia.
Qed.

Lemma digits_ok buf b v : 0 <= b -> b + 5 <= len buf -> 0 <= v ->
  loop 6 (digits_step b) (buf, v, 4) =
  Ok (take (Z.to_nat b) buf ++ (en <$> digits85 v) ++ drop (Z.to_nat b + 5) buf).
Proof.
  intros Hb Hl Hv.
  do 5 (rewrite loop_S, digits_step_ok by (rewrite ?len_insert; lia || (repeat (apply Z.div_pos; [|lia]); lia))).
  change (4 - 1) with 3. change (3 - 1) with 2. change (2 - 1) with 1. change (1 - 1) with 0.
  rewrite loop_S. unfold digits_step. simpl (0 <=? _). cbv iota.
  f_equal. unfold digits85. change (85 ^ 4) with (85 * 85 * 85 * 85).
  change (85 ^ 3) with (85 * 85 * 85). change (85 ^ 2) with (85 * 85).
  rewrite <- !Z.div_div by lia. cbn [fmap list_fmap].
  destruct (drop (Z.to_nat b) buf) as [|y0 [|y1 [|y2 [|y3 [|y4 r]]]]] eqn:E;
    try (apply (f_equal length) in E; rewrite length_drop in E; simpl in E; llia).
  rewrite <- drop_drop, E. rewrite <- (take_drop (Z.to_nat b) buf) at 1. rewrite E.
  set (l1 := take (Z.to_nat b) buf). assert (length l1 = Z.to_nat b) as Hl1.
  { unfold l1. rewrite length_take. llia. }
  replace (Z.to_nat (b + 4)) with (length l1 + 4)%nat by lia.
  replace (Z.to_nat (b + 3)) with (length l1 + 3)%nat by lia.
  replace (Z.to_nat (b + 2)) with (length l1 + 2)%nat by lia.
  replace (Z.to_nat (b + 1)) with (length l1 + 1)%nat by lia.
  replace (Z.to_nat (b + 0)) with (length l1 + 0)%nat by lia.
  rewrite !insert_app_r. done.
Qed.

Lemma enc85_chunk l : l <> [] -> enc85 l = enc_group (take 4 l) ++ enc85 (drop 4 l).
Proof.
  intros Hl. destruct l as [|a [|b [|c [|d l]]]]; [done| | | |done]; cbn [take drop enc85]; by rewrite app_nil_r.
Qed.

(** The groups that [n] bytes make. *)
Definition groups (n : Z) : Z := (n + 3) `div` 4.

Lemma enc_group_length bs : length (enc_group bs) = 5%nat.
Proof. done. Qed.

Lemma enc85_length k : forall l, (length l <= 4 * k)%nat -> len (enc85 l) = 5 * groups (len l).
Proof.
  induction k as [|k IH]; intros l Hl; [by destruct l; simpl in Hl; [|lia]|].
  destruct (decide (l = [])) as [->|Hne]; [done|].
  rewrite enc85_chunk, len_app, IH by (done || (rewrite length_drop; lia)).
  unfold len. rewrite enc_group_length, length_drop. unfold groups.
  destruct l; [done|]. simpl length in *. dlia.
Qed.

Lemma padded_range bs : is_bytes bs -> (length bs <= 4)%nat ->
  exists a b c d, bs ++ replicate (4 - length bs) 0 = [a; b; c; d] /\
    (is_byte a /\ is_byte b /\ is_byte c /\ is_byte d) /\ take (length bs) [a; b; c; d] = bs.
Proof.
  intros Hb Hl. assert (is_bytes (bs ++ replicate (4 - length bs) 0)) as Hp.
  { apply Forall_app_2; [done|by apply Forall_replicate]. }
  assert (length (bs ++ replicate (4 - length bs) 0) = 4%nat) as Hlen.
  { rewrite length_app, length_replicate. lia. }
  assert (take (length bs) (bs ++ replicate (4 - length bs) 0) = bs) as Ht by apply take_app_length.
  destruct (bs ++ _) as [|a [|b [|c [|d [|]]]]]; try (simpl in Hlen; lia).
  rewrite !Forall_cons in Hp. exists a, b, c, d. tauto.
Qed.

Lemma of_be4_range a b c d : is_byte a /\ is_byte b /\ is_byte c /\ is_byte d ->
  0 <= of_be [a; b; c; d] < 2 ^ 32.
Proof. unfold is_byte, of_be. cbn [fold_left]. lia. Qed.

Lemma encode_loop data k : is_bytes data -> forall fuel buf b p m,
  0 <= m -> m <= 4 * Z.of_nat k -> 0 <= p -> p + m <= len data -> 0 <= b ->
  b + 5 * groups m <= len buf -> (k < fuel)%nat ->
  loop fuel (encode85_step data) (buf, b, p, m) =
  Ok (take (Z.to_nat b) buf ++ enc85 (slice data p m) ++ drop (Z.to_nat (b + 5 * groups m)) buf,
      b + 5 * groups m).
Proof.
  intros Hdata. induction k as [|k IH]; intros fuel buf b p m Hm Hmk Hp Hpm Hb Hl Hf;
    (destruct fuel as [|fuel]; [lia|]); rewrite loop_S; unfold encode85_step at 1.
  { replace m with 0 in * by lia. change (groups 0) with 0. rewrite Z.mul_0_r, Z.add_0_r.
    change (slice data p 0) with (@nil Z). cbn [tr Z.eqb negb enc85 app]. by rewrite take_drop. }
  destruct (decide (m = 0)) as [->|Hm0].
  { change (groups 0) with 0. rewrite Z.mul_0_r, Z.add_0_r.
    change (slice data p 0) with (@nil Z). cbn [tr Z.eqb negb enc85 app]. by rewrite take_drop. }
  replace (tr m) with true by (symmetry; apply tr_true; lia).
  set (n := Z.min m 4). set (bs := slice data p n).
  assert (len bs = n) as Hbl by (apply len_slice; lia).
  assert (is_bytes bs) as Hbb by (by apply Forall_take, Forall_drop).
  rewrite (gather_ok data p m bs (drop (Z.to_nat n) (drop (Z.to_nat p) data)));
    [|done|lia|lia|unfold bs, slice; by rewrite take_drop|llia].
  cbn [mbind res_bind].
  destruct (padded_range bs Hbb ltac:(llia)) as (x0 & x1 & x2 & x3 & Ebs & Hx & _).
  assert (groups m = 1 + groups (m - n) /\ 0 <= groups (m - n)) as [Hg Hg0] by (unfold groups, n; dlia).
  rewrite Ebs, digits_ok by (first [lia | by apply of_be4_range]). cbn [mbind res_bind].
  rewrite <- Ebs. fold (enc_group bs). rewrite Hbl.
  assert (slice data p m <> []) as Hne.
  { intros E. apply (f_equal len) in E. rewrite len_slice in E by lia. change (len (@nil Z)) with 0 in E. lia. }
  rewrite (enc85_chunk (slice data p m) Hne).
  assert (take 4 (slice data p m) = bs) as ->.
  { unfold bs, slice. rewrite take_take. f_equal. lia. }
  assert (drop 4 (slice data p m) = slice data (p + n) (m - n)) as ->.
  { unfold slice. destruct (decide (4 <= m)).
    - rewrite skipn_firstn_comm, drop_drop. f_equal; [lia|f_equal; lia].
    - rewrite drop_ge by (rewrite length_take; lia).
      replace (m - n) with 0 by lia. done. }
  set (buf1 := _ ++ enc_group bs ++ _).
  assert (length (take (Z.to_nat b) buf) = Z.to_nat b) as Htb by (rewrite length_take; llia).
  assert (length (take (Z.to_nat b) buf ++ enc_group bs) = Z.to_nat (b + 5)) as Hpre
    by (rewrite length_app, Htb, enc_group_length; lia).
  assert (len buf1 = len buf) as Hl1.
  { unfold buf1. rewrite !len_app. unfold len in *. rewrite Htb, enc_group_length, length_drop. lia. }
  rewrite (IH fuel buf1 (b + 5) (p + n) (m - n)) by lia.
  replace (b + 5 + 5 * groups (m - n)) with (b + 5 * groups m) by lia. f_equal. f_equal.
  assert (take (Z.to_nat (b + 5)) buf1 = take (Z.to_nat b) buf ++ enc_group bs) as ->.
  { unfold buf1. rewrite app_assoc. by apply take_app_length'. }
  assert (drop (Z.to_nat (b + 5 * groups m)) buf1 = drop (Z.to_nat (b + 5 * groups m)) buf) as ->.
  { unfold buf1. rewrite app_assoc, drop_app_ge, Hpre, drop_drop by lia. f_equal. lia. }
  by rewrite <- !app_assoc.
Qed.

Lemma encode_85_spec buf data n : is_bytes data -> 0 <= n <= len data ->
  5 * groups n + 1 <= len buf ->
  encode_85 buf data n = Ok (enc85 (slice data 0 n) ++ 0 :: drop (Z.to_nat (5 * groups n + 1)) buf).
Proof.
  intros Hb Hn Hl. unfold encode_85. assert (0 <= groups n) as Hg by (unfold groups; dlia).
  rewrite (encode_loop data (Z.to_nat n)) by (done || lia).
  cbn [mbind res_bind]. change (take (Z.to_nat 0) buf ++ ?x) with x. rewrite Z.add_0_l.
  set (t := enc85 _). assert (length t = Z.to_nat (5 * groups n)) as Ht.
  { unfold t. pose proof (enc85_length (length (slice data 0 n)) (slice data 0 n) ltac:(lia)) as E.
    rewrite len_slice in E by lia. llia. }
  rewrite wr_ok by (rewrite len_app; unfold len in *; rewrite length_drop; lia).
  f_equal. rewrite <- Ht, <- (Nat.add_0_r (length t)), insert_app_r, (Nat.add_0_r (length t)), Ht.
  destruct (drop _ buf) as [|x r] eqn:E.
  { apply (f_equal length) in E. rewrite length_drop in E. simpl in E. llia. }
  simpl. do 2 f_equal. replace (Z.to_nat (5 * groups n + 1)) with (Z.to_nat (5 * groups n) + 1)%nat by lia.
  by rewrite <- drop_drop, E.
Qed.

(** ** Round trip *)

Lemma de_en d : 0 <= d < 85 -> de (en d) = Some d.
Proof.
  intros Hd. assert (((85 <=? d) || match de (en d) with Some x => x =? d | None => false end) = true) as H.
  { apply (byte_forall (fun d => (85 <=? d) || match de (en d) with Some x => x =? d | None => false end));
      [vm_compute; reflexivity|unfold is_byte; lia]. }
  destruct (Z.leb_spec 85 d); [lia|]. simpl in H. destruct (de (en d)); [|done]. apply Z.eqb_eq in H. by subst.
Qed.

Lemma dec_group_enc v rest : 0 <= v < 2 ^ 32 ->
  dec_group ((en <$> digits85 v) ++ rest) = Some v.
Proof.
  intros Hv. unfold dec_group, digits85. cbn [fmap list_fmap app dec_digits].
  change (85 ^ 4) with (85 * 85 * 85 * 85). change (85 ^ 3) with (85 * 85 * 85). change (85 ^ 2) with (85 * 85).
  rewrite <- !Z.div_div by lia. set (q1 := v `div` 85). set (q2 := q1 `div` 85).
  set (q3 := q2 `div` 85). set (q4 := q3 `div` 85).
  assert (v = q1 * 85 + v `mod` 85 /\ q1 = q2 * 85 + q1 `mod` 85 /\ q2 = q3 * 85 + q2 `mod` 85 /\
          q3 = q4 * 85 + q3 `mod` 85) as (E1 & E2 & E3 & E4) by (unfold q4, q3, q2, q1; dlia).
  assert (0 <= q4 < 85) as Hq4 by (unfold q4, q3, q2, q1; dlia).
  rewrite !de_en by dlia. cbn [mbind option_bind]. rewrite (Z.mod_small q4) by done.
  replace (0 * 85 + q4) with q4 by lia. rewrite <- E4, <- E3, <- E2, <- E1.
  destruct (Z.ltb_spec v (2 ^ 32)); [done|lia].
Qed.

Lemma dec85_enc85 k : forall l rest, is_bytes l -> (length l <= 4 * k)%nat ->
  dec85 k (len l) (enc85 l ++ rest) = Some l.
Proof.
  induction k as [|k IH]; intros l rest Hl Hk; cbn [dec85].
  { destruct l; [done|simpl in Hk; lia]. }
  destruct (Z.leb_spec (len l) 0) as [H0|H0]; [destruct l; [done|rewrite len_cons in H0; pose proof (len_nonneg l); lia]|].
  assert (l <> []) as Hne by (intros ->; done).
  rewrite enc85_chunk, <- app_assoc by done.
  assert (is_bytes (take 4 l)) as Hb4 by (by apply Forall_take).
  destruct (padded_range (take 4 l) Hb4 ltac:(rewrite length_take; lia)) as (a & b & c & d & Ep & (Ha & Hb & Hc & Hd) & Ht).
  assert (forall r, dec_group (enc_group (take 4 l) ++ r) = Some (of_be [a; b; c; d])) as Hgrp.
  { intros r. unfold enc_group. rewrite Ep. by apply dec_group_enc, of_be4_range. }
  rewrite Hgrp. cbn [mbind option_bind].
  rewrite drop_app_length' by (by rewrite enc_group_length).
  assert (dec85 k (len l - 4) (enc85 (drop 4 l) ++ rest) = Some (drop 4 l)) as ->.
  { destruct (decide (4 <= len l)).
    - replace (len l - 4) with (len (drop 4 l)) by (unfold len in *; rewrite length_drop; lia).
      apply IH; [by apply Forall_drop|rewrite length_drop; lia].
    - rewrite (drop_ge l) by llia. destruct k; cbn [dec85]; (destruct (Z.leb_spec (len l - 4) 0); [done|lia]). }
  cbn [mbind option_bind]. rewrite be32_of_be by done. f_equal.
  rewrite <- (take_drop 4 l) at 3. f_equal. etrans; [|exact Ht].
  rewrite length_take. unfold len. rewrite Nat2Z.id.
  destruct (decide (length l <= 4)%nat); [by rewrite Nat.min_r by lia|].
  rewrite Nat.min_l, !take_ge by (simpl; lia). done.
Qed.

Lemma en_byte d : is_byte (en d).
Proof.
  unfold en. destruct (decide (Z.to_nat d < length en85)%nat) as [Hlt|Hge].
  - apply is_byte_lookup_total; [|done].
    assert (forallb (fun b => (0 <=? b) && (b <? 256)) en85 = true) as H by (vm_compute; reflexivity).
    apply Forall_forall. intros b Hb. rewrite forallb_forall in H.
    apply list_elem_of_In in Hb. specialize (H b Hb). unfold is_byte. lia.
  - rewrite list_lookup_total_alt, lookup_ge_None_2 by lia. done.
Qed.

Lemma enc85_bytes k : forall l, (length l <= 4 * k)%nat -> is_bytes (enc85 l).
Proof.
  induction k as [|k IH]; intros l Hl; (destruct (decide (l = [])) as [->|Hne]; [constructor|]).
  - destruct l; [done|simpl in Hl; lia].
  - rewrite enc85_chunk by done. apply Forall_app_2; [|apply IH; rewrite length_drop; lia].
    unfold enc_group. apply Forall_fmap, Forall_true. intros d. apply en_byte.
Qed.

(** [decode_85] on any NUL-terminated text stays inside the text and the
    first [n] bytes of the output, returns, and succeeds exactly when every group
    consists of five characters of the alphabet whose value fits 32 bits; the
    output is then the big-endian bytes of the groups. *)
Theorem decode_85_exact t dst buffer n :
  de85_ok t -> is_bytes buffer -> nul_from buffer 0 -> 0 <= n <= len dst ->
  match dec85 (Z.to_nat n) n buffer with
  | Some bs => decode_85 t dst buffer n = Ok (0, bs ++ drop (Z.to_nat n) dst, table85)
  | None => exists dst', decode_85 t dst buffer n = Ok (-1, dst', table85) /\ len dst' = len dst
  end.
Proof. apply decode_85_spec. Qed.

(** "~~~~~" is the group of the digits 84: its value does not fit 32 bits. *)
Lemma decode_85_exact_witness :
  exists dst', decode_85 (replicate 256 0) [1; 2; 3; 4] [126; 126; 126; 126; 126; 0] 4 = Ok (-1, dst', table85) /\
    len dst' = len [1; 2; 3; 4].
Proof.
  apply (decode_85_exact (replicate 256 0) [1; 2; 3; 4] [126; 126; 126; 126; 126; 0] 4).
  - by left.
  - repeat constructor; unfold is_byte; lia.
  - by exists 5.
  - done.
Defined.

(** [decode_85] inverts [encode_85]: the text of [n] bytes takes five
    characters for every four bytes begun and a NUL, and decodes to the bytes. *)
Theorem base85_roundtrip t buf data dst n :
  de85_ok t -> is_bytes data -> is_bytes buf -> 0 <= n <= len data -> n <= len dst ->
  5 * groups n + 1 <= len buf ->
  total (text ← encode_85 buf data n; decode_85 t dst text n)
    (fun '(ret, out, _) => ret = 0 /\ out = slice data 0 n ++ drop (Z.to_nat n) dst).
Proof.
  intros Ht Hd Hb Hn Hdst Hbuf. rewrite encode_85_spec by done. cbn [mbind res_bind].
  assert (is_bytes (slice data 0 n)) as Hs by (by apply Forall_take).
  assert (0 <= groups n) as Hg by (unfold groups; dlia).
  set (text := enc85 _ ++ 0 :: _).
  pose proof (enc85_length (length (slice data 0 n)) (slice data 0 n) ltac:(lia)) as El.
  rewrite len_slice in El by lia.
  assert (nul_from text 0) as Hnul.
  { exists (5 * groups n). unfold text. rewrite len_app, len_cons, El. split; [split; [lia|]|].
    - pose proof (len_nonneg (drop (Z.to_nat (5 * groups n + 1)) buf)). lia.
    - rewrite lookup_app_r by llia. replace (_ - _)%nat with 0%nat by llia. done. }
  assert (is_bytes text) as Htb.
  { apply Forall_app_2; [|constructor; [done|by apply Forall_drop]].
    apply (enc85_bytes (length (slice data 0 n))). lia. }
  pose proof (decode_85_spec t dst text n Ht Htb Hnul ltac:(lia)) as Hdec.
  replace (dec85 (Z.to_nat n) n text) with (Some (slice data 0 n)) in Hdec.
  - rewrite Hdec. done.
  - symmetry. unfold text. rewrite <- (len_slice data 0 n) at 2 by lia.
    apply dec85_enc85; [done|]. pose proof (len_slice data 0 n). llia.
Qed.

Lemma base85_roundtrip_witness :
  total (text ← encode_85 (replicate 20 0) [255; 0; 17; 200; 9; 8] 6;
         decode_85 (replicate 256 0) (replicate 6 0) text 6)
    (fun '(ret, out, _) => ret = 0 /\ out = slice [255; 0; 17; 200; 9; 8] 0 6 ++ drop (Z.to_nat 6) (replicate 6 0)).
Proof.
  apply base85_roundtrip; try done; [by left| |by apply Forall_replicate].
  repeat constructor; unfold is_byte; lia.
Defined.
