(* ===== verification/StableQsort.v ===== *)
(** * Stable sorting: [stable-qsort.c]

    The merge sort that Git uses where it needs a stable sort, and in place of
    the C library's [qsort] when built so.  Arrays are lists of cells of [s]
    bytes.  The theorem is that [git_stable_qsort] equals insertion sort, the
    reference stable sort; it discharges [QsortOk], the interface that the
    callers of [qsort] rely on. *)

From stdpp Require Import prelude numbers list sorting.
From S2P Require Import Prelude PatchDelta Alloc.

Section Code.
Context {A : Type} (cmp : A -> A -> Z).

(** The merge loop: [tmp] filled up to [tp], [n1] cells left at [b1], [n2] at [b2]. *)
Definition qmerge_step (b : list A) (st : list A * Z * Z * Z * Z * Z)
    : res (list A * Z * Z * Z * Z * Z + list A * Z * Z * Z * Z * Z) :=
  let '(t, tp, b1, n1, b2, n2) := st in
  if (0 <? n1) && (0 <? n2) then
    x ← rd b b1; y ← rd b b2;
    if cmp x y <=? 0 then
      t ← wr t tp x; Ok (inl (t, tp + 1, b1 + 1, n1 - 1, b2, n2))
    else
      t ← wr t tp y; Ok (inl (t, tp + 1, b1, n1, b2 + 1, n2 - 1))
  else Ok (inr st).

(** [msort_with_tmp(b + o, n, s, cmp, t)]: returns [b] and [t]. *)
Fixpoint msort_with_tmp (fuel : nat) (b : list A) (o n : Z) (t : list A) : res (list A * list A) :=
  if n <=? 1 then Ok (b, t)
  else match fuel with
  | O => Fault OutOfFuel
  | S fuel =>
      let n1 := n `div` 2 in
      let n2 := n - n1 in
      let b1 := o in
      let b2 := o + n1 in
      '(b, t) ← msort_with_tmp fuel b b1 n1 t;
      '(b, t) ← msort_with_tmp fuel b b2 n2 t;
      '(t, tp, b1, n1, b2, n2) ← loop (S (Z.to_nat n)) (qmerge_step b) (t, 0, b1, n1, b2, n2);
      t ← (if 0 <? n1 then c ← rd_slice b b1 n1; wr_slice t tp c else Ok t);
      c ← rd_slice t 0 (n - n2);
      b ← wr_slice b o c;
      Ok (b, t)
  end.

Definition git_stable_qsort `{Memory} (junk : A) (s : Z) (b : list A) (n : Z) : res (list A) :=
  size ← st_mult n s;
  _ ← xmalloc size;
  '(b, _) ← msort_with_tmp (Z.to_nat n) b 0 n (replicate (Z.to_nat n) junk);
  Ok b.
End Code.

(** ** Reference *)

(** A comparison function whose sign is that of a total preorder. *)
Class CmpOk {A} (cmp : A -> A -> Z) : Prop := {
  cmpok_anti x y : cmp x y < 0 <-> 0 < cmp y x;
  cmpok_trans x y z : cmp x y <= 0 -> cmp y z <= 0 -> cmp x z <= 0;
}.

(** What callers rely on: [qsort] returns a sorted permutation. *)
Class QsortOk {A} (qsort : (A -> A -> Z) -> list A -> list A) : Prop := {
  qsort_perm cmp l : CmpOk cmp -> qsort cmp l ≡ₚ l;
  qsort_sorted cmp l : CmpOk cmp -> StronglySorted (fun x y => cmp x y <= 0) (qsort cmp l);
}.

Section Reference.
Context {A : Type} (cmp : A -> A -> Z).

(** Insert before the first element that is not smaller. *)
Fixpoint sort_insert (x : A) (l : list A) : list A :=
  match l with
  | [] => [x]
  | y :: l' => if cmp x y <=? 0 then x :: l else y :: sort_insert x l'
  end.

(** Insertion sort: equal elements keep their order. *)
Definition isort (l : list A) : list A := foldr sort_insert [] l.

Fixpoint merge_lists (l1 : list A) : list A -> list A :=
  fix go l2 :=
    match l1, l2 with
    | [], _ => l2
    | _, [] => l1
    | x :: l1', y :: l2' => if cmp x y <=? 0 then x :: merge_lists l1' l2 else y :: go l2'
    end.

Lemma merge_nil_l l : merge_lists [] l = l.
Proof. by destruct l. Qed.

Lemma merge_nil_r l : merge_lists l [] = l.
Proof. by destruct l. Qed.

Lemma merge_cons x l1 y l2 : merge_lists (x :: l1) (y :: l2) =
  if cmp x y <=? 0 then x :: merge_lists l1 (y :: l2) else y :: merge_lists (x :: l1) l2.
Proof. done. Qed.

Lemma insert_perm x l : sort_insert x l ≡ₚ x :: l.
Proof.
  induction l as [|y l IH]; simpl; [done|]. destruct (cmp x y <=? 0); [done|].
  rewrite IH. apply Permutation_swap.
Qed.

Lemma isort_perm l : isort l ≡ₚ l.
Proof. induction l as [|x l IH]; simpl; [done|]. by rewrite insert_perm, IH. Qed.

Context `{!CmpOk cmp}.

Lemma insert_keeps_sorted x l : StronglySorted (fun x y => cmp x y <= 0) l ->
  StronglySorted (fun x y => cmp x y <= 0) (sort_insert x l).
Proof using All.
  induction 1 as [|y l Hs IH Hy]; simpl; [by repeat constructor|].
  destruct (Z.leb_spec (cmp x y) 0) as [Hxy|Hxy].
  - constructor; [by constructor|]. constructor; [done|]. eapply Forall_impl; [exact Hy|].
    intros z Hz. by eapply cmpok_trans.
  - constructor; [done|]. rewrite insert_perm. constructor; [|done].
    pose proof (cmpok_anti y x). lia.
Qed.

Lemma isort_sorted l : StronglySorted (fun x y => cmp x y <= 0) (isort l).
Proof using All. induction l as [|x l IH]; simpl; [constructor|]. by apply insert_keeps_sorted. Qed.

(** Stability: the elements equal to [x] keep their order. *)
Lemma insert_stable x y l : filter (fun z => cmp x z = 0) (sort_insert y l) = filter (fun z => cmp x z = 0) (y :: l).
Proof using All.
  induction l as [|z l IH]; cbn [sort_insert]; [done|].
  destruct (Z.leb_spec (cmp y z) 0) as [Hle|Hgt]; [done|].
  rewrite (filter_cons _ z), IH, !filter_cons.
  destruct (decide (cmp x y = 0)) as [Hy|], (decide (cmp x z = 0)) as [Hz|]; try done.
  exfalso. pose proof (cmpok_anti x y). pose proof (cmpok_anti y x). pose proof (cmpok_trans y x z). lia.
Qed.

Lemma isort_stable x l : filter (fun z => cmp x z = 0) (isort l) = filter (fun z => cmp x z = 0) l.
Proof using All.
  induction l as [|y l IH]; [done|]. change (isort (y :: l)) with (sort_insert y (isort l)).
  by rewrite insert_stable, !filter_cons, IH.
Qed.

(** Merging in the earlier of two sorted lists. *)
Lemma merge_insert x l1 : forall l2, merge_lists (sort_insert x l1) l2 = sort_insert x (merge_lists l1 l2).
Proof using All.
  induction l1 as [|a l1 IH1].
  - intros l2. rewrite merge_nil_l. cbn [sort_insert]. induction l2 as [|y l2 IH2]; [done|].
    rewrite merge_cons, merge_nil_l. cbn [sort_insert]. destruct (cmp x y <=? 0); [done|]. by rewrite IH2.
  - intros l2. cbn [sort_insert]. destruct (Z.leb_spec (cmp x a) 0) as [Hxa|Hxa].
    + induction l2 as [|y l2 IH2].
      { rewrite !merge_nil_r. cbn [sort_insert]. destruct (Z.leb_spec (cmp x a) 0); [done|lia]. }
      rewrite (merge_cons x). destruct (Z.leb_spec (cmp x y) 0) as [Hxy|Hxy].
      * rewrite merge_cons. destruct (cmp a y <=? 0); cbn [sort_insert].
        -- destruct (Z.leb_spec (cmp x a) 0); [done|lia].
        -- destruct (Z.leb_spec (cmp x y) 0); [done|lia].
      * rewrite merge_cons.
        assert (0 < cmp a y) as Hay.
        { destruct (Z_lt_le_dec 0 (cmp a y)) as [|Hle]; [done|].
          pose proof (cmpok_trans x a y Hxa Hle). lia. }
        destruct (Z.leb_spec (cmp a y) 0); [lia|]. cbn [sort_insert].
        destruct (Z.leb_spec (cmp x y) 0); [lia|]. f_equal. exact IH2.
    + induction l2 as [|y l2 IH2].
      { rewrite !merge_nil_r. cbn [sort_insert]. destruct (Z.leb_spec (cmp x a) 0); [lia|done]. }
      rewrite !merge_cons. destruct (Z.leb_spec (cmp a y) 0) as [Hay|Hay].
      * cbn [sort_insert]. destruct (Z.leb_spec (cmp x a) 0); [lia|]. by rewrite IH1.
      * cbn [sort_insert]. rewrite IH2. destruct (Z.leb_spec (cmp x y) 0) as [Hxy|]; [|done].
        exfalso. pose proof (cmpok_anti y a). pose proof (cmpok_trans x y a Hxy). lia.
Qed.

Lemma merge_isort l1 l2 : merge_lists (isort l1) (isort l2) = isort (l1 ++ l2).
Proof using All.
  induction l1 as [|x l1 IH]; cbn [isort foldr app]; [apply merge_nil_l|].
  change (merge_lists (sort_insert x (isort l1)) (isort l2) = sort_insert x (isort (l1 ++ l2))).
  by rewrite merge_insert, IH.
Qed.
End Reference.

(** ** The merge loop *)

Section Merge.
Context {A : Type} (cmp : A -> A -> Z) (b : list A).

Record merged (t : list A) (tp b1 n1 b2 n2 : Z) (r : list A * Z * Z * Z * Z * Z) (M : list A) : Prop := {
  m_t : r.1.1.1.1.1 = take (Z.to_nat tp) t ++ M ++ drop (Z.to_nat (tp + len M)) t;
  m_tp : r.1.1.1.1.2 = tp + len M;
  m_b1 : r.1.1.1.2 + r.1.1.2 = b1 + n1;
  m_b2 : r.1.2 + r.2 = b2 + n2;
  m_n1 : 0 <= r.1.1.2 <= n1;
  m_n2 : 0 <= r.2 <= n2;
  m_end : r.1.1.2 = 0 \/ r.2 = 0;
  m_len : len M = (n1 - r.1.1.2) + (n2 - r.2);
  m_merge : M ++ slice b r.1.1.1.2 r.1.1.2 ++ slice b r.1.2 r.2 =
              merge_lists cmp (slice b b1 n1) (slice b b2 n2);
}.

Lemma merged_nil t tp b1 n1 b2 n2 : 0 <= n1 -> 0 <= n2 -> n1 = 0 \/ n2 = 0 ->
  merged t tp b1 n1 b2 n2 (t, tp, b1, n1, b2, n2) [].
Proof.
  intros Hn1 Hn2 Hn. constructor; cbn [fst snd]; autorewrite with len; try lia.
  - rewrite Z.add_0_r. cbn [app]. by rewrite take_drop.
  - destruct Hn as [-> | ->].
    + rewrite (slice_nil b b1 0) by done. by rewrite merge_nil_l.
    + rewrite (slice_nil b b2 0) by done. by rewrite merge_nil_r, app_nil_r.
Qed.

Lemma qmerge_loop k : forall fuel t tp b1 n1 b2 n2,
  0 <= n1 -> 0 <= n2 -> n1 + n2 <= Z.of_nat k -> (k < fuel)%nat -> 0 <= tp -> tp + n1 + n2 <= len t ->
  0 <= b1 -> b1 + n1 <= len b -> 0 <= b2 -> b2 + n2 <= len b ->
  exists r M, loop fuel (qmerge_step cmp b) (t, tp, b1, n1, b2, n2) = Ok r /\
    merged t tp b1 n1 b2 n2 r M.
Proof.
  induction k as [|k IH]; intros fuel t tp b1 n1 b2 n2 Hn1 Hn2 Hk Hf Htp Ht Hb1 Hl1 Hb2 Hl2;
    (destruct fuel as [|fuel]; [lia|]); rewrite loop_S; unfold qmerge_step at 1.
  { destruct (Z.ltb_spec 0 n1); [lia|]. eexists _, []. split; [done|]. apply merged_nil; lia. }
  destruct (Z.ltb_spec 0 n1) as [H1|H1], (Z.ltb_spec 0 n2) as [H2|H2]; cbn [andb].
  2,3,4: eexists _, []; (split; [done|]); apply merged_nil; lia.
  destruct (lookup_lt_is_Some_2 b (Z.to_nat b1)) as [x Hx]; [llia|].
  destruct (lookup_lt_is_Some_2 b (Z.to_nat b2)) as [y Hy]; [llia|].
  rewrite (rd_Some b b1 x), (rd_Some b b2 y) by (done || lia). cbn [mbind res_bind].
  assert (forall z b1' n1' b2' n2' r M, merged (<[Z.to_nat tp := z]> t) (tp + 1) b1' n1' b2' n2' r M ->
    b1' + n1' = b1 + n1 -> b2' + n2' = b2 + n2 -> n1' + n2' = n1 + n2 - 1 -> n1' <= n1 -> n2' <= n2 ->
    merge_lists cmp (slice b b1 n1) (slice b b2 n2) = z :: merge_lists cmp (slice b b1' n1') (slice b b2' n2') ->
    merged t tp b1 n1 b2 n2 r (z :: M)) as Hstep.
  { intros z b1' n1' b2' n2' r M [M1 M2 M3 M4 M5 M6 M7 M8 M9] E1 E2 E3 E4 E5 E6. pose proof (len_nonneg M).
    constructor; rewrite ?len_cons; try lia.
    - rewrite M1. replace (Z.to_nat (tp + 1)) with (S (Z.to_nat tp)) by lia.
      rewrite (take_S_r _ _ z) by (apply list_lookup_insert_eq; llia).
      rewrite take_insert_ge, drop_insert_lt by lia. rewrite <- app_assoc. cbn [app]. do 3 f_equal. f_equal. lia.
    - cbn [app]. by rewrite M9, E6. }
  destruct (Z.leb_spec (cmp x y) 0) as [Hc|Hc]; rewrite wr_ok by lia; cbn [mbind res_bind].
  - destruct (IH fuel (<[Z.to_nat tp := x]> t) (tp + 1) (b1 + 1) (n1 - 1) b2 n2) as (r & M & -> & Hm);
      rewrite ?len_insert; try lia.
    exists r, (x :: M). split; [done|]. eapply Hstep; [exact Hm|lia..|].
    rewrite (slice_cons b b1 n1 x), (slice_cons b b2 n2 y) by (done || lia).
    rewrite merge_cons. destruct (Z.leb_spec (cmp x y) 0); [done|lia].
  - destruct (IH fuel (<[Z.to_nat tp := y]> t) (tp + 1) b1 n1 (b2 + 1) (n2 - 1)) as (r & M & -> & Hm);
      rewrite ?len_insert; try lia.
    exists r, (y :: M). split; [done|]. eapply Hstep; [exact Hm|lia..|].
    rewrite (slice_cons b b1 n1 x), (slice_cons b b2 n2 y) by (done || lia).
    rewrite merge_cons. destruct (Z.leb_spec (cmp x y) 0); [lia|done].
Qed.
End Merge.

Section Sort.
Context {A : Type} (cmp : A -> A -> Z) `{!CmpOk cmp}.

Lemma isort_len l : len (isort cmp l) = len l.
Proof. unfold len. by rewrite (isort_perm cmp l). Qed.

(** The copies after the merge loop: [t] holds the merged cells in front. *)
Lemma msort_copy pre s1 s2 post t r M :
  len s1 + len s2 <= len t ->
  merged cmp (pre ++ s1 ++ s2 ++ post) t 0 (len pre) (len s1) (len pre + len s1) (len s2) r M ->
  let '(t1, tp, b1, n1, b2, n2) := r in
  exists t', (t ← (if 0 <? n1 then c ← rd_slice (pre ++ s1 ++ s2 ++ post) b1 n1; wr_slice t1 tp c else Ok t1);
    c ← rd_slice t 0 (len s1 + len s2 - n2);
    b ← wr_slice (pre ++ s1 ++ s2 ++ post) (len pre) c; Ok (b, t)) =
    Ok (pre ++ merge_lists cmp s1 s2 ++ post, t') /\ len t' = len t.
Proof.
  intros Ht [M1 M2 M3 M4 M5 M6 M7 M8 M9]. destruct r as [[[[[t1 tp] b1] n1] b2] n2]. cbn [fst snd] in *.
  set (b := pre ++ s1 ++ s2 ++ post) in *. pose proof (len_nonneg M). pose proof (len_nonneg pre).
  pose proof (len_nonneg post).
  assert (len b = len pre + len s1 + len s2 + len post) as Hlb by (unfold b; autorewrite with len; lia).
  assert (slice b (len pre) (len s1) = s1) as E1 by (unfold b; by apply slice_app_at).
  rewrite E1 in M9.
  assert (slice b (len pre + len s1) (len s2) = s2) as E2.
  { unfold b. rewrite (app_assoc pre). apply slice_app_at; autorewrite with len; lia. }
  rewrite E2 in M9. rewrite Z.add_0_l in M1, M2. change (take (Z.to_nat 0) t ++ ?x) with x in M1.
  set (c1 := slice b b1 n1) in *. set (c2 := slice b b2 n2) in *.
  assert (len c1 = n1) as Hc1 by (apply len_slice; lia).
  assert (len c2 = n2) as Hc2 by (apply len_slice; lia).
  set (t2 := M ++ c1 ++ drop (Z.to_nat (len M + n1)) t).
  assert ((if 0 <? n1 then c ← rd_slice b b1 n1; wr_slice t1 tp c else Ok t1) = Ok t2) as ->.
  { assert (len t1 = len t) as Hlt1.
    { rewrite M1, len_app. unfold len in *. rewrite length_drop. lia. }
    destruct (Z.ltb_spec 0 n1).
    - rewrite rd_slice_ok by lia. cbn [mbind res_bind]. fold c1.
      rewrite wr_slice_ok by lia. f_equal. unfold t2. rewrite M1, M2.
      rewrite take_app_length' by llia. rewrite drop_app_ge by llia. rewrite drop_drop.
      do 3 f_equal. llia.
    - assert (n1 = 0) as -> by lia. unfold t2. assert (c1 = []) as -> by (unfold c1; by rewrite slice_nil).
      rewrite Z.add_0_r. by rewrite M1. }
  assert (len t2 = len t) as Hlt2.
  { unfold t2. rewrite !len_app. unfold len in *. rewrite length_drop. lia. }
  cbn [mbind res_bind]. replace (len s1 + len s2 - n2) with (len (M ++ c1)) by (rewrite len_app; lia).
  rewrite rd_slice_ok; [|lia|apply len_nonneg|rewrite len_app; lia].
  assert (slice t2 0 (len (M ++ c1)) = M ++ c1) as ->.
  { unfold t2. rewrite app_assoc. apply (slice_app_at []); done. }
  cbn [mbind res_bind]. rewrite wr_slice_ok; [|lia|rewrite len_app; lia]. cbn [mbind res_bind].
  exists t2. split; [|done]. f_equal. f_equal. rewrite <- M9, <- !app_assoc.
  unfold b at 1. rewrite take_app_length' by llia. do 3 f_equal.
  assert (len (M ++ c1) = len s1 + len s2 - n2) as Hmc by (rewrite len_app; lia).
  assert (drop (Z.to_nat (len pre) + length (M ++ c1)) b = drop (Z.to_nat b2) b) as ->.
  { f_equal. llia. }
  unfold c2, slice. rewrite <- (take_drop (Z.to_nat n2) (drop (Z.to_nat b2) b)) at 1. f_equal.
  rewrite drop_drop. unfold b. rewrite !app_assoc. apply drop_app_length'. rewrite !length_app. llia.
Qed.

Lemma msort_spec fuel : forall pre l post t,
  (length l <= fuel)%nat -> len l <= len t ->
  exists t', msort_with_tmp cmp fuel (pre ++ l ++ post) (len pre) (len l) t =
    Ok (pre ++ isort cmp l ++ post, t') /\ len t' = len t.
Proof using All.
  induction fuel as [|fuel IH]; intros pre l post t Hf Ht; cbn [msort_with_tmp].
  { destruct l; [|simpl in Hf; lia]. exists t. done. }
  destruct (Z.leb_spec (len l) 1) as [H1|H1].
  { exists t. split; [|done]. destruct l as [|x [|]]; [done|done|autorewrite with len in H1; pose proof (len_nonneg l); lia]. }
  set (n1 := len l `div` 2). set (l1 := take (Z.to_nat n1) l). set (l2 := drop (Z.to_nat n1) l).
  assert (0 < n1 < len l) as Hn1 by (unfold n1; dlia).
  assert (len l1 = n1) as Hl1 by (unfold l1, len in *; rewrite length_take; lia).
  assert (len l2 = len l - n1) as Hl2 by (unfold l2, len in *; rewrite length_drop; lia).
  assert (l = l1 ++ l2) as El by (symmetry; apply take_drop).
  assert (pre ++ l ++ post = pre ++ l1 ++ l2 ++ post) as ->.
  { unfold l1, l2. by rewrite (app_assoc (take _ l)), take_drop. }
  destruct (IH pre l1 (l2 ++ post) t) as (t1 & E1 & Ht1); [llia|lia|]. rewrite Hl1 in E1. rewrite E1.
  cbn [mbind res_bind].
  destruct (IH (pre ++ isort cmp l1) l2 post t1) as (t2 & E2 & Ht2); [llia|lia|].
  rewrite len_app, isort_len, Hl1, Hl2, <- !app_assoc in E2. rewrite E2. cbn [mbind res_bind].
  set (b := pre ++ isort cmp l1 ++ isort cmp l2 ++ post).
  assert (len b = len pre + len l + len post) as Hlb.
  { unfold b. autorewrite with len. rewrite !isort_len. lia. }
  pose proof (len_nonneg pre). pose proof (len_nonneg post).
  destruct (qmerge_loop cmp b (Z.to_nat (len l)) (S (Z.to_nat (len l))) t2 0 (len pre) n1 (len pre + n1) (len l - n1))
    as (r & M & -> & Hm); try lia.
  cbn [mbind res_bind].
  pose proof (msort_copy pre (isort cmp l1) (isort cmp l2) post t2 r M) as Hcopy.
  rewrite !isort_len, Hl1, Hl2 in Hcopy. fold b in Hcopy. specialize (Hcopy ltac:(lia) Hm).
  destruct r as [[[[[t3 tp] b1] m1] b2] m2].
  replace (n1 + (len l - n1)) with (len l) in Hcopy by lia.
  destruct Hcopy as (t' & -> & Ht'). exists t'. rewrite merge_isort by done. rewrite <- El. split; [done|lia].
Qed.

Lemma git_stable_qsort_spec `{Memory} junk s b n :
  0 <= n <= len b -> 0 < s -> n * s < 2 ^ 63 ->
  wp oom (git_stable_qsort cmp junk s b n) (fun b' =>
    b' = isort cmp (take (Z.to_nat n) b) ++ drop (Z.to_nat n) b).
Proof using All.
  intros Hn Hs Hns. unfold git_stable_qsort. rewrite st_mult_ok by nia. cbn [mbind res_bind].
  apply wp_bind. assert (wp oom (xmalloc (n * s)) (fun _ => True)) as Hmal.
  { destruct (decide (n = 0)) as [->|]; [apply xmalloc_oom0|apply xmalloc_oom; nia]. }
  eapply wp_mono; [exact Hmal|]. intros [] _. set (l := take (Z.to_nat n) b).
  assert (len l = n) as Hl by (unfold l, len in *; rewrite length_take; lia).
  destruct (msort_spec (Z.to_nat n) [] l (drop (Z.to_nat n) b) (replicate (Z.to_nat n) junk)) as (t' & E & _).
  { llia. } { unfold len in *. rewrite length_replicate. lia. }
  rewrite Hl in E. cbn [app] in E. unfold l in E at 1. rewrite take_drop in E. change (len []) with 0 in E.
  rewrite E. done.
Qed.
End Sort.

(** ** The interface *)

(** [git_stable_qsort] as the sorting function of its callers. *)
Definition stable_qsort {A} (junk : A) (cmp : A -> A -> Z) (l : list A) : list A :=
  match msort_with_tmp cmp (length l) l 0 (len l) (replicate (length l) junk) with
  | Ok (l', _) => l'
  | Fault _ => l
  end.

Lemma stable_qsort_isort {A} (junk : A) cmp `{!CmpOk cmp} l : stable_qsort junk cmp l = isort cmp l.
Proof.
  unfold stable_qsort.
  destruct (msort_spec cmp (length l) [] l [] (replicate (length l) junk)) as (t' & E & _).
  { done. } { unfold len. by rewrite length_replicate. }
  change (len []) with 0 in E. rewrite app_nil_r, app_nil_l in E. rewrite E. by rewrite app_nil_r.
Qed.

#[export] Instance stable_qsort_ok {A} (junk : A) : QsortOk (stable_qsort junk).
Proof.
  split; intros cmp l Hc; rewrite stable_qsort_isort by done; [apply isort_perm|by apply isort_sorted].
Qed.

(** [sane_qsort] of the first [nr] cells, with the [qsort] of the C library. *)
Definition QSORT {A} (qsort : (A -> A -> Z) -> list A -> list A) (l : list A) (nr : Z) (cmp : A -> A -> Z) : list A :=
  if 1 <? nr then qsort cmp (take (Z.to_nat nr) l) ++ drop (Z.to_nat nr) l else l.

Lemma QSORT_sorted {A} (qsort : (A -> A -> Z) -> list A -> list A) `{!QsortOk qsort} cmp `{!CmpOk cmp} l nr :
  0 <= nr <= len l ->
  exists k, QSORT qsort l nr cmp = k ++ drop (Z.to_nat nr) l /\ len k = nr /\
    k ≡ₚ take (Z.to_nat nr) l /\ StronglySorted (fun r s => cmp r s <= 0) k.
Proof.
  intros Hn. unfold QSORT. assert (length (take (Z.to_nat nr) l) = Z.to_nat nr) as Ht by (rewrite length_take; llia).
  destruct (Z.ltb_spec 1 nr).
  - eexists. split; [done|]. pose proof (qsort_perm cmp (take (Z.to_nat nr) l) _) as Hp. split_and!.
    + apply Permutation_length in Hp. llia.
    + done.
    + apply qsort_sorted, _.
  - exists (take (Z.to_nat nr) l). split_and!; [by rewrite take_drop|llia|done|].
    destruct (take (Z.to_nat nr) l) as [|r [|]]; simpl in Ht; [constructor|by repeat constructor|lia].
Qed.

(** C9: given a comparison function that is a total preorder and less than [2 ^ 63] bytes of cells,
    [git_stable_qsort] returns (or dies because an allocation failed) with the
    first [n] cells of the array sorted as insertion sort does it, so sorted,
    a permutation, and with equal cells in their original order; the other
    cells are untouched.  It reads and writes only inside the array and the
    temporary one. *)
Theorem git_stable_qsort_stable `{Memory} {A} (cmp : A -> A -> Z) (junk : A) (s : Z) (b : list A) (n : Z) :
  CmpOk cmp -> 0 <= n <= len b -> 0 < s -> n * s < 2 ^ 63 ->
  wp oom (git_stable_qsort cmp junk s b n) (fun b' =>
    b' = isort cmp (take (Z.to_nat n) b) ++ drop (Z.to_nat n) b /\
    isort cmp (take (Z.to_nat n) b) ≡ₚ take (Z.to_nat n) b /\
    StronglySorted (fun x y => cmp x y <= 0) (isort cmp (take (Z.to_nat n) b)) /\
    forall x, filter (fun y => cmp x y = 0) (isort cmp (take (Z.to_nat n) b)) =
              filter (fun y => cmp x y = 0) (take (Z.to_nat n) b)).
Proof.
  intros Hc Hn Hs Hns. eapply wp_mono; [by apply git_stable_qsort_spec|].
  intros b' ->. split_and!; [done|apply isort_perm|by apply isort_sorted|].
  intros x. by apply isort_stable.
Qed.

(** Pairs compared by their first component. *)
Definition fst_cmp (x y : Z * Z) : Z := x.1 - y.1.

#[export] Instance fst_cmp_ok : CmpOk fst_cmp.
Proof. split; unfold fst_cmp; intros; lia. Qed.

Lemma git_stable_qsort_stable_witness :
  wp (@oom plenty) (@git_stable_qsort (Z * Z) fst_cmp plenty (0, 0) 16 [(2, 0); (1, 1); (2, 2); (1, 3); (0, 4)] 4)
    (fun b' => b' = [(1, 1); (1, 3); (2, 0); (2, 2); (0, 4)]).
Proof.
  refine (wp_mono _ _ _ _ (@git_stable_qsort_stable plenty _ fst_cmp (0, 0) 16
    [(2, 0); (1, 1); (2, 2); (1, 3); (0, 4)] 4 fst_cmp_ok ltac:(vm_compute; split; discriminate)
    ltac:(lia) ltac:(lia)) _).
  intros b' (-> & _). reflexivity.
Defined.
