(* ===== verification/LineLog.v ===== *)
(** * Line ranges of [git log -L]: [line-log.c], [line-log.h]

    Sets of line ranges: appending, sorting and merging, union, difference, the
    selection of the hunks that touch a set and the mapping of a set across a
    diff.  [qsort] is the C library's and a parameter.  A range set stands for
    the lines it covers; the theorems say that the operations compute the union
    and the difference of these sets of lines, keep the documented form of a
    range set, never fail an assertion and never leave an array.

    Line numbers are of type [long], 64 bits wide here: arithmetic on them that
    leaves the type is undefined ([as_long]). *)

From stdpp Require Import prelude numbers list sorting.
From S2P Require Import Prelude PatchDelta Alloc StableQsort.

Record range := mkRange { start : Z; end_ : Z }.
Record range_set := mkRS { rs_alloc : Z; rs_nr : Z; ranges : list range }.
Record diff_ranges := mkDR { parent : range_set; target : range_set }.

(** The result of signed arithmetic on [long]. *)
Definition as_long (z : Z) : res Z :=
  if (- 2 ^ 63 <=? z) && (z <? 2 ^ 63) then Ok z else Fault UB.

Lemma as_long_ok z : - 2 ^ 63 <= z < 2 ^ 63 -> as_long z = Ok z.
Proof.
  intros Hz. unfold as_long. destruct (Z.leb_spec (- 2 ^ 63) z), (Z.ltb_spec z (2 ^ 63)); (done || lia).
Qed.

Section Code.
Context `{Memory} (junk : range).
(** [qsort] of the C library, on an array of ranges. *)
Context (qsort : (range -> range -> Z) -> list range -> list range).

(** [sizeof(struct range)]. *)
Definition sizeof_range : Z := 16.

Definition range_set_grow (rs : range_set) (extra : Z) : res range_set :=
  '(r, al) ← ALLOC_GROW junk sizeof_range u32 (ranges rs) (rs_nr rs + extra) (rs_alloc rs);
  Ok (mkRS al (rs_nr rs) r).

Definition range_set_init (prealloc : Z) : res range_set :=
  let rs := mkRS 0 0 [] in
  if tr prealloc then range_set_grow rs prealloc else Ok rs.

Definition range_set_release (rs : range_set) : range_set := mkRS 0 0 [].

Definition range_set_copy (src : range_set) : res range_set :=
  dst ← range_set_init (rs_nr src);
  r ← rd_slice (ranges src) 0 (rs_nr src);
  r ← wr_slice (ranges dst) 0 r;
  Ok (mkRS (rs_alloc dst) (rs_nr src) r).

(** Returns [dst] and [src]. *)
Definition range_set_move (dst src : range_set) : range_set * range_set :=
  let dst := range_set_release dst in
  (mkRS (rs_alloc src) (rs_nr src) (ranges src), mkRS 0 0 []).

Definition range_set_append_unsafe (rs : range_set) (a b : Z) : res range_set :=
  _ ← assert (a <=? b);
  rs ← range_set_grow rs 1;
  r ← wr (ranges rs) (rs_nr rs) (mkRange a b);
  Ok (mkRS (rs_alloc rs) (u32 (rs_nr rs + 1)) r).

Definition range_set_append (rs : range_set) (a b : Z) : res range_set :=
  ok ← (if rs_nr rs =? 0 then Ok true
        else last ← rd (ranges rs) (rs_nr rs - 1); Ok (end_ last <=? a));
  _ ← assert ok;
  range_set_append_unsafe rs a b.

Definition range_cmp (r s : range) : Z :=
  if start r =? start s then 0 else if start r <? start s then -1 else 1.

Definition check_step (rs : range_set) (i : Z) : res (Z + unit) :=
  if i <? rs_nr rs then
    p ← rd (ranges rs) (i - 1); r ← rd (ranges rs) i;
    _ ← assert (end_ p <? start r);
    _ ← assert (start r <? end_ r);
    Ok (inl (i + 1))
  else Ok (inr tt).

Definition range_set_check_invariants (rs : range_set) : res unit :=
  _ ← (if tr (rs_nr rs) then r ← rd (ranges rs) 0; assert (start r <? end_ r) else Ok tt);
  loop (S (Z.to_nat (rs_nr rs))) (check_step rs) 1.

Definition merge_step (nr : Z) (s : list range * Z * Z) : res (list range * Z * Z + list range * Z) :=
  let '(l, i, o) := s in
  if i <? nr then
    r ← rd l i;
    if start r =? end_ r then Ok (inl (l, i + 1, o))
    else
      overlap ← (if 0 <? o then p ← rd l (o - 1); Ok (start r <=? end_ p) else Ok false);
      if overlap : bool then
        p ← rd l (o - 1);
        if end_ p <? end_ r then
          l ← wr l (o - 1) (mkRange (start p) (end_ r)); Ok (inl (l, i + 1, o))
        else Ok (inl (l, i + 1, o))
      else
        l ← wr l o (mkRange (start r) (end_ r)); Ok (inl (l, i + 1, o + 1))
  else Ok (inr (l, o)).

Definition sort_and_merge_range_set (rs : range_set) : res range_set :=
  let l := QSORT qsort (ranges rs) (rs_nr rs) range_cmp in
  '(l, o) ← loop (S (Z.to_nat (rs_nr rs))) (merge_step (rs_nr rs)) (l, 0, 0);
  _ ← assert (o <=? rs_nr rs);
  let rs := mkRS (rs_alloc rs) o l in
  _ ← range_set_check_invariants rs;
  Ok rs.

(** The choice of [new_range]: the range and the advanced [i] and [j]. *)
Definition union_next (a b : range_set) (i j : Z) : res (range * Z * Z) :=
  if (i <? rs_nr a) && (j <? rs_nr b) then
    ra ← rd (ranges a) i; rb ← rd (ranges b) j;
    if start ra <? start rb then Ok (ra, i + 1, j)
    else if start rb <? start ra then Ok (rb, i, j + 1)
    else if end_ ra <? end_ rb then Ok (ra, i + 1, j)
    else Ok (rb, i, j + 1)
  else if i <? rs_nr a then ra ← rd (ranges a) i; Ok (ra, i + 1, j)
  else rb ← rd (ranges b) j; Ok (rb, i, j + 1).

(** What the loop does with [new_range]. *)
Definition union_add (out : range_set) (r : range) : res range_set :=
  if start r =? end_ r then Ok out
  else
    fresh ← (if rs_nr out =? 0 then Ok true
             else last ← rd (ranges out) (rs_nr out - 1); Ok (end_ last <? start r));
    if fresh : bool then
      out ← range_set_grow out 1;
      l ← wr (ranges out) (rs_nr out) (mkRange (start r) (end_ r));
      Ok (mkRS (rs_alloc out) (u32 (rs_nr out + 1)) l)
    else
      last ← rd (ranges out) (rs_nr out - 1);
      if end_ last <? end_ r then
        l ← wr (ranges out) (rs_nr out - 1) (mkRange (start last) (end_ r));
        Ok (mkRS (rs_alloc out) (rs_nr out) l)
      else Ok out.

Definition union_step (a b : range_set) (s : range_set * Z * Z)
    : res (range_set * Z * Z + range_set) :=
  let '(out, i, j) := s in
  if (i <? rs_nr a) || (j <? rs_nr b) then
    '(r, i, j) ← union_next a b i j;
    out ← union_add out r;
    Ok (inl (out, i, j))
  else Ok (inr out).

Definition range_set_union (out a b : range_set) : res range_set :=
  _ ← assert (rs_nr out =? 0);
  loop (S (Z.to_nat (rs_nr a + rs_nr b))) (union_step a b) (out, 0, 0).

(** The innermost loop of [range_set_difference]. *)
Definition skip_b_step (b : range_set) (s : Z) (j : Z) : res (Z + Z) :=
  if j <? rs_nr b then
    rb ← rd (ranges b) j;
    if end_ rb <=? s then Ok (inl (j + 1)) else Ok (inr j)
  else Ok (inr j).

(** The loop over one range of [a]: [out], [start] and [j]. *)
Definition diff_step (b : range_set) (e : Z) (st : range_set * Z * Z)
    : res (range_set * Z * Z + range_set * Z) :=
  let '(out, s, j) := st in
  if s <? e then
    j ← loop (S (Z.to_nat (rs_nr b))) (skip_b_step b s) j;
    last ← (if rs_nr b <=? j then Ok true else rb ← rd (ranges b) j; Ok (e <=? start rb));
    if last : bool then
      out ← range_set_append out s e; Ok (inr (out, j))
    else
      rb ← rd (ranges b) j;
      if start rb <=? s then Ok (inl (out, end_ rb, j))
      else if start rb <? e then
        out ← (if s <? start rb then range_set_append out s (start rb) else Ok out);
        Ok (inl (out, end_ rb, j))
      else Ok (inl (out, s, j))
  else Ok (inr (out, j)).

Definition difference_step (a b : range_set) (s : range_set * Z * Z)
    : res (range_set * Z * Z + range_set) :=
  let '(out, i, j) := s in
  if i <? rs_nr a then
    ra ← rd (ranges a) i;
    '(out, j) ← loop (2 * Z.to_nat (rs_nr b) + 3) (diff_step b (end_ ra)) (out, start ra, j);
    Ok (inl (out, i + 1, j))
  else Ok (inr out).

Definition range_set_difference (out a b : range_set) : res range_set :=
  loop (S (Z.to_nat (rs_nr a))) (difference_step a b) (out, 0, 0).

Definition ranges_overlap (a b : range) : bool :=
  negb ((end_ a <=? start b) || (end_ b <=? start a)).

(** The while loop of [diff_ranges_filter_touched]; [None] is its [return]. *)
Definition touch_skip (rs : range_set) (t : range) (j : Z) : res (Z + option Z) :=
  r ← rd (ranges rs) j;
  if end_ r <=? start t then
    let j := j + 1 in
    if j =? rs_nr rs then Ok (inr None) else Ok (inl j)
  else Ok (inr (Some j)).

Definition touched_step (diff : diff_ranges) (rs : range_set) (s : diff_ranges * Z * Z)
    : res (diff_ranges * Z * Z + diff_ranges) :=
  let '(out, i, j) := s in
  if i <? rs_nr (target diff) then
    t ← rd (ranges (target diff)) i;
    o ← loop (S (Z.to_nat (rs_nr rs))) (touch_skip rs t) j;
    match o with
    | None => Ok (inr out)
    | Some j =>
        r ← rd (ranges rs) j;
        if ranges_overlap t r then
          p ← rd (ranges (parent diff)) i;
          op ← range_set_append (parent out) (start p) (end_ p);
          ot ← range_set_append (target out) (start t) (end_ t);
          Ok (inl (mkDR op ot, i + 1, j))
        else Ok (inl (out, i + 1, j))
    end
  else Ok (inr out).

Definition diff_ranges_filter_touched (out diff : diff_ranges) (rs : range_set) : res diff_ranges :=
  _ ← assert (rs_nr (target out) =? 0);
  loop (S (Z.to_nat (rs_nr (target diff)))) (touched_step diff rs) (out, 0, 0).

Definition shift_skip (diff : diff_ranges) (s : Z) (st : Z * Z) : res (Z * Z + Z * Z) :=
  let '(offset, j) := st in
  if j <? rs_nr (target diff) then
    t ← rd (ranges (target diff)) j;
    if start t <=? s then
      p ← rd (ranges (parent diff)) j;
      dp ← as_long (end_ p - start p);
      dt ← as_long (end_ t - start t);
      d ← as_long (dp - dt);
      offset ← as_long (offset + d);
      Ok (inl (offset, j + 1))
    else Ok (inr (offset, j))
  else Ok (inr (offset, j)).

Definition shift_step (rs : range_set) (diff : diff_ranges) (s : range_set * Z * Z * Z)
    : res (range_set * Z * Z * Z + range_set) :=
  let '(out, i, offset, j) := s in
  if i <? rs_nr rs then
    r ← rd (ranges rs) i;
    '(offset, j) ← loop (S (Z.to_nat (rs_nr (target diff)))) (shift_skip diff (start r)) (offset, j);
    s ← as_long (start r + offset);
    e ← as_long (end_ r + offset);
    out ← range_set_append out s e;
    Ok (inl (out, i + 1, offset, j))
  else Ok (inr out).

Definition range_set_shift_diff (out rs : range_set) (diff : diff_ranges) : res range_set :=
  loop (S (Z.to_nat (rs_nr rs))) (shift_step rs diff) (out, 0, 0, 0).

Definition diff_ranges_init : res diff_ranges :=
  p ← range_set_init 0; t ← range_set_init 0; Ok (mkDR p t).

(** [sizeof(struct diff_ranges)]. *)
Definition sizeof_diff_ranges : Z := 32.

(** Returns [out] and the touched hunks. *)
Definition range_set_map_across_diff (out rs : range_set) (diff : diff_ranges)
    : res (range_set * diff_ranges) :=
  _ ← xmalloc sizeof_diff_ranges;
  touched ← diff_ranges_init;
  touched ← diff_ranges_filter_touched touched diff rs;
  tmp1 ← range_set_difference (mkRS 0 0 []) rs (target touched);
  tmp2 ← range_set_shift_diff (mkRS 0 0 []) tmp1 diff;
  out ← range_set_union out tmp2 (parent touched);
  Ok (out, touched).

End Code.

(** ** What a range set stands for *)

Definition inr_ (r : range) (x : Z) : Prop := start r <= x < end_ r.
(** The line [x] is in one of the ranges. *)
Definition covers (l : list range) (x : Z) : Prop := exists r, r ∈ l /\ inr_ r x.

(** The documented form of a range set: nonempty ranges, sorted, with a gap
    between them. *)
Definition canonical (l : list range) : Prop :=
  StronglySorted (fun r s => end_ r < start s) l /\ Forall (fun r => start r < end_ r) l.

(** Sorted and disjoint, possibly adjacent or empty: the hunks of a diff. *)
Definition ordered (l : list range) : Prop :=
  StronglySorted (fun r s => end_ r <= start s) l /\ Forall (fun r => start r <= end_ r) l.

Definition sorted_start (l : list range) : Prop :=
  StronglySorted (fun r s => start r <= start s) l /\ Forall (fun r => start r <= end_ r) l.

Lemma covers_app l k x : covers (l ++ k) x <-> covers l x \/ covers k x.
Proof. unfold covers. setoid_rewrite elem_of_app. firstorder. Qed.

Lemma covers_cons r l x : covers (r :: l) x <-> inr_ r x \/ covers l x.
Proof. unfold covers. setoid_rewrite elem_of_cons. naive_solver. Qed.

Lemma covers_nil x : covers [] x <-> False.
Proof. unfold covers. setoid_rewrite elem_of_nil. naive_solver. Qed.

Lemma covers_perm l k x : l ≡ₚ k -> covers l x <-> covers k x.
Proof. intros Hp. unfold covers. by setoid_rewrite Hp. Qed.

#[export] Instance covers_proper : Proper ((≡ₚ) ==> eq ==> iff) covers.
Proof. intros l k Hp x ? <-. by apply covers_perm. Qed.

Lemma canonical_ordered l : canonical l -> ordered l.
Proof.
  intros [Hs Hf]. split; [|eapply Forall_impl; [exact Hf|]; simpl; lia].
  clear Hf. induction Hs as [|r l Hs IH Hr]; constructor; [done|].
  eapply Forall_impl; [exact Hr|]. simpl. lia.
Qed.

Lemma ordered_start l : ordered l -> sorted_start l.
Proof.
  intros [Hs Hf]. split; [|done]. induction Hs as [|r l Hs IH Hr]; [constructor|].
  apply Forall_cons in Hf as [Hr1 Hf]. constructor; [by apply IH|].
  eapply Forall_impl; [exact Hr|]. simpl. lia.
Qed.

Lemma sorted_snoc {A} (R : A -> A -> Prop) l x :
  StronglySorted R (l ++ [x]) <-> StronglySorted R l /\ Forall (fun y => R y x) l.
Proof.
  induction l as [|y l IH]; simpl.
  - split; [|repeat constructor]. by repeat constructor.
  - split.
    + intros H. apply StronglySorted_inv in H as [H1 H2]. apply IH in H1 as [H1 H3].
      apply Forall_app in H2 as [H2 Hx]. apply Forall_cons in Hx as [Hx _].
      split; [by constructor|by constructor].
    + intros [H1 H2]. apply StronglySorted_inv in H1 as [H1 H3]. apply Forall_cons in H2 as [Hy H2].
      constructor; [by apply IH|]. apply Forall_app_2; [done|by repeat constructor].
Qed.

(** In a sorted list with nonempty (or empty) ranges, the last end bounds all. *)
Lemma ordered_last l p : ordered (l ++ [p]) -> Forall (fun r => end_ r <= end_ p) (l ++ [p]).
Proof.
  intros [Hs Hf]. apply sorted_snoc in Hs as [_ Hs]. apply Forall_app in Hf as [_ Hf].
  apply Forall_cons in Hf as [Hp _]. apply Forall_app_2; [|by repeat constructor].
  eapply Forall_impl; [exact Hs|]. simpl. lia.
Qed.

(** ** The arrays *)

Definition live (rs : range_set) : list range := take (Z.to_nat (rs_nr rs)) (ranges rs).

Record rs_wf (rs : range_set) : Prop := {
  wf_len : len (ranges rs) = rs_alloc rs;
  wf_nr : 0 <= rs_nr rs <= rs_alloc rs;
  wf_alloc : rs_alloc rs <= 2 ^ 29 + 24;
}.

#[export] Instance range_inhabited : Inhabited range := populate (mkRange 0 0).

Lemma len_live rs : rs_wf rs -> len (live rs) = rs_nr rs.
Proof. intros [Hl Hn _]. unfold live, len in *. rewrite length_take. lia. Qed.

Lemma rd_live rs i r : 0 <= i -> live rs !! Z.to_nat i = Some r -> rd (ranges rs) i = Ok r.
Proof. intros Hi Hr. apply lookup_take_Some in Hr as [Hr _]. by apply rd_Some. Qed.

Lemma live_lookup rs i : rs_wf rs -> 0 <= i < rs_nr rs ->
  exists r, live rs !! Z.to_nat i = Some r /\ rd (ranges rs) i = Ok r /\
    drop (Z.to_nat i) (live rs) = r :: drop (Z.to_nat (i + 1)) (live rs) /\
    take (Z.to_nat (i + 1)) (live rs) = take (Z.to_nat i) (live rs) ++ [r].
Proof.
  intros Hwf Hi. pose proof (len_live rs Hwf).
  destruct (lookup_lt_is_Some_2 (live rs) (Z.to_nat i)) as [r Hr]; [llia|].
  exists r. replace (Z.to_nat (i + 1)) with (S (Z.to_nat i)) by lia.
  split_and!; [done|apply rd_live; [lia|done]|by apply drop_S|by apply take_S_r].
Qed.

Lemma rd_last rs l p : rs_wf rs -> live rs = l ++ [p] ->
  rd (ranges rs) (rs_nr rs - 1) = Ok p /\ rs_nr rs = len l + 1.
Proof.
  intros Hwf Hl. pose proof (len_live rs Hwf) as Hn. rewrite Hl, len_app in Hn. change (len [p]) with 1 in Hn.
  split; [|lia]. apply rd_live; [pose proof (len_nonneg l); lia|]. rewrite Hl.
  rewrite lookup_app_r by llia. replace (_ - _)%nat with 0%nat by llia. done.
Qed.

Lemma live_nil rs : rs_wf rs -> rs_nr rs = 0 <-> live rs = [].
Proof.
  intros Hwf. pose proof (len_live rs Hwf) as Hn. split.
  - intros E. rewrite E in Hn. destruct (live rs); [done|]. rewrite len_cons in Hn. pose proof (len_nonneg l). lia.
  - intros E. by rewrite E in Hn.
Qed.

(** Overwriting the last range. *)
Lemma live_set_last rs l p q : rs_wf rs -> live rs = l ++ [p] ->
  exists k, wr (ranges rs) (rs_nr rs - 1) q = Ok k /\
    rs_wf (mkRS (rs_alloc rs) (rs_nr rs) k) /\ live (mkRS (rs_alloc rs) (rs_nr rs) k) = l ++ [q].
Proof.
  intros Hwf Hl. destruct (rd_last rs l p Hwf Hl) as [_ Hn]. pose proof (len_nonneg l).
  pose proof Hwf as [Hlen Hnr Hal].
  rewrite wr_ok by lia. eexists. split; [done|]. split.
  - constructor; cbn; rewrite ?len_insert; (done || lia).
  - unfold live in *. cbn [rs_nr ranges]. rewrite take_insert_lt by lia. rewrite Hl.
    replace (Z.to_nat (rs_nr rs - 1)) with (length l + 0)%nat by llia. by rewrite insert_app_r.
Qed.

Section Arrays.
Context `{Memory} (junk : range).

Lemma grow_push rs r : rs_wf rs -> rs_nr rs < 2 ^ 28 ->
  wp oom (range_set_grow junk rs 1) (fun rs' =>
    rs_nr rs' = rs_nr rs /\ exists k, wr (ranges rs') (rs_nr rs') r = Ok k /\
      let rs'' := mkRS (rs_alloc rs') (u32 (rs_nr rs' + 1)) k in
      rs_wf rs'' /\ live rs'' = live rs ++ [r] /\ rs_nr rs'' = rs_nr rs + 1).
Proof.
  intros Hwf Hn. pose proof Hwf as [Hl Hnr Hal]. unfold range_set_grow. apply wp_bind. eapply wp_mono.
  { apply (ALLOC_GROW_spec_gen junk sizeof_range u32 (2 ^ 30 - 1));
      [intros; apply u32_small; lia|lia|done|lia|lia|done]. }
  intros [x al] (pad & -> & Hx & Ha1 & Ha2 & Ha3). apply wp_ret. cbn [rs_nr rs_alloc ranges].
  split; [done|]. rewrite wr_ok by lia. eexists. split; [done|]. rewrite u32_small by lia.
  split_and!; [constructor; cbn; rewrite ?len_insert; (done || lia)| |done].
  unfold live. cbn [rs_nr ranges]. replace (Z.to_nat (rs_nr rs + 1)) with (S (Z.to_nat (rs_nr rs))) by lia.
  rewrite (take_S_r _ _ r) by (apply list_lookup_insert_eq; llia).
  rewrite take_insert_ge, take_app_le by llia. done.
Qed.

Lemma append_unsafe_spec rs a b : rs_wf rs -> rs_nr rs < 2 ^ 28 -> a <= b ->
  wp oom (range_set_append_unsafe junk rs a b) (fun rs' =>
    rs_wf rs' /\ live rs' = live rs ++ [mkRange a b] /\ rs_nr rs' = rs_nr rs + 1).
Proof.
  intros Hwf Hn Hab. unfold range_set_append_unsafe, assert.
  destruct (Z.leb_spec a b); [|lia]. cbn [mbind res_bind]. apply wp_bind.
  eapply wp_mono; [by apply (grow_push rs (mkRange a b))|].
  intros rs' (Hn' & k & -> & H1 & H2 & H3). done.
Qed.

Lemma append_spec rs a b : rs_wf rs -> rs_nr rs < 2 ^ 28 -> a <= b ->
  Forall (fun r => end_ r <= a) (live rs) ->
  wp oom (range_set_append junk rs a b) (fun rs' =>
    rs_wf rs' /\ live rs' = live rs ++ [mkRange a b] /\ rs_nr rs' = rs_nr rs + 1).
Proof.
  intros Hwf Hn Hab Hall. unfold range_set_append.
  destruct (Z.eqb_spec (rs_nr rs) 0) as [E|E].
  - cbn [mbind res_bind assert]. by apply append_unsafe_spec.
  - assert (live rs <> []) as Hne by (by rewrite <- live_nil).
    destruct (exists_last Hne) as (l & p & Hl).
    destruct (rd_last rs l p Hwf Hl) as [-> _]. cbn [mbind res_bind].
    rewrite Hl in Hall. apply Forall_app in Hall as [_ Hp]. apply Forall_cons in Hp as [Hp _].
    destruct (Z.leb_spec (end_ p) a); [|lia]. cbn [mbind res_bind assert]. by apply append_unsafe_spec.
Qed.
End Arrays.

(** ** Merging one more range *)

(** What [sort_and_merge_range_set] and [range_set_union] do with the next range. *)
Definition add_range (l : list range) (r : range) : list range :=
  if start r =? end_ r then l
  else match last l with
  | None => l ++ [r]
  | Some p =>
      if end_ p <? start r then l ++ [r]
      else if end_ p <? end_ r then take (length l - 1) l ++ [mkRange (start p) (end_ r)]
      else l
  end.

Lemma add_range_last l p r : add_range (l ++ [p]) r =
  if start r =? end_ r then l ++ [p]
  else if end_ p <? start r then (l ++ [p]) ++ [r]
  else if end_ p <? end_ r then l ++ [mkRange (start p) (end_ r)] else l ++ [p].
Proof.
  unfold add_range. rewrite last_snoc. rewrite length_app, Nat.add_sub. by rewrite take_app_length.
Qed.

Lemma canonical_snoc l p : canonical (l ++ [p]) <->
  canonical l /\ Forall (fun r => end_ r < start p) l /\ start p < end_ p.
Proof.
  unfold canonical. rewrite sorted_snoc, Forall_app, Forall_singleton. tauto.
Qed.

Lemma covers_snoc l p x : covers (l ++ [p]) x <-> covers l x \/ inr_ p x.
Proof. rewrite covers_app, covers_cons, covers_nil. tauto. Qed.

Lemma add_range_ok l r : canonical l -> start r <= end_ r -> Forall (fun p => start p <= start r) l ->
  canonical (add_range l r) /\ Forall (fun p => start p <= start r) (add_range l r) /\
  (forall x, covers (add_range l r) x <-> covers l x \/ inr_ r x).
Proof.
  intros Hc Hr Hs. destruct l as [|p l _] using rev_ind.
  { unfold add_range. simpl. destruct (Z.eqb_spec (start r) (end_ r)) as [E|E].
    - split_and!; [done|done|]. intros x. rewrite covers_nil. unfold inr_. lia.
    - split_and!; [|repeat constructor; lia|].
      + apply (canonical_snoc []). split_and!; [done|constructor|lia].
      + intros x. rewrite covers_cons, covers_nil. tauto. }
  rewrite add_range_last. destruct (Z.eqb_spec (start r) (end_ r)) as [E|E].
  { split_and!; [done|done|]. intros x. unfold inr_. intuition lia. }
  pose proof Hc as Hc'. apply canonical_snoc in Hc' as (Hcl & Hlp & Hp).
  apply Forall_app in Hs as Hs'. destruct Hs' as [Hsl Hsp]. rewrite Forall_singleton in Hsp.
  destruct (Z.ltb_spec (end_ p) (start r)).
  { split_and!.
    - apply canonical_snoc. split_and!; [done| |lia]. apply Forall_app_2; [|by repeat constructor].
      eapply Forall_impl; [exact Hlp|]. simpl. lia.
    - apply Forall_app_2; [done|]. repeat constructor; lia.
    - intros x. apply covers_snoc. }
  destruct (Z.ltb_spec (end_ p) (end_ r)).
  - split_and!.
    + apply canonical_snoc. simpl. split_and!; [done|done|lia].
    + apply Forall_app_2; [done|]. apply Forall_singleton. exact Hsp.
    + intros x. rewrite !covers_snoc. unfold inr_. simpl. intuition lia.
  - split_and!; [done|done|]. intros x. rewrite !covers_snoc. unfold inr_. intuition lia.
Qed.

Section Union.
Context `{Memory} (junk : range).

Lemma union_add_spec out r : rs_wf out -> rs_nr out < 2 ^ 28 ->
  wp oom (union_add junk out r) (fun out' =>
    rs_wf out' /\ live out' = add_range (live out) r /\ rs_nr out' <= rs_nr out + 1).
Proof.
  intros Hwf Hn. unfold union_add.
  assert (wp oom (out ← range_set_grow junk out 1;
      l ← wr (ranges out) (rs_nr out) (mkRange (start r) (end_ r));
      Ok (mkRS (rs_alloc out) (u32 (rs_nr out + 1)) l)) (fun out' =>
    rs_wf out' /\ live out' = live out ++ [r] /\ rs_nr out' <= rs_nr out + 1)) as Hpush.
  { apply wp_bind. eapply wp_mono; [by apply (grow_push junk out r)|].
    intros rs' (Hn' & k & E & H1 & H2 & H3). destruct r. cbn [start end_]. rewrite E.
    cbn [mbind res_bind]. apply wp_ret. split_and!; (done || lia). }
  destruct (decide (live out = [])) as [Hnil|Hne].
  - pose proof (proj2 (live_nil out Hwf) Hnil) as Hn0. rewrite Hn0, Hnil. unfold add_range. cbn [last].
    destruct (Z.eqb_spec (start r) (end_ r)).
    + apply wp_ret. split_and!; (done || lia).
    + cbn [Z.eqb mbind res_bind]. rewrite Hnil, Hn0 in Hpush. exact Hpush.
  - destruct (exists_last Hne) as (l & p & Hl). rewrite Hl, add_range_last.
    destruct (rd_last out l p Hwf Hl) as [Hrd Hnr]. pose proof (len_nonneg l).
    destruct (Z.eqb_spec (start r) (end_ r)).
    { apply wp_ret. split_and!; (done || lia). }
    destruct (Z.eqb_spec (rs_nr out) 0); [lia|]. rewrite Hrd. cbn [mbind res_bind].
    destruct (Z.ltb_spec (end_ p) (start r)); [by rewrite <- Hl|].
    destruct (Z.ltb_spec (end_ p) (end_ r)).
    + destruct (live_set_last out l p (mkRange (start p) (end_ r)) Hwf Hl) as (k & -> & Hk1 & Hk2).
      cbn [mbind res_bind]. apply wp_ret. split_and!; (done || (cbn; lia)).
    + apply wp_ret. split_and!; (done || lia).
Qed.

(** [r] is the next range: it comes before all that are left, in either set. *)
Record next_ok (a b : range_set) (i j : Z) (r : range) (i' j' : Z) : Prop := {
  no_sum : i' + j' = i + j + 1;
  no_i : 0 <= i' <= rs_nr a;
  no_j : 0 <= j' <= rs_nr b;
  no_r : start r <= end_ r;
  no_perm : take (Z.to_nat i') (live a) ++ take (Z.to_nat j') (live b) ≡ₚ
              r :: take (Z.to_nat i) (live a) ++ take (Z.to_nat j) (live b);
  no_in : r ∈ drop (Z.to_nat i) (live a) ++ drop (Z.to_nat j) (live b);
  no_left : Forall (fun s => start r <= start s)
              (drop (Z.to_nat i') (live a) ++ drop (Z.to_nat j') (live b));
  no_sub : drop (Z.to_nat i') (live a) ++ drop (Z.to_nat j') (live b) ⊆
             drop (Z.to_nat i) (live a) ++ drop (Z.to_nat j) (live b);
}.

Lemma sorted_drop rs k r : sorted_start (live rs) ->
  drop (Z.to_nat k) (live rs) = r :: drop (Z.to_nat (k + 1)) (live rs) ->
  Forall (fun s => start r <= start s) (drop (Z.to_nat (k + 1)) (live rs)) /\ start r <= end_ r.
Proof.
  intros [Hs Hf] E.
  assert (StronglySorted (fun r s => start r <= start s) (drop (Z.to_nat k) (live rs))) as Hd.
  { rewrite <- (take_drop (Z.to_nat k) (live rs)) in Hs. by eapply StronglySorted_app_1_r. }
  rewrite E in Hd. apply StronglySorted_inv in Hd as [_ Hd]. split; [done|].
  apply (Forall_drop _ (Z.to_nat k)) in Hf. rewrite E in Hf. by apply Forall_cons in Hf as [? _].
Qed.

Section Next.
Context (a b : range_set) (i j : Z).
Hypothesis (Hwa : rs_wf a) (Hwb : rs_wf b) (Hi : 0 <= i <= rs_nr a) (Hj : 0 <= j <= rs_nr b).
Hypothesis (Hsa : sorted_start (live a)) (Hsb : sorted_start (live b)).

Lemma next_a ra : drop (Z.to_nat i) (live a) = ra :: drop (Z.to_nat (i + 1)) (live a) ->
  take (Z.to_nat (i + 1)) (live a) = take (Z.to_nat i) (live a) ++ [ra] -> i < rs_nr a ->
  Forall (fun s => start ra <= start s) (drop (Z.to_nat j) (live b)) ->
  next_ok a b i j ra (i + 1) j.
Proof using All.
  intros Da Ta Hia Hb. destruct (sorted_drop a i ra Hsa Da) as [Fa Ea].
  constructor; try lia; rewrite ?Da.
  - rewrite Ta, <- app_assoc. simpl. by rewrite Permutation_middle.
  - left.
  - by apply Forall_app_2.
  - intros x Hx. simpl. by right.
Qed.

Lemma next_b rb : drop (Z.to_nat j) (live b) = rb :: drop (Z.to_nat (j + 1)) (live b) ->
  take (Z.to_nat (j + 1)) (live b) = take (Z.to_nat j) (live b) ++ [rb] -> j < rs_nr b ->
  Forall (fun s => start rb <= start s) (drop (Z.to_nat i) (live a)) ->
  next_ok a b i j rb i (j + 1).
Proof using All.
  intros Db Tb Hjb Ha. destruct (sorted_drop b j rb Hsb Db) as [Fb Eb].
  constructor; try lia; rewrite ?Db.
  - rewrite Tb, app_assoc. by rewrite (Permutation_app_comm _ [rb]).
  - apply elem_of_app. right. left.
  - by apply Forall_app_2.
  - intros x Hx. apply elem_of_app in Hx as [Hx|Hx]; apply elem_of_app; [by left|right; by right].
Qed.

Lemma drop_all rs k : rs_wf rs -> rs_nr rs <= k -> drop (Z.to_nat k) (live rs) = [].
Proof. intros Hw Hk. apply drop_ge. pose proof (len_live rs Hw). llia. Qed.

Lemma union_next_spec : i < rs_nr a \/ j < rs_nr b ->
  exists r i' j', union_next a b i j = Ok (r, i', j') /\ next_ok a b i j r i' j'.
Proof using All.
  intros Hij. unfold union_next.
  destruct (Z.ltb_spec i (rs_nr a)) as [Hia|Hia]; destruct (Z.ltb_spec j (rs_nr b)) as [Hjb|Hjb];
    cbn [andb]; try lia.
  - destruct (live_lookup a i Hwa ltac:(lia)) as (ra & La & -> & Da & Ta).
    destruct (live_lookup b j Hwb ltac:(lia)) as (rb & Lb & -> & Db & Tb). cbn [mbind res_bind].
    destruct (sorted_drop a i ra Hsa Da) as [Fa Ea]. destruct (sorted_drop b j rb Hsb Db) as [Fb Eb].
    assert (start ra <= start rb -> next_ok a b i j ra (i + 1) j) as HA.
    { intros Hle. apply next_a; try done. rewrite Db. constructor; [done|].
      eapply Forall_impl; [exact Fb|]. simpl. lia. }
    assert (start rb <= start ra -> next_ok a b i j rb i (j + 1)) as HB.
    { intros Hle. apply next_b; try done. rewrite Da. constructor; [done|].
      eapply Forall_impl; [exact Fa|]. simpl. lia. }
    destruct (Z.ltb_spec (start ra) (start rb)); [eexists _, _, _; split; [done|apply HA; lia]|].
    destruct (Z.ltb_spec (start rb) (start ra)); [eexists _, _, _; split; [done|apply HB; lia]|].
    destruct (Z.ltb_spec (end_ ra) (end_ rb)); eexists _, _, _; (split; [done|]); [apply HA|apply HB]; lia.
  - destruct (live_lookup a i Hwa ltac:(lia)) as (ra & La & -> & Da & Ta).
    eexists _, _, _. split; [done|]. apply next_a; try done. rewrite drop_all by done. constructor.
  - destruct (live_lookup b j Hwb ltac:(lia)) as (rb & Lb & -> & Db & Tb).
    eexists _, _, _. split; [done|]. apply next_b; try done. rewrite drop_all by done. constructor.
Qed.
End Next.

Lemma range_set_union_spec out a b :
  rs_wf out -> rs_nr out = 0 -> rs_wf a -> rs_wf b -> rs_nr a + rs_nr b <= 2 ^ 28 ->
  sorted_start (live a) -> sorted_start (live b) ->
  wp oom (range_set_union junk out a b) (fun out' =>
    rs_wf out' /\ canonical (live out') /\
    (forall x, covers (live out') x <-> covers (live a) x \/ covers (live b) x)).
Proof.
  intros Hwo Hn0 Hwa Hwb Hsz Hsa Hsb. unfold range_set_union. rewrite Hn0. cbn [Z.eqb assert mbind res_bind].
  apply (wp_loop _ (fun '(o, i, j) => rs_wf o /\ 0 <= i <= rs_nr a /\ 0 <= j <= rs_nr b /\ rs_nr o <= i + j /\
      canonical (live o) /\
      (forall x, covers (live o) x <-> covers (take (Z.to_nat i) (live a) ++ take (Z.to_nat j) (live b)) x) /\
      Forall (fun p => Forall (fun s => start p <= start s)
        (drop (Z.to_nat i) (live a) ++ drop (Z.to_nat j) (live b))) (live o))
    (fun s => Z.to_nat (rs_nr a + rs_nr b - s.1.2 - s.2))); [| |simpl; lia].
  2:{ apply live_nil in Hn0 as Hl; [|done]. rewrite Hl. pose proof (wf_nr a Hwa). pose proof (wf_nr b Hwb).
      split_and!; try done; try lia; repeat constructor. }
  intros [[o i] j] (Hw & Hi & Hj & Hn & Hc & Hcov & Hlt). unfold union_step.
  destruct (Z.ltb_spec i (rs_nr a)) as [Hia|Hia], (Z.ltb_spec j (rs_nr b)) as [Hjb|Hjb]; cbn [orb].
  4:{ apply wp_ret. split_and!; [done|done|]. intros x. rewrite Hcov, covers_app.
      pose proof (len_live a Hwa). pose proof (len_live b Hwb). rewrite !take_ge by llia. done. }
  all: destruct (union_next_spec a b i j Hwa Hwb Hi Hj Hsa Hsb ltac:(lia)) as (r & i' & j' & -> & [N1 N2 N3 N4 N5 N6 N7 N8]).
  all: cbn [mbind res_bind]; apply wp_bind.
  all: eapply wp_mono; [apply (union_add_spec o r); [done|lia]|].
  all: intros o' (Hw' & Hl' & Hn'); apply wp_ret.
  all: destruct (add_range_ok (live o) r Hc N4) as (Hc' & Hs' & Hcov').
  all: try (eapply Forall_impl; [exact Hlt|]; intros p Hp; rewrite Forall_forall in Hp; by apply Hp).
  all: rewrite <- Hl' in *; split; [|simpl; lia].
  all: split_and!; try done; try lia.
  all: try (intros x; rewrite Hcov', Hcov, N5, covers_cons; tauto).
  all: eapply Forall_impl; [exact Hs'|]; intros p Hp; eapply Forall_impl; [exact N7|]; intros t Ht; cbn beta in *; lia.
Qed.
End Union.

(** ** Difference *)

Lemma not_covers l1 l2 s e x : Forall (fun r => end_ r <= s) l1 -> Forall (fun r => e <= start r) l2 ->
  s <= x < e -> ~ covers (l1 ++ l2) x.
Proof.
  intros H1 H2 Hx (r & Hr & Hi). unfold inr_ in Hi. rewrite Forall_forall in H1, H2.
  apply elem_of_app in Hr as [Hr|Hr]; [specialize (H1 r Hr)|specialize (H2 r Hr)]; simpl in *; lia.
Qed.

(** Sorted, disjoint and nonempty: what the difference is. *)
Definition disjoint_ranges (l : list range) : Prop :=
  StronglySorted (fun r s => end_ r <= start s) l /\ Forall (fun r => start r < end_ r) l.

Lemma disjoint_ranges_snoc l r : disjoint_ranges (l ++ [r]) <->
  disjoint_ranges l /\ Forall (fun p => end_ p <= start r) l /\ start r < end_ r.
Proof. unfold disjoint_ranges. rewrite sorted_snoc, Forall_app, Forall_singleton. tauto. Qed.

Lemma disjoint_ordered l : disjoint_ranges l -> ordered l.
Proof. intros [Hs Hf]. split; [done|]. eapply Forall_impl; [exact Hf|]. simpl. lia. Qed.

Lemma ordered_split rs j r : ordered (live rs) ->
  drop (Z.to_nat j) (live rs) = r :: drop (Z.to_nat (j + 1)) (live rs) ->
  start r <= end_ r /\ Forall (fun s => end_ r <= start s) (drop (Z.to_nat (j + 1)) (live rs)).
Proof.
  intros [Hs Hf] E.
  assert (StronglySorted (fun r s => end_ r <= start s) (drop (Z.to_nat j) (live rs))) as Hd.
  { rewrite <- (take_drop (Z.to_nat j) (live rs)) in Hs. by eapply StronglySorted_app_1_r. }
  rewrite E in Hd. apply StronglySorted_inv in Hd as [_ Hd]. split; [|done].
  apply (Forall_drop _ (Z.to_nat j)) in Hf. rewrite E in Hf. by apply Forall_cons in Hf as [? _].
Qed.

(** One range lies inside another; two ranges have no line in common, and none
    starts strictly inside the other. *)
Definition within (r a : range) : Prop := start a <= start r /\ end_ r <= end_ a.
Definition apart (r t : range) : Prop := end_ r <= start t \/ end_ t <= start r.

(** [l] consists of pieces of the ranges [A], cut at the ranges [B]. *)
Definition pieces (A B l : list range) : Prop :=
  Forall (fun r => Forall (apart r) B /\ exists a, a ∈ A /\ within r a) l.

Lemma pieces_snoc A B l a r : pieces A B l -> Forall (apart r) B -> within r a ->
  pieces (A ++ [a]) B (l ++ [r]).
Proof.
  intros Hl Hr Hw. apply Forall_app_2.
  - eapply Forall_impl; [exact Hl|]. intros q (H1 & c & Hc & Hq). split; [done|].
    exists c. split; [apply elem_of_app; by left|done].
  - apply Forall_singleton. split; [done|]. exists a. split; [|done]. apply elem_of_app. right. left.
Qed.

Lemma pieces_mono A A' B l : A ⊆ A' -> pieces A B l -> pieces A' B l.
Proof.
  intros Hs Hl. eapply Forall_impl; [exact Hl|]. intros q (H1 & c & Hc & Hq). split; [done|].
  exists c. split; [by apply Hs|done].
Qed.

Section Difference.
Context `{Memory} (junk : range) (b : range_set).
Hypothesis (Hwb : rs_wf b) (Hob : ordered (live b)).

(** All the ranges of [b] before [j] end at [s] or before. *)
Definition passed (j s : Z) : Prop := Forall (fun r => end_ r <= s) (take (Z.to_nat j) (live b)).

(** The range of [b] at [j] ends at [s] or before. *)
Definition at_end (j s : Z) : Z :=
  match live b !! Z.to_nat j with Some r => if end_ r <=? s then 1 else 0 | None => 0 end.

Lemma skip_b_loop s j : 0 <= j <= rs_nr b -> passed j s ->
  total (loop (S (Z.to_nat (rs_nr b))) (skip_b_step b s) j) (fun j' =>
    j <= j' <= rs_nr b /\ passed j' s /\ at_end j' s = 0 /\ (j' = j \/ j + 1 <= j') /\
    (at_end j s = 1 -> j + 1 <= j')).
Proof using Hwb.
  intros Hj Hp.
  apply (wp_loop _ (fun k => j <= k <= rs_nr b /\ passed k s) (fun k => Z.to_nat (rs_nr b - k)));
    [|split; [lia|done]|lia].
  intros k [Hk Hpk]. unfold skip_b_step. pose proof (len_live b Hwb) as Hlen.
  destruct (Z.ltb_spec k (rs_nr b)) as [Hlt|Hge].
  - destruct (live_lookup b k Hwb ltac:(lia)) as (r & Lr & -> & Dr & Tr). cbn [mbind res_bind].
    destruct (Z.leb_spec (end_ r) s).
    + apply wp_ret. split; [|lia]. split; [lia|]. unfold passed. rewrite Tr.
      apply Forall_app_2; [done|]. by apply Forall_singleton.
    + apply wp_ret. split_and!; try (done || lia).
      * unfold at_end. rewrite Lr. destruct (Z.leb_spec (end_ r) s); [lia|done].
      * intros He. destruct (decide (k = j)) as [->|]; [|lia]. unfold at_end in He. rewrite Lr in He.
        destruct (Z.leb_spec (end_ r) s); [lia|done].
  - apply wp_ret. assert (k = rs_nr b) as -> by lia. split_and!; try (done || lia).
    + unfold at_end. rewrite lookup_ge_None_2 by llia. done.
    + intros He. destruct (decide (rs_nr b = j)) as [<-|]; [|lia]. unfold at_end in He.
      rewrite lookup_ge_None_2 in He by llia. done.
Qed.

(** Invariant of the loop over the range [s0 .. e) of [a], when [i] ranges [A]
    are done. *)
Record diff_inv (A : list range) (i s0 e : Z) (out : range_set) (s j : Z) : Prop := {
  di_wf : rs_wf out;
  di_s : s0 <= s;
  di_j : 0 <= j <= rs_nr b;
  di_nr : rs_nr out <= i + j + at_end j s;
  di_out : disjoint_ranges (live out);
  di_end : Forall (fun r => end_ r <= Z.min s e) (live out);
  di_passed : passed j (Z.min s e);
  di_cov : forall x, covers (live out) x <->
    (covers A x \/ s0 <= x < Z.min s e) /\ ~ covers (live b) x;
  di_pieces : pieces (A ++ [mkRange s0 e]) (live b) (live out);
}.

Lemma diff_step_spec A i s0 e out s j : s0 < e -> 0 <= i -> i + rs_nr b + 1 < 2 ^ 28 ->
  diff_inv A i s0 e out s j ->
  wp oom (diff_step junk b e (out, s, j)) (fun x => match x with
    | inl (out', s', j') => diff_inv A i s0 e out' s' j' /\
        2 * (rs_nr b - j') + 1 - at_end j' s' < 2 * (rs_nr b - j) + 1 - at_end j s /\ at_end j' s' <= 1
    | inr (out', j') => rs_wf out' /\ 0 <= j' <= rs_nr b /\ rs_nr out' <= i + 1 + j' /\
        disjoint_ranges (live out') /\ Forall (fun r => end_ r <= e) (live out') /\ passed j' e /\
        (forall x, covers (live out') x <-> (covers A x \/ s0 <= x < e) /\ ~ covers (live b) x) /\
        pieces (A ++ [mkRange s0 e]) (live b) (live out')
    end).
Proof using All.
  intros Hse Hi Hbound [Hw Hs Hj Hnr Hout Hend Hpass Hcov Hpc]. unfold diff_step.
  assert (forall k t, 0 <= at_end k t <= 1) as Hat.
  { intros k t. unfold at_end. destruct (live b !! Z.to_nat k); [|lia]. destruct (_ <=? _); lia. }
  pose proof (Hat j s) as Hat0. pose proof (len_live b Hwb) as Hlb.
  destruct (Z.ltb_spec s e) as [Hlt|Hge].
  2:{ apply wp_ret. rewrite Z.min_r in * by lia. split_and!; (done || lia). }
  rewrite Z.min_l in Hend, Hpass, Hcov by lia.
  apply wp_bind. eapply wp_mono; [apply total_wp, (skip_b_loop s j); done|].
  intros j1 (Hj1 & Hp1 & Hae & Hcase & Hflag).
  assert (rs_nr out <= i + j1) as Hn1.
  { destruct Hcase as [->|]; [rewrite Hae in Hnr; lia|lia]. }
  assert (forall t, t <= e -> s <= t ->
    Forall (fun r => t <= start r) (drop (Z.to_nat j1) (live b)) ->
    forall x, s <= x < t -> ~ covers (live b) x) as Hfree.
  { intros t _ _ Hd x Hx. rewrite <- (take_drop (Z.to_nat j1) (live b)). by apply (not_covers _ _ s t). }
  assert (forall t, s < t <= e ->
    Forall (fun r => t <= start r) (drop (Z.to_nat j1) (live b)) ->
    wp oom (range_set_append junk out s t) (fun out' => rs_wf out' /\ rs_nr out' <= i + j1 + 1 /\
      disjoint_ranges (live out') /\ Forall (fun r => end_ r <= t) (live out') /\
      (forall x, covers (live out') x <-> (covers A x \/ s0 <= x < t) /\ ~ covers (live b) x) /\
      pieces (A ++ [mkRange s0 e]) (live b) (live out'))) as Happ.
  { intros t Ht Hd. eapply wp_mono; [apply (append_spec junk out s t); (done || lia)|].
    intros out' (Hw' & Hl' & Hn'). rewrite Hl'. split_and!; [done|lia| | | |].
    - apply disjoint_ranges_snoc. simpl. split_and!; (done || lia).
    - apply Forall_app_2; [eapply Forall_impl; [exact Hend|]; simpl; lia|]. apply Forall_singleton. simpl. lia.
    - intros x. rewrite covers_snoc, Hcov. unfold inr_. simpl.
      assert (s <= x < t -> ~ covers (live b) x) by (intros; eapply (Hfree t); (done || lia)).
      destruct (decide (s <= x < t)); intuition lia.
    - apply Forall_app_2; [done|]. apply Forall_singleton. split.
      + rewrite <- (take_drop (Z.to_nat j1) (live b)). apply Forall_app_2.
        * eapply Forall_impl; [exact Hp1|]. intros q Hq. right. exact Hq.
        * eapply Forall_impl; [exact Hd|]. intros q Hq. left. exact Hq.
      + exists (mkRange s0 e). split; [apply elem_of_app; right; left|]. split; simpl; lia. }
  destruct (Z.leb_spec (rs_nr b) j1) as [Hend1|Hlt1].
  { assert (drop (Z.to_nat j1) (live b) = []) as Ed by (apply drop_ge; llia).
    cbn [mbind res_bind]. apply wp_bind. eapply wp_mono; [apply (Happ e); [lia|rewrite Ed; constructor]|].
    intros out' (K1 & K2 & K3 & K4 & K5 & K6). apply wp_ret. split_and!; try (done || lia).
    eapply Forall_impl; [exact Hp1|]. simpl. lia. }
  destruct (live_lookup b j1 Hwb ltac:(lia)) as (rb & Lb & -> & Db & Tb). cbn [mbind res_bind].
  destruct (ordered_split b j1 rb Hob Db) as [Hrb Hafter].
  assert (s < end_ rb) as Hsb.
  { unfold at_end in Hae. rewrite Lb in Hae. destruct (Z.leb_spec (end_ rb) s); [done|lia]. }
  assert (forall t, t <= start rb -> Forall (fun r => t <= start r) (drop (Z.to_nat j1) (live b))) as Hdrop.
  { intros t Ht. rewrite Db. constructor; [done|]. eapply Forall_impl; [exact Hafter|]. simpl. lia. }
  assert (at_end j1 (end_ rb) = 1) as Hae1.
  { unfold at_end. rewrite Lb. destruct (Z.leb_spec (end_ rb) (end_ rb)); [done|lia]. }
  assert (2 * (rs_nr b - j1) + 1 - 1 < 2 * (rs_nr b - j) + 1 - at_end j s) as Hmeas.
  { destruct (decide (at_end j s = 1)) as [E|E]; [specialize (Hflag E); lia|lia]. }
  assert (forall x, inr_ rb x -> covers (live b) x) as Hin.
  { intros x Hx. exists rb. split; [|done]. apply list_elem_of_lookup. by eexists. }
  destruct (Z.leb_spec e (start rb)) as [Hfar|Hnear].
  { apply wp_bind. eapply wp_mono; [apply (Happ e); [lia|by apply Hdrop]|].
    intros out' (K1 & K2 & K3 & K4 & K5 & K6). apply wp_ret. split_and!; try (done || lia).
    eapply Forall_impl; [exact Hp1|]. simpl. lia. }
  destruct (Z.leb_spec (start rb) s) as [Hinside|Hbefore].
  - apply wp_ret. split; [|rewrite Hae1; lia]. constructor; try (done || lia).
    + eapply Forall_impl; [exact Hend|]. simpl. lia.
    + eapply Forall_impl; [exact Hp1|]. simpl. lia.
    + intros x. rewrite Hcov. assert (s <= x < end_ rb -> covers (live b) x) by (intros; apply Hin; unfold inr_; lia).
      destruct (decide (s <= x < end_ rb)); intuition lia.
  - destruct (Z.ltb_spec (start rb) e); [|lia]. destruct (Z.ltb_spec s (start rb)); [|lia].
    apply wp_bind. eapply wp_mono; [apply (Happ (start rb)); [lia|by apply Hdrop]|].
    intros out' (K1 & K2 & K3 & K4 & K5 & K6). apply wp_ret. split; [|rewrite Hae1; lia]. constructor; try (done || lia).
    + eapply Forall_impl; [exact K4|]. simpl. lia.
    + eapply Forall_impl; [exact Hp1|]. simpl. lia.
    + intros x. rewrite K5.
      assert (start rb <= x < end_ rb -> covers (live b) x) by (intros; apply Hin; unfold inr_; lia).
      destruct (decide (start rb <= x < end_ rb)); intuition lia.
Qed.

Lemma diff_range_spec A i s0 e out j : s0 < e -> 0 <= i -> i + rs_nr b + 1 < 2 ^ 28 ->
  rs_wf out -> 0 <= j <= rs_nr b -> rs_nr out <= i + j -> disjoint_ranges (live out) ->
  Forall (fun r => end_ r <= s0) (live out) -> passed j s0 ->
  (forall x, covers (live out) x <-> covers A x /\ ~ covers (live b) x) ->
  pieces A (live b) (live out) ->
  wp oom (loop (2 * Z.to_nat (rs_nr b) + 3) (diff_step junk b e) (out, s0, j)) (fun '(out', j') =>
    rs_wf out' /\ 0 <= j' <= rs_nr b /\ rs_nr out' <= i + 1 + j' /\
    disjoint_ranges (live out') /\ Forall (fun r => end_ r <= e) (live out') /\ passed j' e /\
    (forall x, covers (live out') x <-> (covers A x \/ s0 <= x < e) /\ ~ covers (live b) x) /\
    pieces (A ++ [mkRange s0 e]) (live b) (live out')).
Proof using All.
  intros Hse Hi Hb Hw Hj Hn Hd Hf Hp Hc Hpc.
  assert (forall k t, 0 <= at_end k t <= 1) as Hat.
  { intros k t. unfold at_end. destruct (live b !! Z.to_nat k); [|lia]. destruct (_ <=? _); lia. }
  apply (wp_loop _ (fun '(o, s, k) => diff_inv A i s0 e o s k)
    (fun '(o, s, k) => Z.to_nat (2 * (rs_nr b - k) + 1 - at_end k s))).
  - intros [[o s] k] Hinv. eapply wp_mono; [by apply diff_step_spec|].
    intros [[[o' s'] k']|[o' k']]; [|done]. intros (Hinv' & Hlt & Hle). split; [done|].
    pose proof (di_j _ _ _ _ _ _ _ Hinv). pose proof (di_j _ _ _ _ _ _ _ Hinv').
    pose proof (Hat k s). lia.
  - pose proof (Hat j s0). constructor; try (done || lia); rewrite ?Z.min_l by lia; try done.
    + intros x. rewrite Hc. intuition lia.
    + eapply pieces_mono; [|exact Hpc]. intros q Hq. apply elem_of_app. by left.
  - pose proof (Hat j s0). lia.
Qed.

Lemma range_set_difference_spec out a :
  rs_wf out -> rs_nr out = 0 -> rs_wf a -> disjoint_ranges (live a) ->
  rs_nr a + rs_nr b + 1 < 2 ^ 28 ->
  wp oom (range_set_difference junk out a b) (fun out' =>
    rs_wf out' /\ disjoint_ranges (live out') /\ rs_nr out' <= rs_nr a + rs_nr b /\
    (forall x, covers (live out') x <-> covers (live a) x /\ ~ covers (live b) x) /\
    pieces (live a) (live b) (live out')).
Proof using All.
  intros Hwo Hn0 Hwa Hda Hsz. unfold range_set_difference.
  apply (wp_loop _ (fun '(o, i, j) => rs_wf o /\ 0 <= i <= rs_nr a /\ 0 <= j <= rs_nr b /\
      rs_nr o <= i + j /\ disjoint_ranges (live o) /\
      Forall (fun r => Forall (fun p => end_ p <= start r) (live o) /\ passed j (start r))
        (drop (Z.to_nat i) (live a)) /\
      (forall x, covers (live o) x <-> covers (take (Z.to_nat i) (live a)) x /\ ~ covers (live b) x) /\
      pieces (take (Z.to_nat i) (live a)) (live b) (live o))
    (fun s => Z.to_nat (rs_nr a - s.1.2))); [| |simpl; lia].
  2:{ pose proof (wf_nr a Hwa). pose proof (wf_nr b Hwb). apply live_nil in Hn0 as Hl; [|done]. rewrite Hl.
      split_and!; try (done || lia); [by repeat constructor| | |constructor].
      - apply Forall_true. intros r. unfold passed. simpl. by repeat constructor.
      - intros x. change (take (Z.to_nat 0) (live a)) with (@nil range). rewrite !covers_nil. tauto. }
  intros [[o i] j] (Hw & Hi & Hj & Hn & Hd & Hf & Hc & Hpc). unfold difference_step.
  destruct (Z.ltb_spec i (rs_nr a)) as [Hlt|Hge].
  2:{ apply wp_ret. rewrite take_ge in Hc, Hpc by (pose proof (len_live a Hwa); llia).
      split_and!; (done || lia). }
  destruct (live_lookup a i Hwa ltac:(lia)) as (ra & La & -> & Da & Ta). cbn [mbind res_bind].
  destruct (ordered_split a i ra (disjoint_ordered _ Hda) Da) as [_ Hafter].
  rewrite Da in Hf. apply Forall_cons in Hf as [[Hf1 Hf2] Hf3].
  assert (start ra < end_ ra) as Hra.
  { destruct Hda as [_ Hne]. by apply (Forall_lookup_1 _ _ _ _ Hne La). }
  apply wp_bind. eapply wp_mono; [apply (diff_range_spec (take (Z.to_nat i) (live a)) i); (done || lia)|].
  intros [o' j'] (K1 & K2 & K3 & K4 & K5 & K6 & K7 & K8). apply wp_ret. split; [|simpl; lia].
  assert (mkRange (start ra) (end_ ra) = ra) as Era by (by destruct ra). rewrite Era in K8.
  rewrite <- Ta in K8. split_and!; try (done || lia).
  - eapply Forall_impl; [exact Hafter|]. intros r Hr. cbn beta in Hr. unfold passed in *. split.
    + eapply Forall_impl; [exact K5|]. simpl. lia.
    + eapply Forall_impl; [exact K6|]. simpl. lia.
  - intros x. rewrite K7, Ta, covers_snoc. unfold inr_. done.
Qed.
End Difference.

(** ** Sorting and merging *)

Lemma range_cmp_start r s : range_cmp r s <= 0 <-> start r <= start s.
Proof. unfold range_cmp. cases_Z; lia. Qed.

#[export] Instance range_cmp_ok : CmpOk range_cmp.
Proof.
  split; intros x y; [unfold range_cmp; cases_Z; lia|]. intros z. rewrite !range_cmp_start. lia.
Qed.

Lemma StronglySorted_iff {A} (R S : A -> A -> Prop) l :
  (forall x y, R x y <-> S x y) -> StronglySorted R l -> StronglySorted S l.
Proof.
  intros Hi. induction 1 as [|x l Hs IH Hx]; constructor; [done|].
  eapply Forall_impl; [exact Hx|]. intros y. apply Hi.
Qed.

Lemma QSORT_ranges qsort `{!QsortOk qsort} l nr : 0 <= nr <= len l ->
  exists k, QSORT qsort l nr range_cmp = k ++ drop (Z.to_nat nr) l /\ len k = nr /\
    k ≡ₚ take (Z.to_nat nr) l /\ StronglySorted (fun r s => start r <= start s) k.
Proof.
  intros Hn. destruct (QSORT_sorted qsort range_cmp l nr Hn) as (k & E & Hl & Hp & Hs).
  exists k. split_and!; try done. eapply StronglySorted_iff; [apply range_cmp_start|exact Hs].
Qed.

Lemma foldl_add_ok L : forall l, canonical l -> sorted_start L ->
  Forall (fun p => Forall (fun r => start p <= start r) L) l ->
  canonical (foldl add_range l L) /\
  (forall x, covers (foldl add_range l L) x <-> covers l x \/ covers L x).
Proof.
  induction L as [|r L IH]; intros l Hc [Hs Hf] Hl; simpl.
  - split; [done|]. intros x. rewrite covers_nil. tauto.
  - apply StronglySorted_inv in Hs as [Hs Hr]. apply Forall_cons in Hf as [Hr1 Hf].
    destruct (add_range_ok l r Hc Hr1) as (Hc' & Hs' & Hcov).
    { eapply Forall_impl; [exact Hl|]. intros p Hp. by apply Forall_cons in Hp as [? _]. }
    destruct (IH (add_range l r) Hc') as [IH1 IH2]; [by split| |].
    { eapply Forall_impl; [exact Hs'|]. intros p Hp. cbn beta in Hp.
      eapply Forall_impl; [exact Hr|]. simpl. lia. }
    split; [done|]. intros x. rewrite IH2, Hcov, covers_cons. tauto.
Qed.

(** Copying the range that is read down to the output cursor. *)
Lemma write_down {A} (out mid rest : list A) r :
  exists mid', <[length out := r]> (out ++ mid ++ r :: rest) = (out ++ [r]) ++ mid' ++ rest /\
    length mid' = length mid.
Proof.
  rewrite <- (Nat.add_0_r (length out)), insert_app_r. destruct mid as [|m mid]; simpl.
  - exists []. by rewrite <- app_assoc.
  - exists (mid ++ [r]). rewrite <- !app_assoc. simpl. split; [done|]. rewrite length_app. simpl. lia.
Qed.

Section Merge.
Context (nr : Z) (K tl : list range).
Hypothesis HK : len K = nr.

Definition merge_inv (s : list range * Z * Z) : Prop :=
  let '(l, i, o) := s in
  0 <= i <= nr /\ exists out mid, l = out ++ mid ++ drop (Z.to_nat i) K ++ tl /\
    len out = o /\ len out + len mid = i /\ out = foldl add_range [] (take (Z.to_nat i) K).

Lemma merge_step_spec s : merge_inv s ->
  total (merge_step nr s) (fun x => match x with
    | inl s' => merge_inv s' /\ s'.1.2 = s.1.2 + 1 /\ s.1.2 < nr
    | inr (l, o) => o <= nr /\ o = len (foldl add_range [] K) /\ len l = nr + len tl /\
        take (Z.to_nat o) l = foldl add_range [] K
    end).
Proof using All.
  destruct s as [[l i] o]. intros (Hi & out & mid & -> & Ho & Hm & Hout). unfold merge_step. cbn [fst snd].
  pose proof (len_nonneg mid) as Hmid. pose proof (len_nonneg out) as Hoo.
  destruct (Z.ltb_spec i nr) as [Hlt|Hge].
  2:{ apply wp_ret. assert (i = nr) as -> by lia. rewrite take_ge in Hout by llia. rewrite <- Hout.
      split_and!; [lia|done| |].
      - rewrite !len_app. unfold len in *. rewrite length_drop. lia.
      - rewrite <- Ho. unfold len. rewrite Nat2Z.id. by rewrite take_app_length. }
  destruct (lookup_lt_is_Some_2 K (Z.to_nat i)) as [r Hr]; [llia|].
  assert (take (Z.to_nat (i + 1)) K = take (Z.to_nat i) K ++ [r]) as Ht.
  { replace (Z.to_nat (i + 1)) with (S (Z.to_nat i)) by lia. by apply take_S_r. }
  assert (foldl add_range [] (take (Z.to_nat (i + 1)) K) = add_range out r) as Hnext.
  { by rewrite Ht, foldl_app, <- Hout. }
  rewrite (drop_S _ _ _ Hr). replace (S (Z.to_nat i)) with (Z.to_nat (i + 1)) by lia. simpl ((_ :: _) ++ tl).
  set (rest := drop (Z.to_nat (i + 1)) K ++ tl).
  rewrite (rd_Some _ i r); [|lia|].
  2:{ rewrite app_assoc, lookup_app_r by (rewrite length_app; llia).
      replace (_ - _)%nat with 0%nat by (rewrite length_app; llia). done. }
  cbn [mbind res_bind].
  assert (forall out' mid', out' = add_range out r -> len out' + len mid' = i + 1 ->
    merge_inv (out' ++ mid' ++ rest, i + 1, len out') /\ i + 1 = i + 1 /\ i < nr) as Hfin.
  { intros out' mid' E El. split; [|done]. split; [lia|]. exists out', mid'. by rewrite Hnext. }
  unfold add_range in Hfin. destruct (Z.eqb_spec (start r) (end_ r)) as [Eq|Neq].
  { apply wp_ret. rewrite <- Ho. replace (out ++ mid ++ r :: rest) with (out ++ (mid ++ [r]) ++ rest) by (by rewrite <- !app_assoc).
    apply Hfin; [done|]. rewrite len_app. change (len [r]) with 1. lia. }
  assert (total (l ← wr (out ++ mid ++ r :: rest) o (mkRange (start r) (end_ r)); Ok (@inl (list range * Z * Z) (list range * Z) (l, i + 1, o + 1)))
    (fun x => match x with
      | inl s' => exists mid', s' = ((out ++ [r]) ++ mid' ++ rest, i + 1, len (out ++ [r])) /\ len (out ++ [r]) + len mid' = i + 1
      | inr _ => False end)) as Hwrite.
  { rewrite wr_ok by (rewrite !len_app, len_cons; pose proof (len_nonneg rest); lia). cbn [mbind res_bind].
    assert (mkRange (start r) (end_ r) = r) as -> by (by destruct r).
    replace (Z.to_nat o) with (length out) by llia.
    destruct (write_down out mid rest r) as (mid' & -> & Hml). apply wp_ret. exists mid'.
    rewrite !len_app. change (len [r]) with 1. split; [|llia]. repeat f_equal. lia. }
  destruct out as [|p out0 _] using rev_ind.
  { rewrite <- Ho. cbn [len length Z.of_nat Z.ltb Z.compare mbind res_bind]. cbn [last] in Hfin.
    rewrite <- Ho in Hwrite. eapply wp_mono; [exact Hwrite|].
    intros [s'|]; [|done]. intros (mid' & -> & E). cbn [fst snd]. by apply Hfin. }
  rewrite last_snoc in Hfin. rewrite len_app in Ho, Hm, Hoo. change (len [p]) with 1 in *.
  pose proof (len_nonneg out0) as Ho0.
  destruct (Z.ltb_spec 0 o); [|lia].
  assert (rd ((out0 ++ [p]) ++ mid ++ r :: rest) (o - 1) = Ok p) as Hrd.
  { apply rd_Some; [lia|]. rewrite <- app_assoc, lookup_app_r by llia.
    replace (_ - _)%nat with 0%nat by llia. done. }
  rewrite Hrd. cbn [mbind res_bind].
  destruct (Z.leb_spec (start r) (end_ p)), (Z.ltb_spec (end_ p) (start r)); try lia.
  2:{ eapply wp_mono; [exact Hwrite|]. intros [s'|]; [|done]. intros (mid' & -> & E). cbn [fst snd]. by apply Hfin. }
  cbn [mbind res_bind].
  destruct (Z.ltb_spec (end_ p) (end_ r)).
  - rewrite wr_ok by (autorewrite with len; pose proof (len_nonneg rest); lia).
    cbn [mbind res_bind]. apply wp_ret. cbn [fst snd].
    replace (Z.to_nat (o - 1)) with (length out0 + 0)%nat by llia.
    rewrite <- app_assoc, insert_app_r. simpl (<[0%nat := _]> _).
    rewrite length_app, Nat.add_sub, take_app_length in Hfin.
    specialize (Hfin (out0 ++ [mkRange (start p) (end_ r)]) (mid ++ [r]) eq_refl).
    rewrite !len_app in Hfin. change (len [r]) with 1 in Hfin.
    change (len [mkRange (start p) (end_ r)]) with 1 in Hfin. rewrite Ho in Hfin.
    rewrite <- !app_assoc in Hfin. apply Hfin. lia.
  - apply wp_ret. cbn [fst snd].
    specialize (Hfin (out0 ++ [p]) (mid ++ [r]) eq_refl).
    rewrite !len_app in Hfin. change (len [r]) with 1 in Hfin. change (len [p]) with 1 in Hfin.
    rewrite Ho in Hfin. rewrite <- !app_assoc in *. apply Hfin. lia.
Qed.
End Merge.

Lemma sorted_app_cons {A} (R : A -> A -> Prop) l1 x l2 :
  StronglySorted R (l1 ++ x :: l2) -> Forall (fun y => R y x) l1 /\ Forall (R x) l2.
Proof.
  induction l1 as [|y l1 IH]; simpl; intros Hs; apply StronglySorted_inv in Hs as [Hs Hy].
  - done.
  - destruct (IH Hs) as [H1 H2]. split; [|done]. constructor; [|done].
    apply Forall_app in Hy as [_ Hy]. by apply Forall_cons in Hy as [? _].
Qed.

Lemma check_invariants_ok rs : rs_wf rs -> canonical (live rs) ->
  total (range_set_check_invariants rs) (fun _ => True).
Proof.
  intros Hwf [Hs Hf]. unfold range_set_check_invariants. pose proof (len_live rs Hwf) as Hlen.
  pose proof (wf_nr rs Hwf) as Hnr. apply wp_bind.
  assert (forall i r, live rs !! i = Some r -> start r < end_ r) as Hne.
  { intros i r Hr. by apply (Forall_lookup_1 _ _ _ _ Hf Hr). }
  assert (total (loop (S (Z.to_nat (rs_nr rs))) (check_step rs) 1) (fun _ => True)) as Hloop.
  { apply (wp_loop _ (fun i => 1 <= i) (fun i => Z.to_nat (rs_nr rs - i))); [|lia|lia].
    intros i Hi. unfold check_step. destruct (Z.ltb_spec i (rs_nr rs)); [|done].
    destruct (live_lookup rs (i - 1) Hwf ltac:(lia)) as (p & Lp & -> & Dp & Tp).
    destruct (live_lookup rs i Hwf ltac:(lia)) as (r & Lr & -> & Dr & Tr). cbn [mbind res_bind].
    replace (i - 1 + 1) with i in Dp by lia. rewrite Dr in Dp.
    rewrite <- (take_drop (Z.to_nat (i - 1)) (live rs)), Dp in Hs.
    apply sorted_app_cons in Hs as [_ Hs]. apply Forall_cons in Hs as [Hpr _].
    specialize (Hne _ _ Lr). unfold assert.
    destruct (Z.ltb_spec (end_ p) (start r)); [|lia]. destruct (Z.ltb_spec (start r) (end_ r)); [|lia].
    cbn [mbind res_bind]. apply wp_ret. lia. }
  destruct (tr (rs_nr rs)) eqn:E; [|done].
  apply tr_true in E. destruct (live_lookup rs 0 Hwf ltac:(lia)) as (r & Lr & -> & _). cbn [mbind res_bind].
  specialize (Hne _ _ Lr). unfold assert. destruct (Z.ltb_spec (start r) (end_ r)); [|lia]. apply wp_ret. done.
Qed.

Lemma sort_and_merge_spec qsort `{!QsortOk qsort} rs :
  rs_wf rs -> Forall (fun r => start r <= end_ r) (live rs) ->
  total (sort_and_merge_range_set qsort rs) (fun rs' =>
    rs_wf rs' /\ canonical (live rs') /\ (forall x, covers (live rs') x <-> covers (live rs) x)).
Proof.
  intros Hwf Hle. pose proof Hwf as [Hlen Hnr Hal]. unfold sort_and_merge_range_set.
  destruct (QSORT_ranges qsort (ranges rs) (rs_nr rs) ltac:(lia)) as (K & -> & HK & Hperm & Hsort).
  set (tl := drop (Z.to_nat (rs_nr rs)) (ranges rs)).
  assert (sorted_start K) as HsK by (split; [done|by rewrite Hperm]).
  apply wp_bind. eapply wp_mono.
  { apply (wp_loop _ (merge_inv (rs_nr rs) K tl) (fun s => Z.to_nat (rs_nr rs - s.1.2))
      (fun '(l, o) => o <= rs_nr rs /\ o = len (foldl add_range [] K) /\ len l = rs_nr rs + len tl /\
        take (Z.to_nat o) l = foldl add_range [] K)).
    - intros s Hs. eapply wp_mono; [apply (merge_step_spec (rs_nr rs) K tl HK); done|].
      intros [s'|[l o]]; [|done]. intros (Hs' & E & Hlt). split; [done|lia].
    - split; [lia|]. by exists [], [].
    - simpl. lia. }
  intros [l o] (Ho & Eo & Hl & Ht). cbn [assert]. destruct (Z.leb_spec o (rs_nr rs)); [|lia].
  cbn [assert mbind res_bind].
  destruct (foldl_add_ok K [] ltac:(by repeat constructor) HsK ltac:(constructor)) as [Hc Hcov].
  assert (rs_wf (mkRS (rs_alloc rs) o l)) as Hwf'.
  { constructor; cbn; [|pose proof (len_nonneg (foldl add_range [] K)); lia|lia].
    rewrite Hl. unfold tl, len in *. rewrite length_drop. lia. }
  assert (live (mkRS (rs_alloc rs) o l) = foldl add_range [] K) as Hlive by exact Ht.
  apply wp_bind. eapply wp_mono; [apply check_invariants_ok; [done|by rewrite Hlive]|]. intros [] _.
  apply wp_ret. rewrite Hlive. split_and!; [done|done|]. intros x. rewrite Hcov, covers_nil.
  rewrite Hperm. unfold live. tauto.
Qed.

(** ** The touched hunks *)

Definition hunk_touched (l : list range) (h : range * range) : bool := existsb (ranges_overlap h.2) l.

Lemma overlap_false_before l t : Forall (fun r => end_ r <= start t) l -> existsb (ranges_overlap t) l = false.
Proof.
  induction 1 as [|r l Hr _ IH]; [done|]. simpl. rewrite IH, orb_false_r. unfold ranges_overlap.
  destruct (Z.leb_spec (end_ r) (start t)); [|lia]. by rewrite orb_true_r.
Qed.

Lemma overlap_false_after l t : Forall (fun r => end_ t <= start r) l -> existsb (ranges_overlap t) l = false.
Proof.
  induction 1 as [|r l Hr _ IH]; [done|]. simpl. rewrite IH, orb_false_r. unfold ranges_overlap.
  destruct (Z.leb_spec (end_ t) (start r)); [|lia]. done.
Qed.

Lemma filter_none {A} (f : A -> bool) l : Forall (fun x => f x = false) l -> List.filter f l = [].
Proof. induction 1 as [|x l Hx _ IH]; [done|]. simpl. by rewrite Hx. Qed.

Section Touched.
Context `{Memory} (junk : range) (diff : diff_ranges) (rs : range_set).
Local Abbreviation P := (live (parent diff)).
Local Abbreviation T := (live (target diff)).
Hypothesis (Hwp : rs_wf (parent diff)) (Hwt : rs_wf (target diff)) (Hws : rs_wf rs).
Hypothesis (Hop : ordered P) (Hot : ordered T) (Hos : ordered (live rs)).
Hypothesis (Hnr : rs_nr (parent diff) = rs_nr (target diff)) (Hne : 0 < rs_nr rs).
Hypothesis (Hsz : rs_nr (target diff) < 2 ^ 28).

(** The hunks before [i] that touch [rs]. *)
Definition touched_upto (i : Z) : list (range * range) :=
  List.filter (hunk_touched (live rs)) (zip (take (Z.to_nat i) P) (take (Z.to_nat i) T)).

Lemma touch_skip_loop t j : 0 <= j < rs_nr rs ->
  Forall (fun r => end_ r <= start t) (take (Z.to_nat j) (live rs)) ->
  total (loop (S (Z.to_nat (rs_nr rs))) (touch_skip rs t) j) (fun o => match o with
    | None => Forall (fun r => end_ r <= start t) (live rs)
    | Some j' => 0 <= j' < rs_nr rs /\ Forall (fun r => end_ r <= start t) (take (Z.to_nat j') (live rs)) /\
        exists r, live rs !! Z.to_nat j' = Some r /\ start t < end_ r
    end).
Proof using Hws Hne.
  intros Hj Hp. apply (wp_loop _ (fun k => 0 <= k < rs_nr rs /\
      Forall (fun r => end_ r <= start t) (take (Z.to_nat k) (live rs))) (fun k => Z.to_nat (rs_nr rs - k)));
    [|done|lia].
  intros k [Hk Hpk]. unfold touch_skip.
  destruct (live_lookup rs k Hws ltac:(lia)) as (r & Lr & -> & Dr & Tr). cbn [mbind res_bind].
  destruct (Z.leb_spec (end_ r) (start t)).
  - assert (Forall (fun r => end_ r <= start t) (take (Z.to_nat (k + 1)) (live rs))) as Hk1.
    { rewrite Tr. apply Forall_app_2; [done|by apply Forall_singleton]. }
    destruct (Z.eqb_spec (k + 1) (rs_nr rs)) as [E|E]; apply wp_ret.
    + rewrite take_ge in Hk1; [done|]. pose proof (len_live rs Hws). llia.
    + split; [|lia]. split; [lia|done].
  - apply wp_ret. split; [lia|]. split; [done|]. exists r. split; [done|lia].
Qed.

Definition touched_inv (s : diff_ranges * Z * Z) : Prop :=
  let '(out, i, j) := s in
  rs_wf (parent out) /\ rs_wf (target out) /\ 0 <= i <= rs_nr (target diff) /\ 0 <= j < rs_nr rs /\
  live (parent out) = (touched_upto i).*1 /\ live (target out) = (touched_upto i).*2 /\
  Forall (fun t => Forall (fun r => end_ r <= start t) (take (Z.to_nat j) (live rs))) (drop (Z.to_nat i) T).

Lemma touched_upto_all : touched_upto (rs_nr (target diff)) = List.filter (hunk_touched (live rs)) (zip P T).
Proof using Hwp Hwt Hnr.
  unfold touched_upto. pose proof (len_live _ Hwp). pose proof (len_live _ Hwt).
  rewrite !take_ge by llia. done.
Qed.

Lemma touched_upto_S i p t : take (Z.to_nat (i + 1)) P = take (Z.to_nat i) P ++ [p] ->
  take (Z.to_nat (i + 1)) T = take (Z.to_nat i) T ++ [t] -> 0 <= i < rs_nr (target diff) ->
  touched_upto (i + 1) = touched_upto i ++ (if existsb (ranges_overlap t) (live rs) then [(p, t)] else []).
Proof using Hwp Hwt Hnr.
  intros Ep Et Hi. pose proof (len_live _ Hwp). pose proof (len_live _ Hwt).
  unfold touched_upto. rewrite Ep, Et, zip_with_app by (rewrite !length_take; llia).
  by rewrite List.filter_app.
Qed.

Lemma touched_upto_sub i : (touched_upto i).*1 ⊆ take (Z.to_nat i) P /\ (touched_upto i).*2 ⊆ take (Z.to_nat i) T.
Proof.
  unfold touched_upto. split; intros x Hx; apply list_elem_of_fmap in Hx as ([p t] & -> & Hx);
    apply list_elem_of_In, filter_In in Hx as [Hx _]; apply list_elem_of_In in Hx;
    apply elem_of_lookup_zip_with_1 in Hx as (k & p' & t' & [= -> ->] & Hp & Ht);
    by eapply list_elem_of_lookup_2.
Qed.

Lemma touched_done i : 0 <= i <= rs_nr (target diff) ->
  Forall (fun t => Forall (fun r => end_ r <= start t) (live rs)) (drop (Z.to_nat i) T) ->
  touched_upto i = touched_upto (rs_nr (target diff)).
Proof using Hwp Hwt Hnr.
  intros Hi Hall. rewrite touched_upto_all. unfold touched_upto.
  pose proof (len_live _ Hwp) as LP. pose proof (len_live _ Hwt) as LT.
  rewrite <- (take_drop (Z.to_nat i) P) at 2. rewrite <- (take_drop (Z.to_nat i) T) at 2.
  rewrite zip_with_app by (rewrite !length_take; llia). rewrite List.filter_app.
  rewrite (filter_none _ (zip (drop _ _) _)), app_nil_r; [done|].
  apply Forall_forall. intros [p t] Hpt. apply elem_of_lookup_zip_with_1 in Hpt as (k & p' & t' & [= -> ->] & _ & Ht).
  apply overlap_false_before. by apply (Forall_lookup_1 _ _ _ _ Hall Ht).
Qed.

Lemma touched_step_spec s : touched_inv s ->
  wp oom (touched_step junk diff rs s) (fun x => match x with
    | inl s' => touched_inv s' /\ s'.1.2 = s.1.2 + 1 /\ s.1.2 < rs_nr (target diff)
    | inr out => rs_wf (parent out) /\ rs_wf (target out) /\
        live (parent out) = (List.filter (hunk_touched (live rs)) (zip P T)).*1 /\
        live (target out) = (List.filter (hunk_touched (live rs)) (zip P T)).*2
    end).
Proof using All.
  destruct s as [[out i] j]. intros (Hw1 & Hw2 & Hi & Hj & Hl1 & Hl2 & Hpass).
  unfold touched_step. cbn [fst snd]. pose proof (len_live _ Hwp) as LP. pose proof (len_live _ Hwt) as LT.
  destruct (Z.ltb_spec i (rs_nr (target diff))) as [Hlt|Hge].
  2:{ apply wp_ret. assert (i = rs_nr (target diff)) as -> by lia. by rewrite <- touched_upto_all. }
  destruct (live_lookup (target diff) i Hwt ltac:(lia)) as (t & Lt & -> & Dt & Tt).
  destruct (live_lookup (parent diff) i Hwp ltac:(lia)) as (p & Lp & Rp & Dp & Tp).
  pose proof (touched_upto_S i p t Tp Tt ltac:(lia)) as HS.
  destruct (ordered_split (target diff) i t Hot Dt) as [Ht Hafter].
  rewrite Dt in Hpass. apply Forall_cons in Hpass as [Hpt Hpass].
  cbn [mbind res_bind]. apply wp_bind. eapply wp_mono; [apply total_wp, (touch_skip_loop t j Hj Hpt)|].
  intros [j'|].
  2:{ intros Hall. apply wp_ret. rewrite <- touched_upto_all, <- (touched_done i); [done|lia|].
      rewrite Dt. constructor; [done|]. eapply Forall_impl; [exact Hafter|]. intros t' Ht'.
      cbn beta in Ht'. eapply Forall_impl; [exact Hall|]. simpl. lia. }
  intros (Hj' & Hp' & r & Lr & Hr).
  assert (Forall (fun t => Forall (fun r => end_ r <= start t) (take (Z.to_nat j') (live rs)))
    (drop (Z.to_nat (i + 1)) T)) as Hpass'.
  { eapply Forall_impl; [exact Hafter|]. intros t' Ht'. cbn beta in Ht'.
    eapply Forall_impl; [exact Hp'|]. simpl. lia. }
  rewrite (rd_live rs j' r) by (done || lia). cbn [mbind res_bind].
  assert (existsb (ranges_overlap t) (live rs) = ranges_overlap t r) as Hex.
  { rewrite <- (take_drop (Z.to_nat j') (live rs)), (drop_S _ _ _ Lr), existsb_app.
    rewrite (overlap_false_before _ _ Hp'). simpl. destruct (ranges_overlap t r) eqn:Eo; [done|]. simpl.
    apply overlap_false_after. unfold ranges_overlap in Eo. apply negb_false_iff, orb_true_iff in Eo.
    rewrite !Z.leb_le in Eo. destruct Hos as [Hss Hsf].
    rewrite <- (take_drop (Z.to_nat j') (live rs)), (drop_S _ _ _ Lr) in Hss.
    apply sorted_app_cons in Hss as [_ Hss]. pose proof (Forall_lookup_1 _ _ _ _ Hsf Lr) as Hrr. cbn beta in Hrr.
    eapply Forall_impl; [exact Hss|]. simpl. lia. }
  rewrite Hex in HS. destruct (ranges_overlap t r).
  - rewrite Rp. cbn [mbind res_bind]. destruct (touched_upto_sub i) as [S1 S2].
    assert (rs_nr (parent out) <= i /\ rs_nr (target out) <= i) as [N1 N2].
    { rewrite <- (len_live _ Hw1), <- (len_live _ Hw2), Hl1, Hl2. unfold len. rewrite !length_fmap.
      unfold touched_upto. pose proof (List.filter_length_le (hunk_touched (live rs)) (zip (take (Z.to_nat i) P) (take (Z.to_nat i) T))) as Hle.
      rewrite length_zip_with, !length_take in Hle. lia. }
    assert (start p <= end_ p) as Hpp by (destruct Hop as [_ F]; by apply (Forall_lookup_1 _ _ _ _ F Lp)).
    assert (forall l k q, ordered (live l) -> live l !! Z.to_nat i = Some q -> k ⊆ take (Z.to_nat i) (live l) ->
      Forall (fun r => end_ r <= start q) k) as Hbefore.
    { intros l k q [Hso _] Lq Hsub. rewrite <- (take_drop (Z.to_nat i) (live l)), (drop_S _ _ _ Lq) in Hso.
      apply sorted_app_cons in Hso as [Hso _]. rewrite Forall_forall in *. auto. }
    apply wp_bind. eapply wp_mono.
    { apply (append_spec junk (parent out) (start p) (end_ p) Hw1); [lia|done|]. rewrite Hl1. by apply (Hbefore (parent diff)). }
    intros op (Wp & Lp' & Np). apply wp_bind. eapply wp_mono.
    { apply (append_spec junk (target out) (start t) (end_ t) Hw2); [lia|done|]. rewrite Hl2. by apply (Hbefore (target diff)). }
    intros ot (Wt & Lt' & Nt). apply wp_ret. split; [|done]. destruct p as [ps pe], t as [ts te].
    split_and!; try (done || lia); cbn [parent target]; rewrite HS, fmap_app; [by rewrite Lp', Hl1|by rewrite Lt', Hl2].
  - apply wp_ret. split; [|done]. rewrite app_nil_r in HS.
    split_and!; try (done || lia); by rewrite HS.
Qed.

Lemma filter_touched_spec out : rs_wf (parent out) -> rs_wf (target out) ->
  rs_nr (parent out) = 0 -> rs_nr (target out) = 0 ->
  wp oom (diff_ranges_filter_touched junk out diff rs) (fun out' =>
    rs_wf (parent out') /\ rs_wf (target out') /\
    live (parent out') = (List.filter (hunk_touched (live rs)) (zip P T)).*1 /\
    live (target out') = (List.filter (hunk_touched (live rs)) (zip P T)).*2).
Proof using All.
  intros W1 W2 N1 N2. unfold diff_ranges_filter_touched. rewrite N2. cbn [Z.eqb assert mbind res_bind].
  apply (wp_loop _ touched_inv (fun s => Z.to_nat (rs_nr (target diff) - s.1.2))); [| |simpl; lia].
  - intros s Hs. eapply wp_mono; [by apply touched_step_spec|].
    intros [s'|out']; [|done]. intros (Hs' & E & Hlt). split; [done|lia].
  - unfold touched_inv. pose proof (wf_nr _ Hwt). apply live_nil in N1 as ->; [|done]. apply live_nil in N2 as ->; [|done].
    split_and!; try (done || lia). apply Forall_true. intros t. constructor.
Qed.
End Touched.

(** ** Shifting across a diff *)

(** The hunks of a diff as pairs of a parent and a target range: between hunks
    the two sides advance by the same number of lines. *)
Fixpoint diff_ok (pe te : Z) (hs : list (range * range)) : Prop :=
  match hs with
  | [] => True
  | (p, t) :: hs =>
      start p - pe = start t - te /\ te <= start t /\ start t <= end_ t /\ start p <= end_ p /\
      diff_ok (end_ p) (end_ t) hs
  end.

(** The offset of line [x]: the lines that the hunks up to it add or remove. *)
Fixpoint shift_at (hs : list (range * range)) (x : Z) : Z :=
  match hs with
  | [] => 0
  | (p, t) :: hs =>
      if start t <=? x then (end_ p - start p) - (end_ t - start t) + shift_at hs x else 0
  end.

Definition shift_range (hs : list (range * range)) (r : range) : range :=
  mkRange (start r + shift_at hs (start r)) (end_ r + shift_at hs (start r)).

Lemma diff_ok_ordered hs : forall pe te, diff_ok pe te hs ->
  ordered hs.*1 /\ Forall (fun p => pe <= start p) hs.*1 /\
  ordered hs.*2 /\ Forall (fun t => te <= start t) hs.*2.
Proof.
  induction hs as [|[p t] hs IH]; intros pe te; simpl; [by repeat constructor|].
  intros (E & H1 & H2 & H3 & Hok). destruct (IH _ _ Hok) as ([I1 I2] & I3 & [I4 I5] & I6).
  split_and!; [split; [by constructor|by constructor]| |split; [by constructor|by constructor]|].
  - constructor; [lia|]. eapply Forall_impl; [exact I3|]. simpl. lia.
  - constructor; [lia|]. eapply Forall_impl; [exact I6|]. simpl. lia.
Qed.

Lemma shift_at_const hs r x : start r <= x < end_ r -> Forall (fun t => start t <= end_ t) hs.*2 ->
  Forall (apart r) hs.*2 -> shift_at hs x = shift_at hs (start r).
Proof.
  intros Hx Hf Ha. induction hs as [|[p t] hs IH]; [done|]. simpl in *.
  apply Forall_cons in Hf as [Ht Hf]. apply Forall_cons in Ha as [Hat Ha]. rewrite IH by done.
  unfold apart in Hat. destruct (Z.leb_spec (start t) x), (Z.leb_spec (start t) (start r)); (done || lia).
Qed.

(** Ranges apart from the hunks stay in order. *)
Lemma shift_at_le hs r1 r2 : forall pe te, diff_ok pe te hs ->
  start r1 < end_ r1 -> end_ r1 <= start r2 -> start r2 < end_ r2 ->
  Forall (apart r1) hs.*2 -> Forall (apart r2) hs.*2 ->
  end_ r1 + shift_at hs (start r1) <= start r2 + shift_at hs (start r2) /\
  (te <= start r2 -> pe <= start r2 + shift_at hs (start r2) + (pe - te)).
Proof.
  induction hs as [|[p t] hs IH]; intros pe te Hok Hr1 H12 Hr2 Ha1 Ha2; simpl in *.
  { split; lia. }
  destruct Hok as (E & H1 & H2 & H3 & Hok).
  apply Forall_cons in Ha1 as [Ht1 Ha1]. apply Forall_cons in Ha2 as [Ht2 Ha2]. unfold apart in Ht1, Ht2.
  destruct (IH _ _ Hok Hr1 H12 Hr2 Ha1 Ha2) as [IH1 IH2].
  destruct (Z.leb_spec (start t) (start r1)), (Z.leb_spec (start t) (start r2)); try lia.
Qed.

Lemma shifted_ordered hs l : diff_ok 0 0 hs -> disjoint_ranges l ->
  Forall (fun r => Forall (apart r) hs.*2) l -> ordered (shift_range hs <$> l).
Proof.
  intros Hok [Hs Hf] Ha. split.
  - induction Hs as [|r l Hs IH Hr]; [constructor|]. simpl.
    apply Forall_cons in Hf as [Hr1 Hf]. apply Forall_cons in Ha as [Ha1 Ha].
    constructor; [by apply IH|]. apply Forall_fmap. apply Forall_forall. intros r2 Hin. unfold compose.
    rewrite Forall_forall in Hr, Hf, Ha. simpl.
    apply (shift_at_le hs r r2 0 0); auto.
  - apply Forall_fmap. eapply Forall_impl; [exact Hf|]. unfold compose. simpl. lia.
Qed.

(** A range of lines with numbers below [2 ^ 62]. *)
Definition line_fits (r : range) : Prop := 0 <= start r <= end_ r /\ end_ r < 2 ^ 62.

Lemma within_fits r a : start r <= end_ r -> within r a -> line_fits a -> line_fits r.
Proof. unfold within, line_fits. lia. Qed.

Section Shift.
Context `{Memory} (junk : range) (rs : range_set) (diff : diff_ranges).
Local Abbreviation hunks := (zip (live (parent diff)) (live (target diff))).
Hypothesis (Hws : rs_wf rs) (Hwp : rs_wf (parent diff)) (Hwt : rs_wf (target diff)).
Hypothesis (Hnr : rs_nr (parent diff) = rs_nr (target diff)) (Hsz : rs_nr rs < 2 ^ 28).
Hypothesis (Hsorted : sorted_start (live rs)).
Hypothesis (Hord : ordered (shift_range hunks <$> live rs)).
Hypothesis (Hok : diff_ok 0 0 hunks) (Hfit : Forall line_fits (live rs)).
Hypothesis (Hfp : Forall line_fits (live (parent diff))) (Hft : Forall line_fits (live (target diff))).

(** [offset] is what the two sides of the hunks before [j] differ by: both ends
    are line numbers, so that it stays inside the type. *)
Definition offset_inv (offset j : Z) : Prop :=
  exists pe te, 0 <= pe < 2 ^ 62 /\ 0 <= te < 2 ^ 62 /\ offset = pe - te /\
    diff_ok pe te (drop (Z.to_nat j) hunks).

(** [offset] and [j] account for the hunks that start at [x] or before. *)
Definition shift_inv (x offset j : Z) : Prop :=
  0 <= j <= rs_nr (target diff) /\ offset_inv offset j /\
  forall y, x <= y -> shift_at hunks y = offset + shift_at (drop (Z.to_nat j) hunks) y.

Lemma hunk_lookup j : 0 <= j < rs_nr (target diff) ->
  exists p t, rd (ranges (parent diff)) j = Ok p /\ rd (ranges (target diff)) j = Ok t /\
    drop (Z.to_nat j) hunks = (p, t) :: drop (Z.to_nat (j + 1)) hunks /\ line_fits p /\ line_fits t.
Proof using Hwp Hwt Hnr Hfp Hft.
  intros Hj. destruct (live_lookup (target diff) j Hwt ltac:(lia)) as (t & Lt & Rt & Dt & _).
  destruct (live_lookup (parent diff) j Hwp ltac:(lia)) as (p & Lp & Rp & Dp & _).
  exists p, t. split_and!; [done|done| |by apply (Forall_lookup_1 _ _ _ _ Hfp Lp)|by apply (Forall_lookup_1 _ _ _ _ Hft Lt)].
  replace (Z.to_nat (j + 1)) with (S (Z.to_nat j)) by lia.
  apply drop_S. rewrite lookup_zip_with, Lp, Lt. done.
Qed.

(** One hunk more: the four signed operations on the offset. *)
Lemma offset_inv_step o k p t : 0 <= k -> drop (Z.to_nat k) hunks = (p, t) :: drop (Z.to_nat (k + 1)) hunks ->
  line_fits p -> line_fits t -> offset_inv o k ->
  - 2 ^ 63 <= end_ p - start p < 2 ^ 63 /\ - 2 ^ 63 <= end_ t - start t < 2 ^ 63 /\
  - 2 ^ 63 <= (end_ p - start p) - (end_ t - start t) < 2 ^ 63 /\
  - 2 ^ 63 <= o + ((end_ p - start p) - (end_ t - start t)) < 2 ^ 63 /\
  offset_inv (o + ((end_ p - start p) - (end_ t - start t))) (k + 1).
Proof.
  intros Hk Hd [Hp1 Hp2] [Ht1 Ht2] (pe & te & Hpe & Hte & -> & Ho). rewrite Hd in Ho.
  cbn [diff_ok] in Ho. destruct Ho as (E & H1 & H2 & H3 & Ho). split_and!; try lia.
  exists (end_ p), (end_ t). split_and!; (done || lia).
Qed.

Lemma shift_skip_loop x offset j : shift_inv x offset j ->
  total (loop (S (Z.to_nat (rs_nr (target diff)))) (shift_skip diff x) (offset, j)) (fun '(offset', j') =>
    shift_inv x offset' j' /\ offset' = shift_at hunks x).
Proof using Hwp Hwt Hnr Hfp Hft.
  intros Hinv. apply (wp_loop _ (fun '(o, k) => shift_inv x o k) (fun s => Z.to_nat (rs_nr (target diff) - s.2)));
    [|done|destruct Hinv; simpl; lia].
  intros [o k] (Hk & Hoff & Hsh). unfold shift_skip.
  destruct (Z.ltb_spec k (rs_nr (target diff))) as [Hlt|Hge].
  - destruct (hunk_lookup k ltac:(lia)) as (p & t & -> & -> & Hd & Fp & Ft). cbn [mbind res_bind]. rewrite Hd in Hsh.
    destruct (Z.leb_spec (start t) x).
    + destruct (offset_inv_step o k p t ltac:(lia) Hd Fp Ft Hoff) as (B1 & B2 & B3 & B4 & Hoff').
      cbn [mbind res_bind]. rewrite (as_long_ok _ B1), (as_long_ok _ B2). cbn [mbind res_bind].
      rewrite (as_long_ok _ B3). cbn [mbind res_bind]. rewrite (as_long_ok _ B4). cbn [mbind res_bind].
      apply wp_ret. split; [|simpl; lia]. split; [lia|]. split; [done|]. intros y Hy.
      rewrite Hsh by done. cbn [shift_at]. destruct (Z.leb_spec (start t) y); lia.
    + apply wp_ret. split; [split; [done|split; [done|by rewrite Hd]]|]. rewrite Hsh by lia. cbn [shift_at].
      destruct (Z.leb_spec (start t) x); lia.
  - apply wp_ret. split; [by split|]. rewrite Hsh by lia. rewrite drop_ge; [simpl; lia|].
    pose proof (len_live _ Hwp). pose proof (len_live _ Hwt). rewrite length_zip_with. llia.
Qed.

Lemma shift_spec out : rs_wf out -> rs_nr out = 0 ->
  wp oom (range_set_shift_diff junk out rs diff) (fun out' =>
    rs_wf out' /\ live out' = shift_range hunks <$> live rs).
Proof using All.
  intros Hwo Hn0. unfold range_set_shift_diff.
  apply (wp_loop _ (fun '(o, i, offset, j) => rs_wf o /\ 0 <= i <= rs_nr rs /\
      live o = shift_range hunks <$> take (Z.to_nat i) (live rs) /\
      Forall (fun r => shift_inv (start r) offset j) (drop (Z.to_nat i) (live rs)))
    (fun s => Z.to_nat (rs_nr rs - s.1.1.2))); [| |simpl; lia].
  2:{ pose proof (wf_nr rs Hws). pose proof (wf_nr _ Hwt). apply live_nil in Hn0 as ->; [|done].
      split_and!; try (done || lia). apply Forall_true. intros r. split; [lia|].
      split; [exists 0, 0; by split_and!|]. intros y _. change (drop (Z.to_nat 0) hunks) with hunks. lia. }
  intros [[[o i] offset] j] (Hw & Hi & Hl & Hsh). unfold shift_step.
  destruct (Z.ltb_spec i (rs_nr rs)) as [Hlt|Hge].
  2:{ apply wp_ret. split; [done|]. rewrite Hl, take_ge; [done|]. pose proof (len_live rs Hws). llia. }
  destruct (live_lookup rs i Hws ltac:(lia)) as (r & Lr & -> & Dr & Tr). cbn [mbind res_bind].
  rewrite Dr in Hsh. apply Forall_cons in Hsh as [Hinv Hsh]. apply wp_bind.
  eapply wp_mono; [by apply total_wp, shift_skip_loop|]. intros [offset' j'] [(Hj' & Hoff' & Hinv') ->].
  assert (line_fits r) as [Fr1 Fr2] by (apply (Forall_lookup_1 _ _ _ _ Hfit Lr)).
  pose proof Hoff' as (pe & te & Hpe & Hte & Eo & _).
  rewrite (as_long_ok (start r + _)) by lia. cbn [mbind res_bind].
  rewrite (as_long_ok (end_ r + _)) by lia. cbn [mbind res_bind].
  destruct (sorted_drop rs i r Hsorted Dr) as [Hafter Hr].
  assert (rs_nr o = i) as Hno.
  { rewrite <- (len_live o Hw), Hl. unfold len. rewrite length_fmap, length_take.
    pose proof (len_live rs Hws). llia. }
  apply wp_bind. eapply wp_mono.
  { apply append_spec; [done|lia|lia|]. rewrite Hl. destruct Hord as [Hs _].
    rewrite <- (take_drop (Z.to_nat i) (live rs)), Dr, fmap_app, fmap_cons in Hs.
    by apply sorted_app_cons in Hs as [Hs _]. }
  intros o' (Hw' & Hl' & Hn'). apply wp_ret. split; [|simpl; lia]. split_and!; try (done || lia).
  - rewrite Hl', Tr, fmap_app, Hl. done.
  - eapply Forall_impl; [exact Hafter|]. intros r' Hr'. cbn beta in Hr'. split; [done|].
    split; [done|]. intros y Hy. apply Hinv'. lia.
Qed.
End Shift.

(** ** Mapping across a diff *)

Lemma filter_sorted {A B} (R : B -> B -> Prop) (g : A -> B) f l :
  StronglySorted R (g <$> l) -> StronglySorted R (g <$> List.filter f l).
Proof.
  induction l as [|x l IH]; [done|]. intros Hs. simpl in Hs. apply StronglySorted_inv in Hs as [Hs Hx].
  simpl. destruct (f x); [|by apply IH]. simpl. constructor; [by apply IH|].
  apply Forall_fmap. apply Forall_forall. intros y Hy.
  apply list_elem_of_In, filter_In in Hy as [Hy _]. apply list_elem_of_In in Hy.
  rewrite Forall_fmap, Forall_forall in Hx. by apply Hx.
Qed.

Lemma filter_ordered (g : range * range -> range) f l : ordered (g <$> l) -> ordered (g <$> List.filter f l).
Proof.
  intros [Hs Hf]. split; [by apply filter_sorted|]. apply Forall_fmap, Forall_forall. intros y Hy.
  apply list_elem_of_In, filter_In in Hy as [Hy _]. apply list_elem_of_In in Hy.
  rewrite Forall_fmap, Forall_forall in Hf. by apply Hf.
Qed.

(** Every hunk is apart from the pieces that are left of [l]: a hunk that does
    not touch [l] is apart from its ranges, the others cut the pieces. *)
Lemma pieces_apart l (hs : list (range * range)) ps :
  pieces l (List.filter (hunk_touched l) hs).*2 ps -> Forall (fun r => Forall (apart r) hs.*2) ps.
Proof.
  intros Hp. eapply Forall_impl; [exact Hp|]. intros r (Ha & a & Hin & Hw).
  apply Forall_fmap, Forall_forall. intros [p t] Hh. unfold compose. simpl.
  destruct (hunk_touched l (p, t)) eqn:Et.
  - rewrite Forall_fmap, Forall_forall in Ha. apply (Ha (p, t)).
    apply list_elem_of_In, filter_In. split; [by apply list_elem_of_In|done].
  - assert (ranges_overlap t a = false) as Ho.
    { unfold hunk_touched in Et. simpl in Et. destruct (ranges_overlap t a) eqn:Eo; [|done].
      rewrite <- Et. symmetry. apply existsb_exists. exists a. split; [by apply list_elem_of_In|done]. }
    unfold ranges_overlap in Ho. apply negb_false_iff, orb_true_iff in Ho. rewrite !Z.leb_le in Ho.
    unfold within in Hw. unfold apart. lia.
Qed.

Lemma covers_shift hs l y : Forall (fun t => start t <= end_ t) hs.*2 ->
  Forall (fun r => Forall (apart r) hs.*2) l ->
  covers (shift_range hs <$> l) y <-> exists x, covers l x /\ y = x + shift_at hs x.
Proof.
  intros Hf Ha. rewrite Forall_forall in Ha. split.
  - intros (r & Hr & Hi). apply list_elem_of_fmap in Hr as (q & -> & Hq).
    unfold inr_, shift_range in Hi. simpl in Hi. exists (y - shift_at hs (start q)).
    assert (start q <= y - shift_at hs (start q) < end_ q) as Hx by lia.
    split; [by exists q|]. rewrite (shift_at_const hs q (y - shift_at hs (start q))) by auto. lia.
  - intros (x & (q & Hq & Hi) & ->). exists (shift_range hs q). split; [by apply list_elem_of_fmap_2|].
    unfold inr_ in *. rewrite (shift_at_const hs q x) by auto. simpl. lia.
Qed.

Section Map.
Context `{Memory} (junk : range).

Lemma map_across_diff_spec out rs diff :
  rs_wf out -> rs_nr out = 0 -> rs_wf rs -> 0 < rs_nr rs -> canonical (live rs) ->
  rs_wf (parent diff) -> rs_wf (target diff) -> rs_nr (parent diff) = rs_nr (target diff) ->
  rs_nr rs + rs_nr (target diff) < 2 ^ 27 - 1 ->
  let hunks := zip (live (parent diff)) (live (target diff)) in
  let touched := List.filter (hunk_touched (live rs)) hunks in
  diff_ok 0 0 hunks -> Forall line_fits (live rs) ->
  Forall line_fits (live (parent diff)) -> Forall line_fits (live (target diff)) ->
  wp oom (range_set_map_across_diff junk out rs diff) (fun '(out', t) =>
    rs_wf out' /\ canonical (live out') /\
    live (parent t) = touched.*1 /\ live (target t) = touched.*2 /\
    forall y, covers (live out') y <->
      covers touched.*1 y \/
      exists x, covers (live rs) x /\ ~ covers touched.*2 x /\ y = x + shift_at hunks x).
Proof.
  intros Hwo Hn0 Hws Hne Hcs Hwp Hwt Hnr Hsz hunks touched Hok Hfs Hfp Hft.
  destruct (diff_ok_ordered _ _ _ Hok) as (Hop & _ & Hot & _).
  pose proof (len_live _ Hwp) as LP. pose proof (len_live _ Hwt) as LT.
  assert (hunks.*1 = live (parent diff) /\ hunks.*2 = live (target diff)) as [E1 E2].
  { unfold hunks. rewrite fst_zip, snd_zip by llia. done. }
  pose proof (canonical_ordered _ Hcs) as Hos.
  assert (len touched <= rs_nr (target diff)) as Htl.
  { unfold touched, len. pose proof (List.filter_length_le (hunk_touched (live rs)) hunks) as Hle.
    unfold hunks in Hle at 2. rewrite length_zip_with in Hle. llia. }
  unfold range_set_map_across_diff. apply wp_bind. eapply wp_mono; [by apply xmalloc_oom|]. intros [] _.
  cbn [diff_ranges_init range_set_init tr Z.eqb negb mbind res_bind].
  assert (rs_wf (mkRS 0 0 [])) as Hw0 by (constructor; simpl; (done || lia)).
  apply wp_bind. eapply wp_mono.
  { apply (filter_touched_spec junk diff rs); try (done || lia); [by rewrite <- E1|by rewrite <- E2]. }
  fold hunks touched. intros td (Wtp & Wtt & Ltp & Ltt).
  assert (rs_nr (target td) = len touched /\ rs_nr (parent td) = len touched) as [Ntt Ntp].
  { rewrite <- (len_live _ Wtt), <- (len_live _ Wtp), Ltt, Ltp. unfold len. by rewrite !length_fmap. }
  apply wp_bind. eapply wp_mono.
  { apply (range_set_difference_spec junk (target td) Wtt); try (done || lia).
    - rewrite Ltt. apply filter_ordered. done.
    - destruct Hcs as [Hs Hf]. split; [|done]. by apply canonical_ordered. }
  intros tmp1 (W1 & D1 & N1 & C1 & P1). rewrite Ltt in C1, P1.
  assert (Forall line_fits (live tmp1)) as F1.
  { destruct D1 as [_ Hne1]. rewrite Forall_forall in Hne1, Hfs. apply Forall_forall. intros r Hr.
    unfold pieces in P1. rewrite Forall_forall in P1. destruct (P1 r Hr) as (_ & a & Ha & Hw).
    specialize (Hne1 r Hr). apply (within_fits r a); [lia|done|by apply Hfs]. }
  apply pieces_apart in P1.
  pose proof (shifted_ordered hunks (live tmp1) Hok D1 P1) as Hso.
  apply wp_bind. eapply wp_mono.
  { apply (shift_spec junk tmp1 diff); try (done || lia). apply ordered_start, disjoint_ordered, D1. }
  fold hunks. intros tmp2 (W2 & L2). apply wp_bind. eapply wp_mono.
  { apply (range_set_union_spec junk out tmp2 (parent td)); try done.
    - rewrite <- (len_live _ W2), L2, Ntp. unfold len. rewrite length_fmap. fold (len (live tmp1)).
      rewrite (len_live _ W1). unfold len in *. lia.
    - rewrite L2. by apply ordered_start.
    - rewrite Ltp. apply ordered_start, filter_ordered. done. }
  intros out' (W3 & C3 & U3). apply wp_ret. split_and!; try done.
  intros y. rewrite U3, L2, Ltp. rewrite covers_shift; [|by destruct Hot|done].
  assert ((exists x, covers (live tmp1) x /\ y = x + shift_at hunks x) <->
    (exists x, covers (live rs) x /\ ~ covers touched.*2 x /\ y = x + shift_at hunks x)) as ->.
  { apply exist_proper. intros x. rewrite C1. tauto. }
  tauto.
Qed.
End Map.

(** A range set with the given ranges, for concrete instances. *)
Definition set_of (l : list range) : range_set := mkRS (len l) (len l) l.

(** Solves the side conditions on concrete range sets. *)
Ltac concrete_set := vm_compute; repeat constructor; try (discriminate || lia || done).

(** ** Claims *)

(** [sort_and_merge_range_set] turns any list of ranges into the documented
    form (nonempty, sorted, with gaps) that covers the same lines; none of its
    assertions fails, whatever sorting function the C library has. *)
Theorem sort_and_merge_canonical qsort `{!QsortOk qsort} rs :
  rs_wf rs -> Forall (fun r => start r <= end_ r) (live rs) ->
  total (sort_and_merge_range_set qsort rs) (fun rs' =>
    rs_wf rs' /\ canonical (live rs') /\ (forall x, covers (live rs') x <-> covers (live rs) x)).
Proof. apply sort_and_merge_spec. done. Qed.

Lemma sort_and_merge_canonical_witness :
  total (sort_and_merge_range_set (stable_qsort (mkRange 0 0)) (set_of [mkRange 5 9; mkRange 1 3; mkRange 2 6; mkRange 4 4]))
    (fun rs' => rs_wf rs' /\ canonical (live rs') /\
       (forall x, covers (live rs') x <-> covers [mkRange 5 9; mkRange 1 3; mkRange 2 6; mkRange 4 4] x)).
Proof.
  apply (sort_and_merge_canonical (stable_qsort (mkRange 0 0)) (set_of [mkRange 5 9; mkRange 1 3; mkRange 2 6; mkRange 4 4]));
    concrete_set.
Defined.

(** [range_set_union] of two sorted sets covers the lines of either, in the
    documented form: overlapping and adjacent ranges are merged, empty ones dropped. *)
Theorem range_set_union_covers `{Memory} junk out a b :
  rs_wf out -> rs_nr out = 0 -> rs_wf a -> rs_wf b -> rs_nr a + rs_nr b <= 2 ^ 28 ->
  sorted_start (live a) -> sorted_start (live b) ->
  wp oom (range_set_union junk out a b) (fun out' =>
    rs_wf out' /\ canonical (live out') /\
    (forall x, covers (live out') x <-> covers (live a) x \/ covers (live b) x)).
Proof. apply range_set_union_spec. Qed.

Lemma range_set_union_covers_witness :
  wp (@oom plenty) (@range_set_union plenty (mkRange 0 0) (set_of []) (set_of [mkRange 1 4; mkRange 8 9]) (set_of [mkRange 4 6]))
    (fun out' => rs_wf out' /\ canonical (live out') /\
      (forall x, covers (live out') x <-> covers [mkRange 1 4; mkRange 8 9] x \/ covers [mkRange 4 6] x)).
Proof.
  apply (@range_set_union_covers plenty (mkRange 0 0) (set_of []) (set_of [mkRange 1 4; mkRange 8 9]) (set_of [mkRange 4 6]));
    concrete_set.
Defined.

(** [range_set_difference] terminates and covers exactly the lines of [a]
    that are not in [b], in disjoint nonempty ranges in order; the assertion of
    [range_set_append] never fails. *)
Theorem range_set_difference_covers `{Memory} junk b out a :
  rs_wf b -> ordered (live b) ->
  rs_wf out -> rs_nr out = 0 -> rs_wf a -> disjoint_ranges (live a) -> rs_nr a + rs_nr b + 1 < 2 ^ 28 ->
  wp oom (range_set_difference junk out a b) (fun out' =>
    rs_wf out' /\ disjoint_ranges (live out') /\
    (forall x, covers (live out') x <-> covers (live a) x /\ ~ covers (live b) x)).
Proof.
  intros. eapply wp_mono; [by apply range_set_difference_spec|]. intros o (? & ? & ? & ? & ?). done.
Qed.

Lemma range_set_difference_covers_witness :
  wp (@oom plenty) (@range_set_difference plenty (mkRange 0 0) (set_of []) (set_of [mkRange 1 9]) (set_of [mkRange 0 2; mkRange 4 6]))
    (fun out' => rs_wf out' /\ disjoint_ranges (live out') /\
      (forall x, covers (live out') x <-> covers [mkRange 1 9] x /\ ~ covers [mkRange 0 2; mkRange 4 6] x)).
Proof.
  apply (@range_set_difference_covers plenty (mkRange 0 0) (set_of [mkRange 0 2; mkRange 4 6]) (set_of []) (set_of [mkRange 1 9]));
    concrete_set.
Defined.

(** An empty set without memory: with at least one hunk the first iteration
    reads [rs->ranges[0]]. *)
Lemma map_across_diff_empty `{Memory} junk out rs diff :
  ranges rs = [] -> rs_wf (target diff) -> 0 < rs_nr (target diff) ->
  xmalloc sizeof_diff_ranges = Ok tt ->
  range_set_map_across_diff junk out rs diff = Fault UB.
Proof.
  intros Hr Hwt Hnr Hm. unfold range_set_map_across_diff. rewrite Hm.
  cbn [diff_ranges_init range_set_init tr Z.eqb negb mbind res_bind].
  unfold diff_ranges_filter_touched. cbn [assert Z.eqb rs_nr target mbind res_bind loop].
  unfold touched_step at 1. destruct (Z.ltb_spec 0 (rs_nr (target diff))); [|lia].
  destruct (live_lookup (target diff) 0 Hwt ltac:(lia)) as (t & _ & -> & _ & _). cbn [mbind res_bind loop].
  unfold touch_skip at 1. by rewrite Hr.
Qed.

(** C10: [range_set_map_across_diff] maps a set of lines across a diff, for line
    numbers below [2 ^ 62] and fewer than [2 ^ 27] ranges and hunks.  For a set
    with at least one range in the documented form, the result covers the parent
    side of every hunk that touches the set, and every other line of the set,
    moved by the lines that the hunks before it add or remove; it is in the
    documented form, no assertion fails and no signed addition overflows; only
    lack of memory stops it.  A set with no range is not covered by that, and the
    only caller, [process_diff_filepair], returns early for it: if the set also
    has no memory and the diff has a hunk, the function reads [rs->ranges[0]]
    through a null pointer. *)
Theorem map_across_diff_covers `{Memory} junk out rs diff :
  rs_wf out -> rs_nr out = 0 -> rs_wf rs -> canonical (live rs) ->
  rs_wf (parent diff) -> rs_wf (target diff) -> rs_nr (parent diff) = rs_nr (target diff) ->
  rs_nr rs + rs_nr (target diff) < 2 ^ 27 - 1 ->
  let hunks := zip (live (parent diff)) (live (target diff)) in
  let touched := List.filter (hunk_touched (live rs)) hunks in
  diff_ok 0 0 hunks -> Forall line_fits (live rs) ->
  Forall line_fits (live (parent diff)) -> Forall line_fits (live (target diff)) ->
  (0 < rs_nr rs ->
   wp oom (range_set_map_across_diff junk out rs diff) (fun '(out', t) =>
    rs_wf out' /\ canonical (live out') /\
    live (parent t) = touched.*1 /\ live (target t) = touched.*2 /\
    forall y, covers (live out') y <->
      covers touched.*1 y \/
      exists x, covers (live rs) x /\ ~ covers touched.*2 x /\ y = x + shift_at hunks x)) /\
  (ranges rs = [] -> 0 < rs_nr (target diff) -> xmalloc sizeof_diff_ranges = Ok tt ->
   range_set_map_across_diff junk out rs diff = Fault UB).
Proof. intros. split; intros; [by apply map_across_diff_spec|by apply map_across_diff_empty]. Qed.

Lemma map_across_diff_covers_witness :
  let diff := mkDR (set_of [mkRange 2 3; mkRange 8 8]) (set_of [mkRange 2 5; mkRange 10 12]) in
  wp (@oom plenty) (@range_set_map_across_diff plenty (mkRange 0 0) (set_of []) (set_of [mkRange 4 8]) diff)
    (fun '(out', t) => canonical (live out') /\ live (parent t) = [mkRange 2 3] /\ live (target t) = [mkRange 2 5]) /\
  @range_set_map_across_diff plenty (mkRange 0 0) (set_of []) (set_of []) diff = Fault UB.
Proof.
  intros diff.
  assert (forall l : list range, Forall (fun r => 0 <= start r <= end_ r /\ end_ r < 100) l -> Forall line_fits l) as Hfit.
  { intros l Hl. eapply Forall_impl; [exact Hl|]. unfold line_fits. simpl. lia. }
  assert (rs_wf (target diff) /\ rs_wf (parent diff) /\ rs_wf (set_of [])) as (Hwt & Hwp & Hw0) by (split_and!; concrete_set).
  assert (diff_ok 0 0 (zip (live (parent diff)) (live (target diff)))) as Hok by (simpl; lia).
  assert (Forall line_fits (live (parent diff)) /\ Forall line_fits (live (target diff))) as [Hfp Hft].
  { split; apply Hfit; repeat constructor; simpl; lia. }
  assert (rs_wf (set_of [mkRange 4 8]) /\ canonical (live (set_of [mkRange 4 8]))) as [Hws Hcs] by (split; concrete_set).
  assert (Forall line_fits (live (set_of [mkRange 4 8]))) as Hfs by (apply Hfit; repeat constructor; simpl; lia).
  assert (canonical (live (set_of []))) as Hc0 by concrete_set.
  split.
  - destruct (@map_across_diff_covers plenty (mkRange 0 0) (set_of []) (set_of [mkRange 4 8]) diff
      Hw0 eq_refl Hws Hcs Hwp Hwt eq_refl eq_refl Hok Hfs Hfp Hft) as [Hmap _].
    eapply wp_mono; [exact (Hmap eq_refl)|].
    intros [out' t] (_ & Hc & Hp & Ht & _). split; [exact Hc|]. rewrite Hp, Ht. split; reflexivity.
  - exact (proj2 (@map_across_diff_covers plenty (mkRange 0 0) (set_of []) (set_of []) diff
      Hw0 eq_refl Hw0 Hc0 Hwp Hwt eq_refl eq_refl Hok (Hfit [] (Forall_nil_2 _)) Hfp Hft) eq_refl eq_refl eq_refl).
Defined.

(** Signed overflow: the last line number of the type, moved by one hunk that
    removes a line. *)
Example shift_overflows :
  @range_set_map_across_diff plenty (mkRange 0 0) (set_of []) (set_of [mkRange 5 (2 ^ 63 - 1)])
    (mkDR (set_of [mkRange 2 3]) (set_of [mkRange 2 2])) = Fault UB.
Proof. vm_compute. done. Qed.
