(* ===== verification/EwahRlw.v ===== *)
(** * Run-length words of EWAH bitmaps: [ewah/ewok_rlw.h]

    A compressed bitmap is a sequence of segments: a run-length word (RLW),
    which holds a bit, the length of a run of words that consist of this bit,
    and the number of literal words that follow it, and then these literal
    words.  This file models the accessors of the RLW and the segments. *)

From stdpp Require Import prelude numbers list.
From S2P Require Import Prelude Bswap.

(** Complement of an [eword_t]. *)
Definition not64 (x : Z) : Z := u64 (Z.lnot x).

Definition RLW_RUNNING_BITS : Z := 8 * 4.
Definition RLW_LITERAL_BITS : Z := 8 * 8 - 1 - RLW_RUNNING_BITS.
Definition RLW_LARGEST_RUNNING_COUNT : Z := (1 <<. RLW_RUNNING_BITS) - 1.
Definition RLW_LARGEST_LITERAL_COUNT : Z := (1 <<. RLW_LITERAL_BITS) - 1.
Definition RLW_LARGEST_RUNNING_COUNT_SHIFT : Z := u64 (RLW_LARGEST_RUNNING_COUNT <<. 1).
Definition RLW_RUNNING_LEN_PLUS_BIT : Z := (1 <<. (RLW_RUNNING_BITS + 1)) - 1.

Definition rlw_get_run_bit (word : Z) : Z := word &. 1.

Definition rlw_set_run_bit (word b : Z) : Z :=
  if tr b then word |. 1 else word &. u64 (Z.lnot 1).

Definition rlw_xor_run_bit (word : Z) : Z :=
  if tr (word &. 1) then word &. u64 (Z.lnot 1) else word |. 1.

Definition rlw_set_running_len (word l : Z) : Z :=
  let word := word |. RLW_LARGEST_RUNNING_COUNT_SHIFT in
  word &. (u64 (l <<. 1) |. not64 RLW_LARGEST_RUNNING_COUNT_SHIFT).

Definition rlw_get_running_len (word : Z) : Z := (word >>. 1) &. RLW_LARGEST_RUNNING_COUNT.

Definition rlw_get_literal_words (word : Z) : Z := word >>. (1 + RLW_RUNNING_BITS).

Definition rlw_set_literal_words (word l : Z) : Z :=
  let word := word |. not64 RLW_RUNNING_LEN_PLUS_BIT in
  word &. (u64 (l <<. (RLW_RUNNING_BITS + 1)) |. RLW_RUNNING_LEN_PLUS_BIT).

Definition rlw_size (self : Z) : Z := u64 (rlw_get_running_len self + rlw_get_literal_words self).

(** ** The fields of a run-length word *)

Definition rlw (b : bool) (rl lw : Z) : Z := Z.b2z b |. (rl <<. 1) |. (lw <<. 33).

Lemma masks :
  RLW_RUNNING_BITS = 32 /\ RLW_LARGEST_RUNNING_COUNT = Z.ones 32 /\ RLW_LARGEST_LITERAL_COUNT = Z.ones 31 /\
  RLW_LARGEST_RUNNING_COUNT_SHIFT = Z.ones 32 <<. 1 /\ RLW_RUNNING_LEN_PLUS_BIT = Z.ones 33.
Proof. by vm_compute. Qed.

(** Compares the bits of two words whose fields are in range. *)
Lemma rlw_bits b rl lw i : 0 <= rl < 2 ^ 32 -> 0 <= lw < 2 ^ 31 -> 0 <= i ->
  Z.testbit (rlw b rl lw) i =
  if i =? 0 then b else if i <? 33 then Z.testbit rl (i - 1) else if i <? 64 then Z.testbit lw (i - 33) else false.
Proof.
  intros Hrl Hlw Hi. unfold rlw. rewrite !Z.lor_spec, !Z.shiftl_spec by done.
  assert (forall x n k, 0 <= x < 2 ^ k -> 0 <= k <= n -> Z.testbit x n = false) as Hhi.
  { intros x n k Hx Hk. rewrite <- (Z.mod_small x (2 ^ k)) by done. rewrite Z.mod_pow2_bits_high; [done|lia]. }
  assert (Z.testbit (Z.b2z b) i = if i =? 0 then b else false) as ->.
  { destruct (Z.eqb_spec i 0) as [->|]; [by destruct b|]. apply (Hhi _ _ 1); destruct b; simpl; lia. }
  destruct (Z.eqb_spec i 0) as [->|]; [by rewrite !Z.testbit_neg_r, !orb_false_r by lia|].
  destruct (Z.ltb_spec i 33).
  { rewrite (Z.testbit_neg_r lw) by lia. by rewrite orb_false_r. }
  rewrite (Hhi rl (i - 1) 32) by lia. destruct (Z.ltb_spec i 64); [done|]. by rewrite (Hhi lw (i - 33) 31) by lia.
Qed.

Lemma rlw_eq x b rl lw : 0 <= rl < 2 ^ 32 -> 0 <= lw < 2 ^ 31 ->
  (forall i, 0 <= i -> Z.testbit x i =
    if i =? 0 then b else if i <? 33 then Z.testbit rl (i - 1) else if i <? 64 then Z.testbit lw (i - 33) else false) ->
  x = rlw b rl lw.
Proof. intros Hrl Hlw H. apply Z.bits_inj'. intros i Hi. by rewrite H, rlw_bits. Qed.

(** Splits on the fields that bit [i] can be in. *)
Ltac field_cases i :=
  destruct (Z.eqb_spec i 0); destruct (Z.ltb_spec i 33); destruct (Z.ltb_spec i 64); try lia; simpl.

Section Fields.
Context (b : bool) (rl lw : Z) (Hrl : 0 <= rl < 2 ^ 32) (Hlw : 0 <= lw < 2 ^ 31).

Lemma rlw_sum : rlw b rl lw = Z.b2z b + 2 * rl + 2 ^ 33 * lw.
Proof using All.
  unfold rlw. rewrite (Z.lor_comm (Z.lor _ _) (lw <<. 33)), (Z.lor_comm (Z.b2z b) (rl <<. 1)).
  assert (0 <= Z.b2z b <= 1) by (destruct b; simpl; lia).
  rewrite (lor_shiftl_add rl) by lia. rewrite (lor_shiftl_add lw) by lia. lia.
Qed.

Lemma rlw_range : 0 <= rlw b rl lw < 2 ^ 64.
Proof using All. rewrite rlw_sum. destruct b; simpl Z.b2z; lia. Qed.

Lemma get_run_bit : rlw_get_run_bit (rlw b rl lw) = Z.b2z b.
Proof using All.
  unfold rlw_get_run_bit. rewrite (land_mask _ _ 1), rlw_sum by done. destruct b; simpl Z.b2z; dlia.
Qed.

Lemma get_running_len : rlw_get_running_len (rlw b rl lw) = rl.
Proof using All.
  unfold rlw_get_running_len. destruct masks as (_ & -> & _).
  rewrite Z.land_ones, Z.shiftr_div_pow2, rlw_sum by lia. destruct b; simpl Z.b2z; dlia.
Qed.

Lemma get_literal_words : rlw_get_literal_words (rlw b rl lw) = lw.
Proof using All.
  unfold rlw_get_literal_words. destruct masks as (-> & _).
  rewrite Z.shiftr_div_pow2, rlw_sum by lia. destruct b; simpl Z.b2z; dlia.
Qed.

Lemma rlw_size_ok : rlw_size (rlw b rl lw) = rl + lw.
Proof using All. unfold rlw_size. rewrite get_running_len, get_literal_words, u64_small by lia. done. Qed.

Lemma set_run_bit v : rlw_set_run_bit (rlw b rl lw) (Z.b2z v) = rlw v rl lw.
Proof using All.
  apply rlw_eq; try done. intros i Hi. unfold rlw_set_run_bit, u64.
  assert (Z.testbit 1 i = (i =? 0)) as E1.
  { change (Z.testbit (Z.ones 1) i = (i =? 0)). rewrite Z.testbit_ones by lia. cases_Z; simpl; lia. }
  destruct v; cbn [tr Z.b2z Z.eqb negb]; bits_rw; rewrite rlw_bits, E1 by done; field_cases i; bits_split; btauto.
Qed.

Lemma xor_run_bit : rlw_xor_run_bit (rlw b rl lw) = rlw (negb b) rl lw.
Proof using All.
  rewrite <- (set_run_bit (negb b)). unfold rlw_xor_run_bit, rlw_set_run_bit.
  change (rlw b rl lw &. 1) with (rlw_get_run_bit (rlw b rl lw)). rewrite get_run_bit. by destruct b.
Qed.

Lemma set_running_len l : 0 <= l < 2 ^ 32 -> rlw_set_running_len (rlw b rl lw) l = rlw b l lw.
Proof using All.
  intros Hl. apply rlw_eq; try done. intros i Hi. unfold rlw_set_running_len, not64, u64.
  destruct masks as (_ & _ & _ & -> & _). bits_rw. rewrite rlw_bits by done.
  field_cases i; bits_split; rewrite ?(Z.testbit_neg_r l) by lia; try btauto.
Qed.

Lemma set_literal_words l : 0 <= l < 2 ^ 31 -> rlw_set_literal_words (rlw b rl lw) l = rlw b rl l.
Proof using All.
  intros Hl. apply rlw_eq; try done. intros i Hi. unfold rlw_set_literal_words, not64, u64.
  destruct masks as (E & _ & _ & _ & ->). rewrite E. change (32 + 1) with 33. bits_rw. rewrite rlw_bits by done.
  field_cases i; bits_split; rewrite ?(Z.testbit_neg_r l) by lia; try btauto.
Qed.
End Fields.

Lemma rlw_zero : 0 = rlw false 0 0.
Proof. done. Qed.

(** ** Segments *)

Record seg := mkSeg { s_bit : bool; s_run : Z; s_lits : list Z }.

Definition fill (b : bool) : Z := if b then Z.ones 64 else 0.

(** The words that a segment stands for. *)
Definition seg_words (s : seg) : list Z := replicate (Z.to_nat (s_run s)) (fill (s_bit s)) ++ s_lits s.
(** The words of its encoding. *)
Definition seg_enc (s : seg) : list Z := rlw (s_bit s) (s_run s) (len (s_lits s)) :: s_lits s.

Definition words (ss : list seg) : list Z := mjoin (seg_words <$> ss).
Definition enc (ss : list seg) : list Z := mjoin (seg_enc <$> ss).

Record seg_ok (s : seg) : Prop := {
  so_run : 0 <= s_run s < 2 ^ 32;
  so_lits : len (s_lits s) < 2 ^ 31;
  so_words : Forall is_word (s_lits s);
}.

Lemma words_snoc ss s : words (ss ++ [s]) = words ss ++ seg_words s.
Proof. unfold words. rewrite fmap_app, join_app. simpl. by rewrite app_nil_r. Qed.

Lemma enc_snoc ss s : enc (ss ++ [s]) = enc ss ++ seg_enc s.
Proof. unfold enc. rewrite fmap_app, join_app. simpl. by rewrite app_nil_r. Qed.

Lemma len_seg_enc s : len (seg_enc s) = 1 + len (s_lits s).
Proof. unfold seg_enc. by rewrite len_cons. Qed.

Lemma len_replicate {A} n (x : A) : 0 <= n -> len (replicate (Z.to_nat n) x) = n.
Proof. intros. unfold len. rewrite length_replicate. lia. Qed.

Lemma len_seg_words s : seg_ok s -> len (seg_words s) = s_run s + len (s_lits s).
Proof. intros [Hr _ _]. unfold seg_words. rewrite len_app, len_replicate by lia. done. Qed.

Lemma fill_word b : is_word (fill b).
Proof. destruct b; split; by vm_compute. Qed.

Lemma seg_words_ok s : seg_ok s -> Forall is_word (seg_words s).
Proof.
  intros [_ _ Hw]. apply Forall_app. split; [|done]. apply Forall_replicate, fill_word.
Qed.

Lemma words_ok ss : Forall seg_ok ss -> Forall is_word (words ss).
Proof.
  intros H. induction H as [|s ss Hs Hss IH]; [constructor|]. apply Forall_app. split; [by apply seg_words_ok|done].
Qed.

(** ** The bits of a list of words *)

Definition bit (W : list Z) (p : Z) : bool := Z.testbit (default 0 (W !! Z.to_nat (p `div` 64))) (p `mod` 64).

Lemma bit_app_l W V p : 0 <= p < 64 * len W -> bit (W ++ V) p = bit W p.
Proof. intros Hp. unfold bit. rewrite lookup_app_l; [done|]. unfold len in *. dlia. Qed.

Lemma bit_app_r W V p : 64 * len W <= p -> bit (W ++ V) p = bit V (p - 64 * len W).
Proof.
  intros Hp. unfold bit. pose proof (len_nonneg W). rewrite lookup_app_r by (unfold len in *; dlia).
  replace (p - 64 * len W) with (p + - len W * 64) by lia. rewrite Z.mod_add, Z.div_add by lia.
  do 3 f_equal. unfold len in *. dlia.
Qed.

Lemma bit_over W p : 64 * len W <= p -> bit W p = false.
Proof.
  intros Hp. unfold bit. rewrite lookup_ge_None_2 by (unfold len in *; dlia). apply Z.bits_0.
Qed.

Lemma bit_single x p : 0 <= p < 64 -> bit [x] p = Z.testbit x p.
Proof. intros Hp. unfold bit. by rewrite Z.div_small, Z.mod_small. Qed.

Lemma bit_zeros n p : 0 <= p -> bit (replicate n 0) p = false.
Proof.
  intros Hp. unfold bit. destruct (replicate n 0 !! _) as [x|] eqn:E; simpl; [|apply Z.bits_0].
  apply lookup_replicate in E as [-> _]. apply Z.bits_0.
Qed.

Lemma mask_word k : 0 <= k < 64 -> is_word (1 <<. k).
Proof.
  intros Hk. unfold is_word. rewrite Z.shiftl_mul_pow2, Z.mul_1_l by lia. split; [apply Z.pow_nonneg; lia|].
  apply Z.pow_lt_mono_r; lia.
Qed.

Lemma lor_word x y : is_word x -> is_word y -> is_word (x |. y).
Proof.
  intros [Hx Hx'] [Hy Hy']. split; [by apply Z.lor_nonneg|].
  destruct (decide (x |. y = 0)) as [->|]; [lia|]. apply Z.log2_lt_pow2; [assert (0 <= x |. y) by (by apply Z.lor_nonneg); lia|].
  rewrite Z.log2_lor by done. apply Z.max_lub_lt.
  - destruct (decide (x = 0)) as [->|]; [done|]. apply Z.log2_lt_pow2; lia.
  - destruct (decide (y = 0)) as [->|]; [done|]. apply Z.log2_lt_pow2; lia.
Qed.
