(* ===== verification/Ewah.v ===== *)
(** * Compressed bitmaps: [ewah/ewah_bitmap.c]

    Appending words, runs and bits to a compressed bitmap, and iterating over
    one.  A well-formed bitmap is a list of segments, of which the last is the
    one that [rlw] points to; it stands for the words of its segments. *)

From stdpp Require Import prelude numbers list.
From S2P Require Import Prelude PatchDelta Alloc Bswap EwahRlw.

(** [rlw] is the index of the last run-length word in [buffer]. *)
Record ewah_bitmap := mkEwah {
  ew_buffer : list Z; buffer_size : Z; alloc_size : Z; bit_size : Z; ew_rlw : Z }.

Definition BITS_IN_EWORD : Z := 64.
Definition sizeof_eword : Z := 8.
Definition DIV_ROUND_UP (n d : Z) : Z := u64 (u64 (n + d) - 1) `div` d.

Definition min_size (a b : Z) : Z := if a <? b then a else b.
Definition max_size (a b : Z) : Z := if b <? a then a else b.

Definition set_buffer (e : ewah_bitmap) (b : list Z) : ewah_bitmap :=
  mkEwah b (buffer_size e) (alloc_size e) (bit_size e) (ew_rlw e).
Definition set_bit_size (e : ewah_bitmap) (n : Z) : ewah_bitmap :=
  mkEwah (ew_buffer e) (buffer_size e) (alloc_size e) n (ew_rlw e).

(** [*self->rlw] and its updates. *)
Definition get_rlw (e : ewah_bitmap) : res Z := rd (ew_buffer e) (ew_rlw e).
Definition upd_rlw (f : Z -> Z) (e : ewah_bitmap) : res ewah_bitmap :=
  w ← get_rlw e; b ← wr (ew_buffer e) (ew_rlw e) (f w); Ok (set_buffer e b).

Section Code.
Context `{Memory} (junk : Z).

Definition buffer_grow (e : ewah_bitmap) (new_size : Z) : res ewah_bitmap :=
  '(b, al) ← ALLOC_GROW junk sizeof_eword u64 (ew_buffer e) new_size (alloc_size e);
  Ok (mkEwah b (buffer_size e) al (bit_size e) (ew_rlw e)).

Definition buffer_push (e : ewah_bitmap) (value : Z) : res ewah_bitmap :=
  e ← buffer_grow e (u64 (buffer_size e + 1));
  b ← wr (ew_buffer e) (buffer_size e) value;
  Ok (mkEwah b (u64 (buffer_size e + 1)) (alloc_size e) (bit_size e) (ew_rlw e)).

Definition buffer_push_rlw (e : ewah_bitmap) (value : Z) : res ewah_bitmap :=
  e ← buffer_push e value;
  Ok (mkEwah (ew_buffer e) (buffer_size e) (alloc_size e) (bit_size e) (buffer_size e - 1)).

(** [if (v) rlw_set_run_bit(self->rlw, v);] *)
Definition set_run_bit_if (v : Z) (e : ewah_bitmap) : res ewah_bitmap :=
  if tr v then upd_rlw (fun w => rlw_set_run_bit w v) e else Ok e.

(** The loop that adds full runs. *)
Definition full_runs_step (v : Z) (st : ewah_bitmap * Z * Z) : res (ewah_bitmap * Z * Z + ewah_bitmap * Z * Z) :=
  let '(e, added, number) := st in
  if RLW_LARGEST_RUNNING_COUNT <=? number then
    e ← buffer_push_rlw e 0;
    e ← set_run_bit_if v e;
    e ← upd_rlw (fun w => rlw_set_running_len w RLW_LARGEST_RUNNING_COUNT) e;
    Ok (inl (e, added + 1, number - RLW_LARGEST_RUNNING_COUNT))
  else Ok (inr st).

(** Returns the bitmap and the number of words added to the buffer. *)
Definition add_empty_words (e : ewah_bitmap) (v number : Z) : res (ewah_bitmap * Z) :=
  w ← get_rlw e;
  '(e, added) ←
    (if negb (rlw_get_run_bit w =? v) && (rlw_size w =? 0) then
       e ← upd_rlw (fun w => rlw_set_run_bit w v) e; Ok (e, 0)
     else if negb (rlw_get_literal_words w =? 0) || negb (rlw_get_run_bit w =? v) then
       e ← buffer_push_rlw e 0;
       e ← set_run_bit_if v e;
       Ok (e, 1)
     else Ok (e, 0));
  w ← get_rlw e;
  let runlen := rlw_get_running_len w in
  let can_add := min_size number (RLW_LARGEST_RUNNING_COUNT - runlen) in
  e ← upd_rlw (fun w => rlw_set_running_len w (runlen + can_add)) e;
  let number := number - can_add in
  '(e, added, number) ← loop (S (Z.to_nat (number `div` RLW_LARGEST_RUNNING_COUNT))) (full_runs_step v) (e, added, number);
  if 0 <? number then
    e ← buffer_push_rlw e 0;
    e ← set_run_bit_if v e;
    e ← upd_rlw (fun w => rlw_set_running_len w number) e;
    Ok (e, added + 1)
  else Ok (e, added).

Definition ewah_add_empty_words (e : ewah_bitmap) (v number : Z) : res (ewah_bitmap * Z) :=
  if number =? 0 then Ok (e, 0)
  else
    let e := set_bit_size e (u64 (bit_size e + u64 (number * BITS_IN_EWORD))) in
    add_empty_words e v number.

Definition add_literal (e : ewah_bitmap) (new_data : Z) : res (ewah_bitmap * Z) :=
  w ← get_rlw e;
  let current_num := rlw_get_literal_words w in
  if RLW_LARGEST_LITERAL_COUNT <=? current_num then
    e ← buffer_push_rlw e 0;
    e ← upd_rlw (fun w => rlw_set_literal_words w 1) e;
    e ← buffer_push e new_data;
    Ok (e, 2)
  else
    e ← upd_rlw (fun w => rlw_set_literal_words w (current_num + 1)) e;
    w ← get_rlw e;
    _ ← assert (rlw_get_literal_words w =? current_num + 1);
    e ← buffer_push e new_data;
    Ok (e, 1).

(** The loop that stores complemented words. *)
Definition negate_step (src : list Z) (off can_add : Z) (st : ewah_bitmap * Z) : res (ewah_bitmap * Z + ewah_bitmap) :=
  let '(e, i) := st in
  if i <? can_add then
    x ← rd src (off + i);
    b ← wr (ew_buffer e) (buffer_size e) (not64 x);
    Ok (inl (mkEwah b (u64 (buffer_size e + 1)) (alloc_size e) (bit_size e) (ew_rlw e), i + 1))
  else Ok (inr e).

(** The body of the loop of [ewah_add_dirty_words]; [src] and [off] are the
    pointer [buffer]. *)
Definition dirty_step (src : list Z) (negate : bool) (st : ewah_bitmap * Z * Z) : res (ewah_bitmap * Z * Z + ewah_bitmap) :=
  let '(e, off, number) := st in
  w ← get_rlw e;
  let literals := rlw_get_literal_words w in
  let can_add := min_size number (RLW_LARGEST_LITERAL_COUNT - literals) in
  e ← upd_rlw (fun w => rlw_set_literal_words w (literals + can_add)) e;
  e ← buffer_grow e (u64 (buffer_size e + can_add));
  e ← (if negate then loop (S (Z.to_nat can_add)) (negate_step src off can_add) (e, 0)
       else
         c ← rd_slice src off can_add;
         b ← wr_slice (ew_buffer e) (buffer_size e) c;
         Ok (mkEwah b (u64 (buffer_size e + can_add)) (alloc_size e) (bit_size e) (ew_rlw e)));
  let e := set_bit_size e (u64 (bit_size e + u64 (can_add * BITS_IN_EWORD))) in
  if number - can_add =? 0 then Ok (inr e)
  else
    e ← buffer_push_rlw e 0;
    Ok (inl (e, off + can_add, number - can_add)).

Definition ewah_add_dirty_words (e : ewah_bitmap) (src : list Z) (off number : Z) (negate : bool) : res ewah_bitmap :=
  loop (S (Z.to_nat number)) (dirty_step src negate) (e, off, number).

Definition add_empty_word (e : ewah_bitmap) (v : Z) : res (ewah_bitmap * Z) :=
  w ← get_rlw e;
  let no_literal := rlw_get_literal_words w =? 0 in
  let run_len := rlw_get_running_len w in
  e ← (if no_literal && (run_len =? 0) then
         e ← upd_rlw (fun w => rlw_set_run_bit w v) e;
         w ← get_rlw e;
         _ ← assert (rlw_get_run_bit w =? v);
         Ok e
       else Ok e);
  w ← get_rlw e;
  if no_literal && (rlw_get_run_bit w =? v) && (run_len <? RLW_LARGEST_RUNNING_COUNT) then
    e ← upd_rlw (fun w => rlw_set_running_len w (run_len + 1)) e;
    w ← get_rlw e;
    _ ← assert (rlw_get_running_len w =? run_len + 1);
    Ok (e, 0)
  else
    e ← buffer_push_rlw e 0;
    w ← get_rlw e;
    _ ← assert (rlw_get_running_len w =? 0);
    _ ← assert (rlw_get_run_bit w =? 0);
    _ ← assert (rlw_get_literal_words w =? 0);
    e ← upd_rlw (fun w => rlw_set_run_bit w v) e;
    w ← get_rlw e;
    _ ← assert (rlw_get_run_bit w =? v);
    e ← upd_rlw (fun w => rlw_set_running_len w 1) e;
    w ← get_rlw e;
    _ ← assert (rlw_get_running_len w =? 1);
    _ ← assert (rlw_get_literal_words w =? 0);
    Ok (e, 1).

Definition ewah_add (e : ewah_bitmap) (word : Z) : res (ewah_bitmap * Z) :=
  let e := set_bit_size e (u64 (bit_size e + BITS_IN_EWORD)) in
  if word =? 0 then add_empty_word e 0
  else if word =? not64 0 then add_empty_word e 1
  else add_literal e word.

Definition ewah_set (e : ewah_bitmap) (i : Z) : res ewah_bitmap :=
  let dist := u64 (DIV_ROUND_UP (u64 (i + 1)) BITS_IN_EWORD - DIV_ROUND_UP (bit_size e) BITS_IN_EWORD) in
  let mask := 1 <<. (i `mod` BITS_IN_EWORD) in
  _ ← assert (bit_size e <=? i);
  let e := set_bit_size e (u64 (i + 1)) in
  if 0 <? dist then
    e ← (if 1 <? dist then '(e, _) ← add_empty_words e 0 (dist - 1); Ok e else Ok e);
    '(e, _) ← add_literal e mask;
    Ok e
  else
    w ← get_rlw e;
    if rlw_get_literal_words w =? 0 then
      e ← upd_rlw (fun w => rlw_set_running_len w (u64 (rlw_get_running_len w - 1))) e;
      '(e, _) ← add_literal e mask;
      Ok e
    else
      x ← rd (ew_buffer e) (buffer_size e - 1);
      b ← wr (ew_buffer e) (buffer_size e - 1) (x |. mask);
      let e := set_buffer e b in
      x ← rd (ew_buffer e) (buffer_size e - 1);
      if x =? not64 0 then
        let n := buffer_size e - 1 in
        b ← wr (ew_buffer e) n 0;
        let e := mkEwah b n (alloc_size e) (bit_size e) (ew_rlw e) in
        e ← upd_rlw (fun w => rlw_set_literal_words w (u64 (rlw_get_literal_words w - 1))) e;
        '(e, _) ← add_empty_word e 1;
        Ok e
      else Ok e.

Definition ewah_clear (e : ewah_bitmap) : res ewah_bitmap :=
  b ← wr (ew_buffer e) 0 0;
  Ok (mkEwah b 1 (alloc_size e) 0 0).

(** [sizeof(struct ewah_bitmap)]. *)
Definition sizeof_ewah_bitmap : Z := 40.

Definition ewah_new : res ewah_bitmap :=
  _ ← xmalloc sizeof_ewah_bitmap;
  b ← ALLOC_ARRAY junk sizeof_eword 32;
  ewah_clear (mkEwah b 0 32 0 0).
End Code.

(** ** The representation of a compressed bitmap *)

(** The buffer holds [pre], then the last run-length word [w] and [lits]. *)
Record raw (e : ewah_bitmap) (pre : list Z) (w : Z) (lits : list Z) (bs : Z) : Prop := {
  r_buf : exists tl, ew_buffer e = pre ++ w :: lits ++ tl;
  r_size : buffer_size e = len pre + 1 + len lits;
  r_rlw : ew_rlw e = len pre;
  r_len : len (ew_buffer e) = alloc_size e;
  r_alloc : alloc_size e <= 2 ^ 47 + 24;
  r_bits : bit_size e = bs;
}.

Definition seg_rlw (s : seg) : Z := rlw (s_bit s) (s_run s) (len (s_lits s)).

Definition seg_full (s : seg) : Prop := 0 < s_run s + len (s_lits s).

(** [e] consists of the segments [ss], which are not empty, and the last one [s]. *)
Record ewah_ok (e : ewah_bitmap) (ss : list seg) (s : seg) : Prop := {
  eo_raw : raw e (enc ss) (seg_rlw s) (s_lits s) (bit_size e);
  eo_ss : Forall seg_ok ss;
  eo_s : seg_ok s;
  eo_full : Forall seg_full ss;
}.

(** [e] stands for the words [W]; only a bitmap without words has an empty segment. *)
Definition rep (e : ewah_bitmap) (W : list Z) : Prop :=
  exists ss s, ewah_ok e ss s /\ (ss = [] \/ seg_full s) /\ W = words (ss ++ [s]).

(** The same, in the middle of an operation: the last segment can be empty. *)
Definition rep_open (e : ewah_bitmap) (W : list Z) : Prop :=
  exists ss s, ewah_ok e ss s /\ W = words (ss ++ [s]).

Lemma rep_rep_open e W : rep e W -> rep_open e W.
Proof. intros (ss & s & Ho & _ & ->). by exists ss, s. Qed.

Lemma raw_get e pre w lits bs : raw e pre w lits bs -> get_rlw e = Ok w.
Proof.
  intros [(tl & E) _ Er _ _ _]. unfold get_rlw. rewrite E, Er. apply rd_Some; [apply len_nonneg|].
  unfold len. rewrite Nat2Z.id, lookup_app_r, Nat.sub_diag by lia. done.
Qed.

Lemma raw_upd f e pre w lits bs : raw e pre w lits bs ->
  exists e', upd_rlw f e = Ok e' /\ raw e' pre (f w) lits bs.
Proof.
  intros Hr. pose proof (raw_get _ _ _ _ _ Hr) as Hg. destruct Hr as [(tl & E) Es Er El Ea Eb].
  unfold upd_rlw. rewrite Hg. cbn [mbind res_bind]. pose proof (len_nonneg pre). pose proof (len_nonneg tl).
  pose proof (len_nonneg lits).
  assert (len (ew_buffer e) = len pre + 1 + len lits + len tl) as Hb.
  { rewrite E. rewrite len_app, len_cons, len_app. lia. }
  rewrite wr_ok by lia. cbn [mbind res_bind]. eexists. split; [done|].
  constructor; cbn [ew_buffer buffer_size ew_rlw alloc_size bit_size set_buffer]; rewrite ?len_insert; try done.
  exists tl. rewrite E, Er. unfold len. rewrite Nat2Z.id.
  replace (length pre) with (length pre + 0)%nat by lia. by rewrite insert_app_r.
Qed.

(** Room for [k] more words. *)
Definition room (e : ewah_bitmap) (k : Z) : Prop := buffer_size e + k <= 2 ^ 46.

Section Append.
Context `{Memory} (junk : Z).

Lemma grow_raw e pre w lits bs n : raw e pre w lits bs -> 0 <= n <= 2 ^ 46 ->
  wp oom (buffer_grow junk e n) (fun e' => raw e' pre w lits bs /\ n <= alloc_size e').
Proof.
  intros [(tl & E) Es Er El Ea Eb] Hn. unfold buffer_grow. apply wp_bind. eapply wp_mono.
  { apply ALLOC_GROW_spec; [done|lia|lia|done]. }
  intros [b al] (pad & -> & Hl & Ha1 & Ha2 & Ha3). apply wp_ret. split; [|done].
  constructor; cbn [ew_buffer buffer_size ew_rlw alloc_size bit_size]; try (done || lia).
  exists (tl ++ pad). rewrite E, <- app_assoc. cbn [app]. by rewrite <- app_assoc.
Qed.

(** Writing one more literal where there is room for it. *)
Lemma raw_put e pre w lits bs v : raw e pre w lits bs -> buffer_size e < alloc_size e ->
  wp no_fault (wr (ew_buffer e) (buffer_size e) v) (fun b =>
    raw (mkEwah b (u64 (buffer_size e + 1)) (alloc_size e) (bit_size e) (ew_rlw e)) pre w (lits ++ [v]) bs).
Proof.
  intros [(tl & E) Es Er El Ea Eb] Hs. pose proof (len_nonneg pre). pose proof (len_nonneg lits).
  rewrite wr_ok by lia. simpl. rewrite u64_small by lia.
  constructor; cbn [ew_buffer buffer_size ew_rlw alloc_size bit_size]; rewrite ?len_insert, ?len_app; try (done || lia).
  2:{ change (len [v]) with 1. lia. }
  destruct tl as [|t tl]. { exfalso. rewrite E, app_nil_r, len_app, len_cons in El. lia. }
  exists tl. rewrite E, Es. replace (Z.to_nat _) with (length pre + S (length lits + 0))%nat by llia.
  rewrite insert_app_r. cbn [insert list_insert]. do 2 f_equal.
  change (<[(length lits + 0)%nat := v]> (lits ++ t :: tl) = (lits ++ [v]) ++ tl).
  rewrite insert_app_r, <- app_assoc. done.
Qed.

Lemma raw_push e pre w lits bs v : raw e pre w lits bs -> room e 1 ->
  wp oom (buffer_push junk e v) (fun e' => raw e' pre w (lits ++ [v]) bs).
Proof.
  intros Hr Hroom. unfold room in Hroom. unfold buffer_push. apply wp_bind.
  pose proof (r_size _ _ _ _ _ Hr) as Hsz. pose proof (len_nonneg pre). pose proof (len_nonneg lits).
  rewrite u64_small by lia. eapply wp_mono; [apply (grow_raw _ _ _ _ _ _ Hr); lia|].
  intros e' [Hr' Ha]. pose proof (r_size _ _ _ _ _ Hr') as Hsz'. apply wp_bind. apply total_wp.
  eapply wp_mono; [apply (raw_put _ _ _ _ _ v Hr'); lia|]. intros b Hb. exact Hb.
Qed.

Lemma raw_push_rlw e pre w lits bs v : raw e pre w lits bs -> room e 1 ->
  wp oom (buffer_push_rlw junk e v) (fun e' => raw e' (pre ++ w :: lits) v [] bs).
Proof.
  intros Hr Hroom. unfold buffer_push_rlw. apply wp_bind. eapply wp_mono; [by eapply raw_push|].
  intros e' [(tl & E) Es Er El Ea Eb]. apply wp_ret.
  constructor; cbn [ew_buffer buffer_size ew_rlw alloc_size bit_size]; autorewrite with len in *; try (done || lia).
  exists tl. by rewrite E, <- !app_assoc.
Qed.

Lemma mk_ok e ss b rl lits bs : raw e (enc ss) (rlw b rl (len lits)) lits bs ->
  Forall seg_ok ss -> Forall seg_full ss -> seg_ok (mkSeg b rl lits) ->
  ewah_ok e ss (mkSeg b rl lits).
Proof. intros Hr ? ? ?. constructor; try done. by rewrite (r_bits _ _ _ _ _ Hr). Qed.

Lemma room_raw e pre w lits bs k : raw e pre w lits bs -> room e k <-> len pre + 1 + len lits + k <= 2 ^ 46.
Proof. intros Hr. unfold room. by rewrite (r_size _ _ _ _ _ Hr). Qed.

Lemma enc_snoc_raw ss s : enc (ss ++ [s]) = enc ss ++ seg_rlw s :: s_lits s.
Proof. by rewrite enc_snoc. Qed.

(** Opens a new segment behind a full one. *)
Lemma push_seg e ss s bs : raw e (enc ss) (seg_rlw s) (s_lits s) bs -> room e 1 ->
  wp oom (buffer_push_rlw junk e 0) (fun e' =>
    raw e' (enc (ss ++ [s])) (rlw false 0 0) [] bs /\ buffer_size e' = buffer_size e + 1).
Proof.
  intros Hr Hroom. eapply wp_mono; [by apply (raw_push_rlw _ _ _ _ _ 0 Hr)|]. intros e' Hr'.
  rewrite enc_snoc_raw. split; [exact Hr'|]. rewrite (r_size _ _ _ _ _ Hr), (r_size _ _ _ _ _ Hr').
  autorewrite with len. lia.
Qed.

(** The last segment is a run of [rl] words [fill b], without literals. *)
Definition running (e : ewah_bitmap) (W : list Z) (b : bool) (rl bs : Z) : Prop :=
  exists ss, raw e (enc ss) (rlw b rl 0) [] bs /\ Forall seg_ok ss /\ Forall seg_full ss /\
    0 <= rl < 2 ^ 32 /\ W = words ss ++ replicate (Z.to_nat rl) (fill b).

Lemma running_ok e W b rl bs : running e W b rl bs -> 0 < rl -> rep e W /\ bit_size e = bs.
Proof.
  intros (ss & Hr & Ho & Hf & Hrl & ->) Hpos. split; [|by apply (r_bits _ _ _ _ _ Hr)].
  exists ss, (mkSeg b rl []). split_and!.
  - by apply (mk_ok e ss b rl [] bs).
  - right. unfold seg_full. cbn [s_run s_lits]. change (len (@nil Z)) with 0. lia.
  - rewrite words_snoc; unfold seg_words; simpl; by rewrite app_nil_r.
Qed.

(** Lengthening the run. *)
Lemma running_more e W b rl bs n : running e W b rl bs -> 0 <= n -> rl + n < 2 ^ 32 ->
  exists e', upd_rlw (fun w => rlw_set_running_len w (rl + n)) e = Ok e' /\
    running e' (W ++ replicate (Z.to_nat n) (fill b)) b (rl + n) bs /\ buffer_size e' = buffer_size e.
Proof.
  intros (ss & Hr & Ho & Hf & Hrl & ->) Hn Hm.
  destruct (raw_upd (fun w => rlw_set_running_len w (rl + n)) _ _ _ _ _ Hr) as (e' & E & Hr').
  exists e'. rewrite set_running_len in Hr' by lia. split_and!; [done| |].
  - exists ss. split_and!; try (done || lia). rewrite <- app_assoc, <- replicate_add. do 2 f_equal. lia.
  - by rewrite (r_size _ _ _ _ _ Hr), (r_size _ _ _ _ _ Hr').
Qed.

Lemma set_run_bit_if_ok e pre lits bs (v : bool) : raw e pre (rlw false 0 0) lits bs ->
  exists e', set_run_bit_if (Z.b2z v) e = Ok e' /\ raw e' pre (rlw v 0 0) lits bs.
Proof.
  intros Hr. unfold set_run_bit_if. destruct v; [|by exists e].
  destruct (raw_upd (fun w => rlw_set_run_bit w 1) _ _ _ _ _ Hr) as (e' & E & Hr').
  change (rlw_set_run_bit (rlw false 0 0) 1) with (rlw_set_run_bit (rlw false 0 0) (Z.b2z true)) in Hr'.
  rewrite set_run_bit in Hr' by lia. by exists e'.
Qed.

(** Opening an empty run behind a full segment. *)
Lemma open_run e ss s bs (v : bool) : raw e (enc ss) (seg_rlw s) (s_lits s) bs -> Forall seg_ok ss ->
  Forall seg_full ss -> seg_ok s -> seg_full s -> room e 1 ->
  wp oom (e ← buffer_push_rlw junk e 0; set_run_bit_if (Z.b2z v) e) (fun e' =>
    running e' (words (ss ++ [s])) v 0 bs /\ buffer_size e' = buffer_size e + 1).
Proof.
  intros Hr Ho Hf Hs Hsf Hroom. apply wp_bind. eapply wp_mono; [by apply (push_seg _ _ _ _ Hr)|].
  intros e1 [Hr1 Hs1]. destruct (set_run_bit_if_ok _ _ _ _ v Hr1) as (e2 & -> & Hr2). simpl. split.
  - exists (ss ++ [s]). split_and!; try (done || lia); [by apply Forall_app; split; [|constructor]..|by rewrite app_nil_r].
  - rewrite <- Hs1. by rewrite (r_size _ _ _ _ _ Hr1), (r_size _ _ _ _ _ Hr2).
Qed.

Lemma running_push e W (v : bool) rl bs n : running e W v rl bs -> 0 < rl -> 0 <= n < 2 ^ 32 -> room e 1 ->
  wp oom (e ← buffer_push_rlw junk e 0; e ← set_run_bit_if (Z.b2z v) e; upd_rlw (fun w => rlw_set_running_len w n) e)
    (fun e' => running e' (W ++ replicate (Z.to_nat n) (fill v)) v n bs /\ buffer_size e' = buffer_size e + 1).
Proof.
  intros (ss & Hr & Ho & Hf & Hrl & ->) Hpos Hn Hroom.
  assert (wp oom (e ← buffer_push_rlw junk e 0; set_run_bit_if (Z.b2z v) e) (fun e' =>
    running e' (words (ss ++ [mkSeg v rl []])) v 0 bs /\ buffer_size e' = buffer_size e + 1)) as Hop.
  { apply open_run; try done. unfold seg_full; cbn [s_run s_lits].
    change (len (@nil Z)) with 0. lia. }
  destruct (buffer_push_rlw junk e 0) as [e1|]; [|done]. cbn [mbind res_bind] in *.
  destruct (set_run_bit_if (Z.b2z v) e1) as [e2|]; [|done]. cbn [mbind res_bind] in *. destruct Hop as [Hrun Hsz].
  destruct (running_more _ _ _ _ _ n Hrun) as (e3 & E & Hrun' & Hsz'); [lia..|].
  rewrite Z.add_0_l in E, Hrun'. rewrite E. simpl. split; [|lia].
  rewrite words_snoc in Hrun'. unfold seg_words in Hrun'. cbn [s_run s_bit s_lits] in Hrun'. by rewrite app_nil_r in Hrun'.
Qed.

Lemma full_runs_loop k : forall fuel e W (v : bool) rl bs added number,
  running e W v rl bs -> 0 < rl -> 0 <= number -> number < (2 ^ 32 - 1) * (Z.of_nat k + 1) -> (k < fuel)%nat ->
  room e number ->
  wp oom (loop fuel (full_runs_step junk (Z.b2z v)) (e, added, number)) (fun '(e', added', number') =>
    exists rl', running e' (W ++ replicate (Z.to_nat (number - number')) (fill v)) v rl' bs /\ 0 < rl' /\
      0 <= number' < 2 ^ 32 - 1 /\ number' <= number /\ buffer_size e' - buffer_size e = added' - added /\
      0 <= added' - added <= number - number').
Proof.
  induction k as [|k IH]; intros fuel e W v rl bs added number Hrun Hrl Hn Hk Hf Hroom;
    (destruct fuel as [|fuel]; [lia|]); rewrite loop_S; unfold full_runs_step at 1;
    change RLW_LARGEST_RUNNING_COUNT with (2 ^ 32 - 1); destruct (Z.leb_spec (2 ^ 32 - 1) number) as [Hge|Hlt];
    try lia.
  1,3: exists rl; rewrite Z.sub_diag, app_nil_r; split_and!; (done || lia).
  pose proof (running_push e W v rl bs (2 ^ 32 - 1) Hrun Hrl ltac:(lia)) as Hp.
  specialize (Hp ltac:(unfold room in *; lia)).
  destruct (buffer_push_rlw junk e 0) as [e1|]; [|done]. cbn [mbind res_bind] in *.
  destruct (set_run_bit_if (Z.b2z v) e1) as [e2|]; [|done]. cbn [mbind res_bind] in *.
  destruct (upd_rlw _ e2) as [e3|]; [|done]. cbn [mbind res_bind wp] in *. destruct Hp as [Hrun3 Hs3].
  eapply wp_mono.
  { apply (IH fuel e3 _ v (2 ^ 32 - 1) bs (added + 1) (number - (2 ^ 32 - 1)) Hrun3); [lia..|]. unfold room in *. lia. }
  intros [[e' added'] number'] (rl' & Hr' & Hrl' & Hn' & Hle & Hb & Ha). exists rl'.
  split_and!; try lia. rewrite <- app_assoc, <- replicate_add in Hr'.
  replace (Z.to_nat (number - number')) with (Z.to_nat (2 ^ 32 - 1) + Z.to_nat (number - (2 ^ 32 - 1) - number'))%nat by lia.
  done.
Qed.

(** The first phase of [add_empty_words]: a run of the bit that can be continued. *)
Lemma start_run e W (v : bool) : rep_open e W -> room e 1 ->
  wp oom (w ← get_rlw e;
    (if negb (rlw_get_run_bit w =? Z.b2z v) && (rlw_size w =? 0) then
       e ← upd_rlw (fun w => rlw_set_run_bit w (Z.b2z v)) e; Ok (e, 0)
     else if negb (rlw_get_literal_words w =? 0) || negb (rlw_get_run_bit w =? Z.b2z v) then
       e ← buffer_push_rlw junk e 0;
       e ← set_run_bit_if (Z.b2z v) e;
       Ok (e, 1)
     else Ok (e, 0))) (fun '(e', added) => exists rl, running e' W v rl (bit_size e) /\
       buffer_size e' = buffer_size e + added /\ (added = 0 \/ added = 1 /\ rl = 0)).
Proof.
  intros (ss & s & [Hr Ho Hs Hf] & ->) Hroom. pose proof Hs as [Hrun Hlits _].
  destruct s as [b rl lits]. unfold seg_rlw in Hr. cbn [s_bit s_run s_lits] in *. pose proof (len_nonneg lits).
  rewrite (raw_get _ _ _ _ _ Hr). cbn [mbind res_bind].
  rewrite get_run_bit, rlw_size_ok, get_literal_words by lia.
  assert ((Z.b2z b =? Z.b2z v) = Bool.eqb b v) as -> by (by destruct b, v).
  destruct (Z.eqb_spec (rl + len lits) 0) as [E0|E0].
  - assert (rl = 0) as -> by lia. assert (lits = []) as -> by (destruct lits; [done|rewrite len_cons in *; pose proof (len_nonneg lits); lia]).
    cbn [negb orb].
    destruct (Bool.eqb_spec b v) as [->|Hne]; cbn [negb andb orb].
    + exists 0. rewrite Z.add_0_r. split_and!; [|done|by left]. exists ss. split_and!; try (done || lia). by rewrite words_snoc.
    + destruct (raw_upd (fun w => rlw_set_run_bit w (Z.b2z v)) _ _ _ _ _ Hr) as (e' & -> & Hr').
      rewrite set_run_bit in Hr' by (done || lia). cbn [mbind res_bind wp]. exists 0. split_and!; [|rewrite (r_size _ _ _ _ _ Hr), (r_size _ _ _ _ _ Hr'); lia|by left].
      exists ss. split_and!; try (done || lia). by rewrite words_snoc.
  - rewrite andb_false_r. assert (seg_full (mkSeg b rl lits)) as Hfull by (unfold seg_full; cbn [s_run s_lits]; lia).
    destruct (negb (len lits =? 0) || negb (Bool.eqb b v)) eqn:Ec.
    + pose proof (open_run e ss (mkSeg b rl lits) (bit_size e) v Hr Ho Hf Hs Hfull Hroom) as Hop.
      destruct (buffer_push_rlw junk e 0) as [e1|]; [|done]. cbn [mbind res_bind] in *.
      destruct (set_run_bit_if (Z.b2z v) e1) as [e2|]; [|done]. cbn [mbind res_bind wp] in *.
      destruct Hop as [Hop Hsz]. exists 0. split_and!; [done|done|by right].
    + apply orb_false_iff in Ec as [El Eb]. apply negb_false_iff, Z.eqb_eq in El.
      apply negb_false_iff, Bool.eqb_prop in Eb as ->.
      assert (lits = []) as -> by (destruct lits; [done|rewrite len_cons in *; pose proof (len_nonneg lits); lia]).
      exists rl. rewrite Z.add_0_r. split_and!; [|done|by left]. exists ss. split_and!; try (done || lia).
      rewrite words_snoc. unfold seg_words. cbn [s_run s_bit s_lits]. by rewrite app_nil_r.
Qed.

Lemma add_empty_words_spec e W (v : bool) number : rep_open e W -> 0 < number < 2 ^ 46 -> room e (number + 1) ->
  wp oom (add_empty_words junk e (Z.b2z v) number) (fun '(e', added) =>
    rep e' (W ++ replicate (Z.to_nat number) (fill v)) /\ buffer_size e' = buffer_size e + added /\
    0 <= added <= number /\ bit_size e' = bit_size e).
Proof.
  intros Hrep Hn Hroom. pose proof (start_run e W v Hrep ltac:(unfold room in *; lia)) as Hst.
  unfold add_empty_words. destruct (get_rlw e) as [w|]; [|done]. cbn [mbind res_bind] in Hst |- *.
  apply wp_bind. eapply wp_mono; [exact Hst|]. clear Hst. intros [e1 added] (rl & Hrun & Hsz & Hadd).
  pose proof Hrun as (ss & Hr1 & _ & _ & Hrl & _). rewrite (raw_get _ _ _ _ _ Hr1). cbn [mbind res_bind].
  rewrite get_running_len by lia. change RLW_LARGEST_RUNNING_COUNT with (2 ^ 32 - 1).
  set (can := min_size number (2 ^ 32 - 1 - rl)).
  assert (0 <= can <= number /\ rl + can < 2 ^ 32 /\ (added = 1 -> 0 < can) /\ 0 < rl + can) as (Hcan & Hsum & Hca & Hp).
  { unfold can, min_size. destruct (Z.ltb_spec number (2 ^ 32 - 1 - rl)); split_and!; lia. }
  destruct (running_more _ _ _ _ _ can Hrun) as (e2 & -> & Hrun2 & Hsz2); [lia..|]. cbn [mbind res_bind].
  apply wp_bind. eapply wp_mono.
  { apply (full_runs_loop (Z.to_nat ((number - can) `div` (2 ^ 32 - 1))) _ e2 (W ++ replicate (Z.to_nat can) (fill v)) v (rl + can) (bit_size e)); try done; try lia.
    - pose proof (Z.div_mod (number - can) (2 ^ 32 - 1)). pose proof (Z.mod_pos_bound (number - can) (2 ^ 32 - 1)).
      pose proof (Z.div_pos (number - can) (2 ^ 32 - 1)). lia.
    - unfold room in *. lia. }
  intros [[e3 added3] number3] (rl3 & Hrun3 & Hrl3 & Hn3 & Hle & Hsz3 & Hadd3).
  rewrite <- app_assoc, <- replicate_add in Hrun3.
  destruct (Z.ltb_spec 0 number3).
  - pose proof (running_push e3 _ v rl3 (bit_size e) number3 Hrun3 Hrl3 ltac:(lia)) as Hp3.
    specialize (Hp3 ltac:(unfold room in *; lia)).
    destruct (buffer_push_rlw junk e3 0) as [e4|]; [|done]. cbn [mbind res_bind] in *.
    destruct (set_run_bit_if (Z.b2z v) e4) as [e5|]; [|done]. cbn [mbind res_bind] in *.
    destruct (upd_rlw _ e5) as [e6|]; [|done]. cbn [mbind res_bind wp] in *. destruct Hp3 as [Hrun6 Hs6].
    apply running_ok in Hrun6 as [Hok Hb]; [|lia]. rewrite <- app_assoc, <- replicate_add in Hok.
    split_and!; try lia. by replace (Z.to_nat number) with (Z.to_nat can + Z.to_nat (number - can - number3) + Z.to_nat number3)%nat by lia.
  - apply running_ok in Hrun3 as [Hok Hb]; [|lia]. cbn [wp]. split_and!; try lia.
    by replace (Z.to_nat number) with (Z.to_nat can + Z.to_nat (number - can - number3))%nat by lia.
Qed.

(** Appending a literal to the last segment, its count already raised. *)
Lemma put_literal e ss (b : bool) rl lits bs x : raw e (enc ss) (rlw b rl (len lits + 1)) lits bs ->
  Forall seg_ok ss -> Forall seg_full ss -> 0 <= rl < 2 ^ 32 -> len lits + 1 < 2 ^ 31 -> Forall is_word lits -> is_word x ->
  room e 1 ->
  wp oom (buffer_push junk e x) (fun e' =>
    rep e' (words (ss ++ [mkSeg b rl lits]) ++ [x]) /\ (exists ss' s', ewah_ok e' ss' s' /\ s_lits s' <> [] /\
      words (ss' ++ [s']) = words (ss ++ [mkSeg b rl lits]) ++ [x]) /\
    buffer_size e' = buffer_size e + 1 /\ bit_size e' = bs).
Proof.
  intros Hr Ho Hf Hrl Hl Hw Hx Hroom. eapply wp_mono; [by apply (raw_push _ _ _ _ _ x Hr)|]. intros e' Hr'.
  pose proof (len_nonneg lits).
  assert (len (lits ++ [x]) = len lits + 1) as E by (by rewrite len_app).
  assert (ewah_ok e' ss (mkSeg b rl (lits ++ [x]))) as Hok.
  { apply (mk_ok _ _ _ _ _ bs); try done; [by rewrite E|]. constructor; cbn [s_run s_lits]; [done|lia|].
    by apply Forall_app; split; [|constructor]. }
  assert (words (ss ++ [mkSeg b rl (lits ++ [x])]) = words (ss ++ [mkSeg b rl lits]) ++ [x]) as Ew.
  { rewrite !words_snoc. unfold seg_words. cbn [s_run s_bit s_lits]. by rewrite !app_assoc. }
  split_and!.
  - exists ss, (mkSeg b rl (lits ++ [x])). split_and!; try done. right. unfold seg_full. cbn [s_run s_lits]. lia.
  - exists ss, (mkSeg b rl (lits ++ [x])). split_and!; try done. by destruct lits.
  - rewrite (r_size _ _ _ _ _ Hr), (r_size _ _ _ _ _ Hr'). lia.
  - by apply (r_bits _ _ _ _ _ Hr').
Qed.

(** The last word is a literal. *)
Definition ends_literal (e : ewah_bitmap) (W : list Z) : Prop :=
  exists ss s, ewah_ok e ss s /\ s_lits s <> [] /\ words (ss ++ [s]) = W.

Lemma add_literal_spec e W x : rep_open e W -> is_word x -> room e 2 ->
  wp oom (add_literal junk e x) (fun '(e', added) =>
    rep e' (W ++ [x]) /\ ends_literal e' (W ++ [x]) /\ buffer_size e' = buffer_size e + added /\
    1 <= added <= 2 /\ bit_size e' = bit_size e).
Proof.
  intros (ss & s & [Hr Ho Hs Hf] & ->) Hx Hroom. pose proof Hs as [Hrun Hlits Hws].
  destruct s as [b rl lits]. unfold seg_rlw in Hr. cbn [s_bit s_run s_lits] in *. pose proof (len_nonneg lits).
  unfold add_literal. rewrite (raw_get _ _ _ _ _ Hr). cbn [mbind res_bind]. rewrite get_literal_words by lia.
  change RLW_LARGEST_LITERAL_COUNT with (2 ^ 31 - 1).
  destruct (Z.leb_spec (2 ^ 31 - 1) (len lits)) as [Hge|Hlt].
  - apply wp_bind. eapply wp_mono.
    { apply (push_seg e ss (mkSeg b rl lits) (bit_size e)); [done|unfold room in *; lia]. }
    intros e1 [Hr1 Hs1]. destruct (raw_upd (fun w => rlw_set_literal_words w 1) _ _ _ _ _ Hr1) as (e2 & -> & Hr2).
    rewrite set_literal_words in Hr2 by lia. cbn [mbind res_bind]. apply wp_bind.
    assert (buffer_size e2 = buffer_size e1) as Hs2 by (by rewrite (r_size _ _ _ _ _ Hr1), (r_size _ _ _ _ _ Hr2)).
    eapply wp_mono; [apply (put_literal e2 (ss ++ [mkSeg b rl lits]) false 0 [] (bit_size e) x)|]; try (done || lia).
    + by apply Forall_app; split; [|constructor].
    + apply Forall_app; split; [done|]. constructor; [|done]. unfold seg_full. cbn [s_run s_lits]. lia.
    + unfold room in *. lia.
    + intros e3. rewrite (words_snoc (ss ++ [_])). unfold seg_words at 1 2. cbn [s_run s_lits s_bit].
      change (replicate (Z.to_nat 0) (fill false) ++ []) with (@nil Z). rewrite app_nil_r.
      intros (R1 & R2 & R3 & R4). cbn [wp]. split_and!; (done || lia).
  - destruct (raw_upd (fun w => rlw_set_literal_words w (len lits + 1)) _ _ _ _ _ Hr) as (e2 & -> & Hr2).
    rewrite set_literal_words in Hr2 by lia. cbn [mbind res_bind].
    rewrite (raw_get _ _ _ _ _ Hr2). cbn [mbind res_bind]. rewrite get_literal_words by lia.
    rewrite Z.eqb_refl. cbn [assert mbind res_bind]. apply wp_bind.
    assert (buffer_size e2 = buffer_size e) as Hs2 by (by rewrite (r_size _ _ _ _ _ Hr), (r_size _ _ _ _ _ Hr2)).
    eapply wp_mono; [apply (put_literal e2 ss b rl lits (bit_size e) x)|]; try (done || lia).
    + unfold room in *. lia.
    + intros e3 (R1 & R2 & R3 & R4). cbn [wp]. split_and!; (done || lia).
Qed.

Lemma len_0_nil {A} (l : list A) : len l = 0 -> l = [].
Proof. destruct l; [done|]. rewrite len_cons. pose proof (len_nonneg l). lia. Qed.

Lemma add_empty_word_spec e W (v : bool) : rep_open e W -> room e 1 ->
  wp oom (add_empty_word junk e (Z.b2z v)) (fun '(e', added) =>
    rep e' (W ++ [fill v]) /\ buffer_size e' = buffer_size e + added /\ 0 <= added <= 1 /\ bit_size e' = bit_size e).
Proof.
  intros (ss & s & [Hr Ho Hs Hf] & ->) Hroom. pose proof Hs as [Hrun Hlits Hws].
  destruct s as [b rl lits]. unfold seg_rlw in Hr. cbn [s_bit s_run s_lits] in *. pose proof (len_nonneg lits).
  unfold add_empty_word. rewrite (raw_get _ _ _ _ _ Hr). cbn [mbind res_bind].
  rewrite get_literal_words, get_running_len by lia. change RLW_LARGEST_RUNNING_COUNT with (2 ^ 32 - 1).
  set (empty := (len lits =? 0) && (rl =? 0)). set (b1 := if empty then v else b).
  assert (exists e1, (if empty then e ← upd_rlw (fun w => rlw_set_run_bit w (Z.b2z v)) e; w ← get_rlw e;
       _ ← assert (rlw_get_run_bit w =? Z.b2z v); Ok e else Ok e) = Ok e1 /\
     raw e1 (enc ss) (rlw b1 rl (len lits)) lits (bit_size e)) as (e1 & -> & Hr1).
  { unfold b1. destruct empty; [|by exists e].
    destruct (raw_upd (fun w => rlw_set_run_bit w (Z.b2z v)) _ _ _ _ _ Hr) as (e1 & -> & Hr1).
    rewrite set_run_bit in Hr1 by lia. cbn [mbind res_bind]. rewrite (raw_get _ _ _ _ _ Hr1). cbn [mbind res_bind].
    rewrite get_run_bit, Z.eqb_refl by lia. by exists e1. }
  cbn [mbind res_bind]. rewrite (raw_get _ _ _ _ _ Hr1). cbn [mbind res_bind]. rewrite get_run_bit by lia.
  assert ((Z.b2z b1 =? Z.b2z v) = Bool.eqb b1 v) as -> by (by destruct b1, v).
  assert (buffer_size e1 = buffer_size e) as Hs1 by (by rewrite (r_size _ _ _ _ _ Hr), (r_size _ _ _ _ _ Hr1)).
  assert (words (ss ++ [mkSeg b rl lits]) = words (ss ++ [mkSeg b1 rl lits])) as Ew.
  { unfold b1. destruct empty eqn:Ee; [|done]. apply andb_true_iff in Ee as [_ Ee]. apply Z.eqb_eq in Ee as ->.
    by rewrite !words_snoc. }
  rewrite Ew.
  destruct ((len lits =? 0) && Bool.eqb b1 v && (rl <? 2 ^ 32 - 1)) eqn:Ec.
  - apply andb_true_iff in Ec as [[El Eb]%andb_true_iff Er]. apply Z.eqb_eq, len_0_nil in El as ->.
    apply Bool.eqb_prop in Eb. rewrite Eb in *. apply Z.ltb_lt in Er.
    assert (running e1 (words (ss ++ [mkSeg v rl []])) v rl (bit_size e)) as Hru.
    { exists ss. split_and!; try (done || lia). rewrite words_snoc. unfold seg_words. cbn [s_run s_bit s_lits]. by rewrite app_nil_r. }
    destruct (running_more _ _ _ _ _ 1 Hru) as (e2 & -> & Hru2 & Hs2); [lia..|]. cbn [mbind res_bind].
    pose proof Hru2 as (ss2 & Hr2 & _ & _ & Hrl2 & _). rewrite (raw_get _ _ _ _ _ Hr2). cbn [mbind res_bind].
    rewrite get_running_len, Z.eqb_refl by lia. cbn [assert mbind res_bind wp].
    apply running_ok in Hru2 as [Hrep Hb]; [|lia]. split_and!; (done || lia).
  - assert (seg_full (mkSeg b1 rl lits)) as Hfull.
    { unfold seg_full. cbn [s_run s_lits]. destruct (Z.eqb_spec (len lits) 0) as [E|]; [|lia].
      destruct (Z.eqb_spec rl 0) as [->|]; [|lia]. exfalso. unfold b1, empty in Ec. simpl in Ec.
      by rewrite Bool.eqb_reflx in Ec. }
    apply wp_bind. eapply wp_mono; [apply (push_seg e1 ss (mkSeg b1 rl lits) (bit_size e)); [done|unfold room in *; lia]|].
    intros e2 [Hr2 Hs2]. rewrite (raw_get _ _ _ _ _ Hr2). cbn [mbind res_bind].
    change (rlw_get_running_len (rlw false 0 0) =? 0) with true. change (rlw_get_run_bit (rlw false 0 0) =? 0) with true.
    change (rlw_get_literal_words (rlw false 0 0) =? 0) with true. cbn [assert mbind res_bind].
    destruct (raw_upd (fun w => rlw_set_run_bit w (Z.b2z v)) _ _ _ _ _ Hr2) as (e3 & -> & Hr3).
    rewrite set_run_bit in Hr3 by lia. cbn [mbind res_bind]. rewrite (raw_get _ _ _ _ _ Hr3). cbn [mbind res_bind].
    rewrite get_run_bit, Z.eqb_refl by lia. cbn [assert mbind res_bind].
    assert (running e3 (words (ss ++ [mkSeg b1 rl lits])) v 0 (bit_size e)) as Hru.
    { exists (ss ++ [mkSeg b1 rl lits]). split_and!; try (done || lia); [by apply Forall_app; split; [|constructor; [by destruct Hs; constructor|]]|by apply Forall_app; split; [|constructor]|by rewrite app_nil_r]. }
    destruct (running_more _ _ _ _ _ 1 Hru) as (e4 & E4 & Hru4 & Hs4); [lia..|].
    rewrite Z.add_0_l in E4, Hru4. rewrite E4. cbn [mbind res_bind].
    pose proof Hru4 as (ss4 & Hr4 & _ & _ & Hrl4 & _). rewrite (raw_get _ _ _ _ _ Hr4). cbn [mbind res_bind].
    rewrite get_running_len, get_literal_words by lia. cbn [Z.eqb assert mbind res_bind wp].
    apply running_ok in Hru4 as [Hrep Hb]; [|lia].
    assert (buffer_size e3 = buffer_size e2) by (by rewrite (r_size _ _ _ _ _ Hr2), (r_size _ _ _ _ _ Hr3)).
    split_and!; (done || lia).
Qed.

Lemma rep_set_bit_size e W n : rep e W -> rep (set_bit_size e n) W.
Proof.
  intros (ss & s & [[] ? ? ?] & ? & ?). exists ss, s. split_and!; try done.
Qed.

Lemma ewah_add_spec e W x : rep e W -> is_word x -> room e 2 -> 0 <= bit_size e < 2 ^ 63 ->
  wp oom (ewah_add junk e x) (fun '(e', added) =>
    rep e' (W ++ [x]) /\ buffer_size e' = buffer_size e + added /\ 0 <= added <= 2 /\
    bit_size e' = bit_size e + 64).
Proof.
  intros Hrep Hx Hroom Hbs. unfold ewah_add. rewrite u64_small by (unfold BITS_IN_EWORD; lia). set (e0 := set_bit_size e _).
  assert (rep_open e0 W) as Hrep0 by (apply rep_rep_open; by apply rep_set_bit_size).
  destruct (Z.eqb_spec x 0) as [->|Hn0].
  { eapply wp_mono; [apply (add_empty_word_spec e0 W false Hrep0); unfold room in *; simpl; lia|].
    intros [e' added] (R1 & R2 & R3 & R4). split_and!; (done || lia). }
  destruct (Z.eqb_spec x (not64 0)) as [->|Hn1].
  { eapply wp_mono; [apply (add_empty_word_spec e0 W true Hrep0); unfold room in *; simpl; lia|].
    intros [e' added] (R1 & R2 & R3 & R4). split_and!; (done || lia). }
  eapply wp_mono; [by apply (add_literal_spec e0 W x Hrep0)|].
  intros [e' added] (R1 & _ & R2 & R3 & R4). split_and!; (done || lia).
Qed.

Lemma ewah_add_empty_words_spec e W (v : bool) number : rep e W -> 0 <= number < 2 ^ 46 -> room e (number + 1) ->
  0 <= bit_size e < 2 ^ 63 ->
  wp oom (ewah_add_empty_words junk e (Z.b2z v) number) (fun '(e', added) =>
    rep e' (W ++ replicate (Z.to_nat number) (fill v)) /\ buffer_size e' = buffer_size e + added /\
    0 <= added <= number /\ bit_size e' = bit_size e + number * 64).
Proof.
  intros Hrep Hn Hroom Hbs. unfold ewah_add_empty_words. destruct (Z.eqb_spec number 0) as [->|].
  { cbn [wp]. change (replicate (Z.to_nat 0) (fill v)) with (@nil Z). rewrite app_nil_r. split_and!; (done || lia). }
  eapply wp_mono.
  { apply (add_empty_words_spec _ W v number); [by apply rep_rep_open, rep_set_bit_size|lia|done]. }
  intros [e' added] (R1 & R2 & R3 & R4). split_and!; try (done || lia). rewrite R4. cbn [bit_size set_bit_size].
  unfold BITS_IN_EWORD. by rewrite !u64_small by (rewrite ?u64_small; lia).
Qed.

Lemma ewah_clear_spec e : len (ew_buffer e) = alloc_size e -> 1 <= alloc_size e <= 2 ^ 47 + 24 ->
  total (ewah_clear e) (fun e' => rep e' [] /\ bit_size e' = 0 /\ buffer_size e' = 1 /\ alloc_size e' = alloc_size e).
Proof.
  intros Hl Ha. unfold ewah_clear. rewrite wr_ok by lia. cbn [mbind res_bind wp]. split_and!; try done.
  exists [], (mkSeg false 0 []). split_and!; [|by left|done]. constructor; try done.
  constructor; cbn [ew_buffer buffer_size alloc_size ew_rlw bit_size]; rewrite ?len_insert; try (done || lia).
  destruct (ew_buffer e) as [|x tl]; [change (len []) with 0 in Hl; lia|]. by exists tl.
Qed.

Lemma ewah_new_spec : wp oom (ewah_new junk) (fun e => rep e [] /\ bit_size e = 0 /\ buffer_size e = 1).
Proof.
  unfold ewah_new. apply wp_bind. eapply wp_mono; [by apply xmalloc_oom|]. intros [] _.
  unfold ALLOC_ARRAY. rewrite st_mult_ok by done. cbn [mbind res_bind]. apply wp_bind, wp_bind.
  eapply wp_mono; [by apply xmalloc_oom|]. intros [] _. cbn [wp]. apply total_wp.
  eapply wp_mono; [by apply ewah_clear_spec|]. intros e (R1 & R2 & R3 & _). done.
Qed.

(** ** Appending literal words *)

(** Storing several literals where there is room for them. *)
Lemma raw_puts e pre w lits bs c : raw e pre w lits bs -> buffer_size e + len c <= alloc_size e ->
  total (wr_slice (ew_buffer e) (buffer_size e) c) (fun b =>
    raw (mkEwah b (u64 (buffer_size e + len c)) (alloc_size e) (bit_size e) (ew_rlw e)) pre w (lits ++ c) bs).
Proof.
  intros [(tl & E) Es Er El Ea Eb] Hs. pose proof (len_nonneg pre). pose proof (len_nonneg lits). pose proof (len_nonneg c).
  assert (len (ew_buffer e) = len pre + 1 + len lits + len tl) as Hb.
  { rewrite E. rewrite len_app, len_cons, len_app. lia. }
  rewrite wr_slice_ok by lia. simpl. rewrite u64_small by lia.
  assert (ew_buffer e = (pre ++ w :: lits) ++ tl) as E' by (by rewrite E, <- app_assoc).
  rewrite E', take_app_length', drop_app_ge by (rewrite length_app; simpl; llia).
  constructor; cbn [ew_buffer buffer_size ew_rlw alloc_size bit_size]; try (done || lia).
  - eexists. by rewrite <- !app_assoc.
  - rewrite len_app. lia.
  - unfold len in *. rewrite !length_app, length_drop, ?length_app. simpl. lia.
Qed.

Definition neg (negate : bool) (x : Z) : Z := if negate then not64 x else x.

Lemma neg_word negate x : is_word x -> is_word (neg negate x).
Proof. intros Hx. destruct negate; [apply u64_range|done]. Qed.

Lemma negate_loop src off can k : forall fuel e pre w lits bs i,
  raw e pre w lits bs -> 0 <= off -> 0 <= i -> i + Z.of_nat k = can -> off + can <= len src -> (k < fuel)%nat ->
  buffer_size e + Z.of_nat k <= alloc_size e ->
  total (loop fuel (negate_step src off can) (e, i)) (fun e' =>
    raw e' pre w (lits ++ (not64 <$> slice src (off + i) (can - i))) bs).
Proof.
  induction k as [|k IH]; intros fuel e pre w lits bs i Hr Hoff Hi Hk Hsrc Hf Hs;
    (destruct fuel as [|fuel]; [lia|]); rewrite loop_S; unfold negate_step at 1.
  { destruct (Z.ltb_spec i can); [lia|]. cbn [wp]. unfold slice. replace (Z.to_nat (can - i)) with 0%nat by lia.
    cbn [take fmap list_fmap]. by rewrite app_nil_r. }
  destruct (Z.ltb_spec i can); [|lia].
  destruct (lookup_lt_is_Some_2 src (Z.to_nat (off + i))) as [x Hx]; [llia|].
  rewrite (rd_Some src (off + i) x) by (done || lia). cbn [mbind res_bind].
  pose proof (raw_put e pre w lits bs (not64 x) Hr ltac:(lia)) as Hp.
  destruct (wr (ew_buffer e) (buffer_size e) (not64 x)) as [b|]; [|done]. cbn [mbind res_bind wp] in *.
  eapply wp_mono; [apply (IH fuel _ pre w (lits ++ [not64 x]) bs (i + 1) Hp); try lia|].
  - pose proof (r_size _ _ _ _ _ Hr). pose proof (len_nonneg pre). pose proof (len_nonneg lits).
    pose proof (r_alloc _ _ _ _ _ Hr). cbn [buffer_size alloc_size]. rewrite u64_small; lia.
  - intros e'. rewrite (slice_cons src (off + i) (can - i) x) by (done || lia). cbn [fmap list_fmap].
    rewrite <- app_assoc. cbn [app]. replace (off + i + 1) with (off + (i + 1)) by lia.
    by replace (can - i - 1) with (can - (i + 1)) by lia.
Qed.

(** One round: [can] words are appended to the last segment. *)
Lemma dirty_fill e ss (b : bool) rl lits bs src off can (negate : bool) :
  raw e (enc ss) (rlw b rl (len lits)) lits bs -> 0 <= rl < 2 ^ 32 -> 0 <= can -> len lits + can < 2 ^ 31 ->
  0 <= off -> off + can <= len src -> room e can ->
  wp oom (e ← upd_rlw (fun w => rlw_set_literal_words w (len lits + can)) e;
    e ← buffer_grow junk e (u64 (buffer_size e + can));
    (if negate then loop (S (Z.to_nat can)) (negate_step src off can) (e, 0)
     else
       c ← rd_slice src off can;
       b ← wr_slice (ew_buffer e) (buffer_size e) c;
       Ok (mkEwah b (u64 (buffer_size e + can)) (alloc_size e) (bit_size e) (ew_rlw e)))) (fun e' =>
    raw e' (enc ss) (rlw b rl (len lits + can)) (lits ++ (neg negate <$> slice src off can)) bs).
Proof.
  intros Hr Hrl Hcan Hl Hoff Hsrc Hroom. pose proof (len_nonneg lits). pose proof (len_nonneg (enc ss)).
  destruct (raw_upd (fun w => rlw_set_literal_words w (len lits + can)) _ _ _ _ _ Hr) as (e1 & -> & Hr1).
  rewrite set_literal_words in Hr1 by lia. cbn [mbind res_bind].
  assert (buffer_size e1 = buffer_size e) as Hs1 by (by rewrite (r_size _ _ _ _ _ Hr), (r_size _ _ _ _ _ Hr1)).
  pose proof (r_size _ _ _ _ _ Hr1). unfold room in Hroom. rewrite u64_small by lia.
  apply wp_bind. eapply wp_mono; [apply (grow_raw _ _ _ _ _ _ Hr1); lia|]. intros e2 [Hr2 Ha2].
  pose proof (r_size _ _ _ _ _ Hr2). assert (len (slice src off can) = can) as Hc by (apply len_slice; lia).
  apply total_wp. destruct negate.
  - eapply wp_mono; [apply (negate_loop src off can (Z.to_nat can) _ e2 _ _ _ _ 0 Hr2); lia|].
    intros e3. by rewrite Z.add_0_r, Z.sub_0_r.
  - rewrite rd_slice_ok by lia. cbn [mbind res_bind]. apply wp_bind.
    eapply wp_mono; [apply (raw_puts _ _ _ _ _ (slice src off can) Hr2); lia|].
    intros buf Hb. rewrite Hc in Hb. cbn [wp]. unfold neg. by rewrite list_fmap_id.
Qed.

Lemma words_lits ss b rl lits c :
  words (ss ++ [mkSeg b rl (lits ++ c)]) = words (ss ++ [mkSeg b rl lits]) ++ c.
Proof. rewrite !words_snoc. unfold seg_words. cbn [s_run s_bit s_lits]. by rewrite !app_assoc. Qed.

Lemma dirty_step_spec src negate e W off number : rep e W \/ rep_open e W /\ 0 < number ->
  Forall is_word (slice src off number) -> 0 <= off -> 0 <= number ->
  off + number <= len src -> room e (number + 1) -> 0 <= bit_size e -> bit_size e + 64 * number < 2 ^ 64 ->
  wp oom (dirty_step junk src negate (e, off, number)) (fun r => match r with
    | inr e' => rep e' (W ++ (neg negate <$> slice src off number)) /\
        buffer_size e' = buffer_size e + number /\ bit_size e' = bit_size e + 64 * number
    | inl (e', off', number') => exists can, off' = off + can /\ number' = number - can /\ 0 < number' /\ 0 <= can /\
        rep_open e' (W ++ (neg negate <$> slice src off can)) /\ buffer_size e' = buffer_size e + can + 1 /\
        bit_size e' = bit_size e + 64 * can /\ get_rlw e' = Ok 0 /\ (get_rlw e = Ok 0 -> 0 < can) end).
Proof.
  intros Hrep Hw Hoff Hn Hsrc Hroom Hb0 Hb1.
  assert (exists ss s, ewah_ok e ss s /\ W = words (ss ++ [s]) /\ (ss = [] \/ seg_full s \/ 0 < number))
    as (ss & s & [Hr Ho Hs Hf] & -> & Hl).
  { destruct Hrep as [(ss & s & Hok & Hl & ->)|[(ss & s & Hok & ->) ?]]; exists ss, s; split_and!; try done; [|by auto].
    destruct Hl; auto. }
  pose proof Hs as [Hrun Hlits Hws].
  destruct s as [b rl lits]. unfold seg_rlw in Hr. cbn [s_bit s_run s_lits] in *. pose proof (len_nonneg lits).
  unfold dirty_step. rewrite (raw_get _ _ _ _ _ Hr). cbn [mbind res_bind]. rewrite get_literal_words by lia.
  change RLW_LARGEST_LITERAL_COUNT with (2 ^ 31 - 1). set (can := min_size number (2 ^ 31 - 1 - len lits)).
  assert (0 <= can <= number /\ len lits + can < 2 ^ 31 /\ (can < number -> len lits + can = 2 ^ 31 - 1)) as (Hcan & Hsum & Hfu).
  { unfold can, min_size. destruct (Z.ltb_spec number (2 ^ 31 - 1 - len lits)); split_and!; lia. }
  pose proof (dirty_fill e ss b rl lits (bit_size e) src off can negate Hr Hrun ltac:(lia) ltac:(lia) Hoff ltac:(lia)
    ltac:(unfold room in *; lia)) as Hfill.
  destruct (upd_rlw _ e) as [e1|]; [|done]. cbn [mbind res_bind] in *.
  destruct (buffer_grow junk e1 _) as [e2|]; [|done]. cbn [mbind res_bind] in *.
  apply wp_bind. eapply wp_mono; [exact Hfill|]. clear Hfill. intros e3 Hr3.
  set (c := neg negate <$> slice src off can) in *.
  assert (len c = can) as Hc.
  { unfold c, len. rewrite length_fmap. change (len (slice src off can) = can). apply len_slice; lia. }
  assert (Forall is_word c) as Hcw.
  { unfold c. replace number with (can + (number - can)) in Hw by lia. rewrite slice_add in Hw by lia.
    apply Forall_app in Hw as [Hw _]. apply Forall_fmap. eapply Forall_impl; [exact Hw|]. intros x. apply neg_word. }
  rewrite (r_bits _ _ _ _ _ Hr3). unfold BITS_IN_EWORD. rewrite (u64_small (can * 64)), u64_small by lia.
  set (e4 := set_bit_size e3 _).
  assert (raw e4 (enc ss) (rlw b rl (len (lits ++ c))) (lits ++ c) (bit_size e + can * 64)) as Hr4.
  { rewrite len_app, Hc. destruct Hr3. by constructor. }
  assert (seg_ok (mkSeg b rl (lits ++ c))) as Hs4.
  { constructor; cbn [s_run s_lits]; [done|rewrite len_app; lia|by apply Forall_app]. }
  assert (buffer_size e4 = buffer_size e + can) as Hb4.
  { rewrite (r_size _ _ _ _ _ Hr4), (r_size _ _ _ _ _ Hr), len_app. lia. }
  assert (ss = [] \/ seg_full (mkSeg b rl (lits ++ c))) as Hf4.
  { unfold seg_full in *. cbn [s_run s_lits] in *. rewrite len_app.
    destruct Hl as [Hl|Hl]; [by left|right]. destruct (decide (can = number)); lia. }
  destruct (Z.eqb_spec (number - can) 0) as [E|E].
  - assert (can = number) as -> by lia. cbn [wp]. split_and!; [|lia|rewrite (r_bits _ _ _ _ _ Hr4); lia].
    exists ss, (mkSeg b rl (lits ++ c)). split_and!; [by apply (mk_ok _ _ _ _ _ (bit_size e + number * 64))|done|by rewrite words_lits].
  - apply wp_bind. eapply wp_mono; [apply (push_seg e4 ss (mkSeg b rl (lits ++ c)) _ Hr4); unfold room in *; lia|].
    intros e5 [Hr5 Hs5]. cbn [wp]. exists can.
    assert (seg_full (mkSeg b rl (lits ++ c))) by (unfold seg_full; cbn [s_run s_lits]; rewrite len_app; lia).
    split_and!; try lia.
    + exists (ss ++ [mkSeg b rl (lits ++ c)]), (mkSeg false 0 []). split.
      * apply (mk_ok _ _ _ _ _ (bit_size e + can * 64)); try done; by apply Forall_app; split; [|constructor].
      * rewrite (words_snoc (ss ++ [_])), words_lits. unfold seg_words. cbn [s_run s_lits s_bit].
        change (replicate (Z.to_nat 0) (fill false) ++ []) with (@nil Z). by rewrite app_nil_r.
    + rewrite (r_bits _ _ _ _ _ Hr5). lia.
    + by apply (raw_get _ _ _ _ _ Hr5).
    + intros E0. injection E0 as E0. rewrite rlw_zero in E0.
      apply (f_equal rlw_get_literal_words) in E0. rewrite !get_literal_words in E0 by lia. lia.
Qed.

Lemma dirty_loop src negate k : forall fuel e W off number, rep_open e W -> get_rlw e = Ok 0 -> Forall is_word (slice src off number) ->
  0 <= off -> 0 < number <= Z.of_nat k -> (k <= fuel)%nat -> off + number <= len src -> room e (2 * number) ->
  0 <= bit_size e -> bit_size e + 64 * number < 2 ^ 64 ->
  wp oom (loop fuel (dirty_step junk src negate) (e, off, number)) (fun e' =>
    rep e' (W ++ (neg negate <$> slice src off number)) /\
    buffer_size e <= buffer_size e' <= buffer_size e + 2 * number - 1 /\ bit_size e' = bit_size e + 64 * number).
Proof.
  induction k as [|k IH]; intros fuel e W off number Hrep Hz Hw Hoff Hn Hf Hsrc Hroom Hb0 Hb1; [lia|].
  destruct fuel as [|fuel]; [lia|]. rewrite loop_S.
  pose proof (dirty_step_spec src negate e W off number
    ltac:(right; split; [done|lia]) Hw Hoff ltac:(lia) Hsrc ltac:(unfold room in *; lia) Hb0 Hb1) as Hst.
  destruct (dirty_step junk src negate (e, off, number)) as [[[[e1 off1] number1]|e1]|]; [|cbn [wp] in *|done].
  2:{ destruct Hst as (R1 & R2 & R3). split_and!; (done || lia). }
  cbn [wp] in Hst. destruct Hst as (can & -> & -> & Hn1 & Hc & R1 & R2 & R3 & R4 & R5). specialize (R5 Hz).
  assert (Forall is_word (slice src (off + can) (number - can))) as Hw1.
  { replace number with (can + (number - can)) in Hw by lia. rewrite slice_add in Hw by lia. by apply Forall_app in Hw as [_ Hw]. }
  eapply wp_mono; [apply (IH fuel e1 _ (off + can) (number - can) R1 R4); try (done || lia); unfold room in *; lia|].
  intros e' (Q1 & Q2 & Q3). split_and!; try lia. rewrite <- app_assoc, <- fmap_app in Q1.
  by replace number with (can + (number - can)) by lia; rewrite slice_add by lia.
Qed.

Lemma ewah_add_dirty_words_spec src negate e W off number : rep e W -> Forall is_word (slice src off number) -> 0 <= off -> 0 <= number ->
  off + number <= len src -> room e (2 * number + 1) -> 0 <= bit_size e -> bit_size e + 64 * number < 2 ^ 64 ->
  wp oom (ewah_add_dirty_words junk e src off number negate) (fun e' =>
    rep e' (W ++ (neg negate <$> slice src off number)) /\
    buffer_size e <= buffer_size e' <= buffer_size e + 2 * number /\ bit_size e' = bit_size e + 64 * number).
Proof.
  intros Hrep Hw Hoff Hn Hsrc Hroom Hb0 Hb1. unfold ewah_add_dirty_words. rewrite loop_S.
  pose proof (dirty_step_spec src negate e W off number (or_introl Hrep) Hw Hoff ltac:(lia) Hsrc
    ltac:(unfold room in *; lia) Hb0 Hb1) as Hst.
  destruct (dirty_step junk src negate (e, off, number)) as [[[[e1 off1] number1]|e1]|]; [|cbn [wp] in *|done].
  2:{ destruct Hst as (R1 & R2 & R3). split_and!; (done || lia). }
  cbn [wp] in Hst. destruct Hst as (can & -> & -> & Hn1 & Hc & R1 & R2 & R3 & R4 & _).
  assert (Forall is_word (slice src (off + can) (number - can))) as Hw1.
  { replace number with (can + (number - can)) in Hw by lia. rewrite slice_add in Hw by lia. by apply Forall_app in Hw as [_ Hw]. }
  eapply wp_mono; [apply (dirty_loop src negate (Z.to_nat number) _ e1 _ (off + can) (number - can) R1 R4);
    try (done || lia); unfold room in *; lia|].
  intros e' (Q1 & Q2 & Q3). split_and!; try lia. rewrite <- app_assoc, <- fmap_app in Q1.
  by replace number with (can + (number - can)) by lia; rewrite slice_add by lia.
Qed.

(** ** Setting bits *)

Lemma raw_last e pre w lits x bs : raw e pre w (lits ++ [x]) bs ->
  rd (ew_buffer e) (buffer_size e - 1) = Ok x /\
  (forall y, exists b, wr (ew_buffer e) (buffer_size e - 1) y = Ok b /\
    raw (set_buffer e b) pre w (lits ++ [y]) bs /\
    raw (mkEwah b (buffer_size e - 1) (alloc_size e) (bit_size e) (ew_rlw e)) pre w lits bs).
Proof.
  intros [(tl & E) Es Er El Ea Eb]. rewrite len_app in Es. change (len [x]) with 1 in Es.
  pose proof (len_nonneg pre). pose proof (len_nonneg lits). pose proof (len_nonneg tl).
  assert (ew_buffer e = (pre ++ w :: lits) ++ x :: tl) as E' by (by rewrite E, <- !app_assoc).
  assert (Z.to_nat (buffer_size e - 1) = length (pre ++ w :: lits)) as En by (rewrite length_app; simpl; llia).
  assert (len (ew_buffer e) = len pre + 1 + len lits + 1 + len tl) as Hb.
  { rewrite E'. autorewrite with len. lia. }
  split.
  - apply rd_Some; [lia|]. by rewrite En, E', lookup_app_r, Nat.sub_diag by lia.
  - intros y. rewrite wr_ok by lia. eexists. split; [done|]. rewrite En, E'.
    replace (length (pre ++ w :: lits)) with (length (pre ++ w :: lits) + 0)%nat by lia. rewrite insert_app_r.
    change (<[0%nat := y]> (x :: tl)) with (y :: tl).
    split; constructor; cbn [ew_buffer buffer_size ew_rlw alloc_size bit_size set_buffer]; autorewrite with len in *;
      try (done || lia); [exists tl|exists (y :: tl)]; by rewrite <- !app_assoc.
Qed.

(** What a bitmap built by [ewah_set] satisfies. *)
Record set_inv (e : ewah_bitmap) (W : list Z) : Prop := {
  si_rep : rep e W;
  si_bits : 0 <= bit_size e;
  si_len : len W = (bit_size e + 63) `div` 64;
  si_lit : bit_size e `mod` 64 <> 0 -> ends_literal e W;
  si_zero : forall p, bit_size e <= p -> bit W p = false;
  si_size : buffer_size e <= 1 + 2 * len W;
}.

(** The word of the new bit is behind the end. *)
Lemma set_new_bits W (d i : Z) : 0 < d -> (64 * (len W + d - 1) <= i < 64 * (len W + d)) ->
  forall p, 0 <= p ->
  bit (W ++ replicate (Z.to_nat (d - 1)) 0 ++ [1 <<. (i `mod` 64)]) p = bit W p || (p =? i).
Proof.
  intros Hd Hi p Hp. pose proof (len_nonneg W).
  assert (i `mod` 64 = i - 64 * (len W + d - 1)) as Ei.
  { rewrite (Z.mod_eq i 64) by lia. assert (i `div` 64 = len W + d - 1) by dlia. lia. }
  destruct (Z_lt_le_dec p (64 * len W)).
  { rewrite bit_app_l by lia. destruct (Z.eqb_spec p i); [lia|]. by rewrite orb_false_r. }
  rewrite bit_app_r, (bit_over W p) by lia. cbn [orb].
  assert (len (replicate (Z.to_nat (d - 1)) 0) = d - 1) as El by (apply len_replicate; lia).
  destruct (Z_lt_le_dec (p - 64 * len W) (64 * (d - 1))).
  { rewrite bit_app_l by lia. rewrite bit_zeros by lia. destruct (Z.eqb_spec p i); [lia|done]. }
  rewrite bit_app_r by lia. rewrite El. destruct (Z_lt_le_dec (p - 64 * len W - 64 * (d - 1)) 64).
  - rewrite bit_single, mask_bit by lia. rewrite Ei. cases_Z; (done || lia).
  - rewrite bit_over by (change (len [_]) with 1; lia). destruct (Z.eqb_spec p i); [lia|done].
Qed.

(** The word of the new bit is the last one. *)
Lemma set_last_bits W x i : 64 * len W <= i < 64 * (len W + 1) -> forall p, 0 <= p ->
  bit (W ++ [x |. (1 <<. (i `mod` 64))]) p = bit (W ++ [x]) p || (p =? i).
Proof.
  intros Hi p Hp. pose proof (len_nonneg W).
  assert (i `mod` 64 = i - 64 * len W) as Ei.
  { rewrite (Z.mod_eq i 64) by lia. assert (i `div` 64 = len W) by dlia. lia. }
  destruct (Z_lt_le_dec p (64 * len W)).
  { rewrite !bit_app_l by lia. destruct (Z.eqb_spec p i); [lia|]. by rewrite orb_false_r. }
  rewrite !bit_app_r by lia. destruct (Z_lt_le_dec (p - 64 * len W) 64).
  - rewrite !bit_single, Z.lor_spec, mask_bit by lia. rewrite Ei. f_equal. cases_Z; (done || lia).
  - rewrite !bit_over by (change (len [_]) with 1; lia). destruct (Z.eqb_spec p i); [lia|done].
Qed.

Lemma ewah_set_dist n : 0 <= n < 2 ^ 60 -> DIV_ROUND_UP n BITS_IN_EWORD = (n + 63) `div` 64.
Proof.
  intros Hn. unfold DIV_ROUND_UP, BITS_IN_EWORD. rewrite (u64_small (n + 64)), u64_small by lia. f_equal. lia.
Qed.

Definition set_post (e : ewah_bitmap) (W : list Z) (i : Z) (e' : ewah_bitmap) : Prop :=
  exists W', set_inv e' W' /\ bit_size e' = i + 1 /\ forall p, 0 <= p -> bit W' p = bit W p || (p =? i).

(** The word of the new bit is behind the end. *)
Lemma ewah_set_new e W i d : set_inv e W -> bit_size e <= i < 2 ^ 44 -> 0 < d -> len W + d = (i + 1 + 63) `div` 64 ->
  let e0 := set_bit_size e (i + 1) in
  wp oom (e ← (if 1 <? d then '(e, _) ← add_empty_words junk e0 0 (d - 1); Ok e else Ok e0);
    '(e, _) ← add_literal junk e (1 <<. (i `mod` 64)); Ok e) (set_post e W i).
Proof.
  intros [Hrep Hb Hl _ Hz Hsz] Hi Hd Hd' e0. pose proof (len_nonneg W).
  assert (len W + d <= 2 ^ 38) by dlia. assert (64 * (len W + d - 1) <= i < 64 * (len W + d)) by dlia.
  assert (rep e0 W) as Hrep0 by (by apply rep_set_bit_size).
  apply wp_bind. eapply (wp_mono _ _ (fun e1 => rep_open e1 (W ++ replicate (Z.to_nat (d - 1)) 0) /\
    buffer_size e1 <= buffer_size e + (d - 1) /\ bit_size e1 = i + 1)).
  { destruct (Z.ltb_spec 1 d).
    - apply wp_bind. eapply wp_mono.
      { apply (add_empty_words_spec e0 W false (d - 1)); [by apply rep_rep_open|lia|unfold room; simpl; lia]. }
      intros [e1 a] (R1 & R2 & R3 & R4). cbn [wp]. split_and!; [by apply rep_rep_open|simpl in *; lia|done].
    - cbn [wp]. replace (d - 1) with 0 by lia. cbn [replicate Z.to_nat]. rewrite app_nil_r.
      split_and!; [by apply rep_rep_open|simpl; lia|done]. }
  intros e1 (Hrep1 & Hs1 & Hb1). pose proof (Z.mod_pos_bound i 64 ltac:(lia)). apply wp_bind. eapply wp_mono.
  { apply (add_literal_spec e1 _ (1 <<. (i `mod` 64)) Hrep1); [by apply mask_word|unfold room; lia]. }
  intros [e2 a] (R1 & R2 & R3 & R4 & R5). cbn [wp]. rewrite <- app_assoc in R1, R2.
  pose proof (set_new_bits W d i Hd ltac:(lia)) as Hbits. eexists. split_and!; [|lia|exact Hbits].
  assert (len (W ++ replicate (Z.to_nat (d - 1)) 0 ++ [1 <<. (i `mod` 64)]) = len W + d) as El.
  { rewrite !len_app, len_replicate by lia. change (len [_]) with 1. lia. }
  constructor; rewrite ?El; try (done || lia).
  - rewrite R5, Hb1. lia.
  - intros p Hp. rewrite Hbits, Hz by lia. destruct (Z.eqb_spec p i); [lia|done].
Qed.

(** The word of the new bit is the last one, a literal. *)
Lemma ewah_set_spec e W i : set_inv e W -> bit_size e <= i < 2 ^ 44 ->
  wp oom (ewah_set junk e i) (set_post e W i).
Proof.
  intros Hinv Hi. pose proof Hinv as [Hrep Hb Hl Hlit Hz Hsz]. pose proof (len_nonneg W).
  unfold ewah_set. rewrite (u64_small (i + 1)) by lia. rewrite !ewah_set_dist by lia. rewrite <- Hl.
  unfold BITS_IN_EWORD. assert (len W <= (i + 1 + 63) `div` 64 < 2 ^ 40) by dlia. rewrite u64_small by lia.
  set (d := (i + 1 + 63) `div` 64 - len W). destruct (Z.leb_spec (bit_size e) i); [|lia].
  cbn [assert mbind res_bind]. destruct (Z.ltb_spec 0 d).
  { apply (ewah_set_new e W i d); unfold d; (done || lia). }
  assert (d = 0) as Hd by lia. assert (bit_size e `mod` 64 <> 0) as Hm by (unfold d in Hd; dlia).
  destruct (Hlit Hm) as (ss & s & [Hr Ho Hs Hf] & Hne & HW). destruct s as [b rl lits].
  pose proof Hs as [Hrl Hll Hlw]. cbn [s_run s_lits s_bit] in *. unfold seg_rlw in Hr. cbn [s_run s_lits s_bit] in Hr.
  destruct (exists_last Hne) as (lits0 & x & ->). pose proof (len_nonneg lits0). pose proof (len_nonneg (lits0 ++ [x])) as Hnn.
  assert (raw (set_bit_size e (i + 1)) (enc ss) (rlw b rl (len (lits0 ++ [x]))) (lits0 ++ [x]) (i + 1)) as Hr0.
  { destruct Hr. by constructor. }
  rewrite (raw_get _ _ _ _ _ Hr0). cbn [mbind res_bind]. rewrite get_literal_words by lia.
  rewrite len_app in Hr0 |- *. change (len [x]) with 1 in Hr0 |- *. rewrite len_app in Hll. change (len [x]) with 1 in Hll.
  destruct (Z.eqb_spec (len lits0 + 1) 0); [lia|].
  destruct (raw_last _ _ _ _ _ _ Hr0) as [-> Hwr]. cbn [mbind res_bind].
  set (m := 1 <<. (i `mod` 64)) in *. destruct (Hwr (x |. m)) as (buf & -> & Hr1 & _). cbn [mbind res_bind].
  destruct (raw_last _ _ _ _ _ _ Hr1) as [-> Hwr1]. cbn [mbind res_bind].
  apply Forall_app in Hlw as [Hlw Hxw]. rewrite Forall_singleton in Hxw.
  assert (is_word m) as Hmw by (apply mask_word, Z.mod_pos_bound; lia).
  rewrite words_lits in HW. set (W0 := words (ss ++ [mkSeg b rl lits0])) in *.
  assert (len W = len W0 + 1) as HlW by (rewrite <- HW, len_app; done).
  assert (64 * len W0 <= i < 64 * (len W0 + 1)) as Hi0 by (unfold d in Hd; dlia).
  pose proof (set_last_bits W0 x i Hi0) as Hbits. fold m in Hbits. rewrite HW in Hbits.
  assert (len (W0 ++ [x |. m]) = len W) as El by (rewrite len_app, HlW; done).
  destruct (Z.eqb_spec (x |. m) (not64 0)) as [Efull|Enf].
  - destruct (Hwr1 0) as (buf1 & -> & _ & Hr2). cbn [mbind res_bind].
    destruct (raw_upd (fun w => rlw_set_literal_words w (u64 (rlw_get_literal_words w - 1))) _ _ _ _ _ Hr2) as (e3 & -> & Hr3).
    cbn [mbind res_bind]. rewrite get_literal_words in Hr3 by lia. rewrite u64_small in Hr3 by lia.
    rewrite set_literal_words in Hr3 by lia. replace (len lits0 + 1 - 1) with (len lits0) in Hr3 by lia.
    assert (ewah_ok e3 ss (mkSeg b rl lits0)) as Hok3.
    { apply (mk_ok _ _ _ _ _ (i + 1)); try done. constructor; cbn [s_run s_lits]; (done || lia). }
    assert (buffer_size e3 = buffer_size e - 1) as Hs3.
    { rewrite (r_size _ _ _ _ _ Hr3), (r_size _ _ _ _ _ Hr), len_app. change (len [x]) with 1. lia. }
    apply wp_bind. eapply wp_mono.
    { apply (add_empty_word_spec e3 W0 true); [by exists ss, (mkSeg b rl lits0)|unfold room; lia]. }
    intros [e4 a] (R1 & R2 & R3 & R4). cbn [wp]. change (fill true) with (not64 0) in R1. rewrite <- Efull in R1.
    rewrite (r_bits _ _ _ _ _ Hr3) in R4.
    assert (i `mod` 64 = 63) as H63.
    { destruct (decide (i `mod` 64 = 63)) as [|Hn63]; [done|]. exfalso.
      assert (bit (W0 ++ [x |. m]) (64 * len W0 + 63) = true) as Ht.
      { rewrite bit_app_r by lia. rewrite bit_single by lia. rewrite Efull.
        replace (64 * len W0 + 63 - 64 * len W0) with 63 by lia. reflexivity. }
      rewrite Hbits, Hz in Ht by (unfold d in Hd; dlia). cbn [orb] in Ht. apply Z.eqb_eq in Ht. dlia. }
    exists (W0 ++ [x |. m]). split_and!; [|done|exact Hbits].
    constructor; rewrite ?El; try (done || lia).
    + rewrite R4. unfold d in Hd. lia.
    + rewrite R4. intros Hc. exfalso. dlia.
    + intros p Hp. rewrite Hbits, Hz by lia. destruct (Z.eqb_spec p i); [lia|done].
  - cbn [wp]. set (e2 := set_buffer _ buf) in *.
    assert (ewah_ok e2 ss (mkSeg b rl (lits0 ++ [x |. m]))) as Hok2.
    { apply (mk_ok _ _ _ _ _ (i + 1)); try done; [by rewrite len_app|].
      constructor; cbn [s_run s_lits]; [done|rewrite len_app; change (len [_]) with 1; lia|].
      apply Forall_app. split; [done|]. constructor; [by apply lor_word|constructor]. }
    exists (W0 ++ [x |. m]). split_and!; [|by apply (r_bits _ _ _ _ _ Hr1)|exact Hbits].
    assert (bit_size e2 = i + 1) as Eb2 by (by apply (r_bits _ _ _ _ _ Hr1)).
    constructor; rewrite ?El, ?Eb2; try (done || lia).
    + exists ss, (mkSeg b rl (lits0 ++ [x |. m])). split_and!; [done| |by rewrite words_lits].
      right. unfold seg_full. cbn [s_run s_lits]. rewrite len_app. change (len [_]) with 1. lia.
    + intros _. exists ss, (mkSeg b rl (lits0 ++ [x |. m])). split_and!; [done|by destruct lits0|by rewrite words_lits].
    + intros p Hp. rewrite Hbits, Hz by lia. destruct (Z.eqb_spec p i); [lia|done].
Qed.
End Append.
