(* ===== verification/EwahIter.v ===== *)
(** * Iterating over compressed bitmaps: [ewah/ewah_bitmap.c]

    The word iterator, the iterator over the union of several bitmaps, the
    visit of every set bit, the pool of bitmaps and the checksum. *)

From stdpp Require Import prelude numbers list sorting.
From S2P Require Import Prelude PatchDelta Alloc Bswap EwahRlw Ewah.

Record ewah_iterator := mkIt {
  it_buffer : list Z; it_size : Z; pointer : Z; compressed : Z; literals : Z; it_rl : Z; it_lw : Z; it_b : Z }.

Definition set_pointer (it : ewah_iterator) (p : Z) : ewah_iterator :=
  mkIt (it_buffer it) (it_size it) p (compressed it) (literals it) (it_rl it) (it_lw it) (it_b it).

(** The loop of [read_new_rlw]. *)
Definition read_step (it : ewah_iterator) : res (ewah_iterator + ewah_iterator) :=
  word ← rd (it_buffer it) (pointer it);
  let it := mkIt (it_buffer it) (it_size it) (pointer it) (compressed it) (literals it)
    (rlw_get_running_len word) (rlw_get_literal_words word) (rlw_get_run_bit word) in
  if tr (it_rl it) || tr (it_lw it) then Ok (inr it)
  else if pointer it <? u64 (it_size it - 1) then Ok (inl (set_pointer it (pointer it + 1)))
  else Ok (inr (set_pointer it (it_size it))).

Definition read_new_rlw (it : ewah_iterator) : res ewah_iterator :=
  let it := mkIt (it_buffer it) (it_size it) (pointer it) 0 0 (it_rl it) (it_lw it) (it_b it) in
  loop (S (Z.to_nat (it_size it - pointer it))) read_step it.

(** [Some w] when it returns 1 with [w] in [*next]. *)
Definition ewah_iterator_next (it : ewah_iterator) : res (ewah_iterator * option Z) :=
  if it_size it <=? pointer it then Ok (it, None)
  else
    '(it, next) ←
      (if compressed it <? it_rl it then
         Ok (mkIt (it_buffer it) (it_size it) (pointer it) (compressed it + 1) (literals it) (it_rl it) (it_lw it) (it_b it),
             if tr (it_b it) then not64 0 else 0)
       else
         _ ← assert (literals it <? it_lw it);
         let it := mkIt (it_buffer it) (it_size it) (pointer it + 1) (compressed it) (literals it + 1) (it_rl it) (it_lw it) (it_b it) in
         _ ← assert (pointer it <? it_size it);
         next ← rd (it_buffer it) (pointer it);
         Ok (it, next));
    if (compressed it =? it_rl it) && (literals it =? it_lw it) then
      let it := set_pointer it (pointer it + 1) in
      if pointer it <? it_size it then it ← read_new_rlw it; Ok (it, Some next)
      else Ok (it, Some next)
    else Ok (it, Some next).

Definition ewah_iterator_init (parent : ewah_bitmap) : res ewah_iterator :=
  let it := mkIt (ew_buffer parent) (buffer_size parent) 0 0 0 0 0 0 in
  if pointer it <? it_size it then read_new_rlw it else Ok it.

Section Or.
Context `{Memory} (junk : ewah_iterator).

Definition sizeof_ewah_iterator : Z := 64.

Definition or_init_step (parents : list ewah_bitmap) (nr : Z) (st : list ewah_iterator * Z) : res (list ewah_iterator * Z + list ewah_iterator * Z) :=
  let '(its, i) := st in
  if i <? nr then
    p ← rd parents i; it ← ewah_iterator_init p; its ← wr its i it;
    Ok (inl (its, i + 1))
  else Ok (inr (its, i)).

(** Returns the array [its] and its length [nr]. *)
Definition ewah_or_iterator_init (parents : list ewah_bitmap) (nr : Z) : res (list ewah_iterator * Z) :=
  its ← ALLOC_ARRAY junk sizeof_ewah_iterator nr;
  loop (S (Z.to_nat nr)) (or_init_step parents nr) (its, 0).

Definition or_next_step (nr : Z) (st : list ewah_iterator * Z * Z * bool) : res (list ewah_iterator * Z * Z * bool + list ewah_iterator * Z * bool) :=
  let '(its, i, out, ret) := st in
  if i <? nr then
    it ← rd its i;
    '(it, buf) ← ewah_iterator_next it;
    its ← wr its i it;
    match buf with
    | Some buf => Ok (inl (its, i + 1, out |. buf, true))
    | None => Ok (inl (its, i + 1, out, ret))
    end
  else Ok (inr (its, out, ret)).

Definition ewah_or_iterator_next (its : list ewah_iterator) (nr : Z) : res (list ewah_iterator * Z * bool) :=
  loop (S (Z.to_nat nr)) (or_next_step nr) (its, 0, 0, false).
End Or.

Section EachBit.
Context {P : Type} (callback : Z -> P -> res P).

Definition run_step (n : Z) (st : Z * Z * P) : res (Z * Z * P + Z * P) :=
  let '(k, pos, p) := st in
  if k <? n then p ← callback pos p; Ok (inl (k + 1, pos + 1, p)) else Ok (inr (pos, p)).

Definition bits_step (b : list Z) (ptr : Z) (st : Z * Z * P) : res (Z * Z * P + Z * P) :=
  let '(c, pos, p) := st in
  if c <? BITS_IN_EWORD then
    x ← rd b ptr;
    p ← (if tr (x &. (1 <<. c)) then callback pos p else Ok p);
    Ok (inl (c + 1, pos + 1, p))
  else Ok (inr (pos, p)).

Definition lits_step (b : list Z) (word : Z) (st : Z * Z * Z * P) : res (Z * Z * Z * P + Z * Z * P) :=
  let '(k, ptr, pos, p) := st in
  if k <? rlw_get_literal_words word then
    '(pos, p) ← loop 65 (bits_step b ptr) (0, pos, p);
    Ok (inl (k + 1, ptr + 1, pos, p))
  else Ok (inr (ptr, pos, p)).

Definition each_step (e : ewah_bitmap) (st : Z * Z * P) : res (Z * Z * P + P) :=
  let '(ptr, pos, p) := st in
  if ptr <? buffer_size e then
    word ← rd (ew_buffer e) ptr;
    '(pos, p) ←
      (if tr (rlw_get_run_bit word) then
         let len := rlw_get_running_len word * BITS_IN_EWORD in
         loop (S (Z.to_nat len)) (run_step len) (0, pos, p)
       else Ok (pos + rlw_get_running_len word * BITS_IN_EWORD, p));
    '(ptr, pos, p) ← loop (S (Z.to_nat (rlw_get_literal_words word))) (lits_step (ew_buffer e) word) (0, ptr + 1, pos, p);
    Ok (inl (ptr, pos, p))
  else Ok (inr p).

Definition ewah_each_bit (self : ewah_bitmap) (payload : P) : res P :=
  loop (S (Z.to_nat (buffer_size self))) (each_step self) (0, 0, payload).
End EachBit.

(** ** The pool and the checksum *)

Definition BITMAP_POOL_MAX : Z := 16.

(** [bitmap_pool] and [bitmap_pool_size]. *)
Record bitmap_pool := mkPool { pool : list (option ewah_bitmap); pool_size : Z }.

Definition ewah_pool_new `{Memory} (junk : Z) (bp : bitmap_pool) : res (bitmap_pool * option ewah_bitmap) :=
  if tr (pool_size bp) then
    e ← rd (pool bp) (pool_size bp - 1);
    Ok (mkPool (pool bp) (pool_size bp - 1), e)
  else e ← ewah_new junk; Ok (bp, Some e).

Definition ewah_pool_free (bp : bitmap_pool) (self : option ewah_bitmap) : res bitmap_pool :=
  match self with
  | None => Ok bp
  | Some e =>
      if (pool_size bp =? BITMAP_POOL_MAX) || (alloc_size e =? 0) then Ok bp
      else
        e ← ewah_clear e;
        p ← wr (pool bp) (pool_size bp) (Some e);
        Ok (mkPool p (pool_size bp + 1))
  end.

Definition checksum_step (p : list Z) (st : Z * Z * Z) : res (Z * Z * Z + Z) :=
  let '(i, size, crc) := st in
  if tr size then
    x ← rd p i;
    Ok (inl (i + 1, size - 1, u32 (u32 (u32 (crc <<. 5) - crc) + x)))
  else Ok (inr crc).

Definition ewah_checksum (self : ewah_bitmap) : res Z :=
  let p := mjoin (eword_bytes <$> ew_buffer self) in
  let size := u64 (buffer_size self * sizeof_eword) in
  loop (S (Z.to_nat size)) (checksum_step p) (0, size, u32 (bit_size self)).

(** ** The iterator yields the words *)

Lemma rd_drop_head {A} (b : list A) i x l : 0 <= i -> drop (Z.to_nat i) b = x :: l -> rd b i = Ok x.
Proof. intros Hi E. apply rd_Some; [done|]. by rewrite <- (Nat.add_0_r (Z.to_nat i)), <- lookup_drop, E. Qed.

Lemma drop_next {A} (b : list A) i x l : 0 <= i -> drop (Z.to_nat i) b = x :: l -> drop (Z.to_nat (i + 1)) b = l.
Proof.
  intros Hi E. replace (Z.to_nat (i + 1)) with (Z.to_nat i + 1)%nat by lia. by rewrite <- drop_drop, E.
Qed.

Lemma drop_len {A} (b : list A) i l : 0 <= i <= len b -> drop (Z.to_nat i) b = l -> i + len l = len b.
Proof. intros Hi <-. unfold len in *. rewrite length_drop. lia. Qed.

(** [it] has the words [W] left: [k] words of a run, the literals [lits] and the
    segments [rest], with [tl] behind the end. *)
Record it_run (it : ewah_iterator) (k : Z) (b : bool) (lits : list Z) (rest : list seg) (tl : list Z) : Prop := {
  i_ptr : 0 <= pointer it;
  i_k : 0 <= k;
  i_drop : drop (Z.to_nat (pointer it + 1)) (it_buffer it) = lits ++ enc rest ++ tl;
  i_size : it_size it = pointer it + 1 + len lits + len (enc rest);
  i_comp : compressed it + k = it_rl it;
  i_lit : literals it + len lits = it_lw it;
  i_bit : it_b it = Z.b2z b;
  i_more : 0 < k + len lits;
  i_rest : Forall seg_ok rest;
}.

Definition it_ok (it : ewah_iterator) (W : list Z) : Prop :=
  (it_size it <= pointer it /\ W = []) \/
  exists k b lits rest tl, it_run it k b lits rest tl /\ it_size it < 2 ^ 62 /\
    W = replicate (Z.to_nat k) (fill b) ++ lits ++ words rest.

Lemma enc_cons s rest : enc (s :: rest) = seg_rlw s :: s_lits s ++ enc rest.
Proof. done. Qed.

Lemma words_cons s rest : words (s :: rest) = replicate (Z.to_nat (s_run s)) (fill (s_bit s)) ++ s_lits s ++ words rest.
Proof. unfold words. cbn [fmap list_fmap mjoin list_join]. unfold seg_words. by rewrite <- app_assoc. Qed.

Lemma read_loop rest : forall fuel it tl, rest <> [] -> Forall seg_ok rest -> (length rest <= fuel)%nat ->
  0 <= pointer it -> drop (Z.to_nat (pointer it)) (it_buffer it) = enc rest ++ tl ->
  it_size it = pointer it + len (enc rest) -> it_size it < 2 ^ 62 -> compressed it = 0 -> literals it = 0 ->
  total (loop fuel read_step it) (fun it' => it_ok it' (words rest)).
Proof.
  induction rest as [|s rest IH]; [done|].
  intros fuel it tl _ Hok Hf Hp Hd Hs Hs2 Hc Hl. apply Forall_cons in Hok as [Hs1 Hok]. pose proof Hs1 as [Hrun Hlits Hw].
  simpl in Hf. destruct fuel as [|fuel]; [lia|]. rewrite loop_S. unfold read_step at 1.
  rewrite enc_cons in Hd. cbn [app] in Hd. rewrite (rd_drop_head _ _ _ _ Hp Hd). cbn [mbind res_bind].
  destruct s as [b rl lits]. unfold seg_rlw in *. cbn [s_run s_lits s_bit] in *. pose proof (len_nonneg lits).
  rewrite get_run_bit, get_running_len, get_literal_words by lia. cbn [it_rl it_lw pointer it_size].
  rewrite enc_cons, len_cons, len_app in Hs. cbn [s_lits] in Hs. pose proof (len_nonneg (enc rest)).
  apply (drop_next _ _ _ _ Hp) in Hd as Hd1.
  destruct (tr rl || tr (len lits)) eqn:Et.
  - cbn [wp]. right. exists rl, b, lits, rest, tl. rewrite <- app_assoc in Hd1.
    split_and!; [|done|by rewrite words_cons]. apply orb_true_iff in Et.
    rewrite !tr_true in Et.
    constructor; cbn [pointer it_buffer it_size compressed literals it_rl it_lw it_b]; (done || lia).
  - apply orb_false_iff in Et as [Er El]. apply tr_false in Er as ->. apply tr_false in El.
    apply len_0_nil in El as ->. change (len (@nil Z)) with 0 in *. cbn [app] in Hd1. rewrite u64_small by lia.
    rewrite words_cons. cbn [s_run s_lits s_bit app]. change (replicate (Z.to_nat 0) (fill b)) with (@nil Z). cbn [app].
    destruct rest as [|s' rest].
    + change (len (enc [])) with 0 in Hs. destruct (Z.ltb_spec (pointer it) (it_size it - 1)); [lia|].
      cbn [wp]. left. cbn [it_size pointer set_pointer]. split; [lia|done].
    + rewrite enc_cons, len_cons in Hs. pose proof (len_nonneg (s_lits s' ++ enc rest)).
      destruct (Z.ltb_spec (pointer it) (it_size it - 1)); [|lia].
      apply (IH fuel _ tl); cbn [pointer it_size it_buffer compressed literals set_pointer]; try (done || lia).
      rewrite enc_cons, len_cons. lia.
Qed.

Lemma read_new_rlw_spec rest it tl : rest <> [] -> Forall seg_ok rest ->
  0 <= pointer it -> drop (Z.to_nat (pointer it)) (it_buffer it) = enc rest ++ tl ->
  it_size it = pointer it + len (enc rest) -> it_size it < 2 ^ 62 ->
  total (read_new_rlw it) (fun it' => it_ok it' (words rest)).
Proof.
  intros Hne Hok Hp Hd Hs Hs2. unfold read_new_rlw. apply (read_loop rest _ _ tl); try done.
  cbn [it_size pointer]. rewrite Hs. replace (pointer it + len (enc rest) - pointer it) with (len (enc rest)) by lia.
  clear. unfold len. rewrite Nat2Z.id. induction rest as [|s rest IH]; [simpl; lia|].
  rewrite enc_cons. simpl. rewrite length_app. lia.
Qed.

(** The end of a segment: the next one is read, if there is one. *)
Lemma it_next_end rest it tl (next : Z) : Forall seg_ok rest -> 0 <= pointer it ->
  drop (Z.to_nat (pointer it)) (it_buffer it) = enc rest ++ tl -> it_size it = pointer it + len (enc rest) ->
  it_size it < 2 ^ 62 ->
  total (if pointer it <? it_size it then it ← read_new_rlw it; Ok (it, Some next) else Ok (it, Some next))
    (fun '(it', r) => it_ok it' (words rest) /\ r = Some next).
Proof.
  intros Hok Hp Hd Hs Hs2. destruct rest as [|s rest].
  - change (len (enc [])) with 0 in Hs. destruct (Z.ltb_spec (pointer it) (it_size it)); [lia|]. cbn [wp].
    split; [|done]. left. split; [lia|done].
  - pose proof Hs as Hs'. rewrite enc_cons, len_cons in Hs'. pose proof (len_nonneg (s_lits s ++ enc rest)).
    destruct (Z.ltb_spec (pointer it) (it_size it)); [|lia]. apply wp_bind.
    eapply wp_mono; [by apply (read_new_rlw_spec (s :: rest) it tl)|]. done.
Qed.

Lemma ewah_iterator_next_spec it W : it_ok it W ->
  total (ewah_iterator_next it) (fun '(it', r) => match W with
    | [] => it' = it /\ r = None
    | w :: W' => it_ok it' W' /\ r = Some w
    end).
Proof.
  intros [[Hs ->]|(k & b & lits & rest & tl & [Hp Hk Hd Hs Hc Hl Hb Hm Hr] & Hs2 & ->)]; unfold ewah_iterator_next.
  { destruct (Z.leb_spec (it_size it) (pointer it)); [done|lia]. }
  pose proof (len_nonneg lits). pose proof (len_nonneg (enc rest)).
  destruct (Z.leb_spec (it_size it) (pointer it)); [lia|].
  destruct (Z.ltb_spec (compressed it) (it_rl it)) as [Hlt|Hge].
  - cbn [mbind res_bind compressed it_rl literals it_lw].
    replace (Z.to_nat k) with (S (Z.to_nat (k - 1))) by lia. cbn [replicate app].
    assert ((if tr (it_b it) then not64 0 else 0) = fill b) as -> by (rewrite Hb; by destruct b).
    destruct (Z.eqb_spec (compressed it + 1) (it_rl it)) as [E1|E1]; cbn [andb];
      [destruct (Z.eqb_spec (literals it) (it_lw it)) as [E2|E2]|].
    + assert (k = 1) as -> by lia. assert (lits = []) as -> by (apply len_0_nil; lia).
      cbn [app] in *. change (Z.to_nat (1 - 1)) with 0%nat. cbn [replicate app]. change (len (@nil Z)) with 0 in *.
      apply (it_next_end rest (set_pointer _ _) tl); cbn [pointer it_buffer it_size set_pointer]; (done || lia).
    + cbn [wp]. split; [|done]. right. exists (k - 1), b, lits, rest, tl. split_and!; try done.
      constructor; cbn [pointer it_buffer it_size compressed literals it_rl it_lw it_b]; (done || lia).
    + cbn [wp]. split; [|done]. right. exists (k - 1), b, lits, rest, tl. split_and!; try done.
      constructor; cbn [pointer it_buffer it_size compressed literals it_rl it_lw it_b]; (done || lia).
  - assert (k = 0) as -> by lia. change (Z.to_nat 0) with 0%nat. cbn [replicate app].
    destruct lits as [|x lits]; [change (len (@nil Z)) with 0 in Hm; lia|]. cbn [app] in *. rewrite len_cons in *.
    pose proof (len_nonneg lits).
    destruct (Z.ltb_spec (literals it) (it_lw it)); [|lia]. cbn [assert mbind res_bind pointer it_size it_buffer].
    destruct (Z.ltb_spec (pointer it + 1) (it_size it)); [|lia]. cbn [assert mbind res_bind pointer it_size it_buffer].
    assert (0 <= pointer it + 1) as Hp1 by lia. rewrite (rd_drop_head _ _ _ _ Hp1 Hd).
    cbn [mbind res_bind compressed it_rl literals it_lw]. apply (drop_next _ _ _ _ Hp1) in Hd as Hd1.
    destruct (Z.eqb_spec (compressed it) (it_rl it)); [|lia]. cbn [andb].
    destruct (Z.eqb_spec (literals it + 1) (it_lw it)) as [E2|E2].
    + assert (lits = []) as -> by (apply len_0_nil; lia). change (len (@nil Z)) with 0 in *. cbn [app] in *.
      apply (it_next_end rest (set_pointer _ _) tl); cbn [pointer it_buffer it_size set_pointer]; (done || lia).
    + cbn [wp]. split; [|done]. right. exists 0, b, lits, rest, tl. split_and!; try done.
      constructor; cbn [pointer it_buffer it_size compressed literals it_rl it_lw it_b]; (done || lia).
Qed.

Lemma rep_buffer e W : rep e W -> exists ss tl, ss <> [] /\ Forall seg_ok ss /\ ew_buffer e = enc ss ++ tl /\
  buffer_size e = len (enc ss) /\ W = words ss /\ buffer_size e < 2 ^ 62.
Proof.
  intros (ss & s & [[(tl & E) Es Er El Ea Eb] Ho Hs _] & _ & ->). exists (ss ++ [s]), tl. rewrite enc_snoc_raw.
  pose proof (len_nonneg tl).
  assert (len (ew_buffer e) = len (enc ss) + 1 + len (s_lits s) + len tl) as Hb.
  { rewrite E. autorewrite with len. lia. }
  split_and!; [by destruct ss| |by rewrite E, <- app_assoc|rewrite len_app, len_cons; lia|done|lia].
  apply Forall_app. split; [done|by constructor].
Qed.

Lemma ewah_iterator_init_spec e W : rep e W -> total (ewah_iterator_init e) (fun it => it_ok it W).
Proof.
  intros Hrep. destruct (rep_buffer e W Hrep) as (ss & tl & Hne & Hok & E & Es & -> & Hs2). unfold ewah_iterator_init.
  cbn [pointer it_size]. destruct ss as [|s ss]; [done|].
  assert (0 < buffer_size e) by (rewrite Es, enc_cons, len_cons; pose proof (len_nonneg (s_lits s ++ enc ss)); lia).
  destruct (Z.ltb_spec 0 (buffer_size e)); [|lia].
  apply (read_new_rlw_spec (s :: ss) _ tl); cbn [pointer it_size it_buffer]; (done || lia).
Qed.

(** ** Visiting the set bits *)

(** The positions of the set bits of words that start at position [pos]. *)
Fixpoint positions (pos : Z) (W : list Z) : list Z :=
  match W with
  | [] => []
  | x :: W => filter (fun q => Z.testbit x (q - pos) = true) (seqZ pos 64) ++ positions (pos + 64) W
  end.

Lemma positions_app W : forall pos V, positions pos (W ++ V) = positions pos W ++ positions (pos + 64 * len W) V.
Proof.
  induction W as [|x W IH]; intros pos V; cbn [positions app].
  - change (len (@nil Z)) with 0. by rewrite Z.mul_0_r, Z.add_0_r.
  - rewrite IH, <- app_assoc, len_cons. do 3 f_equal. lia.
Qed.

Lemma filter_ext_in {A} (P Q : A -> Prop) `{!forall x, Decision (P x), !forall x, Decision (Q x)} (l : list A) :
  (forall x, x ∈ l -> P x <-> Q x) -> filter P l = filter Q l.
Proof.
  induction l as [|x l IH]; intros Hpq; [done|]. rewrite !filter_cons, IH by (intros; apply Hpq; by right).
  specialize (Hpq x ltac:(by left)). destruct (decide (P x)), (decide (Q x)); tauto.
Qed.

Lemma filter_none_P {A} (P : A -> Prop) `{!forall x, Decision (P x)} (l : list A) : Forall (fun x => ~ P x) l -> filter P l = [].
Proof.
  induction 1 as [|x l Hx Hl IH]; [done|]. by rewrite filter_cons, decide_False.
Qed.

Lemma positions_ones n : forall pos, positions pos (replicate n (fill true)) = seqZ pos (64 * Z.of_nat n).
Proof.
  induction n as [|n IH]; intros pos; [done|]. cbn [replicate positions].
  rewrite IH, filter_all.
  - rewrite <- seqZ_app by lia. f_equal. lia.
  - apply Forall_forall. intros q Hq%elem_of_seqZ. unfold fill. rewrite Z.testbit_ones by lia. cases_Z; (done || lia).
Qed.

Lemma positions_zeros n : forall pos, positions pos (replicate n (fill false)) = [].
Proof.
  induction n as [|n IH]; intros pos; [done|]. cbn [replicate positions]. rewrite IH, filter_none_P; [done|].
  apply Forall_forall. intros q _. by rewrite Z.bits_0.
Qed.

Lemma positions_filter W : positions 0 W = filter (fun p => bit W p = true) (seqZ 0 (64 * len W)).
Proof.
  induction W as [|x W IH] using rev_ind; [done|]. pose proof (len_nonneg W).
  rewrite positions_app, IH, len_app. change (len [x]) with 1. cbn [positions]. rewrite app_nil_r, Z.add_0_l.
  rewrite Z.mul_add_distr_l, seqZ_app, filter_app by lia. rewrite Z.add_0_l. f_equal.
  - apply filter_ext_in. intros p Hp%elem_of_seqZ. rewrite bit_app_l by lia. done.
  - apply filter_ext_in. intros p Hp%elem_of_seqZ.
    rewrite bit_app_r by lia. rewrite bit_single by lia. done.
Qed.

Section Visit.
Context {P : Type} (callback : Z -> P -> res P).

(** The calls of the callback, in order. *)
Fixpoint visit (l : list Z) (p : P) : res P :=
  match l with [] => Ok p | q :: l => p ← callback q p; visit l p end.

Lemma visit_app l k p : visit (l ++ k) p = (p ← visit l p; visit k p).
Proof.
  revert p. induction l as [|q l IH]; intros p; [done|]. cbn [visit app].
  destruct (callback q p); cbn [mbind res_bind]; [apply IH|done].
Qed.

Lemma run_loop k : forall fuel n i pos p, n - i = Z.of_nat k -> (k < fuel)%nat ->
  loop fuel (run_step callback n) (i, pos, p) = (p ← visit (seqZ pos (n - i)) p; Ok (pos + (n - i), p)).
Proof.
  induction k as [|k IH]; intros fuel n i pos p Hk Hf; (destruct fuel as [|fuel]; [lia|]); rewrite loop_S; unfold run_step at 1.
  { destruct (Z.ltb_spec i n); [lia|]. rewrite Hk, seqZ_nil by lia. by rewrite Z.add_0_r. }
  destruct (Z.ltb_spec i n); [|lia]. rewrite seqZ_cons by lia. cbn [visit].
  destruct (callback pos p) as [p'|]; [|done]. cbn [mbind res_bind]. rewrite IH by lia.
  replace (Z.pred (n - i)) with (n - (i + 1)) by lia. replace (pos + 1 + (n - (i + 1))) with (pos + (n - i)) by lia. done.
Qed.

Lemma bits_loop b ptr x k : rd b ptr = Ok x -> forall fuel c pos p, 64 - c = Z.of_nat k -> 0 <= c -> (k < fuel)%nat ->
  loop fuel (bits_step callback b ptr) (c, pos, p) =
    (p ← visit (filter (fun q => Z.testbit x (q - (pos - c)) = true) (seqZ pos (64 - c))) p; Ok (pos + (64 - c), p)).
Proof.
  intros Hx. induction k as [|k IH]; intros fuel c pos p Hk Hc Hf; (destruct fuel as [|fuel]; [lia|]);
    rewrite loop_S; unfold bits_step at 1; unfold BITS_IN_EWORD.
  { destruct (Z.ltb_spec c 64); [lia|]. rewrite Hk, seqZ_nil by lia. by rewrite Z.add_0_r. }
  destruct (Z.ltb_spec c 64); [|lia]. rewrite Hx. cbn [mbind res_bind]. rewrite test_mask by done.
  rewrite (seqZ_cons pos) by lia. rewrite filter_cons. replace (pos - (pos - c)) with c by lia.
  replace (Z.succ pos) with (pos + 1) by lia. replace (Z.pred (64 - c)) with (64 - (c + 1)) by lia.
  destruct (Z.testbit x c) eqn:Et; [rewrite decide_True by done; cbn [visit]; destruct (callback pos p) as [p'|]; [|done]
    |rewrite decide_False by done]; cbn [mbind res_bind]; rewrite IH by lia;
    replace (pos + 1 - (c + 1)) with (pos - c) by lia; replace (pos + 1 + (64 - (c + 1))) with (pos + (64 - c)) by lia; done.
Qed.

Lemma lits_loop b word lits : forall fuel k ptr pos p tl, 0 <= ptr -> drop (Z.to_nat ptr) b = lits ++ tl ->
  k + len lits = rlw_get_literal_words word -> (length lits < fuel)%nat ->
  loop fuel (lits_step callback b word) (k, ptr, pos, p) =
    (p ← visit (positions pos lits) p; Ok (ptr + len lits, pos + 64 * len lits, p)).
Proof.
  induction lits as [|x lits IH]; intros fuel k ptr pos p tl Hp Hd Hk Hf; (destruct fuel as [|fuel]; [simpl in Hf; lia|]);
    rewrite loop_S; unfold lits_step at 1.
  { change (len (@nil Z)) with 0 in *. destruct (Z.ltb_spec k (rlw_get_literal_words word)); [lia|].
    cbn [positions visit mbind res_bind]. by rewrite Z.mul_0_r, !Z.add_0_r. }
  rewrite len_cons in *. pose proof (len_nonneg lits). destruct (Z.ltb_spec k (rlw_get_literal_words word)); [|lia].
  cbn [app] in Hd. rewrite (bits_loop b ptr x 64 (rd_drop_head _ _ _ _ Hp Hd)) by lia. cbn [positions].
  rewrite visit_app. rewrite Z.sub_0_r. cbn [Z.sub].
  replace (pos - 0) with pos by lia. change (64 - 0) with 64.
  destruct (visit (filter _ (seqZ pos 64)) p) as [p'|]; [|done]. cbn [mbind res_bind].
  rewrite (IH fuel (k + 1) (ptr + 1) (pos + 64) p' tl); try lia; [|by apply (drop_next _ _ x)|simpl in Hf; lia].
  replace (ptr + 1 + len lits) with (ptr + (1 + len lits)) by lia.
  by replace (pos + 64 + 64 * len lits) with (pos + 64 * (1 + len lits)) by lia.
Qed.

Lemma run_positions (b : bool) rl pos p : 0 <= rl ->
  (if tr (Z.b2z b) then loop (S (Z.to_nat (rl * BITS_IN_EWORD))) (run_step callback (rl * BITS_IN_EWORD)) (0, pos, p)
   else Ok (pos + rl * BITS_IN_EWORD, p)) =
  (p ← visit (positions pos (replicate (Z.to_nat rl) (fill b))) p; Ok (pos + 64 * rl, p)).
Proof.
  intros Hrl. unfold BITS_IN_EWORD. destruct b; cbn [Z.b2z].
  - change (tr 1) with true. cbv iota. rewrite (run_loop (Z.to_nat (rl * 64))) by lia.
    rewrite positions_ones, Z.sub_0_r. replace (64 * Z.of_nat (Z.to_nat rl)) with (rl * 64) by lia.
    by replace (64 * rl) with (rl * 64) by lia.
  - change (tr 0) with false. cbv iota. rewrite positions_zeros. cbn [visit mbind res_bind]. do 2 f_equal. lia.
Qed.

Lemma each_loop e ss : forall fuel ptr pos p tl, 0 <= ptr -> Forall seg_ok ss -> (length ss < fuel)%nat ->
  drop (Z.to_nat ptr) (ew_buffer e) = enc ss ++ tl -> buffer_size e = ptr + len (enc ss) ->
  loop fuel (each_step callback e) (ptr, pos, p) = visit (positions pos (words ss)) p.
Proof.
  induction ss as [|s ss IH]; intros fuel ptr pos p tl Hp Hok Hf Hd Hs; (destruct fuel as [|fuel]; [simpl in Hf; lia|]);
    rewrite loop_S; unfold each_step at 1.
  { change (len (enc [])) with 0 in Hs. destruct (Z.ltb_spec ptr (buffer_size e)); [lia|done]. }
  apply Forall_cons in Hok as [Hs1 Hok]. pose proof Hs1 as [Hrun Hlits Hw]. destruct s as [b rl lits].
  rewrite enc_cons in Hd, Hs. unfold seg_rlw in Hd. cbn [s_run s_lits s_bit app] in *.
  rewrite len_cons, len_app in Hs. pose proof (len_nonneg lits). pose proof (len_nonneg (enc ss)).
  destruct (Z.ltb_spec ptr (buffer_size e)); [|lia]. rewrite (rd_drop_head _ _ _ _ Hp Hd). cbn [mbind res_bind].
  rewrite get_run_bit, get_running_len, get_literal_words by lia. cbv zeta. rewrite run_positions by lia.
  rewrite words_cons, !positions_app, visit_app. cbn [s_run s_lits s_bit]. rewrite len_replicate by lia.
  destruct (visit (positions pos (replicate _ _)) p) as [p1|]; [|done]. cbn [mbind res_bind]. rewrite visit_app.
  apply (drop_next _ _ _ _ Hp) in Hd as Hd1. rewrite <- app_assoc in Hd1.
  rewrite (lits_loop _ _ lits _ _ _ _ _ (enc ss ++ tl)); [|lia|done|by rewrite get_literal_words by lia|llia].
  destruct (visit (positions (pos + 64 * rl) lits) p1) as [p2|]; [|done]. cbn [mbind res_bind].
  apply (IH fuel _ _ _ tl); [lia|done|simpl in Hf; lia| |lia].
  replace (Z.to_nat (ptr + 1 + len lits)) with (Z.to_nat (ptr + 1) + length lits)%nat by llia.
  by rewrite <- drop_drop, Hd1, drop_app_length.
Qed.

Lemma length_enc ss : (length ss <= length (enc ss))%nat.
Proof. induction ss as [|s ss IH]; [done|]. rewrite enc_cons. simpl. rewrite length_app. lia. Qed.

Lemma ewah_each_bit_spec e W p : rep e W ->
  ewah_each_bit callback e p = visit (filter (fun q => bit W q = true) (seqZ 0 (64 * len W))) p.
Proof.
  intros Hrep. destruct (rep_buffer e W Hrep) as (ss & tl & _ & Hok & E & Es & -> & _). unfold ewah_each_bit.
  rewrite <- positions_filter. pose proof (length_enc ss). apply (each_loop e ss _ _ _ _ tl); try done; unfold len in *; lia.
Qed.
End Visit.

(** ** The union of several bitmaps *)

(** Advancing every iterator: the or of the words, and whether there was one. *)
Definition or_heads (Ws : list (list Z)) : Z := foldl (fun a W => a |. default 0 (head W)) 0 Ws.
Definition some_head (Ws : list (list Z)) : bool := existsb (fun W => match W with [] => false | _ => true end) Ws.

Lemma or_next_loop k : forall fuel its nr i out ret Ws, Forall2 it_ok (drop (Z.to_nat i) its) Ws -> nr = len its ->
  0 <= i -> nr - i = Z.of_nat k -> (k < fuel)%nat ->
  total (loop fuel (or_next_step nr) (its, i, out, ret)) (fun '(its', out', ret') =>
    take (Z.to_nat i) its' = take (Z.to_nat i) its /\ len its' = len its /\
    Forall2 it_ok (drop (Z.to_nat i) its') (tail <$> Ws) /\
    out' = foldl (fun a W => a |. default 0 (head W)) out Ws /\ ret' = ret || some_head Ws).
Proof.
  induction k as [|k IH]; intros fuel its nr i out ret Ws Hok Hn Hi Hk Hf; (destruct fuel as [|fuel]; [lia|]);
    rewrite loop_S; unfold or_next_step at 1.
  { destruct (Z.ltb_spec i nr); [lia|]. cbn [wp]. rewrite drop_ge in Hok by llia. apply Forall2_nil_inv_l in Hok as ->.
    rewrite drop_ge by llia. by rewrite orb_false_r. }
  destruct (Z.ltb_spec i nr); [|lia]. destruct (lookup_lt_is_Some_2 its (Z.to_nat i)) as [it Hit]; [llia|].
  rewrite (rd_Some its i it) by done. cbn [mbind res_bind]. rewrite (drop_S _ _ _ Hit) in Hok.
  apply Forall2_cons_inv_l in Hok as (W & Ws' & Hw & Hok & ->).
  pose proof (ewah_iterator_next_spec it W Hw) as Hr. destruct (ewah_iterator_next it) as [[it' r]|]; [|done].
  cbn [mbind res_bind wp] in Hr |- *. rewrite wr_ok by llia. cbn [mbind res_bind].
  assert (forall out ret, total (loop fuel (or_next_step nr) (<[Z.to_nat i := it']> its, i + 1, out, ret))
    (fun '(its', out', ret') => take (Z.to_nat i) its' = take (Z.to_nat i) its /\ len its' = len its /\
      (exists its2, drop (Z.to_nat i) its' = it' :: its2 /\ Forall2 it_ok its2 (tail <$> Ws')) /\
      out' = foldl (fun a W => a |. default 0 (head W)) out Ws' /\ ret' = ret || some_head Ws')) as Hrec.
  { intros out1 ret1. replace (S (Z.to_nat i)) with (Z.to_nat (i + 1)) in Hok by lia.
    eapply wp_mono; [apply (IH fuel (<[Z.to_nat i := it']> its) nr (i + 1) out1 ret1 Ws')|]; rewrite ?len_insert; try lia.
    { rewrite drop_insert_lt by lia. done. }
    intros [[its' out'] ret'] (T1 & T2 & T3 & T4 & T5).
    replace (Z.to_nat (i + 1)) with (S (Z.to_nat i)) in T1, T3 by lia.
    assert (its' !! Z.to_nat i = Some it') as Hl.
    { rewrite <- (lookup_take_lt its' (S (Z.to_nat i))), T1, lookup_take_lt, list_lookup_insert_eq by llia. done. }
    split_and!; try done.
    - apply (f_equal (take (Z.to_nat i))) in T1. rewrite !take_take, Nat.min_l, take_insert_ge in T1 by lia. done.
    - exists (drop (S (Z.to_nat i)) its'). split; [by apply drop_S|done]. }
  destruct W as [|w W]; destruct Hr as [Hit' ->].
  - eapply wp_mono; [apply Hrec|]. intros [[its' out'] ret'] (T1 & T2 & (its2 & T3 & T3') & T4 & T5).
    split_and!; try done. + rewrite T3. cbn [fmap list_fmap tail]. constructor; [by subst|done].
    + rewrite T4. cbn [foldl head default]. by rewrite Z.lor_0_r.
  - eapply wp_mono; [apply Hrec|]. intros [[its' out'] ret'] (T1 & T2 & (its2 & T3 & T3') & T4 & T5).
    split_and!; try done. + rewrite T3. cbn [fmap list_fmap tail]. by constructor.
    + rewrite T5. cbn [some_head existsb orb]. by rewrite orb_true_r.
Qed.

Lemma ewah_or_iterator_next_spec its Ws : Forall2 it_ok its Ws ->
  total (ewah_or_iterator_next its (len its)) (fun '(its', out, ret) =>
    Forall2 it_ok its' (tail <$> Ws) /\ out = or_heads Ws /\ ret = some_head Ws).
Proof.
  intros Hok. unfold ewah_or_iterator_next. pose proof (len_nonneg its).
  eapply wp_mono; [apply (or_next_loop (Z.to_nat (len its)) _ its (len its) 0 0 false Ws); (done || lia)|].
  intros [[its' out] ret] (_ & _ & R1 & R2 & R3). done.
Qed.

(** ** Building a bitmap bit by bit *)

Fixpoint ewah_set_all `{Memory} (junk : Z) (ps : list Z) (e : ewah_bitmap) : res ewah_bitmap :=
  match ps with [] => Ok e | p :: ps => e ← ewah_set junk e p; ewah_set_all junk ps e end.

Lemma set_all_spec `{Memory} junk ps : forall e W, set_inv e W -> StronglySorted Z.lt ps ->
  Forall (fun p => bit_size e <= p < 2 ^ 44) ps ->
  wp oom (ewah_set_all junk ps e) (fun e' => exists W', rep e' W' /\
    forall p, 0 <= p -> bit W' p = bit W p || bool_decide (p ∈ ps)).
Proof.
  induction ps as [|q ps IH]; intros e W Hinv Hs Hb; cbn [ewah_set_all].
  { exists W. split; [by destruct Hinv|]. intros p _. by rewrite orb_false_r. }
  apply StronglySorted_inv in Hs as [Hs Hq]. apply Forall_cons in Hb as [Hqb Hb].
  apply wp_bind. eapply wp_mono; [by apply (ewah_set_spec junk e W q)|]. intros e1 (W1 & Hinv1 & Hb1 & Hbit1).
  eapply wp_mono; [apply (IH e1 W1 Hinv1 Hs)|].
  - rewrite Forall_forall in Hq, Hb. apply Forall_forall. intros p Hp. specialize (Hq p Hp). specialize (Hb p Hp). lia.
  - intros e' (W' & Hrep & Hbits). exists W'. split; [done|]. intros p Hp. rewrite Hbits, Hbit1 by done.
    rewrite <- orb_assoc. f_equal. destruct (Z.eqb_spec p q) as [->|Hne]; cbn [orb].
    + symmetry. apply bool_decide_eq_true_2. by left.
    + apply bool_decide_ext. rewrite elem_of_cons. naive_solver.
Qed.

Lemma sorted_elem_of_eq (l k : list Z) : StronglySorted Z.lt l -> StronglySorted Z.lt k ->
  (forall x, x ∈ l <-> x ∈ k) -> l = k.
Proof.
  revert k. induction l as [|x l IH]; intros [|y k] Hl Hk He.
  - done.
  - exfalso. by apply (not_elem_of_nil y), He; left.
  - exfalso. by apply (not_elem_of_nil x), He; left.
  - apply StronglySorted_inv in Hl as [Hl Hx]. apply StronglySorted_inv in Hk as [Hk Hy].
    rewrite Forall_forall in Hx, Hy. setoid_rewrite elem_of_cons in He.
    assert (x = y) as <-.
    { destruct (He x) as [[?|Hxk]%(fun f => f (or_introl eq_refl)) _]; [done|].
      destruct (He y) as [_ [?|Hyl]%(fun f => f (or_introl eq_refl))]; [done|].
      specialize (Hx y Hyl). specialize (Hy x Hxk). lia. }
    f_equal. apply IH; [done..|]. intros z. specialize (He z). split; intros Hz.
    + destruct He as [[->|?] _]; [by right|specialize (Hx x Hz); lia|done].
    + destruct He as [_ [->|?]]; [by right|specialize (Hy x Hz); lia|done].
Qed.

Lemma seqZ_sorted m n : StronglySorted Z.lt (seqZ m n).
Proof.
  destruct (Z_lt_le_dec n 0); [by rewrite seqZ_nil by lia; constructor|].
  rewrite <- (Z2Nat.id n) by done. generalize (Z.to_nat n) as k. clear. intros k. revert m.
  induction k as [|k IH]; intros m; [constructor|]. rewrite seqZ_cons by lia.
  replace (Z.pred (Z.of_nat (S k))) with (Z.of_nat k) by lia. constructor; [apply IH|].
  apply Forall_forall. intros x Hx%elem_of_seqZ. lia.
Qed.

Lemma filter_lt_sorted (P : Z -> Prop) `{!forall x, Decision (P x)} l : StronglySorted Z.lt l -> StronglySorted Z.lt (filter P l).
Proof.
  induction 1 as [|x l Hs IH Hx]; [constructor|]. rewrite filter_cons. destruct (decide (P x)); [|done].
  constructor; [done|]. apply Forall_forall. intros y [_ Hy]%list_elem_of_filter. rewrite Forall_forall in Hx. by apply Hx.
Qed.

Lemma visit_collect l acc : visit (fun q acc => Ok (acc ++ [q])) l acc = Ok (acc ++ l).
Proof.
  revert acc. induction l as [|x l IH]; intros acc; cbn [visit]; [by rewrite app_nil_r|].
  cbn [mbind res_bind]. by rewrite IH, <- app_assoc.
Qed.

(** A compressed bitmap built by [ewah_set] from any increasing positions
    contains exactly these: [ewah_each_bit] calls back with them, in order.
    None of the assertions of [ewah_set] and of the functions it calls fails, and
    no access leaves the buffer. *)
Theorem ewah_set_each_bit `{Memory} junk ps :
  StronglySorted Z.lt ps -> Forall (fun p => 0 <= p < 2 ^ 44) ps ->
  wp oom (e ← ewah_new junk; e ← ewah_set_all junk ps e; ewah_each_bit (fun q acc => Ok (acc ++ [q])) e [])
    (fun r => r = ps).
Proof.
  intros Hs Hb. apply wp_bind. eapply wp_mono; [apply ewah_new_spec|]. intros e (Hrep & Hbs & Hsz).
  apply wp_bind. eapply wp_mono.
  { apply (set_all_spec junk ps e []); [|done|by rewrite Hbs]. constructor; rewrite ?Hbs, ?Hsz; try done.
    intros p Hp. apply bit_over. change (len []) with 0. lia. }
  intros e' (W & Hrep' & Hbits). rewrite (ewah_each_bit_spec _ _ _ _ Hrep'), visit_collect. cbn [wp app].
  apply sorted_elem_of_eq; [apply filter_lt_sorted, seqZ_sorted|done|].
  intros x. rewrite list_elem_of_filter, elem_of_seqZ. rewrite Forall_forall in Hb. split.
  - intros [Hx Hr]. rewrite Hbits in Hx by lia. rewrite bit_over in Hx by (change (len []) with 0; lia).
    by apply bool_decide_eq_true in Hx.
  - intros Hx. pose proof (Hb x Hx). assert (bit W x = true) as Hbx.
    { rewrite Hbits by lia. apply orb_true_iff. right. by apply bool_decide_eq_true. }
    split; [done|]. destruct (Z_lt_le_dec x (64 * len W)); [lia|]. rewrite bit_over in Hbx by lia. done.
Qed.

Lemma ewah_set_each_bit_witness :
  wp (@oom plenty) (e ← @ewah_new plenty 7; e ← @ewah_set_all plenty 7 [1; 76; 77; 700] e;
    ewah_each_bit (fun q acc => Ok (acc ++ [q])) e []) (fun r => r = [1; 76; 77; 700]).
Proof. apply (@ewah_set_each_bit plenty 7 [1; 76; 77; 700]); repeat constructor; lia. Defined.
