(* ===== verification/EwahXor.v ===== *)
(** * Exclusive or of compressed bitmaps: [ewah/ewah_rlw.c], [ewah/ewah_bitmap.c]

    The iterator over run-length words, with [int] fields as in the code, the
    transfer of its words into another bitmap, and [ewah_xor]. *)

From stdpp Require Import prelude numbers list.
From S2P Require Import Prelude PatchDelta Alloc Bswap EwahRlw Ewah EwahIter.

(** [word] is an index into the buffer. *)
Record rlw_iterator := mkRit {
  rit_buffer : list Z; rit_size : Z; rit_pointer : Z; literal_word_start : Z;
  rw_word : Z; literal_words : Z; running_len : Z; literal_word_offset : Z; running_bit : Z }.

(** Returns the iterator and whether there was a word. *)
Definition next_word (it : rlw_iterator) : res (rlw_iterator * bool) :=
  if rit_size it <=? rit_pointer it then Ok (it, false)
  else
    word ← rd (rit_buffer it) (rit_pointer it);
    Ok (mkRit (rit_buffer it) (rit_size it) (u64 (rit_pointer it + u64 (rlw_get_literal_words word + 1)))
          (literal_word_start it) (rit_pointer it)
          (to_int (rlw_get_literal_words word)) (to_int (rlw_get_running_len word)) 0 (to_int (rlw_get_run_bit word)), true).

(** The sum of two [int]s, which must not overflow. *)
Definition rlwit_word_size (it : rlw_iterator) : res Z :=
  let s := running_len it + literal_words it in
  if (s <? - 2 ^ 31) || (2 ^ 31 <=? s) then Fault UB else Ok (u64 s).

Definition rlwit_literal_words (it : rlw_iterator) : Z := u64 (rit_pointer it - u64 (literal_words it)).

Definition set_start (it : rlw_iterator) : rlw_iterator :=
  mkRit (rit_buffer it) (rit_size it) (rit_pointer it) (u64 (rlwit_literal_words it + u64 (literal_word_offset it)))
    (rw_word it) (literal_words it) (running_len it) (literal_word_offset it) (running_bit it).

(** [it0]: what the iterator held before. *)
Definition rlwit_init (it0 : rlw_iterator) (from_ewah : ewah_bitmap) : res rlw_iterator :=
  let it := mkRit (ew_buffer from_ewah) (buffer_size from_ewah) 0 (literal_word_start it0)
    (rw_word it0) (literal_words it0) (running_len it0) (literal_word_offset it0) (running_bit it0) in
  '(it, _) ← next_word it;
  Ok (set_start it).

Definition set_run (it : rlw_iterator) (n : Z) : rlw_iterator :=
  mkRit (rit_buffer it) (rit_size it) (rit_pointer it) (literal_word_start it)
    (rw_word it) (literal_words it) n (literal_word_offset it) (running_bit it).

Definition discard_step (st : rlw_iterator * Z) : res (rlw_iterator * Z + rlw_iterator) :=
  let '(it, x) := st in
  if 0 <? x then
    if x <? u64 (running_len it) then Ok (inr (set_run it (to_int (u64 (u64 (running_len it) - x)))))
    else
      let x := u64 (x - u64 (running_len it)) in
      let it := set_run it 0 in
      let discard := if u64 (literal_words it) <? x then u64 (literal_words it) else x in
      let it := mkRit (rit_buffer it) (rit_size it) (rit_pointer it) (u64 (literal_word_start it + discard))
        (rw_word it) (to_int (u64 (u64 (literal_words it) - discard))) (running_len it) (literal_word_offset it) (running_bit it) in
      let x := x - discard in
      stop ← (if 0 <? x then Ok true else s ← rlwit_word_size it; Ok (s =? 0));
      if stop : bool then
        '(it, more) ← next_word it;
        if more : bool then Ok (inl (set_start it, x)) else Ok (inr it)
      else Ok (inl (it, x))
  else Ok (inr it).

(** Enough iterations for the words that are left in the buffer. *)
Definition rit_fuel (it : rlw_iterator) : nat := S (3 + 3 * Z.to_nat (rit_size it - rit_pointer it)).

Definition rlwit_discard_first_words (it : rlw_iterator) (x : Z) : res rlw_iterator :=
  loop (rit_fuel it) discard_step (it, x).

Section Code.
Context `{Memory} (junk : Z).

Definition discharge_step (max negate : Z) (st : rlw_iterator * ewah_bitmap * Z)
    : res (rlw_iterator * ewah_bitmap * Z + rlw_iterator * ewah_bitmap * Z) :=
  let '(it, out, index) := st in
  go ← (if index <? max then s ← rlwit_word_size it; Ok (0 <? s) else Ok false);
  if go : bool then
    let pl := u64 (running_len it) in
    let pl := if max <? u64 (index + pl) then u64 (max - index) else pl in
    '(out, _) ← ewah_add_empty_words junk out (Z.lxor (running_bit it) negate) pl;
    let index := u64 (index + pl) in
    let pd := u64 (literal_words it) in
    let pd := if max <? u64 (pd + index) then u64 (max - index) else pd in
    out ← ewah_add_dirty_words junk out (rit_buffer it) (literal_word_start it) pd (tr negate);
    it ← rlwit_discard_first_words it (u64 (pd + pl));
    Ok (inl (it, out, u64 (index + pd)))
  else Ok (inr st).

(** Returns the iterator, [out] and [index]. *)
Definition rlwit_discharge (it : rlw_iterator) (out : ewah_bitmap) (max negate : Z) : res (rlw_iterator * ewah_bitmap * Z) :=
  loop (rit_fuel it) (discharge_step max negate) (it, out, 0).

(** [!!x]. *)
Definition not_not (x : Z) : Z := Z.b2z (tr x).

(** One round of the inner loop, with [prey] and [predator]. *)
Definition prey_step (prey predator : rlw_iterator) (out : ewah_bitmap) : res (rlw_iterator * rlw_iterator * ewah_bitmap) :=
  let negate_words := not_not (running_bit predator) in
  '(prey, out, index) ← rlwit_discharge prey out (u64 (running_len predator)) negate_words;
  '(out, _) ← ewah_add_empty_words junk out negate_words (u64 (u64 (running_len predator) - index));
  predator ← rlwit_discard_first_words predator (u64 (running_len predator));
  Ok (prey, predator, out).

Definition runs_step (st : rlw_iterator * rlw_iterator * ewah_bitmap)
    : res (rlw_iterator * rlw_iterator * ewah_bitmap + rlw_iterator * rlw_iterator * ewah_bitmap) :=
  let '(i, j, out) := st in
  if (0 <? running_len i) || (0 <? running_len j) then
    if running_len i <? running_len j then
      '(i, j, out) ← prey_step i j out; Ok (inl (i, j, out))
    else
      '(j, i, out) ← prey_step j i out; Ok (inl (i, j, out))
  else Ok (inr st).

Definition xor_lits_step (i j : rlw_iterator) (literals : Z) (st : ewah_bitmap * Z) : res (ewah_bitmap * Z + ewah_bitmap) :=
  let '(out, k) := st in
  if k <? literals then
    x ← rd (rit_buffer i) (u64 (literal_word_start i + k));
    y ← rd (rit_buffer j) (u64 (literal_word_start j + k));
    '(out, _) ← ewah_add junk out (x ^. y);
    Ok (inl (out, k + 1))
  else Ok (inr out).

Definition xor_fuel (i j : rlw_iterator) : nat := rit_fuel i + rit_fuel j.

Definition xor_step (fuel : nat) (st : rlw_iterator * rlw_iterator * ewah_bitmap)
    : res (rlw_iterator * rlw_iterator * ewah_bitmap + rlw_iterator * rlw_iterator * ewah_bitmap) :=
  let '(i, j, out) := st in
  si ← rlwit_word_size i;
  go ← (if 0 <? si then sj ← rlwit_word_size j; Ok (0 <? sj) else Ok false);
  if go : bool then
    '(i, j, out) ← loop fuel runs_step (i, j, out);
    let literals := min_size (u64 (literal_words i)) (u64 (literal_words j)) in
    if tr literals then
      out ← loop (S (Z.to_nat literals)) (xor_lits_step i j literals) (out, 0);
      i ← rlwit_discard_first_words i literals;
      j ← rlwit_discard_first_words j literals;
      Ok (inl (i, j, out))
    else Ok (inl (i, j, out))
  else Ok (inr st).

Definition ewah_xor (it0 : rlw_iterator) (ewah_i ewah_j out : ewah_bitmap) : res ewah_bitmap :=
  i ← rlwit_init it0 ewah_i;
  j ← rlwit_init it0 ewah_j;
  '(i, j, out) ← loop (xor_fuel i j) (xor_step (xor_fuel i j)) (i, j, out);
  si ← rlwit_word_size i;
  out ← (if 0 <? si then '(_, out, _) ← rlwit_discharge i out (u64 (-1)) 0; Ok out
         else '(_, out, _) ← rlwit_discharge j out (u64 (-1)) 0; Ok out);
  Ok (set_bit_size out (max_size (bit_size ewah_i) (bit_size ewah_j))).
End Code.

(** ** The words left in an iterator *)

Record rit_ok (it : rlw_iterator) (b : bool) (run : Z) (lits : list Z) (rest : list seg) (tl : list Z) : Prop := {
  ri_start : 0 <= literal_word_start it;
  ri_drop : drop (Z.to_nat (literal_word_start it)) (rit_buffer it) = lits ++ enc rest ++ tl;
  ri_ptr : rit_pointer it = literal_word_start it + len lits;
  ri_size : rit_size it = rit_pointer it + len (enc rest);
  ri_bound : rit_size it < 2 ^ 62;
  ri_len : rit_size it <= len (rit_buffer it);
  ri_lits : literal_words it = len lits;
  ri_run : running_len it = run;
  ri_bit : running_bit it = Z.b2z b;
  ri_pos : 0 <= run;
  ri_rest : Forall seg_ok rest;
  ri_full : Forall seg_full rest;
  ri_words : Forall is_word lits;
  ri_norm : 0 < run + len lits \/ rest = [];
}.

Definition rit_words (b : bool) (run : Z) (lits : list Z) (rest : list seg) : list Z :=
  replicate (Z.to_nat run) (fill b) ++ lits ++ words rest.

(** Decreases with every run and every stretch of literals that is used up. *)
Definition rit_mu (run : Z) (lits : list Z) (rest : list seg) : nat :=
  (3 * length rest + (if (0 <? run)%Z then 1 else 0) + (if (0 <? len lits)%Z then 1 else 0))%nat.

Lemma len_words_cons s rest : seg_ok s -> len (words (s :: rest)) = s_run s + len (s_lits s) + len (words rest).
Proof. intros Hs. rewrite words_cons, !len_app, len_replicate by (destruct Hs; lia). lia. Qed.

Lemma len_rit_words b run lits rest : 0 <= run -> len (rit_words b run lits rest) = run + len lits + len (words rest).
Proof. intros Hr. unfold rit_words. rewrite !len_app, len_replicate by lia. lia. Qed.

Lemma word_size_ok it b run lits rest tl : rit_ok it b run lits rest tl ->
  len (rit_words b run lits rest) < 2 ^ 31 -> rlwit_word_size it = Ok (run + len lits).
Proof.
  intros Ho Hw. destruct Ho. rewrite len_rit_words in Hw by done. pose proof (len_nonneg (words rest)). pose proof (len_nonneg lits).
  unfold rlwit_word_size. rewrite ri_run0, ri_lits0. destruct (Z.ltb_spec (run + len lits) (- 2 ^ 31)); [lia|].
  destruct (Z.leb_spec (2 ^ 31) (run + len lits)); [lia|]. cbn [orb]. by rewrite u64_small by lia.
Qed.

(** Loading the next segment. *)
Lemma next_word_ok it s rest tl : 0 <= rit_pointer it -> drop (Z.to_nat (rit_pointer it)) (rit_buffer it) = enc (s :: rest) ++ tl ->
  rit_size it = rit_pointer it + len (enc (s :: rest)) -> rit_size it < 2 ^ 62 -> Forall seg_ok (s :: rest) -> Forall seg_full rest ->
  seg_full s \/ rest = [] -> s_run s < 2 ^ 31 ->
  exists it', next_word it = Ok (it', true) /\ rit_ok (set_start it') (s_bit s) (s_run s) (s_lits s) rest tl /\
    rit_size (set_start it') = rit_size it /\ rit_buffer (set_start it') = rit_buffer it.
Proof.
  intros Hp Hd Hs Hb Hok Hf Hn Hr. apply Forall_cons in Hok as [Hs1 Hok]. pose proof Hs1 as [Hrun Hlits Hw].
  destruct s as [b rl lits]. cbn [s_run s_lits s_bit] in *. rewrite enc_cons in Hd, Hs. unfold seg_rlw in Hd.
  cbn [s_run s_lits s_bit app] in *. rewrite len_cons, len_app in Hs. pose proof (len_nonneg lits). pose proof (len_nonneg (enc rest)).
  assert (rit_size it <= len (rit_buffer it)) as Hbl.
  { apply (f_equal len) in Hd. rewrite len_cons, !len_app in Hd. pose proof (len_nonneg tl).
    unfold len in Hd at 1. rewrite length_drop in Hd. llia. }
  unfold next_word. destruct (Z.leb_spec (rit_size it) (rit_pointer it)); [lia|].
  rewrite (rd_drop_head _ _ _ _ Hp Hd). cbn [mbind res_bind]. rewrite get_literal_words, get_running_len, get_run_bit by lia.
  rewrite !to_int_small by (destruct b; simpl; lia). eexists. split; [done|]. split; [|done].
  rewrite (u64_small (len lits + 1)), u64_small by lia.
  apply (drop_next _ _ _ _ Hp) in Hd as Hd1. rewrite <- app_assoc in Hd1.
  assert (u64 (u64 (rit_pointer it + (len lits + 1) - u64 (len lits)) + u64 0) = rit_pointer it + 1) as Est.
  { rewrite (u64_small 0), (u64_small (len lits)), Z.add_0_r, !u64_small by (rewrite ?u64_small; lia). lia. }
  constructor; unfold set_start, rlwit_literal_words; cbn [rit_buffer rit_size rit_pointer literal_word_start literal_words running_len literal_word_offset running_bit]; rewrite ?Est; try (done || lia).
Qed.

(** [it] has the words [W] left, with measure [m]. *)
Definition rit_rep (it : rlw_iterator) (W : list Z) (m : nat) : Prop :=
  exists b run lits rest tl, rit_ok it b run lits rest tl /\ W = rit_words b run lits rest /\ m = rit_mu run lits rest.

(** Used up: the first run, or the first literals when there is no run. *)
Definition first_block (it : rlw_iterator) : Z := if 0 <? running_len it then running_len it else literal_words it.

Lemma full_run s : seg_full s -> seg_ok s -> 0 < s_run s + len (s_lits s).
Proof. done. Qed.

Lemma mu_next run lits rest run' lits' : (rit_mu run' lits' rest < rit_mu run lits (mkSeg false 0 [] :: rest))%nat.
Proof. unfold rit_mu. simpl length. cases_Z; lia. Qed.

Lemma discard_loop k : forall fuel it W m x, rit_rep it W m -> len W < 2 ^ 31 -> 0 <= x < 2 ^ 63 -> (m < k)%nat -> (k < fuel)%nat ->
  total (loop fuel discard_step (it, x)) (fun it' => exists m', rit_rep it' (drop (Z.to_nat x) W) m' /\ (m' <= m)%nat /\
    rit_size it' = rit_size it /\ rit_buffer it' = rit_buffer it /\
    (0 < x -> first_block it <= x -> W <> [] -> (m' < m)%nat)).
Proof.
  induction k as [|k IH]; [lia|]. intros fuel it W m x (b & run & lits & rest & tl & Ho & -> & ->) HW Hx Hm Hf.
  destruct fuel as [|fuel]; [lia|]. rewrite loop_S. unfold discard_step at 1.
  destruct (Z.ltb_spec 0 x) as [Hx0|Hx0].
  2:{ assert (x = 0) as -> by lia. cbn [wp]. change (Z.to_nat 0) with 0%nat. rewrite drop_0.
      eexists. split; [by exists b, run, lits, rest, tl|]. split_and!; (done || lia). }
  pose proof Ho as [O1 O2 O3 O4 O5 O5' O6 O7 O8 O9 O10 O11 O12 O13].
  rewrite len_rit_words in HW by done. pose proof (len_nonneg lits). pose proof (len_nonneg (words rest)). pose proof (len_nonneg (enc rest)).
  rewrite O7, (u64_small run) by lia. destruct (Z.ltb_spec x run) as [Hxr|Hxr].
  { cbn [wp]. rewrite u64_small, to_int_small by (rewrite ?u64_small; lia). exists (rit_mu (run - x) lits rest). split_and!; try done.
    - exists b, (run - x), lits, rest, tl. split_and!; [|unfold rit_words|done].
      + constructor; cbn [set_run rit_buffer rit_size rit_pointer literal_word_start literal_words running_len running_bit]; (done || lia || auto).
      + rewrite drop_app_le by (rewrite length_replicate; lia). rewrite drop_replicate. do 2 f_equal. lia.
    - unfold rit_mu. cases_Z; lia.
    - unfold first_block. rewrite O7. destruct (Z.ltb_spec 0 run); lia. }
  set (x1 := x - run). rewrite (u64_small x1) by (unfold x1; lia). cbn [set_run literal_words running_len rit_buffer rit_size
    rit_pointer literal_word_start rw_word literal_word_offset running_bit]. rewrite O6, (u64_small (len lits)) by lia.
  set (dis := if len lits <? x1 then len lits else x1).
  assert (0 <= dis <= x1 /\ dis <= len lits /\ (dis < x1 -> dis = len lits)) as (Hd1 & Hd2 & Hd3).
  { unfold dis. destruct (Z.ltb_spec (len lits) x1); unfold x1 in *; lia. }
  rewrite (u64_small (len lits - dis)), to_int_small, (u64_small (literal_word_start it + dis)) by (unfold x1 in *; lia).
  set (it1 := mkRit _ _ _ _ _ _ _ _ _). set (lits1 := drop (Z.to_nat dis) lits).
  assert (len lits1 = len lits - dis) as Hl1 by (unfold lits1, len in *; rewrite length_drop; lia).
  assert (drop (Z.to_nat x) (rit_words b run lits rest) = drop (Z.to_nat (x1 - dis)) (lits1 ++ words rest)) as Edrop.
  { unfold rit_words. rewrite drop_app_ge by (rewrite length_replicate; lia). rewrite length_replicate.
    replace (Z.to_nat x - Z.to_nat run)%nat with (Z.to_nat dis + Z.to_nat (x1 - dis))%nat by (unfold x1 in *; lia).
    rewrite <- drop_drop. f_equal. rewrite drop_app_le by llia. done. }
  assert (drop (Z.to_nat (literal_word_start it + dis)) (rit_buffer it) = lits1 ++ enc rest ++ tl) as Eb.
  { rewrite Z2Nat.inj_add by lia. rewrite <- drop_drop, O2. rewrite drop_app_le by llia. done. }
  assert (lits1 <> [] \/ rest = [] -> rit_ok it1 b 0 lits1 rest tl) as Ho1.
  { intros Hne. constructor; cbn [it1 rit_buffer rit_size rit_pointer literal_word_start literal_words running_len running_bit]; try (done || lia).
    - by apply Forall_drop.
    - destruct Hne as [Hne|]; [left|by right]. destruct lits1; [done|]. rewrite len_cons. pose proof (len_nonneg lits1). lia. }
  assert (rlwit_word_size it1 = Ok (len lits1)) as Ews.
  { unfold rlwit_word_size. cbn [it1 running_len literal_words]. rewrite <- Hl1, Z.add_0_l.
    destruct (Z.ltb_spec (len lits1) (- 2 ^ 31)); [lia|]. destruct (Z.leb_spec (2 ^ 31) (len lits1)); [lia|].
    cbn [orb]. by rewrite u64_small by lia. }
  rewrite Ews. cbn [mbind res_bind].
  assert ((if 0 <? x1 - dis then Ok true else Ok (len lits1 =? 0)) = Ok ((0 <? x1 - dis) || (len lits1 =? 0))) as ->.
  { by destruct (0 <? x1 - dis). }
  cbn [mbind res_bind]. rewrite Edrop. destruct ((0 <? x1 - dis) || (len lits1 =? 0)) eqn:Estop.
  - assert (lits1 = []) as El1.
    { apply len_0_nil. destruct (Z.ltb_spec 0 (x1 - dis)); [rewrite Hl1, Hd3 by lia; lia|]. by apply Z.eqb_eq. }
    rewrite El1 in *. change (len (@nil Z)) with 0 in *. cbn [app] in *. destruct rest as [|s rest].
    + unfold next_word. cbn [it1 rit_size rit_pointer]. change (len (enc [])) with 0 in O4.
      destruct (Z.leb_spec (rit_size it) (rit_pointer it)); [|lia]. cbn [mbind res_bind wp].
      exists 0%nat. split_and!; try (done || lia).
      * exists b, 0, [], [], tl. split_and!; [apply Ho1; by right|change (words []) with (@nil Z); by rewrite drop_nil|done].
      * intros _ _ Hne. unfold rit_mu. cbn [length]. unfold rit_words in Hne. cases_Z; try lia.
        exfalso. apply Hne. assert (lits = []) as -> by (apply len_0_nil; lia).
        replace (Z.to_nat run) with 0%nat by lia. done.
    + pose proof O10 as Hso. apply Forall_cons in Hso as [Hso _]. rewrite len_words_cons in HW by done.
      pose proof (len_nonneg (words rest)). pose proof (len_nonneg (s_lits s)).
      apply Forall_cons in O11 as [Hsf O11].
      destruct (next_word_ok it1 s rest tl) as (it2 & -> & Ho2 & Es2 & Eb2); try done; try (cbn [it1 rit_pointer rit_size rit_buffer]; lia).
      { cbn [it1 rit_pointer rit_buffer]. rewrite O3. by replace (len lits) with dis by lia. }
      { by left. }
      cbn [mbind res_bind]. eapply wp_mono.
      { apply (IH fuel (set_start it2) (words (s :: rest)) (rit_mu (s_run s) (s_lits s) rest) (x1 - dis)); try lia.
        - exists (s_bit s), (s_run s), (s_lits s), rest, tl. split_and!; [done|by rewrite words_cons|done].
        - rewrite len_words_cons by done. lia.
        - pose proof (mu_next run lits rest (s_run s) (s_lits s)) as Hmu. unfold rit_mu in *. simpl length in *. lia. }
      pose proof (mu_next run lits rest (s_run s) (s_lits s)) as Hmu.
      intros it' (m' & R1 & R2 & R3 & R4 & _). exists m'.
      change (rit_mu run lits (s :: rest)) with (rit_mu run lits (mkSeg false 0 [] :: rest)).
      split_and!; [done|lia|by rewrite R3, Es2|by rewrite R4, Eb2|lia].
  - apply orb_false_iff in Estop as [E1 E2]. apply Z.ltb_ge in E1. apply Z.eqb_neq in E2.
    destruct fuel as [|fuel]; [lia|]. rewrite loop_S. unfold discard_step at 1.
    destruct (Z.ltb_spec 0 (x1 - dis)); [lia|]. cbn [wp]. exists (rit_mu 0 lits1 rest).
    replace (Z.to_nat (x1 - dis)) with 0%nat by lia. rewrite drop_0.
    assert (lits1 <> []) as Hne1 by (intros ->; by apply E2).
    split_and!; try done.
    + exists b, 0, lits1, rest, tl. split_and!; [apply Ho1; by left|done|done].
    + unfold rit_mu. cases_Z; lia.
    + intros _ Hfb _. unfold first_block in Hfb. rewrite O7, O6 in Hfb. unfold rit_mu.
      destruct (Z.ltb_spec 0 run); [cases_Z; lia|]. exfalso. unfold x1 in *. lia.
Qed.

Lemma rit_fuel_ok it W m : rit_rep it W m -> (m + 1 < rit_fuel it)%nat.
Proof.
  intros (b & run & lits & rest & tl & Ho & _ & ->). destruct Ho. unfold rit_fuel, rit_mu.
  replace (rit_size it - rit_pointer it) with (len (enc rest)) by lia. pose proof (length_enc rest).
  unfold len at 2. rewrite Nat2Z.id. cases_Z; lia.
Qed.

Lemma discard_spec it W m x : rit_rep it W m -> len W < 2 ^ 31 -> 0 <= x < 2 ^ 63 ->
  total (rlwit_discard_first_words it x) (fun it' => exists m', rit_rep it' (drop (Z.to_nat x) W) m' /\ (m' <= m)%nat /\
    rit_size it' = rit_size it /\ rit_buffer it' = rit_buffer it /\
    (0 < x -> first_block it <= x -> W <> [] -> (m' < m)%nat)).
Proof. intros Hr HW Hx. pose proof (rit_fuel_ok _ _ _ Hr). apply (discard_loop (m + 1)); (done || lia). Qed.

Lemma neg_fill negate b : neg negate (fill b) = fill (xorb b negate).
Proof. by destruct negate, b. Qed.

Lemma b2z_xor a b : Z.lxor (Z.b2z a) (Z.b2z b) = Z.b2z (xorb a b).
Proof. by destruct a, b. Qed.

Lemma lits_slice it b run lits rest tl : rit_ok it b run lits rest tl -> forall n, 0 <= n <= len lits ->
  slice (rit_buffer it) (literal_word_start it) n = take (Z.to_nat n) lits /\ literal_word_start it + n <= len (rit_buffer it).
Proof.
  intros Ho n Hn. destruct Ho. split.
  - unfold slice. rewrite ri_drop0. by rewrite take_app_le by llia.
  - pose proof (len_nonneg (enc rest)). lia.
Qed.

(** What a transfer of [n] words into [out] leaves. *)
Record moved (out out' : ewah_bitmap) (V W : list Z) : Prop := {
  mv_rep : rep out' (V ++ W);
  mv_size : buffer_size out <= buffer_size out' <= buffer_size out + 2 * len W;
  mv_bits : bit_size out' = bit_size out + 64 * len W;
}.

Lemma moved_trans out out1 out2 V W1 W2 : moved out out1 V W1 -> moved out1 out2 (V ++ W1) W2 -> moved out out2 V (W1 ++ W2).
Proof. intros [A1 A2 A3] [B1 B2 B3]. constructor; [by rewrite app_assoc|rewrite len_app; lia..]. Qed.

Lemma moved_refl out V : rep out V -> moved out out V [].
Proof. intros Hr. constructor; [by rewrite app_nil_r|change (len []) with 0; lia..]. Qed.

(** Enough room in [out] for [n] words. *)
Record fits (out : ewah_bitmap) (n : Z) : Prop := {
  ft_room : buffer_size out + 2 * n + 2 <= 2 ^ 46;
  ft_bits : 0 <= bit_size out;
  ft_bits2 : bit_size out + 64 * n < 2 ^ 62;
}.

Lemma fits_moved out out' V W n : moved out out' V W -> fits out n -> fits out' (n - len W).
Proof. intros [_ A2 A3] [B1 B2 B3]. pose proof (len_nonneg W). constructor; lia. Qed.

Lemma fits_le out n n' : fits out n -> n' <= n -> fits out n'.
Proof. intros [? ? ?] ?. constructor; lia. Qed.

Section Transfer.
Context `{Memory} (junk : Z).

Lemma move_run out V (b : bool) n : rep out V -> 0 <= n < 2 ^ 40 -> fits out n ->
  wp oom (ewah_add_empty_words junk out (Z.b2z b) n) (fun '(out', _) => moved out out' V (replicate (Z.to_nat n) (fill b))).
Proof.
  intros Hr Hn [F1 F2 F3]. eapply wp_mono.
  { apply (ewah_add_empty_words_spec junk out V b n); try done; try lia. unfold room. lia. }
  intros [out' a] (R1 & R2 & R3 & R4). constructor; rewrite ?len_replicate by lia; (done || lia).
Qed.

Lemma move_lits out V negate it b run lits rest tl n : rit_ok it b run lits rest tl -> rep out V -> 0 <= n <= len lits ->
  fits out n ->
  wp oom (ewah_add_dirty_words junk out (rit_buffer it) (literal_word_start it) n negate)
    (fun out' => moved out out' V (neg negate <$> take (Z.to_nat n) lits)).
Proof.
  intros Ho Hr Hn [F1 F2 F3]. destruct (lits_slice _ _ _ _ _ _ Ho n Hn) as [Es Eb]. eapply wp_mono.
  { apply (ewah_add_dirty_words_spec junk (rit_buffer it) negate out V (literal_word_start it) n); try done; try lia.
    - rewrite Es. apply Forall_take. by destruct Ho.
    - by destruct Ho.
    - unfold room. lia. }
  rewrite Es. intros out' (R1 & R2 & R3).
  assert (len (neg negate <$> take (Z.to_nat n) lits) = n) as El.
  { unfold len in *. rewrite length_fmap, length_take. lia. }
  constructor; rewrite ?El; (done || lia).
Qed.

(** The word count that one round of [rlwit_discharge] takes from a run and literals. *)
Lemma clip_eq max index n : 0 <= n < 2 ^ 31 -> 0 <= index < 2 ^ 32 -> index <= max < 2 ^ 64 ->
  (if max <? u64 (index + n) then u64 (max - index) else n) = Z.min n (max - index).
Proof.
  intros Hn Hi Hm. rewrite u64_small by lia. destruct (Z.ltb_spec max (index + n)); [rewrite u64_small by lia|]; lia.
Qed.

Lemma take_rit_words b run lits rest n : 0 <= run -> 0 <= n ->
  let pl := Z.min run n in let pd := Z.min (len lits) (n - pl) in
  (n <= run + len lits -> take (Z.to_nat n) (rit_words b run lits rest) =
     replicate (Z.to_nat pl) (fill b) ++ take (Z.to_nat pd) lits) /\
  (run + len lits <= n -> take (Z.to_nat (pl + pd)) (rit_words b run lits rest) =
     replicate (Z.to_nat pl) (fill b) ++ take (Z.to_nat pd) lits).
Proof.
  intros Hr Hn pl pd. pose proof (len_nonneg lits). unfold rit_words.
  assert (forall m, 0 <= m <= run + len lits -> pl = Z.min run m -> pd = m - pl ->
    take (Z.to_nat m) (replicate (Z.to_nat run) (fill b) ++ lits ++ words rest) =
    replicate (Z.to_nat pl) (fill b) ++ take (Z.to_nat pd) lits) as Htk.
  { intros m Hm Hm1 ->. rewrite take_app. rewrite length_replicate. rewrite take_replicate. f_equal; [f_equal; lia|].
    rewrite take_app_le by llia. f_equal. lia. }
  split; intros Hle; apply Htk; lia.
Qed.

Lemma discharge_loop k : forall fuel it W m out V max negate index, rit_rep it W m -> rep out V -> index + len W < 2 ^ 31 ->
  fits out (len W) -> 0 <= index -> index <= max < 2 ^ 64 -> (m < k)%nat -> (k < fuel)%nat ->
  wp oom (loop fuel (discharge_step junk max (Z.b2z negate)) (it, out, index)) (fun '(it', out', index') =>
    let n := Z.min (max - index) (len W) in index' = index + n /\
    moved out out' V (neg negate <$> take (Z.to_nat n) W) /\
    (exists m', rit_rep it' (drop (Z.to_nat n) W) m' /\ (m' <= m)%nat)).
Proof.
  induction k as [|k IH]; [lia|]. intros fuel it W m out V max negate index Hit Hout HW Hfit Hi Hmax Hm Hf.
  destruct fuel as [|fuel]; [lia|]. apply wp_loop_S. unfold discharge_step at 1.
  destruct Hit as (b & run & lits & rest & tl & Ho & EW & Em). pose proof Ho as [O1 O2 O3 O4 O5 O5' O6 O7 O8 O9 O10 O11 O12 O13].
  rewrite (word_size_ok _ _ _ _ _ _ Ho) by (rewrite <- EW; lia).
  assert (len W = run + len lits + len (words rest)) as HlW by (by rewrite EW, len_rit_words).
  pose proof (len_nonneg lits). pose proof (len_nonneg (words rest)). cbn [mbind res_bind].
  assert ((if index <? max then Ok (0 <? run + len lits) else Ok false) = Ok ((index <? max) && (0 <? run + len lits))) as ->.
  { by destruct (index <? max). }
  cbn [mbind res_bind]. destruct (Z.ltb_spec index max) as [Him|Him]; cbn [andb].
  2:{ cbn [wp]. replace (max - index) with 0 by lia. rewrite Z.min_l by lia. change (Z.to_nat 0) with 0%nat.
      rewrite drop_0. cbn [take fmap list_fmap]. split_and!; [lia|by apply moved_refl|].
      exists m. split; [|done]. by exists b, run, lits, rest, tl. }
  destruct (Z.ltb_spec 0 (run + len lits)) as [Hpos|Hpos].
  2:{ cbn [wp]. destruct O13 as [|Hrest]; [lia|]. assert (W = []) as ->.
      { rewrite EW, Hrest. unfold rit_words. assert (lits = []) as -> by (apply len_0_nil; lia).
        by replace (Z.to_nat run) with 0%nat by lia. }
      change (len (@nil Z)) with 0. rewrite Z.min_r by lia. cbn [take drop fmap list_fmap].
      split_and!; [lia|by apply moved_refl|]. exists m. split; [|done]. by exists b, run, lits, rest, tl. }
  rewrite O7, O6, (u64_small run), (u64_small (len lits)) by lia. rewrite clip_eq by lia.
  set (pl := Z.min run (max - index)). rewrite O8, b2z_xor.
  apply wp_bind. eapply wp_mono; [apply (move_run out V (xorb b negate) pl Hout); [unfold pl; lia|apply (fits_le _ _ _ Hfit); unfold pl; lia]|].
  intros [out1 a] Hmv1. rewrite (u64_small (index + pl)) by (unfold pl; lia).
  rewrite (Z.add_comm (len lits)), clip_eq by (unfold pl; lia).
  set (pd := Z.min (len lits) (max - (index + pl))).
  pose proof (fits_moved _ _ _ _ _ Hmv1 Hfit) as Hfit1. rewrite len_replicate in Hfit1 by (unfold pl; lia).
  replace (tr (Z.b2z negate)) with negate by (by destruct negate).
  apply wp_bind. eapply wp_mono.
  { apply (move_lits out1 _ negate it b run lits rest tl pd Ho (mv_rep _ _ _ _ Hmv1)); [unfold pd, pl in *; lia|].
    apply (fits_le _ _ _ Hfit1). unfold pd, pl in *. lia. }
  intros out2 Hmv2. pose proof (moved_trans _ _ _ _ _ _ Hmv1 Hmv2) as Hmv. clear Hmv1 Hmv2.
  assert (0 <= pl /\ 0 <= pd /\ pl + pd <= run + len lits /\ pl + pd <= max - index) as (Hpl & Hpd & Hs1 & Hs2) by (unfold pd, pl in *; lia).
  rewrite (u64_small (pd + pl)) by lia. apply wp_bind. apply total_wp.
  eapply wp_mono; [apply (discard_spec it W m); [by exists b, run, lits, rest, tl|lia|lia]|].
  intros it1 (m1 & Hit1 & Hm1 & _ & _ & Hstrict).
  rewrite (u64_small (index + pl + pd)) by lia. cbn [wp].
  set (q := pl + pd) in *. replace (pd + pl) with q in * by (unfold q; lia). replace (index + pl + pd) with (index + q) by (unfold q; lia).
  assert (take (Z.to_nat q) W = replicate (Z.to_nat pl) (fill b) ++ take (Z.to_nat pd) lits) as Etk.
  { rewrite EW. destruct (take_rit_words b run lits rest (max - index) O9 ltac:(lia)) as [T1 T2]. fold pl in T1, T2.
    replace (max - index - pl) with (max - (index + pl)) in T1, T2 by lia. fold pd in T1, T2.
    destruct (Z_le_gt_dec (run + len lits) (max - index)); [by apply T2; lia|].
    replace q with (max - index) by (unfold q, pd, pl; lia). apply T1. lia. }
  assert (moved out out2 V (neg negate <$> take (Z.to_nat q) W)) as Hmvq.
  { rewrite Etk, fmap_app, fmap_replicate, neg_fill. done. }
  assert (len (neg negate <$> take (Z.to_nat q) W) = q) as Elq.
  { unfold len in *. rewrite length_fmap, length_take. lia. }
  pose proof (fits_moved _ _ _ _ _ Hmvq Hfit) as Hfit2. rewrite Elq in Hfit2.
  set (W1 := drop (Z.to_nat q) W) in *.
  assert (len W1 = len W - q) as HW1 by (unfold W1, len in *; rewrite length_drop; lia).
  set (n := Z.min (max - index) (len W)). set (n1 := Z.min (max - (index + q)) (len W1)).
  assert (n = q + n1) as En by (unfold n, n1; lia).
  assert (take (Z.to_nat n) W = take (Z.to_nat q) W ++ take (Z.to_nat n1) W1) as Etn.
  { unfold W1. rewrite En, Z2Nat.inj_add by lia. by rewrite take_take_drop. }
  assert (drop (Z.to_nat n) W = drop (Z.to_nat n1) W1) as Edn.
  { unfold W1. rewrite En, Z2Nat.inj_add by lia. by rewrite drop_drop. }
  assert (forall it' out' index', index' = index + q + n1 -> moved out2 out' (V ++ (neg negate <$> take (Z.to_nat q) W)) (neg negate <$> take (Z.to_nat n1) W1) ->
    (exists m', rit_rep it' (drop (Z.to_nat n1) W1) m' /\ (m' <= m1)%nat) ->
    index' = index + n /\ moved out out' V (neg negate <$> take (Z.to_nat n) W) /\
    (exists m', rit_rep it' (drop (Z.to_nat n) W) m' /\ (m' <= m)%nat)) as Hfin.
  { intros it' out' index' -> Hmv' (m' & R1 & R2). rewrite Etn, Edn, fmap_app. split_and!; [lia|by eapply moved_trans|].
    exists m'. split; [done|lia]. }
  destruct (decide (q = run + len lits)) as [Hq|Hq].
  - assert (m1 < m)%nat as Hlt.
    { apply Hstrict; [lia|unfold first_block; rewrite O7, O6; destruct (Z.ltb_spec 0 run); lia|].
      intros ->. change (len (@nil Z)) with 0 in HlW. lia. }
    eapply wp_mono.
    { apply (IH fuel it1 W1 m1 out2 (V ++ (neg negate <$> take (Z.to_nat q) W)) max negate (index + q)); try (done || lia); [by destruct Hmvq|by rewrite HW1]. }
    intros [[it' out'] index'] (R1 & R2 & R3). by apply Hfin.
  - assert (index + q = max) as Hqm by (unfold q, pd, pl in *; lia). destruct fuel as [|fuel]; [lia|].
    apply wp_loop_S. unfold discharge_step at 1. rewrite Hqm. destruct (Z.ltb_spec max max); [lia|]. cbn [mbind res_bind wp].
    assert (n1 = 0) as En1 by (unfold n1; lia). apply Hfin; [lia| |].
    + rewrite En1. change (Z.to_nat 0) with 0%nat. cbn [take fmap list_fmap]. apply moved_refl. by destruct Hmvq.
    + rewrite En1. change (Z.to_nat 0) with 0%nat. rewrite drop_0. by exists m1.
Qed.

Lemma discharge_spec it W m out V max (negate : bool) : rit_rep it W m -> rep out V -> len W < 2 ^ 31 ->
  fits out (len W) -> 0 <= max < 2 ^ 64 ->
  wp oom (rlwit_discharge junk it out max (Z.b2z negate)) (fun '(it', out', index) =>
    index = Z.min max (len W) /\ moved out out' V (neg negate <$> take (Z.to_nat index) W) /\
    (exists m', rit_rep it' (drop (Z.to_nat index) W) m' /\ (m' <= m)%nat)).
Proof.
  intros Hit Hout HW Hfit Hmax. unfold rlwit_discharge. pose proof (rit_fuel_ok _ _ _ Hit).
  eapply wp_mono; [apply (discharge_loop (m + 1) _ it W m out V max negate 0); (done || lia)|].
  intros [[it' out'] index] (R1 & R2 & R3). rewrite Z.add_0_l, Z.sub_0_r in *. by subst index.
Qed.
End Transfer.

(** ** Exclusive or of word lists *)

(** The shorter list is continued with zeroes. *)
Fixpoint xor_words (a b : list Z) : list Z :=
  match a, b with
  | [], _ => b
  | _, [] => a
  | x :: a, y :: b => (x ^. y) :: xor_words a b
  end.

Lemma xor_words_nil_r a : xor_words a [] = a.
Proof. by destruct a. Qed.

Lemma xor_words_comm a : forall b, xor_words a b = xor_words b a.
Proof.
  induction a as [|x a IH]; intros [|y b]; simpl; try done. by rewrite IH, Z.lxor_comm.
Qed.

Lemma len_xor_words a : forall b, len (xor_words a b) = Z.max (len a) (len b).
Proof.
  induction a as [|x a IH]; intros [|y b]; cbn [xor_words]; rewrite ?len_cons, ?IH; change (len (@nil Z)) with 0;
    try pose proof (len_nonneg a); try pose proof (len_nonneg b); lia.
Qed.

Lemma xor_fill_word b x : is_word x -> fill b ^. x = neg b x.
Proof.
  intros Hx. destruct b; cbn [fill neg]; [|apply Z.lxor_0_l]. unfold not64, u64, is_word in *.
  rewrite <- (Z.mod_small x (2 ^ 64)) at 1 by done. bitsolve.
Qed.

Lemma xor_run n (b : bool) Wp : forall Wq, Forall is_word Wq ->
  xor_words (replicate n (fill b) ++ Wp) Wq =
    ((neg b <$> take n Wq) ++ replicate (n - length Wq) (fill b)) ++ xor_words Wp (drop n Wq).
Proof.
  induction n as [|n IH]; intros Wq Hq; [done|]. destruct Wq as [|y Wq]; [simpl; by rewrite !xor_words_nil_r|].
  apply Forall_cons in Hq as [Hy Hq]. cbn [replicate app xor_words take drop fmap list_fmap length].
  rewrite IH, xor_fill_word by done. done.
Qed.

Lemma xor_zip l1 : forall l2 a b, length l1 = length l2 ->
  xor_words (l1 ++ a) (l2 ++ b) = zip_with Z.lxor l1 l2 ++ xor_words a b.
Proof.
  induction l1 as [|x l1 IH]; intros [|y l2] a b Hl; try done. simpl in Hl. cbn [app xor_words zip_with]. by rewrite IH by lia.
Qed.

Lemma xor_word x y : is_word x -> is_word y -> is_word (x ^. y).
Proof.
  unfold is_word. intros Hx Hy. assert (x ^. y = (x ^. y) `mod` 2 ^ 64) as ->; [|apply Z.mod_pos_bound; lia].
  rewrite <- (Z.mod_small x (2 ^ 64)), <- (Z.mod_small y (2 ^ 64)) at 1 by done. bitsolve.
Qed.

Lemma bit_nil p : 0 <= p -> bit [] p = false.
Proof. intros. apply bit_over. by change (len (@nil Z)) with 0. Qed.

Lemma bit_cons x W p : 0 <= p -> bit (x :: W) p = if p <? 64 then Z.testbit x p else bit W (p - 64).
Proof.
  intros Hp. change (x :: W) with ([x] ++ W). destruct (Z.ltb_spec p 64).
  - by rewrite bit_app_l, bit_single by (change (len [x]) with 1; lia).
  - rewrite bit_app_r by (change (len [x]) with 1; lia). by change (len [x]) with 1.
Qed.

Lemma bit_xor_words a : forall b p, 0 <= p -> bit (xor_words a b) p = xorb (bit a p) (bit b p).
Proof.
  induction a as [|x a IH]; intros [|y b] p Hp; cbn [xor_words]; rewrite ?(bit_nil p) by done.
  - done.
  - by rewrite xorb_false_l.
  - by rewrite xorb_false_r.
  - rewrite !bit_cons by done. destruct (Z.ltb_spec p 64); [by rewrite Z.lxor_spec|]. apply IH. lia.
Qed.

Lemma rit_rep_words it W m : rit_rep it W m -> Forall is_word W.
Proof.
  intros (b & run & lits & rest & tl & Ho & -> & _). destruct Ho. unfold rit_words.
  apply Forall_app; split; [apply Forall_replicate, fill_word|]. apply Forall_app; split; [done|by apply words_ok].
Qed.

Section Xor.
Context `{Memory} (junk : Z).

Lemma prey_step_spec prey predator out V Wq mq Wp mp : rit_rep prey Wq mq -> rit_rep predator Wp mp ->
  0 < running_len predator -> rep out V -> len Wq < 2 ^ 31 -> len Wp < 2 ^ 31 -> fits out (Z.max (len Wp) (len Wq)) ->
  wp oom (prey_step junk prey predator out) (fun '(prey', predator', out') => exists X Wp' Wq' mq' mp',
    xor_words Wp Wq = X ++ xor_words Wp' Wq' /\ moved out out' V X /\ rit_rep prey' Wq' mq' /\ rit_rep predator' Wp' mp' /\
    (mq' <= mq)%nat /\ (mp' < mp)%nat /\ len Wp' <= len Wp /\ len Wq' <= len Wq).
Proof.
  intros Hq Hp Hrun Hout HWq HWp Hfit. unfold prey_step. pose proof (rit_rep_words _ _ _ Hq) as Hqw.
  pose proof Hp as (b & run & lits & rest & tl & Ho & EW & Em). pose proof Ho as [_ _ _ _ _ _ _ O7 O8 O9 _ _ _ _].
  rewrite O7 in *. rewrite O8. replace (not_not (Z.b2z b)) with (Z.b2z b) by (by destruct b).
  pose proof (len_nonneg (lits ++ words rest)) as Hnn. rewrite len_app in Hnn.
  assert (run <= len Wp) as Hrl by (rewrite EW, len_rit_words by lia; lia).
  rewrite (u64_small run) by lia. apply wp_bind. eapply wp_mono.
  { apply (discharge_spec junk prey Wq mq out V run b); try done; [|lia]. apply (fits_le _ _ _ Hfit). lia. }
  intros [[prey' out1] index] (-> & Hmv1 & (mq' & Hq' & Hmq)). pose proof (len_nonneg Wq).
  set (index := Z.min run (len Wq)) in *. rewrite u64_small by (unfold index; lia).
  assert (len (neg b <$> take (Z.to_nat index) Wq) = index) as Elx.
  { unfold len in *. rewrite length_fmap, length_take. unfold index, len in *. lia. }
  pose proof (fits_moved _ _ _ _ _ Hmv1 Hfit) as Hfit1. rewrite Elx in Hfit1.
  apply wp_bind. eapply wp_mono.
  { apply (move_run junk out1 _ b (run - index) (mv_rep _ _ _ _ Hmv1)); [unfold index; lia|].
    apply (fits_le _ _ _ Hfit1). unfold index. lia. }
  intros [out2 a] Hmv2. apply wp_bind, total_wp.
  eapply wp_mono; [apply (discard_spec predator Wp mp run Hp); lia|].
  intros predator' (mp' & Hp' & Hmp & _ & _ & Hstrict). cbn [wp].
  assert (drop (Z.to_nat run) Wp = lits ++ words rest) as Ed.
  { rewrite EW. unfold rit_words. rewrite drop_app_length'; [done|by rewrite length_replicate]. }
  assert (take (Z.to_nat index) Wq = take (Z.to_nat run) Wq /\ drop (Z.to_nat index) Wq = drop (Z.to_nat run) Wq) as [Et Ed'].
  { unfold index. destruct (Z.min_spec run (len Wq)) as [[_ ->]|[? ->]]; [done|].
    unfold len in *. rewrite Nat2Z.id, !take_ge, !drop_ge by lia. done. }
  eexists _, (lits ++ words rest), (drop (Z.to_nat run) Wq), mq', mp'. split_and!.
  - rewrite EW. unfold rit_words. apply (xor_run (Z.to_nat run) b (lits ++ words rest) Wq Hqw).
  - rewrite Et in Hmv1, Hmv2. pose proof (moved_trans _ _ _ _ _ _ Hmv1 Hmv2) as Hmv.
    replace (Z.to_nat run - length Wq)%nat with (Z.to_nat (run - index)) by (unfold index, len in *; lia). done.
  - by rewrite <- Ed'.
  - by rewrite <- Ed.
  - done.
  - apply Hstrict; [lia|unfold first_block; rewrite O7; destruct (Z.ltb_spec 0 run); lia|].
    intros ->. change (len (@nil Z)) with 0 in Hrl. lia.
  - rewrite <- Ed. unfold len. rewrite length_drop. lia.
  - unfold len. rewrite length_drop. lia.
Qed.

(** [T] is what [out] will be: what it has, and what is left in [i] and [j]. *)
Definition xor_inv (T : list Z) (i j : rlw_iterator) (out : ewah_bitmap) (m : nat) : Prop :=
  exists Wi Wj mi mj V, rit_rep i Wi mi /\ rit_rep j Wj mj /\ rep out V /\ T = V ++ xor_words Wi Wj /\
    fits out (len T - len V) /\ len Wi < 2 ^ 31 /\ len Wj < 2 ^ 31 /\ m = (mi + mj)%nat.

Lemma rit_rep_run it W m : rit_rep it W m -> 0 <= running_len it /\ 0 <= literal_words it.
Proof. intros (b & run & lits & rest & tl & [] & _ & _). pose proof (len_nonneg lits). lia. Qed.

Lemma runs_loop T k : forall fuel i j out m, xor_inv T i j out m -> (m < k)%nat -> (k <= fuel)%nat ->
  wp oom (loop fuel (runs_step junk) (i, j, out)) (fun '(i', j', out') => exists m', xor_inv T i' j' out' m' /\
    running_len i' = 0 /\ running_len j' = 0 /\ (m' <= m)%nat /\
    (0 < running_len i \/ 0 < running_len j -> (m' < m)%nat) /\
    (running_len i <= 0 -> running_len j <= 0 -> i' = i /\ j' = j)).
Proof.
  induction k as [|k IH]; [lia|]. intros fuel i j out m Hinv Hm Hf. destruct fuel as [|fuel]; [lia|].
  apply wp_loop_S. unfold runs_step at 1. pose proof Hinv as (Wi & Wj & mi & mj & V & Hi & Hj & Ho & ET & Hfit & Hli & Hlj & ->).
  destruct (rit_rep_run _ _ _ Hi) as [Ri _]. destruct (rit_rep_run _ _ _ Hj) as [Rj _].
  assert (len T - len V = Z.max (len Wi) (len Wj)) as HlT by (rewrite ET, len_app, len_xor_words; lia).
  destruct ((0 <? running_len i) || (0 <? running_len j)) eqn:Ec.
  2:{ apply orb_false_iff in Ec as [E1 E2]. apply Z.ltb_ge in E1, E2. cbn [wp]. exists (mi + mj)%nat. split_and!; try (done || lia). }
  assert (0 < running_len i \/ 0 < running_len j) as Hpos by (apply orb_true_iff in Ec as [E|E]; apply Z.ltb_lt in E; auto).
  assert (forall i1 j1 out1 X Wi1 Wj1 mi1 mj1, xor_words Wi Wj = X ++ xor_words Wi1 Wj1 -> moved out out1 V X ->
    rit_rep i1 Wi1 mi1 -> rit_rep j1 Wj1 mj1 -> (mi1 + mj1 < mi + mj)%nat -> len Wi1 <= len Wi -> len Wj1 <= len Wj ->
    wp oom (loop fuel (runs_step junk) (i1, j1, out1)) (fun '(i', j', out') => exists m', xor_inv T i' j' out' m' /\
      running_len i' = 0 /\ running_len j' = 0 /\ (m' <= mi + mj)%nat /\
      (0 < running_len i \/ 0 < running_len j -> (m' < mi + mj)%nat) /\
      (running_len i <= 0 -> running_len j <= 0 -> i' = i /\ j' = j))) as Hrec.
  { intros i1 j1 out1 X Wi1 Wj1 mi1 mj1 EX Hmv Hi1 Hj1 Hlt Hl1 Hl2.
    eapply wp_mono; [apply (IH fuel i1 j1 out1 (mi1 + mj1)%nat); [|lia|lia]|].
    - exists Wi1, Wj1, mi1, mj1, (V ++ X). split_and!; try (done || lia); [by destruct Hmv|by rewrite ET, EX, <- app_assoc|].
      pose proof (fits_moved _ _ _ _ _ Hmv Hfit) as Hf1. rewrite len_app. by replace (len T - (len V + len X)) with (len T - len V - len X) by lia.
    - intros [[i' j'] out'] (m' & R1 & R2 & R3 & R4 & _). exists m'. split_and!; (done || lia). }
  rewrite HlT in Hfit.
  destruct (Z.ltb_spec (running_len i) (running_len j)) as [Hlt|Hge].
  - apply wp_bind. eapply wp_mono.
    { apply (prey_step_spec i j out V Wi mi Wj mj); try (done || lia). by rewrite Z.max_comm. }
    intros [[i1 j1] out1] (X & Wj1 & Wi1 & mi1 & mj1 & EX & Hmv & Hi1 & Hj1 & M1 & M2 & L1 & L2). cbn [wp].
    apply (Hrec i1 j1 out1 X Wi1 Wj1 mi1 mj1); try (done || lia). by rewrite xor_words_comm, EX, (xor_words_comm Wi1).
  - apply wp_bind. eapply wp_mono.
    { apply (prey_step_spec j i out V Wj mj Wi mi); (done || lia). }
    intros [[j1 i1] out1] (X & Wi1 & Wj1 & mj1 & mi1 & EX & Hmv & Hj1 & Hi1 & M1 & M2 & L1 & L2). cbn [wp].
    apply (Hrec i1 j1 out1 X Wi1 Wj1 mi1 mj1); (done || lia).
Qed.

Lemma xor_lits_loop i j bi bj li lj ri rj ti tj n k : rit_ok i bi 0 li ri ti -> rit_ok j bj 0 lj rj tj ->
  n <= len li -> n <= len lj -> forall fuel out V c, rep out V -> 0 <= c -> n - c = Z.of_nat k -> (k < fuel)%nat -> fits out (n - c) ->
  wp oom (loop fuel (xor_lits_step junk i j n) (out, c)) (fun out' =>
    moved out out' V (drop (Z.to_nat c) (zip_with Z.lxor (take (Z.to_nat n) li) (take (Z.to_nat n) lj)))).
Proof.
  intros Hi Hj Hni Hnj. destruct Hi as [A1 A2 A3 A4 A5 _ _ _ _ _ _ _ A12 _]. destruct Hj as [B1 B2 B3 B4 B5 _ _ _ _ _ _ _ B12 _].
  pose proof (len_nonneg (enc ri)). pose proof (len_nonneg (enc rj)).
  set (Z := zip_with Z.lxor (take (Z.to_nat n) li) (take (Z.to_nat n) lj)).
  assert (length Z = Z.to_nat n) as HlZ by (unfold Z; rewrite length_zip_with, !length_take; llia).
  induction k as [|k IH]; intros fuel out V c Hout Hc Hk Hf Hfit; (destruct fuel as [|fuel]; [lia|]); apply wp_loop_S;
    unfold xor_lits_step at 1.
  { destruct (Z.ltb_spec c n); [lia|]. cbn [wp]. rewrite drop_ge by lia. by apply moved_refl. }
  destruct (Z.ltb_spec c n); [|lia]. rewrite !u64_small by lia.
  assert (forall b st l tl, 0 <= st -> drop (Z.to_nat st) b = l ++ tl -> n <= len l -> Forall is_word l ->
    exists x, rd b (st + c) = Ok x /\ l !! Z.to_nat c = Some x /\ is_word x) as Hrd.
  { intros b st l tl Hst Hd Hnl Hw. destruct (lookup_lt_is_Some_2 l (Z.to_nat c)) as [x Hx]; [llia|].
    exists x. split_and!; [|done|by eapply Forall_lookup_1]. apply rd_Some; [lia|]. rewrite Z2Nat.inj_add, <- lookup_drop, Hd by lia.
    by rewrite lookup_app_l by llia. }
  destruct (Hrd _ _ _ _ A1 A2 Hni A12) as (x & -> & Hx & Hxw). destruct (Hrd _ _ _ _ B1 B2 Hnj B12) as (y & -> & Hy & Hyw).
  cbn [mbind res_bind]. pose proof Hfit as [F1 F2 F3]. apply wp_bind. eapply wp_mono.
  { apply (ewah_add_spec junk out V (x ^. y) Hout); [by apply xor_word|unfold room; lia|lia]. }
  intros [out1 a] (R1 & R2 & R3 & R4). cbn [wp].
  assert (moved out out1 V [x ^. y]) as Hmv by (constructor; [done|change (len [_]) with 1; lia..]).
  pose proof (fits_moved _ _ _ _ _ Hmv Hfit) as Hfit1. change (len [x ^. y]) with 1 in Hfit1.
  eapply wp_mono; [apply (IH fuel out1 (V ++ [x ^. y]) (c + 1) R1); try lia; by replace (n - (c + 1)) with (n - c - 1) by lia|].
  intros out' Hmv'. pose proof (moved_trans _ _ _ _ _ _ Hmv Hmv') as Hm. rewrite (drop_S Z (x ^. y)); [|].
  - by replace (S (Z.to_nat c)) with (Z.to_nat (c + 1)) by lia.
  - unfold Z. rewrite lookup_zip_with, !lookup_take_lt by lia. by rewrite Hx, Hy.
Qed.

(** The literal part of a round: both runs are used up. *)
Lemma xor_lits_spec T i j out m : xor_inv T i j out m -> running_len i = 0 -> running_len j = 0 ->
  0 < Z.min (literal_words i) (literal_words j) ->
  let n := Z.min (literal_words i) (literal_words j) in
  wp oom (out ← loop (S (Z.to_nat n)) (xor_lits_step junk i j n) (out, 0);
    i ← rlwit_discard_first_words i n; j ← rlwit_discard_first_words j n;
    Ok (i, j, out)) (fun '(i', j', out') => exists m', xor_inv T i' j' out' m' /\ (m' < m)%nat).
Proof.
  intros (Wi & Wj & mi & mj & V & Hi & Hj & Ho & ET & Hfit & Hli & Hlj & ->) Ri Rj Hpos n.
  pose proof Hi as (bi & ui & li & ri & ti & Oi & EWi & _). pose proof Hj as (bj & uj & lj & rj & tj & Oj & EWj & _).
  pose proof (ri_run _ _ _ _ _ _ Oi) as E1. rewrite Ri in E1. subst ui.
  pose proof (ri_run _ _ _ _ _ _ Oj) as E2. rewrite Rj in E2. subst uj.
  pose proof (ri_lits _ _ _ _ _ _ Oi) as Li. pose proof (ri_lits _ _ _ _ _ _ Oj) as Lj.
  assert (len li <= len Wi /\ len lj <= len Wj) as [Hl1 Hl2].
  { rewrite EWi, EWj, !len_rit_words by lia. pose proof (len_nonneg (words ri)). pose proof (len_nonneg (words rj)). lia. }
  assert (len T - len V = Z.max (len Wi) (len Wj)) as HlT by (rewrite ET, len_app, len_xor_words; lia).
  apply wp_bind. eapply wp_mono.
  { apply (xor_lits_loop i j bi bj li lj ri rj ti tj n (Z.to_nat n) Oi Oj ltac:(lia) ltac:(lia) _ out V 0); try (done || lia).
    apply (fits_le _ _ _ Hfit). lia. }
  intros out' Hmv. change (Z.to_nat 0) with 0%nat in Hmv. rewrite drop_0 in Hmv. set (X := zip_with _ _ _) in *.
  apply wp_bind, total_wp. eapply wp_mono; [apply (discard_spec i Wi mi n Hi); lia|]. intros i' (mi' & Hi' & Mi & _ & _ & Si).
  apply wp_bind, total_wp. eapply wp_mono; [apply (discard_spec j Wj mj n Hj); lia|]. intros j' (mj' & Hj' & Mj & _ & _ & Sj). cbn [wp].
  assert (forall W b l rest, W = rit_words b 0 l rest -> n <= len l -> W = take (Z.to_nat n) l ++ drop (Z.to_nat n) W) as Esplit.
  { intros W b l rest -> Hn. unfold rit_words. change (replicate (Z.to_nat 0) (fill b)) with (@nil Z). cbn [app].
    rewrite drop_app_le by llia. rewrite app_assoc, take_drop. done. }
  exists (mi' + mj')%nat. split.
  - exists (drop (Z.to_nat n) Wi), (drop (Z.to_nat n) Wj), mi', mj', (V ++ X). split_and!; try done.
    + by destruct Hmv.
    + rewrite ET, <- app_assoc. f_equal.
      rewrite (Esplit Wi bi li ri EWi ltac:(lia)) at 1. rewrite (Esplit Wj bj lj rj EWj ltac:(lia)) at 1.
      apply xor_zip. rewrite !length_take. llia.
    + pose proof (fits_moved _ _ _ _ _ Hmv Hfit) as Hf1. rewrite len_app. by replace (len T - (len V + len X)) with (len T - len V - len X) by lia.
    + unfold len in *. rewrite length_drop. lia.
    + unfold len in *. rewrite length_drop. lia.
  - assert (Wi <> [] /\ Wj <> []) as [Hne1 Hne2].
    { split; intros ->; change (len (@nil Z)) with 0 in *; lia. }
    unfold first_block in *. rewrite Ri, Rj in *. change (0 <? 0) with false in *. cbv iota in *.
    destruct (Z_le_gt_dec (literal_words i) (literal_words j)).
    + specialize (Si ltac:(lia) ltac:(lia) Hne1). lia.
    + specialize (Sj ltac:(lia) ltac:(lia) Hne2). lia.
Qed.

Lemma xor_loop T k : forall fuel fuel' i j out m, xor_inv T i j out m -> (m < k)%nat -> (k <= fuel)%nat -> (k <= fuel')%nat ->
  wp oom (loop fuel (xor_step junk fuel') (i, j, out)) (fun '(i', j', out') => exists m' Wi Wj mi mj V,
    rit_rep i' Wi mi /\ rit_rep j' Wj mj /\ rep out' V /\ T = V ++ xor_words Wi Wj /\ fits out' (len T - len V) /\
    len Wi < 2 ^ 31 /\ len Wj < 2 ^ 31 /\ (Wi = [] \/ Wj = []) /\ (m' <= m)%nat).
Proof.
  induction k as [|k IH]; [lia|]. intros fuel fuel' i j out m Hinv Hm Hf Hf'. destruct fuel as [|fuel]; [lia|].
  apply wp_loop_S. unfold xor_step at 1. pose proof Hinv as (Wi & Wj & mi & mj & V & Hi & Hj & Ho & ET & Hfit & Hli & Hlj & ->).
  assert (forall it W m, rit_rep it W m -> len W < 2 ^ 31 -> exists s, rlwit_word_size it = Ok s /\ (s <= 0 -> W = []) /\
    s = running_len it + literal_words it) as Hws.
  { intros it W m0 (b & u & l & r & t & O & E & _) HW. exists (u + len l). split_and!.
    - apply (word_size_ok _ _ _ _ _ _ O). by rewrite <- E.
    - intros Hle. destruct O. pose proof (len_nonneg l). destruct ri_norm0 as [|Hr]; [lia|]. rewrite E, Hr.
      assert (l = []) as -> by (apply len_0_nil; lia). unfold rit_words. by replace (Z.to_nat u) with 0%nat by lia.
    - destruct O. lia. }
  destruct (Hws _ _ _ Hi Hli) as (si & -> & Ei & Esi). cbn [mbind res_bind]. destruct (Hws _ _ _ Hj Hlj) as (sj & -> & Ej & Esj).
  cbn [mbind res_bind].
  destruct (Z.ltb_spec 0 si) as [Hsi|Hsi]; cbn [mbind res_bind]; [destruct (Z.ltb_spec 0 sj) as [Hsj|Hsj]|].
  2,3: cbn [wp]; exists (mi + mj)%nat, Wi, Wj, mi, mj, V; split_and!; (done || tauto || lia).
  apply wp_bind. eapply wp_mono; [apply (runs_loop T (mi + mj + 1) fuel' i j out (mi + mj)%nat Hinv); lia|].
  intros [[i1 j1] out1] (m1 & Hinv1 & R1 & R2 & Hm1 & Hs1 & Hsame).
  assert (0 <= literal_words i1 < 2 ^ 31 /\ 0 <= literal_words j1 < 2 ^ 31) as [Hb1 Hb2].
  { destruct Hinv1 as (Wi1 & Wj1 & ? & ? & ? & Hi1 & Hj1 & _ & _ & _ & L1 & L2 & _).
    assert (forall it W m, rit_rep it W m -> len W < 2 ^ 31 -> 0 <= literal_words it < 2 ^ 31) as Hlw.
    { intros it W m0 (b & u & l & r & t & O & E & _) HW. destruct O. rewrite ri_lits0. pose proof (len_nonneg l).
      rewrite E, len_rit_words in HW by done. pose proof (len_nonneg (words r)). lia. }
    split; by eapply Hlw. }
  rewrite !u64_small by lia. assert (min_size (literal_words i1) (literal_words j1) = Z.min (literal_words i1) (literal_words j1)) as ->.
  { unfold min_size. destruct (Z.ltb_spec (literal_words i1) (literal_words j1)); lia. }
  destruct (tr (Z.min (literal_words i1) (literal_words j1))) eqn:Et.
  - apply tr_true in Et. pose proof (xor_lits_spec T i1 j1 out1 m1 Hinv1 R1 R2 ltac:(lia)) as Hl. cbv zeta in Hl.
    destruct (loop (S (Z.to_nat _)) _ (out1, 0)) as [out2|]; [|done]. cbn [mbind res_bind] in *.
    destruct (rlwit_discard_first_words i1 _) as [i2|]; [|done]. cbn [mbind res_bind] in *.
    destruct (rlwit_discard_first_words j1 _) as [j2|]; [|done]. cbn [mbind res_bind wp] in *.
    destruct Hl as (m2 & Hinv2 & Hm2). eapply wp_mono; [apply (IH fuel fuel' i2 j2 out2 m2 Hinv2); lia|].
    intros [[i' j'] out'] (m' & Wi' & Wj' & mi' & mj' & V' & Q). exists m', Wi', Wj', mi', mj', V'.
    destruct Q as (Q1 & Q2 & Q3 & Q4 & Q5 & Q6 & Q7 & Q8 & Q9). split_and!; (done || lia).
  - apply tr_false in Et. cbn [wp]. destruct (decide (0 < running_len i \/ 0 < running_len j)) as [Hr|Hr].
    + specialize (Hs1 Hr). eapply wp_mono; [apply (IH fuel fuel' i1 j1 out1 m1 Hinv1); lia|].
      intros [[i' j'] out'] (m' & Wi' & Wj' & mi' & mj' & V' & Q). exists m', Wi', Wj', mi', mj', V'.
      destruct Q as (Q1 & Q2 & Q3 & Q4 & Q5 & Q6 & Q7 & Q8 & Q9). split_and!; (done || lia).
    + destruct (rit_rep_run _ _ _ Hi), (rit_rep_run _ _ _ Hj). destruct Hsame as [-> ->]; lia.
Qed.

Lemma rlwit_init_spec it0 e W : rep e W -> len W < 2 ^ 31 ->
  total (rlwit_init it0 e) (fun it => exists m, rit_rep it W m).
Proof.
  intros (ss & s & [[(tl & E) Es Er El Ea Eb] Ho Hs Hf] & Hl & ->) HW. unfold rlwit_init. set (it := mkRit _ _ _ _ _ _ _ _ _).
  pose proof (len_nonneg tl). pose proof (len_nonneg (enc ss)). pose proof (len_nonneg (s_lits s)).
  assert (len (ew_buffer e) = len (enc ss) + 1 + len (s_lits s) + len tl) as Hb.
  { rewrite E. autorewrite with len. lia. }
  assert (exists s0 rest, ss ++ [s] = s0 :: rest /\ Forall seg_full rest /\ (seg_full s0 \/ rest = [])) as (s0 & rest & Ess & Hfr & Hn).
  { destruct ss as [|s0 ss]; [exists s, []; by split_and!; [..|right]|]. exists s0, (ss ++ [s]).
    apply Forall_cons in Hf as [Hf0 Hf]. split_and!; [done| |by left].
    apply Forall_app. split; [done|]. destruct Hl as [|Hl]; [done|]. by constructor. }
  assert (Forall seg_ok (s0 :: rest)) as Hok.
  { rewrite <- Ess. apply Forall_app. split; [done|by constructor]. }
  assert (len (enc (s0 :: rest)) = buffer_size e) as Hle.
  { rewrite <- Ess, enc_snoc_raw, len_app, len_cons. lia. }
  pose proof Hok as Hok'. apply Forall_cons in Hok' as [Hok0 _].
  rewrite Ess in HW |- *. rewrite len_words_cons in HW by done. pose proof (len_nonneg (words rest)). pose proof (len_nonneg (s_lits s0)).
  destruct (next_word_ok it s0 rest tl) as (it' & -> & Ho' & _); cbn [it rit_pointer rit_size rit_buffer]; try (done || lia).
  { change (Z.to_nat 0) with 0%nat. rewrite drop_0, E, <- Ess, enc_snoc_raw, <- app_assoc. done. }
  cbn [mbind res_bind wp]. eexists _, (s_bit s0), (s_run s0), (s_lits s0), rest, tl.
  split_and!; [done|by rewrite words_cons|done].
Qed.

Lemma rit_all it out V W m : rit_rep it W m -> rep out V -> len W < 2 ^ 31 -> fits out (len W) ->
  wp oom ('(_, out, _) ← rlwit_discharge junk it out (u64 (-1)) 0; Ok out) (fun out' => rep out' (V ++ W)).
Proof.
  intros Hit Hout HW Hfit. apply wp_bind. eapply wp_mono.
  { apply (discharge_spec junk it W m out V (u64 (-1)) false); try done. }
  intros [[it' out'] index] (-> & [Hmv _ _] & _). cbn [wp]. change (u64 (-1)) with (2 ^ 64 - 1) in *.
  rewrite Z.min_r in Hmv by lia. unfold len in Hmv at 1. rewrite Nat2Z.id, take_ge in Hmv by lia.
  unfold neg in Hmv. by rewrite list_fmap_id in Hmv.
Qed.

Lemma ewah_xor_spec it0 ei ej out Wi Wj V : rep ei Wi -> rep ej Wj -> rep out V -> len Wi < 2 ^ 31 -> len Wj < 2 ^ 31 ->
  fits out (Z.max (len Wi) (len Wj)) ->
  wp oom (ewah_xor junk it0 ei ej out) (fun out' => rep out' (V ++ xor_words Wi Wj) /\
    bit_size out' = Z.max (bit_size ei) (bit_size ej)).
Proof.
  intros Hi Hj Ho HWi HWj Hfit. unfold ewah_xor.
  apply wp_bind, total_wp. eapply wp_mono; [by apply (rlwit_init_spec it0 ei Wi)|]. intros i (mi & Ri).
  apply wp_bind, total_wp. eapply wp_mono; [by apply (rlwit_init_spec it0 ej Wj)|]. intros j (mj & Rj).
  pose proof (rit_fuel_ok _ _ _ Ri). pose proof (rit_fuel_ok _ _ _ Rj).
  apply wp_bind. eapply wp_mono.
  { apply (xor_loop (V ++ xor_words Wi Wj) (mi + mj + 1) (xor_fuel i j) (xor_fuel i j) i j out (mi + mj)%nat); unfold xor_fuel; try lia.
    exists Wi, Wj, mi, mj, V. split_and!; try done. rewrite len_app, len_xor_words.
    by replace (len V + len Wi `max` len Wj - len V) with (len Wi `max` len Wj) by lia. }
  intros [[i' j'] out'] (m' & Wi' & Wj' & mi' & mj' & V' & Q1 & Q2 & Q3 & Q4 & Q5 & Q6 & Q7 & Q8 & _).
  assert (exists s, rlwit_word_size i' = Ok s /\ (s <= 0 -> Wi' = []) /\ (Wi' = [] -> s <= 0)) as (s & -> & Es & Es').
  { destruct Q1 as (b & u & l & r & t & O & E & _). exists (u + len l). split_and!.
    - apply (word_size_ok _ _ _ _ _ _ O). by rewrite <- E.
    - intros Hle. destruct O. pose proof (len_nonneg l). destruct ri_norm0 as [|Hr]; [lia|]. rewrite E, Hr.
      assert (l = []) as -> by (apply len_0_nil; lia). unfold rit_words. by replace (Z.to_nat u) with 0%nat by lia.
    - intros E'. rewrite E' in E. apply (f_equal len) in E. destruct O. rewrite len_rit_words in E by done.
      change (len (@nil Z)) with 0 in E. pose proof (len_nonneg (words r)). pose proof (len_nonneg l). lia. }
  cbn [mbind res_bind]. rewrite Q4 in Q5. rewrite len_app, len_xor_words in Q5.
  replace (len V' + len Wi' `max` len Wj' - len V') with (len Wi' `max` len Wj') in Q5 by lia.
  apply wp_bind. eapply (wp_mono _ _ (fun o => rep o (V' ++ xor_words Wi' Wj'))).
  { destruct (Z.ltb_spec 0 s) as [Hs|Hs].
    - assert (Wj' = []) as -> by (destruct Q8 as [E|]; [specialize (Es' E); lia|done]). rewrite xor_words_nil_r.
      apply (rit_all i' out' V' Wi' mi'); try done. apply (fits_le _ _ _ Q5). lia.
    - rewrite (Es Hs). apply (rit_all j' out' V' Wj' mj'); try done. apply (fits_le _ _ _ Q5). lia. }
  intros o Hrep. cbn [wp]. rewrite <- Q4 in Hrep. split; [by apply rep_set_bit_size|]. cbn [bit_size set_bit_size].
  unfold max_size. destruct (Z.ltb_spec (bit_size ej) (bit_size ei)); lia.
Qed.
End Xor.

(** ** The claim *)

(** C11: [ewah_xor] of two compressed bitmaps of fewer than [2^31] words terminates
    and leaves in the empty bitmap [out] the exclusive or: bit for bit, with the
    shorter one continued by zeroes.  No [int] overflows, no access leaves a
    buffer and no assertion fails. *)
Theorem ewah_xor_bits `{Memory} junk it0 ei ej out Wi Wj :
  rep ei Wi -> rep ej Wj -> rep out [] -> len Wi < 2 ^ 31 -> len Wj < 2 ^ 31 ->
  buffer_size out <= 2 ^ 40 -> 0 <= bit_size out < 2 ^ 40 ->
  wp oom (ewah_xor junk it0 ei ej out) (fun out' => exists W, rep out' W /\
    len W = Z.max (len Wi) (len Wj) /\ bit_size out' = Z.max (bit_size ei) (bit_size ej) /\
    forall p, 0 <= p -> bit W p = xorb (bit Wi p) (bit Wj p)).
Proof.
  intros Hi Hj Ho HWi HWj Hb Hs. eapply wp_mono.
  { apply (ewah_xor_spec junk it0 ei ej out Wi Wj []); try done. constructor; lia. }
  intros out' (R1 & R2). exists (xor_words Wi Wj). split_and!; [done|apply len_xor_words|done|apply bit_xor_words].
Qed.

(** A bitmap of one segment, for concrete instances. *)
Definition ewah_of (s : seg) : ewah_bitmap :=
  mkEwah (seg_enc s) (len (seg_enc s)) (len (seg_enc s)) (64 * len (seg_words s)) 0.

Lemma ewah_of_rep s : seg_ok s -> rep (ewah_of s) (seg_words s).
Proof.
  intros Hs. exists [], s. split_and!; [|by left|by rewrite words_snoc]. constructor; try done. destruct Hs.
  constructor; cbn [ewah_of ew_buffer buffer_size alloc_size bit_size ew_rlw]; change (len (enc [])) with 0; try done.
  - exists []. by rewrite app_nil_r.
  - rewrite len_seg_enc. lia.
  - rewrite len_seg_enc. lia.
Qed.

Lemma ewah_xor_bits_witness :
  wp (@oom plenty) (@ewah_xor plenty 7 (mkRit [] 0 0 0 0 0 0 0 0)
      (ewah_of (mkSeg true 2 [5])) (ewah_of (mkSeg false 0 [6; 1; 4; 9])) (ewah_of (mkSeg false 0 [])))
    (fun out' => exists W, rep out' W /\ len W = 4 /\
       forall p, 0 <= p -> bit W p = xorb (bit (seg_words (mkSeg true 2 [5])) p) (bit [6; 1; 4; 9] p)).
Proof.
  refine (wp_mono _ _ _ _ (@ewah_xor_bits plenty 7 (mkRit [] 0 0 0 0 0 0 0 0)
      (ewah_of (mkSeg true 2 [5])) (ewah_of (mkSeg false 0 [6; 1; 4; 9])) (ewah_of (mkSeg false 0 []))
      (seg_words (mkSeg true 2 [5])) (seg_words (mkSeg false 0 [6; 1; 4; 9])) _ _ _ _ _ _ _) _).
  1-3: apply ewah_of_rep; constructor; cbn [s_run s_lits]; [lia|done|repeat (constructor; [unfold is_word; lia|]); constructor].
  1-4: by vm_compute.
  intros out' (W & R1 & R2 & _ & R3). exists W. split_and!; [exact R1|exact R2|exact R3].
Defined.
