(* ===== verification/Bitmap.v ===== *)
(** * Plain bitmaps: [ewah/bitmap.c], [ewah/ewok.h]

    Bitmaps as arrays of 64-bit words that grow on demand, their conversion to
    and from compressed bitmaps, and the comparisons between the two.  A bitmap
    stands for the set of its bits; the positions behind its array are not in
    the set. *)

From stdpp Require Import prelude numbers list.
From S2P Require Import Prelude PatchDelta Alloc Bswap EwahRlw Ewah EwahIter EwahXor.

Record bitmap := mkBitmap { bm_words : list Z; word_alloc : Z }.

Definition EWAH_MASK (x : Z) : Z := 1 <<. (x `mod` BITS_IN_EWORD).
Definition EWAH_BLOCK (x : Z) : Z := x `div` BITS_IN_EWORD.

(** Counts the bits of a word in parallel. *)
Definition ewah_bit_popcount64 (x : Z) : Z :=
  let x := u64 ((x &. 0x5555555555555555) + ((x >>. 1) &. 0x5555555555555555)) in
  let x := u64 ((x &. 0x3333333333333333) + ((x >>. 2) &. 0x3333333333333333)) in
  let x := u64 ((x &. 0x0F0F0F0F0F0F0F0F) + ((x >>. 4) &. 0x0F0F0F0F0F0F0F0F)) in
  u32 (u64 (x * 0x0101010101010101) >>. 56).

Section Code.
Context `{Memory} (junk : Z).

Definition bitmap_word_alloc (n : Z) : res bitmap :=
  _ ← xmalloc 16;
  w ← CALLOC_ARRAY sizeof_eword 0 n;
  Ok (mkBitmap w n).

Definition bitmap_new : res bitmap := bitmap_word_alloc 32.

Definition bitmap_dup (src : bitmap) : res bitmap :=
  dst ← bitmap_word_alloc (word_alloc src);
  if tr (word_alloc src) then
    _ ← st_mult sizeof_eword (word_alloc src);
    c ← rd_slice (bm_words src) 0 (word_alloc src);
    w ← wr_slice (bm_words dst) 0 c;
    Ok (mkBitmap w (word_alloc dst))
  else Ok dst.

Definition bitmap_grow (self : bitmap) (n : Z) : res bitmap :=
  let old_size := word_alloc self in
  '(w, al) ← ALLOC_GROW junk sizeof_eword u64 (bm_words self) n (word_alloc self);
  w ← wr_slice w old_size (replicate (Z.to_nat (al - old_size)) 0);
  Ok (mkBitmap w al).

Definition bitmap_set (self : bitmap) (pos : Z) : res bitmap :=
  let block := EWAH_BLOCK pos in
  self ← bitmap_grow self (u64 (block + 1));
  x ← rd (bm_words self) block;
  w ← wr (bm_words self) block (x |. EWAH_MASK pos);
  Ok (mkBitmap w (word_alloc self)).

Definition bitmap_unset (self : bitmap) (pos : Z) : res bitmap :=
  let block := EWAH_BLOCK pos in
  if block <? word_alloc self then
    x ← rd (bm_words self) block;
    w ← wr (bm_words self) block (x &. not64 (EWAH_MASK pos));
    Ok (mkBitmap w (word_alloc self))
  else Ok self.

Definition bitmap_get (self : bitmap) (pos : Z) : res Z :=
  let block := EWAH_BLOCK pos in
  if block <? word_alloc self then
    x ← rd (bm_words self) block;
    Ok (Z.b2z (tr (x &. EWAH_MASK pos)))
  else Ok 0.

Definition to_ewah_step (b : bitmap) (st : ewah_bitmap * Z * Z * Z) : res (ewah_bitmap * Z * Z * Z + ewah_bitmap * Z) :=
  let '(e, i, empty, last) := st in
  if i <? word_alloc b then
    x ← rd (bm_words b) i;
    if x =? 0 then Ok (inl (e, i + 1, empty + 1, last))
    else
      e ← (if negb (last =? 0) then '(e, _) ← ewah_add junk e last; Ok e else Ok e);
      '(e, empty) ← (if 0 <? empty then '(e, _) ← ewah_add_empty_words junk e 0 empty; Ok (e, 0) else Ok (e, empty));
      x ← rd (bm_words b) i;
      Ok (inl (e, i + 1, empty, x))
  else Ok (inr (e, last)).

Definition bitmap_to_ewah (b : bitmap) : res ewah_bitmap :=
  e ← ewah_new junk;
  '(e, last) ← loop (S (Z.to_nat (word_alloc b))) (to_ewah_step b) (e, 0, 0, 0);
  '(e, _) ← ewah_add junk e last;
  Ok e.

(** The loops over a compressed bitmap take [fuel] iterations, one for each of
    its words; the theorems hold for any [fuel] above their number. *)
Definition to_bitmap_step (st : bitmap * ewah_iterator * Z) : res (bitmap * ewah_iterator * Z + bitmap * Z) :=
  let '(b, it, i) := st in
  '(it, r) ← ewah_iterator_next it;
  match r with
  | Some blowup =>
      '(w, al) ← ALLOC_GROW junk sizeof_eword u64 (bm_words b) (u64 (i + 1)) (word_alloc b);
      w ← wr w i blowup;
      Ok (inl (mkBitmap w al, it, i + 1))
  | None => Ok (inr (b, i))
  end.

Definition ewah_to_bitmap (fuel : nat) (ewah : ewah_bitmap) : res bitmap :=
  b ← bitmap_new;
  it ← ewah_iterator_init ewah;
  '(b, i) ← loop fuel to_bitmap_step (b, it, 0);
  Ok (mkBitmap (bm_words b) i).

Definition and_not_step (other : bitmap) (count : Z) (st : list Z * Z) : res (list Z * Z + list Z) :=
  let '(w, i) := st in
  if i <? count then
    x ← rd w i; y ← rd (bm_words other) i;
    w ← wr w i (x &. not64 y); Ok (inl (w, i + 1))
  else Ok (inr w).

Definition bitmap_and_not (self other : bitmap) : res bitmap :=
  let count := if word_alloc self <? word_alloc other then word_alloc self else word_alloc other in
  w ← loop (S (Z.to_nat count)) (and_not_step other count) (bm_words self, 0);
  Ok (mkBitmap w (word_alloc self)).

Definition or_step (other : bitmap) (st : list Z * Z) : res (list Z * Z + list Z) :=
  let '(w, i) := st in
  if i <? word_alloc other then
    x ← rd w i; y ← rd (bm_words other) i;
    w ← wr w i (x |. y); Ok (inl (w, i + 1))
  else Ok (inr w).

Definition bitmap_or (self other : bitmap) : res bitmap :=
  self ← bitmap_grow self (word_alloc other);
  w ← loop (S (Z.to_nat (word_alloc other))) (or_step other) (bm_words self, 0);
  Ok (mkBitmap w (word_alloc self)).

Definition or_ewah_step (st : list Z * ewah_iterator * Z) : res (list Z * ewah_iterator * Z + list Z) :=
  let '(w, it, i) := st in
  '(it, r) ← ewah_iterator_next it;
  match r with
  | Some word => x ← rd w i; w ← wr w i (x |. word); Ok (inl (w, it, i + 1))
  | None => Ok (inr w)
  end.

Definition bitmap_or_ewah (fuel : nat) (self : bitmap) (other : ewah_bitmap) : res bitmap :=
  let original_size := word_alloc self in
  let other_final := u64 (bit_size other `div` BITS_IN_EWORD + 1) in
  self ← (if word_alloc self <? other_final then
            w ← REALLOC_ARRAY junk sizeof_eword (bm_words self) other_final;
            w ← wr_slice w original_size (replicate (Z.to_nat (other_final - original_size)) 0);
            Ok (mkBitmap w other_final)
          else Ok self);
  it ← ewah_iterator_init other;
  w ← loop fuel or_ewah_step (bm_words self, it, 0);
  Ok (mkBitmap w (word_alloc self)).
End Code.

Definition subset_step (other : bitmap) (st : ewah_iterator * Z) : res (ewah_iterator * Z + ewah_iterator * option Z) :=
  let '(it, i) := st in
  if i <? word_alloc other then
    '(it, r) ← ewah_iterator_next it;
    match r with
    | None => Ok (inr (it, Some 1))
    | Some word =>
        y ← rd (bm_words other) i;
        if tr (word &. not64 y) then Ok (inr (it, Some 0)) else Ok (inl (it, i + 1))
    end
  else Ok (inr (it, None)).

Definition rest_step (it : ewah_iterator) : res (ewah_iterator + Z) :=
  '(it, r) ← ewah_iterator_next it;
  match r with
  | Some word => if tr word then Ok (inr 0) else Ok (inl it)
  | None => Ok (inr 1)
  end.

Definition ewah_bitmap_is_subset (fuel : nat) (self : ewah_bitmap) (other : bitmap) : res Z :=
  it ← ewah_iterator_init self;
  '(it, r) ← loop (S (Z.to_nat (word_alloc other))) (subset_step other) (it, 0);
  match r with
  | Some r => Ok r
  | None => loop fuel rest_step it
  end.

Definition popcount_step (b : bitmap) (st : Z * Z) : res (Z * Z + Z) :=
  let '(i, count) := st in
  if i <? word_alloc b then x ← rd (bm_words b) i; Ok (inl (i + 1, u64 (count + ewah_bit_popcount64 x)))
  else Ok (inr count).

Definition bitmap_popcount (self : bitmap) : res Z :=
  loop (S (Z.to_nat (word_alloc self))) (popcount_step self) (0, 0).

Definition ewah_popcount_step (st : ewah_iterator * Z) : res (ewah_iterator * Z + Z) :=
  let '(it, count) := st in
  '(it, r) ← ewah_iterator_next it;
  match r with
  | Some word => Ok (inl (it, u64 (count + ewah_bit_popcount64 word)))
  | None => Ok (inr count)
  end.

Definition ewah_bitmap_popcount (fuel : nat) (self : ewah_bitmap) : res Z :=
  it ← ewah_iterator_init self;
  loop fuel ewah_popcount_step (it, 0).

(** Is one of the words from [i] up to [n] not zero?  [r] is what to return then. *)
Definition nonzero_step (w : list Z) (n r : Z) (i : Z) : res (Z + option Z) :=
  if i <? n then
    x ← rd w i;
    if tr x then Ok (inr (Some r)) else Ok (inl (i + 1))
  else Ok (inr None).

Definition bitmap_is_empty (self : bitmap) : res Z :=
  r ← loop (S (Z.to_nat (word_alloc self))) (nonzero_step (bm_words self) (word_alloc self) 0) 0;
  Ok (default 1 r).

Definition equals_step (small big : bitmap) (i : Z) : res (Z + option Z) :=
  if i <? word_alloc small then
    x ← rd (bm_words small) i; y ← rd (bm_words big) i;
    if negb (x =? y) then Ok (inr (Some 0)) else Ok (inl (i + 1))
  else Ok (inr None).

Definition bitmap_equals (self other : bitmap) : res Z :=
  let '(small, big) := if word_alloc self <? word_alloc other then (self, other) else (other, self) in
  r ← loop (S (Z.to_nat (word_alloc small))) (equals_step small big) 0;
  match r with
  | Some r => Ok r
  | None =>
      r ← loop (S (Z.to_nat (word_alloc big))) (nonzero_step (bm_words big) (word_alloc big) 0) (word_alloc small);
      Ok (default 1 r)
  end.

Definition equals_ewah_step (b : bitmap) (st : ewah_iterator * Z) : res (ewah_iterator * Z + Z * option Z) :=
  let '(it, i) := st in
  '(it, r) ← ewah_iterator_next it;
  match r with
  | Some word =>
      '(y, i) ← (if i <? word_alloc b then y ← rd (bm_words b) i; Ok (y, i + 1) else Ok (0, i));
      if negb (word =? y) then Ok (inr (i, Some 0)) else Ok (inl (it, i))
  | None => Ok (inr (i, None))
  end.

Definition bitmap_equals_ewah (fuel : nat) (self : bitmap) (other : ewah_bitmap) : res Z :=
  it ← ewah_iterator_init other;
  '(i, r) ← loop fuel (equals_ewah_step self) (it, 0);
  match r with
  | Some r => Ok r
  | None =>
      r ← loop (S (Z.to_nat (word_alloc self))) (nonzero_step (bm_words self) (word_alloc self) 0) i;
      Ok (default 1 r)
  end.

Definition not_in_step (self other : bitmap) (n : Z) (i : Z) : res (Z + option Z) :=
  if i <? n then
    x ← rd (bm_words self) i; y ← rd (bm_words other) i;
    if tr (x &. not64 y) then Ok (inr (Some 1)) else Ok (inl (i + 1))
  else Ok (inr None).

Definition bitmap_is_subset (self other : bitmap) : res Z :=
  '(common, r) ←
    (if word_alloc self <? word_alloc other then Ok (word_alloc self, None)
     else
       r ← loop (S (Z.to_nat (word_alloc self))) (nonzero_step (bm_words self) (word_alloc self) 1) (word_alloc other);
       Ok (word_alloc other, r));
  match r with
  | Some r => Ok r
  | None => r ← loop (S (Z.to_nat common)) (not_in_step self other common) 0; Ok (default 0 r)
  end.

(** ** The set of a bitmap *)

Definition bm_live (b : bitmap) : list Z := take (Z.to_nat (word_alloc b)) (bm_words b).

Record bm_ok (b : bitmap) : Prop := {
  bm_alloc : 0 <= word_alloc b <= len (bm_words b);
  bm_bound : word_alloc b < 2 ^ 47;
  bm_word : Forall is_word (bm_live b);
}.

(** Membership of position [p]. *)
Definition bits (b : bitmap) (p : Z) : bool := bit (bm_live b) p.

Lemma len_bm_live b : bm_ok b -> len (bm_live b) = word_alloc b.
Proof. intros [Ha _ _]. unfold bm_live, len in *. rewrite length_take. lia. Qed.

Lemma rd_bm_live b i x : 0 <= i -> bm_live b !! Z.to_nat i = Some x -> rd (bm_words b) i = Ok x.
Proof. intros Hi [Hx _]%lookup_take_Some. by apply rd_Some. Qed.

Lemma bm_live_lookup b i : bm_ok b -> 0 <= i < word_alloc b ->
  exists x, bm_live b !! Z.to_nat i = Some x /\ rd (bm_words b) i = Ok x /\ is_word x.
Proof.
  intros Hb Hi. pose proof (len_bm_live b Hb). destruct (lookup_lt_is_Some_2 (bm_live b) (Z.to_nat i)) as [x Hx]; [llia|].
  exists x. split_and!; [done|apply rd_bm_live; [lia|done]|]. destruct Hb. by eapply Forall_lookup_1.
Qed.

Lemma bit_app_zeros W n p : 0 <= p -> bit (W ++ replicate n 0) p = bit W p.
Proof.
  intros Hp. destruct (Z_lt_le_dec p (64 * len W)); [by rewrite bit_app_l by lia|].
  by rewrite bit_app_r, bit_zeros, bit_over by lia.
Qed.


(** Two words of 64 bits differ in a bit. *)
Lemma word_bits_eq x y : is_word x -> is_word y -> (forall i, 0 <= i < 64 -> Z.testbit x i = Z.testbit y i) -> x = y.
Proof.
  intros Hx Hy H. apply Z.bits_inj'. intros i Hi. destruct (Z_lt_le_dec i 64); [apply H; lia|].
  unfold is_word in *. rewrite <- (Z.mod_small x (2 ^ 64)), <- (Z.mod_small y (2 ^ 64)) by done.
  by rewrite !Z.mod_pow2_bits_high by lia.
Qed.

Lemma not64_bit y i : 0 <= i < 64 -> Z.testbit (not64 y) i = negb (Z.testbit y i).
Proof.
  intros Hi. unfold not64, u64. rewrite Z.testbit_mod_pow2, Z.lnot_spec by lia.
  destruct (Z.ltb_spec i 64); [done|lia].
Qed.

Lemma land_word x y : is_word x -> is_word (x &. y).
Proof.
  intros Hx. assert (x &. y = (x &. y) `mod` 2 ^ 64) as ->; [|apply Z.mod_pos_bound; lia].
  unfold is_word in Hx. rewrite <- (Z.mod_small x (2 ^ 64)) at 1 by done. bitsolve.
Qed.

(** ** Growing *)

Section Ops.
Context `{Memory} (junk : Z).

(** [ALLOC_GROW] on an array that may be longer than [alloc]. *)
Lemma grow_array (x : list Z) nr alloc : 0 <= alloc <= len x -> alloc < 2 ^ 47 -> 0 <= nr <= 2 ^ 45 ->
  wp oom (ALLOC_GROW junk sizeof_eword u64 x nr alloc) (fun '(x', alloc') =>
    alloc <= alloc' <= len x' /\ nr <= alloc' /\ alloc' < 2 ^ 47 /\ take (Z.to_nat alloc) x' = take (Z.to_nat alloc) x).
Proof.
  intros Ha Hb Hn. destruct (Z_lt_le_dec alloc nr) as [Hlt|Hge].
  - pose proof (ALLOC_GROW_spec junk sizeof_eword (take (Z.to_nat alloc) x) nr alloc) as Hg.
    specialize (Hg ltac:(unfold len in *; rewrite length_take; lia) ltac:(lia) ltac:(lia) ltac:(done)).
    unfold ALLOC_GROW in *. destruct (Z.ltb_spec alloc nr); [|lia].
    set (al := if _ : bool then _ else _) in *. unfold REALLOC_ARRAY in *.
    destruct (st_mult sizeof_eword al) as [n|]; [|done]. cbn [mbind res_bind] in *.
    destruct (xrealloc n) as [[]|]; [|done]. cbn [mbind res_bind wp] in *.
    destruct Hg as (pad & E & Hl & H1 & H2 & H3).
    assert (len (take (Z.to_nat al) x ++ replicate (Z.to_nat al - length x) junk) = al) as El.
    { unfold len in *. rewrite length_app, length_take, length_replicate. lia. }
    split_and!; try lia. rewrite take_app_le by (rewrite length_take; llia). rewrite take_take. f_equal. lia.
  - unfold ALLOC_GROW. destruct (Z.ltb_spec alloc nr); [lia|]. cbn [wp]. split_and!; (done || lia).
Qed.


Lemma bitmap_word_alloc_spec n : 0 <= n < 2 ^ 45 ->
  wp oom (bitmap_word_alloc n) (fun b => bm_ok b /\ word_alloc b = n /\ bm_live b = replicate (Z.to_nat n) 0).
Proof.
  intros Hn. unfold bitmap_word_alloc. apply wp_bind. eapply wp_mono; [by apply xmalloc_oom|]. intros [] _.
  unfold CALLOC_ARRAY. apply wp_bind, wp_bind. eapply (wp_mono _ _ (fun _ => True)).
  { apply xcalloc_oom; unfold sizeof_eword; lia. }
  intros [] _. cbn [wp]. assert (bm_live (mkBitmap (replicate (Z.to_nat n) 0) n) = replicate (Z.to_nat n) 0) as El.
  { unfold bm_live. cbn [word_alloc bm_words]. rewrite take_ge; [done|]. by rewrite length_replicate. }
  split_and!; try done. constructor; cbn [word_alloc bm_words]; [rewrite len_replicate by lia; lia|lia|].
  rewrite El. by apply Forall_replicate.
Qed.

(** ** The operations on the set *)













(** ** Conversion to a compressed bitmap *)

Lemma move_word out V x : rep out V -> is_word x -> fits out 1 ->
  wp oom (ewah_add junk out x) (fun '(out', _) => moved out out' V [x]).
Proof.
  intros Hr Hx [F1 F2 F3]. eapply wp_mono; [apply (ewah_add_spec junk out V x); try done; [unfold room; lia|lia]|].
  intros [out' a] (R1 & R2 & R3 & R4). constructor; [done|change (len [x]) with 1; lia..].
Qed.

(** The last nonzero word that was seen, if any. *)
Definition pending (last : Z) : list Z := if last =? 0 then [] else [last].

Lemma to_ewah_loop b k : bm_ok b -> forall fuel e V i empty last, rep e V -> 0 <= i -> word_alloc b - i = Z.of_nat k -> (k < fuel)%nat ->
  0 <= empty -> is_word last -> take (Z.to_nat i) (bm_live b) = V ++ pending last ++ replicate (Z.to_nat empty) 0 ->
  fits e (word_alloc b + 1 - len V) -> bit_size e = 64 * len V -> word_alloc b < 2 ^ 40 ->
  wp oom (loop fuel (to_ewah_step junk b) (e, i, empty, last)) (fun '(e', last') => exists V' n, rep e' V' /\ is_word last' /\
    bm_live b = V' ++ pending last' ++ replicate n 0 /\ fits e' (word_alloc b + 1 - len V') /\ bit_size e' = 64 * len V').
Proof.
  intros Hb. pose proof (len_bm_live b Hb) as Hlb.
  induction k as [|k IH]; intros fuel e V i empty last Hrep Hi Hk Hf He Hlast Htk Hfit Hbs Hsz; (destruct fuel as [|fuel]; [lia|]);
    apply wp_loop_S; unfold to_ewah_step at 1.
  { destruct (Z.ltb_spec i (word_alloc b)); [lia|]. cbn [wp]. exists V, (Z.to_nat empty).
    rewrite take_ge in Htk by llia. by split_and!. }
  destruct (Z.ltb_spec i (word_alloc b)); [|lia]. destruct (bm_live_lookup b i Hb ltac:(lia)) as (x & Hx & -> & Hxw).
  cbn [mbind res_bind].
  assert (take (Z.to_nat (i + 1)) (bm_live b) = (V ++ pending last ++ replicate (Z.to_nat empty) 0) ++ [x]) as Htk1.
  { replace (Z.to_nat (i + 1)) with (S (Z.to_nat i)) by lia. by rewrite (take_S_r _ _ x), Htk by done. }
  assert (len V + len (pending last) + empty = i) as Hlen.
  { apply (f_equal len) in Htk. rewrite !len_app, len_replicate in Htk by done. unfold len in Htk at 1.
    rewrite length_take in Htk. llia. }
  destruct (Z.eqb_spec x 0) as [->|Hx0].
  { cbn [wp]. apply (IH fuel e V (i + 1) (empty + 1) last); try (done || lia).
    rewrite Htk1, <- !app_assoc. do 2 f_equal. replace (Z.to_nat (empty + 1)) with (S (Z.to_nat empty)) by lia.
    by rewrite replicate_S_end. }
  apply wp_bind. eapply (wp_mono _ _ (fun e1 => moved e e1 V (pending last))).
  { unfold pending. destruct (Z.eqb_spec last 0); cbn [negb]; [by apply moved_refl|]. apply wp_bind.
    eapply wp_mono; [apply (move_word e V last); try done; apply (fits_le _ _ _ Hfit); unfold pending in Hlen|].
    { destruct (Z.eqb_spec last 0); [done|]. change (len [last]) with 1 in Hlen. lia. }
    intros [e1 a] Hm. done. }
  intros e1 Hm1. pose proof (fits_moved _ _ _ _ _ Hm1 Hfit) as Hfit1. pose proof (len_nonneg (pending last)). pose proof (len_nonneg V).
  apply wp_bind. eapply (wp_mono _ _ (fun '(e2, em) => em = 0 /\ moved e1 e2 (V ++ pending last) (replicate (Z.to_nat empty) 0))).
  { destruct (Z.ltb_spec 0 empty).
    - apply wp_bind. eapply wp_mono.
      { apply (move_run junk e1 _ false empty (mv_rep _ _ _ _ Hm1)); [lia|]. apply (fits_le _ _ _ Hfit1). lia. }
      intros [e2 a] Hm2. cbn [wp]. split; [done|exact Hm2].
    - assert (empty = 0) as -> by lia. cbn [wp]. split; [done|]. apply moved_refl. by destruct Hm1. }
  intros [e2 em] [-> Hm2]. cbn [mbind res_bind wp]. pose proof (moved_trans _ _ _ _ _ _ Hm1 Hm2) as Hm.
  assert (len (pending last ++ replicate (Z.to_nat empty) 0) = len (pending last) + empty) as Hlp by (rewrite len_app, len_replicate by done; done).
  apply (IH fuel e2 (V ++ pending last ++ replicate (Z.to_nat empty) 0) (i + 1) 0 x); try (done || lia).
  - by destruct Hm.
  - rewrite Htk1. replace (pending x) with [x] by (unfold pending; by destruct (Z.eqb_spec x 0)). by rewrite <- !app_assoc.
  - pose proof (fits_moved _ _ _ _ _ Hm Hfit) as Hfit2. rewrite len_app.
    by replace (word_alloc b + 1 - (len V + len (pending last ++ replicate (Z.to_nat empty) 0)))
      with (word_alloc b + 1 - len V - len (pending last ++ replicate (Z.to_nat empty) 0)) by lia.
  - rewrite (mv_bits _ _ _ _ Hm), Hbs, (len_app V). lia.
Qed.

Lemma bitmap_to_ewah_spec b : bm_ok b -> word_alloc b < 2 ^ 40 ->
  wp oom (bitmap_to_ewah junk b) (fun e => exists W, rep e W /\ bit_size e = 64 * len W /\ len W <= word_alloc b + 1 /\
    forall p, 0 <= p -> bit W p = bits b p).
Proof.
  intros Hb Hs. unfold bitmap_to_ewah. pose proof (bm_alloc _ Hb). pose proof (len_bm_live b Hb) as Hlb.
  apply wp_bind. eapply wp_mono; [apply ewah_new_spec|]. intros e (Hrep & Hbs & Hsz). apply wp_bind. eapply wp_mono.
  { apply (to_ewah_loop b (Z.to_nat (word_alloc b)) Hb _ e [] 0 0 0); try (done || lia); change (len (@nil Z)) with 0.
    constructor; lia. }
  intros [e' last] (V & n & R1 & R2 & R3 & R4 & R5).
  assert (len V + len (pending last) <= word_alloc b) as Hle.
  { rewrite <- Hlb, R3, !len_app. pose proof (len_nonneg (replicate n 0)). lia. }
  pose proof (len_nonneg (pending last)). apply wp_bind. eapply wp_mono.
  { apply (move_word e' V last R1 R2). apply (fits_le _ _ _ R4). lia. }
  intros [e2 a] Hm. cbn [wp]. exists (V ++ [last]). split_and!.
  - by destruct Hm.
  - rewrite (mv_bits _ _ _ _ Hm), R5, len_app. lia.
  - rewrite len_app. change (len [last]) with 1. lia.
  - intros p Hp. unfold bits. rewrite R3, app_assoc, bit_app_zeros by done. unfold pending.
    destruct (Z.eqb_spec last 0) as [->|]; [|done]. rewrite app_nil_r. by apply (bit_app_zeros V 1).
Qed.

(** ** Conversion from a compressed bitmap *)

Lemma to_bitmap_loop W k : Forall is_word W -> len W < 2 ^ 40 -> forall fuel b it i,
  it_ok it (drop (Z.to_nat i) W) -> 0 <= i -> len W - i = Z.of_nat k -> (k < fuel)%nat -> i <= word_alloc b <= len (bm_words b) ->
  word_alloc b < 2 ^ 47 -> take (Z.to_nat i) (bm_words b) = take (Z.to_nat i) W ->
  wp oom (loop fuel (to_bitmap_step junk) (b, it, i)) (fun '(b', i') => i' = len W /\ len W <= len (bm_words b') /\
    take (length W) (bm_words b') = W).
Proof.
  intros Hw Hs. induction k as [|k IH]; intros fuel b it i Hit Hi Hk Hf Ha Hb Htk; (destruct fuel as [|fuel]; [lia|]);
    apply wp_loop_S; unfold to_bitmap_step at 1; apply wp_bind, total_wp; (eapply wp_mono; [by apply ewah_iterator_next_spec|]);
    intros [it' r] Hr.
  { rewrite drop_ge in Hr by llia. destruct Hr as [-> ->]. cbn [wp]. replace i with (len W) in * by lia.
    split_and!; [done|lia|]. unfold len in Htk. rewrite Nat2Z.id in Htk. by rewrite (take_ge W) in Htk. }
  destruct (lookup_lt_is_Some_2 W (Z.to_nat i)) as [x Hx]; [llia|]. rewrite (drop_S _ _ _ Hx) in Hr. destruct Hr as [Hit' ->].
  rewrite u64_small by lia. apply wp_bind. eapply wp_mono; [apply grow_array; lia|].
  intros [w al] (H1 & H2 & H3 & Htk'). rewrite wr_ok by lia. cbn [mbind res_bind wp].
  apply (IH fuel (mkBitmap (<[Z.to_nat i := x]> w) al) it' (i + 1)); cbn [word_alloc bm_words]; rewrite ?len_insert; try lia.
  - by replace (Z.to_nat (i + 1)) with (S (Z.to_nat i)) by lia.
  - replace (Z.to_nat (i + 1)) with (S (Z.to_nat i)) by lia.
    rewrite (take_S_r _ _ x) by (apply list_lookup_insert_eq; llia). rewrite (take_S_r W _ x) by done.
    rewrite take_insert_ge by lia. f_equal. rewrite <- Htk.
    apply (f_equal (take (Z.to_nat i))) in Htk'. by rewrite !take_take, !Nat.min_l in Htk' by lia.
Qed.

Lemma ewah_to_bitmap_spec fuel e W : rep e W -> len W < 2 ^ 40 -> (length W < fuel)%nat ->
  wp oom (ewah_to_bitmap junk fuel e) (fun b => bm_ok b /\ bm_live b = W).
Proof.
  intros Hrep Hs Hf. unfold ewah_to_bitmap.
  assert (Forall is_word W) as Hw.
  { destruct (rep_buffer e W Hrep) as (ss & _ & _ & Hok & _ & _ & -> & _). by apply words_ok. }
  apply wp_bind. eapply wp_mono; [by apply bitmap_word_alloc_spec|]. intros b (Hb & Ha & _).
  apply wp_bind, total_wp. eapply wp_mono; [by apply ewah_iterator_init_spec|]. intros it Hit.
  apply wp_bind. pose proof (len_nonneg W). pose proof (bm_alloc _ Hb). eapply wp_mono.
  { apply (to_bitmap_loop W (length W) Hw Hs fuel b it 0); (done || llia). }
  intros [b' i] (-> & Hl & Htk). cbn [wp]. assert (bm_live (mkBitmap (bm_words b') (len W)) = W) as El.
  { unfold bm_live. cbn [word_alloc bm_words]. unfold len. by rewrite Nat2Z.id. }
  split; [|done]. constructor; cbn [word_alloc bm_words]; [lia|lia|by rewrite El].
Qed.


Lemma words_bitmap W : Forall is_word W -> len W < 2 ^ 40 -> bm_ok (mkBitmap W (len W)) /\ bm_live (mkBitmap W (len W)) = W.
Proof.
  intros Hw Hl. pose proof (len_nonneg W). assert (bm_live (mkBitmap W (len W)) = W) as El.
  { unfold bm_live. cbn [word_alloc bm_words]. unfold len. by rewrite Nat2Z.id, take_ge. }
  split; [|done]. constructor; cbn [word_alloc bm_words]; [lia|lia|by rewrite El].
Qed.


End Ops.

(** ** Comparisons *)

(** The C truth value [r] reports [P]. *)
Definition reports (r : Z) (P : Prop) : Prop := (r = 1 /\ P) \/ (r = 0 /\ ~ P).

#[export] Instance reports_proper r : Proper (iff ==> iff) (reports r).
Proof. intros P Q HPQ. unfold reports. by rewrite HPQ. Qed.

Definition word_at (W : list Z) (j : Z) : Z := default 0 (W !! Z.to_nat j).

Lemma word_at_word W j : Forall is_word W -> is_word (word_at W j).
Proof.
  intros Hw. unfold word_at. destruct (W !! Z.to_nat j) eqn:E; simpl; [by eapply Forall_lookup_1|done].
Qed.

Lemma word_at_over W j : len W <= j -> word_at W j = 0.
Proof. intros Hj. unfold word_at. by rewrite lookup_ge_None_2 by llia. Qed.

Lemma word_at_bit W j i : 0 <= j -> 0 <= i < 64 -> Z.testbit (word_at W j) i = bit W (64 * j + i).
Proof.
  intros Hj Hi. unfold word_at, bit. replace ((64 * j + i) `div` 64) with j by dlia. replace ((64 * j + i) `mod` 64) with i by dlia. done.
Qed.

Lemma bit_word_at W p : bit W p = Z.testbit (word_at W (p `div` 64)) (p `mod` 64).
Proof. done. Qed.

Lemma bits_ext W V : Forall is_word W -> Forall is_word V ->
  (forall p, 0 <= p -> bit W p = bit V p) <-> (forall j, 0 <= j -> word_at W j = word_at V j).
Proof.
  intros Hw Hv. split.
  - intros H j Hj. apply word_bits_eq; [by apply word_at_word..|]. intros i Hi. rewrite !word_at_bit by lia. apply H. lia.
  - intros H p Hp. rewrite !bit_word_at, H; [done|]. apply Z.div_pos; lia.
Qed.

Lemma subset_ext W V : Forall is_word W ->
  (forall p, 0 <= p -> bit W p = true -> bit V p = true) <-> (forall j, 0 <= j -> word_at W j &. not64 (word_at V j) = 0).
Proof.
  intros Hw. split.
  - intros H j Hj. apply word_bits_eq; [by apply land_word, word_at_word|done|]. intros i Hi.
    rewrite Z.land_spec, not64_bit, !word_at_bit, Z.bits_0 by lia. specialize (H (64 * j + i) ltac:(lia)).
    destruct (bit W (64 * j + i)); [by rewrite H|done].
  - intros H p Hp Hb. rewrite bit_word_at in Hb |- *. pose proof (Z.mod_pos_bound p 64 ltac:(lia)).
    specialize (H (p `div` 64) ltac:(apply Z.div_pos; lia)). apply (f_equal (fun x => Z.testbit x (p `mod` 64))) in H.
    rewrite Z.land_spec, not64_bit, Hb, Z.bits_0 in H by lia. by destruct (Z.testbit (word_at V _) _).
Qed.

Lemma rd_word_at b i : bm_ok b -> 0 <= i < word_alloc b -> rd (bm_words b) i = Ok (word_at (bm_live b) i).
Proof. intros Hb Hi. destruct (bm_live_lookup b i Hb Hi) as (x & Hx & -> & _). unfold word_at. by rewrite Hx. Qed.

(** Looking for the first [i] from [i0] up to [n] with [bad i]. *)
Lemma scan_loop (step : Z -> res (Z + option Z)) (bad : Z -> bool) n r k :
  (forall i, i < n -> 0 <= i -> step i = Ok (if bad i then inr (Some r) else inl (i + 1))) ->
  (forall i, n <= i -> step i = Ok (inr None)) ->
  forall fuel i0, 0 <= i0 -> n - i0 <= Z.of_nat k -> (k < fuel)%nat ->
  total (loop fuel step i0) (fun res => (res = Some r /\ exists i, i0 <= i < n /\ bad i = true) \/
    (res = None /\ forall i, i0 <= i < n -> bad i = false)).
Proof.
  intros Hin Hout. induction k as [|k IH]; intros fuel i0 Hi0 Hk Hf; (destruct fuel as [|fuel]; [lia|]); apply wp_loop_S.
  { rewrite Hout by lia. right. split; [done|]. intros. lia. }
  destruct (Z_lt_le_dec i0 n) as [Hlt|Hge].
  2:{ rewrite Hout by lia. right. split; [done|]. intros. lia. }
  rewrite Hin by lia. destruct (bad i0) eqn:Eb; cbn [wp].
  - left. split; [done|]. exists i0. split; [lia|done].
  - eapply wp_mono; [apply (IH fuel (i0 + 1)); lia|]. intros res [[-> (i & Hi & Hb)]|[-> Hb]].
    + left. split; [done|]. exists i. split; [lia|done].
    + right. split; [done|]. intros i Hi. destruct (decide (i = i0)) as [->|]; [done|]. apply Hb. lia.
Qed.

Lemma nonzero_scan b i0 r : bm_ok b -> 0 <= i0 ->
  total (loop (S (Z.to_nat (word_alloc b))) (nonzero_step (bm_words b) (word_alloc b) r) i0) (fun res =>
    (res = Some r /\ exists j, i0 <= j /\ word_at (bm_live b) j <> 0) \/ (res = None /\ forall j, i0 <= j -> word_at (bm_live b) j = 0)).
Proof.
  intros Hb Hi. eapply wp_mono.
  { apply (scan_loop _ (fun i => tr (word_at (bm_live b) i)) (word_alloc b) r (Z.to_nat (word_alloc b))); try lia.
    - intros i H1 H2. unfold nonzero_step. destruct (Z.ltb_spec i (word_alloc b)); [|lia]. rewrite rd_word_at by done.
      cbn [mbind res_bind]. by destruct (tr _).
    - intros i H1. unfold nonzero_step. destruct (Z.ltb_spec i (word_alloc b)); [lia|done]. }
  intros res [[-> (j & Hj & Hbad)]|[-> Hall]].
  - left. split; [done|]. exists j. split; [lia|by apply tr_true].
  - right. split; [done|]. intros j Hj. destruct (Z_lt_le_dec j (word_alloc b)); [by apply tr_false, Hall|].
    apply word_at_over. by rewrite len_bm_live.
Qed.

Lemma bitmap_is_empty_spec b : bm_ok b -> total (bitmap_is_empty b) (fun r => reports r (forall p, 0 <= p -> bits b p = false)).
Proof.
  intros Hb. unfold bitmap_is_empty. apply wp_bind. eapply wp_mono; [by apply nonzero_scan|].
  assert ((forall p, 0 <= p -> bits b p = false) <-> forall j, 0 <= j -> word_at (bm_live b) j = 0) as Hiff.
  { pose proof (bits_ext (bm_live b) [] (bm_word _ Hb) ltac:(constructor)) as He. split.
    - intros H j Hj. rewrite (proj1 He); [done| |done]. intros p Hp. rewrite bit_nil by done. by apply H.
    - intros H p Hp. unfold bits. rewrite (proj2 He), bit_nil; [done|done| |done]. intros j Hj. by rewrite H. }
  intros res [[-> (j & Hj & Hne)]|[-> Hall]]; cbn [wp default]; rewrite Hiff.
  - right. split; [done|]. intros H. by apply Hne, H.
  - by left.
Qed.

Lemma bitmap_equals_spec a b : bm_ok a -> bm_ok b ->
  total (bitmap_equals a b) (fun r => reports r (forall p, 0 <= p -> bits a p = bits b p)).
Proof.
  intros Ha Hb. unfold bitmap_equals.
  assert (forall small big, bm_ok small -> bm_ok big -> word_alloc small <= word_alloc big ->
    total (r ← loop (S (Z.to_nat (word_alloc small))) (equals_step small big) 0;
      match r with Some r => Ok r | None =>
        r ← loop (S (Z.to_nat (word_alloc big))) (nonzero_step (bm_words big) (word_alloc big) 0) (word_alloc small);
        Ok (default 1 r) end) (fun r => reports r (forall p, 0 <= p -> bits small p = bits big p))) as Hmain.
  { intros s g Hs Hg Hle. pose proof (bm_alloc _ Hs). eapply (wp_mono _ _ (fun r => reports r (forall j, 0 <= j -> word_at (bm_live s) j = word_at (bm_live g) j)));
      [|intros r; unfold bits; by rewrite (bits_ext _ _ (bm_word _ Hs) (bm_word _ Hg))].
    apply wp_bind. eapply wp_mono.
    { apply (scan_loop _ (fun i => negb (word_at (bm_live s) i =? word_at (bm_live g) i)) (word_alloc s) 0 (Z.to_nat (word_alloc s))); try lia.
      - intros i H1 H2. unfold equals_step. destruct (Z.ltb_spec i (word_alloc s)); [|lia]. rewrite !rd_word_at by (done || lia).
        cbn [mbind res_bind]. by destruct (negb _).
      - intros i H1. unfold equals_step. destruct (Z.ltb_spec i (word_alloc s)); [lia|done]. }
    intros r [[-> (i & Hi & Hne)]|[-> Hall]].
    - cbn [wp]. right. split; [done|]. intros H'. apply negb_true_iff, Z.eqb_neq in Hne. apply Hne, H'. lia.
    - apply wp_bind. eapply wp_mono; [apply (nonzero_scan g (word_alloc s) 0); [done|lia]|].
      intros r [[-> (j & Hj & Hne)]|[-> Hz]]; cbn [wp default].
      + right. split; [done|]. intros H'. apply Hne. rewrite <- H' by lia. apply word_at_over. by rewrite len_bm_live.
      + left. split; [done|]. intros j Hj. destruct (Z_lt_le_dec j (word_alloc s)).
        * apply Z.eqb_eq, negb_false_iff. apply Hall. lia.
        * rewrite Hz by lia. apply word_at_over. by rewrite len_bm_live. }
  destruct (Z.ltb_spec (word_alloc a) (word_alloc b)).
  - apply Hmain; (done || lia).
  - eapply wp_mono; [apply Hmain; (done || lia)|]. intros r [[-> H']|[-> H']]; [left|right]; split; try done.
    + intros p Hp. by rewrite H'.
    + intros H''. apply H'. intros p Hp. by rewrite H''.
Qed.

(** [bitmap_is_subset] tells whether [a] has a bit that is not in [b]. *)
Lemma bitmap_is_subset_spec a b : bm_ok a -> bm_ok b ->
  total (bitmap_is_subset a b) (fun r => reports r (~ forall p, 0 <= p -> bits a p = true -> bits b p = true)).
Proof.
  intros Ha Hb. unfold bitmap_is_subset. pose proof (bm_alloc _ Ha). pose proof (bm_alloc _ Hb).
  eapply (wp_mono _ _ (fun r => reports r (~ forall j, 0 <= j -> word_at (bm_live a) j &. not64 (word_at (bm_live b) j) = 0)));
    [|intros r; unfold bits; by rewrite (subset_ext _ _ (bm_word _ Ha))].
  apply wp_bind. eapply (wp_mono _ _ (fun '(n, res) => 0 <= n <= word_alloc a /\ n <= word_alloc b /\
    ((res = Some 1 /\ exists j, n <= j /\ n = word_alloc b /\ word_at (bm_live a) j <> 0) \/
     (res = None /\ forall j, n <= j -> word_at (bm_live a) j = 0)))).
  { destruct (Z.ltb_spec (word_alloc a) (word_alloc b)).
    - cbn [wp]. split_and!; try lia. right. split; [done|]. intros j Hj. apply word_at_over. by rewrite len_bm_live.
    - apply wp_bind. eapply wp_mono; [apply (nonzero_scan a (word_alloc b) 1); [done|lia]|].
      intros r Hr. cbn [wp]. split_and!; try lia. destruct Hr as [[-> (j & Hj & Hne)]|[-> Hz]]; [left|by right].
      split; [done|]. by exists j. }
  intros [n res] (Hn & Hnb & [[-> (j & Hj & -> & Hne)]|[-> Hz]]); cbn [wp].
  - left. split; [done|]. intros Hall. apply Hne. specialize (Hall j ltac:(lia)).
    rewrite (word_at_over (bm_live b)) in Hall by (by rewrite len_bm_live). change (not64 0) with (Z.ones 64) in Hall.
    pose proof (word_at_word (bm_live a) j (bm_word _ Ha)) as Hw. unfold is_word in Hw.
    rewrite Z.land_ones, Z.mod_small in Hall by lia. done.
  - apply wp_bind. eapply wp_mono.
    { apply (scan_loop _ (fun i => tr (word_at (bm_live a) i &. not64 (word_at (bm_live b) i))) n 1 (Z.to_nat n)); try lia.
      - intros i H1 H2. unfold not_in_step. destruct (Z.ltb_spec i n); [|lia]. rewrite !rd_word_at by (done || lia).
        cbn [mbind res_bind]. by destruct (tr _).
      - intros i H1. unfold not_in_step. destruct (Z.ltb_spec i n); [lia|done]. }
    intros r [[-> (i & Hi & Hbad)]|[-> Hall]]; cbn [wp default].
    + left. split; [done|]. intros H'. apply tr_true in Hbad. apply Hbad, H'. lia.
    + right. split; [done|]. intros H'. apply H'. intros j Hj. destruct (Z_lt_le_dec j n).
      * apply tr_false, Hall. lia.
      * by rewrite Hz, Z.land_0_l.
Qed.

Lemma rest_loop W : forall fuel it, it_ok it W -> (length W < fuel)%nat ->
  total (loop fuel rest_step it) (fun r => reports r (Forall (fun x => x = 0) W)).
Proof.
  induction W as [|x W IH]; intros fuel it Hit Hf; (destruct fuel as [|fuel]; [simpl in Hf; lia|]);
    apply wp_loop_S; unfold rest_step at 1; apply wp_bind; (eapply wp_mono; [by apply ewah_iterator_next_spec|]);
    intros [it' r]; [intros [-> ->]|intros [Hit' ->]].
  - cbn [wp]. by left.
  - destruct (tr x) eqn:Et; cbn [wp].
    + right. split; [done|]. intros [Hx _]%Forall_cons. by apply tr_true in Et.
    + apply tr_false in Et as ->. eapply wp_mono; [apply (IH fuel it' Hit'); simpl in Hf; lia|].
      intros r. rewrite Forall_cons. intros [[-> H]|[-> H]]; [left|right]; tauto.
Qed.

Lemma subset_loop b V k : bm_ok b -> forall fuel it W i, it_ok it W -> 0 <= i -> word_alloc b - i = Z.of_nat k -> (k < fuel)%nat ->
  W = drop (Z.to_nat i) V ->
  total (loop fuel (subset_step b) (it, i)) (fun '(it', res) =>
    (res = Some 1 /\ len V <= word_alloc b /\ forall j, i <= j < len V -> word_at V j &. not64 (word_at (bm_live b) j) = 0) \/
    (res = Some 0 /\ exists j, i <= j /\ word_at V j &. not64 (word_at (bm_live b) j) <> 0) \/
    (res = None /\ it_ok it' (drop (Z.to_nat (word_alloc b)) V) /\
       forall j, i <= j < word_alloc b -> word_at V j &. not64 (word_at (bm_live b) j) = 0)).
Proof.
  intros Hb. induction k as [|k IH]; intros fuel it W i Hit Hi Hk Hf EW; (destruct fuel as [|fuel]; [lia|]);
    apply wp_loop_S; unfold subset_step at 1.
  { destruct (Z.ltb_spec i (word_alloc b)); [lia|]. cbn [wp]. right. right. split_and!; [done| |intros; lia].
    replace (word_alloc b) with i by lia. by rewrite <- EW. }
  destruct (Z.ltb_spec i (word_alloc b)); [|lia]. apply wp_bind. eapply wp_mono; [by apply ewah_iterator_next_spec|].
  intros [it' r] Hr. destruct W as [|x W].
  { destruct Hr as [-> ->]. cbn [wp]. left. assert (len V <= i).
    { symmetry in EW. apply (f_equal length) in EW. rewrite length_drop in EW. simpl in EW. llia. }
    split_and!; [done|lia|intros; lia]. }
  destruct Hr as [Hit' ->]. rewrite rd_word_at by (done || lia). cbn [mbind res_bind].
  assert (word_at V i = x /\ W = drop (Z.to_nat (i + 1)) V) as [Hx EW'].
  { symmetry in EW. split; [|symmetry; by apply (drop_next _ _ x)].
    unfold word_at. by rewrite <- (Nat.add_0_r (Z.to_nat i)), <- lookup_drop, EW. }
  rewrite <- Hx. destruct (tr _) eqn:Et; cbn [wp].
  { right. left. split; [done|]. exists i. split; [lia|by apply tr_true]. }
  apply tr_false in Et. eapply wp_mono; [apply (IH fuel it' W (i + 1)); (done || lia)|]. intros [it2 res].
  assert (forall P : Z -> Prop, P i -> forall n, (forall j, i + 1 <= j < n -> P j) -> forall j, i <= j < n -> P j) as Hext.
  { intros P Hp n Hall j Hj. destruct (decide (j = i)) as [->|]; [done|]. apply Hall. lia. }
  intros [(-> & H1 & H2)|[(-> & j & Hj & Hne)|(-> & H1 & H2)]].
  - left. split_and!; [done|done|]. by apply Hext.
  - right. left. split; [done|]. exists j. split; [lia|done].
  - right. right. split_and!; [done|done|]. by apply Hext.
Qed.

Lemma ewah_bitmap_is_subset_spec fuel e W b : rep e W -> bm_ok b -> (length W < fuel)%nat ->
  total (ewah_bitmap_is_subset fuel e b) (fun r => reports r (forall p, 0 <= p -> bit W p = true -> bits b p = true)).
Proof.
  intros Hrep Hb Hf. unfold ewah_bitmap_is_subset. pose proof (bm_alloc _ Hb).
  assert (Forall is_word W) as Hw.
  { destruct (rep_buffer e W Hrep) as (ss & _ & _ & Hok & _ & _ & -> & _). by apply words_ok. }
  eapply (wp_mono _ _ (fun r => reports r (forall j, 0 <= j -> word_at W j &. not64 (word_at (bm_live b) j) = 0)));
    [|intros r; unfold bits; by rewrite (subset_ext _ _ Hw)].
  apply wp_bind. eapply wp_mono; [by apply ewah_iterator_init_spec|]. intros it Hit. apply wp_bind.
  eapply wp_mono; [apply (subset_loop b W (Z.to_nat (word_alloc b)) Hb _ it W 0); (done || lia)|].
  intros [it' res] [(-> & H1 & H2)|[(-> & j & Hj & Hne)|(-> & H1 & H2)]].
  - cbn [wp]. left. split; [done|]. intros j Hj. destruct (Z_lt_le_dec j (len W)); [by apply H2|].
    by rewrite word_at_over, Z.land_0_l.
  - cbn [wp]. right. split; [done|]. intros Hall. by apply Hne, Hall.
  - eapply wp_mono; [apply (rest_loop _ _ _ H1); rewrite length_drop; lia|].
    intros r Hr. assert (Forall (fun x => x = 0) (drop (Z.to_nat (word_alloc b)) W) <-> forall j, word_alloc b <= j -> word_at W j = 0) as Hiff.
    { rewrite Forall_lookup. unfold word_at. split.
      - intros Hz j Hj. destruct (W !! Z.to_nat j) as [x|] eqn:E; [|done]. apply (Hz (Z.to_nat j - Z.to_nat (word_alloc b))%nat).
        rewrite lookup_drop. by replace (Z.to_nat (word_alloc b) + (Z.to_nat j - Z.to_nat (word_alloc b)))%nat with (Z.to_nat j) by lia.
      - intros Hz i x. rewrite lookup_drop. intros E. specialize (Hz (word_alloc b + Z.of_nat i) ltac:(lia)).
        replace (Z.to_nat (word_alloc b + Z.of_nat i)) with (Z.to_nat (word_alloc b) + i)%nat in Hz by lia. by rewrite E in Hz. }
    cbn beta in Hr. rewrite Hiff in Hr. destruct Hr as [[-> Hz]|[-> Hz]]; [left|right]; split; try done.
    + intros j Hj. destruct (Z_lt_le_dec j (word_alloc b)); [by apply H2|]. by rewrite Hz, Z.land_0_l.
    + intros Hall. apply Hz. intros j Hj. specialize (Hall j ltac:(lia)).
      rewrite (word_at_over (bm_live b)) in Hall by (by rewrite len_bm_live). change (not64 0) with (Z.ones 64) in Hall.
      pose proof (word_at_word W j Hw) as Hwj. unfold is_word in Hwj. rewrite Z.land_ones, Z.mod_small in Hall by lia. done.
Qed.

Lemma equals_ewah_loop b V k : bm_ok b -> forall fuel it i c, it_ok it (drop (Z.to_nat c) V) -> 0 <= c -> i = Z.min c (word_alloc b) ->
  len V - c = Z.of_nat k -> (k < fuel)%nat ->
  total (loop fuel (equals_ewah_step b) (it, i)) (fun '(i', res) =>
    (res = Some 0 /\ exists j, 0 <= j /\ word_at V j <> word_at (bm_live b) j) \/
    (res = None /\ i' = Z.min (len V) (word_alloc b) /\ forall j, c <= j < len V -> word_at V j = word_at (bm_live b) j)).
Proof.
  intros Hb. pose proof (bm_alloc _ Hb) as Ha.
  induction k as [|k IH]; intros fuel it i c Hit Hc Ei Hk Hf; (destruct fuel as [|fuel]; [lia|]);
    apply wp_loop_S; unfold equals_ewah_step at 1; apply wp_bind; (eapply wp_mono; [by apply ewah_iterator_next_spec|]);
    intros [it' r] Hr.
  { rewrite drop_ge in Hr by llia. destruct Hr as [-> ->]. cbn [wp]. right. split_and!; [done|lia|intros; lia]. }
  destruct (lookup_lt_is_Some_2 V (Z.to_nat c)) as [x Hx]; [llia|]. rewrite (drop_S _ _ _ Hx) in Hr. destruct Hr as [Hit' ->].
  assert (word_at V c = x) as Hwx by (unfold word_at; by rewrite Hx).
  assert ((if i <? word_alloc b then y ← rd (bm_words b) i; Ok (y, i + 1) else Ok (0, i)) =
    Ok (word_at (bm_live b) c, Z.min (c + 1) (word_alloc b))) as ->.
  { destruct (Z.ltb_spec i (word_alloc b)).
    - replace i with c by lia. rewrite rd_word_at by (done || lia). cbn [mbind res_bind]. do 2 f_equal. lia.
    - rewrite word_at_over by (rewrite len_bm_live by done; lia). do 2 f_equal. lia. }
  cbn [mbind res_bind]. rewrite <- Hwx. destruct (Z.eqb_spec (word_at V c) (word_at (bm_live b) c)) as [E|E]; cbn [negb wp].
  - eapply wp_mono; [apply (IH fuel it' (Z.min (c + 1) (word_alloc b)) (c + 1)); try lia|].
    { by replace (Z.to_nat (c + 1)) with (S (Z.to_nat c)) by lia. }
    intros [i' res] [Hl|(-> & -> & Hall)]; [by left|]. right. split_and!; [done|done|]. intros j Hj.
    destruct (decide (j = c)) as [->|]; [done|]. apply Hall. lia.
  - left. split; [done|]. by exists c.
Qed.

Lemma bitmap_equals_ewah_spec fuel b e W : bm_ok b -> rep e W -> (length W < fuel)%nat ->
  total (bitmap_equals_ewah fuel b e) (fun r => reports r (forall p, 0 <= p -> bits b p = bit W p)).
Proof.
  intros Hb Hrep Hf. unfold bitmap_equals_ewah. pose proof (bm_alloc _ Hb). pose proof (len_nonneg W).
  assert (Forall is_word W) as Hw.
  { destruct (rep_buffer e W Hrep) as (ss & _ & _ & Hok & _ & _ & -> & _). by apply words_ok. }
  eapply (wp_mono _ _ (fun r => reports r (forall j, 0 <= j -> word_at (bm_live b) j = word_at W j)));
    [|intros r; unfold bits; by rewrite (bits_ext _ _ (bm_word _ Hb) Hw)].
  apply wp_bind. eapply wp_mono; [by apply ewah_iterator_init_spec|]. intros it Hit. apply wp_bind.
  eapply wp_mono; [apply (equals_ewah_loop b W (length W) Hb fuel it 0 0); (done || llia)|].
  intros [i res] [(-> & j & Hj & Hne)|(-> & -> & Hall)].
  - cbn [wp]. right. split; [done|]. intros H'. apply Hne. symmetry. by apply H'.
  - apply wp_bind. eapply wp_mono; [apply (nonzero_scan b _ 0); [done|lia]|].
    intros r [[-> (j & Hj & Hne)]|[-> Hz]]; cbn [wp default].
    + right. split; [done|]. intros H'. apply Hne. destruct (Z_lt_le_dec j (word_alloc b)).
      * rewrite H' by lia. apply word_at_over. lia.
      * apply word_at_over. by rewrite len_bm_live.
    + left. split; [done|]. intros j Hj. destruct (Z_lt_le_dec j (len W)).
      * symmetry. apply Hall. lia.
      * rewrite (word_at_over W) by done. apply Hz. lia.
Qed.

(** ** Counting *)

(** The number of set bits among the lowest [n]. *)
Fixpoint cnt (n : nat) (x : Z) : Z :=
  match n with O => 0 | S n => Z.b2z (Z.odd x) + cnt n (x `div` 2) end.

Lemma cnt_add m : forall n x, cnt (m + n) x = cnt m x + cnt n (x `div` 2 ^ Z.of_nat m).
Proof.
  induction m as [|m IH]; intros n x; cbn [cnt Nat.add]; [by rewrite Z.div_1_r|].
  rewrite IH, Z.div_div, Nat2Z.inj_succ, Z.pow_succ_r by lia. lia.
Qed.

Lemma cnt_low m : forall x y, 0 <= y -> cnt m (x + 2 ^ Z.of_nat m * y) = cnt m x.
Proof.
  induction m as [|m IH]; intros x y Hy; [done|]. cbn [cnt]. rewrite Nat2Z.inj_succ, Z.pow_succ_r by lia.
  replace (x + 2 * 2 ^ Z.of_nat m * y) with (x + 2 ^ Z.of_nat m * y * 2) by lia.
  rewrite Z.div_add by lia. rewrite IH by done. do 2 f_equal.
  rewrite Z.odd_add, Z.odd_mul. change (Z.odd 2) with false. by rewrite andb_false_r, xorb_false_r.
Qed.

Lemma cnt_byte n b x : is_byte b -> 0 <= x -> cnt (8 + n) (b + 256 * x) = cnt 8 b + cnt n x.
Proof.
  intros Hb Hx. rewrite cnt_add. change (2 ^ Z.of_nat 8) with 256. f_equal; [by apply (cnt_low 8)|].
  f_equal. unfold is_byte in Hb. dlia.
Qed.

Lemma cnt_filter n : forall pos x, len (filter (fun q => Z.testbit x (q - pos) = true) (seqZ pos (Z.of_nat n))) = cnt n x.
Proof.
  induction n as [|n IH]; intros pos x; [done|]. rewrite seqZ_cons by lia. rewrite filter_cons, Z.sub_diag, Z.bit0_odd. cbn [cnt].
  replace (Z.pred (Z.of_nat (S n))) with (Z.of_nat n) by lia. rewrite <- (IH (Z.succ pos) (x `div` 2)).
  assert (filter (fun q => Z.testbit x (q - pos) = true) (seqZ (Z.succ pos) (Z.of_nat n)) =
    filter (fun q => Z.testbit (x `div` 2) (q - Z.succ pos) = true) (seqZ (Z.succ pos) (Z.of_nat n))) as ->.
  { apply filter_ext_in. intros q Hq%elem_of_seqZ. change (x `div` 2) with (x `div` 2 ^ 1). rewrite <- Z.shiftr_div_pow2, Z.shiftr_spec by lia.
    by replace (q - Z.succ pos + 1) with (q - pos) by lia. }
  destruct (Z.odd x); [rewrite decide_True by done; rewrite len_cons; simpl; lia|by rewrite decide_False].
Qed.

(** A number by its bytes, the least significant one first. *)
Definition of_bytes (l : list Z) : Z := foldr (fun b a => b + 256 * a) 0 l.

Lemma of_bytes_range l : is_bytes l -> 0 <= of_bytes l < 256 ^ len l.
Proof.
  induction 1 as [|b l Hb Hl IH]; [done|]. change (of_bytes (b :: l)) with (b + 256 * of_bytes l).
  unfold is_byte in Hb. rewrite len_cons, Z.pow_add_r by (pose proof (len_nonneg l); lia). lia.
Qed.

Definition stage (m k x : Z) : Z := (x &. m) + ((x >>. k) &. m).

Lemma byte_lor b x : is_byte b -> b + 256 * x = (x <<. 8) |. b.
Proof. intros Hb. rewrite lor_shiftl_add by (done || lia). lia. Qed.

Lemma is_byte_land a m : is_byte a -> is_byte (a &. m).
Proof.
  intros Ha. unfold is_byte in *. assert (a &. m = (a &. m) `mod` 2 ^ 8) as ->; [|apply Z.mod_pos_bound; lia].
  rewrite <- (Z.mod_small a (2 ^ 8)) at 1 by done. bitsolve.
Qed.

(** A stage works byte by byte when the mask leaves no bit of the next byte. *)
Lemma stage_byte m k M b x : is_byte b -> 0 < k < 8 -> 0 <= m < 2 ^ (8 - k) ->
  stage (m + 256 * M) k (b + 256 * x) = stage m k b + 256 * stage M k x.
Proof.
  intros Hb Hk Hm. assert (is_byte m) as Hm'.
  { unfold is_byte. split; [lia|]. apply (Z.lt_le_trans _ (2 ^ (8 - k))); [lia|]. change 256 with (2 ^ 8). apply Z.pow_le_mono_r; lia. }
  assert (is_byte (b >>. k)) as Hbk.
  { unfold is_byte in *. rewrite Z.shiftr_div_pow2 by lia. split; [apply Z.div_pos; lia|]. apply Z.div_lt_upper_bound; [lia|]. nia. }
  unfold stage. rewrite !byte_lor by done.
  assert (((x <<. 8) |. b) &. ((M <<. 8) |. m) = (b &. m) + 256 * (x &. M)) as ->.
  { rewrite byte_lor by (by apply is_byte_land). unfold is_byte in Hb, Hm'. rewrite <- (Z.mod_small b (2 ^ 8)), <- (Z.mod_small m (2 ^ 8)) by done. bitsolve. }
  assert ((((x <<. 8) |. b) >>. k) &. ((M <<. 8) |. m) = ((b >>. k) &. m) + 256 * ((x >>. k) &. M)) as ->.
  { rewrite byte_lor by (by apply is_byte_land). unfold is_byte in Hb. rewrite <- (Z.mod_small b (2 ^ 8)), <- (Z.mod_small m (2 ^ (8 - k))) by done. bitsolve. }
  lia.
Qed.

Lemma stage_bytes m k l : is_bytes l -> 0 < k < 8 -> 0 <= m < 2 ^ (8 - k) ->
  stage (of_bytes (replicate (length l) m)) k (of_bytes l) = of_bytes (stage m k <$> l).
Proof.
  intros Hl Hk Hm. induction Hl as [|b l Hb Hl IH]; [by unfold stage; simpl; rewrite Z.shiftr_0_l|].
  change (stage (m + 256 * of_bytes (replicate (length l) m)) k (b + 256 * of_bytes l) =
    stage m k b + 256 * of_bytes (stage m k <$> l)).
  by rewrite stage_byte, IH.
Qed.

Lemma bytes_of n : forall x, 0 <= x < 256 ^ Z.of_nat n -> exists l, length l = n /\ is_bytes l /\ x = of_bytes l.
Proof.
  induction n as [|n IH]; intros x Hx; [exists []; split_and!; [done|constructor|simpl in *; lia]|].
  rewrite Nat2Z.inj_succ, Z.pow_succ_r in Hx by lia. destruct (IH (x `div` 256)) as (l & Hl & Hb & E).
  { split; [apply Z.div_pos; lia|]. apply Z.div_lt_upper_bound; lia. }
  exists (x `mod` 256 :: l). split_and!; [simpl; lia|constructor; [apply Z.mod_pos_bound; lia|done]|].
  change (x = x `mod` 256 + 256 * of_bytes l). rewrite <- E. pose proof (Z.div_mod x 256). lia.
Qed.

(** The three stages on a byte count its bits. *)
Definition pop8_ok (b : Z) : bool :=
  let s1 := stage 0x55 1 b in let s2 := stage 0x33 2 s1 in
  (0 <=? s1) && (s1 <? 256) && (0 <=? s2) && (s2 <? 256) && (stage 0x0f 4 s2 =? cnt 8 b) && (0 <=? cnt 8 b) && (cnt 8 b <=? 8).

Lemma pop8 b : is_byte b -> is_byte (stage 0x55 1 b) /\ is_byte (stage 0x33 2 (stage 0x55 1 b)) /\
  stage 0x0f 4 (stage 0x33 2 (stage 0x55 1 b)) = cnt 8 b /\ 0 <= cnt 8 b <= 8.
Proof.
  intros Hb. pose proof (byte_forall pop8_ok eq_refl b Hb) as H. unfold pop8_ok in H. cbv zeta in H.
  rewrite !andb_true_iff, !Z.leb_le, !Z.ltb_lt, Z.eqb_eq in H. unfold is_byte. tauto.
Qed.

Lemma Forall_fmap_impl (f : Z -> Z) (P Q : Z -> Prop) l : (forall x, P x -> Q (f x)) -> Forall P l -> Forall Q (f <$> l).
Proof. intros H. induction 1; constructor; auto. Qed.

Lemma cnt_bytes l : is_bytes l -> cnt (8 * length l) (of_bytes l) = foldr Z.add 0 (cnt 8 <$> l).
Proof.
  induction 1 as [|b l Hb Hl IH]; [done|]. change (of_bytes (b :: l)) with (b + 256 * of_bytes l).
  replace (8 * length (b :: l))%nat with (8 + 8 * length l)%nat by (simpl; lia).
  rewrite cnt_byte; [|done|apply (of_bytes_range _ Hl)]. cbn [fmap list_fmap foldr]. by rewrite IH.
Qed.

(** The multiplication adds the eight bytes up. *)
Lemma sum_bytes C : length C = 8%nat -> Forall (fun c => 0 <= c <= 8) C ->
  u32 (u64 (of_bytes C * 0x0101010101010101) >>. 56) = foldr Z.add 0 C.
Proof.
  intros Hl Hc. destruct C as [|c0 [|c1 [|c2 [|c3 [|c4 [|c5 [|c6 [|c7 [|]]]]]]]]]; try done.
  repeat (apply Forall_cons in Hc as [? Hc]). unfold of_bytes. cbn [foldr]. unfold u64.
  set (low := (c0) * 256 ^ 0 + (c0+c1) * 256 ^ 1 + (c0+c1+c2) * 256 ^ 2 + (c0+c1+c2+c3) * 256 ^ 3 + (c0+c1+c2+c3+c4) * 256 ^ 4 + (c0+c1+c2+c3+c4+c5) * 256 ^ 5 + (c0+c1+c2+c3+c4+c5+c6) * 256 ^ 6).
  set (hi := (c1+c2+c3+c4+c5+c6+c7) * 256 ^ 0 + (c2+c3+c4+c5+c6+c7) * 256 ^ 1 + (c3+c4+c5+c6+c7) * 256 ^ 2 + (c4+c5+c6+c7) * 256 ^ 3 + (c5+c6+c7) * 256 ^ 4 + (c6+c7) * 256 ^ 5 + (c7) * 256 ^ 6).
  set (s := c0+c1+c2+c3+c4+c5+c6+c7).
  assert (0 <= low < 2 ^ 56) as Hlow by (unfold low; lia).
  assert (0 <= s <= 64) as Hs by (unfold s; lia).
  rewrite <- (Z.mod_unique _ _ hi (s * 2 ^ 56 + low)); [|lia|unfold s, low, hi; lia].
  rewrite Z.shiftr_div_pow2, Z.div_add_l, Z.div_small, u32_small by lia. unfold s. lia.
Qed.

Lemma popcount64_spec x : is_word x -> ewah_bit_popcount64 x = cnt 64 x.
Proof.
  intros Hx. destruct (bytes_of 8 x) as (l & Hl & Hb & ->); [exact Hx|].
  assert (forall l, is_bytes l -> length l = 8%nat -> u64 (of_bytes l) = of_bytes l) as Hu.
  { intros k Hk Hlk. apply u64_small. pose proof (of_bytes_range k Hk) as Hr. unfold len in Hr. rewrite Hlk in Hr. exact Hr. }
  unfold ewah_bit_popcount64.
  change 0x5555555555555555 with (of_bytes (replicate 8 0x55)). change 0x3333333333333333 with (of_bytes (replicate 8 0x33)).
  change 0x0F0F0F0F0F0F0F0F with (of_bytes (replicate 8 0x0f)).
  pose proof (stage_bytes 0x55 1 l Hb ltac:(lia) ltac:(lia)) as E1. rewrite Hl in E1. unfold stage in E1 at 1. rewrite E1. clear E1.
  assert (is_bytes (stage 0x55 1 <$> l)) as Hb1 by (eapply Forall_fmap_impl; [|exact Hb]; intros; by apply pop8).
  rewrite Hu by (rewrite ?length_fmap; done).
  pose proof (stage_bytes 0x33 2 _ Hb1 ltac:(lia) ltac:(lia)) as E2. rewrite length_fmap, Hl in E2. unfold stage in E2 at 1. rewrite E2. clear E2.
  rewrite <- list_fmap_compose.
  assert (is_bytes (stage 0x33 2 ∘ stage 0x55 1 <$> l)) as Hb2 by (eapply Forall_fmap_impl; [|exact Hb]; intros; by apply pop8).
  rewrite Hu by (rewrite ?length_fmap; done).
  pose proof (stage_bytes 0x0f 4 _ Hb2 ltac:(lia) ltac:(lia)) as E3. rewrite length_fmap, Hl in E3. unfold stage in E3 at 1. rewrite E3. clear E3.
  rewrite <- list_fmap_compose.
  assert (stage 0x0f 4 ∘ (stage 0x33 2 ∘ stage 0x55 1) <$> l = cnt 8 <$> l) as ->.
  { apply list_fmap_ext. intros i b Hi. destruct (pop8 b) as (_ & _ & E & _); [by apply (is_byte_lookup l i)|exact E]. }
  assert (Forall (fun c => 0 <= c <= 8) (cnt 8 <$> l)) as Hc.
  { eapply Forall_fmap_impl; [|exact Hb]. intros b ?. by apply pop8. }
  pose proof (cnt_bytes l Hb) as Ec. rewrite Hl in Ec. change (8 * 8)%nat with 64%nat in Ec. rewrite Ec.
  rewrite Hu; [|eapply Forall_impl; [exact Hc|]; unfold is_byte; intros; lia|by rewrite length_fmap].
  rewrite sum_bytes; [done|by rewrite length_fmap|done].
Qed.

Lemma cnt_range n : forall x, 0 <= cnt n x <= Z.of_nat n.
Proof. induction n as [|n IH]; intros x; cbn [cnt]; [lia|]. specialize (IH (x `div` 2)). destruct (Z.odd x); simpl Z.b2z; lia. Qed.

Definition total_count (W : list Z) : Z := foldr (fun x a => cnt 64 x + a) 0 W.

Lemma total_count_range W : 0 <= total_count W <= 64 * len W.
Proof.
  induction W as [|x W IH]; [done|]. change (total_count (x :: W)) with (cnt 64 x + total_count W).
  rewrite len_cons. pose proof (cnt_range 64 x). lia.
Qed.

Lemma total_count_positions W : forall pos, len (positions pos W) = total_count W.
Proof.
  induction W as [|x W IH]; intros pos; [done|]. cbn [positions]. rewrite len_app, IH.
  change 64 with (Z.of_nat 64) at 1. by rewrite cnt_filter.
Qed.

(** The number of positions in the set. *)
Lemma total_count_bits W : total_count W = len (filter (fun p => bit W p = true) (seqZ 0 (64 * len W))).
Proof. by rewrite <- positions_filter, total_count_positions. Qed.

Lemma popcount_loop b W : bm_ok b -> forall fuel i count, 0 <= i <= word_alloc b -> drop (Z.to_nat i) (bm_live b) = W -> (length W < fuel)%nat ->
  0 <= count -> count + 64 * len W < 2 ^ 64 ->
  loop fuel (popcount_step b) (i, count) = Ok (count + total_count W).
Proof.
  intros Hb. pose proof (len_bm_live b Hb) as Hl. induction W as [|x W IH]; intros fuel i count Hi Hd Hf Hc Hs;
    (destruct fuel as [|fuel]; [simpl in Hf; lia|]); rewrite loop_S; unfold popcount_step at 1.
  { apply (drop_len (bm_live b) i []) in Hd; [|lia]. change (len (@nil Z)) with 0 in Hd.
    destruct (Z.ltb_spec i (word_alloc b)); [lia|]. cbn [total_count foldr]. by rewrite Z.add_0_r. }
  pose proof Hd as Hlen. apply (drop_len (bm_live b) i) in Hlen; [|lia]. rewrite len_cons in *. pose proof (len_nonneg W).
  destruct (Z.ltb_spec i (word_alloc b)); [|lia].
  destruct (bm_live_lookup b i Hb ltac:(lia)) as (y & Hy & -> & Hyw). cbn [mbind res_bind].
  assert (y = x) as -> by (rewrite (drop_S _ _ _ Hy) in Hd; congruence).
  rewrite popcount64_spec by done. pose proof (cnt_range 64 x). rewrite u64_small by lia.
  rewrite IH; [|lia|by apply (drop_next _ _ x); [lia|]|simpl in Hf; lia|lia|lia].
  f_equal. change (total_count (x :: W)) with (cnt 64 x + total_count W). lia.
Qed.

Lemma ewah_popcount_loop W : Forall is_word W -> forall fuel it count, it_ok it W -> (length W < fuel)%nat ->
  0 <= count -> count + 64 * len W < 2 ^ 64 ->
  loop fuel ewah_popcount_step (it, count) = Ok (count + total_count W).
Proof.
  induction 1 as [|x W Hx HW IH]; intros fuel it count Hit Hf Hc Hs; (destruct fuel as [|fuel]; [simpl in Hf; lia|]);
    rewrite loop_S; unfold ewah_popcount_step at 1; pose proof (ewah_iterator_next_spec it _ Hit) as Hn;
    destruct (ewah_iterator_next it) as [[it' r]|]; try done; cbn [wp] in Hn.
  { destruct Hn as [-> ->]. cbn [mbind res_bind total_count foldr]. by rewrite Z.add_0_r. }
  destruct Hn as [Hit' ->]. cbn [mbind res_bind]. rewrite len_cons in Hs. pose proof (len_nonneg W).
  rewrite popcount64_spec by done. pose proof (cnt_range 64 x). rewrite u64_small by lia.
  rewrite IH; [|done|simpl in Hf; lia|lia|lia].
  f_equal. change (total_count (x :: W)) with (cnt 64 x + total_count W). lia.
Qed.

(** ** Claims *)










(** The side conditions on concrete bitmaps. *)
Ltac concrete_words := repeat first [apply Forall_nil_2 | apply Forall_cons_2; [unfold is_word; lia|]].
Ltac concrete_bitmap W := apply (words_bitmap W); [concrete_words|vm_compute; reflexivity].
Ltac concrete_ewah s := apply (ewah_of_rep s); constructor; cbn [s_run s_lits]; [lia|done|concrete_words].


(** C13: a bitmap of fewer than [2 ^ 39] words survives the round trip, unless memory runs out: [ewah_to_bitmap] of [bitmap_to_ewah] has
    the same bits, [bitmap_equals] says so of the two bitmaps, and
    [bitmap_equals_ewah] of the bitmap and its compressed form. *)
Theorem bitmap_ewah_roundtrip `{Memory} junk fuel b : bm_ok b -> word_alloc b < 2 ^ 39 -> (Z.to_nat (word_alloc b) + 1 < fuel)%nat ->
  wp oom (e ← bitmap_to_ewah junk b; b' ← ewah_to_bitmap junk fuel e;
      r ← bitmap_equals b b'; r' ← bitmap_equals_ewah fuel b e; Ok (b', r, r'))
    (fun '(b', r, r') => r = 1 /\ r' = 1 /\ forall p, 0 <= p -> bits b' p = bits b p).
Proof.
  intros Hb Hs Hf. apply wp_bind. eapply wp_mono; [apply bitmap_to_ewah_spec; [done|lia]|]. intros e (W & Hrep & _ & Hl & Hbits).
  apply wp_bind. eapply wp_mono; [apply (ewah_to_bitmap_spec junk fuel e W); [done|lia|llia]|]. intros b' [Hb' Hlive].
  apply wp_bind, total_wp. eapply wp_mono; [by apply bitmap_equals_spec|]. intros r Hr.
  apply wp_bind, total_wp. eapply wp_mono; [apply (bitmap_equals_ewah_spec fuel b e W); [done|done|llia]|]. intros r' Hr'. cbn [wp].
  assert (forall p, 0 <= p -> bits b' p = bits b p) as He by (intros p Hp; unfold bits at 1; by rewrite Hlive, Hbits).
  destruct Hr as [[-> _]|[_ Hr]]; [|exfalso; apply Hr; intros p Hp; by rewrite He].
  destruct Hr' as [[-> _]|[_ Hr']]; [done|]. exfalso. apply Hr'. intros p Hp. by rewrite Hbits.
Qed.

Lemma bitmap_ewah_roundtrip_witness :
  wp (@oom plenty) (e ← @bitmap_to_ewah plenty 7 (mkBitmap [0; 5; 0; 0; 2 ^ 64 - 1; 0] 6); b' ← @ewah_to_bitmap plenty 7 8 e;
      r ← bitmap_equals (mkBitmap [0; 5; 0; 0; 2 ^ 64 - 1; 0] 6) b';
      r' ← bitmap_equals_ewah 8 (mkBitmap [0; 5; 0; 0; 2 ^ 64 - 1; 0] 6) e; Ok (b', r, r'))
    (fun '(b', r, r') => r = 1 /\ r' = 1 /\ forall p, 0 <= p -> bits b' p = bits (mkBitmap [0; 5; 0; 0; 2 ^ 64 - 1; 0] 6) p).
Proof.
  apply (@bitmap_ewah_roundtrip plenty 7 8 (mkBitmap [0; 5; 0; 0; 2 ^ 64 - 1; 0] 6)).
  - concrete_bitmap [0; 5; 0; 0; 2 ^ 64 - 1; 0].
  - cbn. lia.
  - cbn. lia.
Defined.

(** [bitmap_is_subset] returns 1 when [self] is not a subset of [other], and
    [ewah_bitmap_is_subset] returns 1 when it is: the header documents the second
    behaviour for both. *)
Theorem bitmap_is_subset_inverted fuel b o e W : bm_ok b -> bm_ok o -> rep e W -> (length W < fuel)%nat ->
  total (bitmap_is_subset b o) (fun r => reports r (~ forall p, 0 <= p -> bits b p = true -> bits o p = true)) /\
  total (ewah_bitmap_is_subset fuel e o) (fun r => reports r (forall p, 0 <= p -> bit W p = true -> bits o p = true)).
Proof. intros Hb Ho He Hf. split; [by apply bitmap_is_subset_spec|by apply ewah_bitmap_is_subset_spec]. Qed.

Lemma bitmap_is_subset_inverted_witness :
  total (bitmap_is_subset (mkBitmap [1] 1) (mkBitmap [3] 1)) (fun r => reports r (~ forall p, 0 <= p -> bits (mkBitmap [1] 1) p = true -> bits (mkBitmap [3] 1) p = true)) /\
  total (ewah_bitmap_is_subset 2 (ewah_of (mkSeg false 0 [1])) (mkBitmap [3] 1)) (fun r => reports r (forall p, 0 <= p -> bit [1] p = true -> bits (mkBitmap [3] 1) p = true)).
Proof.
  apply (bitmap_is_subset_inverted 2 (mkBitmap [1] 1) (mkBitmap [3] 1) (ewah_of (mkSeg false 0 [1])) [1]).
  - concrete_bitmap [1].
  - concrete_bitmap [3].
  - concrete_ewah (mkSeg false 0 [1]).
  - cbn. lia.
Defined.

(** [bitmap_popcount], which counts the bits of a word in parallel, returns the
    number of positions in the set; [ewah_bitmap_popcount] counts the same for a
    compressed bitmap. *)
Theorem bitmap_popcount_counts fuel b e W : bm_ok b -> rep e W -> len W < 2 ^ 40 -> (length W < fuel)%nat ->
  bitmap_popcount b = Ok (len (filter (fun p => bits b p = true) (seqZ 0 (64 * word_alloc b)))) /\
  ewah_bitmap_popcount fuel e = Ok (len (filter (fun p => bit W p = true) (seqZ 0 (64 * len W)))).
Proof.
  intros Hb He Hs Hf. pose proof (bm_alloc _ Hb). pose proof (bm_bound _ Hb). pose proof (len_bm_live b Hb) as Hl. split.
  - unfold bitmap_popcount. rewrite (popcount_loop b (bm_live b) Hb); [|lia|done|unfold len in *; lia|lia|lia].
    rewrite total_count_bits. unfold bits. by rewrite Hl.
  - assert (Forall is_word W) as Hw.
    { destruct (rep_buffer e W He) as (ss & _ & _ & Hok & _ & _ & -> & _). by apply words_ok. }
    unfold ewah_bitmap_popcount. pose proof (ewah_iterator_init_spec e W He) as Hi.
    destruct (ewah_iterator_init e) as [it|]; [|done]. cbn [mbind res_bind wp] in *.
    rewrite (ewah_popcount_loop W Hw); [|done|done|lia|lia]. by rewrite <- total_count_bits.
Qed.

Lemma bitmap_popcount_counts_witness :
  bitmap_popcount (mkBitmap [7; 2 ^ 63] 2) = Ok 4 /\ ewah_bitmap_popcount 3 (ewah_of (mkSeg true 1 [3])) = Ok 66.
Proof.
  destruct (bitmap_popcount_counts 3 (mkBitmap [7; 2 ^ 63] 2) (ewah_of (mkSeg true 1 [3])) [Z.ones 64; 3]) as [E1 E2].
  - concrete_bitmap [7; 2 ^ 63].
  - concrete_ewah (mkSeg true 1 [3]).
  - by vm_compute.
  - cbn. lia.
  - split; [exact E1|exact E2].
Defined.
