(* ===== verification/CString.v ===== *)
(** * C strings: [ctype.c], [sane-ctype.h] and the prefix and suffix tests of
    [strbuf.c] and [git-compat-util.h]

    A [char *] is an object [mem], a list of bytes, and an index into it; bytes
    are kept as [unsigned char].  The functions of the C library that the
    sources use are defined on the same representation: they are undefined
    behaviour when the string is not terminated inside its object. *)

From stdpp Require Import prelude numbers list.
From S2P Require Import Prelude.

(** ** Character classes *)

Definition GIT_SPACE : Z := 0x01.
Definition GIT_DIGIT : Z := 0x02.
Definition GIT_ALPHA : Z := 0x04.
Definition GIT_GLOB_SPECIAL : Z := 0x08.
Definition GIT_REGEX_SPECIAL : Z := 0x10.
Definition GIT_PATHSPEC_MAGIC : Z := 0x20.
Definition GIT_CNTRL : Z := 0x40.
Definition GIT_PUNCT : Z := 0x80.

Definition sane_ctype : list Z :=
  let S := GIT_SPACE in let A := GIT_ALPHA in let D := GIT_DIGIT in
  let G := GIT_GLOB_SPECIAL in let R := GIT_REGEX_SPECIAL in let P := GIT_PATHSPEC_MAGIC in
  let X := GIT_CNTRL in let U := GIT_PUNCT in let Z := GIT_CNTRL |. GIT_SPACE in
  [X; X; X; X; X; X; X; X; X; Z; Z; X; X; Z; X; X;
   X; X; X; X; X; X; X; X; X; X; X; X; X; X; X; X;
   S; P; P; P; R; P; P; P; R; R; G; R; P; P; R; P;
   D; D; D; D; D; D; D; D; D; D; P; P; P; P; P; G;
   P; A; A; A; A; A; A; A; A; A; A; A; A; A; A; A;
   A; A; A; A; A; A; A; A; A; A; A; G; G; U; R; P;
   P; A; A; A; A; A; A; A; A; A; A; A; A; A; A; A;
   A; A; A; A; A; A; A; A; A; A; A; R; R; U; P; X] ++ replicate 128 0.

Definition sane_istest (x mask : Z) : bool := tr ((sane_ctype !!! Z.to_nat (u8 x)) &. mask).

Definition isascii (x : Z) : bool := (x &. Z.lnot 0x7f) =? 0.
Definition isspace (x : Z) : bool := sane_istest x GIT_SPACE.
Definition isdigit (x : Z) : bool := sane_istest x GIT_DIGIT.
Definition isalpha (x : Z) : bool := sane_istest x GIT_ALPHA.
Definition isalnum (x : Z) : bool := sane_istest x (GIT_ALPHA |. GIT_DIGIT).
Definition isprint (x : Z) : bool := (0x20 <=? x) && (x <=? 0x7e).
Definition is_glob_special (x : Z) : bool := sane_istest x GIT_GLOB_SPECIAL.
Definition is_regex_special (x : Z) : bool := sane_istest x (GIT_GLOB_SPECIAL |. GIT_REGEX_SPECIAL).
Definition iscntrl (x : Z) : bool := sane_istest x GIT_CNTRL.
Definition ispunct (x : Z) : bool :=
  sane_istest x (GIT_PUNCT |. GIT_REGEX_SPECIAL |. GIT_GLOB_SPECIAL |. GIT_PATHSPEC_MAGIC).

Definition sane_case (x high : Z) : Z :=
  if sane_istest x GIT_ALPHA then (x &. Z.lnot 0x20) |. high else x.

Definition sane_iscase (x : Z) (is_lower : bool) : bool :=
  if negb (sane_istest x GIT_ALPHA) then false
  else if is_lower then tr (x &. 0x20) else negb (tr (x &. 0x20)).

Definition islower (x : Z) : bool := sane_iscase x true.
Definition isupper (x : Z) : bool := sane_iscase x false.
Definition tolower (x : Z) : Z := sane_case (u8 x) 0x20.
Definition toupper (x : Z) : Z := sane_case (u8 x) 0.

(** ** The C library *)

(** The length of the longest prefix of [l] inside [p]. *)
Fixpoint span (p : Z -> bool) (l : list Z) : nat :=
  match l with
  | [] => O
  | c :: l => if p c then S (span p l) else O
  end.

(** Scan from [i] while [p] holds; the byte that stops the scan is read too. *)
Definition scan (p : Z -> bool) (mem : list Z) (i : Z) : res Z :=
  if i <? 0 then Fault UB
  else
    let l := drop (Z.to_nat i) mem in
    let n := span p l in
    if decide (n < length l)%nat then Ok (Z.of_nat n) else Fault UB.

Definition strlen (mem : list Z) (i : Z) : res Z := scan (fun c => tr c) mem i.

(** [reject] is the list of the characters of the second argument. *)
Definition strcspn (mem : list Z) (i : Z) (reject : list Z) : res Z :=
  scan (fun c => tr c && negb (bool_decide (c ∈ reject))) mem i.

(** The index of the first [c] among [n] bytes, [None] for [NULL]. *)
Definition memchr (mem : list Z) (i c n : Z) : res (option Z) :=
  l ← rd_slice mem i n;
  let k := span (fun x => negb (x =? c)) l in
  Ok (if decide (k < length l)%nat then Some (i + Z.of_nat k) else None).

(** [strchr(s, c)] for a literal [s] of the characters [set]. *)
Definition strchr_in (set : list Z) (c : Z) : bool := (c =? 0) || bool_decide (c ∈ set).

(** [memcmp] of two byte sequences of the same length: its sign. *)
Fixpoint memcmp (a b : list Z) : Z :=
  match a, b with
  | x :: a, y :: b => if x =? y then memcmp a b else if x <? y then -1 else 1
  | _, _ => 0
  end.

(** ** Prefixes and suffixes *)

Definition starts_with_step (str prefix : list Z) (st : Z * Z) : res (Z * Z + bool) :=
  let '(s, p) := st in
  c ← rd prefix p;
  if negb (tr c) then Ok (inr true)
  else
    d ← rd str s;
    if negb (d =? c) then Ok (inr false) else Ok (inl (s + 1, p + 1)).

Definition starts_with (str : list Z) (s : Z) (prefix : list Z) (p : Z) : res bool :=
  loop (S (length prefix)) (starts_with_step str prefix) (s, p).

Definition istarts_with_step (str prefix : list Z) (st : Z * Z) : res (Z * Z + bool) :=
  let '(s, p) := st in
  c ← rd prefix p;
  if negb (tr c) then Ok (inr true)
  else
    d ← rd str s;
    if negb (tolower d =? tolower c) then Ok (inr false) else Ok (inl (s + 1, p + 1)).

Definition istarts_with (str : list Z) (s : Z) (prefix : list Z) (p : Z) : res bool :=
  loop (S (length prefix)) (istarts_with_step str prefix) (s, p).

Definition starts_with_mem_step (str : list Z) (end_ : Z) (prefix : list Z) (st : Z * Z) : res (Z * Z + bool) :=
  let '(s, p) := st in
  c ← rd prefix p;
  if negb (tr c) then Ok (inr true)
  else if s =? end_ then Ok (inr false)
  else
    d ← rd str s;
    if negb (d =? c) then Ok (inr false) else Ok (inl (s + 1, p + 1)).

Definition starts_with_mem (str : list Z) (s n : Z) (prefix : list Z) (p : Z) : res bool :=
  loop (S (length prefix)) (starts_with_mem_step str (s + n) prefix) (s, p).

(** [Some out] when it returns true. *)
Definition skip_prefix_step (str prefix : list Z) (st : Z * Z) : res (Z * Z + option Z) :=
  let '(s, p) := st in
  c ← rd prefix p;
  if negb (tr c) then Ok (inr (Some s))
  else
    d ← rd str s;
    if d =? c then Ok (inl (s + 1, p + 1)) else Ok (inr None).

Definition skip_prefix (str : list Z) (s : Z) (prefix : list Z) (p : Z) : res (option Z) :=
  loop (S (length prefix)) (skip_prefix_step str prefix) (s, p).

(** [Some (out, outlen)]. *)
Definition skip_prefix_mem (buf : list Z) (b n : Z) (prefix : list Z) (p : Z) : res (option (Z * Z)) :=
  prefix_len ← strlen prefix p;
  if prefix_len <=? n then
    x ← rd_slice buf b prefix_len; y ← rd_slice prefix p prefix_len;
    if negb (tr (memcmp x y)) then Ok (Some (b + prefix_len, n - prefix_len)) else Ok None
  else Ok None.

(** [Some len'] when it returns true. *)
Definition strip_suffix_mem (buf : list Z) (b n : Z) (suffix : list Z) (p : Z) : res (option Z) :=
  suflen ← strlen suffix p;
  if n <? suflen then Ok None
  else
    x ← rd_slice buf (b + (n - suflen)) suflen; y ← rd_slice suffix p suflen;
    if tr (memcmp x y) then Ok None else Ok (Some (n - suflen)).

(** The flag and the length that [*len] receives. *)
Definition strip_suffix (str : list Z) (s : Z) (suffix : list Z) (p : Z) : res (bool * Z) :=
  n ← strlen str s;
  r ← strip_suffix_mem str s n suffix p;
  match r with Some n' => Ok (true, n') | None => Ok (false, n) end.

Definition ends_with (str : list Z) (s : Z) (suffix : list Z) (p : Z) : res bool :=
  '(r, _) ← strip_suffix str s suffix p; Ok r.

(** An argument [arg]: [Def] is the default, [At i] a pointer into the string. *)
Inductive opt_arg := Def | At (i : Z).

Definition skip_to_optional_arg_default (str : list Z) (s : Z) (prefix : list Z) (p : Z) : res (option opt_arg) :=
  r ← skip_prefix str s prefix p;
  match r with
  | None => Ok None
  | Some q =>
      c ← rd str q;
      if negb (tr c) then Ok (Some Def)
      else if negb (c =? 61) then Ok None
      else Ok (Some (At (q + 1)))
  end.

(** ** Strings in memory *)

(** The string [s] starts at [i]; bytes other than NUL follow from the
    terminator being the first. *)
Definition cstr (mem : list Z) (i : Z) (s : list Z) : Prop :=
  0 <= i /\ Forall (fun c => c <> 0) s /\ exists rest, drop (Z.to_nat i) mem = s ++ 0 :: rest.

Lemma span_app (p : Z -> bool) a c rest :
  Forall (fun x => p x = true) a -> p c = false -> span p (a ++ c :: rest) = length a.
Proof. intros Ha Hc. induction Ha as [|x a Hx Ha IH]; simpl; [by rewrite Hc|]. by rewrite Hx, IH. Qed.

Lemma span_le p l : (span p l <= length l)%nat.
Proof. induction l as [|c l IH]; simpl; [lia|]. destruct (p c); lia. Qed.

Lemma span_split p l : exists a b, l = a ++ b /\ length a = span p l /\ Forall (fun x => p x = true) a /\
  (forall c b', b = c :: b' -> p c = false).
Proof.
  induction l as [|c l IH]; simpl; [by exists [], []|]. destruct (p c) eqn:E.
  - destruct IH as (a & b & -> & Ha & Hp & Hb). exists (c :: a), b. simpl. rewrite Ha. by split_and!; try constructor.
  - exists [], (c :: l). split_and!; [done..|constructor|]. by intros ? ? [= -> ->].
Qed.

(** A string is a run without [p] and a rest that is empty or starts with it. *)
Lemma span_cases (p : Z -> bool) t : exists a b, t = a ++ b /\ Forall (fun c => p c = false) a /\
  (b = [] \/ exists c b', b = c :: b' /\ p c = true).
Proof.
  destruct (span_split (fun c => negb (p c)) t) as (a & b & -> & _ & Ha & Hb). exists a, b. split_and!; [done| |].
  - eapply Forall_impl; [exact Ha|]. intros c Hc. cbn beta in Hc. by destruct (p c).
  - destruct b as [|c b]; [by left|right]. exists c, b. split; [done|]. specialize (Hb c b eq_refl). cbn beta in Hb. by destruct (p c).
Qed.

Lemma scan_ok p mem i a c rest : 0 <= i -> drop (Z.to_nat i) mem = a ++ c :: rest ->
  Forall (fun x => p x = true) a -> p c = false -> scan p mem i = Ok (len a).
Proof.
  intros Hi Hd Ha Hc. unfold scan. destruct (Z.ltb_spec i 0); [lia|]. rewrite Hd, span_app by done.
  rewrite decide_True; [done|]. rewrite length_app. simpl. lia.
Qed.

Lemma strlen_ok mem i s : cstr mem i s -> strlen mem i = Ok (len s).
Proof.
  intros (Hi & Hs & rest & Hd). eapply scan_ok; [done|done| |done].
  eapply Forall_impl; [exact Hs|]. intros c Hc. by apply tr_true.
Qed.

Lemma rd_drop_cons {A} (l : list A) i x rest : 0 <= i -> drop (Z.to_nat i) l = x :: rest -> rd l i = Ok x.
Proof.
  intros Hi Hd. apply rd_Some; [done|]. rewrite <- (Nat.add_0_r (Z.to_nat i)), <- lookup_drop, Hd. done.
Qed.

Lemma drop_cons_tail {A} (l : list A) i x rest : 0 <= i -> drop (Z.to_nat i) l = x :: rest ->
  drop (Z.to_nat (i + 1)) l = rest.
Proof.
  intros Hi Hd. replace (Z.to_nat (i + 1)) with (Z.to_nat i + 1)%nat by lia. by rewrite <- drop_drop, Hd.
Qed.

Lemma drop_app_tail {A} (l : list A) i a rest : 0 <= i -> drop (Z.to_nat i) l = a ++ rest ->
  drop (Z.to_nat (i + len a)) l = rest.
Proof.
  intros Hi Hd. replace (Z.to_nat (i + len a)) with (Z.to_nat i + length a)%nat by llia.
  by rewrite <- drop_drop, Hd, drop_app_length.
Qed.

Lemma rd_slice_at {A} (l : list A) i a x rest : 0 <= i -> drop (Z.to_nat i) l = a ++ x :: rest ->
  rd_slice l i (len a) = Ok a.
Proof.
  intros Hi Hd. rewrite rd_slice_ok; [|done|apply len_nonneg|].
  - f_equal. unfold slice. rewrite Hd. replace (Z.to_nat (len a)) with (length a) by llia. apply take_app_length.
  - apply (f_equal length) in Hd. rewrite length_drop, length_app in Hd. simpl in *. llia.
Qed.

(** Walking along a string. *)
Lemma cstr_rd mem p l : cstr mem p l -> rd mem p = Ok (hd 0 l).
Proof. intros (Hp & _ & rest & Hd). destruct l; by eapply rd_drop_cons. Qed.

Lemma cstr_tl mem p c l : cstr mem p (c :: l) -> cstr mem (p + 1) l.
Proof.
  intros (Hp & Hnz & rest & Hd). apply Forall_cons in Hnz as [_ Hnz]. split_and!; [lia|done|]. exists rest. by eapply drop_cons_tail.
Qed.

Lemma cstr_app mem p a l : cstr mem p (a ++ l) -> cstr mem (p + len a) l.
Proof.
  intros (Hp & Hnz & rest & Hd). apply Forall_app in Hnz as [_ Hnz]. pose proof (len_nonneg a). split_and!; [lia|done|]. exists rest.
  rewrite <- app_assoc in Hd. by eapply drop_app_tail.
Qed.

Lemma cstr_nz mem p c l : cstr mem p (c :: l) -> c <> 0.
Proof. intros (_ & Hnz & _). by apply Forall_cons in Hnz as [? _]. Qed.

Lemma cstr_length mem p l : cstr mem p l -> (length l < length mem)%nat.
Proof. intros (_ & _ & rest & Hd). apply (f_equal length) in Hd. rewrite length_drop, length_app in Hd. simpl in Hd. lia. Qed.

(** The string up to its first character outside [p]. *)
Lemma cstr_scan (p : Z -> bool) mem i a b : cstr mem i (a ++ b) -> Forall (fun c => p c = true) a -> p (hd 0 b) = false ->
  scan p mem i = Ok (len a) /\ cstr mem (i + len a) b.
Proof.
  intros Hs Ha Hb. split; [|by apply cstr_app]. destruct Hs as (Hi & _ & rest & Hd). rewrite <- app_assoc in Hd.
  destruct b as [|x b]; by eapply scan_ok.
Qed.

Lemma memcmp_0 a b : length a = length b -> memcmp a b = 0 <-> a = b.
Proof.
  revert b. induction a as [|x a IH]; intros [|y b]; simpl; try done. intros [= Hl].
  destruct (Z.eqb_spec x y) as [->|]; [rewrite IH by done; naive_solver|].
  split; [destruct (x <? y); lia|congruence].
Qed.

(** [q] is a prefix of [t] up to the comparison [eqc] of characters. *)
Fixpoint matches (eqc : Z -> Z -> bool) (t q : list Z) {struct q} : bool :=
  match q, t with
  | [], _ => true
  | c :: q, d :: t => eqc d c && matches eqc t q
  | _ :: _, [] => false
  end.

Lemma matches_prefix t q : matches Z.eqb t q = bool_decide (q `prefix_of` t).
Proof.
  revert t. induction q as [|c q IH]; intros t.
  - symmetry. apply bool_decide_eq_true_2, prefix_nil.
  - destruct t as [|d t]; cbn [matches].
    + symmetry. apply bool_decide_eq_false_2, prefix_nil_not.
    + destruct (Z.eqb_spec d c) as [->|Hn]; cbn [andb].
      * rewrite IH. apply bool_decide_ext. split; [apply prefix_cons|apply prefix_cons_inv_2].
      * symmetry. apply bool_decide_eq_false_2. intros H. apply prefix_cons_inv_1 in H. congruence.
Qed.

(** The prefix loops, for any comparison [eqc] of characters. *)
Section PrefixLoop.
Context {R : Type} (eqc : Z -> Z -> bool) (found : Z -> R) (missed : R).
Context (step : list Z -> list Z -> Z * Z -> res (Z * Z + R)).
Hypothesis Hstep : forall str prefix s p, step str prefix (s, p) =
  (c ← rd prefix p; if negb (tr c) then Ok (inr (found s)) else
   d ← rd str s; if negb (eqc d c) then Ok (inr missed) else Ok (inl (s + 1, p + 1))).

(** [t] is any data with a NUL behind it, and NUL is not equal to a character of the prefix. *)
Lemma prefix_loop str prefix q : Forall (fun c => c <> 0 /\ eqc 0 c = false) q ->
  forall fuel s p t rest rest', 0 <= s -> 0 <= p -> (length q < fuel)%nat ->
  drop (Z.to_nat s) str = t ++ 0 :: rest -> drop (Z.to_nat p) prefix = q ++ 0 :: rest' ->
  loop fuel (step str prefix) (s, p) = Ok (if matches eqc t q then found (s + len q) else missed).
Proof using Hstep.
  induction 1 as [|c q [Hc0 Hc0'] Hq IH]; intros fuel s p t rest rest' Hs Hp Hf Ht Hd;
    (destruct fuel as [|fuel]; [simpl in Hf; lia|]); rewrite loop_S, Hstep, (rd_drop_cons _ _ _ _ Hp Hd); cbn [mbind res_bind].
  - simpl. change (len []) with 0. by rewrite Z.add_0_r.
  - rewrite (proj2 (tr_true c)) by done. cbn [negb].
    destruct t as [|d t]; rewrite (rd_drop_cons _ _ _ _ Hs Ht); cbn [mbind res_bind]; [by rewrite Hc0'|].
    simpl. destruct (eqc d c); [|done]. simpl.
    rewrite (IH fuel (s + 1) (p + 1) t rest rest') by (simpl in Hf; try lia; by eapply drop_cons_tail).
    by rewrite len_cons, Z.add_assoc.
Qed.

Lemma prefix_run str prefix s p t q : 0 <= s -> (exists rest, drop (Z.to_nat s) str = t ++ 0 :: rest) ->
  cstr prefix p q -> Forall (fun c => c <> 0 -> eqc 0 c = false) q ->
  loop (S (length prefix)) (step str prefix) (s, p) = Ok (if matches eqc t q then found (s + len q) else missed).
Proof using Hstep.
  intros Hs (rest & Ht) (Hp & Hq & rest' & Hd) H0. eapply prefix_loop; try done.
  - rewrite Forall_forall in *. naive_solver.
  - apply (f_equal length) in Hd. rewrite length_drop, length_app in Hd. simpl in Hd. lia.
Qed.
End PrefixLoop.

Lemma eqb_nul q : Forall (fun c => c <> 0 -> (0 =? c) = false) q.
Proof. apply Forall_forall. intros c _ Hc. apply Z.eqb_neq. lia. Qed.

(** [starts_with] on data that may contain NUL, with a NUL behind it. *)
Lemma starts_with_data str s t prefix p q : 0 <= s -> (exists rest, drop (Z.to_nat s) str = t ++ 0 :: rest) ->
  cstr prefix p q -> starts_with str s prefix p = Ok (bool_decide (q `prefix_of` t)).
Proof.
  intros Hs Ht Hq. unfold starts_with.
  rewrite (prefix_run Z.eqb (fun _ => true) false starts_with_step) with (t := t) (q := q); [|reflexivity|done..|apply eqb_nul].
  rewrite matches_prefix. by case_bool_decide.
Qed.

Lemma cstr_data mem i s : cstr mem i s -> 0 <= i /\ exists rest, drop (Z.to_nat i) mem = s ++ 0 :: rest.
Proof. by intros (? & _ & ?). Qed.

Lemma skip_prefix_ok str s t prefix p q : cstr str s t -> cstr prefix p q ->
  skip_prefix str s prefix p = Ok (if bool_decide (q `prefix_of` t) then Some (s + len q) else None).
Proof.
  intros [Hs Ht]%cstr_data Hq. unfold skip_prefix.
  rewrite (prefix_run Z.eqb Some None skip_prefix_step) with (t := t) (q := q); try done; [by rewrite matches_prefix| |apply eqb_nul].
  intros ? ? ? ?. unfold skip_prefix_step. destruct (rd prefix0 p0) as [c|]; simpl; [|done]. destruct (tr c); [|done]. simpl.
  destruct (rd str0 s0) as [d|]; simpl; [|done]. by destruct (d =? c).
Qed.

Lemma starts_with_mem_ok str s t prefix p q : 0 <= s -> (exists rest, drop (Z.to_nat s) str = t ++ rest) ->
  cstr prefix p q -> starts_with_mem str s (len t) prefix p = Ok (bool_decide (q `prefix_of` t)).
Proof.
  intros Hs (rest & Ht) (Hp & Hq & rest' & Hd). unfold starts_with_mem. rewrite <- matches_prefix.
  assert (length q < S (length prefix))%nat as Hf.
  { apply (f_equal length) in Hd. rewrite length_drop, length_app in Hd. simpl in Hd. lia. }
  revert s p t Hs Hp Ht Hd Hf. generalize (S (length prefix)). clear -Hq.
  induction Hq as [|c q Hc Hq IH]; intros fuel s p t Hs Hp Ht Hd Hf; (destruct fuel as [|fuel]; [simpl in Hf; lia|]);
    rewrite loop_S; unfold starts_with_mem_step at 1; rewrite (rd_drop_cons _ _ _ _ Hp Hd); cbn [mbind res_bind]; [done|].
  rewrite (proj2 (tr_true c)) by done. cbn [negb]. destruct t as [|d t]; cbn [matches].
  - change (len []) with 0. rewrite Z.add_0_r, Z.eqb_refl. done.
  - rewrite len_cons. pose proof (len_nonneg t). destruct (Z.eqb_spec s (s + (1 + len t))); [lia|].
    rewrite (rd_drop_cons _ _ _ _ Hs Ht). cbn [mbind res_bind]. destruct (d =? c); [|done]. cbn [negb andb].
    rewrite Z.add_assoc. apply IH; [lia|lia|by eapply drop_cons_tail|by eapply drop_cons_tail|simpl in Hf; lia].
Qed.

Lemma memcmp_tr a b : length a = length b -> tr (memcmp a b) = negb (bool_decide (a = b)).
Proof.
  intros Hl. destruct (bool_decide (a = b)) eqn:E; simpl.
  - apply bool_decide_eq_true in E. apply tr_false. by apply memcmp_0.
  - apply bool_decide_eq_false in E. apply tr_true. by rewrite memcmp_0.
Qed.

Lemma strip_suffix_mem_ok buf b t suffix p q : 0 <= b -> (exists x rest, drop (Z.to_nat b) buf = t ++ x :: rest) ->
  cstr suffix p q ->
  strip_suffix_mem buf b (len t) suffix p = Ok (if bool_decide (q `suffix_of` t) then Some (len t - len q) else None).
Proof.
  intros Hb (x & rest & Ht) Hq. unfold strip_suffix_mem. rewrite (strlen_ok _ _ _ Hq). cbn [mbind res_bind].
  destruct (Z.ltb_spec (len t) (len q)) as [Hlt|Hge].
  - rewrite bool_decide_eq_false_2; [done|]. intros [k ->]. rewrite len_app in Hlt. pose proof (len_nonneg k). lia.
  - destruct Hq as (Hp & Hq & rest' & Hd). pose proof (len_nonneg q).
    assert (exists a c, t = a ++ c /\ length c = length q) as (a & c & -> & Ec).
    { exists (take (length t - length q) t), (drop (length t - length q) t).
      split; [symmetry; apply take_drop|]. rewrite length_drop. llia. }
    rewrite <- app_assoc in Ht. rewrite len_app. replace (len q) with (len c) by llia.
    replace (len a + len c - len c) with (len a) by lia.
    rewrite (rd_slice_at buf (b + len a) c x rest); [|pose proof (len_nonneg a); lia|by eapply drop_app_tail].
    replace (len c) with (len q) by llia.
    cbn [mbind res_bind]. rewrite (rd_slice_at _ _ _ _ _ Hp Hd). cbn [mbind res_bind]. rewrite memcmp_tr by done.
    destruct (decide (c = q)) as [->|Hn].
    + rewrite !bool_decide_eq_true_2; [done|by exists a|done].
    + rewrite !bool_decide_eq_false_2; [done| |done]. intros [k Hk]. apply app_inj_2 in Hk as [_ ->]; done.
Qed.

Lemma skip_prefix_mem_ok buf b t prefix p q : 0 <= b -> (exists x rest, drop (Z.to_nat b) buf = t ++ x :: rest) ->
  cstr prefix p q -> skip_prefix_mem buf b (len t) prefix p =
    Ok (if bool_decide (q `prefix_of` t) then Some (b + len q, len t - len q) else None).
Proof.
  intros Hb (x & rest & Ht) Hq. unfold skip_prefix_mem. rewrite (strlen_ok _ _ _ Hq). cbn [mbind res_bind].
  destruct (Z.leb_spec (len q) (len t)) as [Hle|Hgt].
  - destruct Hq as (Hp & Hq & rest' & Hd).
    assert (exists a c, t = a ++ c /\ length a = length q) as (a & c & -> & Ea).
    { exists (take (length q) t), (drop (length q) t). split; [symmetry; apply take_drop|]. rewrite length_take. llia. }
    rewrite <- app_assoc in Ht. assert (exists y rest', c ++ x :: rest = y :: rest') as (y & r2 & Ey)
      by (destruct c; eexists _, _; reflexivity). rewrite Ey in Ht.
    replace (len q) with (len a) at 1 by llia. rewrite (rd_slice_at _ _ _ _ _ Hb Ht). cbn [mbind res_bind].
    rewrite (rd_slice_at _ _ _ _ _ Hp Hd). cbn [mbind res_bind]. rewrite memcmp_tr by done.
    destruct (decide (a = q)) as [->|Hn].
    + rewrite !bool_decide_eq_true_2; [done|by exists c|done].
    + rewrite !bool_decide_eq_false_2; [done| |done]. intros [k Hk]. apply app_inj_1 in Hk as [-> _]; done.
  - rewrite bool_decide_eq_false_2; [done|]. intros [k ->]. rewrite len_app in Hgt. pose proof (len_nonneg k). lia.
Qed.

(** ** The classes are those of ASCII *)

Definition between (lo hi c : Z) : bool := (lo <=? c) && (c <=? hi).
Definition ascii_lower (c : Z) : bool := between 97 122 c.
Definition ascii_upper (c : Z) : bool := between 65 90 c.

Lemma tolower_spec c : is_byte c -> tolower c = if ascii_upper c then c + 32 else c.
Proof. intros Hc. apply Z.eqb_eq. revert c Hc. by apply byte_forall. Qed.

Lemma isspace_spec c : is_byte c -> isspace c = bool_decide (c ∈ [9; 10; 13; 32]).
Proof. intros Hc. apply eqb_true_iff. revert c Hc. by apply byte_forall. Qed.

Lemma isalnum_spec c : is_byte c -> isalnum c = between 48 57 c || ascii_upper c || ascii_lower c.
Proof. intros Hc. apply eqb_true_iff. revert c Hc. by apply byte_forall. Qed.

(** The character classes of the table are those of ASCII for every byte:
    white space is tab, newline, carriage return and space, letters, digits and
    the case of letters are the English ones, every printable character that is
    neither a letter, a digit nor a space is punctuation, and no byte above 127
    is in any class; [tolower] and [toupper] change exactly the letters of the
    other case. *)
Theorem ctype_ascii c : is_byte c ->
  isspace c = bool_decide (c ∈ [9; 10; 13; 32]) /\
  isdigit c = between 48 57 c /\
  isalpha c = ascii_upper c || ascii_lower c /\
  isalnum c = isalpha c || isdigit c /\
  islower c = ascii_lower c /\ isupper c = ascii_upper c /\
  iscntrl c = between 0 31 c || (c =? 127) /\
  ispunct c = between 33 126 c && negb (isalnum c) /\
  tolower c = (if ascii_upper c then c + 32 else c) /\
  toupper c = (if ascii_lower c then c - 32 else c).
Proof.
  intros Hc. pose (f := fun c => Bool.eqb (isspace c) (bool_decide (c ∈ [9; 10; 13; 32])) &&
    Bool.eqb (isdigit c) (between 48 57 c) && Bool.eqb (isalpha c) (ascii_upper c || ascii_lower c) &&
    Bool.eqb (isalnum c) (isalpha c || isdigit c) && Bool.eqb (islower c) (ascii_lower c) &&
    Bool.eqb (isupper c) (ascii_upper c) && Bool.eqb (iscntrl c) (between 0 31 c || (c =? 127)) &&
    Bool.eqb (ispunct c) (between 33 126 c && negb (isalnum c)) &&
    (tolower c =? (if ascii_upper c then c + 32 else c)) && (toupper c =? (if ascii_lower c then c - 32 else c))).
  assert (f c = true) as H by (revert c Hc; by apply byte_forall). unfold f in H.
  rewrite !andb_true_iff, !eqb_true_iff, !Z.eqb_eq in H. tauto.
Qed.

Lemma ctype_ascii_witness :
  isspace 13 = bool_decide (13 ∈ [9; 10; 13; 32]) /\
  isdigit 13 = between 48 57 13 /\
  isalpha 13 = ascii_upper 13 || ascii_lower 13 /\
  isalnum 13 = isalpha 13 || isdigit 13 /\
  islower 13 = ascii_lower 13 /\ isupper 13 = ascii_upper 13 /\
  iscntrl 13 = between 0 31 13 || (13 =? 127) /\
  ispunct 13 = between 33 126 13 && negb (isalnum 13) /\
  tolower 13 = (if ascii_upper 13 then 13 + 32 else 13) /\
  toupper 13 = (if ascii_lower 13 then 13 - 32 else 13).
Proof. apply ctype_ascii. unfold is_byte. lia. Defined.

Lemma istarts_with_data str s t prefix p q : 0 <= s -> (exists rest, drop (Z.to_nat s) str = t ++ 0 :: rest) ->
  cstr prefix p q -> is_bytes q ->
  istarts_with str s prefix p = Ok (bool_decide ((tolower <$> q) `prefix_of` (tolower <$> t))).
Proof.
  intros Hs Ht Hq Hb. unfold istarts_with.
  rewrite (prefix_run (fun d c => tolower d =? tolower c) (fun _ => true) false istarts_with_step) with (t := t) (q := q);
    [|reflexivity|done..|].
  - rewrite <- matches_prefix. assert (forall q t, matches (fun d c => tolower d =? tolower c) t q =
      matches Z.eqb (tolower <$> t) (tolower <$> q)) as ->; [|by destruct (matches _ _ _)].
    clear. induction q as [|c q IH]; intros [|d t]; try done. simpl. by rewrite IH.
  - eapply Forall_impl; [exact Hb|]. cbn beta. intros c Hc H0. apply Z.eqb_neq. rewrite (tolower_spec c), (tolower_spec 0) by (done || (unfold is_byte; lia)).
    unfold ascii_upper, between, is_byte in *. cases_Z; simpl; lia.
Qed.

(** The prefix and suffix tests.  On NUL-terminated strings they stay inside
    the objects and decide the prefix and suffix relations; [istarts_with] does so up to
    the case of letters, [skip_prefix] and [skip_prefix_mem] return what is behind the prefix, [strip_suffix] the length
    before the suffix, and a length-limited test does not need the terminator. *)
Theorem prefix_tests str s t prefix p q : cstr str s t -> cstr prefix p q -> is_bytes q ->
  starts_with str s prefix p = Ok (bool_decide (q `prefix_of` t)) /\
  starts_with_mem str s (len t) prefix p = Ok (bool_decide (q `prefix_of` t)) /\
  istarts_with str s prefix p = Ok (bool_decide ((tolower <$> q) `prefix_of` (tolower <$> t))) /\
  skip_prefix_mem str s (len t) prefix p =
    Ok (if bool_decide (q `prefix_of` t) then Some (s + len q, len t - len q) else None) /\
  skip_prefix str s prefix p = Ok (if bool_decide (q `prefix_of` t) then Some (s + len q) else None) /\
  ends_with str s prefix p = Ok (bool_decide (q `suffix_of` t)) /\
  strip_suffix str s prefix p =
    Ok (bool_decide (q `suffix_of` t), if bool_decide (q `suffix_of` t) then len t - len q else len t).
Proof.
  intros Ht Hq Hb. pose proof (cstr_data _ _ _ Ht) as [Hs (rest & Hr)].
  assert (strip_suffix str s prefix p =
    Ok (bool_decide (q `suffix_of` t), if bool_decide (q `suffix_of` t) then len t - len q else len t)) as E.
  { unfold strip_suffix. rewrite (strlen_ok _ _ _ Ht). cbn [mbind res_bind].
    rewrite (strip_suffix_mem_ok _ _ t _ _ q) by eauto. cbn [mbind res_bind]. by case_bool_decide. }
  split_and!; [apply starts_with_data; eauto|apply starts_with_mem_ok; eauto|apply istarts_with_data; eauto|apply skip_prefix_mem_ok; eauto|by apply skip_prefix_ok| |done].
  unfold ends_with. by rewrite E.
Qed.

Lemma prefix_tests_witness :
  let str := [104; 101; 97; 100; 115; 0] in let pre := [104; 101; 0] in
  cstr str 0 [104; 101; 97; 100; 115] /\
  (starts_with str 0 pre 0 = Ok (bool_decide ([104; 101] `prefix_of` [104; 101; 97; 100; 115])) /\
   starts_with_mem str 0 5 pre 0 = Ok (bool_decide ([104; 101] `prefix_of` [104; 101; 97; 100; 115])) /\
   istarts_with str 0 pre 0 = Ok (bool_decide ((tolower <$> [104; 101]) `prefix_of` (tolower <$> [104; 101; 97; 100; 115]))) /\
   skip_prefix_mem str 0 5 pre 0 = Ok (if bool_decide ([104; 101] `prefix_of` [104; 101; 97; 100; 115]) then Some (2, 3) else None) /\
   skip_prefix str 0 pre 0 = Ok (if bool_decide ([104; 101] `prefix_of` [104; 101; 97; 100; 115]) then Some 2 else None) /\
   ends_with str 0 pre 0 = Ok (bool_decide ([104; 101] `suffix_of` [104; 101; 97; 100; 115])) /\
   strip_suffix str 0 pre 0 = Ok (bool_decide ([104; 101] `suffix_of` [104; 101; 97; 100; 115]),
     if bool_decide ([104; 101] `suffix_of` [104; 101; 97; 100; 115]) then 3 else 5)).
Proof.
  assert (cstr [104; 101; 97; 100; 115; 0] 0 [104; 101; 97; 100; 115]) as H
    by (split_and!; [done|repeat constructor; done|by exists []]).
  split; [done|]. apply prefix_tests; [done| |repeat constructor; unfold is_byte; lia].
  split_and!; [done|repeat constructor; done|by exists []].
Defined.
