(* ===== verification/Strbuf.v ===== *)
(** * String buffers: [strbuf.c] and [strbuf.h]

    A [struct strbuf] keeps [len] bytes and a NUL in a heap block of [alloc]
    bytes, or points to the shared one-byte [strbuf_slopbuf] while it is empty
    and owns no memory.  The model keeps the three fields.  The slop buffer is
    shared by all empty buffers, so a store of anything but its NUL into it is
    a fault of the model.

    The abstract value of a buffer is a list of bytes ([sb_ok]).  The theorems
    say that the operations compute the corresponding functions on lists, that
    they die only when the memory is exhausted or when a position is outside of
    the string, and that they never touch memory outside of their block. *)

From stdpp Require Import prelude numbers list.
From S2P Require Import Prelude PatchDelta Alloc CString.

(** [sb->buf]. *)
Inductive bufptr := Slop | Heap (l : list Z).

Record strbuf := mkSb { sb_alloc : Z; sb_len : Z; sb_buf : bufptr }.

Definition STRBUF_INIT : strbuf := mkSb 0 0 Slop.

(** The object behind the pointer, stores into it and [memcpy] to it. *)
Definition mem_of (b : bufptr) : list Z := match b with Slop => [0] | Heap l => l end.

Definition store (b : bufptr) (i x : Z) : res bufptr :=
  match b with
  | Slop => if (i =? 0) && (x =? 0) then Ok Slop else Fault UB
  | Heap l => l ← wr l i x; Ok (Heap l)
  end.

Definition store_slice (b : bufptr) (i : Z) (src : list Z) : res bufptr :=
  match b with
  | Slop => match src with [] => if (0 <=? i) && (i <=? 1) then Ok Slop else Fault UB | _ => Fault UB end
  | Heap l => l ← wr_slice l i src; Ok (Heap l)
  end.

Definition sb_rd (sb : strbuf) (i : Z) : res Z := rd (mem_of (sb_buf sb)) i.

(** [sb->buf[i] = x]. *)
Definition sb_wr (sb : strbuf) (i x : Z) : res strbuf :=
  b ← store (sb_buf sb) i x; Ok (mkSb (sb_alloc sb) (sb_len sb) b).

Definition sb_wr_slice (sb : strbuf) (i : Z) (src : list Z) : res strbuf :=
  b ← store_slice (sb_buf sb) i src; Ok (mkSb (sb_alloc sb) (sb_len sb) b).

Definition set_len (sb : strbuf) (n : Z) : strbuf := mkSb (sb_alloc sb) n (sb_buf sb).

Section Code.
Context `{Memory} (junk : Z).

Definition strbuf_avail (sb : strbuf) : Z :=
  if tr (sb_alloc sb) then u64 (u64 (sb_alloc sb - sb_len sb) - 1) else 0.

Definition strbuf_grow (sb : strbuf) (extra : Z) : res strbuf :=
  let new_buf := negb (tr (sb_alloc sb)) in
  if unsigned_add_overflows extra 1 || unsigned_add_overflows (sb_len sb) (u64 (extra + 1)) then Fault Died
  else
    let nr := u64 (u64 (sb_len sb + extra) + 1) in
    if new_buf then
      '(x, al) ← ALLOC_GROW junk 1 u64 [] nr (sb_alloc sb);
      x ← wr x 0 0;
      Ok (mkSb al (sb_len sb) (Heap x))
    else match sb_buf sb with
    | Slop => if sb_alloc sb <? nr then Fault UB else Ok sb
    | Heap x =>
        '(x, al) ← ALLOC_GROW junk 1 u64 x nr (sb_alloc sb);
        Ok (mkSb al (sb_len sb) (Heap x))
    end.

Definition strbuf_setlen (sb : strbuf) (n : Z) : res strbuf :=
  if (if tr (sb_alloc sb) then sb_alloc sb - 1 else 0) <? n then Fault BugHit
  else
    let sb := set_len sb n in
    match sb_buf sb with Heap _ => sb_wr sb n 0 | Slop => Ok sb end.

Definition strbuf_reset (sb : strbuf) : res strbuf := strbuf_setlen sb 0.

Definition strbuf_init (hint : Z) : res strbuf :=
  if tr hint then strbuf_grow STRBUF_INIT hint else Ok STRBUF_INIT.

Definition strbuf_release (sb : strbuf) : res strbuf :=
  if tr (sb_alloc sb) then strbuf_init 0 else Ok sb.

(** The block, the length and the fresh buffer. *)
Definition strbuf_detach (sb : strbuf) : res (list Z * Z * strbuf) :=
  sb ← strbuf_grow sb 0;
  blank ← strbuf_init 0;
  Ok (mem_of (sb_buf sb), sb_len sb, blank).

Definition strbuf_attach (sb : strbuf) (buf : list Z) (n alloc : Z) : res strbuf :=
  _ ← strbuf_release sb;
  sb ← strbuf_grow (mkSb alloc n (Heap buf)) 0;
  sb_wr sb (sb_len sb) 0.

(** [char_predicate] on the last byte of the string. *)
Definition rtrim_step (p : Z -> bool) (sb : strbuf) : res (strbuf + strbuf) :=
  if 0 <? sb_len sb then
    c ← sb_rd sb (sb_len sb - 1);
    if p c then Ok (inl (set_len sb (sb_len sb - 1))) else Ok (inr sb)
  else Ok (inr sb).

Definition rtrim_loop (p : Z -> bool) (sb : strbuf) : res strbuf :=
  sb ← loop (S (Z.to_nat (sb_len sb))) (rtrim_step p) sb;
  sb_wr sb (sb_len sb) 0.

Definition strbuf_rtrim (sb : strbuf) : res strbuf := rtrim_loop isspace sb.

Definition git_is_dir_sep (c : Z) : bool := c =? 47.

Definition strbuf_trim_trailing_dir_sep (sb : strbuf) : res strbuf := rtrim_loop git_is_dir_sep sb.

Definition strbuf_trim_trailing_newline (sb : strbuf) : res strbuf :=
  if 0 <? sb_len sb then
    c ← sb_rd sb (sb_len sb - 1);
    if c =? 10 then
      let sb := set_len sb (sb_len sb - 1) in
      sb ← (if 0 <? sb_len sb then
              d ← sb_rd sb (sb_len sb - 1);
              Ok (if d =? 13 then set_len sb (sb_len sb - 1) else sb)
            else Ok sb);
      sb_wr sb (sb_len sb) 0
    else Ok sb
  else Ok sb.

(** The pointer [b] is an index. *)
Definition ltrim_step (st : strbuf * Z) : res (strbuf * Z + strbuf * Z) :=
  let '(sb, b) := st in
  if 0 <? sb_len sb then
    c ← sb_rd sb b;
    if isspace c then Ok (inl (set_len sb (sb_len sb - 1), b + 1)) else Ok (inr (sb, b))
  else Ok (inr (sb, b)).

Definition strbuf_ltrim (sb : strbuf) : res strbuf :=
  '(sb, b) ← loop (S (Z.to_nat (sb_len sb))) ltrim_step (sb, 0);
  d ← rd_slice (mem_of (sb_buf sb)) b (sb_len sb);
  sb ← sb_wr_slice sb 0 d;
  sb_wr sb (sb_len sb) 0.

Definition strbuf_trim (sb : strbuf) : res strbuf := sb ← strbuf_rtrim sb; strbuf_ltrim sb.

Definition tolower_step (end_ : Z) (st : strbuf * Z) : res (strbuf * Z + strbuf) :=
  let '(sb, p) := st in
  if p <? end_ then
    c ← sb_rd sb p; sb ← sb_wr sb p (tolower c); Ok (inl (sb, p + 1))
  else Ok (inr sb).

Definition strbuf_tolower (sb : strbuf) : res strbuf :=
  loop (S (Z.to_nat (sb_len sb))) (tolower_step (sb_len sb)) (sb, 0).

Definition strbuf_cmp (a b : strbuf) : res Z :=
  let n := if sb_len a <? sb_len b then sb_len a else sb_len b in
  x ← rd_slice (mem_of (sb_buf a)) 0 n; y ← rd_slice (mem_of (sb_buf b)) 0 n;
  let cmp := memcmp x y in
  Ok (if tr cmp then cmp else if sb_len a <? sb_len b then -1 else Z.b2z (negb (sb_len a =? sb_len b))).

Definition strbuf_splice (sb : strbuf) (pos n : Z) (data : list Z) : res strbuf :=
  let dlen := len data in
  if unsigned_add_overflows pos n then Fault Died
  else if sb_len sb <? pos then Fault Died
  else if sb_len sb <? u64 (pos + n) then Fault Died
  else
    sb ← (if n <=? dlen then strbuf_grow sb (dlen - n) else Ok sb);
    tail ← rd_slice (mem_of (sb_buf sb)) (pos + n) (sb_len sb - pos - n);
    sb ← sb_wr_slice sb (pos + dlen) tail;
    sb ← sb_wr_slice sb pos data;
    strbuf_setlen sb (u64 (u64 (sb_len sb + dlen) - n)).

Definition strbuf_insert (sb : strbuf) (pos : Z) (data : list Z) : res strbuf := strbuf_splice sb pos 0 data.

Definition strbuf_remove (sb : strbuf) (pos n : Z) : res strbuf := strbuf_splice sb pos n [].

Definition strbuf_add (sb : strbuf) (data : list Z) : res strbuf :=
  sb ← strbuf_grow sb (len data);
  sb ← sb_wr_slice sb (sb_len sb) data;
  strbuf_setlen sb (u64 (sb_len sb + len data)).

(** A NUL-terminated string [s] of the object [mem]. *)
Definition strbuf_addstr (sb : strbuf) (mem : list Z) (s : Z) : res strbuf :=
  n ← strlen mem s; data ← rd_slice mem s n; strbuf_add sb data.

Definition strbuf_insertstr (sb : strbuf) (pos : Z) (mem : list Z) (s : Z) : res strbuf :=
  n ← strlen mem s; data ← rd_slice mem s n; strbuf_insert sb pos data.

Definition addstrings_step (data : list Z) (n : Z) (st : strbuf * Z) : res (strbuf * Z + strbuf) :=
  let '(sb, i) := st in
  if i <? n then sb ← strbuf_add sb data; Ok (inl (sb, i + 1)) else Ok (inr sb).

Definition strbuf_addstrings (sb : strbuf) (mem : list Z) (s n : Z) : res strbuf :=
  l ← strlen mem s;
  m ← st_mult l n;
  sb ← strbuf_grow sb m;
  data ← rd_slice mem s l;
  loop (S (Z.to_nat n)) (addstrings_step data n) (sb, 0).

Definition strbuf_addbuf (sb sb2 : strbuf) : res strbuf :=
  sb ← strbuf_grow sb (sb_len sb2);
  data ← rd_slice (mem_of (sb_buf sb2)) 0 (sb_len sb2);
  sb ← sb_wr_slice sb (sb_len sb) data;
  strbuf_setlen sb (u64 (sb_len sb + sb_len sb2)).

Definition strbuf_addch (sb : strbuf) (c : Z) : res strbuf :=
  sb ← (if negb (tr (strbuf_avail sb)) then strbuf_grow sb 1 else Ok sb);
  sb ← sb_wr sb (sb_len sb) (u8 c);
  let sb := set_len sb (sb_len sb + 1) in
  sb_wr sb (sb_len sb) 0.

Definition strbuf_addchars (sb : strbuf) (c n : Z) : res strbuf :=
  sb ← strbuf_grow sb n;
  sb ← sb_wr_slice sb (sb_len sb) (replicate (Z.to_nat n) (u8 c));
  strbuf_setlen sb (u64 (sb_len sb + n)).

(** The arguments are the strings themselves. *)
Definition join_step (delim : Z) (st : strbuf * list (list Z)) : res (strbuf * list (list Z) + strbuf) :=
  let '(sb, argv) := st in
  match argv with
  | [] => Ok (inr sb)
  | a :: argv => sb ← strbuf_addch sb delim; sb ← strbuf_add sb a; Ok (inl (sb, argv))
  end.

Definition strbuf_join_argv (sb : strbuf) (argv : list (list Z)) (delim : Z) : res strbuf :=
  match argv with
  | [] => Ok sb
  | a :: argv => sb ← strbuf_add sb a; loop (S (length argv)) (join_step delim) (sb, argv)
  end.

(** [vsnprintf(buf + i, size, fmt, ap)] where [out] is what [fmt] expands to. *)
Definition vsnprintf (b : bufptr) (i size : Z) (out : list Z) : res bufptr :=
  if size =? 0 then Ok b else store_slice b i (take (Z.to_nat (size - 1)) out ++ [0]).

(** Does [vsnprintf] return a negative [int]?  It does on an error in the format
    ([None]) and for a text of more than [INT_MAX] bytes. *)
Definition vsnprintf_fails (out : option (list Z)) : bool :=
  match out with None => true | Some out => 2 ^ 31 - 1 <? len out end.

Definition strbuf_vaddf (sb : strbuf) (out : option (list Z)) : res strbuf :=
  sb ← (if negb (tr (strbuf_avail sb)) then strbuf_grow sb 64 else Ok sb);
  if vsnprintf_fails out then Fault Died
  else match out with
  | None => Fault Died
  | Some out =>
      let n := len out in
      b ← vsnprintf (sb_buf sb) (sb_len sb) (sb_alloc sb - sb_len sb) out;
      let sb := mkSb (sb_alloc sb) (sb_len sb) b in
      sb ← (if strbuf_avail sb <? n then
              sb ← strbuf_grow sb n;
              b ← vsnprintf (sb_buf sb) (sb_len sb) (sb_alloc sb - sb_len sb) out;
              let sb := mkSb (sb_alloc sb) (sb_len sb) b in
              if strbuf_avail sb <? n then Fault BugHit else Ok sb
            else Ok sb);
      strbuf_setlen sb (u64 (sb_len sb + n))
  end.

Definition strbuf_vinsertf (sb : strbuf) (pos : Z) (out : option (list Z)) : res strbuf :=
  if sb_len sb <? pos then Fault Died
  else if vsnprintf_fails out then Fault Died
  else match out with
  | None => Fault Died
  | Some out =>
      let n := len out in
      if negb (tr n) then Ok sb
      else if unsigned_add_overflows (sb_len sb) n then Fault Died
      else
        sb ← strbuf_grow sb n;
        tail ← rd_slice (mem_of (sb_buf sb)) pos (sb_len sb - pos);
        sb ← sb_wr_slice sb (pos + n) tail;
        save ← sb_rd sb (pos + n);
        b ← vsnprintf (sb_buf sb) pos (n + 1) out;
        let sb := mkSb (sb_alloc sb) (sb_len sb) b in
        sb ← sb_wr sb (pos + n) save;
        strbuf_setlen sb (u64 (sb_len sb + n))
  end.

Definition strbuf_complete (sb : strbuf) (term : Z) : res strbuf :=
  if tr (sb_len sb) then
    c ← sb_rd sb (sb_len sb - 1);
    if negb (c =? term) then strbuf_addch sb term else Ok sb
  else Ok sb.

Definition strbuf_complete_line (sb : strbuf) : res strbuf := strbuf_complete sb 10.

(** The flag says whether the suffix was removed. *)
Definition strbuf_strip_suffix (sb : strbuf) (suffix : list Z) (s : Z) : res (strbuf * bool) :=
  r ← strip_suffix_mem (mem_of (sb_buf sb)) 0 (sb_len sb) suffix s;
  match r with
  | Some n => sb ← strbuf_setlen (set_len sb n) n; Ok (sb, true)
  | None => Ok (sb, false)
  end.
End Code.

(** ** The representation *)

(** A bound on the sizes: below it the arithmetic of [size_t] does not wrap. *)
Definition BIG : Z := 2 ^ 46.

(** A buffer that owns its memory holds [s], a NUL and [tl]. *)
Record sb_heap (sb : strbuf) (s tl : list Z) : Prop := {
  sh_buf : sb_buf sb = Heap (s ++ 0 :: tl);
  sh_len : sb_len sb = len s;
  sh_alloc : sb_alloc sb = len s + 1 + len tl;
  sh_big : sb_alloc sb < 2 ^ 48;
}.

Definition sb_ok (sb : strbuf) (s : list Z) : Prop :=
  (exists tl, sb_heap sb s tl) \/ (sb = STRBUF_INIT /\ s = []).

Lemma sb_ok_init : sb_ok STRBUF_INIT [].
Proof. by right. Qed.

Lemma sb_heap_ok sb s tl : sb_heap sb s tl -> sb_ok sb s.
Proof. intros. left. by exists tl. Qed.

Lemma sb_ok_len sb s : sb_ok sb s -> sb_len sb = len s.
Proof. by intros [[tl []]|[-> ->]]. Qed.

Lemma sb_ok_data sb s : sb_ok sb s -> exists rest, mem_of (sb_buf sb) = s ++ 0 :: rest.
Proof. intros [[tl [-> _ _ _]]|[-> ->]]; [by exists tl|by exists []]. Qed.

Lemma sb_heap_alloc sb s tl : sb_heap sb s tl -> tr (sb_alloc sb) = true.
Proof. intros [_ _ -> _]. apply tr_true. pose proof (len_nonneg s). pose proof (len_nonneg tl). lia. Qed.

Lemma sb_avail_heap sb s tl : sb_heap sb s tl -> strbuf_avail sb = len tl.
Proof.
  intros Hh. unfold strbuf_avail. rewrite (sb_heap_alloc _ _ _ Hh). destruct Hh as [_ -> Ha Hb].
  pose proof (len_nonneg s). pose proof (len_nonneg tl). rewrite (u64_small (sb_alloc sb - len s)), u64_small by lia. lia.
Qed.

Lemma no_add_overflow a b : 0 <= a -> 0 <= b -> a + b < 2 ^ 64 -> unsigned_add_overflows a b = false.
Proof. intros. unfold unsigned_add_overflows. rewrite Z.ones_equiv. apply Z.ltb_ge. lia. Qed.

Section Specs.
Context `{Memory} (junk : Z).

Lemma strbuf_grow_spec sb s extra : sb_ok sb s -> 0 <= extra -> len s + extra < BIG ->
  wp oom (strbuf_grow junk sb extra) (fun sb' => exists tl, sb_heap sb' s tl /\ extra <= len tl).
Proof.
  intros Hs He Hb. unfold BIG in Hb. pose proof (sb_ok_len _ _ Hs) as Hl. pose proof (len_nonneg s) as Hs0.
  unfold strbuf_grow. rewrite Hl, !no_add_overflow by (rewrite ?u64_small by lia; lia). cbn [orb].
  rewrite (u64_small (len s + extra)), (u64_small (_ + 1)) by lia.
  destruct Hs as [[tl Hh]|[-> ->]].
  - rewrite (sb_heap_alloc _ _ _ Hh). destruct Hh as [-> _ Ha Hbig]. cbn [negb]. rewrite Ha in *.
    apply wp_bind. eapply wp_mono; [apply ALLOC_GROW_spec; [rewrite len_app, len_cons; lia|lia..]|].
    intros [x al] (pad & -> & Hal & Hge & Hnr & Hor). apply wp_ret. exists (tl ++ pad).
    rewrite len_app, len_app, len_cons in Hal.
    split; [constructor; simpl; rewrite <- ?app_assoc, ?len_app; try done; lia|rewrite len_app; lia].
  - cbn [negb tr sb_alloc STRBUF_INIT Z.eqb]. change (len []) with 0 in *. apply wp_bind.
    eapply wp_mono; [apply ALLOC_GROW_spec; try lia; done|].
    intros [x al] (pad & -> & Hal & Hge & Hnr & Hor). cbn [app] in *. destruct pad as [|y pad]; [change (len []) with 0 in Hal; lia|].
    pose proof (wr_mid [] y pad 0 0 eq_refl) as E0. cbn [app] in E0. rewrite E0. cbn [mbind res_bind]. apply wp_ret. exists pad.
    rewrite len_cons in Hal. change (len (@nil Z)) with 0.
    split; [constructor; simpl; try done; change (len (@nil Z)) with 0; lia|lia].
Qed.

Lemma strbuf_setlen_heap sb s s' c tl : sb_buf sb = Heap (s' ++ c :: tl) -> sb_alloc sb = len s' + 1 + len tl ->
  sb_alloc sb < 2 ^ 48 -> s = len s' -> exists sb', strbuf_setlen sb s = Ok sb' /\ sb_heap sb' s' tl.
Proof.
  intros Hb Ha Hbig ->. pose proof (len_nonneg s'). pose proof (len_nonneg tl).
  unfold strbuf_setlen. rewrite (proj2 (tr_true (sb_alloc sb))) by lia.
  destruct (Z.ltb_spec (sb_alloc sb - 1) (len s')); [lia|]. unfold set_len, sb_wr. cbn [sb_buf sb_alloc sb_len].
  rewrite Hb. cbn [store]. rewrite wr_mid by done. cbn [mbind res_bind]. eexists. split; [done|]. by constructor.
Qed.

(** Append [data] behind the string and fix the length, as [strbuf_add] does. *)
Lemma append_heap sb s tl data : sb_heap sb s tl -> len data <= len tl -> len s + len data < BIG ->
  exists sb', (sb ← sb_wr_slice sb (sb_len sb) data; strbuf_setlen sb (u64 (sb_len sb + len data))) = Ok sb' /\
    sb_ok sb' (s ++ data).
Proof.
  intros [Hb Hl Ha Hbig] Hd HB. unfold BIG in HB. pose proof (len_nonneg s). pose proof (len_nonneg data).
  unfold sb_wr_slice. rewrite Hb, Hl. cbn [store_slice].
  assert (exists b c, 0 :: tl = b ++ c /\ len b = len data) as (b & c & E & Elb).
  { exists (take (length data) (0 :: tl)), (drop (length data) (0 :: tl)). split; [symmetry; apply take_drop|].
    unfold len in *. rewrite length_take. simpl. lia. }
  rewrite E, wr_slice_mid by (done || congruence). cbn [mbind res_bind sb_len].
  assert (1 + len tl = len b + len c) as Hlc by (rewrite <- len_app, <- E, len_cons; done).
  destruct c as [|x c]; [change (len []) with 0 in Hlc; lia|]. rewrite len_cons in Hlc. rewrite u64_small by lia.
  edestruct (strbuf_setlen_heap (mkSb (sb_alloc sb) (len s) (Heap (s ++ data ++ x :: c))) (len s + len data) (s ++ data) x c)
    as (sb' & -> & Hh); cbn [sb_buf sb_alloc].
  - by rewrite app_assoc.
  - rewrite len_app. lia.
  - done.
  - by rewrite len_app.
  - eexists. split; [done|]. by eapply sb_heap_ok.
Qed.

Lemma strbuf_add_spec sb s data : sb_ok sb s -> len s + len data < BIG ->
  wp oom (strbuf_add junk sb data) (fun sb' => sb_ok sb' (s ++ data)).
Proof.
  intros Hs HB. unfold strbuf_add. apply wp_bind. eapply wp_mono; [apply strbuf_grow_spec; [done|apply len_nonneg|done]|].
  intros sb' (tl & Hh & Hd). destruct (append_heap sb' s tl data Hh Hd HB) as (r & -> & Hr). done.
Qed.

Lemma strbuf_addch_spec sb s c : sb_ok sb s -> len s + 1 < BIG ->
  wp oom (strbuf_addch junk sb c) (fun sb' => sb_ok sb' (s ++ [u8 c])).
Proof.
  intros Hs HB. unfold strbuf_addch. apply wp_bind.
  assert (wp oom (if negb (tr (strbuf_avail sb)) then strbuf_grow junk sb 1 else Ok sb)
    (fun sb' => exists tl, sb_heap sb' s tl /\ 1 <= len tl)) as Hg.
  { destruct (tr (strbuf_avail sb)) eqn:E; cbn [negb]; [|apply strbuf_grow_spec; [done|lia|done]].
    destruct Hs as [[tl Hh]|[-> ->]]; [|done]. simpl. exists tl. split; [done|].
    rewrite (sb_avail_heap _ _ _ Hh) in E. apply tr_true in E. pose proof (len_nonneg tl). lia. }
  eapply wp_mono; [exact Hg|]. intros sb' (tl & [Hb Hl Ha Hbig] & Htl). destruct tl as [|x tl]; [change (len []) with 0 in Htl; lia|].
  unfold sb_wr. rewrite Hb, Hl. cbn [store]. rewrite wr_mid by done. cbn [mbind res_bind set_len sb_len sb_buf sb_alloc store].
  change (s ++ u8 c :: x :: tl) with (s ++ [u8 c] ++ x :: tl). rewrite app_assoc, wr_mid by (rewrite len_app; done).
  cbn [mbind res_bind]. apply wp_ret. left. exists tl. rewrite len_cons in Ha. constructor; cbn [sb_buf sb_len sb_alloc]; try done;
    rewrite len_app; change (len [u8 c]) with 1; lia.
Qed.

Lemma strbuf_addchars_spec sb s c n : sb_ok sb s -> 0 <= n -> len s + n < BIG ->
  wp oom (strbuf_addchars junk sb c n) (fun sb' => sb_ok sb' (s ++ replicate (Z.to_nat n) (u8 c))).
Proof.
  intros Hs Hn HB. unfold strbuf_addchars. apply wp_bind. eapply wp_mono; [by apply strbuf_grow_spec|].
  intros sb' (tl & Hh & Hd). assert (len (replicate (Z.to_nat n) (u8 c)) = n) as Hr by (unfold len; rewrite length_replicate; lia).
  destruct (append_heap sb' s tl (replicate (Z.to_nat n) (u8 c)) Hh) as (r & E & Hr'); [lia..|].
  rewrite Hr in E. by rewrite E.
Qed.

Lemma strbuf_addbuf_spec sb s sb2 t : sb_ok sb s -> sb_ok sb2 t -> len s + len t < BIG ->
  wp oom (strbuf_addbuf junk sb sb2) (fun sb' => sb_ok sb' (s ++ t)).
Proof.
  intros Hs Ht HB. unfold strbuf_addbuf. rewrite (sb_ok_len _ _ Ht). apply wp_bind.
  eapply wp_mono; [apply strbuf_grow_spec; [done|apply len_nonneg|done]|].
  intros sb' (tl & Hh & Hd). destruct (sb_ok_data _ _ Ht) as (rest & ->).
  rewrite (rd_slice_at _ 0 t 0 rest) by done. cbn [mbind res_bind].
  destruct (append_heap sb' s tl t Hh Hd HB) as (r & -> & Hr). done.
Qed.

Lemma strbuf_setlen_spec sb s n : sb_ok sb s -> 0 <= n <= len s ->
  total (strbuf_setlen sb n) (fun sb' => sb_ok sb' (take (Z.to_nat n) s)).
Proof.
  intros [[tl [Hb Hl Ha Hbig]]|[-> ->]] Hn.
  - assert (exists c r, s ++ 0 :: tl = take (Z.to_nat n) s ++ c :: r) as (c & r & E).
    { pose proof (take_drop (Z.to_nat n) s) as Es. destruct (drop (Z.to_nat n) s) as [|c r].
      - exists 0, tl. by rewrite <- Es at 1; rewrite app_nil_r.
      - exists c, (r ++ 0 :: tl). rewrite <- Es at 1. by rewrite <- app_assoc. }
    assert (len (take (Z.to_nat n) s) = n) as Ht by (unfold len in *; rewrite length_take; lia).
    destruct (strbuf_setlen_heap sb n (take (Z.to_nat n) s) c r) as (sb' & -> & Hh); [by rewrite Hb, E| |done|by rewrite Ht|].
    + apply (f_equal len) in E. rewrite !len_app, !len_cons in E. lia.
    + by eapply sb_heap_ok.
  - change (len []) with 0 in Hn. replace n with 0 by lia. simpl. right. done.
Qed.
(** Shorten the string and store a NUL behind it. *)
Lemma cut_spec sb t u : sb_ok sb (t ++ u) ->
  exists sb', sb_wr (set_len sb (len t)) (len t) 0 = Ok sb' /\ sb_ok sb' t.
Proof.
  intros [[tl [Hb Hl Ha Hbig]]|[-> Hn]].
  - assert (exists c r, u ++ 0 :: tl = c :: r) as (c & r & E) by (destruct u; eexists _, _; reflexivity).
    unfold sb_wr, set_len. cbn [sb_buf sb_alloc sb_len]. rewrite Hb, <- app_assoc, E. cbn [store]. rewrite wr_mid by done.
    cbn [mbind res_bind]. eexists. split; [done|]. left. exists r. constructor; cbn [sb_buf sb_alloc sb_len]; try done.
    apply (f_equal len) in E. rewrite !len_app, !len_cons in *. lia.
  - apply app_nil in Hn as [-> ->]. exists STRBUF_INIT. split; [done|apply sb_ok_init].
Qed.

(** [s] without its longest suffix, or prefix, inside [p]. *)
Fixpoint rstrip (p : Z -> bool) (s : list Z) : list Z :=
  match s with
  | [] => []
  | c :: s => match rstrip p s with [] => if p c then [] else [c] | t => c :: t end
  end.

Definition lstrip (p : Z -> bool) (s : list Z) : list Z := drop (span p s) s.

Lemma rstrip_snoc p s c : rstrip p (s ++ [c]) = if p c then rstrip p s else s ++ [c].
Proof.
  induction s as [|d s IH]; simpl; [done|]. rewrite IH. destruct (p c); [done|]. by destruct s.
Qed.

Lemma rstrip_prefix p s : exists u, s = rstrip p s ++ u.
Proof.
  induction s as [|c s [u IH]] using rev_ind; [by exists []|]. rewrite rstrip_snoc.
  destruct (p c); [|exists []; by rewrite app_nil_r]. exists (u ++ [c]). by rewrite app_assoc, <- IH.
Qed.

Lemma rtrim_run p sb t u fuel : sb_ok sb (t ++ u) -> (length t < fuel)%nat ->
  loop fuel (rtrim_step p) (set_len sb (len t)) = Ok (set_len sb (len (rstrip p t))).
Proof.
  revert u fuel. induction t as [|c t IH] using rev_ind; intros u fuel Hs Hf; (destruct fuel as [|fuel]; [lia|]); rewrite loop_S.
  - done.
  - unfold rtrim_step, sb_rd, set_len. cbn [sb_len sb_buf sb_alloc]. destruct (sb_ok_data _ _ Hs) as (rest & ->).
    rewrite len_app. change (len [c]) with 1. pose proof (len_nonneg t). destruct (Z.ltb_spec 0 (len t + 1)); [|lia].
    rewrite <- !app_assoc. cbn [app]. rewrite (rd_mid t c) by lia. cbn [mbind res_bind]. rewrite rstrip_snoc.
    destruct (p c); [|by rewrite len_app].
    replace (len t + 1 - 1) with (len t) by lia. apply (IH ([c] ++ u)); [by rewrite app_assoc|]. rewrite length_app in Hf. simpl in Hf. lia.
Qed.

Lemma rtrim_spec p sb s : sb_ok sb s -> total (rtrim_loop p sb) (fun sb' => sb_ok sb' (rstrip p s)).
Proof.
  intros Hs. unfold rtrim_loop. rewrite (sb_ok_len _ _ Hs). destruct (rstrip_prefix p s) as [u Hu].
  assert (set_len sb (len s) = sb) as E by (rewrite <- (sb_ok_len _ _ Hs); by destruct sb).
  rewrite <- E, (rtrim_run p sb s []) by (rewrite ?app_nil_r; done || llia). cbn [mbind res_bind set_len sb_len].
  rewrite Hu in Hs. destruct (cut_spec _ _ _ Hs) as (sb' & -> & Hs'). done.
Qed.

Lemma strbuf_trim_trailing_newline_spec sb s : sb_ok sb s ->
  total (strbuf_trim_trailing_newline sb) (fun sb' => exists t, sb_ok sb' t /\
    (s = t ++ [13; 10] \/ (s = t ++ [10] /\ last t <> Some 13) \/ (s = t /\ last t <> Some 10))).
Proof.
  intros Hs. unfold strbuf_trim_trailing_newline, sb_rd. rewrite (sb_ok_len _ _ Hs). destruct (sb_ok_data _ _ Hs) as (rest & Hm).
  destruct s as [|c s _] using rev_ind; [simpl; exists []; naive_solver|]. rewrite Hm, <- app_assoc, len_app. change (len [c]) with 1.
  pose proof (len_nonneg s). destruct (Z.ltb_spec 0 (len s + 1)); [|lia]. cbn [app]. rewrite (rd_mid s c) by lia. cbn [mbind res_bind].
  destruct (Z.eqb_spec c 10) as [->|Hn].
  2:{ simpl. eexists. split; [exact Hs|]. right. right. split; [done|]. rewrite last_snoc. congruence. }
  cbn [set_len sb_len sb_buf]. replace (len s + 1 - 1) with (len s) by lia. rewrite Hm, <- app_assoc.
  destruct s as [|d s _] using rev_ind.
  - change (0 <? len (@nil Z)) with false. cbn [mbind res_bind set_len sb_len].
    destruct (cut_spec sb [] [10] Hs) as (sb' & E & Hs'). unfold set_len in *. cbn [sb_len sb_alloc sb_buf]. rewrite E. simpl.
    exists []. naive_solver.
  - rewrite len_app in *. change (len [d]) with 1 in *. pose proof (len_nonneg s). destruct (Z.ltb_spec 0 (len s + 1)); [|lia].
    rewrite <- app_assoc. cbn [app]. rewrite (rd_mid s d) by lia. cbn [mbind res_bind]. destruct (Z.eqb_spec d 13) as [->|Hd]; unfold set_len; cbn [sb_alloc sb_len sb_buf].
    + replace (len s + 1 - 1) with (len s) by lia. rewrite <- app_assoc in Hs.
      destruct (cut_spec sb s _ Hs) as (sb' & E & Hs'). unfold set_len in E. rewrite E. simpl. exists s. rewrite <- app_assoc. naive_solver.
    + destruct (cut_spec sb (s ++ [d]) _ Hs) as (sb' & E & Hs'). rewrite len_app in E. change (len [d]) with 1 in E. unfold set_len in E.
      rewrite E. simpl. exists (s ++ [d]). rewrite last_snoc. naive_solver.
Qed.

Lemma ltrim_run sb s t u fuel : sb_ok sb s -> s = t ++ u -> (length u < fuel)%nat ->
  loop fuel ltrim_step (set_len sb (len u), len t) =
  Ok (set_len sb (len (lstrip isspace u)), len t + Z.of_nat (span isspace u)).
Proof.
  intros Hs. destruct (sb_ok_data _ _ Hs) as (rest & Hm).
  revert t fuel. induction u as [|c u IH]; intros t fuel -> Hf; (destruct fuel as [|fuel]; [lia|]); rewrite loop_S.
  - simpl. by rewrite Z.add_0_r.
  - unfold ltrim_step at 1. unfold sb_rd, set_len. cbn [sb_len sb_buf sb_alloc]. pose proof (len_nonneg u). rewrite len_cons.
    destruct (Z.ltb_spec 0 (1 + len u)); [|lia]. rewrite Hm, <- app_assoc. cbn [app]. rewrite (rd_mid t c) by lia. cbn [mbind res_bind].
    unfold lstrip. cbn [span]. destruct (isspace c) eqn:Ec; [|by rewrite Z.add_0_r, drop_0, len_cons].
    replace (1 + len u - 1) with (len u) by lia. cbn [drop]. specialize (IH (t ++ [c]) fuel).
    rewrite len_app, <- app_assoc in IH. change (len [c]) with 1 in IH. cbn [app] in IH. unfold set_len in IH. rewrite IH by (done || (simpl in Hf; lia)).
    do 2 f_equal. lia.
Qed.

Lemma strbuf_ltrim_spec sb s : sb_ok sb s -> total (strbuf_ltrim sb) (fun sb' => sb_ok sb' (lstrip isspace s)).
Proof.
  intros Hs. unfold strbuf_ltrim. rewrite (sb_ok_len _ _ Hs).
  assert (set_len sb (len s) = sb) as E by (rewrite <- (sb_ok_len _ _ Hs); by destruct sb).
  pose proof (ltrim_run sb s [] s (S (Z.to_nat (len s))) Hs eq_refl) as Er. rewrite E in Er. change (len []) with 0 in Er.
  rewrite Er by llia. cbn [mbind res_bind set_len sb_len sb_buf]. destruct (sb_ok_data _ _ Hs) as (rest & Hm).
  set (k := span isspace s). assert (k <= length s)%nat as Hk by apply span_le.
  assert (s = take k s ++ lstrip isspace s) as Es by (symmetry; apply take_drop).
  assert (Z.of_nat k = len (take k s)) as Ek by (unfold len; rewrite length_take; lia).
  rewrite Hm, (rd_slice_at _ _ (lstrip isspace s) 0 rest); [|lia|].
  2:{ rewrite Ek. eapply drop_app_tail; [done|]. rewrite app_assoc, <- Es. done. }
  cbn [mbind res_bind]. destruct Hs as [[tl [Hb Hl Ha Hbig]]|[-> ->]]; [|by right].
  unfold sb_wr_slice, set_len. cbn [sb_buf sb_alloc sb_len]. rewrite Hb. cbn [store_slice].
  set (q := lstrip isspace s) in *. assert (len q <= len s) as Hq by (rewrite Es, len_app; pose proof (len_nonneg (take k s)); lia).
  assert (exists b c r, s ++ 0 :: tl = b ++ c :: r /\ len b = len q) as (b & c & r & Eb & Elb).
  { exists (take (length q) s). destruct (drop (length q) s) as [|c r] eqn:Ed.
    - exists 0, tl. rewrite <- (take_drop (length q) s) at 1. rewrite Ed, app_nil_r. split; [done|]. unfold len in *. rewrite length_take. lia.
    - exists c, (r ++ 0 :: tl). rewrite <- (take_drop (length q) s) at 1. rewrite Ed, <- app_assoc. split; [done|]. unfold len in *. rewrite length_take. lia. }
  rewrite Eb. pose proof (wr_slice_mid [] b (c :: r) q 0 eq_refl ltac:(lia)) as Ew. cbn [app] in Ew. rewrite Ew. cbn [mbind res_bind].
  unfold sb_wr. cbn [sb_buf sb_alloc sb_len store]. rewrite wr_mid by done. cbn [mbind res_bind]. apply wp_ret. left. exists r.
  constructor; cbn [sb_buf sb_alloc sb_len]; try done. apply (f_equal len) in Eb. rewrite !len_app, !len_cons in Eb. lia.
Qed.

Definition strip (s : list Z) : list Z := lstrip isspace (rstrip isspace s).

Lemma strbuf_trim_spec sb s : sb_ok sb s -> total (strbuf_trim sb) (fun sb' => sb_ok sb' (strip s)).
Proof.
  intros Hs. unfold strbuf_trim, strbuf_rtrim. apply wp_bind. eapply wp_mono; [by apply rtrim_spec|].
  intros sb' Hs'. by apply strbuf_ltrim_spec.
Qed.
Lemma split_at {A} (l : list A) n : 0 <= n <= len l -> exists a b, l = a ++ b /\ len a = n.
Proof.
  intros Hn. exists (take (Z.to_nat n) l), (drop (Z.to_nat n) l). split; [symmetry; apply take_drop|].
  unfold len in *. rewrite length_take. lia.
Qed.

(** The part of [strbuf_splice] behind the checks. *)
Lemma splice_heap sb a m z tl data : sb_heap sb (a ++ m ++ z) tl -> len data <= len m + len tl -> len a + len data + len z < BIG ->
  exists sb', (tail ← rd_slice (mem_of (sb_buf sb)) (len a + len m) (sb_len sb - len a - len m);
    sb ← sb_wr_slice sb (len a + len data) tail;
    sb ← sb_wr_slice sb (len a) data;
    strbuf_setlen sb (u64 (u64 (sb_len sb + len data) - len m))) = Ok sb' /\ sb_ok sb' (a ++ data ++ z).
Proof.
  intros [Hb Hl Ha Hbig] Hd HB. unfold BIG in HB. rewrite !len_app in *. pose proof (len_nonneg a). pose proof (len_nonneg m).
  pose proof (len_nonneg z). pose proof (len_nonneg data). pose proof (len_nonneg tl).
  rewrite Hl, Hb. cbn [mem_of]. replace (len a + (len m + len z) - len a - len m) with (len z) by lia.
  rewrite (rd_slice_at _ _ z 0 tl) by first [lia|rewrite <- len_app; apply (drop_app_tail _ 0); [done|]; by rewrite <- !app_assoc].
  cbn [mbind res_bind]. unfold sb_wr_slice. rewrite Hb, Hl. cbn [store_slice].
  destruct (split_at (m ++ z ++ 0 :: tl) (len data)) as (x1 & y & E1 & L1); [rewrite !len_app, len_cons; lia|].
  apply (f_equal len) in E1 as E1'. rewrite !len_app, len_cons in E1'.
  destruct (split_at y (len z)) as (x2 & x3 & -> & L2); [lia|]. rewrite len_app in E1'.
  destruct x3 as [|c r]; [change (len []) with 0 in E1'; lia|]. rewrite len_cons in E1'.
  replace ((a ++ m ++ z) ++ 0 :: tl) with ((a ++ x1) ++ x2 ++ c :: r) by (rewrite <- !app_assoc, <- E1; done).
  rewrite wr_slice_mid by (rewrite ?len_app; lia). cbn [mbind res_bind sb_buf sb_len sb_alloc store_slice].
  rewrite <- app_assoc, wr_slice_mid by lia. cbn [mbind res_bind sb_buf sb_len sb_alloc].
  rewrite (u64_small (_ + len data)) by lia. rewrite u64_small by lia.
  edestruct (strbuf_setlen_heap (mkSb (sb_alloc sb) (len a + (len m + len z)) (Heap (a ++ data ++ z ++ c :: r)))
    (len a + (len m + len z) + len data - len m) (a ++ data ++ z) c r) as (sb' & -> & Hh); cbn [sb_buf sb_alloc].
  - by rewrite <- !app_assoc.
  - rewrite !len_app. lia.
  - done.
  - rewrite !len_app. lia.
  - eexists. split; [done|]. by eapply sb_heap_ok.
Qed.

Lemma strbuf_splice_spec sb s pos n data : sb_ok sb s -> 0 <= pos < 2 ^ 64 -> 0 <= n < 2 ^ 64 -> len s + len data < BIG ->
  if pos + n <=? len s
  then wp oom (strbuf_splice junk sb pos n data)
         (fun sb' => sb_ok sb' (take (Z.to_nat pos) s ++ data ++ drop (Z.to_nat (pos + n)) s))
  else strbuf_splice junk sb pos n data = Fault Died.
Proof.
  intros Hs Hp Hn HB. pose proof HB as HB'. unfold BIG in HB. unfold strbuf_splice. rewrite (sb_ok_len _ _ Hs).
  pose proof (len_nonneg s). pose proof (len_nonneg data). destruct (Z.leb_spec (pos + n) (len s)) as [Hle|Hgt].
  - rewrite no_add_overflow by lia. destruct (Z.ltb_spec (len s) pos); [lia|]. rewrite u64_small by lia.
    destruct (Z.ltb_spec (len s) (pos + n)); [lia|].
    destruct (split_at s pos) as (a & y & -> & La); [lia|]. rewrite len_app in *.
    destruct (split_at y n) as (m & z & -> & Lm); [lia|]. rewrite len_app in *. pose proof (len_nonneg z).
    replace (take (Z.to_nat pos) (a ++ m ++ z)) with a by (rewrite take_app_length'; [done|llia]).
    replace (drop (Z.to_nat (pos + n)) (a ++ m ++ z)) with z
      by (rewrite app_assoc, drop_app_length'; [done|rewrite length_app; llia]).
    apply wp_bind. assert (wp oom (if n <=? len data then strbuf_grow junk sb (len data - n) else Ok sb)
      (fun sb' => exists tl, sb_heap sb' (a ++ m ++ z) tl /\ len data <= n + len tl)) as Hg.
    { destruct (Z.leb_spec n (len data)).
      - eapply wp_mono; [apply strbuf_grow_spec; [done|lia|rewrite !len_app; unfold BIG; lia]|].
        intros sb' (tl & Hh & Htl). exists tl. split; [done|lia].
      - destruct Hs as [[tl Hh]|[-> Hnil]].
        + exists tl. split; [done|]. pose proof (len_nonneg tl). lia.
        + apply app_nil in Hnil as [-> Hnil]. apply app_nil in Hnil as [-> ->]. change (len []) with 0 in *. lia. }
    eapply wp_mono; [exact Hg|]. intros sb' (tl & Hh & Hd). subst pos n.
    destruct (splice_heap sb' a m z tl data Hh) as (r & -> & Hr); [lia|unfold BIG; lia|]. done.
  - destruct (unsigned_add_overflows pos n) eqn:Eo; [done|]. unfold unsigned_add_overflows in Eo. apply Z.ltb_ge in Eo.
    rewrite Z.ones_equiv in Eo. destruct (Z.ltb_spec (len s) pos); [done|]. rewrite u64_small by lia.
    destruct (Z.ltb_spec (len s) (pos + n)); [done|lia].
Qed.

Lemma tolower_run sb s tl t u fuel : s = t ++ u -> (length u < fuel)%nat ->
  sb_heap sb ((tolower <$> t) ++ u) tl ->
  exists sb', loop fuel (tolower_step (len s)) (sb, len t) = Ok sb' /\ sb_heap sb' (tolower <$> s) tl.
Proof.
  revert t sb fuel. induction u as [|c u IH]; intros t sb fuel -> Hf Hh; (destruct fuel as [|fuel]; [simpl in Hf; lia|]); rewrite loop_S.
  - unfold tolower_step. rewrite app_nil_r in *. rewrite Z.ltb_irrefl. by exists sb.
  - unfold tolower_step at 1. rewrite len_app, len_cons. pose proof (len_nonneg u). destruct (Z.ltb_spec (len t) (len t + (1 + len u))); [|lia].
    assert (len (tolower <$> t) = len t) as Lt by (unfold len; by rewrite length_fmap).
    unfold sb_rd, sb_wr. destruct Hh as [Hb Hl Ha Hbig]. rewrite Hb, <- app_assoc. cbn [mem_of app store].
    rewrite rd_mid by done. cbn [mbind res_bind]. rewrite wr_mid by done. cbn [mbind res_bind].
    rewrite len_app, len_cons in *. replace (len t + 1) with (len (t ++ [c])) by (by rewrite len_app). apply (IH (t ++ [c])); [by rewrite <- app_assoc|simpl in Hf; lia|]. rewrite fmap_app, <- app_assoc. cbn [app fmap list_fmap].
    constructor; cbn [sb_buf sb_len sb_alloc]; rewrite <- ?app_assoc, ?len_app, ?len_cons; try done; lia.
Qed.

Lemma strbuf_tolower_spec sb s : sb_ok sb s -> total (strbuf_tolower sb) (fun sb' => sb_ok sb' (tolower <$> s)).
Proof.
  intros Hs. unfold strbuf_tolower. rewrite (sb_ok_len _ _ Hs). destruct Hs as [[tl Hh]|[-> ->]]; [|by right].
  destruct (tolower_run sb s tl [] s (S (Z.to_nat (len s))) eq_refl ltac:(llia) Hh) as (sb' & Er & Hh').
  change (len []) with 0 in Er. rewrite Er. by eapply sb_heap_ok.
Qed.

Lemma strbuf_complete_spec sb s term : sb_ok sb s -> is_byte term -> len s + 1 < BIG ->
  wp oom (strbuf_complete junk sb term)
    (fun sb' => sb_ok sb' (if decide (s = [] \/ last s = Some term) then s else s ++ [term])).
Proof.
  intros Hs Ht HB. unfold strbuf_complete, sb_rd. rewrite (sb_ok_len _ _ Hs).
  destruct s as [|c s _] using rev_ind; [done|]. destruct (sb_ok_data _ _ Hs) as (rest & ->).
  pose proof (len_nonneg s). rewrite (proj2 (tr_true _)) by (rewrite len_app; change (len [c]) with 1; lia).
  rewrite len_app, <- app_assoc. cbn [app]. change (len [c]) with 1. rewrite rd_mid by lia. cbn [mbind res_bind]. rewrite last_snoc.
  destruct (Z.eqb_spec c term) as [->|Hn]; cbn [negb].
  - rewrite decide_True by naive_solver. done.
  - rewrite decide_False by (intros [Hnil|[= E]]; [by apply app_eq_nil in Hnil as []|done]).
    pose proof (strbuf_addch_spec sb _ term Hs HB) as Hc. by rewrite u8_small in Hc.
Qed.

(** The detached block is the string with its NUL and the buffer is blank. *)
Lemma strbuf_detach_spec sb s : sb_ok sb s -> len s < BIG ->
  wp oom (strbuf_detach junk sb) (fun '(block, n, sb') =>
    (exists rest, block = s ++ 0 :: rest) /\ n = len s /\ sb' = STRBUF_INIT).
Proof.
  intros Hs HB. unfold strbuf_detach. apply wp_bind. eapply wp_mono; [apply strbuf_grow_spec; [done|lia|lia]|].
  intros sb' (tl & [Hb Hl _ _] & _). simpl. rewrite Hb, Hl. simpl. split_and!; [by exists tl|done..].
Qed.
(** [strbuf_grow] of a block whose string has lost its NUL. *)
Lemma grow_block sb x extra : sb_buf sb = Heap x -> len x = sb_alloc sb -> 0 <= sb_len sb < sb_alloc sb ->
  sb_alloc sb < 2 ^ 48 -> 0 <= extra -> sb_len sb + extra < BIG ->
  wp oom (strbuf_grow junk sb extra) (fun sb' => exists pad, sb_buf sb' = Heap (x ++ pad) /\ sb_len sb' = sb_len sb /\
    sb_alloc sb' = len x + len pad /\ sb_len sb + extra < sb_alloc sb' < 2 ^ 48).
Proof.
  intros Hb Hx Hl Hbig He HB. unfold BIG in HB. unfold strbuf_grow.
  rewrite !no_add_overflow by (rewrite ?u64_small by lia; lia). cbn [orb].
  rewrite (u64_small (_ + extra)), (u64_small (_ + 1)) by lia. rewrite (proj2 (tr_true (sb_alloc sb))) by lia. cbn [negb].
  rewrite Hb. apply wp_bind. eapply wp_mono; [apply ALLOC_GROW_spec; lia|].
  intros [y al] (pad & -> & Hal & Hge & Hnr & Hor). apply wp_ret. exists pad. rewrite len_app in Hal. simpl. split_and!; try done; lia.
Qed.

Lemma vsnprintf_fits s y o : len o < len y ->
  exists r, vsnprintf (Heap (s ++ y)) (len s) (len y) o = Ok (Heap (s ++ o ++ 0 :: r)) /\ len y = len o + 1 + len r.
Proof.
  intros Ho. pose proof (len_nonneg o). unfold vsnprintf. destruct (Z.eqb_spec (len y) 0); [lia|]. cbn [store_slice].
  rewrite take_ge by llia. destruct (split_at y (len o + 1)) as (a & r & -> & La); [lia|].
  rewrite wr_slice_mid by (done || (rewrite len_app; change (len [0]) with 1; lia)). cbn [mbind res_bind].
  exists r. rewrite <- app_assoc, len_app. split; [done|lia].
Qed.

Lemma vsnprintf_short s y o : 0 < len y -> len y <= len o ->
  exists y', vsnprintf (Heap (s ++ y)) (len s) (len y) o = Ok (Heap (s ++ y')) /\ len y' = len y.
Proof.
  intros Hy Ho. unfold vsnprintf. destruct (Z.eqb_spec (len y) 0); [lia|]. cbn [store_slice].
  set (src := take _ o ++ [0]). assert (len src = len y) as Ls.
  { unfold src. rewrite len_app. change (len [0]) with 1. unfold len in *. rewrite length_take. lia. }
  pose proof (wr_slice_mid s y [] src (len s) eq_refl Ls) as E. rewrite !app_nil_r in E. rewrite E. cbn [mbind res_bind]. by exists src.
Qed.

(** Some room to print into. *)
Lemma vaddf_room sb s : sb_ok sb s -> len s + 64 < BIG ->
  wp oom (if negb (tr (strbuf_avail sb)) then strbuf_grow junk sb 64 else Ok sb) (fun sb' => exists tl, sb_heap sb' s tl).
Proof.
  intros Hs HB. destruct (tr (strbuf_avail sb)) eqn:E; cbn [negb].
  - destruct Hs as [[tl Hh]|[-> ->]]; [by exists tl|done].
  - eapply wp_mono; [apply strbuf_grow_spec; [done|lia|lia]|]. intros sb' (tl & Hh & _). by exists tl.
Qed.

Lemma strbuf_vaddf_dies sb s o : sb_ok sb s -> len s + 64 < BIG -> 2 ^ 31 <= len o ->
  strbuf_vaddf junk sb (Some o) = Fault Died.
Proof.
  intros Hs HB Ho. unfold strbuf_vaddf. pose proof (vaddf_room sb s Hs HB) as Hg.
  destruct (if negb (tr (strbuf_avail sb)) then strbuf_grow junk sb 64 else Ok sb) as [sb'|f]; cbn [mbind res_bind].
  - unfold vsnprintf_fails. destruct (Z.ltb_spec (2 ^ 31 - 1) (len o)); [done|lia].
  - by destruct Hg as [-> _].
Qed.

Lemma strbuf_vaddf_spec sb s o : sb_ok sb s -> len o < 2 ^ 31 -> len s + len o + 64 < BIG ->
  wp oom (strbuf_vaddf junk sb (Some o)) (fun sb' => sb_ok sb' (s ++ o)).
Proof.
  intros Hs Ho HB. pose proof (len_nonneg s). pose proof (len_nonneg o). unfold strbuf_vaddf. apply wp_bind.
  eapply wp_mono; [apply (vaddf_room sb s Hs); lia|]. intros sb' (tl & Hh). pose proof (len_nonneg tl).
  unfold vsnprintf_fails. destruct (Z.ltb_spec (2 ^ 31 - 1) (len o)); [lia|].
  pose proof (sb_avail_heap _ _ _ Hh) as Hav. pose proof (sb_heap_alloc _ _ _ Hh) as Hta. destruct Hh as [Hb Hl Ha Hbig].
  cbn zeta. rewrite Hb, Hl. replace (sb_alloc sb' - len s) with (len (0 :: tl)) by (rewrite len_cons; lia).
  assert (forall b, strbuf_avail (mkSb (sb_alloc sb') (len s) b) = len tl) as Hav' by (intros b; rewrite <- Hav; unfold strbuf_avail; simpl; by rewrite Hl).
  destruct (Z_lt_le_dec (len tl) (len o)) as [Hlt|Hge].
  - destruct (vsnprintf_short s (0 :: tl) o) as (y & -> & Ly); [rewrite len_cons; lia..|]. cbn [mbind res_bind].
    rewrite len_cons in Ly. rewrite Hav'. destruct (Z.ltb_spec (len tl) (len o)); [|lia]. apply wp_bind, wp_bind.
    eapply wp_mono; [apply (grow_block _ (s ++ y)); cbn [sb_buf sb_len sb_alloc]; rewrite ?len_app; try done; lia|].
    intros sb2 (pad & Hb2 & Hl2 & Ha2 & Hbig2). cbn [sb_len sb_alloc] in *. rewrite len_app in Ha2. rewrite Hb2, Hl2.
    replace (sb_alloc sb2 - len s) with (len (y ++ pad)) by (rewrite len_app; lia). rewrite <- app_assoc.
    destruct (vsnprintf_fits s (y ++ pad) o) as (r & -> & Lr); [rewrite len_app; lia|]. rewrite len_app in Lr. cbn [mbind res_bind].
    unfold strbuf_avail. cbn [sb_alloc sb_len]. pose proof (len_nonneg r). rewrite (proj2 (tr_true (sb_alloc sb2))) by lia.
    rewrite (u64_small (sb_alloc sb2 - len s)), u64_small by lia. destruct (Z.ltb_spec (sb_alloc sb2 - len s - 1) (len o)); [lia|].
    apply wp_ret. cbn [sb_len]. unfold BIG in HB. rewrite u64_small by lia.
    edestruct (strbuf_setlen_heap (mkSb (sb_alloc sb2) (len s) (Heap (s ++ o ++ 0 :: r))) (len s + len o) (s ++ o) 0 r)
      as (sb3 & -> & Hh3); cbn [sb_buf sb_alloc]; rewrite ?len_app; [by rewrite app_assoc|lia|lia|lia|]. by eapply sb_heap_ok.
  - destruct (vsnprintf_fits s (0 :: tl) o) as (r & -> & Lr); [rewrite len_cons; lia|]. rewrite len_cons in Lr. cbn [mbind res_bind].
    rewrite Hav'. destruct (Z.ltb_spec (len tl) (len o)); [lia|]. cbn [mbind res_bind sb_len]. unfold BIG in HB. rewrite u64_small by lia.
    edestruct (strbuf_setlen_heap (mkSb (sb_alloc sb') (len s) (Heap (s ++ o ++ 0 :: r))) (len s + len o) (s ++ o) 0 r)
      as (sb3 & -> & Hh3); cbn [sb_buf sb_alloc]; rewrite ?len_app; [by rewrite app_assoc|lia|lia|lia|]. by eapply sb_heap_ok.
Qed.

Lemma strbuf_addstr_spec sb s mem i t : sb_ok sb s -> cstr mem i t -> len s + len t < BIG ->
  wp oom (strbuf_addstr junk sb mem i) (fun sb' => sb_ok sb' (s ++ t)).
Proof.
  intros Hs Ht HB. unfold strbuf_addstr. rewrite (strlen_ok _ _ _ Ht). destruct Ht as (Hi & _ & rest & Hd). cbn [mbind res_bind].
  rewrite (rd_slice_at _ _ _ _ _ Hi Hd). by apply strbuf_add_spec.
Qed.

(** The order of strings: bytes as unsigned numbers, a proper prefix first. *)
Fixpoint lex (s t : list Z) : Z :=
  match s, t with
  | [], [] => 0
  | [], _ :: _ => -1
  | _ :: _, [] => 1
  | x :: s, y :: t => if x =? y then lex s t else if x <? y then -1 else 1
  end.

Lemma lex_memcmp s t n : n = Nat.min (length s) (length t) ->
  lex s t = (let c := memcmp (take n s) (take n t) in
    if tr c then c else if len s <? len t then -1 else Z.b2z (negb (len s =? len t))).
Proof.
  revert t n. induction s as [|x s IH]; intros [|y t] n ->; try done; cbn [length Nat.min take memcmp lex].
  rewrite !len_cons. destruct (Z.eqb_spec x y); [|by destruct (x <? y)]. rewrite (IH t _ eq_refl). cbn zeta.
    destruct (tr _); [done|]. replace (1 + len s <? 1 + len t) with (len s <? len t) by (cases_Z; lia).
    by replace (1 + len s =? 1 + len t) with (len s =? len t) by (cases_Z; lia).
Qed.

Lemma strbuf_cmp_spec a b s t : sb_ok a s -> sb_ok b t -> strbuf_cmp a b = Ok (lex s t).
Proof.
  intros Hs Ht. unfold strbuf_cmp. rewrite (sb_ok_len _ _ Hs), (sb_ok_len _ _ Ht).
  destruct (sb_ok_data _ _ Hs) as (r1 & ->), (sb_ok_data _ _ Ht) as (r2 & ->). clear Hs Ht.
  set (m := if len s <? len t then len s else len t). pose (n := Nat.min (length s) (length t)).
  assert (m = Z.of_nat n) as -> by (unfold m, n, len; destruct (Z.ltb_spec (Z.of_nat (length s)) (Z.of_nat (length t))); lia).
  rewrite !rd_slice_ok by (rewrite ?len_app; unfold n, len; simpl; lia). cbn [mbind res_bind].
  assert (forall (u r : list Z), (n <= length u)%nat -> slice (u ++ 0 :: r) 0 (Z.of_nat n) = take n u) as E.
  { intros u r Hu. unfold slice. rewrite Nat2Z.id. change (Z.to_nat 0) with 0%nat. by rewrite drop_0, take_app_le. }
  rewrite !E by (unfold n; lia). by rewrite (lex_memcmp s t n eq_refl).
Qed.

Lemma run_addstrings sb s data n k fuel : sb_ok sb s -> 0 <= k <= n -> (Z.to_nat (n - k) < fuel)%nat ->
  len s + len data * (n - k) < BIG ->
  wp oom (loop fuel (addstrings_step junk data n) (sb, k))
    (fun sb' => sb_ok sb' (s ++ mjoin (replicate (Z.to_nat (n - k)) data))).
Proof.
  revert sb s k. induction fuel as [|fuel IH]; intros sb s k Hs Hk Hf HB; [lia|]. apply wp_loop_S. unfold addstrings_step at 1.
  pose proof (len_nonneg data). destruct (Z.ltb_spec k n).
  - apply wp_bind. eapply wp_mono; [apply strbuf_add_spec; [done|nia]|]. intros sb' Hs'. apply wp_ret.
    eapply wp_mono; [apply (IH sb' (s ++ data)); [done|lia|lia|rewrite len_app; lia]|].
    intros sb2 Hs2. cbn beta in Hs2. replace (Z.to_nat (n - k)) with (S (Z.to_nat (n - (k + 1)))) by lia.
    simpl. by rewrite app_assoc.
  - apply wp_ret. replace (Z.to_nat (n - k)) with 0%nat by lia. simpl. by rewrite app_nil_r.
Qed.

Lemma strbuf_addstrings_spec sb s mem i t n : sb_ok sb s -> cstr mem i t -> 0 <= n -> len s + len t * n < BIG ->
  wp oom (strbuf_addstrings junk sb mem i n) (fun sb' => sb_ok sb' (s ++ mjoin (replicate (Z.to_nat n) t))).
Proof.
  intros Hs Ht Hn HB. unfold strbuf_addstrings. rewrite (strlen_ok _ _ _ Ht). destruct Ht as (Hi & _ & rest & Hd).
  cbn [mbind res_bind]. pose proof (len_nonneg t). pose proof (len_nonneg s). unfold BIG in HB. rewrite st_mult_ok by nia. cbn [mbind res_bind].
  apply wp_bind. eapply wp_mono; [apply strbuf_grow_spec; [done|nia|unfold BIG; lia]|]. intros sb' (tl & Hh & _).
  rewrite (rd_slice_at _ _ _ _ _ Hi Hd). cbn [mbind res_bind].
  pose proof (run_addstrings sb' s t n 0 (S (Z.to_nat n)) (sb_heap_ok _ _ _ Hh)) as Hr. rewrite Z.sub_0_r in Hr.
  apply Hr; [lia|lia|unfold BIG; lia].
Qed.

(** The strings with [delim] between them. *)
Definition join (delim : Z) (argv : list (list Z)) : list Z :=
  match argv with [] => [] | a :: argv => a ++ mjoin ((fun b => delim :: b) <$> argv) end.

Lemma run_join sb s delim argv fuel : sb_ok sb s -> is_byte delim -> (length argv < fuel)%nat ->
  len s + len (mjoin ((fun b => delim :: b) <$> argv)) < BIG ->
  wp oom (loop fuel (join_step junk delim) (sb, argv)) (fun sb' => sb_ok sb' (s ++ mjoin ((fun b => delim :: b) <$> argv))).
Proof.
  intros Hs Hd. revert sb s fuel Hs. induction argv as [|a argv IH]; intros sb s fuel Hs Hf HB; (destruct fuel as [|fuel]; [lia|]); apply wp_loop_S.
  - simpl. by rewrite app_nil_r.
  - cbn [fmap list_fmap mjoin list_join] in *. simpl in HB. rewrite len_cons, len_app in HB. unfold join_step at 1.
    pose proof (len_nonneg a). pose proof (len_nonneg (mjoin ((fun b => delim :: b) <$> argv))). pose proof (len_nonneg s).
    apply wp_bind. eapply wp_mono; [apply strbuf_addch_spec; [done|unfold mjoin in *; lia]|]. intros sb1 Hs1. rewrite u8_small in Hs1 by done.
    apply wp_bind. eapply wp_mono; [apply strbuf_add_spec; [done|rewrite len_app; change (len [delim]) with 1; unfold mjoin in *; lia]|].
    intros sb2 Hs2. cbn beta in Hs2. apply wp_ret. eapply wp_mono; [apply (IH sb2 _ fuel Hs2)|].
    + simpl in Hf. lia.
    + rewrite !len_app. change (len [delim]) with 1. unfold mjoin, fmap in *. lia.
    + intros sb3 Hs3. cbn beta in Hs3. by rewrite <- !app_assoc in Hs3.
Qed.

Lemma strbuf_join_argv_spec sb s delim argv : sb_ok sb s -> is_byte delim -> len s + len (join delim argv) < BIG ->
  wp oom (strbuf_join_argv junk sb argv delim) (fun sb' => sb_ok sb' (s ++ join delim argv)).
Proof.
  intros Hs Hd HB. unfold strbuf_join_argv. destruct argv as [|a argv]; cbn [join] in *; [simpl; by rewrite app_nil_r|].
  rewrite len_app in HB. pose proof (len_nonneg (mjoin ((fun b => delim :: b) <$> argv))).
  apply wp_bind. eapply wp_mono; [apply strbuf_add_spec; [done|lia]|]. intros sb1 Hs1. cbn beta in Hs1.
  eapply wp_mono; [apply (run_join sb1 (s ++ a)); [done|done|lia|rewrite len_app; lia]|]. intros sb2 Hs2. cbn beta in Hs2. by rewrite app_assoc.
Qed.
End Specs.

(** ** Refinement: a buffer is a list of bytes *)

Inductive sb_op :=
| OAdd (data : list Z) | OAddch (c : Z) | OAddchars (c n : Z) | OAddf (out : list Z)
| OSplice (pos n : Z) (data : list Z) | OComplete (term : Z)
| OTrim | ORtrim | OLtrim | OTrimDirSep | OTolower | OReset | ORelease.

(** Arguments of the types that the functions take. *)
Definition op_args_ok (op : sb_op) : Prop :=
  match op with
  | OAddch c | OComplete c => is_byte c
  | OAddchars c n => is_byte c /\ 0 <= n < 2 ^ 64
  | OSplice pos n data => 0 <= pos < 2 ^ 64 /\ 0 <= n < 2 ^ 64
  | _ => True
  end.

(** The number of bytes that an operation adds at most. *)
Definition op_added (op : sb_op) : Z :=
  match op with
  | OAdd data | OAddf data | OSplice _ _ data => len data
  | OAddch _ | OComplete _ => 1
  | OAddchars _ n => n
  | _ => 0
  end.

Definition ops_added (ops : list sb_op) : Z := foldr (fun op n => op_added op + n) 0 ops.

(** The operation on the list; [None] when the program dies. *)
Definition list_op (s : list Z) (op : sb_op) : option (list Z) :=
  match op with
  | OAdd data => Some (s ++ data)
  | OAddf data => if len data <? 2 ^ 31 then Some (s ++ data) else None
  | OAddch c => Some (s ++ [c])
  | OAddchars c n => Some (s ++ replicate (Z.to_nat n) c)
  | OSplice pos n data =>
      if pos + n <=? len s then Some (take (Z.to_nat pos) s ++ data ++ drop (Z.to_nat (pos + n)) s) else None
  | OComplete term => Some (if decide (s = [] \/ last s = Some term) then s else s ++ [term])
  | OTrim => Some (strip s)
  | ORtrim => Some (rstrip isspace s)
  | OLtrim => Some (lstrip isspace s)
  | OTrimDirSep => Some (rstrip git_is_dir_sep s)
  | OTolower => Some (tolower <$> s)
  | OReset | ORelease => Some []
  end.

Section Refinement.
Context `{Memory} (junk : Z).

Definition sb_run_op (sb : strbuf) (op : sb_op) : res strbuf :=
  match op with
  | OAdd data => strbuf_add junk sb data
  | OAddch c => strbuf_addch junk sb c
  | OAddchars c n => strbuf_addchars junk sb c n
  | OAddf out => strbuf_vaddf junk sb (Some out)
  | OSplice pos n data => strbuf_splice junk sb pos n data
  | OComplete term => strbuf_complete junk sb term
  | OTrim => strbuf_trim sb
  | ORtrim => strbuf_rtrim sb
  | OLtrim => strbuf_ltrim sb
  | OTrimDirSep => strbuf_trim_trailing_dir_sep sb
  | OTolower => strbuf_tolower sb
  | OReset => strbuf_reset sb
  | ORelease => strbuf_release junk sb
  end.

Definition sb_run (ops : list sb_op) : res strbuf :=
  foldl (fun r op => sb ← r; sb_run_op sb op) (Ok STRBUF_INIT) ops.

Definition list_run (ops : list sb_op) : option (list Z) :=
  foldl (fun r op => s ← r; list_op s op) (Some []) ops.

Lemma len_rstrip p s : len (rstrip p s) <= len s.
Proof. destruct (rstrip_prefix p s) as [u E]. rewrite E at 2. rewrite len_app. pose proof (len_nonneg u). lia. Qed.

Lemma len_lstrip p s : len (lstrip p s) <= len s.
Proof. unfold lstrip, len. rewrite length_drop. lia. Qed.

Lemma list_op_len s op s' : op_args_ok op -> list_op s op = Some s' -> len s' <= len s + op_added op.
Proof.
  intros Hop E. pose proof (len_nonneg s). destruct op; simpl in *; simplify_eq; rewrite ?len_app, ?len_cons; try change (len []) with 0; try lia.
  - unfold len. rewrite length_replicate. lia.
  - destruct (len out <? 2 ^ 31); simplify_eq. rewrite len_app. lia.
  - destruct (pos + n <=? len s); simplify_eq. rewrite !len_app. unfold len in *. rewrite length_take, length_drop. lia.
  - case_decide; [lia|]. rewrite len_app. change (len [_]) with 1. lia.
  - unfold strip. pose proof (len_lstrip isspace (rstrip isspace s)). pose proof (len_rstrip isspace s). lia.
  - pose proof (len_rstrip isspace s). lia.
  - pose proof (len_lstrip isspace s). lia.
  - pose proof (len_rstrip git_is_dir_sep s). lia.
  - unfold len. rewrite length_fmap. lia.
Qed.

Lemma op_added_nonneg op : op_args_ok op -> 0 <= op_added op.
Proof. destruct op; simpl; intros; try lia; apply len_nonneg. Qed.

Lemma sb_op_refines sb s op : sb_ok sb s -> op_args_ok op -> len s + op_added op < 2 ^ 45 ->
  match list_op s op with
  | Some s' => wp oom (sb_run_op sb op) (fun sb' => sb_ok sb' s')
  | None => sb_run_op sb op = Fault Died
  end.
Proof.
  intros Hs Hop Hl. pose proof (len_nonneg s). assert (2 ^ 45 + 2 ^ 33 < BIG) as HB by done.
  destruct op; simpl in *.
  - apply strbuf_add_spec; [done|lia].
  - rewrite <- (u8_small c) by done. pose proof (strbuf_addch_spec junk sb s c Hs ltac:(lia)) as Hc.
    rewrite (u8_small c) in * by done. done.
  - destruct Hop as [Hc Hn]. pose proof (strbuf_addchars_spec junk sb s c n Hs ltac:(lia) ltac:(lia)) as Hr. by rewrite (u8_small c) in Hr.
  - pose proof (len_nonneg out). destruct (Z.ltb_spec (len out) (2 ^ 31)).
    + apply strbuf_vaddf_spec; [done|done|lia].
    + apply (strbuf_vaddf_dies junk sb s out Hs); lia.
  - destruct Hop as (Hp & Hn). pose proof (strbuf_splice_spec junk sb s pos n data Hs Hp Hn ltac:(lia)) as Hr.
    by destruct (pos + n <=? len s).
  - apply strbuf_complete_spec; [done|done|lia].
  - by apply total_wp, strbuf_trim_spec.
  - by apply total_wp, rtrim_spec.
  - by apply total_wp, strbuf_ltrim_spec.
  - by apply total_wp, rtrim_spec.
  - by apply total_wp, strbuf_tolower_spec.
  - apply total_wp. eapply wp_mono; [apply strbuf_setlen_spec; [done|lia]|]. done.
  - unfold strbuf_release. destruct Hs as [[tl Hh]|[-> ->]]; [|apply sb_ok_init].
    rewrite (sb_heap_alloc _ _ _ Hh). apply sb_ok_init.
Qed.

Lemma ops_added_snoc ops op : ops_added (ops ++ [op]) = ops_added ops + op_added op.
Proof. unfold ops_added. induction ops as [|o ops IH]; simpl in *; lia. Qed.

Lemma sb_run_refines ops : Forall op_args_ok ops -> ops_added ops < 2 ^ 45 ->
  match list_run ops with
  | Some s => wp oom (sb_run ops) (fun sb => sb_ok sb s) /\ len s <= ops_added ops
  | None => sb_run ops = Fault Died
  end.
Proof.
  unfold list_run, sb_run. induction ops as [|op ops IH] using rev_ind; intros Hops Hn; [split; [apply sb_ok_init|done]|].
  rewrite !foldl_app. cbn [foldl]. apply Forall_app in Hops as [Hops Hop]. rewrite Forall_singleton in Hop.
  rewrite ops_added_snoc in *. pose proof (op_added_nonneg op Hop). specialize (IH Hops ltac:(lia)).
  destruct (foldl _ (Some []) ops) as [s|]; cbn [mbind option_bind].
  2:{ by rewrite IH. }
  destruct IH as [IH Hs]. destruct (foldl _ (Ok STRBUF_INIT) ops) as [sb|f] eqn:Er; cbn [mbind res_bind wp] in *.
  - pose proof (sb_op_refines sb s op IH Hop ltac:(lia)) as Hr. destruct (list_op s op) as [s'|] eqn:El; [|done].
    split; [done|]. pose proof (list_op_len s op s' Hop El). lia.
  - destruct IH as [-> Hm]. destruct (list_op s op) as [s'|] eqn:El; [|done].
    split; [split; [done|exact Hm]|]. pose proof (list_op_len s op s' Hop El). lia.
Qed.

(** C16: string buffers.  Any sequence of appending, formatting, splicing,
    completing, trimming, lower-casing and resetting that adds fewer than 32 TiB
    ([2 ^ 45] bytes) in all, started on an empty buffer, leaves in the buffer
    exactly the bytes that the same operations leave in a list, with a NUL behind
    them and the length and the allocated size in order.  It dies whenever a
    splice reaches behind the end or a formatted text is longer than [INT_MAX],
    and otherwise only for lack of memory; no operation accesses memory outside
    of the block or the shared slop buffer. *)
Theorem strbuf_refines ops : Forall op_args_ok ops -> ops_added ops < 2 ^ 45 ->
  match list_run ops with
  | Some s => wp oom (sb_run ops) (fun sb => sb_len sb = len s /\
      (exists rest, mem_of (sb_buf sb) = s ++ 0 :: rest) /\
      (sb_alloc sb = 0 \/ len s < sb_alloc sb /\ len (mem_of (sb_buf sb)) = sb_alloc sb))
  | None => sb_run ops = Fault Died
  end.
Proof.
  intros Hops Hn. pose proof (sb_run_refines ops Hops Hn) as Hr. destruct (list_run ops) as [s|]; [|done].
  destruct Hr as [Hr _]. eapply wp_mono; [exact Hr|]. intros sb Hs. split_and!; [by apply sb_ok_len|by apply sb_ok_data|].
  destruct Hs as [[tl [Hb Hl Ha _]]|[-> ->]]; [right|by left]. rewrite Hb. simpl. rewrite len_app, len_cons.
  pose proof (len_nonneg tl). lia.
Qed.
End Refinement.

Lemma strbuf_refines_witness :
  let ops := [OAdd [32; 97; 98]; OAddch 99; OTrim; OSplice 1 1 [120; 121]; OComplete 10] in
  list_run ops = Some [97; 120; 121; 99; 10] /\
  wp (@oom plenty) (@sb_run plenty 0 ops) (fun sb => sb_len sb = len [97; 120; 121; 99; 10] /\
      (exists rest, mem_of (sb_buf sb) = [97; 120; 121; 99; 10] ++ 0 :: rest) /\
      (sb_alloc sb = 0 \/ len [97; 120; 121; 99; 10] < sb_alloc sb /\ len (mem_of (sb_buf sb)) = sb_alloc sb)).
Proof.
  split; [reflexivity|].
  apply (@strbuf_refines plenty 0 [OAdd [32; 97; 98]; OAddch 99; OTrim; OSplice 1 1 [120; 121]; OComplete 10]); [|reflexivity].
  repeat constructor; vm_compute; congruence.
Defined.

(** ** Loops that append the translation of every character *)

Section AppendLoop.
Context `{Memory} (step : strbuf * Z -> res (strbuf * Z + strbuf)) (f : Z -> list Z) (slack : Z) (mem : list Z) (top : Z).

(** [top] is the index behind the characters [t]. *)
Lemma append_loop t : (forall sb s i c, c ∈ t -> sb_ok sb s -> 0 <= i < top -> rd mem i = Ok c -> len s + len (f c) + slack < BIG ->
    wp oom (step (sb, i)) (fun x => exists sb', x = inl (sb', i + 1) /\ sb_ok sb' (s ++ f c))) ->
  forall fuel sb s i rest, sb_ok sb s -> 0 <= i -> drop (Z.to_nat i) mem = t ++ rest -> (length t < fuel)%nat ->
  i + len t = top -> (forall sb, step (sb, top) = Ok (inr sb)) -> len s + len (mjoin (f <$> t)) + slack < BIG ->
  wp oom (loop fuel step (sb, i)) (fun sb' => sb_ok sb' (s ++ mjoin (f <$> t))).
Proof.
  induction t as [|c t IH]; intros Hstep fuel sb s i rest Hs Hi Hd Hf Htop Hend HB; (destruct fuel as [|fuel]; [lia|]); apply wp_loop_S.
  - change (len []) with 0 in Htop. rewrite Z.add_0_r in Htop. rewrite Htop, Hend. simpl. by rewrite app_nil_r.
  - rewrite len_cons in Htop. pose proof (len_nonneg t). change (mjoin (f <$> c :: t)) with (f c ++ mjoin (f <$> t)) in *. rewrite len_app in HB.
    pose proof (len_nonneg (mjoin (f <$> t))). eapply wp_mono.
    { apply (Hstep sb s i c); [by left|done|lia|by eapply rd_drop_cons|lia]. }
    intros x (sb' & -> & Hs'). eapply wp_mono; [eapply (IH ltac:(intros; apply Hstep; [by right|done..]) fuel sb' (s ++ f c) (i + 1) rest)|].
    + done.
    + lia.
    + by eapply drop_cons_tail.
    + simpl in Hf. lia.
    + lia.
    + done.
    + rewrite len_app. lia.
    + intros sb2 Hs2. cbn beta in Hs2. by rewrite app_assoc.
Qed.
End AppendLoop.

Lemma len_flat_map (f : Z -> list Z) t k : (forall c, c ∈ t -> len (f c) <= k) -> len (mjoin (f <$> t)) <= k * len t.
Proof.
  induction t as [|c t IH]; intros Hk; [change (len (mjoin (f <$> []))) with 0; change (len (@nil Z)) with 0; lia|]. change (mjoin (f <$> c :: t)) with (f c ++ mjoin (f <$> t)).
  rewrite len_app, len_cons. specialize (IH ltac:(intros; apply Hk; by right)). specialize (Hk c ltac:(by left)). lia.
Qed.
