(* ===== verification/StrbufText.v ===== *)
(** * The clean-up of [git stripspace]: [strbuf_stripspace] of [strbuf.c]

    Comment lines are dropped, trailing white space is removed, runs of empty
    lines are collapsed and the last line is terminated.  The function rewrites
    the block of its buffer in place; the theorem compares it with the same
    clean-up of a list of lines. *)

From stdpp Require Import prelude numbers list.
From S2P Require Import Prelude PatchDelta Alloc Hex CString Strbuf.

Section Code.
Context `{Memory} (junk : Z).

(** ** [strbuf_stripspace] *)

(** [line] is the address of the line in the block. *)
Definition cleanup_step (mem : list Z) (line n : Z) : res (Z + Z) :=
  if tr n then
    c ← rd mem (line + (n - 1));
    if negb (isspace c) then Ok (inr n) else Ok (inl (n - 1))
  else Ok (inr n).

Definition cleanup (mem : list Z) (line n : Z) : res Z :=
  loop (S (Z.to_nat n)) (cleanup_step mem line) n.

(** The loop variables are [i], [j] and [empties]; [comment_prefix] is an object
    and an index into it, or [NULL]. *)
Definition stripspace_step (comment_prefix : option (list Z * Z)) (st : strbuf * Z * Z * Z) :
    res (strbuf * Z * Z * Z + strbuf * Z) :=
  let '(sb, i, j, empties) := st in
  if i <? sb_len sb then
    let mem := mem_of (sb_buf sb) in
    eol ← memchr mem i 10 (sb_len sb - i);
    let n := match eol with Some e => e - i + 1 | None => sb_len sb - i end in
    comment ← (match comment_prefix with
               | Some (p, k) => if tr n then starts_with mem i p k else Ok false
               | None => Ok false
               end);
    if comment : bool then Ok (inl (sb, i + n, j, empties))
    else
      newlen ← cleanup mem i n;
      if tr newlen then
        '(sb, j) ← (if (0 <? empties) && (0 <? j) then sb ← sb_wr sb j 10; Ok (sb, j + 1) else Ok (sb, j));
        d ← rd_slice (mem_of (sb_buf sb)) i newlen;
        sb ← sb_wr_slice sb j d;
        sb ← sb_wr sb (newlen + j) 10;
        Ok (inl (sb, i + n, j + 1 + newlen, 0))
      else Ok (inl (sb, i + n, j + newlen, empties + 1))
  else Ok (inr (sb, j)).

Definition strbuf_stripspace (sb : strbuf) (comment_prefix : option (list Z * Z)) : res strbuf :=
  sb ← strbuf_grow junk sb 1;
  '(sb, j) ← loop (S (Z.to_nat (sb_len sb))) (stripspace_step comment_prefix) (sb, 0, 0, 0);
  strbuf_setlen sb j.
End Code.

(** ** Lines *)

(** The lines of a text, each with its newline. *)
Fixpoint lines (s : list Z) : list (list Z) :=
  match s with
  | [] => []
  | c :: s =>
      if c =? 10 then [10] :: lines s
      else match lines s with [] => [[c]] | l :: ls => (c :: l) :: ls end
  end.

Definition no_nl (s : list Z) : Prop := Forall (fun c => c <> 10) s.

Lemma lines_cons c s : lines (c :: s) =
  if c =? 10 then [10] :: lines s else match lines s with [] => [[c]] | l :: ls => (c :: l) :: ls end.
Proof. done. Qed.

Lemma lines_nl l s : no_nl l -> lines (l ++ 10 :: s) = (l ++ [10]) :: lines s.
Proof.
  induction 1 as [|c l Hc Hl IH]; simpl; [done|]. destruct (Z.eqb_spec c 10); [done|]. by rewrite IH.
Qed.

Lemma lines_last l : no_nl l -> l <> [] -> lines l = [l].
Proof.
  induction 1 as [|c l Hc Hl IH]; [done|]. intros _. rewrite lines_cons. destruct (Z.eqb_spec c 10); [done|].
  destruct l as [|d l]; [done|]. rewrite IH by discriminate. done.
Qed.

(** A text is empty, a last line without newline, or a line with newline and a rest. *)
Lemma text_cases s : s = [] \/ (s <> [] /\ no_nl s) \/ exists l r, s = l ++ 10 :: r /\ no_nl l.
Proof.
  induction s as [|c s [->|[[Hn IH]|(l & r & -> & Hl)]]].
  - by left.
  - right. destruct (decide (c = 10)) as [->|]; [right; exists [], []; split; [done|constructor]|left]. split; [done|]. by repeat constructor.
  - right. destruct (decide (c = 10)) as [->|]; [right; exists [], s; split; [done|constructor]|left]. split; [done|]. by constructor.
  - right. right. destruct (decide (c = 10)) as [->|]; [exists [], (l ++ 10 :: r); split; [done|constructor]|]. exists (c :: l), r. split; [done|by constructor].
Qed.

(** Induction on the lines. *)
Lemma text_ind (P : list Z -> Prop) : P [] -> (forall s, s <> [] -> no_nl s -> P s) ->
  (forall l r, no_nl l -> P r -> P (l ++ 10 :: r)) -> forall s, P s.
Proof.
  intros H0 H1 H2 s. remember (length s) as n eqn:E. revert s E. induction (lt_wf n) as [n _ IH]. intros s ->.
  destruct (text_cases s) as [->|[[Hn Hl]|(l & r & -> & Hl)]]; [done|by apply H1|]. apply H2; [done|].
  apply (IH (length r)); [|done]. rewrite length_app. simpl. lia.
Qed.

(** What is kept of a line, and the text that [strbuf_stripspace] makes of the
    lines: [started] when a line was printed, [blank] when the last lines seen
    were empty. *)
Definition clean (l : list Z) : list Z := rstrip isspace l.

Section Spec.
(** [is_comment] decides which lines are dropped. *)
Context (is_comment : list Z -> bool).

Fixpoint strip_lines (started blank : bool) (ls : list (list Z)) : list Z :=
  match ls with
  | [] => []
  | l :: ls =>
      if is_comment l then strip_lines started blank ls
      else if decide (clean l = []) then strip_lines started true ls
      else (if blank && started then [10] else []) ++ clean l ++ [10] ++ strip_lines true false ls
  end.

Definition stripspace (s : list Z) : list Z := strip_lines false false (lines s).
End Spec.

Definition comment_of (q : option (list Z)) (l : list Z) : bool :=
  match q with Some q => bool_decide (q `prefix_of` l) | None => false end.

Lemma isspace_nl : isspace 10 = true.
Proof. done. Qed.

Lemma clean_nl l : clean (l ++ [10]) = clean l.
Proof. unfold clean. by rewrite rstrip_snoc, isspace_nl. Qed.

Lemma cleanup_ok mem line a rest : 0 <= line -> drop (Z.to_nat line) mem = a ++ rest ->
  cleanup mem line (len a) = Ok (len (clean a)).
Proof.
  intros Hi Hd. unfold cleanup. assert (length a < S (Z.to_nat (len a)))%nat as Hf by llia. revert Hf. generalize (S (Z.to_nat (len a))).
  revert rest Hd. induction a as [|c a IH] using rev_ind; intros rest Hd fuel Hf; (destruct fuel as [|fuel]; [lia|]); rewrite loop_S; [done|].
  unfold cleanup_step at 1. rewrite len_app. change (len [c]) with 1. pose proof (len_nonneg a).
  rewrite (proj2 (tr_true (len a + 1))) by lia. replace (len a + 1 - 1) with (len a) by lia. rewrite <- app_assoc in Hd.
  rewrite (rd_drop_cons _ _ c rest) by first [lia|by eapply drop_app_tail]. cbn [mbind res_bind].
  unfold clean. rewrite rstrip_snoc. destruct (isspace c); cbn [negb]; [|by rewrite len_app].
  eapply IH; [exact Hd|]. rewrite length_app in Hf. simpl in Hf. lia.
Qed.

Lemma prefix_nl q l r : no_nl q -> q `prefix_of` l ++ 10 :: r <-> q `prefix_of` l ++ [10].
Proof.
  intros Hq. split; intros Hp.
  - revert l Hp. induction Hq as [|c q Hc Hq IH]; intros l Hp; [apply prefix_nil|]. destruct l as [|d l]; simpl in *.
    + apply prefix_cons_inv_1 in Hp. done.
    + apply prefix_cons_inv_1 in Hp as E. subst d. apply prefix_cons. apply IH. by eapply prefix_cons_inv_2.
  - destruct Hp as [k E]. exists (k ++ r). by rewrite app_assoc, <- E, <- app_assoc.
Qed.

(** ** The loop of [strbuf_stripspace] *)

(** The first byte of the block is that of [o], the output; [mid] was consumed. *)
Record strip_inv (n : Z) (sb : strbuf) (o mid r rest : list Z) : Prop := {
  si_buf : sb_buf sb = Heap (o ++ mid ++ r ++ 0 :: rest);
  si_len : sb_len sb = n;
  si_n : n = len o + len mid + len r;
  si_alloc : sb_alloc sb = n + 1 + len rest;
  si_rest : 1 <= len rest;
  si_big : sb_alloc sb < 2 ^ 48;
}.

(** The end of the loop: the output is followed by at least one byte. *)
Record strip_end (n : Z) (sb : strbuf) (o : list Z) : Prop := {
  se_buf : exists x rest, sb_buf sb = Heap (o ++ x :: rest) /\ sb_alloc sb = len o + 1 + len rest;
  se_len : sb_len sb = n;
  se_big : sb_alloc sb < 2 ^ 48;
}.

Lemma memchr_nl mem i l r x rest : 0 <= i -> drop (Z.to_nat i) mem = l ++ 10 :: r ++ x :: rest -> no_nl l ->
  memchr mem i 10 (len (l ++ 10 :: r)) = Ok (Some (i + len l)).
Proof.
  intros Hi Hd Hl. unfold memchr. rewrite (rd_slice_at _ _ _ x rest) by (done || by rewrite Hd, <- app_assoc). cbn [mbind res_bind].
  rewrite span_app; [|eapply Forall_impl; [exact Hl|]; intros c Hc; cbn beta; by rewrite (proj2 (Z.eqb_neq _ _))|done].
  rewrite decide_True; [done|]. rewrite length_app. simpl. lia.
Qed.

Lemma memchr_none mem i l x rest : 0 <= i -> drop (Z.to_nat i) mem = l ++ x :: rest -> no_nl l ->
  memchr mem i 10 (len l) = Ok None.
Proof.
  intros Hi Hd Hl. unfold memchr. rewrite (rd_slice_at _ _ _ x rest) by done. cbn [mbind res_bind].
  assert (span (fun c => negb (c =? 10)) l = length l) as ->.
  { clear -Hl. induction Hl as [|c l Hc Hl IH]; [done|]. simpl. rewrite (proj2 (Z.eqb_neq _ _)) by done. simpl. by rewrite IH. }
  by rewrite decide_False by lia.
Qed.

(** Printing the cleaned line [t] behind the output, after a separator. *)
Lemma print_line sb o mid t u R i n (b : bool) m1 m2 X Y :
  sb_buf sb = Heap (o ++ mid ++ (t ++ u) ++ R) -> i = len o + len mid ->
  mid = m1 ++ m2 -> len m1 = (if b then 1 else 0) -> m2 ++ (t ++ u) ++ R = X ++ Y -> len X = len t + 1 -> R <> [] ->
  let out := o ++ (if b then [10] else []) ++ t ++ [10] in
  ('(sb, j) ← (if b then sb ← sb_wr sb (len o) 10; Ok (sb, len o + 1) else Ok (sb, len o));
   d ← rd_slice (mem_of (sb_buf sb)) i (len t);
   sb ← sb_wr_slice sb j d;
   sb ← sb_wr sb (len t + j) 10;
   Ok (inl (sb, i + n, j + 1 + len t, 0))) =
  (Ok (inl (mkSb (sb_alloc sb) (sb_len sb) (Heap (out ++ Y)), i + n, len out, 0)) : res (strbuf * Z * Z * Z + strbuf * Z)).
Proof.
  intros Hb -> -> Hm1 HXY HX HR out.
  pose (sep := if b then [10] else []). assert (len sep = len m1) as Hsep by (rewrite Hm1; unfold sep; by destruct b).
  assert ((if b then sb ← sb_wr sb (len o) 10; Ok (sb, len o + 1) else Ok (sb, len o)) =
    Ok (mkSb (sb_alloc sb) (sb_len sb) (Heap (o ++ sep ++ m2 ++ (t ++ u) ++ R)), len o + len sep)) as ->.
  { unfold sep. destruct b.
    - destruct m1 as [|x [|]]; [done| |rewrite !len_cons in Hm1; pose proof (len_nonneg l); lia].
      unfold sb_wr. rewrite Hb. cbn [store app]. rewrite wr_mid by done. done.
    - destruct m1; [|rewrite len_cons in Hm1; pose proof (len_nonneg m1); lia]. cbn [app] in *. rewrite <- Hb.
      change (len []) with 0. rewrite Z.add_0_r. by destruct sb. }
  cbn [mbind res_bind mem_of sb_buf]. destruct R as [|x R]; [done|]. rewrite len_app.
  replace (o ++ sep ++ m2 ++ (t ++ u) ++ x :: R) with ((o ++ sep ++ m2) ++ t ++ (u ++ x :: R)) by (by rewrite <- !app_assoc).
  rewrite rd_slice_mid by (rewrite ?len_app; done || lia). cbn [mbind res_bind].
  destruct X as [|y X _] using rev_ind; [change (len []) with 0 in HX; pose proof (len_nonneg t); lia|].
  rewrite len_app in HX. change (len [y]) with 1 in HX.
  replace ((o ++ sep ++ m2) ++ t ++ u ++ x :: R) with ((o ++ sep) ++ X ++ y :: Y)
    by (rewrite <- !app_assoc in *; simpl in HXY; rewrite HXY; done).
  unfold sb_wr_slice. cbn [sb_buf store_slice sb_alloc sb_len]. rewrite wr_slice_mid by (rewrite ?len_app; lia). cbn [mbind res_bind].
  unfold sb_wr. cbn [sb_buf store sb_alloc sb_len]. rewrite (app_assoc (o ++ sep)), wr_mid by (rewrite !len_app; lia). cbn [mbind res_bind].
  unfold out. fold sep.
  replace (len o + len sep + 1 + len t) with (len (o ++ sep ++ t ++ [10])) by (rewrite !len_app; change (len [10]) with 1; lia).
  replace (((o ++ sep) ++ t) ++ 10 :: Y) with ((o ++ sep ++ t ++ [10]) ++ Y) by (by rewrite <- !app_assoc). done.
Qed.

(** The prefix in memory and its characters. *)
Definition prefix_is (cp : option (list Z * Z)) (q : option (list Z)) : Prop :=
  match cp, q with
  | Some (p, k), Some q => cstr p k q /\ no_nl q
  | None, None => True
  | _, _ => False
  end.

(** The code that prints a line. *)
Definition print_code (sb : strbuf) (i j e n newlen : Z) : res (strbuf * Z * Z * Z + strbuf * Z) :=
  '(sb, j) ← (if (0 <? e) && (0 <? j) then sb ← sb_wr sb j 10; Ok (sb, j + 1) else Ok (sb, j));
  d ← rd_slice (mem_of (sb_buf sb)) i newlen;
  sb ← sb_wr_slice sb j d;
  sb ← sb_wr sb (newlen + j) 10;
  Ok (inl (sb, i + n, j + 1 + newlen, 0)).

Lemma len_eq_0 {A} (l : list A) : tr (len l) = negb (bool_decide (length l = 0%nat)).
Proof.
  destruct l as [|x l]; [done|]. simpl. apply tr_true. rewrite len_cons. pose proof (len_nonneg l). lia.
Qed.

(** One line of the loop: [l] is the line, [r] what follows it. *)
Lemma strip_step cp q n sb o mid l r rest j e : prefix_is cp q -> strip_inv n sb o mid (l ++ r) rest ->
  (exists k, l = k ++ [10] /\ no_nl k) \/ (r = [] /\ l <> [] /\ no_nl l) ->
  let i := len o + len mid in
  stripspace_step cp (sb, i, j, e) =
    if comment_of q l then Ok (inl (sb, i + len l, j, e))
    else if decide (clean l = []) then Ok (inl (sb, i + len l, j, e + 1))
    else print_code sb i j e (len l) (len (clean l)).
Proof.
  intros Hq [Hb Hl Hn Ha Hr Hbig] Hline i. unfold stripspace_step. rewrite Hl. pose proof (len_nonneg l). pose proof (len_nonneg r).
  pose proof (len_nonneg o). pose proof (len_nonneg mid). rewrite len_app in Hn.
  assert (0 < len l) as Hl0.
  { destruct Hline as [(k & -> & _)|(_ & Hl0 & _)]; [rewrite len_app; change (len [10]) with 1; pose proof (len_nonneg k); lia|].
    destruct l; [done|]. rewrite len_cons. pose proof (len_nonneg l). lia. }
  destruct (Z.ltb_spec i n); [|unfold i in *; lia].
  assert (drop (Z.to_nat i) (mem_of (sb_buf sb)) = l ++ r ++ 0 :: rest) as Hd.
  { rewrite Hb. unfold i. rewrite <- len_app. apply (drop_app_tail _ 0); [done|]. simpl. by rewrite <- !app_assoc. }
  assert (exists eol, memchr (mem_of (sb_buf sb)) i 10 (n - i) = Ok eol /\
    match eol with Some e => e - i + 1 | None => n - i end = len l) as (eol & -> & En).
  { replace (n - i) with (len (l ++ r)) by (rewrite len_app; unfold i; lia).
    destruct Hline as [(k & -> & Hk)|(-> & _ & Hk)].
    - exists (Some (i + len k)). split; [|rewrite len_app; change (len [10]) with 1; lia]. rewrite <- app_assoc in *. cbn [app] in *.
      eapply memchr_nl; [unfold i; lia|exact Hd|done].
    - exists None. rewrite app_nil_r in *. split; [|lia]. eapply memchr_none; [unfold i; lia|exact Hd|done]. }
  cbn [mbind res_bind]. rewrite En.
  assert (match cp with Some (p, k) => if tr (len l) then starts_with (mem_of (sb_buf sb)) i p k else Ok false | None => Ok false end
    = Ok (comment_of q l)) as ->.
  { destruct cp as [[p k]|], q as [q|]; try done. destruct Hq as [Hc Hq]. rewrite (proj2 (tr_true (len l))) by lia.
    rewrite (starts_with_data _ _ (l ++ r) _ _ q); [|unfold i; lia|exists rest; by rewrite Hd, app_assoc|done].
    f_equal. apply bool_decide_ext. destruct Hline as [(k' & -> & _)|(-> & _)]; [|by rewrite app_nil_r].
    rewrite <- app_assoc. cbn [app]. by apply prefix_nl. }
  cbn [mbind res_bind]. destruct (comment_of q l); [done|].
  rewrite (cleanup_ok _ _ l (r ++ 0 :: rest)) by (done || unfold i; lia). cbn [mbind res_bind].
  rewrite len_eq_0. case_decide as Hc.
  - rewrite Hc. cbn [length]. rewrite bool_decide_eq_true_2 by done. cbn [negb]. change (len []) with 0. by rewrite Z.add_0_r.
  - rewrite bool_decide_eq_false_2; [done|]. by destruct (clean l).
Qed.

Lemma strip_skip n sb o mid l r rest : strip_inv n sb o mid (l ++ r) rest -> strip_inv n sb o (mid ++ l) r rest.
Proof.
  intros [Hb Hl Hn Ha Hr Hbig]. constructor; try done; [by rewrite Hb, <- !app_assoc|]. rewrite !len_app in *. lia.
Qed.

Lemma strip_exit cp n sb o mid rest e fuel : strip_inv n sb o mid [] rest ->
  loop (S fuel) (stripspace_step cp) (sb, len o + len mid, len o, e) = Ok (sb, len o) /\ strip_end n sb o.
Proof.
  intros [Hb Hl Hn Ha Hr Hbig]. change (len []) with 0 in Hn. rewrite loop_S. unfold stripspace_step. rewrite Hl.
  destruct (Z.ltb_spec (len o + len mid) n); [lia|]. split; [done|]. constructor; [|done|done]. cbn [app] in Hb.
  assert (exists x w, mid ++ 0 :: rest = x :: w) as (x & w & E) by (destruct mid; eexists _, _; reflexivity).
  exists x, w. rewrite Hb, E. split; [done|]. apply (f_equal len) in E. rewrite len_app, !len_cons in E. lia.
Qed.

Lemma nonempty_len (o : list Z) : (0 <? len o) = bool_decide (o <> []).
Proof.
  destruct o as [|x o]; [done|]. rewrite bool_decide_eq_true_2 by done. apply Z.ltb_lt. rewrite len_cons. pose proof (len_nonneg o). lia.
Qed.

(** The printing branch, in the terms of [strip_lines]: [Y] is what is left of
    the block behind the output. *)
Lemma strip_print n sb o mid l r rest e : strip_inv n sb o mid (l ++ r) rest -> (0 < e -> mid <> []) ->
  let i := len o + len mid in
  let b := (0 <? e) && bool_decide (o <> []) in
  let out := o ++ (if b then [10] else []) ++ clean l ++ [10] in
  exists Y, print_code sb i (len o) e (len l) (len (clean l)) =
      Ok (inl (mkSb (sb_alloc sb) n (Heap (out ++ Y)), i + len l, len out, 0)) /\
    len out + len Y = n + 1 + len rest /\ 1 <= len Y /\
    (forall k, l = k ++ [10] -> exists mid', Y = mid' ++ r ++ 0 :: rest /\ len out + len mid' = i + len l).
Proof.
  intros [Hb Hl Hn Ha Hr Hbig] Hmid i b out. rewrite len_app in Hn.
  destruct (rstrip_prefix isspace l) as [u Eu]. fold (clean l) in Eu. set (t := clean l) in *.
  assert (exists m1 m2, mid = m1 ++ m2 /\ len m1 = if b then 1 else 0) as (m1 & m2 & Em & Lm).
  { unfold b. destruct (Z.ltb_spec 0 e) as [H0|]; [|by exists [], mid]. destruct (bool_decide (o <> [])); [|by exists [], mid].
    destruct mid as [|x m2]; [by destruct (Hmid H0)|]. by exists [x], m2. }
  assert (len t <= len l) as Ht by (rewrite Eu, len_app; pose proof (len_nonneg u); lia).
  assert (exists X Y, m2 ++ (t ++ u) ++ r ++ 0 :: rest = X ++ Y /\ len X = len t + 1 /\
    (forall k, l = k ++ [10] -> exists mid', m2 ++ t ++ u = X ++ mid' /\ Y = mid' ++ r ++ 0 :: rest)) as (X & Y & EXY & LX & HY).
  { rewrite <- Eu. pose proof (len_nonneg m2). destruct (decide (last l = Some 10)) as [[k Ek]%last_Some|Hno].
    - assert (len t <= len k) as Hk.
      { unfold t. rewrite Ek, clean_nl. apply len_rstrip. }
      destruct (split_at (m2 ++ l) (len t + 1)) as (X & mid' & E & LX).
      { pose proof (len_nonneg t). rewrite Ek, !len_app. change (len [10]) with 1. lia. }
      exists X, (mid' ++ r ++ 0 :: rest). split_and!; [by rewrite app_assoc, E, <- app_assoc|done|]. intros _ _. by exists mid'.
    - destruct (split_at (m2 ++ l ++ r ++ 0 :: rest) (len t + 1)) as (X & Y & E & LX).
      { pose proof (len_nonneg t). pose proof (len_nonneg r). rewrite !len_app, len_cons. lia. }
      exists X, Y. split_and!; [done|done|]. intros k Ek. destruct Hno. apply last_Some. by exists k. }
  exists Y. assert (len out = len o + (if b then 1 else 0) + len t + 1) as Lo
    by (unfold out; rewrite !len_app; change (len [10]) with 1; destruct b; change (len []) with 0; change (len [10]) with 1; lia).
  apply (f_equal len) in Em as Lmid. rewrite len_app in Lmid.
  assert (len out + len Y = n + 1 + len rest) as LY.
  { apply (f_equal len) in EXY. rewrite !len_app, len_cons in EXY. rewrite Eu, len_app in Hn. lia. }
  pose proof (len_nonneg m2). pose proof (len_nonneg r). split_and!; [|done|lia|].
  - unfold print_code. rewrite nonempty_len, <- Hl. fold b.
    rewrite (print_line sb o mid t u (r ++ 0 :: rest) i (len l) b m1 m2 X Y); try done; [by rewrite Hb, Eu, <- !app_assoc|by destruct r].
  - intros k Ek. destruct (HY k Ek) as (mid' & E & ->). exists mid'. split; [done|].
    apply (f_equal len) in E. rewrite !len_app in E. rewrite Eu, len_app. unfold i. lia.
Qed.

Lemma strip_run cp q : prefix_is cp q -> forall r n sb o mid rest e fuel,
  strip_inv n sb o mid r rest -> 0 <= e -> (0 < e -> mid <> []) -> (length r < fuel)%nat ->
  let out := o ++ strip_lines (comment_of q) (bool_decide (o <> [])) (0 <? e) (lines r) in
  exists sb', loop fuel (stripspace_step cp) (sb, len o + len mid, len o, e) = Ok (sb', len out) /\ strip_end n sb' out.
Proof.
  intros Hq r. induction r as [|l Hne Hnl|l r Hnl IH] using text_ind; intros n sb o mid rest e fuel Hi He Hmid Hf;
    (destruct fuel as [|fuel]; [lia|]).
  - cbn [lines strip_lines]. rewrite app_nil_r. exists sb. by eapply strip_exit.
  - rewrite lines_last by done. rewrite loop_S. rewrite <- (app_nil_r l) in Hi.
    rewrite (strip_step cp q n sb o mid l [] rest) by (done || by right). cbn [strip_lines].
    destruct fuel as [|fuel]; [destruct l; simpl in Hf; [done|lia]|].
    pose proof (strip_skip _ _ _ _ _ _ _ Hi) as Hi'.
    destruct (comment_of q l).
    { rewrite app_nil_r, <- Z.add_assoc, <- len_app. exists sb. by eapply strip_exit. }
    case_decide.
    { rewrite app_nil_r, <- Z.add_assoc, <- len_app. exists sb. by eapply strip_exit. }
    destruct (strip_print n sb o mid l [] rest e Hi Hmid) as (Y & -> & LY & LY1 & _). cbn zeta. set (out := o ++ _ ++ _ ++ [10]) in *.
    rewrite app_nil_r. fold out. destruct Hi as [Hb Hl Hn Ha Hr Hbig]. rewrite app_nil_r in Hn.
    exists (mkSb (sb_alloc sb) n (Heap (out ++ Y))). rewrite loop_S. unfold stripspace_step. cbn [sb_len].
    destruct (Z.ltb_spec (len o + len mid + len l) n); [lia|]. split; [done|].
    constructor; [|done|done]. destruct Y as [|x Y]; [change (len []) with 0 in LY1; lia|].
    exists x, Y. split; [done|]. cbn [sb_alloc]. rewrite len_cons in LY. lia.
  - rewrite lines_nl by done. rewrite loop_S.
    change (10 :: r) with ([10] ++ r) in Hi. rewrite app_assoc in Hi.
    rewrite (strip_step cp q n sb o mid (l ++ [10]) r rest) by (done || left; by exists l). cbn [strip_lines].
    pose proof (strip_skip _ _ _ _ _ _ _ Hi) as Hi'. assert (length r < fuel)%nat as Hf' by (rewrite length_app in Hf; simpl in Hf; lia).
    destruct (comment_of q (l ++ [10])).
    { rewrite <- Z.add_assoc, <- len_app. eapply IH; [done|done|by destruct mid, l|done]. }
    case_decide.
    { rewrite <- Z.add_assoc, <- len_app. pose proof (IH n sb o (mid ++ l ++ [10]) rest (e + 1) fuel Hi') as Hr.
      replace (0 <? e + 1) with true in Hr by (symmetry; apply Z.ltb_lt; lia). apply Hr; [lia|by destruct mid, l|done]. }
    destruct (strip_print n sb o mid (l ++ [10]) r rest e Hi Hmid) as (Y & -> & LY & LY1 & HY). cbn zeta.
    destruct (HY l eq_refl) as (mid' & -> & Lm). clear HY. set (out := o ++ _ ++ _ ++ [10]) in *.
    rewrite <- Lm. destruct Hi as [Hb Hl Hn Ha Hr Hbig].
    assert (strip_inv n (mkSb (sb_alloc sb) n (Heap (out ++ mid' ++ r ++ 0 :: rest))) out mid' r rest) as Hi2.
    { constructor; try done. rewrite !len_app, len_cons in LY. lia. }
    destruct (IH n _ out mid' rest 0 fuel Hi2) as (sb' & E & He'); [lia|lia|done|]. exists sb'.
    assert (bool_decide (out <> []) = true) as Eo.
    { apply bool_decide_eq_true_2. unfold out. intros Hnil. repeat (apply app_eq_nil in Hnil as [_ Hnil]). done. }
    rewrite Eo in *. cbn [Z.ltb Z.compare] in *.
    assert (out ++ strip_lines (comment_of q) true false (lines r) = o ++ (if (0 <? e) && bool_decide (o <> []) then [10] else []) ++
      clean (l ++ [10]) ++ [10] ++ strip_lines (comment_of q) true false (lines r)) as Eout by (unfold out; by rewrite <- !app_assoc).
    rewrite <- Eout. done.
Qed.

Lemma strbuf_stripspace_spec `{Memory} junk sb s cp q : sb_ok sb s -> prefix_is cp q -> len s + 1 < BIG ->
  wp oom (strbuf_stripspace junk sb cp) (fun sb' => sb_ok sb' (stripspace (comment_of q) s)).
Proof.
  intros Hs Hq HB. unfold strbuf_stripspace. apply wp_bind. eapply wp_mono; [apply strbuf_grow_spec; [done|lia|done]|].
  intros sb1 (tl & [Hb Hl Ha Hbig] & Htl). rewrite Hl.
  assert (strip_inv (len s) sb1 [] [] s tl) as Hi by (constructor; try done; by change (len (@nil Z)) with 0).
  destruct (strip_run cp q Hq s (len s) sb1 [] [] tl 0 (S (Z.to_nat (len s))) Hi) as (sb2 & E & [(x & rest & Hb2 & Ha2) Hl2 Hbig2]);
    [lia|lia|llia|].
  change (len (@nil Z)) with 0 in E. change (0 + 0) with 0 in E. rewrite E. cbn [mbind res_bind app] in *.
  destruct (strbuf_setlen_heap sb2 _ _ _ _ Hb2 Ha2 Hbig2 eq_refl) as (sb3 & -> & Hh). by eapply sb_heap_ok.
Qed.

(** ** The clean-up is idempotent *)

Definition is_line (l : list Z) : Prop := exists k, no_nl k /\ (l = k \/ l = k ++ [10]).

Lemma lines_is_line s : Forall is_line (lines s).
Proof.
  induction s as [|s Hn Hs|l r Hl IH] using text_ind; [constructor| |].
  - rewrite lines_last by done. constructor; [|constructor]. exists s. auto.
  - rewrite lines_nl by done. constructor; [|done]. exists l. auto.
Qed.

Lemma lines_join s : mjoin (lines s) = s.
Proof.
  induction s as [|s Hn Hs|l r Hl IH] using text_ind; [done| |].
  - rewrite lines_last by done. apply app_nil_r.
  - rewrite lines_nl by done. change (mjoin ((l ++ [10]) :: lines r)) with ((l ++ [10]) ++ mjoin (lines r)). by rewrite IH, <- app_assoc.
Qed.

Lemma no_nl_prefix a b : no_nl (a ++ b) -> no_nl a.
Proof. unfold no_nl. rewrite Forall_app. by intros []. Qed.

Lemma clean_no_nl l : is_line l -> no_nl (clean l).
Proof.
  intros (k & Hk & [->| ->]); rewrite ?clean_nl; destruct (rstrip_prefix isspace k) as [u E]; unfold clean;
    rewrite E in Hk; by eapply no_nl_prefix.
Qed.

Lemma rstrip_idem p s : rstrip p (rstrip p s) = rstrip p s.
Proof.
  induction s as [|c s IH] using rev_ind; [done|]. rewrite rstrip_snoc. destruct (p c) eqn:E; [done|]. by rewrite rstrip_snoc, E.
Qed.

Section Idempotent.
Context (q : option (list Z)) (Hq : match q with Some q => no_nl q | None => True end).

Lemma clean_not_comment l : comment_of q l = false -> comment_of q (clean l ++ [10]) = false.
Proof using Hq.
  destruct q as [p|]; [|done]. simpl. rewrite !bool_decide_eq_false. intros Hl Hp. apply Hl. clear Hl.
  destruct (rstrip_prefix isspace l) as [u E]. fold (clean l) in E. rewrite E. apply prefix_app_r.
  destruct Hp as [k Ek]. destruct k as [|c k _] using rev_ind.
  - rewrite app_nil_r in Ek. subst p. apply Forall_app in Hq as [_ H1]. by rewrite Forall_singleton in H1.
  - rewrite app_assoc in Ek. apply app_inj_tail in Ek as [-> _]. by apply prefix_app_r.
Qed.

Lemma blank_not_comment l : comment_of q l = false -> comment_of q [10] = false.
Proof using Hq.
  destruct q as [p|]; [|done]. simpl. rewrite !bool_decide_eq_false. intros Hl [k Ek]. apply Hl.
  destruct p as [|c p]; [apply prefix_nil|]. injection Ek as <- _. apply Forall_cons in Hq as [H1 _]. done.
Qed.

Lemma strip_lines_idem st bl ls : Forall is_line ls ->
  strip_lines (comment_of q) st false (lines (strip_lines (comment_of q) st bl ls)) = strip_lines (comment_of q) st bl ls.
Proof using Hq.
  intros Hls. revert st bl. induction Hls as [|l ls Hl Hls IH]; intros st bl; [done|]. cbn [strip_lines].
  destruct (comment_of q l) eqn:Ec; [done|]. case_decide as Hd; [done|].
  assert (strip_lines (comment_of q) st (bl && st) ((clean l ++ [10]) :: lines (strip_lines (comment_of q) true false ls)) =
    (if bl && st then [10] else []) ++ clean l ++ [10] ++ strip_lines (comment_of q) true false ls) as Hline.
  { cbn [strip_lines]. rewrite (clean_not_comment l Ec), clean_nl. unfold clean in *. rewrite rstrip_idem, decide_False by done.
    rewrite IH. by destruct bl, st. }
  rewrite <- Hline at 2. destruct (bl && st) eqn:Eb; cbn [app].
  - change (lines (10 :: ?x)) with ([10] :: lines x). rewrite lines_nl by (by apply clean_no_nl).
    cbn [strip_lines]. rewrite (blank_not_comment l Ec). rewrite (decide_True (P := clean [10] = [])) by done. done.
  - by rewrite lines_nl by (by apply clean_no_nl).
Qed.
End Idempotent.

Lemma len_strip_lines f st bl ls : len (strip_lines f st bl ls) <= len (mjoin ls) + 2 * len ls.
Proof.
  revert st bl. induction ls as [|l ls IH]; intros st bl; [done|].
  change (mjoin (l :: ls)) with (l ++ mjoin ls). rewrite len_app, len_cons. cbn [strip_lines]. pose proof (len_nonneg l).
  destruct (f l); [specialize (IH st bl); lia|]. case_decide; [specialize (IH st true); lia|].
  rewrite !len_app. specialize (IH true false). pose proof (len_rstrip isspace l). unfold clean. change (len [10]) with 1.
  destruct (bl && st); [change (len [10]) with 1|change (len []) with 0]; lia.
Qed.

Lemma len_lines s : len (lines s) <= len s.
Proof.
  induction s as [|s Hn Hs|l r Hl IH] using text_ind; [done| |].
  - rewrite lines_last by done. destruct s; [done|]. rewrite !len_cons. change (len []) with 0. pose proof (len_nonneg s). lia.
  - rewrite lines_nl by done. rewrite len_app, !len_cons. pose proof (len_nonneg l). lia.
Qed.

(** [strbuf_stripspace] leaves in the buffer exactly the cleaned lines of the
    text: comment lines are gone, trailing white space is removed, runs of empty
    lines between paragraphs are a single one, there are none at the beginning
    and the end, and the last line is terminated; a second run changes nothing.
    It works in the block of the buffer and stays inside of it. *)
Theorem strbuf_stripspace_lines `{Memory} junk sb s cp q :
  sb_ok sb s -> prefix_is cp q -> len s < 2 ^ 40 ->
  wp oom (sb1 ← strbuf_stripspace junk sb cp; sb2 ← strbuf_stripspace junk sb1 cp; Ok (sb1, sb2))
    (fun '(sb1, sb2) => sb_ok sb1 (stripspace (comment_of q) s) /\ sb_ok sb2 (stripspace (comment_of q) s)).
Proof.
  intros Hs Hq HB. assert (2 ^ 45 < BIG) as HBIG by done.
  assert (len (stripspace (comment_of q) s) <= 3 * len s) as Hlen.
  { unfold stripspace. pose proof (len_strip_lines (comment_of q) false false (lines s)) as Hl. rewrite lines_join in Hl.
    pose proof (len_lines s). lia. }
  apply wp_bind. eapply wp_mono; [eapply strbuf_stripspace_spec; [done|done|lia]|]. intros sb1 H1. cbn beta in H1.
  apply wp_bind. eapply wp_mono; [eapply strbuf_stripspace_spec; [done|done|lia]|]. intros sb2 H2. cbn beta in H2.
  apply wp_ret. split; [done|]. unfold stripspace in H2 at 1. unfold stripspace in H2. rewrite strip_lines_idem in H2; [done| |apply lines_is_line].
  destruct cp as [[p k]|], q as [q|]; try done. by destruct Hq.
Qed.

Lemma strbuf_stripspace_lines_witness :
  let text := [10; 97; 32; 32; 10; 10; 10; 35; 120; 10; 98] in
  let sb := mkSb 12 11 (Heap (text ++ [0])) in
  let cp := Some ([35; 0], 0) in let f := comment_of (Some [35]) in
  stripspace f text = [97; 10; 10; 98; 10] /\
  wp (@oom plenty) (sb1 ← @strbuf_stripspace plenty 0 sb cp; sb2 ← @strbuf_stripspace plenty 0 sb1 cp; Ok (sb1, sb2))
    (fun '(sb1, sb2) => sb_ok sb1 (stripspace f text) /\ sb_ok sb2 (stripspace f text)).
Proof.
  split; [reflexivity|]. apply (@strbuf_stripspace_lines plenty 0); [|split|reflexivity].
  - left. exists []. by constructor.
  - split_and!; [done|by repeat constructor|by exists []].
  - by repeat constructor.
Defined.
