(* ===== verification/Url.v ===== *)
(** * URLs: [url.c], the percent-encoders of [strbuf.c] and their use in the
    credential store

    [strbuf_addf(sb, "%%%02x", ch)] is the append of three characters.  The
    predicate that says which characters stay is the callback
    [allow_unencoded_fn]; those of the credential store are modelled. *)

From stdpp Require Import prelude numbers list.
From S2P Require Import Prelude PatchDelta Alloc Hex CString Strbuf.

(** [char] as a signed integer. *)
Definition schar (c : Z) : Z := if c <? 128 then c else c - 256.

Definition is_urlschemechar (first_flag : bool) (ch : Z) : bool :=
  let alphanumeric := (0 <? ch) && isalnum ch in
  let special := (ch =? 43) || (ch =? 45) || (ch =? 46) in
  alphanumeric || (negb first_flag && special).

Definition is_url_step (mem : list Z) (url : Z) : res (Z + option Z) :=
  c ← rd mem url;
  if tr c && negb (c =? 58) then
    if negb (is_urlschemechar false (schar c)) then Ok (inr None) else Ok (inl (url + 1))
  else Ok (inr (Some url)).

(** [&&] does not look at the second and third character behind a mismatch. *)
Definition is_url (mem : list Z) (url : Z) : res bool :=
  c ← rd mem url;
  if negb (is_urlschemechar true (schar c)) then Ok false
  else
    r ← loop (S (length mem)) (is_url_step mem) (url + 1);
    match r with
    | None => Ok false
    | Some url =>
        a ← rd mem url;
        if negb (a =? 58) then Ok false
        else
          b ← rd mem (url + 1);
          if negb (b =? 47) then Ok false
          else d ← rd mem (url + 2); Ok (d =? 47)
    end.

Section Code.
Context `{Memory} (junk : Z).

(** The characters of [stop_at], [None] for [NULL]. *)
Definition url_decode_step (mem : list Z) (stop_at : option (list Z)) (decode_plus : bool) (st : strbuf * Z * Z) :
    res (strbuf * Z * Z + strbuf * Z) :=
  let '(out, q, n) := st in
  if tr n then
    c ← rd mem q;
    if negb (tr c) then Ok (inr (out, q))
    else if match stop_at with Some set => strchr_in set c | None => false end then Ok (inr (out, q + 1))
    else
      val ← (if (c =? 37) && ((n <? 0) || (3 <=? n)) then hex2chr mem (q + 1) else Ok 0);
      if 0 <? val then out ← strbuf_addch junk out val; Ok (inl (out, q + 3, n - 3))
      else
        out ← (if decode_plus && (c =? 43) then strbuf_addch junk out 32 else strbuf_addch junk out c);
        Ok (inl (out, q + 1, n - 1))
  else Ok (inr (out, q)).

(** The decoded block, and the new value of [*query]. *)
Definition url_decode_internal (mem : list Z) (query n : Z) (stop_at : option (list Z)) (out : strbuf) (decode_plus : bool) :
    res (list Z * Z) :=
  '(out, q) ← loop (S (length mem)) (url_decode_step mem stop_at decode_plus) (out, query, n);
  '(block, _, _) ← strbuf_detach junk out;
  Ok (block, q).

Definition url_decode_mem (mem : list Z) (url n : Z) : res (list Z) :=
  colon ← memchr mem url 58 n;
  '(out, url, n) ←
    (match colon with
     | Some colon =>
         if url <? colon then
           data ← rd_slice mem url (colon - url);
           out ← strbuf_add junk STRBUF_INIT data;
           Ok (out, colon, n - (colon - url))
         else Ok (STRBUF_INIT, url, n)
     | None => Ok (STRBUF_INIT, url, n)
     end);
  '(block, _) ← url_decode_internal mem url n None out false;
  Ok block.

Definition url_decode (mem : list Z) (url : Z) : res (list Z) :=
  n ← strlen mem url; url_decode_mem mem url (to_int n).

Definition url_percent_decode (mem : list Z) (encoded : Z) : res (list Z) :=
  n ← strlen mem encoded;
  '(block, _) ← url_decode_internal mem encoded (to_int n) None STRBUF_INIT false;
  Ok block.

Definition url_decode_parameter_name (mem : list Z) (query : Z) : res (list Z * Z) :=
  url_decode_internal mem query (-1) (Some [38; 61]) STRBUF_INIT true.

Definition url_decode_parameter_value (mem : list Z) (query : Z) : res (list Z * Z) :=
  url_decode_internal mem query (-1) (Some [38]) STRBUF_INIT true.

Definition end_url_with_slash (buf : strbuf) (mem : list Z) (url : Z) : res strbuf :=
  buf ← strbuf_addstr junk buf mem url; strbuf_complete junk buf 47.

Definition str_end_url_with_slash (mem : list Z) (url : Z) : res (list Z) :=
  buf ← end_url_with_slash STRBUF_INIT mem url;
  '(block, _, _) ← strbuf_detach junk buf; Ok block.

(** ["%%%02x"]. *)
Definition percent_02x (ch : Z) : list Z := [37; digit (ch >>. 4); digit (ch &. 15)].

Definition urlencode_step (mem : list Z) (top : Z) (allow_unencoded_fn : Z -> bool) (st : strbuf * Z) : res (strbuf * Z + strbuf) :=
  let '(sb, s) := st in
  if negb (s =? top) then
    ch ← rd mem s;
    sb ← (if allow_unencoded_fn ch then strbuf_addch junk sb ch else strbuf_vaddf junk sb (Some (percent_02x ch)));
    Ok (inl (sb, s + 1))
  else Ok (inr sb).

Definition strbuf_add_urlencode (sb : strbuf) (mem : list Z) (s n : Z) (allow_unencoded_fn : Z -> bool) : res strbuf :=
  sb ← strbuf_grow junk sb n;
  loop (S (Z.to_nat n)) (urlencode_step mem (s + n) allow_unencoded_fn) (sb, s).

Definition strbuf_addstr_urlencode (sb : strbuf) (mem : list Z) (s : Z) (allow_unencoded_fn : Z -> bool) : res strbuf :=
  n ← strlen mem s; strbuf_add_urlencode sb mem s n allow_unencoded_fn.
End Code.

Definition is_rfc3986_unreserved (ch : Z) : bool :=
  isalnum ch || (ch =? 45) || (ch =? 95) || (ch =? 46) || (ch =? 126).

Definition is_rfc3986_reserved_or_unreserved (ch : Z) : bool :=
  if is_rfc3986_unreserved ch then true
  else bool_decide (ch ∈ [33; 42; 39; 40; 41; 59; 58; 64; 38; 61; 43; 36; 44; 47; 63; 35; 91; 93]).

(** ** Encoding *)

Definition enc_char (allow : Z -> bool) (c : Z) : list Z := if allow c then [c] else percent_02x c.

(** The text that the encoder writes. *)
Definition urlencoded (allow : Z -> bool) (s : list Z) : list Z := mjoin (enc_char allow <$> s).

Lemma enc_char_len allow c : len (enc_char allow c) <= 3.
Proof. unfold enc_char. by destruct (allow c). Qed.

Lemma strbuf_addstr_urlencode_spec `{Memory} junk sb s mem i t allow : sb_ok sb s -> cstr mem i t -> is_bytes t ->
  len s + 3 * len t < 2 ^ 45 ->
  wp oom (strbuf_addstr_urlencode junk sb mem i allow) (fun sb' => sb_ok sb' (s ++ urlencoded allow t)).
Proof.
  intros Hs Ht Hb HB. unfold strbuf_addstr_urlencode. rewrite (strlen_ok _ _ _ Ht). destruct Ht as (Hi & _ & rest & Hd). cbn [mbind res_bind].
  pose proof (len_nonneg s). pose proof (len_nonneg t). assert (2 ^ 45 + 128 < BIG) as HBIG by done.
  unfold strbuf_add_urlencode. apply wp_bind. eapply wp_mono; [apply strbuf_grow_spec; [done|lia|lia]|].
  intros sb' (tl & Hh & _).
  eapply (append_loop _ (enc_char allow) 64 mem (i + len t) t); [|by eapply sb_heap_ok|done|exact Hd|llia|done| |].
  - intros sb1 s1 j c Hc Hs1 Hj Hr HB1. unfold urlencode_step. destruct (Z.eqb_spec j (i + len t)); [lia|]. cbn [negb].
    rewrite Hr. cbn [mbind res_bind]. assert (is_byte c) as Hcb by (rewrite Forall_forall in Hb; by apply Hb).
    unfold enc_char in *. apply wp_bind. destruct (allow c).
    + change (len [c]) with 1 in HB1. eapply wp_mono; [apply strbuf_addch_spec; [done|lia]|]. intros sb2 Hs2. rewrite u8_small in Hs2 by done.
      apply wp_ret. by exists sb2.
    + eapply wp_mono; [apply strbuf_vaddf_spec; [done|done|lia]|]. intros sb2 Hs2. apply wp_ret. by exists sb2.
  - intros sb1. unfold urlencode_step. by rewrite Z.eqb_refl.
  - pose proof (len_flat_map (enc_char allow) t 3 ltac:(intros; apply enc_char_len)). lia.
Qed.

(** ** Decoding *)

(** Two hexadecimal digits of a character other than NUL. *)
Definition hexpair (a b : Z) : option Z :=
  x ← hexdigit a; y ← hexdigit b; if 0 <? x * 16 + y then Some (x * 16 + y) else None.

(** The text behind the encoding: a percent sign without two such digits stands for itself. *)
Fixpoint unpercent (l : list Z) : list Z :=
  match l with
  | [] => []
  | c :: l =>
      if c =? 37 then
        match l with
        | a :: (b :: l') => match hexpair a b with Some v => v :: unpercent l' | None => c :: unpercent l end
        | _ => c :: unpercent l
        end
      else c :: unpercent l
  end.

Lemma unpercent_pair a b l : unpercent (37 :: a :: b :: l) =
  match hexpair a b with Some v => v :: unpercent l | None => 37 :: unpercent (a :: b :: l) end.
Proof. done. Qed.

Lemma unpercent_other c l : (c <> 37 \/ len l < 2) -> unpercent (c :: l) = c :: unpercent l.
Proof.
  intros Hc. destruct (Z.eqb_spec c 37) as [->|Hn].
  - destruct l as [|a [|b l]]; [done|done|]. rewrite !len_cons in Hc. pose proof (len_nonneg l). lia.
  - change (unpercent (c :: l)) with (if c =? 37 then match l with
      | a :: (b :: l') => match hexpair a b with Some v => v :: unpercent l' | None => c :: unpercent l end
      | _ => c :: unpercent l end else c :: unpercent l). by rewrite (proj2 (Z.eqb_neq _ _)).
Qed.

Lemma hexpair_byte a b v : hexpair a b = Some v -> is_byte v /\ v <> 0.
Proof.
  unfold hexpair. destruct (hexdigit a) as [x|] eqn:Ea; [|done]. destruct (hexdigit b) as [y|] eqn:Eb; [|done].
  cbn [mbind option_bind]. destruct (Z.ltb_spec 0 (x * 16 + y)); [|done]. intros [= <-].
  apply hexdigit_range in Ea as [Ha _], Eb as [Hb _]. unfold is_byte. lia.
Qed.

Lemma hex2chr_pair mem i a b rest : 0 <= i -> drop (Z.to_nat i) mem = a :: b :: rest -> is_byte a -> is_byte b ->
  exists v, hex2chr mem i = Ok v /\ (if 0 <? v then hexpair a b = Some v else hexpair a b = None).
Proof.
  intros Hi Hd Ha Hb. pose proof (rd_drop_cons _ _ _ _ Hi Hd) as Hra.
  assert (rd mem (i + 1) = Ok b) as Hrb by (eapply rd_drop_cons; [lia|by eapply drop_cons_tail]).
  rewrite (hex2chr_ok mem i a) by eauto. rewrite Hrb. unfold hexpair.
  destruct (hexdigit a) as [x|]; [|by exists (-1)]. destruct (hexdigit b) as [y|]; [|by exists (-1)].
  exists (x * 16 + y). split; [done|]. cbn [mbind option_bind]. by destruct (0 <? x * 16 + y).
Qed.

Section Decode.
Context `{Memory} (junk : Z).

Lemma url_decode_run mem : forall fuel l sb s q rest, sb_ok sb s -> 0 <= q -> drop (Z.to_nat q) mem = l ++ 0 :: rest ->
  is_bytes l -> Forall (fun c => c <> 0) l -> (length l < fuel)%nat -> len s + len l < BIG - 1 ->
  wp oom (loop fuel (url_decode_step junk mem None false) (sb, q, len l))
    (fun '(sb', q') => sb_ok sb' (s ++ unpercent l) /\ q' = q + len l).
Proof.
  induction fuel as [|fuel IH]; intros l sb s q rest Hs Hq Hd Hb Hnz Hf HB; [lia|]. apply wp_loop_S. unfold url_decode_step at 1.
  destruct l as [|c l].
  { simpl. rewrite app_nil_r. split; [done|]. change (len []) with 0. lia. }
  rewrite len_cons in *. pose proof (len_nonneg l). rewrite (proj2 (tr_true _)) by lia.
  rewrite (rd_drop_cons _ _ _ _ Hq Hd). cbn [mbind res_bind]. apply Forall_cons in Hb as [Hc Hb]. apply Forall_cons in Hnz as [Hc0 Hnz].
  rewrite (proj2 (tr_true c)) by done. cbn [negb]. pose proof (drop_cons_tail _ _ _ _ Hq Hd) as Hd1.
  (** the branch that keeps the character *)
  assert (unpercent (c :: l) = c :: unpercent l ->
    wp oom (out ← strbuf_addch junk sb c; Ok (inl (out, q + 1, 1 + len l - 1)))
      (fun x => match x with
       | inl st => wp oom (loop fuel (url_decode_step junk mem None false) st)
           (fun '(sb', q') => sb_ok sb' (s ++ unpercent (c :: l)) /\ q' = q + (1 + len l))
       | inr (sb', q') => sb_ok sb' (s ++ unpercent (c :: l)) /\ q' = q + (1 + len l) end)) as Hkeep.
  { intros ->. apply wp_bind. eapply wp_mono; [apply strbuf_addch_spec; [done|lia]|]. intros sb1 Hs1. rewrite u8_small in Hs1 by done.
    apply wp_ret. replace (1 + len l - 1) with (len l) by lia.
    eapply wp_mono; [apply (IH l sb1 (s ++ [c]) (q + 1) rest); try done; [lia|simpl in Hf; lia|rewrite len_app; change (len [c]) with 1; lia]|].
    intros [sb2 q2] [Hs2 ->]. split; [by rewrite <- app_assoc in Hs2|lia]. }
  destruct (Z.eqb_spec c 37) as [->|Hn]; cbn [andb].
  2:{ cbn [mbind res_bind Z.ltb Z.compare andb]. apply Hkeep. apply unpercent_other. by left. }
  destruct (Z.ltb_spec (1 + len l) 0); [lia|]. cbn [orb]. destruct (Z.leb_spec 3 (1 + len l)).
  2:{ cbn [mbind res_bind Z.ltb Z.compare andb]. apply Hkeep. apply unpercent_other. right. lia. }
  destruct l as [|a [|b l]]; [change (len []) with 0 in *; lia|rewrite len_cons in *; change (len []) with 0 in *; lia|].
  apply Forall_cons in Hb as [Ha Hb]. apply Forall_cons in Hb as [Hb Hbs].
  destruct (hex2chr_pair mem (q + 1) a b (l ++ 0 :: rest)) as (v & -> & Hv); [lia|done..|]. cbn [mbind res_bind].
  destruct (0 <? v).
  - rewrite unpercent_pair, Hv. apply wp_bind. rewrite !len_cons in *. pose proof (len_nonneg l).
    eapply wp_mono; [apply strbuf_addch_spec; [done|lia]|]. intros sb1 Hs1. rewrite u8_small in Hs1 by (by eapply hexpair_byte).
    apply wp_ret. replace (1 + (1 + (1 + len l)) - 3) with (len l) by lia. rewrite !Forall_cons in Hnz.
    eapply wp_mono; [apply (IH l sb1 (s ++ [v]) (q + 3) rest)|]; try done; try lia.
    + replace (q + 3) with (q + 1 + len [a; b]) by (change (len [a; b]) with 2; lia). eapply drop_app_tail; [lia|exact Hd1].
    + naive_solver.
    + simpl in Hf. lia.
    + rewrite len_app. change (len [v]) with 1. lia.
    + intros [sb2 q2] [Hs2 ->]. split; [by rewrite <- app_assoc in Hs2|lia].
  - apply Hkeep. rewrite unpercent_pair, Hv. done.
Qed.

Lemma len_unpercent l : len (unpercent l) <= len l.
Proof.
  remember (length l) as n eqn:E. revert l E. induction (lt_wf n) as [n _ IH]. intros l ->.
  destruct l as [|c l]; [done|]. assert (len (unpercent l) <= len l) as Hl by (apply (IH (length l)); [simpl; lia|done]).
  destruct (decide (c <> 37 \/ len l < 2)) as [Hk|Hk]; [rewrite unpercent_other, !len_cons by done; lia|].
  destruct l as [|a [|b l]]; [change (len []) with 0 in *; lia|rewrite len_cons in *; change (len []) with 0 in *; lia|].
  assert (c = 37) as -> by lia. rewrite unpercent_pair. destruct (hexpair a b); [|rewrite !len_cons in *; lia].
  assert (len (unpercent l) <= len l) as Hl2 by (apply (IH (length l)); [simpl; lia|done]). rewrite !len_cons in *. lia.
Qed.

Lemma url_percent_decode_spec mem i t : cstr mem i t -> is_bytes t -> len t < 2 ^ 31 ->
  wp oom (url_percent_decode junk mem i) (fun block => exists rest, block = unpercent t ++ 0 :: rest).
Proof.
  intros Ht Hb HB. assert (2 ^ 31 < BIG - 1) as HBIG by done. unfold url_percent_decode. rewrite (strlen_ok _ _ _ Ht). cbn [mbind res_bind].
  pose proof (len_nonneg t). rewrite to_int_small by lia. unfold url_decode_internal.
  destruct Ht as (Hi & Hnz & rest & Hd). do 2 apply wp_bind.
  eapply wp_mono; [apply (url_decode_run mem _ t STRBUF_INIT [] i rest sb_ok_init Hi Hd Hb Hnz)|].
  - apply (f_equal length) in Hd. rewrite length_drop, length_app in Hd. simpl in Hd. lia.
  - change (len []) with 0. lia.
  - intros [sb q] [Hs _]. simpl in Hs. apply wp_bind. pose proof (len_unpercent t).
    eapply wp_mono; [apply strbuf_detach_spec; [done|lia]|]. intros [[block n] sb'] ((r & ->) & _). simpl. by exists r.
Qed.
End Decode.

(** ** The round trip *)

Lemma hexpair_percent c : is_byte c -> c <> 0 -> hexpair (digit (c >>. 4)) (digit (c &. 15)) = Some c.
Proof.
  intros Hc H0. unfold hexpair. rewrite Z.shiftr_div_pow2, (land_mask c 15 4) by done. unfold is_byte in Hc.
  rewrite !digit_hexdigit by dlia. cbn [mbind option_bind]. change (2 ^ 4) with 16.
  replace (c `div` 16 * 16 + c `mod` 16) with c by dlia. destruct (Z.ltb_spec 0 c); [done|lia].
Qed.

Lemma unpercent_enc allow t : allow 37 = false -> is_bytes t -> Forall (fun c => c <> 0) t -> unpercent (urlencoded allow t) = t.
Proof.
  intros Ha Hb Hnz. induction t as [|c t IH]; [done|]. apply Forall_cons in Hb as [Hc Hb]. apply Forall_cons in Hnz as [H0 Hnz].
  change (urlencoded allow (c :: t)) with (enc_char allow c ++ urlencoded allow t). unfold enc_char. destruct (allow c) eqn:E.
  - cbn [app]. rewrite unpercent_other by (left; intros ->; congruence). by rewrite IH.
  - unfold percent_02x. cbn [app]. rewrite unpercent_pair, hexpair_percent by done. by rewrite IH.
Qed.

Lemma urlencoded_chars allow t : is_bytes t -> Forall (fun c => c <> 0) t ->
  is_bytes (urlencoded allow t) /\ Forall (fun c => c <> 0) (urlencoded allow t).
Proof.
  intros Hb Hnz. rewrite <- Forall_and. induction t as [|c t IH]; [constructor|].
  apply Forall_cons in Hb as [Hc Hb]. apply Forall_cons in Hnz as [H0 Hnz].
  change (urlencoded allow (c :: t)) with (enc_char allow c ++ urlencoded allow t). apply Forall_app_2; [|by apply IH].
  unfold enc_char. destruct (allow c); [by rewrite Forall_singleton|]. unfold percent_02x.
  rewrite Z.shiftr_div_pow2, (land_mask c 15 4) by done. unfold is_byte in Hc.
  assert (forall x, 0 <= x < 16 -> is_byte (digit x) /\ digit x <> 0) as Hdig.
  { intros x Hx. split; [by apply hex_digit_byte|]. unfold digit. destruct (Z.ltb_spec x 10); lia. }
  apply Forall_cons_2; [unfold is_byte; lia|]. apply Forall_cons_2; [apply Hdig; dlia|]. rewrite Forall_singleton. apply Hdig. dlia.
Qed.

Lemma sb_cstr sb s : sb_ok sb s -> Forall (fun c => c <> 0) s -> cstr (mem_of (sb_buf sb)) 0 s.
Proof. intros Hs Hnz. destruct (sb_ok_data _ _ Hs) as (rest & E). split_and!; [done|done|]. exists rest. by rewrite E. Qed.

(** Percent-encoding a string and decoding the text gives the string back,
    for every callback that does not let the percent sign through, in particular
    for those of the credential store; the encoded text has no NUL, consists of
    the allowed characters and of percent signs with two digits, and is at most
    three times as long. *)
Theorem url_roundtrip `{Memory} junk mem i t allow : cstr mem i t -> is_bytes t -> 3 * len t < 2 ^ 31 -> allow 37 = false ->
  wp oom (sb ← strbuf_addstr_urlencode junk STRBUF_INIT mem i allow;
          block ← url_percent_decode junk (mem_of (sb_buf sb)) 0; Ok (sb, block))
    (fun '(sb, block) => sb_ok sb (urlencoded allow t) /\ len (urlencoded allow t) <= 3 * len t /\
       exists rest, block = t ++ 0 :: rest) /\
  is_rfc3986_unreserved 37 = false /\ is_rfc3986_reserved_or_unreserved 37 = false.
Proof.
  intros Ht Hb HB Ha. split; [|done]. assert (2 ^ 31 < 2 ^ 45) by done. apply wp_bind.
  assert (Forall (fun c => c <> 0) t) as Hnz by apply Ht.
  eapply wp_mono; [apply (strbuf_addstr_urlencode_spec junk STRBUF_INIT [] mem i t allow sb_ok_init Ht Hb); change (len []) with 0; lia|].
  intros sb Hs. cbn [app] in Hs. apply wp_bind. destruct (urlencoded_chars allow t Hb Hnz) as [Hb' Hnz'].
  pose proof (len_flat_map (enc_char allow) t 3 ltac:(intros; apply enc_char_len)) as Hl. fold (urlencoded allow t) in Hl.
  eapply wp_mono; [apply (url_percent_decode_spec junk _ 0 (urlencoded allow t)); [by apply sb_cstr|done|lia]|].
  intros block (rest & ->). apply wp_ret. split_and!; [done|done|]. exists rest. by rewrite unpercent_enc.
Qed.

Lemma url_roundtrip_witness :
  let t := [97; 32; 37; 200] in
  urlencoded is_rfc3986_unreserved t = [97; 37; 50; 48; 37; 50; 53; 37; 99; 56] /\
  (wp (@oom plenty) (sb ← @strbuf_addstr_urlencode plenty 0 STRBUF_INIT (t ++ [0]) 0 is_rfc3986_unreserved;
          block ← @url_percent_decode plenty 0 (mem_of (sb_buf sb)) 0; Ok (sb, block))
    (fun '(sb, block) => sb_ok sb (urlencoded is_rfc3986_unreserved t) /\ len (urlencoded is_rfc3986_unreserved t) <= 3 * len t /\
       exists rest, block = t ++ 0 :: rest) /\
  is_rfc3986_unreserved 37 = false /\ is_rfc3986_reserved_or_unreserved 37 = false).
Proof.
  split; [reflexivity|]. apply (@url_roundtrip plenty 0); [|repeat constructor; unfold is_byte; lia|reflexivity|reflexivity].
  split_and!; [done|by repeat constructor|by exists []].
Defined.
