(* ===== verification/Quote.v ===== *)
(** * Shell quoting: [sq_quote_buf], [sq_dequote] and the argument vectors of [quote.c]

    The dequoting functions work in place, so their model threads the object
    they write to. *)

From stdpp Require Import prelude numbers list.
From S2P Require Import Prelude PatchDelta Alloc CString Strbuf.

Definition need_bs_quote (c : Z) : bool := (c =? 39) || (c =? 33).

Section Code.
Context `{Memory} (junk : Z).

(** ** Quoting for the shell *)

Definition bs_step (mem : list Z) (st : strbuf * Z) : res (strbuf * Z + strbuf * Z) :=
  let '(dst, src) := st in
  c ← rd mem src;
  if need_bs_quote c then
    dst ← strbuf_add junk dst [39; 92];
    dst ← strbuf_addch junk dst c;
    dst ← strbuf_addch junk dst 39;
    Ok (inl (dst, src + 1))
  else Ok (inr (dst, src)).

Definition sq_step (mem : list Z) (st : strbuf * Z) : res (strbuf * Z + strbuf) :=
  let '(dst, src) := st in
  c ← rd mem src;
  if tr c then
    n ← strcspn mem src [39; 33];
    data ← rd_slice mem src n;
    dst ← strbuf_add junk dst data;
    '(dst, src) ← loop (S (length mem)) (bs_step mem) (dst, src + n);
    Ok (inl (dst, src))
  else Ok (inr dst).

(** The source is a string of an object, or [dst->buf] itself. *)
Inductive sq_source := SrcMem (mem : list Z) (src : Z) | SrcDst.

Definition sq_quote_buf (dst : strbuf) (source : sq_source) : res strbuf :=
  '(mem, src, dst) ←
    (match source with
     | SrcMem mem src => Ok (mem, src, dst)
     | SrcDst => '(block, _, dst) ← strbuf_detach junk dst; Ok (block, 0, dst)
     end);
  dst ← strbuf_addch junk dst 39;
  dst ← loop (S (length mem)) (sq_step mem) (dst, src);
  strbuf_addch junk dst 39.

(** ["+,-./:=@_^"] *)
Definition ok_punct : list Z := [43; 44; 45; 46; 47; 58; 61; 64; 95; 94].

Definition pretty_step (mem : list Z) (p : Z) : res (Z + bool) :=
  c ← rd mem p;
  if tr c then
    if negb (isalnum c) && negb (strchr_in ok_punct c) then Ok (inr true) else Ok (inl (p + 1))
  else Ok (inr false).

Definition sq_quote_buf_pretty (dst : strbuf) (mem : list Z) (src : Z) : res strbuf :=
  c ← rd mem src;
  if negb (tr c) then strbuf_add junk dst [39; 39]
  else
    need ← loop (S (length mem)) (pretty_step mem) src;
    if need : bool then sq_quote_buf dst (SrcMem mem src) else strbuf_addstr junk dst mem src.

(** The arguments are strings of objects of their own. *)
Definition sq_argv_step (st : strbuf * list (list Z * Z)) : res (strbuf * list (list Z * Z) + strbuf) :=
  let '(dst, argv) := st in
  match argv with
  | [] => Ok (inr dst)
  | (mem, a) :: argv =>
      dst ← strbuf_addch junk dst 32;
      dst ← sq_quote_buf dst (SrcMem mem a);
      Ok (inl (dst, argv))
  end.

Definition sq_quote_argv (dst : strbuf) (argv : list (list Z * Z)) : res strbuf :=
  dst ← strbuf_grow junk dst 255;
  loop (S (length argv)) sq_argv_step (dst, argv).

Definition sq_append_step (st : strbuf * list (list Z * Z) * Z) : res (strbuf * list (list Z * Z) * Z + strbuf) :=
  let '(dst, argv, i) := st in
  match argv with
  | [] => Ok (inr dst)
  | (mem, a) :: argv =>
      dst ← (if 0 <? i then strbuf_addch junk dst 32 else Ok dst);
      dst ← sq_quote_buf_pretty dst mem a;
      Ok (inl (dst, argv, i + 1))
  end.

Definition sq_append_quote_argv_pretty (dst : strbuf) (argv : list (list Z * Z)) : res strbuf :=
  loop (S (length argv)) sq_append_step (dst, argv, 0).

Definition sq_quote_argv_pretty (dst : strbuf) (argv : list (list Z * Z)) : res strbuf :=
  dst ← (match argv with [] => Ok dst | _ => strbuf_addch junk dst 32 end);
  sq_append_quote_argv_pretty dst argv.

End Code.

(** ** Dequoting in place *)

(** What [sq_dequote_step] returns: [NULL], or [arg] with [*next]. *)
Inductive dequoted := DNull | DArg (next : option Z).

(** One turn of the loop: the object, [dst] and [src]. *)
Definition dequote_turn (want_next : bool) (st : list Z * Z * Z) : res (list Z * Z * Z + list Z * dequoted) :=
  let '(mem, dst, src) := st in
  let src := src + 1 in
  c ← rd mem src;
  if negb (tr c) then Ok (inr (mem, DNull))
  else if negb (c =? 39) then
    mem ← wr mem dst c; Ok (inl (mem, dst + 1, src))
  else
    let src := src + 1 in
    d ← rd mem src;
    if negb (tr d) then mem ← wr mem dst 0; Ok (inr (mem, DArg None))
    else
      bs ← (if d =? 92 then
              e ← rd mem (src + 1);
              if need_bs_quote e then f ← rd mem (src + 2); Ok (if f =? 39 then Some e else None) else Ok None
            else Ok None);
      match bs with
      | Some e => mem ← wr mem dst e; Ok (inl (mem, dst + 1, src + 2))
      | None =>
          if negb want_next then Ok (inr (mem, DNull))
          else mem ← wr mem dst 0; Ok (inr (mem, DArg (Some src)))
      end.

Definition sq_dequote_step (mem : list Z) (arg : Z) (want_next : bool) : res (list Z * dequoted) :=
  c ← rd mem arg;
  if negb (c =? 39) then Ok (mem, DNull)
  else loop (S (length mem)) (dequote_turn want_next) (mem, arg, arg).

Definition sq_dequote (mem : list Z) (arg : Z) : res (list Z * dequoted) := sq_dequote_step mem arg false.

(** [do c = *++next; while (isspace(c));] *)
Definition skip_space_step (mem : list Z) (next : Z) : res (Z + Z) :=
  let next := next + 1 in
  c ← rd mem next; if isspace c then Ok (inl next) else Ok (inr next).

(** [argv] collects the pointers, [array] the copies that [strvec_push] makes. *)
Definition dequote_argv_step (st : list Z * Z * list Z * list (list Z)) :
    res (list Z * Z * list Z * list (list Z) + list Z * list Z * list (list Z) * Z) :=
  let '(mem, next, argv, array) := st in
  '(mem, r) ← sq_dequote_step mem next true;
  match r with
  | DNull => Ok (inr (mem, argv, array, -1))
  | DArg nxt =>
      ok ← (match nxt with
            | Some n =>
                c ← rd mem n;
                if negb (isspace c) then Ok None
                else n ← loop (S (length mem)) (skip_space_step mem) n; Ok (Some (Some n))
            | None => Ok (Some None)
            end);
      match ok with
      | None => Ok (inr (mem, argv, array, -1))
      | Some nxt =>
          n ← strlen mem next; copy ← rd_slice mem next n;
          let argv := argv ++ [next] in
          let array := array ++ [copy] in
          match nxt with
          | Some n => Ok (inl (mem, n, argv, array))
          | None => Ok (inr (mem, argv, array, 0))
          end
      end
  end.

Definition sq_dequote_to_argv_internal (mem : list Z) (arg : Z) (argv : list Z) (array : list (list Z)) :
    res (list Z * list Z * list (list Z) * Z) :=
  c ← rd mem arg;
  if negb (tr c) then Ok (mem, argv, array, 0)
  else loop (S (length mem)) dequote_argv_step (mem, arg, argv, array).

(** ** What shell quoting writes *)

Definition sqc (c : Z) : list Z := if need_bs_quote c then [39; 92; c; 39] else [c].

Definition sq_chars (s : list Z) : list Z := mjoin (sqc <$> s).

(** The quoted string. *)
Definition sq (s : list Z) : list Z := 39 :: sq_chars s ++ [39].

Lemma sq_chars_app a b : sq_chars (a ++ b) = sq_chars a ++ sq_chars b.
Proof. unfold sq_chars. by rewrite fmap_app, join_app. Qed.

Lemma sq_chars_plain a : Forall (fun c => need_bs_quote c = false) a -> sq_chars a = a.
Proof. induction 1 as [|c a Hc Ha IH]; [done|]. change (sq_chars (c :: a)) with (sqc c ++ sq_chars a). unfold sqc. by rewrite Hc, IH. Qed.

Lemma len_sq_chars s : len (sq_chars s) <= 4 * len s.
Proof. apply len_flat_map. intros c _. unfold sqc. by destruct (need_bs_quote c). Qed.

Lemma need_in c : bool_decide (c ∈ [39; 33]) = need_bs_quote c.
Proof.
  unfold need_bs_quote. destruct (Z.eqb_spec c 39) as [->|]; [done|]. destruct (Z.eqb_spec c 33) as [->|]; [done|].
  apply bool_decide_eq_false_2. rewrite !elem_of_cons, elem_of_nil. intuition.
Qed.

Section SqQuote.
Context `{Memory} (junk : Z) (mem : list Z).

Lemma bs_run b : Forall (fun c => need_bs_quote c = true) b -> forall fuel dst s src d rest, sb_ok dst s -> 0 <= src ->
  drop (Z.to_nat src) mem = b ++ d :: rest -> need_bs_quote d = false -> is_bytes b -> (length b < fuel)%nat -> len s + 4 * len b < BIG ->
  wp oom (loop fuel (bs_step junk mem) (dst, src)) (fun '(dst', src') => sb_ok dst' (s ++ sq_chars b) /\ src' = src + len b).
Proof.
  induction 1 as [|c b Hc Hb IH]; intros fuel dst s src d rest Hs Hi Hd Hn Hbs Hf HB; (destruct fuel as [|fuel]; [simpl in Hf; lia|]);
    apply wp_loop_S; unfold bs_step at 1; rewrite (rd_drop_cons _ _ _ _ Hi Hd); cbn [mbind res_bind].
  - rewrite Hn. simpl. rewrite app_nil_r. split; [done|]. change (len []) with 0. lia.
  - rewrite Hc, len_cons in *. pose proof (len_nonneg b). apply Forall_cons in Hbs as [Hcb Hbs]. apply wp_bind.
    eapply wp_mono; [apply strbuf_add_spec; [done|change (len [39; 92]) with 2; lia]|]. intros d1 H1. cbn beta in H1. apply wp_bind.
    eapply wp_mono; [apply strbuf_addch_spec; [done|rewrite len_app; change (len [39; 92]) with 2; lia]|]. intros d2 H2. cbn beta in H2.
    rewrite u8_small in H2 by done. apply wp_bind.
    eapply wp_mono; [apply strbuf_addch_spec; [done|rewrite !len_app; change (len [39; 92]) with 2; change (len [c]) with 1; lia]|].
    intros d3 H3. cbn beta in H3. change (u8 39) with 39 in H3. apply wp_ret.
    replace (((s ++ [39; 92]) ++ [c]) ++ [39]) with (s ++ sqc c) in H3 by (unfold sqc; rewrite Hc, <- !app_assoc; done).
    eapply wp_mono; [apply (IH fuel d3 _ (src + 1) d rest H3); try done; [lia|by eapply drop_cons_tail|simpl in Hf; lia|]|].
    + rewrite len_app. unfold sqc. rewrite Hc. change (len [39; 92; c; 39]) with 4. lia.
    + intros [dst' src'] [Hs' ->]. split; [|lia]. change (sq_chars (c :: b)) with (sqc c ++ sq_chars b). by rewrite app_assoc.
Qed.

Lemma sq_run : forall fuel t dst s src rest, sb_ok dst s -> 0 <= src -> drop (Z.to_nat src) mem = t ++ 0 :: rest ->
  Forall (fun c => c <> 0) t -> is_bytes t -> (length t < fuel)%nat -> len s + 4 * len t < BIG ->
  wp oom (loop fuel (sq_step junk mem) (dst, src)) (fun dst' => sb_ok dst' (s ++ sq_chars t)).
Proof.
  induction fuel as [|fuel IH]; intros t dst s src rest Hs Hi Hd Hnz Hbs Hf HB; [lia|]. apply wp_loop_S. unfold sq_step at 1.
  destruct t as [|c0 t0].
  { rewrite (rd_drop_cons _ _ _ _ Hi Hd). simpl. by rewrite app_nil_r. }
  assert (c0 <> 0) as Hc0 by (by apply Forall_cons in Hnz as [? _]).
  rewrite (rd_drop_cons _ _ _ _ Hi Hd). cbn [mbind res_bind]. rewrite (proj2 (tr_true c0)) by done.
  destruct (span_cases need_bs_quote (c0 :: t0)) as (a & b & E & Ha & Hb).
  destruct (span_cases (fun c => negb (need_bs_quote c)) b) as (b1 & b2 & -> & Hb1 & Hb2).
  assert (1 <= length (a ++ b1))%nat as Hprog.
  { destruct a, b1; simpl; try lia. cbn [app] in *. destruct Hb as [->|(c & b' & -> & Hc)]; [done|].
    destruct Hb2 as [Hb2|(c' & b'' & [= <- <-] & Hc')]; [done|]. cbn beta in Hc'. by rewrite Hc in Hc'. }
  rewrite E in *. clear c0 t0 E Hc0. rewrite !Forall_app in Hnz, Hbs. destruct Hnz as (Hna & Hnb1 & Hnb2), Hbs as (Hba & Hbb1 & Hbb2).
  rewrite !len_app in *. rewrite !length_app in *. pose proof (len_nonneg a). pose proof (len_nonneg b1). pose proof (len_nonneg b2).
  assert (Forall (fun c => need_bs_quote c = true) b1) as Hb1'.
  { eapply Forall_impl; [exact Hb1|]. intros c Hc. cbn beta in Hc. by destruct (need_bs_quote c). }
  rewrite <- !app_assoc in Hd.
  assert (strcspn mem src [39; 33] = Ok (len a)) as ->.
  { assert (exists x r, b1 ++ b2 ++ 0 :: rest = x :: r /\ (tr x && negb (bool_decide (x ∈ [39; 33]))) = false) as (x & r & Ex & Hx).
    { destruct Hb as [Hb|(c & b' & Hb & Hc)].
      - apply app_nil in Hb as [-> ->]. exists 0, rest. done.
      - exists c, (b' ++ 0 :: rest). rewrite need_in, Hc, andb_false_r. by rewrite app_assoc, Hb. }
    rewrite Ex in Hd. eapply scan_ok; [done|exact Hd| |done].
    rewrite Forall_forall in *. intros c Hc. rewrite need_in, (Ha c Hc). cbn [negb]. rewrite andb_true_r. apply tr_true. by apply Hna. }
  cbn [mbind res_bind]. assert (exists d r, b2 ++ 0 :: rest = d :: r /\ need_bs_quote d = false) as (d & r & Er & Hd0).
  { destruct Hb2 as [->|(c & b' & -> & Hc)]; [by exists 0, rest|]. exists c, (b' ++ 0 :: rest). split; [done|]. cbn beta in Hc. by destruct (need_bs_quote c). }
  assert (exists y r2, b1 ++ d :: r = y :: r2) as (y & r2 & Ey) by (destruct b1; eexists _, _; reflexivity).
  pose proof Hd as Hda. rewrite Er, Ey in Hda. rewrite (rd_slice_at _ _ _ _ _ Hi Hda). cbn [mbind res_bind]. apply wp_bind.
  eapply wp_mono; [apply strbuf_add_spec; [done|lia]|]. intros d1 K1. cbn beta in K1. apply wp_bind.
  eapply wp_mono; [apply (bs_run b1 Hb1' (S (length mem)) d1 _ (src + len a) d r K1); try done; [lia| | |rewrite len_app; lia]|].
  { eapply drop_app_tail; [done|]. by rewrite Hd, Er. }
  { apply (f_equal length) in Hd. rewrite length_drop, !length_app in Hd. simpl in Hd. lia. }
  intros [d2 src2] [K2 ->]. apply wp_ret. eapply wp_mono.
  { apply (IH b2 d2 _ (src + len a + len b1) rest K2); try done; [lia| |lia|].
    - rewrite <- Z.add_assoc, <- len_app. eapply drop_app_tail; [done|]. by rewrite Hd, <- app_assoc.
    - rewrite !len_app. pose proof (len_sq_chars b1). lia. }
  intros d3 K3. cbn beta in K3. by rewrite !sq_chars_app, (sq_chars_plain a Ha), !app_assoc.
Qed.

Lemma sq_quote_mem_spec dst s src t : sb_ok dst s -> cstr mem src t -> is_bytes t -> len s + 4 * len t + 2 < BIG ->
  wp oom (sq_quote_buf junk dst (SrcMem mem src)) (fun dst' => sb_ok dst' (s ++ sq t)).
Proof.
  intros Hs (Hi & Hnz & rest & Hd) Hb HB. pose proof (len_nonneg t). unfold sq_quote_buf. cbn [mbind res_bind]. apply wp_bind.
  eapply wp_mono; [apply strbuf_addch_spec; [done|lia]|]. intros d1 H1. change (u8 39) with 39 in H1. apply wp_bind.
  eapply wp_mono; [apply (sq_run _ t d1 _ src rest H1 Hi Hd Hnz Hb); [|rewrite len_app; change (len [39]) with 1; lia]|].
  { apply (f_equal length) in Hd. rewrite length_drop, length_app in Hd. simpl in Hd. lia. }
  intros d2 H2. cbn beta in H2. eapply wp_mono; [apply strbuf_addch_spec; [done|]|].
  { rewrite !len_app. change (len [39]) with 1. pose proof (len_sq_chars t). lia. }
  intros d3 H3. cbn beta in H3. change (u8 39) with 39 in H3. unfold sq. rewrite <- !app_assoc in H3. done.
Qed.
End SqQuote.

(** The source can be the buffer itself: its string is replaced. *)
Lemma sq_quote_dst_spec `{Memory} junk dst t : sb_ok dst t -> Forall (fun c => c <> 0) t -> is_bytes t -> 4 * len t + 2 < BIG ->
  wp oom (sq_quote_buf junk dst SrcDst) (fun dst' => sb_ok dst' (sq t)).
Proof.
  intros Hs Hnz Hb HB. pose proof (len_nonneg t). unfold sq_quote_buf. apply wp_bind, wp_bind.
  eapply wp_mono; [apply strbuf_detach_spec; [done|lia]|]. intros [[block n] d] ((rest & ->) & _ & ->). apply wp_ret.
  apply (sq_quote_mem_spec junk (t ++ 0 :: rest) STRBUF_INIT [] 0 t sb_ok_init); [|done|change (len []) with 0; lia].
  split_and!; [done|done|by exists rest].
Qed.

(** ** Dequoting in place *)

(** What [sq_dequote_step] returns before the character [t0] that follows the
    quoted string: at the end of the text, or before a separator. *)
Definition stop_result (t0 : Z) (at_ : Z) : dequoted := if t0 =? 0 then DArg None else DArg (Some at_).

Lemma rd_at {A} (l : list A) a x r i : l = a ++ x :: r -> i = len a -> rd l i = Ok x.
Proof. intros -> ->. by apply rd_mid. Qed.

Lemma wr_at {A} (l : list A) a x r i y : l = a ++ x :: r -> i = len a -> wr l i y = Ok (a ++ y :: r).
Proof. intros -> ->. by apply wr_mid. Qed.

Section Turn.
Context (wn : bool) (L R : list Z) (dst : Z).

Lemma turn_plain c : c <> 0 -> c <> 39 -> dequote_turn wn (L ++ c :: R, dst, len L - 1) =
  (m ← wr (L ++ c :: R) dst c; Ok (inl (m, dst + 1, len L))).
Proof.
  intros H0 H39. unfold dequote_turn. replace (len L - 1 + 1) with (len L) by lia. rewrite (rd_mid L c R (len L)) by done. cbn [mbind res_bind].
  rewrite (proj2 (tr_true c)) by done. cbn [negb]. by rewrite (proj2 (Z.eqb_neq c 39)).
Qed.

Lemma turn_bs c : need_bs_quote c = true -> dequote_turn wn (L ++ 39 :: 92 :: c :: 39 :: R, dst, len L - 1) =
  (m ← wr (L ++ 39 :: 92 :: c :: 39 :: R) dst c; Ok (inl (m, dst + 1, len L + 3))).
Proof.
  intros Hn. unfold dequote_turn. replace (len L - 1 + 1) with (len L) by lia. rewrite (rd_mid L 39 _ (len L)) by done. cbn [mbind res_bind tr Z.eqb Pos.eqb negb].
  rewrite (rd_at _ (L ++ [39]) 92 (c :: 39 :: R) (len L + 1)) by (rewrite ?len_app, <- ?app_assoc; done). cbn [mbind res_bind tr Z.eqb Pos.eqb negb].
  rewrite (rd_at _ (L ++ [39; 92]) c (39 :: R) (len L + 1 + 1)) by (rewrite ?len_app, <- ?app_assoc; done || (change (len [39; 92]) with 2; lia)).
  cbn [mbind res_bind]. rewrite Hn.
  rewrite (rd_at _ (L ++ [39; 92; c]) 39 R (len L + 1 + 2)) by (rewrite ?len_app, <- ?app_assoc; done || (change (len [39; 92; c]) with 3; lia)).
  cbn [mbind res_bind Z.eqb Pos.eqb]. by replace (len L + 1 + 2) with (len L + 3) by lia.
Qed.

Lemma turn_end t0 : (t0 = 0 \/ (wn = true /\ t0 <> 92)) -> dequote_turn wn (L ++ 39 :: t0 :: R, dst, len L - 1) =
  (m ← wr (L ++ 39 :: t0 :: R) dst 0; Ok (inr (m, stop_result t0 (len L + 1)))).
Proof.
  intros Ht. unfold dequote_turn. replace (len L - 1 + 1) with (len L) by lia. rewrite (rd_mid L 39 _ (len L)) by done. cbn [mbind res_bind tr Z.eqb Pos.eqb negb].
  rewrite (rd_at _ (L ++ [39]) t0 R (len L + 1)) by (rewrite ?len_app, <- ?app_assoc; done). cbn [mbind res_bind].
  unfold stop_result. destruct Ht as [->|[-> Hn]]; [done|]. destruct (Z.eqb_spec t0 0) as [->|H0]; [done|].
  rewrite (proj2 (tr_true t0)) by done. cbn [negb]. by rewrite (proj2 (Z.eqb_neq t0 92)).
Qed.
End Turn.

(** [a] was written, [g :: G] are characters that were read. *)
Lemma dequote_run wn P t0 T b : (t0 = 0 \/ (wn = true /\ t0 <> 92)) -> Forall (fun c => c <> 0) b ->
  forall fuel a g G, (length b < fuel)%nat ->
  exists G', loop fuel (dequote_turn wn)
      ((P ++ a ++ g :: G) ++ sq_chars b ++ 39 :: t0 :: T, len P + len a, len (P ++ a ++ g :: G) - 1) =
    Ok (P ++ (a ++ b) ++ 0 :: G' ++ t0 :: T, stop_result t0 (len (P ++ a ++ g :: G) + len (sq_chars b) + 1)) /\
    len b + len G' = len G + len (sq_chars b) + 1.
Proof.
  intros Ht Hb. induction Hb as [|c b Hc Hb IH]; intros fuel a g G Hf; (destruct fuel as [|fuel]; [simpl in Hf; lia|]); rewrite loop_S.
  - change (sq_chars []) with (@nil Z). cbn [app]. rewrite turn_end by done.
    rewrite (wr_at _ (P ++ a) g (G ++ 39 :: t0 :: T)) by (rewrite ?len_app, <- ?app_assoc; done). cbn [mbind res_bind].
    exists (G ++ [39]). change (len (@nil Z)) with 0. split; [by rewrite app_nil_r, <- !app_assoc, Z.add_0_r|].
    rewrite len_app. change (len [39]) with 1. lia.
  - change (sq_chars (c :: b)) with (sqc c ++ sq_chars b) in *.
    assert (exists q, (q = 1 \/ q = 4) /\ len (sqc c) = q /\ forall m, m = (P ++ a ++ g :: G) ++ (sqc c ++ sq_chars b) ++ 39 :: t0 :: T ->
      dequote_turn wn (m, len P + len a, len (P ++ a ++ g :: G) - 1) =
      (m ← wr m (len P + len a) c; Ok (inl (m, len P + len a + 1, len (P ++ a ++ g :: G) + q - 1)))) as (q & Hq & Lq & Hstep).
    { unfold sqc. destruct (need_bs_quote c) eqn:En.
      - exists 4. split_and!; [by right|done|]. intros m ->. cbn [app]. rewrite turn_bs by done.
        by replace (len (P ++ a ++ g :: G) + 4 - 1) with (len (P ++ a ++ g :: G) + 3) by lia.
      - exists 1. split_and!; [by left|done|]. intros m ->. cbn [app]. rewrite turn_plain; [|done|].
        + by replace (len (P ++ a ++ g :: G) + 1 - 1) with (len (P ++ a ++ g :: G)) by lia.
        + intros ->. done. }
    rewrite (Hstep _ eq_refl). clear Hstep.
    rewrite (wr_at _ (P ++ a) g (G ++ (sqc c ++ sq_chars b) ++ 39 :: t0 :: T)) by (rewrite ?len_app, <- ?app_assoc; done). cbn [mbind res_bind].
    assert (exists g' G1, G ++ sqc c = g' :: G1) as (g' & G1 & EG).
    { destruct G; [|eexists _, _; reflexivity]. unfold sqc. destruct (need_bs_quote c); eexists _, _; reflexivity. }
    apply (f_equal len) in EG as LG. rewrite len_app, len_cons in LG.
    destruct (IH fuel (a ++ [c]) g' G1) as (G' & E & Hl); [simpl in Hf; lia|].
    assert ((P ++ a) ++ c :: G ++ (sqc c ++ sq_chars b) ++ 39 :: t0 :: T = (P ++ (a ++ [c]) ++ g' :: G1) ++ sq_chars b ++ 39 :: t0 :: T) as EM
      by (rewrite <- EG, <- !app_assoc; done).
    assert (len (P ++ a ++ g :: G) + q = len (P ++ (a ++ [c]) ++ g' :: G1)) as EL
      by (rewrite !len_app, !len_cons; change (len []) with 0; lia).
    rewrite EM, EL. replace (len P + len a + 1) with (len P + len (a ++ [c])) by (rewrite len_app; change (len [c]) with 1; lia).
    rewrite E. exists G'. rewrite <- (app_assoc a). cbn [app]. rewrite !len_app, !len_cons in *.
    split; [|lia]. do 2 f_equal. f_equal. lia.
Qed.

Lemma sq_dequote_step_spec wn P s t0 T : (t0 = 0 \/ (wn = true /\ t0 <> 92)) -> Forall (fun c => c <> 0) s ->
  exists G, sq_dequote_step (P ++ sq s ++ t0 :: T) (len P) wn =
    Ok (P ++ s ++ 0 :: G ++ t0 :: T, stop_result t0 (len P + len (sq s))) /\ len s + 1 + len G = len (sq s).
Proof.
  intros Ht Hs. unfold sq_dequote_step, sq. rewrite (rd_at _ P 39 ((sq_chars s ++ [39]) ++ t0 :: T) (len P)) by done.
  cbn [mbind res_bind Z.eqb Pos.eqb negb].
  assert (Z.of_nat (length s) < Z.of_nat (S (length (P ++ (39 :: sq_chars s ++ [39]) ++ t0 :: T)))) as Hf.
  { assert (len s <= len (sq_chars s)).
    { clear. induction s as [|c s IH]; [done|]. change (sq_chars (c :: s)) with (sqc c ++ sq_chars s). rewrite len_app, len_cons.
      unfold sqc. destruct (need_bs_quote c); rewrite ?len_cons; change (len (@nil Z)) with 0; lia. }
    rewrite !length_app. simpl. rewrite length_app. llia. }
  destruct (dequote_run wn P t0 T s Ht Hs _ [] 39 [] (proj2 (Nat2Z.inj_lt _ _) Hf)) as (G & E & Hl). cbn [app] in *. change (len (@nil Z)) with 0 in *.
  exists G. rewrite <- !app_assoc in *. cbn [app] in *. rewrite len_app in E. change (len [39]) with 1 in E.
  replace (len P + 0) with (len P) in E by lia. replace (len P + 1 - 1) with (len P) in E by lia. rewrite E.
  rewrite len_cons, len_app. change (len [39]) with 1. split; [|lia]. do 2 f_equal. f_equal. lia.
Qed.

(** The quoted strings with spaces between them. *)
Fixpoint sq_text (s : list Z) (ss : list (list Z)) : list Z :=
  match ss with [] => sq s | s' :: ss => sq s ++ 32 :: sq_text s' ss end.

Lemma cstr_mid P s X : Forall (fun c => c <> 0) s -> cstr (P ++ s ++ 0 :: X) (len P) s.
Proof.
  intros Hs. split_and!; [apply len_nonneg|done|]. exists X. unfold len. by rewrite Nat2Z.id, drop_app_length.
Qed.

Lemma dequote_argv_run : forall ss s P T argv array fuel,
  Forall (fun c => c <> 0) s -> Forall (Forall (fun c => c <> 0)) ss -> (length ss < fuel)%nat ->
  exists Q ptrs, loop fuel dequote_argv_step (P ++ sq_text s ss ++ 0 :: T, len P, argv, array) =
      Ok (P ++ Q, argv ++ ptrs, array ++ s :: ss, 0) /\
    Forall2 (fun p s => cstr (P ++ Q) p s) ptrs (s :: ss).
Proof.
  induction ss as [|s' ss IH]; intros s P T argv array fuel Hs Hss Hf; (destruct fuel as [|fuel]; [lia|]); rewrite loop_S;
    unfold dequote_argv_step at 1; cbn [sq_text].
  - destruct (sq_dequote_step_spec true P s 0 T (or_introl eq_refl) Hs) as (G & -> & _). cbn [mbind res_bind stop_result Z.eqb].
    pose proof (cstr_mid P s (G ++ 0 :: T) Hs) as Hc. rewrite (strlen_ok _ _ _ Hc). cbn [mbind res_bind].
    rewrite (rd_slice_mid P s (0 :: G ++ 0 :: T)) by done. cbn [mbind res_bind].
    exists (s ++ 0 :: G ++ 0 :: T), [len P]. split; [done|]. by constructor.
  - apply Forall_cons in Hss as [Hs' Hss]. rewrite <- app_assoc. cbn [app].
    destruct (sq_dequote_step_spec true P s 32 (sq_text s' ss ++ 0 :: T)) as (G & -> & Hl); [by right|done|]. cbn [mbind res_bind].
    change (stop_result 32 ?x) with (DArg (Some x)). cbn iota.
    set (P' := P ++ s ++ 0 :: G ++ [32]).
    assert (P ++ s ++ 0 :: G ++ 32 :: sq_text s' ss ++ 0 :: T = P' ++ sq_text s' ss ++ 0 :: T) as EP.
    { unfold P'. rewrite <- app_assoc. f_equal. rewrite <- app_assoc. f_equal. cbn [app]. by rewrite <- app_assoc. }
    assert (len P' = len P + len (sq s) + 1) as LP.
    { unfold P'. rewrite !len_app, len_cons, len_app. change (len [32]) with 1. lia. }
    rewrite (rd_at _ (P ++ s ++ 0 :: G) 32 (sq_text s' ss ++ 0 :: T) (len P + len (sq s))).
    2:{ rewrite <- !app_assoc. done. }
    2:{ rewrite !len_app, len_cons. lia. }
    cbn [mbind res_bind]. change (isspace 32) with true. cbn [negb].
    rewrite loop_S. unfold skip_space_step at 1.
    assert (exists X, sq_text s' ss ++ 0 :: T = 39 :: X) as (X & EX) by (destruct ss; eexists; reflexivity).
    rewrite EP. rewrite (rd_at _ P' 39 X (len P + len (sq s) + 1)); [|by rewrite EX|lia]. cbn [mbind res_bind]. change (isspace 39) with false. cbn iota.
    cbn [mbind res_bind]. rewrite <- EP.
    pose proof (cstr_mid P s (G ++ 32 :: sq_text s' ss ++ 0 :: T) Hs) as Hc. rewrite (strlen_ok _ _ _ Hc). cbn [mbind res_bind].
    rewrite (rd_slice_mid P s) by done. cbn [mbind res_bind]. rewrite EP, <- LP.
    destruct (IH s' P' T (argv ++ [len P]) (array ++ [s]) fuel Hs' Hss) as (Q & ptrs & -> & HF); [simpl in Hf; lia|].
    exists (s ++ 0 :: (G ++ [32]) ++ Q), (len P :: ptrs).
    assert (P' ++ Q = P ++ s ++ 0 :: (G ++ [32]) ++ Q) as EQ by (unfold P'; rewrite <- app_assoc; f_equal; by rewrite <- app_assoc).
    rewrite <- EQ, <- !app_assoc. cbn [app]. split; [done|]. constructor; [|done]. rewrite EQ. by apply cstr_mid.
Qed.

(** A bound of the size of the quoted text. *)
Definition argv_size (ss : list (list Z)) : Z := foldr (fun t n => 4 * len t + 3 + n) 0 ss.

Lemma argv_size_nonneg ss : 0 <= argv_size ss.
Proof. induction ss as [|t ss IH]; [done|]. cbn. pose proof (len_nonneg t). unfold argv_size in *. lia. Qed.

Lemma sq_argv_run `{Memory} junk : forall argv ss dst s fuel, sb_ok dst s ->
  Forall2 (fun '(mem, a) t => cstr mem a t /\ is_bytes t) argv ss -> (length argv < fuel)%nat ->
  len s + argv_size ss < BIG ->
  wp oom (loop fuel (sq_argv_step junk) (dst, argv)) (fun dst' => sb_ok dst' (s ++ mjoin ((fun t => 32 :: sq t) <$> ss))).
Proof.
  intros argv ss dst s fuel Hs HF. revert dst s fuel Hs.
  induction HF as [|[mem a] t argv ss [Ht Hb] HF IH]; intros dst s fuel Hs Hf HB; (destruct fuel as [|fuel]; [lia|]); apply wp_loop_S.
  - simpl. by rewrite app_nil_r.
  - change (argv_size (t :: ss)) with (4 * len t + 3 + argv_size ss) in HB. pose proof (argv_size_nonneg ss).
    pose proof (len_nonneg t). unfold sq_argv_step at 1. apply wp_bind.
    eapply wp_mono; [apply strbuf_addch_spec; [done|lia]|]. intros d1 K1. change (u8 32) with 32 in K1. apply wp_bind.
    eapply wp_mono; [apply (sq_quote_mem_spec junk mem d1 _ a t K1 Ht Hb); rewrite len_app; change (len [32]) with 1; lia|].
    intros d2 K2. cbn beta in K2. apply wp_ret. eapply wp_mono; [apply (IH d2 _ fuel K2); [simpl in Hf; lia|]|].
    + rewrite !len_app. change (len [32]) with 1. unfold sq. rewrite len_cons, len_app. change (len [39]) with 1.
      pose proof (len_sq_chars t). lia.
    + intros d3 K3. cbn beta in K3. rewrite <- !app_assoc in K3. done.
Qed.

Lemma sq_text_join s ss : mjoin ((fun t => 32 :: sq t) <$> s :: ss) = 32 :: sq_text s ss.
Proof.
  revert s. induction ss as [|s' ss IH]; intros s; [simpl; by rewrite app_nil_r|].
  change (mjoin ((fun t => 32 :: sq t) <$> s :: s' :: ss)) with (32 :: sq s ++ mjoin ((fun t => 32 :: sq t) <$> s' :: ss)). by rewrite IH.
Qed.

(** Shell quoting.  Quoting any non-empty vector of strings and dequoting the
    text behind the leading space succeeds and gives the strings back: the
    copies are the strings, and the pointers into the block, which is
    overwritten in place, still point to the strings at the end. *)
Theorem sq_argv_roundtrip `{Memory} junk argv s ss :
  Forall2 (fun '(mem, a) t => cstr mem a t /\ is_bytes t) argv (s :: ss) ->
  argv_size (s :: ss) < 2 ^ 40 ->
  wp oom (dst ← sq_quote_argv junk STRBUF_INIT argv;
          sq_dequote_to_argv_internal (mem_of (sb_buf dst)) 1 [] [])
    (fun '(mem, ptrs, array, r) => r = 0 /\ array = s :: ss /\ Forall2 (fun p t => cstr mem p t) ptrs (s :: ss)).
Proof.
  intros HF HB. assert (2 ^ 41 < BIG) as HBIG by done. apply wp_bind. unfold sq_quote_argv. apply wp_bind.
  eapply wp_mono; [apply (strbuf_grow_spec junk STRBUF_INIT [] 255 sb_ok_init); [lia|done]|].
  intros d1 (tl & Hh & _). eapply wp_mono; [apply (sq_argv_run junk argv (s :: ss) d1 []); [by eapply sb_heap_ok|done|lia|change (len []) with 0; lia]|].
  intros dst Hs. cbn beta in Hs. cbn [app] in Hs. rewrite sq_text_join in Hs. destruct (sb_ok_data _ _ Hs) as (rest & ->).
  assert (Forall (Forall (fun c => c <> 0)) (s :: ss)) as Hnz.
  { clear -HF. induction HF as [|[mem a] t argv l [(_ & Ht & _) _] HF IH]; [constructor|]. by constructor. }
  apply Forall_cons in Hnz as [Hn1 Hn2]. unfold sq_dequote_to_argv_internal.
  assert (exists X, sq_text s ss ++ 0 :: rest = 39 :: X) as (X & EX) by (destruct ss; eexists; reflexivity).
  rewrite (rd_at _ [32] 39 X 1); [|by rewrite <- EX|done]. cbn [mbind res_bind tr Z.eqb negb].
  change ((32 :: sq_text s ss) ++ 0 :: rest) with ([32] ++ sq_text s ss ++ 0 :: rest). change 1 with (len [32]).
  destruct (dequote_argv_run ss s [32] rest [] [] (S (length ([32] ++ sq_text s ss ++ 0 :: rest))) Hn1 Hn2) as (Q & ptrs & -> & HP); [|done].
  rewrite length_app. assert (length ss <= length (sq_text s ss))%nat; [|rewrite length_app; simpl; lia].
  clear. revert s. induction ss as [|s' ss IH]; intros s; [simpl; lia|]. cbn [sq_text length]. rewrite length_app. specialize (IH s'). simpl. lia.
Qed.

Lemma sq_argv_roundtrip_witness :
  let argv := [([97; 39; 0], 0); ([0], 0)] in
  wp (@oom plenty) (dst ← @sq_quote_argv plenty 0 STRBUF_INIT argv;
          sq_dequote_to_argv_internal (mem_of (sb_buf dst)) 1 [] [])
    (fun '(mem, ptrs, array, r) => r = 0 /\ array = [[97; 39]; []] /\ Forall2 (fun p t => cstr mem p t) ptrs [[97; 39]; []]).
Proof.
  apply (@sq_argv_roundtrip plenty 0); [|reflexivity]. constructor; [|constructor; [|constructor]]; (split; [split_and!|]).
  - done.
  - by repeat constructor.
  - by exists [].
  - repeat constructor; unfold is_byte; lia.
  - done.
  - constructor.
  - by exists [].
  - constructor.
Defined.
