(* ===== verification/QuoteC.v ===== *)
(** * C-style quoting: [quote_c_style] and [unquote_c_style] of [quote.c]

    Path names with control characters, quotes, backslashes or, unless
    [core.quotePath] is off, bytes above 127 are printed between double quotes
    with escapes.  [quote_path_fully] is the global variable of that name.  A
    sink is what the macros [EMIT] and [EMITBUF] write to: a string buffer, a
    stream and the count. *)

From stdpp Require Import prelude numbers list.
From S2P Require Import Prelude PatchDelta Alloc CString Strbuf.

Definition CQUOTE_NODQ : Z := 1.

Definition X8 (x : Z) : list Z := [x; x; x; x; x; x; x; x].
Definition X16 (x : Z) : list Z := X8 x ++ X8 x.

Definition cq_lookup : list Z :=
  [1; 1; 1; 1; 1; 1; 1; 97;
   98; 116; 110; 118; 102; 114; 1; 1] ++
  X16 1 ++
  [-1; -1; 34; -1; -1; -1; -1; -1] ++
  X16 (-1) ++ X16 (-1) ++ X16 (-1) ++
  [-1; -1; -1; -1; 92; -1; -1; -1] ++
  X16 (-1) ++ X8 (-1) ++
  [-1; -1; -1; -1; -1; -1; -1; 1] ++ replicate 128 0.

Section Code.
Context `{Memory} (junk : Z) (quote_path_fully : Z).

Definition cq_must_quote (c : Z) : bool := 0 <? (cq_lookup !!! Z.to_nat c) + quote_path_fully.

Definition next_quote_step (mem : list Z) (s maxlen n : Z) : res (Z + Z) :=
  if maxlen <? 0 then
    c ← rd mem (s + n); if negb (cq_must_quote c) then Ok (inl (n + 1)) else Ok (inr n)
  else if n <? maxlen then
    c ← rd mem (s + n); if negb (cq_must_quote c) then Ok (inl (n + 1)) else Ok (inr n)
  else Ok (inr n).

Definition next_quote_pos (mem : list Z) (s maxlen : Z) : res Z :=
  loop (S (length mem)) (next_quote_step mem s maxlen) 0.

Record sink := mkSink { sk_sb : option strbuf; sk_fp : option (list Z); sk_count : Z }.

Definition EMITBUF (k : sink) (data : list Z) : res sink :=
  sb ← (match sk_sb k with Some sb => sb ← strbuf_add junk sb data; Ok (Some sb) | None => Ok None end);
  Ok (mkSink sb (option_map (fun f => f ++ data) (sk_fp k)) (u64 (sk_count k + len data))).

Definition EMIT (k : sink) (c : Z) : res sink :=
  sb ← (match sk_sb k with Some sb => sb ← strbuf_addch junk sb c; Ok (Some sb) | None => Ok None end);
  Ok (mkSink sb (option_map (fun f => f ++ [u8 c]) (sk_fp k)) (u64 (sk_count k + 1))).

(** The loop variables: the sink, [p] and [maxlen]. *)
Definition cquote_step (no_dq : bool) (mem : list Z) (name : Z) (st : sink * Z * Z) :
    res (sink * Z * Z + sink * Z * Z) :=
  let '(k, p, maxlen) := st in
  n ← next_quote_pos mem p maxlen;
  stop ← (if n =? u64 maxlen then Ok true
          else if maxlen <? 0 then c ← rd mem (p + n); Ok (negb (tr c)) else Ok false);
  if stop : bool then Ok (inr (k, p, n))
  else
    k ← (if negb no_dq && (p =? name) then EMIT k 34 else Ok k);
    data ← rd_slice mem p n;
    k ← EMITBUF k data;
    k ← EMIT k 92;
    let p := p + n in
    ch ← rd mem p;
    let p := p + 1 in
    let maxlen := if 0 <=? maxlen then maxlen - (n + 1) else maxlen in
    let e := cq_lookup !!! Z.to_nat ch in
    k ← (if 32 <=? e then EMIT k e
         else
           k ← EMIT k (((ch >>. 6) &. 3) + 48);
           k ← EMIT k (((ch >>. 3) &. 7) + 48);
           EMIT k (((ch >>. 0) &. 7) + 48));
    Ok (inl (k, p, maxlen)).

(** The result is the return value and what was emitted. *)
Definition quote_c_style_counted (mem : list Z) (name maxlen : Z) (sb : option strbuf) (fp : option (list Z)) (flags : Z) :
    res (Z * sink) :=
  let no_dq := tr (flags &. CQUOTE_NODQ) in
  '(k, p, n) ← loop (S (length mem)) (cquote_step no_dq mem name) (mkSink sb fp 0, name, maxlen);
  data ← rd_slice mem p n;
  k ← EMITBUF k data;
  if p =? name then Ok (0, k)
  else
    k ← (if negb no_dq then EMIT k 34 else Ok k);
    Ok (sk_count k, k).

Definition quote_c_style (mem : list Z) (name : Z) (sb : option strbuf) (fp : option (list Z)) (flags : Z) : res (Z * sink) :=
  quote_c_style_counted mem name (-1) sb fp flags.

(** The buffer of a sink that was given one. *)
Definition quote_to_sb (sb : strbuf) (mem : list Z) (name flags : Z) : res strbuf :=
  '(_, k) ← quote_c_style mem name (Some sb) None flags; Ok (default sb (sk_sb k)).

Definition quote_two_c_style (sb : strbuf) (pmem : list Z) (prefix : Z) (mem : list Z) (path flags : Z) : res strbuf :=
  let nodq := tr (flags &. CQUOTE_NODQ) in
  '(r1, _) ← quote_c_style pmem prefix None None 0;
  r ← (if tr r1 then Ok true else '(r2, _) ← quote_c_style mem path None None 0; Ok (tr r2));
  if r : bool then
    sb ← (if negb nodq then strbuf_addch junk sb 34 else Ok sb);
    sb ← quote_to_sb sb pmem prefix CQUOTE_NODQ;
    sb ← quote_to_sb sb mem path CQUOTE_NODQ;
    if negb nodq then strbuf_addch junk sb 34 else Ok sb
  else
    sb ← strbuf_addstr junk sb pmem prefix; strbuf_addstr junk sb mem path.

(** [fputs] of the string and [fputc]. *)
Definition write_name_quoted (mem : list Z) (name : Z) (fp : list Z) (terminator : Z) : res (list Z) :=
  fp ← (if tr terminator then
          '(_, k) ← quote_c_style mem name None (Some fp) 0; Ok (default fp (sk_fp k))
        else n ← strlen mem name; data ← rd_slice mem name n; Ok (fp ++ data));
  Ok (fp ++ [u8 terminator]).

(** ** Unquoting *)

(** The escapes of one letter, with the backslash and the quote. *)
Definition simple_escape (ch : Z) : option Z :=
  if ch =? 97 then Some 7 else if ch =? 98 then Some 8 else if ch =? 102 then Some 12 else if ch =? 110 then Some 10
  else if ch =? 114 then Some 13 else if ch =? 116 then Some 9 else if ch =? 118 then Some 11
  else if (ch =? 92) || (ch =? 34) then Some ch else None.

Definition octal (ch : Z) : bool := (48 <=? ch) && (ch <=? 55).

(** The closing quote or an escape.  The result is [inr None] at [goto error],
    [inr (Some endp)] at the end. *)
Definition unquote_char (mem : list Z) (sb : strbuf) (q : Z) : res (strbuf * Z + strbuf * option Z) :=
  c ← rd mem q;
  let q := q + 1 in
  if c =? 34 then Ok (inr (sb, Some q))
  else if negb (c =? 92) then Ok (inr (sb, None))
  else
    ch ← rd mem q;
    let q := q + 1 in
    match simple_escape ch with
    | Some v => sb ← strbuf_addch junk sb v; Ok (inl (sb, q))
    | None =>
        if (48 <=? ch) && (ch <=? 51) then
          let ac := (ch - 48) <<. 6 in
          d ← rd mem q;
          if negb (octal d) then Ok (inr (sb, None))
          else
            let ac := ac |. ((d - 48) <<. 3) in
            e ← rd mem (q + 1);
            if negb (octal e) then Ok (inr (sb, None))
            else
              let ac := ac |. (e - 48) in
              sb ← strbuf_addch junk sb ac; Ok (inl (sb, q + 2))
        else Ok (inr (sb, None))
    end.

Definition unquote_step (mem : list Z) (st : strbuf * Z) : res (strbuf * Z + strbuf * option Z) :=
  let '(sb, q) := st in
  n ← strcspn mem q [34; 92];
  data ← rd_slice mem q n;
  sb ← strbuf_add junk sb data;
  unquote_char mem sb (q + n).

(** The return value, the buffer and [*endp]. *)
Definition unquote_c_style (sb : strbuf) (mem : list Z) (quoted : Z) : res (Z * strbuf * option Z) :=
  let oldlen := sb_len sb in
  c ← rd mem quoted;
  if negb (c =? 34) then Ok (-1, sb, None)
  else
    '(sb, r) ← loop (S (length mem)) (unquote_step mem) (sb, quoted + 1);
    match r with
    | Some endp => Ok (0, sb, Some endp)
    | None => sb ← strbuf_setlen sb oldlen; Ok (-1, sb, None)
    end.
End Code.

(** ** What quoting writes *)

Section Spec.
Context (qpf : Z).

Definition octals (c : Z) : list Z := [((c >>. 6) &. 3) + 48; ((c >>. 3) &. 7) + 48; (c &. 7) + 48].

(** The text for one character. *)
Definition cqc (c : Z) : list Z :=
  if cq_must_quote qpf c then
    92 :: (if 32 <=? cq_lookup !!! Z.to_nat c then [cq_lookup !!! Z.to_nat c] else octals c)
  else [c].

Definition cq_chars (s : list Z) : list Z := mjoin (cqc <$> s).

Definition cq_needed (s : list Z) : bool := existsb (cq_must_quote qpf) s.

Definition cquoted (no_dq : bool) (s : list Z) : list Z :=
  let dq := if no_dq then [] else [34] in
  if cq_needed s then dq ++ cq_chars s ++ dq else s.

Lemma cq_chars_app a b : cq_chars (a ++ b) = cq_chars a ++ cq_chars b.
Proof. unfold cq_chars. by rewrite fmap_app, join_app. Qed.

Lemma cq_chars_plain a : Forall (fun c => cq_must_quote qpf c = false) a -> cq_chars a = a.
Proof. induction 1 as [|c a Hc Ha IH]; [done|]. change (cq_chars (c :: a)) with (cqc c ++ cq_chars a). unfold cqc. by rewrite Hc, IH. Qed.

Lemma len_cqc c : len (cqc c) <= 4.
Proof. unfold cqc, octals. destruct (cq_must_quote qpf c); [|done]. by destruct (32 <=? _). Qed.

Lemma len_cq_chars s : len (cq_chars s) <= 4 * len s.
Proof. apply len_flat_map. intros. apply len_cqc. Qed.

Lemma needed_plain a : Forall (fun c => cq_must_quote qpf c = false) a -> cq_needed a = false.
Proof. induction 1 as [|c a Hc Ha IH]; [done|]. simpl. by rewrite Hc. Qed.
End Spec.

(** The name is a NUL-terminated string, or is given with its length. *)
Definition name_at (mem : list Z) (p maxlen : Z) (r : list Z) : Prop :=
  0 <= p /\ p + len r <= len mem /\
  ((maxlen = -1 /\ Forall (fun c => c <> 0) r /\ exists rest, drop (Z.to_nat p) mem = r ++ 0 :: rest) \/
   (maxlen = len r /\ exists rest, drop (Z.to_nat p) mem = r ++ rest)).

Definition sink_ok (k : sink) (bs bf : option (list Z)) (d : list Z) : Prop :=
  match sk_sb k, bs with Some sb, Some s => sb_ok sb (s ++ d) | None, None => True | _, _ => False end /\
  sk_fp k = option_map (fun f => f ++ d) bf /\ sk_count k = len d.

Definition base_len (bs : option (list Z)) : Z := match bs with Some s => len s | None => 0 end.

Section QuoteSpec.
Context `{Memory} (junk qpf : Z) (Hqpf : 0 <= qpf <= 1).

Lemma EMITBUF_spec k bs bf d data : sink_ok k bs bf d -> base_len bs + len d + len data < BIG ->
  wp oom (EMITBUF junk k data) (fun k' => sink_ok k' bs bf (d ++ data)).
Proof.
  intros (Hsb & Hfp & Hc) HB. unfold EMITBUF. pose proof (len_nonneg d). pose proof (len_nonneg data).
  assert (0 <= base_len bs) by (destruct bs; [apply len_nonneg|done]). unfold BIG in *.
  assert (u64 (sk_count k + len data) = len (d ++ data)) as -> by (rewrite Hc, len_app; apply u64_small; lia).
  assert (option_map (fun f => f ++ data) (sk_fp k) = option_map (fun f => f ++ d ++ data) bf) as ->
    by (rewrite Hfp; destruct bf; simpl; by rewrite <- ?app_assoc).
  destruct (sk_sb k) as [sb|], bs as [s|]; try done. cbn [base_len] in HB. do 2 apply wp_bind.
  eapply wp_mono; [apply strbuf_add_spec; [exact Hsb|rewrite len_app; unfold BIG; lia]|].
  intros sb' Hs'. cbn beta in Hs'. do 2 apply wp_ret. split_and!; simpl; [by rewrite app_assoc|done|done].
Qed.

Lemma EMIT_spec k bs bf d c : sink_ok k bs bf d -> is_byte c -> base_len bs + len d + 1 < BIG ->
  wp oom (EMIT junk k c) (fun k' => sink_ok k' bs bf (d ++ [c])).
Proof.
  intros (Hsb & Hfp & Hc) Hb HB. unfold EMIT. pose proof (len_nonneg d). rewrite u8_small by done.
  assert (0 <= base_len bs) by (destruct bs; [apply len_nonneg|done]). unfold BIG in *.
  assert (u64 (sk_count k + 1) = len (d ++ [c])) as -> by (rewrite Hc, len_app; change (len [c]) with 1; apply u64_small; lia).
  assert (option_map (fun f => f ++ [c]) (sk_fp k) = option_map (fun f => f ++ d ++ [c]) bf) as ->
    by (rewrite Hfp; destruct bf; simpl; by rewrite <- ?app_assoc).
  destruct (sk_sb k) as [sb|], bs as [s|]; try done. cbn [base_len] in HB. do 2 apply wp_bind.
  eapply wp_mono; [apply strbuf_addch_spec; [exact Hsb|rewrite len_app; unfold BIG; lia]|].
  intros sb' Hs'. cbn beta in Hs'. rewrite u8_small in Hs' by done. do 2 apply wp_ret. split_and!; simpl; [by rewrite app_assoc|done|done].
Qed.

Lemma must_nul : cq_must_quote qpf 0 = true.
Proof using Hqpf. unfold cq_must_quote. apply Z.ltb_lt. change (cq_lookup !!! Z.to_nat 0) with 1. lia. Qed.

Lemma next_quote_pos_spec mem p maxlen a b : name_at mem p maxlen (a ++ b) -> Forall (fun c => cq_must_quote qpf c = false) a ->
  (b = [] \/ exists c b', b = c :: b' /\ cq_must_quote qpf c = true) ->
  next_quote_pos qpf mem p maxlen = Ok (len a).
Proof using Hqpf.
  intros (Hp & Hle & Hat) Ha Hb. unfold next_quote_pos.
  assert (forall a1 a2 fuel, a = a1 ++ a2 -> (length a2 < fuel)%nat -> loop fuel (next_quote_step qpf mem p maxlen) (len a1) = Ok (len a)) as Hrun.
  { intros a1 a2. revert a1. induction a2 as [|c a2 IH]; intros a1 fuel -> Hf; (destruct fuel as [|fuel]; [lia|]); rewrite loop_S; unfold next_quote_step at 1.
    - rewrite app_nil_r in *. destruct Hat as [(-> & _ & rest & Hd)|(-> & rest & Hd)]; cbn [Z.ltb Z.compare].
      + assert (exists x r, b ++ 0 :: rest = x :: r /\ cq_must_quote qpf x = true) as (x & r & Ex & Hx).
        { destruct Hb as [->|(c & b' & -> & Hc)]; [exists 0, rest; split; [done|apply must_nul]|by exists c, (b' ++ 0 :: rest)]. }
        rewrite <- app_assoc, Ex in Hd. rewrite (rd_drop_cons _ _ x r); [|pose proof (len_nonneg a1); lia|by eapply drop_app_tail].
        cbn [mbind res_bind]. by rewrite Hx.
      + destruct (Z.ltb_spec (len (a1 ++ b)) 0); [llia|]. rewrite len_app. destruct Hb as [->|(c & b' & -> & Hc)].
        * change (len []) with 0. destruct (Z.ltb_spec (len a1) (len a1 + 0)); [lia|done].
        * rewrite len_cons. pose proof (len_nonneg b'). destruct (Z.ltb_spec (len a1) (len a1 + (1 + len b'))); [|lia].
          rewrite <- app_assoc in Hd. rewrite (rd_drop_cons _ _ c (b' ++ rest)); [|pose proof (len_nonneg a1); lia|by eapply drop_app_tail].
          cbn [mbind res_bind]. by rewrite Hc.
    - assert (rd mem (p + len a1) = Ok c) as Hr.
      { assert (exists X, drop (Z.to_nat p) mem = a1 ++ c :: X) as (X & Hd).
        { destruct Hat as [(_ & _ & rest & Hd)|(_ & rest & Hd)]; rewrite Hd, <- !app_assoc; eexists; reflexivity. }
        eapply rd_drop_cons; [pose proof (len_nonneg a1); lia|]. by eapply drop_app_tail. }
      assert (cq_must_quote qpf c = false) as Hc by (apply Forall_app in Ha as [_ Ha]; by apply Forall_cons in Ha as [? _]).
      assert (len a1 + 1 = len (a1 ++ [c])) as El by (by rewrite len_app).
      specialize (IH (a1 ++ [c]) fuel ltac:(by rewrite <- app_assoc) ltac:(simpl in Hf; lia)). rewrite <- El in IH.
      rewrite Hr. cbn [mbind res_bind]. rewrite Hc. cbn [negb].
      destruct (Z.ltb_spec maxlen 0); [exact IH|]. destruct (Z.ltb_spec (len a1) maxlen) as [|Hge]; [exact IH|].
      destruct Hat as [(-> & _)|(-> & _)]; [lia|]. rewrite !len_app, len_cons in Hge. pose proof (len_nonneg a2). pose proof (len_nonneg b). lia. }
  apply (Hrun [] a); [done|]. rewrite len_app in Hle. pose proof (len_nonneg b). llia.
Qed.
Lemma octals_bytes c : is_byte c -> is_bytes (octals c).
Proof.
  intros Hc. assert (forallb (fun x => (0 <=? x) && (x <? 256)) (octals c) = true) as Hf.
  { revert c Hc. by apply byte_forall. }
  apply Forall_forall. intros x Hx. rewrite forallb_forall in Hf. specialize (Hf x ltac:(by apply list_elem_of_In)).
  unfold is_byte. lia.
Qed.

Lemma lookup_byte c : is_byte c -> 32 <= cq_lookup !!! Z.to_nat c -> is_byte (cq_lookup !!! Z.to_nat c).
Proof.
  intros Hc H32. assert ((cq_lookup !!! Z.to_nat c <? 256) = true) as Hf by (revert c Hc H32; intros c Hc _; revert c Hc; by apply byte_forall).
  unfold is_byte. lia.
Qed.

(** The stop test of the loop. *)
Lemma stop_test mem p maxlen a b : name_at mem p maxlen (a ++ b) -> len (a ++ b) < 2 ^ 40 ->
  (if len a =? u64 maxlen then Ok true
   else if maxlen <? 0 then c ← rd mem (p + len a); Ok (negb (tr c)) else Ok false) =
  Ok (match b with [] => true | _ => false end).
Proof.
  intros (Hp & Hle & Hat) HB. rewrite len_app in *. pose proof (len_nonneg a). pose proof (len_nonneg b).
  destruct Hat as [(-> & Hnz & rest & Hd)|(-> & rest & Hd)].
  - change (u64 (-1)) with (2 ^ 64 - 1). destruct (Z.eqb_spec (len a) (2 ^ 64 - 1)); [lia|]. cbn [Z.ltb Z.compare].
    rewrite <- app_assoc in Hd. destruct b as [|c b].
    + rewrite (rd_drop_cons _ _ 0 rest) by first [lia|by eapply drop_app_tail]. done.
    + rewrite (rd_drop_cons _ _ c (b ++ 0 :: rest)) by first [lia|by eapply drop_app_tail]. cbn [mbind res_bind].
      apply Forall_app in Hnz as [_ Hnz]. apply Forall_cons in Hnz as [Hc _]. by rewrite (proj2 (tr_true c)).
  - rewrite u64_small by lia. destruct b as [|c b].
    + change (len []) with 0. by rewrite Z.add_0_r, Z.eqb_refl.
    + rewrite len_cons in *. pose proof (len_nonneg b). destruct (Z.eqb_spec (len a) (len a + (1 + len b))); [lia|].
      destruct (Z.ltb_spec (len a + (1 + len b)) 0); [lia|done].
Qed.

Lemma name_next mem p maxlen a c b : name_at mem p maxlen (a ++ c :: b) ->
  name_at mem (p + len a + 1) (if 0 <=? maxlen then maxlen - (len a + 1) else maxlen) b /\ rd mem (p + len a) = Ok c /\
  rd_slice mem p (len a) = Ok a.
Proof.
  intros (Hp & Hle & Hat). rewrite len_app, len_cons in Hle. pose proof (len_nonneg a). pose proof (len_nonneg b).
  assert (exists X, drop (Z.to_nat p) mem = a ++ c :: X) as (X & HX).
  { destruct Hat as [(_ & _ & rest & Hd)|(_ & rest & Hd)]; rewrite Hd, <- app_assoc; eexists; reflexivity. }
  split_and!; [|eapply rd_drop_cons; [lia|by eapply drop_app_tail]|by eapply rd_slice_at].
  split_and!; [lia|lia|].
  assert (forall Y, drop (Z.to_nat p) mem = (a ++ c :: b) ++ Y -> drop (Z.to_nat (p + len a + 1)) mem = b ++ Y) as Hdrop.
  { intros Y Hd. rewrite <- app_assoc in Hd. eapply drop_cons_tail; [lia|]. by eapply drop_app_tail. }
  destruct Hat as [(-> & Hnz & rest & Hd)|(-> & rest & Hd)].
  - left. apply Forall_app in Hnz as [_ Hnz]. apply Forall_cons in Hnz as [_ Hnz]. split_and!; [done|done|]. exists rest. by apply Hdrop.
  - right. rewrite len_app, len_cons. destruct (Z.leb_spec 0 (len a + (1 + len b))); [|lia]. split; [lia|]. exists rest. by apply Hdrop.
Qed.

Context (no_dq : bool) (mem : list Z) (name : Z) (bs bf : option (list Z)).

Definition open_dq (p : Z) : list Z := if negb no_dq && (p =? name) then [34] else [].

Lemma emit_dq k d p : sink_ok k bs bf d -> base_len bs + len d + 1 < BIG ->
  wp oom (if negb no_dq && (p =? name) then EMIT junk k 34 else Ok k) (fun k' => sink_ok k' bs bf (d ++ open_dq p)).
Proof.
  intros Hk HB. unfold open_dq. destruct (negb no_dq && (p =? name)); [|simpl; by rewrite app_nil_r]. by apply EMIT_spec.
Qed.

Lemma emit_escape k d c : sink_ok k bs bf (d ++ [92]) -> is_byte c -> cq_must_quote qpf c = true -> base_len bs + len d + 4 < BIG ->
  wp oom (if 32 <=? cq_lookup !!! Z.to_nat c then EMIT junk k (cq_lookup !!! Z.to_nat c)
          else k ← EMIT junk k (((c >>. 6) &. 3) + 48);
               k ← EMIT junk k (((c >>. 3) &. 7) + 48);
               EMIT junk k (((c >>. 0) &. 7) + 48))
    (fun k' => sink_ok k' bs bf (d ++ cqc qpf c)).
Proof.
  intros Hk Hc Hm HB. unfold cqc. rewrite Hm. destruct (Z.leb_spec 32 (cq_lookup !!! Z.to_nat c)) as [He|He].
  - eapply wp_mono; [apply EMIT_spec; [done|by apply lookup_byte|rewrite !len_app; change (len [92]) with 1; lia]|].
    intros k4 K4. cbn beta in K4. by rewrite <- !app_assoc in K4.
  - pose proof (octals_bytes c Hc) as Ho. unfold octals in *. rewrite !Forall_cons in Ho. destruct Ho as (Ho1 & Ho2 & Ho3 & _).
    change (c >>. 0) with c. apply wp_bind.
    eapply wp_mono; [apply EMIT_spec; [done|done|rewrite !len_app; change (len [92]) with 1; lia]|]. intros k4 K4. cbn beta in K4. apply wp_bind.
    eapply wp_mono; [apply EMIT_spec; [done|done|rewrite !len_app; change (len [92]) with 1; change (len [_]) with 1; lia]|]. intros k5 K5. cbn beta in K5.
    eapply wp_mono; [apply EMIT_spec; [done|done|rewrite !len_app; change (len [92]) with 1; change (len [_]) with 1; lia]|]. intros k6 K6. cbn beta in K6.
    by rewrite <- !app_assoc in K6.
Qed.

(** The loop stops in front of the plain rest [r2]. *)
Lemma cquote_run : forall fuel r k d p maxlen, sink_ok k bs bf d -> name_at mem p maxlen r -> is_bytes r -> name <= p ->
  (length r < fuel)%nat -> len r < 2 ^ 40 -> base_len bs + len d + len (open_dq p) + 4 * len r + 8 < BIG ->
  wp oom (loop fuel (cquote_step junk qpf no_dq mem name) (k, p, maxlen)) (fun '(k', p', n') =>
    exists r1 r2, r = r1 ++ r2 /\ Forall (fun c => cq_must_quote qpf c = false) r2 /\ (r1 = [] \/ cq_needed qpf r1 = true) /\
      p' = p + len r1 /\ n' = len r2 /\ (exists m, name_at mem p' m r2) /\
      sink_ok k' bs bf (d ++ (if r1 is [] then [] else open_dq p) ++ cq_chars qpf r1)).
Proof using Hqpf.
  induction fuel as [|fuel IH]; intros r k d p maxlen Hk Hat Hb Hnm Hf HB HBB; [lia|]. apply wp_loop_S. unfold cquote_step at 1.
  destruct (span_cases (cq_must_quote qpf) r) as (a & b & -> & Ha & Hbb).
  rewrite (next_quote_pos_spec _ _ _ a b) by done. cbn [mbind res_bind]. rewrite (stop_test mem p maxlen a b) by done. cbn [mbind res_bind].
  destruct Hbb as [->|(c & b' & -> & Hc)].
  { apply wp_ret. rewrite app_nil_r in *. exists [], a. split_and!; [done|done|by left|change (len []) with 0; lia|done| |].
    - exists maxlen. done.
    - simpl. by rewrite app_nil_r. }
  destruct (name_next _ _ _ _ _ _ Hat) as (Hat' & Hr & Hsl). rewrite !Forall_app, Forall_cons in Hb. destruct Hb as (Hba & Hbc & Hbb).
  rewrite !len_app, !len_cons in *. pose proof (len_nonneg a) as La. pose proof (len_nonneg b') as Lb. pose proof (len_nonneg d) as Ld.
  pose proof (len_nonneg (open_dq p)) as Lq. assert (len (open_dq p) <= 1) as Hdq by (unfold open_dq; by destruct (negb no_dq && (p =? name))).
  apply wp_bind. eapply wp_mono; [apply emit_dq; [done|lia]|]. intros k1 K1. cbn beta in K1. rewrite Hsl. cbn [mbind res_bind].
  apply wp_bind. eapply wp_mono; [apply EMITBUF_spec; [done|rewrite len_app; lia]|]. intros k2 K2. cbn beta in K2.
  apply wp_bind. eapply wp_mono; [apply EMIT_spec; [done|done|rewrite !len_app; lia]|]. intros k3 K3. cbn beta in K3.
  rewrite Hr. cbn [mbind res_bind]. apply wp_bind.
  eapply wp_mono; [apply (emit_escape k3 ((d ++ open_dq p) ++ a) c); [done|done|done|rewrite !len_app; lia]|]. intros k4 K4. cbn beta in K4.
  apply wp_ret. pose proof (len_cqc qpf c) as Lc.
  assert (open_dq (p + len a + 1) = []) as Hodq.
  { unfold open_dq. destruct (Z.eqb_spec (p + len a + 1) name); [lia|]. by rewrite andb_false_r. }
  eapply wp_mono; [apply (IH b' k4 _ (p + len a + 1) _ K4 Hat' Hbb); [lia| |lia|rewrite Hodq, !len_app; change (len []) with 0; lia]|].
  { rewrite length_app in Hf. simpl in Hf. lia. }
  intros [[k5 p5] n5] (r1 & r2 & -> & Hr2 & Hr1 & -> & -> & Hm & K5). exists (a ++ c :: r1), r2.
  split_and!; [by rewrite <- app_assoc|done| |rewrite len_app, len_cons; lia|done|done|].
  - right. unfold cq_needed. rewrite existsb_app. simpl. rewrite Hc. by rewrite orb_true_r.
  - assert ((match r1 with [] => [] | _ => open_dq (p + len a + 1) end) = []) as E.
    { rewrite Hodq. by destruct r1. }
    rewrite E in K5. assert ((match a ++ c :: r1 with [] => [] | _ => open_dq p end) = open_dq p) as -> by (by destruct a).
    rewrite cq_chars_app, (cq_chars_plain qpf a Ha). change (cq_chars qpf (c :: r1)) with (cqc qpf c ++ cq_chars qpf r1).
    by rewrite <- !app_assoc in K5.
Qed.
End QuoteSpec.

(** The buffer and the stream that the caller passes, with their contents. *)
Definition sink_in (sb : option strbuf) (fp bs bf : option (list Z)) : Prop :=
  match sb, bs with Some sb, Some s => sb_ok sb s | None, None => True | _, _ => False end /\ fp = bf.

Lemma name_slice mem p m r : name_at mem p m r -> rd_slice mem p (len r) = Ok r.
Proof.
  intros (Hp & Hle & Hat). rewrite rd_slice_ok; [|done|apply len_nonneg|done].
  f_equal. unfold slice. destruct Hat as [(_ & _ & rest & ->)|(_ & rest & ->)]; apply take_app_length'; llia.
Qed.

Lemma quote_counted_spec `{Memory} junk qpf mem name maxlen s sb fp bs bf flags :
  0 <= qpf <= 1 -> name_at mem name maxlen s -> is_bytes s -> len s < 2 ^ 40 -> sink_in sb fp bs bf -> base_len bs < 2 ^ 45 ->
  let out := cquoted qpf (tr (flags &. CQUOTE_NODQ)) s in
  wp oom (quote_c_style_counted junk qpf mem name maxlen sb fp flags)
    (fun '(r, k) => sink_ok k bs bf out /\ r = if cq_needed qpf s then len out else 0).
Proof.
  intros Hq Hat Hb HB [Hsb ->] HBs out. assert (2 ^ 45 + 2 ^ 43 < BIG) as HBIG by done. unfold quote_c_style_counted.
  set (no_dq := tr (flags &. CQUOTE_NODQ)) in *. pose proof (len_nonneg s) as Ls.
  assert (0 <= base_len bs) as Lbs by (destruct bs; [apply len_nonneg|done]).
  assert (forall p, len (open_dq no_dq name p) <= 1) as Hdq by (intros p; unfold open_dq; by destruct (negb no_dq && (p =? name))).
  assert (sink_ok (mkSink sb bf 0) bs bf []) as Hk.
  { split_and!; simpl; [destruct sb, bs; try done; by rewrite app_nil_r|destruct bf; simpl; by rewrite ?app_nil_r|done]. }
  apply wp_bind. eapply wp_mono; [apply (cquote_run junk qpf Hq no_dq mem name bs bf _ s _ [] name maxlen Hk Hat Hb)|].
  - lia.
  - destruct Hat as (Hp & Hle & _). llia.
  - done.
  - change (len []) with 0. pose proof (Hdq name). lia.
  - intros [[k1 p1] n1] (r1 & r2 & -> & Hr2 & Hr1 & -> & -> & (m & Hm) & K1). rewrite (name_slice _ _ _ _ Hm). cbn [mbind res_bind].
    rewrite len_app in *. pose proof (len_nonneg r1). pose proof (len_nonneg r2). pose proof (len_cq_chars qpf r1).
    pose proof (Hdq name) as Hdqn. apply wp_bind. cbn [app] in K1.
    assert (len (match r1 with [] => [] | _ :: _ => open_dq no_dq name name end) <= 1) as Hl1 by (by destruct r1).
    eapply wp_mono; [apply EMITBUF_spec; [exact K1|rewrite len_app; lia]|]. intros k2 K2. cbn beta in K2.
    unfold cquoted in out. assert (cq_needed qpf (r1 ++ r2) = cq_needed qpf r1) as En.
    { unfold cq_needed. rewrite existsb_app. fold (cq_needed qpf r2). by rewrite (needed_plain qpf r2 Hr2), orb_false_r. }
    unfold out in *. clear out. rewrite En in *. destruct Hr1 as [->|Hr1].
    + change (len []) with 0. rewrite Z.add_0_r, Z.eqb_refl. apply wp_ret. simpl in K2. by simpl.
    + destruct r1 as [|c r1]; [done|]. rewrite Hr1. rewrite len_cons in *. pose proof (len_nonneg r1). destruct (Z.eqb_spec (name + (1 + len r1)) name); [lia|].
      assert (open_dq no_dq name name = if no_dq then [] else [34]) as Ed by (unfold open_dq; rewrite Z.eqb_refl; by destruct no_dq).
      rewrite Ed in *. rewrite cq_chars_app, (cq_chars_plain qpf r2 Hr2). rewrite <- !app_assoc in *.
      destruct no_dq; cbn [negb].
      * simpl mbind. apply wp_ret. rewrite app_nil_r. split; [done|]. by destruct K2 as (_ & _ & ->).
      * apply wp_bind. eapply wp_mono; [apply EMIT_spec; [exact K2|done|rewrite !len_app; change (len [34]) with 1; lia]|].
        intros k3 K3. cbn beta in K3. rewrite <- !app_assoc in K3. apply wp_ret. split; [done|]. by destruct K3 as (_ & _ & ->).
Qed.

(** ** What unquoting reads *)

Definition unq_push (c : Z) (r : option (list Z * list Z)) : option (list Z * list Z) :=
  '(s, t) ← r; Some (c :: s, t).

(** The decoded string and the text behind the closing quote. *)
Fixpoint unq (l : list Z) : option (list Z * list Z) :=
  match l with
  | [] => None
  | c :: l =>
      if c =? 34 then Some ([], l)
      else if c =? 92 then
        match l with
        | [] => None
        | ch :: l1 =>
            match simple_escape ch with
            | Some v => unq_push v (unq l1)
            | None =>
                if (48 <=? ch) && (ch <=? 51) then
                  match l1 with
                  | d :: (e :: l3) =>
                      if octal d && octal e
                      then unq_push (((ch - 48) <<. 6) |. ((d - 48) <<. 3) |. (e - 48)) (unq l3)
                      else None
                  | _ => None
                  end
                else None
            end
        end
      else unq_push c (unq l)
  end.

Lemma unq_plain a l : Forall (fun c => c <> 34 /\ c <> 92) a ->
  unq (a ++ l) = ('(s, t) ← unq l; Some (a ++ s, t)).
Proof.
  induction 1 as [|c a [H34 H92] Ha IH]; [cbn [app]; by destruct (unq l) as [[]|]|].
  change ((c :: a) ++ l) with (c :: (a ++ l)). cbn [unq]. rewrite (proj2 (Z.eqb_neq c 34)), (proj2 (Z.eqb_neq c 92)) by done.
  rewrite IH. by destruct (unq l) as [[]|].
Qed.

Lemma simple_escape_byte ch v : simple_escape ch = Some v -> is_byte v.
Proof.
  unfold simple_escape. repeat match goal with |- context [?a =? ?b] => destruct (Z.eqb_spec a b) end; simpl; intros [= <-]; unfold is_byte; lia.
Qed.

Lemma octal_byte a b c : 48 <= a <= 51 -> octal b = true -> octal c = true ->
  is_byte (((a - 48) <<. 6) |. ((b - 48) <<. 3) |. (c - 48)).
Proof.
  unfold octal. intros Ha Hb Hc. assert (48 <= b <= 55 /\ 48 <= c <= 55) by lia. unfold is_byte.
  change 256 with (2 ^ 8). rewrite !Z.shiftl_mul_pow2 by done.
  repeat apply lor_range; lia.
Qed.

Section UnquoteSpec.
Context `{Memory} (junk : Z) (mem : list Z).

(** The outcome of the loop on the text [l]. *)
Definition unq_post (s l : list Z) (q : Z) (x : strbuf * option Z) : Prop :=
  let '(sb', r) := x in
  match unq l with
  | Some (t, l') => sb_ok sb' (s ++ t) /\ r = Some (q + len l - len l')
  | None => r = None /\ exists t, sb_ok sb' (s ++ t)
  end.

(** Consuming [a], which stands for [t], in front of the rest [l']. *)
Lemma unq_post_step s (a t l l' : list Z) q x :
  unq l = ('(u, r) ← unq l'; Some (t ++ u, r)) -> len l = len a + len l' -> unq_post (s ++ t) l' (q + len a) x -> unq_post s l q x.
Proof.
  intros E Hl. destruct x as [sb r]. unfold unq_post. rewrite E. destruct (unq l') as [[u l2]|]; cbn [mbind option_bind].
  - intros [Hs ->]. split; [by rewrite app_assoc|]. f_equal. lia.
  - intros [-> [u Hs]]. split; [done|]. exists (t ++ u). by rewrite app_assoc.
Qed.

(** What the rest of the loop does on shorter texts. *)
Definition run_ok (fuel : nat) : Prop := forall l sb s q rest, sb_ok sb s -> 0 <= q -> drop (Z.to_nat q) mem = l ++ 0 :: rest ->
  Forall (fun c => c <> 0) l -> is_bytes l -> (length l < fuel)%nat -> len s + len l < BIG ->
  wp oom (loop fuel (unquote_step junk mem) (sb, q)) (unq_post s l q).

(** One character [v] for the text [a], then the rest of the loop. *)
Lemma unquote_one fuel sb s a v b q rest : run_ok fuel -> sb_ok sb s -> 0 <= q -> drop (Z.to_nat q) mem = a ++ b ++ 0 :: rest ->
  Forall (fun c => c <> 0) b -> is_bytes b -> (length b < fuel)%nat -> len s + 1 + len b < BIG -> is_byte v ->
  unq (a ++ b) = unq_push v (unq b) ->
  wp oom (sb ← strbuf_addch junk sb v; Ok (inl (sb, q + len a)))
    (fun x => match x with
     | inl st => wp oom (loop fuel (unquote_step junk mem) st) (unq_post s (a ++ b) q)
     | inr r => unq_post s (a ++ b) q r end).
Proof.
  intros IH Hs Hq Hd Hnz Hb Hf HB Hv E. apply wp_bind. pose proof (len_nonneg b). eapply wp_mono; [apply strbuf_addch_spec; [done|lia]|].
  intros sb1 K1. rewrite u8_small in K1 by done. apply wp_ret. pose proof (len_nonneg a).
  eapply wp_mono; [apply (IH b sb1 (s ++ [v]) (q + len a) rest); try done; [lia|by eapply drop_app_tail|rewrite len_app; change (len [v]) with 1; lia]|].
  intros y Hy. eapply (unq_post_step s a [v]); [exact E|by rewrite len_app|exact Hy].
Qed.

Lemma unquote_char_spec fuel b sb s q rest : run_ok fuel -> sb_ok sb s -> 0 <= q -> drop (Z.to_nat q) mem = b ++ 0 :: rest ->
  Forall (fun c => c <> 0) b -> is_bytes b -> (length b < S fuel)%nat -> len s + len b < BIG ->
  (b = [] \/ exists c b', b = c :: b' /\ (c = 34 \/ c = 92)) ->
  wp oom (unquote_char junk mem sb q)
    (fun x => match x with
     | inl st => wp oom (loop fuel (unquote_step junk mem) st) (unq_post s b q)
     | inr r => unq_post s b q r end).
Proof.
  intros IH Hs Hq Hd Hnz Hb Hf HB Hcase.
  assert (forall l, unq l = None -> unq_post s l q (sb, None)) as Herr.
  { intros l E. unfold unq_post. rewrite E. split; [done|]. exists []. by rewrite app_nil_r. }
  unfold unquote_char. destruct Hcase as [->|(c & b' & -> & Hc)].
  { rewrite (rd_drop_cons _ _ _ _ Hq Hd). simpl. by apply (Herr []). }
  rewrite (rd_drop_cons _ _ _ _ Hq Hd). cbn [mbind res_bind]. destruct Hc as [->| ->]; cbn [Z.eqb Pos.eqb negb].
  { apply wp_ret. unfold unq_post. cbn [unq Z.eqb Pos.eqb]. rewrite app_nil_r, len_cons. split; [done|]. f_equal. lia. }
  pose proof (drop_cons_tail _ _ _ _ Hq Hd) as Hd1. apply Forall_cons in Hnz as [_ Hnz]. apply Forall_cons in Hb as [_ Hb].
  assert (0 <= q + 1) as Hq1 by lia. destruct b' as [|ch b'].
  { rewrite (rd_drop_cons _ _ _ _ Hq1 Hd1). simpl. by apply (Herr [92]). }
  apply Forall_cons in Hnz as [Hch Hnz]. apply Forall_cons in Hb as [Hchb Hb]. rewrite !len_cons in HB. pose proof (len_nonneg b').
  rewrite (rd_drop_cons _ _ _ _ Hq1 Hd1). cbn [mbind res_bind].
  destruct (simple_escape ch) as [v|] eqn:Ev.
  { apply simple_escape_byte in Ev as Hv. replace (q + 1 + 1) with (q + len [92; ch]) by (change (len [92; ch]) with 2; lia).
    apply (unquote_one fuel sb s [92; ch] v b' q rest); try done; [simpl in Hf; lia|lia|]. cbn. by rewrite Ev. }
  destruct ((48 <=? ch) && (ch <=? 51)) eqn:Eo.
  2:{ apply wp_ret, Herr. cbn. by rewrite Ev, Eo. }
  pose proof (drop_cons_tail _ _ _ _ Hq1 Hd1) as Hd2. assert (0 <= q + 1 + 1) as Hq2 by lia.
  destruct b' as [|d b'].
  { rewrite (rd_drop_cons _ _ _ _ Hq2 Hd2). cbn [mbind res_bind]. change (octal 0) with false. cbn [negb]. apply wp_ret, Herr. cbn. by rewrite Ev, Eo. }
  rewrite (rd_drop_cons _ _ _ _ Hq2 Hd2). cbn [mbind res_bind].
  pose proof (drop_cons_tail _ _ _ _ Hq2 Hd2) as Hd3. assert (0 <= q + 1 + 1 + 1) as Hq3 by lia.
  destruct (octal d) eqn:Ed; cbn [negb].
  2:{ apply wp_ret, Herr. cbn. rewrite Ev, Eo, Ed. by destruct b'. }
  destruct b' as [|e b'].
  { rewrite (rd_drop_cons _ _ _ _ Hq3 Hd3). cbn [mbind res_bind]. change (octal 0) with false. cbn [negb]. apply wp_ret, Herr. cbn. by rewrite Ev, Eo. }
  rewrite (rd_drop_cons _ _ _ _ Hq3 Hd3). cbn [mbind res_bind]. destruct (octal e) eqn:Ee; cbn [negb].
  2:{ apply wp_ret, Herr. cbn. by rewrite Ev, Eo, Ed, Ee. }
  replace (q + 1 + 1 + 2) with (q + len [92; ch; d; e]) by (change (len [92; ch; d; e]) with 4; lia).
  rewrite !Forall_cons in Hnz, Hb. rewrite !len_cons in HB. pose proof (len_nonneg b').
  apply (unquote_one fuel sb s [92; ch; d; e] _ b' q rest); try done; try tauto; [simpl in Hf; lia|lia|apply octal_byte; [lia|done..]|].
  cbn. by rewrite Ev, Eo, Ed, Ee.
Qed.

Lemma unquote_run : forall fuel l sb s q rest, sb_ok sb s -> 0 <= q -> drop (Z.to_nat q) mem = l ++ 0 :: rest ->
  Forall (fun c => c <> 0) l -> is_bytes l -> (length l < fuel)%nat -> len s + len l < BIG ->
  wp oom (loop fuel (unquote_step junk mem) (sb, q)) (unq_post s l q).
Proof.
  induction fuel as [|fuel IH]; intros l sb s q rest Hs Hq Hd Hnz Hb Hf HB; [lia|]. apply wp_loop_S. unfold unquote_step at 1.
  destruct (span_cases (fun c => (c =? 34) || (c =? 92)) l) as (a & b & -> & Ha & Hbb).
  rewrite <- app_assoc in Hd. rewrite !Forall_app in Hnz, Hb. destruct Hnz as [Hna Hnb], Hb as [Hba Hb']. rewrite len_app in HB.
  assert (Forall (fun c => c <> 34 /\ c <> 92) a) as Hp.
  { eapply Forall_impl; [exact Ha|]. intros c Hc. cbn beta in Hc. destruct (Z.eqb_spec c 34), (Z.eqb_spec c 92); done. }
  assert (exists x r, b ++ 0 :: rest = x :: r /\ (tr x && negb (bool_decide (x ∈ [34; 92]))) = false) as (x & r & Ex & Hx).
  { destruct Hbb as [->|(c & b' & -> & Hc)]; [by exists 0, rest|]. exists c, (b' ++ 0 :: rest). split; [done|].
    destruct (Z.eqb_spec c 34) as [->|]; [done|]. destruct (Z.eqb_spec c 92) as [->|]; [done|done]. }
  pose proof Hd as Hd0. rewrite Ex in Hd0. assert (strcspn mem q [34; 92] = Ok (len a)) as ->.
  { eapply scan_ok; [done|exact Hd0| |done]. rewrite Forall_forall in *. intros c Hc. specialize (Hp c Hc).
    rewrite (proj2 (tr_true c)) by (by apply Hna). rewrite bool_decide_eq_false_2; [done|]. rewrite !elem_of_cons, elem_of_nil. intuition. }
  cbn [mbind res_bind]. rewrite (rd_slice_at _ _ _ _ _ Hq Hd0). cbn [mbind res_bind]. pose proof (len_nonneg a) as La. pose proof (len_nonneg b) as Lb.
  apply wp_bind. eapply wp_mono; [apply strbuf_add_spec; [done|lia]|]. intros sb1 K1. cbn beta in K1.
  pose proof (drop_app_tail _ _ _ _ Hq Hd) as Hdb. eapply wp_mono.
  { apply (unquote_char_spec fuel b sb1 (s ++ a) (q + len a) rest IH K1); try done; [lia| |rewrite len_app; lia|].
    - rewrite length_app in Hf. lia.
    - destruct Hbb as [->|(c & b' & -> & Hc)]; [by left|right]. exists c, b'. split; [done|].
      destruct (Z.eqb_spec c 34); [by left|]. destruct (Z.eqb_spec c 92); [by right|done]. }
  intros [st|r0] Hr.
  - eapply wp_mono; [exact Hr|]. intros y Hy. eapply unq_post_step; [by apply unq_plain|by rewrite len_app|exact Hy].
  - eapply unq_post_step; [by apply unq_plain|by rewrite len_app|exact Hr].
Qed.
End UnquoteSpec.

(** What [unquote_c_style] makes of the text [l]. *)
Definition unquote_result (l : list Z) : option (list Z * list Z) :=
  match l with c :: l => if c =? 34 then unq l else None | [] => None end.

Lemma unquote_c_style_spec `{Memory} junk mem sb s i l : sb_ok sb s -> cstr mem i l -> is_bytes l -> len s + len l < BIG ->
  wp oom (unquote_c_style junk sb mem i) (fun '(r, sb', endp) =>
    match unquote_result l with
    | Some (t, l') => r = 0 /\ sb_ok sb' (s ++ t) /\ endp = Some (i + len l - len l')
    | None => r = -1 /\ sb_ok sb' s /\ endp = None
    end).
Proof.
  intros Hs (Hi & Hnz & rest & Hd) Hb HB. unfold unquote_c_style. destruct l as [|c l]; rewrite (rd_drop_cons _ _ _ _ Hi Hd); [done|].
  cbn [mbind res_bind unquote_result]. destruct (Z.eqb_spec c 34) as [->|]; [|done]. cbn [negb].
  apply Forall_cons in Hnz as [_ Hnz]. apply Forall_cons in Hb as [_ Hb]. rewrite len_cons in *. apply wp_bind.
  eapply wp_mono; [apply (unquote_run junk mem _ l sb s (i + 1) rest Hs ltac:(lia)); try done; [by eapply drop_cons_tail| |lia]|].
  { apply (f_equal length) in Hd. rewrite length_drop, length_app in Hd. simpl in Hd. lia. }
  intros [sb' r]. unfold unq_post. destruct (unq l) as [[t l']|].
  - intros [Hs' ->]. apply wp_ret. split_and!; [done|done|]. f_equal. lia.
  - intros [-> [t Hs']]. apply wp_bind. rewrite (sb_ok_len _ _ Hs). apply total_wp.
    eapply wp_mono; [apply strbuf_setlen_spec; [exact Hs'|rewrite len_app; pose proof (len_nonneg s); pose proof (len_nonneg t); lia]|].
    intros sb2 Hs2. cbn beta in Hs2. apply wp_ret. split_and!; [done| |done].
    by replace (take (Z.to_nat (len s)) (s ++ t)) with s in Hs2 by (rewrite take_app_length'; [done|llia]).
Qed.

(** C18: [unquote_c_style] on any NUL-terminated text stays inside of it; it
    accepts exactly a double-quoted string with the escapes of C and octal
    numbers of three digits up to 0377, appends the decoded string and returns
    the place behind the closing quote; otherwise it returns -1 and the buffer
    holds what it held before. *)
Theorem unquote_c_style_exact `{Memory} junk mem sb s i l : sb_ok sb s -> cstr mem i l -> is_bytes l -> len s + len l < BIG ->
  wp oom (unquote_c_style junk sb mem i) (fun '(r, sb', endp) =>
    match unquote_result l with
    | Some (t, l') => r = 0 /\ sb_ok sb' (s ++ t) /\ endp = Some (i + len l - len l')
    | None => r = -1 /\ sb_ok sb' s /\ endp = None
    end).
Proof. apply unquote_c_style_spec. Qed.

Lemma unquote_c_style_exact_witness :
  let l := [34; 97; 92; 49; 48; 49; 92; 116; 34; 32] in
  unquote_result l = Some ([97; 65; 9], [32]) /\
  wp (@oom plenty) (@unquote_c_style plenty 0 STRBUF_INIT (l ++ [0]) 0) (fun '(r, sb', endp) =>
    match unquote_result l with
    | Some (t, l') => r = 0 /\ sb_ok sb' ([] ++ t) /\ endp = Some (0 + len l - len l')
    | None => r = -1 /\ sb_ok sb' [] /\ endp = None
    end).
Proof.
  split; [reflexivity|]. apply (@unquote_c_style_exact plenty 0).
  - apply sb_ok_init.
  - split_and!; [done|by repeat constructor|by exists []].
  - repeat constructor; unfold is_byte; lia.
  - reflexivity.
Defined.

(** ** The round trip *)

(** The check of one character. *)
Definition cqc_ok (qpf c : Z) : bool :=
  if cq_must_quote qpf c then
    let e := cq_lookup !!! Z.to_nat c in
    if 32 <=? e then bool_decide (simple_escape e = Some c)
    else match octals c with
         | [a; b; d] => bool_decide (simple_escape a = None) && (48 <=? a) && (a <=? 51) && octal b && octal d &&
             ((((a - 48) <<. 6) |. ((b - 48) <<. 3) |. (d - 48)) =? c)
         | _ => false
         end
  else negb (c =? 34) && negb (c =? 92).

Lemma cqc_ok_all qpf c : 0 <= qpf <= 1 -> is_byte c -> cqc_ok qpf c = true.
Proof.
  intros Hq. assert (qpf = 0 \/ qpf = 1) as [->| ->] by lia; revert c; apply byte_forall; reflexivity.
Qed.

Lemma unq_cqc qpf c l : 0 <= qpf <= 1 -> is_byte c -> unq (cqc qpf c ++ l) = unq_push c (unq l).
Proof.
  intros Hq Hc. pose proof (cqc_ok_all qpf c Hq Hc) as Hok. unfold cqc_ok, cqc in *. destruct (cq_must_quote qpf c).
  - cbn zeta in Hok. set (e := cq_lookup !!! Z.to_nat c) in *. destruct (32 <=? e).
    + apply bool_decide_eq_true in Hok. cbn. by rewrite Hok.
    + unfold octals in *. set (a := ((c >>. 6) &. 3) + 48) in *. set (b := ((c >>. 3) &. 7) + 48) in *. set (d := (c &. 7) + 48) in *.
      rewrite !andb_true_iff, bool_decide_eq_true in Hok. destruct Hok as [[[[[Hs H1] H2] H3] H4] H5].
      cbn [app unq Z.eqb Pos.eqb]. rewrite Hs, H1, H2, H3, H4. cbn [andb]. apply Z.eqb_eq in H5. by rewrite H5.
  - cbn [app unq]. apply andb_true_iff in Hok as [H1 H2]. apply negb_true_iff in H1, H2. by rewrite H1, H2.
Qed.

Lemma unq_cq_chars qpf s t : 0 <= qpf <= 1 -> is_bytes s -> unq (cq_chars qpf s ++ 34 :: t) = Some (s, t).
Proof.
  intros Hq Hs. induction Hs as [|c s Hc Hs IH]; [done|].
  change (cq_chars qpf (c :: s)) with (cqc qpf c ++ cq_chars qpf s). rewrite <- app_assoc, unq_cqc by done. by rewrite IH.
Qed.

Lemma cqc_chars qpf c : is_byte c -> (cq_must_quote qpf c = false -> c <> 0) -> Forall (fun x => is_byte x /\ x <> 0) (cqc qpf c).
Proof.
  intros Hc H0. unfold cqc. destruct (cq_must_quote qpf c); [|by rewrite Forall_singleton; auto].
  apply Forall_cons_2; [unfold is_byte; lia|]. destruct (Z.leb_spec 32 (cq_lookup !!! Z.to_nat c)).
  - rewrite Forall_singleton. split; [by apply lookup_byte|lia].
  - assert (forallb (fun x => (0 <? x) && (x <? 256)) (octals c) = true) as Hf by (revert c Hc H0 H; intros c Hc _ _; revert c Hc; by apply byte_forall).
    apply Forall_forall. intros x Hx. rewrite forallb_forall in Hf. specialize (Hf x ltac:(by apply list_elem_of_In)). unfold is_byte. lia.
Qed.

Lemma cq_chars_ok qpf s : is_bytes s -> Forall (fun c => c <> 0) s -> Forall (fun x => is_byte x /\ x <> 0) (cq_chars qpf s).
Proof.
  intros Hb Hnz. induction s as [|c s IH]; [constructor|]. apply Forall_cons in Hb as [Hc Hb], Hnz as [H0 Hnz].
  change (cq_chars qpf (c :: s)) with (cqc qpf c ++ cq_chars qpf s). apply Forall_app_2; [by apply cqc_chars|by apply IH].
Qed.

(** C17: C-style quoting, of names of fewer than [2 ^ 40] bytes.  A name without special characters is emitted as it is and
    0 is returned; any other name is emitted between double quotes, its length is
    returned, and [unquote_c_style] gives the name back, whatever
    [core.quotePath] says. *)
Theorem cquote_roundtrip `{Memory} junk qpf mem name s : 0 <= qpf <= 1 -> cstr mem name s -> is_bytes s -> len s < 2 ^ 40 ->
  wp oom ('(r, k) ← quote_c_style junk qpf mem name (Some STRBUF_INIT) None 0;
          let sb := default STRBUF_INIT (sk_sb k) in
          '(r', sb2, _) ← unquote_c_style junk STRBUF_INIT (mem_of (sb_buf sb)) 0; Ok (r, sb, r', sb2))
    (fun '(r, sb, r', sb2) =>
      if cq_needed qpf s
      then r = len (34 :: cq_chars qpf s ++ [34]) /\ sb_ok sb (34 :: cq_chars qpf s ++ [34]) /\ r' = 0 /\ sb_ok sb2 s
      else r = 0 /\ sb_ok sb s /\ r' = -1).
Proof.
  intros Hq (Hi & Hnz & rest & Hd) Hb HB. assert (2 ^ 43 < BIG) as HBIG by done. pose proof (len_nonneg s) as Ls.
  assert (name_at mem name (-1) s) as Hat.
  { split_and!; [done| |left; by eauto]. apply (f_equal length) in Hd. rewrite length_drop, length_app in Hd. simpl in Hd. llia. }
  apply wp_bind. eapply wp_mono; [apply (quote_counted_spec junk qpf mem name (-1) s (Some STRBUF_INIT) None (Some []) None 0); try done; split; [apply sb_ok_init|done]|].
  intros [r k] ((Hsb & _ & _) & ->). change (tr (0 &. CQUOTE_NODQ)) with false in *.
  destruct (sk_sb k) as [sb|]; [|done]. change (default STRBUF_INIT (Some sb)) with sb. cbn zeta. cbn [app] in Hsb. unfold cquoted in Hsb |- *.
  pose proof (len_cq_chars qpf s) as Lc. destruct (cq_needed qpf s) eqn:En.
  - cbn [app] in *. pose proof (cq_chars_ok qpf s Hb Hnz) as Hok.
    assert (Forall (fun x => is_byte x /\ x <> 0) (34 :: cq_chars qpf s ++ [34])) as Hok'.
    { apply Forall_cons_2; [unfold is_byte; lia|]. apply Forall_app_2; [done|]. rewrite Forall_singleton. unfold is_byte. lia. }
    rewrite Forall_and in Hok'. destruct Hok' as [Hok1 Hok2]. destruct (sb_ok_data _ _ Hsb) as (r2 & Em).
    apply wp_bind. eapply wp_mono; [apply (unquote_c_style_spec junk _ STRBUF_INIT [] 0 (34 :: cq_chars qpf s ++ [34]) sb_ok_init)|].
    + split_and!; [done|done|]. exists r2. by rewrite Em.
    + done.
    + rewrite len_cons, len_app. change (len [34]) with 1. change (len []) with 0. lia.
    + intros [[r' sb2] endp]. cbn [unquote_result Z.eqb Pos.eqb]. rewrite unq_cq_chars by done. intros (-> & Hs2 & _). by apply wp_ret.
  - destruct (sb_ok_data _ _ Hsb) as (r2 & Em).
    apply wp_bind. eapply wp_mono; [apply (unquote_c_style_spec junk _ STRBUF_INIT [] 0 s sb_ok_init); [|done|change (len []) with 0; lia]|].
    { split_and!; [done|done|]. exists r2. by rewrite Em. }
    intros [[r' sb2] endp]. assert (unquote_result s = None) as ->.
    { destruct s as [|c s']; [done|]. simpl. destruct (Z.eqb_spec c 34) as [->|]; [|done]. simpl in En. apply orb_false_iff in En as [Hm _].
      unfold cq_must_quote in Hm. change (cq_lookup !!! Z.to_nat 34) with 34 in Hm. lia. }
    intros (-> & _). by apply wp_ret.
Qed.

Lemma cquote_roundtrip_witness :
  let s := [97; 9; 200; 34] in
  cq_chars 1 s = [97; 92; 116; 92; 51; 49; 48; 92; 34] /\
  wp (@oom plenty) ('(r, k) ← @quote_c_style plenty 0 1 (s ++ [0]) 0 (Some STRBUF_INIT) None 0;
          let sb := default STRBUF_INIT (sk_sb k) in
          '(r', sb2, _) ← @unquote_c_style plenty 0 STRBUF_INIT (mem_of (sb_buf sb)) 0; Ok (r, sb, r', sb2))
    (fun '(r, sb, r', sb2) =>
      if cq_needed 1 s
      then r = len (34 :: cq_chars 1 s ++ [34]) /\ sb_ok sb (34 :: cq_chars 1 s ++ [34]) /\ r' = 0 /\ sb_ok sb2 s
      else r = 0 /\ sb_ok sb s /\ r' = -1).
Proof.
  split; [reflexivity|]. apply (@cquote_roundtrip plenty 0); [lia| |repeat constructor; unfold is_byte; lia|reflexivity].
  split_and!; [done|by repeat constructor|by exists []].
Defined.
