(* ===== verification/EwahIo.v ===== *)
(** * Reading and writing compressed bitmaps: [ewah_io.c]

    The format of a bitmap in a [.bitmap] file: the number of bits, the number of
    words, the words and the position of the last run-length word, all
    big-endian.  The callback [write_fun] is an operation of a class, with the
    law that it reports the number of bytes it has appended; [write_strbuf] is
    its instance for string buffers.  Words lie in memory in little-endian
    order, so that [htonll] and [ntohll] swap their bytes. *)

From stdpp Require Import prelude numbers list.
From S2P Require Import Prelude PatchDelta Alloc Bswap CString Strbuf EwahRlw Ewah EwahIter.

(** A destination of [ewah_serialize_to]: the data pointer of type [St] and the callback. *)
Class Writer (St : Type) := write_fun : St -> list Z -> res (St * Z).

Definition words_per_dump : Z := 2048.

Section Serialize.
Context {St : Type} `{!Writer St}.

(** The loops that fill the array with the swapped words from [buffer] on. *)
Definition dump_step (buf : list Z) (n : Z) (st : list Z * Z * Z) : res (list Z * Z * Z + list Z * Z) :=
  let '(dump, i, b) := st in
  if i <? n then
    x ← rd buf b; dump ← wr dump i (htonll x); Ok (inl (dump, i + 1, b + 1))
  else Ok (inr (dump, b)).

Definition fill_dump (buf : list Z) (n : Z) (dump : list Z) (b : Z) : res (list Z * Z) :=
  loop (S (Z.to_nat n)) (dump_step buf n) (dump, 0, b).

(** The first [n] bytes of the array. *)
Definition write_dump (data : St) (dump : list Z) (n : Z) : res (St * bool) :=
  bytes ← rd_slice (mjoin (eword_bytes <$> dump)) 0 n;
  '(data, r) ← write_fun data bytes; Ok (data, r =? n).

Definition write32 (data : St) (x : Z) : res (St * bool) :=
  '(data, r) ← write_fun data (le_bytes32 x); Ok (data, r =? 4).

(** The loop of full arrays; [inr false] is [return -1]. *)
Definition chunk_step (buf : list Z) (st : St * list Z * Z * Z) : res (St * list Z * Z * Z + St * list Z * Z * Z * bool) :=
  let '(data, dump, b, words_left) := st in
  if words_per_dump <=? words_left then
    '(dump, b) ← fill_dump buf words_per_dump dump b;
    '(data, ok) ← write_dump data dump (8 * words_per_dump);
    if negb ok then Ok (inr (data, dump, b, words_left, false))
    else Ok (inl (data, dump, b, words_left - words_per_dump))
  else Ok (inr (data, dump, b, words_left, true)).

(** [dump0] is the uninitialised array on the stack. *)
Definition ewah_serialize_to (dump0 : list Z) (self : ewah_bitmap) (data : St) : res (St * Z) :=
  let bitsize := htonl (u32 (bit_size self)) in
  '(data, ok) ← write32 data bitsize;
  if negb ok then Ok (data, -1)
  else
    let word_count := htonl (u32 (buffer_size self)) in
    '(data, ok) ← write32 data word_count;
    if negb ok then Ok (data, -1)
    else
      '(data, dump, b, words_left, ok) ←
        loop (S (Z.to_nat (buffer_size self))) (chunk_step (ew_buffer self)) (data, dump0, 0, buffer_size self);
      if negb ok then Ok (data, -1)
      else
        '(data, ok) ←
          (if tr words_left then
             '(dump, _) ← fill_dump (ew_buffer self) words_left dump b;
             write_dump data dump (words_left * 8)
           else Ok (data, true));
        if negb ok then Ok (data, -1)
        else
          let rlw_pos := htonl (u32 (8 * ew_rlw self) `div` 8) in
          '(data, ok) ← write32 data rlw_pos;
          if negb ok then Ok (data, -1)
          else Ok (data, to_int (u64 (3 * 4 + u64 (buffer_size self * 8)))).
End Serialize.

Section Strbuf.
Context `{Memory} (junk : Z).

Definition write_strbuf (sb : strbuf) (data : list Z) : res (strbuf * Z) :=
  sb ← strbuf_add junk sb data; Ok (sb, to_int (len data)).

#[local] Instance strbuf_writer : Writer strbuf := write_strbuf.

Definition ewah_serialize_strbuf (dump0 : list Z) (self : ewah_bitmap) (sb : strbuf) : res (strbuf * Z) :=
  ewah_serialize_to dump0 self sb.

(** ** Reading *)

(** A word of eight bytes in memory, and the words of a block. *)
Definition le_word (l : list Z) : Z := foldr (fun b acc => b + 256 * acc) 0 l.

Fixpoint le_words (n : nat) (l : list Z) : list Z :=
  match n with O => [] | S n => le_word (take 8 l) :: le_words n (drop 8 l) end.

Definition ntohll (x : Z) : Z := default_bswap64 x.

Definition swap_step (n : Z) (st : list Z * Z) : res (list Z * Z + list Z) :=
  let '(buf, i) := st in
  if i <? n then x ← rd buf i; buf ← wr buf i (ntohll x); Ok (inl (buf, i + 1)) else Ok (inr buf).

(** The bitmap, and the return value: -1 behind [error()]. *)
Definition ewah_read_mmap (self : ewah_bitmap) (map : list Z) (n : Z) : res (ewah_bitmap * Z) :=
  let ptr := 0 in
  if n <? 4 then Ok (self, -1)
  else
    bs ← get_be32 map ptr;
    let self := set_bit_size self bs in
    let ptr := ptr + 4 in let n := n - 4 in
    if n <? 4 then Ok (self, -1)
    else
      sz ← get_be32 map ptr;
      let ptr := ptr + 4 in let n := n - 4 in
      buf ← REALLOC_ARRAY junk sizeof_eword (ew_buffer self) sz;
      let self := mkEwah buf sz sz (bit_size self) (ew_rlw self) in
      data_len ← st_mult sz sizeof_eword;
      if n <? data_len then Ok (self, -1)
      else
        raw ← rd_slice map ptr data_len;
        buf ← wr_slice buf 0 (le_words (Z.to_nat sz) raw);
        let ptr := ptr + data_len in let n := n - data_len in
        buf ← loop (S (Z.to_nat sz)) (swap_step sz) (buf, 0);
        let self := mkEwah buf sz sz (bit_size self) (ew_rlw self) in
        if n <? 4 then Ok (self, -1)
        else
          r ← get_be32 map ptr;
          Ok (mkEwah buf sz sz (bit_size self) r, ptr + 4).
End Strbuf.

(** ** Bytes and words *)

Lemma htonll_word x : is_word (htonll x).
Proof.
  unfold htonll, is_word. rewrite bswap_sum.
  pose proof (u8_byte (x >>. (8 * 0))). pose proof (u8_byte (x >>. (8 * 1))). pose proof (u8_byte (x >>. (8 * 2))). pose proof (u8_byte (x >>. (8 * 3))).
  pose proof (u8_byte (x >>. (8 * 4))). pose proof (u8_byte (x >>. (8 * 5))). pose proof (u8_byte (x >>. (8 * 6))). pose proof (u8_byte (x >>. (8 * 7))).
  unfold is_byte in *. lia.
Qed.

Lemma le_word_bytes y : is_word y -> le_word (eword_bytes y) = y.
Proof.
  intros Hy. rewrite eword_bytes_list. unfold le_word, u8, is_word in *. cbn [foldr]. rewrite !Z.shiftr_div_pow2 by done. dlia.
Qed.

Lemma ntohll_htonll x : is_word x -> ntohll (htonll x) = x.
Proof.
  intros Hx. pose proof (bswap_bytes x Hx) as E. rewrite eword_bytes_list in E. unfold be64, be32 in E. cbn [app] in E.
  injection E as E0 E1 E2 E3 E4 E5 E6 E7. unfold ntohll. rewrite bswap_sum. change (8 * 0) with 0. change (8 * 1) with 8. change (8 * 2) with 16.
  change (8 * 3) with 24. change (8 * 4) with 32. change (8 * 5) with 40. change (8 * 6) with 48. change (8 * 7) with 56.
  rewrite Z.shiftr_0_r, E0, E1, E2, E3, E4, E5, E6, E7. unfold u8, u32, is_word in *. rewrite !Z.shiftr_div_pow2 by done. dlia.
Qed.

Lemma len_words_bytes (f : Z -> list Z) l : (forall x, length (f x) = 8%nat) -> len (mjoin (f <$> l)) = 8 * len l.
Proof.
  intros Hf. induction l as [|x l IH]; [done|]. change (mjoin (f <$> x :: l)) with (f x ++ mjoin (f <$> l)).
  rewrite len_app, len_cons, IH. unfold len at 1. rewrite Hf. lia.
Qed.

Lemma len_eword_bytes x : length (eword_bytes x) = 8%nat.
Proof. by rewrite eword_bytes_list. Qed.

Lemma len_be64 x : length (be64 x) = 8%nat.
Proof. done. Qed.

Lemma mjoin_app {A} (f : Z -> list A) a b : mjoin (f <$> a ++ b) = mjoin (f <$> a) ++ mjoin (f <$> b).
Proof. by rewrite fmap_app, join_app. Qed.

(** The file format. *)
Definition ewah_image (e : ewah_bitmap) : list Z :=
  be32 (bit_size e) ++ be32 (buffer_size e) ++
  mjoin (be64 <$> take (Z.to_nat (buffer_size e)) (ew_buffer e)) ++ be32 (ew_rlw e).

(** ** Writing *)

Lemma fill_run buf a n ws rest : buf = a ++ ws ++ rest -> len ws = n -> forall ws2 ws1 fuel dump, ws = ws1 ++ ws2 ->
  (length ws2 < fuel)%nat -> len ws2 <= len dump ->
  loop fuel (dump_step buf n) ((htonll <$> ws1) ++ dump, len ws1, len a + len ws1) =
  Ok ((htonll <$> ws) ++ drop (length ws2) dump, len a + n).
Proof.
  intros Hbuf Hn. induction ws2 as [|x ws2 IH]; intros ws1 fuel dump Hws Hf Hd; (destruct fuel as [|fuel]; [lia|]); rewrite loop_S;
    unfold dump_step at 1.
  - rewrite app_nil_r in Hws. subst ws1. rewrite Hn, Z.ltb_irrefl. by rewrite drop_0.
  - assert (len ws1 < n) as Hlt by (rewrite <- Hn, Hws, len_app, len_cons; pose proof (len_nonneg ws2); lia).
    destruct (Z.ltb_spec (len ws1) n); [|lia].
    assert (rd buf (len a + len ws1) = Ok x) as ->.
    { rewrite Hbuf, Hws, <- app_assoc, app_assoc. apply rd_mid. by rewrite len_app. }
    cbn [mbind res_bind]. destruct dump as [|y dump]; [rewrite len_cons in Hd; change (len []) with 0 in Hd; pose proof (len_nonneg ws2); lia|].
    rewrite wr_mid by (unfold len; by rewrite length_fmap). cbn [mbind res_bind]. rewrite !len_cons in Hd.
    replace ((htonll <$> ws1) ++ htonll x :: dump) with ((htonll <$> ws1 ++ [x]) ++ dump) by (by rewrite fmap_app, <- app_assoc).
    replace (len ws1 + 1) with (len (ws1 ++ [x])) by (by rewrite len_app).
    replace (len a + len ws1 + 1) with (len a + len (ws1 ++ [x])) by (rewrite len_app; change (len [x]) with 1; lia).
    rewrite (IH (ws1 ++ [x]) fuel dump); [done|by rewrite <- app_assoc|simpl in Hf; lia|lia].
Qed.

Lemma fill_dump_spec buf a ws rest dump : buf = a ++ ws ++ rest -> len ws <= len dump ->
  fill_dump buf (len ws) dump (len a) = Ok ((htonll <$> ws) ++ drop (length ws) dump, len a + len ws).
Proof.
  intros Hbuf Hd. unfold fill_dump. pose proof (fill_run buf a (len ws) ws rest Hbuf eq_refl ws [] (S (Z.to_nat (len ws))) dump eq_refl) as H.
  change (len []) with 0 in H. rewrite Z.add_0_r in H. apply H; llia.
Qed.

(** What a writer promises: it reports the number of bytes it has appended to
    what the destination [holds]; it may report another number, when it fails,
    only if [may_fail]. *)
Class WriterOk {St} `{!Writer St} (F : fault -> Prop) (holds : St -> list Z -> Prop) (may_fail : Prop) :=
  write_fun_ok : forall st s bytes, holds st s -> is_bytes bytes -> len bytes <= 2 ^ 14 -> len s < 2 ^ 45 ->
    wp F (write_fun st bytes) (fun '(st', n) =>
      (n = len bytes /\ holds st' (s ++ bytes)) \/ (n <> len bytes /\ may_fail)).

Section SerializeSpec.
Context {St : Type} `{!Writer St} {F : fault -> Prop} {holds : St -> list Z -> Prop} {may_fail : Prop} `{!WriterOk F holds may_fail}.

Lemma write32_spec st s x : holds st s -> 0 <= x < 2 ^ 32 -> len s < 2 ^ 45 ->
  wp F (write32 st (htonl x)) (fun '(st', ok) => (ok = true /\ holds st' (s ++ be32 x)) \/ (ok = false /\ may_fail)).
Proof using All.
  intros Hs Hx HB. unfold write32. rewrite htonl_le_bytes by done. apply wp_bind. eapply wp_mono; [apply write_fun_ok; [done|apply be32_bytes|done|done]|].
  intros [st' n] Hr. apply wp_ret. change (len (be32 x)) with 4 in Hr. destruct Hr as [[-> Hr]|[Hn Hf]]; [by left|right].
  split; [by apply Z.eqb_neq|done].
Qed.

Lemma write_dump_spec st s ws dump : holds st s -> Forall is_word ws -> len ws <= 2048 -> len s < 2 ^ 45 ->
  wp F (write_dump st ((htonll <$> ws) ++ dump) (8 * len ws)) (fun '(st', ok) =>
    (ok = true /\ holds st' (s ++ mjoin (be64 <$> ws))) \/ (ok = false /\ may_fail)).
Proof using All.
  intros Hs Hw Hl HB. unfold write_dump. rewrite mjoin_app.
  assert (mjoin (eword_bytes <$> (htonll <$> ws)) = mjoin (be64 <$> ws)) as ->.
  { clear -Hw. induction Hw as [|x ws Hx Hw IH]; [done|].
    change (eword_bytes (htonll x) ++ mjoin (eword_bytes <$> (htonll <$> ws)) = be64 x ++ mjoin (be64 <$> ws)). by rewrite bswap_bytes, IH. }
  pose proof (len_words_bytes be64 ws len_be64) as Hlen. pose proof (len_nonneg ws).
  pose proof (rd_slice_mid [] (mjoin (be64 <$> ws)) (mjoin (eword_bytes <$> dump)) 0 (8 * len ws) eq_refl (eq_sym Hlen)) as E. cbn [app] in E. rewrite E.
  cbn [mbind res_bind]. apply wp_bind. eapply wp_mono; [apply write_fun_ok; [exact Hs| |lia|done]|].
  { clear. induction ws as [|x ws IH]; [constructor|]. apply Forall_app_2; [apply be64_bytes|done]. }
  intros [st' n] Hr. apply wp_ret. rewrite Hlen in Hr. destruct Hr as [[-> Hr]|[Hn Hf]]; [left; by rewrite Z.eqb_refl|right].
  split; [by apply Z.eqb_neq|done].
Qed.
Lemma chunk_run buf rest : forall fuel st s dump a ws, buf = a ++ ws ++ rest -> Forall is_word ws -> holds st s ->
  len dump = 2048 -> (length ws < fuel)%nat -> len s + 8 * len ws < 2 ^ 45 ->
  wp F (loop fuel (chunk_step buf) (st, dump, len a, len ws)) (fun '(st', dump', b', left', ok) =>
    (ok = true /\ exists ws1 ws2, ws = ws1 ++ ws2 /\ len ws2 < 2048 /\ left' = len ws2 /\ b' = len a + len ws1 /\
       len dump' = 2048 /\ holds st' (s ++ mjoin (be64 <$> ws1))) \/ (ok = false /\ may_fail)).
Proof using All.
  induction fuel as [|fuel IH]; intros st s dump a ws Hbuf Hw Hs Hd Hf HB; [lia|]. apply wp_loop_S. unfold chunk_step at 1, words_per_dump.
  pose proof (len_nonneg s). destruct (Z.leb_spec 2048 (len ws)) as [Hge|Hlt].
  - destruct (split_at ws 2048) as (w1 & w2 & -> & Hw1); [lia|]. apply Forall_app in Hw as [Hww1 Hww2]. rewrite len_app in *.
    rewrite <- Hw1 at 1. rewrite (fill_dump_spec buf a w1 (w2 ++ rest)); [|by rewrite Hbuf, <- app_assoc|lia]. cbn [mbind res_bind].
    rewrite <- Hw1 at 1. apply wp_bind. pose proof (len_nonneg w2).
    eapply wp_mono; [apply write_dump_spec; [exact Hs|done|lia|lia]|]. intros [st' ok] [[-> Hst]|[-> Hfail]]; cbn [negb]; apply wp_ret; [|by right].
    replace (len w1 + len w2 - 2048) with (len w2) by lia. rewrite <- len_app.
    pose proof (len_words_bytes be64 w1 len_be64) as Hl8. rewrite length_app in Hf.
    eapply wp_mono; [apply (IH st' (s ++ mjoin (be64 <$> w1)) ((htonll <$> w1) ++ drop (length w1) dump) (a ++ w1) w2); [by rewrite Hbuf, <- !app_assoc|done|exact Hst| |llia|]|].
    + rewrite len_app. unfold len in *. rewrite length_fmap, length_drop. lia.
    + rewrite len_app. unfold mjoin, fmap in *. lia.
    + intros [[[[st2 d2] b2] l2] ok2] [(-> & u1 & u2 & -> & Hu2 & -> & -> & Hd2 & Hst2)|Hr]; [left|by right]. split; [done|].
      exists (w1 ++ u1), u2. rewrite mjoin_app, !len_app. split_and!; [by rewrite <- app_assoc|done|done|lia|done|by rewrite app_assoc].
  - apply wp_ret. left. split; [done|]. exists [], ws. change (len (@nil Z)) with 0. split_and!; try done; [lia|]. simpl. by rewrite app_nil_r.
Qed.

(** What [ewah_serialize_to] needs of the bitmap. *)
Record image_ok (e : ewah_bitmap) : Prop := {
  im_size : 0 <= buffer_size e < 2 ^ 27;
  im_buf : buffer_size e <= len (ew_buffer e);
  im_words : Forall is_word (take (Z.to_nat (buffer_size e)) (ew_buffer e));
  im_bits : 0 <= bit_size e < 2 ^ 32;
  im_rlw : 0 <= ew_rlw e < 2 ^ 27;
}.

Lemma ewah_serialize_to_spec dump0 e st s : image_ok e -> len dump0 = 2048 -> holds st s -> len s < 2 ^ 40 ->
  wp F (ewah_serialize_to dump0 e st) (fun '(st', r) =>
    (r = 12 + 8 * buffer_size e /\ holds st' (s ++ ewah_image e)) \/ (r = -1 /\ may_fail)).
Proof using All.
  intros [Hn Hb Hw Hbits Hrlw] Hd Hs HB. unfold ewah_serialize_to.
  rewrite (u32_small (bit_size e)), (u32_small (buffer_size e)) by lia. apply wp_bind.
  eapply wp_mono; [apply write32_spec; [exact Hs|done|lia]|]. intros [st1 ok1] [[-> H1]|[-> Hf]]; cbn [negb]; [|apply wp_ret; by right]. apply wp_bind.
  eapply wp_mono; [apply write32_spec; [exact H1|lia|rewrite len_app; change (len (be32 _)) with 4; lia]|].
  intros [st2 ok2] [[-> H2]|[-> Hf]]; cbn [negb]; [|apply wp_ret; by right]. apply wp_bind.
  set (ws := take (Z.to_nat (buffer_size e)) (ew_buffer e)) in *. assert (len ws = buffer_size e) as Lw by (unfold ws, len in *; rewrite length_take; lia).
  assert (ew_buffer e = [] ++ ws ++ drop (Z.to_nat (buffer_size e)) (ew_buffer e)) as Ebuf by (symmetry; apply take_drop).
  eapply wp_mono.
  { rewrite <- Lw. apply (chunk_run _ _ _ st2 _ dump0 [] ws Ebuf Hw H2 Hd); [llia|]. rewrite !len_app. change (len (be32 _)) with 4. lia. }
  intros [[[[st3 dump] b] left] ok3] [(-> & w1 & w2 & Ews & Hw2 & -> & -> & Hdump & H3)|[-> Hf]]; cbn [negb]; [|apply wp_ret; by right].
  apply wp_bind. pose proof (len_words_bytes be64 w1 len_be64) as L1. pose proof (len_nonneg w1). pose proof (len_nonneg w2).
  assert (len w1 + len w2 = buffer_size e) as Lsum by (rewrite <- Lw, Ews, len_app; done).
  assert (forall st x, holds st (((((s ++ be32 (bit_size e)) ++ be32 (buffer_size e)) ++ mjoin (be64 <$> w1)) ++ mjoin (be64 <$> w2)) ++ be32 x) ->
    x = ew_rlw e -> holds st (s ++ ewah_image e)) as Himg.
  { intros st4 x Hst ->. unfold ewah_image. fold ws. rewrite Ews, mjoin_app. by rewrite <- !app_assoc in *. }
  eapply (wp_mono _ _ (fun '(st', ok) => (ok = true /\ holds st' ((((s ++ be32 (bit_size e)) ++ be32 (buffer_size e)) ++ mjoin (be64 <$> w1)) ++ mjoin (be64 <$> w2))) \/
    (ok = false /\ may_fail))).
  { destruct (tr (len w2)) eqn:Et.
    - rewrite (fill_dump_spec _ w1 w2 (drop (Z.to_nat (buffer_size e)) (ew_buffer e))); [|by rewrite app_assoc, <- Ews|lia].
      cbn [mbind res_bind]. rewrite Z.mul_comm. apply write_dump_spec; [exact H3| |lia|].
      + rewrite Ews in Hw. by apply Forall_app in Hw as [_ ?].
      + rewrite !len_app. change (len (be32 _)) with 4. unfold mjoin, fmap in *. lia.
    - apply wp_ret. left. split; [done|]. apply tr_false in Et. destruct w2; [simpl; by rewrite app_nil_r|rewrite len_cons in Et; pose proof (len_nonneg w2); lia]. }
  intros [st4 ok4] [[-> H4]|[-> Hf]]; cbn [negb]; [|apply wp_ret; by right]. apply wp_bind.
  pose proof (len_words_bytes be64 w2 len_be64) as L2.
  rewrite (u32_small (8 * ew_rlw e)) by lia. replace ((8 * ew_rlw e) `div` 8) with (ew_rlw e) by dlia.
  eapply wp_mono; [apply write32_spec; [exact H4|lia|]|].
  { rewrite !len_app. change (len (be32 _)) with 4. unfold mjoin, fmap in *. lia. }
  intros [st5 ok5] [[-> H5]|[-> Hf]]; cbn [negb]; apply wp_ret; [left|by right]. split; [|by eapply Himg].
  rewrite (u64_small (_ * 8)), u64_small by lia. rewrite to_int_small by lia. lia.
Qed.
End SerializeSpec.

(** ** Reading *)

Section ReadSpec.
Context `{Memory} (junk : Z).

#[local] Existing Instance strbuf_writer.

#[export] Instance strbuf_writer_ok : WriterOk (Writer0 := strbuf_writer junk) oom sb_ok False.
Proof.
  intros sb s bytes Hs Hb Hl HB. assert (2 ^ 45 + 2 ^ 14 < BIG) as HBIG by done. unfold write_fun, strbuf_writer, write_strbuf.
  apply wp_bind. eapply wp_mono; [apply strbuf_add_spec; [done|lia]|]. intros sb' Hs'. apply wp_ret. left. split; [|done].
  apply to_int_small. pose proof (len_nonneg bytes). lia.
Qed.

Lemma REALLOC_words (x : list Z) sz : 0 <= sz < 2 ^ 32 -> wp oom (REALLOC_ARRAY junk 8 x sz) (fun buf => len buf = sz).
Proof.
  intros Hs. unfold REALLOC_ARRAY. rewrite st_mult_ok by lia. cbn [mbind res_bind]. apply wp_bind.
  eapply (wp_mono _ _ (fun _ => True)).
  { destruct (decide (sz = 0)) as [->|]; [apply xmalloc_oom0|apply xrealloc_oom; lia]. }
  intros _ _. apply wp_ret. rewrite len_app. unfold len. rewrite length_take, length_replicate. lia.
Qed.

Lemma len_le_words n l : length (le_words n l) = n.
Proof. revert l. induction n as [|n IH]; intros l; [done|]. simpl. by rewrite IH. Qed.

Lemma swap_run : forall todo done n fuel, n = len done + len todo -> (length todo < fuel)%nat ->
  loop fuel (swap_step n) (done ++ todo, len done) = Ok (done ++ (ntohll <$> todo)).
Proof.
  induction todo as [|x todo IH]; intros done n fuel Hn Hf; (destruct fuel as [|fuel]; [lia|]); rewrite loop_S; unfold swap_step at 1.
  - change (len []) with 0 in Hn. destruct (Z.ltb_spec (len done) n); [lia|done].
  - rewrite len_cons in Hn. pose proof (len_nonneg todo). destruct (Z.ltb_spec (len done) n); [|lia].
    rewrite rd_mid by done. cbn [mbind res_bind]. rewrite wr_mid by done. cbn [mbind res_bind].
    specialize (IH (done ++ [ntohll x]) n fuel). rewrite len_app, <- !app_assoc in IH. change (len [ntohll x]) with 1 in IH. cbn [app] in IH.
    rewrite IH by (simpl in Hf; lia). done.
Qed.

Lemma wr_slice_all {A} (x y : list A) : len x = len y -> wr_slice x 0 y = Ok y.
Proof.
  intros Hl. pose proof (wr_slice_mid [] x [] y 0 eq_refl (eq_sym Hl)) as E. cbn [app] in E. by rewrite !app_nil_r in E.
Qed.

(** The fields of an image. *)
Definition img_bits (map : list Z) : Z := of_be (slice map 0 4).
Definition img_size (map : list Z) : Z := of_be (slice map 4 4).
Definition img_words (map : list Z) : list Z := ntohll <$> le_words (Z.to_nat (img_size map)) (slice map 8 (8 * img_size map)).
Definition img_rlw (map : list Z) : Z := of_be (slice map (8 + 8 * img_size map) 4).

Lemma ewah_read_mmap_spec self map n : is_bytes map -> 0 <= n <= len map ->
  wp oom (ewah_read_mmap junk self map n) (fun '(e, r) =>
    if (8 <=? n) && (12 + 8 * img_size map <=? n)
    then r = 12 + 8 * img_size map /\
      e = mkEwah (img_words map) (img_size map) (img_size map) (img_bits map) (img_rlw map)
    else r = -1).
Proof.
  intros Hb Hn. unfold ewah_read_mmap. destruct (Z.ltb_spec n 4); [apply wp_ret; by destruct (Z.leb_spec 8 n); [lia|]|].
  destruct (get_be32_ok map 0 Hb) as [-> _]; [lia|lia|]. cbn [mbind res_bind]. cbn zeta.
  destruct (Z.ltb_spec (n - 4) 4); [apply wp_ret; by destruct (Z.leb_spec 8 n); [lia|]|].
  destruct (get_be32_ok map (0 + 4) Hb) as [-> Hsz]; [lia|lia|]. cbn [mbind res_bind]. change (0 + 4) with 4 in *. fold (img_size map) in *.
  destruct (Z.leb_spec 8 n); [|lia]. cbn [andb].
  apply wp_bind. eapply wp_mono; [by apply REALLOC_words|]. intros buf Hbuf. cbn beta in Hbuf. unfold sizeof_eword.
  rewrite st_mult_ok by lia. cbn [mbind res_bind]. destruct (Z.ltb_spec (n - 4 - 4) (img_size map * 8)).
  { apply wp_ret. destruct (Z.leb_spec (12 + 8 * img_size map) n); [lia|done]. }
  rewrite rd_slice_ok by lia. cbn [mbind res_bind]. change (4 + 4) with 8. rewrite (Z.mul_comm (img_size map) 8).
  set (ws := le_words (Z.to_nat (img_size map)) (slice map 8 (8 * img_size map))).
  assert (len ws = img_size map) as Lws by (unfold ws, len; rewrite len_le_words; lia).
  rewrite wr_slice_all by lia. cbn [mbind res_bind].
  pose proof (swap_run ws [] (img_size map) (S (Z.to_nat (img_size map)))) as Hrun. cbn [app] in Hrun. change (len []) with 0 in Hrun.
  rewrite Hrun by llia. cbn [mbind res_bind]. destruct (Z.ltb_spec (n - 4 - 4 - 8 * img_size map) 4).
  { apply wp_ret. destruct (Z.leb_spec (12 + 8 * img_size map) n); [lia|done]. }
  destruct (get_be32_ok map (8 + 8 * img_size map) Hb) as [-> _]; [lia|lia|]. cbn [mbind res_bind]. apply wp_ret.
  destruct (Z.leb_spec (12 + 8 * img_size map) n); [|lia]. split; [lia|done].
Qed.

(** ** Reading what was written *)

Lemma le_words_be64 ws t : Forall is_word ws -> ntohll <$> le_words (length ws) (mjoin (be64 <$> ws) ++ t) = ws.
Proof.
  induction 1 as [|x ws Hx Hw IH]; [done|]. change (mjoin (be64 <$> x :: ws)) with (be64 x ++ mjoin (be64 <$> ws)). rewrite <- app_assoc.
  cbn [length le_words]. rewrite take_app_length' by done. rewrite drop_app_length' by done. cbn [fmap list_fmap]. f_equal; [|exact IH].
  rewrite <- bswap_bytes, le_word_bytes by (done || apply htonll_word). by apply ntohll_htonll.
Qed.

Lemma image_fields e tail : image_ok e -> let map := ewah_image e ++ tail in
  img_bits map = bit_size e /\ img_size map = buffer_size e /\ img_rlw map = ew_rlw e /\
  img_words map = take (Z.to_nat (buffer_size e)) (ew_buffer e) /\ len (ewah_image e) = 12 + 8 * buffer_size e.
Proof.
  intros [Hn Hb Hw Hbits Hrlw] map. set (ws := take (Z.to_nat (buffer_size e)) (ew_buffer e)) in *.
  assert (len ws = buffer_size e) as Lw by (unfold ws, len in *; rewrite length_take; lia).
  pose proof (len_words_bytes be64 ws len_be64) as L8.
  assert (map = be32 (bit_size e) ++ be32 (buffer_size e) ++ mjoin (be64 <$> ws) ++ be32 (ew_rlw e) ++ tail) as Emap.
  { unfold map, ewah_image. fold ws. by rewrite <- !app_assoc. }
  assert (img_bits map = bit_size e) as E1.
  { unfold img_bits. rewrite Emap. pose proof (slice_app_at [] (be32 (bit_size e)) (be32 (buffer_size e) ++ mjoin (be64 <$> ws) ++ be32 (ew_rlw e) ++ tail) 0 4 eq_refl eq_refl) as E.
    cbn [app] in E. rewrite E. by apply of_be_be32. }
  assert (img_size map = buffer_size e) as E2.
  { unfold img_size. rewrite Emap, slice_app_at by done. apply of_be_be32. lia. }
  assert (img_rlw map = ew_rlw e) as E3.
  { unfold img_rlw. rewrite E2, Emap, 2!app_assoc. rewrite slice_app_at; [apply of_be_be32; lia| |done].
    rewrite !len_app. change (len (be32 _)) with 4. unfold mjoin, fmap in *. lia. }
  split_and!; try done.
  - unfold img_words. rewrite E2, Emap, app_assoc. rewrite slice_app_at; [|done|unfold mjoin, fmap in *; lia].
    rewrite <- Lw. replace (Z.to_nat (len ws)) with (length ws) by llia. pose proof (le_words_be64 ws [] Hw) as E. by rewrite app_nil_r in E.
  - unfold ewah_image. fold ws. rewrite !len_app. change (len (be32 _)) with 4. unfold mjoin, fmap in *. lia.
Qed.

Lemma rlw_is_word b rl lw : 0 <= rl < 2 ^ 32 -> 0 <= lw < 2 ^ 31 -> is_word (rlw b rl lw).
Proof.
  intros Hr Hl. unfold is_word, rlw. rewrite !Z.shiftl_mul_pow2 by done.
  assert (0 <= Z.b2z b < 2 ^ 1) by (destruct b; cbn; lia).
  rewrite <- Z.lor_assoc, (Z.lor_comm (rl * 2 ^ 1)), (lor_add _ (rl * 2 ^ 1) 33) by dlia.
  rewrite Z.lor_comm, (lor_add _ _ 1) by dlia. lia.
Qed.

Lemma seg_enc_words s : seg_ok s -> Forall is_word (seg_enc s).
Proof.
  intros [Hr Hl Hw]. constructor; [|done]. apply rlw_is_word; [done|]. pose proof (len_nonneg (s_lits s)). lia.
Qed.

Lemma enc_words ss : Forall seg_ok ss -> Forall is_word (enc ss).
Proof. induction 1 as [|s ss Hs Hss IH]; [constructor|]. apply Forall_app_2; [by apply seg_enc_words|exact IH]. Qed.

(** A bitmap's words are those of its segments, and the rest of its buffer does not matter. *)
Lemma ewah_ok_take e ss s : ewah_ok e ss s -> take (Z.to_nat (buffer_size e)) (ew_buffer e) = enc (ss ++ [s]).
Proof.
  intros [[[tl Hb] Hs _ _ _ _] _ _ _]. rewrite Hb, Hs, enc_snoc_raw.
  replace (enc ss ++ seg_rlw s :: s_lits s ++ tl) with ((enc ss ++ seg_rlw s :: s_lits s) ++ tl) by (by rewrite <- app_assoc).
  apply take_app_length'. rewrite length_app. simpl. llia.
Qed.

Lemma ewah_ok_image e ss s : ewah_ok e ss s -> buffer_size e < 2 ^ 27 -> 0 <= bit_size e < 2 ^ 32 -> image_ok e.
Proof.
  intros Hok Hn Hbits. pose proof (ewah_ok_take _ _ _ Hok) as Et. destruct Hok as [[[tl Hb] Hs Hrlw _ _ _] Hss Hso _].
  pose proof (len_nonneg (enc ss)). pose proof (len_nonneg (s_lits s)). pose proof (len_nonneg tl).
  constructor; try (done || lia).
  - rewrite Hb, len_app, len_cons, len_app. lia.
  - rewrite Et. apply enc_words, Forall_app. by split; [|constructor].
Qed.

Lemma ewah_ok_read e ss s : ewah_ok e ss s -> buffer_size e < 2 ^ 27 ->
  ewah_ok (mkEwah (enc (ss ++ [s])) (buffer_size e) (buffer_size e) (bit_size e) (ew_rlw e)) ss s.
Proof.
  intros [[_ Hs Hrlw _ _ _] Hss Hso Hf] Hn. constructor; try done. rewrite enc_snoc_raw.
  constructor; cbn [ew_buffer buffer_size alloc_size ew_rlw bit_size]; try (done || lia).
  - exists []. by rewrite app_nil_r.
  - rewrite len_app, len_cons. lia.
Qed.

Lemma image_bytes e : is_bytes (ewah_image e).
Proof.
  unfold ewah_image. repeat (apply Forall_app_2; try apply be32_bytes).
  induction (take (Z.to_nat (buffer_size e)) (ew_buffer e)) as [|x l IH]; [constructor|]. apply Forall_app_2; [apply be64_bytes|exact IH].
Qed.

(** The bytes of a string buffer. *)
Definition sb_bytes (sb : strbuf) : list Z := take (Z.to_nat (sb_len sb)) (mem_of (sb_buf sb)).

Lemma sb_ok_bytes sb s : sb_ok sb s -> sb_bytes sb = s.
Proof.
  intros Hs. unfold sb_bytes. rewrite (sb_ok_len _ _ Hs). destruct (sb_ok_data _ _ Hs) as [rest ->]. apply take_app_length'. llia.
Qed.
End ReadSpec.

(** C14: a bitmap (of fewer than [2 ^ 27] words and [2 ^ 32] bits) that is written with [ewah_serialize_strbuf] behind the contents
    of a string buffer appends the file format's bytes and returns their number;
    [ewah_read_mmap], given these bytes with any others behind them, reads exactly
    as many and gives a bitmap for the same words, with the same number of bits,
    whatever the bitmap it reads into was; the only failure is running out of
    memory. *)
Theorem ewah_io_roundtrip `{Memory} junk dump0 e W sb s self tail :
  rep e W -> buffer_size e < 2 ^ 27 -> 0 <= bit_size e < 2 ^ 32 -> len dump0 = 2048 ->
  sb_ok sb s -> len s < 2 ^ 40 -> is_bytes tail ->
  wp oom ('(sb, w) ← ewah_serialize_strbuf junk dump0 e sb;
          let map := drop (length s) (sb_bytes sb) ++ tail in
          '(e', r) ← ewah_read_mmap junk self map (len map); Ok (sb, w, e', r))
    (fun '(sb', w, e', r) => sb_ok sb' (s ++ ewah_image e) /\ w = len (ewah_image e) /\ r = w /\ rep e' W /\ bit_size e' = bit_size e).
Proof.
  intros (ss & sg & Hok & Hl & HW) Hn Hbits Hd Hs HB Ht. pose proof (ewah_ok_image _ _ _ Hok Hn Hbits) as Him.
  pose proof (image_fields e tail Him) as (Eb & En & Er & Ew & El). rewrite (ewah_ok_take _ _ _ Hok) in Ew.
  apply wp_bind. unfold ewah_serialize_strbuf. eapply wp_mono; [by apply (ewah_serialize_to_spec (WriterOk0 := strbuf_writer_ok junk) dump0 e sb s)|].
  intros [sb' w] [[-> Hs']|[_ []]]. rewrite (sb_ok_bytes _ _ Hs'), drop_app_length. cbn zeta. apply wp_bind.
  pose proof (len_nonneg tail). pose proof (im_size _ Him). eapply wp_mono.
  { apply ewah_read_mmap_spec; [apply Forall_app_2; [apply image_bytes|done]|]. pose proof (len_nonneg (ewah_image e ++ tail)). lia. }
  intros [e' r]. rewrite Eb, En, Er, Ew, len_app, El.
  destruct (Z.leb_spec 8 (12 + 8 * buffer_size e + len tail)); [|lia].
  destruct (Z.leb_spec (12 + 8 * buffer_size e) (12 + 8 * buffer_size e + len tail)); [|lia]. cbn [andb].
  intros [-> ->]. apply wp_ret. split_and!; try done. exists ss, sg. split_and!; [by apply ewah_ok_read|done|done].
Qed.

Definition io_bitmap : ewah_bitmap := mkEwah [rlw true 2 1; 5; 0] 2 3 192 0.

Lemma io_bitmap_rep : rep io_bitmap [Z.ones 64; Z.ones 64; 5].
Proof.
  exists [], (mkSeg true 2 [5]). split_and!; [|by left|by vm_compute]. constructor; [|constructor| |constructor].
  - constructor; cbn; try done. by exists [0].
  - constructor; cbn; [lia|done|]. by repeat constructor.
Qed.

Lemma ewah_io_roundtrip_witness :
  wp (@oom plenty) ('(sb, w) ← @ewah_serialize_strbuf plenty 7 (replicate 2048 0) io_bitmap STRBUF_INIT;
    let map := drop 0 (sb_bytes sb) ++ [1; 2; 3] in
    '(e', r) ← @ewah_read_mmap plenty 7 (mkEwah [] 0 0 0 0) map (len map); Ok (sb, w, e', r))
    (fun '(sb', w, e', r) => sb_ok sb' ([] ++ ewah_image io_bitmap) /\ w = len (ewah_image io_bitmap) /\ r = w /\ rep e' [Z.ones 64; Z.ones 64; 5] /\ bit_size e' = 192).
Proof.
  apply (@ewah_io_roundtrip plenty 7 (replicate 2048 0) io_bitmap [Z.ones 64; Z.ones 64; 5] STRBUF_INIT [] (mkEwah [] 0 0 0 0) [1; 2; 3]);
    [exact io_bitmap_rep|done|done|by vm_compute|exact sb_ok_init|done|by repeat constructor].
Defined.

(** C15: whatever the bytes of a [.bitmap] file are, [ewah_read_mmap] stays inside
    the [n] bytes it is given and inside the array it allocates for the words,
    and ends: it fails with -1 when the bytes are fewer than the header's number
    of words asks for, and otherwise reads 12 bytes more than the words take and
    leaves the size, the words and the position that the bytes hold; no word of
    the array is then out of range for a 64-bit word. *)
Theorem ewah_read_mmap_bounds `{Memory} junk self map n : is_bytes map -> 0 <= n <= len map ->
  wp oom (ewah_read_mmap junk self map n) (fun '(e, r) =>
    r <= n /\ (r = -1 <-> n < 8 \/ n < 12 + 8 * img_size map) /\
    (r <> -1 -> r = 12 + 8 * buffer_size e /\ ew_buffer e = img_words map /\ len (ew_buffer e) = alloc_size e /\
      buffer_size e = alloc_size e /\ Forall is_word (ew_buffer e) /\ bit_size e = img_bits map /\ ew_rlw e = img_rlw map)).
Proof.
  intros Hb Hn. eapply wp_mono; [by apply ewah_read_mmap_spec|]. intros [e r].
  destruct (Z.leb_spec 8 n); cbn [andb]; [|intros ->; split_and!; [lia|lia|done]].
  destruct (Z.leb_spec (12 + 8 * img_size map) n); [|intros ->; split_and!; [lia|lia|done]].
  assert (0 <= img_size map) as Hsz by (destruct (get_be32_ok map 4 Hb) as [_ [? _]]; [lia|lia|done]).
  intros [-> ->]. cbn [buffer_size alloc_size ew_buffer bit_size ew_rlw]. split_and!; [lia|lia|]. intros _.
  split_and!; try done.
  - unfold img_words, len. rewrite length_fmap, len_le_words. lia.
  - apply Forall_fmap, Forall_true. intros x. apply htonll_word.
Qed.

Lemma ewah_read_mmap_bounds_witness :
  wp (@oom plenty) (@ewah_read_mmap plenty 7 (mkEwah [] 0 0 0 0) [0; 0; 0; 1; 255; 0; 0; 0; 1; 2] 10) (fun '(e, r) =>
    r <= 10 /\ (r = -1 <-> 10 < 8 \/ 10 < 12 + 8 * img_size [0; 0; 0; 1; 255; 0; 0; 0; 1; 2]) /\
    (r <> -1 -> r = 12 + 8 * buffer_size e /\ ew_buffer e = img_words [0; 0; 0; 1; 255; 0; 0; 0; 1; 2] /\ len (ew_buffer e) = alloc_size e /\
      buffer_size e = alloc_size e /\ Forall is_word (ew_buffer e) /\ bit_size e = img_bits [0; 0; 0; 1; 255; 0; 0; 0; 1; 2] /\ ew_rlw e = img_rlw [0; 0; 0; 1; 255; 0; 0; 0; 1; 2])).
Proof. apply (@ewah_read_mmap_bounds plenty 7 (mkEwah [] 0 0 0 0) [0; 0; 0; 1; 255; 0; 0; 0; 1; 2] 10); [repeat constructor; lia|done]. Defined.
