(* ===== verification/Wildmatch.v ===== *)
(** * Shell patterns: [wildmatch.c]

    [dowild] matches a pattern by recursion at the asterisks.  It prunes the
    search with two internal return values, [WM_ABORT_ALL] and
    [WM_ABORT_TO_STARSTAR], skips ahead to the next occurrence of a literal, and
    treats one asterisk in front of a slash without recursion.  The theorem of
    this file says that none of this loses or adds a match: the function decides
    the declarative relation [globs]. *)

From stdpp Require Import prelude numbers list.
From S2P Require Import Prelude CString Hex.

(** ** The code *)

Definition WM_CASEFOLD : Z := 1.
Definition WM_PATHNAME : Z := 2.
Definition WM_NOMATCH : Z := 1.
Definition WM_MATCH : Z := 0.
Definition WM_ABORT_ALL : Z := -1.
Definition WM_ABORT_TO_STARSTAR : Z := -2.

Definition NEGATE_CLASS : Z := 33.
Definition NEGATE_CLASS2 : Z := 94.

Definition isxdigit (x : Z) : bool := negb (hexval_table !!! Z.to_nat (u8 x) =? -1).

(** The C library's [isblank] and [isgraph], where it has them as macros, agree
    with the definitions of the file on ASCII. *)
Definition ISBLANK (c : Z) : bool := (c =? 32) || (c =? 9).
Definition ISGRAPH (c : Z) : bool := isascii c && isprint c && negb (isspace c).
Definition ISPRINT (c : Z) : bool := isascii c && isprint c.
Definition ISDIGIT (c : Z) : bool := isascii c && isdigit c.
Definition ISALNUM (c : Z) : bool := isascii c && isalnum c.
Definition ISALPHA (c : Z) : bool := isascii c && isalpha c.
Definition ISCNTRL (c : Z) : bool := isascii c && iscntrl c.
Definition ISLOWER (c : Z) : bool := isascii c && islower c.
Definition ISPUNCT (c : Z) : bool := isascii c && ispunct c.
Definition ISSPACE (c : Z) : bool := isascii c && isspace c.
Definition ISUPPER (c : Z) : bool := isascii c && isupper c.
Definition ISXDIGIT (c : Z) : bool := isascii c && isxdigit c.

(** [strchr(s, c)] for [c] other than NUL. *)
Definition strchr (mem : list Z) (i c : Z) : res (option Z) :=
  n ← scan (fun x => tr x && negb (x =? c)) mem i;
  x ← rd mem (i + n); Ok (if x =? c then Some (i + n) else None).

Definition casefold (flags : Z) : bool := tr (flags &. WM_CASEFOLD).
Definition pathname (flags : Z) : bool := tr (flags &. WM_PATHNAME).

(** [if ((flags & WM_CASEFOLD) && ISUPPER(c)) c = tolower(c);] *)
Definition fold (cf : bool) (c : Z) : Z := if cf && ISUPPER c then tolower c else c.

(** *** Bracket expressions *)

(** The names of the [CC_EQ] tests. *)
Definition cc_alnum : list Z := [97; 108; 110; 117; 109].
Definition cc_alpha : list Z := [97; 108; 112; 104; 97].
Definition cc_blank : list Z := [98; 108; 97; 110; 107].
Definition cc_cntrl : list Z := [99; 110; 116; 114; 108].
Definition cc_digit : list Z := [100; 105; 103; 105; 116].
Definition cc_graph : list Z := [103; 114; 97; 112; 104].
Definition cc_lower : list Z := [108; 111; 119; 101; 114].
Definition cc_print : list Z := [112; 114; 105; 110; 116].
Definition cc_punct : list Z := [112; 117; 110; 99; 116].
Definition cc_space : list Z := [115; 112; 97; 99; 101].
Definition cc_upper : list Z := [117; 112; 112; 101; 114].
Definition cc_xdigit : list Z := [120; 100; 105; 103; 105; 116].

Definition CC_EQ (class litmatch : list Z) : bool := bool_decide (class = litmatch).

(** Does [t_ch] belong to the class?  [None] for a malformed class. *)
Definition class_test (cf : bool) (class : list Z) (t_ch : Z) : option bool :=
  if CC_EQ class cc_alnum then Some (ISALNUM t_ch)
  else if CC_EQ class cc_alpha then Some (ISALPHA t_ch)
  else if CC_EQ class cc_blank then Some (ISBLANK t_ch)
  else if CC_EQ class cc_cntrl then Some (ISCNTRL t_ch)
  else if CC_EQ class cc_digit then Some (ISDIGIT t_ch)
  else if CC_EQ class cc_graph then Some (ISGRAPH t_ch)
  else if CC_EQ class cc_lower then Some (ISLOWER t_ch)
  else if CC_EQ class cc_print then Some (ISPRINT t_ch)
  else if CC_EQ class cc_punct then Some (ISPUNCT t_ch)
  else if CC_EQ class cc_space then Some (ISSPACE t_ch)
  else if CC_EQ class cc_upper then Some (ISUPPER t_ch || (cf && ISLOWER t_ch))
  else if CC_EQ class cc_xdigit then Some (ISXDIGIT t_ch)
  else None.

Section Dowild.
Context (pat txt : list Z) (flags : Z).
Let cf : bool := casefold flags.
Let pn : bool := pathname flags.

(** One round of the [do] loop up to the label [next]: the place, [p_ch] and
    [matched]; [None] is [return WM_ABORT_ALL]. *)
Definition class_item (t_ch p p_ch prev_ch : Z) (matched : bool) : res (option (Z * Z * bool)) :=
  if p_ch =? 92 then
    p_ch ← rd pat (p + 1);
    if negb (tr p_ch) then Ok None else Ok (Some (p + 1, p_ch, matched || (t_ch =? p_ch)))
  else
    range ← (if (p_ch =? 45) && tr prev_ch then
               x ← rd pat (p + 1); Ok (tr x && negb (x =? 93))
             else Ok false);
    if range : bool then
      p_ch ← rd pat (p + 1);
      let p := p + 1 in
      o ← (if p_ch =? 92 then
             p_ch ← rd pat (p + 1);
             Ok (if negb (tr p_ch) then None else Some (p + 1, p_ch))
           else Ok (Some (p, p_ch)));
      match o with
      | None => Ok None
      | Some (p, p_ch) =>
          let matched :=
            if (t_ch <=? p_ch) && (prev_ch <=? t_ch) then true
            else if cf && ISLOWER t_ch then
              let t_ch_upper := toupper t_ch in
              if (t_ch_upper <=? p_ch) && (prev_ch <=? t_ch_upper) then true else matched
            else matched in
          Ok (Some (p, 0, matched))
      end
    else
      posix ← (if p_ch =? 91 then x ← rd pat (p + 1); Ok (x =? 58) else Ok false);
      if posix : bool then
        let s := p + 2 in
        n ← scan (fun c => tr c && negb (c =? 93)) pat s;
        let p := s + n in
        p_ch ← rd pat p;
        if negb (tr p_ch) then Ok None
        else
          let i := to_int (p - s - 1) in
          bad ← (if i <? 0 then Ok true else x ← rd pat (p - 1); Ok (negb (x =? 58)));
          if bad : bool then Ok (Some (s - 2, 91, matched || (t_ch =? 91)))
          else
            class ← rd_slice pat s i;
            match class_test cf class t_ch with
            | None => Ok None
            | Some b => Ok (Some (p, 0, matched || b))
            end
      else Ok (Some (p, p_ch, matched || (t_ch =? p_ch))).

Definition class_step (t_ch : Z) (st : Z * Z * Z * bool) : res (Z * Z * Z * bool + option (Z * bool)) :=
  let '(p, p_ch, prev_ch, matched) := st in
  if negb (tr p_ch) then Ok (inr None)
  else
    o ← class_item t_ch p p_ch prev_ch matched;
    match o with
    | None => Ok (inr None)
    | Some (p, p_ch, matched) =>
        let prev_ch := p_ch in
        p_ch ← rd pat (p + 1);
        if p_ch =? 93 then Ok (inr (Some (p + 1, matched)))
        else Ok (inl (p + 1, p_ch, prev_ch, matched))
    end.

(** [case '['], with [p] at the bracket: the place of the closing bracket and
    whether the text's character is matched; [None] is [return WM_ABORT_ALL]. *)
Definition class_match (t_ch p : Z) : res (option (Z * bool)) :=
  p_ch ← rd pat (p + 1);
  let p := p + 1 in
  let p_ch := if p_ch =? NEGATE_CLASS2 then NEGATE_CLASS else p_ch in
  let negated := p_ch =? NEGATE_CLASS in
  '(p, p_ch) ← (if negated then p_ch ← rd pat (p + 1); Ok (p + 1, p_ch) else Ok (p, p_ch));
  o ← loop (S (length pat)) (class_step t_ch) (p, p_ch, 0, false);
  Ok (match o with
      | None => None
      | Some (p, matched) => Some (p, negb (eqb matched negated || (pn && (t_ch =? 47))))
      end).

(** *** Asterisks *)

(** [while (( *++p) == '*') {}] *)
Definition skip_stars_step (p : Z) : res (Z + Z) :=
  x ← rd pat (p + 1); if x =? 42 then Ok (inl (p + 1)) else Ok (inr (p + 1)).

Definition seek_step (match_slash : bool) (p_ch text : Z) : res (Z + Z * Z) :=
  t_ch ← rd txt text;
  if tr t_ch && (match_slash || negb (t_ch =? 47)) then
    let t_ch := fold cf t_ch in
    if t_ch =? p_ch then Ok (inr (text, t_ch)) else Ok (inl (text + 1))
  else Ok (inr (text, t_ch)).

Section Step.
(** The recursive call, and the start of the pattern in this call. *)
Context (rec : Z -> Z -> res Z) (pattern : Z).

(** The place behind the asterisks and [match_slash]; [None] is [return WM_MATCH]. *)
Definition star_head (p text : Z) : res (option (Z * bool)) :=
  x ← rd pat (p + 1);
  if x =? 42 then
    let prev_p := p + 1 in
    p ← loop (S (length pat)) skip_stars_step prev_p;
    if negb pn then Ok (Some (p, true))
    else
      left ← (if prev_p - pattern <? 2 then Ok true else x ← rd pat (prev_p - 2); Ok (x =? 47));
      x ← rd pat p;
      right ← (if (x =? 0) || (x =? 47) then Ok true
               else if x =? 92 then y ← rd pat (p + 1); Ok (y =? 47) else Ok false);
      if (left : bool) && (right : bool) then
        if x =? 47 then
          r ← rec (p + 1) text;
          if r =? WM_MATCH then Ok None else Ok (Some (p, true))
        else Ok (Some (p, true))
      else Ok (Some (p, false))
  else Ok (Some (p + 1, negb pn)).

(** A round of [while (1)]. *)
Definition star_step (p : Z) (match_slash : bool) (st : Z * Z) : res (Z * Z + Z) :=
  let '(text, t_ch) := st in
  if negb (tr t_ch) then Ok (inr WM_ABORT_ALL)
  else
    x ← rd pat p;
    '(text, t_ch, lost) ←
      (if negb (is_glob_special x) then
         let p_ch := fold cf x in
         '(text, t_ch) ← loop (S (length txt)) (seek_step match_slash p_ch) text;
         Ok (text, t_ch, negb (t_ch =? p_ch))
       else Ok (text, t_ch, false));
    if lost : bool then Ok (inr (if match_slash then WM_ABORT_ALL else WM_ABORT_TO_STARSTAR))
    else
      matched ← rec p text;
      if negb (matched =? WM_NOMATCH) && (negb match_slash || negb (matched =? WM_ABORT_TO_STARSTAR))
      then Ok (inr matched)
      else if (matched =? WM_NOMATCH) && negb match_slash && (t_ch =? 47) then Ok (inr WM_ABORT_TO_STARSTAR)
      else t_ch ← rd txt (text + 1); Ok (inl (text + 1, t_ch)).

(** [case '*']: the state of the [for] loop in its next turn, or the value returned. *)
Definition star (p text t_ch : Z) : res (Z * Z + Z) :=
  o ← star_head p text;
  match o with
  | None => Ok (inr WM_MATCH)
  | Some (p, match_slash) =>
      x ← rd pat p;
      if negb (tr x) then
        if negb match_slash then
          slash ← strchr txt text 47;
          Ok (inr (match slash with Some _ => WM_ABORT_TO_STARSTAR | None => WM_MATCH end))
        else Ok (inr WM_MATCH)
      else if negb match_slash && (x =? 47) then
        slash ← strchr txt text 47;
        match slash with
        | None => Ok (inr WM_ABORT_ALL)
        | Some slash => Ok (inl (p + 1, slash + 1))
        end
      else r ← loop (S (S (length txt))) (star_step p match_slash) (text, t_ch); Ok (inr r)
  end.

(** A turn of the [for] loop. *)
Definition wild_step (st : Z * Z) : res (Z * Z + Z) :=
  let '(p, text) := st in
  p_ch ← rd pat p;
  if negb (tr p_ch) then
    c ← rd txt text; Ok (inr (if tr c then WM_NOMATCH else WM_MATCH))
  else
    t_ch ← rd txt text;
    if negb (tr t_ch) && negb (p_ch =? 42) then Ok (inr WM_ABORT_ALL)
    else
      let t_ch := fold cf t_ch in
      let p_ch := fold cf p_ch in
      if p_ch =? 92 then
        p_ch ← rd pat (p + 1);
        if negb (t_ch =? p_ch) then Ok (inr WM_NOMATCH) else Ok (inl (p + 2, text + 1))
      else if p_ch =? 63 then
        if pn && (t_ch =? 47) then Ok (inr WM_NOMATCH) else Ok (inl (p + 1, text + 1))
      else if p_ch =? 42 then star p text t_ch
      else if p_ch =? 91 then
        o ← class_match t_ch p;
        match o with
        | None => Ok (inr WM_ABORT_ALL)
        | Some (p, false) => Ok (inr WM_NOMATCH)
        | Some (p, true) => Ok (inl (p + 1, text + 1))
        end
      else if negb (t_ch =? p_ch) then Ok (inr WM_NOMATCH)
      else Ok (inl (p + 1, text + 1)).
End Step.

(** The recursion ends because every call is on a shorter pattern. *)
Fixpoint dowild (n : nat) (p text : Z) : res Z :=
  match n with
  | O => Fault OutOfFuel
  | S n => loop (S (length pat)) (wild_step (dowild n) p) (p, text)
  end.

Definition wildmatch (pattern text : Z) : res Z :=
  r ← dowild (S (length pat)) pattern text;
  Ok (if r =? WM_MATCH then WM_MATCH else WM_NOMATCH).
End Dowild.

(** Some of the tests of [t3070]: [foo/**/bar], [[[:upper:]]], an escaped bracket. *)
Example wildmatch_tests :
  wildmatch [102; 47; 42; 42; 47; 98; 0] [102; 47; 98; 0] 2 0 0 = Ok 0 /\
  wildmatch [102; 47; 42; 42; 47; 98; 0] [102; 47; 120; 47; 98; 0] 2 0 0 = Ok 0 /\
  wildmatch [102; 47; 42; 47; 98; 0] [102; 47; 98; 0] 2 0 0 = Ok 1 /\
  wildmatch [91; 91; 58; 117; 112; 112; 101; 114; 58; 93; 93; 0] [65; 0] 2 0 0 = Ok 0 /\
  wildmatch [91; 93; 45; 97; 93; 0] [94; 0] 2 0 0 = Ok 0 /\
  wildmatch [42; 97; 42; 98; 0] [120; 97; 97; 98; 0] 0 0 0 = Ok 0.
Proof. by vm_compute. Qed.

(** ** The language of patterns *)

Inductive item := ILit (c : Z) | IRange (a b : Z) | IClass (name : list Z).

(** The first item of a bracket expression [c :: l]: the item, the character
    that a range could start with behind it, and the rest.  [prev] is that
    character for the item itself; 0 is none. *)
Definition item1 (prev c : Z) (l : list Z) : option (item * Z * list Z) :=
  if c =? 92 then match l with [] => None | d :: l => Some (ILit d, d, l) end
  else if (c =? 45) && tr prev && match l with [] => false | d :: _ => negb (d =? 93) end then
    match l with
    | [] => None
    | d :: l =>
        if d =? 92 then match l with [] => None | d :: l => Some (IRange prev d, 0, l) end
        else Some (IRange prev d, 0, l)
    end
  else if (c =? 91) && match l with d :: _ => d =? 58 | [] => false end then
    let body := tail l in
    let k := span (fun c => negb (c =? 93)) body in
    match drop k body with
    | [] => None
    | _ :: r =>
        if bool_decide (last (take k body) = Some 58) then
          let name := take (k - 1) body in
          if class_test false name 0 then Some (IClass name, 0, r) else None
        else Some (ILit 91, 91, l)
    end
  else Some (ILit c, c, l).

(** The items up to the closing bracket, and the rest of the pattern; a bracket
    that comes first is an ordinary character. *)
Fixpoint items (n : nat) (prev : Z) (l : list Z) : option (list item * list Z) :=
  match n, l with
  | S n, c :: l =>
      '(it, prev, l) ← item1 prev c l;
      if hd 0 l =? 93 then Some ([it], drop 1 l)
      else '(its, r) ← items n prev l; Some (it :: its, r)
  | _, _ => None
  end.

(** A bracket expression behind its opening bracket: is it negated, its items, the rest. *)
Definition bracket (l : list Z) : option (bool * list item * list Z) :=
  let negated := match l with c :: _ => (c =? 33) || (c =? 94) | [] => false end in
  let l := if negated then drop 1 l else l in
  '(its, r) ← items (length l) 0 l; Some (negated, its, r).

Section Language.
Context (cf pn : bool).

(** [t] is a character of the text, folded. *)
Definition item_has (t : Z) (it : item) : bool :=
  match it with
  | ILit c => t =? c
  | IRange a b => ((a <=? t) && (t <=? b)) || (cf && ISLOWER t && ((a <=? toupper t) && (toupper t <=? b)))
  | IClass name => default false (class_test cf name t)
  end.

(** The first element of a pattern that does not start with an asterisk: the
    characters it stands for, whether it is a slash, and the rest of the
    pattern.  A bracket expression without an end stands for nothing. *)
Definition head (l : list Z) : option ((Z -> bool) * bool * list Z) :=
  match l with
  | [] => None
  | c :: l =>
      if c =? 42 then None
      else if c =? 92 then
        Some (match l with
              | [] => (fun _ => false, false, [])
              | d :: l => (fun t => fold cf t =? d, d =? 47, l)
              end)
      else if c =? 63 then Some (fun t => negb (pn && (t =? 47)), false, l)
      else if c =? 91 then
        Some (match bracket l with
              | None => (fun _ => false, false, [])
              | Some (negated, its, r) =>
                  (fun t => xorb negated (existsb (item_has (fold cf t)) its) && negb (pn && (t =? 47)), false, r)
              end)
      else Some (fun t => fold cf t =? fold cf c, c =? 47, l)
  end.

(** Do [k] asterisks in front of the pattern [q] match a slash?  [s] says that they
    are at the beginning of the pattern or behind a slash. *)
Definition crosses (s : bool) (k : nat) (q : list Z) : bool :=
  negb pn || (bool_decide (2 <= k)%nat && s &&
    match q with [] => true | c :: q => (c =? 47) || ((c =? 92) && match q with d :: _ => d =? 47 | [] => false end) end).

(** The text [w] matches the pattern [l], of which [s] says whether it is at
    the beginning of the whole pattern or behind a slash. *)
Inductive globs : bool -> list Z -> list Z -> Prop :=
| globs_nil s : globs s [] []
| globs_head s l P s' l' t w : head l = Some (P, s', l') -> P t = true -> globs s' l' w -> globs s l (t :: w)
| globs_stars s k q u w : (1 <= k)%nat -> hd 0 q <> 42 -> (crosses s k q = true \/ 47 ∉ u) ->
    globs false q w -> globs s (replicate k 42 ++ q) (u ++ w)
| globs_no_dir s k q w : (2 <= k)%nat -> pn = true -> s = true -> globs true q w ->
    globs s (replicate k 42 ++ 47 :: q) w.
End Language.

(** ** Characters *)

Lemma fold_is cf c k : is_byte c -> k ∈ [0; 42; 47; 63; 91; 92] -> (fold cf c =? k) = (c =? k).
Proof.
  intros Hc Hk. apply eqb_true_iff. revert c Hc. rewrite !elem_of_cons, elem_of_nil in Hk.
  destruct Hk as [->|[->|[->|[->|[->|[->|[]]]]]]]; destruct cf; by apply byte_forall.
Qed.

Lemma class_test_valid cf name t : is_Some (class_test cf name t) <-> class_test false name 0 <> None.
Proof. unfold class_test. repeat (destruct (CC_EQ name _); [split; [done|by eexists]|]). split; [by intros []|done]. Qed.

(** ** Bracket expressions *)
Lemma item1_length prev c l it prev' l' : item1 prev c l = Some (it, prev', l') -> (length l' <= length l)%nat.
Proof.
  unfold item1. destruct (c =? 92); [destruct l; [done|]; intros [= <- <- <-]; simpl; lia|].
  destruct ((c =? 45) && tr prev && _).
  { destruct l as [|d l]; [done|]. destruct (d =? 92); [destruct l; [done|]|]; intros [= <- <- <-]; simpl; lia. }
  destruct ((c =? 91) && _); [|by intros [= <- <- <-]]. destruct (drop _ (tail l)) as [|x r] eqn:E; [done|].
  destruct (bool_decide _); [|by intros [= <- <- <-]]. destruct (class_test _ _ _); [|done]. intros [= <- <- <-].
  apply (f_equal length) in E. rewrite length_drop in E. destruct l; simpl in E; simpl; lia.
Qed.

Lemma items_length n prev l its r : items n prev l = Some (its, r) -> (length r <= length l)%nat.
Proof.
  revert prev l its r. induction n as [|n IH]; intros prev l its r; [done|]. destruct l as [|c l]; [done|]. cbn [items].
  destruct (item1 prev c l) as [[[it prev'] l']|] eqn:E1; [|done]. apply item1_length in E1. cbn [mbind option_bind].
  destruct (hd 0 l' =? 93); [intros [= <- <-]; rewrite length_drop; simpl; lia|].
  destruct (items n prev' l') as [[its2 r2]|] eqn:E2; [|done]. apply IH in E2. intros [= <- <-]. simpl. lia.
Qed.

Lemma head_length cf pn l P s' l' : head cf pn l = Some (P, s', l') -> (length l' < length l)%nat.
Proof.
  destruct l as [|c l]; [done|]. unfold head. destruct (c =? 42); [done|].
  destruct (c =? 92); [destruct l; intros [= <- <- <-]; simpl; lia|]. destruct (c =? 63); [intros [= <- <- <-]; simpl; lia|].
  destruct (c =? 91); [|intros [= <- <- <-]; simpl; lia]. intros [= E].
  destruct (bracket l) as [[[ng its] r]|] eqn:Eb; injection E as <- <- <-; [|simpl; lia]. unfold bracket in Eb.
  set (l2 := if match l with c :: _ => (c =? 33) || (c =? 94) | [] => false end then drop 1 l else l) in *.
  assert (length l2 <= length l)%nat as Hl2 by (unfold l2; destruct (match l with c :: _ => _ | [] => _ end); [rewrite length_drop|]; lia).
  destruct (items (length l2) 0 l2) as [[its2 r2]|] eqn:Ei; [|done]. apply items_length in Ei. injection Eb as <- <- <-. simpl. lia.
Qed.

Lemma posix_scan a : Forall (fun c => c <> 0) a -> Forall (fun c => negb (c =? 93) = true) a ->
  Forall (fun c => tr c && negb (c =? 93) = true) a.
Proof. intros H1 H2. rewrite Forall_forall in *. intros c Hc. rewrite H2 by done. rewrite (proj2 (tr_true c)); [done|auto]. Qed.


Section Bracket.
Context (pat : list Z) (flags : Z) (Hlen : len pat < 2 ^ 31).
Let cf : bool := casefold flags.
Let pn : bool := pathname flags.

Lemma class_item_spec t p c l prev m : cstr pat p (c :: l) ->
  exists o, class_item pat flags t p c prev m = Ok o /\
    match item1 prev c l with
    | None => o = None
    | Some (it, prev', l') => exists p', o = Some (p', prev', m || item_has cf t it) /\ p <= p' /\ cstr pat (p' + 1) l'
    end.
Proof using Hlen.
  intros Hp. pose proof (cstr_tl _ _ _ _ Hp) as Hp1. unfold class_item, item1. rewrite (cstr_rd _ _ _ Hp1). cbn [mbind res_bind].
  destruct (Z.eqb_spec c 92) as [->|Hc92].
  { destruct l as [|d l]; cbn [hd]; [by eexists|]. pose proof (cstr_nz _ _ _ _ Hp1) as Hd. rewrite (proj2 (tr_true d)) by done.
    cbn [negb]. eexists. split; [done|]. exists (p + 1). split_and!; [done|lia|]. by eapply cstr_tl. }
  assert ((if (c =? 45) && tr prev then Ok (tr (hd 0 l) && negb (hd 0 l =? 93)) else Ok false) =
    Ok ((c =? 45) && tr prev && match l with [] => false | d :: _ => negb (d =? 93) end)) as ->.
  { destruct ((c =? 45) && tr prev); [|done]. destruct l as [|d l]; [done|]. cbn [hd]. pose proof (cstr_nz _ _ _ _ Hp1).
    by rewrite (proj2 (tr_true d)). }
  cbn [mbind res_bind]. destruct ((c =? 45) && tr prev && _) eqn:Erange.
  { destruct l as [|d l]; [by rewrite andb_false_r in Erange|]. cbn [hd]. pose proof (cstr_tl _ _ _ _ Hp1) as Hp2.
    assert (forall x, (if (t <=? x) && (prev <=? t) then true else if casefold flags && ISLOWER t then
        if (toupper t <=? x) && (prev <=? toupper t) then true else m else m) = m || item_has cf t (IRange prev x)) as Hm.
    { intros x. unfold item_has. fold cf. rewrite (andb_comm (t <=? x)), (andb_comm (toupper t <=? x)).
      destruct ((prev <=? t) && (t <=? x)), (cf && ISLOWER t), ((prev <=? toupper t) && (toupper t <=? x)), m; done. }
    destruct (Z.eqb_spec d 92) as [->|Hd92].
    - rewrite (cstr_rd _ _ _ Hp2). cbn [mbind res_bind]. destruct l as [|e l]; cbn [hd]; [by eexists|].
      pose proof (cstr_nz _ _ _ _ Hp2) as He. rewrite (proj2 (tr_true e)) by done. cbn [negb]. cbn zeta. rewrite Hm.
      eexists. split; [done|]. exists (p + 1 + 1). split_and!; [done|lia|]. by eapply cstr_tl.
    - cbn zeta. cbn [mbind res_bind]. rewrite Hm. eexists. split; [done|]. exists (p + 1). split_and!; [done|lia|done]. }
  assert ((if c =? 91 then Ok (hd 0 l =? 58) else Ok false) =
    Ok ((c =? 91) && match l with d :: _ => d =? 58 | [] => false end)) as ->.
  { destruct (c =? 91); [|done]. by destruct l. }
  cbn [mbind res_bind]. destruct ((c =? 91) && _) eqn:Eposix; [|eexists; split; [done|]; exists p; split_and!; [done|lia|done]].
  apply andb_true_iff in Eposix as [->%Z.eqb_eq Ed]. destruct l as [|d l]; [done|]. apply Z.eqb_eq in Ed as ->. cbn [tail].
  pose proof (cstr_tl _ _ _ _ Hp1) as Hp2. replace (p + 1 + 1) with (p + 2) in Hp2 by lia. cbn zeta.
  destruct (span_split (fun c => negb (c =? 93)) l) as (a & b & El & Ha & HaF & Hb).
  rewrite <- Ha. rewrite El in Hp2. destruct (cstr_scan (fun c => tr c && negb (c =? 93)) pat (p + 2) a b Hp2) as [-> Hb2].
  { apply posix_scan; [|done]. destruct Hp2 as (_ & Hnz & _). by apply Forall_app in Hnz as [? _]. }
  { destruct b as [|x b]; [done|]. cbn [hd]. rewrite (Hb x b eq_refl). apply andb_false_r. }
  cbn [mbind res_bind]. rewrite (cstr_rd _ _ _ Hb2). cbn [mbind res_bind].
  replace (drop (length a) l) with b by (by rewrite El, drop_app_length). replace (take (length a) l) with a by (by rewrite El, take_app_length).
  destruct b as [|x b]; cbn [hd]; [by eexists|]. pose proof (Hb x b eq_refl) as Hx. cbn beta in Hx. destruct (Z.eqb_spec x 93) as [->|]; [|done].
  cbn [tr Z.eqb negb]. replace (p + 2 + len a - (p + 2) - 1) with (len a - 1) by lia.
  destruct (decide (a = [])) as [->|(a' & y & ->)%exists_last].
  { cbn. eexists. split; [done|]. exists p. replace (p + 2 - 2) with p by lia. split_and!; [done|lia|done]. }
  assert (len (a' ++ [y]) < 2 ^ 31) as Hal.
  { pose proof (cstr_length _ _ _ Hp2) as Hc. rewrite length_app in Hc. llia. }
  rewrite last_snoc. rewrite len_app in *. change (len [y]) with 1 in *. pose proof (len_nonneg a'). rewrite to_int_small by lia.
  destruct (Z.ltb_spec (len a' + 1 - 1) 0); [lia|]. rewrite <- app_assoc in Hp2. pose proof (cstr_app _ _ _ _ Hp2) as Hy.
  replace (p + 2 + (len a' + 1) - 1) with (p + 2 + len a') by lia. rewrite (cstr_rd _ _ _ Hy). cbn [mbind res_bind app hd].
  destruct (Z.eqb_spec y 58) as [->|Hn]; cbn [negb].
  - rewrite bool_decide_eq_true_2 by done. replace (len a' + 1 - 1) with (len a') by lia.
    destruct Hp2 as (Hi & _ & rest & Hd). rewrite <- app_assoc in Hd. rewrite (rd_slice_at _ _ _ _ _ Hi Hd). cbn [mbind res_bind].
    replace (take (length (a' ++ [58]) - 1) l) with a'.
    2:{ rewrite El, length_app, <- app_assoc. rewrite take_app_length'; [done|simpl; lia]. }
    change (casefold flags) with cf.
    destruct (class_test cf a' t) as [v|] eqn:E1; destruct (class_test false a' 0) as [v0|] eqn:E2; cbn [item_has].
    + eexists. split; [done|]. eexists. rewrite E1. split_and!; [done|lia|]. by eapply cstr_tl.
    + destruct (class_test_valid cf a' t) as [Hv _]. by destruct Hv.
    + destruct (class_test_valid cf a' t) as [_ Hv]. destruct Hv as [? ?]; [by rewrite E2|congruence].
    + by eexists.
  - rewrite bool_decide_eq_false_2 by congruence. eexists. split; [done|]. exists p. replace (p + 2 - 2) with p by lia. split_and!; [done|lia|done].
Qed.

Lemma class_loop t : forall n l prev p m fuel, cstr pat p l -> (length l <= n)%nat -> (length l < fuel)%nat ->
  exists o, loop fuel (class_step pat flags t) (p, hd 0 l, prev, m) = Ok o /\
    match items n prev l with
    | None => o = None
    | Some (its, r) => exists p', o = Some (p', m || existsb (item_has cf t) its) /\ p < p' /\ rd pat p' = Ok 93 /\ cstr pat (p' + 1) r
    end.
Proof using Hlen.
  induction n as [|n IH]; intros l prev p m fuel Hp Hn Hf; (destruct fuel as [|fuel]; [lia|]); rewrite loop_S; unfold class_step at 1.
  - destruct l; [|simpl in Hn; lia]. by eexists.
  - destruct l as [|c l]; [by eexists|]. cbn [hd items]. rewrite (proj2 (tr_true c)) by (by eapply cstr_nz). cbn [negb].
    destruct (class_item_spec t p c l prev m Hp) as (o & -> & Ho). cbn [mbind res_bind].
    destruct (item1 prev c l) as [[[it prev'] l']|] eqn:E1; cbn [mbind option_bind]; [|subst o; by eexists].
    assert (length l' <= length l)%nat as Hl' by (by eapply item1_length).
    destruct Ho as (p' & -> & Hpp & Hp'). rewrite (cstr_rd _ _ _ Hp'). cbn [mbind res_bind].
    destruct (Z.eqb_spec (hd 0 l') 93) as [Hd|Hd].
    + eexists. split; [done|]. destruct l' as [|x l']; [done|]. cbn [hd] in Hd. subst x. exists (p' + 1).
      cbn [existsb drop]. rewrite orb_false_r. split_and!; [done|lia|by apply (cstr_rd _ _ _ Hp')|by eapply cstr_tl].
    + simpl in Hn, Hf. destruct (IH l' prev' (p' + 1) (m || item_has cf t it) fuel Hp') as (o & -> & Ho); [lia|lia|].
      eexists. split; [done|]. destruct (items n prev' l') as [[its r]|]; cbn [mbind option_bind]; [|done].
      destruct Ho as (p2 & -> & Hpp2 & Hp2). exists p2. cbn [existsb]. rewrite orb_assoc. split_and!; [done|lia|apply Hp2..].
Qed.

Lemma class_match_spec t p l : cstr pat p (91 :: l) -> is_byte t ->
  exists o, class_match pat flags (fold cf t) p = Ok o /\
    match bracket l with
    | None => o = None
    | Some (negated, its, r) => exists p',
        o = Some (p', xorb negated (existsb (item_has cf (fold cf t)) its) && negb (pn && (t =? 47))) /\
        p < p' /\ rd pat p' = Ok 93 /\ cstr pat (p' + 1) r
    end.
Proof using Hlen.
  intros Hp Ht. pose proof (cstr_tl _ _ _ _ Hp) as Hp1. unfold class_match, bracket. rewrite (cstr_rd _ _ _ Hp1). cbn [mbind res_bind].
  assert (exists q l2, (if (if hd 0 l =? NEGATE_CLASS2 then NEGATE_CLASS else hd 0 l) =? NEGATE_CLASS
      then p_ch ← rd pat (p + 1 + 1); Ok (p + 1 + 1, p_ch) else Ok (p + 1, if hd 0 l =? NEGATE_CLASS2 then NEGATE_CLASS else hd 0 l)) = Ok (q, hd 0 l2) /\
    p < q /\ cstr pat q l2 /\ l2 = (if match l with c :: _ => (c =? 33) || (c =? 94) | [] => false end then drop 1 l else l) /\
    ((if hd 0 l =? NEGATE_CLASS2 then NEGATE_CLASS else hd 0 l) =? NEGATE_CLASS) = match l with c :: _ => (c =? 33) || (c =? 94) | [] => false end)
    as (q & l2 & E & Hpq & Hq & El2 & En).
  { unfold NEGATE_CLASS, NEGATE_CLASS2. destruct l as [|c l]; cbn [hd]; [eexists _, []; split_and!; [done|lia|done..]|]. pose proof (cstr_tl _ _ _ _ Hp1) as Hp2.
    destruct (Z.eqb_spec c 94) as [->|].
    - rewrite (cstr_rd _ _ _ Hp2). eexists _, l. split_and!; [done|lia|done..].
    - destruct (Z.eqb_spec c 33) as [->|]; [rewrite (cstr_rd _ _ _ Hp2); eexists _, l|eexists _, (c :: l)]; (split_and!; [done|lia|done..]). }
  cbn zeta. rewrite E, <- El2, En. cbn [mbind res_bind].
  destruct (class_loop (fold cf t) (length l2) l2 0 q false (S (length pat)) Hq) as (o & -> & Ho);
    [done|pose proof (cstr_length _ _ _ Hq); lia|]. cbn [mbind res_bind].
  eexists. split; [done|]. destruct (items (length l2) 0 l2) as [[its r]|]; cbn [mbind option_bind]; [|by subst].
  destruct Ho as (p' & -> & Hpp & Hp'). exists p'. split_and!; [|lia|apply Hp'..]. rewrite (fold_is cf t 47) by (done || set_solver). cbn [orb]. do 2 f_equal.
  fold pn. destruct (existsb _ its), (match l with c :: _ => _ | [] => _ end), (pn && (t =? 47)); done.
Qed.
End Bracket.
