(* ===== verification/Glob.v ===== *)
(** * Shell patterns: the search of [dowild] decides the language

    What the internal return values mean, and that they are right.
    [WM_ABORT_ALL] says that no later start in the text can match either,
    [WM_ABORT_TO_STARSTAR] that no start before the next slash can.  With that,
    [wildmatch] returns [WM_MATCH] exactly on the texts of the pattern. *)

From stdpp Require Import prelude numbers list.
From S2P Require Import Prelude CString Wildmatch.

Section Meaning.
Context (cf pn : bool).
#[local] Abbreviation globs := (globs cf pn).
#[local] Abbreviation head := (head cf pn).
#[local] Abbreviation crosses := (crosses pn).

(** ** Inversion *)

Lemma head_star k q : (1 <= k)%nat -> head (replicate k 42 ++ q) = None.
Proof. intros Hk. by destruct k; [lia|]. Qed.

Lemma stars_inj k q k' q' : hd 0 q <> 42 -> hd 0 q' <> 42 ->
  replicate k 42 ++ q = replicate k' 42 ++ q' -> k = k' /\ q = q'.
Proof.
  intros Hq Hq'. revert k'. induction k as [|k IH]; intros [|k'] E; cbn [replicate app] in E; [by subst|by subst q|by subst q'|].
  injection E as E. by destruct (IH _ E) as [-> ->].
Qed.

Lemma globs_inv_nil s w : globs s [] w -> w = [].
Proof. inversion 1 as [| |s0 k q u v Hk _ _ _ E|s0 k q v Hk _ _ _ E]; try done; by destruct k; [lia|]. Qed.

Lemma globs_inv_head s l P s' l' w : head l = Some (P, s', l') -> globs s l w ->
  exists t w', w = t :: w' /\ P t = true /\ globs s' l' w'.
Proof.
  intros Hh Hg. destruct Hg as [s|s l P2 s2 l2 t w Hh2 HP Hg|s k q u w Hk _ _ _|s k q w Hk _ _ _].
  - done.
  - rewrite Hh in Hh2. injection Hh2 as <- <- <-. by exists t, w.
  - by rewrite head_star in Hh.
  - rewrite head_star in Hh by lia. done.
Qed.

Lemma globs_inv_stars s k q w : (1 <= k)%nat -> hd 0 q <> 42 -> globs s (replicate k 42 ++ q) w ->
  (exists u v, w = u ++ v /\ (crosses s k q = true \/ 47 ∉ u) /\ globs false q v) \/
  (exists q', q = 47 :: q' /\ (2 <= k)%nat /\ pn = true /\ s = true /\ globs true q' w).
Proof.
  intros Hk Hq Hg. remember (replicate k 42 ++ q) as l eqn:El. destruct Hg as [s|s l P2 s2 l2 t w Hh2 HP Hg|s k2 q2 u w Hk2 Hq2 Hc Hg|s k2 q2 w Hk2 Hp Hs Hg].
  - by destruct k; [lia|].
  - subst l. by rewrite head_star in Hh2.
  - apply stars_inj in El as [-> ->]; [|done..]. left. by exists u, w.
  - apply stars_inj in El as [<- <-]; [|done..]. right. by exists q2.
Qed.

Lemma globs_context s s2 l w : hd 0 l <> 42 -> globs s l w -> globs s2 l w.
Proof.
  intros Hl Hg. destruct Hg as [s|s l P2 s2' l2 t w Hh2 HP Hg|s k2 q2 u w Hk2 Hq2 Hc Hg|s k2 q2 w Hk2 Hp Hs Hg].
  - constructor.
  - by econstructor.
  - by destruct k2; [lia|].
  - by destruct k2; [lia|].
Qed.

(** Only a slash stands for a slash, if asterisks and sets do not. *)
Lemma head_slash l P s' l' t : head l = Some (P, s', l') -> is_bytes l -> is_byte t -> P t = true ->
  (s' = true -> t = 47) /\ (pn = true -> t = 47 -> s' = true).
Proof.
  intros Hh Hl Ht HP. assert (forall c, is_byte c -> fold cf c = 47 <-> c = 47) as Hf.
  { intros c Hc. pose proof (fold_is cf c 47 Hc ltac:(set_solver)) as E. rewrite <- (Z.eqb_eq (fold cf c)), <- (Z.eqb_eq c), E. done. }
  destruct l as [|c l]; [done|]. apply Forall_cons in Hl as [Hc Hl]. unfold Wildmatch.head in Hh.
  destruct (c =? 42); [done|]. destruct (c =? 92).
  - destruct l as [|d l]; injection Hh as <- <- <-; [done|]. apply Z.eqb_eq in HP. split; [|intros _ ->].
    + intros ->%Z.eqb_eq. by apply Hf.
    + rewrite <- HP. apply Z.eqb_eq. by apply Hf.
  - destruct (c =? 63); [injection Hh as <- <- <-; split; [done|]; intros -> ->; done|]. destruct (c =? 91).
    + injection Hh as Hh. destruct (bracket l) as [[[ng its] r]|]; injection Hh as <- <- <-; [|done].
      split; [done|]. intros -> ->. by rewrite andb_false_r in HP.
    + injection Hh as <- <- <-. apply Z.eqb_eq in HP. split; [intros ->%Z.eqb_eq|intros _ ->].
      * apply Hf; [done|]. rewrite HP. by apply Hf.
      * apply Z.eqb_eq. apply Hf; [done|]. rewrite <- HP. by apply Hf.
Qed.

(** ** What a result says *)

(** No later start matches; behind a slash, only starts behind a slash count. *)
Definition dead_all (s : bool) (l w : list Z) : Prop :=
  forall u v, w = u ++ v -> (s = true -> u = [] \/ last u = Some 47) -> ~ globs s l v.

(** No start before the next slash matches. *)
Definition dead_seg (s : bool) (l w : list Z) : Prop :=
  forall u v, w = u ++ v -> 47 ∉ u -> (s = true -> u = []) -> ~ globs s l v.

Definition says (s : bool) (l w : list Z) (r : Z) : Prop :=
  (r = WM_MATCH /\ globs s l w) \/ (r = WM_NOMATCH /\ ~ globs s l w) \/
  (r = WM_ABORT_ALL /\ dead_all s l w) \/ (r = WM_ABORT_TO_STARSTAR /\ pn = true /\ dead_seg s l w).

Lemma says_match s l w : globs s l w -> says s l w WM_MATCH.
Proof. by left. Qed.
Lemma says_nomatch s l w : ~ globs s l w -> says s l w WM_NOMATCH.
Proof. by right; left. Qed.
Lemma says_all s l w : dead_all s l w -> says s l w WM_ABORT_ALL.
Proof. by right; right; left. Qed.
Lemma says_seg s l w : pn = true -> dead_seg s l w -> says s l w WM_ABORT_TO_STARSTAR.
Proof. by right; right; right. Qed.

Lemma dead_all_no s l w : dead_all s l w -> ~ globs s l w.
Proof. intros H. apply (H [] w); [done|]. by left. Qed.
Lemma dead_seg_no s l w : dead_seg s l w -> ~ globs s l w.
Proof. intros H. apply (H [] w); [done|apply not_elem_of_nil|done]. Qed.

(** Anything but a match excludes one. *)
Lemma says_iff s l w r : says s l w r -> r = WM_MATCH <-> globs s l w.
Proof.
  intros [[-> H]|[[-> H]|[[-> H]|[-> [_ H]]]]]; (split; [done|]); try done; intros Hg.
  - by apply dead_all_no in Hg.
  - by apply dead_seg_no in Hg.
Qed.

(** ** One character *)

Lemma says_step s l P s' l' t w r : head l = Some (P, s', l') -> is_bytes l -> is_bytes (t :: w) -> P t = true ->
  says s' l' w r -> says s l (t :: w) r.
Proof.
  intros Hh Hl Hw HP Hs. destruct Hs as [[-> H]|[[-> H]|[[-> H]|[-> [Hpn H]]]]].
  - apply says_match. by econstructor.
  - apply says_nomatch. intros Hg. apply (globs_inv_head _ _ _ _ _ _ Hh) in Hg as (t2 & w2 & [= <- <-] & _ & Hg). done.
  - apply says_all. intros u v E Hu Hg. apply (globs_inv_head _ _ _ _ _ _ Hh) in Hg as (t2 & v' & -> & HP2 & Hg).
    destruct u as [|x u]; [injection E as <- <-; by apply (H [] w); [|by left|]|]. injection E as <- ->.
    apply (H (u ++ [t2]) v'); [by rewrite <- app_assoc| |done]. intros Hs'. right. rewrite last_snoc. f_equal.
    apply (head_slash _ _ _ _ t2 Hh); [done| |done|done]. rewrite Forall_forall in Hw. apply Hw. set_solver.
  - apply says_seg; [done|]. intros u v E Hu Hs Hg. apply (globs_inv_head _ _ _ _ _ _ Hh) in Hg as (t2 & v' & -> & HP2 & Hg).
    destruct u as [|x u]; [injection E as <- <-; by apply (dead_seg_no _ _ _ H)|]. injection E as <- ->.
    assert (is_byte t2 /\ is_byte t) as [Ht2 Ht] by (rewrite Forall_forall in Hw; split; apply Hw; set_solver).
    destruct (head_slash _ _ _ _ t2 Hh) as [Ha Hb]; try done. destruct (head_slash _ _ _ _ t Hh) as [Ha' _]; try done.
    assert (s' <> true) as Hns by (intros Hs'; specialize (Ha' Hs'); subst t; set_solver).
    apply (H (u ++ [t2]) v'); [by rewrite <- app_assoc| |done|done]. intros [|Hin]%elem_of_app; [set_solver|].
    apply list_elem_of_singleton in Hin. auto.
Qed.

Lemma says_mismatch s l P s' l' t w : head l = Some (P, s', l') -> P t = false -> says s l (t :: w) WM_NOMATCH.
Proof.
  intros Hh HP. apply says_nomatch. intros Hg. apply (globs_inv_head _ _ _ _ _ _ Hh) in Hg as (t2 & w2 & [= <- <-] & HP2 & _). congruence.
Qed.

Lemma says_end s l P s' l' : head l = Some (P, s', l') -> says s l [] WM_ABORT_ALL.
Proof.
  intros Hh. apply says_all. intros u v E _ Hg. apply (globs_inv_head _ _ _ _ _ _ Hh) in Hg as (t2 & w2 & -> & _ & _). by destruct u.
Qed.

Lemma says_empty_set s l P s' l' w : head l = Some (P, s', l') -> (forall t, P t = false) -> says s l w WM_ABORT_ALL.
Proof.
  intros Hh HP. apply says_all. intros u v E _ Hg. apply (globs_inv_head _ _ _ _ _ _ Hh) in Hg as (t2 & w2 & -> & HP2 & _).
  by rewrite HP in HP2.
Qed.

(** ** Asterisks *)

Lemma crosses_no_dir k q : (2 <= k)%nat -> crosses true k (47 :: q) = true.
Proof. intros Hk. unfold Wildmatch.crosses. rewrite bool_decide_eq_true_2 by done. apply orb_true_r. Qed.

Lemma not_crosses s k q : crosses s k q = false -> pn = true.
Proof. unfold Wildmatch.crosses. by destruct pn. Qed.

Section Stars.
Context (s : bool) (k : nat) (q : list Z) (Hk : (1 <= k)%nat) (Hq : hd 0 q <> 42).

(** A match of asterisks that do not cross slashes. *)
Lemma stars_within w : crosses s k q = false -> globs s (replicate k 42 ++ q) w ->
  exists u v, w = u ++ v /\ 47 ∉ u /\ globs false q v.
Proof using Hk Hq.
  intros Hc Hg. destruct (globs_inv_stars _ _ _ _ Hk Hq Hg) as [(u & v & -> & [Hc'|Hu] & Hg')|(q' & Eq & Hk2 & _ & Es & _)].
  - congruence.
  - by exists u, v.
  - by rewrite Eq, Es, crosses_no_dir in Hc.
Qed.

(** The starts before [x] have been tried. *)
Definition tried (y x : list Z) : Prop := forall y1 y2, y = y1 ++ y2 -> y2 <> [] -> ~ globs false q (y2 ++ x).

Lemma tried_nil x : tried [] x.
Proof. intros y1 y2 E Hn. by destruct y1, y2. Qed.

Lemma tried_snoc y t x : tried y (t :: x) -> ~ globs false q (t :: x) -> tried (y ++ [t]) x.
Proof.
  intros Hy Ht y1 y2 E Hn. destruct (exists_last Hn) as (y2' & t2 & ->). rewrite app_assoc in E. apply app_inj_tail in E as [-> <-].
  rewrite <- app_assoc. destruct y2' as [|z y2']; [done|]. by apply (Hy y1).
Qed.

Lemma no_start y x : tried y x -> dead_all false q x -> forall u v, y ++ x = u ++ v -> ~ globs false q v.
Proof.
  intros Hy Hx u v E. apply app_eq_app in E as (z & [[-> ->]|[-> ->]]).
  - destruct z as [|c z]; [by apply dead_all_no|]. by apply (Hy u).
  - by apply (Hx z).
Qed.

Lemma stars_dead y x : tried y x -> dead_all false q x ->
  (forall q', q = 47 :: q' -> (2 <= k)%nat -> pn = true -> s = true -> ~ globs true q' (y ++ x)) ->
  dead_all s (replicate k 42 ++ q) (y ++ x).
Proof using Hk Hq.
  intros Hy Hx Hz u v E Hu [(a & b & -> & _ & Hg)|(q' & Eq & Hk2 & Hpn & Es & Hg)]%globs_inv_stars; try done.
  - rewrite app_assoc in E. by apply (no_start _ _ Hy Hx _ _ E).
  - destruct (Hu Es) as [->|Hl].
    + cbn [app] in E. rewrite <- E in Hg. by apply (Hz q').
    + apply last_Some in Hl as [u' ->]. rewrite <- app_assoc in E. apply (no_start _ _ Hy Hx _ _ E). rewrite Eq.
      eapply globs_head; [reflexivity| |exact Hg]. by apply Z.eqb_eq.
Qed.

Lemma stars_dead_seg y x : crosses s k q = false -> 47 ∉ y -> tried y x -> dead_seg false q x ->
  dead_seg s (replicate k 42 ++ q) (y ++ x).
Proof using Hk Hq.
  intros Hc Hy47 Hy Hx u v E Hu _ (a & b & -> & Ha & Hg)%stars_within; [|done].
  rewrite app_assoc in E. apply app_eq_app in E as (z & [[-> ->]|[E2 ->]]).
  - destruct z as [|c z]; [by apply dead_seg_no in Hg|]. by apply (Hy (u ++ a) (c :: z)).
  - apply (Hx z b); [done| |done|done]. assert (47 ∉ u ++ a) as Hua by set_solver. rewrite E2 in Hua. set_solver.
Qed.

Lemma stars_match y x : (crosses s k q = true \/ 47 ∉ y) -> globs false q x -> globs s (replicate k 42 ++ q) (y ++ x).
Proof using Hk Hq. intros Hc Hg. by constructor. Qed.
End Stars.

(** Asterisks at the end. *)
Lemma says_last_stars s k w : (1 <= k)%nat ->
  says s (replicate k 42) w (if crosses s k [] then WM_MATCH else if decide (47 ∈ w) then WM_ABORT_TO_STARSTAR else WM_MATCH).
Proof.
  intros Hk. rewrite <- (app_nil_r (replicate k 42)). pose proof (globs_nil cf pn false) as Hn.
  destruct (crosses s k []) eqn:Ec; [|destruct (decide (47 ∈ w)) as [Hin|Hin]].
  - apply says_match. rewrite <- (app_nil_r w). apply stars_match; [done|done|by left|done].
  - apply says_seg; [by eapply not_crosses|]. intros u v -> Hu _ (a & b & -> & Ha & Hg)%stars_within; try done.
    apply globs_inv_nil in Hg as ->. set_solver.
  - apply says_match. rewrite <- (app_nil_r w). apply stars_match; [done|done|by right|done].
Qed.

Lemma slash_only t : is_byte t -> (fold cf t =? fold cf 47) = true -> t = 47.
Proof.
  intros Ht. assert (fold cf 47 = 47) as -> by (by destruct cf). rewrite fold_is by (done || set_solver). by rewrite Z.eqb_eq.
Qed.

Lemma dir_inv s k q w : (1 <= k)%nat -> crosses s k (47 :: q) = false -> is_bytes w -> globs s (replicate k 42 ++ 47 :: q) w ->
  exists a w', w = a ++ 47 :: w' /\ 47 ∉ a /\ globs true q w'.
Proof.
  intros Hk Hc Hw Hg. apply stars_within in Hg as (u & v2 & -> & Hu & Hg); try done.
  apply (globs_inv_head _ _ (fun t => fold cf t =? fold cf 47) true q) in Hg as (t & v' & -> & Ht & Hg); [|done].
  apply Forall_app in Hw as [_ Hw]. apply Forall_cons in Hw as [Hb _]. apply slash_only in Ht as ->; [|done]. by exists u, v'.
Qed.

(** The text before the first slash is unique. *)
Lemma first_slash (a b w v : list Z) : a ++ 47 :: w = b ++ 47 :: v -> 47 ∉ a -> 47 ∉ b -> a = b /\ w = v.
Proof.
  intros E Ha Hb. apply app_eq_app in E as (z & [[-> Ez]|[-> Ez]]); destruct z as [|x z]; cbn [app] in Ez;
    try (rewrite app_nil_r; by injection Ez as ->); injection Ez as <- _; set_solver.
Qed.

(** Asterisks within a directory, in front of a slash. *)
Lemma says_dir s k q a w r : (1 <= k)%nat -> is_bytes (a ++ 47 :: w) -> crosses s k (47 :: q) = false -> 47 ∉ a ->
  says true q w r -> says s (replicate k 42 ++ 47 :: q) (a ++ 47 :: w) r.
Proof.
  intros Hk Hb Hc Ha Hs. pose proof (not_crosses _ _ _ Hc) as Hpn.
  assert (forall u v, a ++ 47 :: w = u ++ v -> is_bytes v) as Hv.
  { intros u v E. rewrite E in Hb. by apply Forall_app in Hb as [_ ?]. }
  destruct Hs as [[-> H]|[[-> H]|[[-> H]|[-> [_ H]]]]].
  - apply says_match, stars_match; [done|done|by right|]. eapply globs_head; [reflexivity| |exact H]. by apply Z.eqb_eq.
  - apply says_nomatch. intros (b & v & E & Hb' & Hg)%dir_inv; try done. by apply first_slash in E as [-> ->].
  - apply says_all. intros u v E _ Hg. pose proof (Hv _ _ E) as Hbv. apply dir_inv in Hg as (b & v' & -> & Hb' & Hg); try done.
    rewrite app_assoc in E. apply app_eq_app in E as (z & [[-> Ez]|[Eub Ez]]).
    + destruct z as [|x z]; cbn [app] in Ez; [injection Ez as ->; by apply dead_all_no in Hg|]. injection Ez as <- Ez.
      exfalso. set_solver.
    + destruct z as [|x z]; cbn [app] in Ez; [injection Ez as ->; by apply dead_all_no in Hg|]. injection Ez as <- Ez.
      subst w. apply (H (z ++ [47]) v'); [by rewrite <- app_assoc| |done]. intros _. right. by rewrite last_snoc.
  - apply says_seg; [done|]. intros u v E Hu _ Hg. pose proof (Hv _ _ E) as Hbv. apply dir_inv in Hg as (b & v' & -> & Hb' & Hg); try done.
    rewrite app_assoc in E. apply first_slash in E as [_ ->]; [by apply dead_seg_no in Hg|done|set_solver].
Qed.

Lemma says_no_dir s k q w : (1 <= k)%nat -> is_bytes w -> crosses s k (47 :: q) = false -> 47 ∉ w ->
  says s (replicate k 42 ++ 47 :: q) w WM_ABORT_ALL.
Proof.
  intros Hk Hb Hc Hw. apply says_all. intros u v -> _ Hg. apply Forall_app in Hb as [_ Hb].
  apply dir_inv in Hg as (a & w' & -> & _ & _); try done. set_solver.
Qed.
End Meaning.

(** ** The code *)

Section Code.
Context (pat txt : list Z) (flags : Z).
Context (Hlen : len pat < 2 ^ 31) (Hpat : is_bytes pat) (Htxt : is_bytes txt).
Let cf : bool := casefold flags.
Let pn : bool := pathname flags.
#[local] Abbreviation says := (says cf pn).
#[local] Abbreviation globs := (globs cf pn).

Lemma cstr_bytes mem p l : is_bytes mem -> cstr mem p l -> is_bytes l.
Proof using.
  intros Hm (_ & _ & rest & Hd). apply (Forall_drop _ (Z.to_nat p)) in Hm. rewrite Hd in Hm. by apply Forall_app in Hm as [? _].
Qed.

(** The first [c] of a string. *)
Lemma strchr_spec mem i w c : cstr mem i w -> c <> 0 ->
  (exists a b, w = a ++ c :: b /\ c ∉ a /\ strchr mem i c = Ok (Some (i + len a)) /\ cstr mem (i + len a + 1) b) \/
  (c ∉ w /\ strchr mem i c = Ok None).
Proof using.
  intros Hw Hc. destruct (span_split (fun x => negb (x =? c)) w) as (a & b & -> & _ & Ha & Hb). unfold strchr.
  assert (c ∉ a) as Hna.
  { intros Hin. rewrite Forall_forall in Ha. specialize (Ha _ Hin). cbn beta in Ha. by rewrite Z.eqb_refl in Ha. }
  destruct (cstr_scan (fun x => tr x && negb (x =? c)) mem i a b Hw) as [-> Hb2].
  { destruct Hw as (_ & Hnz & _). apply Forall_app in Hnz as [Hnz _]. rewrite Forall_forall in Hnz, Ha |- *. intros x Hx.
    rewrite (proj2 (tr_true x)) by auto. by apply Ha. }
  { destruct b as [|x b]; [done|]. cbn [hd]. rewrite (Hb x b eq_refl). apply andb_false_r. }
  cbn [mbind res_bind]. rewrite (cstr_rd _ _ _ Hb2). cbn [mbind res_bind]. destruct b as [|x b]; cbn [hd].
  - right. rewrite app_nil_r. destruct (Z.eqb_spec 0 c); [by subst|done].
  - left. specialize (Hb x b eq_refl). cbn beta in Hb. destruct (Z.eqb_spec x c) as [->|]; [|done].
    exists a, b. split_and!; try done. by eapply cstr_tl.
Qed.

Lemma skip_stars_run k q : hd 0 q <> 42 -> forall fuel p, cstr pat (p + 1) (replicate k 42 ++ q) -> (k < fuel)%nat ->
  loop fuel (skip_stars_step pat) p = Ok (p + 1 + Z.of_nat k) /\ cstr pat (p + 1 + Z.of_nat k) q.
Proof using.
  intros Hq. induction k as [|k IH]; intros fuel p Hp Hf; (destruct fuel as [|fuel]; [lia|]); rewrite loop_S; unfold skip_stars_step at 1;
    rewrite (cstr_rd _ _ _ Hp); cbn [mbind res_bind replicate app hd].
  - destruct (Z.eqb_spec (hd 0 q) 42); [done|]. cbn [replicate app] in Hp. by rewrite Z.add_0_r.
  - cbn [replicate app] in Hp. apply cstr_tl in Hp. rewrite Z.eqb_refl. destruct (IH fuel (p + 1) Hp) as [-> ?]; [lia|].
    replace (p + 1 + Z.of_nat (S k)) with (p + 1 + 1 + Z.of_nat k) by lia. done.
Qed.

(** The recursive call. *)
Context (rec : Z -> Z -> res Z) (N : nat).
Hypothesis Hrec : forall s p l text w, cstr pat p l -> cstr txt text w -> (hd 0 l = 42 -> s = true) -> (length l < N)%nat ->
  exists r, rec p text = Ok r /\ says s l w r.

(** What is in front of [p] when an asterisk is there. *)
Definition before_star (pattern p : Z) (s : bool) : Prop :=
  (p - pattern < 1 /\ s = true) \/ (1 <= p - pattern /\ exists x, rd pat (p - 1) = Ok x /\ s = (x =? 47)).

Lemma star_head_spec pattern s k q p text w : (1 <= k)%nat -> hd 0 q <> 42 -> cstr pat p (replicate k 42 ++ q) -> cstr txt text w ->
  before_star pattern p s -> (k + length q <= N)%nat ->
  exists o, star_head pat flags rec pattern p text = Ok o /\
    match o with
    | None => globs s (replicate k 42 ++ q) w
    | Some (p', ms) => cstr pat p' q /\ p < p' /\ ms = crosses pn s k q /\
        (forall q', q = 47 :: q' -> (2 <= k)%nat -> pn = true -> s = true -> ~ globs true q' w)
    end.
Proof using Hrec.
  intros Hk Hq Hp Hw Hbef HN. destruct k as [|k]; [lia|]. pose proof Hp as Hp1. cbn [replicate app] in Hp1. apply cstr_tl in Hp1.
  unfold star_head. rewrite (cstr_rd _ _ _ Hp1). cbn [mbind res_bind]. destruct k as [|k]; cbn [replicate app hd].
  { destruct (Z.eqb_spec (hd 0 q) 42); [done|]. eexists. split; [done|]. cbn zeta. split_and!; [done|lia| |lia].
    unfold crosses. fold pn. rewrite bool_decide_eq_false_2 by lia. cbn [andb]. by rewrite orb_false_r. }
  cbn [replicate app] in Hp1. apply cstr_tl in Hp1. cbn [Z.eqb Pos.eqb].
  destruct (skip_stars_run k q Hq (S (length pat)) (p + 1) Hp1) as [-> Hq2].
  { pose proof (cstr_length _ _ _ Hp1) as Hl. rewrite length_app, length_replicate in Hl. lia. }
  cbn [mbind res_bind]. fold pn. destruct pn eqn:Epn; cbn [negb].
  2:{ eexists. split; [done|]. split_and!; [done|lia|done|done]. }
  assert ((if p + 1 - pattern <? 2 then Ok true else x ← rd pat (p + 1 - 2); Ok (x =? 47)) = Ok s) as ->.
  { destruct Hbef as [[Hlt ->]|[Hge (x & Hx & ->)]].
    - destruct (Z.ltb_spec (p + 1 - pattern) 2); [done|lia].
    - destruct (Z.ltb_spec (p + 1 - pattern) 2); [lia|]. replace (p + 1 - 2) with (p - 1) by lia. by rewrite Hx. }
  cbn [mbind res_bind]. rewrite (cstr_rd _ _ _ Hq2). cbn [mbind res_bind].
  set (rt := match q with [] => true | c :: q => (c =? 47) || ((c =? 92) && match q with d :: _ => d =? 47 | [] => false end) end).
  assert ((if (hd 0 q =? 0) || (hd 0 q =? 47) then Ok true else if hd 0 q =? 92 then
     y ← rd pat (p + 1 + 1 + Z.of_nat k + 1); Ok (y =? 47) else Ok false) = Ok rt) as ->.
  { unfold rt. destruct q as [|c q]; [done|]. cbn [hd]. destruct (Z.eqb_spec c 0); [by apply cstr_nz in Hq2|]. cbn [orb].
    destruct (c =? 47); [done|]. cbn [orb]. destruct (c =? 92); [|done]. cbn [andb]. rewrite (cstr_rd _ _ _ (cstr_tl _ _ _ _ Hq2)). by destruct q. }
  cbn [mbind res_bind]. assert (crosses true s (S (S k)) q = s && rt) as Hcr.
  { unfold crosses. rewrite bool_decide_eq_true_2 by lia. done. }
  destruct (s && rt) eqn:Esr.
  - apply andb_true_iff in Esr as [-> Hrt]. destruct (Z.eqb_spec (hd 0 q) 47) as [E47|E47].
    + destruct q as [|c q]; [done|]. cbn [hd] in E47. subst c. pose proof (cstr_tl _ _ _ _ Hq2) as Hq3.
      destruct (Hrec true _ q text w Hq3 Hw) as (r & -> & Hs); [done|simpl in HN; lia|].
      cbn [mbind res_bind]. apply says_iff in Hs. destruct (Z.eqb_spec r WM_MATCH) as [->|Hr].
      * eexists. split; [done|]. apply (globs_no_dir cf true true (S (S k)) q w); [lia|done|done|by apply Hs].
      * eexists. split; [done|]. split_and!; [done|lia|done|]. intros q' [= <-] _ _ _ Hg. by apply Hr, Hs.
    + eexists. split; [done|]. split_and!; [done|lia|done|]. by intros q' ->.
  - eexists. split; [done|]. split_and!; [done|lia|done|]. intros q' -> _ _ ->. cbn in Esr. done.
Qed.

Lemma glob_special_is c : is_byte c -> is_glob_special c = bool_decide (c ∈ [42; 63; 91; 92]).
Proof using. intros Hc. apply eqb_true_iff. revert c Hc. by apply byte_forall. Qed.

Lemma head_literal c l : is_byte c -> is_glob_special c = false -> head cf pn (c :: l) = Some (fun t => fold cf t =? fold cf c, c =? 47, l).
Proof using.
  intros Hc. rewrite glob_special_is by done. intros Hn%bool_decide_eq_false. unfold head. rewrite !not_elem_of_cons in Hn.
  destruct Hn as (H1 & H2 & H3 & H4 & _). by rewrite (proj2 (Z.eqb_neq c _) H1), (proj2 (Z.eqb_neq c _) H4), (proj2 (Z.eqb_neq c _) H2), (proj2 (Z.eqb_neq c _) H3).
Qed.

Lemma head_some c l : c <> 42 -> exists P s' l', head cf pn (c :: l) = Some (P, s', l').
Proof using.
  intros Hc%Z.eqb_neq. unfold head. rewrite Hc. repeat case_match; by eexists _, _, _.
Qed.

Lemma fold_nz c : is_byte c -> c <> 0 -> fold cf c <> 0.
Proof using. intros Hc Hn. apply Z.eqb_neq. rewrite fold_is by (done || (clear; set_solver)). by apply Z.eqb_neq. Qed.

Lemma seek_run ms pc : pc <> 0 -> (ms = false -> pc <> 47) -> forall w fuel text, cstr txt text w -> (length w < fuel)%nat ->
  exists z x t2, loop fuel (seek_step txt flags ms pc) text = Ok (text + len z, t2) /\ w = z ++ x /\
    Forall (fun c => fold cf c <> pc) z /\ (ms = true \/ 47 ∉ z) /\ cstr txt (text + len z) x /\
    ((t2 = pc /\ x <> [] /\ (t2 =? 47) = (hd 0 x =? 47)) \/ (t2 <> pc /\ (x = [] \/ (ms = false /\ hd 0 x = 47)))).
Proof using Htxt.
  intros Hpc Hms. induction w as [|t w IH]; intros fuel text Hw Hf; (destruct fuel as [|fuel]; [lia|]); rewrite loop_S; unfold seek_step at 1;
    rewrite (cstr_rd _ _ _ Hw); cbn [mbind res_bind hd].
  - exists [], [], 0. change (len []) with 0. rewrite Z.add_0_r. split_and!; try done; [by right; apply not_elem_of_nil|]. right. split; [done|by left].
  - rewrite (proj2 (tr_true t)) by (by eapply cstr_nz). cbn [andb].
    assert (is_byte t) as Ht by (pose proof (cstr_bytes _ _ _ Htxt Hw) as Hb; by apply Forall_cons in Hb as [? _]).
    destruct (ms || negb (t =? 47)) eqn:Es.
    + fold cf. destruct (Z.eqb_spec (fold cf t) pc) as [E|E].
      * exists [], (t :: w), (fold cf t). change (len []) with 0. rewrite Z.add_0_r. split_and!; try done; [by right; apply not_elem_of_nil|]. left. split_and!; try done.
        cbn [hd]. by rewrite fold_is by (done || (clear; set_solver)).
      * destruct (IH fuel (text + 1) (cstr_tl _ _ _ _ Hw)) as (z & x & t2 & -> & -> & Hzf' & Hz47' & Hc & Hr); [simpl in Hf; lia|].
        exists (t :: z), x, t2. rewrite len_cons. rewrite <- Z.add_assoc in Hc |- *. split_and!; try done; [by constructor|].
        destruct Hz47' as [?|Hz47']; [by left|]. destruct ms; [by left|right]. cbn [orb] in Es. destruct (Z.eqb_spec t 47); [done|clear -n Hz47'; set_solver].
    + apply orb_false_iff in Es as [-> Et]. destruct (Z.eqb_spec t 47) as [->|]; [|done].
      exists [], (47 :: w), 47. change (len []) with 0. rewrite Z.add_0_r. split_and!; try done; [by right; apply not_elem_of_nil|]. right. split; [|by right].
      intros E. by apply Hms.
Qed.

Lemma tried_skip q P s' q' y z x : head cf pn q = Some (P, s', q') -> Forall (fun t => P t = false) z ->
  tried cf pn q y (z ++ x) -> tried cf pn q (y ++ z) x.
Proof using.
  intros Hh Hz. revert y. induction Hz as [|t z Ht Hz IH]; intros y Hy; [by rewrite app_nil_r|].
  replace (y ++ t :: z) with ((y ++ [t]) ++ z) by (by rewrite <- app_assoc). apply IH. apply tried_snoc; [done|].
  intros Hg. apply (globs_inv_head _ _ _ _ _ _ _ _ Hh) in Hg as (t2 & w2 & [= <- _] & HP & _). congruence.
Qed.

Lemma dead_all_seg l w : dead_all cf pn false l w -> dead_seg cf pn false l w.
Proof using. intros H u v E _ _. by apply (H u v). Qed.

(** A start at a slash is the last one before the next slash. *)
Lemma dead_at_slash q x : ~ globs false q (47 :: x) -> dead_seg cf pn false q (47 :: x).
Proof using.
  intros H u v E Hu _. destruct u as [|c u]; [by cbn [app] in E; subst v|]. injection E as <- _. clear -Hu. set_solver.
Qed.

Section StarLoop.
Context (s : bool) (k : nat) (q : list Z) (p : Z) (w : list Z).
Context (Hk : (1 <= k)%nat) (Hq : hd 0 q <> 42) (Hqn : q <> []) (Hp : cstr pat p q) (HN : (length q < N)%nat).
Hypothesis Hz : forall q', q = 47 :: q' -> (2 <= k)%nat -> pn = true -> s = true -> ~ globs true q' w.
Let ms : bool := crosses pn s k q.
Hypothesis Hms : ms = false -> hd 0 q <> 47.

(** Skipping to the next place where a literal can match. *)
Lemma star_skip text t x y : x <> [] -> cstr txt text x -> (t =? 47) = (hd 0 x =? 47) -> tried cf pn q y x ->
  exists z x2 t2 lost,
    (if negb (is_glob_special (hd 0 q)) then
       '(text, t_ch) ← loop (S (length txt)) (seek_step txt flags ms (fold cf (hd 0 q))) text;
       Ok (text, t_ch, negb (t_ch =? fold cf (hd 0 q)))
     else Ok (text, t, false)) = Ok (text + len z, t2, lost) /\
    x = z ++ x2 /\ (ms = true \/ 47 ∉ z) /\ cstr txt (text + len z) x2 /\ tried cf pn q (y ++ z) x2 /\
    if lost : bool then (if ms then dead_all cf pn false q x2 else dead_seg cf pn false q x2)
    else x2 <> [] /\ (t2 =? 47) = (hd 0 x2 =? 47).
Proof using All.
  intros Hx Hc Ht Hy. destruct (is_glob_special (hd 0 q)) eqn:Eg; cbn [negb].
  { exists [], x, t, false. change (len []) with 0. rewrite Z.add_0_r, app_nil_r. split_and!; try done. right. apply not_elem_of_nil. }
  assert (exists c q', q = c :: q') as (c & q' & Eq) by (destruct q; [done|by eexists _, _]). rewrite Eq in Eg, Hq, Hms |- *. cbn [hd] in *.
  assert (is_byte c) as Hcb by (pose proof (cstr_bytes _ _ _ Hpat Hp) as Hb; rewrite Eq in Hb; by apply Forall_cons in Hb as [? _]).
  assert (c <> 0) as Hc0 by (rewrite Eq in Hp; by eapply cstr_nz).
  pose proof (head_literal c q' Hcb Eg) as Hh.
  assert (ms = false -> fold cf c <> 47) as Hms'.
  { intros E. apply Z.eqb_neq. rewrite fold_is by (done || (clear; set_solver)). apply Z.eqb_neq. auto. }
  destruct (seek_run ms (fold cf c) (fold_nz _ Hcb Hc0) Hms' x (S (length txt)) text Hc) as (z & x2 & t2 & -> & -> & HzF & Hz47 & Hc2 & Hr);
    [pose proof (cstr_length _ _ _ Hc); lia|].
  cbn [mbind res_bind]. exists z, x2, t2, (negb (t2 =? fold cf c)). split_and!; try done.
  - rewrite Eq in Hy. eapply tried_skip; [exact Hh| |exact Hy]. eapply Forall_impl; [exact HzF|]. intros u Hu. by apply Z.eqb_neq.
  - destruct Hr as [(-> & Hn & E47)|(Hne & Hend)]; [rewrite Z.eqb_refl; done|]. apply Z.eqb_neq in Hne as ->. cbn [negb].
    assert (dead_all cf pn false (c :: q') []) as Hend0.
    { intros u v E _ Hg. apply (globs_inv_head _ _ _ _ _ _ _ _ Hh) in Hg as (? & ? & -> & _). by destruct u. }
    destruct Hend as [->|[E H47]].
    + destruct ms; [done|by apply dead_all_seg].
    + rewrite E. destruct x2 as [|d x2]; [done|]. cbn [hd] in H47. subst d. apply dead_at_slash. intros Hg.
      apply (globs_inv_head _ _ _ _ _ _ _ _ Hh) in Hg as (? & ? & [= <- _] & HP & _). apply Z.eqb_eq in HP. apply (Hms' E). rewrite <- HP. by destruct cf.
Qed.

Lemma star_loop : forall fuel x y text t, w = y ++ x -> cstr txt text x -> (length x < fuel)%nat ->
  tr t = bool_decide (x <> []) -> (t =? 47) = (hd 0 x =? 47) -> (ms = true \/ 47 ∉ y) -> tried cf pn q y x ->
  exists r, loop fuel (star_step pat txt flags rec p ms) (text, t) = Ok r /\ says s (replicate k 42 ++ q) w r.
Proof using All.
  induction fuel as [|fuel IH]; intros x y text t Ew Hx Hf Ht0 Ht Hy47 Hy; [lia|]. rewrite loop_S. unfold star_step at 1.
  assert (forall y x, w = y ++ x -> tried cf pn q y x -> dead_all cf pn false q x -> says s (replicate k 42 ++ q) w WM_ABORT_ALL) as Hall.
  { intros y1 x1 E1 Hy1 Hx1. apply says_all. rewrite E1. apply stars_dead; try done. by rewrite <- E1. }
  destruct (decide (x = [])) as [->|Hxn].
  { rewrite bool_decide_eq_false_2 in Ht0 by (by intros ?). rewrite Ht0. cbn [negb]. eexists. split; [done|]. apply (Hall y []); try done.
    destruct q as [|c q'] eqn:Eq; [done|]. destruct (head_some c q') as (P & s' & l' & Hh); [done|].
    intros u v E _ Hg. apply (globs_inv_head _ _ _ _ _ _ _ _ Hh) in Hg as (? & ? & -> & _). by destruct u. }
  rewrite bool_decide_eq_true_2 in Ht0 by done. rewrite Ht0. cbn [negb]. rewrite (cstr_rd _ _ _ Hp). cbn [mbind res_bind].
  destruct (star_skip text t x y Hxn Hx Ht Hy) as (z & x2 & t2 & lost & E & -> & Hz47 & Hx2 & Hy2 & Hl). fold cf. cbn zeta. rewrite E. clear E.
  cbn [mbind res_bind]. rewrite app_assoc in Ew. assert (ms = true \/ 47 ∉ y ++ z) as Hyz.
  { destruct Hy47; [by left|]. destruct Hz47; [by left|right]. clear -H H0. set_solver. }
  assert (ms = false -> pn = true) as Hpn by apply not_crosses.
  assert (ms = false -> dead_seg cf pn false q x2 -> says s (replicate k 42 ++ q) w WM_ABORT_TO_STARSTAR) as Hseg.
  { intros E1 Hx1. apply says_seg; [by apply Hpn|]. rewrite Ew. apply stars_dead_seg; try done. destruct Hyz; [congruence|done]. }
  destruct lost.
  { eexists. split; [done|]. destruct ms eqn:Ems; [by apply (Hall (y ++ z) x2)|by apply Hseg]. }
  destruct Hl as [Hx2n Ht2]. destruct (Hrec false p q (text + len z) x2 Hp Hx2) as (r & -> & Hs); [done|done|]. cbn [mbind res_bind].
  destruct x2 as [|c x3]; [done|]. cbn [hd] in Ht2.
  assert ((ms = true \/ c <> 47) -> ~ globs false q (c :: x3) -> exists r, match (t_ch ← rd txt (text + len z + 1); Ok (inl (text + len z + 1, t_ch))) : res (Z * Z + Z) with
     | Ok (inl s') => loop fuel (star_step pat txt flags rec p ms) s' | Ok (inr r0) => Ok r0 | Fault f => Fault f end = Ok r /\
     says s (replicate k 42 ++ q) w r) as Hcont.
  { intros Hc Hg. pose proof (cstr_tl _ _ _ _ Hx2) as Hx3. rewrite (cstr_rd _ _ _ Hx3). cbn [mbind res_bind].
    apply (IH x3 ((y ++ z) ++ [c])); try done.
    - by rewrite <- app_assoc.
    - rewrite length_app in Hf. simpl in Hf. lia.
    - destruct x3 as [|d x3]; [done|]. cbn [hd]. rewrite bool_decide_eq_true_2 by done. apply tr_true. by eapply cstr_nz.
    - destruct Hyz; [by left|]. destruct Hc; [by left|right]. clear -H H0. set_solver.
    - by apply tried_snoc. }
  destruct Hs as [[-> H]|[[-> H]|[[-> H]|[-> [_ H]]]]].
  - cbn. rewrite orb_true_r. eexists. split; [done|]. apply says_match. rewrite Ew. by apply stars_match.
  - cbn [Z.eqb Pos.eqb negb andb WM_NOMATCH]. rewrite Ht2. destruct ms eqn:Ems; cbn [negb andb]; [by apply Hcont; [left|]|].
    destruct (Z.eqb_spec c 47) as [->|Hc]; [|by apply Hcont; [right|]].
    eexists. split; [done|]. apply Hseg; [done|]. by apply dead_at_slash.
  - cbn. rewrite orb_true_r. eexists. split; [done|]. by apply (Hall (y ++ z) (c :: x3)).
  - destruct ms eqn:Ems; cbn; [|eexists; split; [done|]; by apply Hseg]. apply Hcont; [by left|]. by apply dead_seg_no.
Qed.
End StarLoop.

Lemma stars_split l : hd 0 l = 42 -> exists k q, (1 <= k)%nat /\ hd 0 q <> 42 /\ l = replicate k 42 ++ q.
Proof using.
  induction l as [|c l IH]; [done|]. cbn [hd]. intros ->. destruct (decide (hd 0 l = 42)) as [E|E].
  - destruct (IH E) as (k & q & Hk & Hq & ->). exists (S k), q. split_and!; [lia|done|done].
  - exists 1%nat, l. split_and!; [lia|done|done].
Qed.

(** A pattern behind an element that has been matched. *)
Definition behind (p : Z) (s' : bool) : Prop := exists x, rd pat (p - 1) = Ok x /\ s' = (x =? 47).

Lemma star_spec pattern s l p text w : hd 0 l = 42 -> cstr pat p l -> cstr txt text w -> before_star pattern p s -> (length l <= N)%nat ->
  exists o, star pat txt flags rec pattern p text (fold cf (hd 0 w)) = Ok o /\
    match o with
    | inr r => says s l w r
    | inl (p', text') => exists l' w', cstr pat p' l' /\ cstr txt text' w' /\ p < p' /\ behind p' true /\
        (length l' < length l)%nat /\ (forall r, says true l' w' r -> says s l w r)
    end.
Proof using All.
  intros (k & q & Hk & Hq & ->)%stars_split Hp Hw Hbef HN. assert (k + length q <= N)%nat as HN' by (rewrite length_app, length_replicate in HN; done).
  pose proof (cstr_bytes _ _ _ Htxt Hw) as Hbw. unfold star.
  destruct (star_head_spec pattern s k q p text w Hk Hq Hp Hw Hbef HN') as (o & -> & Ho). cbn [mbind res_bind].
  destruct o as [[p' ms]|]; [|eexists; split; [done|]; by apply says_match]. destruct Ho as (Hp' & Hlt & -> & Hz).
  rewrite (cstr_rd _ _ _ Hp'). cbn [mbind res_bind]. destruct q as [|c q]; cbn [hd].
  { rewrite app_nil_r. pose proof (says_last_stars cf pn s k w Hk) as Hs. cbn [negb tr Z.eqb].
    destruct (crosses pn s k []); cbn [negb]; [by eexists|].
    destruct (strchr_spec txt text w 47 Hw ltac:(done)) as [(a & b & -> & Ha & -> & _)|[Hn ->]]; cbn [mbind res_bind]; eexists; (split; [done|]).
    - by rewrite decide_True in Hs by (clear; set_solver).
    - by rewrite decide_False in Hs. }
  rewrite (proj2 (tr_true c)) by (by eapply cstr_nz). cbn [negb]. destruct (negb (crosses pn s k (c :: q)) && (c =? 47)) eqn:Edir.
  { apply andb_true_iff in Edir as [Hc%negb_true_iff ->%Z.eqb_eq].
    destruct (strchr_spec txt text w 47 Hw ltac:(done)) as [(a & b & -> & Ha & -> & Hb)|[Hn ->]]; cbn [mbind res_bind]; eexists; (split; [done|]).
    - exists q, b. pose proof (cstr_tl _ _ _ _ Hp'). split_and!; try done.
      + lia.
      + exists 47. split; [|done]. replace (p' + 1 - 1) with p' by lia. by apply (cstr_rd _ _ _ Hp').
      + rewrite length_app. simpl. clear. lia.
      + intros r Hs. by apply says_dir.
    - by apply says_no_dir. }
  assert (tr (fold cf (hd 0 w)) = bool_decide (w <> []) /\ (fold cf (hd 0 w) =? 47) = (hd 0 w =? 47)) as [Ht0 Ht47].
  { destruct w as [|t w]; cbn [hd]; [split; [by rewrite bool_decide_eq_false_2 by (by intros ?); destruct cf|by destruct cf]|].
    apply Forall_cons in Hbw as [Hbt _]. rewrite (fold_is cf t 47) by (done || (clear; set_solver)). split; [|done].
    rewrite bool_decide_eq_true_2 by done. apply tr_true, fold_nz; [done|]. by eapply cstr_nz. }
  edestruct (star_loop s k (c :: q) p' w Hk Hq) as (r & -> & Hs); [done|exact Hp'|simpl in *; lia|exact Hz| |symmetry; apply app_nil_l|exact Hw| |exact Ht0|exact Ht47|by right; apply not_elem_of_nil|apply tried_nil|].
  - intros Hc. rewrite Hc in Edir. cbn [hd]. by apply Z.eqb_neq.
  - pose proof (cstr_length _ _ _ Hw). lia.
  - by eexists.
Qed.

(** An element other than an asterisk. *)
Lemma head_step pattern c l p text t w : c <> 42 -> cstr pat p (c :: l) -> cstr txt text (t :: w) ->
  exists P s' l' o, head cf pn (c :: l) = Some (P, s', l') /\ wild_step pat txt flags rec pattern (p, text) = Ok o /\
    match o with
    | inr r => (r = WM_NOMATCH /\ P t = false) \/ (r = WM_ABORT_ALL /\ forall t, P t = false)
    | inl (p', text') => P t = true /\ text' = text + 1 /\ cstr pat p' l' /\ p < p' /\ behind p' s'
    end.
Proof using All.
  intros Hc Hp Hw. assert (is_byte c /\ is_byte t) as [Hbc Hbt].
  { split; [pose proof (cstr_bytes _ _ _ Hpat Hp) as Hb|pose proof (cstr_bytes _ _ _ Htxt Hw) as Hb]; by apply Forall_cons in Hb as [? _]. }
  pose proof (cstr_tl _ _ _ _ Hp) as Hp1. unfold wild_step. rewrite (cstr_rd _ _ _ Hp), (cstr_rd _ _ _ Hw). cbn [mbind res_bind hd].
  rewrite (proj2 (tr_true c)) by (by eapply cstr_nz). rewrite (proj2 (tr_true t)) by (by eapply cstr_nz). cbn [negb andb]. cbn zeta. fold cf.
  assert (forall k, k ∈ [0; 42; 47; 63; 91; 92] -> (fold cf c =? k) = (c =? k)) as Hfc by (intros k; by apply fold_is).
  rewrite (Hfc 92), (Hfc 63), (Hfc 42), (Hfc 91) by (clear; set_solver). unfold head. rewrite (proj2 (Z.eqb_neq c 42) Hc).
  assert (forall x, rd pat p = Ok x -> behind (p + 1) (x =? 47)) as Hbeh.
  { intros x Hx. exists x. split; [|done]. by replace (p + 1 - 1) with p by lia. }
  destruct (Z.eqb_spec c 92) as [->|H92].
  { rewrite (cstr_rd _ _ _ Hp1). cbn [mbind res_bind]. destruct l as [|d l]; cbn [hd].
    - rewrite (proj2 (Z.eqb_neq (fold cf t) 0)) by (by apply fold_nz; [|eapply cstr_nz]).
      eexists _, _, _, _. split; [done|]. split; [done|by left].
    - destruct (fold cf t =? d) eqn:E; eexists _, _, _, _; (split; [done|]); (split; [done|]); [|by left].
      split_and!; try done; [|lia|]; replace (p + 2) with (p + 1 + 1) by lia; [by eapply cstr_tl|].
      exists d. split; [|done]. replace (p + 1 + 1 - 1) with (p + 1) by lia. by apply (cstr_rd _ _ _ Hp1). }
  destruct (Z.eqb_spec c 63) as [->|H63].
  { rewrite fold_is by (done || (clear; set_solver)). fold pn.
    destruct (pn && (t =? 47)) eqn:E; eexists _, _, _, _; (split; [done|]); (split; [done|]); rewrite E; [by left|]. split_and!; try done; [lia|]. by apply (Hbeh 63), (cstr_rd _ _ _ Hp). }
  destruct (Z.eqb_spec c 91) as [->|H91].
  { destruct (class_match_spec pat flags Hlen t p l Hp Hbt) as (o & Eo & Ho). unfold cf. rewrite Eo. cbn [mbind res_bind].
    destruct (bracket l) as [[[ng its] r]|].
    - destruct Ho as (p' & -> & Hpp & H93 & Hp'). fold cf pn.
      destruct (xorb ng _ && _) eqn:E; eexists _, _, _, _; (split; [done|]); (split; [done|]); [|by left]. split_and!; try done; [lia|].
      exists 93. split; [|done]. by replace (p' + 1 - 1) with p' by lia.
    - subst o. eexists _, _, _, _. split; [done|]. split; [done|]. by right. }
  destruct (fold cf t =? fold cf c) eqn:E; cbn [negb]; eexists _, _, _, _; (split; [done|]); (split; [done|]); [|by left].
  split_and!; try done; [lia|]. by apply Hbeh, (cstr_rd _ _ _ Hp).
Qed.

Lemma wild_loop pattern : forall fuel s l p text w, cstr pat p l -> cstr txt text w -> (hd 0 l = 42 -> before_star pattern p s) -> pattern <= p ->
  (length l < fuel)%nat -> (length l <= N)%nat ->
  exists r, loop fuel (wild_step pat txt flags rec pattern) (p, text) = Ok r /\ says s l w r.
Proof using All.
  induction fuel as [|fuel IH]; intros s l p text w Hp Hw Hbef Hpp Hf HN; [lia|]. rewrite loop_S.
  assert (forall p' s', pattern < p' -> behind p' s' -> before_star pattern p' s') as Hnext by (intros p' s' Hlt Hb; right; split; [lia|done]).
  destruct l as [|c l].
  { unfold wild_step. rewrite (cstr_rd _ _ _ Hp). cbn [mbind res_bind hd]. rewrite (cstr_rd _ _ _ Hw). cbn [mbind res_bind negb tr Z.eqb].
    eexists. split; [done|]. destruct w as [|t w]; cbn [hd]; [apply says_match; constructor|].
    rewrite (proj2 (tr_true t)) by (by eapply cstr_nz). apply says_nomatch. by intros ?%globs_inv_nil. }
  destruct (Z.eqb_spec c 42) as [->|Hc].
  - destruct (star_spec pattern s (42 :: l) p text w eq_refl Hp Hw (Hbef eq_refl) HN) as (o & Eo & Ho).
    assert (wild_step pat txt flags rec pattern (p, text) = Ok o) as ->.
    { unfold wild_step. rewrite (cstr_rd _ _ _ Hp). cbn [mbind res_bind hd]. rewrite (cstr_rd _ _ _ Hw). cbn [mbind res_bind].
      rewrite andb_false_r. assert (fold (casefold flags) 42 = 42) as -> by (by destruct (casefold flags)). exact Eo. }
    destruct o as [[p' text']|r]; [|by eexists]. destruct Ho as (l' & w' & Hp' & Hw' & Hlt & Hbeh & Hll & Hsays).
    destruct (IH true l' p' text' w' Hp' Hw') as (r & -> & Hr); [|lia|simpl in *; lia|lia|eexists; split; [done|by apply Hsays]].
    intros _. apply Hnext; [lia|done].
  - destruct w as [|t w].
    { unfold wild_step. rewrite (cstr_rd _ _ _ Hp). cbn [mbind res_bind hd]. rewrite (cstr_rd _ _ _ Hw). cbn [mbind res_bind hd].
      rewrite (proj2 (tr_true c)) by (by eapply cstr_nz). rewrite (proj2 (Z.eqb_neq c 42) Hc). cbn [negb tr Z.eqb andb].
      destruct (head_some c l Hc) as (P & s' & l' & Hh). eexists. split; [done|]. by eapply says_end. }
    destruct (head_step pattern c l p text t w Hc Hp Hw) as (P & s' & l' & o & Hh & -> & Ho). destruct o as [[p' text']|r].
    + destruct Ho as (HP & -> & Hp' & Hlt & Hbeh). pose proof (head_length _ _ _ _ _ _ Hh) as Hll.
      destruct (IH s' l' p' (text + 1) w Hp' (cstr_tl _ _ _ _ Hw)) as (r & -> & Hr); [|lia|simpl in *; lia|lia|].
      * intros _. apply Hnext; [lia|done].
      * eexists. split; [done|]. eapply says_step; [exact Hh|exact (cstr_bytes _ _ _ Hpat Hp)|exact (cstr_bytes _ _ _ Htxt Hw)|done|done].
    + destruct Ho as [[-> HP]|[-> HP]]; (eexists; split; [done|]); [by eapply says_mismatch|by eapply says_empty_set].
Qed.
End Code.

Section Wildmatch.
Context (pat txt : list Z) (flags : Z).
Context (Hlen : len pat < 2 ^ 31) (Hpat : is_bytes pat) (Htxt : is_bytes txt).

(** Every call ends, and its result is right. *)
Lemma dowild_says n : forall s p l text w, cstr pat p l -> cstr txt text w -> (hd 0 l = 42 -> s = true) -> (length l < n)%nat ->
  exists r, dowild pat txt flags n p text = Ok r /\ says (casefold flags) (pathname flags) s l w r.
Proof using All.
  induction n as [|n IH]; intros s p l text w Hp Hw Hs Hn; [lia|]. cbn [dowild].
  apply (wild_loop pat txt flags Hlen Hpat Htxt (dowild pat txt flags n) n IH p); try done; [|pose proof (cstr_length _ _ _ Hp); lia|lia].
  intros H42. left. split; [lia|auto].
Qed.

(** C19: [wildmatch] on NUL-terminated strings stays inside of them, ends, and
    returns [WM_MATCH] exactly if the text is one of the pattern's: the special
    meaning of asterisks between slashes, the bracket expressions, the escapes
    and the folding of case are those of the relation [globs], and the two abort
    codes, the search for literals and the short cut for an asterisk in front of
    a slash neither lose a match nor add one. *)
Theorem wildmatch_decides pattern text l w : cstr pat pattern l -> cstr txt text w ->
  exists r, wildmatch pat txt flags pattern text = Ok r /\
    (r = WM_MATCH <-> globs (casefold flags) (pathname flags) true l w) /\ (r = WM_MATCH \/ r = WM_NOMATCH).
Proof using All.
  intros Hp Hw. unfold wildmatch.
  destruct (dowild_says (S (length pat)) true pattern l text w Hp Hw) as (r & -> & Hs); [done|pose proof (cstr_length _ _ _ Hp); lia|].
  cbn [mbind res_bind]. apply says_iff in Hs. eexists. split; [done|]. destruct (Z.eqb_spec r WM_MATCH) as [->|Hr]; [split; [done|by left]|].
  split; [|by right]. rewrite <- Hs. split; [done|]. by intros ?.
Qed.
End Wildmatch.

Lemma wildmatch_decides_witness :
  exists r, wildmatch [42; 42; 47; 97; 42; 0] [120; 47; 97; 98; 0] 2 0 0 = Ok r /\
    (r = WM_MATCH <-> globs false true true [42; 42; 47; 97; 42] [120; 47; 97; 98]) /\ (r = WM_MATCH \/ r = WM_NOMATCH).
Proof.
  apply (wildmatch_decides [42; 42; 47; 97; 42; 0] [120; 47; 97; 98; 0] 2 ltac:(done) ltac:(repeat constructor; lia) ltac:(repeat constructor; lia) 0 0);
    (split_and!; [done|by repeat constructor|by exists []]).
Defined.

(** With [WM_CASEFOLD] the text is folded but an escaped capital and a capital
    listed in a bracket expression are not: neither matches any letter, although
    the unescaped capital and a range do. *)
Lemma casefold_capitals :
  wildmatch [92; 65; 0] [65; 0] 1 0 0 = Ok WM_NOMATCH /\ wildmatch [92; 65; 0] [97; 0] 1 0 0 = Ok WM_NOMATCH /\
  wildmatch [91; 65; 93; 0] [65; 0] 1 0 0 = Ok WM_NOMATCH /\ wildmatch [91; 65; 93; 0] [97; 0] 1 0 0 = Ok WM_NOMATCH /\
  wildmatch [65; 0] [97; 0] 1 0 0 = Ok WM_MATCH /\ wildmatch [91; 65; 45; 90; 93; 0] [97; 0] 1 0 0 = Ok WM_MATCH.
Proof. by vm_compute. Qed.
