(* ===== verification/Hashmap.v ===== *)
(** * Hash maps: [hashmap.c] and [hashmap.h]

    An intrusive hash table: the entries are members of the caller's objects
    and are chained through their [next] pointers, so the model keeps them in a
    heap.  A pointer is an integer, 0 is [NULL].  The comparison function of the
    map is a parameter, a function of the two pointers and the key data; the
    objects it looks at are not written by this code.  The theorems of
    [HashmapSpec.v] say that the table implements finite maps. *)

From stdpp Require Import prelude numbers list gmap.
From S2P Require Import Prelude PatchDelta Alloc CString.

(** ** Hash functions *)

Definition FNV32_BASE : Z := 0x811c9dc5.
Definition FNV32_PRIME : Z := 0x01000193.

Definition fnv (hash c : Z) : Z := u32 (hash * FNV32_PRIME) ^. c.

(** [if (c >= 'a' && c <= 'z') c -= 'a' - 'A';] *)
Definition fnv_upper (c : Z) : Z := if (97 <=? c) && (c <=? 122) then c - 32 else c.

Definition strhash_step (up : bool) (mem : list Z) (st : Z * Z) : res (Z * Z + Z) :=
  let '(str, hash) := st in
  c ← rd mem str;
  if tr c then Ok (inl (str + 1, fnv hash (if up then fnv_upper c else c))) else Ok (inr hash).

Definition strhash (mem : list Z) (str : Z) : res Z := loop (S (length mem)) (strhash_step false mem) (str, FNV32_BASE).
Definition strihash (mem : list Z) (str : Z) : res Z := loop (S (length mem)) (strhash_step true mem) (str, FNV32_BASE).

Definition memhash_step (up : bool) (mem : list Z) (st : Z * Z * Z) : res (Z * Z * Z + Z) :=
  let '(buf, n, hash) := st in
  if tr n then
    c ← rd mem buf;
    Ok (inl (buf + 1, n - 1, fnv hash (if up then fnv_upper c else c)))
  else Ok (inr hash).

Definition memhash (mem : list Z) (buf n : Z) : res Z := loop (S (Z.to_nat n)) (memhash_step false mem) (buf, n, FNV32_BASE).
Definition memihash (mem : list Z) (buf n : Z) : res Z := loop (S (Z.to_nat n)) (memhash_step true mem) (buf, n, FNV32_BASE).
Definition memihash_cont (hash_seed : Z) (mem : list Z) (buf n : Z) : res Z :=
  loop (S (Z.to_nat n)) (memhash_step true mem) (buf, n, hash_seed).

(** ** The data *)

Record hashmap_entry := mkEntry { he_next : Z; he_hash : Z }.

Abbreviation heap := (gmap Z hashmap_entry).

Record hashmap := mkMap {
  table : option (list Z);    (** [None] is [NULL] *)
  private_size : Z;
  tablesize : Z;
  grow_at : Z;
  shrink_at : Z;
  do_count_items : bool;
}.

Definition HASHMAP_INIT : hashmap := mkMap None 0 0 0 0 true.

(** The object behind a pointer. *)
Definition ld (h : heap) (p : Z) : res hashmap_entry :=
  if p =? 0 then Fault UB else match h !! p with Some e => Ok e | None => Fault UB end.

Definition set_next (h : heap) (p n : Z) : res heap :=
  e ← ld h p; Ok (<[p := mkEntry n (he_hash e)]> h).

Definition hashmap_entry_init (h : heap) (e hash : Z) : heap := <[e := mkEntry 0 hash]> h.

Definition the_table (map : hashmap) : res (list Z) := match table map with Some t => Ok t | None => Fault UB end.
Definition set_table (map : hashmap) (t : list Z) : hashmap :=
  mkMap (Some t) (private_size map) (tablesize map) (grow_at map) (shrink_at map) (do_count_items map).
Definition set_size (map : hashmap) (n : Z) : hashmap :=
  mkMap (table map) n (tablesize map) (grow_at map) (shrink_at map) (do_count_items map).

Definition HASHMAP_INITIAL_SIZE : Z := 64.
Definition HASHMAP_RESIZE_BITS : Z := 2.
Definition HASHMAP_LOAD_FACTOR : Z := 80.

Section Code.
Context `{Memory}.

Definition alloc_table (map : hashmap) (size : Z) : res hashmap :=
  t ← CALLOC_ARRAY 8 0 size;
  let grow := u32 (u64 (size * HASHMAP_LOAD_FACTOR) `div` 100) in
  let shrink := if size <=? HASHMAP_INITIAL_SIZE then 0 else grow `div` ((1 <<. HASHMAP_RESIZE_BITS) + 1) in
  Ok (mkMap (Some t) (private_size map) size grow shrink (do_count_items map)).

Definition bucket (map : hashmap) (hash : Z) : Z := hash &. u32 (tablesize map - 1).

Definition hashmap_bucket (map : hashmap) (hash : Z) : Z := to_int (hash &. u32 (tablesize map - 1)).

(** The loops of [rehash]: an entry of a chain, a chain of the old table. *)
Definition move_step (map : hashmap) (st : heap * list Z * Z) : res (heap * list Z * Z + heap * list Z) :=
  let '(h, t, e) := st in
  if tr e then
    ent ← ld h e;
    let b := bucket map (he_hash ent) in
    x ← rd t b;
    h ← set_next h e x;
    t ← wr t b e;
    Ok (inl (h, t, he_next ent))
  else Ok (inr (h, t)).

Definition rehash_step (map : hashmap) (oldsize : Z) (oldtable : list Z) (st : heap * list Z * Z) : res (heap * list Z * Z + heap * list Z) :=
  let '(h, t, i) := st in
  if i <? oldsize then
    e ← rd oldtable i;
    '(h, t) ← loop (S (size h)) (move_step map) (h, t, e);
    Ok (inl (h, t, i + 1))
  else Ok (inr (h, t)).

Definition rehash (h : heap) (map : hashmap) (newsize : Z) : res (heap * hashmap) :=
  oldtable ← the_table map;
  let oldsize := tablesize map in
  map ← alloc_table map newsize;
  t ← the_table map;
  '(h, t) ← loop (S (Z.to_nat oldsize)) (rehash_step map oldsize oldtable) (h, t, 0);
  Ok (h, set_table map t).

(** The comparison function of a map that is given none. *)
Definition always_equal {K} (entry1 entry2 : Z) (keydata : option K) : Z := 0.

Definition init_step (initial_size : Z) (sz : Z) : res (Z + Z) :=
  if sz <? initial_size then Ok (inl (u32 (sz <<. HASHMAP_RESIZE_BITS))) else Ok (inr sz).

(** The fuel is the number of doublings of a 32-bit integer: a loop that is not
    finished then does not end. *)
Definition hashmap_init (initial_size : Z) : res hashmap :=
  let initial_size := u32 (u64 (initial_size * 100) `div` HASHMAP_LOAD_FACTOR) in
  sz ← loop 32 (init_step initial_size) HASHMAP_INITIAL_SIZE;
  alloc_table HASHMAP_INIT sz.

(** ** Looking up and changing

    [keydata] is the key data of the call, [None] for [NULL]. *)

Section Cmp.
Context {K : Type} (cmpfn : Z -> Z -> option K -> Z).

Definition entry_equals (h : heap) (e1 e2 : Z) (keydata : option K) : res bool :=
  if e1 =? e2 then Ok true
  else
    x1 ← ld h e1; x2 ← ld h e2;
    Ok ((he_hash x1 =? he_hash x2) && negb (tr (cmpfn e1 e2 keydata))).

(** A pointer to a pointer: a cell of the table or the [next] of an entry. *)
Inductive slot := STable (b : Z) | SNext (e : Z).

Definition slot_rd (h : heap) (t : list Z) (s : slot) : res Z :=
  match s with STable b => rd t b | SNext e => x ← ld h e; Ok (he_next x) end.

Definition slot_wr (h : heap) (t : list Z) (s : slot) (p : Z) : res (heap * list Z) :=
  match s with
  | STable b => t ← wr t b p; Ok (h, t)
  | SNext e => h ← set_next h e p; Ok (h, t)
  end.

Definition find_step (h : heap) (t : list Z) (key : Z) (keydata : option K) (e : slot) : res (slot + slot) :=
  x ← slot_rd h t e;
  if negb (tr x) then Ok (inr e)
  else
    eq ← entry_equals h x key keydata;
    if eq : bool then Ok (inr e) else Ok (inl (SNext x)).

Definition find_entry_ptr (h : heap) (map : hashmap) (key : Z) (keydata : option K) : res slot :=
  t ← the_table map;
  k ← ld h key;
  loop (S (S (size h))) (find_step h t key keydata) (STable (bucket map (he_hash k))).

Definition hashmap_get (h : heap) (map : hashmap) (key : Z) (keydata : option K) : res Z :=
  match table map with
  | None => Ok 0
  | Some t => e ← find_entry_ptr h map key keydata; slot_rd h t e
  end.

(** [key] is the address of the local variable. *)
Definition hashmap_get_from_hash (h : heap) (map : hashmap) (key hash : Z) (keydata : option K) : res Z :=
  hashmap_get (hashmap_entry_init h key hash) map key keydata.

Definition get_next_step (h : heap) (entry e : Z) : res (Z + Z) :=
  if tr e then
    eq ← entry_equals h entry e None;
    if eq : bool then Ok (inr e) else x ← ld h e; Ok (inl (he_next x))
  else Ok (inr 0).

Definition hashmap_get_next (h : heap) (entry : Z) : res Z :=
  x ← ld h entry; loop (S (size h)) (get_next_step h entry) (he_next x).

Definition hashmap_add (h : heap) (map : hashmap) (entry : Z) : res (heap * hashmap) :=
  map ← (match table map with None => alloc_table map HASHMAP_INITIAL_SIZE | Some _ => Ok map end);
  t ← the_table map;
  x ← ld h entry;
  let b := bucket map (he_hash x) in
  n ← rd t b;
  h ← set_next h entry n;
  t ← wr t b entry;
  let map := set_table map t in
  if do_count_items map then
    let map := set_size map (u32 (private_size map + 1)) in
    if grow_at map <? private_size map then rehash h map (u32 (tablesize map <<. HASHMAP_RESIZE_BITS))
    else Ok (h, map)
  else Ok (h, map).

Definition hashmap_remove (h : heap) (map : hashmap) (key : Z) (keydata : option K) : res (heap * hashmap * Z) :=
  match table map with
  | None => Ok (h, map, 0)
  | Some t =>
      e ← find_entry_ptr h map key keydata;
      old ← slot_rd h t e;
      if negb (tr old) then Ok (h, map, 0)
      else
        x ← ld h old;
        '(h, t) ← slot_wr h t e (he_next x);
        h ← set_next h old 0;
        let map := set_table map t in
        '(h, map) ←
          (if do_count_items map then
             let map := set_size map (u32 (private_size map - 1)) in
             if private_size map <? shrink_at map then rehash h map (tablesize map >>. HASHMAP_RESIZE_BITS)
             else Ok (h, map)
           else Ok (h, map));
        Ok (h, map, old)
  end.

Definition hashmap_put (h : heap) (map : hashmap) (entry : Z) : res (heap * hashmap * Z) :=
  '(h, map, old) ← hashmap_remove h map entry None;
  '(h, map) ← hashmap_add h map entry;
  Ok (h, map, old).
End Cmp.

(** ** Iterating and clearing *)

(** The iterator; [map] is an argument of the operations. *)
Record hashmap_iter := mkIter { it_next : Z; tablepos : Z }.

Definition hashmap_iter_init : hashmap_iter := mkIter 0 0.

Definition iter_step (h : heap) (map : hashmap) (st : Z * hashmap_iter) : res (Z * hashmap_iter + Z * hashmap_iter) :=
  let '(current, iter) := st in
  if tr current then
    x ← ld h current;
    Ok (inr (current, mkIter (he_next x) (tablepos iter)))
  else if tablesize map <=? tablepos iter then Ok (inr (0, iter))
  else
    t ← the_table map;
    x ← rd t (tablepos iter);
    Ok (inl (x, mkIter (it_next iter) (tablepos iter + 1))).

Definition hashmap_iter_next (h : heap) (map : hashmap) (iter : hashmap_iter) : res (Z * hashmap_iter) :=
  loop (S (S (Z.to_nat (tablesize map)))) (iter_step h map) (it_next iter, iter).

Definition hashmap_iter_first (h : heap) (map : hashmap) : res (Z * hashmap_iter) :=
  hashmap_iter_next h map hashmap_iter_init.

Definition free_step (map : hashmap) (st : heap * hashmap_iter) : res (heap * hashmap_iter + heap) :=
  let '(h, iter) := st in
  '(e, iter) ← hashmap_iter_next h map iter;
  if tr e then Ok (inl (delete e h, iter)) else Ok (inr h).

Definition free_individual_entries (h : heap) (map : hashmap) : res heap :=
  loop (S (size h)) (free_step map) (h, hashmap_iter_init).

(** [entry_offset >= 0] is [freeing]. *)
Definition hashmap_partial_clear_ (h : heap) (map : hashmap) (freeing : bool) : res (heap * hashmap) :=
  match table map with
  | None => Ok (h, map)
  | Some t =>
      h ← (if freeing then free_individual_entries h map else Ok h);
      t ← wr_slice t 0 (replicate (Z.to_nat (tablesize map)) 0);
      Ok (h, mkMap (Some t) 0 (tablesize map) (grow_at map) 0 (do_count_items map))
  end.

Definition hashmap_clear_ (h : heap) (map : hashmap) (freeing : bool) : res (heap * hashmap) :=
  match table map with
  | None => Ok (h, map)
  | Some t =>
      h ← (if freeing then free_individual_entries h map else Ok h);
      Ok (h, mkMap None 0 0 (grow_at map) (shrink_at map) (do_count_items map))
  end.

Definition hashmap_get_size (map : hashmap) : res Z :=
  if do_count_items map then Ok (private_size map) else Fault BugHit.

Definition hashmap_disable_item_counting (map : hashmap) : hashmap :=
  mkMap (table map) (private_size map) (tablesize map) (grow_at map) (shrink_at map) false.

Definition count_step (h : heap) (map : hashmap) (st : Z * hashmap_iter) : res (Z * hashmap_iter + Z) :=
  let '(n, iter) := st in
  '(e, iter) ← hashmap_iter_next h map iter;
  if tr e then Ok (inl (u32 (n + 1), iter)) else Ok (inr n).

Definition hashmap_enable_item_counting (h : heap) (map : hashmap) : res hashmap :=
  if do_count_items map then Ok map
  else
    n ← loop (S (size h)) (count_step h map) (0, hashmap_iter_init);
    Ok (mkMap (table map) n (tablesize map) (grow_at map) (shrink_at map) true).
End Code.

(** [strhash] of the empty string and of "foo". *)
Example strhash_foo : strhash [0] 0 = Ok FNV32_BASE /\ strhash [102; 111; 111; 0] 0 = memhash [102; 111; 111] 0 3 /\
  strihash [102; 111; 111; 0] 0 = strihash [70; 79; 111; 0] 0.
Proof. by vm_compute. Qed.
