(* ===== verification/HashmapSpec.v ===== *)
(** * Hash maps: chains, buckets and finite maps

    A bucket is a list of entries linked through the heap; the table is
    well-formed when its buckets are disjoint and every entry is in the bucket of
    its hash.  With a comparison function that compares keys, the operations
    implement those of a finite map from keys to entries. *)

From stdpp Require Import prelude numbers list gmap.
From S2P Require Import Prelude PatchDelta Alloc Hashmap.

(** ** Chains *)

Fixpoint chain (h : heap) (p : Z) (l : list Z) : Prop :=
  match l with
  | [] => p = 0
  | e :: l => p = e /\ e <> 0 /\ exists x, h !! e = Some x /\ chain h (he_next x) l
  end.

Definition chains (h : heap) (t : list Z) (bs : list (list Z)) : Prop := Forall2 (chain h) t bs.

Lemma chain_frame h e x p l : e ∉ l -> chain h p l -> chain (<[e := x]> h) p l.
Proof.
  revert p. induction l as [|a l IH]; intros p Hn; [done|]. apply not_elem_of_cons in Hn as [Hne Hn]. intros (-> & Ha & y & Hy & Hc).
  split_and!; [done|done|]. exists y. split; [by rewrite lookup_insert_ne|by apply IH].
Qed.

Lemma chains_frame h e x t bs : e ∉ concat bs -> chains h t bs -> chains (<[e := x]> h) t bs.
Proof.
  intros Hn H. induction H as [|p l t bs Hc H IH]; constructor; cbn [concat] in Hn; apply not_elem_of_app in Hn as [? ?].
  - by apply chain_frame.
  - by apply IH.
Qed.

Lemma chain_ld h e l : chain h e l -> e <> 0 -> exists x l', l = e :: l' /\ h !! e = Some x /\ ld h e = Ok x /\ chain h (he_next x) l'.
Proof.
  intros Hc He. destruct l as [|a l]; [done|]. destruct Hc as (-> & _ & x & Hx & Hc). exists x, l. split_and!; try done.
  unfold ld. destruct (Z.eqb_spec a 0); [done|]. by rewrite Hx.
Qed.

Lemma ld_Some h e x : e <> 0 -> h !! e = Some x -> ld h e = Ok x.
Proof. intros He Hx. unfold ld. destruct (Z.eqb_spec e 0); [done|]. by rewrite Hx. Qed.

Lemma set_next_Some h e x n : e <> 0 -> h !! e = Some x -> set_next h e n = Ok (<[e := mkEntry n (he_hash x)]> h).
Proof. intros He Hx. unfold set_next. by rewrite (ld_Some _ _ _ He Hx). Qed.

Lemma chain_nonnull h p l : chain h p l -> Forall (fun e => e <> 0 /\ is_Some (h !! e)) l.
Proof.
  revert p. induction l as [|a l IH]; intros p; [constructor|]. intros (_ & Ha & x & Hx & Hc). constructor; [split; [done|by eexists]|by eapply IH].
Qed.

Lemma chain_head h p l : chain h p l -> p = hd 0 l.
Proof. destruct l; [done|]. by intros [-> _]. Qed.

(** The heap bounds the length of a chain without repetitions. *)
Lemma nodup_size (h : heap) l : NoDup l -> Forall (fun e => is_Some (h !! e)) l -> (length l <= size h)%nat.
Proof.
  intros Hnd Hl. rewrite <- (size_dom h), <- (size_list_to_set (C := gset Z) l) by done. apply subseteq_size.
  intros e He%elem_of_list_to_set. rewrite Forall_forall in Hl. apply elem_of_dom. auto.
Qed.

(** ** Buckets *)

Lemma concat_insert (bs : list (list Z)) b l l' : bs !! b = Some l ->
  exists pre post, concat bs = pre ++ l ++ post /\ concat (<[b := l']> bs) = pre ++ l' ++ post.
Proof.
  intros Hb. exists (concat (take b bs)), (concat (drop (S b) bs)). split.
  - rewrite <- (take_drop_middle bs b l Hb) at 1. by rewrite concat_app.
  - rewrite insert_take_drop by (by eapply lookup_lt_Some). by rewrite concat_app.
Qed.

Lemma elem_of_concat (bs : list (list Z)) e : e ∈ concat bs <-> exists b l, bs !! b = Some l /\ e ∈ l.
Proof.
  rewrite list_elem_of_In, in_concat. split.
  - intros (l & Hl & He). apply list_elem_of_In, list_elem_of_lookup in Hl as [b Hb]. exists b, l. by rewrite list_elem_of_In.
  - intros (b & l & Hb & He). exists l. split; [by apply list_elem_of_In, (list_elem_of_lookup_2 _ b)|by apply list_elem_of_In].
Qed.

(** Pushing an entry in front of a bucket. *)
Lemma chains_push h t bs b e x l n : chains h t bs -> bs !! b = Some l -> t !! b = Some n -> e ∉ concat bs -> e <> 0 -> h !! e = Some x ->
  chains (<[e := mkEntry n (he_hash x)]> h) (<[b := e]> t) (<[b := e :: l]> bs) /\ concat (<[b := e :: l]> bs) ≡ₚ e :: concat bs.
Proof.
  intros Hc Hb Ht He He0 Hx. split.
  - apply Forall2_insert; [by apply chains_frame|]. split_and!; [done|done|]. eexists. rewrite lookup_insert_eq. split; [done|]. cbn [he_next].
    apply chain_frame; [|by eapply Forall2_lookup_lr in Hc]. intros Hin. apply He, elem_of_concat. by exists b, l.
  - destruct (concat_insert bs b l (e :: l) Hb) as (pre & post & -> & ->). cbn [app]. by rewrite <- Permutation_middle.
Qed.

(** Every entry is in the bucket of its hash. *)
Definition placed (h : heap) (sz : Z) (bs : list (list Z)) : Prop :=
  forall b l e x, bs !! b = Some l -> e ∈ l -> h !! e = Some x -> Z.to_nat (he_hash x &. u32 (sz - 1)) = b.

Lemma land_le_r a b : 0 <= a -> 0 <= b -> 0 <= a &. b <= b.
Proof.
  intros Ha Hb. rewrite <- (Z2N.id a), <- (Z2N.id b) by done. rewrite <- N2Z.inj_land. pose proof (N.land_le_r (Z.to_N a) (Z.to_N b)). lia.
Qed.

Lemma bucket_range map hash : 0 < tablesize map < 2 ^ 32 -> 0 <= hash -> 0 <= bucket map hash < tablesize map.
Proof.
  intros Hs Hh. unfold bucket. rewrite u32_small by lia. pose proof (land_le_r hash (tablesize map - 1) Hh). lia.
Qed.

(** The heap's entries have 32-bit hashes, and an operation keeps them. *)
Definition same_hashes (h h' : heap) : Prop := forall e, he_hash <$> h !! e = he_hash <$> h' !! e.

#[export] Instance same_hashes_equiv : Equivalence same_hashes.
Proof. split; [done|by intros h h' H e|intros h h' h'' H1 H2 e; by rewrite H1]. Qed.

Lemma same_hashes_set h e x n : h !! e = Some x -> same_hashes h (<[e := mkEntry n (he_hash x)]> h).
Proof. intros Hx a. destruct (decide (a = e)) as [->|]; [by rewrite lookup_insert_eq, Hx|by rewrite lookup_insert_ne]. Qed.

Lemma same_hashes_Some h h' e x : same_hashes h h' -> h !! e = Some x -> exists x', h' !! e = Some x' /\ he_hash x' = he_hash x.
Proof. intros H Hx. specialize (H e). rewrite Hx in H. destruct (h' !! e) as [x'|]; [|done]. exists x'. by injection H. Qed.

Definition hashes_ok (h : heap) : Prop := forall e x, h !! e = Some x -> 0 <= he_hash x < 2 ^ 32.

Lemma hashes_ok_same h h' : same_hashes h h' -> hashes_ok h -> hashes_ok h'.
Proof. intros Hs Ho e x Hx. symmetry in Hs. destruct (same_hashes_Some _ _ _ _ Hs Hx) as (y & Hy & <-). by eapply Ho. Qed.

Lemma placed_same h h' sz bs : same_hashes h h' -> placed h sz bs -> placed h' sz bs.
Proof.
  intros Hs Hp b l e x Hb He Hx. symmetry in Hs. destruct (same_hashes_Some _ _ _ _ Hs Hx) as (y & Hy & <-). by eapply Hp.
Qed.

(** ** The table *)

(** The entries of the map, bucket by bucket. *)
Record table_ok (h : heap) (map : hashmap) (t : list Z) (bs : list (list Z)) : Prop := {
  to_table : table map = Some t;
  to_len : len t = tablesize map;
  to_size : 0 < tablesize map < 2 ^ 32;
  to_chains : chains h t bs;
  to_nodup : NoDup (concat bs);
  to_placed : placed h (tablesize map) bs;
  to_hashes : hashes_ok h;
}.

Lemma the_table_ok h map t bs : table_ok h map t bs -> the_table map = Ok t.
Proof. intros [Ht _ _ _ _ _ _]. unfold the_table. by rewrite Ht. Qed.

Lemma table_bucket h map t bs hash : table_ok h map t bs -> 0 <= hash ->
  exists n l, rd t (bucket map hash) = Ok n /\ t !! Z.to_nat (bucket map hash) = Some n /\ bs !! Z.to_nat (bucket map hash) = Some l /\ chain h n l.
Proof.
  intros [Ht Hl Hs Hc _ _ _] Hh. pose proof (bucket_range map hash Hs Hh) as Hb.
  destruct (lookup_lt_is_Some_2 t (Z.to_nat (bucket map hash))) as [n Hn]; [llia|].
  destruct (Forall2_lookup_l _ _ _ _ _ Hc Hn) as (l & Hbl & Hcl). exists n, l. split_and!; try done. apply rd_Some; [lia|done].
Qed.

Lemma table_entries h map t bs : table_ok h map t bs -> Forall (fun e => e <> 0 /\ is_Some (h !! e)) (concat bs).
Proof.
  intros [_ _ _ Hc _ _ _]. apply Forall_forall. intros e (b & l & Hb & He)%elem_of_concat.
  destruct (Forall2_lookup_r _ _ _ _ _ Hc Hb) as (n & _ & Hcl). apply chain_nonnull in Hcl. rewrite Forall_forall in Hcl. auto.
Qed.

(** Pushing an entry into its bucket. *)
Lemma push_ok h map t bs e x : table_ok h map t bs -> e ∉ concat bs -> e <> 0 -> h !! e = Some x ->
  exists n, rd t (bucket map (he_hash x)) = Ok n /\
    let h' := <[e := mkEntry n (he_hash x)]> h in
    let t' := <[Z.to_nat (bucket map (he_hash x)) := e]> t in
    set_next h e n = Ok h' /\ wr t (bucket map (he_hash x)) e = Ok t' /\ same_hashes h h' /\
    exists bs', table_ok h' (set_table map t') t' bs' /\ concat bs' ≡ₚ e :: concat bs.
Proof.
  intros Hok Hn He Hx. pose proof (to_hashes _ _ _ _ Hok _ _ Hx) as Hhx.
  destruct (table_bucket _ _ _ _ (he_hash x) Hok) as (n & l & Hrd & Htn & Hbl & Hcl); [lia|]. exists n. split; [done|]. cbn zeta.
  pose proof (bucket_range map (he_hash x) (to_size _ _ _ _ Hok) ltac:(lia)) as Hb.
  destruct Hok as [Ht Hl Hs Hc Hnd Hp Hh].
  split_and!; [by apply set_next_Some|apply wr_ok; lia|by apply same_hashes_set|].
  destruct (chains_push h t bs _ e x l n Hc Hbl Htn Hn He Hx) as [Hc' Hperm]. eexists. split; [|exact Hperm].
  constructor; cbn [table tablesize set_table]; try done.
  - by rewrite len_insert.
  - rewrite Hperm. by constructor.
  - intros b l2 a y Hb2 Ha Hy. destruct (decide (b = Z.to_nat (bucket map (he_hash x)))) as [->|Hne].
    + rewrite list_lookup_insert_eq in Hb2 by (by eapply lookup_lt_Some). injection Hb2 as <-.
      apply elem_of_cons in Ha as [->|Ha]; [rewrite lookup_insert_eq in Hy; by injection Hy as <-|].
      rewrite lookup_insert_ne in Hy by (intros ->; apply Hn, elem_of_concat; by eexists _, _). by eapply Hp.
    + rewrite list_lookup_insert_ne in Hb2 by done.
      rewrite lookup_insert_ne in Hy by (intros ->; apply Hn, elem_of_concat; by eexists _, _). by eapply Hp.
  - by eapply hashes_ok_same; [apply same_hashes_set|].
Qed.

(** ** Rehashing *)

Lemma size_set_next (h : heap) e x y : h !! e = Some x -> size (<[e := y]> h) = size h.
Proof. intros Hx. apply map_size_insert_Some. by rewrite Hx. Qed.

(** Moving a chain into the new table; other chains are not touched. *)
Lemma move_chain_run map : forall l fuel h t bs e, table_ok h (set_table map t) t bs -> chain h e l -> NoDup (l ++ concat bs) -> (length l < fuel)%nat ->
  exists h' t' bs', loop fuel (move_step map) (h, t, e) = Ok (h', t') /\ table_ok h' (set_table map t') t' bs' /\
    concat bs' ≡ₚ l ++ concat bs /\ same_hashes h h' /\ size h' = size h /\
    (forall p k, (forall x, x ∈ l -> x ∉ k) -> chain h p k -> chain h' p k).
Proof.
  induction l as [|a l IH]; intros fuel h t bs e Hok Hc Hnd Hf; (destruct fuel as [|fuel]; [lia|]); rewrite loop_S; unfold move_step at 1.
  - cbn in Hc. subst e. cbn [tr Z.eqb negb]. exists h, t, bs. by split_and!.
  - destruct Hc as (-> & Ha & x & Hx & Hc). rewrite (proj2 (tr_true a)) by done. rewrite (ld_Some _ _ _ Ha Hx). cbn [mbind res_bind]. cbn zeta.
    apply NoDup_cons in Hnd as [Hna Hnd]. rewrite not_elem_of_app in Hna. destruct Hna as [Hal Hab].
    destruct (push_ok h _ t bs a x Hok Hab Ha Hx) as (n & Hrd & Hsn & Hwr & Hsame & bs' & Hok' & Hperm).
    change (bucket (set_table map t) (he_hash x)) with (bucket map (he_hash x)) in *. rewrite Hrd. cbn [mbind res_bind]. rewrite Hsn. cbn [mbind res_bind].
    rewrite Hwr. cbn [mbind res_bind]. set (h1 := <[a := mkEntry n (he_hash x)]> h) in *. set (t1 := <[_ := a]> t) in *.
    change (set_table (set_table map t) t1) with (set_table map t1) in Hok'.
    destruct (IH fuel h1 t1 bs' (he_next x) Hok') as (h' & t' & bs2 & E & Hok2 & Hperm2 & Hsame2 & Hsize & Hfr).
    { by apply chain_frame. }
    { rewrite Hperm, <- Permutation_middle. constructor; [|done]. by rewrite not_elem_of_app. }
    { simpl in Hf. lia. }
    exists h', t', bs2. split_and!; try done.
    + rewrite Hperm2, Hperm. cbn [app]. by rewrite <- Permutation_middle.
    + by etrans.
    + rewrite Hsize. by eapply size_set_next.
    + intros p k Hk Hck. apply Hfr; [intros y Hy; apply Hk; set_solver|]. apply chain_frame; [apply Hk; set_solver|done].
Qed.

Lemma rehash_run map oldsize oldtable : oldsize = len oldtable -> forall ots obs pre h t bs fuel, oldtable = pre ++ ots ->
  table_ok h (set_table map t) t bs -> chains h ots obs -> NoDup (concat obs ++ concat bs) -> (length ots < fuel)%nat ->
  exists h' t' bs', loop fuel (rehash_step map oldsize oldtable) (h, t, len pre) = Ok (h', t') /\ table_ok h' (set_table map t') t' bs' /\
    concat bs' ≡ₚ concat obs ++ concat bs /\ same_hashes h h'.
Proof.
  intros Hsz. induction ots as [|p ots IH]; intros obs pre h t bs fuel Hold Hok Hc Hnd Hf; (destruct fuel as [|fuel]; [lia|]); rewrite loop_S;
    unfold rehash_step at 1.
  - apply Forall2_nil_inv_l in Hc as ->. rewrite app_nil_r in Hold. subst oldtable oldsize. rewrite Z.ltb_irrefl. exists h, t, bs. by split_and!.
  - apply Forall2_cons_inv_l in Hc as (l & obs' & Hcl & Hc & ->). cbn [concat] in *. rewrite <- app_assoc in Hnd |- *.
    assert (rd oldtable (len pre) = Ok p) as -> by (rewrite Hold; by apply rd_mid). cbn [mbind res_bind].
    destruct (Z.ltb_spec (len pre) oldsize) as [_|]; [|subst; rewrite len_app, len_cons in *; pose proof (len_nonneg ots); lia].
    assert (NoDup (l ++ concat bs)) as Hnd1.
    { apply NoDup_app in Hnd as (H1 & H2 & H3). apply NoDup_app in H3 as (H3 & H4 & H5). apply NoDup_app. split_and!; [done| |done].
      intros x Hx. specialize (H2 x Hx). rewrite not_elem_of_app in H2. by destruct H2. }
    destruct (move_chain_run map l (S (size h)) h t bs p Hok Hcl Hnd1) as (h1 & t1 & bs1 & -> & Hok1 & Hperm1 & Hsame1 & _ & Hfr).
    { apply NoDup_app in Hnd1 as [Hnl _]. apply chain_nonnull in Hcl. pose proof (nodup_size h l Hnl) as Hsize. rewrite Nat.lt_succ_r. apply Hsize.
      eapply Forall_impl; [exact Hcl|]. by intros x [_ ?]. }
    cbn [mbind res_bind]. replace (len pre + 1) with (len (pre ++ [p])) by (by rewrite len_app).
    destruct (IH obs' (pre ++ [p]) h1 t1 bs1 fuel) as (h2 & t2 & bs2 & E & Hok2 & Hperm2 & Hsame2).
    + by rewrite <- app_assoc.
    + done.
    + clear -Hc Hfr Hnd. apply NoDup_app in Hnd as (_ & Hdis & _).
      assert (forall x, x ∈ l -> x ∉ concat obs') as Hd by (intros x Hx; specialize (Hdis x Hx); rewrite not_elem_of_app in Hdis; tauto).
      clear Hdis. induction Hc as [|q k ots obs' Hq Hc IHc]; constructor.
      * apply Hfr; [|done]. intros x Hx. specialize (Hd x Hx). cbn [concat] in Hd. rewrite not_elem_of_app in Hd. tauto.
      * apply IHc. intros x Hx. specialize (Hd x Hx). cbn [concat] in Hd. rewrite not_elem_of_app in Hd. tauto.
    + rewrite Hperm1. rewrite (app_assoc (concat obs') l), (Permutation_app_comm (concat obs') l), <- app_assoc. done.
    + simpl in Hf. lia.
    + exists h2, t2, bs2. split_and!; try done; [|by etrans]. rewrite Hperm2, Hperm1.
      by rewrite (app_assoc (concat obs') l), (Permutation_app_comm (concat obs') l), <- app_assoc.
Qed.

(** ** Maps as multisets of entries *)

(** The sizes of a table. *)
Definition quads (n : Z) : Prop := exists j, 0 <= j /\ n = 64 * 4 ^ j.

Lemma quads_grow n : quads n -> 64 <= n /\ quads (4 * n).
Proof.
  intros (j & Hj & ->). split; [pose proof (Z.pow_pos_nonneg 4 j); lia|]. exists (j + 1). split; [lia|]. rewrite Z.pow_add_r by lia. lia.
Qed.

Lemma quads_shrink n : quads n -> 64 < n -> quads (n `div` 4).
Proof.
  intros (j & Hj & ->) Hn. destruct (decide (j = 0)) as [->|]; [done|]. exists (j - 1). split; [lia|].
  replace j with (j - 1 + 1) at 1 by lia. rewrite Z.pow_add_r by lia. dlia.
Qed.

(** The thresholds belong to the size of the table, which is at most 80 percent
    full. *)
Record sizes_ok (map : hashmap) (n : Z) : Prop := {
  so_grow : grow_at map = (tablesize map * 80) `div` 100;
  so_shrink : shrink_at map = 0 \/ (64 < tablesize map /\ shrink_at map = grow_at map `div` 5);
  so_size : tablesize map < 2 ^ 31;
  so_quads : quads (tablesize map);
  so_count : do_count_items map = true;
  so_nr : private_size map = n;
  so_load : n <= grow_at map;
}.

(** The map [map] consists of the entries [es]. *)
Definition map_ok (h : heap) (map : hashmap) (es : list Z) : Prop :=
  exists t bs, table_ok h map t bs /\ concat bs ≡ₚ es /\ sizes_ok map (len es).

Lemma placed_nil h sz n : placed h sz (replicate n []).
Proof. intros b l e x [-> _]%lookup_replicate He. by apply elem_of_nil in He. Qed.

Lemma concat_nils n : concat (replicate n (@nil Z)) = [].
Proof. by induction n. Qed.

Lemma nils_ok h map sz n : table map = Some (replicate (Z.to_nat sz) 0) -> tablesize map = sz -> 0 < sz < 2 ^ 32 -> hashes_ok h ->
  n = Z.to_nat sz -> table_ok h map (replicate n 0) (replicate n []).
Proof.
  intros Ht Hsz Hr Hh ->. constructor; rewrite ?Hsz; try done.
  - unfold len. rewrite length_replicate. lia.
  - apply Forall2_replicate_l; [by rewrite length_replicate|]. by apply Forall_replicate.
  - rewrite concat_nils. constructor.
  - apply placed_nil.
Qed.

Section Rehash.
Context `{Memory}.

Lemma alloc_table_spec map sz : 64 <= sz < 2 ^ 32 -> wp oom (alloc_table map sz) (fun map' =>
  table map' = Some (replicate (Z.to_nat sz) 0) /\ tablesize map' = sz /\ private_size map' = private_size map /\
  do_count_items map' = do_count_items map /\ grow_at map' = (sz * 80) `div` 100 /\
  (shrink_at map' = 0 \/ (64 < sz /\ shrink_at map' = grow_at map' `div` 5))).
Proof.
  intros Hsz. unfold alloc_table. apply wp_bind. eapply (wp_mono _ _ (fun t => t = replicate (Z.to_nat sz) 0)).
  { unfold CALLOC_ARRAY. apply wp_bind. eapply wp_mono; [apply xcalloc_oom; lia|]. by intros _ _. }
  intros t ->. apply wp_ret. unfold HASHMAP_LOAD_FACTOR, HASHMAP_INITIAL_SIZE. cbn [table tablesize private_size do_count_items grow_at shrink_at].
  rewrite u64_small by lia. rewrite u32_small by dlia. split_and!; try done. destruct (Z.leb_spec sz 64); [by left|]. right. split; [lia|done].
Qed.

Lemma rehash_spec h map es newsize : (exists t bs, table_ok h map t bs /\ concat bs ≡ₚ es) -> newsize < 2 ^ 31 -> quads newsize ->
  do_count_items map = true -> private_size map = len es -> len es <= (newsize * 80) `div` 100 ->
  wp oom (rehash h map newsize) (fun '(h', map') => map_ok h' map' es /\ same_hashes h h').
Proof.
  intros (t & bs & Hok & Hperm) Hsz Hqd Hcount Hnr Hload. pose proof (quads_grow _ Hqd) as [H64 _]. unfold rehash. rewrite (the_table_ok _ _ _ _ Hok). cbn [mbind res_bind]. cbn zeta.
  apply wp_bind. eapply wp_mono; [apply alloc_table_spec; lia|]. intros map' (Ht & Hts & Hps & Hdo & Hg & Hs).
  unfold the_table. rewrite Ht. cbn [mbind res_bind]. set (t0 := replicate (Z.to_nat newsize) 0) in *.
  assert (table_ok h (set_table map' t0) t0 (replicate (Z.to_nat newsize) [])) as Hok0.
  { eapply nils_ok; [done|done|lia|apply Hok|done]. }
  destruct (rehash_run map' (tablesize map) t (eq_sym (to_len _ _ _ _ Hok)) t bs [] h t0 _ (S (Z.to_nat (tablesize map))) eq_refl Hok0 (to_chains _ _ _ _ Hok))
    as (h' & t' & bs' & E & Hok' & Hperm' & Hsame).
  { rewrite concat_nils, app_nil_r. apply Hok. }
  { rewrite <- (to_len _ _ _ _ Hok). llia. }
  change (len []) with 0 in E. rewrite E. cbn [mbind res_bind]. apply wp_ret. split; [|done]. exists t', bs'. split_and!; [done| |].
  - by rewrite Hperm', concat_nils, app_nil_r.
  - constructor; cbn [set_table grow_at shrink_at tablesize do_count_items private_size]; rewrite ?Hts, ?Hg; try (done || lia).
    + destruct Hs as [?|[? ?]]; [by left|right]. by rewrite <- Hg.
    + by rewrite Hdo.
Qed.

Lemma push_spec h map t bs es entry x : table_ok h map t bs -> concat bs ≡ₚ es -> sizes_ok map (len es) -> entry ∉ es -> entry <> 0 ->
  h !! entry = Some x -> len es < 2 ^ 28 ->
  wp oom (hashmap_add h map entry) (fun '(h', map') => map_ok h' map' (entry :: es) /\ same_hashes h h').
Proof.
  intros Hok Hperm [Hg Hs Hts Hqd Hc Hnr Hload] Hn He Hx Hlen. pose proof (quads_grow _ Hqd) as [H64 Hq4]. unfold hashmap_add. rewrite (to_table _ _ _ _ Hok). cbn [mbind res_bind].
  rewrite (the_table_ok _ _ _ _ Hok). cbn [mbind res_bind]. rewrite (ld_Some _ _ _ He Hx). cbn [mbind res_bind]. cbn zeta.
  destruct (push_ok h map t bs entry x Hok) as (n & -> & Hsn & Hwr & Hsame & bs' & Hok' & Hperm'); [by rewrite Hperm|done|done|].
  cbn [mbind res_bind]. rewrite Hsn. cbn [mbind res_bind]. rewrite Hwr. cbn [mbind res_bind].
  set (h1 := <[entry := _]> h) in *. set (t1 := <[_ := entry]> t) in *.
  change (do_count_items (set_table map t1)) with (do_count_items map). rewrite Hc.
  assert (concat bs' ≡ₚ entry :: es) as Hp' by (by rewrite Hperm', Hperm). pose proof (len_nonneg es).
  assert (u32 (private_size map + 1) = len (entry :: es)) as Hsz by (rewrite u32_small, len_cons by lia; lia).
  cbn [set_table set_size grow_at private_size tablesize]. rewrite Hsz.
  assert (table_ok h1 (set_size (set_table map t1) (len (entry :: es))) t1 bs') as Hok1 by (destruct Hok'; constructor; done).
  destruct (Z.ltb_spec (grow_at map) (len (entry :: es))) as [Hgt|Hle].
  - assert (u32 (tablesize map <<. HASHMAP_RESIZE_BITS) = 4 * tablesize map) as Hnew.
    { unfold HASHMAP_RESIZE_BITS. rewrite Z.shiftl_mul_pow2 by done. rewrite len_cons in Hgt. rewrite u32_small by dlia. lia. }
    eapply wp_mono; [apply (rehash_spec h1 _ (entry :: es)); cbn [set_table set_size do_count_items private_size]|].
    + by exists t1, bs'.
    + rewrite Hnew. rewrite len_cons in Hgt. dlia.
    + by rewrite Hnew.
    + done.
    + done.
    + rewrite Hnew. rewrite len_cons in *. dlia.
    + intros [h' map'] [? ?]. split; [done|]. by etrans.
  - apply wp_ret. split; [|done]. exists t1, bs'. split_and!; [done|done|]. constructor; cbn [set_table set_size grow_at shrink_at tablesize do_count_items private_size]; done.
Qed.
End Rehash.

(** ** Looking up *)

(** The slot behind the entries [l1] of the bucket [b]. *)
Definition slot_of (b : Z) (l1 : list Z) : slot := match last l1 with None => STable b | Some e => SNext e end.

Lemma chain_slot h t b n l1 l2 : t !! Z.to_nat b = Some n -> 0 <= b -> chain h n (l1 ++ l2) -> slot_rd h t (slot_of b l1) = Ok (hd 0 l2).
Proof.
  intros Ht Hb Hc. destruct (decide (l1 = [])) as [->|(l1' & a & ->)%exists_last].
  - cbn. rewrite (rd_Some _ _ _ Hb Ht). f_equal. by eapply chain_head.
  - unfold slot_of. rewrite last_snoc. cbn [slot_rd]. clear Ht. revert n Hc. induction l1' as [|c l1' IH]; intros n Hc.
    + destruct Hc as (-> & Ha & x & Hx & Hc). rewrite (ld_Some _ _ _ Ha Hx). cbn [mbind res_bind]. f_equal. by eapply chain_head.
    + destruct Hc as (_ & _ & x & _ & Hc). by eapply IH.
Qed.

(** Taking the entry behind a slot out of its chain. *)
Lemma chain_unlink h n l1 a e l2 x y : NoDup (l1 ++ a :: e :: l2) -> chain h n (l1 ++ a :: e :: l2) -> h !! e = Some x -> h !! a = Some y ->
  chain (<[a := mkEntry (he_next x) (he_hash y)]> h) n (l1 ++ a :: l2).
Proof.
  intros Hnd Hc Hx Hy. revert n Hc. induction l1 as [|c l1 IH]; intros n Hc; cbn [app] in *.
  - destruct Hc as (-> & Ha & y' & Hy' & (E & He & x' & Hx' & Hc)). rewrite Hx in Hx'. injection Hx' as <-. split_and!; [done|done|].
    eexists. rewrite lookup_insert_eq. split; [done|]. cbn [he_next]. apply chain_frame; [|done]. apply NoDup_cons in Hnd as [Hna _]. set_solver.
  - apply NoDup_cons in Hnd as [Hnc Hnd]. destruct Hc as (-> & Hc0 & z & Hz & Hc). split_and!; [done|done|]. exists z.
    rewrite lookup_insert_ne by set_solver. split; [done|]. by apply IH.
Qed.

Lemma concat_disjoint (bs : list (list Z)) i j l l' e : NoDup (concat bs) -> bs !! i = Some l -> bs !! j = Some l' -> i <> j -> e ∈ l -> e ∉ l'.
Proof.
  intros Hnd Hi Hj Hne He He'. revert bs i j Hnd Hi Hj Hne. assert (forall (bs : list (list Z)) i j, NoDup (concat bs) -> bs !! i = Some l -> bs !! j = Some l' -> (i < j)%nat -> False) as Hlt.
  { intros bs i j Hnd Hi Hj Hij. rewrite <- (take_drop_middle bs i l Hi), concat_app in Hnd. cbn [concat] in Hnd.
    apply NoDup_app in Hnd as (_ & _ & Hnd). apply NoDup_app in Hnd as (_ & Hd & _). apply (Hd e He). apply elem_of_concat.
    exists (j - S i)%nat, l'. split; [|done]. rewrite lookup_drop. by replace (S i + (j - S i))%nat with j by lia. }
  assert (forall (bs : list (list Z)) i j, NoDup (concat bs) -> bs !! i = Some l' -> bs !! j = Some l -> (i < j)%nat -> False) as Hgt.
  { intros bs i j Hnd Hi Hj Hij. rewrite <- (take_drop_middle bs i l' Hi), concat_app in Hnd. cbn [concat] in Hnd.
    apply NoDup_app in Hnd as (_ & _ & Hnd). apply NoDup_app in Hnd as (_ & Hd & _). apply (Hd e He'). apply elem_of_concat.
    exists (j - S i)%nat, l. split; [|done]. rewrite lookup_drop. by replace (S i + (j - S i))%nat with j by lia. }
  intros bs i j Hnd Hi Hj Hne. destruct (decide (i < j)%nat); [by eapply Hlt|]. eapply (Hgt bs j i); [done..|lia].
Qed.

(** Changing the bucket that holds [a] and [a] itself. *)
Lemma chains_update h t bs b l a y n' l' : chains h t bs -> NoDup (concat bs) -> bs !! b = Some l -> a ∈ l -> chain (<[a := y]> h) n' l' ->
  chains (<[a := y]> h) (<[b := n']> t) (<[b := l']> bs).
Proof.
  intros Hc Hnd Hb Ha Hn. pose proof (Forall2_length _ _ _ Hc) as Hlen. apply Forall2_same_length_lookup. split; [by rewrite !length_insert|].
  intros i x k Hx Hk. destruct (decide (i = b)) as [->|Hne].
  - rewrite list_lookup_insert_eq in Hk by (by eapply lookup_lt_Some). rewrite list_lookup_insert_eq in Hx by (rewrite Hlen; by eapply lookup_lt_Some).
    by injection Hk as <-; injection Hx as <-.
  - rewrite list_lookup_insert_ne in Hx by done. rewrite list_lookup_insert_ne in Hk by done. apply chain_frame; [apply (concat_disjoint bs b i l k a); by auto|]. by eapply Forall2_lookup_lr in Hc.
Qed.

Lemma unlink_chains h t bs b bz n m1 e m x : chains h t bs -> NoDup (concat bs) -> b = Z.to_nat bz -> 0 <= bz < len t -> t !! b = Some n ->
  bs !! b = Some (m1 ++ e :: m) -> h !! e = Some x ->
  exists h1 t1, slot_wr h t (slot_of bz m1) (he_next x) = Ok (h1, t1) /\ chains h1 t1 (<[b := m1 ++ m]> bs) /\
    len t1 = len t /\ same_hashes h h1 /\ (exists x1, h1 !! e = Some x1 /\ he_hash x1 = he_hash x).
Proof.
  intros Hc Hnd -> Hbz Htn Hbl Hx. pose proof (Forall2_lookup_lr _ _ _ _ _ _ Hc Htn Hbl) as Hcl.
  assert (NoDup (m1 ++ e :: m)) as Hndl.
  { destruct (concat_insert bs _ _ [] Hbl) as (pre & post & E & _). rewrite E in Hnd. by apply NoDup_app in Hnd as (_ & _ & [? _]%NoDup_app). }
  destruct (decide (m1 = [])) as [->|(l & a & ->)%exists_last].
  - cbn [app] in *. destruct Hcl as (-> & He & x' & Hx' & Hcl). rewrite Hx in Hx'. injection Hx' as <-.
    cbn [slot_of last slot_wr]. rewrite wr_ok by done. eexists h, _. split; [done|]. split_and!; [|by rewrite len_insert|done|by exists x].
    by apply Forall2_insert.
  - rewrite <- app_assoc in *. cbn [app] in *. pose proof (chain_nonnull _ _ _ Hcl) as Hnn. rewrite Forall_forall in Hnn.
    destruct (Hnn a) as [Ha [y Hy]]; [set_solver|]. unfold slot_of. rewrite last_snoc. cbn [slot_wr].
    rewrite (set_next_Some _ _ _ _ Ha Hy). cbn [mbind res_bind]. eexists _, t. split; [done|]. pose proof (same_hashes_set h a y (he_next x) Hy) as Hsame.
    split_and!; [|done|done|by eapply same_hashes_Some].
    rewrite <- (list_insert_id t _ n Htn). eapply chains_update; [done|done|exact Hbl|set_solver|]. by eapply chain_unlink.
Qed.

Lemma unlink_ok h map t bs bz n m1 e m x : table_ok h map t bs -> 0 <= bz < tablesize map -> t !! Z.to_nat bz = Some n ->
  bs !! Z.to_nat bz = Some (m1 ++ e :: m) -> h !! e = Some x -> e <> 0 ->
  exists h1 t1 h2 bs', slot_wr h t (slot_of bz m1) (he_next x) = Ok (h1, t1) /\ set_next h1 e 0 = Ok h2 /\
    table_ok h2 (set_table map t1) t1 bs' /\ same_hashes h h2 /\ concat bs ≡ₚ e :: concat bs'.
Proof.
  intros [Ht Hl Hs Hc Hnd Hp Hh] Hbz Htn Hbl Hx He.
  destruct (unlink_chains h t bs _ bz n m1 e m x Hc Hnd eq_refl) as (h1 & t1 & Hwr & Hc1 & Hl1 & Hsame & x1 & Hx1 & Hhx1); [lia|done..|].
  assert (same_hashes h (<[e := mkEntry 0 (he_hash x1)]> h1)) as Hsame2 by (etrans; [done|by apply same_hashes_set]).
  assert (concat bs ≡ₚ e :: concat (<[Z.to_nat bz := m1 ++ m]> bs)) as Hperm.
  { destruct (concat_insert bs _ _ (m1 ++ m) Hbl) as (pre & post & -> & ->). rewrite <- !app_assoc. cbn [app].
    rewrite !(app_assoc pre). by rewrite <- Permutation_middle. }
  rewrite Hperm in Hnd. apply NoDup_cons in Hnd as [Hne Hnd].
  exists h1, t1, (<[e := mkEntry 0 (he_hash x1)]> h1), (<[Z.to_nat bz := m1 ++ m]> bs). split_and!; [done|by apply set_next_Some| |done|done].
  constructor; cbn [set_table table tablesize]; try done.
  - lia.
  - by apply chains_frame.
  - apply (placed_same h); [done|]. intros b l a y Hb Ha Hy. destruct (decide (b = Z.to_nat bz)) as [->|Hneb].
    + rewrite list_lookup_insert_eq in Hb by (by eapply lookup_lt_Some). injection Hb as <-. apply (Hp _ (m1 ++ e :: m) a y); [exact Hbl|set_solver|done].
    + rewrite list_lookup_insert_ne in Hb by done. by eapply Hp.
  - by eapply hashes_ok_same.
Qed.

Section Keys.
Context {K Key : Type} `{!EqDecision Key} (cmpfn : Z -> Z -> option K -> Z) (keyof : Z -> Key) (kd : option K).

(** The comparison function compares keys. *)
Hypothesis Hcmp : forall e1 e2, cmpfn e1 e2 kd = 0 <-> keyof e1 = keyof e2.

(** Equal keys have equal hashes. *)
Definition keyed (h : heap) : Prop := forall e1 e2 x1 x2, h !! e1 = Some x1 -> h !! e2 = Some x2 -> keyof e1 = keyof e2 -> he_hash x1 = he_hash x2.

Lemma keyed_same h h' : same_hashes h h' -> keyed h -> keyed h'.
Proof using.
  intros Hs Hk e1 e2 x1 x2 H1 H2 E. symmetry in Hs. destruct (same_hashes_Some _ _ _ _ Hs H1) as (y1 & Hy1 & <-).
  destruct (same_hashes_Some _ _ _ _ Hs H2) as (y2 & Hy2 & <-). by eapply Hk.
Qed.

Lemma entry_equals_spec h e1 e2 : keyed h -> e1 <> 0 -> e2 <> 0 -> is_Some (h !! e1) -> is_Some (h !! e2) ->
  entry_equals cmpfn h e1 e2 kd = Ok (bool_decide (keyof e1 = keyof e2)).
Proof using Hcmp EqDecision0.
  intros Hk H1 H2 [x1 Hx1] [x2 Hx2]. unfold entry_equals. destruct (Z.eqb_spec e1 e2) as [->|Hne]; [by rewrite bool_decide_eq_true_2|].
  rewrite (ld_Some _ _ _ H1 Hx1), (ld_Some _ _ _ H2 Hx2). cbn [mbind res_bind]. f_equal. apply eq_bool_prop_intro.
  rewrite andb_True, negb_True, bool_decide_spec. split.
  - intros [_ Ht]. apply Hcmp. destruct (decide (cmpfn e1 e2 kd = 0)) as [|Hn]; [done|]. destruct Ht. by apply Is_true_true, tr_true.
  - intros E. split; [by apply Is_true_true, Z.eqb_eq, (Hk e1 e2)|]. rewrite (proj2 (tr_false _)); [by intros []|by apply Hcmp].
Qed.

Lemma find_run h t b n key : keyed h -> key <> 0 -> is_Some (h !! key) -> t !! Z.to_nat b = Some n -> 0 <= b ->
  forall l2 l1 fuel, chain h n (l1 ++ l2) -> (length l2 < fuel)%nat -> Forall (fun e => keyof e <> keyof key) l1 ->
  exists m1 m2, l1 ++ l2 = m1 ++ m2 /\ loop fuel (find_step cmpfn h t key kd) (slot_of b l1) = Ok (slot_of b m1) /\
    Forall (fun e => keyof e <> keyof key) m1 /\ (m2 = [] \/ exists e m, m2 = e :: m /\ keyof e = keyof key).
Proof using Hcmp EqDecision0.
  intros Hk H0 Hkey Ht Hb. induction l2 as [|e l2 IH]; intros l1 fuel Hc Hf Hl1; (destruct fuel as [|fuel]; [lia|]); rewrite loop_S;
    unfold find_step at 1; rewrite (chain_slot _ _ _ _ _ _ Ht Hb Hc); cbn [mbind res_bind hd].
  - exists l1, []. split_and!; try done. by left.
  - pose proof (chain_nonnull _ _ _ Hc) as Hnn. apply Forall_app in Hnn as [_ Hnn]. apply Forall_cons in Hnn as [[He Hse] _].
    rewrite (proj2 (tr_true e)) by done. cbn [negb]. rewrite entry_equals_spec by done. cbn [mbind res_bind].
    case_bool_decide as E; [exists l1, (e :: l2); split_and!; try done; right; by exists e, l2|].
    replace (SNext e) with (slot_of b (l1 ++ [e])) by (unfold slot_of; by rewrite last_snoc).
    replace (l1 ++ e :: l2) with ((l1 ++ [e]) ++ l2) in Hc |- * by (by rewrite <- app_assoc).
    apply IH; [done|simpl in Hf; lia|]. apply Forall_app. split; [done|]. by constructor.
Qed.

(** The bucket of the key, split at the entry that is found. *)
Lemma find_spec h map t bs key x : table_ok h map t bs -> keyed h -> key <> 0 -> h !! key = Some x ->
  exists n m1 m2, let b := bucket map (he_hash x) in
    find_entry_ptr cmpfn h map key kd = Ok (slot_of b m1) /\ 0 <= b /\ t !! Z.to_nat b = Some n /\ bs !! Z.to_nat b = Some (m1 ++ m2) /\
    chain h n (m1 ++ m2) /\ slot_rd h t (slot_of b m1) = Ok (hd 0 m2) /\
    ((m2 = [] /\ forall e, e ∈ concat bs -> keyof e <> keyof key) \/ exists e m, m2 = e :: m /\ keyof e = keyof key).
Proof using Hcmp EqDecision0.
  intros Hok Hk H0 Hx. pose proof (to_hashes _ _ _ _ Hok _ _ Hx) as Hhx.
  destruct (table_bucket _ _ _ _ (he_hash x) Hok) as (n & l & Hrd & Htn & Hbl & Hcl); [lia|].
  pose proof (bucket_range map (he_hash x) (to_size _ _ _ _ Hok) ltac:(lia)) as Hb.
  pose proof (find_run h t (bucket map (he_hash x)) n key Hk H0 ltac:(by eexists) Htn ltac:(lia) l [] (S (S (size h))) Hcl) as Hr.
  destruct Hr as (m1 & m2 & El & Hrun & Hm1 & Hm2); [|constructor|].
  { apply le_n_S, le_S, nodup_size.
    - pose proof (to_nodup _ _ _ _ Hok) as Hnd. destruct (concat_insert bs _ l l Hbl) as (pre & post & E & _). rewrite E in Hnd.
      by apply NoDup_app in Hnd as (_ & _ & [? _]%NoDup_app).
    - eapply Forall_impl; [eapply chain_nonnull, Hcl|]. by intros ? [_ ?]. }
  cbn [app] in El. subst l. exists n, m1, m2. cbn zeta. unfold find_entry_ptr. rewrite (the_table_ok _ _ _ _ Hok). cbn [mbind res_bind].
  rewrite (ld_Some _ _ _ H0 Hx). cbn [mbind res_bind]. split_and!; [exact Hrun|lia|done..|by eapply chain_slot; [|lia|]|].
  destruct Hm2 as [->|?]; [left|by right]. split; [done|]. rewrite app_nil_r in *. intros e (b & l & Hbe & He)%elem_of_concat E.
  assert (is_Some (h !! e)) as [y Hy].
  { destruct (Forall2_lookup_r _ _ _ _ _ (to_chains _ _ _ _ Hok) Hbe) as (? & _ & Hcl2). apply chain_nonnull in Hcl2.
    rewrite Forall_forall in Hcl2. by apply Hcl2. }
  pose proof (to_placed _ _ _ _ Hok b l e y Hbe He Hy) as Hp. rewrite (Hk e key y x Hy Hx E) in Hp. fold (bucket map (he_hash x)) in Hp. subst b.
  rewrite Hbl in Hbe. injection Hbe as <-. rewrite Forall_forall in Hm1. by apply (Hm1 e).
Qed.

Lemma hashmap_get_spec h map es key : map_ok h map es -> keyed h -> key <> 0 -> is_Some (h !! key) ->
  exists r, hashmap_get cmpfn h map key kd = Ok r /\
    ((r = 0 /\ forall e, e ∈ es -> keyof e <> keyof key) \/ (r <> 0 /\ r ∈ es /\ keyof r = keyof key)).
Proof using Hcmp EqDecision0.
  intros (t & bs & Hok & Hperm & _) Hk H0 [x Hx].
  destruct (find_spec h map t bs key x Hok Hk H0 Hx) as (n & m1 & m2 & Hf & Hb & Htn & Hbl & Hc & Hrd & Hm).
  unfold hashmap_get. rewrite (to_table _ _ _ _ Hok), Hf. cbn [mbind res_bind]. rewrite Hrd. eexists. split; [done|].
  destruct Hm as [[-> Hm]|(e & m & -> & Hm)]; [left|right]; cbn [hd].
  - split; [done|]. intros e He. apply Hm. by rewrite Hperm.
  - apply chain_nonnull, Forall_app in Hc as [_ Hc]. apply Forall_cons in Hc as [[? _] _]. split_and!; [done| |done].
    rewrite <- Hperm. apply elem_of_concat. exists (Z.to_nat (bucket map (he_hash x))), (m1 ++ e :: m). split; [done|set_solver].
Qed.

Context `{Memory}.

Lemma hashmap_remove_spec h map es key : map_ok h map es -> keyed h -> key <> 0 -> is_Some (h !! key) -> len es < 2 ^ 28 ->
  wp oom (hashmap_remove cmpfn h map key kd) (fun '(h', map', r) => same_hashes h h' /\
    ((r = 0 /\ map_ok h' map' es /\ forall e, e ∈ es -> keyof e <> keyof key) \/
     (r <> 0 /\ keyof r = keyof key /\ exists es', es ≡ₚ r :: es' /\ map_ok h' map' es'))).
Proof using Hcmp EqDecision0.
  intros (t & bs & Hok & Hperm & Hsz) Hk H0 [x Hx] Hlen.
  destruct (find_spec h map t bs key x Hok Hk H0 Hx) as (n & m1 & m2 & Hf & Hb & Htn & Hbl & Hc & Hrd & Hm).
  unfold hashmap_remove. rewrite (to_table _ _ _ _ Hok), Hf. cbn [mbind res_bind]. rewrite Hrd. cbn [mbind res_bind].
  destruct Hm as [[-> Hm]|(e & m & -> & Hm)]; cbn [hd].
  { cbn [negb tr Z.eqb]. apply wp_ret. split; [done|]. left. split_and!; [done|by exists t, bs|]. intros e He. apply Hm. by rewrite Hperm. }
  pose proof (chain_nonnull _ _ _ Hc) as Hnn. apply Forall_app in Hnn as [_ Hnn]. apply Forall_cons in Hnn as [[He [y Hy]] _].
  rewrite (proj2 (tr_true e)) by done. cbn [negb]. rewrite (ld_Some _ _ _ He Hy). cbn [mbind res_bind].
  pose proof (bucket_range map (he_hash x) (to_size _ _ _ _ Hok) ltac:(destruct (to_hashes _ _ _ _ Hok _ _ Hx); lia)) as Hbr.
  destruct (unlink_ok h map t bs _ n m1 e m y Hok Hbr Htn Hbl Hy He) as (h1 & t1 & h2 & bs' & -> & Hsn & Hok' & Hsame & Hpc).
  cbn [mbind res_bind]. rewrite Hsn. cbn [mbind res_bind]. cbn zeta. destruct Hsz as [Hg Hs Hts Hqd Hcn Hnr Hload]. pose proof (quads_grow _ Hqd) as [H64 _].
  assert (es ≡ₚ e :: concat bs') as Hes by (by rewrite <- Hperm, Hpc). pose proof (Permutation_length Hes) as Hle. cbn [length] in Hle.
  assert (len es = 1 + len (concat bs')) as Hle' by llia. pose proof (len_nonneg (concat bs')).
  apply wp_bind. eapply (wp_mono _ _ (fun '(h', map') => map_ok h' map' (concat bs') /\ same_hashes h h')).
  2:{ intros [h' map'] [Hmap Hs']. apply wp_ret. split; [done|]. right. split_and!; [done|done|]. by exists (concat bs'). }
  change (do_count_items (set_table map t1)) with (do_count_items map). rewrite Hcn.
  cbn [set_table set_size private_size shrink_at tablesize]. rewrite Hnr, Hle'. replace (1 + len (concat bs') - 1) with (len (concat bs')) by lia.
  rewrite u32_small by lia.
  assert (table_ok h2 (set_size (set_table map t1) (len (concat bs'))) t1 bs') as Hok2 by (destruct Hok'; by constructor).
  destruct (Z.ltb_spec (len (concat bs')) (shrink_at map)) as [Hlt|Hge].
  - assert (tablesize map >>. HASHMAP_RESIZE_BITS = tablesize map `div` 4) as Hnew by (by rewrite Z.shiftr_div_pow2).
    destruct Hs as [Hs|[H64' Hs]]; [lia|].
    eapply wp_mono; [apply (rehash_spec h2 _ (concat bs')); cbn [set_table set_size do_count_items private_size]|].
    + by exists t1, bs'.
    + rewrite Hnew. dlia.
    + rewrite Hnew. by apply quads_shrink.
    + done.
    + done.
    + rewrite Hnew. dlia.
    + intros [h' map'] [? ?]. split; [done|]. by etrans.
  - apply wp_ret. split; [|done]. exists t1, bs'. split_and!; [done|done|].
    constructor; cbn [set_table set_size grow_at shrink_at tablesize do_count_items private_size]; try done. lia.
Qed.
End Keys.

(** ** Iterating *)

(** The iterator stands in front of the entries [rem]. *)
Definition at_iter (h : heap) (t : list Z) (it : hashmap_iter) (rem : list Z) : Prop :=
  exists pre ots obs l, t = pre ++ ots /\ chains h ots obs /\ chain h (it_next it) l /\ tablepos it = len pre /\ rem = l ++ concat obs.

Lemma at_iter_init h map t bs : table_ok h map t bs -> at_iter h t hashmap_iter_init (concat bs).
Proof. intros Hok. exists [], t, bs, []. split_and!; try done. apply Hok. Qed.

Lemma iter_run h map t : table map = Some t -> len t = tablesize map -> forall ots obs pre cur l nx fuel, t = pre ++ ots -> chains h ots obs ->
  chain h cur l -> (length ots + 1 < fuel)%nat ->
  exists r it, loop fuel (iter_step h map) (cur, mkIter nx (len pre)) = Ok (r, it) /\
    match l ++ concat obs with [] => r = 0 | e :: rem => r = e /\ e <> 0 /\ is_Some (h !! e) /\ at_iter h t it rem end.
Proof.
  intros Ht Hl. assert (forall ots obs pre cur l nx fuel, t = pre ++ ots -> chains h ots obs -> chain h cur l -> l <> [] -> (0 < fuel)%nat ->
    exists r it, loop fuel (iter_step h map) (cur, mkIter nx (len pre)) = Ok (r, it) /\
    match l ++ concat obs with [] => r = 0 | e :: rem => r = e /\ e <> 0 /\ is_Some (h !! e) /\ at_iter h t it rem end) as Hhead.
  { intros ots obs pre cur l nx fuel Epre Hc Hcur Hn Hf. destruct fuel as [|fuel]; [lia|]. destruct l as [|e l]; [done|].
    destruct Hcur as (-> & He & x & Hx & Hcl). rewrite loop_S. unfold iter_step at 1. rewrite (proj2 (tr_true e)) by done.
    rewrite (ld_Some _ _ _ He Hx). cbn [mbind res_bind tablepos]. eexists _, _. split; [done|]. cbn [app]. split_and!; [done|done|by eexists|].
    by exists pre, ots, obs, l. }
  induction ots as [|p ots IH]; intros obs pre cur l nx fuel Epre Hc Hcur Hf.
  - destruct l as [|e l]; [|eapply Hhead; [exact Epre|done|done|done|lia]]. apply Forall2_nil_inv_l in Hc as ->. cbn in Hcur. subst cur.
    destruct fuel as [|fuel]; [lia|]. rewrite loop_S. unfold iter_step at 1. cbn [tr Z.eqb negb tablepos]. rewrite app_nil_r in Epre. subst pre.
    destruct (Z.leb_spec (tablesize map) (len t)); [|lia]. by eexists _, _.
  - destruct l as [|e l]; [|eapply Hhead; [exact Epre|done|done|done|lia]]. apply Forall2_cons_inv_l in Hc as (k & obs' & Hk & Hc & ->). cbn in Hcur. subst cur.
    destruct fuel as [|fuel]; [lia|]. rewrite loop_S. unfold iter_step at 1. cbn [tr Z.eqb negb tablepos it_next].
    destruct (Z.leb_spec (tablesize map) (len pre)) as [Hle|_]; [subst t; rewrite len_app, len_cons in Hl; pose proof (len_nonneg ots); lia|].
    unfold the_table. rewrite Ht. cbn [mbind res_bind]. assert (rd t (len pre) = Ok p) as -> by (rewrite Epre; by apply rd_mid).
    cbn [mbind res_bind]. replace (len pre + 1) with (len (pre ++ [p])) by (by rewrite len_app). cbn [app concat].
    apply (IH obs' (pre ++ [p]) p k nx fuel); [by rewrite <- app_assoc|done|done|simpl in Hf; lia].
Qed.

Lemma hashmap_iter_next_spec h map t it rem : table map = Some t -> len t = tablesize map -> at_iter h t it rem ->
  exists r it', hashmap_iter_next h map it = Ok (r, it') /\
    match rem with [] => r = 0 | e :: rem => r = e /\ e <> 0 /\ is_Some (h !! e) /\ at_iter h t it' rem end.
Proof.
  intros Ht Hl (pre & ots & obs & l & E & Hc & Hcl & Hpos & ->). unfold hashmap_iter_next. destruct it as [nx pos]. cbn [tablepos it_next] in *. subst pos.
  apply (iter_run h map t Ht Hl ots obs pre nx l nx); try done. rewrite <- Hl, E. unfold len. rewrite length_app. lia.
Qed.

(** The loop of a caller that visits the entries. *)
Definition visit_entries_step (h : heap) (map : hashmap) (st : list Z * hashmap_iter) : res (list Z * hashmap_iter + list Z) :=
  let '(acc, it) := st in
  '(e, it) ← hashmap_iter_next h map it;
  if tr e then Ok (inl (acc ++ [e], it)) else Ok (inr acc).

Definition visit_entries (h : heap) (map : hashmap) : res (list Z) := loop (S (size h)) (visit_entries_step h map) ([], hashmap_iter_init).

Lemma visit_run h map t : table map = Some t -> len t = tablesize map -> forall rem it acc fuel, at_iter h t it rem -> (length rem < fuel)%nat ->
  loop fuel (visit_entries_step h map) (acc, it) = Ok (acc ++ rem).
Proof.
  intros Ht Hl. induction rem as [|e rem IH]; intros it acc fuel Hit Hf; (destruct fuel as [|fuel]; [lia|]); rewrite loop_S; unfold visit_entries_step at 1;
    destruct (hashmap_iter_next_spec h map t it _ Ht Hl Hit) as (r & it' & -> & Hr); cbn [mbind res_bind].
  - subst r. by rewrite app_nil_r.
  - destruct Hr as (-> & He & _ & Hit'). rewrite (proj2 (tr_true e)) by done. rewrite (IH it' (acc ++ [e]) fuel Hit') by (simpl in Hf; lia).
    by rewrite <- app_assoc.
Qed.

Lemma entries_size h map t bs : table_ok h map t bs -> (length (concat bs) < S (size h))%nat.
Proof.
  intros Hok. rewrite Nat.lt_succ_r. apply nodup_size; [apply Hok|]. eapply Forall_impl; [by eapply table_entries|]. by intros e [_ ?].
Qed.

Lemma visit_spec h map es : map_ok h map es -> exists l, visit_entries h map = Ok l /\ l ≡ₚ es.
Proof.
  intros (t & bs & Hok & Hperm & _). exists (concat bs). split; [|done]. unfold visit_entries.
  apply (visit_run h map t (to_table _ _ _ _ Hok) (to_len _ _ _ _ Hok) _ _ []); [by eapply at_iter_init|by eapply entries_size].
Qed.

(** Freeing the entries while iterating: an entry is not looked at again. *)
Lemma chain_delete h e p l : e ∉ l -> chain h p l -> chain (delete e h) p l.
Proof.
  revert p. induction l as [|a l IH]; intros p Hn; [done|]. apply not_elem_of_cons in Hn as [Hne Hn]. intros (-> & Ha & y & Hy & Hc).
  split_and!; [done|done|]. exists y. split; [by rewrite lookup_delete_ne|by apply IH].
Qed.

Lemma at_iter_delete h t it rem e : e ∉ rem -> at_iter h t it rem -> at_iter (delete e h) t it rem.
Proof.
  intros Hn (pre & ots & obs & l & E & Hc & Hcl & Hpos & ->). apply not_elem_of_app in Hn as [Hnl Hno].
  exists pre, ots, obs, l. split_and!; try done; [|by apply chain_delete]. clear -Hc Hno.
  induction Hc as [|p k ots obs Hk Hc IH]; constructor; cbn [concat] in Hno; apply not_elem_of_app in Hno as [? ?].
  - by apply chain_delete.
  - by apply IH.
Qed.

Lemma free_run map t : table map = Some t -> len t = tablesize map -> forall rem it h fuel, at_iter h t it rem -> NoDup rem -> (length rem < fuel)%nat ->
  exists h', loop fuel (free_step map) (h, it) = Ok h' /\ forall e, h' !! e = if decide (e ∈ rem) then None else h !! e.
Proof.
  intros Ht Hl. induction rem as [|e rem IH]; intros it h fuel Hit Hnd Hf; (destruct fuel as [|fuel]; [lia|]); rewrite loop_S; unfold free_step at 1;
    destruct (hashmap_iter_next_spec h map t it _ Ht Hl Hit) as (r & it' & -> & Hr); cbn [mbind res_bind].
  - subst r. exists h. split; [done|]. intros e. by rewrite decide_False by set_solver.
  - destruct Hr as (-> & He & _ & Hit'). rewrite (proj2 (tr_true e)) by done. apply NoDup_cons in Hnd as [Hne Hnd].
    destruct (IH it' (delete e h) fuel) as (h' & -> & Hh'); [by apply at_iter_delete|done|simpl in Hf; lia|]. exists h'. split; [done|].
    intros a. rewrite Hh'. destruct (decide (a = e)) as [->|Hae].
    + rewrite decide_False by done. rewrite lookup_delete_eq. by rewrite decide_True by set_solver.
    + rewrite lookup_delete_ne by done. destruct (decide (a ∈ rem)); [by rewrite decide_True by set_solver|by rewrite decide_False by set_solver].
Qed.

Lemma hashmap_clear_spec h map es : map_ok h map es ->
  exists h' map', hashmap_clear_ h map true = Ok (h', map') /\ table map' = None /\ forall e, h' !! e = if decide (e ∈ es) then None else h !! e.
Proof.
  intros (t & bs & Hok & Hperm & _). unfold hashmap_clear_, free_individual_entries. rewrite (to_table _ _ _ _ Hok).
  destruct (free_run map t (to_table _ _ _ _ Hok) (to_len _ _ _ _ Hok) (concat bs) hashmap_iter_init h (S (size h))) as (h' & -> & Hh');
    [by eapply at_iter_init|apply Hok|by eapply entries_size|]. cbn [mbind res_bind]. eexists _, _. split_and!; [done|done|].
  intros e. rewrite Hh'. destruct (decide (e ∈ concat bs)) as [He|He]; rewrite Hperm in He; [by rewrite decide_True|by rewrite decide_False].
Qed.

(** ** Initialising *)

Lemma init_run i : i <= 2 ^ 30 -> forall j fuel, 0 <= j <= 12 -> (Z.to_nat (12 - j) < fuel)%nat ->
  exists sz, loop fuel (init_step i) (64 * 4 ^ j) = Ok sz /\ quads sz /\ sz <= 2 ^ 30.
Proof.
  intros Hi j. remember (Z.to_nat (12 - j)) as k eqn:Ek. revert j Ek. induction k as [|k IH]; intros j Ek fuel Hj Hf;
    (destruct fuel as [|fuel]; [lia|]); rewrite loop_S; unfold init_step at 1.
  - assert (j = 12) as -> by lia. change (64 * 4 ^ 12) with (2 ^ 30). destruct (Z.ltb_spec (2 ^ 30) i); [lia|].
    exists (2 ^ 30). split_and!; [done|by exists 12|done].
  - assert (4 ^ j <= 4 ^ 12) as Hp by (apply Z.pow_le_mono_r; lia). assert (4 ^ (j + 1) <= 4 ^ 12) as Hp1 by (apply Z.pow_le_mono_r; lia).
    change (4 ^ 12) with 16777216 in *. destruct (Z.ltb_spec (64 * 4 ^ j) i).
    + unfold HASHMAP_RESIZE_BITS. rewrite Z.shiftl_mul_pow2 by done. replace (64 * 4 ^ j * 2 ^ 2) with (64 * 4 ^ (j + 1)) by (rewrite Z.pow_add_r by lia; lia).
      pose proof (Z.pow_pos_nonneg 4 (j + 1)). rewrite u32_small by lia. apply IH; lia.
    + exists (64 * 4 ^ j). split_and!; [done|by exists j; split; [lia|]|lia].
Qed.

(** A request for more than 2^30 cells never ends: the size wraps around to 0. *)
Lemma hashmap_init_hangs i fuel : 2 ^ 30 < i < 2 ^ 32 -> loop fuel (init_step i) HASHMAP_INITIAL_SIZE = Fault OutOfFuel.
Proof.
  intros Hi. assert (forall sz, sz = 0 \/ (exists j, 0 <= j <= 12 /\ sz = 64 * 4 ^ j) -> loop fuel (init_step i) sz = Fault OutOfFuel) as H;
    [|apply H; right; by exists 0].
  induction fuel as [|fuel IH]; intros sz Hsz; [done|]. rewrite loop_S. unfold init_step at 1, HASHMAP_RESIZE_BITS.
  assert (sz < i) as Hlt.
  { destruct Hsz as [->|(j & Hj & ->)]; [lia|]. assert (4 ^ j <= 4 ^ 12) by (apply Z.pow_le_mono_r; lia). change (4 ^ 12) with 16777216 in *. lia. }
  destruct (Z.ltb_spec sz i); [|lia]. apply IH. rewrite Z.shiftl_mul_pow2 by done. destruct Hsz as [->|(j & Hj & ->)]; [by left|].
  destruct (decide (j = 12)) as [->|]; [by left|right]. exists (j + 1). split; [lia|].
  assert (4 ^ (j + 1) <= 4 ^ 12) by (apply Z.pow_le_mono_r; lia). change (4 ^ 12) with 16777216 in *. pose proof (Z.pow_pos_nonneg 4 j).
  rewrite Z.pow_add_r in * by lia. rewrite u32_small by lia. lia.
Qed.

Lemma hashmap_init_spec `{Memory} h n : hashes_ok h -> 0 <= n < 2 ^ 27 -> wp oom (hashmap_init n) (fun map => map_ok h map []).
Proof.
  intros Hh Hn. unfold hashmap_init, HASHMAP_LOAD_FACTOR. rewrite u64_small by lia. rewrite u32_small by dlia.
  destruct (init_run ((n * 100) `div` 80) ltac:(dlia) 0 32%nat) as (sz & E & Hq & Hsz); [lia|lia|].
  change (64 * 4 ^ 0) with HASHMAP_INITIAL_SIZE in E. rewrite E. cbn [mbind res_bind]. pose proof (quads_grow _ Hq) as [H64 _].
  eapply wp_mono; [apply alloc_table_spec; lia|]. intros map (Ht & Hts & Hps & Hdo & Hg & Hs).
  exists (replicate (Z.to_nat sz) 0), (replicate (Z.to_nat sz) []). split_and!.
  - eapply nils_ok; [exact Ht|done|lia|done|done].
  - by rewrite concat_nils.
  - change (len []) with 0. constructor; rewrite ?Hts; try done; [lia|]. rewrite Hg. dlia.
Qed.

(** ** Refinement: a map from keys to entries *)

Inductive hm_op (K : Type) := OPut (entry : Z) | OGet (key : Z) (keydata : option K) | ORemove (key : Z) (keydata : option K).
Arguments OPut {K} entry.
Arguments OGet {K} key keydata.
Arguments ORemove {K} key keydata.

Definition op_entry {K} (op : hm_op K) : Z := match op with OPut e | OGet e _ | ORemove e _ => e end.

Section Refine.
Context `{Memory} {K Key : Type} `{Countable Key} (cmpfn : Z -> Z -> option K -> Z) (keyof : Z -> Key).
Hypothesis Hcmp : forall e1 e2 kd, cmpfn e1 e2 kd = 0 <-> keyof e1 = keyof e2.

(** The code: the results of the operations are pointers. *)
Fixpoint hm_run (h : heap) (map : hashmap) (ops : list (hm_op K)) : res (heap * hashmap * list Z) :=
  match ops with
  | [] => Ok (h, map, [])
  | op :: ops =>
      '(h, map, r) ← match op with
        | OPut e => hashmap_put cmpfn h map e
        | OGet k kd => r ← hashmap_get cmpfn h map k kd; Ok (h, map, r)
        | ORemove k kd => hashmap_remove cmpfn h map k kd
        end;
      '(h, map, rs) ← hm_run h map ops; Ok (h, map, r :: rs)
  end.

(** The same on a finite map. *)
Fixpoint map_run (M : gmap Key Z) (ops : list (hm_op K)) : gmap Key Z * list Z :=
  match ops with
  | [] => (M, [])
  | op :: ops =>
      let k := keyof (op_entry op) in
      let M' := match op with OPut e => <[k := e]> M | OGet _ _ => M | ORemove _ _ => delete k M end in
      let '(M'', rs) := map_run M' ops in
      (M'', default 0 (M !! k) :: rs)
  end.

Definition pairs (es : list Z) : list (Key * Z) := (fun e => (keyof e, e)) <$> es.

Lemma pairs_fst es : (pairs es).*1 = keyof <$> es.
Proof using. unfold pairs. rewrite <- list_fmap_compose. done. Qed.

(** The map holds the entries of [M], each under its key. *)
Record hm_rep (h : heap) (map : hashmap) (M : gmap Key Z) (es : list Z) : Prop := {
  hr_ok : map_ok h map es;
  hr_keys : NoDup (keyof <$> es);
  hr_map : M = list_to_map (pairs es);
}.

Lemma rep_lookup h map M es k e : hm_rep h map M es -> M !! k = Some e <-> e ∈ es /\ keyof e = k.
Proof using.
  intros [_ Hnd ->]. rewrite <- elem_of_list_to_map by (by rewrite pairs_fst). unfold pairs. rewrite list_elem_of_fmap. split.
  - by intros (e' & [= -> ->] & He).
  - intros [He <-]. by exists e.
Qed.

(** The result of looking for the key of [key], in either world. *)
Lemma rep_result h map M es key r : hm_rep h map M es -> ((r = 0 /\ forall e, e ∈ es -> keyof e <> keyof key) \/ (r <> 0 /\ r ∈ es /\ keyof r = keyof key)) ->
  default 0 (M !! keyof key) = r.
Proof using.
  intros Hr [[-> Hn]|(_ & Hin & Hk)].
  - destruct (M !! keyof key) as [e|] eqn:E; [|done]. apply (rep_lookup _ _ _ _ _ _ Hr) in E as [He E]. by apply Hn in He.
  - by rewrite (proj2 (rep_lookup _ _ _ _ (keyof key) r Hr)).
Qed.

Lemma remove_rep h map M es key kd : hm_rep h map M es -> keyed keyof h -> key <> 0 -> is_Some (h !! key) -> len es < 2 ^ 28 ->
  wp oom (hashmap_remove cmpfn h map key kd) (fun '(h', map', r) => same_hashes h h' /\ r = default 0 (M !! keyof key) /\
    exists es', hm_rep h' map' (delete (keyof key) M) es' /\ len es' <= len es /\ forall e, e ∈ es' -> keyof e <> keyof key).
Proof using Hcmp.
  intros Hr Hk Hp0 Hs Hlen. eapply wp_mono; [apply (hashmap_remove_spec cmpfn keyof kd (fun e1 e2 => Hcmp e1 e2 kd) h map es key); [apply Hr|done..]|].
  intros [[h' map'] r] [Hsame [(-> & Hok & Hn)|(Hr0 & Hkr & es' & Hperm & Hok)]].
  - assert (M !! keyof key = None) as HM.
    { destruct (M !! keyof key) as [e|] eqn:E; [|done]. apply (rep_lookup _ _ _ _ _ _ Hr) in E as [He E]. by apply Hn in He. }
    split_and!; [done|by rewrite HM|]. exists es. split_and!; [|done|done]. rewrite delete_id by done. destruct Hr as [_ Hnd HM']. by constructor.
  - pose proof (Permutation_length Hperm) as Hle. cbn [length] in Hle. split_and!; [done| |].
    + symmetry. apply (rep_result h map M es key r Hr). right. split_and!; [done| |done]. rewrite Hperm. set_solver.
    + destruct Hr as [_ Hnd ->]. pose proof Hnd as Hnd'. rewrite Hperm in Hnd'. rewrite fmap_cons in Hnd'. apply NoDup_cons in Hnd' as [Hnk Hnd'].
      assert (forall e, e ∈ es' -> keyof e <> keyof key) as Hno.
      { intros e He E. apply Hnk. rewrite Hkr, <- E. by apply list_elem_of_fmap_2. }
      exists es'. split_and!; [|llia|done]. constructor; [done|done|].
      rewrite (list_to_map_proper (pairs es) (pairs (r :: es'))); [|by rewrite pairs_fst|unfold pairs; by rewrite Hperm].
      unfold pairs. rewrite fmap_cons. cbn [list_to_map]. rewrite Hkr. apply delete_insert_id. apply not_elem_of_list_to_map_1.
      fold (pairs es'). rewrite pairs_fst, <- Hkr. done.
Qed.

Lemma put_rep h map M es e : hm_rep h map M es -> keyed keyof h -> e <> 0 -> is_Some (h !! e) -> len es < 2 ^ 28 ->
  wp oom (hashmap_put cmpfn h map e) (fun '(h', map', r) => same_hashes h h' /\ r = default 0 (M !! keyof e) /\
    exists es', hm_rep h' map' (<[keyof e := e]> M) es' /\ len es' <= len es + 1).
Proof using Hcmp.
  intros Hr Hk Hp0 Hs Hlen. unfold hashmap_put. apply wp_bind. eapply wp_mono; [by apply (remove_rep h map M es e None)|].
  intros [[h1 map1] r] (Hsame & -> & es1 & Hr1 & Hle & Hno). destruct Hs as [x Hx]. destruct (same_hashes_Some _ _ _ _ Hsame Hx) as (x1 & Hx1 & _).
  destruct Hr1 as [(t & bs & Hok & Hperm & Hsz) Hnd HM]. apply wp_bind.
  eapply wp_mono; [apply (push_spec h1 map1 t bs es1 e x1); try done; [intros He; by apply (Hno e)|lia]|].
  intros [h2 map2] [Hmap2 Hsame2]. apply wp_ret. split_and!; [by etrans|done|]. exists (e :: es1). split; [|rewrite len_cons; lia].
  constructor; [done| |].
  - rewrite fmap_cons. constructor; [|done]. intros (e' & E & He')%list_elem_of_fmap. by apply (Hno e').
  - change (<[keyof e := e]> M = <[keyof e := e]> (list_to_map (pairs es1) : gmap Key Z)). rewrite <- HM. by rewrite insert_delete_eq.
Qed.

Lemma hm_run_rep ops : forall h map M es, hm_rep h map M es -> keyed keyof h -> Forall (fun op => op_entry op <> 0 /\ is_Some (h !! op_entry op)) ops ->
  len es + len ops < 2 ^ 28 ->
  wp oom (hm_run h map ops) (fun '(h', map', rs) => same_hashes h h' /\ rs = snd (map_run M ops) /\
    exists es', hm_rep h' map' (fst (map_run M ops)) es').
Proof using Hcmp.
  induction ops as [|op ops IH]; intros h map M es Hr Hk Hops Hlen; cbn [hm_run map_run].
  - apply wp_ret. split_and!; [done|done|by exists es].
  - apply Forall_cons in Hops as [[Hp0 Hs] Hops]. rewrite len_cons in Hlen. pose proof (len_nonneg ops). pose proof (len_nonneg es). apply wp_bind.
    set (M1 := match op with OPut e => <[keyof (op_entry op) := e]> M | OGet _ _ => M | ORemove _ _ => delete (keyof (op_entry op)) M end).
    eapply (wp_mono _ _ (fun '(h1, map1, r) => same_hashes h h1 /\ r = default 0 (M !! keyof (op_entry op)) /\
      exists es1, hm_rep h1 map1 M1 es1 /\ len es1 <= len es + 1)).
    { destruct op as [e|k kd|k kd]; cbn [op_entry] in *.
      - apply put_rep; try done. lia.
      - destruct (hashmap_get_spec cmpfn keyof kd (fun e1 e2 => Hcmp e1 e2 kd) h map es k) as (r & -> & Hres); [apply Hr|done|done|done|].
        cbn [mbind res_bind]. apply wp_ret. split_and!; [done|by rewrite (rep_result _ _ _ _ _ _ Hr Hres)|]. exists es. split; [done|lia].
      - eapply wp_mono; [apply (remove_rep h map M es k kd); try done; lia|]. intros [[h1 map1] r] (? & ? & es1 & ? & ? & _).
        split_and!; try done. exists es1. split; [done|lia]. }
    intros [[h1 map1] r] (Hsame & -> & es1 & Hr1 & Hle). apply wp_bind. eapply wp_mono.
    { apply (IH h1 map1 M1 es1 Hr1); [by eapply keyed_same| |lia]. eapply Forall_impl; [exact Hops|]. intros op' [? [y Hy]]. split; [done|].
      destruct (same_hashes_Some _ _ _ _ Hsame Hy) as (y' & Hy' & _). by eexists. }
    intros [[h2 map2] rs] (Hsame2 & -> & es2 & Hr2). apply wp_ret. destruct (map_run M1 ops) as [M2 rs2]. cbn [fst snd] in *.
    split_and!; [by etrans|done|by exists es2].
Qed.

(** C20: hash maps.  With a comparison function that compares keys, and equal keys
    hashed equally, any sequence (of fewer than [2 ^ 28], on a map made for fewer than [2 ^ 27] entries) of [hashmap_put], [hashmap_get] and
    [hashmap_remove] on a new map returns what the same operations return on a
    finite map, whatever the hash function does and however often the table
    grows and shrinks; afterwards the size is the number of keys, the iterator
    visits exactly the entries of the finite map, and clearing the map frees
    exactly these; no access leaves the table, an entry is not used after it is
    freed, and the only failure is running out of memory. *)
Theorem hashmap_refines h ops n : hashes_ok h -> keyed keyof h -> Forall (fun op => op_entry op <> 0 /\ is_Some (h !! op_entry op)) ops ->
  len ops < 2 ^ 28 -> 0 <= n < 2 ^ 27 ->
  wp oom (map ← hashmap_init n; '(h', map, rs) ← hm_run h map ops; sz ← hashmap_get_size map; l ← visit_entries h' map;
          '(h'', _) ← hashmap_clear_ h' map true; Ok (rs, sz, l, h''))
    (fun '(rs, sz, l, h'') => let '(M, out) := map_run ∅ ops in
       rs = out /\ sz = Z.of_nat (size M) /\ l ≡ₚ (map_to_list M).*2 /\
       forall e, is_Some (h'' !! e) <-> is_Some (h !! e) /\ ~ exists k, M !! k = Some e).
Proof using Hcmp.
  intros Hh Hk Hops Hlen Hn. apply wp_bind. eapply wp_mono; [by apply (hashmap_init_spec h)|]. intros map Hmap. apply wp_bind.
  eapply wp_mono; [apply (hm_run_rep ops h map ∅ []); try done; by constructor; [|constructor|]|].
  intros [[h' map'] rs] (Hsame & -> & es & Hr). destruct (map_run ∅ ops) as [M out]. cbn [fst snd] in *. pose proof Hr as [Hok Hnd HM].
  pose proof Hok as (t & bs & _ & _ & [_ _ _ _ Hdo Hnr _]). unfold hashmap_get_size. rewrite Hdo. cbn [mbind res_bind].
  destruct (visit_spec h' map' es Hok) as (l & -> & Hl). cbn [mbind res_bind].
  destruct (hashmap_clear_spec h' map' es Hok) as (h'' & map'' & -> & _ & Hh''). cbn [mbind res_bind]. apply wp_ret. split_and!; [done| | |].
  - rewrite Hnr, HM. rewrite map_size_list_to_map by (by rewrite pairs_fst). unfold pairs. by rewrite length_fmap.
  - rewrite Hl, HM, map_to_list_to_map by (by rewrite pairs_fst). unfold pairs. rewrite <- list_fmap_compose. cbn. by rewrite list_fmap_id.
  - intros e. rewrite Hh''. assert (is_Some (h' !! e) <-> is_Some (h !! e)) as Hse.
    { specialize (Hsame e). destruct (h !! e), (h' !! e); try done; split; by eexists. }
    assert ((exists k, M !! k = Some e) <-> e ∈ es) as He.
    { split; [intros [k Hk']; by apply (rep_lookup _ _ _ _ _ _ Hr) in Hk' as [? _]|].
      intros Hin. exists (keyof e). by apply (rep_lookup _ _ _ _ _ _ Hr). }
    rewrite He. destruct (decide (e ∈ es)); [split; [by intros [? ?]|tauto]|]. rewrite Hse. tauto.
Qed.
End Refine.

(** Four entries with the keys 1, 2, 0 and 1, all in one bucket. *)
Definition heap4 : heap := <[1 := mkEntry 0 64]> (<[2 := mkEntry 0 128]> (<[3 := mkEntry 0 0]> (<[4 := mkEntry 0 64]> ∅))).
Definition key4 (e : Z) : Z := e `mod` 3.

Lemma heap4_hash e x : heap4 !! e = Some x -> he_hash x = 64 * key4 e.
Proof.
  unfold heap4. rewrite !lookup_insert. repeat case_decide; subst; rewrite ?lookup_empty; try done; by intros [= <-].
Qed.

Lemma hashmap_refines_witness :
  wp (@oom plenty) (map ← @hashmap_init plenty 0; '(h', map, rs) ← @hm_run plenty Z (fun a b _ => key4 a - key4 b) heap4 map [OPut 1; OPut 2; OPut 4; OGet 1 None; ORemove 2 None; OGet 3 None];
      sz ← hashmap_get_size map; l ← visit_entries h' map; '(h'', _) ← hashmap_clear_ h' map true; Ok (rs, sz, l, h''))
    (fun '(rs, sz, l, h'') => let '(M, out) := map_run (K := Z) key4 ∅ [OPut 1; OPut 2; OPut 4; OGet 1 None; ORemove 2 None; OGet 3 None] in
       rs = out /\ sz = Z.of_nat (size M) /\ l ≡ₚ (map_to_list M).*2 /\
       forall e, is_Some (h'' !! e) <-> is_Some (heap4 !! e) /\ ~ exists k, M !! k = Some e).
Proof.
  apply (@hashmap_refines plenty Z Z _ _ (fun a b _ => key4 a - key4 b) key4).
  - intros e1 e2 _. lia.
  - intros e x Hx%heap4_hash. rewrite Hx. unfold key4. dlia.
  - intros e1 e2 x1 x2 H1%heap4_hash H2%heap4_hash E. by rewrite H1, H2, E.
  - repeat constructor; try done; by eexists.
  - done.
  - done.
Defined.
