(* ===== verification/RefName.v ===== *)
(** * Names of references: [check_refname_format] of [refs.c]

    The check of a reference name and the function that turns a text into an
    acceptable one are the same code: with a [sanitized] buffer a forbidden part is
    replaced, without one it is refused.  The theorem is that the check accepts
    exactly the names that the manual page of [git check-ref-format] describes. *)

From stdpp Require Import prelude numbers list.
From S2P Require Import Prelude PatchDelta Alloc CString Strbuf.

(** ** The code *)

Definition REFNAME_ALLOW_ONELEVEL : Z := 1.
Definition REFNAME_REFSPEC_PATTERN : Z := 2.

Definition LOCK_SUFFIX : list Z := [46; 108; 111; 99; 107; 0].
Definition LOCK_SUFFIX_LEN : Z := 5.

Definition refname_disposition : list Z :=
  [ 1; 4; 4; 4; 4; 4; 4; 4; 4; 4; 4; 4; 4; 4; 4; 4;
    4; 4; 4; 4; 4; 4; 4; 4; 4; 4; 4; 4; 4; 4; 4; 4;
    4; 0; 0; 0; 0; 0; 0; 0; 0; 0; 5; 0; 0; 0; 2; 1;
    0; 0; 0; 0; 0; 0; 0; 0; 0; 0; 4; 0; 0; 0; 0; 4;
    0; 0; 0; 0; 0; 0; 0; 0; 0; 0; 0; 0; 0; 0; 0; 0;
    0; 0; 0; 0; 0; 0; 0; 0; 0; 0; 0; 4; 4; 0; 4; 0;
    0; 0; 0; 0; 0; 0; 0; 0; 0; 0; 0; 0; 0; 0; 0; 0;
    0; 0; 0; 0; 0; 0; 0; 0; 0; 0; 0; 3; 0; 0; 4; 4 ] ++ replicate 128 0.

Section Code.
Context `{Memory} (junk : Z) (mem : list Z).

(** [if (sanitized) sanitized->buf[i] = '-'; else return -1;] for the last byte
    of the buffer; [None] is [return -1]. *)
Definition replace_last (sanitized : option strbuf) : res (option (option strbuf)) :=
  match sanitized with
  | Some sb => sb ← sb_wr sb (sb_len sb - 1) 45; Ok (Some (Some sb))
  | None => Ok None
  end.

(** A turn of the loop of [check_refname_component]: [cp], [last], [flags] and the
    buffer.  The result is the [cp] at the label [out], or [None] for [return -1]. *)
Definition component_step (st : Z * Z * Z * option strbuf) : res (Z * Z * Z * option strbuf + option Z * Z * option strbuf) :=
  let '(cp, last, flags, sanitized) := st in
  c ← rd mem cp;
  let ch := c &. 255 in
  disp ← rd refname_disposition ch;
  sanitized ← match sanitized with
              | Some sb => if negb (disp =? 1) then sb ← strbuf_addch junk sb ch; Ok (Some sb) else Ok (Some sb)
              | None => Ok None
              end;
  if disp =? 1 then Ok (inr (Some cp, flags, sanitized))
  else
    '(o, flags) ←
      (if disp =? 2 then
         if last =? 46 then
           match sanitized with
           | Some sb => sb ← strbuf_setlen sb (u64 (sb_len sb - 1)); Ok (Some (Some sb), flags)
           | None => Ok (None, flags)
           end
         else Ok (Some sanitized, flags)
       else if disp =? 3 then
         if last =? 64 then o ← replace_last sanitized; Ok (o, flags) else Ok (Some sanitized, flags)
       else if disp =? 4 then o ← replace_last sanitized; Ok (o, flags)
       else if disp =? 5 then
         o ← (if negb (tr (flags &. REFNAME_REFSPEC_PATTERN)) then replace_last sanitized else Ok (Some sanitized));
         match o with
         | None => Ok (None, flags)
         | Some _ => Ok (o, flags &. Z.lnot REFNAME_REFSPEC_PATTERN)
         end
       else Ok (Some sanitized, flags));
    match o with
    | None => Ok (inr (None, flags, sanitized))
    | Some sanitized => Ok (inl (cp + 1, ch, flags, sanitized))
    end.

(** [while (strbuf_strip_suffix(sanitized, LOCK_SUFFIX)) {}] *)
Definition strip_lock_step (sb : strbuf) : res (strbuf + strbuf) :=
  '(sb, r) ← strbuf_strip_suffix sb LOCK_SUFFIX 0;
  Ok (if r : bool then inl sb else inr sb).

(** The length of the component, -1 or 0; the flags and the buffer. *)
Definition check_refname_component (refname flags : Z) (sanitized : option strbuf) : res (Z * Z * option strbuf) :=
  let component_start := match sanitized with Some sb => sb_len sb | None => 0 end in
  '(out, flags, sanitized) ← loop (S (length mem)) component_step (refname, 0, flags, sanitized);
  match out with
  | None => Ok (-1, flags, sanitized)
  | Some cp =>
      if cp =? refname then Ok (0, flags, sanitized)
      else
        c0 ← rd mem refname;
        o ← (if c0 =? 46 then
               match sanitized with
               | Some sb => sb ← sb_wr sb component_start 45; Ok (Some (Some sb))
               | None => Ok None
               end
             else Ok (Some sanitized));
        match o with
        | None => Ok (-1, flags, sanitized)
        | Some sanitized =>
            lock ← (if LOCK_SUFFIX_LEN <=? cp - refname then
                      tl ← rd_slice mem (cp - LOCK_SUFFIX_LEN) LOCK_SUFFIX_LEN;
                      lk ← rd_slice LOCK_SUFFIX 0 LOCK_SUFFIX_LEN;
                      Ok (negb (tr (memcmp tl lk)))
                    else Ok false);
            if lock : bool then
              match sanitized with
              | None => Ok (-1, flags, sanitized)
              | Some sb =>
                  sb ← loop (S (Z.to_nat (sb_len sb))) strip_lock_step sb;
                  Ok (to_int (cp - refname), flags, Some sb)
              end
            else Ok (to_int (cp - refname), flags, sanitized)
        end
  end.

(** The loop over the components: the state is [refname], [component_count],
    [flags] and the buffer, the result adds [component_len]; [None] is [return -1]. *)
Definition refname_step (st : Z * Z * Z * option strbuf) :
    res (Z * Z * Z * option strbuf + option (Z * Z) * Z * Z * option strbuf) :=
  let '(refname, component_count, flags, sanitized) := st in
  sanitized ← match sanitized with
              | Some sb => if tr (sb_len sb) then sb ← strbuf_complete junk sb 47; Ok (Some sb) else Ok (Some sb)
              | None => Ok None
              end;
  '(component_len, flags, sanitized) ← check_refname_component refname flags sanitized;
  if (component_len <=? 0) && negb (match sanitized with Some _ => component_len =? 0 | None => false end)
  then Ok (inr (None, component_count, flags, sanitized))
  else
    let component_count := component_count + 1 in
    c ← rd mem (refname + component_len);
    if c =? 0 then Ok (inr (Some (refname, component_len), component_count, flags, sanitized))
    else Ok (inl (refname + component_len + 1, component_count, flags, sanitized)).

Definition check_or_sanitize_refname (refname flags : Z) (sanitized : option strbuf) : res (Z * option strbuf) :=
  c0 ← rd mem refname;
  at_ ← (if c0 =? 64 then c1 ← rd mem (refname + 1); Ok (c1 =? 0) else Ok false);
  o ← (if at_ : bool then
         match sanitized with
         | Some sb => sb ← strbuf_addch junk sb 45; Ok (Some (Some sb))
         | None => Ok None
         end
       else Ok (Some sanitized));
  match o with
  | None => Ok (-1, sanitized)
  | Some sanitized =>
      '(o, component_count, flags, sanitized) ← loop (S (length mem)) refname_step (refname, 0, flags, sanitized);
      match o with
      | None => Ok (-1, sanitized)
      | Some (refname, component_len) =>
          c ← rd mem (refname + component_len - 1);
          if (c =? 46) && match sanitized with Some _ => false | None => true end then Ok (-1, sanitized)
          else if negb (tr (flags &. REFNAME_ALLOW_ONELEVEL)) && (component_count <? 2) then Ok (-1, sanitized)
          else Ok (0, sanitized)
      end
  end.

Definition check_refname_format (refname flags : Z) : res Z :=
  '(r, _) ← check_or_sanitize_refname refname flags None; Ok r.

Definition sanitize_refname_component (refname : Z) (out : strbuf) : res strbuf :=
  '(r, sanitized) ← check_or_sanitize_refname refname REFNAME_ALLOW_ONELEVEL (Some out);
  if tr r then Fault BugHit else Ok (default out sanitized).
End Code.

(** The text of a sanitized name. *)
Definition sanitized_text (s : list Z) : res (list Z) :=
  sb ← @sanitize_refname_component plenty 0 (s ++ [0]) 0 STRBUF_INIT; Ok (take (Z.to_nat (sb_len sb)) (mem_of (sb_buf sb))).

(** [.a..b@{c.lock] becomes [-a.b@-c]; a dot at the end stays, although the
    comment in the code says that it is omitted, so that the result is refused;
    and for the empty name the byte in front of it is read. *)
Example sanitize_examples :
  sanitized_text [46; 97; 46; 46; 98; 64; 123; 99; 46; 108; 111; 99; 107] = Ok [45; 97; 46; 98; 64; 45; 99] /\
  sanitized_text [97; 46] = Ok [97; 46] /\ @check_refname_format plenty 0 [97; 46; 0] 0 REFNAME_ALLOW_ONELEVEL = Ok (-1) /\
  sanitized_text [] = Fault UB.
Proof. by vm_compute. Qed.

(** ** The rules *)

(** The components between the slashes. *)
Fixpoint components (s : list Z) : list (list Z) :=
  match s with
  | [] => [[]]
  | x :: s =>
      if x =? 47 then [] :: components s
      else match components s with c :: cs => (x :: c) :: cs | [] => [[x]] end
  end.

Definition forbidden (c : Z) : Prop := c < 32 \/ c = 127 \/ c ∈ [32; 126; 94; 58; 63; 91; 92].

Definition dot_lock : list Z := [46; 108; 111; 99; 107].

(** The rules of [git check-ref-format(1)], by their numbers there. *)
Record refname_rules (onelevel pattern : bool) (s : list Z) : Prop := {
  rule_1_6 : Forall (fun c => c <> [] /\ hd 0 c <> 46 /\ ~ dot_lock `suffix_of` c) (components s);
  rule_2 : onelevel = false -> 47 ∈ s;
  rule_3 : ~ exists a b, s = a ++ 46 :: 46 :: b;
  rule_4_5_10 : Forall (fun c => ~ forbidden c) s;
  rule_5 : (length (filter (fun c => c = 42%Z) s) <= if pattern then 1 else 0)%nat;
  rule_7 : last s <> Some 46;
  rule_8 : ~ exists a b, s = a ++ 64 :: 123 :: b;
  rule_9 : s <> [64];
}.

(** ** Adjacent characters and components *)

Fixpoint adj (x y : Z) (s : list Z) : bool :=
  match s with
  | a :: s => ((a =? x) && (hd 0 s =? y)) || adj x y s
  | [] => false
  end.

Lemma adj_spec x y s : y <> 0 -> adj x y s = true <-> exists a b, s = a ++ x :: y :: b.
Proof.
  intros Hy. induction s as [|c s IH]; cbn [adj].
  - split; [done|]. intros (a & b & E). by destruct a.
  - rewrite orb_true_iff, andb_true_iff, !Z.eqb_eq, IH. split.
    + intros [[-> Hh]|(a & b & ->)]; [|by exists (c :: a), b]. destruct s as [|d s]; cbn [hd] in Hh; [congruence|]. subst d. by exists [], s.
    + intros (a & b & E). destruct a as [|d a]; [left; by injection E as -> ->|right]. injection E as _ E. by exists a, b.
Qed.

Lemma adj_slash x y c s : x <> 47 -> y <> 47 -> y <> 0 -> adj x y (c ++ 47 :: s) = adj x y c || adj x y s.
Proof.
  intros Hx Hy H0. induction c as [|d c IH]; cbn [app adj].
  - destruct (Z.eqb_spec 47 x); [congruence|done].
  - rewrite IH. destruct c as [|e c]; cbn [app hd]; [|by rewrite orb_assoc].
    destruct (Z.eqb_spec 47 y), (Z.eqb_spec 0 y); try congruence. cbn [adj]. by rewrite !andb_false_r.
Qed.

Lemma components_last c : 47 ∉ c -> components c = [c].
Proof.
  induction c as [|x c IH]; [done|]. intros Hn. apply not_elem_of_cons in Hn as [Hx Hn]. cbn [components].
  destruct (Z.eqb_spec x 47); [congruence|]. by rewrite IH.
Qed.

Lemma components_app c s : 47 ∉ c -> components (c ++ 47 :: s) = c :: components s.
Proof.
  induction c as [|x c IH]; [done|]. intros Hn. apply not_elem_of_cons in Hn as [Hx Hn]. cbn [components app].
  destruct (Z.eqb_spec x 47); [congruence|]. by rewrite IH.
Qed.

(** The check of the characters of a component behind the character [last]:
    is a pattern still allowed behind it? *)
Fixpoint comp_scan (pat : bool) (last : Z) (c : list Z) : option bool :=
  match c with
  | [] => Some pat
  | x :: c =>
      if bool_decide (x ∈ [32; 126; 94; 58; 63; 91; 92]) || (x <? 32) || (x =? 127) then None
      else if (x =? 46) && (last =? 46) then None
      else if (x =? 123) && (last =? 64) then None
      else if x =? 42 then if pat then comp_scan false x c else None
      else comp_scan pat x c
  end.

Definition stars (s : list Z) : nat := length (filter (fun c => c = 42) s).

Lemma stars_cons x s : stars (x :: s) = ((if Z.eqb x 42 then 1 else 0) + stars s)%nat.
Proof. unfold stars. rewrite filter_cons. destruct (Z.eqb_spec x 42); [by rewrite decide_True|by rewrite decide_False]. Qed.

Lemma stars_app s t : stars (s ++ t) = (stars s + stars t)%nat.
Proof. unfold stars. by rewrite filter_app, length_app. Qed.

Lemma forbidden_spec x : bool_decide (x ∈ [32; 126; 94; 58; 63; 91; 92]) || (x <? 32) || (x =? 127) = true <-> forbidden x.
Proof. unfold forbidden. rewrite !orb_true_iff, bool_decide_eq_true, Z.ltb_lt, Z.eqb_eq. tauto. Qed.

Lemma comp_scan_spec c : forall pat last, comp_scan pat last c <> None <->
  Forall (fun x => ~ forbidden x) c /\ adj 46 46 (last :: c) = false /\ adj 64 123 (last :: c) = false /\ (stars c <= if pat then 1 else 0)%nat.
Proof.
  induction c as [|x c IH]; intros pat last; cbn [comp_scan].
  - cbn. rewrite !andb_false_r. split; [|done]. intros _. split_and!; [constructor|done|done|lia].
  - pose proof (forbidden_spec x) as Hf. rewrite Forall_cons, stars_cons. cbn [adj]. rewrite !orb_false_iff. cbn [hd].
    destruct (bool_decide _ || _ || _); [split; [done|]; intros [[H _] _]; by destruct H; apply Hf|].
    assert (~ forbidden x) as Hnf by (intros H; apply Hf in H; done). clear Hf.
    destruct (Z.eqb_spec x 46) as [->|H46].
    { cbn [Z.eqb Pos.eqb andb]. rewrite !andb_true_r, !andb_false_r. destruct (last =? 46); cbn [andb]; [by split; [|intros (_ & [? _] & _)]|].
      specialize (IH pat 46). cbn [adj Z.eqb Pos.eqb andb] in IH. rewrite IH, !orb_false_iff. cbn. tauto. }
    destruct (Z.eqb_spec x 123) as [->|H123].
    { cbn [Z.eqb Pos.eqb andb]. rewrite !andb_true_r, !andb_false_r. destruct (last =? 64); cbn [andb]; [by split; [|intros (_ & _ & [? _] & _)]|].
      specialize (IH pat 123). cbn [adj Z.eqb Pos.eqb andb] in IH. rewrite IH. cbn. tauto. }
    rewrite !andb_false_r. cbn [andb]. destruct (Z.eqb_spec x 42) as [->|H42].
    { destruct pat; [|split; [done|]; intros (_ & _ & _ & ?); lia]. specialize (IH false 42). cbn [adj Z.eqb Pos.eqb andb orb] in IH. rewrite IH.
      cbn [Z.eqb Pos.eqb andb orb]. assert (stars c <= 0 <-> 1 + stars c <= 1)%nat as <- by lia. tauto. }
    specialize (IH pat x). cbn [adj] in IH. rewrite !orb_false_iff in IH. rewrite (proj2 (Z.eqb_neq x 46) H46) in IH. rewrite IH. cbn [andb]. tauto.
Qed.

Lemma comp_scan_pat c : forall pat last pat', comp_scan pat last c = Some pat' -> pat' = pat && bool_decide (stars c = 0)%nat.
Proof.
  induction c as [|x c IH]; intros pat last pat'; cbn [comp_scan].
  - intros [= ->]. by rewrite andb_true_r.
  - rewrite stars_cons. repeat case_match; try done; intros Hs; apply IH in Hs; rewrite Hs; cbn [Nat.add andb]; try done.
Qed.

(** What the component check wants of a component; [pat] says whether an asterisk is allowed. *)
Definition comp_ok (pat : bool) (c : list Z) : Prop :=
  c <> [] /\ hd 0 c <> 46 /\ ~ dot_lock `suffix_of` c /\ comp_scan pat 0 c <> None.

Fixpoint comps_ok (pat : bool) (cs : list (list Z)) : Prop :=
  match cs with [] => True | c :: cs => comp_ok pat c /\ comps_ok (pat && bool_decide (stars c = 0)%nat) cs end.

(** A name is a last component, or a component, a slash and a name. *)
Lemma name_ind (P : list Z -> Prop) : (forall c, 47 ∉ c -> P c) -> (forall c s, 47 ∉ c -> P s -> P (c ++ 47 :: s)) -> forall s, P s.
Proof.
  intros Hlast Happ s. remember (length s) as n eqn:En. revert s En. induction (lt_wf n) as [n _ IH]. intros s ->.
  destruct (span_cases (fun c => c =? 47) s) as (a & b & -> & Ha & Hb).
  assert (47 ∉ a) as Hna by (intros Hin; rewrite Forall_forall in Ha; by apply Ha in Hin).
  destruct Hb as [->|(c & b' & -> & ->%Z.eqb_eq)]; [rewrite app_nil_r; by apply Hlast|].
  apply Happ; [done|]. apply (IH (length b')); [|done]. rewrite length_app. simpl. lia.
Qed.

Lemma comps_ok_spec s : Forall (fun c => c <> 0) s -> forall pat, comps_ok pat (components s) <->
  Forall (fun c => c <> [] /\ hd 0 c <> 46 /\ ~ dot_lock `suffix_of` c) (components s) /\
  Forall (fun c => ~ forbidden c) s /\ adj 46 46 s = false /\ adj 64 123 s = false /\ (stars s <= if pat then 1 else 0)%nat.
Proof.
  assert (forall c, adj 46 46 (0 :: c) = adj 46 46 c /\ adj 64 123 (0 :: c) = adj 64 123 c) as H0 by done.
  induction s as [c Hc|c s Hc IH] using name_ind; intros Hnz pat.
  - rewrite components_last by done. cbn [comps_ok]. unfold comp_ok. rewrite comp_scan_spec, Forall_cons, Forall_nil, !(proj1 (H0 c)), !(proj2 (H0 c)). tauto.
  - rewrite components_app by done. cbn [comps_ok]. apply Forall_app in Hnz as [_ Hnz]. apply Forall_cons in Hnz as [_ Hnz]. rewrite IH by done.
    unfold comp_ok. rewrite comp_scan_spec, Forall_cons, (proj1 (H0 c)), (proj2 (H0 c)), !adj_slash by done. rewrite Forall_app, Forall_cons, !orb_false_iff.
    rewrite stars_app, stars_cons. cbn [Z.eqb Pos.eqb Nat.add].
    assert (~ forbidden 47) as H47.
    { unfold forbidden. intros [?|[?|Hin]]; [lia|done|]. by repeat (apply elem_of_cons in Hin as [?|Hin]; [done|]); apply elem_of_nil in Hin. }
    assert ((stars c <= if pat then 1 else 0)%nat /\ (stars s <= if pat && bool_decide (stars c = 0)%nat then 1 else 0)%nat <->
      (stars c + stars s <= if pat then 1 else 0)%nat) as Hst.
    { destruct pat; cbn [andb]; [|lia]. case_bool_decide; lia. }
    tauto.
Qed.

Lemma components_slash s : (2 <= length (components s))%nat <-> 47 ∈ s.
Proof.
  induction s as [c Hc|c s Hc IH] using name_ind.
  - rewrite components_last by done. simpl. split; [lia|done].
  - rewrite components_app by done. split; [set_solver|]. intros _. cbn [length]. assert (components s <> []) as Hn.
    { destruct s as [|x s]; [done|]. cbn [components]. destruct (x =? 47); [done|]. by destruct (components s). }
    destruct (components s); [done|]. simpl. lia.
Qed.

(** ** The check *)

Section Check.
Context `{Memory} (junk : Z) (mem : list Z).
#[local] Abbreviation pat_of flags := (tr (flags &. REFNAME_REFSPEC_PATTERN)).

Lemma disposition c : is_byte c -> rd refname_disposition (c &. 255) = Ok (
  if (c =? 0) || (c =? 47) then 1
  else if bool_decide (c ∈ [32; 126; 94; 58; 63; 91; 92]) || (c <? 32) || (c =? 127) then 4
  else if c =? 46 then 2 else if c =? 123 then 3 else if c =? 42 then 5 else 0) /\ c &. 255 = c.
Proof.
  intros Hc. assert (c &. 255 = c) as E by (rewrite (land_mask c 255 8) by done; by apply u8_small). rewrite E. split; [|done].
  rewrite rd_ok by (change (len refname_disposition) with 256; exact Hc).
  f_equal. apply Z.eqb_eq. revert c Hc E. intros c Hc _. revert c Hc. by apply byte_forall.
Qed.

(** Clearing the flag of patterns. *)
Lemma clear_pattern flags : tr (flags &. Z.lnot REFNAME_REFSPEC_PATTERN &. REFNAME_REFSPEC_PATTERN) = false /\
  flags &. Z.lnot REFNAME_REFSPEC_PATTERN &. REFNAME_ALLOW_ONELEVEL = flags &. REFNAME_ALLOW_ONELEVEL.
Proof.
  unfold REFNAME_REFSPEC_PATTERN, REFNAME_ALLOW_ONELEVEL. rewrite <- !Z.land_assoc. change (Z.lnot 2 &. 2) with 0. change (Z.lnot 2 &. 1) with 1.
  by rewrite Z.land_0_r.
Qed.

Lemma component_loop e rest : e = 0 \/ e = 47 -> forall c cp last flags fuel, 0 <= cp -> drop (Z.to_nat cp) mem = c ++ e :: rest ->
  is_bytes c -> Forall (fun x => x <> 0 /\ x <> 47) c -> (length c < fuel)%nat ->
  exists o flags', loop fuel (component_step junk mem) (cp, last, flags, None) = Ok (o, flags', None) /\
    match comp_scan (pat_of flags) last c with
    | None => o = None
    | Some pat' => o = Some (cp + len c) /\ pat_of flags' = pat' /\ flags' &. REFNAME_ALLOW_ONELEVEL = flags &. REFNAME_ALLOW_ONELEVEL
    end.
Proof.
  intros He. induction c as [|x c IH]; intros cp last flags fuel Hcp Hd Hb Hn Hf; (destruct fuel as [|fuel]; [lia|]); rewrite loop_S;
    unfold component_step at 1; rewrite (rd_drop_cons _ _ _ _ Hcp Hd); cbn [mbind res_bind]; cbn zeta.
  - assert (is_byte e) as Hbe by (destruct He as [->| ->]; done). destruct (disposition e Hbe) as [-> _].
    rewrite (proj2 (orb_true_iff _ _)) by (destruct He as [->| ->]; [by left|by right]). cbn [mbind res_bind Z.eqb Pos.eqb].
    exists (Some cp), flags. split; [done|]. cbn [comp_scan]. change (len []) with 0. by rewrite Z.add_0_r.
  - apply Forall_cons in Hb as [Hbx Hb]. apply Forall_cons in Hn as [[Hx0 Hx47] Hn]. destruct (disposition x Hbx) as [-> ->].
    rewrite (proj2 (Z.eqb_neq x 0) Hx0), (proj2 (Z.eqb_neq x 47) Hx47). cbn [orb mbind res_bind].
    assert (forall flags', flags' &. REFNAME_ALLOW_ONELEVEL = flags &. REFNAME_ALLOW_ONELEVEL ->
      exists o f, loop fuel (component_step junk mem) (cp + 1, x, flags', None) = Ok (o, f, None) /\
      match comp_scan (pat_of flags') x c with None => o = None | Some pat' => o = Some (cp + len (x :: c)) /\ pat_of f = pat' /\
        f &. REFNAME_ALLOW_ONELEVEL = flags &. REFNAME_ALLOW_ONELEVEL end) as Hgo.
    { intros flags' Hfl. destruct (IH (cp + 1) x flags' fuel) as (o & f & E & Ho); [lia|by eapply drop_cons_tail|done|done|simpl in Hf; lia|].
      exists o, f. split; [done|]. rewrite <- Hfl, len_cons, Z.add_assoc. done. }
    cbn [comp_scan]. destruct (bool_decide _ || _ || _); [cbn; by eexists _, _|].
    destruct (Z.eqb_spec x 46) as [->|H46]; cbn [Z.eqb Pos.eqb andb].
    { destruct (last =? 46); cbn [mbind res_bind]; [by eexists _, _|]. by apply Hgo. }
    destruct (Z.eqb_spec x 123) as [->|H123]; cbn [Z.eqb Pos.eqb andb].
    { destruct (last =? 64); cbn [mbind res_bind replace_last]; [by eexists _, _|]. by apply Hgo. }
    destruct (Z.eqb_spec x 42) as [->|H42]; cbn [Z.eqb Pos.eqb andb]; [|cbn [mbind res_bind]; by apply Hgo].
    destruct (pat_of flags); cbn [negb mbind res_bind replace_last]; [|by eexists _, _].
    destruct (clear_pattern flags) as [E1 E2]. destruct (Hgo _ E2) as (o & f & E & Ho). rewrite E1 in Ho. by exists o, f.
Qed.

Lemma lock_test c cp : 0 <= cp -> (exists e rest, drop (Z.to_nat cp) mem = c ++ e :: rest) ->
  (if LOCK_SUFFIX_LEN <=? cp + len c - cp then
     tl ← rd_slice mem (cp + len c - LOCK_SUFFIX_LEN) LOCK_SUFFIX_LEN;
     lk ← rd_slice LOCK_SUFFIX 0 LOCK_SUFFIX_LEN;
     Ok (negb (tr (memcmp tl lk)))
   else Ok false) = Ok (bool_decide (dot_lock `suffix_of` c)).
Proof.
  intros Hcp (e & rest & Hd). unfold LOCK_SUFFIX_LEN. replace (cp + len c - cp) with (len c) by lia. destruct (Z.leb_spec 5 (len c)) as [Hle|Hlt].
  - assert (exists a b, c = a ++ b /\ len b = 5) as (a & b & -> & Hb).
    { exists (take (length c - 5) c), (drop (length c - 5) c). split; [symmetry; apply take_drop|]. unfold len in *. rewrite length_drop. lia. }
    rewrite <- app_assoc in Hd. rewrite len_app, Hb. replace (cp + (len a + 5) - 5) with (cp + len a) by lia. rewrite <- Hb at 1.
    pose proof (len_nonneg a). rewrite (rd_slice_at mem (cp + len a) b e rest) by (try lia; by eapply drop_app_tail). cbn [mbind res_bind].
    change (rd_slice LOCK_SUFFIX 0 5) with (Ok dot_lock). cbn [mbind res_bind]. assert (length b = length dot_lock) as Hlb by (change (length dot_lock) with 5%nat; llia).
    rewrite memcmp_tr, negb_involutive by done. f_equal. apply bool_decide_ext. split; [intros ->; by exists a|].
    intros [k Hk]. by apply app_inj_2 in Hk as [_ ->].
  - rewrite bool_decide_eq_false_2; [done|]. intros [k ->]. rewrite len_app in Hlt. change (len dot_lock) with 5 in Hlt. pose proof (len_nonneg k). lia.
Qed.

Lemma check_component e rest c cp flags : e = 0 \/ e = 47 -> 0 <= cp -> drop (Z.to_nat cp) mem = c ++ e :: rest ->
  is_bytes c -> Forall (fun x => x <> 0 /\ x <> 47) c -> len c < 2 ^ 31 ->
  exists n flags', check_refname_component junk mem cp flags None = Ok (n, flags', None) /\
    ((n = len c /\ 0 < n /\ comp_ok (pat_of flags) c /\ pat_of flags' = pat_of flags && bool_decide (stars c = 0)%nat /\
      flags' &. REFNAME_ALLOW_ONELEVEL = flags &. REFNAME_ALLOW_ONELEVEL) \/ (n <= 0 /\ ~ comp_ok (pat_of flags) c)).
Proof.
  intros He Hcp Hd Hb Hn Hlen. unfold check_refname_component, comp_ok.
  destruct (component_loop e rest He c cp 0 flags (S (length mem)) Hcp Hd Hb Hn) as (o & f & -> & Ho).
  { apply (f_equal length) in Hd. rewrite length_drop, length_app in Hd. simpl in Hd. lia. }
  cbn [mbind res_bind]. destruct (comp_scan (pat_of flags) 0 c) as [pat'|] eqn:Es; [|subst o; eexists _, _; split; [done|]; right; split; [lia|tauto]].
  destruct Ho as (-> & Hp & H1). pose proof (comp_scan_pat _ _ _ _ Es) as Hpat. destruct c as [|x c].
  { change (len []) with 0. rewrite Z.add_0_r, Z.eqb_refl. eexists _, _. split; [done|]. right. split; [lia|]. by intros [? _]. }
  destruct (Z.eqb_spec (cp + len (x :: c)) cp) as [E|_]; [rewrite len_cons in E; pose proof (len_nonneg c); lia|].
  rewrite (rd_drop_cons _ _ _ _ Hcp Hd). cbn [mbind res_bind hd]. destruct (Z.eqb_spec x 46) as [->|Hx].
  { cbn [mbind res_bind]. eexists _, _. split; [done|]. right. split; [lia|]. by intros (_ & ? & _). }
  cbn [mbind res_bind]. rewrite lock_test by (eauto). cbn [mbind res_bind]. destruct (bool_decide_reflect (dot_lock `suffix_of` x :: c)) as [Hl|Hl].
  { eexists _, _. split; [done|]. right. split; [lia|]. by intros (_ & _ & ? & _). } 
  replace (cp + len (x :: c) - cp) with (len (x :: c)) by lia. pose proof (len_nonneg c). rewrite to_int_small by (rewrite len_cons in *; lia).
  eexists _, _. split; [done|]. left. rewrite Hp. split_and!; (done || lia).
Qed.

Lemma refname_loop s : forall p flags count fuel, is_bytes s -> len s < 2 ^ 31 -> cstr mem p s -> (length s < fuel)%nat ->
  exists o cnt flags', loop fuel (refname_step junk mem) (p, count, flags, None) = Ok (o, cnt, flags', None) /\
    match o with
    | None => ~ comps_ok (pat_of flags) (components s)
    | Some (q, n) => comps_ok (pat_of flags) (components s) /\ (exists x, last s = Some x /\ rd mem (q + n - 1) = Ok x) /\
        cnt = count + len (components s) /\ flags' &. REFNAME_ALLOW_ONELEVEL = flags &. REFNAME_ALLOW_ONELEVEL
    end.
Proof.
  assert (forall c, 47 ∉ c -> Forall (fun x => x <> 0) c -> Forall (fun x => x <> 0 /\ x <> 47) c) as Hch.
  { intros c H47 H0. rewrite Forall_forall in *. intros x Hx. split; [by apply H0|]. by intros ->. }
  induction s as [c Hc|c s Hc IH] using name_ind; intros p flags count fuel Hb Hlen Hs Hf; (destruct fuel as [|fuel]; [lia|]); rewrite loop_S;
    unfold refname_step at 1; cbn [mbind res_bind]; destruct Hs as (Hp & Hnz & rest & Hd).
  - destruct (check_component 0 rest c p flags ltac:(by left) Hp Hd Hb (Hch c Hc Hnz) Hlen) as (n & f & -> & Hn). cbn [mbind res_bind].
    rewrite components_last by done. cbn [comps_ok negb]. rewrite andb_true_r. destruct Hn as [(-> & Hpos & Hok & Hpat & H1)|[Hle Hno]].
    + destruct (Z.leb_spec (len c) 0); [lia|]. rewrite (rd_drop_cons mem (p + len c) 0 rest) by (try lia; by eapply drop_app_tail).
      cbn [mbind res_bind Z.eqb]. eexists _, _, _. split; [done|]. split_and!; [done|done| |done|done].
      destruct (exists_last (proj1 Hok)) as (c' & x & ->). exists x. split; [apply last_snoc|].
      rewrite <- app_assoc in Hd. cbn [app] in Hd. rewrite len_app. change (len [x]) with 1. pose proof (len_nonneg c').
      eapply rd_drop_cons; [lia|]. replace (p + (len c' + 1) - 1) with (p + len c') by lia. by eapply drop_app_tail.
    + destruct (Z.leb_spec n 0); [|lia]. eexists _, _, _. split; [done|]. by intros [? _].
  - apply Forall_app in Hb as [Hbc Hb]. apply Forall_cons in Hb as [_ Hb]. apply Forall_app in Hnz as [Hnzc Hnz]. apply Forall_cons in Hnz as [_ Hnz].
    rewrite <- app_assoc in Hd. cbn [app] in Hd. rewrite len_app, len_cons in Hlen. pose proof (len_nonneg c). pose proof (len_nonneg s).
    destruct (check_component 47 (s ++ 0 :: rest) c p flags ltac:(by right) Hp Hd Hbc (Hch c Hc Hnzc) ltac:(lia)) as (n & f & -> & Hn). cbn [mbind res_bind].
    rewrite components_app by done. cbn [comps_ok negb]. rewrite andb_true_r. destruct Hn as [(-> & Hpos & Hok & Hpat & Hf1)|[Hle Hno]].
    + destruct (Z.leb_spec (len c) 0); [lia|]. pose proof (drop_app_tail _ _ _ _ Hp Hd) as Hd2.
      rewrite (rd_drop_cons mem (p + len c) 47 (s ++ 0 :: rest)) by (done || lia). cbn [mbind res_bind Z.eqb].
      destruct (IH (p + len c + 1) f (count + 1) fuel Hb ltac:(lia)) as (o & cnt & f' & -> & Ho).
      { split_and!; [lia|done|]. exists rest. eapply drop_cons_tail; [lia|exact Hd2]. }
      { rewrite length_app in Hf. simpl in Hf. lia. }
      eexists _, _, _. split; [done|]. rewrite Hpat in Ho. destruct o as [[q n]|]; [|tauto]. destruct Ho as (Hcs & (x & Hl & Hx) & -> & Hf2).
      split_and!; [done|done| |rewrite len_cons; lia|by rewrite Hf2, Hf1]. exists x. split; [|done]. rewrite last_app_cons, last_cons, Hl. done.
    + destruct (Z.leb_spec n 0); [|lia]. eexists _, _, _. split; [done|]. by intros [? _].
Qed.
End Check.

Lemma check_refname_format_ok `{Memory} junk mem refname s flags : cstr mem refname s -> is_bytes s -> len s < 2 ^ 31 ->
  exists r, check_refname_format junk mem refname flags = Ok r /\ (r = 0 \/ r = -1) /\
    (r = 0 <-> refname_rules (tr (flags &. REFNAME_ALLOW_ONELEVEL)) (tr (flags &. REFNAME_REFSPEC_PATTERN)) s).
Proof.
  intros Hs Hb Hlen. unfold check_refname_format, check_or_sanitize_refname. rewrite (cstr_rd _ _ _ Hs). cbn [mbind res_bind].
  pose proof Hs as (_ & Hnz & _).
  assert ((if hd 0 s =? 64 then c1 ← rd mem (refname + 1); Ok (c1 =? 0) else Ok false) = Ok (bool_decide (s = [64]))) as ->.
  { destruct s as [|x s]; [by rewrite bool_decide_eq_false_2|]. cbn [hd]. destruct (Z.eqb_spec x 64) as [->|]; [|by rewrite bool_decide_eq_false_2 by congruence].
    rewrite (cstr_rd _ _ _ (cstr_tl _ _ _ _ Hs)). cbn [mbind res_bind]. destruct s as [|y s]; [done|]. apply cstr_tl, cstr_nz in Hs. cbn [hd].
    destruct (Z.eqb_spec y 0); [done|]. by rewrite bool_decide_eq_false_2. }
  cbn [mbind res_bind]. case_bool_decide as Hat.
  { cbn [mbind res_bind]. eexists. split; [done|]. split; [by right|]. split; [done|]. by intros []. }
  cbn [mbind res_bind].
  destruct (refname_loop junk mem s refname flags 0 (S (length mem)) Hb Hlen Hs) as (o & cnt & f & -> & Ho); [pose proof (cstr_length _ _ _ Hs); lia|].
  cbn [mbind res_bind]. pose proof (comps_ok_spec s Hnz (tr (flags &. REFNAME_REFSPEC_PATTERN))) as Hspec.
  assert (forall onelevel, refname_rules onelevel (tr (flags &. REFNAME_REFSPEC_PATTERN)) s <->
    comps_ok (tr (flags &. REFNAME_REFSPEC_PATTERN)) (components s) /\ (onelevel = false -> 47 ∈ s) /\ last s <> Some 46 /\ s <> [64]) as Hrules.
  { rewrite <- !not_true_iff_false, !adj_spec in Hspec by done. intros onelevel. rewrite Hspec. split; [intros []; by split_and!|]. intros ((? & ? & ? & ? & ?) & ? & ? & ?). by constructor. }
  setoid_rewrite Hrules. destruct o as [[q n]|]; [|eexists; split; [done|]; split; [by right|]; split; [done|tauto]].
  destruct Ho as (Hok & (x & Hl & ->) & -> & Hf). cbn [mbind res_bind]. rewrite Hf, andb_true_r.
  destruct (Z.eqb_spec x 46) as [->|Hx]; [eexists; split; [done|]; split; [by right|]; split; [done|]; intros (_ & _ & H7 & _); by rewrite Hl in H7|].
  pose proof (components_slash s) as Hsl. destruct (tr (flags &. REFNAME_ALLOW_ONELEVEL)); cbn [negb andb].
  { eexists. split; [done|]. split; [by left|]. split; [|done]. intros _. split_and!; [done|done|congruence|done]. }
  destruct (Z.ltb_spec (0 + len (components s)) 2).
  - eexists. split; [done|]. split; [by right|]. split; [done|]. intros (_ & H2 & _). specialize (H2 eq_refl). apply Hsl in H2. llia.
  - eexists. split; [done|]. split; [by left|]. split; [|done]. intros _. split_and!; [done| |congruence|done]. intros _. apply Hsl. llia.
Qed.

(** C21: on a name of fewer than [2 ^ 31] bytes [check_refname_format] stays inside the string, ends, and returns 0 exactly
    for the names that obey the rules of [git check-ref-format(1)]: no empty
    component, none that starts with a dot or ends with [.lock], a slash unless
    one level is allowed, no two dots in a row, none at the end, no [@{], not the
    name [@], no control character, blank, tilde, caret, colon, question mark,
    bracket or backslash, and no asterisk, or at most one when the name is a
    pattern; otherwise it returns -1.  These are the numbered rules of the manual
    page: a pattern that ends with a slash has an empty last component and is refused,
    although the page gives one as an example of an allowed pattern
    ([pattern_slash_refused]). *)
Theorem check_refname_format_rules `{Memory} junk mem refname s flags : cstr mem refname s -> is_bytes s -> len s < 2 ^ 31 ->
  exists r, check_refname_format junk mem refname flags = Ok r /\ (r = 0 \/ r = -1) /\
    (r = 0 <-> refname_rules (tr (flags &. REFNAME_ALLOW_ONELEVEL)) (tr (flags &. REFNAME_REFSPEC_PATTERN)) s).
Proof. apply check_refname_format_ok. Qed.

Lemma check_refname_format_rules_witness :
  exists r, @check_refname_format plenty 0 [104; 47; 97; 46; 98; 0] 0 0 = Ok r /\ (r = 0 \/ r = -1) /\ (r = 0 <-> refname_rules false false [104; 47; 97; 46; 98]).
Proof.
  apply (@check_refname_format_rules plenty 0 [104; 47; 97; 46; 98; 0] 0 [104; 47; 97; 46; 98] 0);
    [split_and!; [done|by repeat constructor|by exists []]|repeat constructor; lia|done].
Defined.

(** The pattern [foo/bar*baz/]. *)
Example pattern_slash_refused :
  @check_refname_format plenty 0 [102; 111; 111; 47; 98; 97; 114; 42; 98; 97; 122; 47; 0] 0 REFNAME_REFSPEC_PATTERN = Ok (-1) /\
  @check_refname_format plenty 0 [102; 111; 111; 47; 98; 97; 114; 42; 98; 97; 122; 0] 0 REFNAME_REFSPEC_PATTERN = Ok 0.
Proof. split; vm_compute; reflexivity. Qed.
