(* ===== verification/StringList.v ===== *)
(** * Lists of strings: [string-list.c], [string-list.h]

    An array of strings with a pointer of the caller's, used as a sorted set
    with binary search or as an unsorted list.  A string is represented by a value of
    the type [S]: its contents, or a pointer where a string is split in place.
    The comparison function of the list and the C library's [qsort_s] are
    parameters.  Releasing memory is not an observable operation. *)

From stdpp Require Import prelude numbers list.
From S2P Require Import Prelude PatchDelta Alloc CString StableQsort.

(** [strcmp] of two contents: its sign. *)
Fixpoint strcmp (a b : list Z) : Z :=
  match a, b with
  | [], [] => 0
  | [], _ :: _ => -1
  | _ :: _, [] => 1
  | x :: a, y :: b => if x =? y then strcmp a b else if x <? y then -1 else 1
  end.

Record string_list_item (S U : Type) := mkItem { it_string : S; it_util : option U }.
Arguments mkItem {S U} it_string it_util.
Arguments it_string {S U} s.
Arguments it_util {S U} s.

Record string_list (S U : Type) := mkSl {
  sl_items : list (string_list_item S U);
  sl_nr : Z;
  sl_alloc : Z;
  strdup_strings : bool;
}.
Arguments mkSl {S U} sl_items sl_nr sl_alloc strdup_strings.
Arguments sl_items {S U} s.
Arguments sl_nr {S U} s.
Arguments sl_alloc {S U} s.
Arguments strdup_strings {S U} s.

Definition STRING_LIST_INIT_NODUP {S U} : string_list S U := mkSl [] 0 0 false.
Definition STRING_LIST_INIT_DUP {S U} : string_list S U := mkSl [] 0 0 true.

Definition string_list_init_nodup {S U} (list : string_list S U) : string_list S U := STRING_LIST_INIT_NODUP.
Definition string_list_init_dup {S U} (list : string_list S U) : string_list S U := STRING_LIST_INIT_DUP.

Definition sizeof_item : Z := 16.

Section Code.
Context `{Memory} {S U : Type} (junk : string_list_item S U).

(** [list->cmp ? list->cmp : strcmp], and the copy of a string of [size] bytes. *)
Context (cmp : S -> S -> Z) (size : S -> Z).

Abbreviation slist := (string_list S U).

Definition set_items (l : slist) (items : list (string_list_item S U)) (nr : Z) : slist := mkSl items nr (sl_alloc l) (strdup_strings l).

Definition xstrdup (s : S) : res S := if libc_alloc (size s + 1) then Ok s else Fault Died.

(** [MOVE_ARRAY(items + dst, items + src, n)] *)
Definition move_items (items : list (string_list_item S U)) (dst src n : Z) : res (list (string_list_item S U)) :=
  x ← rd_slice items src n; wr_slice items dst x.

Definition entry_index_step (l : slist) (string : S) (st : Z * Z) : res (Z * Z + Z * bool) :=
  let '(lo, hi) := st in
  if lo <? hi then
    let middle := lo + (hi - lo) `div` 2 in
    it ← rd (sl_items l) middle;
    let compare := cmp string (it_string it) in
    if compare <? 0 then Ok (inl (lo, middle))
    else if 0 <? compare then Ok (inl (middle + 1, hi))
    else Ok (inr (middle, true))
  else Ok (inr (hi, false)).

Definition get_entry_index (l : slist) (string : S) : res (Z * bool) :=
  loop (Datatypes.S (Z.to_nat (sl_nr l))) (entry_index_step l string) (0, sl_nr l).

Definition add_entry (l : slist) (string : S) : res (slist * Z) :=
  '(index, exact_match) ← get_entry_index l string;
  if exact_match : bool then Ok (l, index)
  else
    '(items, alloc) ← ALLOC_GROW junk sizeof_item u64 (sl_items l) (sl_nr l + 1) (sl_alloc l);
    items ← (if index <? sl_nr l then move_items items (index + 1) index (sl_nr l - index) else Ok items);
    s ← (if strdup_strings l then xstrdup string else Ok string);
    items ← wr items index (mkItem s None);
    Ok (mkSl items (sl_nr l + 1) alloc (strdup_strings l), index).

(** The item is the one at the index that is returned. *)
Definition string_list_insert (l : slist) (string : S) : res (slist * Z) := add_entry l string.

Definition string_list_remove (l : slist) (string : S) : res slist :=
  '(index, exact_match) ← get_entry_index l string;
  let i := to_int index in
  if exact_match : bool then
    let nr := sl_nr l - 1 in
    items ← move_items (sl_items l) i (i + 1) (nr - i);
    Ok (set_items l items nr)
  else Ok l.

Definition string_list_has_string (l : slist) (string : S) : res bool :=
  '(_, exact_match) ← get_entry_index l string; Ok exact_match.

Definition string_list_find_insert_index (l : slist) (string : S) : res (Z * bool) := get_entry_index l string.

Definition string_list_lookup (l : slist) (string : S) : res (option Z) :=
  '(i, exact_match) ← get_entry_index l string; Ok (if exact_match : bool then Some i else None).

Definition dup_step (l : slist) (st : list (string_list_item S U) * Z * Z) : res (list (string_list_item S U) * Z * Z + list (string_list_item S U) * Z) :=
  let '(items, dst, src) := st in
  if src <? sl_nr l then
    a ← rd items (dst - 1);
    b ← rd items src;
    if cmp (it_string a) (it_string b) =? 0 then Ok (inl (items, dst, src + 1))
    else items ← wr items dst b; Ok (inl (items, dst + 1, src + 1))
  else Ok (inr (items, dst)).

Definition string_list_remove_duplicates (l : slist) : res slist :=
  if 1 <? sl_nr l then
    '(items, dst) ← loop (Datatypes.S (Z.to_nat (sl_nr l))) (dup_step l) (sl_items l, 1, 1);
    Ok (set_items l items dst)
  else Ok l.

(** A callback gets a pointer to the item, which it may change, and the data [D]
    of the caller; it returns both and its integer. *)
Section Callback.
Context {D : Type} (fn : string_list_item S U -> D -> res (string_list_item S U * D * Z)).

Definition for_each_step (nr : Z) (st : list (string_list_item S U) * D * Z) :
    res (list (string_list_item S U) * D * Z + list (string_list_item S U) * D * Z) :=
  let '(items, cb_data, i) := st in
  if i <? nr then
    it ← rd items i;
    '(it, cb_data, ret) ← fn it cb_data;
    items ← wr items i it;
    if tr ret then Ok (inr (items, cb_data, ret)) else Ok (inl (items, cb_data, i + 1))
  else Ok (inr (items, cb_data, 0)).

Definition for_each_string_list (l : slist) (cb_data : D) : res (slist * D * Z) :=
  '(items, cb_data, ret) ← loop (Datatypes.S (Z.to_nat (sl_nr l))) (for_each_step (sl_nr l)) (sl_items l, cb_data, 0);
  Ok (set_items l items (sl_nr l), cb_data, ret).

Definition want_step (nr : Z) (st : list (string_list_item S U) * D * Z * Z) :
    res (list (string_list_item S U) * D * Z * Z + list (string_list_item S U) * D * Z) :=
  let '(items, cb_data, dst, src) := st in
  if src <? nr then
    it ← rd items src;
    '(it, cb_data, ret) ← fn it cb_data;
    items ← wr items src it;
    if tr ret then items ← wr items dst it; Ok (inl (items, cb_data, dst + 1, src + 1))
    else Ok (inl (items, cb_data, dst, src + 1))
  else Ok (inr (items, cb_data, dst)).

Definition filter_string_list (l : slist) (cb_data : D) : res (slist * D) :=
  '(items, cb_data, dst) ← loop (Datatypes.S (Z.to_nat (sl_nr l))) (want_step (sl_nr l)) (sl_items l, cb_data, 0, 0);
  Ok (set_items l items dst, cb_data).
End Callback.

Definition string_list_clear (l : slist) : slist := mkSl [] 0 0 (strdup_strings l).

Definition clear_each_step {D} (clearfunc : option U -> S -> D -> res D) (l : slist) (st : D * Z) : res (D * Z + D) :=
  let '(d, i) := st in
  if i <? sl_nr l then it ← rd (sl_items l) i; d ← clearfunc (it_util it) (it_string it) d; Ok (inl (d, i + 1))
  else Ok (inr d).

(** [clearfunc] acts on the caller's data [d]. *)
Definition string_list_clear_func {D} (l : slist) (clearfunc : option (option U -> S -> D -> res D)) (d : D) : res (slist * D) :=
  d ← match clearfunc with
      | Some f => loop (Datatypes.S (Z.to_nat (sl_nr l))) (clear_each_step f l) (d, 0)
      | None => Ok d
      end;
  Ok (mkSl [] 0 0 (strdup_strings l), d).

Definition string_list_setlen (l : slist) (nr : Z) : res slist :=
  if strdup_strings l then Fault BugHit
  else if sl_nr l <? nr then Fault BugHit
  else Ok (set_items l (sl_items l) nr).

Definition string_list_append_nodup (l : slist) (string : S) : res slist :=
  '(items, alloc) ← ALLOC_GROW junk sizeof_item u64 (sl_items l) (sl_nr l + 1) (sl_alloc l);
  items ← wr items (sl_nr l) (mkItem string None);
  Ok (mkSl items (sl_nr l + 1) alloc (strdup_strings l)).

Definition string_list_append (l : slist) (string : S) : res slist :=
  s ← (if strdup_strings l then xstrdup string else Ok string);
  string_list_append_nodup l s.

Definition cmp_items (a b : string_list_item S U) : Z := cmp (it_string a) (it_string b).

Definition string_list_sort (qsort_s : (string_list_item S U -> string_list_item S U -> Z) -> list (string_list_item S U) -> list (string_list_item S U))
    (l : slist) : slist :=
  set_items l (qsort_s cmp_items (take (Z.to_nat (sl_nr l)) (sl_items l)) ++ drop (Z.to_nat (sl_nr l)) (sl_items l)) (sl_nr l).

Definition unsorted_step (l : slist) (string : S) (i : Z) : res (Z + option Z) :=
  if i <? sl_nr l then
    it ← rd (sl_items l) i;
    if cmp string (it_string it) =? 0 then Ok (inr (Some i)) else Ok (inl (i + 1))
  else Ok (inr None).

Definition unsorted_string_list_lookup (l : slist) (string : S) : res (option Z) :=
  loop (Datatypes.S (Z.to_nat (sl_nr l))) (unsorted_step l string) 0.

Definition unsorted_string_list_has_string (l : slist) (string : S) : res bool :=
  o ← unsorted_string_list_lookup l string; Ok (bool_decide (is_Some o)).

Definition unsorted_string_list_delete_item (l : slist) (i : Z) : res slist :=
  x ← rd (sl_items l) (sl_nr l - 1);
  items ← wr (sl_items l) i x;
  Ok (set_items l items (sl_nr l - 1)).
End Code.

(** The callback of [string_list_remove_empty_items], on contents. *)
Definition item_is_not_empty {U} (item : string_list_item (list Z) U) (_ : unit) : res (string_list_item (list Z) U * unit * Z) :=
  Ok (item, tt, if bool_decide (it_string item = []) then 0 else 1).

Definition string_list_remove_empty_items {U} (l : string_list (list Z) U) : res (string_list (list Z) U) :=
  '(l, _) ← filter_string_list item_is_not_empty l tt; Ok l.

(** ** Splitting *)

Definition STRING_LIST_SPLIT_TRIM : Z := 1.
Definition STRING_LIST_SPLIT_NONEMPTY : Z := 2.

(** The sum of two [int]s: an overflow is undefined. *)
Definition int_add (a b : Z) : res Z := if (a + b <? - 2 ^ 31) || (2 ^ 31 <=? a + b) then Fault UB else Ok (a + b).

Section Split.
Context `{Memory} {U : Type}.

Definition rtrim_end_step (mem : list Z) (p end_ : Z) : res (Z + Z) :=
  if p <? end_ then c ← rd mem (end_ - 1); if negb (isspace c) then Ok (inr end_) else Ok (inl (end_ - 1))
  else Ok (inr end_).

Definition ltrim_ptr_step (mem : list Z) (p : Z) : res (Z + Z) :=
  c ← rd mem p; if tr c && isspace c then Ok (inl (p + 1)) else Ok (inr p).

(** The copy is represented by its contents. *)
Definition xmemdupz (mem : list Z) (data n : Z) : res (list Z) :=
  if unsigned_add_overflows n 1 then Fault Died else _ ← xmalloc (n + 1); rd_slice mem data n.

(** The two kinds of appending: a copy, or the string itself, which is then
    terminated in place.  The contents of the string are unchanged by the first. *)
Section Emit.
Context {S : Type} (emit : list Z -> string_list S U -> Z -> Z -> res (list Z * string_list S U)).

Definition append_one (mem : list Z) (l : string_list S U) (p : Z) (end_ : option Z) (flags : Z) : res (list Z * string_list S U * Z) :=
  e ← (match end_ with Some e => Ok e | None => n ← strlen mem p; Ok (p + n) end);
  e ← (if tr (flags &. STRING_LIST_SPLIT_TRIM) then loop (Datatypes.S (length mem)) (rtrim_end_step mem p) e else Ok e);
  if tr (flags &. STRING_LIST_SPLIT_NONEMPTY) && (e <=? p) then Ok (mem, l, 0)
  else '(mem, l) ← emit mem l p e; Ok (mem, l, 1).

Definition strpbrk (mem : list Z) (p : Z) (delim : list Z) : res (option Z) :=
  n ← strcspn mem p delim; c ← rd mem (p + n); Ok (if tr c then Some (p + n) else None).

Definition split_step (delim : list Z) (maxsplit flags : Z) (st : list Z * string_list S U * Z * Z) :
    res (list Z * string_list S U * Z * Z + list Z * string_list S U * Z) :=
  let '(mem, l, p, count) := st in
  p ← (if tr (flags &. STRING_LIST_SPLIT_TRIM) then loop (Datatypes.S (length mem)) (ltrim_ptr_step mem) p else Ok p);
  end_ ← (if (0 <=? maxsplit) && (maxsplit <=? count) then Ok None else strpbrk mem p delim);
  '(mem, l, n) ← append_one mem l p end_ flags;
  count ← int_add count n;
  match end_ with
  | None => Ok (inr (mem, l, count))
  | Some e => Ok (inl (mem, l, e + 1, count))
  end.

Definition split_string (mem : list Z) (l : string_list S U) (string : Z) (delim : list Z) (maxsplit : Z) (in_place : bool) (flags : Z) :
    res (list Z * string_list S U * Z) :=
  if in_place && strdup_strings l then Fault BugHit
  else if negb in_place && negb (strdup_strings l) then Fault BugHit
  else loop (Datatypes.S (length mem)) (split_step delim maxsplit flags) (mem, l, string, 0).
End Emit.

Definition emit_copy_of (junk : string_list_item (list Z) U) (mem : list Z) (l : string_list (list Z) U) (p e : Z) : res (list Z * string_list (list Z) U) :=
  s ← xmemdupz mem p (u64 (e - p)); l ← string_list_append_nodup junk l s; Ok (mem, l).

Definition emit_in_place (junk : string_list_item Z U) (mem : list Z) (l : string_list Z U) (p e : Z) : res (list Z * string_list Z U) :=
  mem ← wr mem e 0; l ← string_list_append junk (fun _ => 0) l p; Ok (mem, l).

Definition string_list_split_f junk (l : string_list (list Z) U) (mem : list Z) (string : Z) (delim : list Z) (maxsplit flags : Z) :=
  split_string (emit_copy_of junk) mem l string delim maxsplit false flags.
Definition string_list_split junk (l : string_list (list Z) U) (mem : list Z) (string : Z) (delim : list Z) (maxsplit : Z) :=
  string_list_split_f junk l mem string delim maxsplit 0.
Definition string_list_split_in_place_f junk (l : string_list Z U) (mem : list Z) (string : Z) (delim : list Z) (maxsplit flags : Z) :=
  split_string (emit_in_place junk) mem l string delim maxsplit true flags.
Definition string_list_split_in_place junk (l : string_list Z U) (mem : list Z) (string : Z) (delim : list Z) (maxsplit : Z) :=
  string_list_split_in_place_f junk l mem string delim maxsplit 0.
End Split.

(** "a:b::c" *)
Example split_tests :
  (('(_, l, n) ← @string_list_split plenty unit (mkItem [] None) STRING_LIST_INIT_DUP [97; 58; 98; 58; 58; 99; 0] 0 [58] (-1);
    Ok (it_string <$> take (Z.to_nat (sl_nr l)) (sl_items l), n)) = Ok ([[97]; [98]; []; [99]], 4)) /\
  (('(_, l, n) ← @string_list_split plenty unit (mkItem [] None) STRING_LIST_INIT_DUP [97; 58; 98; 58; 58; 99; 0] 0 [58] 1;
    Ok (it_string <$> take (Z.to_nat (sl_nr l)) (sl_items l), n)) = Ok ([[97]; [98; 58; 58; 99]], 2)).
Proof. by vm_compute. Qed.
