(* ===== verification/StringListSpec.v ===== *)
(** * Lists of strings: the sorted map

    A list that is only changed by inserting and removing is a map from strings
    to the caller's pointers, kept in the order of the comparison function.  The
    binary search needs the order, so every operation preserves it. *)

From stdpp Require Import prelude numbers list sorting.
From S2P Require Import Prelude PatchDelta Alloc CString StableQsort StringList.

(** ** The abstract map *)

Inductive sl_op (S U : Type) := Insert (s : S) | Assign (s : S) (u : U) | Remove (s : S) | Has (s : S) | Lookup (s : S).
Arguments Insert {S U} s.
Arguments Assign {S U} s u.
Arguments Remove {S U} s.
Arguments Has {S U} s.
Arguments Lookup {S U} s.

Inductive sl_out (U : Type) := Index (i : Z) | Nothing | Answer (b : bool) | Found (u : option (option U)).
Arguments Index {U} i.
Arguments Nothing {U}.
Arguments Answer {U} b.
Arguments Found {U} u.

Section Map.
Context {S U : Type} (cmp : S -> S -> Z).
Abbreviation item := (string_list_item S U).

(** The items before, at and behind the place of [s]. *)
Definition before_s (s : S) (xs : list item) : list item := filter (fun x => 0 < cmp s (it_string x)) xs.
Definition at_s (s : S) (xs : list item) : list item := filter (fun x => cmp s (it_string x) = 0) xs.
Definition behind_s (s : S) (xs : list item) : list item := filter (fun x => cmp s (it_string x) < 0) xs.

Definition map_insert (s : S) (xs : list item) : list item :=
  before_s s xs ++ (if at_s s xs is [] then [mkItem s None] else at_s s xs) ++ behind_s s xs.

Definition map_assign (s : S) (u : U) (xs : list item) : list item :=
  (fun x => if cmp s (it_string x) =? 0 then mkItem (it_string x) (Some u) else x) <$> map_insert s xs.

Definition map_remove (s : S) (xs : list item) : list item := filter (fun x => cmp s (it_string x) <> 0) xs.

Definition map_op (xs : list item) (o : sl_op S U) : sl_out U * list item :=
  match o with
  | Insert s => (Index (len (before_s s xs)), map_insert s xs)
  | Assign s u => (Nothing, map_assign s u xs)
  | Remove s => (Nothing, map_remove s xs)
  | Has s => (Answer (bool_decide (at_s s xs <> [])), xs)
  | Lookup s => (Found (it_util <$> head (at_s s xs)), xs)
  end.

Fixpoint sorted_map_run (xs : list item) (ops : list (sl_op S U)) : list (sl_out U) * list item :=
  match ops with
  | [] => ([], xs)
  | o :: ops => let '(r, xs) := map_op xs o in let '(rs, xs) := sorted_map_run xs ops in (r :: rs, xs)
  end.
End Map.

(** ** The operations of the code *)

Section Run.
Context `{Memory} {S U : Type} (junk : string_list_item S U) (cmp : S -> S -> Z) (size : S -> Z).

(** [string_list_insert(list, s)->util = u] *)
Definition assign (l : string_list S U) (s : S) (u : U) : res (string_list S U) :=
  '(l, i) ← string_list_insert junk cmp size l s;
  it ← rd (sl_items l) i;
  items ← wr (sl_items l) i (mkItem (it_string it) (Some u));
  Ok (set_items l items (sl_nr l)).

Definition sl_run_op (l : string_list S U) (o : sl_op S U) : res (sl_out U * string_list S U) :=
  match o with
  | Insert s => '(l, i) ← string_list_insert junk cmp size l s; Ok (Index i, l)
  | Assign s u => l ← assign l s u; Ok (Nothing, l)
  | Remove s => l ← string_list_remove cmp l s; Ok (Nothing, l)
  | Has s => b ← string_list_has_string cmp l s; Ok (Answer b, l)
  | Lookup s =>
      o ← string_list_lookup cmp l s;
      match o with
      | Some i => it ← rd (sl_items l) i; Ok (Found (Some (it_util it)), l)
      | None => Ok (Found None, l)
      end
  end.

Fixpoint sl_run (l : string_list S U) (ops : list (sl_op S U)) : res (list (sl_out U) * string_list S U) :=
  match ops with
  | [] => Ok ([], l)
  | o :: ops => '(r, l) ← sl_run_op l o; '(rs, l) ← sl_run l ops; Ok (r :: rs, l)
  end.
End Run.

(** ** The order *)

Section Order.
Context {S U : Type} (cmp : S -> S -> Z) `{!CmpOk cmp}.
Abbreviation item := (string_list_item S U).

Definition ascending (xs : list item) : Prop := StronglySorted (fun x y => cmp (it_string x) (it_string y) < 0) xs.

Lemma cmp_lt_trans x y z : (cmp x y < 0 -> cmp y z <= 0 -> cmp x z < 0) /\ (cmp x y <= 0 -> cmp y z < 0 -> cmp x z < 0).
Proof using CmpOk0.
  pose proof (cmpok_anti x z). pose proof (cmpok_anti z x). pose proof (cmpok_anti x y). pose proof (cmpok_anti y x).
  pose proof (cmpok_anti y z). pose proof (cmpok_anti z y). pose proof (cmpok_trans y z x). pose proof (cmpok_trans z x y).
  split; lia.
Qed.

(** What the binary search promises: [xs] cut at the place of [s]. *)
Record cut (s : S) (xs a e b : list item) : Prop := {
  cut_eq : xs = a ++ e ++ b;
  cut_before : Forall (fun x => 0 < cmp s (it_string x)) a;
  cut_at : Forall (fun x => cmp s (it_string x) = 0) e;
  cut_behind : Forall (fun x => cmp s (it_string x) < 0) b;
}.

Lemma cut_filter s xs a e b : cut s xs a e b -> before_s cmp s xs = a /\ at_s cmp s xs = e /\ behind_s cmp s xs = b /\ map_remove cmp s xs = a ++ b.
Proof using All.
  intros [-> Ha He Hb]. unfold before_s, at_s, behind_s, map_remove. rewrite !filter_app.
  assert (forall (P Q : item -> Prop) l, Forall P l -> (forall x, P x -> Q x) -> Forall Q l) as Hi by (intros; by eapply Forall_impl).
  split_and!.
  - rewrite (filter_all _ a), (list_filter_none _ e), (list_filter_none _ b), !app_nil_r; [done| | |done]; (eapply Hi; [eassumption|]; simpl; lia).
  - rewrite (list_filter_none _ a), (filter_all _ e), (list_filter_none _ b), !app_nil_r; [done| |done|]; (eapply Hi; [eassumption|]; simpl; lia).
  - rewrite (list_filter_none _ a), (list_filter_none _ e), (filter_all _ b); [done|done| |]; (eapply Hi; [eassumption|]; simpl; lia).
  - rewrite (filter_all _ a), (list_filter_none _ e), (filter_all _ b); [done| | |]; (eapply Hi; [eassumption|]; simpl; lia).
Qed.

Lemma ascending_app a b : ascending (a ++ b) <-> ascending a /\ ascending b /\ Forall (fun x => Forall (fun y => cmp (it_string x) (it_string y) < 0) b) a.
Proof.
  unfold ascending. induction a as [|x a IH]; cbn [app].
  - split; [intros; split_and!; [constructor|done|constructor]|tauto].
  - split.
    + intros Hs. apply StronglySorted_inv in Hs as [Hs Hx]. apply IH in Hs as (H1 & H2 & H3). apply Forall_app in Hx as [Hx1 Hx2].
      split_and!; [by constructor|done|by constructor].
    + intros (Hs & H2 & H3). apply StronglySorted_inv in Hs as [Hs Hx]. apply Forall_cons in H3 as [H31 H3]. constructor; [by apply IH|by apply Forall_app].
Qed.

(** Inserting and removing keep the order. *)
Lemma cut_insert s xs a b : ascending xs -> cut s xs a [] b -> ascending (a ++ mkItem s None :: b).
Proof using All.
  intros Hs [-> Ha _ Hb]. cbn [app] in Hs. apply ascending_app in Hs as (H1 & H2 & H3). apply ascending_app. split_and!; [done| |].
  - constructor; [done|]. exact Hb.
  - rewrite Forall_forall in *. intros x Hx. constructor; [|by apply H3]. cbn [it_string]. apply cmpok_anti. by apply Ha.
Qed.

Lemma cut_remove s xs a e b : ascending xs -> cut s xs a e b -> ascending (a ++ b).
Proof using All.
  intros Hs [-> _ _ _]. apply ascending_app in Hs as (H1 & H2 & H3). apply ascending_app in H2 as (_ & H2 & _). apply ascending_app.
  split_and!; [done|done|]. eapply Forall_impl; [exact H3|]. intros x Hx. by apply Forall_app in Hx as [_ Hx].
Qed.

(** An item that equals [s] cuts an ascending list. *)
Lemma cut_here s a y b : ascending (a ++ y :: b) -> cmp s (it_string y) = 0 -> cut s (a ++ y :: b) a [y] b.
Proof using All.
  intros Hs Hy. apply ascending_app in Hs as (_ & H2 & H3). apply StronglySorted_inv in H2 as [_ H2]. constructor; [done| |by repeat constructor|].
  - eapply Forall_impl; [exact H3|]. intros x Hx. apply Forall_cons in Hx as [Hx _]. apply cmpok_anti.
    pose proof (cmp_lt_trans (it_string x) (it_string y) s) as [Ht _]. pose proof (cmpok_anti s (it_string y)). pose proof (cmpok_anti (it_string y) s). apply Ht; lia.
  - eapply Forall_impl; [exact H2|]. intros x Hx. pose proof (cmp_lt_trans s (it_string y) (it_string x)) as [_ Ht]. cbn beta in Hx. apply Ht; [lia|exact Hx].
Qed.
End Order.

(** ** Binary search *)

Section Search.
Context {S U : Type} (cmp : S -> S -> Z) `{!CmpOk cmp}.
Abbreviation item := (string_list_item S U).

(** The list [l] holds the items [xs]. *)
Record holds (l : string_list S U) (xs : list item) : Prop := {
  h_items : exists pad, sl_items l = xs ++ pad;
  h_nr : sl_nr l = len xs;
  h_alloc : len (sl_items l) = sl_alloc l;
}.

Lemma get_entry_index_ok l xs s : holds l xs -> ascending cmp xs ->
  total (get_entry_index cmp l s) (fun '(i, found) => exists a e b, cut cmp s xs a e b /\ i = len a /\ if found : bool then exists y, e = [y] else e = []).
Proof using All.
  intros [[pad Hi] Hn _] Hs. unfold get_entry_index.
  apply (wp_loop no_fault (fun '(lo, hi) => exists a m b, xs = a ++ m ++ b /\ lo = len a /\ hi = len a + len m /\
    Forall (fun x => 0 < cmp s (it_string x)) a /\ Forall (fun x => cmp s (it_string x) < 0) b) (fun '(lo, hi) => Z.to_nat (hi - lo))).
  2:{ exists [], xs, []. split_and!; [by rewrite app_nil_r|done|by rewrite len_nil, Z.add_0_l|constructor|constructor]. }
  2:{ lia. }
  intros [lo hi] (a & m & b & Hx & -> & -> & Ha & Hb). unfold entry_index_step. pose proof (len_nonneg a). pose proof (len_nonneg m).
  destruct (Z.ltb_spec (len a) (len a + len m)) as [Hlt|Hge].
  2:{ assert (m = []) as -> by (destruct m; [done|]; rewrite len_cons in *; pose proof (len_nonneg m); lia).
      exists a, [], b. split_and!; [by constructor|by rewrite len_nil, Z.add_0_r|done]. }
  replace (len a + len m - len a) with (len m) by lia. set (k := len m `div` 2). assert (0 <= k < len m) as Hk by (unfold k; dlia).
  destruct (lookup_lt_is_Some_2 m (Z.to_nat k)) as [y Hy]; [llia|]. apply list_elem_of_split_length in Hy as (m1 & m2 & -> & Hm1).
  rewrite Hi, Hx. replace ((a ++ (m1 ++ y :: m2) ++ b) ++ pad) with ((a ++ m1) ++ y :: m2 ++ b ++ pad) by (rewrite <- !app_assoc; done).
  apply wp_bind. rewrite (rd_mid (a ++ m1) y) by (rewrite len_app; llia). apply wp_ret.
  rewrite Hx in Hs. assert (k = len m1) as -> by llia.
  destruct (Z.ltb_spec (cmp s (it_string y)) 0) as [H1|H1]; [|destruct (Z.ltb_spec 0 (cmp s (it_string y))) as [H2|H2]]; apply wp_ret.
  - split; [|lia]. exists a, m1, (y :: m2 ++ b). split_and!; [by rewrite <- app_assoc|done|done|done|]. constructor; [done|]. apply Forall_app. split; [|done].
    apply (ascending_app cmp) in Hs as (_ & Hs & _). apply (ascending_app cmp) in Hs as (Hs & _ & _). apply (ascending_app cmp) in Hs as (_ & Hs & _).
    apply StronglySorted_inv in Hs as [_ Hs]. eapply Forall_impl; [exact Hs|]. intros z Hz.
    cbn beta in Hz. pose proof (cmp_lt_trans cmp s (it_string y) (it_string z)) as [Ht _]. apply Ht; lia.
  - split; [|autorewrite with len in *; pose proof (len_nonneg m2); lia]. exists (a ++ m1 ++ [y]), m2, b. split_and!; [by rewrite <- !app_assoc|autorewrite with len; lia|autorewrite with len; lia| |done].
    apply Forall_app. split; [done|]. apply Forall_app. split; [|by repeat constructor].
    apply (ascending_app cmp) in Hs as (_ & Hs & _). apply (ascending_app cmp) in Hs as (Hs & _ & _). apply (ascending_app cmp) in Hs as (_ & _ & Hs).
    eapply Forall_impl; [exact Hs|]. intros z Hz. apply Forall_cons in Hz as [Hz _]. apply cmpok_anti.
    pose proof (cmp_lt_trans cmp (it_string z) (it_string y) s) as [Ht _]. pose proof (cmpok_anti (it_string y) s). apply Ht; lia.
  - exists (a ++ m1), [y], (m2 ++ b). split_and!; [|by rewrite len_app|by exists y]. 
    assert (a ++ (m1 ++ y :: m2) ++ b = (a ++ m1) ++ y :: m2 ++ b) as E by (rewrite <- !app_assoc; done).
    rewrite E in Hs. rewrite E. apply cut_here; [done|done|lia].
Qed.
End Search.

(** ** Refinement *)

Section Refine.
Context `{Memory} {S U : Type} (junk : string_list_item S U) (cmp : S -> S -> Z) (size : S -> Z) `{!CmpOk cmp}.
Abbreviation item := (string_list_item S U).

Lemma xstrdup_oom s : wp oom (xstrdup size s) (fun s' => s' = s).
Proof. unfold xstrdup. destruct (libc_alloc (size s + 1)) eqn:E; [done|]. split; [done|]. exists (size s + 1). unfold can_alloc. by rewrite E, andb_false_r. Qed.

(** Moving the items behind a place one up or down. *)
Lemma move_up (a b pad : list item) x : exists y pad', a ++ b ++ x :: pad = a ++ pad' /\
  move_items (a ++ b ++ x :: pad) (len a + 1) (len a) (len b) = Ok (a ++ y :: b ++ pad) /\ len (y :: b ++ pad) = len pad'.
Proof.
  unfold move_items. rewrite rd_slice_mid by done. cbn [mbind res_bind].
  destruct b as [|z b].
  - exists x, (x :: pad). split_and!; [done| |done]. cbn [app]. rewrite wr_slice_ok by (autorewrite with len; pose proof (len_nonneg a); pose proof (len_nonneg pad); lia).
    cbn [app length]. by rewrite Nat.add_0_r, take_drop.
  - exists z, (z :: b ++ x :: pad). split_and!; [done| |by autorewrite with len; lia].
    assert (exists c, z :: b ++ [x] = z :: c /\ len c = len (z :: b)) as (c & Hc & Hlc) by (exists (b ++ [x]); split; [done|autorewrite with len; lia]).
    replace (a ++ (z :: b) ++ x :: pad) with ((a ++ [z]) ++ c ++ pad).
    2:{ rewrite <- app_assoc. cbn [app]. f_equal. injection Hc as <-. rewrite <- app_assoc. done. }
    rewrite (wr_slice_mid (a ++ [z]) c pad) by (autorewrite with len in *; lia). rewrite <- app_assoc. done.
Qed.

Lemma move_down (a b pad : list item) x : exists y,
  move_items (a ++ x :: b ++ pad) (len a) (len a + 1) (len b) = Ok (a ++ b ++ y :: pad).
Proof.
  unfold move_items. replace (a ++ x :: b ++ pad) with ((a ++ [x]) ++ b ++ pad) by (rewrite <- app_assoc; done).
  rewrite rd_slice_mid by (autorewrite with len; lia). cbn [mbind res_bind]. 
  destruct (exists_last (l := x :: b)) as (c & y & Hc); [done|]. exists y.
  replace ((a ++ [x]) ++ b ++ pad) with (a ++ c ++ [y] ++ pad).
  2:{ rewrite <- app_assoc. f_equal. cbn [app]. change (x :: b ++ pad) with ((x :: b) ++ pad). rewrite Hc, <- app_assoc. done. }
  apply wr_slice_mid; [done|]. apply (f_equal len) in Hc. autorewrite with len in Hc. lia.
Qed.

Definition sorted_fits (n : Z) (l : string_list S U) (xs : list item) : Prop := holds l xs /\ ascending cmp xs /\ len xs <= n /\ sl_alloc l <= 2 * n + 24.

Lemma add_entry_ok n l xs s : sorted_fits n l xs -> 0 <= n < 2 ^ 31 - 1 ->
  wp oom (add_entry junk cmp size l s) (fun '(l', i) => sorted_fits (n + 1) l' (map_insert cmp s xs) /\ i = len (before_s cmp s xs)).
Proof using All.
  intros (Hh & Hs & Hl & Hal) Hb. unfold add_entry. apply wp_bind. eapply wp_mono; [by apply total_wp, get_entry_index_ok|].
  intros [i found] (a & e & b & Hc & -> & Hf). pose proof (cut_filter cmp s xs a e b Hc) as (Eb & Ea & Eh & _). unfold map_insert. rewrite Eb, Ea, Eh.
  destruct found.
  - destruct Hf as [y ->]. apply wp_ret. split; [|done]. rewrite <- (cut_eq _ _ _ _ _ _ Hc). split_and!; [done|done|lia|lia].
  - subst e. destruct Hh as [[pad Hi] Hn Ha]. pose proof (cut_eq _ _ _ _ _ _ Hc) as Hx. cbn [app] in Hx. pose proof (len_nonneg xs). apply wp_bind.
    eapply wp_mono; [apply ALLOC_GROW_spec; [done|unfold sizeof_item; lia..]|]. intros [items alloc] (pad' & -> & Hla & Hge & Hnr & Hor).
    rewrite Hi in *. assert (exists x p, pad ++ pad' = x :: p) as (x & p & Hp).
    { destruct (pad ++ pad') as [|x p] eqn:E; [|by exists x, p]. exfalso. rewrite <- app_assoc, E, app_nil_r in Hla. lia. }
    rewrite <- app_assoc, Hp in *. rewrite Hx, <- app_assoc in *.
    destruct (move_up a b p x) as (y & pd & _ & Hmv & _).
    assert (Hmv' : exists y', (if len a <? sl_nr l then move_items (a ++ b ++ x :: p) (len a + 1) (len a) (sl_nr l - len a) else Ok (a ++ b ++ x :: p)) = Ok (a ++ y' :: b ++ p)).
    { rewrite Hn, len_app. replace (len a + len b - len a) with (len b) by lia. destruct (Z.ltb_spec (len a) (len a + len b)); [by exists y|].
      assert (b = []) as -> by (destruct b; [done|]; rewrite len_cons in *; pose proof (len_nonneg b); lia). by exists x. }
    destruct Hmv' as [y' ->]. cbn [mbind res_bind]. apply wp_bind. eapply (wp_mono _ _ (fun s' => s' = s)).
    { destruct (strdup_strings l); [apply xstrdup_oom|done]. }
    intros ? ->. rewrite wr_mid by done. cbn [mbind res_bind]. apply wp_ret. split; [|done].
    autorewrite with len in *. split_and!.
    + constructor; cbn [sl_items sl_nr sl_alloc]; [exists p; rewrite <- !app_assoc; done|rewrite Hn; autorewrite with len; lia|autorewrite with len; lia].
    + cbn [app]. by eapply cut_insert.
    + cbn [app]. autorewrite with len. lia.
    + cbn [sl_alloc]. lia.
Qed.

Lemma string_list_remove_ok n l xs s : sorted_fits n l xs -> n < 2 ^ 31 -> total (string_list_remove cmp l s) (fun l' => sorted_fits n l' (map_remove cmp s xs)).
Proof using All.
  intros (Hh & Hs & Hl & Hal) Hb. unfold string_list_remove. apply wp_bind. eapply wp_mono; [by apply get_entry_index_ok|].
  intros [i found] (a & e & b & Hc & -> & Hf). pose proof (cut_filter cmp s xs a e b Hc) as (_ & _ & _ & ->). pose proof (cut_remove cmp s xs a e b Hs Hc) as Hab.
  destruct Hh as [[pad Hi] Hn Ha]. pose proof (cut_eq _ _ _ _ _ _ Hc) as Hx. destruct found.
  - destruct Hf as [y ->]. cbn [app] in Hx. rewrite Hx in *. rewrite len_app, len_cons in *. pose proof (len_nonneg a). pose proof (len_nonneg b).
    rewrite to_int_small by lia. rewrite <- app_assoc in Hi. cbn [app] in Hi. rewrite Hi, Hn.
    replace (len a + (1 + len b) - 1 - len a) with (len b) by lia.
    destruct (move_down a b pad y) as [z ->]. cbn [mbind res_bind]. apply wp_ret. rewrite Hi in Ha. autorewrite with len in Ha. split_and!.
    + constructor; cbn [set_items sl_items sl_nr sl_alloc]; [exists (z :: pad); by rewrite <- app_assoc|rewrite len_app; lia|autorewrite with len; lia].
    + done.
    + rewrite len_app. lia.
    + done.
  - subst e. apply wp_ret. cbn [app] in Hx. rewrite <- Hx. split_and!; [constructor; [by exists pad|done|done]|done|lia|lia].
Qed.

Lemma lookup_ok n l xs s : sorted_fits n l xs ->
  total (string_list_lookup cmp l s) (fun o => match o with
    | Some i => exists x, at_s cmp s xs = [x] /\ rd (sl_items l) i = Ok x /\ i = len (before_s cmp s xs)
    | None => at_s cmp s xs = [] end).
Proof using All.
  intros (Hh & Hs & Hl & Hal). unfold string_list_lookup. apply wp_bind. eapply wp_mono; [by apply get_entry_index_ok|].
  intros [i found] (a & e & b & Hc & -> & Hf). pose proof (cut_filter cmp s xs a e b Hc) as (-> & -> & _ & _). destruct Hh as [[pad Hi] _ _].
  apply wp_ret. destruct found; [|done]. destruct Hf as [y ->]. exists y. split_and!; [done| |done].
  rewrite Hi, (cut_eq _ _ _ _ _ _ Hc), <- app_assoc. by apply rd_mid.
Qed.

Lemma assign_ok n l xs s u : sorted_fits n l xs -> 0 <= n < 2 ^ 31 - 1 ->
  wp oom (assign junk cmp size l s u) (fun l' => sorted_fits (n + 1) l' (map_assign cmp s u xs)).
Proof using All.
  intros Hf Hn. unfold assign, string_list_insert. apply wp_bind. eapply wp_mono; [by apply add_entry_ok|]. clear Hf.
  intros [l' i] [([[pad Hi] Hnr Ha] & Hs & Hl & Hal) ->]. unfold map_assign. set (f := fun x : item => if cmp s (it_string x) =? 0 then mkItem (it_string x) (Some u) else x).
  assert (exists a y b, map_insert cmp s xs = a ++ y :: b /\ len a = len (before_s cmp s xs) /\ f <$> map_insert cmp s xs = a ++ mkItem (it_string y) (Some u) :: b) as (a & y & b & Hm & Hla & ->).
  { assert (cmp s s = 0) as Hss by (pose proof (cmpok_anti s s); lia).
    assert (exists y e, (match at_s cmp s xs with [] => [mkItem s None] | _ => at_s cmp s xs end) = y :: e /\ cmp s (it_string y) = 0) as (y & e & He & Hy).
    { destruct (at_s cmp s xs) as [|y e] eqn:E; [by exists (mkItem s None), []|]. exists y, e. split; [done|].
      assert (y ∈ at_s cmp s xs) as Hin by (rewrite E; left). unfold at_s in Hin. by apply list_elem_of_filter in Hin as [? _]. }
    pose proof Hs as Hs'. unfold map_insert in Hs' |- *. rewrite He in *. cbn [app] in *.
    exists (before_s cmp s xs), y, (e ++ behind_s cmp s xs). split_and!; [done|done|].
    destruct (cut_here cmp s _ y _ Hs' Hy) as [_ Hb _ Hh]. rewrite fmap_app, fmap_cons. f_equal; [|f_equal].
    - rewrite <- (list_fmap_id (before_s cmp s xs)) at 2. apply list_fmap_ext. intros j x Hx. unfold f. rewrite (proj2 (Z.eqb_neq _ 0)); [done|].
      eapply Forall_lookup_1 in Hb; [|exact Hx]. cbn beta in Hb. lia.
    - unfold f. by rewrite Hy.
    - rewrite <- (list_fmap_id (e ++ _)) at 2. apply list_fmap_ext. intros j x Hx. unfold f. rewrite (proj2 (Z.eqb_neq _ 0)); [done|].
      eapply Forall_lookup_1 in Hh; [|exact Hx]. cbn beta in Hh. lia. }
  rewrite Hm in *. rewrite Hi, <- app_assoc in *. cbn [app] in *. rewrite rd_mid by done. cbn [mbind res_bind]. rewrite wr_mid by done. cbn [mbind res_bind]. apply wp_ret.
  autorewrite with len in *. split_and!.
  - constructor; cbn [set_items sl_items sl_nr sl_alloc]; [exists pad; by rewrite <- app_assoc|autorewrite with len; lia|autorewrite with len; lia].
  - apply (ascending_app cmp) in Hs as (H1 & H2 & H3). apply StronglySorted_inv in H2 as [H2 H2']. apply (ascending_app cmp). split_and!; [done|by constructor|].
    eapply Forall_impl; [exact H3|]. intros x Hx. apply Forall_cons in Hx as [Hx Hx']. by constructor.
  - autorewrite with len. lia.
  - done.
Qed.

Lemma sl_op_ok n l xs o : sorted_fits n l xs -> 0 <= n < 2 ^ 31 - 1 ->
  wp oom (sl_run_op junk cmp size l o) (fun '(r, l') => r = (map_op cmp xs o).1 /\ sorted_fits (n + 1) l' (map_op cmp xs o).2).
Proof using All.
  intros Hf Hn. assert (forall l' xs', sorted_fits n l' xs' -> sorted_fits (n + 1) l' xs') as Hup by (intros l' xs' (? & ? & ? & ?); split_and!; (done || lia)).
  destruct o as [s|s u|s|s|s]; cbn [sl_run_op map_op fst snd]; apply wp_bind.
  - eapply wp_mono; [by apply add_entry_ok|]. intros [l' i] [H1 ->]. done.
  - eapply wp_mono; [by apply assign_ok|]. intros l' H1. done.
  - eapply wp_mono; [apply total_wp, string_list_remove_ok; [done|lia]|]. intros l' H1. split; [done|]. by apply Hup.
  - pose proof (lookup_ok n l xs s Hf) as Hlk. unfold string_list_lookup in Hlk. unfold string_list_has_string.
    destruct (get_entry_index cmp l s) as [[i found]|]; [|done]. cbn [mbind res_bind wp] in *. split; [|by apply Hup]. f_equal. symmetry.
    destruct found; [destruct Hlk as (x & -> & _); by apply bool_decide_eq_true_2|rewrite Hlk; by apply bool_decide_eq_false_2; intros []].
  - eapply wp_mono; [apply total_wp, (lookup_ok n l xs s Hf)|]. intros [i|] Ho.
    + destruct Ho as (x & -> & -> & _). cbn [mbind res_bind]. split; [done|]. by apply Hup.
    + rewrite Ho. split; [done|]. by apply Hup.
Qed.

Lemma sl_run_ok ops : forall n l xs, sorted_fits n l xs -> 0 <= n -> n + len ops < 2 ^ 31 ->
  wp oom (sl_run junk cmp size l ops) (fun '(rs, l') => rs = (sorted_map_run cmp xs ops).1 /\ exists m, sorted_fits m l' (sorted_map_run cmp xs ops).2).
Proof using All.
  induction ops as [|o ops IH]; intros n l xs Hf Hn Hlen; cbn [sl_run sorted_map_run]; [apply wp_ret; split; [done|by exists n]|].
  rewrite len_cons in Hlen. pose proof (len_nonneg ops). apply wp_bind. eapply wp_mono; [apply (sl_op_ok n); [done|lia]|].
  intros [r l'] [-> Hf']. apply wp_bind. destruct (map_op cmp xs o) as [r xs'] eqn:Eo. cbn [fst snd] in *. eapply wp_mono; [apply (IH (n + 1)); [done|lia|lia]|].
  intros [rs l''] [-> Hm]. apply wp_ret. by destruct (sorted_map_run cmp xs' ops).
Qed.
End Refine.

#[export] Instance strcmp_ok : CmpOk strcmp.
Proof.
  constructor.
  - induction x as [|a x IH].
    + intros [|b y]; cbn [strcmp]; lia.
    + intros [|b y]; cbn [strcmp]; [lia|]. specialize (IH y). cases_Z; lia.
  - induction x as [|a x IH].
    + intros [|b y] [|c z]; cbn [strcmp]; cases_Z; lia.
    + intros [|b y] [|c z]; cbn [strcmp]; try lia. specialize (IH y z). cases_Z; lia.
Qed.

(** C22: with a comparison function that is a total preorder, any sequence of fewer than [2 ^ 31] insertions, assignments of the caller's pointer, removals and
    look-ups on a new string list behaves like the same operations on a map
    that is kept in the order of the comparison function: the results are the same
    and at the end the list holds the map's items, strictly ascending.  The only
    other outcome is the death of the program for lack of memory. *)
Theorem string_list_refines `{Memory} {S U} junk (cmp : S -> S -> Z) size (dup : bool) (ops : list (sl_op S U)) : CmpOk cmp -> len ops < 2 ^ 31 ->
  wp oom (sl_run junk cmp size (mkSl [] 0 0 dup) ops) (fun '(rs, l) =>
    let '(rs', xs) := sorted_map_run cmp [] ops in
    rs = rs' /\ take (Z.to_nat (sl_nr l)) (sl_items l) = xs /\ StronglySorted (fun x y => cmp (it_string x) (it_string y) < 0) xs).
Proof.
  intros Hc Hlen. eapply wp_mono; [apply (sl_run_ok junk cmp size ops 0 _ []); [|lia|lia]|].
  - split_and!; [constructor; [by exists []|done|done]|constructor|done|done].
  - intros [rs l]. destruct (sorted_map_run cmp [] ops) as [rs' xs]. intros (-> & n & [[pad ->] Hn _] & Hs & _). split_and!; [done| |done].
    rewrite Hn. unfold len. by rewrite Nat2Z.id, take_app_length.
Qed.

Lemma string_list_refines_witness :
  wp (@oom plenty) (@sl_run plenty (list Z) Z (mkItem [] None) strcmp len (mkSl [] 0 0 true) [Assign [98] 7; Insert [97]; Lookup [98]; Remove [97]; Has [97]]) (fun '(rs, l) =>
    let '(rs', xs) := sorted_map_run strcmp [] [Assign [98] 7; Insert [97]; Lookup [98]; Remove [97]; Has [97]] in
    rs = rs' /\ take (Z.to_nat (sl_nr l)) (sl_items l) = xs /\ StronglySorted (fun x y => strcmp (it_string x) (it_string y) < 0) xs) /\
  sorted_map_run strcmp [] [Assign [98] 7; Insert [97]; Lookup [98]; Remove [97]; Has [97]] = ([Nothing; Index 0; Found (Some (Some 7)); Nothing; Answer false], [mkItem [98] (Some 7)]).
Proof.
  split; [|by vm_compute]. apply (@string_list_refines plenty); [apply strcmp_ok|done].
Defined.
