(* ===== verification/StringListSplit.v ===== *)
(** * Lists of strings: splitting a text

    The fields of a text, as a function on byte lists, and the theorem that the
    four splitting functions of [string-list.c] append exactly these: as copies, or as
    pointers into the text, which is cut up with NULs. *)

From stdpp Require Import prelude numbers list.
From S2P Require Import Prelude PatchDelta Alloc CString Strbuf StringList StringListSpec.

(** ** Reference *)

(** The fields of [s], which is cut at most [m] times ([None]: at every delimiter). *)
Fixpoint fields (delim : list Z) (m : option nat) (s : list Z) : list (list Z) :=
  match s with
  | [] => [[]]
  | c :: s' =>
      if bool_decide (m = Some 0%nat) then [s]
      else if bool_decide (c ∈ delim) then [] :: fields delim (pred <$> m) s'
      else match fields delim m s' with f :: fs => (c :: f) :: fs | [] => [[c]] end
  end.

(** White space removed at both ends. *)
Definition trimmed (trim : bool) (f : list Z) : list Z := if trim then rstrip isspace (lstrip isspace f) else f.

Definition keep (nonempty : bool) (fs : list (list Z)) : list (list Z) := if nonempty then filter (fun f => f <> []) fs else fs.

Definition split_pieces (delim : list Z) (m : option nat) (trim nonempty : bool) (s : list Z) : list (list Z) :=
  keep nonempty (trimmed trim <$> fields delim m s).

Lemma fields_app delim m w s : Forall (fun c => c ∉ delim) w ->
  exists f fs, fields delim m s = f :: fs /\ fields delim m (w ++ s) = (w ++ f) :: fs.
Proof.
  intros Hw. assert (exists f fs, fields delim m s = f :: fs /\ (m = Some 0%nat -> f = s /\ fs = [])) as (f & fs & Hf & H0).
  { destruct s as [|c s]; cbn [fields]; [by exists [], []|]. case_bool_decide; [by eexists _, _|]. case_bool_decide; [by eexists _, _|].
    destruct (fields delim m s); by eexists _, _. }
  exists f, fs. split; [done|]. induction Hw as [|c w Hc _ IH]; [done|]. cbn [fields app]. case_bool_decide as Hm.
  - destruct (H0 Hm) as [-> ->]. done.
  - rewrite bool_decide_eq_false_2 by done. by rewrite IH.
Qed.

Lemma fields_none delim m s : Forall (fun c => c ∉ delim) s \/ m = Some 0%nat -> fields delim m s = [s].
Proof.
  intros [Hs| ->]; [|by destruct s].
  destruct (fields_app delim m s [] Hs) as (f & fs & [= <- <-] & E). by rewrite !app_nil_r in E.
Qed.

Lemma fields_cut delim m a d b : Forall (fun c => c ∉ delim) a -> d ∈ delim -> m <> Some 0%nat ->
  fields delim m (a ++ d :: b) = a :: fields delim (pred <$> m) b.
Proof.
  intros Ha Hd Hm. destruct (fields_app delim m a (d :: b) Ha) as (f & fs & E & ->). cbn [fields] in E.
  rewrite bool_decide_eq_false_2, bool_decide_eq_true_2 in E by done. injection E as <- <-. by rewrite app_nil_r.
Qed.

Lemma lstrip_spaces w s : Forall (fun c => isspace c = true) w -> lstrip isspace (w ++ s) = lstrip isspace s.
Proof. unfold lstrip. induction 1 as [|c w Hc _ IH]; [done|]. cbn [span app]. by rewrite Hc. Qed.

Lemma lstrip_split s : exists w, s = w ++ lstrip isspace s /\ Forall (fun c => isspace c = true) w /\ (lstrip isspace s = [] \/ exists c t, lstrip isspace s = c :: t /\ isspace c = false).
Proof.
  unfold lstrip. destruct (span_split isspace s) as (w & t & Hs & Hl & Hw & Ht). rewrite <- Hl. assert (drop (length w) s = t) as -> by (rewrite Hs; apply drop_app_length).
  exists w. split_and!; [done|done|]. destruct t as [|c t]; [by left|right]. exists c, t. split; [done|]. by eapply Ht.
Qed.

Lemma keep_app ne a b : keep ne (a ++ b) = keep ne a ++ keep ne b.
Proof. destruct ne; [|done]. apply filter_app. Qed.

(** Leading white space does not matter when it is trimmed. *)
Lemma split_pieces_ltrim delim m ne s : Forall (fun c => isspace c = false) delim ->
  split_pieces delim m true ne s = split_pieces delim m true ne (lstrip isspace s).
Proof.
  intros Hd. unfold split_pieces. f_equal. destruct (lstrip_split s) as (w & Hs & Hw & _). rewrite Hs at 1.
  destruct (fields_app delim m w (lstrip isspace s)) as (f & fs & -> & ->).
  { eapply Forall_impl; [exact Hw|]. intros c Hc Hin. rewrite Forall_forall in Hd. cbn beta in Hc. specialize (Hd c Hin). congruence. }
  cbn [fmap list_fmap]. f_equal. unfold trimmed. by rewrite lstrip_spaces.
Qed.

(** ** The code *)

Section Split.
Context `{Memory} {S U : Type} (emit : list Z -> string_list S U -> Z -> Z -> res (list Z * string_list S U)).

(** [Em mem l toks p]: the pieces [toks] were appended to [l], and none of them
    reaches the address [p]. *)
Context (Em : list Z -> string_list S U -> list (list Z) -> Z -> Prop).
Context (Em_mono : forall mem l toks p q, Em mem l toks p -> p <= q -> Em mem l toks q).
Context (Hemit : forall mem l toks p t c rest q, 0 <= p -> drop (Z.to_nat p) mem = t ++ c :: rest -> Forall (fun x => x <> 0) t -> p + len t < q ->
  Em mem l toks p -> len toks < 2 ^ 32 -> len mem < 2 ^ 62 ->
  wp oom (emit mem l p (p + len t)) (fun '(mem', l') => Em mem' l' (toks ++ [t]) q /\ drop (Z.to_nat q) mem' = drop (Z.to_nat q) mem /\ length mem' = length mem)).

Context (flags : Z).
Abbreviation trim := (tr (flags &. STRING_LIST_SPLIT_TRIM)).
Abbreviation nonempty := (tr (flags &. STRING_LIST_SPLIT_NONEMPTY)).

Lemma rtrim_end_ok mem p t : 0 <= p -> forall fuel rest, drop (Z.to_nat p) mem = t ++ rest -> (length t < fuel)%nat ->
  loop fuel (rtrim_end_step mem p) (p + len t) = Ok (p + len (rstrip isspace t)).
Proof.
  intros Hp. induction t as [|c t IH] using rev_ind; intros fuel rest Hd Hf; (destruct fuel as [|fuel]; [lia|]); rewrite loop_S; unfold rtrim_end_step at 1.
  - change (len (rstrip isspace [])) with 0. change (len []) with 0. rewrite !Z.add_0_r. destruct (Z.ltb_spec p p); [lia|]. done.
  - rewrite len_app. change (len [c]) with 1. pose proof (len_nonneg t). destruct (Z.ltb_spec p (p + (len t + 1))); [|lia].
    replace (p + (len t + 1) - 1) with (p + len t) by lia. rewrite <- app_assoc in Hd.
    rewrite (rd_drop_cons mem (p + len t) c rest) by (try lia; by eapply drop_app_tail). cbn [mbind res_bind]. rewrite rstrip_snoc.
    destruct (isspace c); cbn [negb]; [|rewrite len_app; change (len [c]) with 1; f_equal; lia].
    rewrite length_app in Hf. simpl in Hf. eapply IH; [exact Hd|lia].
Qed.

Lemma ltrim_ptr_ok mem s : forall p fuel, cstr mem p s -> (length s < fuel)%nat ->
  loop fuel (ltrim_ptr_step mem) p = Ok (p + (len s - len (lstrip isspace s))).
Proof.
  induction s as [|c s IH]; intros p fuel Hs Hf; (destruct fuel as [|fuel]; [lia|]); rewrite loop_S; unfold ltrim_ptr_step at 1; rewrite (cstr_rd _ _ _ Hs); cbn [hd mbind res_bind].
  - cbn [tr Z.eqb negb andb]. change (len (lstrip isspace [])) with 0. change (len []) with 0. f_equal. lia.
  - pose proof (cstr_nz _ _ _ _ Hs) as Hc. rewrite (proj2 (tr_true c) Hc). cbn [andb]. unfold lstrip. cbn [span]. destruct (isspace c) eqn:Ec.
    + cbn [drop]. rewrite (IH (p + 1)) by (try (simpl in Hf; lia); by eapply cstr_tl). unfold lstrip. rewrite len_cons. f_equal. lia.
    + cbn [drop]. f_equal. lia.
Qed.

Lemma append_one_ok mem l toks p a c rest end_ : 0 <= p -> drop (Z.to_nat p) mem = a ++ c :: rest -> Forall (fun x => x <> 0) a ->
  end_ = Some (p + len a) \/ (end_ = None /\ c = 0) -> Em mem l toks p -> len toks < 2 ^ 32 -> len mem < 2 ^ 62 ->
  wp oom (append_one emit mem l p end_ flags) (fun '(mem', l', n) =>
    let new := keep nonempty [if trim then rstrip isspace a else a] in
    n = len new /\ Em mem' l' (toks ++ new) (p + len a + 1) /\ drop (Z.to_nat (p + len a + 1)) mem' = drop (Z.to_nat (p + len a + 1)) mem /\ length mem' = length mem).
Proof using All.
  intros Hp Hd Ha He Hem Hn Hm. unfold append_one. pose proof (len_nonneg a).
  assert (match end_ with Some e => Ok e | None => n ← strlen mem p; Ok (p + n) end = Ok (p + len a)) as ->.
  { destruct He as [->|[-> ->]]; [done|]. rewrite (strlen_ok mem p a); [done|]. by split_and!; [|done|exists rest]. }
  cbn [mbind res_bind]. set (t := if trim then rstrip isspace a else a).
  assert ((if trim then loop (Datatypes.S (length mem)) (rtrim_end_step mem p) (p + len a) else Ok (p + len a)) = Ok (p + len t)) as ->.
  { unfold t. destruct trim; [|done]. eapply rtrim_end_ok; [done|exact Hd|]. apply (f_equal length) in Hd. rewrite length_drop, length_app in Hd. simpl in Hd. lia. }
  cbn [mbind res_bind]. pose proof (len_nonneg t).
  assert (exists u, a = t ++ u) as [u Hu]. { unfold t. destruct trim; [apply rstrip_prefix|exists []; by rewrite app_nil_r]. }
  assert ((p + len t <=? p) = bool_decide (t = [])) as ->.
  { destruct t; [by rewrite Z.add_0_r; apply Z.leb_refl|]. rewrite len_cons in *. pose proof (len_nonneg t). apply Z.leb_gt. lia. }
  destruct (nonempty && bool_decide (t = [])) eqn:En.
  - apply andb_true_iff in En as [-> Ht]. apply bool_decide_eq_true in Ht as ->. apply wp_ret. cbn. rewrite app_nil_r. split_and!; [done| |done|done]. eapply Em_mono; [done|lia].
  - assert (keep nonempty [t] = [t]) as ->.
    { unfold keep. destruct nonempty; [|done]. cbn [andb] in En. apply bool_decide_eq_false in En. by rewrite filter_cons, decide_True. }
    assert (exists c' rest', drop (Z.to_nat p) mem = t ++ c' :: rest') as (c' & rest' & Hd').
    { rewrite Hd, Hu, <- app_assoc. destruct u as [|c' u]; by eexists _, _. }
    rewrite Hu in Ha. apply Forall_app in Ha as [Ha _].
    apply wp_bind. eapply wp_mono; [eapply (Hemit mem l toks p t c' rest' (p + len a + 1)); try done|].
    { rewrite Hu, len_app. pose proof (len_nonneg u). lia. }
    intros [mem' l'] (? & ? & ?). apply wp_ret. done.
Qed.

Context (delim : list Z) (maxsplit : Z).
Context (Hdelim : trim = true -> Forall (fun c => isspace c = false) delim).
Context (Hmax : nonempty = true -> maxsplit < 0).

(** The number of cuts that are left. *)
Definition cuts (count : Z) : option nat := if 0 <=? maxsplit then Some (Z.to_nat (maxsplit - count)) else None.

Lemma split_loop n : forall s mem l toks p count fuel, (length s <= n)%nat -> cstr mem p s -> Em mem l toks p -> (n < fuel)%nat ->
  0 <= count -> count + len s + 1 < 2 ^ 31 -> len toks + len s + 1 < 2 ^ 32 -> len mem < 2 ^ 62 ->
  wp oom (loop fuel (split_step emit delim maxsplit flags) (mem, l, p, count)) (fun '(mem', l', r) =>
    let new := split_pieces delim (cuts count) trim nonempty s in
    r = count + len new /\ exists q, Em mem' l' (toks ++ new) q).
Proof using All.
  induction n as [n IH] using lt_wf_ind. intros s mem l toks p count fuel Hsn Hs Hem Hfuel Hc Hcl Htl Hml. destruct fuel as [|fuel]; [lia|].
  apply wp_loop_S. unfold split_step at 1. pose proof (cstr_length _ _ _ Hs) as Hlen.
  set (s1 := if trim then lstrip isspace s else s).
  assert (exists w, s = w ++ s1 /\ (if trim then loop (Datatypes.S (length mem)) (ltrim_ptr_step mem) p else Ok p) = Ok (p + len w) /\
    split_pieces delim (cuts count) trim nonempty s = split_pieces delim (cuts count) trim nonempty s1 /\ (trim = true -> lstrip isspace s1 = s1)) as (w & Hw & -> & -> & Hls).
  { unfold s1. destruct trim.
    - destruct (lstrip_split s) as (w & Hw & Hsp & Hhd). exists w. split_and!; [done| |by apply split_pieces_ltrim, Hdelim|].
      + rewrite (ltrim_ptr_ok mem s) by (done || lia). do 2 f_equal. rewrite Hw at 1. rewrite len_app. lia.
      + intros _. destruct Hhd as [->|(c & t & -> & Ec)]; [done|]. unfold lstrip. cbn [span]. by rewrite Ec.
    - exists []. rewrite Z.add_0_r. by split_and!. }
  clearbody s1. subst s. apply cstr_app in Hs. pose proof (len_nonneg w). pose proof (len_nonneg s1). rewrite len_app in Hcl, Htl. rewrite length_app in Hsn.
  cbn [mbind res_bind]. eapply Em_mono in Hem; [|instantiate (1 := p + len w); lia]. set (p1 := p + len w) in *. clearbody p1.
  pose proof Hs as (Hp1 & Hnz & rest & Hd).
  destruct ((0 <=? maxsplit) && (maxsplit <=? count)) eqn:Emax.
  - cbn [mbind res_bind]. apply wp_bind. eapply wp_mono; [eapply append_one_ok; [done|exact Hd|done|by right|done|lia|done]|].
    intros [[mem' l'] k] (-> & Hem' & _). unfold split_pieces. rewrite fields_none.
    2:{ right. unfold cuts. apply andb_true_iff in Emax as [E1 E2]. rewrite E1. f_equal. lia. }
    cbn [fmap list_fmap]. assert (trimmed trim s1 = if trim then rstrip isspace s1 else s1) as ->.
    { unfold trimmed. destruct trim; [|done]. by rewrite Hls. }
    set (new := keep _ _) in *. assert (len new <= 1). { unfold new, keep. destruct nonempty; [|done]. rewrite filter_cons. destruct (decide _); done. }
    pose proof (len_nonneg new). unfold int_add. rewrite (proj2 (Z.ltb_ge _ _)), (proj2 (Z.leb_gt _ _)) by lia. cbn. split; [done|]. eexists. exact Hem'.
  - destruct (span_cases (fun c => bool_decide (c ∈ delim)) s1) as (a & b & -> & Ha & Hb).
    assert (Forall (fun c => c ∉ delim) a) as Ha'. { eapply Forall_impl; [exact Ha|]. intros c E. by apply bool_decide_eq_false in E. }
    assert (strpbrk mem p1 delim = Ok (match b with [] => None | _ => Some (p1 + len a) end)) as ->.
    { unfold strpbrk, strcspn. destruct (cstr_scan (fun c => tr c && negb (bool_decide (c ∈ delim))) mem p1 a b Hs) as [-> Hb2].
      - apply Forall_app in Hnz as [Hnz _]. rewrite Forall_forall in *. intros c Hin. rewrite (proj2 (tr_true c)) by (by apply Hnz). specialize (Ha c Hin). cbn beta in Ha. by rewrite Ha.
      - destruct Hb as [->|(c & b' & -> & Hcd)]; [done|]. cbn [hd]. rewrite Hcd. apply andb_false_r.
      - cbn [mbind res_bind]. rewrite (cstr_rd _ _ _ Hb2). cbn [mbind res_bind]. destruct b as [|c b]; [done|]. cbn [hd].
        rewrite (proj2 (tr_true c)); [done|]. by eapply cstr_nz. }
    cbn [mbind res_bind]. rewrite <- app_assoc in Hd. apply Forall_app in Hnz as [Hnza Hnzb].
    assert (exists c rest', b ++ 0 :: rest = c :: rest' /\ (b = [] -> c = 0)) as (c & rest' & Hc' & Hc0).
    { destruct b as [|c b]; [by eexists _, _|]. by eexists _, _. }
    rewrite Hc' in Hd. apply wp_bind. eapply wp_mono; [eapply append_one_ok; [done|exact Hd|done| |done|lia|done]|].
    { destruct b as [|x b]; [right; by auto|by left]. }
    intros [[mem' l'] k] (-> & Hem' & Hdr & Hlm).
    assert ((if trim then rstrip isspace a else a) = trimmed trim a) as Htr.
    { unfold trimmed. destruct trim; [|done]. specialize (Hls eq_refl). f_equal. symmetry. 
      destruct a as [|x a]; [done|]. unfold lstrip in Hls |- *. cbn [span app] in *. destruct (isspace x); [|done].
      exfalso. apply (f_equal length) in Hls. cbn [drop] in Hls. rewrite length_drop in Hls. cbn [length] in Hls. lia. }
    rewrite Htr in *. set (new := keep _ _) in *.
    assert (len new <= 1). { unfold new, keep. destruct nonempty; [|done]. rewrite filter_cons. destruct (decide _); done. }
    pose proof (len_nonneg new). rewrite len_app in *. pose proof (len_nonneg a). pose proof (len_nonneg b).
    apply wp_bind. unfold int_add at 1. rewrite (proj2 (Z.ltb_ge _ _)), (proj2 (Z.leb_gt _ _)) by lia. apply wp_ret.
    destruct Hb as [->|(x & b' & -> & Hxd)].
    + apply wp_ret. rewrite app_nil_r. unfold split_pieces. rewrite fields_none by (by left). split; [done|]. eexists. exact Hem'.
    + apply bool_decide_eq_true in Hxd. rewrite len_cons in *. rewrite length_app in *. cbn [length] in *.
      assert (cuts count <> Some 0%nat) as Hcut. { unfold cuts. destruct (Z.leb_spec 0 maxsplit); [|done]. cbn [andb] in Emax. apply Z.leb_gt in Emax. intros [= E]. lia. }
      assert (split_pieces delim (cuts count) trim nonempty (a ++ x :: b') = new ++ split_pieces delim (cuts (count + len new)) trim nonempty b') as ->.
      { unfold split_pieces. rewrite fields_cut by done. rewrite fmap_cons. change (?x :: ?y) with ([x] ++ y) at 1. rewrite keep_app. fold new. do 3 f_equal.
        unfold cuts in *. destruct (Z.leb_spec 0 maxsplit); [|done]. cbn [fmap option_fmap option_map].
        assert (len new = 1) as ->. { unfold new, keep. destruct nonempty; [|done]. specialize (Hmax eq_refl). lia. }
        do 2 f_equal. lia. }
      assert (cstr mem' (p1 + len a + 1) b') as Hs'.
      { apply cstr_app, cstr_tl in Hs. destruct Hs as (Hq & Hnz' & r & Hr). split_and!; [done|done|]. exists r. by rewrite Hdr. }
      apply wp_ret. eapply wp_mono; [apply (IH (length b')) with (s := b') (toks := toks ++ new); [lia|lia|done|done|lia|lia|lia|rewrite len_app; lia|llia]|].
      intros [[mem'' l''] r] [-> [q Hq]]. rewrite len_app, app_assoc. split; [lia|]. by exists q.
Qed.
End Split.

(** ** Copies and pointers *)

Section Append.
Context `{Memory} {S U : Type} (junk : string_list_item S U).

(** [l] holds [xs] and has room in the sense of the machine's integers. *)
Definition roomy (l : string_list S U) (xs : list (string_list_item S U)) : Prop := holds l xs /\ sl_alloc l < 2 ^ 47.

Lemma append_nodup_ok l xs s : roomy l xs -> len xs < 2 ^ 40 ->
  wp oom (string_list_append_nodup junk l s) (fun l' => roomy l' (xs ++ [mkItem s None]) /\ strdup_strings l' = strdup_strings l).
Proof.
  intros [[[pad Hi] Hn Ha] Hal] Hl. pose proof (len_nonneg xs). unfold string_list_append_nodup. apply wp_bind.
  eapply wp_mono; [apply ALLOC_GROW_spec; [done|unfold sizeof_item; lia..]|]. intros [items alloc] (pad' & -> & Hla & Hge & Hnr & Hor).
  rewrite Hi, <- app_assoc in *. destruct (pad ++ pad') as [|x p]; [rewrite app_nil_r in Hla; lia|].
  rewrite wr_mid by done. cbn [mbind res_bind]. apply wp_ret. autorewrite with len in *. split; [|done]. split; [|cbn [sl_alloc]; lia].
  constructor; cbn [sl_items sl_nr sl_alloc]; [exists p; by rewrite <- app_assoc|autorewrite with len; lia|autorewrite with len; lia].
Qed.
End Append.

Section Instances.
Context `{Memory} {U : Type}.

(** The text is not changed and the pieces are copied. *)
Definition copied (mem0 : list Z) (xs0 : list (string_list_item (list Z) U)) (mem : list Z) (l : string_list (list Z) U) (toks : list (list Z)) (p : Z) : Prop :=
  mem = mem0 /\ roomy l (xs0 ++ ((fun t => mkItem t None) <$> toks)).

Lemma emit_copied_ok junk mem0 xs0 : len xs0 < 2 ^ 39 -> forall mem l toks p t c rest q, 0 <= p -> drop (Z.to_nat p) mem = t ++ c :: rest ->
  Forall (fun x => x <> 0) t -> p + len t < q -> copied mem0 xs0 mem l toks p -> len toks < 2 ^ 32 -> len mem < 2 ^ 62 ->
  wp oom (emit_copy_of junk mem l p (p + len t)) (fun '(mem', l') => copied mem0 xs0 mem' l' (toks ++ [t]) q /\
    drop (Z.to_nat q) mem' = drop (Z.to_nat q) mem /\ length mem' = length mem).
Proof.
  intros Hx mem l toks p t c rest q Hp Hd Ht Hq [-> Hr] Hn Hm. unfold emit_copy_of, xmemdupz. pose proof (len_nonneg t). replace (p + len t - p) with (len t) by lia.
  assert (len t < len mem0) as Hlt. { apply (f_equal len) in Hd. autorewrite with len in Hd. pose proof (len_nonneg rest). unfold len in Hd |- *. rewrite length_drop in Hd. lia. }
  rewrite u64_small by lia. unfold unsigned_add_overflows. rewrite Z.ones_equiv. destruct (Z.ltb_spec (Z.pred (2 ^ 64) - len t) 1); [lia|].
  apply wp_bind, wp_bind. eapply wp_mono; [apply xmalloc_oom; lia|]. intros [] _. rewrite (rd_slice_at _ _ _ _ _ Hp Hd). apply wp_ret, wp_bind.
  eapply wp_mono; [apply append_nodup_ok; [exact Hr|]|].
  - rewrite len_app. unfold len at 2. rewrite length_fmap. llia.
  - intros l' [Hr' _]. apply wp_ret. split_and!; [|done|done]. split; [done|]. by rewrite fmap_app, app_assoc.
Qed.

(** The pieces are pointers into the text, terminated before [p]. *)
Definition in_text (xs0 : list (string_list_item Z U)) (mem : list Z) (l : string_list Z U) (toks : list (list Z)) (p : Z) : Prop :=
  strdup_strings l = false /\ exists ptrs, roomy l (xs0 ++ ((fun t => mkItem t None) <$> ptrs)) /\ Forall2 (fun ptr t => cstr mem ptr t /\ ptr + len t < p) ptrs toks.

(** A store behind a string does not change it. *)
Lemma cstr_write mem ptr t e : cstr mem ptr t -> ptr + len t < e -> e < len mem -> cstr (<[Z.to_nat e := 0]> mem) ptr t.
Proof.
  intros (Hp & Hnz & rest & Hd) He Hm. split_and!; [done|done|].
  assert (exists k, Z.to_nat e - Z.to_nat ptr = length t + Datatypes.S k)%nat as [k Hk] by (exists (Z.to_nat e - Z.to_nat ptr - length t - 1)%nat; llia).
  exists (<[k := 0]> rest). rewrite drop_insert_ge by llia. by rewrite Hd, Hk, insert_app_r.
Qed.

(** Terminating a piece makes it a string. *)
Lemma cstr_terminate mem p t c rest : 0 <= p -> drop (Z.to_nat p) mem = t ++ c :: rest -> Forall (fun x => x <> 0) t ->
  cstr (<[Z.to_nat (p + len t) := 0]> mem) p t.
Proof.
  intros Hp Hd Ht. split_and!; [done|done|]. exists rest. rewrite drop_insert_ge by llia. rewrite Hd.
  replace (Z.to_nat (p + len t) - Z.to_nat p)%nat with (length t + 0)%nat by llia. by rewrite insert_app_r.
Qed.

Lemma emit_in_place_ok junk xs0 : len xs0 < 2 ^ 39 -> forall mem l toks p t c rest q, 0 <= p -> drop (Z.to_nat p) mem = t ++ c :: rest ->
  Forall (fun x => x <> 0) t -> p + len t < q -> in_text xs0 mem l toks p -> len toks < 2 ^ 32 -> len mem < 2 ^ 62 ->
  wp oom (emit_in_place junk mem l p (p + len t)) (fun '(mem', l') => in_text xs0 mem' l' (toks ++ [t]) q /\
    drop (Z.to_nat q) mem' = drop (Z.to_nat q) mem /\ length mem' = length mem).
Proof.
  intros Hx mem l toks p t c rest q Hp Hd Ht Hq (Hdup & ptrs & Hr & Hall) Hn Hm. unfold emit_in_place. pose proof (len_nonneg t).
  assert (p + len t < len mem) as Hlt. { apply (f_equal length) in Hd. rewrite length_drop, length_app in Hd. cbn [length] in Hd. llia. }
  rewrite wr_ok by lia. cbn [mbind res_bind]. unfold string_list_append. rewrite Hdup. cbn [mbind res_bind]. apply wp_bind.
  eapply wp_mono; [apply append_nodup_ok; [exact Hr|]|].
  - rewrite len_app. unfold len at 2. rewrite length_fmap. apply Forall2_length in Hall. llia.
  - intros l' [Hr' Hdup']. apply wp_ret. split_and!; [|rewrite drop_insert_lt by lia; done|by rewrite length_insert]. split; [by rewrite Hdup'|].
    exists (ptrs ++ [p]). split; [by rewrite fmap_app, app_assoc|]. apply Forall2_app.
    + eapply Forall2_impl; [exact Hall|]. intros ptr u [Hu Hlu]. split; [apply cstr_write; [done|lia|done]|lia].
    + constructor; [|constructor]. split; [by eapply cstr_terminate|done].
Qed.
End Instances.

(** The splitting functions of string lists append exactly the fields of the text
    between the characters of [delim], cut at most [maxsplit] times when it is not
    negative, trimmed and without the empty ones as the flags ask, and return their
    number.  [string_list_split_f] leaves the text alone and appends copies;
    [string_list_split_in_place_f] appends pointers into the text, at each of which the
    text now holds the field as a NUL-terminated string. *)
Theorem string_list_split_pieces `{Memory} {U} mem string s delim maxsplit flags (xs : list (string_list_item (list Z) U)) (ys : list (string_list_item Z U)) junk junk' l l' :
  cstr mem string s -> len s < 2 ^ 31 - 1 -> len mem < 2 ^ 62 ->
  (tr (flags &. STRING_LIST_SPLIT_TRIM) = true -> Forall (fun c => isspace c = false) delim) ->
  (tr (flags &. STRING_LIST_SPLIT_NONEMPTY) = true -> maxsplit < 0) ->
  roomy l xs -> len xs < 2 ^ 39 -> strdup_strings l = true -> roomy l' ys -> len ys < 2 ^ 39 -> strdup_strings l' = false ->
  let new := split_pieces delim (if 0 <=? maxsplit then Some (Z.to_nat maxsplit) else None) (tr (flags &. STRING_LIST_SPLIT_TRIM)) (tr (flags &. STRING_LIST_SPLIT_NONEMPTY)) s in
  wp oom (string_list_split_f junk l mem string delim maxsplit flags) (fun '(mem', l', n) =>
    mem' = mem /\ n = len new /\ roomy l' (xs ++ ((fun t => mkItem t None) <$> new))) /\
  wp oom (string_list_split_in_place_f junk' l' mem string delim maxsplit flags) (fun '(mem', l', n) =>
    n = len new /\ exists ptrs, roomy l' (ys ++ ((fun p => mkItem p None) <$> ptrs)) /\ Forall2 (cstr mem') ptrs new).
Proof.
  intros Hs Hl Hm Htrim Hne Hx Hxl Hd Hy Hyl Hd' new. pose proof (cstr_length _ _ _ Hs) as Hlen. pose proof (len_nonneg s).
  assert (new = split_pieces delim (cuts maxsplit 0) (tr (flags &. STRING_LIST_SPLIT_TRIM)) (tr (flags &. STRING_LIST_SPLIT_NONEMPTY)) s) as Hnew.
  { unfold new, cuts. by rewrite Z.sub_0_r. }
  clearbody new. subst new. unfold string_list_split_f, string_list_split_in_place_f, split_string. rewrite Hd, Hd'. cbn [andb negb]. split.
  - eapply wp_mono; [eapply (split_loop _ (copied mem xs)) with (n := length s) (s := s) (toks := []); try done; try (lia || llia)|].
    + by apply emit_copied_ok.
    + split; [done|]. cbn [fmap list_fmap]. by rewrite app_nil_r.
    + rewrite len_nil. lia.
    + intros [[mem' l1] n] [-> [q [-> Hr]]]. done.
  - eapply wp_mono; [eapply (split_loop _ (in_text ys)) with (n := length s) (s := s) (toks := []); try done; try (lia || llia)|].
    + intros m0 l0 toks p q (? & ptrs & ? & Hall) Hpq. split; [done|]. exists ptrs. split; [done|]. eapply Forall2_impl; [exact Hall|]. intros ? ? []. split; [done|lia].
    + by apply emit_in_place_ok.
    + split; [done|]. exists []. cbn [fmap list_fmap]. by rewrite app_nil_r.
    + rewrite len_nil. lia.
    + intros [[mem' l1] n] [-> [q (_ & ptrs & Hr & Hall)]]. split; [done|]. exists ptrs. split; [done|]. eapply Forall2_impl; [exact Hall|]. by intros ? ? [].
Qed.

(** The text [a: b:] with both flags. *)
Lemma string_list_split_pieces_witness :
  wp (@oom plenty) (@string_list_split_f plenty unit (mkItem [] None) STRING_LIST_INIT_DUP [97; 58; 32; 98; 58; 0] 0 [58] (-1) 3) (fun '(mem', l', n) =>
    mem' = [97; 58; 32; 98; 58; 0] /\ n = len [[97]; [98]] /\ roomy l' ([] ++ ((fun t => mkItem t None) <$> [[97]; [98]]))) /\
  wp (@oom plenty) (@string_list_split_in_place_f plenty unit (mkItem 0 None) STRING_LIST_INIT_NODUP [97; 58; 32; 98; 58; 0] 0 [58] (-1) 3) (fun '(mem', l', n) =>
    n = len [[97]; [98]] /\ exists ptrs, roomy l' ([] ++ ((fun p => mkItem p None) <$> ptrs)) /\ Forall2 (cstr mem') ptrs [[97]; [98]]).
Proof.
  apply (@string_list_split_pieces plenty unit [97; 58; 32; 98; 58; 0] 0 [97; 58; 32; 98; 58] [58] (-1) 3 [] []); try done;
    [split_and!; [done|by repeat constructor|by exists []]|intros _; by repeat constructor|split; [constructor; [by exists []|done|done]|done]..].
Defined.
