(* ===== verification/StringListSort.v ===== *)
(** * Lists of strings: sorting, removing duplicates and filtering

    A list that was built by appending becomes a sorted set by
    [string_list_sort] and [string_list_remove_duplicates]; the in-place
    compaction of the latter and of [filter_string_list] is related to functions on
    lists. *)

From stdpp Require Import prelude numbers list sorting.
From S2P Require Import Prelude PatchDelta Alloc CString StableQsort StringList StringListSpec.

Section Uniq.
Context {S U : Type} (cmp : S -> S -> Z).
Abbreviation item := (string_list_item S U).

(** The first of each run of equal items, [x] being the last one that was kept. *)
Fixpoint uniq_from (x : item) (xs : list item) : list item :=
  match xs with
  | [] => []
  | y :: ys => if cmp (it_string x) (it_string y) =? 0 then uniq_from x ys else y :: uniq_from y ys
  end.

Definition uniq (xs : list item) : list item := match xs with [] => [] | x :: xs => x :: uniq_from x xs end.

Lemma dup_loop l r : forall d x mid pad dst src fuel, dst = len d + 1 -> src = dst + len mid -> sl_nr l = src + len r -> (length r < fuel)%nat ->
  exists pad', loop fuel (dup_step cmp l) ((d ++ [x]) ++ mid ++ r ++ pad, dst, src) = Ok (d ++ (x :: uniq_from x r) ++ pad', len d + 1 + len (uniq_from x r)) /\
    len pad' = len (mid ++ r ++ pad) - len (uniq_from x r).
Proof.
  induction r as [|y r IH]; intros d x mid pad dst src fuel -> -> Hnr Hf; (destruct fuel as [|fuel]; [lia|]); rewrite loop_S; unfold dup_step at 1;
    pose proof (len_nonneg d); pose proof (len_nonneg mid).
  - change (len []) with 0 in Hnr. rewrite Hnr, Z.add_0_r, Z.ltb_irrefl. exists (mid ++ pad). cbn [uniq_from app]. change (len []) with 0. split; [|lia].
    rewrite <- app_assoc, Z.add_0_r. done.
  - rewrite len_cons in Hnr. pose proof (len_nonneg r). destruct (Z.ltb_spec (len d + 1 + len mid) (sl_nr l)); [|lia].
    replace (len d + 1 - 1) with (len d) by lia. 
    assert (rd ((d ++ [x]) ++ mid ++ (y :: r) ++ pad) (len d) = Ok x) as -> by (rewrite <- app_assoc; by apply rd_mid).
    assert (rd ((d ++ [x]) ++ mid ++ (y :: r) ++ pad) (len d + 1 + len mid) = Ok y) as ->.
    { rewrite app_assoc. apply rd_mid. autorewrite with len. lia. }
    cbn [mbind res_bind uniq_from]. destruct (cmp (it_string x) (it_string y) =? 0).
    + replace ((d ++ [x]) ++ mid ++ (y :: r) ++ pad) with ((d ++ [x]) ++ (mid ++ [y]) ++ r ++ pad) by (rewrite <- !app_assoc; done).
      destruct (IH d x (mid ++ [y]) pad (len d + 1) (len d + 1 + len mid + 1) fuel) as (pad' & -> & Hp); [done|autorewrite with len; lia|lia|simpl in Hf; lia|].
      exists pad'. split; [done|]. rewrite Hp. autorewrite with len. lia.
    + assert (exists mid', wr ((d ++ [x]) ++ mid ++ (y :: r) ++ pad) (len d + 1) y = Ok (((d ++ [x]) ++ [y]) ++ mid' ++ r ++ pad) /\ len mid' = len mid) as (mid' & -> & Hm').
      { destruct mid as [|z mid].
        - exists []. split; [|done]. cbn [app]. rewrite wr_mid by (by rewrite len_app). by rewrite <- !app_assoc.
        - exists (mid ++ [y]). split; [|autorewrite with len; lia]. cbn [app]. rewrite wr_mid by (by rewrite len_app). by rewrite <- !app_assoc. }
      cbn [mbind res_bind]. destruct (IH (d ++ [x]) y mid' pad (len d + 1 + 1) (len d + 1 + len mid + 1) fuel) as (pad' & -> & Hp); [autorewrite with len; lia|lia|lia|simpl in Hf; lia|].
      exists pad'. autorewrite with len in *. split; [|lia]. rewrite <- !app_assoc. cbn [app]. do 2 f_equal. lia.
Qed.

(** [string_list_remove_duplicates] keeps the first of each run of equal strings. *)
Lemma remove_duplicates_uniq l xs : holds l xs -> total (string_list_remove_duplicates cmp l) (fun l' => holds l' (uniq xs)).
Proof.
  intros [[pad Hi] Hn Ha]. unfold string_list_remove_duplicates. pose proof (len_nonneg xs). destruct (Z.ltb_spec 1 (sl_nr l)).
  - destruct xs as [|x xs]; [rewrite Hn in *; change (len []) with 0 in *; lia|]. rewrite Hi. rewrite len_cons in *.
    destruct (dup_loop l xs [] x [] pad 1 1 (Datatypes.S (Z.to_nat (sl_nr l)))) as (pad' & E & Hp); [done|done|lia|llia|].
    cbn [app] in E. cbn [app]. rewrite E. apply wp_ret. rewrite len_nil in *. constructor; cbn [set_items sl_items sl_nr sl_alloc].
    + exists pad'. done.
    + cbn [uniq]. rewrite len_cons. lia.
    + rewrite Hi in Ha. autorewrite with len in *. lia.
  - apply wp_ret. assert (uniq xs = xs) as ->; [|by constructor; [exists pad| |]].
    destruct xs as [|x [|y xs]]; [done|done|]. rewrite !len_cons in *. pose proof (len_nonneg xs). lia.
Qed.

Context `{!CmpOk cmp}.

Lemma uniq_from_ascending xs : forall x, StronglySorted (fun x y => cmp (it_string x) (it_string y) <= 0) (x :: xs) -> ascending cmp (x :: uniq_from x xs).
Proof using All.
  induction xs as [|y xs IH]; intros x Hs; cbn [uniq_from]; [by repeat constructor|].
  apply StronglySorted_inv in Hs as [Hs Hx]. pose proof Hx as Hx'. apply Forall_cons in Hx' as [Hxy Hxs]. destruct (Z.eqb_spec (cmp (it_string x) (it_string y)) 0) as [E|E].
  - apply IH. constructor; [by apply StronglySorted_inv in Hs as [? _]|done].
  - specialize (IH y Hs). constructor; [done|]. apply StronglySorted_inv in IH as [_ IH]. constructor; [lia|].
    eapply Forall_impl; [exact IH|]. intros z Hz. cbn beta in *. eapply (cmp_lt_trans cmp _ (it_string y)); lia.
Qed.

(** Every item is equal to one that is kept. *)
Lemma uniq_from_covers xs : forall x y, y ∈ x :: xs -> exists z, z ∈ x :: uniq_from x xs /\ cmp (it_string z) (it_string y) = 0.
Proof using All.
  assert (forall s, cmp s s = 0) as Hr by (intros s; pose proof (cmpok_anti s s); lia).
  induction xs as [|a xs IH]; intros x y Hy; cbn [uniq_from].
  - exists x. apply list_elem_of_singleton in Hy as ->. split; [by left|done].
  - destruct (Z.eqb_spec (cmp (it_string x) (it_string a)) 0) as [E|E].
    + apply elem_of_cons in Hy as [->|Hy]; [exists x; split; [by left|done]|]. apply elem_of_cons in Hy as [->|Hy]; [exists x; split; [by left|done]|].
      apply IH. by right.
    + apply elem_of_cons in Hy as [->|Hy]; [exists x; split; [by left|done]|]. destruct (IH a y Hy) as (z & Hz & Ez). exists z. split; [by right|done].
Qed.

Lemma uniq_from_sub xs : forall x, uniq_from x xs ⊆ xs.
Proof. induction xs as [|y xs IH]; intros x; cbn [uniq_from]; [done|]. destruct (_ =? 0); [specialize (IH x)|specialize (IH y)]; set_solver. Qed.
End Uniq.

(** ** Filtering *)

Section Filter.
Context {S U D : Type} (fn : string_list_item S U -> D -> res (string_list_item S U * D * Z)).
Abbreviation item := (string_list_item S U).

(** The callback, called on the items in order. *)
Fixpoint filter_ref (xs : list item) (d : D) : res (list item * D) :=
  match xs with
  | [] => Ok ([], d)
  | x :: xs => '(x, d, ret) ← fn x d; '(ys, d) ← filter_ref xs d; Ok (if tr ret then x :: ys else ys, d)
  end.

Lemma want_loop r : forall k mid pad d dst src fuel, dst = len k -> src = dst + len mid -> (length r < fuel)%nat ->
  match filter_ref r d with
  | Ok (ys, d') => exists pad', loop fuel (want_step fn (src + len r)) (k ++ mid ++ r ++ pad, d, dst, src) = Ok (k ++ ys ++ pad', d', len k + len ys) /\ len pad' = len (mid ++ r ++ pad) - len ys
  | Fault f => loop fuel (want_step fn (src + len r)) (k ++ mid ++ r ++ pad, d, dst, src) = Fault f
  end.
Proof.
  induction r as [|x r IH]; intros k mid pad d dst src fuel -> -> Hf; (destruct fuel as [|fuel]; [lia|]); rewrite loop_S; unfold want_step at 1 3; cbn [filter_ref];
    pose proof (len_nonneg k); pose proof (len_nonneg mid).
  - change (len []) with 0. rewrite Z.add_0_r, Z.ltb_irrefl. exists (mid ++ pad). cbn [app]. split; [by rewrite Z.add_0_r|lia].
  - rewrite len_cons. pose proof (len_nonneg r). destruct (Z.ltb_spec (len k + len mid) (len k + len mid + (1 + len r))); [|lia].
    assert (rd (k ++ mid ++ (x :: r) ++ pad) (len k + len mid) = Ok x) as -> by (rewrite app_assoc; apply rd_mid; by rewrite len_app).
    cbn [mbind res_bind]. destruct (fn x d) as [[[x' d'] ret]|f]; cbn [mbind res_bind]; [|done].
    assert (wr (k ++ mid ++ (x :: r) ++ pad) (len k + len mid) x' = Ok (k ++ mid ++ (x' :: r) ++ pad)) as ->.
    { rewrite app_assoc. cbn [app]. rewrite wr_mid by (by rewrite len_app). by rewrite <- app_assoc. }
    cbn [mbind res_bind]. replace (len k + len mid + (1 + len r)) with (len k + len mid + 1 + len r) by lia. simpl in Hf. destruct (tr ret).
    + assert (exists mid', wr (k ++ mid ++ (x' :: r) ++ pad) (len k) x' = Ok ((k ++ [x']) ++ mid' ++ r ++ pad) /\ len mid' = len mid) as (mid' & -> & Hm').
      { destruct mid as [|z mid].
        - exists []. split; [|done]. cbn [app]. rewrite wr_mid by done. by rewrite <- !app_assoc.
        - exists (mid ++ [x']). split; [|autorewrite with len; lia]. cbn [app]. rewrite wr_mid by done. by rewrite <- !app_assoc. }
      cbn [mbind res_bind]. specialize (IH (k ++ [x']) mid' pad d' (len k + 1) (len k + len mid + 1) fuel ltac:(autorewrite with len; lia) ltac:(lia) ltac:(lia)).
      destruct (filter_ref r d') as [[ys d'']|f]; cbn [mbind res_bind]; [|done]. destruct IH as (pad' & -> & Hp). exists pad'.
      autorewrite with len in *. split; [|lia]. rewrite <- app_assoc. cbn [app]. do 2 f_equal. lia.
    + specialize (IH k (mid ++ [x']) pad d' (len k) (len k + len mid + 1) fuel ltac:(done) ltac:(autorewrite with len; lia) ltac:(lia)).
      rewrite <- app_assoc in IH. cbn [app] in IH. cbn [app]. destruct (filter_ref r d') as [[ys d'']|f]; cbn [mbind res_bind]; [|done].
      destruct IH as (pad' & -> & Hp). exists pad'. split; [done|]. autorewrite with len in *. lia.
Qed.

(** [filter_string_list] keeps the items that the callback wants, in order, and
    passes the callback's data along. *)
Lemma filter_string_list_ref l xs d : holds l xs ->
  match filter_ref xs d with
  | Ok (ys, d') => exists l', filter_string_list fn l d = Ok (l', d') /\ holds l' ys
  | Fault f => filter_string_list fn l d = Fault f
  end.
Proof.
  intros [[pad Hi] Hn Ha]. unfold filter_string_list. rewrite Hi, Hn in *.
  pose proof (want_loop xs [] [] pad d 0 0 (Datatypes.S (Z.to_nat (len xs))) eq_refl eq_refl ltac:(llia)) as Hw. cbn [app] in Hw. rewrite Z.add_0_l in Hw.
  destruct (filter_ref xs d) as [[ys d']|f]; [|by rewrite Hw]. destruct Hw as (pad' & -> & Hp). cbn [mbind res_bind]. eexists. split; [done|].
  constructor; cbn [set_items sl_items sl_nr sl_alloc]; [by exists pad'|done|]. autorewrite with len in *. lia.
Qed.
End Filter.

Lemma remove_empty_items_filter {U} (l : string_list (list Z) U) xs : holds l xs ->
  total (string_list_remove_empty_items l) (fun l' => holds l' (filter (fun x => it_string x <> []) xs)).
Proof.
  intros Hh. unfold string_list_remove_empty_items. pose proof (filter_string_list_ref item_is_not_empty l xs tt Hh) as Hf.
  assert (forall zs, filter_ref (@item_is_not_empty U) zs tt = Ok (filter (fun x => it_string x <> []) zs, tt)) as E.
  { induction zs as [|z zs IH]; [done|]. cbn [filter_ref item_is_not_empty mbind res_bind]. rewrite IH, filter_cons. cbn [mbind res_bind].
    case_bool_decide as Hz; [rewrite decide_False by (intros Hc; by apply Hc)|rewrite decide_True by done]; done. }
  rewrite E in Hf. destruct Hf as (l' & -> & Hl'). done.
Qed.

(** Sorting a string list of any order with [string_list_sort], for any correct
    [qsort], and then calling [string_list_remove_duplicates] leaves a strictly ascending
    list, fit for the binary search, whose items are items of the list and to one of
    which every item of the list is equal. *)
Theorem sort_remove_duplicates {S U} (cmp : S -> S -> Z) qsort (l : string_list S U) xs : CmpOk cmp -> QsortOk qsort -> holds l xs ->
  total (string_list_remove_duplicates cmp (string_list_sort cmp qsort l)) (fun l' => exists ys, holds l' ys /\ ascending cmp ys /\ ys ⊆ xs /\
    forall x, x ∈ xs -> exists y, y ∈ ys /\ cmp (it_string y) (it_string x) = 0).
Proof.
  intros Hc Hq [[pad Hi] Hn Ha].
  assert (CmpOk (@cmp_items S U cmp)) as Hci. { unfold cmp_items. constructor; [intros; apply cmpok_anti|intros x y z; apply cmpok_trans]. }
  set (zs := qsort (@cmp_items S U cmp) xs). pose proof (qsort_perm (@cmp_items S U cmp) xs Hci) as Hperm. pose proof (qsort_sorted (@cmp_items S U cmp) xs Hci) as Hsort. fold zs in Hperm, Hsort.
  assert (holds (string_list_sort cmp qsort l) zs) as Hs.
  { assert (len zs = len xs) as Hl by (unfold len; by rewrite Hperm). unfold string_list_sort. rewrite Hi, Hn. unfold len at 1 2. rewrite Nat2Z.id, take_app_length, drop_app_length. fold zs.
    rewrite Hi in Ha. constructor; cbn [set_items sl_items sl_nr sl_alloc]; [by exists pad|done|rewrite len_app in *; lia]. }
  eapply wp_mono; [by apply remove_duplicates_uniq|]. intros l' Hl'. exists (uniq cmp zs). split; [done|].
  assert (forall x, x ∈ xs <-> x ∈ zs) as Hin by (intros x; by rewrite Hperm). destruct zs as [|z zs].
  { cbn [uniq]. split_and!; [apply SSorted_nil|apply list_subseteq_nil|]. intros x Hx. apply Hin in Hx. by apply elem_of_nil in Hx. }
  split_and!.
  - by apply uniq_from_ascending.
  - intros x Hx. apply Hin. cbn [uniq] in Hx. pose proof (uniq_from_sub cmp zs z). set_solver.
  - intros x Hx. apply Hin in Hx. by apply uniq_from_covers.
Qed.

Lemma sort_remove_duplicates_witness :
  total (string_list_remove_duplicates strcmp (string_list_sort strcmp (fun cmp => isort cmp) (mkSl [mkItem [98] None; mkItem [97] (Some 1); mkItem [98] None] 3 3 true)))
    (fun l' => exists ys, holds l' ys /\ ascending strcmp ys /\ ys ⊆ [mkItem [98] None; mkItem [97] (Some 1); mkItem [98] None] /\
    forall x, x ∈ [mkItem [98] None; mkItem [97] (Some 1); mkItem [98] None] -> exists y, y ∈ ys /\ strcmp (it_string y) (it_string x) = 0).
Proof.
  apply (sort_remove_duplicates strcmp (fun cmp => isort cmp)); [apply strcmp_ok| |constructor; [by exists []|done|done]].
  constructor; intros; [apply isort_perm|by apply isort_sorted].
Defined.
