(* ===== verification/CsumFile.v ===== *)
(** * Files with a checksum: [csum-file.c], [csum-file.h]

    A [hashfile] buffers what is written to a file, feeds it to a hash and
    appends the hash at the end; with a [check_fd] it compares the data with an
    existing file instead of trusting that it was written.  The hash is an
    interface, the function pointers of [struct git_hash_algo], with the law that a
    digest depends only on the concatenated data; block-sha1 is an instance.  The
    operating system's part is the class [Disk]: the contents of the descriptor
    [fd] are a list, [write] appends to it or fails. *)

From stdpp Require Import prelude numbers list.
From S2P Require Import Prelude PatchDelta Alloc CString Bswap Sha1 Hex.

(** The hash functions of an algorithm; [final_fn] gets the output buffer. *)
Class Hasher (C : Type) := {
  hash_rawsz : Z;
  init_fn : C -> res C;
  update_fn : C -> list Z -> res C;
  final_fn : list Z -> C -> res (list Z * C);
  clone_fn : C -> C -> res C;
}.

(** Their contract: [space] are the objects of the type of contexts. *)
Class HasherOk {C} `{!Hasher C} (space : C -> Prop) (hashing : C -> list Z -> Prop) (digest : list Z -> list Z) : Prop := {
  hk_rawsz : hash_rawsz = 20 \/ hash_rawsz = 32;
  hk_init c : space c -> total (init_fn c) (fun c => hashing c []);
  hk_update c d x : hashing c d -> is_bytes x -> total (update_fn c x) (fun c => hashing c (d ++ x));
  hk_final c d out : hashing c d -> len d < 2 ^ 61 -> hash_rawsz <= len out ->
    total (final_fn out c) (fun '(out', _) => out' = digest d ++ drop (Z.to_nat hash_rawsz) out);
  hk_clone c c' d : space c -> hashing c' d -> total (clone_fn c c') (fun c => hashing c d);
  hk_len d : len (digest d) = hash_rawsz;
  hk_bytes d : is_bytes (digest d);
}.

(** What the operating system does with a descriptor: may these bytes be written
    behind those, may so many be read from there, and the other calls. *)
Class Disk := {
  write_ok : list Z -> list Z -> bool;
  read_ok : Z -> Z -> bool;
  fsync_ok : bool;
  close_ok : bool;
  truncate_ok : Z -> bool;
}.

Record hashfile (C : Type) := mkHf {
  hf_fd : Z;
  hf_out : list Z;                  (** what [fd] received *)
  hf_check : option (list Z * Z);   (** the file behind [check_fd] and its position; [None] for -1 *)
  hf_offset : Z;
  hf_ctx : C;
  hf_total : Z;
  hf_do_crc : bool;
  hf_crc32 : Z;
  hf_buffer_len : Z;
  hf_buffer : list Z;
  hf_check_buffer : list Z;
  hf_skip_hash : bool;
}.
Arguments mkHf {C} _ _ _ _ _ _ _ _ _ _ _ _.
Arguments hf_fd {C} h.
Arguments hf_out {C} h.
Arguments hf_check {C} h.
Arguments hf_offset {C} h.
Arguments hf_ctx {C} h.
Arguments hf_total {C} h.
Arguments hf_do_crc {C} h.
Arguments hf_crc32 {C} h.
Arguments hf_buffer_len {C} h.
Arguments hf_buffer {C} h.
Arguments hf_check_buffer {C} h.
Arguments hf_skip_hash {C} h.

Record hashfile_checkpoint (C : Type) := mkCp { cp_offset : Z; cp_ctx : C }.
Arguments mkCp {C} _ _.
Arguments cp_offset {C} h.
Arguments cp_ctx {C} h.

Definition CSUM_CLOSE : Z := 1.
Definition CSUM_FSYNC : Z := 2.
Definition CSUM_HASH_IN_STREAM : Z := 4.

Section Code.
Context `{Memory} `{Disk} {C : Type} `{!Hasher C} (crc32 : Z -> list Z -> Z).
Abbreviation hfile := (hashfile C).

Definition set_ctx (f : hfile) (c : C) : hfile :=
  mkHf (hf_fd f) (hf_out f) (hf_check f) (hf_offset f) c (hf_total f) (hf_do_crc f) (hf_crc32 f) (hf_buffer_len f) (hf_buffer f) (hf_check_buffer f) (hf_skip_hash f).
Definition set_crc (f : hfile) (do_crc : bool) (crc : Z) : hfile :=
  mkHf (hf_fd f) (hf_out f) (hf_check f) (hf_offset f) (hf_ctx f) (hf_total f) do_crc crc (hf_buffer_len f) (hf_buffer f) (hf_check_buffer f) (hf_skip_hash f).
Definition hf_set_buffer (f : hfile) (buffer : list Z) (offset : Z) : hfile :=
  mkHf (hf_fd f) (hf_out f) (hf_check f) offset (hf_ctx f) (hf_total f) (hf_do_crc f) (hf_crc32 f) (hf_buffer_len f) buffer (hf_check_buffer f) (hf_skip_hash f).
Definition set_out (f : hfile) (out : list Z) (total : Z) : hfile :=
  mkHf (hf_fd f) out (hf_check f) (hf_offset f) (hf_ctx f) total (hf_do_crc f) (hf_crc32 f) (hf_buffer_len f) (hf_buffer f) (hf_check_buffer f) (hf_skip_hash f).
Definition set_check (f : hfile) (check : option (list Z * Z)) (check_buffer : list Z) : hfile :=
  mkHf (hf_fd f) (hf_out f) check (hf_offset f) (hf_ctx f) (hf_total f) (hf_do_crc f) (hf_crc32 f) (hf_buffer_len f) (hf_buffer f) check_buffer (hf_skip_hash f).

(** The assignment to [f->skip_hash] that a caller may make on a new file. *)
Definition set_skip (f : hfile) (skip : bool) : hfile :=
  mkHf (hf_fd f) (hf_out f) (hf_check f) (hf_offset f) (hf_ctx f) (hf_total f) (hf_do_crc f) (hf_crc32 f) (hf_buffer_len f) (hf_buffer f) (hf_check_buffer f) skip.

(** [read_in_full]: the bytes that are there, at most [count]; [None] for an error. *)
Definition read_in_full (file : list Z) (pos count : Z) : option (list Z) :=
  if read_ok pos count then Some (slice file pos count) else None.

(** [buf] is the [count] bytes at the pointer. *)
Definition verify_buffer_or_die (f : hfile) (file : list Z) (pos : Z) (buf : list Z) : res hfile :=
  match read_in_full file pos (len buf) with
  | None => Fault Died
  | Some got =>
      if negb (len got =? len buf) then Fault Died
      else
        cb ← wr_slice (hf_check_buffer f) 0 got;
        g ← rd_slice cb 0 (len buf);
        if tr (memcmp buf g) then Fault Died
        else Ok (set_check f (Some (file, pos + len buf)) cb)
  end.

Definition flush (f : hfile) (buf : list Z) : res hfile :=
  f ← match hf_check f with
      | Some (file, pos) => if tr (len buf) then verify_buffer_or_die f file pos buf else Ok f
      | None => Ok f
      end;
  if negb (write_ok (hf_out f) buf) then Fault Died
  else Ok (set_out f (hf_out f ++ buf) (hf_total f + len buf)).

Definition hashflush (f : hfile) : res hfile :=
  let offset := hf_offset f in
  if tr offset then
    buf ← rd_slice (hf_buffer f) 0 offset;
    f ← (if negb (hf_skip_hash f) then c ← update_fn (hf_ctx f) buf; Ok (set_ctx f c) else Ok f);
    f ← flush f buf;
    Ok (hf_set_buffer f (hf_buffer f) 0)
  else Ok f.

Definition hashwrite_step (buf : list Z) (st : hfile * Z * Z) : res (hfile * Z * Z + hfile) :=
  let '(f, b, count) := st in
  if tr count then
    let left := u32 (hf_buffer_len f - hf_offset f) in
    let nr := if left <? count then left else count in
    x ← rd_slice buf b nr;
    let f := if hf_do_crc f then set_crc f true (crc32 (hf_crc32 f) x) else f in
    f ← (if nr =? hf_buffer_len f then
           f ← (if negb (hf_skip_hash f) then c ← update_fn (hf_ctx f) x; Ok (set_ctx f c) else Ok f);
           flush f x
         else
           buffer ← wr_slice (hf_buffer f) (hf_offset f) x;
           let f := hf_set_buffer f buffer (u32 (hf_offset f + nr)) in
           let left := left - nr in
           if negb (tr left) then hashflush f else Ok f);
    Ok (inl (f, b + nr, count - nr))
  else Ok (inr f).

Definition hashwrite (f : hfile) (buf : list Z) (count : Z) : res hfile :=
  loop (S (Z.to_nat count)) (hashwrite_step buf) (f, 0, count).

(** Several writes. *)
Fixpoint hashwrites (f : hfile) (chunks : list (list Z)) : res hfile :=
  match chunks with
  | [] => Ok f
  | x :: chunks => f ← hashwrite f x (len x); hashwrites f chunks
  end.

Definition hashwrite_u8 (f : hfile) (data : Z) : res hfile := hashwrite f [data] 1.
Definition hashwrite_be32 (f : hfile) (data : Z) : res hfile := hashwrite f (le_bytes32 (htonl data)) 4.
Definition hashwrite_be64 (f : hfile) (data : Z) : res hfile := hashwrite f (eword_bytes (htonll data)) 8.

(** [hashclr] and [hashcpy] of [rawsz] bytes. *)
Definition hashclr (hash : list Z) : res (list Z) := wr_slice hash 0 (replicate (Z.to_nat hash_rawsz) 0).

(** The descriptor that is returned, the hash for [result], and the file. *)
Definition finalize_hashfile (f : hfile) (flags : Z) : res (Z * list Z * hfile) :=
  f ← hashflush f;
  f ← (if hf_skip_hash f then b ← hashclr (hf_buffer f); Ok (hf_set_buffer f b (hf_offset f))
       else '(b, c) ← final_fn (hf_buffer f) (hf_ctx f); Ok (hf_set_buffer (set_ctx f c) b (hf_offset f)));
  result ← rd_slice (hf_buffer f) 0 hash_rawsz;
  f ← (if tr (flags &. CSUM_HASH_IN_STREAM) then flush f result else Ok f);
  if tr (flags &. CSUM_FSYNC) && negb fsync_ok then Fault Died
  else if tr (flags &. CSUM_CLOSE) && negb close_ok then Fault Died
  else
    let fd := if tr (flags &. CSUM_CLOSE) then 0 else hf_fd f in
    match hf_check f with
    | Some (file, pos) =>
        match read_in_full file pos 1 with
        | None => Fault Died
        | Some got => if tr (len got) then Fault Died else if negb close_ok then Fault Died else Ok (fd, result, f)
        end
    | None => Ok (fd, result, f)
    end.

(** The objects that [xmalloc] returns: [ctx0] is the context, [junk] fills buffers;
    [sizeof_hashfile] is the size of the structure. *)
Definition hashfd_internal (sizeof_hashfile : Z) (ctx0 : C) (junk fd buffer_len : Z) : res hfile :=
  _ ← xmalloc sizeof_hashfile;
  c ← init_fn ctx0;
  _ ← xmalloc buffer_len;
  Ok (mkHf fd [] None 0 c 0 false 0 buffer_len (replicate (Z.to_nat buffer_len) junk) [] false).

Definition hashfd (sizeof_hashfile : Z) (ctx0 : C) (junk fd : Z) : res hfile := hashfd_internal sizeof_hashfile ctx0 junk fd (128 * 1024).
Definition hashfd_throughput (sizeof_hashfile : Z) (ctx0 : C) (junk fd : Z) : res hfile := hashfd_internal sizeof_hashfile ctx0 junk fd (8 * 1024).

(** [sink] is the descriptor of /dev/null, [file] the contents of the file to check. *)
Definition hashfd_check (sizeof_hashfile : Z) (ctx0 : C) (junk sink : Z) (file : list Z) : res hfile :=
  f ← hashfd sizeof_hashfile ctx0 junk sink;
  _ ← xmalloc (hf_buffer_len f);
  Ok (set_check f (Some (file, 0)) (replicate (Z.to_nat (hf_buffer_len f)) junk)).

Definition hashfile_total (f : hfile) : Z := hf_total f + hf_offset f.

(** [memset] gives the context [zero]. *)
Definition hashfile_checkpoint_init (zero : C) : res (hashfile_checkpoint C) :=
  c ← init_fn zero; Ok (mkCp 0 c).

Definition checkpoint_hashfile (f : hfile) (cp : hashfile_checkpoint C) : res (hfile * hashfile_checkpoint C) :=
  f ← hashflush f;
  c ← clone_fn (cp_ctx cp) (hf_ctx f);
  Ok (f, mkCp (hf_total f) c).

Definition hashfile_truncate (f : hfile) (cp : hashfile_checkpoint C) : res (hfile * Z) :=
  let offset := cp_offset cp in
  if negb (truncate_ok offset) then Ok (f, -1)
  else
    c ← clone_fn (hf_ctx f) (cp_ctx cp);
    Ok (hf_set_buffer (set_ctx (set_out f (take (Z.to_nat offset) (hf_out f)) offset) c) (hf_buffer f) 0, 0).

Definition crc32_begin (f : hfile) : hfile := set_crc f true (crc32 0 []).
Definition crc32_end (f : hfile) : hfile * Z := (set_crc f false (hf_crc32 f), hf_crc32 f).

(** [!memcmp] of the number of bytes that the size selects. *)
Definition hasheq (a b : list Z) (rawsz : Z) : res bool :=
  let n := if rawsz =? GIT_MAX_RAWSZ then GIT_MAX_RAWSZ else 20 in
  x ← rd_slice a 0 n; y ← rd_slice b 0 n; Ok (negb (tr (memcmp x y))).

(** [got0] is the array on the stack. *)
Definition hashfile_checksum_valid (ctx0 : C) (got0 : list Z) (data : list Z) (total_len : Z) : res bool :=
  let data_len := u64 (total_len - hash_rawsz) in
  if total_len <? hash_rawsz then Ok false
  else
    c ← init_fn ctx0;
    d ← rd_slice data 0 data_len;
    c ← update_fn c d;
    '(got, _) ← final_fn got0 c;
    rest ← rd_slice data data_len (len data - data_len);
    hasheq got rest hash_rawsz.
End Code.

Section Sequence.
Context `{Disk} {C : Type} `{!Hasher C} (crc32 : Z -> list Z -> Z).

Lemma hashwrites_app a : forall f b, hashwrites crc32 f (a ++ b) = f ← hashwrites crc32 f a; hashwrites crc32 f b.
Proof. induction a as [|x a IH]; intros f b; [done|]. cbn [hashwrites app]. rewrite res_bind_assoc. apply res_bind_ext. intros f'. apply IH. Qed.

Lemma hashwrites_one f x : hashwrites crc32 f [x] = hashwrite crc32 f x (len x).
Proof. apply res_bind_ok. Qed.

Lemma hashwrite_be32_one f x : 0 <= x < 2 ^ 32 -> hashwrite_be32 crc32 f x = hashwrites crc32 f [be32 x].
Proof. intros Hx. rewrite hashwrites_one. unfold hashwrite_be32. by rewrite htonl_le_bytes. Qed.

Lemma hashwrite_be64_one f x : 0 <= x < 2 ^ 64 -> hashwrite_be64 crc32 f x = hashwrites crc32 f [be64 x].
Proof. intros Hx. rewrite hashwrites_one. unfold hashwrite_be64. by rewrite bswap_bytes. Qed.

(** A loop over a table that makes the same writes for each cell. *)
Lemma for_range_writes {A} (es : list A) (body : Z -> hashfile C -> res (hashfile C)) (chunks : A -> list (list Z)) :
  (forall i e f, es !! i = Some e -> body (Z.of_nat i) f = hashwrites crc32 f (chunks e)) ->
  forall f, for_range (length es) 0 body f = hashwrites crc32 f (concat (chunks <$> es)).
Proof.
  intros Hb. assert (forall suf pre f, es = pre ++ suf -> for_range (length suf) (len pre) body f = hashwrites crc32 f (concat (chunks <$> suf))) as Hg.
  { induction suf as [|e suf IH]; intros pre f He; [done|]. cbn [length for_range fmap list_fmap concat]. rewrite hashwrites_app.
    rewrite (Hb (length pre) e) by (rewrite He, lookup_app_r, Nat.sub_diag; done). apply res_bind_ext. intros f'.
    replace (len pre + 1) with (len (pre ++ [e])) by (rewrite len_app; done). apply IH. by rewrite <- app_assoc. }
  intros f. by apply (Hg es []).
Qed.
End Sequence.

(** ** The invariant *)

Section Invariant.
Context `{Memory} `{Disk} {C : Type} `{!Hasher C} {space : C -> Prop} {hashing : C -> list Z -> Prop} {digest : list Z -> list Z} `{!HasherOk space hashing digest}.
Context (crc32 : Z -> list Z -> Z) (skip : bool).
Abbreviation hfile := (hashfile C).

(** The operating system refused something. *)
Definition disk_fails : Prop :=
  (exists a b, write_ok a b = false) \/ (exists a b, read_ok a b = false) \/ fsync_ok = false \/ close_ok = false.

(** The faults of input and output. *)
Definition io (e : fault) : Prop := oom e \/ (e = Died /\ disk_fails).

(** The file that is compared does not start with [d]. *)
Definition differs (f : hfile) (d : list Z) : Prop := match hf_check f with Some (file, _) => ~ d `prefix_of` file | None => False end.

Definition io_or_differs (f : hfile) (d : list Z) (e : fault) : Prop := io e \/ (e = Died /\ differs f d).

(** [d] was written to [f]: the descriptor got the first part and the buffer holds the rest;
    the context has hashed the first part, unless hashing is skipped. *)
Record hf_inv (f : hfile) (d : list Z) : Prop := {
  hf_data : exists pending rest, d = hf_out f ++ pending /\ hf_buffer f = pending ++ rest /\ hf_offset f = len pending;
  hf_bytes : is_bytes d;
  hf_len : len (hf_buffer f) = hf_buffer_len f;
  hf_lim : 64 <= hf_buffer_len f < 2 ^ 31;
  hf_hash : hf_skip_hash f = skip /\ (skip = false -> hashing (hf_ctx f) (hf_out f));
  hf_tot : hf_total f = len (hf_out f);
  hf_chk : match hf_check f with Some (file, pos) => pos = len (hf_out f) /\ hf_out f `prefix_of` file /\ len (hf_check_buffer f) = hf_buffer_len f | None => True end;
}.

Definition hf_ok (f : hfile) (d : list Z) : Prop := hf_inv f d /\ hf_offset f < hf_buffer_len f.

(** No operation changes the file that is compared or takes back what was written. *)
Definition same_check (f f' : hfile) : Prop := fst <$> hf_check f = fst <$> hf_check f' /\ hf_fd f = hf_fd f' /\ hf_out f `prefix_of` hf_out f'.

Lemma same_check_trans f g h : same_check f g -> same_check g h -> same_check f h.
Proof. intros (E1 & F1 & P1) (E2 & F2 & P2). split_and!; [congruence|congruence|by etrans]. Qed.

Lemma differs_same f g d : fst <$> hf_check g = fst <$> hf_check f -> differs f d -> differs g d.
Proof. unfold differs. intros E. by destruct (hf_check f) as [[? ?]|], (hf_check g) as [[? ?]|]; simplify_eq/=. Qed.

Lemma differs_app f a b : differs f a -> differs f (a ++ b).
Proof. unfold differs. destruct (hf_check f) as [[file pos]|]; [|done]. intros Hn Hp. apply Hn. by eapply prefix_app_l. Qed.

(** [flush] of a block that was just hashed. *)
Lemma flush_ok f buf : hf_total f = len (hf_out f) -> len buf <= hf_buffer_len f ->
  match hf_check f with Some (file, pos) => pos = len (hf_out f) /\ hf_out f `prefix_of` file /\ len (hf_check_buffer f) = hf_buffer_len f | None => True end ->
  wp (io_or_differs f (hf_out f ++ buf)) (flush f buf) (fun f' => exists check cb,
    f' = set_out (set_check f check cb) (hf_out f ++ buf) (len (hf_out f ++ buf)) /\ same_check f f' /\
    match check with Some (file, pos) => pos = len (hf_out f ++ buf) /\ hf_out f ++ buf `prefix_of` file /\ len cb = hf_buffer_len f | None => True end).
Proof.
  intros Ht Hl Hc. unfold flush. apply wp_bind.
  assert (wp (io_or_differs f (hf_out f ++ buf)) (match hf_check f with Some (file, pos) => if tr (len buf) then verify_buffer_or_die f file pos buf else Ok f | None => Ok f end)
    (fun f1 => exists check cb, f1 = set_check f check cb /\ fst <$> hf_check f = fst <$> check /\
      match check with Some (file, pos) => pos = len (hf_out f ++ buf) /\ hf_out f ++ buf `prefix_of` file /\ len cb = hf_buffer_len f | None => True end)) as Hv.
  { destruct f as [fd out check off ctx tot crc crcv bl buff cb sk]. cbn [hf_out hf_check hf_total hf_check_buffer hf_buffer_len] in *. destruct check as [[file pos]|]; [|by exists None, cb].
    destruct Hc as (-> & [rest Hp] & Hcb). pose proof (len_nonneg buf). pose proof (len_nonneg out). destruct (tr (len buf)) eqn:Eb.
    2:{ apply tr_false in Eb. assert (buf = []) as -> by (destruct buf; [done|]; rewrite len_cons in Eb; pose proof (len_nonneg buf); lia).
        rewrite app_nil_r. eexists _, cb. split_and!; [done|done|]. split_and!; [done|by exists rest|done]. }
    unfold verify_buffer_or_die, read_in_full. cbn [hf_check_buffer]. destruct (read_ok (len out) (len buf)) eqn:Er; [|left; right; split; [done|]; right; left; by eexists _, _].
    set (got := slice file (len out) (len buf)).
    assert (got = take (length buf) rest) as Hg. { unfold got, slice. rewrite Hp. unfold len. rewrite !Nat2Z.id, drop_app_length. done. }
    destruct (Z.eqb_spec (len got) (len buf)) as [El|El]; cbn [negb].
    2:{ right. split; [done|]. unfold differs. cbn [hf_check]. intros [k Hk]. apply El. rewrite Hg. rewrite Hp in Hk. rewrite <- app_assoc in Hk. apply app_inv_head in Hk.
        rewrite Hk, take_app_length. done. }
    rewrite wr_slice_ok by (rewrite ?El; lia). cbn [mbind res_bind]. change (take (Z.to_nat 0) cb) with (@nil Z). cbn [app].
    rewrite (rd_slice_head got) by done. cbn [mbind res_bind]. rewrite memcmp_tr by (unfold len in El; lia).
    destruct (bool_decide_reflect (buf = got)) as [E|E]; cbn [negb].
    - eexists _, _. split_and!; [done|done|]. split_and!.
      + by rewrite len_app.
      + exists (drop (length buf) rest). rewrite Hp, <- app_assoc. f_equal. rewrite E at 1. rewrite Hg. symmetry. apply take_drop.
      + unfold len in El |- *. rewrite length_app, length_drop. llia.
    - right. split; [done|]. unfold differs. cbn [hf_check]. intros [k Hk]. apply E. rewrite Hg. rewrite Hp in Hk. rewrite <- app_assoc in Hk. apply app_inv_head in Hk.
      by rewrite Hk, take_app_length. }
  eapply wp_mono; [exact Hv|]. intros f1 (check & cb & -> & Hsame & Hchk). cbn [set_check hf_out]. destruct (write_ok (hf_out f) buf) eqn:Ew; cbn [negb].
  - apply wp_ret. exists check, cb. split_and!; [by rewrite len_app, <- Ht| |done]. split_and!; [done|done|by exists buf].
  - left. right. split; [done|]. left. by eexists _, _.
Qed.

(** The update of the hash in front of [flush]. *)
Lemma hash_update_ok f x : hf_skip_hash f = skip -> (skip = false -> hashing (hf_ctx f) (hf_out f)) -> is_bytes x ->
  exists c, (if negb (hf_skip_hash f) then c ← update_fn (hf_ctx f) x; Ok (set_ctx f c) else Ok f) = Ok (set_ctx f c) /\
    (skip = false -> hashing c (hf_out f ++ x)).
Proof using All.
  intros -> Hh Hx. destruct skip; cbn [negb]; [exists (hf_ctx f); by destruct f|].
  destruct (proj1 (total_ok _ _) (hk_update (hf_ctx f) (hf_out f) x (Hh eq_refl) Hx)) as (c & -> & Hc). by exists c.
Qed.

Lemma hashflush_ok f d : hf_inv f d ->
  wp (io_or_differs f d) (hashflush f) (fun f' => hf_ok f' d /\ hf_out f' = d /\ hf_offset f' = 0 /\ same_check f f').
Proof using All.
  intros [(pending & rest & Hd & Hb & Ho) Hby Hl Hlim [Hsk Hh] Ht Hc]. unfold hashflush. destruct (tr (hf_offset f)) eqn:Eo.
  - rewrite Hb, Ho. rewrite rd_slice_head by done. cbn [mbind res_bind].
    rewrite Hb, len_app in Hl. pose proof (len_nonneg rest). subst d. apply Forall_app in Hby as [Hb1 Hb2].
    destruct (hash_update_ok f pending Hsk Hh Hb2) as (c & -> & Hc'). cbn [mbind res_bind].
    apply wp_bind. eapply wp_mono; [apply (flush_ok (set_ctx f c)); [done|cbn [set_ctx hf_buffer_len]; lia|done]|].
    intros f' (check & cb & -> & Hs & Hchk). apply wp_ret. cbn [set_ctx set_check set_out hf_set_buffer hf_out hf_offset hf_buffer_len] in *.
    split_and!; [|done|done|done]. split; [|cbn; lia]. constructor; cbn [set_ctx set_check set_out hf_set_buffer hf_out hf_offset hf_buffer hf_buffer_len hf_skip_hash hf_ctx hf_total hf_check hf_check_buffer].
    + exists [], (hf_buffer f). by rewrite app_nil_r.
    + by apply Forall_app.
    + by rewrite Hb, len_app.
    + done.
    + done.
    + done.
    + done.
  - apply tr_false in Eo. rewrite Eo in Ho. symmetry in Ho. assert (pending = []) as -> by (destruct pending; [done|]; rewrite len_cons in Ho; pose proof (len_nonneg pending); lia).
    rewrite app_nil_r in Hd. subst d. apply wp_ret. split_and!; [|done|done|done]. split; [|lia]. constructor; try done. exists [], rest. by rewrite app_nil_r.
Qed.

(** One turn of the loop of [hashwrite]. *)
Lemma hashwrite_turn f d buf b count : hf_ok f d -> is_bytes buf -> 0 <= b -> 0 < count < 2 ^ 32 -> b + count <= len buf ->
  wp (io_or_differs f (d ++ slice buf b count)) (hashwrite_step crc32 buf (f, b, count)) (fun r => exists f' nr, r = inl (f', b + nr, count - nr) /\
    0 < nr <= count /\ hf_ok f' (d ++ slice buf b nr) /\ same_check f f').
Proof using All.
  intros [Hi Hroom] Hby Hb0 Hcount Hlen. unfold hashwrite_step. rewrite (proj2 (tr_true count)) by lia.
  destruct Hi as [(pending & rest & Hd & Hb & Ho) Hbd Hl Hlim [Hsk Hh] Ht Hc]. pose proof (len_nonneg pending). rewrite u32_small by lia.
  set (left := hf_buffer_len f - hf_offset f). set (nr := if left <? count then left else count).
  assert (0 < nr <= count /\ nr <= left) as [Hnr Hnl]. { unfold nr, left in *. destruct (Z.ltb_spec (hf_buffer_len f - hf_offset f) count); lia. }
  rewrite rd_slice_ok by lia. cbn [mbind res_bind]. set (x := slice buf b nr). assert (len x = nr) as Hx by (unfold x; apply len_slice; lia).
  assert (is_bytes x) as Hbx by (unfold x, slice; by apply Forall_take, Forall_drop).
  assert (slice buf b count = x ++ slice buf (b + nr) (count - nr)) as Hcut. { unfold x. rewrite <- slice_add by lia. f_equal. lia. }
  set (f1 := if hf_do_crc f then _ else f).
  assert (hf_inv f1 d /\ hf_offset f1 = hf_offset f /\ hf_buffer_len f1 = hf_buffer_len f /\ hf_buffer f1 = hf_buffer f /\ hf_out f1 = hf_out f /\ hf_skip_hash f1 = skip /\ hf_ctx f1 = hf_ctx f /\ same_check f f1) as (Hi1 & E1 & E2 & E3 & E4 & E5 & E6 & Hs1).
  { unfold f1. destruct (hf_do_crc f); (split_and!; try done); constructor; try done; by exists pending, rest. }
  clearbody f1. rewrite E1, E2, E3. subst d. apply wp_bind. eapply (wp_mono _ _ (fun f' => hf_ok f' ((hf_out f ++ pending) ++ x) /\ same_check f f')).
  2:{ intros f' [Hok Hs]. apply wp_ret. by exists f', nr. }
  eapply (wp_weaken (io_or_differs f1 ((hf_out f ++ pending) ++ x))).
  2:{ intros e [He|[-> He]]; [by left|]. right. split; [done|]. rewrite Hcut, app_assoc. apply differs_app. eapply differs_same; [apply Hs1|exact He]. }
  destruct (Z.eqb_spec nr (hf_buffer_len f)) as [En|En].
  - assert (pending = []) as -> by (destruct pending; [done|]; rewrite len_cons in *; pose proof (len_nonneg pending); unfold left in *; lia).
    rewrite app_nil_r in *. destruct Hi1 as [_ _ I3 I4 [_ I5] I6 I7].
    destruct (hash_update_ok f1 x E5 I5 Hbx) as (c & -> & Hc'). rewrite E4 in *. cbn [mbind res_bind].
    eapply wp_mono; [rewrite <- E4; apply (flush_ok (set_ctx f1 c)); cbn [set_ctx hf_out hf_total hf_buffer_len hf_check hf_check_buffer]; rewrite ?E4; [done|lia|done]|].
    intros f' (check & cb & -> & Hs & Hchk). cbn [set_ctx hf_out] in *. rewrite E4 in *. split.
    + split; [|cbn; lia]. constructor; cbn [set_ctx set_check set_out hf_out hf_offset hf_buffer hf_buffer_len hf_skip_hash hf_ctx hf_total hf_check hf_check_buffer]; try done.
      * exists [], (hf_buffer f1). split_and!; [by rewrite app_nil_r|done|by rewrite E1, Ho].
      * by apply Forall_app.
    + eapply same_check_trans; [exact Hs1|exact Hs].
  - assert (exists r1 r2, rest = r1 ++ r2 /\ len r1 = nr) as (r1 & r2 & -> & Hr1).
    { exists (take (Z.to_nat nr) rest), (drop (Z.to_nat nr) rest). rewrite take_drop. split; [done|]. rewrite Hb, len_app in Hl. unfold left in *. unfold len in *. rewrite length_take. lia. }
    rewrite Hb. rewrite (wr_slice_mid pending r1 r2) by (done || lia). cbn [mbind res_bind]. cbv zeta.
    set (f2 := hf_set_buffer f1 _ _).
    assert (hf_inv f2 ((hf_out f ++ pending) ++ x)) as Hi2.
    { destruct Hi1 as [_ _ I3 I4 [_ I5] I6 I7]. unfold f2. constructor; cbn [hf_set_buffer hf_out hf_offset hf_buffer hf_buffer_len hf_skip_hash hf_ctx hf_total hf_check hf_check_buffer]; try done.
      - exists (pending ++ x), r2. rewrite E4, <- !app_assoc. split_and!; [done|done|]. rewrite len_app, Ho, Hx. apply u32_small. unfold left in *. lia.
      - by apply Forall_app.
      - rewrite E2, <- Hl, Hb. rewrite !len_app. lia. }
    destruct (tr (left - nr)) eqn:El; cbn [negb].
    + apply tr_true in El. apply wp_ret. split; [|destruct Hs1; by split]. split; [done|]. unfold f2. cbn [hf_set_buffer hf_offset hf_buffer_len]. rewrite E2, u32_small by (unfold left in *; lia). unfold left in *. lia.
    + eapply (wp_weaken (io_or_differs f2 _)); [|intros e He; exact He].
      eapply wp_mono; [by apply hashflush_ok|]. intros f' (Hok & _ & _ & Hs). split; [done|]. eapply same_check_trans; [exact Hs1|exact Hs].
Qed.

Lemma hashwrite_ok f d buf : hf_ok f d -> is_bytes buf -> len buf < 2 ^ 32 ->
  wp (io_or_differs f (d ++ buf)) (hashwrite crc32 f buf (len buf)) (fun f' => hf_ok f' (d ++ buf) /\ same_check f f').
Proof using All.
  intros Hok Hby Hlen. unfold hashwrite. pose proof (len_nonneg buf).
  apply (wp_loop _ (fun '(f1, b, count) => 0 <= b /\ 0 <= count /\ b + count = len buf /\ hf_ok f1 (d ++ slice buf 0 b) /\ same_check f f1) (fun '(_, _, count) => Z.to_nat count)).
  - intros [[f1 b] count] (Hb & Hc & Hbc & Hok1 & Hs1).
    assert (slice buf 0 b ++ slice buf b count = buf) as Hcut. { rewrite <- (slice_all buf) at 3. rewrite (slice_split buf (len buf) b) by lia. do 2 f_equal. lia. }
    destruct (decide (count = 0)) as [->|Hne].
    + unfold hashwrite_step. cbn [tr Z.eqb negb]. apply wp_ret. split; [|done]. replace b with (len buf) in Hok1 by lia. by rewrite slice_all in Hok1.
    + eapply wp_mono; [eapply (wp_weaken (io_or_differs f1 ((d ++ slice buf 0 b) ++ slice buf b count))); [apply hashwrite_turn; (done || lia)|]|].
      * intros e [He|[-> He]]; [by left|]. right. split; [done|]. rewrite <- app_assoc, Hcut in He. eapply differs_same; [apply Hs1|exact He].
      * intros r (f' & nr & -> & Hnr & Hok' & Hs'). split; [|lia]. split_and!; [lia|lia|lia| |by eapply same_check_trans].
        rewrite <- app_assoc in Hok'. rewrite slice_add by lia. by rewrite Z.add_0_l.
  - split_and!; [lia|lia|lia| |done]. rewrite slice_nil by lia. by rewrite app_nil_r.
  - lia.
Qed.

Lemma hashwrites_ok chunks : forall f d, hf_ok f d -> Forall (fun x => is_bytes x /\ len x < 2 ^ 32) chunks ->
  wp (io_or_differs f (d ++ concat chunks)) (hashwrites crc32 f chunks) (fun f' => hf_ok f' (d ++ concat chunks) /\ same_check f f').
Proof using All.
  induction chunks as [|x chunks IH]; intros f d Hok Hc; cbn [hashwrites concat].
  - apply wp_ret. by rewrite app_nil_r.
  - apply Forall_cons in Hc as [[Hx Hxl] Hc]. apply wp_bind. rewrite app_assoc.
    eapply wp_mono; [eapply (wp_weaken (io_or_differs f (d ++ x))); [by apply hashwrite_ok|]|].
    + intros e [He|[-> He]]; [by left|]. right. split; [done|]. by apply differs_app.
    + intros f' [Hok' Hs]. eapply wp_mono; [eapply wp_weaken; [by apply IH|]|].
      * intros e [He|[-> He]]; [by left|]. right. split; [done|]. eapply differs_same; [apply Hs|exact He].
      * intros f'' [Hok'' Hs']. split; [done|]. by eapply same_check_trans.
Qed.

(** The file that is compared is not [d]. *)
Definition mismatch (f : hfile) (d : list Z) : Prop := match hf_check f with Some (file, _) => file <> d | None => False end.

Lemma differs_mismatch f d e : differs f d -> mismatch f (d ++ e).
Proof. unfold differs, mismatch. destruct (hf_check f) as [[file pos]|]; [|done]. intros Hn ->. apply Hn. by exists e. Qed.

Definition io_or_mismatch (f : hfile) (d : list Z) (e : fault) : Prop := io e \/ (e = Died /\ mismatch f d).

(** What [finalize_hashfile] puts into [result], and what it appends to the file. *)
Definition hf_checksum (d : list Z) : list Z := if skip then replicate (Z.to_nat hash_rawsz) 0 else digest d.
Definition hf_trailer (flags : Z) (d : list Z) : list Z := if tr (flags &. CSUM_HASH_IN_STREAM) then hf_checksum d else [].

Lemma hf_checksum_len d : len (hf_checksum d) = hash_rawsz.
Proof using All.
  unfold hf_checksum. destruct skip; [|apply hk_len]. unfold len. rewrite length_replicate. destruct hk_rawsz; lia.
Qed.

(** The checksum is left at the start of the buffer. *)
Lemma final_ok f d : hf_skip_hash f = skip -> (skip = false -> hashing (hf_ctx f) d) -> len d < 2 ^ 61 -> hash_rawsz <= len (hf_buffer f) ->
  exists c, (if hf_skip_hash f then b ← hashclr (hf_buffer f); Ok (hf_set_buffer f b (hf_offset f))
      else '(b, c) ← final_fn (hf_buffer f) (hf_ctx f); Ok (hf_set_buffer (set_ctx f c) b (hf_offset f)))
    = Ok (hf_set_buffer (set_ctx f c) (hf_checksum d ++ drop (Z.to_nat hash_rawsz) (hf_buffer f)) (hf_offset f)).
Proof using All.
  intros -> Hh Hd Hb. assert (0 < hash_rawsz <= 32) as Hraw by (destruct hk_rawsz; lia). unfold hf_checksum. destruct skip.
  - exists (hf_ctx f). unfold hashclr. assert (len (replicate (Z.to_nat hash_rawsz) 0) = hash_rawsz) as Hl by (unfold len; rewrite length_replicate; lia).
    rewrite wr_slice_ok by (rewrite ?Hl; lia). cbn [mbind res_bind]. change (take (Z.to_nat 0) (hf_buffer f)) with (@nil Z). rewrite length_replicate. by destruct f.
  - destruct (proj1 (total_ok _ _) (hk_final (hf_ctx f) d (hf_buffer f) (Hh eq_refl) Hd Hb)) as ([b c] & -> & ->). by exists c.
Qed.

(** The checksum in the stream. *)
Lemma hf_trailer_ok f d c flags : hf_inv f d -> hf_out f = d -> hf_offset f = 0 ->
  let f1 := hf_set_buffer (set_ctx f c) (hf_checksum d ++ drop (Z.to_nat hash_rawsz) (hf_buffer f)) (hf_offset f) in
  wp (io_or_mismatch f (d ++ hf_trailer flags d)) (if tr (flags &. CSUM_HASH_IN_STREAM) then flush f1 (hf_checksum d) else Ok f1) (fun f' =>
    hf_out f' = d ++ hf_trailer flags d /\ same_check f f' /\
    match hf_check f' with Some (file, pos) => pos = len (d ++ hf_trailer flags d) /\ d ++ hf_trailer flags d `prefix_of` file | None => True end).
Proof using All.
  intros [_ Hby Hl Hlim _ Ht Hc] Hout Hoff f1. unfold hf_trailer. destruct (tr (flags &. CSUM_HASH_IN_STREAM)).
  - assert (0 < hash_rawsz <= 32) as Hraw by (destruct hk_rawsz; lia). pose proof (hf_checksum_len d) as Hcl.
    eapply wp_mono; [eapply wp_weaken; [apply (flush_ok f1); unfold f1; cbn [hf_set_buffer set_ctx hf_out hf_total hf_buffer_len hf_check hf_check_buffer]; [done|lia|done]|]|].
    + intros e [He|[-> He]]; [by left|]. right. split; [done|]. unfold differs in He. unfold f1 in He. cbn [hf_set_buffer set_ctx hf_check hf_out] in He.
      rewrite Hout in He. unfold mismatch. destruct (hf_check f) as [[file pos]|]; [|done]. intros ->. by apply He.
    + unfold f1. cbn [hf_set_buffer set_ctx hf_out]. rewrite Hout. intros f' (check & cb & -> & (S1 & S2 & S3) & Hchk).
      cbn [hf_set_buffer set_ctx set_check set_out hf_out hf_check hf_fd] in *.
      split_and!; [done| |destruct check as [[file pos]|]; [by destruct Hchk as (? & ? & _)|done]].
      split_and!; [done|done|]. cbn [set_out hf_out]. rewrite Hout. by eexists.
  - rewrite app_nil_r. unfold f1. apply wp_ret. cbn [hf_set_buffer set_ctx hf_out hf_check]. split_and!; [done|by split_and!|].
    rewrite Hout in Hc. destruct (hf_check f) as [[file pos]|]; [by destruct Hc as (? & ? & _)|done].
Qed.

(** What comes behind the data: [fsync], [close] and the look for trailing garbage. *)
Lemma finalize_ok f d flags : hf_ok f d -> len d < 2 ^ 61 ->
  wp (io_or_mismatch f (d ++ hf_trailer flags d)) (finalize_hashfile f flags) (fun '(_, result, f') =>
    result = hf_checksum d /\ hf_out f' = d ++ hf_trailer flags d /\ match hf_check f with Some (file, _) => file = d ++ hf_trailer flags d | None => True end).
Proof using All.
  intros [Hi _] Hlen. unfold finalize_hashfile. apply wp_bind.
  assert (0 < hash_rawsz <= 32) as Hraw by (destruct hk_rawsz; lia).
  eapply wp_mono; [eapply wp_weaken; [by apply hashflush_ok|]|].
  { intros e [He|[-> He]]; [by left|]. right. split; [done|]. by apply differs_mismatch. }
  intros f1 ([Hi1 _] & Hout & Hoff & Hs). pose proof (hf_hash _ _ Hi1) as [Hsk Hh]. rewrite Hout in Hh.
  pose proof (hf_len _ _ Hi1). pose proof (hf_lim _ _ Hi1).
  destruct (final_ok f1 d Hsk Hh Hlen ltac:(lia)) as (c & ->). cbn [mbind res_bind]. cbn [hf_set_buffer hf_buffer].
  pose proof (hf_checksum_len d) as Hcl. rewrite (rd_slice_head (hf_checksum d)) by done. cbn [mbind res_bind].
  apply wp_bind. eapply wp_mono; [eapply wp_weaken; [by apply (hf_trailer_ok f1 d c flags)|]|].
  { intros e [He|[-> He]]; [by left|]. right. split; [done|]. unfold mismatch in *. destruct Hs as [Hs _].
    by destruct (hf_check f) as [[file pos]|], (hf_check f1) as [[file' pos']|]; simplify_eq/=. }
  intros f2 (Hout2 & Hs2 & Hchk). pose proof (same_check_trans _ _ _ Hs Hs2) as (Hck & _ & _).
  destruct (tr (flags &. CSUM_FSYNC) && negb fsync_ok) eqn:Ef. { left. right. split; [done|]. right. right. left. apply andb_true_iff in Ef as [_ Ef]. by destruct fsync_ok. }
  destruct (tr (flags &. CSUM_CLOSE) && negb close_ok) eqn:Ec. { left. right. split; [done|]. do 3 right. apply andb_true_iff in Ec as [_ Ec]. by destruct close_ok. }
  destruct (hf_check f2) as [[file pos]|] eqn:E2, (hf_check f) as [[file' pos']|] eqn:Ek; cbn [fmap option_fmap option_map fst] in Hck; [|done|done|done].
  injection Hck as ->. destruct Hchk as (-> & [rest Hrest]). unfold read_in_full.
  destruct (read_ok (len (d ++ hf_trailer flags d)) 1) eqn:Er; [|left; right; split; [done|]; right; left; by eexists _, _].
  rewrite Hrest. assert (slice ((d ++ hf_trailer flags d) ++ rest) (len (d ++ hf_trailer flags d)) 1 = take 1 rest) as ->.
  { unfold slice, len. rewrite Nat2Z.id, drop_app_length. done. }
  destruct rest as [|x rest]; cbn [take].
  - cbn [len length Z.of_nat tr Z.eqb negb]. destruct close_ok eqn:Eclose; cbn [negb]; [|left; right; split; [done|]; by do 3 right]. apply wp_ret. split_and!; [done|done|]. by rewrite app_nil_r.
  - right. split; [done|]. unfold mismatch. rewrite Ek. intros E. rewrite Hrest in E. apply (f_equal length) in E. rewrite length_app in E. simpl in E. lia.
Qed.

(** All the writes and the end. *)
Lemma write_finalize_ok f chunks flags : hf_ok f [] -> Forall (fun x => is_bytes x /\ len x < 2 ^ 32) chunks -> len (concat chunks) < 2 ^ 61 ->
  let d := concat chunks in
  wp (io_or_mismatch f (d ++ hf_trailer flags d)) (f ← hashwrites crc32 f chunks; finalize_hashfile f flags) (fun '(_, result, f') =>
    result = hf_checksum d /\ hf_out f' = d ++ hf_trailer flags d /\ match hf_check f with Some (file, _) => file = d ++ hf_trailer flags d | None => True end).
Proof using All.
  intros Hok Hc Hlen d. apply wp_bind. eapply wp_mono; [eapply wp_weaken; [by apply (hashwrites_ok chunks f [])|]|].
  { intros e [He|[-> He]]; [by left|]. right. split; [done|]. by apply differs_mismatch. }
  intros f' [Hok' Hs]. cbn [app] in *. destruct Hs as [Hs _]. eapply wp_mono; [eapply wp_weaken; [by apply finalize_ok|]|].
  { intros e [He|[-> He]]; [by left|]. right. split; [done|]. unfold mismatch in *.
    by destruct (hf_check f) as [[file pos]|], (hf_check f') as [[file' pos']|]; simplify_eq/=. }
  intros [[fd' result] f''] (-> & -> & Hf). split_and!; [done|done|].
  by destruct (hf_check f) as [[file pos]|], (hf_check f') as [[file' pos']|]; simplify_eq/=.
Qed.
End Invariant.

(** ** Opening files, and checkpoints *)

Section Opening.
Context `{Memory} `{Disk} {C : Type} `{!Hasher C} {space : C -> Prop} {hashing : C -> list Z -> Prop} {digest : list Z -> list Z} `{!HasherOk space hashing digest}.
Context (crc32 : Z -> list Z -> Z).
Abbreviation hf_ok := (@hf_ok C hashing).

(** A new file. *)
Lemma hashfd_internal_ok n ctx0 junk fd buffer_len : space ctx0 -> 0 < n < 2 ^ 64 -> 64 <= buffer_len < 2 ^ 31 ->
  wp oom (hashfd_internal n ctx0 junk fd buffer_len) (fun f => hf_ok false f [] /\ hf_check f = None /\ hf_buffer_len f = buffer_len /\ hf_fd f = fd).
Proof using All.
  intros Hc Hn Hb. unfold hashfd_internal. apply wp_bind. eapply wp_mono; [by apply xmalloc_oom|]. intros [] _.
  destruct (proj1 (total_ok _ _) (hk_init ctx0 Hc)) as (c & -> & Hh). cbn [mbind res_bind]. apply wp_bind. eapply wp_mono; [apply xmalloc_oom; lia|]. intros [] _.
  apply wp_ret. split_and!; [|done|done|done]. split; [|cbn; lia]. constructor; cbn [hf_out hf_offset hf_buffer hf_buffer_len hf_skip_hash hf_ctx hf_total hf_check hf_check_buffer]; try done.
  - exists [], (replicate (Z.to_nat buffer_len) junk). done.
  - unfold len. rewrite length_replicate. lia.
Qed.

Lemma hashfd_check_ok n ctx0 junk sink file : space ctx0 -> 0 < n < 2 ^ 64 ->
  wp oom (hashfd_check n ctx0 junk sink file) (fun f => hf_ok false f [] /\ hf_check f = Some (file, 0)).
Proof using All.
  intros Hc Hn. unfold hashfd_check, hashfd. apply wp_bind. eapply wp_mono; [by apply hashfd_internal_ok|]. intros f ([[Hd Hby Hl Hlim Hh Ht _] Hr] & _ & Hbl & _).
  apply wp_bind. eapply wp_mono; [apply xmalloc_oom; lia|]. intros [] _. apply wp_ret. split; [|done]. split; [|done].
  destruct Hd as (pending & rest & Hd & Hb & Ho). symmetry in Hd. pose proof Hd as Hd'. apply app_eq_nil in Hd' as [Hd' ->].
  constructor; cbn [set_check hf_out hf_offset hf_buffer hf_buffer_len hf_skip_hash hf_ctx hf_total hf_check hf_check_buffer]; try done.
  - exists [], rest. done.
  - split_and!; [by rewrite Hd'|rewrite Hd'; apply prefix_nil|]. unfold len. rewrite length_replicate. lia.
Qed.

(** Going back to a checkpoint forgets what was written since. *)
Lemma checkpoint_truncate f d cp chunks : hf_ok false f d -> hf_check f = None -> space (cp_ctx cp) -> (forall c x, hashing c x -> space c) ->
  Forall (fun x => is_bytes x /\ len x < 2 ^ 32) chunks -> (forall n, truncate_ok n = true) ->
  wp io ('(f, cp) ← checkpoint_hashfile f cp; f ← hashwrites crc32 f chunks; hashfile_truncate f cp) (fun '(f', r) => hf_ok false f' d /\ hf_out f' = d /\ r = 0).
Proof using All.
  intros [Hi _] Hck Hsp Hspace Hch Htr. unfold checkpoint_hashfile.
  apply wp_bind, wp_bind. eapply wp_mono; [eapply wp_weaken; [by apply (hashflush_ok crc32 false)|]|].
  { intros e [He|[-> He]]; [done|]. unfold differs in He. by rewrite Hck in He. }
  intros f1 (Hok1 & Hout & Hoff & (Hs & _ & _)). rewrite Hck in Hs. destruct (hf_check f1) as [[? ?]|] eqn:Hck1; [done|]. destruct Hok1 as [Hi1 Hr1].
  destruct (hf_hash _ _ _ Hi1) as [Hsk Hh]. specialize (Hh eq_refl). destruct (proj1 (total_ok _ _) (hk_clone (cp_ctx cp) (hf_ctx f1) (hf_out f1) Hsp Hh)) as (c & -> & Hc). cbn [mbind res_bind wp].
  apply wp_bind. eapply wp_mono; [eapply wp_weaken; [apply (hashwrites_ok crc32 false); [split; [exact Hi1|exact Hr1]|done]|]|].
  { intros e [He|[-> He]]; [done|]. unfold differs in He. by rewrite Hck1 in He. }
  intros f2 [[Hi2 Hr2] (Hs2 & _ & [ext Hext])]. rewrite Hck1 in Hs2. destruct (hf_check f2) as [[? ?]|] eqn:Hck2; [done|].
  unfold hashfile_truncate. cbn [cp_offset cp_ctx]. rewrite Htr. cbn [negb]. rewrite (hf_tot _ _ _ Hi1), Hout in *.
  destruct (hf_hash _ _ _ Hi2) as [Hsk2 Hh2]. specialize (Hh2 eq_refl). destruct (proj1 (total_ok _ _) (hk_clone (hf_ctx f2) c d (Hspace _ _ Hh2) Hc)) as (c' & -> & Hc'). cbn [mbind res_bind wp].
  rewrite Hext. unfold len. rewrite Nat2Z.id, take_app_length. split_and!; [|done|done].
  destruct Hi2 as [_ Hby2 Hl2 Hlim2 _ _ _]. split; [|cbn; lia].
  constructor; cbn [set_ctx set_out hf_set_buffer hf_out hf_offset hf_buffer hf_buffer_len hf_skip_hash hf_ctx hf_total hf_check hf_check_buffer]; try done.
  - exists [], (hf_buffer f2). by rewrite app_nil_r.
  - apply (hf_bytes _ _ _ Hi1).
  - by rewrite Hck2.
Qed.

(** A new file of which hashing is switched on or off. *)
Lemma set_skip_ok f skip : hf_ok false f [] -> hf_ok skip (set_skip f skip) [].
Proof using All.
  intros [[Hd Hby Hl Hlim [_ Hh] Ht Hc] Hr]. split; [|done]. constructor; try done. split; [done|]. intros _. by apply Hh.
Qed.
End Opening.

(** ** SHA-1 as a hash of the interface *)

#[export] Instance sha1_hasher : Hasher blk_SHA_CTX := {
  hash_rawsz := 20;
  init_fn := blk_SHA1_Init;
  update_fn c x := blk_SHA1_Update c x (len x);
  final_fn := blk_SHA1_Final;
  clone_fn _ c := Ok c;
}.

Definition sha1_space (c : blk_SHA_CTX) : Prop := len (ctx_H c) = 5 /\ len (ctx_W c) = 64 /\ is_bytes (ctx_W c).

#[export] Instance sha1_hasher_ok : HasherOk sha1_space sha_repr Fips.sha1.
Proof.
  constructor.
  - by left.
  - intros c (H1 & H2 & H3). apply total_ok. by apply blk_SHA1_Init_spec.
  - intros c d x Hr Hx. apply total_ok. destruct (blk_SHA1_Update_spec c d x (len x) Hr Hx) as (c' & E & Hr'); [pose proof (len_nonneg x); lia|].
    exists c'. split; [exact E|]. by rewrite slice_all in Hr'.
  - intros c d out Hr Hl Ho. apply total_ok. destruct (blk_SHA1_Final_spec c d out Hr Hl Ho) as (c' & E). by exists (Fips.sha1 d ++ drop 20 out, c').
  - intros c c' d _ Hr. done.
  - intros d. unfold Fips.sha1. destruct (is_H_inv _ (process_is_H (length (d ++ Fips.padding (len d)) / 64) Fips.H0 (d ++ Fips.padding (len d)) H0_is_H)) as (a & b & c & e & f & -> & _). done.
  - intros d. unfold Fips.sha1. apply Forall_concat, Forall_fmap, Forall_true. intros x. apply be32_bytes.
Qed.

(** ** Writing, checking and validating *)

Section Validate.
Context `{Memory} `{Disk} {C : Type} `{!Hasher C} {space : C -> Prop} {hashing : C -> list Z -> Prop} {digest : list Z -> list Z} `{!HasherOk space hashing digest}.

Lemma checksum_valid_ok ctx0 got0 data : space ctx0 -> len got0 = GIT_MAX_RAWSZ -> is_bytes data -> len data < 2 ^ 61 ->
  exists b, hashfile_checksum_valid ctx0 got0 data (len data) = Ok b /\ (b = true <-> exists d, data = d ++ digest d).
Proof using All.
  intros Hs Hg Hb Hl. unfold hashfile_checksum_valid. pose proof (len_nonneg data). assert (0 < hash_rawsz <= 32) as Hraw by (destruct hk_rawsz; lia).
  destruct (Z.ltb_spec (len data) hash_rawsz) as [Hlt|Hge].
  - exists false. split; [done|]. split; [done|]. intros [d ->]. rewrite len_app, hk_len in Hlt. pose proof (len_nonneg d). lia.
  - rewrite u64_small by lia. destruct (proj1 (total_ok _ _) (hk_init ctx0 Hs)) as (c & -> & Hh). cbn [mbind res_bind].
    assert (exists d t, data = d ++ t /\ len t = hash_rawsz) as (d & t & -> & Ht).
    { exists (take (Z.to_nat (len data - hash_rawsz)) data), (drop (Z.to_nat (len data - hash_rawsz)) data). rewrite take_drop. split; [done|]. unfold len in *. rewrite length_drop. lia. }
    rewrite len_app, Ht. replace (len d + hash_rawsz - hash_rawsz) with (len d) by lia. apply Forall_app in Hb as [Hbd _]. rewrite len_app in Hl. pose proof (len_nonneg d).
    rewrite rd_slice_head by done. cbn [mbind res_bind].
    destruct (proj1 (total_ok _ _) (hk_update c [] d Hh Hbd)) as (c' & -> & Hh'). cbn [mbind res_bind app] in *.
    assert (hash_rawsz <= len got0) as Hrg by (rewrite Hg; done || (unfold GIT_MAX_RAWSZ; lia)).
    assert (len d < 2 ^ 61) as Hld by lia.
    destruct (proj1 (total_ok _ _) (hk_final c' d got0 Hh' Hld Hrg)) as ([got c''] & -> & ->). cbn [mbind res_bind].
    replace (len d + hash_rawsz - len d) with (len t) by lia. pose proof (rd_slice_mid d t [] (len d) (len t) eq_refl eq_refl) as Hr. rewrite app_nil_r in Hr. rewrite Hr. cbn [mbind res_bind].
    unfold hasheq. assert ((if hash_rawsz =? GIT_MAX_RAWSZ then GIT_MAX_RAWSZ else 20) = hash_rawsz) as ->.
    { destruct (Z.eqb_spec hash_rawsz GIT_MAX_RAWSZ) as [E|E]; [done|]. destruct hk_rawsz as [E'|E']; [done|]. by rewrite E' in E. }
    pose proof (hk_len d) as Hdl. rewrite (rd_slice_head (digest d)) by done.
    pose proof (rd_slice_head t [] hash_rawsz (eq_sym Ht)) as Hr2. rewrite app_nil_r in Hr2. rewrite Hr2. cbn [mbind res_bind].
    rewrite memcmp_tr, negb_involutive by llia. eexists. split; [done|]. rewrite bool_decide_eq_true. split; [intros <-; by exists d|].
    intros [d' E]. assert (len d = len d') as Hdd. { pose proof (hk_len d') as Hl'. apply (f_equal len) in E. rewrite !len_app in E. lia. }
    apply app_inj_1 in E as [<- ->]; [done|]. llia.
Qed.
(** A new file. *)
Lemma stream_written_gen skip crc32 (ctx0 : C) junk n fd chunks flags : space ctx0 -> 0 < n < 2 ^ 64 -> Forall (fun x => is_bytes x /\ len x < 2 ^ 32) chunks -> len (concat chunks) < 2 ^ 61 ->
  let d := concat chunks in
  wp io (f ← hashfd n ctx0 junk fd; f ← hashwrites crc32 (set_skip f skip) chunks; finalize_hashfile f flags)
    (fun '(_, result, f) => result = hf_checksum (digest := digest) skip d /\ hf_out f = d ++ hf_trailer (digest := digest) skip flags d).
Proof using All.
  intros Hsp Hn Hc Hlen d. apply wp_bind. eapply wp_mono; [eapply wp_weaken; [by apply (hashfd_internal_ok (hashing := hashing) crc32)|by left]|]. intros f (Hok & Hck & _).
  apply (set_skip_ok crc32 f skip) in Hok. eapply wp_mono; [eapply wp_weaken; [by apply write_finalize_ok|]|].
  { intros e [He|[-> He]]; [done|]. unfold mismatch in He. cbn [set_skip hf_check] in He. by rewrite Hck in He. }
  intros [[fd' result] f''] (-> & -> & _). done.
Qed.

(** The comparison with an existing file. *)
Lemma stream_checked_gen skip crc32 (ctx0 : C) junk n fd chunks flags file : space ctx0 -> 0 < n < 2 ^ 64 -> Forall (fun x => is_bytes x /\ len x < 2 ^ 32) chunks -> len (concat chunks) < 2 ^ 61 ->
  let d := concat chunks in
  wp (fun e => io e \/ (e = Died /\ file <> d ++ hf_trailer (digest := digest) skip flags d))
    (f ← hashfd_check n ctx0 junk fd file; f ← hashwrites crc32 (set_skip f skip) chunks; finalize_hashfile f flags)
    (fun '(_, result, f) => result = hf_checksum (digest := digest) skip d /\ file = d ++ hf_trailer (digest := digest) skip flags d).
Proof using All.
  intros Hsp Hn Hc Hlen d. apply wp_bind. eapply wp_mono; [eapply wp_weaken; [by apply (hashfd_check_ok (hashing := hashing) crc32)|by left; left]|]. intros f (Hok & Hck).
  apply (set_skip_ok crc32 f skip) in Hok. eapply wp_mono; [eapply wp_weaken; [by apply write_finalize_ok|]|].
  { intros e [He|[-> He]]; [by left|]. right. split; [done|]. unfold mismatch in He. cbn [set_skip hf_check] in He. by rewrite Hck in He. }
  intros [[fd' result] f''] (-> & _ & Hf). cbn [set_skip hf_check] in Hf. by rewrite Hck in Hf.
Qed.

(** [hashfd] and [hashfd_check] leave hashing on. *)
Lemma set_skip_same (f : hashfile C) : hf_skip_hash f = false -> set_skip f false = f.
Proof using Type. intros E. destruct f. cbn in *. by rewrite E. Qed.

Lemma hashfd_internal_hashes n (ctx0 : C) junk fd buffer_len f : hashfd_internal n ctx0 junk fd buffer_len = Ok f -> hf_skip_hash f = false.
Proof using Type.
  unfold hashfd_internal. destruct (xmalloc n); [|done]. cbn [mbind res_bind]. destruct (init_fn ctx0); [|done]. cbn [mbind res_bind].
  destruct (xmalloc buffer_len); [|done]. cbn [mbind res_bind]. by intros [= <-].
Qed.

Lemma hashfd_hashes (ctx0 : C) junk n fd f : hashfd n ctx0 junk fd = Ok f -> set_skip f false = f.
Proof using Type. intros E. eapply set_skip_same, hashfd_internal_hashes, E. Qed.

Lemma hashfd_check_hashes (ctx0 : C) junk n fd file f : hashfd_check n ctx0 junk fd file = Ok f -> set_skip f false = f.
Proof using Type.
  unfold hashfd_check, hashfd. intros E. apply set_skip_same. destruct (hashfd_internal _ _ _ _ _) as [g|] eqn:Eg; [|done]. cbn [mbind res_bind] in E.
  destruct (xmalloc (hf_buffer_len g)); [|done]. cbn [mbind res_bind] in E. apply hashfd_internal_hashes in Eg.
  assert (f = set_check g (Some (file, 0)) (replicate (Z.to_nat (hf_buffer_len g)) junk)) as -> by congruence. exact Eg.
Qed.

(** With hashing on and the checksum in the stream. *)
Lemma stream_written crc32 (ctx0 : C) junk n fd chunks flags : space ctx0 -> 0 < n < 2 ^ 64 -> Forall (fun x => is_bytes x /\ len x < 2 ^ 32) chunks -> len (concat chunks) < 2 ^ 61 ->
  tr (flags &. CSUM_HASH_IN_STREAM) = true ->
  wp io (f ← hashfd n ctx0 junk fd; f ← hashwrites crc32 f chunks; finalize_hashfile f flags)
    (fun '(_, result, f) => result = digest (concat chunks) /\ hf_out f = concat chunks ++ result).
Proof using All.
  intros Hsp Hn Hc Hlen Hfl. pose proof (stream_written_gen false crc32 ctx0 junk n fd chunks flags Hsp Hn Hc Hlen) as Hs. cbv zeta in Hs.
  unfold hf_trailer, hf_checksum in Hs. rewrite Hfl in Hs. destruct (hashfd n ctx0 junk fd) as [f|] eqn:E; [|done].
  cbn [mbind res_bind] in *. rewrite (hashfd_hashes _ _ _ _ _ E) in Hs. eapply wp_mono; [exact Hs|]. by intros [[fd' result] f'] [-> ->].
Qed.

Lemma stream_checked crc32 (ctx0 : C) junk n fd chunks flags file : space ctx0 -> 0 < n < 2 ^ 64 -> Forall (fun x => is_bytes x /\ len x < 2 ^ 32) chunks -> len (concat chunks) < 2 ^ 61 ->
  tr (flags &. CSUM_HASH_IN_STREAM) = true ->
  wp (fun e => io e \/ (e = Died /\ file <> concat chunks ++ digest (concat chunks)))
    (f ← hashfd_check n ctx0 junk fd file; f ← hashwrites crc32 f chunks; finalize_hashfile f flags)
    (fun '(_, result, f) => result = digest (concat chunks) /\ file = concat chunks ++ result).
Proof using All.
  intros Hsp Hn Hc Hlen Hfl. pose proof (stream_checked_gen false crc32 ctx0 junk n fd chunks flags file Hsp Hn Hc Hlen) as Hs. cbv zeta in Hs.
  unfold hf_trailer, hf_checksum in Hs. rewrite Hfl in Hs. destruct (hashfd_check n ctx0 junk fd file) as [f|] eqn:E; [|done].
  cbn [mbind res_bind] in *. rewrite (hashfd_check_hashes _ _ _ _ _ _ E) in Hs. eapply wp_mono; [exact Hs|]. by intros [[fd' result] f'] [-> ->].
Qed.
End Validate.

(** C23: what a [hashfile] does with its data, whatever the sizes of the writes (each of
    less than 4 GiB, less than [2 ^ 61] bytes in all), the flags of [finalize_hashfile] and
    the setting of [skip_hash].  A file that is written is the data followed by a trailer:
    nothing without [CSUM_HASH_IN_STREAM], else the checksum; the checksum, which is also
    the [result], is the digest of the data, or zeros when [skip_hash] is set.  The program
    dies only for lack of memory or when the operating system refuses.  Writing the data to
    a [hashfile] that checks an existing file succeeds only when that file is exactly the
    data and that trailer, and dies otherwise.  [hashfile_checksum_valid] accepts exactly
    the files that are some data followed by its digest. *)
Theorem csum_file_stream `{Memory} `{Disk} {C} `{!Hasher C} {space hashing digest} `{!HasherOk space hashing digest} crc32 (skip : bool) (ctx0 : C) junk n fd chunks flags file got0 :
  space ctx0 -> 0 < n < 2 ^ 64 -> Forall (fun x => is_bytes x /\ len x < 2 ^ 32) chunks -> len (concat chunks) < 2 ^ 61 ->
  len got0 = GIT_MAX_RAWSZ -> is_bytes file -> len file < 2 ^ 61 ->
  let d := concat chunks in
  let checksum := if skip then replicate (Z.to_nat hash_rawsz) 0 else digest d in
  let trailer := if tr (flags &. CSUM_HASH_IN_STREAM) then checksum else [] in
  wp io (f ← hashfd n ctx0 junk fd; f ← hashwrites crc32 (set_skip f skip) chunks; finalize_hashfile f flags)
    (fun '(_, result, f) => result = checksum /\ hf_out f = d ++ trailer) /\
  wp (fun e => io e \/ (e = Died /\ file <> d ++ trailer))
    (f ← hashfd_check n ctx0 junk fd file; f ← hashwrites crc32 (set_skip f skip) chunks; finalize_hashfile f flags)
    (fun '(_, result, f) => result = checksum /\ file = d ++ trailer) /\
  (exists b, hashfile_checksum_valid ctx0 got0 file (len file) = Ok b /\ (b = true <-> exists d, file = d ++ digest d)).
Proof.
  intros Hsp Hn Hc Hlen Hg Hb Hl. split_and!; [by apply (stream_written_gen (hashing := hashing))|by apply (stream_checked_gen (hashing := hashing))|by apply (checksum_valid_ok (hashing := hashing))].
Qed.

(** A disk without failures. *)
Definition good_disk : Disk := {| write_ok _ _ := true; read_ok _ _ := true; fsync_ok := true; close_ok := true; truncate_ok _ := true |}.

(** With the digest in the stream, without a trailer, and with zeros. *)
Lemma csum_file_stream_witness :
  let ctx0 := mkCTX 0 (replicate 5 0) (replicate 64 0) in
  let run (skip : bool) (flags : Z) := f ← @hashfd plenty _ sha1_hasher 200 ctx0 0 3;
       f ← @hashwrites good_disk _ sha1_hasher (fun c _ => c) (set_skip f skip) [[1; 2]; [3]]; @finalize_hashfile good_disk _ sha1_hasher f flags in
  wp (@io plenty good_disk) (run false 7) (fun '(_, result, f) => result = Fips.sha1 [1; 2; 3] /\ hf_out f = [1; 2; 3] ++ Fips.sha1 [1; 2; 3]) /\
  wp (@io plenty good_disk) (run false 0) (fun '(_, result, f) => result = Fips.sha1 [1; 2; 3] /\ hf_out f = [1; 2; 3]) /\
  wp (@io plenty good_disk) (run true 7) (fun '(_, result, f) => result = replicate 20 0 /\ hf_out f = [1; 2; 3] ++ replicate 20 0).
Proof.
  intros ctx0 run.
  assert (sha1_space ctx0) as Hsp by (split_and!; [done|done|by apply Forall_replicate]).
  assert (Forall (fun x => is_bytes x /\ len x < 2 ^ 32) [[1; 2]; [3]]) as Hc by (repeat constructor; done).
  assert (is_bytes [1; 2; 3]) as Hb by (repeat constructor; done).
  pose proof (fun skip flags => @csum_file_stream plenty good_disk blk_SHA_CTX sha1_hasher sha1_space sha_repr Fips.sha1 sha1_hasher_ok (fun c _ => c) skip ctx0 0 200 3 [[1; 2]; [3]] flags [1; 2; 3] (replicate 32 0)
    Hsp ltac:(done) Hc ltac:(done) ltac:(done) Hb ltac:(done)) as Hall. cbv zeta in Hall. unfold run. clear run.
  destruct (Hall false 7) as [H1 _], (Hall false 0) as [H2 _], (Hall true 7) as [H3 _]. clear Hall.
  split_and!.
  - eapply wp_mono; [exact H1|]. intros [[fd result] f] [E1 E2]. rewrite E1, E2. split; reflexivity.
  - eapply wp_mono; [exact H2|]. intros [[fd result] f] [E1 E2]. rewrite E1, E2. split; reflexivity.
  - eapply wp_mono; [exact H3|]. intros [[fd result] f] [E1 E2]. rewrite E1, E2. split; reflexivity.
Defined.
