(* ===== verification/HashLookup.v ===== *)
(** * Searching tables of object names: [hash-lookup.c]

    [bsearch_hash] is the binary search of the pack index and of the other files
    with a table of 256 counts in front of their object names; [oid_pos] is an
    interpolation search in a table in memory.  Both are instances of one
    invariant: the cells before [lo] are smaller than the key and those from [hi]
    on are greater. *)

From stdpp Require Import prelude numbers list sorting.
From S2P Require Import Prelude PatchDelta Alloc CString Bswap Hex StableQsort StringList StringListSpec.

(** ** The code *)

(** [ntohl(p[i])] for a [uint32_t *]: a little-endian load and a swap. *)
Definition ld32 (mem : list Z) (i : Z) : res Z :=
  a ← rd mem i; b ← rd mem (i + 1); c ← rd mem (i + 2); d ← rd mem (i + 3);
  Ok (a |. (b <<. 8) |. (c <<. 16) |. (d <<. 24)).

Definition ntohl_at (mem : list Z) (i : Z) : res Z := x ← ld32 mem i; Ok (htonl x).

Definition GIT_SHA1_RAWSZ : Z := 20.

(** [hashcmp] of the hashes at two pointers. *)
Definition hashcmp (a : list Z) (i : Z) (b : list Z) (j rawsz : Z) : res Z :=
  let n := if rawsz =? GIT_MAX_RAWSZ then GIT_MAX_RAWSZ else GIT_SHA1_RAWSZ in
  x ← rd_slice a i n; y ← rd_slice b j n; Ok (memcmp x y).

Definition oidcmp (oid1 oid2 : object_id) : res Z :=
  x ← rd_slice (oid_hash oid1) 0 GIT_MAX_RAWSZ; y ← rd_slice (oid_hash oid2) 0 GIT_MAX_RAWSZ; Ok (memcmp x y).

(** A position that does not fit an [int] is fatal. *)
Definition index_pos_to_insert_pos (pos : Z) : res Z :=
  if 2 ^ 31 - 1 <? pos then Fault Died else Ok (-1 - to_int pos).

Definition take2 (oid : object_id) (ofs : Z) : res Z :=
  a ← rd (oid_hash oid) ofs; b ← rd (oid_hash oid) (ofs + 1); Ok (u32 ((a <<. 8) |. b)).

Section OidPos.
(** [fn(i, table)] is the cell [i] of the table; [rawsz] is that of [the_hash_algo]. *)
Context (rawsz : Z) (oid : object_id) (table : list object_id) (nr : Z).

(** The interpolation: [inl ofs] to go on, [inr (inl mi)] to search from [mi] on,
    [inr (inr r)] to return. *)
Definition interpolate_step (ofs : Z) : res (Z + (Z + Z)) :=
  if ofs <? u64 (rawsz - 2) then
    lo_oid ← rd table 0; lov ← take2 lo_oid ofs;
    hi_oid ← rd table (nr - 1); hiv ← take2 hi_oid ofs;
    miv ← take2 oid ofs;
    if miv <? lov then Ok (inr (inr (-1)))
    else if hiv <? miv then r ← index_pos_to_insert_pos nr; Ok (inr (inr r))
    else if negb (lov =? hiv) then
      let mi := u64 ((nr - 1) * (miv - lov)) `div` (hiv - lov) in
      if (0 <=? mi) && (mi <? nr) then Ok (inr (inl mi)) else Fault BugHit
    else Ok (inl (ofs + 2))
  else Ok (inr (inl 0)).

(** The search: [inr r] is the value that is returned. *)
Definition oid_search_step (st : Z * Z * Z) : res (Z * Z * Z + Z) :=
  let '(lo, hi, mi) := st in
  x ← rd table mi;
  cmp ← oidcmp x oid;
  if cmp =? 0 then Ok (inr (to_int mi))
  else
    let hi := if 0 <? cmp then mi else hi in
    let lo := if 0 <? cmp then lo else mi + 1 in
    let mi := lo + (hi - lo) `div` 2 in
    if lo <? hi then Ok (inl (lo, hi, mi)) else r ← index_pos_to_insert_pos lo; Ok (inr r).

Definition oid_pos : res Z :=
  if nr =? 0 then Ok (-1)
  else
    start ← (if negb (nr =? 1) then loop (S (Z.to_nat rawsz)) interpolate_step 0 else Ok (inl 0));
    match start with
    | inr r => Ok r
    | inl mi => loop (S (Z.to_nat nr)) oid_search_step (0, nr, mi)
    end.
End OidPos.

Section BsearchHash.
(** [fanout_nbo] and [table] are addresses in [mem]. *)
Context (rawsz : Z) (hash mem : list Z) (table stride : Z).

Definition bsearch_step (st : Z * Z) : res (Z * Z + Z * Z) :=
  let '(lo, hi) := st in
  if lo <? hi then
    let mi := lo + (hi - lo) `div` 2 in
    cmp ← hashcmp mem (table + u64 (mi * stride)) hash 0 rawsz;
    if cmp =? 0 then Ok (inr (1, mi))
    else if 0 <? cmp then Ok (inl (lo, mi))
    else Ok (inl (mi + 1, hi))
  else Ok (inr (0, lo)).

(** The return value and [*result]. *)
Definition bsearch_hash (fanout_nbo : Z) : res (Z * Z) :=
  h ← rd hash 0;
  hi ← ntohl_at mem (fanout_nbo + 4 * h);
  lo ← (if h =? 0 then Ok 0 else ntohl_at mem (fanout_nbo + 4 * (h - 1)));
  loop (S (Z.to_nat (hi - lo))) bsearch_step (lo, hi).
End BsearchHash.

(** ** Bisection *)

Section Bisect.
Context {A : Type} (xs : list A) (c : A -> Z).

(** The sign of [c] does not decrease along the list. *)
Definition monotone : Prop := forall (i j : nat) x y, (i <= j)%nat -> xs !! i = Some x -> xs !! j = Some y -> (c y < 0 -> c x < 0) /\ (0 < c x -> 0 < c y).

Record bisect (lo hi : Z) : Prop := {
  bi_range : 0 <= lo <= hi /\ hi <= len xs;
  bi_low : forall i x, xs !! i = Some x -> Z.of_nat i < lo -> c x < 0;
  bi_high : forall i x, xs !! i = Some x -> hi <= Z.of_nat i -> 0 < c x;
}.

Lemma bisect_split lo hi mi x : monotone -> bisect lo hi -> lo <= mi < hi -> xs !! Z.to_nat mi = Some x ->
  (0 < c x -> bisect lo mi) /\ (c x < 0 -> bisect (mi + 1) hi).
Proof.
  intros Hm [Hr Hl Hh] Hmi Hx. split; intros Hc; constructor; (lia || (try done)).
  - intros i y Hy Hi. eapply (Hm (Z.to_nat mi) i x y); [lia|done|done|done].
  - intros i y Hy Hi. eapply (Hm i (Z.to_nat mi) y x); [lia|done|done|done].
Qed.

(** An empty interval: no cell equals the key. *)
Lemma bisect_none lo x : bisect lo lo -> x ∈ xs -> c x <> 0.
Proof. intros [_ Hl Hh] [i Hx]%list_elem_of_lookup. destruct (decide (Z.of_nat i < lo)); [specialize (Hl i x Hx); lia|specialize (Hh i x Hx); lia]. Qed.
End Bisect.

(** ** Comparing hashes *)

Lemma memcmp_strcmp a : forall b, length a = length b -> memcmp a b = strcmp a b.
Proof. induction a as [|x a IH]; intros [|y b] Hl; simplify_eq/=; [done|]. by rewrite IH. Qed.

Lemma memcmp_anti a b : length a = length b -> memcmp a b < 0 <-> 0 < memcmp b a.
Proof. intros Hl. rewrite !memcmp_strcmp by done. apply cmpok_anti. Qed.

Lemma memcmp_prefix p : forall a b, memcmp (p ++ a) (p ++ b) = memcmp a b.
Proof. induction p as [|x p IH]; intros a b; [done|]. cbn. by rewrite Z.eqb_refl. Qed.

Lemma hashcmp_at rawsz a i x ra b j y rb : (rawsz = 20 \/ rawsz = 32) -> 0 <= i -> 0 <= j -> len x = rawsz -> len y = rawsz ->
  drop (Z.to_nat i) a = x ++ ra -> drop (Z.to_nat j) b = y ++ rb -> hashcmp a i b j rawsz = Ok (memcmp x y).
Proof.
  intros Hr Hi Hj Hx Hy Ha Hb. unfold hashcmp.
  assert ((if rawsz =? GIT_MAX_RAWSZ then GIT_MAX_RAWSZ else GIT_SHA1_RAWSZ) = rawsz) as -> by (by destruct Hr as [->| ->]).
  assert (forall (l : list Z) k z r, 0 <= k -> len z = rawsz -> drop (Z.to_nat k) l = z ++ r -> rd_slice l k rawsz = Ok z) as Hrd.
  { intros l k z r Hk <- Hd. pose proof (f_equal length Hd) as Hl. rewrite length_drop, length_app in Hl.
    rewrite rd_slice_ok; [|done|apply len_nonneg|]; [unfold slice; rewrite Hd; unfold len; by rewrite Nat2Z.id, take_app_length|].
    unfold len. destruct z; cbn [length] in *; [|lia]. destruct Hr as [E|E]; rewrite len_nil in E; lia. }
  by rewrite (Hrd a i x ra), (Hrd b j y rb).
Qed.

(** ** Loads *)

Lemma ntohl_at_be mem i : is_bytes mem -> 0 <= i -> i + 4 <= len mem -> ntohl_at mem i = Ok (of_be (slice mem i 4)) /\ 0 <= of_be (slice mem i 4) < 2 ^ 32.
Proof.
  intros Hb Hi Hl. pose proof (get_be32_ok mem i Hb Hi Hl) as [Hg Hrange]. split; [|done]. unfold ntohl_at, ld32. unfold get_be32 in Hg.
  destruct (rd mem i) as [a|] eqn:Ea; [|done]. destruct (rd mem (i + 1)) as [b|] eqn:Eb; [|done]. destruct (rd mem (i + 2)) as [c|] eqn:Ec; [|done]. destruct (rd mem (i + 3)) as [d|] eqn:Ed; [|done].
  cbn [mbind res_bind] in *. rewrite <- Hg. f_equal.
  assert (forall k x, rd mem k = Ok x -> is_byte x) as Hby. { intros k x Hk. apply rd_inv in Hk as [_ Hk]. by eapply is_byte_lookup. }
  apply Hby in Ea, Eb, Ec, Ed. unfold is_byte in *. unfold htonl, default_swab32, u32.
  rewrite <- (Z.mod_small a (2 ^ 8)), <- (Z.mod_small b (2 ^ 8)), <- (Z.mod_small c (2 ^ 8)), <- (Z.mod_small d (2 ^ 8)) by done.
  change 0xff000000 with (Z.ones 8 <<. 24). change 0x00ff0000 with (Z.ones 8 <<. 16). change 0x0000ff00 with (Z.ones 8 <<. 8). change 0xff with (Z.ones 8).
  bitsolve.
Qed.

(** ** Tables of hashes *)

Section Table.
Context (rawsz : Z) (xs : list (list Z)).

(** The names are in order and of one size. *)
Record hashes_sorted : Prop := {
  hs_len : Forall (fun x => len x = rawsz) xs;
  hs_order : StronglySorted (fun x y => memcmp x y <= 0) xs;
}.

Lemma hashes_monotone key : hashes_sorted -> len key = rawsz -> monotone xs (fun x => memcmp x key).
Proof.
  intros [Hl Ho] Hk i j x y Hij Hx Hy. assert (length x = length key /\ length y = length key) as [Hlx Hly].
  { rewrite Forall_lookup in Hl. apply Hl in Hx, Hy. llia. }
  assert (memcmp x y <= 0) as Hxy.
  { destruct (decide (i = j)) as [->|Hne]; [rewrite Hx in Hy; injection Hy as ->; by rewrite (proj2 (memcmp_0 y y eq_refl))|]. exact (sorted_lookup _ _ i j x y Ho ltac:(lia) Hx Hy). }
  rewrite memcmp_strcmp in Hxy by congruence. rewrite (memcmp_strcmp x key), (memcmp_strcmp y key) by congruence.
  pose proof (cmp_lt_trans strcmp x y key). pose proof (cmpok_anti x y). pose proof (cmpok_anti y x). pose proof (cmpok_anti x key). pose proof (cmpok_anti key x). pose proof (cmpok_anti y key). pose proof (cmpok_anti key y).
  pose proof (cmp_lt_trans strcmp key x y). split; intros; lia.
Qed.

(** The number of names whose first byte is at most [b]. *)
Definition fan (b : Z) : Z := len (filter (fun x => hd 0 x <= b) xs).

Lemma memcmp_hd x y : len x = len y -> memcmp x y <= 0 -> hd 0 x <= hd 0 y.
Proof. destruct x as [|a x], y as [|b y]; try done. cbn. intros _. destruct (Z.eqb_spec a b), (Z.ltb_spec a b); lia. Qed.

Lemma fan_none b y ys : len y = rawsz -> Forall (fun x => len x = rawsz) ys -> Forall (fun x => memcmp y x <= 0) ys -> ~ hd 0 y <= b -> Forall (fun x => ~ hd 0 x <= b) ys.
Proof.
  intros Hy Hl Ho Hb. rewrite Forall_forall in *. intros x Hx Hxb. apply Hb. etrans; [|exact Hxb]. apply memcmp_hd; [by rewrite Hy, (Hl x Hx)|by apply Ho].
Qed.

Lemma fan_range b b' : b <= b' -> 0 <= fan b <= fan b' /\ fan b' <= len xs.
Proof.
  intros Hb. split; [split; [apply len_nonneg|]|unfold fan, len; pose proof (length_filter (fun x => hd 0 x <= b') xs); lia].
  unfold fan. induction xs as [|x ys IH]; [done|]. rewrite !filter_cons. destruct (decide (hd 0 x <= b)), (decide (hd 0 x <= b')); rewrite ?len_cons; lia.
Qed.

(** They come first. *)
Lemma fan_split b i x : hashes_sorted -> xs !! i = Some x -> Z.of_nat i < fan b <-> hd 0 x <= b.
Proof.
  intros [Hl Ho]. unfold fan. revert i. induction xs as [|y ys IH]; intros i Hx; [done|].
  apply Forall_cons in Hl as [Hly Hl]. apply StronglySorted_inv in Ho as [Ho Hy]. rewrite filter_cons. destruct i as [|i]; cbn in Hx.
  - injection Hx as ->. destruct (decide (hd 0 x <= b)) as [Hd|Hd]; [rewrite len_cons; pose proof (len_nonneg (filter (fun x => hd 0 x <= b) ys)); lia|].
    rewrite list_filter_none by (by eapply fan_none). rewrite (@len_nil (list Z)). lia.
  - specialize (IH Hl Ho i Hx). destruct (decide (hd 0 y <= b)) as [Hd|Hd]; [rewrite len_cons; lia|].
    pose proof (fan_none b y ys Hly Hl Hy Hd) as Hn. rewrite list_filter_none, (@len_nil (list Z)) by done. eapply Forall_lookup_1 in Hn; [|exact Hx]. cbn beta in Hn. lia.
Qed.
End Table.

(** ** The pack index search *)

Section Bsearch.
Context (rawsz : Z) (xs : list (list Z)) (mem : list Z) (fo table stride : Z).

(** The table at [table] and the counts at [fo]. *)
Record hash_table : Prop := {
  ht_rawsz : rawsz = 20 \/ rawsz = 32;
  ht_sorted : hashes_sorted rawsz xs;
  ht_rows : forall i x, xs !! i = Some x -> exists rest, drop (Z.to_nat (table + Z.of_nat i * stride)) mem = x ++ rest;
  ht_fan : forall b, is_byte b -> ntohl_at mem (fo + 4 * b) = Ok (fan xs b);
  ht_pos : 0 <= table /\ 0 <= stride < 2 ^ 16 /\ len xs < 2 ^ 32;
}.

Lemma bsearch_hash_ok key tail : hash_table -> len key = rawsz -> is_bytes key ->
  total (bsearch_hash rawsz (key ++ tail) mem table stride fo) (fun '(r, i) => 0 <= i /\
    ((r = 1 /\ xs !! Z.to_nat i = Some key) \/ (r = 0 /\ key ∉ xs /\ bisect xs (fun x => memcmp x key) i i))).
Proof.
  intros [Hraw Hsort Hrows Hfan (Htab & Hstr & Hlen)] Hk Hb. unfold bsearch_hash.
  destruct key as [|h key]; [rewrite len_nil in Hk; lia|]. change (rd ((h :: key) ++ tail) 0) with (Ok h). cbn [mbind res_bind].
  pose proof Hb as Hb'. apply Forall_cons in Hb' as [Hh _]. rewrite (Hfan h Hh). cbn [mbind res_bind].
  assert ((if h =? 0 then Ok 0 else ntohl_at mem (fo + 4 * (h - 1))) = Ok (fan xs (h - 1)) \/ (h = 0 /\ (if h =? 0 then Ok 0 else ntohl_at mem (fo + 4 * (h - 1))) = Ok 0)) as Hlo.
  { destruct (Z.eqb_spec h 0); [by right|left]. apply Hfan. unfold is_byte in *. lia. }
  pose proof (hashes_monotone rawsz xs (h :: key) Hsort Hk) as Hmono. set (c := fun x => memcmp x (h :: key)) in *.
  assert (forall i x, xs !! i = Some x -> (hd 0 x < h -> c x < 0) /\ (h < hd 0 x -> 0 < c x)) as Hhd.
  { intros i x Hx. pose proof (hs_len _ _ Hsort) as Hl. rewrite Forall_lookup in Hl. specialize (Hl i x Hx). destruct x as [|a x]; [rewrite len_nil in Hl; lia|].
    unfold c. cbn. destruct (Z.eqb_spec a h), (Z.ltb_spec a h); lia. }
  assert (exists lo, (if h =? 0 then Ok 0 else ntohl_at mem (fo + 4 * (h - 1))) = Ok lo /\ bisect xs c lo (fan xs h)) as (lo & -> & Hbi).
  { assert (forall i x, xs !! i = Some x -> fan xs h <= Z.of_nat i -> 0 < c x) as Hhigh.
    { intros i x Hx Hi. apply (Hhd i x Hx). pose proof (fan_split rawsz xs h i x Hsort Hx). lia. }
    destruct Hlo as [Hlo|[-> Hlo]]; rewrite Hlo; eexists; (split; [done|]); constructor; try done.
    - apply fan_range. lia.
    - intros i x Hx Hi. apply (Hhd i x Hx). pose proof (fan_split rawsz xs (h - 1) i x Hsort Hx). lia.
    - pose proof (fan_range xs 0 0). lia.
    - intros i x Hx Hi. lia. }
  cbn [mbind res_bind]. clear Hlo.
  apply (wp_loop no_fault (fun '(lo, hi) => bisect xs c lo hi) (fun '(lo, hi) => Z.to_nat (hi - lo))); [|done|lia].
  clear lo Hbi. intros [lo hi] Hbi. unfold bsearch_step. destruct (bi_range _ _ _ _ Hbi) as [Hr1 Hr2]. destruct (Z.ltb_spec lo hi) as [Hlt|Hge].
  - set (mi := lo + (hi - lo) `div` 2). assert (lo <= mi < hi) as Hmi by (unfold mi; dlia). clearbody mi.
    destruct (lookup_lt_is_Some_2 xs (Z.to_nat mi)) as [x Hx]; [llia|]. destruct (Hrows _ _ Hx) as [rest Hrest]. rewrite Z2Nat.id in Hrest by lia.
    pose proof (hs_len _ _ Hsort) as Hl. rewrite Forall_lookup in Hl. specialize (Hl _ _ Hx).
    rewrite u64_small by nia. rewrite (hashcmp_at rawsz mem _ x rest _ 0 (h :: key) tail) by (done || nia). cbn [mbind res_bind]. fold (c x).
    destruct (bisect_split xs c lo hi mi x Hmono Hbi Hmi Hx) as [Hup Hdown]. destruct (Z.eqb_spec (c x) 0) as [E|E].
    + apply wp_ret. split; [lia|]. left. split; [done|]. rewrite Hx. f_equal. apply memcmp_0; [unfold len in *; lia|done].
    + destruct (Z.ltb_spec 0 (c x)); apply wp_ret; (split; [apply Hup || apply Hdown; lia|lia]).
  - apply wp_ret. split; [lia|]. right. replace hi with lo in Hbi by lia. split_and!; [done| |done].
    intros Hin. apply (bisect_none xs c lo (h :: key) Hbi Hin). unfold c. by apply memcmp_0.
Qed.
End Bsearch.

(** ** The interpolation search *)

(** The value of the two bytes at [ofs]. *)
Definition pair_at (a : list Z) (ofs : Z) : Z := 256 * (a !!! Z.to_nat ofs) + a !!! Z.to_nat (ofs + 1).

Lemma take2_ok o ofs : is_bytes (oid_hash o) -> 0 <= ofs -> ofs + 1 < len (oid_hash o) ->
  take2 o ofs = Ok (pair_at (oid_hash o) ofs) /\ 0 <= pair_at (oid_hash o) ofs < 2 ^ 16.
Proof.
  intros Hb Ho Hl. unfold take2, pair_at. rewrite !rd_ok by lia. cbn [mbind res_bind].
  pose proof (is_byte_lookup_total (oid_hash o) (Z.to_nat ofs) Hb ltac:(llia)) as H1. pose proof (is_byte_lookup_total (oid_hash o) (Z.to_nat (ofs + 1)) Hb ltac:(llia)) as H2.
  unfold is_byte in *. split; [|lia]. f_equal. rewrite lor_shiftl_add by lia. rewrite u32_small by lia. lia.
Qed.

Lemma pair_at_cmp a b ofs : is_bytes a -> is_bytes b -> length a = length b -> 0 <= ofs -> ofs + 1 < len a -> take (Z.to_nat ofs) a = take (Z.to_nat ofs) b ->
  (pair_at a ofs < pair_at b ofs -> memcmp a b < 0) /\ (pair_at a ofs = pair_at b ofs -> take (Z.to_nat (ofs + 2)) a = take (Z.to_nat (ofs + 2)) b).
Proof.
  intros Ha Hb Hl Ho Hlen Ht.
  assert (forall l : list Z, length l = length a -> exists x y r, l = take (Z.to_nat ofs) l ++ x :: y :: r /\ l !!! Z.to_nat ofs = x /\ l !!! Z.to_nat (ofs + 1) = y) as Hcut.
  { intros l Hll. destruct (lookup_lt_is_Some_2 l (Z.to_nat ofs)) as [x Hx]; [llia|]. destruct (lookup_lt_is_Some_2 l (Z.to_nat (ofs + 1))) as [y Hy]; [llia|].
    exists x, y, (drop (Z.to_nat (ofs + 2)) l). split_and!; [|by apply list_lookup_total_correct..].
    rewrite <- (take_drop (Z.to_nat ofs) l) at 1. f_equal. rewrite (drop_S _ _ _ Hx). f_equal. replace (S (Z.to_nat ofs)) with (Z.to_nat (ofs + 1)) by lia.
    rewrite (drop_S _ _ _ Hy). f_equal. f_equal. lia. }
  destruct (Hcut a eq_refl) as (x1 & x2 & ra & Ea & Hx1 & Hx2). destruct (Hcut b (eq_sym Hl)) as (y1 & y2 & rb & Eb & Hy1 & Hy2).
  unfold pair_at. rewrite Hx1, Hx2, Hy1, Hy2. rewrite <- Ht in Eb. set (p := take (Z.to_nat ofs) a) in *. assert (length p = Z.to_nat ofs) as Hp by (unfold p; rewrite length_take; llia).
  clearbody p. subst a b. rewrite !Forall_app, !Forall_cons in Ha, Hb. destruct Ha as (_ & Hbx1 & Hbx2 & _), Hb as (_ & Hby1 & Hby2 & _). unfold is_byte in *. split; intros Hv.
  - rewrite memcmp_prefix. cbn. destruct (Z.eqb_spec x1 y1), (Z.ltb_spec x1 y1), (Z.eqb_spec x2 y2), (Z.ltb_spec x2 y2); lia.
  - assert (x1 = y1 /\ x2 = y2) as [-> ->] by lia. replace (Z.to_nat (ofs + 2)) with (length p + 2)%nat by lia. by rewrite !take_app_add.
Qed.

Section OidPosOk.
Context (rawsz : Z) (oid : object_id) (ts : list object_id).
Abbreviation key := (oid_hash oid).
Abbreviation c := (fun x : object_id => memcmp (oid_hash x) (oid_hash oid)).
Context (Hraw : rawsz = 20 \/ rawsz = 32) (Hkl : len key = 32) (Hkb : is_bytes key).
Context (Htl : Forall (fun x => len (oid_hash x) = 32 /\ is_bytes (oid_hash x)) ts) (Hsort : StronglySorted (fun x y => memcmp (oid_hash x) (oid_hash y) <= 0) ts).

Lemma oids_monotone : monotone ts c.
Proof using Hkl Htl Hsort.
  assert (hashes_sorted 32 (oid_hash <$> ts)) as Hh.
  { constructor; [rewrite Forall_fmap; eapply Forall_impl; [exact Htl|]; by intros x []|]. by apply sorted_fmap. }
  intros i j x y Hij Hx Hy. apply (hashes_monotone 32 (oid_hash <$> ts) key Hh Hkl i j); [done|by rewrite list_lookup_fmap, Hx|by rewrite list_lookup_fmap, Hy].
Qed.

Lemma oidcmp_ok x : x ∈ ts -> oidcmp x oid = Ok (c x).
Proof using Hkl Htl.
  intros Hx. rewrite Forall_forall in Htl. destruct (Htl x Hx) as [Hl _]. unfold oidcmp. change GIT_MAX_RAWSZ with 32.
  rewrite <- Hl at 1. pose proof (rd_slice_head (oid_hash x) [] (len (oid_hash x)) eq_refl) as E1. rewrite app_nil_r in E1. rewrite E1. cbn [mbind res_bind].
  pose proof (rd_slice_head key [] 32 (eq_sym Hkl)) as E2. rewrite app_nil_r in E2. by rewrite E2.
Qed.

(** The answer: a cell that holds the name, or the place where it would be inserted. *)
Definition pos_answer (r : Z) : Prop :=
  (0 <= r /\ exists x, ts !! Z.to_nat r = Some x /\ oid_hash x = key) \/ (r < 0 /\ bisect ts c (-1 - r) (-1 - r)).

Lemma insert_pos_ok pos : bisect ts c pos pos -> len ts < 2 ^ 31 -> exists r, index_pos_to_insert_pos pos = Ok r /\ pos_answer r.
Proof.
  intros Hb Hn. destruct (bi_range _ _ _ _ Hb) as [H1 H2]. unfold index_pos_to_insert_pos. destruct (Z.ltb_spec (2 ^ 31 - 1) pos); [lia|]. rewrite to_int_small by lia.
  eexists. split; [done|]. right. split; [lia|]. by replace (-1 - (-1 - pos)) with pos by lia.
Qed.

Lemma oid_search_ok mi : len ts < 2 ^ 31 -> 0 <= mi < len ts -> total (loop (S (Z.to_nat (len ts))) (oid_search_step oid ts) (0, len ts, mi)) pos_answer.
Proof using All.
  intros Hn Hmi. apply (wp_loop no_fault (fun '(lo, hi, mi) => bisect ts c lo hi /\ lo <= mi < hi) (fun '(lo, hi, mi) => Z.to_nat (hi - lo))).
  - clear mi Hmi. intros [[lo hi] mi] [Hbi Hmi]. destruct (bi_range _ _ _ _ Hbi) as [Hr1 Hr2]. unfold oid_search_step.
    destruct (lookup_lt_is_Some_2 ts (Z.to_nat mi)) as [x Hx]; [llia|]. rewrite (rd_Some ts mi x) by (done || lia). cbn [mbind res_bind].
    rewrite oidcmp_ok by (by eapply list_elem_of_lookup_2). cbn [mbind res_bind]. cbv zeta.
    destruct (bisect_split ts c lo hi mi x oids_monotone Hbi Hmi Hx) as [Hup Hdown]. destruct (Z.eqb_spec (c x) 0) as [E|E].
    + apply wp_ret. rewrite to_int_small by lia. left. split; [lia|]. exists x. split; [done|]. apply memcmp_0; [|done].
      rewrite Forall_lookup in Htl. destruct (Htl _ _ Hx) as [Hl _]. llia.
    + destruct (Z.ltb_spec 0 (c x)) as [Hc|Hc].
      * destruct (Z.ltb_spec lo mi) as [Hlt|Hge]; [apply wp_ret; split; [split; [by apply Hup|dlia]|lia]|].
        replace mi with lo in * by lia. destruct (insert_pos_ok lo (Hup Hc) Hn) as (r & -> & Hr). done.
      * assert (c x < 0) as Hc' by lia. destruct (Z.ltb_spec (mi + 1) hi) as [Hlt|Hge]; [apply wp_ret; split; [split; [by apply Hdown|dlia]|lia]|].
        replace hi with (mi + 1) in * by lia. destruct (insert_pos_ok (mi + 1) (Hdown Hc') Hn) as (r & -> & Hr). done.
  - split; [|done]. constructor; [pose proof (len_nonneg ts); lia|lia|]. intros i x Hx Hi. apply lookup_lt_Some in Hx. llia.
  - lia.
Qed.

(** The interpolation starts inside of the table, or has the answer already. *)
Lemma interpolate_ok : 1 < len ts -> len ts < 2 ^ 31 ->
  total (loop (S (Z.to_nat rawsz)) (interpolate_step rawsz oid ts (len ts)) 0)
    (fun st => match st with inl mi => 0 <= mi < len ts | inr r => pos_answer r end).
Proof using All.
  intros H1 Hn. destruct (lookup_lt_is_Some_2 ts (Z.to_nat 0)) as [a Ha]; [llia|]. destruct (lookup_lt_is_Some_2 ts (Z.to_nat (len ts - 1))) as [z Hz]; [llia|].
  pose proof Htl as Htl'. rewrite Forall_lookup in Htl'. destruct (Htl' _ _ Ha) as [Hal Hab], (Htl' _ _ Hz) as [Hzl Hzb].
  assert (memcmp (oid_hash a) (oid_hash z) <= 0) as Haz by (exact (sorted_lookup _ _ (Z.to_nat 0) (Z.to_nat (len ts - 1)) _ _ Hsort ltac:(lia) Ha Hz)).
  apply (wp_loop no_fault (fun ofs => 0 <= ofs /\ take (Z.to_nat ofs) (oid_hash a) = take (Z.to_nat ofs) key /\ take (Z.to_nat ofs) (oid_hash z) = take (Z.to_nat ofs) key) (fun ofs => Z.to_nat (rawsz - ofs))); [|by split_and!|lia].
  intros ofs (Ho & Hta & Htz). unfold interpolate_step. rewrite u64_small by lia. destruct (Z.ltb_spec ofs (rawsz - 2)) as [Hlt|Hge]; [|apply wp_ret; lia].
  rewrite (rd_Some ts 0 a) by (done || lia). cbn [mbind res_bind]. destruct (take2_ok a ofs Hab Ho ltac:(lia)) as [-> Hva]. cbn [mbind res_bind].
  rewrite (rd_Some ts (len ts - 1) z) by (done || lia). cbn [mbind res_bind]. destruct (take2_ok z ofs Hzb Ho ltac:(lia)) as [-> Hvz]. cbn [mbind res_bind].
  destruct (take2_ok oid ofs Hkb Ho ltac:(lia)) as [-> Hvk]. cbn [mbind res_bind].
  assert (length (oid_hash a) = length key /\ length (oid_hash z) = length key) as [Hla Hlz] by llia.
  destruct (pair_at_cmp key (oid_hash a) ofs Hkb Hab (eq_sym Hla) Ho ltac:(lia) (eq_sym Hta)) as [Hka _].
  destruct (pair_at_cmp (oid_hash z) key ofs Hzb Hkb Hlz Ho ltac:(lia) Htz) as [Hzk Hzk2].
  destruct (pair_at_cmp (oid_hash a) key ofs Hab Hkb Hla Ho ltac:(lia) Hta) as [_ Hak2].
  destruct (pair_at_cmp (oid_hash z) (oid_hash a) ofs Hzb Hab ltac:(congruence) Ho ltac:(lia) ltac:(congruence)) as [Hza _].
  pose proof oids_monotone as Hmono.
  destruct (Z.ltb_spec (pair_at key ofs) (pair_at (oid_hash a) ofs)) as [L1|L1].
  { apply wp_ret. right. split; [lia|]. change (-1 - -1) with 0. apply Hka, memcmp_anti in L1; [|congruence]. constructor; [lia|lia|]. intros i x Hx Hi.
    eapply (Hmono (Z.to_nat 0) i a x); [lia|done|done|done]. }
  destruct (Z.ltb_spec (pair_at (oid_hash z) ofs) (pair_at key ofs)) as [L2|L2].
  { assert (bisect ts c (len ts) (len ts)) as Hb.
    { constructor; [lia| |intros i x Hx Hi; apply lookup_lt_Some in Hx; llia]. intros i x Hx Hi. apply Hzk in L2. pose proof (lookup_lt_Some _ _ _ Hx).
      eapply (Hmono i (Z.to_nat (len ts - 1)) x z); [llia|done|done|done]. }
    destruct (insert_pos_ok _ Hb Hn) as (r & -> & Hr). done. }
  destruct (Z.eqb_spec (pair_at (oid_hash a) ofs) (pair_at (oid_hash z) ofs)) as [E|E]; cbn [negb].
  - apply wp_ret. split; [|lia]. split_and!; [lia|apply Hak2; lia|apply Hzk2; lia].
  - assert (pair_at (oid_hash a) ofs < pair_at (oid_hash z) ofs) as Hlt2.
    { destruct (Z.ltb_spec (pair_at (oid_hash z) ofs) (pair_at (oid_hash a) ofs)) as [L3|L3]; [|lia]. apply Hza, memcmp_anti in L3; [lia|congruence]. }
    set (va := pair_at (oid_hash a) ofs) in *. set (vz := pair_at (oid_hash z) ofs) in *. set (vk := pair_at key ofs) in *. clearbody va vz vk.
    rewrite u64_small by nia. assert (0 <= ((len ts - 1) * (vk - va)) `div` (vz - va) < len ts) as Hmi.
    { split; [apply Z.div_pos; nia|]. assert (((len ts - 1) * (vk - va)) `div` (vz - va) <= len ts - 1) by (apply Z.div_le_upper_bound; nia). lia. }
    destruct (Z.leb_spec 0 (((len ts - 1) * (vk - va)) `div` (vz - va))); [|lia]. destruct (Z.ltb_spec (((len ts - 1) * (vk - va)) `div` (vz - va)) (len ts)); [|lia]. done.
Qed.

Lemma oid_pos_ok : len ts < 2 ^ 31 -> total (oid_pos rawsz oid ts (len ts)) pos_answer.
Proof using All.
  intros Hn. unfold oid_pos. pose proof (len_nonneg ts). destruct (Z.eqb_spec (len ts) 0) as [E|E].
  - right. split; [lia|]. change (-1 - -1) with 0. constructor; [lia|lia|]. intros i x Hx. apply lookup_lt_Some in Hx. llia.
  - destruct (Z.eqb_spec (len ts) 1); cbn [negb].
    + cbn [mbind res_bind]. apply oid_search_ok; lia.
    + apply wp_bind. eapply wp_mono; [apply interpolate_ok; lia|]. intros [mi|r]; [|done]. intros Hmi. by apply oid_search_ok.
Qed.
End OidPosOk.

(** C24: [oid_pos] stays inside of a sorted table of fewer than [2 ^ 31] names, ends, never fails its assertion, and
    returns the position of a cell that holds the name, or [-1 - i] where [i] is the place
    where it would have to be inserted: the names before [i] are smaller and
    those from [i] on are greater. *)
Theorem oid_pos_finds rawsz oid ts : rawsz = 20 \/ rawsz = 32 -> len (oid_hash oid) = 32 -> is_bytes (oid_hash oid) ->
  Forall (fun x => len (oid_hash x) = 32 /\ is_bytes (oid_hash x)) ts ->
  StronglySorted (fun x y => memcmp (oid_hash x) (oid_hash y) <= 0) ts -> len ts < 2 ^ 31 ->
  total (oid_pos rawsz oid ts (len ts)) (fun r =>
    (0 <= r /\ exists x, ts !! Z.to_nat r = Some x /\ oid_hash x = oid_hash oid) \/
    (r < 0 /\ -1 - r <= len ts /\ forall i x, ts !! i = Some x ->
      (Z.of_nat i < -1 - r -> memcmp (oid_hash x) (oid_hash oid) < 0) /\ (-1 - r <= Z.of_nat i -> 0 < memcmp (oid_hash x) (oid_hash oid)))).
Proof.
  intros Hraw Hkl Hkb Htl Hs Hn. eapply wp_mono; [by apply oid_pos_ok|]. intros r [Hr|[Hr [[Hr1 Hr2] Hlo Hhi]]]; [by left|]. right. split_and!; [done|done|].
  intros i x Hx. split; intros Hi; [by eapply Hlo|by eapply Hhi].
Qed.

Lemma oid_pos_finds_witness : let t := (fun b => mkOid (b :: replicate 31 7) 1) in
  total (oid_pos 20 (t 5) [t 1; t 2; t 5; t 200] 4) (fun r =>
    (0 <= r /\ exists x, [t 1; t 2; t 5; t 200] !! Z.to_nat r = Some x /\ oid_hash x = oid_hash (t 5)) \/
    (r < 0 /\ -1 - r <= 4 /\ forall i x, [t 1; t 2; t 5; t 200] !! i = Some x ->
      (Z.of_nat i < -1 - r -> memcmp (oid_hash x) (oid_hash (t 5)) < 0) /\ (-1 - r <= Z.of_nat i -> 0 < memcmp (oid_hash x) (oid_hash (t 5))))).
Proof.
  intros t. apply (oid_pos_finds 20 (t 5) [t 1; t 2; t 5; t 200]); try done; [by left|by repeat constructor|by repeat constructor|].
  repeat (apply SSorted_cons; [|by repeat constructor]). apply SSorted_nil.
Defined.
