(* ===== verification/PackIdx.v ===== *)
(** * Reading pack indexes: [packfile.c]

    The index of a pack file maps object names to offsets: a table of 256 counts,
    the sorted names, and the offsets, in one of two formats.  The file is mapped
    into memory; [load_idx] checks its counts and its size, and the accessors rely on
    that.  The theorem of this file is that this is enough: whatever bytes the file
    holds, after [load_idx] has accepted it no look-up reads outside of the map. *)

From stdpp Require Import prelude numbers list.
From S2P Require Import Prelude PatchDelta Alloc CString Bswap Hex HashLookup.

(** The members of [struct packed_git] that this code uses. *)
Record packed_git := mkPack {
  index_data : option (list Z);
  index_size : Z;
  num_objects : Z;
  crc_offset : Z;
  index_version : Z;
  pack_size : Z;
}.

Definition PACK_IDX_SIGNATURE : Z := 0xff744f63.
Definition sizeof_off_t : Z := 8.

(** The conversion of a [uint64_t] to [off_t]. *)
Definition to_off_t (x : Z) : Z := if x <? 2 ^ 63 then x else x - 2 ^ 64.

Section Code.
(** [p->repo->hash_algo]: its [rawsz] and its number. *)
Context (hashsz algo : Z).

(** The check of the table of counts at [index]; [None] is an error. *)
Definition monotone_step (map : list Z) (index : Z) (st : Z * Z) : res (Z * Z + option Z) :=
  let '(i, nr) := st in
  if i <? 256 then
    n ← ntohl_at map (index + 4 * i);
    if n <? nr then Ok (inr None) else Ok (inl (i + 1, n))
  else Ok (inr (Some nr)).

Definition load_idx (idx_map : option (list Z)) (idx_size : Z) (p : packed_git) : res (Z * packed_git) :=
  if idx_size <? 4 * 256 + hashsz + hashsz then Ok (-1, p)
  else
    match idx_map with
    | None => Ok (-1, p)
    | Some map =>
        sig ← ld32 map 0;
        version ← (if sig =? htonl PACK_IDX_SIGNATURE then
                     v ← ntohl_at map 4; Ok (if (v <? 2) || (2 <? v) then None else Some v)
                   else Ok (Some 1));
        match version with
        | None => Ok (-1, p)
        | Some version =>
            let index := if 1 <? version then 4 * 2 else 0 in
            o ← loop 257 (monotone_step map index) (0, 0);
            match o with
            | None => Ok (-1, p)
            | Some nr =>
                crc ← (if version =? 1 then
                         t ← st_mult nr (hashsz + 4);
                         size ← st_add (4 * 256 + hashsz + hashsz) t;
                         Ok (if negb (idx_size =? size) then None else Some (crc_offset p))
                       else if version =? 2 then
                         t ← st_mult nr (hashsz + 4 + 4);
                         min_size ← st_add (8 + 4 * 256 + hashsz + hashsz) t;
                         max_size ← (if tr nr then t ← st_mult (nr - 1) 8; st_add min_size t else Ok min_size);
                         if (idx_size <? min_size) || (max_size <? idx_size) then Ok None
                         else if negb (idx_size =? min_size) && (sizeof_off_t <=? 4) then Ok None
                         else t ← st_mult nr hashsz; c ← st_add (8 + 4 * 256) t; Ok (Some c)
                       else Ok (Some (crc_offset p)));
                match crc with
                | None => Ok (-1, p)
                | Some crc => Ok (0, mkPack (Some map) idx_size nr crc version (pack_size p))
                end
            end
        end
    end.

(** [file] is the contents of the index file, [None] when it cannot be opened. *)
Definition check_packed_git_idx (file : option (list Z)) (p : packed_git) : res (Z * packed_git) :=
  match file with
  | None => Ok (-1, p)
  | Some map => if len map <? 4 * 256 + hashsz + hashsz then Ok (-1, p) else load_idx (Some map) (len map) p
  end.

Definition open_pack_index (file : option (list Z)) (p : packed_git) : res (Z * packed_git) :=
  match index_data p with Some _ => Ok (0, p) | None => check_packed_git_idx file p end.

Definition get_pack_fanout (file : option (list Z)) (p : packed_git) (value : Z) : res (Z * packed_git) :=
  '(ret, p) ← (match index_data p with Some _ => Ok (0, p) | None => open_pack_index file p end);
  if tr ret then Ok (0, p)
  else
    match index_data p with
    | None => Fault UB
    | Some map => n ← ntohl_at map ((if 1 <? index_version p then 4 * 2 else 0) + 4 * value); Ok (n, p)
    end.

(** The return value and [*result]. *)
Definition bsearch_pack (oid : object_id) (p : packed_git) : res (Z * Z) :=
  match index_data p with
  | None => Fault BugHit
  | Some map =>
      if index_version p =? 1
      then bsearch_hash hashsz (oid_hash oid) map (4 * 256 + 4) (hashsz + 4) 0
      else bsearch_hash hashsz (oid_hash oid) map (4 * 256 + 8) hashsz 8
  end.

(** [oidread]: the object name at an address; the rest of the array is cleared. *)
Definition oidread (map : list Z) (i : Z) : res object_id :=
  h ← rd_slice map i hashsz;
  a ← hash_algo_by_ptr algo;
  Ok (mkOid (h ++ replicate (Z.to_nat (GIT_MAX_RAWSZ - hashsz)) 0) a).

(** The return value and, when it is 0, [*oid]. *)
Definition nth_packed_object_id (file : option (list Z)) (p : packed_git) (n : Z) : res (Z * option object_id * packed_git) :=
  '(ret, p) ← (match index_data p with Some _ => Ok (0, p) | None => open_pack_index file p end);
  if tr ret then Ok (-1, None, p)
  else
    match index_data p with
    | None => Fault UB
    | Some map =>
        if num_objects p <=? n then Ok (-1, None, p)
        else if index_version p =? 1 then
          t ← st_mult (hashsz + 4) n; t ← st_add t 4;
          oid ← oidread map (4 * 256 + t); Ok (0, Some oid, p)
        else
          t ← st_mult hashsz n;
          oid ← oidread map (4 * 256 + 8 + t); Ok (0, Some oid, p)
    end.

(** [ptr] is relative to the start of the map. *)
Definition check_pack_index_ptr (p : packed_git) (ptr : Z) : res unit :=
  if ptr <? 0 then Fault Died
  else if index_size p - 8 <=? ptr then Fault Died
  else Ok tt.

Definition nth_packed_object_offset (p : packed_git) (n : Z) : res Z :=
  match index_data p with
  | None => Fault UB
  | Some map =>
      if index_version p =? 1 then t ← st_mult (hashsz + 4) n; ntohl_at map (4 * 256 + t)
      else
        t ← st_mult (num_objects p) (hashsz + 4); t ← st_add 8 t;
        let index := 4 * 256 + t in
        t ← st_mult 4 n;
        off ← ntohl_at map (index + t);
        if negb (tr (off &. 0x80000000)) then Ok off
        else
          a ← st_mult (num_objects p) 4; b ← st_mult (off &. 0x7fffffff) 8; t ← st_add a b;
          let index := index + t in
          _ ← check_pack_index_ptr p index;
          x ← get_be64 map index; Ok (to_off_t x)
  end.

Definition find_pack_entry_one (file : option (list Z)) (oid : object_id) (p : packed_git) : res (Z * packed_git) :=
  '(ret, p) ← (match index_data p with Some _ => Ok (0, p) | None => open_pack_index file p end);
  if tr ret then Ok (0, p)
  else
    '(found, result) ← bsearch_pack oid p;
    if tr found then off ← nth_packed_object_offset p result; Ok (off, p) else Ok (0, p).
End Code.

(** ** What [load_idx] guarantees *)

Section Safety.
Context (hashsz algo : Z) (Hsz : hashsz = 20 \/ hashsz = 32).

(** The address of the counts. *)
Definition fan_at (version : Z) : Z := if version =? 1 then 0 else 8.

Record idx_wf (p : packed_git) (map : list Z) : Prop := {
  iw_map : index_data p = Some map;
  iw_bytes : is_bytes map;
  iw_size : index_size p = len map /\ len map < 2 ^ 62;
  iw_version : index_version p = 1 \/ index_version p = 2;
  iw_num : 0 <= num_objects p < 2 ^ 32;
  iw_fan : forall b, is_byte b -> exists n, ntohl_at map (fan_at (index_version p) + 4 * b) = Ok n /\ 0 <= n <= num_objects p;
  iw_len1 : index_version p = 1 -> len map = 1024 + hashsz + hashsz + num_objects p * (hashsz + 4);
  iw_len2 : index_version p = 2 -> 1032 + hashsz + hashsz + num_objects p * (hashsz + 8) <= len map;
}.

Lemma monotone_loop map index : is_bytes map -> 0 <= index -> index + 1024 <= len map ->
  total (loop 257 (monotone_step map index) (0, 0)) (fun o => match o with
    | Some nr => 0 <= nr < 2 ^ 32 /\ forall b, is_byte b -> exists n, ntohl_at map (index + 4 * b) = Ok n /\ 0 <= n <= nr
    | None => True end).
Proof.
  intros Hb Hi Hl. apply (wp_loop no_fault (fun '(i, nr) => 0 <= i <= 256 /\ 0 <= nr < 2 ^ 32 /\ forall b, 0 <= b < i -> exists n, ntohl_at map (index + 4 * b) = Ok n /\ 0 <= n <= nr) (fun '(i, nr) => Z.to_nat (256 - i))).
  - intros [i nr] (Hir & Hnr & Hfan). unfold monotone_step. destruct (Z.ltb_spec i 256) as [Hlt|Hge].
    + destruct (ntohl_at_be map (index + 4 * i) Hb ltac:(lia) ltac:(lia)) as [E Hrange]. rewrite E. cbn [mbind res_bind]. set (n := of_be _) in *.
      destruct (Z.ltb_spec n nr) as [|Hge]; [done|]. apply wp_ret. split; [|lia]. split_and!; [lia|lia|lia|lia|].
      intros b Hbi. destruct (decide (b = i)) as [->|]; [exists n; split; [done|lia]|]. destruct (Hfan b ltac:(lia)) as (m & Em & Hm). exists m. split; [done|lia].
    + apply wp_ret. split; [lia|]. intros b Hbb. apply Hfan. unfold is_byte in Hbb. lia.
  - split_and!; lia.
  - lia.
Qed.

Lemma load_idx_wf map p : is_bytes map -> len map < 2 ^ 62 ->
  total (load_idx hashsz (Some map) (len map) p) (fun '(r, p') => (r = 0 /\ idx_wf p' map /\ pack_size p' = pack_size p) \/ (r = -1 /\ p' = p)).
Proof using Hsz.
  intros Hb Hl. unfold load_idx. destruct (Z.ltb_spec (len map) (4 * 256 + hashsz + hashsz)) as [Hlt|Hge]; [by right|].
  destruct (ntohl_at_be map 0 Hb ltac:(lia) ltac:(lia)) as [E0 _]. unfold ntohl_at in E0. destruct (ld32 map 0) as [sig|]; [|done]. cbn [mbind res_bind]. clear E0.
  destruct (ntohl_at_be map 4 Hb ltac:(lia) ltac:(lia)) as [E4 _]. rewrite E4. cbn [mbind res_bind]. set (v := of_be (slice map 4 4)).
  set (o := if sig =? _ then Ok (if (v <? 2) || (2 <? v) then None else Some v) else Ok (Some 1)).
  assert (o = Ok None \/ exists version, o = Ok (Some version) /\ (version = 1 \/ version = 2)) as [->|(version & -> & Hv)].
  { unfold o. destruct (_ =? _); [|right; exists 1; by auto]. destruct (Z.ltb_spec v 2); [by left|]. destruct (Z.ltb_spec 2 v); [by left|]. right. exists v. split; [done|lia]. }
  { by right. }
  cbn [mbind res_bind]. apply wp_bind.
  set (index := if 1 <? version then 4 * 2 else 0). assert (index = fan_at version) as Hindex by (by destruct Hv as [->| ->]).
  assert (index = 0 \/ index = 8) as Hir by (destruct Hv as [->| ->]; by auto). clearbody index.
  eapply wp_mono; [apply monotone_loop; [done| |]; lia|]. intros [nr|]; [|by right]. intros [Hnr Hfan]. rewrite Hindex in Hfan.
  destruct Hv as [->| ->]; cbn [Z.eqb Pos.eqb].
  - rewrite st_mult_ok by nia. cbn [mbind res_bind]. rewrite st_add_ok by nia. cbn [mbind res_bind]. destruct (Z.eqb_spec (len map) (4 * 256 + hashsz + hashsz + nr * (hashsz + 4))) as [E|E]; cbn [negb mbind res_bind]; [|by right].
    left. split_and!; [done| |done]. constructor; cbn [index_data index_size num_objects index_version]; try done; by left.
  - rewrite (st_mult_ok nr (hashsz + 4 + 4)) by nia. cbn [mbind res_bind]. rewrite st_add_ok by nia. cbn [mbind res_bind].
    set (min_size := 8 + 4 * 256 + hashsz + hashsz + nr * (hashsz + 4 + 4)).
    assert (exists max_size, (if tr nr then t ← st_mult (nr - 1) 8; st_add min_size t else Ok min_size) = Ok max_size) as [max_size ->].
    { destruct (tr nr) eqn:Et; [|by eexists]. apply tr_true in Et. rewrite st_mult_ok by lia. cbn [mbind res_bind]. rewrite st_add_ok by (unfold min_size; nia). by eexists. }
    cbn [mbind res_bind]. destruct (Z.ltb_spec (len map) min_size); [by right|]. destruct (max_size <? len map); [by right|]. cbn [orb]. rewrite andb_false_r.
    rewrite st_mult_ok by nia. cbn [mbind res_bind]. rewrite st_add_ok by nia. cbn [mbind res_bind].
    left. split_and!; [done| |done]. constructor; cbn [index_data index_size num_objects index_version]; try done; [by right|intros _; unfold min_size in *; lia].
Qed.

(** The search reads inside of the map. *)
Lemma bsearch_hash_safe hash map table stride fo num : is_bytes hash -> hashsz <= len hash ->
  (forall b, is_byte b -> exists n, ntohl_at map (fo + 4 * b) = Ok n /\ 0 <= n <= num) ->
  0 <= table -> 0 <= stride < 2 ^ 16 -> num < 2 ^ 32 -> (forall i, 0 <= i < num -> table + i * stride + hashsz <= len map) ->
  total (bsearch_hash hashsz hash map table stride fo) (fun '(r, i) => (r = 0 \/ r = 1) /\ (r = 1 -> 0 <= i < num)).
Proof using Hsz.
  intros Hb Hlen Hfan Ht Hst Hnum Hin. unfold bsearch_hash. destruct hash as [|h hash]; [rewrite len_nil in Hlen; lia|]. change (rd (h :: hash) 0) with (Ok h). cbn [mbind res_bind].
  apply Forall_cons in Hb as [Hh _]. destruct (Hfan h Hh) as (hi & -> & Hhi). cbn [mbind res_bind].
  assert (exists lo, (if h =? 0 then Ok 0 else ntohl_at map (fo + 4 * (h - 1))) = Ok lo /\ 0 <= lo) as (lo & -> & Hlo).
  { destruct (Z.eqb_spec h 0); [by exists 0|]. destruct (Hfan (h - 1)) as (lo & E & ?); [unfold is_byte in *; lia|]. exists lo. split; [done|lia]. }
  cbn [mbind res_bind]. apply (wp_loop no_fault (fun '(lo, hi) => 0 <= lo /\ hi <= num) (fun '(lo, hi) => Z.to_nat (hi - lo))); [|lia|lia].
  clear lo hi Hlo Hhi. intros [lo hi] [Hlo Hhi]. unfold bsearch_step. destruct (Z.ltb_spec lo hi); [|apply wp_ret; split; [by left|lia]].
  set (mi := lo + (hi - lo) `div` 2). assert (lo <= mi < hi) as Hmi by (unfold mi; dlia). clearbody mi. specialize (Hin mi ltac:(lia)).
  rewrite u64_small by nia. unfold hashcmp.
  assert ((if hashsz =? GIT_MAX_RAWSZ then GIT_MAX_RAWSZ else GIT_SHA1_RAWSZ) = hashsz) as -> by (by destruct Hsz as [->| ->]).
  rewrite !rd_slice_ok by nia. cbn [mbind res_bind]. destruct (_ =? 0); [apply wp_ret; split; [by right|lia]|]. destruct (0 <? _); apply wp_ret; (split; [|lia]); lia.
Qed.

Lemma bsearch_pack_safe p map oid : idx_wf p map -> is_bytes (oid_hash oid) -> len (oid_hash oid) = 32 ->
  total (bsearch_pack hashsz oid p) (fun '(r, i) => (r = 0 \/ r = 1) /\ (r = 1 -> 0 <= i < num_objects p)).
Proof using Hsz.
  intros [Hm Hb Hs Hv Hn Hf H1 H2] Hob Hol. unfold bsearch_pack. rewrite Hm. unfold fan_at in Hf. destruct Hv as [Ev|Ev]; rewrite Ev in *; cbn [Z.eqb Pos.eqb] in *.
  - specialize (H1 eq_refl). apply bsearch_hash_safe; try done; try lia; nia.
  - specialize (H2 eq_refl). apply bsearch_hash_safe; try done; try lia; nia.
Qed.

Lemma nth_id_safe p map file n : idx_wf p map -> (algo = 1 \/ algo = 2) -> 0 <= n -> total (nth_packed_object_id hashsz algo file p n) (fun '(r, o, _) => if n <? num_objects p then r = 0 /\ is_Some o else r = -1).
Proof using Hsz.
  intros [Hm Hb [_ Hs] Hv Hn Hf H1 H2] Ha Hn0. unfold nth_packed_object_id. rewrite Hm. cbn [mbind res_bind]. change (tr 0) with false. cbn iota. rewrite Hm.
  destruct (Z.leb_spec (num_objects p) n), (Z.ltb_spec n (num_objects p)); try lia; [done|].
  assert (exists a, hash_algo_by_ptr algo = Ok a) as [a Ea] by (destruct Ha as [->| ->]; by eexists). unfold oidread.
  destruct Hv as [Ev|Ev]; rewrite Ev; cbn [Z.eqb Pos.eqb].
  - specialize (H1 Ev). rewrite st_mult_ok by nia. cbn [mbind res_bind]. rewrite st_add_ok by nia. cbn [mbind res_bind]. rewrite rd_slice_ok by nia. cbn [mbind res_bind]. rewrite Ea. done.
  - specialize (H2 Ev). rewrite st_mult_ok by nia. cbn [mbind res_bind]. rewrite rd_slice_ok by nia. cbn [mbind res_bind]. rewrite Ea. done.
Qed.

Lemma get_be64_ok map i : is_bytes map -> 0 <= i -> i + 8 <= len map -> exists x, get_be64 map i = Ok x.
Proof.
  intros Hb Hi Hl. unfold get_be64. destruct (get_be32_ok map i Hb Hi ltac:(lia)) as [-> _]. cbn [mbind res_bind].
  destruct (get_be32_ok map (i + 4) Hb ltac:(lia) ltac:(lia)) as [-> _]. cbn [mbind res_bind]. by eexists.
Qed.

Lemma nth_offset_safe p map n : idx_wf p map -> 0 <= n < num_objects p -> wp only_die (nth_packed_object_offset hashsz p n) (fun _ => True).
Proof using Hsz.
  intros [Hm Hb [Hs Hl] Hv Hnum Hf H1 H2] Hn. unfold nth_packed_object_offset. rewrite Hm. destruct Hv as [Ev|Ev]; rewrite Ev; cbn [Z.eqb Pos.eqb].
  - specialize (H1 Ev). rewrite st_mult_ok by nia. cbn [mbind res_bind]. by destruct (ntohl_at_be map (4 * 256 + (hashsz + 4) * n) Hb ltac:(nia) ltac:(nia)) as [-> _].
  - specialize (H2 Ev). rewrite (st_mult_ok (num_objects p) (hashsz + 4)) by nia. cbn [mbind res_bind]. rewrite (st_add_ok 8) by nia. cbn [mbind res_bind]. rewrite (st_mult_ok 4 n) by nia. cbn [mbind res_bind].
    destruct (ntohl_at_be map (4 * 256 + (8 + num_objects p * (hashsz + 4)) + 4 * n) Hb ltac:(nia) ltac:(nia)) as [-> Hoff]. cbn [mbind res_bind]. set (off := of_be _) in *.
    destruct (tr (off &. 0x80000000)); cbn [negb]; [|done]. assert (0 <= off &. 0x7fffffff < 2 ^ 31) as Hlow.
    { rewrite (land_mask off _ 31) by done. apply Z.mod_pos_bound. lia. }
    rewrite (st_mult_ok (num_objects p) 4) by nia. cbn [mbind res_bind]. rewrite st_mult_ok by nia. cbn [mbind res_bind]. rewrite st_add_ok by nia. cbn [mbind res_bind].
    unfold check_pack_index_ptr. set (ptr := 4 * 256 + _ + _). assert (0 <= ptr) by (unfold ptr; nia). destruct (Z.ltb_spec ptr 0); [done|]. rewrite Hs.
    destruct (Z.leb_spec (len map - 8) ptr); [done|]. cbn [mbind res_bind]. destruct (get_be64_ok map ptr Hb ltac:(lia) ltac:(lia)) as [x ->]. done.
Qed.
End Safety.

(** C25: an index file of any bytes, fewer than [2 ^ 62].  [load_idx] reads inside of it and accepts or refuses
    it; when it has accepted it, looking up any object name, reading the name of
    any entry and, except for the death of the program on an offset that
    [check_pack_index_ptr] refuses, the offset of any entry, stay inside of
    the map, and every search ends. *)
Theorem idx_reader_safe hashsz algo map oid p : (hashsz = 20 \/ hashsz = 32) -> (algo = 1 \/ algo = 2) -> is_bytes map -> len map < 2 ^ 62 ->
  is_bytes (oid_hash oid) -> len (oid_hash oid) = 32 ->
  total (load_idx hashsz (Some map) (len map) p) (fun '(r, p') =>
    (r = -1 /\ p' = p) \/
    (r = 0 /\
     total (bsearch_pack hashsz oid p') (fun '(found, i) => (found = 0 \/ found = 1) /\ (found = 1 -> 0 <= i < num_objects p')) /\
     wp only_die (find_pack_entry_one hashsz None oid p') (fun _ => True) /\
     forall n, 0 <= n ->
       total (nth_packed_object_id hashsz algo None p' n) (fun '(ret, _, _) => ret = if n <? num_objects p' then 0 else -1) /\
       (n < num_objects p' -> wp only_die (nth_packed_object_offset hashsz p' n) (fun _ => True)))).
Proof.
  intros Hsz Ha Hb Hl Hob Hol. eapply wp_mono; [by apply load_idx_wf|]. intros [r p'] [(-> & Hwf & _)|Hr]; [right|by left].
  pose proof (bsearch_pack_safe hashsz Hsz p' map oid Hwf Hob Hol) as Hbs. split_and!; [done|done| |].
  - unfold find_pack_entry_one. rewrite (iw_map _ _ _ Hwf). cbn [mbind res_bind]. change (tr 0) with false. cbn iota. apply wp_bind. eapply wp_mono; [apply total_wp, Hbs|].
    intros [found i] [[->| ->] Hi]; [done|]. change (tr 1) with true. cbn iota. apply wp_bind. eapply wp_mono; [apply (nth_offset_safe hashsz Hsz p' map); [done|by apply Hi]|]. done.
  - intros n Hn. split; [|intros Hlt; by apply (nth_offset_safe hashsz Hsz p' map)].
    eapply wp_mono; [by apply (nth_id_safe hashsz algo Hsz p' map)|]. intros [[ret o] p'']. destruct (n <? num_objects p'); [by intros []|done].
Qed.

Lemma idx_reader_safe_witness :
  total (load_idx 20 (Some (replicate 1064 0)) 1064 (mkPack None 0 0 0 0 0)) (fun '(r, p') =>
    (r = -1 /\ p' = mkPack None 0 0 0 0 0) \/
    (r = 0 /\
     total (bsearch_pack 20 (mkOid (replicate 32 0) 1) p') (fun '(found, i) => (found = 0 \/ found = 1) /\ (found = 1 -> 0 <= i < num_objects p')) /\
     wp only_die (find_pack_entry_one 20 None (mkOid (replicate 32 0) 1) p') (fun _ => True) /\
     forall n, 0 <= n ->
       total (nth_packed_object_id 20 1 None p' n) (fun '(ret, _, _) => ret = if n <? num_objects p' then 0 else -1) /\
       (n < num_objects p' -> wp only_die (nth_packed_object_offset 20 p' n) (fun _ => True)))).
Proof.
  apply (idx_reader_safe 20 1 (replicate 1064 0) (mkOid (replicate 32 0) 1)); try done; [by left|by left|by apply Forall_replicate|by apply Forall_replicate].
Defined.
