(* ===== verification/PackWrite.v ===== *)
(** * Writing pack indexes: [pack-write.c]

    [write_idx_file] writes, through a [hashfile], the index that [load_idx] of
    PackIdx.v reads, or checks that an existing index is the one it would write.  The proofs
    turn the function into one sequence of writes, [idx_chunks], so that the theorem on
    [hashfile]s gives the bytes of the file, and then read these bytes
    with the code of packfile.c: every object is found at its offset, and nothing else
    is found.  [bsearch] of the C library is a parameter with the law of the C standard. *)

From stdpp Require Import prelude numbers list sorting.
From S2P Require Import Prelude PatchDelta Alloc CString Bswap Sha1 Hex StableQsort StringList StringListSpec CsumFile HashLookup PackIdx.

(** ** The code *)

Record pack_idx_entry := mkEntry { pe_oid : object_id; pe_crc32 : Z; pe_offset : Z }.

Record pack_idx_option := mkOpts {
  io_flags : Z;
  io_version : Z;
  off32_limit : Z;
  anomaly_nr : Z;
  anomaly : list Z;
  delta_base_cache_limit : Z;
}.

Definition WRITE_IDX_VERIFY : Z := 0x1.
Definition WRITE_IDX_STRICT : Z := 0x2.
Definition DEFAULT_DELTA_BASE_CACHE_LIMIT : Z := 96 * 1024 * 1024.

Definition reset_pack_idx_option (opts : pack_idx_option) : pack_idx_option :=
  mkOpts 0 2 0x7fffffff 0 [] DEFAULT_DELTA_BASE_CACHE_LIMIT.

(** The array of a [struct object_id] has [GIT_MAX_RAWSZ] bytes. *)
Definition oid_array (oid : object_id) : list Z := list.resize (Z.to_nat GIT_MAX_RAWSZ) 0 (oid_hash oid).

Definition sha1_compare (a b : pack_idx_entry) : Z := memcmp (oid_array (pe_oid a)) (oid_array (pe_oid b)).

Definition oideq (a b : object_id) : res bool :=
  x ← rd_slice (oid_hash a) 0 GIT_MAX_RAWSZ; y ← rd_slice (oid_hash b) 0 GIT_MAX_RAWSZ; Ok (negb (tr (memcmp x y))).

Definition cmp_uint32 (a b : Z) : Z := if a <? b then -1 else if negb (a =? b) then 1 else 0.

(** [bsearch] of the C library: the number of a cell, or [None]. *)
Class Bsearch := bsearch : (Z -> Z -> Z) -> Z -> list Z -> option nat.

(** It returns a cell that compares equal, if there is one, in an array that is in order. *)
Class BsearchOk `{!Bsearch} : Prop := {
  bsearch_some cmp key l i : bsearch cmp key l = Some i -> exists x, l !! i = Some x /\ cmp key x = 0;
  bsearch_none cmp key l x : (forall (i j : nat) x y, (i <= j)%nat -> l !! i = Some x -> l !! j = Some y -> (cmp key x < 0 -> cmp key y < 0) /\ (0 < cmp key y -> 0 < cmp key x)) ->
    bsearch cmp key l = None -> x ∈ l -> cmp key x <> 0;
}.

Section Code.
Context `{!Bsearch}.

Definition need_large_offset (offset : Z) (opts : pack_idx_option) : res Z :=
  if tr (offset >>. 31) || (off32_limit opts <? offset) then Ok 1
  else if negb (tr (anomaly_nr opts)) then Ok 0
  else
    let ofsval := u32 offset in
    a ← rd_slice (anomaly opts) 0 (anomaly_nr opts);
    Ok (match bsearch cmp_uint32 ofsval a with Some _ => 1 | None => 0 end).

Context `{Memory} `{Disk} {C : Type} `{!Hasher C} (crc32 : Z -> list Z -> Z).
(** What [hashfd] gets from the allocator, see CsumFile.v, and the [qsort] of the C library. *)
Context (sizeof_hashfile : Z) (ctx0 : C) (junk : Z) (qsort : (pack_idx_entry -> pack_idx_entry -> Z) -> list pack_idx_entry -> list pack_idx_entry).
Abbreviation hfile := (hashfile C).

(** The inner loop of the table of counts. *)
Definition fanout_next_step (objects : list pack_idx_entry) (last i next : Z) : res (Z + Z) :=
  if next <? last then
    obj ← rd objects next;
    h ← rd (oid_hash (pe_oid obj)) 0;
    if negb (h =? i) then Ok (inr next) else Ok (inl (next + 1))
  else Ok (inr next).

Definition fanout_body (objects : list pack_idx_entry) (last i : Z) (st : hfile * Z) : res (hfile * Z) :=
  let '(f, list) := st in
  next ← loop (S (Z.to_nat last)) (fanout_next_step objects last i) list;
  f ← hashwrite_be32 crc32 f (u32 next);
  Ok (f, next).

Definition entry_body (objects : list pack_idx_entry) (opts : pack_idx_option) (index_version i : Z) (f : hfile) : res hfile :=
  obj ← rd objects i;
  f ← (if index_version <? 2 then hashwrite_be32 crc32 f (u32 (pe_offset obj)) else Ok f);
  h ← rd_slice (oid_hash (pe_oid obj)) 0 hash_rawsz;
  f ← hashwrite crc32 f h hash_rawsz;
  if tr (io_flags opts &. WRITE_IDX_STRICT) && tr i then
    prev ← rd objects (i - 1);
    same ← oideq (pe_oid prev) (pe_oid obj);
    if (same : bool) then Fault Died else Ok f
  else Ok f.

Definition crc_body (objects : list pack_idx_entry) (i : Z) (f : hfile) : res hfile :=
  obj ← rd objects i; hashwrite_be32 crc32 f (pe_crc32 obj).

(** The file and [nr_large_offset]. *)
Definition offset_body (objects : list pack_idx_entry) (opts : pack_idx_option) (i : Z) (st : hfile * Z) : res (hfile * Z) :=
  let '(f, nr_large_offset) := st in
  obj ← rd objects i;
  large ← need_large_offset (pe_offset obj) opts;
  let offset := if tr large then 0x80000000 |. nr_large_offset else u32 (pe_offset obj) in
  let nr_large_offset := if tr large then u32 (nr_large_offset + 1) else nr_large_offset in
  f ← hashwrite_be32 crc32 f offset;
  Ok (f, nr_large_offset).

(** The loop of the large offsets: the file, the place of [list], what is left. *)
Definition large_step (objects : list pack_idx_entry) (opts : pack_idx_option) (st : hfile * Z * Z) : res (hfile * Z * Z + hfile) :=
  let '(f, list, nr_large_offset) := st in
  if tr nr_large_offset then
    obj ← rd objects list;
    let offset := u64 (pe_offset obj) in
    large ← need_large_offset (to_off_t offset) opts;
    if negb (tr large) then Ok (inl (f, list + 1, nr_large_offset))
    else f ← hashwrite_be64 crc32 f offset; Ok (inl (f, list + 1, nr_large_offset - 1))
  else Ok (inr f).

(** [index_name] says whether a name is given; [file] is the contents of the file of
    that name, for a check; [fd] is the descriptor of the file that is created, [None] when it
    cannot be.  Returns the array and what [finalize_hashfile] leaves. *)
Definition write_idx_file (index_name : bool) (file : list Z) (fd : option Z) (objects : list pack_idx_entry) (nr_objects : Z)
    (opts : pack_idx_option) (sha1 : list Z) : res (list pack_idx_entry * (Z * list Z * hfile)) :=
  last_obj_offset ← for_range (Z.to_nat nr_objects) 0 (fun i last => obj ← rd objects i; Ok (if last <? pe_offset obj then pe_offset obj else last)) 0;
  let objects := if tr nr_objects then QSORT qsort objects nr_objects sha1_compare else objects in
  f ← (if tr (io_flags opts &. WRITE_IDX_VERIFY) then
         if negb index_name then Fault BugHit else hashfd_check sizeof_hashfile ctx0 junk 0 file
       else match fd with None => Fault Died | Some fd => hashfd sizeof_hashfile ctx0 junk fd end);
  large ← need_large_offset last_obj_offset opts;
  let index_version := if tr large then 2 else io_version opts in
  f ← (if 2 <=? index_version then
         hashwrite crc32 f (le_bytes32 (htonl PACK_IDX_SIGNATURE) ++ le_bytes32 (htonl index_version)) 8
       else Ok f);
  '(f, _) ← for_range 256 0 (fanout_body objects nr_objects) (f, 0);
  f ← for_range (Z.to_nat nr_objects) 0 (entry_body objects opts index_version) f;
  f ← (if 2 <=? index_version then
         f ← for_range (Z.to_nat nr_objects) 0 (crc_body objects) f;
         '(f, nr_large_offset) ← for_range (Z.to_nat nr_objects) 0 (offset_body objects opts) (f, 0);
         loop (S (Z.to_nat nr_objects)) (large_step objects opts) (f, 0, nr_large_offset)
       else Ok f);
  h ← rd_slice sha1 0 hash_rawsz;
  f ← hashwrite crc32 f h hash_rawsz;
  r ← finalize_hashfile f (CSUM_HASH_IN_STREAM |. CSUM_CLOSE |. (if tr (io_flags opts &. WRITE_IDX_VERIFY) then 0 else CSUM_FSYNC));
  Ok (objects, r).
End Code.

(** ** The contents of an index *)

Section Layout.
Context (rawsz : Z).

(** The name of an object, without the unused bytes of the array. *)
Definition oid_name (oid : object_id) : list Z := take (Z.to_nat rawsz) (oid_hash oid).
Abbreviation name e := (oid_name (pe_oid e)).

(** An object name of this algorithm: the rest of the array is clear. *)
Record oid_clean (oid : object_id) : Prop := {
  oo_hash : oid_hash oid = oid_name oid ++ replicate (Z.to_nat (GIT_MAX_RAWSZ - rawsz)) 0;
  oo_len : len (oid_name oid) = rawsz;
  oo_bytes : is_bytes (oid_name oid);
}.

Record pack_entry_ok (e : pack_idx_entry) : Prop := {
  eo_oid : oid_clean (pe_oid e);
  eo_crc : 0 <= pe_crc32 e < 2 ^ 32;
  eo_off : 0 <= pe_offset e < 2 ^ 63;
}.

Record opts_ok (opts : pack_idx_option) : Prop := {
  po_version : io_version opts = 1 \/ io_version opts = 2;
  po_anomaly : 0 <= anomaly_nr opts <= len (anomaly opts);
  po_sorted : StronglySorted Z.le (take (Z.to_nat (anomaly_nr opts)) (anomaly opts));
}.

(** The offsets that go to the table of 64-bit offsets. *)
Definition large (opts : pack_idx_option) (offset : Z) : bool :=
  bool_decide (2 ^ 31 <= offset) || (off32_limit opts <? offset) || bool_decide (offset ∈ take (Z.to_nat (anomaly_nr opts)) (anomaly opts)).

(** The cells of the table of 32-bit offsets; [k] large offsets came before. *)
Fixpoint offset_cells (opts : pack_idx_option) (k : Z) (es : list pack_idx_entry) : list (list Z) :=
  match es with
  | [] => []
  | e :: es => if large opts (pe_offset e) then be32 (2 ^ 31 + k) :: offset_cells opts (k + 1) es else be32 (pe_offset e) :: offset_cells opts k es
  end.

Definition large_cells (opts : pack_idx_option) (es : list pack_idx_entry) : list (list Z) :=
  (fun e => be64 (pe_offset e)) <$> filter (fun e => large opts (pe_offset e) = true) es.

Definition fan_cells (es : list pack_idx_entry) : list (list Z) := (fun b => be32 (fan ((fun e => name e) <$> es) b)) <$> seqZ 0 256.

Definition idx_version (opts : pack_idx_option) (es : list pack_idx_entry) : Z :=
  if large opts (foldr Z.max 0 (pe_offset <$> es)) then 2 else io_version opts.

(** What is written for the sorted objects [es], write by write. *)
Definition idx_chunks (opts : pack_idx_option) (v : Z) (es : list pack_idx_entry) (trailer : list Z) : list (list Z) :=
  (if 2 <=? v then [be32 PACK_IDX_SIGNATURE ++ be32 v] else []) ++ fan_cells es ++
  concat ((fun e => (if v <? 2 then [be32 (pe_offset e)] else []) ++ [name e]) <$> es) ++
  (if 2 <=? v then ((fun e => be32 (pe_crc32 e)) <$> es) ++ offset_cells opts 0 es ++ large_cells opts es else []) ++ [trailer].

(** Sorted by name. *)
Abbreviation names_sorted es := (hashes_sorted rawsz ((fun e => name e) <$> es)).
End Layout.

(** ** One sequence of writes *)

Lemma name_hd rawsz oid : 0 < rawsz -> oid_clean rawsz oid -> rd (oid_hash oid) 0 = Ok (hd 0 (oid_name rawsz oid)) /\ is_byte (hd 0 (oid_name rawsz oid)).
Proof.
  intros Hr [Hh Hl Hb]. rewrite Hh. destruct (oid_name rawsz oid) as [|b l]; [rewrite len_nil in Hl; lia|]. split; [done|]. by apply Forall_cons in Hb as [].
Qed.

Lemma oid_array_ok rawsz oid : 0 < rawsz <= 32 -> oid_clean rawsz oid -> len (oid_hash oid) = 32 /\ oid_array oid = oid_hash oid.
Proof.
  intros Hr [Hh Hl Hb]. assert (length (oid_hash oid) = 32)%nat as H32.
  { rewrite Hh, length_app, length_replicate. change GIT_MAX_RAWSZ with 32. llia. }
  split; [llia|]. unfold oid_array. change (Z.to_nat GIT_MAX_RAWSZ) with 32%nat. by apply resize_all_alt.
Qed.

Lemma memcmp_app a : forall b c, length a = length b -> memcmp (a ++ c) (b ++ c) = memcmp a b.
Proof.
  induction a as [|x a IH]; intros [|y b] c Hl; simplify_eq/=; [|by rewrite IH]. induction c as [|z c IHc]; [done|]. cbn. by rewrite Z.eqb_refl.
Qed.

Lemma sha1_compare_names rawsz a b : 0 < rawsz <= 32 -> pack_entry_ok rawsz a -> pack_entry_ok rawsz b ->
  sha1_compare a b = memcmp (oid_name rawsz (pe_oid a)) (oid_name rawsz (pe_oid b)).
Proof.
  intros Hr [Ha _ _] [Hb _ _]. unfold sha1_compare. rewrite (proj2 (oid_array_ok rawsz (pe_oid a) Hr Ha)), (proj2 (oid_array_ok rawsz (pe_oid b) Hr Hb)).
  destruct Ha as [-> Hla _], Hb as [-> Hlb _]. apply memcmp_app. llia.
Qed.

#[export] Instance sha1_compare_ok : CmpOk sha1_compare.
Proof.
  assert (forall a b, sha1_compare a b = strcmp (oid_array (pe_oid a)) (oid_array (pe_oid b))) as E.
  { intros a b. apply memcmp_strcmp. unfold oid_array. by rewrite !length_resize. }
  constructor; intros; rewrite !E in *; [apply cmpok_anti|by eapply cmpok_trans].
Qed.

Lemma oideq_names rawsz a b : 0 < rawsz <= 32 -> oid_clean rawsz a -> oid_clean rawsz b -> oideq a b = Ok (bool_decide (oid_name rawsz a = oid_name rawsz b)).
Proof.
  intros Hr Ha Hb. destruct (oid_array_ok _ _ Hr Ha) as [La _], (oid_array_ok _ _ Hr Hb) as [Lb _]. unfold oideq. change GIT_MAX_RAWSZ with 32.
  pose proof (rd_slice_head (oid_hash a) [] 32 (eq_sym La)) as Ea. rewrite app_nil_r in Ea. rewrite Ea. cbn [mbind res_bind].
  pose proof (rd_slice_head (oid_hash b) [] 32 (eq_sym Lb)) as Eb. rewrite app_nil_r in Eb. rewrite Eb. cbn [mbind res_bind].
  destruct Ha as [Ha Hla _], Hb as [Hb Hlb _]. rewrite memcmp_tr by llia. rewrite negb_involutive. f_equal. apply bool_decide_ext. rewrite Ha at 1. rewrite Hb at 1.
  split; [|by intros ->]. intros E. apply app_inj_1 in E as [E _]; [done|llia].
Qed.

Lemma need_large_ok `{!Bsearch} `{!BsearchOk} opts offset : opts_ok opts -> 0 <= offset -> need_large_offset offset opts = Ok (if large opts offset then 1 else 0).
Proof.
  intros [_ Ha Hs] Ho. unfold need_large_offset, large. assert (tr (offset >>. 31) = bool_decide (2 ^ 31 <= offset)) as ->.
  { rewrite Z.shiftr_div_pow2 by lia. destruct (bool_decide_reflect (2 ^ 31 <= offset)) as [Hge|Hlt]; [apply tr_true|apply tr_false]; dlia. }
  destruct (bool_decide_reflect (2 ^ 31 <= offset)) as [Hge|Hlt]; [done|]. destruct (off32_limit opts <? offset); [done|]. cbn [orb].
  set (a := take (Z.to_nat (anomaly_nr opts)) (anomaly opts)) in *. destruct (tr (anomaly_nr opts)) eqn:En; cbn [negb].
  2:{ apply tr_false in En. assert (a = []) as -> by (unfold a; by rewrite En). done. }
  rewrite rd_slice_ok by lia. cbn [mbind res_bind]. unfold slice. change (drop (Z.to_nat 0) (anomaly opts)) with (anomaly opts). fold a. rewrite u32_small by lia.
  destruct (bsearch cmp_uint32 offset a) as [i|] eqn:Eb.
  - apply bsearch_some in Eb as (x & Hx & Hc). assert (x = offset) as ->. { unfold cmp_uint32 in Hc. destruct (Z.ltb_spec offset x); [done|]. by destruct (Z.eqb_spec offset x). }
    rewrite bool_decide_eq_true_2; [done|]. by eapply list_elem_of_lookup_2.
  - rewrite bool_decide_eq_false_2; [done|]. intros Hin. eapply bsearch_none in Eb; [|clear Hin|exact Hin].
    + apply Eb. unfold cmp_uint32. by rewrite Z.ltb_irrefl, Z.eqb_refl.
    + intros i j x y Hij Hx Hy. assert (x <= y) as Hxy.
      { destruct (decide (i = j)) as [->|]; [rewrite Hx in Hy; by injection Hy as ->|]. eapply (sorted_lookup _ _ i j); [exact Hs|lia|done|done]. }
      unfold cmp_uint32. destruct (Z.ltb_spec offset x), (Z.ltb_spec offset y), (Z.eqb_spec offset x), (Z.eqb_spec offset y); cbn [negb]; lia.
Qed.

Section Equation.
Context `{!Bsearch} `{!BsearchOk} `{Memory} `{Disk} {C : Type} `{!Hasher C} (crc32 : Z -> list Z -> Z) (Hraw : hash_rawsz = 20 \/ hash_rawsz = 32).
Context (opts : pack_idx_option) (Hopts : opts_ok opts).
Abbreviation name e := (oid_name hash_rawsz (pe_oid e)).
Abbreviation names es := ((fun e => name e) <$> es).
Abbreviation writes := (hashwrites crc32).

Section Objects.
Context (es : list pack_idx_entry) (Hes : Forall (pack_entry_ok hash_rawsz) es) (Hsort : hashes_sorted hash_rawsz (names es)) (Hnum : len es < 2 ^ 31).

Lemma rawsz_pos : 0 < hash_rawsz.
Proof using Hraw. lia. Qed.

Lemma entry_at i e : es !! i = Some e -> pack_entry_ok hash_rawsz e /\ names es !! i = Some (name e).
Proof using Hes. intros He. split; [by eapply Forall_lookup_1|]. by rewrite list_lookup_fmap, He. Qed.

Lemma fan_next i : 0 <= i -> loop (S (Z.to_nat (len es))) (fanout_next_step es (len es) i) (fan (names es) (i - 1)) = Ok (fan (names es) i).
Proof using Hraw Hes Hsort.
  intros Hi. assert (len (names es) = len es) as Hlen by (unfold len; by rewrite length_fmap).
  destruct (fan_range (names es) (i - 1) i ltac:(lia)) as [Hf1 Hf2].
  assert (total (loop (S (Z.to_nat (len es))) (fanout_next_step es (len es) i) (fan (names es) (i - 1))) (fun r => r = fan (names es) i)) as Ht.
  { apply (wp_loop no_fault (fun next => fan (names es) (i - 1) <= next <= fan (names es) i) (fun next => Z.to_nat (len es - next))); [|lia|lia].
    intros next Hn. unfold fanout_next_step. destruct (Z.ltb_spec next (len es)); [|apply wp_ret; lia].
    destruct (lookup_lt_is_Some_2 es (Z.to_nat next)) as [e He]; [llia|]. rewrite (rd_Some es next e) by (done || lia). cbn [mbind res_bind].
    destruct (entry_at _ _ He) as [[Ho _ _] Hn']. destruct (name_hd _ _ rawsz_pos Ho) as [-> _]. cbn [mbind res_bind].
    pose proof (fan_split _ _ i _ _ Hsort Hn') as Hs1. pose proof (fan_split _ _ (i - 1) _ _ Hsort Hn') as Hs0. rewrite Z2Nat.id in Hs0, Hs1 by lia.
    destruct (Z.eqb_spec (hd 0 (name e)) i); cbn [negb]; apply wp_ret; lia. }
  by apply total_ok in Ht as (r & -> & ->).
Qed.

Lemma fanout_writes n : forall i f, 0 <= i ->
  for_range n i (fanout_body crc32 es (len es)) (f, fan (names es) (i - 1)) =
  f ← writes f ((fun b => be32 (fan (names es) b)) <$> seqZ i (Z.of_nat n)); Ok (f, fan (names es) (i - 1 + Z.of_nat n)).
Proof using Hraw Hes Hsort Hnum.
  induction n as [|n IH]; intros i f Hi; [cbn; by rewrite Z.add_0_r|]. rewrite seqZ_cons by lia. cbn [for_range fmap list_fmap].
  unfold fanout_body at 2. cbv beta iota. rewrite fan_next by done. cbn [mbind res_bind].
  assert (0 <= fan (names es) i < 2 ^ 31) as Hfan. { pose proof (fan_range (names es) i i ltac:(lia)). assert (len (names es) = len es) as E by (unfold len; by rewrite length_fmap). lia. }
  rewrite u32_small by lia. rewrite hashwrite_be32_one by lia. rewrite hashwrites_one. cbn [hashwrites]. rewrite !res_bind_assoc. apply res_bind_ext. intros f'. cbn [mbind res_bind].
  replace i with (i + 1 - 1) at 2 by lia. rewrite IH by lia. replace (i + 1) with (Z.succ i) by lia. replace (Z.pred (Z.of_nat (S n))) with (Z.of_nat n) by lia.
  apply res_bind_ext. intros f''. do 3 f_equal. lia.
Qed.

Lemma entry_writes v : v = 1 \/ v = 2 -> (v = 1 -> Forall (fun e => pe_offset e < 2 ^ 32) es) -> NoDup (names es) -> forall f,
  for_range (length es) 0 (entry_body crc32 es opts v) f = writes f (concat ((fun e => (if v <? 2 then [be32 (pe_offset e)] else []) ++ [name e]) <$> es)).
Proof using Hraw Hes.
  intros Hv Hoff Hnd f. apply for_range_writes. clear f. intros i e f He. destruct (entry_at _ _ He) as [[Ho _ Hoff'] Hn]. unfold entry_body.
  rewrite (rd_Some es (Z.of_nat i) e) by (lia || by rewrite Nat2Z.id). cbn [mbind res_bind]. rewrite hashwrites_app.
  assert ((if v <? 2 then hashwrite_be32 crc32 f (u32 (pe_offset e)) else Ok f) = writes f (if v <? 2 then [be32 (pe_offset e)] else [])) as ->.
  { destruct Hv as [->| ->]; [|done]. cbn [Z.ltb Z.compare Pos.compare Pos.compare_cont]. specialize (Hoff eq_refl). rewrite Forall_lookup in Hoff. specialize (Hoff _ _ He).
    rewrite u32_small by lia. by rewrite hashwrite_be32_one by lia. }
  apply res_bind_ext. intros f'. pose proof Ho as [Hh Hl Hb]. rewrite Hh at 1. rewrite rd_slice_head by done. cbn [mbind res_bind]. rewrite hashwrites_one, Hl.
  destruct (tr (io_flags opts &. WRITE_IDX_STRICT) && tr (Z.of_nat i)) eqn:Est; [|apply res_bind_ok]. rewrite <- (res_bind_ok (hashwrite _ _ _ _)) at 2. apply res_bind_ext. intros f''.
  apply andb_true_iff in Est as [_ Hi]. apply tr_true in Hi. destruct (lookup_lt_is_Some_2 es (i - 1)) as [prev Hp]; [apply lookup_lt_Some in He; lia|].
  rewrite (rd_Some es (Z.of_nat i - 1) prev) by (lia || by (replace (Z.to_nat (Z.of_nat i - 1)) with (i - 1)%nat by lia)). cbn [mbind res_bind].
  destruct (entry_at _ _ Hp) as [[Hop _ _] Hnp]. rewrite (oideq_names hash_rawsz) by (done || lia). cbn [mbind res_bind].
  rewrite bool_decide_eq_false_2; [done|]. intros E. rewrite E in Hnp. pose proof (NoDup_lookup _ _ _ _ Hnd Hnp Hn). lia.
Qed.

Lemma crc_writes f : for_range (length es) 0 (crc_body crc32 es) f = writes f ((fun e => be32 (pe_crc32 e)) <$> es).
Proof using Hes.
  rewrite (for_range_writes crc32 es _ (fun e => [be32 (pe_crc32 e)])).
  - f_equal. clear. induction es as [|e l IH]; [done|]. cbn. by rewrite IH.
  - intros i e f' He. destruct (entry_at _ _ He) as [[_ Hc _] _]. unfold crc_body. rewrite (rd_Some es (Z.of_nat i) e) by (lia || by rewrite Nat2Z.id). cbn [mbind res_bind].
    by apply hashwrite_be32_one.
Qed.

Abbreviation is_large := (fun e => large opts (pe_offset e) = true).

Lemma offset_writes suf : forall pre k f, es = pre ++ suf -> 0 <= k -> k + len suf < 2 ^ 31 ->
  for_range (length suf) (len pre) (offset_body crc32 es opts) (f, k) = f ← writes f (offset_cells opts k suf); Ok (f, k + len (filter is_large suf)).
Proof using H0 Hopts Hes.
  induction suf as [|e suf IH]; intros pre k f He Hk Hlen; [cbn; by rewrite Z.add_0_r|]. rewrite len_cons in Hlen. pose proof (len_nonneg suf).
  assert (es !! length pre = Some e) as Hat by (rewrite He, lookup_app_r, Nat.sub_diag; done). destruct (entry_at _ _ Hat) as [[_ _ Ho] _].
  cbn [length for_range offset_cells]. unfold offset_body at 2. cbv beta iota. rewrite He at 1. rewrite rd_mid by done. cbn [mbind res_bind].
  rewrite need_large_ok by (done || lia). cbn [mbind res_bind]. rewrite filter_cons. replace (len pre + 1) with (len (pre ++ [e])) by (rewrite len_app; done).
  destruct (large opts (pe_offset e)) eqn:El; [rewrite decide_True by done|rewrite decide_False by done]; cbv zeta;
    [change (tr 1) with true|change (tr 0) with false]; cbv iota.
  - assert (0x80000000 |. k = 2 ^ 31 + k) as -> by (apply (lor_add _ _ 31); [lia|done|lia]). rewrite hashwrite_be32_one, hashwrites_one by lia. cbn [hashwrites]. rewrite !res_bind_assoc.
    apply res_bind_ext. intros f'. cbn [mbind res_bind]. rewrite u32_small by lia. rewrite IH by (try lia; by rewrite <- app_assoc). apply res_bind_ext. intros f''. rewrite len_cons. do 2 f_equal. lia.
  - assert (pe_offset e < 2 ^ 31) as Hlt. { unfold large in El. apply orb_false_iff in El as [[El%bool_decide_eq_false _]%orb_false_iff _]. lia. }
    rewrite u32_small by lia. rewrite hashwrite_be32_one, hashwrites_one by lia. cbn [hashwrites]. rewrite !res_bind_assoc.
    apply res_bind_ext. intros f'. cbn [mbind res_bind]. by rewrite IH by (try lia; by rewrite <- app_assoc).
Qed.

Lemma large_writes suf : forall pre fuel f, es = pre ++ suf -> (length suf < fuel)%nat ->
  loop fuel (large_step crc32 es opts) (f, len pre, len (filter is_large suf)) = writes f (large_cells opts suf).
Proof using H0 Hopts Hes.
  induction suf as [|e suf IH]; intros pre fuel f He Hf; (destruct fuel as [|fuel]; [lia|]); rewrite loop_S; unfold large_step; [done|].
  assert (es !! length pre = Some e) as Hat by (rewrite He, lookup_app_r, Nat.sub_diag; done). destruct (entry_at _ _ Hat) as [[_ _ Ho] _]. cbn [length] in Hf.
  unfold large_cells. rewrite filter_cons. destruct (tr _) eqn:Et.
  - apply tr_true in Et. rewrite He at 1. rewrite rd_mid by done. cbn [mbind res_bind]. rewrite u64_small by lia. assert (to_off_t (pe_offset e) = pe_offset e) as ->.
    { unfold to_off_t. destruct (Z.ltb_spec (pe_offset e) (2 ^ 63)); [done|lia]. }
    rewrite need_large_ok by (done || lia). cbn [mbind res_bind]. replace (len pre + 1) with (len (pre ++ [e])) by (rewrite len_app; done).
    destruct (large opts (pe_offset e)) eqn:El; [rewrite decide_True by done|rewrite decide_False by done]; [change (tr 1) with true|change (tr 0) with false]; cbn [negb].
    + rewrite hashwrite_be64_one, hashwrites_one by lia. cbn [fmap list_fmap hashwrites]. destruct (hashwrite crc32 f (be64 (pe_offset e)) (len (be64 (pe_offset e)))) as [f'|]; [|done]. cbn [mbind res_bind].
      rewrite len_cons. replace (1 + len (filter is_large suf) - 1) with (len (filter is_large suf)) by lia. apply IH; [by rewrite <- app_assoc|lia].
    + apply IH; [by rewrite <- app_assoc|lia].
  - apply tr_false in Et. assert (filter is_large suf = [] /\ large opts (pe_offset e) = false) as [E1 E2].
    { destruct (large opts (pe_offset e)) eqn:El; [rewrite decide_True in Et by done|rewrite decide_False in Et by done].
      - rewrite len_cons in Et. pose proof (len_nonneg (filter is_large suf)). lia.
      - split; [|done]. destruct (filter is_large suf); [done|]. rewrite len_cons in Et. pose proof (len_nonneg l). lia. }
    rewrite decide_False by congruence. by rewrite E1.
Qed.
End Objects.

Lemma last_offset objs : Forall (fun e => 0 <= pe_offset e) objs ->
  for_range (length objs) 0 (fun i last => obj ← rd objs i; Ok (if last <? pe_offset obj then pe_offset obj else last)) 0 = Ok (foldr Z.max 0 (pe_offset <$> objs)).
Proof using Type.
  intros _. assert (forall suf pre last, objs = pre ++ suf ->
    for_range (length suf) (len pre) (fun i last => obj ← rd objs i; Ok (if last <? pe_offset obj then pe_offset obj else last)) last = Ok (foldr Z.max last (pe_offset <$> suf))) as Hg.
  { induction suf as [|e suf IH]; intros pre last He; [done|]. cbn [length for_range fmap list_fmap foldr]. rewrite (rd_Some objs (len pre) e) by (apply len_nonneg || (rewrite He, lookup_app_r by llia; unfold len; by rewrite Nat2Z.id, Nat.sub_diag)). cbn [mbind res_bind].
    replace (len pre + 1) with (len (pre ++ [e])) by (rewrite len_app; done). rewrite IH by (by rewrite <- app_assoc). f_equal.
    replace (if last <? pe_offset e then pe_offset e else last) with (Z.max (pe_offset e) last) by (destruct (Z.ltb_spec last (pe_offset e)); lia). clear.
    induction suf as [|x suf IH]; [done|]. cbn. rewrite IH. lia. }
  by apply (Hg objs []).
Qed.

Lemma max_perm l k : l ≡ₚ k -> foldr Z.max 0 l = foldr Z.max 0 k.
Proof using Type. induction 1; cbn; lia. Qed.

Lemma max_ge l x : x ∈ l -> x <= foldr Z.max 0 l.
Proof using Type. induction 1; cbn; lia. Qed.

Lemma max_nonneg l : 0 <= foldr Z.max 0 l.
Proof using Type. induction l; cbn; lia. Qed.

Context (sizeof_hashfile : Z) (ctx0 : C) (junk : Z) (qsort : (pack_idx_entry -> pack_idx_entry -> Z) -> list pack_idx_entry -> list pack_idx_entry) `{!QsortOk qsort}.

(** Opening the file. *)
Definition open_idx (index_name : bool) (file : list Z) (fd : option Z) : res (hashfile C) :=
  if tr (io_flags opts &. WRITE_IDX_VERIFY) then
    if negb index_name then Fault BugHit else hashfd_check sizeof_hashfile ctx0 junk 0 file
  else match fd with None => Fault Died | Some fd => hashfd sizeof_hashfile ctx0 junk fd end.

Definition idx_flags : Z := CSUM_HASH_IN_STREAM |. CSUM_CLOSE |. (if tr (io_flags opts &. WRITE_IDX_VERIFY) then 0 else CSUM_FSYNC).

Definition sorted_objects (objs : list pack_idx_entry) : list pack_idx_entry := if tr (len objs) then QSORT qsort objs (len objs) sha1_compare else objs.

Lemma sort_objects objs : Forall (pack_entry_ok hash_rawsz) objs -> sorted_objects objs ≡ₚ objs /\ hashes_sorted hash_rawsz (names (sorted_objects objs)).
Proof using Hraw QsortOk0.
  intros Hok. unfold sorted_objects. assert (forall es, es ≡ₚ objs -> StronglySorted (fun r s => sha1_compare r s <= 0) es -> hashes_sorted hash_rawsz (names es)) as Hs.
  { intros es Hp Hs. rewrite <- Hp in Hok. constructor.
    - apply Forall_fmap. eapply Forall_impl; [exact Hok|]. intros e [Ho _ _]. apply (oo_len _ _ Ho).
    - clear Hp. induction Hs as [|e es Hs IH Hall]; [constructor|]. apply Forall_cons in Hok as [He Hok]. rewrite fmap_cons. apply SSorted_cons; [by apply IH|].
      rewrite Forall_fmap. rewrite Forall_forall in Hall, Hok |- *. intros x Hx. cbn. rewrite <- (sha1_compare_names hash_rawsz) by (try lia; auto). by apply Hall. }
  destruct (tr (len objs)) eqn:Et.
  - destruct (QSORT_sorted qsort sha1_compare objs (len objs)) as (k & -> & Hl & Hp & Hsort); [pose proof (len_nonneg objs); lia|].
    assert (Z.to_nat (len objs) = length objs) as E by llia. rewrite E, firstn_all in Hp. rewrite E, drop_all, app_nil_r. split; [done|]. by apply Hs.
  - apply tr_false in Et. assert (objs = []) as -> by (destruct objs; [done|]; rewrite len_cons in Et; pose proof (len_nonneg objs); lia). split; [done|]. constructor; constructor.
Qed.

Lemma write_idx_eq index_name file fd objs sha1 : Forall (pack_entry_ok hash_rawsz) objs -> NoDup (names objs) -> len objs < 2 ^ 31 -> hash_rawsz <= len sha1 ->
  write_idx_file crc32 sizeof_hashfile ctx0 junk qsort index_name file fd objs (len objs) opts sha1 =
    (f ← open_idx index_name file fd;
     f ← writes f (idx_chunks hash_rawsz opts (idx_version opts objs) (sorted_objects objs) (take (Z.to_nat hash_rawsz) sha1));
     finalize_hashfile f idx_flags) ≫= (fun r => Ok (sorted_objects objs, r)).
Proof using All.
  intros Hok Hnd Hnum Hsha. destruct (sort_objects objs Hok) as [Hp Hs]. rewrite res_bind_assoc. remember (sorted_objects objs) as es eqn:Ees. symmetry in Ees. unfold sorted_objects in Ees.
  assert (Forall (pack_entry_ok hash_rawsz) es) as Hes by (by rewrite Hp). assert (len es = len objs) as El by (unfold len; by rewrite Hp). assert (NoDup (names es)) as Hnd' by (by rewrite Hp).
  unfold write_idx_file. assert (Z.to_nat (len objs) = length objs) as En by llia. rewrite En at 1. rewrite last_offset by (eapply Forall_impl; [exact Hok|]; intros e [_ _ ?]; cbn; lia).
  cbn [mbind res_bind]. cbv zeta. rewrite Ees. apply res_bind_ext. intros f. rewrite need_large_ok by (done || apply max_nonneg). cbn [mbind res_bind].
  set (M := foldr Z.max 0 (pe_offset <$> objs)). assert ((if tr (if large opts M then 1 else 0) then 2 else io_version opts) = idx_version opts objs) as -> by (unfold idx_version; fold M; by destruct (large opts M)).
  assert (Hv : idx_version opts objs = 1 \/ idx_version opts objs = 2) by (unfold idx_version; destruct (large _ _); [by right|apply (po_version _ Hopts)]).
  assert (Hoff : idx_version opts objs = 1 -> Forall (fun e => pe_offset e < 2 ^ 32) es).
  { intros E. rewrite Hp. apply Forall_forall. intros e He. unfold idx_version in E. destruct (large opts (foldr Z.max 0 (pe_offset <$> objs))) eqn:Elg; [done|]. unfold large in Elg. apply orb_false_iff in Elg as [[Elg%bool_decide_eq_false _]%orb_false_iff _].
    pose proof (max_ge (pe_offset <$> objs) (pe_offset e) ltac:(by apply list_elem_of_fmap_2)). lia. }
  set (v := idx_version opts objs) in *. clearbody v. unfold idx_chunks. rewrite <- El in *. assert (Z.to_nat (len es) = length es) as En' by llia. clear En.
  rewrite !hashwrites_app, !res_bind_assoc.
  assert ((if 2 <=? v then hashwrite crc32 f (le_bytes32 (htonl PACK_IDX_SIGNATURE) ++ le_bytes32 (htonl v)) 8 else Ok f) = writes f (if 2 <=? v then [be32 PACK_IDX_SIGNATURE ++ be32 v] else [])) as ->.
  { destruct (2 <=? v); [|done]. rewrite hashwrites_one. rewrite !htonl_le_bytes by (done || lia). done. }
  apply res_bind_ext. intros f1. rewrite !hashwrites_app, !res_bind_assoc.
  pose proof (fanout_writes es Hes Hs Hnum 256 0 f1 ltac:(lia)) as Hfo. change (Z.of_nat 256) with 256 in Hfo. change (0 - 1) with (-1) in Hfo.
  assert (fan (names es) (-1) = 0) as Hf0.
  { unfold fan. rewrite list_filter_none; [done|]. rewrite Forall_fmap. eapply Forall_impl; [exact Hes|]. intros e [Ho _ _]. cbn. destruct (name_hd _ _ rawsz_pos Ho) as [_ Hb]. unfold is_byte in Hb. lia. }
  rewrite Hf0 in Hfo. rewrite Hfo. rewrite res_bind_assoc. apply res_bind_ext. intros f2. cbn [mbind res_bind]. rewrite !hashwrites_app, !res_bind_assoc.
  rewrite En', (entry_writes es Hes v Hv Hoff Hnd' f2). apply res_bind_ext. intros f3. rewrite !hashwrites_app, !res_bind_assoc.
  assert ((if 2 <=? v then f ← for_range (length es) 0 (crc_body crc32 es) f3; '(f, nr_large_offset) ← for_range (length es) 0 (offset_body crc32 es opts) (f, 0); loop (S (length es)) (large_step crc32 es opts) (f, 0, nr_large_offset) else Ok f3)
    = writes f3 (if 2 <=? v then ((fun e => be32 (pe_crc32 e)) <$> es) ++ offset_cells opts 0 es ++ large_cells opts es else [])) as ->.
  { destruct (2 <=? v); [|done]. rewrite !hashwrites_app. rewrite crc_writes by done. apply res_bind_ext. intros f4. rewrite !hashwrites_app.
    pose proof (offset_writes es Hes es [] 0 f4 eq_refl ltac:(lia) ltac:(lia)) as Ho. change (len []) with 0 in Ho. rewrite Ho. rewrite res_bind_assoc. apply res_bind_ext. intros f5. cbn [mbind res_bind].
    rewrite Z.add_0_l. apply (large_writes es Hes es [] (S (length es)) f5 eq_refl). lia. }
  apply res_bind_ext. intros f6. rewrite rd_slice_ok by lia. cbn [mbind res_bind]. unfold slice. change (drop (Z.to_nat 0) sha1) with sha1. rewrite hashwrites_one.
  assert (len (take (Z.to_nat hash_rawsz) sha1) = hash_rawsz) as -> by (unfold len in *; rewrite length_take; lia). done.
Qed.
End Equation.
