(* ===== verification/PackRoundtrip.v ===== *)
(** * What is written into a pack index is read back

    The layout of the files that [write_idx_file] of PackWrite.v writes, and what the
    readers of PackIdx.v return on them.  [idx_repr] is the contract between the two: the
    index of the objects [es] answers every look-up. *)

From stdpp Require Import prelude numbers list sorting.
From S2P Require Import Prelude PatchDelta Alloc CString Bswap Sha1 Hex StableQsort StringList StringListSpec CsumFile HashLookup PackIdx PackWrite.

(** ** Tables inside of a file *)

Lemma in_table {A} (pre tail mem : list A) (cells : list (list A)) w i x pos : mem = pre ++ concat cells ++ tail -> Forall (fun c => len c = w) cells ->
  cells !! i = Some x -> pos = len pre + Z.of_nat i * w -> exists rest, drop (Z.to_nat pos) mem = x ++ rest.
Proof.
  intros -> Hw Hx ->. assert (0 <= w) as Hw0 by (eapply Forall_lookup_1 in Hw; [|exact Hx]; cbn in Hw; rewrite <- Hw; apply len_nonneg).
  replace (Z.to_nat (len pre + Z.of_nat i * w)) with (length pre + Z.to_nat (Z.of_nat i * w))%nat by llia. rewrite drop_app_add. erewrite drop_concat_cell by done. by eexists.
Qed.

Lemma drop_room {A} (mem x rest : list A) pos : 0 <= pos -> drop (Z.to_nat pos) mem = x ++ rest -> x <> [] -> pos + len x <= len mem.
Proof. intros Hp Hd Hx. apply (f_equal length) in Hd. rewrite length_drop, length_app in Hd. destruct x; [done|]. cbn [length] in *. unfold len. cbn [length]. lia. Qed.

Lemma drop_slice {A} (mem x rest : list A) pos : drop (Z.to_nat pos) mem = x ++ rest -> slice mem pos (len x) = x.
Proof. intros Hd. unfold slice. rewrite Hd. unfold len. by rewrite Nat2Z.id, take_app_length. Qed.

Lemma ntohl_at_drop mem pos x rest : is_bytes mem -> 0 <= pos -> 0 <= x < 2 ^ 32 -> drop (Z.to_nat pos) mem = be32 x ++ rest -> ntohl_at mem pos = Ok x.
Proof.
  intros Hb Hp Hx Hd. pose proof (drop_room _ _ _ _ Hp Hd ltac:(done)) as Hl. change (len (be32 x)) with 4 in Hl. destruct (ntohl_at_be mem pos Hb Hp Hl) as [-> _].
  pose proof (drop_slice _ _ _ _ Hd) as Hs. change (len (be32 x)) with 4 in Hs. by rewrite Hs, of_be_be32.
Qed.

Lemma get_be32_at mem pos x rest : is_bytes mem -> 0 <= pos -> 0 <= x < 2 ^ 32 -> drop (Z.to_nat pos) mem = be32 x ++ rest -> get_be32 mem pos = Ok x.
Proof.
  intros Hb Hp Hx Hd. pose proof (drop_room _ _ _ _ Hp Hd ltac:(done)) as Hl. change (len (be32 x)) with 4 in Hl. destruct (get_be32_ok mem pos Hb Hp Hl) as [-> _].
  pose proof (drop_slice _ _ _ _ Hd) as Hs. change (len (be32 x)) with 4 in Hs. by rewrite Hs, of_be_be32.
Qed.

Lemma get_be64_drop mem pos x rest : is_bytes mem -> 0 <= pos -> 0 <= x < 2 ^ 64 -> drop (Z.to_nat pos) mem = be64 x ++ rest -> get_be64 mem pos = Ok x.
Proof.
  intros Hb Hp Hx Hd. unfold get_be64, be64 in *. rewrite <- app_assoc in Hd.
  assert (drop (Z.to_nat (pos + 4)) mem = be32 (u32 x) ++ rest) as Hd2. { replace (Z.to_nat (pos + 4)) with (Z.to_nat pos + 4)%nat by lia. by rewrite <- drop_drop, Hd. }
  erewrite (get_be32_at mem pos (x >>. 32)); [|done|done|rewrite Z.shiftr_div_pow2 by lia; dlia|exact Hd]. cbn [mbind res_bind].
  rewrite (get_be32_at mem (pos + 4) (u32 x) rest) by (done || lia || apply u32_range). cbn [mbind res_bind].
  f_equal. rewrite Z.shiftl_0_r. rewrite (lor_shiftl_add _ _ 32) by (lia || apply u32_range). rewrite Z.shiftr_div_pow2 by lia. unfold u32. dlia.
Qed.

(** ** The contract *)

Definition table_at (v : Z) : Z := if v =? 1 then 1028 else 1032.
Definition table_stride (rawsz v : Z) : Z := if v =? 1 then rawsz + 4 else rawsz.

Section Contract.
Context (rawsz : Z).
Abbreviation name e := (oid_name rawsz (pe_oid e)).
Abbreviation names es := ((fun e => name e) <$> es).

(** [p] is the opened index of the objects [es]. *)
Record idx_repr (p : packed_git) (es : list pack_idx_entry) : Prop := {
  ir_map : exists map, index_data p = Some map /\ hash_table rawsz (names es) map (fan_at (index_version p)) (table_at (index_version p)) (table_stride rawsz (index_version p));
  ir_version : index_version p = 1 \/ index_version p = 2;
  ir_num : num_objects p = len es;
  ir_off : forall i e, es !! i = Some e -> nth_packed_object_offset rawsz p (Z.of_nat i) = Ok (pe_offset e);
}.

Context (p : packed_git) (es : list pack_idx_entry) (Hrepr : idx_repr p es) (Hes : Forall (pack_entry_ok rawsz) es).

Lemma find_ok oid file : oid_clean rawsz oid -> exists off, find_pack_entry_one rawsz file oid p = Ok (off, p) /\
  ((exists e, e ∈ es /\ name e = oid_name rawsz oid /\ off = pe_offset e) \/ (off = 0 /\ oid_name rawsz oid ∉ names es)).
Proof using Hrepr.
  intros [Hh Hl Hb]. destruct Hrepr as [(map & Hm & Ht) Hv _ Ho]. unfold find_pack_entry_one. rewrite Hm. cbn [mbind res_bind]. change (tr 0) with false. cbv iota.
  destruct (proj1 (total_ok _ _) (bsearch_hash_ok _ _ _ _ _ _ (oid_name rawsz oid) (replicate (Z.to_nat (GIT_MAX_RAWSZ - rawsz)) 0) Ht Hl Hb)) as ([r i] & E & Hi & Hr).
  assert (bsearch_pack rawsz oid p = Ok (r, i)) as ->. { unfold bsearch_pack. rewrite Hm, Hh, <- E. by destruct Hv as [-> | ->]. }
  cbn [mbind res_bind]. destruct Hr as [[-> Hx]|(-> & Hx & _)]; [change (tr 1) with true|change (tr 0) with false]; cbv iota.
  - rewrite list_lookup_fmap in Hx. destruct (es !! Z.to_nat i) as [e|] eqn:He; [|done]. cbn in Hx. injection Hx as Hx.
    specialize (Ho _ _ He). rewrite Z2Nat.id in Ho by lia. rewrite Ho. cbn [mbind res_bind]. eexists. split; [done|]. left. exists e. split_and!; [by eapply list_elem_of_lookup_2|done|done].
  - eexists. split; [done|]. by right.
Qed.

Lemma nth_id_ok algo file i e : 20 <= rawsz <= 32 -> len es < 2 ^ 32 -> algo = 1 \/ algo = 2 -> es !! i = Some e ->
  exists a, hash_algo_by_ptr algo = Ok a /\ nth_packed_object_id rawsz algo file p (Z.of_nat i) = Ok (0, Some (mkOid (oid_hash (pe_oid e)) a), p).
Proof using Hrepr Hes.
  intros Hraw Hnum Ha He. destruct Hrepr as [(map & Hm & [_ _ Hrows _ _]) Hv Hn _]. assert (exists a, hash_algo_by_ptr algo = Ok a) as [a Ea] by (destruct Ha as [-> | ->]; by eexists).
  exists a. split; [done|]. unfold nth_packed_object_id. rewrite Hm. cbn [mbind res_bind]. change (tr 0) with false. cbv iota. rewrite Hm. pose proof (lookup_lt_Some _ _ _ He).
  destruct (Z.leb_spec (num_objects p) (Z.of_nat i)); [rewrite Hn in *; llia|].
  destruct (Hrows i (name e)) as [rest Hrest]; [by rewrite list_lookup_fmap, He|]. eapply Forall_lookup_1 in Hes as [[Hh Hl _] _ _]; [|exact He].
  assert (forall q, 0 <= q -> drop (Z.to_nat q) map = name e ++ rest -> oidread rawsz algo map q = Ok (mkOid (oid_hash (pe_oid e)) a)) as Hread.
  { intros q Hq Hd. unfold oidread. pose proof (drop_room _ _ _ _ Hq Hd ltac:(intros E; rewrite E, len_nil in Hl; lia)) as Hlen. rewrite rd_slice_ok by lia. cbn [mbind res_bind]. rewrite Ea. cbn [mbind res_bind].
    pose proof (drop_slice _ _ _ _ Hd) as Hs. rewrite Hl in Hs. by rewrite Hs, Hh. }
  assert (Z.of_nat i < 2 ^ 32) as Hi32 by llia.
  unfold table_at, table_stride in Hrest. destruct Hv as [Ev|Ev]; rewrite Ev in *; cbn [Z.eqb Pos.eqb] in *.
  - rewrite st_mult_ok by nia. cbn [mbind res_bind]. rewrite st_add_ok by nia. cbn [mbind res_bind]. rewrite Hread; [done|nia|]. rewrite <- Hrest. do 2 f_equal. lia.
  - rewrite st_mult_ok by nia. cbn [mbind res_bind]. rewrite Hread; [done|nia|]. rewrite <- Hrest. do 2 f_equal. lia.
Qed.
End Contract.

(** ** The layout of the files *)

Section Layout.
Context (rawsz : Z) (Hraw : rawsz = 20 \/ rawsz = 32) (opts : pack_idx_option).
Abbreviation name e := (oid_name rawsz (pe_oid e)).
Abbreviation names es := ((fun e => name e) <$> es).
Context (es : list pack_idx_entry) (Hes : Forall (pack_entry_ok rawsz) es) (Hsort : hashes_sorted rawsz (names es)) (Hnum : len es < 2 ^ 31).
Context (trailer digest : list Z) (Htl : len trailer = rawsz) (Htb : is_bytes trailer) (Hdl : len digest = rawsz) (Hdb : is_bytes digest).

Definition idx_file (v : Z) : list Z := concat (idx_chunks rawsz opts v es trailer) ++ digest.

Definition rows1 : list (list Z) := (fun e => be32 (pe_offset e) ++ name e) <$> es.
Definition crcs : list (list Z) := (fun e => be32 (pe_crc32 e)) <$> es.

Lemma idx_file1 : idx_file 1 = concat (fan_cells rawsz es) ++ concat rows1 ++ trailer ++ digest.
Proof using Type.
  unfold idx_file, idx_chunks. cbn [Z.leb Z.ltb Z.compare Pos.compare Pos.compare_cont app]. rewrite concat_app, <- app_assoc. f_equal. rewrite concat_app, <- app_assoc. cbn [concat]. rewrite app_nil_r. f_equal.
  unfold rows1. clear. induction es as [|e l IH]; [done|]. cbn. by rewrite IH.
Qed.

Lemma idx_file2 : idx_file 2 = (be32 PACK_IDX_SIGNATURE ++ be32 2) ++ concat (fan_cells rawsz es) ++ concat (names es) ++ concat crcs ++ concat (offset_cells opts 0 es) ++ concat (large_cells opts es) ++ trailer ++ digest.
Proof using Type.
  unfold idx_file, idx_chunks. change (2 <=? 2) with true. change (2 <? 2) with false. cbv iota. rewrite !concat_app. cbn [concat]. rewrite !app_nil_r. rewrite <- !app_assoc.
  do 4 f_equal. cbn [app]. clear. induction es as [|e l IH]; [done|]. cbn. by rewrite IH.
Qed.

Lemma fan_at_most b : 0 <= fan (names es) b < 2 ^ 31.
Proof using Hnum. pose proof (fan_range (names es) b b ltac:(lia)). assert (len (names es) = len es) as E by (unfold len; by rewrite length_fmap). lia. Qed.

Lemma fan_all : fan (names es) 255 = len es.
Proof using Hraw Hes.
  unfold fan. rewrite filter_all; [unfold len; by rewrite length_fmap|]. rewrite Forall_fmap. eapply Forall_impl; [exact Hes|]. intros e [Ho _ _]. cbn.
  destruct (name_hd rawsz _ ltac:(lia) Ho) as [_ Hb]. unfold is_byte in Hb. lia.
Qed.

Lemma fan_cells_width : Forall (fun c => len c = 4) (fan_cells rawsz es) /\ len (concat (fan_cells rawsz es)) = 1024.
Proof using Type.
  assert (Forall (fun c => len c = 4) (fan_cells rawsz es)) as Hw by (apply Forall_fmap, Forall_true; done). split; [done|].
  rewrite (len_concat_cells 4) by done. unfold fan_cells, len. by rewrite length_fmap, length_seqZ.
Qed.

Lemma fan_cell b : is_byte b -> fan_cells rawsz es !! Z.to_nat b = Some (be32 (fan (names es) b)).
Proof using Type. intros Hb. unfold is_byte in Hb. unfold fan_cells. rewrite list_lookup_fmap, lookup_seqZ_lt by lia. cbn. do 3 f_equal. lia. Qed.

Lemma names_width : Forall (fun c => len c = rawsz) (names es) /\ len (concat (names es)) = len es * rawsz.
Proof using Hsort.
  assert (Forall (fun c => len c = rawsz) (names es)) as Hw by (apply (hs_len _ _ Hsort)). split; [done|]. rewrite (len_concat_cells rawsz) by done. unfold len. by rewrite length_fmap.
Qed.

Lemma rows1_width : Forall (fun c => len c = rawsz + 4) rows1 /\ len (concat rows1) = len es * (rawsz + 4).
Proof using Hes.
  assert (Forall (fun c => len c = rawsz + 4) rows1) as Hw. { apply Forall_fmap. eapply Forall_impl; [exact Hes|]. intros e [[_ Hl _] _ _]. change (len (be32 (pe_offset e) ++ name e) = rawsz + 4). rewrite len_app, Hl. change (len (be32 (pe_offset e))) with 4. lia. }
  split; [done|]. rewrite (len_concat_cells (rawsz + 4)) by done. unfold rows1, len. by rewrite length_fmap.
Qed.

Lemma crcs_width : len (concat crcs) = len es * 4.
Proof using Type. rewrite (len_concat_cells 4) by (apply Forall_fmap, Forall_true; done). unfold crcs, len. by rewrite length_fmap. Qed.

Lemma offset_cells_width k l : Forall (fun c => len c = 4) (offset_cells opts k l) /\ len (offset_cells opts k l) = len l.
Proof using Type. revert k. induction l as [|e l IH]; intros k; [by split|]. cbn [offset_cells]. destruct (large opts (pe_offset e)); destruct (IH (if large opts (pe_offset e) then k + 1 else k)) as [H1 H2]; destruct (IH (k + 1)), (IH k); (split; [by constructor|]); rewrite !len_cons; lia. Qed.

Lemma large_cells_width l : Forall (fun c => len c = 8) (large_cells opts l) /\ len (large_cells opts l) = len (filter (fun e => large opts (pe_offset e) = true) l).
Proof using Type. split; [apply Forall_fmap, Forall_true; done|]. unfold large_cells, len. by rewrite length_fmap. Qed.

Lemma idx_chunks_ok v : Forall (fun x => is_bytes x /\ len x <= 32) (idx_chunks rawsz opts v es trailer).
Proof using Hraw Hes Htl Htb.
  assert (forall x, is_bytes (be32 x) /\ len (be32 x) <= 32) as H32 by (intros x; split; [apply be32_bytes|done]).
  assert (forall k l, Forall (fun x => is_bytes x /\ len x <= 32) (offset_cells opts k l)) as Hob.
  { intros k l. revert k. induction l as [|e l IH]; intros k; [constructor|]. cbn [offset_cells]. destruct (large opts (pe_offset e)); (constructor; [apply H32|apply IH]). }
  unfold idx_chunks. rewrite !Forall_app. split_and!.
  - destruct (2 <=? v); [|constructor]. constructor; [|constructor]. split; [|done]. apply Forall_app. split; apply be32_bytes.
  - apply Forall_fmap, Forall_true. intros b. apply H32.
  - apply Forall_concat, Forall_fmap. eapply Forall_impl; [exact Hes|]. intros e [[_ Hl Hb] _ _]. apply Forall_app. split; [destruct (v <? 2); [apply Forall_singleton, H32|done]|]. apply Forall_singleton. split; [done|lia].
  - destruct (2 <=? v); [|constructor]. rewrite !Forall_app. split_and!; [apply Forall_fmap, Forall_true; intros e; apply H32|apply Hob|]. apply Forall_fmap, Forall_true. intros e. split; [apply be64_bytes|done].
  - apply Forall_singleton. split; [done|lia].
Qed.

Lemma idx_bytes v : is_bytes (idx_file v).
Proof using Hraw Hes Htl Htb Hdb.
  unfold idx_file. apply Forall_app. split; [|done]. apply Forall_concat. eapply Forall_impl; [apply idx_chunks_ok|]. by intros x [].
Qed.

(** ** Opening the files *)

Abbreviation is_large := (fun e => large opts (pe_offset e) = true).

Lemma offset_cell l i e : l !! i = Some e -> forall k,
  offset_cells opts k l !! i = Some (be32 (if large opts (pe_offset e) then 2 ^ 31 + (k + len (filter is_large (take i l))) else pe_offset e)).
Proof using Type.
  revert i. induction l as [|x l IH]; intros i He k; [done|]. destruct i as [|i]; cbn in He.
  - injection He as ->. cbn [offset_cells take]. destruct (large opts (pe_offset e)); [|done]. cbn. by rewrite Z.add_0_r.
  - cbn [offset_cells take]. rewrite filter_cons. destruct (large opts (pe_offset x)); [rewrite decide_True by done|rewrite decide_False by done]; cbn [lookup list_lookup]; rewrite (IH _ He); [|done].
    rewrite len_cons. do 2 f_equal. destruct (large opts (pe_offset e)); [lia|done].
Qed.

Lemma large_cell l i e : l !! i = Some e -> large opts (pe_offset e) = true -> large_cells opts l !! length (filter is_large (take i l)) = Some (be64 (pe_offset e)).
Proof using Type.
  intros He Hl. unfold large_cells. rewrite list_lookup_fmap. set (k := length _). rewrite <- (take_drop_middle l i e He). rewrite filter_app, filter_cons, decide_True by done.
  unfold k. rewrite lookup_app_r by lia. by rewrite Nat.sub_diag.
Qed.

Lemma fan_read v b : v = 1 \/ v = 2 -> is_byte b -> ntohl_at (idx_file v) (fan_at v + 4 * b) = Ok (fan (names es) b).
Proof using Hraw Hes Hnum Htl Htb Hdb.
  intros Hv Hb. assert (exists pre tail, idx_file v = pre ++ concat (fan_cells rawsz es) ++ tail /\ len pre = fan_at v) as (pre & tail & Hf & Hpre).
  { destruct Hv as [->| ->]; [rewrite idx_file1; by eexists [], _|rewrite idx_file2; by eexists _, _]. }
  destruct (in_table pre tail (idx_file v) (fan_cells rawsz es) 4 (Z.to_nat b) _ (fan_at v + 4 * b) Hf (proj1 fan_cells_width) (fan_cell b Hb)) as [rest Hd]; [unfold is_byte in Hb; lia|].
  eapply ntohl_at_drop; [apply idx_bytes| |pose proof (fan_at_most b); lia|exact Hd]. unfold is_byte, fan_at in *. destruct (v =? 1); lia.
Qed.

Lemma monotone_fan v : v = 1 \/ v = 2 -> loop 257 (monotone_step (idx_file v) (fan_at v)) (0, 0) = Ok (Some (len es)).
Proof using Hraw Hes Hnum Htl Htb Hdb.
  intros Hv. assert (total (loop 257 (monotone_step (idx_file v) (fan_at v)) (0, 0)) (fun o => o = Some (len es))) as Ht; [|by apply total_ok in Ht as (o & -> & ->)].
  apply (wp_loop no_fault (fun '(i, nr) => 0 <= i <= 256 /\ nr = if i =? 0 then 0 else fan (names es) (i - 1)) (fun '(i, nr) => Z.to_nat (256 - i))); [|done|lia].
  intros [i nr] [Hi ->]. unfold monotone_step. destruct (Z.ltb_spec i 256) as [Hlt|Hge].
  - rewrite fan_read by (unfold is_byte; done || lia). cbn [mbind res_bind]. pose proof (fan_range (names es) (i - 1) i ltac:(lia)).
    destruct (Z.ltb_spec (fan (names es) i) (if i =? 0 then 0 else fan (names es) (i - 1))) as [Hlt2|_]; [destruct (i =? 0); lia|].
    apply wp_ret. split; [|lia]. split; [lia|]. destruct (Z.eqb_spec (i + 1) 0); [lia|]. f_equal. lia.
  - apply wp_ret. f_equal. replace i with 256 by lia. apply fan_all.
Qed.

(** The numbers of objects and of large offsets that fit the size of the file. *)
Lemma idx_len1 : len (idx_file 1) = 1024 + rawsz + rawsz + len es * (rawsz + 4).
Proof using Hes Htl Hdl. rewrite idx_file1, !len_app. rewrite (proj2 fan_cells_width), (proj2 rows1_width). lia. Qed.

Lemma idx_len2 : len (idx_file 2) = 1032 + rawsz + rawsz + len es * (rawsz + 8) + 8 * len (filter is_large es).
Proof using Hsort Htl Hdl.
  rewrite idx_file2, !len_app. rewrite (proj2 fan_cells_width), (proj2 names_width), crcs_width. destruct (offset_cells_width 0 es) as [H1 H2], (large_cells_width es) as [H3 H4].
  rewrite (len_concat_cells 4), (len_concat_cells 8), H2, H4 by done. change (len (be32 PACK_IDX_SIGNATURE)) with 4. change (len (be32 2)) with 4. lia.
Qed.

Lemma load_idx1 p : load_idx rawsz (Some (idx_file 1)) (len (idx_file 1)) p = Ok (0, mkPack (Some (idx_file 1)) (len (idx_file 1)) (len es) (crc_offset p) 1 (pack_size p)).
Proof using All.
  unfold load_idx. pose proof (len_nonneg es). destruct (Z.ltb_spec (len (idx_file 1)) (4 * 256 + rawsz + rawsz)) as [Hlt|_]; [rewrite idx_len1 in Hlt; nia|].
  pose proof (fan_read 1 0 ltac:(by left) ltac:(done)) as H0. change (fan_at 1 + 4 * 0) with 0 in H0. unfold ntohl_at in H0. destruct (ld32 (idx_file 1) 0) as [s|] eqn:Es; [|done]. cbn [mbind res_bind] in H0 |- *.
  destruct (Z.eqb_spec s (htonl PACK_IDX_SIGNATURE)) as [->|_]; [injection H0 as H0; pose proof (fan_at_most 0) as Hm; rewrite <- H0 in Hm; change (htonl (htonl PACK_IDX_SIGNATURE)) with 0xff744f63 in Hm; lia|]. cbn [mbind res_bind].
  change (if 1 <? 1 then 4 * 2 else 0) with (fan_at 1). rewrite monotone_fan by (by left). cbn [mbind res_bind]. change (1 =? 1) with true. cbv iota.
  rewrite st_mult_ok by nia. cbn [mbind res_bind]. rewrite st_add_ok by nia. cbn [mbind res_bind]. rewrite idx_len1 at 1. rewrite Z.eqb_refl. done.
Qed.

(** There is room for one large offset less than objects. *)
Lemma load_idx2_room p : load_idx rawsz (Some (idx_file 2)) (len (idx_file 2)) p =
  Ok (if Z.max 0 (len es - 1) <? len (filter is_large es) then (-1, p) else (0, mkPack (Some (idx_file 2)) (len (idx_file 2)) (len es) (1032 + len es * rawsz) 2 (pack_size p))).
Proof using All.
  unfold load_idx. pose proof (len_nonneg es). pose proof (len_nonneg (filter is_large es)). destruct (Z.ltb_spec (len (idx_file 2)) (4 * 256 + rawsz + rawsz)) as [Hlt|_]; [rewrite idx_len2 in Hlt; nia|].
  assert (ld32 (idx_file 2) 0 = Ok (htonl PACK_IDX_SIGNATURE) /\ ntohl_at (idx_file 2) 4 = Ok 2) as [-> E4]. { rewrite idx_file2. by split. }
  cbn [mbind res_bind]. rewrite Z.eqb_refl, E4. cbn [mbind res_bind]. change ((2 <? 2) || (2 <? 2)) with false. cbv iota. cbn [mbind res_bind].
  change (if 1 <? 2 then 4 * 2 else 0) with (fan_at 2). rewrite monotone_fan by (by right). cbn [mbind res_bind]. change (2 =? 1) with false. change (2 =? 2) with true. cbv iota.
  rewrite (st_mult_ok (len es) (rawsz + 4 + 4)) by nia. cbn [mbind res_bind]. rewrite (st_add_ok (8 + 4 * 256 + rawsz + rawsz)) by nia. cbn [mbind res_bind].
  set (min_size := 8 + 4 * 256 + rawsz + rawsz + len es * (rawsz + 4 + 4)).
  assert ((if tr (len es) then t ← st_mult (len es - 1) 8; st_add min_size t else Ok min_size) = Ok (min_size + 8 * Z.max 0 (len es - 1))) as ->.
  { destruct (tr (len es)) eqn:Et; [apply tr_true in Et|apply tr_false in Et; rewrite Et; f_equal; cbn; lia]. rewrite st_mult_ok by lia. cbn [mbind res_bind]. rewrite st_add_ok by (unfold min_size; nia). f_equal. lia. }
  cbn [mbind res_bind]. assert (len (idx_file 2) = min_size + 8 * len (filter is_large es)) as El by (rewrite idx_len2; unfold min_size; lia). rewrite El at 1 2.
  destruct (Z.ltb_spec (min_size + 8 * len (filter is_large es)) min_size); [lia|]. cbn [orb].
  destruct (Z.ltb_spec (min_size + 8 * Z.max 0 (len es - 1)) (min_size + 8 * len (filter is_large es))), (Z.ltb_spec (Z.max 0 (len es - 1)) (len (filter is_large es))); try lia; [done|].
  change (sizeof_off_t <=? 4) with false. rewrite andb_false_r. rewrite st_mult_ok by nia. cbn [mbind res_bind]. rewrite st_add_ok by nia. done.
Qed.

Lemma load_idx2 p : (es = [] \/ exists e, e ∈ es /\ large opts (pe_offset e) = false) ->
  load_idx rawsz (Some (idx_file 2)) (len (idx_file 2)) p = Ok (0, mkPack (Some (idx_file 2)) (len (idx_file 2)) (len es) (1032 + len es * rawsz) 2 (pack_size p)).
Proof using All.
  intros Hsmall. rewrite load_idx2_room. destruct (Z.ltb_spec (Z.max 0 (len es - 1)) (len (filter is_large es))) as [Hlt|_]; [|done]. exfalso.
  destruct Hsmall as [E|(e & He & Hf)]; [rewrite E in Hlt; done|]. apply list_elem_of_lookup in He as [i He].
  rewrite <- (take_drop_middle es i e He) in Hlt. rewrite filter_app, filter_cons, decide_False, !len_app, len_cons in Hlt by congruence.
  pose proof (length_filter is_large (take i es)). pose proof (length_filter is_large (drop (S i) es)). llia.
Qed.

(** An index all of whose offsets are large is refused. *)
Lemma all_large_refused p : es <> [] -> Forall is_large es -> load_idx rawsz (Some (idx_file 2)) (len (idx_file 2)) p = Ok (-1, p).
Proof using All.
  intros Hne Hall. rewrite load_idx2_room. rewrite filter_all by done. pose proof (len_nonneg es). destruct (Z.ltb_spec (Z.max 0 (len es - 1)) (len es)); [done|].
  destruct es; [done|]. rewrite len_cons in *. pose proof (len_nonneg l). lia.
Qed.

(** ** Reading them *)

Lemma idx_repr1 size crc ps : Forall (fun e => pe_offset e < 2 ^ 32) es -> idx_repr rawsz (mkPack (Some (idx_file 1)) size (len es) crc 1 ps) es.
Proof using All.
  intros Hoff. pose proof idx_file1 as Hf. pose proof rows1_width as [Hw _]. pose proof (proj2 fan_cells_width) as Hfl.
  assert (forall i e, es !! i = Some e -> exists rest, drop (Z.to_nat (1024 + Z.of_nat i * (rawsz + 4))) (idx_file 1) = be32 (pe_offset e) ++ name e ++ rest) as Hrow.
  { intros i e He. destruct (in_table _ _ _ _ _ i (be32 (pe_offset e) ++ name e) (1024 + Z.of_nat i * (rawsz + 4)) Hf Hw) as [rest Hd]; [by unfold rows1; rewrite list_lookup_fmap, He|lia|].
    exists rest. by rewrite Hd, <- app_assoc. }
  constructor; cbn [index_data index_version num_objects]; [|by left|done|].
  - eexists. split; [done|]. constructor; [done|done| |intros b Hb; by apply fan_read; [left|]|].
    + intros i x Hx. rewrite list_lookup_fmap in Hx. destruct (es !! i) as [e|] eqn:He; [|done]. injection Hx as <-. destruct (Hrow i e He) as [rest Hd]. exists rest.
      unfold table_at, table_stride. cbn [Z.eqb Pos.eqb]. replace (Z.to_nat (1028 + Z.of_nat i * (rawsz + 4))) with (Z.to_nat (1024 + Z.of_nat i * (rawsz + 4)) + 4)%nat by nia. by rewrite <- drop_drop, Hd.
    + unfold table_at, table_stride. cbn [Z.eqb Pos.eqb]. split_and!; [lia|lia|lia|]. unfold len. rewrite length_fmap. llia.
  - intros i e He. destruct (Hrow i e He) as [rest Hd]. unfold nth_packed_object_offset. cbn [index_data index_version num_objects Z.eqb Pos.eqb]. pose proof (lookup_lt_Some _ _ _ He).
    rewrite st_mult_ok by (unfold len in *; nia). cbn [mbind res_bind]. rewrite Forall_lookup in Hoff. specialize (Hoff _ _ He). pose proof (Forall_lookup_1 _ _ _ _ Hes He) as [_ _ Ho].
    eapply ntohl_at_drop; [apply idx_bytes|nia|lia|]. rewrite <- Hd. do 2 f_equal. lia.
Qed.

(** The 32-bit offset of an object, and its 64-bit offset. *)
Definition off_word (i : nat) (e : pack_idx_entry) : Z := if large opts (pe_offset e) then 2 ^ 31 + len (filter is_large (take i es)) else pe_offset e.

Lemma large_before i e : es !! i = Some e -> 0 <= len (filter is_large (take i es)) <= Z.of_nat i /\ Z.of_nat i < len es.
Proof using Type.
  intros He. apply lookup_lt_Some in He. split; [|unfold len; lia]. split; [apply len_nonneg|]. unfold len. pose proof (length_filter is_large (take i es)) as Hlf. rewrite length_take in Hlf. lia.
Qed.

Lemma off_word_ok i e : es !! i = Some e -> 0 <= off_word i e < 2 ^ 32 /\ tr (off_word i e &. 0x80000000) = large opts (pe_offset e).
Proof using Hes Hnum.
  intros He. destruct (large_before i e He) as [Hk Hi]. pose proof (Forall_lookup_1 _ _ _ _ Hes He) as [_ _ Ho]. assert (0 <= off_word i e < 2 ^ 32 /\ (2 ^ 31 <=? off_word i e) = large opts (pe_offset e)) as [Hr E]; [|split; [done|by rewrite bit31]].
  unfold off_word. destruct (large opts (pe_offset e)) eqn:El; [split; [lia|apply Z.leb_le; lia]|]. unfold large in El. apply orb_false_iff in El as [[El%bool_decide_eq_false _]%orb_false_iff _]. split; [lia|]. apply Z.leb_gt. lia.
Qed.

Lemma off32_read i e : es !! i = Some e -> ntohl_at (idx_file 2) (1032 + len es * (rawsz + 4) + 4 * Z.of_nat i) = Ok (off_word i e).
Proof using All.
  intros He. destruct (off_word_ok i e He) as [Hoff _]. destruct (offset_cells_width 0 es) as [How _]. pose proof (offset_cell es i e He 0) as Hcell. rewrite Z.add_0_l in Hcell. change (offset_cells opts 0 es !! i = Some (be32 (off_word i e))) in Hcell.
  assert (idx_file 2 = ((be32 PACK_IDX_SIGNATURE ++ be32 2) ++ concat (fan_cells rawsz es) ++ concat (names es) ++ concat crcs) ++ concat (offset_cells opts 0 es) ++ concat (large_cells opts es) ++ trailer ++ digest) as Hf by (rewrite idx_file2, <- !app_assoc; done).
  destruct (in_table _ _ _ (offset_cells opts 0 es) 4 i (be32 (off_word i e)) (1032 + len es * (rawsz + 4) + 4 * Z.of_nat i) Hf How Hcell) as [rest Hd].
  { rewrite !len_app, (proj2 fan_cells_width), (proj2 names_width), crcs_width. change (len (be32 PACK_IDX_SIGNATURE)) with 4. change (len (be32 2)) with 4. lia. }
  pose proof (len_nonneg es). eapply ntohl_at_drop; [apply idx_bytes|nia|done|exact Hd].
Qed.

Lemma off64_read i e : es !! i = Some e -> large opts (pe_offset e) = true ->
  get_be64 (idx_file 2) (1032 + len es * (rawsz + 8) + 8 * len (filter is_large (take i es))) = Ok (pe_offset e) /\ len (filter is_large (take i es)) < len (filter is_large es).
Proof using All.
  intros He El. pose proof (large_cell es i e He El) as Hcell. destruct (large_cells_width es) as [Hlw Hll]. destruct (large_before i e He) as [Hk Hi]. destruct (offset_cells_width 0 es) as [How Hol]. pose proof (Forall_lookup_1 _ _ _ _ Hes He) as [_ _ Ho].
  split; [|apply lookup_lt_Some in Hcell; rewrite <- Hll; llia].
  assert (idx_file 2 = ((be32 PACK_IDX_SIGNATURE ++ be32 2) ++ concat (fan_cells rawsz es) ++ concat (names es) ++ concat crcs ++ concat (offset_cells opts 0 es)) ++ concat (large_cells opts es) ++ trailer ++ digest) as Hf by (rewrite idx_file2, <- !app_assoc; done).
  destruct (in_table _ _ _ (large_cells opts es) 8 (length (filter is_large (take i es))) (be64 (pe_offset e)) (1032 + len es * (rawsz + 8) + 8 * len (filter is_large (take i es))) Hf Hlw Hcell) as [rest Hd].
  { rewrite !len_app, (proj2 fan_cells_width), (proj2 names_width), crcs_width, (len_concat_cells 4 _ How), Hol. change (len (be32 PACK_IDX_SIGNATURE)) with 4. change (len (be32 2)) with 4. unfold len in *. lia. }
  eapply get_be64_drop; [apply idx_bytes|nia|lia|exact Hd].
Qed.

Lemma idx_repr2 crc ps : idx_repr rawsz (mkPack (Some (idx_file 2)) (len (idx_file 2)) (len es) crc 2 ps) es.
Proof using All.
  pose proof idx_file2 as Hf. pose proof (proj2 fan_cells_width) as Hfl. destruct names_width as [Hnw Hnl].
  constructor; cbn [index_data index_version num_objects]; [|by right|done|].
  - eexists. split; [done|]. constructor; [done|done| |intros b Hb; by apply fan_read; [right|]|].
    + intros i x Hx. rewrite app_assoc in Hf. eapply (in_table _ _ _ (names es) rawsz i x _ Hf Hnw Hx). unfold table_at, table_stride. cbn [Z.eqb Pos.eqb]. rewrite !len_app, Hfl. change (len (be32 PACK_IDX_SIGNATURE)) with 4. change (len (be32 2)) with 4. lia.
    + unfold table_at, table_stride. cbn [Z.eqb Pos.eqb]. split_and!; [lia|lia|lia|]. unfold len. rewrite length_fmap. llia.
  - intros i e He. unfold nth_packed_object_offset. cbn [index_data index_version num_objects Z.eqb Pos.eqb]. destruct (large_before i e He) as [Hk Hi]. pose proof (len_nonneg es).
    rewrite (st_mult_ok (len es) (rawsz + 4)) by nia. cbn [mbind res_bind]. rewrite (st_add_ok 8) by nia. cbn [mbind res_bind]. rewrite (st_mult_ok 4) by nia. cbn [mbind res_bind].
    pose proof (Forall_lookup_1 _ _ _ _ Hes He) as [_ _ Ho]. replace (4 * 256 + (8 + len es * (rawsz + 4)) + 4 * Z.of_nat i) with (1032 + len es * (rawsz + 4) + 4 * Z.of_nat i) by lia.
    rewrite (off32_read i e He). cbn [mbind res_bind]. rewrite (proj2 (off_word_ok i e He)). unfold off_word. destruct (large opts (pe_offset e)) eqn:El; cbn [negb]; [|done].
    set (k := len (filter is_large (take i es))) in *. assert ((2 ^ 31 + k) &. 0x7fffffff = k) as ->. { rewrite (land_mask _ _ 31) by done. rewrite <- Z.add_mod_idemp_l by lia. rewrite Z.mod_same, Z.add_0_l by lia. apply Z.mod_small. lia. }
    rewrite (st_mult_ok (len es) 4) by nia. cbn [mbind res_bind]. rewrite (st_mult_ok k 8) by nia. cbn [mbind res_bind]. rewrite st_add_ok by nia. cbn [mbind res_bind].
    destruct (off64_read i e He El) as [Hrd Hkl]. fold k in Hrd, Hkl. unfold check_pack_index_ptr. cbn [index_size].
    replace (4 * 256 + (8 + len es * (rawsz + 4)) + (len es * 4 + k * 8)) with (1032 + len es * (rawsz + 8) + 8 * k) by lia. destruct (Z.ltb_spec (1032 + len es * (rawsz + 8) + 8 * k) 0); [nia|]. rewrite idx_len2.
    destruct (Z.leb_spec (1032 + rawsz + rawsz + len es * (rawsz + 8) + 8 * len (filter is_large es) - 8) (1032 + len es * (rawsz + 8) + 8 * k)); [lia|]. cbn [mbind res_bind].
    rewrite Hrd. cbn [mbind res_bind]. unfold to_off_t. destruct (Z.ltb_spec (pe_offset e) (2 ^ 63)); [done|lia].
Qed.
End Layout.

(** ** Written and read *)

Section Roundtrip.
Context (rawsz : Z) (Hraw : rawsz = 20 \/ rawsz = 32).
Abbreviation name e := (oid_name rawsz (pe_oid e)).
Abbreviation names es := ((fun e => name e) <$> es).

(** What a reader may expect of the bytes of an index of the objects [objs]. *)
Definition reads_back (data : list Z) (objs : list pack_idx_entry) : Prop := forall p, exists p',
  load_idx rawsz (Some data) (len data) p = Ok (0, p') /\ num_objects p' = len objs /\
  (forall e, e ∈ objs -> find_pack_entry_one rawsz None (pe_oid e) p' = Ok (pe_offset e, p')) /\
  (forall oid, oid_clean rawsz oid -> (forall e, e ∈ objs -> name e <> oid_name rawsz oid) -> find_pack_entry_one rawsz None oid p' = Ok (0, p')).

Lemma repr_find p es oid off file : idx_repr rawsz p es -> NoDup (names es) -> oid_clean rawsz oid ->
  (exists e, e ∈ es /\ name e = oid_name rawsz oid /\ off = pe_offset e) \/ (off = 0 /\ oid_name rawsz oid ∉ names es) -> find_pack_entry_one rawsz file oid p = Ok (off, p).
Proof using Type.
  intros Hr Hnd Ho Hoff. destruct (find_ok rawsz p es Hr oid file Ho) as (off' & -> & Hoff'). do 2 f_equal.
  assert (forall e, e ∈ es -> name e = oid_name rawsz oid -> oid_name rawsz oid ∉ names es -> False) as Hno by (intros e He E Hn; apply Hn; rewrite <- E; exact (list_elem_of_fmap_2 (fun e => name e) _ _ He)).
  destruct Hoff as [(e & He & En & ->)|[-> Hn]], Hoff' as [(e' & He' & En' & ->)|[-> Hn']]; [|by destruct (Hno e He En Hn')|by destruct (Hno e' He' En' Hn)|done].
  apply list_elem_of_lookup in He as [i Hi], He' as [j Hj].
  assert (i = j) as ->. { eapply (NoDup_lookup _ _ _ (name e) Hnd); rewrite list_lookup_fmap; [by rewrite Hi|rewrite Hj; cbn; congruence]. }
  congruence.
Qed.

Lemma file_reads_back opts objs es trailer digest : (io_version opts = 1 \/ io_version opts = 2) -> Forall (pack_entry_ok rawsz) objs -> es ≡ₚ objs -> hashes_sorted rawsz (names es) -> NoDup (names objs) -> len objs < 2 ^ 31 ->
  len trailer = rawsz -> is_bytes trailer -> len digest = rawsz -> is_bytes digest -> (objs = [] \/ exists e, e ∈ objs /\ large opts (pe_offset e) = false) ->
  reads_back (idx_file rawsz opts es trailer digest (idx_version opts objs)) objs.
Proof using Hraw.
  intros Hver Hobjs Hp Hs Hnd Hnum Htl Htb Hdl Hdb Hsmall p. assert (Forall (pack_entry_ok rawsz) es) as Hes by (by rewrite Hp). assert (len es = len objs) as El by (unfold len; by rewrite Hp).
  assert (NoDup (names es)) as Hnd' by (by rewrite Hp). assert (es = [] \/ exists e, e ∈ es /\ large opts (pe_offset e) = false) as Hsm.
  { destruct Hsmall as [E|(e & He & Hf)]; [left; rewrite E in Hp; by apply Permutation_nil_r|right; exists e; by rewrite Hp]. }
  set (data := idx_file rawsz opts es trailer digest (idx_version opts objs)).
  assert (exists p', load_idx rawsz (Some data) (len data) p = Ok (0, p') /\ idx_repr rawsz p' es) as (p' & Hload & Hr).
  { unfold data, idx_version. destruct (large opts (foldr Z.max 0 (pe_offset <$> objs))) eqn:Elg.
    - eexists. split; [apply load_idx2; (done || lia)|]. apply idx_repr2; (done || lia).
    - destruct Hver as [->| ->].
      + eexists. split; [apply load_idx1; (done || lia)|]. apply idx_repr1; try (done || lia). rewrite Hp. apply Forall_forall. intros e He. unfold large in Elg.
        apply orb_false_iff in Elg as [[Elg%bool_decide_eq_false _]%orb_false_iff _]. pose proof (max_ge (pe_offset <$> objs) (pe_offset e) ltac:(by apply list_elem_of_fmap_2)). lia.
      + eexists. split; [apply load_idx2; (done || lia)|]. apply idx_repr2; (done || lia). }
  exists p'. split_and!; [done|rewrite <- El; apply (ir_num _ _ _ Hr)| |].
  - intros e He. rewrite <- Hp in He. rewrite Forall_forall in Hes. apply (repr_find p' es); [done|done|apply (eo_oid _ _ (Hes e He))|]. left. by exists e.
  - intros oid Ho Hn. apply (repr_find p' es); [done|done|done|]. right. split; [done|]. intros (e & E & He)%list_elem_of_fmap. rewrite Hp in He. by apply (Hn e He).
Qed.
End Roundtrip.

Definition with_flags (opts : pack_idx_option) (flags : Z) : pack_idx_option :=
  mkOpts flags (io_version opts) (off32_limit opts) (anomaly_nr opts) (anomaly opts) (delta_base_cache_limit opts).

(** The flags do not matter for the contents. *)
Lemma chunks_flags rawsz opts flags v es trailer : idx_chunks rawsz (with_flags opts flags) v es trailer = idx_chunks rawsz opts v es trailer.
Proof.
  assert (forall k l, offset_cells (with_flags opts flags) k l = offset_cells opts k l) as Ho.
  { intros k l. revert k. induction l as [|e l IH]; intros k; [done|]. cbn [offset_cells]. rewrite !IH. done. }
  unfold idx_chunks. by rewrite Ho.
Qed.

Section Stream.
Context `{!Bsearch} `{!BsearchOk} `{Memory} `{Disk} {C : Type} `{!Hasher C} {space : C -> Prop} {hashing : C -> list Z -> Prop} {digest : list Z -> list Z} `{!HasherOk space hashing digest}.
Context (crc32 : Z -> list Z -> Z) (n : Z) (ctx0 : C) (junk : Z) (qsort : (pack_idx_entry -> pack_idx_entry -> Z) -> list pack_idx_entry -> list pack_idx_entry) `{!QsortOk qsort}.
Context (opts : pack_idx_option) (objs : list pack_idx_entry) (sha1 : list Z).
Abbreviation names es := ((fun e => oid_name hash_rawsz (pe_oid e)) <$> es).
Context (Hsp : space ctx0) (Hn : 0 < n < 2 ^ 64) (Hopts : opts_ok opts) (Hobjs : Forall (pack_entry_ok hash_rawsz) objs) (Hnd : NoDup (names objs)) (Hnum : len objs < 2 ^ 31) (Hsha : hash_rawsz <= len sha1) (Hshab : is_bytes sha1).

(** The contents of the index. *)
Definition idx_data : list Z :=
  let es := sorted_objects qsort objs in let trailer := take (Z.to_nat hash_rawsz) sha1 in
  idx_file hash_rawsz opts es trailer (digest (concat (idx_chunks hash_rawsz opts (idx_version opts objs) es trailer))) (idx_version opts objs).

Lemma trailer_ok : len (take (Z.to_nat hash_rawsz) sha1) = hash_rawsz /\ is_bytes (take (Z.to_nat hash_rawsz) sha1).
Proof using All. split; [destruct hk_rawsz; unfold len in *; rewrite length_take; lia|by apply Forall_take]. Qed.

Lemma idx_small : len idx_data < 2 ^ 61.
Proof using All.
  destruct trailer_ok as [Htl Htb]. destruct (sort_objects hk_rawsz qsort objs Hobjs) as [Hp Hs]. assert (Forall (pack_entry_ok hash_rawsz) (sorted_objects qsort objs)) as Hes by (by rewrite Hp).
  assert (len (sorted_objects qsort objs) = len objs) as El by (unfold len; by rewrite Hp). pose proof (len_nonneg objs). assert (0 < hash_rawsz <= 32) as Hr by (destruct hk_rawsz; lia).
  unfold idx_data. cbv zeta. assert (idx_version opts objs = 1 \/ idx_version opts objs = 2) as [->| ->] by (unfold idx_version; destruct (large _ _); [by right|apply (po_version _ Hopts)]).
  - rewrite idx_len1 by (done || apply hk_len). nia.
  - rewrite idx_len2 by (done || apply hk_len). pose proof (length_filter (fun e => large opts (pe_offset e) = true) (sorted_objects qsort objs)). unfold len in *. nia.
Qed.

Lemma data_reads_back : (objs = [] \/ exists e, e ∈ objs /\ large opts (pe_offset e) = false) -> reads_back hash_rawsz idx_data objs.
Proof using All.
  intros Hsmall. destruct trailer_ok as [Htl Htb]. destruct (sort_objects hk_rawsz qsort objs Hobjs) as [Hp Hs]. apply file_reads_back; try done; [apply hk_rawsz|apply (po_version _ Hopts)|apply hk_len|apply hk_bytes].
Qed.

(** The largest of some offsets is one of them. *)
Lemma max_elem (l : list Z) : l <> [] -> Forall (fun x => 0 <= x) l -> foldr Z.max 0 l ∈ l.
Proof using Type.
  induction l as [|x l IH]; [done|]. intros _ [Hx Hl]%Forall_cons. cbn [foldr]. destruct (decide (l = [])) as [->|Hne].
  - cbn. rewrite Z.max_l by done. left.
  - destruct (Z.max_spec x (foldr Z.max 0 l)) as [[_ ->]|[_ ->]]; [right; by apply IH|left].
Qed.

(** When all the offsets are large the version is 2 and the file is refused. *)
Lemma data_refused p : objs <> [] -> Forall (fun e => large opts (pe_offset e) = true) objs ->
  load_idx hash_rawsz (Some idx_data) (len idx_data) p = Ok (-1, p).
Proof using All.
  intros Hne Hall. destruct trailer_ok as [Htl Htb]. destruct (sort_objects hk_rawsz qsort objs Hobjs) as [Hp Hs].
  assert (idx_version opts objs = 2) as Hv.
  { unfold idx_version. assert (foldr Z.max 0 (pe_offset <$> objs) ∈ pe_offset <$> objs) as (e & -> & He)%list_elem_of_fmap.
    - apply max_elem; [by destruct objs|]. apply Forall_fmap. eapply Forall_impl; [exact Hobjs|]. intros e [_ _ He]. unfold compose. lia.
    - rewrite Forall_forall in Hall. by rewrite (Hall e He). }
  unfold idx_data. cbv zeta. rewrite Hv. apply all_large_refused; try done; [apply hk_rawsz|by rewrite Hp| |apply hk_len|apply hk_bytes| |by rewrite Hp].
  - unfold len in *. by rewrite Hp.
  - intros E. rewrite E in Hp. by apply Permutation_nil_l in Hp.
Qed.

Lemma write_stream flags index_name file fd : let opts' := with_flags opts flags in
  write_idx_file crc32 n ctx0 junk qsort index_name file fd objs (len objs) opts' sha1 =
  (f ← open_idx opts' n ctx0 junk index_name file fd;
   f ← hashwrites crc32 f (idx_chunks hash_rawsz opts (idx_version opts objs) (sorted_objects qsort objs) (take (Z.to_nat hash_rawsz) sha1));
   finalize_hashfile f (idx_flags opts')) ≫= (fun r => Ok (sorted_objects qsort objs, r)).
Proof using All.
  intros opts'. rewrite (write_idx_eq crc32 hk_rawsz opts'); try done; [|by destruct Hopts]. f_equal. apply res_bind_ext. intros f. unfold opts'. by rewrite chunks_flags.
Qed.

Lemma chunks_ok : Forall (fun x => is_bytes x /\ len x < 2 ^ 32) (idx_chunks hash_rawsz opts (idx_version opts objs) (sorted_objects qsort objs) (take (Z.to_nat hash_rawsz) sha1)).
Proof using All.
  destruct trailer_ok as [Htl Htb]. destruct (sort_objects hk_rawsz qsort objs Hobjs) as [Hp Hs].
  eapply Forall_impl; [apply idx_chunks_ok; [apply hk_rawsz|by rewrite Hp|done|done]|]. intros x [Hb Hl]. split; [done|lia].
Qed.

Lemma in_stream flags : tr (idx_flags (with_flags opts flags) &. CSUM_HASH_IN_STREAM) = true.
Proof using Type. unfold idx_flags. cbn [io_flags with_flags]. by destruct (tr (flags &. WRITE_IDX_VERIFY)). Qed.

Lemma idx_written flags index_name file fd : tr (flags &. WRITE_IDX_VERIFY) = false ->
  wp io (write_idx_file crc32 n ctx0 junk qsort index_name file (Some fd) objs (len objs) (with_flags opts flags) sha1) (fun '(objs', (_, _, f)) => objs' ≡ₚ objs /\ hf_out f = idx_data).
Proof using All.
  intros Hfl. rewrite write_stream. unfold open_idx. cbn [io_flags with_flags]. rewrite Hfl. apply wp_bind. pose proof idx_small as Hsm. unfold idx_data, idx_file in Hsm. cbv zeta in Hsm. rewrite len_app in Hsm. pose proof (len_nonneg (digest (concat (idx_chunks hash_rawsz opts (idx_version opts objs) (sorted_objects qsort objs) (take (Z.to_nat hash_rawsz) sha1))))).
  eapply wp_mono; [apply (stream_written (hashing := hashing) (digest := digest)); [done|done|apply chunks_ok|lia|apply in_stream]|].
  intros [[fd' result] f] [-> Hout]. apply wp_ret. split; [by apply (sort_objects hk_rawsz)|done].
Qed.

Lemma idx_checked flags file fd : tr (flags &. WRITE_IDX_VERIFY) = true ->
  wp (fun e => io e \/ (e = Died /\ file <> idx_data)) (write_idx_file crc32 n ctx0 junk qsort true file fd objs (len objs) (with_flags opts flags) sha1) (fun _ => file = idx_data).
Proof using All.
  intros Hfl. rewrite write_stream. unfold open_idx. cbn [io_flags with_flags]. rewrite Hfl. cbn [negb]. apply wp_bind. pose proof idx_small as Hsm. unfold idx_data, idx_file in *. cbv zeta in *. rewrite len_app in Hsm. pose proof (len_nonneg (digest (concat (idx_chunks hash_rawsz opts (idx_version opts objs) (sorted_objects qsort objs) (take (Z.to_nat hash_rawsz) sha1))))).
  eapply wp_mono; [apply (stream_checked (hashing := hashing) (digest := digest)); [done|done|apply chunks_ok|lia|apply in_stream]|].
  intros [[fd' result] f] [-> Hout]. by apply wp_ret.
Qed.
End Stream.

(** C26: an index survives the disk.  For fewer than [2 ^ 31] objects with different names,
    [write_idx_file] writes a file, in either version of the format.  If one of the offsets
    is not large (it fits 31 bits and the configured limit, and is none of the anomalies),
    or there are no objects, [load_idx] accepts the file, and in it [find_pack_entry_one]
    finds every object at the offset it was given, and finds no other name; if there are
    objects and all their offsets are large, [load_idx] refuses the file.  Given an existing
    file to verify, [write_idx_file] succeeds only when that file is what it would have
    written, and dies for another reason only if memory or the operating system fails. *)
Theorem write_idx_roundtrip `{!Bsearch} `{!BsearchOk} `{Memory} `{Disk} {C} `{!Hasher C} {space hashing digest} `{!HasherOk space hashing digest}
    crc32 n (ctx0 : C) junk qsort `{!QsortOk qsort} opts objs sha1 :
  space ctx0 -> 0 < n < 2 ^ 64 -> opts_ok opts -> Forall (pack_entry_ok hash_rawsz) objs -> NoDup ((fun e => oid_name hash_rawsz (pe_oid e)) <$> objs) ->
  len objs < 2 ^ 31 -> hash_rawsz <= len sha1 -> is_bytes sha1 ->
  exists data,
    ((objs = [] \/ exists e, e ∈ objs /\ large opts (pe_offset e) = false) -> reads_back hash_rawsz data objs) /\
    (objs <> [] -> Forall (fun e => large opts (pe_offset e) = true) objs -> forall p, load_idx hash_rawsz (Some data) (len data) p = Ok (-1, p)) /\
    (forall flags index_name file fd, tr (flags &. WRITE_IDX_VERIFY) = false ->
      wp io (write_idx_file crc32 n ctx0 junk qsort index_name file (Some fd) objs (len objs) (with_flags opts flags) sha1) (fun '(objs', (_, _, f)) => objs' ≡ₚ objs /\ hf_out f = data)) /\
    (forall flags file fd, tr (flags &. WRITE_IDX_VERIFY) = true ->
      wp (fun e => io e \/ (e = Died /\ file <> data)) (write_idx_file crc32 n ctx0 junk qsort true file fd objs (len objs) (with_flags opts flags) sha1) (fun _ => file = data)).
Proof.
  intros Hsp Hn Hopts Hobjs Hnd Hnum Hsha Hshab. exists (idx_data (digest := digest) qsort opts objs sha1). split_and!.
  - by apply (data_reads_back (space := space) (hashing := hashing) crc32 n ctx0).
  - intros Hne Hall p. by apply (data_refused (space := space) (hashing := hashing) crc32 n ctx0).
  - intros flags index_name file fd Hfl. by apply (idx_written (space := space) (hashing := hashing)).
  - intros flags file fd Hfl. by apply (idx_checked (space := space) (hashing := hashing)).
Qed.

(** A search from the first cell on. *)
Definition linear_bsearch : Bsearch := fun cmp key l => fst <$> list_find (fun x => cmp key x = 0) l.

Lemma linear_bsearch_ok : @BsearchOk linear_bsearch.
Proof.
  constructor; unfold bsearch, linear_bsearch.
  - intros cmp key l i Hf. destruct (list_find _ l) as [[j x]|] eqn:E; [|done]. injection Hf as <-. apply list_find_Some in E as (Hx & Hc & _). by exists x.
  - intros cmp key l x _ Hf Hx. destruct (list_find (fun x => cmp key x = 0) l) eqn:E; [done|]. apply list_find_None in E. rewrite Forall_forall in E. by apply E.
Qed.

(** Two objects, not in order, one of them far away. *)
Definition ex_objects : list pack_idx_entry :=
  [mkEntry (mkOid (9 :: replicate 19 1 ++ replicate 12 0) 1) 5 (2 ^ 33); mkEntry (mkOid (3 :: replicate 19 1 ++ replicate 12 0) 1) 6 12].
Definition ex_opts : pack_idx_option := reset_pack_idx_option (mkOpts 0 0 0 0 [] 0).

Lemma write_idx_roundtrip_witness :
  exists data, reads_back 20 data ex_objects /\
    (forall flags index_name file fd, tr (flags &. WRITE_IDX_VERIFY) = false ->
      wp (@io plenty good_disk) (@write_idx_file linear_bsearch plenty good_disk _ sha1_hasher (fun c _ => c) 200 (mkCTX 0 (replicate 5 0) (replicate 64 0)) 0 (stable_qsort (mkEntry (mkOid [] 0) 0 0))
        index_name file (Some fd) ex_objects 2 (with_flags ex_opts flags) (replicate 20 7)) (fun '(objs', (_, _, f)) => objs' ≡ₚ ex_objects /\ hf_out f = data)) /\
    (forall flags file fd, tr (flags &. WRITE_IDX_VERIFY) = true ->
      wp (fun e => @io plenty good_disk e \/ (e = Died /\ file <> data)) (@write_idx_file linear_bsearch plenty good_disk _ sha1_hasher (fun c _ => c) 200 (mkCTX 0 (replicate 5 0) (replicate 64 0)) 0 (stable_qsort (mkEntry (mkOid [] 0) 0 0))
        true file fd ex_objects 2 (with_flags ex_opts flags) (replicate 20 7)) (fun _ => file = data)).
Proof.
  destruct (@write_idx_roundtrip linear_bsearch linear_bsearch_ok plenty good_disk blk_SHA_CTX sha1_hasher sha1_space sha_repr Fips.sha1 sha1_hasher_ok (fun c _ => c) 200 (mkCTX 0 (replicate 5 0) (replicate 64 0)) 0 (stable_qsort (mkEntry (mkOid [] 0) 0 0)) _ ex_opts ex_objects (replicate 20 7)) as (data & Hrb & _ & Hw & Hv).
  - split_and!; [done|done|by apply Forall_replicate].
  - done.
  - constructor; [by right|done|apply SSorted_nil].
  - repeat (apply Forall_cons; split); [| |constructor]; (constructor; [constructor; [done|done|by repeat constructor]|done|done]).
  - apply NoDup_cons. split; [|apply NoDup_singleton]. intros E%list_elem_of_singleton. done.
  - done.
  - done.
  - by apply Forall_replicate.
  - exists data. split_and!; [|exact Hw|exact Hv]. apply Hrb. right. exists (mkEntry (mkOid (3 :: replicate 19 1 ++ replicate 12 0) 1) 6 12). split; [apply list_elem_of_further, list_elem_of_here|by vm_compute].
Defined.
