(* ===== verification/RevSort.v ===== *)
(** * The radix sort of the reverse index: [sort_revindex] of [pack-revindex.c]

    A least-significant-radix_digit radix sort with 16-bit digits, each pass a counting sort
    that walks the array backwards to be stable.  [pass_ref] is the reference
    for one pass: the buckets one after the other, each in the old order. *)

From stdpp Require Import prelude numbers list sorting.
From S2P Require Import Prelude PatchDelta Alloc.

Record revindex_entry := mkRe { re_offset : Z; re_nr : Z }.

#[export] Instance revindex_entry_inhabited : Inhabited revindex_entry := populate (mkRe 0 0).

Definition DIGIT_SIZE : Z := 16.
Definition BUCKETS : Z := 65536.
Definition UINT_MAX : Z := 0xffffffff.

(** A right shift of an [off_t]: undefined when it is by the width or more. *)
Definition shr_off (x bits : Z) : res Z := if bits <? 64 then Ok (x >>. bits) else Fault UB.

Definition BUCKET_FOR (e : revindex_entry) (bits : Z) : res Z := x ← shr_off (re_offset e) bits; Ok (x &. (BUCKETS - 1)).

Definition count_body (from : list revindex_entry) (bits i : Z) (pos : list Z) : res (list Z) :=
  e ← rd from i; b ← BUCKET_FOR e bits; x ← rd pos b; wr pos b (u32 (x + 1)).

Definition sum_body (i : Z) (pos : list Z) : res (list Z) :=
  x ← rd pos i; y ← rd pos (i - 1); wr pos i (u32 (x + y)).

(** The loop that goes down until the index wraps around. *)
Definition place_step (from : list revindex_entry) (bits : Z) (st : list revindex_entry * list Z * Z) : res (list revindex_entry * list Z * Z + list revindex_entry) :=
  let '(to, pos, i) := st in
  if i =? UINT_MAX then Ok (inr to)
  else
    e ← rd from i; b ← BUCKET_FOR e bits;
    x ← rd pos b;
    let x := u32 (x - 1) in
    pos ← wr pos b x;
    to ← wr to x e;
    Ok (inl (to, pos, u32 (i - 1))).

(** One turn: [pos] is cleared and [to] is filled. *)
Definition radix_pass (from to : list revindex_entry) (n bits : Z) : res (list revindex_entry) :=
  pos ← for_range (Z.to_nat n) 0 (count_body from bits) (replicate (Z.to_nat BUCKETS) 0);
  pos ← for_range (Z.to_nat (BUCKETS - 1)) 1 sum_body pos;
  loop (S (Z.to_nat n)) (place_step from bits) (to, pos, u32 (n - 1)).

(** [from], [to], whether [from] is [entries], and [bits]. *)
Definition radix_step (n max : Z) (st : list revindex_entry * list revindex_entry * bool * Z)
    : res (list revindex_entry * list revindex_entry * bool * Z + list revindex_entry * list revindex_entry * bool) :=
  let '(from, to, at_entries, bits) := st in
  x ← shr_off max bits;
  if tr x then
    to ← radix_pass from to n bits;
    Ok (inl (to, from, negb at_entries, bits + DIGIT_SIZE))
  else Ok (inr (from, to, at_entries)).

(** [sizeof(struct revindex_entry)] is 16; [junk] fills the new array. *)
Definition sort_revindex `{Memory} (junk : revindex_entry) (entries : list revindex_entry) (n max : Z) : res (list revindex_entry) :=
  _ ← ALLOC_ARRAY 0 4 BUCKETS;
  tmp ← ALLOC_ARRAY junk 16 n;
  '(from, to, at_entries) ← loop 6 (radix_step n max) (entries, tmp, true, 0);
  if negb at_entries then src ← rd_slice from 0 n; wr_slice to 0 src else Ok from.

(** ** The reference *)

Section Pass.
Context {A : Type} (key : A -> Z) (B : nat).

Definition key_bucket (b : Z) (l : list A) : list A := filter (fun e => key e = b) l.
Definition pass_ref (l : list A) : list A := concat ((fun b => key_bucket b l) <$> seqZ 0 (Z.of_nat B)).

(** The number of elements in the buckets before [b]. *)
Definition start (l : list A) (b : nat) : Z := len (concat ((fun b => key_bucket b l) <$> seqZ 0 (Z.of_nat b))).

Lemma concat_seq_S (f : Z -> list A) (b : nat) : concat (f <$> seqZ 0 (Z.of_nat (S b))) = concat (f <$> seqZ 0 (Z.of_nat b)) ++ f (Z.of_nat b).
Proof using Type.
  replace (Z.of_nat (S b)) with (Z.of_nat b + 1) by lia. rewrite seqZ_app by lia. rewrite fmap_app, concat_app. f_equal. rewrite seqZ_cons, seqZ_nil by lia. cbn [fmap list_fmap concat]. by rewrite app_nil_r.
Qed.

Lemma start_S l b : start l (S b) = start l b + len (key_bucket (Z.of_nat b) l).
Proof using Type. unfold start. rewrite <- len_app. f_equal. apply concat_seq_S. Qed.

Lemma pass_perm_aux b l : Forall (fun e => 0 <= key e) l -> concat ((fun b => key_bucket b l) <$> seqZ 0 (Z.of_nat b)) ≡ₚ filter (fun e => key e < Z.of_nat b) l.
Proof using Type.
  intros Hk. induction b as [|b IH].
  - cbn. rewrite list_filter_none; [done|]. eapply Forall_impl; [exact Hk|]. cbn. lia.
  - rewrite concat_seq_S, IH. replace (Z.of_nat (S b)) with (Z.of_nat b + 1) by lia. clear IH Hk.
    induction l as [|e l IH]; [done|]. unfold key_bucket in *. rewrite !filter_cons. destruct (decide (key e < Z.of_nat b)), (decide (key e = Z.of_nat b)), (decide (key e < Z.of_nat b + 1)); try lia; cbn [app]; rewrite <- ?Permutation_middle, IH; done.
Qed.

Lemma pass_perm l : Forall (fun e => 0 <= key e < Z.of_nat B) l -> pass_ref l ≡ₚ l.
Proof using Type.
  intros Hk. unfold pass_ref. rewrite pass_perm_aux by (eapply Forall_impl; [exact Hk|]; cbn; lia). rewrite filter_all; [done|]. eapply Forall_impl; [exact Hk|]. cbn. lia.
Qed.

(** Sorted by the key and, inside of a bucket, as before. *)
Lemma pass_sorted (R Q : A -> A -> Prop) l : StronglySorted R l -> (forall x y, key x < key y -> Q x y) -> (forall x y, key x = key y -> R x y -> Q x y) -> StronglySorted Q (pass_ref l).
Proof using Type.
  intros Hs Hlt Heq. unfold pass_ref. generalize 0. induction B as [|b IH]; intros s; [constructor|]. rewrite seqZ_cons by lia. cbn [fmap list_fmap concat].
  replace (Z.pred (Z.of_nat (S b))) with (Z.of_nat b) by lia. specialize (IH (Z.succ s)).
  assert (forall x, x ∈ concat ((fun b0 => key_bucket b0 l) <$> seqZ (Z.succ s) (Z.of_nat b)) -> s < key x) as Hhi.
  { intros x Hx. apply list_elem_of_In, in_concat in Hx as (c & Hc & Hx). apply list_elem_of_In, list_elem_of_fmap in Hc as (b' & -> & Hb'). apply elem_of_seqZ in Hb'. apply list_elem_of_In, list_elem_of_filter in Hx as [<- _]. lia. }
  set (tl := concat _) in *. clearbody tl. unfold key_bucket. induction Hs as [|e l Hs IHs Hall]; [done|]. rewrite filter_cons. destruct (decide (key e = s)) as [Hk|Hk]; [|by apply IHs].
  cbn [app]. apply SSorted_cons; [by apply IHs|]. apply Forall_forall. intros x Hx. apply elem_of_app in Hx as [Hx|Hx].
  - apply list_elem_of_filter in Hx as [Hkx Hx]. rewrite Forall_forall in Hall. apply Heq; [congruence|by apply Hall].
  - apply Hlt. rewrite Hk. by apply Hhi.
Qed.

(** Where an element goes: behind the earlier ones of its bucket. *)
Definition rank (l : list A) (i : nat) (e : A) : Z := start l (Z.to_nat (key e)) + len (key_bucket (key e) (take i l)).

Lemma filter_rank (P : A -> Prop) `{!forall x, Decision (P x)} l i e : l !! i = Some e -> P e -> filter P l !! length (filter P (take i l)) = Some e.
Proof using Type.
  intros He Hp. set (k := length _). rewrite <- (take_drop_middle l i e He). rewrite filter_app, filter_cons, decide_True by done. unfold k. rewrite lookup_app_r by lia. by rewrite Nat.sub_diag.
Qed.

Lemma filter_unrank (P : A -> Prop) `{!forall x, Decision (P x)} l : forall o e, filter P l !! o = Some e -> exists i, l !! i = Some e /\ P e /\ o = length (filter P (take i l)).
Proof using Type.
  induction l as [|x l IH]; intros o e; [done|]. rewrite filter_cons. destruct (decide (P x)) as [Hx|Hx].
  - destruct o as [|o]; cbn; [intros [= ->]; exists 0%nat; done|]. intros (i & Hi & Hp & ->)%IH. exists (S i). split_and!; [done|done|]. cbn [take]. by rewrite filter_cons, decide_True by done.
  - intros (i & Hi & Hp & ->)%IH. exists (S i). split_and!; [done|done|]. cbn [take]. by rewrite filter_cons, decide_False by done.
Qed.

Lemma concat_buckets_lookup l (m : nat) : forall b o e, (b < m)%nat -> key_bucket (Z.of_nat b) l !! o = Some e ->
  concat ((fun b => key_bucket b l) <$> seqZ 0 (Z.of_nat m)) !! (Z.to_nat (start l b) + o)%nat = Some e.
Proof using Type.
  intros b o e Hb He. replace (Z.of_nat m) with (Z.of_nat (S b) + Z.of_nat (m - S b)) by lia. rewrite seqZ_app by lia. rewrite fmap_app, concat_app, concat_seq_S.
  apply lookup_app_l_Some. rewrite lookup_app_r by (unfold start, len; lia). by replace (_ + o - _)%nat with o by (unfold start, len; lia).
Qed.

Lemma pass_rank l i e : l !! i = Some e -> 0 <= key e < Z.of_nat B -> pass_ref l !! Z.to_nat (rank l i e) = Some e.
Proof using Type.
  intros He Hk. unfold pass_ref, rank. pose proof (len_nonneg (key_bucket (key e) (take i l))). assert (0 <= start l (Z.to_nat (key e))) by apply len_nonneg.
  replace (Z.to_nat (start l (Z.to_nat (key e)) + len (key_bucket (key e) (take i l)))) with (Z.to_nat (start l (Z.to_nat (key e))) + length (key_bucket (key e) (take i l)))%nat by llia.
  apply concat_buckets_lookup; [lia|]. rewrite Z2Nat.id by lia. unfold key_bucket. by apply filter_rank.
Qed.

(** Every place is the place of some element. *)
Lemma pass_unrank l r e : pass_ref l !! r = Some e -> exists i, l !! i = Some e /\ Z.of_nat r = rank l i e /\ 0 <= key e < Z.of_nat B.
Proof using Type.
  unfold pass_ref. generalize B as m. induction m as [|m IH]; [done|]. intros Hr. rewrite concat_seq_S in Hr.
  apply lookup_app_Some in Hr as [Hr|[Hlen Hr]].
  - destruct (IH Hr) as (i & Hi & Hrk & Hk). exists i. split_and!; [done|done|lia|lia].
  - apply filter_unrank in Hr as (i & Hi & Hk & Ho). exists i. split_and!; [done| |lia|lia]. unfold rank, start, key_bucket. rewrite Hk, Nat2Z.id. unfold len, key_bucket in *. lia.
Qed.
End Pass.

(** ** The table of counters *)

(** [B] counters that hold the values of [f]. *)
Definition tab (B : Z) (f : Z -> Z) : list Z := f <$> seqZ 0 B.

Lemma tab_lookup B f i : 0 <= i < B -> tab B f !! Z.to_nat i = Some (f i).
Proof. intros Hi. unfold tab. rewrite list_lookup_fmap, lookup_seqZ_lt by lia. cbn. do 2 f_equal. lia. Qed.

Lemma tab_len B f : 0 <= B -> len (tab B f) = B.
Proof. intros HB. unfold tab, len. rewrite length_fmap, length_seqZ. lia. Qed.

Lemma tab_rd B f i : 0 <= i < B -> rd (tab B f) i = Ok (f i).
Proof. intros Hi. apply rd_Some; [lia|by apply tab_lookup]. Qed.

Lemma tab_ext B f g : (forall i, 0 <= i < B -> f i = g i) -> tab B f = tab B g.
Proof. intros E. apply list_fmap_ext. intros k x Hx. apply E. apply lookup_seqZ in Hx. lia. Qed.

Lemma tab_wr B f i x : 0 <= i < B -> wr (tab B f) i x = Ok (tab B (fun c => if c =? i then x else f c)).
Proof.
  intros Hi. pose proof (tab_len B f ltac:(lia)) as Hl. rewrite wr_ok by lia. f_equal. apply list_eq. intros k.
  destruct (decide (k = Z.to_nat i)) as [->|Hne].
  - rewrite list_lookup_insert_eq by llia. rewrite tab_lookup by done. by rewrite Z.eqb_refl.
  - rewrite list_lookup_insert_ne by done. destruct (decide (Z.of_nat k < B)) as [Hk|Hk].
    + rewrite <- (Nat2Z.id k), !tab_lookup by lia. destruct (Z.eqb_spec (Z.of_nat k) i); [lia|done].
    + rewrite !lookup_ge_None_2; [done|pose proof (tab_len B (fun c => if c =? i then x else f c)); llia|llia].
Qed.

Lemma tab_replicate B x : replicate (Z.to_nat B) x = tab B (fun _ => x).
Proof. unfold tab. symmetry. replace (Z.to_nat B) with (length (seqZ 0 B)) by apply length_seqZ. generalize (seqZ 0 B) as l. induction l as [|y l IH]; [done|]. cbn. by rewrite IH. Qed.

(** ** One pass *)

Definition radix_digit (bits : Z) (e : revindex_entry) : Z := (re_offset e >>. bits) `mod` 2 ^ 16.

Lemma BUCKET_FOR_ok e bits : bits < 64 -> BUCKET_FOR e bits = Ok (radix_digit bits e) /\ 0 <= radix_digit bits e < BUCKETS.
Proof.
  intros Hb. unfold BUCKET_FOR, shr_off, radix_digit. destruct (Z.ltb_spec bits 64); [|lia]. cbn [mbind res_bind]. split; [|change BUCKETS with (2 ^ 16); apply Z.mod_pos_bound; lia]. f_equal. by apply (land_mask _ _ 16).
Qed.

Lemma bucket_len {A} (key : A -> Z) b l : 0 <= len (key_bucket key b l) <= len l.
Proof. split; [apply len_nonneg|]. unfold key_bucket, len. pose proof (length_filter (fun e => key e = b) l). lia. Qed.

Lemma bucket_take_S {A} (key : A -> Z) b l i e : l !! i = Some e -> len (key_bucket key b (take (S i) l)) = len (key_bucket key b (take i l)) + (if key e =? b then 1 else 0).
Proof.
  intros He. rewrite (take_S_r _ _ _ He). unfold key_bucket. rewrite filter_app, len_app, filter_cons. destruct (Z.eqb_spec (key e) b); [by rewrite decide_True|by rewrite decide_False].
Qed.

Section Passes.
Context (bits : Z) (Hbits : bits < 64) (l rest : list revindex_entry) (Hn : len l < 2 ^ 32).
Abbreviation key := (radix_digit bits).
Abbreviation B := (Z.to_nat BUCKETS).

Lemma BUCKETS_val : BUCKETS = 65536.
Proof using Type. done. Qed.

Opaque BUCKETS.

Lemma keys_ok : Forall (fun e => 0 <= key e < Z.of_nat B) l.
Proof using Hbits. apply Forall_true. intros e. rewrite Z2Nat.id by (rewrite BUCKETS_val; lia). by apply BUCKET_FOR_ok. Qed.

Lemma start_le b : 0 <= start key l b <= len l.
Proof using Hbits.
  split; [apply len_nonneg|]. unfold start, len. rewrite pass_perm_aux by (eapply Forall_impl; [apply keys_ok|]; cbn; lia). pose proof (length_filter (fun e => key e < Z.of_nat b) l). lia.
Qed.

Lemma entry_rd i : 0 <= i < len l -> exists e, l !! Z.to_nat i = Some e /\ rd (l ++ rest) i = Ok e.
Proof using Type.
  intros Hi. destruct (lookup_lt_is_Some_2 l (Z.to_nat i)) as [e He]; [llia|]. exists e. split; [done|]. apply rd_Some; [lia|]. by apply lookup_app_l_Some.
Qed.

Lemma count_ok : total (for_range (length l) 0 (count_body (l ++ rest) bits) (replicate B 0)) (fun pos => pos = tab BUCKETS (fun b => len (key_bucket key b l))).
Proof using Hbits Hn.
  eapply wp_mono; [apply (wp_for_range no_fault (fun i pos => pos = tab BUCKETS (fun b => len (key_bucket key b (take (Z.to_nat i) l)))))|].
  - intros i pos Hi ->. destruct (entry_rd i) as (e & He & Hr); [llia|]. unfold count_body. rewrite Hr. cbn [mbind res_bind]. destruct (BUCKET_FOR_ok e bits Hbits) as [-> Hk]. cbn [mbind res_bind].
    rewrite tab_rd by done. cbn [mbind res_bind]. rewrite tab_wr by done. apply wp_ret. apply tab_ext. intros b Hb. replace (Z.to_nat (i + 1)) with (S (Z.to_nat i)) by lia.
    rewrite (bucket_take_S _ _ _ _ e He). rewrite (Z.eqb_sym b). pose proof (bucket_len key b (take (Z.to_nat i) l)) as Hl. unfold len in Hl, Hn. rewrite length_take in Hl.
    destruct (Z.eqb_spec (key e) b) as [->|]; [|lia]. apply u32_small. unfold len in *. lia.
  - cbn. apply tab_replicate.
  - intros pos ->. apply tab_ext. intros b Hb. rewrite Z.add_0_l, Nat2Z.id. by rewrite firstn_all.
Qed.

Lemma sum_ok : total (for_range (Z.to_nat (BUCKETS - 1)) 1 sum_body (tab BUCKETS (fun b => len (key_bucket key b l)))) (fun pos => pos = tab BUCKETS (fun b => start key l (Z.to_nat (b + 1)))).
Proof using Hbits Hn.
  pose proof BUCKETS_val as HB.
  eapply wp_mono; [apply (wp_for_range no_fault (fun i pos => pos = tab BUCKETS (fun b => if b <? i then start key l (Z.to_nat (b + 1)) else len (key_bucket key b l))))|].
  - intros i pos Hi ->. unfold sum_body. rewrite !tab_rd by lia. cbn [mbind res_bind]. destruct (Z.ltb_spec i i); [lia|]. destruct (Z.ltb_spec (i - 1) i); [|lia].
    rewrite tab_wr by lia. apply wp_ret. apply tab_ext. intros b Hb.
    destruct (Z.eqb_spec b i) as [->|Hne]; [|destruct (Z.ltb_spec b i), (Z.ltb_spec b (i + 1)); (done || lia)]. destruct (Z.ltb_spec i (i + 1)); [|lia].
    replace (Z.to_nat (i + 1)) with (S (Z.to_nat i)) by lia. pose proof (start_S key l (Z.to_nat i)) as Hs. rewrite Z2Nat.id in Hs by lia. replace (Z.to_nat (i - 1 + 1)) with (Z.to_nat i) by lia.
    pose proof (start_le (S (Z.to_nat i))). rewrite u32_small by lia. lia.
  - apply tab_ext. intros b Hb. destruct (Z.ltb_spec b 1); [|done]. replace b with 0 by lia. change (Z.to_nat (0 + 1)) with 1%nat. by rewrite start_S.
  - intros pos ->. apply tab_ext. intros b Hb. destruct (Z.ltb_spec b (1 + Z.of_nat (Z.to_nat (BUCKETS - 1)))); [done|lia].
Qed.

(** The elements from [j] on are at their places. *)
Record placed_from (to0 to : list revindex_entry) (pos : list Z) (j : Z) : Prop := {
  pl_j : 0 <= j <= len l;
  pl_pos : pos = tab BUCKETS (fun b => start key l (Z.to_nat b) + len (key_bucket key b (take (Z.to_nat j) l)));
  pl_len : length to = length to0 /\ drop (length l) to = drop (length l) to0;
  pl_to : forall k e, (Z.to_nat j <= k)%nat -> l !! k = Some e -> to !! Z.to_nat (rank key l k e) = Some e;
}.

Lemma rank_lt k e : l !! k = Some e -> 0 <= rank key l k e < len l.
Proof using Hbits.
  intros He. pose proof keys_ok as Hk. rewrite Forall_lookup in Hk. specialize (Hk _ _ He). pose proof (pass_rank key B l k e He Hk) as Hp. apply lookup_lt_Some in Hp. rewrite (pass_perm key B l keys_ok) in Hp.
  assert (0 <= rank key l k e); [|llia]. unfold rank. pose proof (len_nonneg (key_bucket key (key e) (take k l))). pose proof (start_le (Z.to_nat (key e))). lia.
Qed.

Lemma place_ok to0 : len l <= len to0 ->
  total (loop (S (length l)) (place_step (l ++ rest) bits) (to0, tab BUCKETS (fun b => start key l (Z.to_nat (b + 1))), u32 (len l - 1))) (fun to => exists pos, placed_from to0 to pos 0).
Proof using Hbits Hn.
  intros Hl0. pose proof BUCKETS_val as HB. pose proof (len_nonneg l).
  assert (forall j, 0 <= j <= len l -> u32 (j - 1) = if j =? 0 then UINT_MAX else j - 1) as Hu.
  { intros j Hj. destruct (Z.eqb_spec j 0) as [->|]; [done|]. apply u32_small. lia. }
  apply (wp_loop no_fault (fun '(to, pos, i) => exists j, i = u32 (j - 1) /\ placed_from to0 to pos j) (fun '(to, pos, i) => Z.to_nat (u32 (i + 1)))).
  - intros [[to pos] i] (j & -> & [Hj Hpos Hlen Hto]). unfold place_step. rewrite Hu by done. destruct (Z.eqb_spec j 0) as [->|Hj0].
    + change (UINT_MAX =? UINT_MAX) with true. apply wp_ret. by exists pos.
    + destruct (Z.eqb_spec (j - 1) UINT_MAX) as [E|_]; [unfold UINT_MAX in E; lia|]. destruct (entry_rd (j - 1)) as (e & He & ->); [lia|]. cbn [mbind res_bind].
      destruct (BUCKET_FOR_ok e bits Hbits) as [-> Hk]. cbn [mbind res_bind]. rewrite Hpos, tab_rd by done. cbn [mbind res_bind]. cbv zeta.
      assert (Z.to_nat j = S (Z.to_nat (j - 1))) as Ej by lia. pose proof (rank_lt _ _ He) as Hrk.
      assert (start key l (Z.to_nat (key e)) + len (key_bucket key (key e) (take (Z.to_nat j) l)) - 1 = rank key l (Z.to_nat (j - 1)) e) as ->.
      { unfold rank. rewrite Ej, (bucket_take_S _ _ _ _ e He), Z.eqb_refl. lia. }
      rewrite (u32_small (rank key l (Z.to_nat (j - 1)) e)) by lia. rewrite tab_wr by done. cbn [mbind res_bind]. rewrite wr_ok by (unfold len in *; lia). cbn [mbind res_bind]. apply wp_ret. split.
      * exists (j - 1). split; [done|]. constructor; [lia| | |].
        -- apply tab_ext. intros b Hb. rewrite Ej, (bucket_take_S _ _ _ _ e He), (Z.eqb_sym b). destruct (Z.eqb_spec (key e) b) as [<-|]; [done|lia].
        -- rewrite length_insert. split; [apply Hlen|]. rewrite drop_insert_lt by llia. apply Hlen.
        -- intros k e' Hk' He'. destruct (decide (k = Z.to_nat (j - 1))) as [->|Hne].
           ++ rewrite He in He'. injection He' as <-. apply list_lookup_insert_eq. llia.
           ++ destruct (decide (Z.to_nat (rank key l k e') = Z.to_nat (rank key l (Z.to_nat (j - 1)) e))) as [Er|Er]; [|rewrite list_lookup_insert_ne by done; apply Hto; [lia|done]].
              rewrite Er. rewrite list_lookup_insert_eq by llia. rewrite <- (pass_rank key B l _ e He); [|rewrite Z2Nat.id; lia]. rewrite <- Er. apply pass_rank; [done|]. pose proof keys_ok as Hks. rewrite Forall_lookup in Hks. by eapply Hks.
      * rewrite Hu by lia. destruct (Z.eqb_spec (j - 1) 0) as [E|E]; [change (u32 (UINT_MAX + 1)) with 0; rewrite u32_small by lia; lia|]. rewrite !u32_small by lia. lia.
  - exists (len l). split; [done|]. constructor; [lia| |done|].
    + apply tab_ext. intros b Hb. replace (Z.to_nat (b + 1)) with (S (Z.to_nat b)) by lia. rewrite start_S, Z2Nat.id by lia. unfold len at 2 3. rewrite Nat2Z.id, firstn_all. done.
    + intros k e Hk He. apply lookup_lt_Some in He. llia.
  - rewrite Hu by lia. destruct (Z.eqb_spec (len l) 0) as [_|]; [change (u32 (UINT_MAX + 1)) with 0; lia|]. rewrite u32_small by lia. llia.
Qed.

Lemma placed_all to0 to pos : placed_from to0 to pos 0 -> to = pass_ref key B l ++ drop (length l) to0.
Proof using Hbits.
  intros [_ _ [Hlen Hdrop] Hto]. rewrite <- (take_drop (length l) to), Hdrop. f_equal. pose proof (Permutation_length (pass_perm key B l keys_ok)) as Hpl. apply list_eq. intros r. destruct (decide (r < length l)%nat) as [Hr|Hr].
  - destruct (lookup_lt_is_Some_2 (pass_ref key B l) r) as [e He]; [lia|]. rewrite He. destruct (pass_unrank key B l r e He) as (i & Hi & Erk & _). rewrite lookup_take_lt by done.
    specialize (Hto i e ltac:(lia) Hi). rewrite <- Erk, Nat2Z.id in Hto. done.
  - rewrite !lookup_ge_None_2; [done|lia|rewrite length_take; lia].
Qed.

Lemma radix_pass_ok to0 : len l <= len to0 -> total (radix_pass (l ++ rest) to0 (len l) bits) (fun to => to = pass_ref key B l ++ drop (length l) to0).
Proof using Hbits Hn.
  intros Hl0. unfold radix_pass. assert (Z.to_nat (len l) = length l) as -> by llia.
  apply wp_bind. eapply wp_mono; [apply count_ok|]. intros pos ->. apply wp_bind. eapply wp_mono; [apply sum_ok|]. intros pos ->.
  eapply wp_mono; [by apply place_ok|]. intros to [pos Hp]. by eapply placed_all.
Qed.
End Passes.

(** ** The sort *)

Section Sort.
Context (l0 tail : list revindex_entry) (max : Z) (Hn : len l0 < 2 ^ 32) (Hmax : 0 <= max < 2 ^ 63).

(** The first cells are sorted by the low [bits] bits of the offsets, and the
    cells behind the sorted ones of [entries] are not touched. *)
Record radix_inv (from to : list revindex_entry) (at_entries : bool) (bits : Z) : Prop := {
  ri_bits : bits = 0 \/ bits = 16 \/ bits = 32 \/ bits = 48 \/ bits = 64;
  ri_from : exists l, from = l ++ (if at_entries then tail else []) /\ l ≡ₚ l0 /\ StronglySorted (fun x y => re_offset x `mod` 2 ^ bits <= re_offset y `mod` 2 ^ bits) l;
  ri_to : exists l, to = l ++ (if at_entries then [] else tail) /\ length l = length l0;
}.

Lemma radix_turn from to at_entries bits : bits < 64 -> radix_inv from to at_entries bits ->
  total (radix_pass from to (len l0) bits) (fun to' => radix_inv to' from (negb at_entries) (bits + DIGIT_SIZE)).
Proof using Hn.
  intros Hb [Hbits (l & -> & Hp & Hs) (k & -> & Hk)]. pose proof (Permutation_length Hp) as Hl. assert (len l0 = len l) as E by llia. rewrite E.
  eapply wp_mono; [apply radix_pass_ok; [done|lia|unfold len; rewrite length_app; lia]|]. intros to ->. constructor.
  - unfold DIGIT_SIZE. lia.
  - eexists. split; [|split].
    + apply (f_equal2 (@app revindex_entry)); [reflexivity|]. rewrite drop_app_length' by lia. by destruct at_entries.
    + rewrite <- Hp. apply pass_perm, keys_ok, Hb.
    + assert (forall x : revindex_entry, re_offset x `mod` 2 ^ (bits + DIGIT_SIZE) = re_offset x `mod` 2 ^ bits + 2 ^ bits * radix_digit bits x) as Hmod.
      { intros x. unfold radix_digit, DIGIT_SIZE. rewrite Z.pow_add_r, Z.shiftr_div_pow2 by lia. apply Z.rem_mul_r; lia. }
      eapply pass_sorted; [exact Hs| |]; intros x y; cbn beta; rewrite !Hmod; pose proof (Z.mod_pos_bound (re_offset x) (2 ^ bits) ltac:(lia)); pose proof (Z.mod_pos_bound (re_offset y) (2 ^ bits) ltac:(lia)); [nia|].
      intros -> Hxy. lia.
  - exists l. split; [by destruct at_entries|lia].
Qed.

Lemma radix_init junk : radix_inv (l0 ++ tail) (replicate (length l0) junk) true 0.
Proof using Type.
  constructor; [by left| |exists (replicate (length l0) junk); by rewrite app_nil_r, length_replicate].
  exists l0. split_and!; [done|done|]. generalize l0 as l. clear. induction l as [|x l IH]; [constructor|]. apply SSorted_cons; [done|]. apply Forall_true. intros y. change (2 ^ 0) with 1. by rewrite !Z.mod_1_r.
Qed.

Lemma shr_zero bits : 0 <= bits < 64 -> shr_off max bits = Ok (max >>. bits) /\ (tr (max >>. bits) = false <-> max < 2 ^ bits).
Proof using Hmax.
  intros Hb. unfold shr_off. destruct (Z.ltb_spec bits 64); [|lia]. split; [done|]. rewrite tr_false, Z.shiftr_div_pow2 by lia. split; [intros E|intros; apply Z.div_small; lia].
  apply Z.div_small_iff in E; [|lia]. lia.
Qed.

(** With a 48-bit size every offset is compared in full. *)
Lemma radix_loop junk : max < 2 ^ 48 -> Forall (fun e => 0 <= re_offset e <= max) l0 ->
  total (loop 6 (radix_step (len l0) max) (l0 ++ tail, replicate (length l0) junk, true, 0)) (fun '(from, to, at_entries) =>
    exists l, from = l ++ (if at_entries then tail else []) /\ l ≡ₚ l0 /\ StronglySorted (fun x y => re_offset x <= re_offset y) l /\
    exists k, to = k ++ (if at_entries then [] else tail) /\ length k = length l0).
Proof using Hn Hmax.
  intros Hmax48 Hoff. apply (wp_loop no_fault (fun '(from, to, a, bits) => radix_inv from to a bits /\ bits <= 48) (fun '(from, to, a, bits) => Z.to_nat ((64 - bits) `div` 16))).
  - intros [[[from to] a] bits] [Hi H48]. assert (0 <= bits) as Hb0 by (destruct Hi as [? _ _]; lia). destruct (shr_zero bits) as [Es Hz]; [lia|]. unfold radix_step. rewrite Es. cbn [mbind res_bind].
    destruct (tr (max >>. bits)) eqn:Et.
    + apply wp_bind. eapply wp_mono; [apply radix_turn; [lia|done]|]. intros to' Hi'. apply wp_ret. unfold DIGIT_SIZE in *. assert (bits <> 48) as Hne by (intros ->; destruct Hz as [_ Hz]; specialize (Hz Hmax48); congruence).
      split; [split; [done|]|]; destruct Hi as [Hbits _ _]; [lia|]. dlia.
    + destruct Hi as [_ (l & -> & Hp & Hs) Hto]. apply wp_ret. exists l. split_and!; [done|done| |done]. assert (max < 2 ^ bits) as Hlt by (by apply Hz).
      rewrite <- Hp in Hoff. clear - Hs Hoff Hlt. induction Hs as [|x l Hs IH Hall]; [constructor|]. apply Forall_cons in Hoff as [Hx Hoff]. apply SSorted_cons; [by apply IH|].
      rewrite Forall_forall in Hall, Hoff |- *. intros y Hy. specialize (Hall y Hy). specialize (Hoff y Hy). cbn in Hall. by rewrite !Z.mod_small in Hall by lia.
  - split; [apply radix_init|lia].
  - change (Z.to_nat ((64 - 0) `div` 16)) with 4%nat. lia.
Qed.

Lemma sort_allocs `{Memory} F junk Q : (forall e, oom e -> F e) ->
  wp F (loop 6 (radix_step (len l0) max) (l0 ++ tail, replicate (length l0) junk, true, 0)) (fun '(from, to, at_entries) =>
    wp F (if negb at_entries then src ← rd_slice from 0 (len l0); wr_slice to 0 src else Ok from) Q) ->
  wp F (sort_revindex junk (l0 ++ tail) (len l0) max) Q.
Proof using Hn.
  intros HF HQ. unfold sort_revindex. apply wp_bind. eapply wp_mono; [eapply wp_weaken; [by apply ALLOC_ARRAY_oom|exact HF]|]. intros _ _.
  apply wp_bind. pose proof (len_nonneg l0). eapply wp_mono; [eapply wp_weaken; [apply ALLOC_ARRAY_oom; lia|exact HF]|]. intros tmp ->. replace (Z.to_nat (len l0)) with (length l0) by llia.
  apply wp_bind. eapply wp_mono; [exact HQ|]. by intros [[from to] a].
Qed.

Lemma sort_revindex_ok `{Memory} junk : max < 2 ^ 48 -> Forall (fun e => 0 <= re_offset e <= max) l0 -> wp oom (sort_revindex junk (l0 ++ tail) (len l0) max) (fun r =>
  exists l, r = l ++ tail /\ l ≡ₚ l0 /\ StronglySorted (fun x y => re_offset x <= re_offset y) l).
Proof using Hn Hmax.
  intros Hmax48 Hoff. apply sort_allocs; [done|]. eapply wp_mono; [apply total_wp; by apply radix_loop|]. intros [[from to] a] (l & -> & Hp & Hs & k & -> & Hk). pose proof (Permutation_length Hp) as Hl. destruct a; cbn [negb].
  - apply wp_ret. by exists l.
  - rewrite app_nil_r. rewrite rd_slice_ok by llia. cbn [mbind res_bind]. assert (slice l 0 (len l0) = l) as -> by (replace (len l0) with (len l) by llia; apply slice_all).
    pose proof (wr_slice_mid [] k tail l 0 eq_refl ltac:(llia)) as Hw. cbn [app] in Hw. rewrite Hw. apply wp_ret. by exists l.
Qed.

(** A larger size makes the loop shift by the width of its type. *)
Lemma sort_revindex_shift `{Memory} junk : 2 ^ 48 <= max -> wp (fun e => oom e \/ e = UB) (sort_revindex junk (l0 ++ tail) (len l0) max) (fun _ => False).
Proof using Hn Hmax.
  intros Hbig. apply sort_allocs; [by left|]. eapply (wp_mono _ _ (fun _ => False)); [|done].
  apply (wp_loop _ (fun '(from, to, a, bits) => radix_inv from to a bits) (fun '(from, to, a, bits) => Z.to_nat ((80 - bits) `div` 16))); [|apply radix_init|change (Z.to_nat ((80 - 0) `div` 16)) with 5%nat; lia].
  intros [[[from to] a] bits] Hi. unfold radix_step. destruct (decide (bits = 64)) as [->|Hne]; [by right|].
  pose proof (ri_bits _ _ _ _ Hi) as Hbits. destruct (shr_zero bits) as [-> Hz]; [lia|]. cbn [mbind res_bind]. destruct (tr (max >>. bits)) eqn:Et.
  - apply wp_bind. eapply wp_mono; [apply total_wp, radix_turn; [lia|done]|]. intros to' Hi'. apply wp_ret. split; [done|]. unfold DIGIT_SIZE. dlia.
  - destruct Hz as [Hz _]. specialize (Hz eq_refl). pose proof (Z.pow_le_mono_r 2 bits 48 ltac:(lia) ltac:(lia)). lia.
Qed.
End Sort.
