(* ===== verification/PackRevindex.v ===== *)
(** * Reverse indexes: [pack-revindex.c], and the .rev files of [pack-write.c]

    The reverse index lists the objects of a pack in the order of their offsets.  It is
    either computed from the index and sorted in memory, or read from a .rev file that
    [write_rev_file] wrote.  [rev_repr] is the interface of a loaded reverse index; both ways of
    loading establish it for the same order, and the searches are proved against it. *)

From stdpp Require Import prelude numbers list sorting.
From S2P Require Import Prelude PatchDelta Alloc CString Bswap Sha1 Hex StableQsort StringList StringListSpec CsumFile HashLookup PackIdx PackWrite PackRoundtrip RevSort.

(** ** The code *)

(** A [struct packed_git] with the members of the reverse index; [revindex_data] points
    [RIDX_HEADER_SIZE] bytes into [revindex_map]. *)
Record rev_pack := mkRp {
  rp_pack : packed_git;
  revindex : option (list revindex_entry);
  revindex_map : option (list Z);
}.

Definition RIDX_SIGNATURE : Z := 0x52494458.
Definition RIDX_VERSION : Z := 1.
Definition RIDX_HEADER_SIZE : Z := 12.
Definition WRITE_REV : Z := 0x4.
Definition WRITE_REV_VERIFY : Z := 0x8.

Section Memory.
Context `{Memory} (hashsz : Z) (junk : revindex_entry).

(** The array and the place of [off_64]. *)
Definition revindex_v2_body (map : list Z) (off_32 i : Z) (st : list revindex_entry * Z) : res (list revindex_entry * Z) :=
  let '(rev, off_64) := st in
  off ← ntohl_at map (off_32 + 4 * i);
  '(x, off_64) ← (if negb (tr (off &. 0x80000000)) then Ok (off, off_64)
                  else x ← get_be64 map off_64; Ok (to_off_t x, off_64 + 8));
  rev ← wr rev i (mkRe x i);
  Ok (rev, off_64).

(** The product is computed with 32 bits. *)
Definition revindex_v1_body (map : list Z) (i : Z) (rev : list revindex_entry) : res (list revindex_entry) :=
  hl ← ntohl_at map (4 * 256 + u32 ((hashsz + 4) * i)); wr rev i (mkRe hl i).

Definition create_pack_revindex (p : packed_git) : res (list revindex_entry) :=
  let num_ent := num_objects p in
  match index_data p with
  | None => Fault UB
  | Some map =>
      rev ← ALLOC_ARRAY junk 16 (u32 (num_ent + 1));
      rev ← (if 1 <? index_version p then
               let off_32 := 4 * 256 + 8 + u64 (num_objects p * (hashsz + 4)) in
               let off_64 := off_32 + 4 * num_objects p in
               '(rev, _) ← for_range (Z.to_nat num_ent) 0 (revindex_v2_body map off_32) (rev, off_64); Ok rev
             else for_range (Z.to_nat num_ent) 0 (revindex_v1_body map) rev);
      rev ← wr rev num_ent (mkRe (pack_size p - hashsz) (u32 (-1)));
      sort_revindex junk rev num_ent (pack_size p)
  end.

(** The contents of the index and of the .rev file, [None] when there is none, and the settings:
    whether .rev files are read, and the two variables that make tests die. *)
Context (idx_path rev_path : option (list Z)) (read_reverse_index die_in_memory die_on_disk : bool).

Definition create_pack_revindex_in_memory (rp : rev_pack) : res (Z * rev_pack) :=
  if die_in_memory then Fault Died
  else
    '(ret, p) ← open_pack_index hashsz idx_path (rp_pack rp);
    if tr ret then Ok (-1, mkRp p (revindex rp) (revindex_map rp))
    else rev ← create_pack_revindex p; Ok (0, mkRp p (Some rev) (revindex_map rp)).

Definition ridx_min_size : Z := RIDX_HEADER_SIZE + 2 * hashsz.

(** The return value and [*data_p]. *)
Definition load_revindex_from_disk (num_objects : Z) : res (Z * option (list Z)) :=
  if die_on_disk then Fault Died
  else match rev_path with
  | None => Ok (1, None)
  | Some data =>
      if len data <? ridx_min_size then Ok (-1, None)
      else
        t ← st_mult 4 num_objects;
        if negb (len data - ridx_min_size =? t) then Ok (-1, None)
        else
          signature ← ntohl_at data 0;
          if negb (signature =? RIDX_SIGNATURE) then Ok (-1, None)
          else
            version ← ntohl_at data 4;
            if negb (version =? 1) then Ok (-1, None)
            else
              hash_id ← ntohl_at data 8;
              if negb ((hash_id =? 1) || (hash_id =? 2)) then Ok (-1, None) else Ok (0, Some data)
  end.

Definition load_pack_revindex_from_disk (rp : rev_pack) : res (Z * rev_pack) :=
  '(ret, p) ← open_pack_index hashsz idx_path (rp_pack rp);
  let rp := mkRp p (revindex rp) (revindex_map rp) in
  if tr ret then Ok (-1, rp)
  else
    '(ret, data) ← load_revindex_from_disk (num_objects p);
    if tr ret then Ok (ret, rp) else Ok (0, mkRp p (revindex rp) data).

Definition loaded (rp : rev_pack) : bool := match revindex rp, revindex_map rp with None, None => false | _, _ => true end.

Definition load_pack_revindex (rp : rev_pack) : res (Z * rev_pack) :=
  if loaded rp then Ok (0, rp)
  else
    '(done, rp) ← (if read_reverse_index then '(ret, rp) ← load_pack_revindex_from_disk rp; Ok (negb (tr ret), rp) else Ok (false, rp));
    if (done : bool) then Ok (0, rp)
    else
      '(ret, rp) ← create_pack_revindex_in_memory rp;
      if negb (tr ret) then Ok (0, rp) else Ok (-1, rp).

Definition pack_pos_to_index (rp : rev_pack) (pos : Z) : res Z :=
  if negb (loaded rp) then Fault BugHit
  else if num_objects (rp_pack rp) <=? pos then Fault BugHit
  else match revindex rp, revindex_map rp with
  | Some rev, _ => e ← rd rev pos; Ok (re_nr e)
  | None, Some map => get_be32 map (RIDX_HEADER_SIZE + 4 * pos)
  | None, None => Fault UB
  end.

Definition pack_pos_to_offset (rp : rev_pack) (pos : Z) : res Z :=
  if negb (loaded rp) then Fault BugHit
  else if num_objects (rp_pack rp) <? pos then Fault BugHit
  else match revindex rp with
  | Some rev => e ← rd rev pos; Ok (re_offset e)
  | None =>
      if pos =? num_objects (rp_pack rp) then Ok (pack_size (rp_pack rp) - hashsz)
      else i ← pack_pos_to_index rp pos; nth_packed_object_offset hashsz (rp_pack rp) i
  end.

(** The search: the return value and [*pos]. *)
Definition offset_step (rp : rev_pack) (ofs : Z) (st : Z * Z) : res (Z * Z + Z * Z) :=
  let '(lo, hi) := st in
  let mi := lo + (hi - lo) `div` 2 in
  got ← pack_pos_to_offset rp mi;
  if got =? ofs then Ok (inr (0, mi))
  else
    let hi := if ofs <? got then mi else hi in
    let lo := if ofs <? got then lo else mi + 1 in
    if lo <? hi then Ok (inl (lo, hi)) else Ok (inr (-1, 0)).

Definition offset_to_pack_pos (rp : rev_pack) (ofs : Z) : res (Z * Z * rev_pack) :=
  '(ret, rp) ← load_pack_revindex rp;
  if ret <? 0 then Ok (-1, 0, rp)
  else
    let hi := u32 (num_objects (rp_pack rp) + 1) in
    '(ret, pos) ← loop (S (Z.to_nat hi)) (offset_step rp ofs) (0, hi);
    Ok (ret, pos, rp).

(** The comparison of the two reverse indexes. *)
Definition verify_body (rev : list revindex_entry) (map : list Z) (i res : Z) : Prelude.res Z :=
  e ← rd rev i; rev_val ← get_be32 map (RIDX_HEADER_SIZE + 4 * i);
  if negb (re_nr e =? rev_val) then Ok (-1) else Ok res.

Definition verify_pack_revindex {C : Type} `{!Hasher C} (ctx0 : C) (got0 : list Z) (rp : rev_pack) : res (Z * rev_pack) :=
  match revindex_map rp with
  | None => Ok (0, rp)
  | Some map =>
      valid ← hashfile_checksum_valid ctx0 got0 map (len map);
      let res := if (valid : bool) then 0 else -1 in
      '(ret, rp) ← create_pack_revindex_in_memory rp;
      if tr ret then Ok (res, rp)
      else
        match revindex rp with
        | None => Fault UB
        | Some rev => r ← for_range (Z.to_nat (num_objects (rp_pack rp))) 0 (verify_body rev map) res; Ok (r, rp)
        end
  end.
End Memory.

Section Write.
Context `{Memory} `{Disk} {C : Type} `{!Hasher C} (crc32 : Z -> list Z -> Z) (sizeof_hashfile : Z) (ctx0 : C) (junk : Z) (algo : Z).
Context (qsort_s : (Z -> Z -> Z) -> list Z -> list Z) (adjust_shared_perm_ok : bool).
Abbreviation hfile := (hashfile C).

(** The offset of an entry of the array; the positions are inside of it. *)
Definition order_offset (objects : list pack_idx_entry) (i : Z) : Z := match objects !! Z.to_nat i with Some e => pe_offset e | None => 0 end.

Definition pack_order_cmp (objects : list pack_idx_entry) (va vb : Z) : Z :=
  let oa := order_offset objects va in
  let ob := order_offset objects vb in
  if oa <? ob then -1 else if ob <? oa then 1 else 0.

Definition oid_version : res Z :=
  a ← hash_algo_by_ptr algo;
  if a =? 1 then Ok 1 else if a =? 2 then Ok 2 else Fault Died.

Definition write_rev_header (f : hfile) : res hfile :=
  f ← hashwrite_be32 crc32 f RIDX_SIGNATURE; f ← hashwrite_be32 crc32 f RIDX_VERSION;
  v ← oid_version; hashwrite_be32 crc32 f v.

Definition write_rev_index_positions (f : hfile) (pack_order : list Z) (nr_objects : Z) : res hfile :=
  for_range (Z.to_nat nr_objects) 0 (fun i f => x ← rd pack_order i; hashwrite_be32 crc32 f x) f.

Definition write_rev_trailer (f : hfile) (hash : list Z) : res hfile :=
  h ← rd_slice hash 0 hash_rawsz; hashwrite crc32 f h hash_rawsz.

(** What [stat] says about the file to verify. *)
Inductive rev_target := RevMissing | RevError | RevFile (data : list Z).

(** [fd] is the descriptor of the file that is created, [None] when it cannot be.  [None] is
    returned when nothing is written. *)
Definition write_rev_file_order (target : rev_target) (fd : option Z) (pack_order : list Z) (nr_objects : Z) (hash : list Z) (flags : Z) : res (option (Z * list Z * hfile)) :=
  if tr (flags &. WRITE_REV) && tr (flags &. WRITE_REV_VERIFY) then Fault Died
  else
    f ← (if tr (flags &. WRITE_REV) then
           match fd with None => Fault Died | Some fd => f ← hashfd sizeof_hashfile ctx0 junk fd; Ok (Some f) end
         else if tr (flags &. WRITE_REV_VERIFY) then
           match target with RevMissing => Ok None | RevError => Fault Died | RevFile data => f ← hashfd_check sizeof_hashfile ctx0 junk 0 data; Ok (Some f) end
         else Ok None);
    match f with
    | None => Ok None
    | Some f =>
        f ← write_rev_header f;
        f ← write_rev_index_positions f pack_order nr_objects;
        f ← write_rev_trailer f hash;
        if negb adjust_shared_perm_ok then Fault Died
        else
          r ← finalize_hashfile f (CSUM_HASH_IN_STREAM |. CSUM_CLOSE |. (if tr (flags &. WRITE_IDX_VERIFY) then 0 else CSUM_FSYNC));
          Ok (Some r)
    end.

Definition write_rev_file (target : rev_target) (fd : option Z) (objects : list pack_idx_entry) (nr_objects : Z) (hash : list Z) (flags : Z) : res (option (Z * list Z * hfile)) :=
  if negb (tr (flags &. WRITE_REV)) && negb (tr (flags &. WRITE_REV_VERIFY)) then Ok None
  else
    pack_order ← ALLOC_ARRAY junk 4 nr_objects;
    pack_order ← for_range (Z.to_nat nr_objects) 0 (fun i l => wr l i i) pack_order;
    write_rev_file_order target fd (QSORT qsort_s pack_order nr_objects (pack_order_cmp objects)) nr_objects hash flags.
End Write.

(** ** The order of the objects in the pack *)

Definition rev_entries (es : list pack_idx_entry) : list revindex_entry := imap (fun i e => mkRe (pe_offset e) (Z.of_nat i)) es.

(** The positions in the index, in the order of the offsets. *)
Record in_order (es : list pack_idx_entry) (order : list Z) : Prop := {
  io_perm : order ≡ₚ seqZ 0 (len es);
  io_sorted : StronglySorted (fun i j => order_offset es i <= order_offset es j) order;
}.

Lemma in_order_lookup es order pos i : in_order es order -> order !! pos = Some i -> exists e, es !! Z.to_nat i = Some e /\ order_offset es i = pe_offset e /\ 0 <= i < len es.
Proof.
  intros [Hp _] Hi. apply list_elem_of_lookup_2 in Hi. rewrite Hp in Hi. apply elem_of_seqZ in Hi. destruct (lookup_lt_is_Some_2 es (Z.to_nat i)) as [e He]; [llia|].
  exists e. split_and!; [done| |lia|lia]. unfold order_offset. by rewrite He.
Qed.

Lemma in_order_length es order : in_order es order -> length order = length es.
Proof. intros [Hp _]. rewrite Hp, length_seqZ. llia. Qed.

Lemma in_order_unique es a b : NoDup (pe_offset <$> es) -> in_order es a -> in_order es b -> a = b.
Proof.
  intros Hnd Ha Hb. eapply (StronglySorted_unique_strong (fun i j => order_offset es i <= order_offset es j)); [|apply Ha|apply Hb|by rewrite (io_perm _ _ Ha), (io_perm _ _ Hb)].
  intros i j [n Hi]%list_elem_of_lookup [m Hj]%list_elem_of_lookup Hij Hji. destruct (in_order_lookup _ _ _ _ Ha Hi) as (e & He & Eo & Hri). destruct (in_order_lookup _ _ _ _ Hb Hj) as (e' & He' & Eo' & Hrj).
  assert (Z.to_nat i = Z.to_nat j); [|lia]. eapply (NoDup_lookup _ _ _ (pe_offset e) Hnd); rewrite list_lookup_fmap; [by rewrite He|]. rewrite He'. cbn. f_equal. lia.
Qed.

Lemma rev_entries_lookup es i : rev_entries es !! i = (fun e => mkRe (pe_offset e) (Z.of_nat i)) <$> es !! i.
Proof. apply list_lookup_imap. Qed.

Lemma rev_entries_take es i e : es !! i = Some e -> rev_entries (take (S i) es) = rev_entries (take i es) ++ [mkRe (pe_offset e) (Z.of_nat i)].
Proof.
  intros He. rewrite (take_S_r _ _ _ He). unfold rev_entries. rewrite imap_app. f_equal. cbn. rewrite length_take. apply lookup_lt_Some in He. do 3 f_equal. lia.
Qed.

(** Sorted entries give the order. *)
Lemma entries_order es l : l ≡ₚ rev_entries es -> StronglySorted (fun x y => re_offset x <= re_offset y) l ->
  in_order es (re_nr <$> l) /\ forall pos x, l !! pos = Some x -> re_offset x = order_offset es (re_nr x).
Proof.
  intros Hp Hs. assert (forall x, x ∈ l -> re_offset x = order_offset es (re_nr x)) as Hoff.
  { intros x Hx. rewrite Hp in Hx. apply list_elem_of_lookup in Hx as [i Hx]. rewrite rev_entries_lookup in Hx. destruct (es !! i) as [e|] eqn:He; [|done]. injection Hx as <-. cbn. unfold order_offset. by rewrite Nat2Z.id, He. }
  split; [constructor|].
  - assert (re_nr <$> rev_entries es = seqZ 0 (len es)) as <-; [|by rewrite Hp]. apply list_eq. intros i. rewrite list_lookup_fmap, rev_entries_lookup. destruct (es !! i) as [e|] eqn:He.
    + apply lookup_lt_Some in He. cbn. rewrite lookup_seqZ_lt by llia. done.
    + cbn. symmetry. apply lookup_seqZ_ge. apply lookup_ge_None in He. llia.
  - clear Hp. induction Hs as [|x l Hs IH Hall]; [constructor|]. rewrite fmap_cons. apply SSorted_cons; [apply IH; intros y Hy; apply Hoff; by apply list_elem_of_further|].
    rewrite Forall_fmap. rewrite Forall_forall in Hall |- *. intros y Hy. cbn. rewrite <- !Hoff; [by apply Hall|by apply list_elem_of_further|apply list_elem_of_here].
  - intros pos x Hx. apply Hoff. by eapply list_elem_of_lookup_2.
Qed.

(** ** The interface of a loaded reverse index *)

Record rev_repr (hashsz : Z) (rp : rev_pack) (es : list pack_idx_entry) (order : list Z) : Prop := {
  rr_loaded : loaded rp = true;
  rr_num : num_objects (rp_pack rp) = len es;
  rr_index : forall pos i, order !! pos = Some i -> pack_pos_to_index rp (Z.of_nat pos) = Ok i;
  rr_offset : forall pos i, order !! pos = Some i -> pack_pos_to_offset hashsz rp (Z.of_nat pos) = Ok (order_offset es i);
  rr_end : pack_pos_to_offset hashsz rp (len es) = Ok (pack_size (rp_pack rp) - hashsz);
}.

Section Search.
Context (hashsz : Z) (rp : rev_pack) (es : list pack_idx_entry) (order : list Z) (Hr : rev_repr hashsz rp es order) (Ho : in_order es order) (Hnum : len es < 2 ^ 31).
Context (Hend : Forall (fun e => pe_offset e <= pack_size (rp_pack rp) - hashsz) es).

(** The offsets, the end of the data included. *)
Definition offsets : list Z := (order_offset es <$> order) ++ [pack_size (rp_pack rp) - hashsz].

Lemma offsets_len : len offsets = len es + 1.
Proof using Ho. unfold offsets. rewrite len_app. unfold len. rewrite length_fmap, (in_order_length es order Ho). cbn. lia. Qed.

Lemma offsets_read pos x : offsets !! pos = Some x -> pack_pos_to_offset hashsz rp (Z.of_nat pos) = Ok x.
Proof using Hr Ho.
  unfold offsets. intros Hx. apply lookup_app_Some in Hx as [Hx|[Hge Hx]].
  - rewrite list_lookup_fmap in Hx. destruct (order !! pos) as [i|] eqn:Hi; [|done]. injection Hx as <-. by apply (rr_offset _ _ _ _ Hr).
  - rewrite length_fmap, (in_order_length es order Ho) in *. destruct (pos - length es)%nat as [|k] eqn:E; [|done]. injection Hx as <-. replace (Z.of_nat pos) with (len es) by llia. apply (rr_end _ _ _ _ Hr).
Qed.

Lemma offsets_monotone ofs : monotone offsets (fun x => x - ofs).
Proof using Ho Hend.
  assert (StronglySorted Z.le offsets) as Hs.
  { unfold offsets. assert (forall i, i ∈ order -> order_offset es i <= pack_size (rp_pack rp) - hashsz) as Hle.
    { intros i [pos Hi]%list_elem_of_lookup. destruct (in_order_lookup _ _ _ _ Ho Hi) as (e & He & -> & _). by eapply (Forall_lookup_1 _ _ _ _ Hend He). }
    pose proof (io_sorted _ _ Ho) as Hs. clear - Hs Hle. induction Hs as [|i l Hs IH Hall]; [apply SSorted_cons; [apply SSorted_nil|constructor]|]. cbn [fmap list_fmap app].
    apply SSorted_cons; [apply IH; intros j Hj; apply Hle; by apply list_elem_of_further|]. apply Forall_app. split; [by rewrite Forall_fmap|]. apply Forall_singleton. apply Hle, list_elem_of_here. }
  intros i j x y Hij Hx Hy. assert (x <= y); [|lia]. destruct (decide (i = j)) as [->|]; [rewrite Hx in Hy; by injection Hy as ->|]. eapply (sorted_lookup _ _ i j); [exact Hs|lia|done|done].
Qed.

Lemma offset_search ofs : total (loop (S (Z.to_nat (len es + 1))) (offset_step hashsz rp ofs) (0, len es + 1)) (fun '(r, pos) =>
  (r = 0 /\ 0 <= pos /\ offsets !! Z.to_nat pos = Some ofs) \/ (r = -1 /\ ofs ∉ offsets)).
Proof using All.
  pose proof offsets_len as Hlen. pose proof (len_nonneg es).
  apply (wp_loop no_fault (fun '(lo, hi) => bisect offsets (fun x => x - ofs) lo hi /\ lo < hi) (fun '(lo, hi) => Z.to_nat (hi - lo))).
  - intros [lo hi] [Hbi Hlt]. destruct (bi_range _ _ _ _ Hbi) as [Hr1 Hr2]. unfold offset_step. set (mi := lo + (hi - lo) `div` 2). assert (lo <= mi < hi) as Hmi by (unfold mi; dlia). clearbody mi. cbv zeta.
    destruct (lookup_lt_is_Some_2 offsets (Z.to_nat mi)) as [x Hx]; [llia|]. pose proof (offsets_read _ _ Hx) as Hrd. rewrite Z2Nat.id in Hrd by lia. rewrite Hrd. cbn [mbind res_bind].
    destruct (bisect_split _ _ lo hi mi x (offsets_monotone ofs) Hbi Hmi Hx) as [Hup Hdown]. destruct (Z.eqb_spec x ofs) as [->|Hne]; [apply wp_ret; left; split_and!; [done|lia|done]|].
    assert (forall lo', bisect offsets (fun x => x - ofs) lo' lo' -> ofs ∉ offsets) as Hno by (intros lo' Hb Hin; apply (bisect_none _ _ _ _ Hb Hin); lia).
    destruct (Z.ltb_spec ofs x) as [Hc|Hc].
    + destruct (Z.ltb_spec lo mi) as [Hlt2|Hge]; apply wp_ret; [split; [split; [apply Hup; lia|done]|lia]|]. right. split; [done|]. replace mi with lo in * by lia. apply (Hno lo), Hup. lia.
    + destruct (Z.ltb_spec (mi + 1) hi) as [Hlt2|Hge]; apply wp_ret; [split; [split; [apply Hdown; lia|done]|lia]|]. right. split; [done|]. replace hi with (mi + 1) in * by lia. apply (Hno (mi + 1)), Hdown. lia.
  - split; [|lia]. constructor; [lia|lia|]. intros i x Hx Hi. apply lookup_lt_Some in Hx. llia.
  - lia.
Qed.
End Search.

(** ** Computed in memory *)

Section InMemory.
Context `{Memory} (rawsz : Z) (Hraw : rawsz = 20 \/ rawsz = 32) (opts : pack_idx_option) (junk : revindex_entry).
Abbreviation names es := ((fun e => oid_name rawsz (pe_oid e)) <$> es).
Abbreviation is_large := (fun e => large opts (pe_offset e) = true).
Context (es : list pack_idx_entry) (Hes : Forall (pack_entry_ok rawsz) es) (Hsort : hashes_sorted rawsz (names es)) (Hnum : len es < 2 ^ 31).
Context (trailer digest : list Z) (Htl : len trailer = rawsz) (Htb : is_bytes trailer) (Hdl : len digest = rawsz) (Hdb : is_bytes digest).
Abbreviation file := (idx_file rawsz opts es trailer digest).

(** The first [i] cells are filled. *)
Definition filled (i : Z) : list revindex_entry := rev_entries (take (Z.to_nat i) es) ++ replicate (S (length es) - Z.to_nat i) junk.

Lemma filled_next i e : 0 <= i -> es !! Z.to_nat i = Some e -> wr (filled i) i (mkRe (pe_offset e) i) = Ok (filled (i + 1)).
Proof using Type.
  intros Hi He. unfold filled. pose proof (lookup_lt_Some _ _ _ He). replace (S (length es) - Z.to_nat i)%nat with (S (length es - Z.to_nat i)) by lia. cbn [replicate].
  rewrite wr_mid by (unfold rev_entries, len; rewrite length_imap, length_take; lia). f_equal. replace (Z.to_nat (i + 1)) with (S (Z.to_nat i)) by lia.
  rewrite (rev_entries_take _ _ _ He), Z2Nat.id by lia. rewrite <- app_assoc. cbn [app]. do 3 f_equal.
Qed.

Lemma filled_all : filled (Z.of_nat (length es)) = rev_entries es ++ [junk].
Proof using Type. unfold filled. rewrite Nat2Z.id, firstn_all. by replace (S (length es) - length es)%nat with 1%nat by lia. Qed.

Lemma v2_rows : total (for_range (length es) 0 (revindex_v2_body (file 2) (1032 + len es * (rawsz + 4))) (replicate (S (length es)) junk, 1032 + len es * (rawsz + 8))) (fun st => st.1 = rev_entries es ++ [junk]).
Proof using All.
  eapply wp_mono; [apply (wp_for_range no_fault (fun i st => st = (filled i, 1032 + len es * (rawsz + 8) + 8 * len (filter is_large (take (Z.to_nat i) es)))))|].
  - intros i st Hi ->. destruct (lookup_lt_is_Some_2 es (Z.to_nat i)) as [e He]; [lia|]. unfold revindex_v2_body.
    pose proof (off32_read rawsz Hraw opts es Hes Hsort Hnum trailer digest Htl Htb Hdl Hdb _ _ He) as Hrd. rewrite Z2Nat.id in Hrd by lia. rewrite Hrd. cbn [mbind res_bind].
    destruct (off_word_ok rawsz opts es Hes Hnum _ _ He) as [_ ->]. pose proof (Forall_lookup_1 _ _ _ _ Hes He) as [_ _ Ho].
    assert (len (filter is_large (take (Z.to_nat (i + 1)) es)) = len (filter is_large (take (Z.to_nat i) es)) + if large opts (pe_offset e) then 1 else 0) as ->.
    { replace (Z.to_nat (i + 1)) with (S (Z.to_nat i)) by lia. rewrite (take_S_r _ _ _ He), filter_app, len_app, filter_cons. destruct (large opts (pe_offset e)); [by rewrite decide_True|by rewrite decide_False]. }
    destruct (large opts (pe_offset e)) eqn:El; cbn [negb].
    + destruct (off64_read rawsz Hraw opts es Hes Hsort Hnum trailer digest Htl Htb Hdl Hdb _ _ He El) as [-> _]. cbn [mbind res_bind]. assert (to_off_t (pe_offset e) = pe_offset e) as -> by (unfold to_off_t; destruct (Z.ltb_spec (pe_offset e) (2 ^ 63)); [done|lia]).
      rewrite (filled_next i e) by (done || lia). apply wp_ret. f_equal. lia.
    + cbn [mbind res_bind]. unfold off_word. rewrite El. rewrite (filled_next i e) by (done || lia). apply wp_ret. f_equal. lia.
  - f_equal. change (take (Z.to_nat 0) es) with (@nil pack_idx_entry). rewrite filter_nil, (@len_nil pack_idx_entry). lia.
  - intros st ->. cbn [fst]. rewrite Z.add_0_l. apply filled_all.
Qed.

Lemma v1_rows : len es * (rawsz + 4) <= 2 ^ 32 -> Forall (fun e => pe_offset e < 2 ^ 32) es -> total (for_range (length es) 0 (revindex_v1_body rawsz (file 1)) (replicate (S (length es)) junk)) (fun rev => rev = rev_entries es ++ [junk]).
Proof using All.
  intros Hsize Hoff. eapply wp_mono; [apply (wp_for_range no_fault (fun i rev => rev = filled i))|].
  - intros i rev Hi ->. destruct (lookup_lt_is_Some_2 es (Z.to_nat i)) as [e He]; [lia|]. unfold revindex_v1_body. assert (i < len es) as Hil by llia. rewrite u32_small by nia.
    pose proof (ir_off _ _ _ (idx_repr1 rawsz Hraw opts es Hes Hsort Hnum trailer digest Htl Htb Hdl Hdb 0 0 0 Hoff) _ _ He) as Hrd. unfold nth_packed_object_offset in Hrd.
    cbn [index_data index_version num_objects Z.eqb Pos.eqb] in Hrd. rewrite Z2Nat.id, st_mult_ok in Hrd by nia. cbn [mbind res_bind] in Hrd. rewrite Hrd. cbn [mbind res_bind].
    rewrite (filled_next i e) by (done || lia). by apply wp_ret.
  - unfold filled. cbn. done.
  - intros rev ->. rewrite Z.add_0_l. apply filled_all.
Qed.

Context (ps size crc v : Z) (Hv : v = 1 \/ v = 2) (Hps : ps < 2 ^ 48) (Hend : Forall (fun e => pe_offset e <= ps - rawsz) es).
(** What version 1 of the format can hold. *)
Context (Hv1 : v = 1 -> len es * (rawsz + 4) <= 2 ^ 32 /\ Forall (fun e => pe_offset e < 2 ^ 32) es).
Context (Hps0 : rawsz <= ps).
Abbreviation pack := (mkPack (Some (file v)) size (len es) crc v ps).

Lemma create_ok : wp oom (create_pack_revindex rawsz junk pack) (fun r =>
  exists l, r = l ++ [mkRe (ps - rawsz) (u32 (-1))] /\ l ≡ₚ rev_entries es /\ StronglySorted (fun x y => re_offset x <= re_offset y) l).
Proof using All.
  unfold create_pack_revindex. cbn [num_objects index_data index_version pack_size]. pose proof (len_nonneg es). rewrite (u32_small (len es + 1)) by lia. apply wp_bind.
  eapply wp_mono; [apply ALLOC_ARRAY_oom; lia|]. intros rev ->. replace (Z.to_nat (len es + 1)) with (S (length es)) by llia.
  replace (Z.to_nat (len es)) with (length es) by llia. apply wp_bind. eapply (wp_mono _ _ (fun rev => rev = rev_entries es ++ [junk])).
  { destruct Hv as [->| ->].
    - change (1 <? 1) with false. cbv iota. destruct (Hv1 eq_refl). apply total_wp, v1_rows; done.
    - change (1 <? 2) with true. cbv iota zeta. rewrite u64_small by nia. apply wp_bind. eapply wp_mono; [apply total_wp|].
      + replace (4 * 256 + 8 + len es * (rawsz + 4) + 4 * len es) with (1032 + len es * (rawsz + 8)) by lia. apply v2_rows.
      + intros [rev o64] E. exact E. }
  intros rev ->. assert (len es = len (rev_entries es)) as El by (unfold rev_entries, len; by rewrite length_imap). rewrite wr_mid by done. cbn [mbind res_bind]. rewrite El.
  apply sort_revindex_ok; [lia|lia|done|]. apply Forall_lookup. intros i x Hx. rewrite rev_entries_lookup in Hx. destruct (es !! i) as [e|] eqn:He; [|done]. injection Hx as <-. cbn.
  pose proof (Forall_lookup_1 _ _ _ _ Hes He) as [_ _ Ho]. pose proof (Forall_lookup_1 _ _ _ _ Hend He) as Hle. cbn in Hle. lia.
Qed.

Lemma created_repr map l : l ≡ₚ rev_entries es -> StronglySorted (fun x y => re_offset x <= re_offset y) l ->
  rev_repr rawsz (mkRp pack (Some (l ++ [mkRe (ps - rawsz) (u32 (-1))])) map) es (re_nr <$> l) /\ in_order es (re_nr <$> l).
Proof using Hv.
  intros Hp Hs. destruct (entries_order es l Hp Hs) as [Ho Hoff]. split; [|done]. assert (length l = length es) as Hl by (rewrite Hp; unfold rev_entries; apply length_imap).
  constructor; unfold pack_pos_to_index, pack_pos_to_offset; cbn [rp_pack revindex num_objects pack_size loaded negb]; [done|done| | |].
  - intros pos i Hi. rewrite list_lookup_fmap in Hi. destruct (l !! pos) as [x|] eqn:Hx; [|done]. injection Hi as <-. pose proof (lookup_lt_Some _ _ _ Hx).
    destruct (Z.leb_spec (len es) (Z.of_nat pos)); [llia|]. rewrite (rd_Some _ _ x); [done|lia|]. rewrite Nat2Z.id. by apply lookup_app_l_Some.
  - intros pos i Hi. rewrite list_lookup_fmap in Hi. destruct (l !! pos) as [x|] eqn:Hx; [|done]. injection Hi as <-. pose proof (lookup_lt_Some _ _ _ Hx).
    destruct (Z.ltb_spec (len es) (Z.of_nat pos)); [llia|]. rewrite (rd_Some _ _ x); [|lia|rewrite Nat2Z.id; by apply lookup_app_l_Some]. cbn [mbind res_bind]. f_equal. by eapply Hoff.
  - destruct (Z.ltb_spec (len es) (len es)); [lia|]. rewrite rd_mid by llia. done.
Qed.
End InMemory.

(** ** Written to a file *)

#[export] Instance pack_order_cmp_ok es : CmpOk (pack_order_cmp es).
Proof.
  constructor; intros; unfold pack_order_cmp in *; repeat match goal with |- context [?a <? ?b] => destruct (Z.ltb_spec a b) | H : context [?a <? ?b] |- _ => destruct (Z.ltb_spec a b) end; lia.
Qed.

Section OnDisk.
Context (rawsz algo : Z) (Hraw : rawsz = 20 \/ rawsz = 32) (Halgo : algo = 1 \/ algo = 2).
Context (es : list pack_idx_entry) (order : list Z) (Horder : in_order es order) (Hnum : len es < 2 ^ 31).

Definition rev_chunks (trailer : list Z) : list (list Z) := [be32 RIDX_SIGNATURE; be32 RIDX_VERSION; be32 algo] ++ (be32 <$> order) ++ [trailer].
Definition rev_data (trailer digest : list Z) : list Z := concat (rev_chunks trailer) ++ digest.

Lemma order_range pos i : order !! pos = Some i -> 0 <= i < 2 ^ 31 /\ (pos < length es)%nat.
Proof using Horder Hnum.
  intros Hi. destruct (in_order_lookup _ _ _ _ Horder Hi) as (e & _ & _ & Hr). split; [lia|]. apply lookup_lt_Some in Hi. by rewrite <- (in_order_length es order Horder).
Qed.

Context (trailer digest : list Z) (Htl : len trailer = rawsz) (Htb : is_bytes trailer) (Hdl : len digest = rawsz) (Hdb : is_bytes digest).

Lemma rev_chunks_ok : Forall (fun x => is_bytes x /\ len x <= 32) (rev_chunks trailer).
Proof using Hraw Htl Htb.
  unfold rev_chunks. rewrite !Forall_app. assert (forall x, is_bytes (be32 x) /\ len (be32 x) <= 32) as H32 by (intros x; split; [apply be32_bytes|done]).
  split_and!; [repeat (apply Forall_cons; split; [apply H32|]); constructor|apply Forall_fmap, Forall_true; intros x; apply H32|apply Forall_singleton; split; [done|lia]].
Qed.

Lemma rev_data_bytes : is_bytes (rev_data trailer digest).
Proof using Hraw Htl Htb Hdb.
  unfold rev_data. apply Forall_app. split; [|done]. apply Forall_concat. eapply Forall_impl; [apply rev_chunks_ok|]. by intros x [].
Qed.

Lemma rev_data_eq : rev_data trailer digest = (be32 RIDX_SIGNATURE ++ be32 RIDX_VERSION ++ be32 algo) ++ concat (be32 <$> order) ++ trailer ++ digest.
Proof using Type. unfold rev_data, rev_chunks. rewrite !concat_app. cbn [concat]. rewrite !app_nil_r. by rewrite <- !app_assoc. Qed.

Lemma rev_data_len : len (rev_data trailer digest) = 12 + 4 * len es + rawsz + rawsz.
Proof using Horder Htl Hdl.
  rewrite rev_data_eq, !len_app. rewrite (len_concat_cells 4) by (apply Forall_fmap, Forall_true; done). unfold len at 4. rewrite length_fmap, (in_order_length es order Horder). change (len (be32 RIDX_SIGNATURE)) with 4. change (len (be32 RIDX_VERSION)) with 4. change (len (be32 algo)) with 4. llia.
Qed.

Lemma rev_data_read pos i : order !! pos = Some i -> get_be32 (rev_data trailer digest) (RIDX_HEADER_SIZE + 4 * Z.of_nat pos) = Ok i.
Proof using All.
  intros Hi. destruct (order_range _ _ Hi) as [Hr _]. assert ((be32 <$> order) !! pos = Some (be32 i)) as Hc by (by rewrite list_lookup_fmap, Hi).
  destruct (in_table _ _ _ (be32 <$> order) 4 pos (be32 i) (RIDX_HEADER_SIZE + 4 * Z.of_nat pos) rev_data_eq ltac:(apply Forall_fmap, Forall_true; done) Hc) as [rest Hd].
  { rewrite !len_app. change (len (be32 RIDX_SIGNATURE)) with 4. change (len (be32 RIDX_VERSION)) with 4. change (len (be32 algo)) with 4. unfold RIDX_HEADER_SIZE. lia. }
  eapply get_be32_at; [apply rev_data_bytes|unfold RIDX_HEADER_SIZE; lia|lia|exact Hd].
Qed.

Lemma load_disk_ok : load_revindex_from_disk rawsz (Some (rev_data trailer digest)) false (len es) = Ok (0, Some (rev_data trailer digest)).
Proof using All.
  unfold load_revindex_from_disk, ridx_min_size, RIDX_HEADER_SIZE. rewrite rev_data_len. pose proof (len_nonneg es). destruct (Z.ltb_spec (12 + 4 * len es + rawsz + rawsz) (12 + 2 * rawsz)); [lia|].
  rewrite st_mult_ok by lia. cbn [mbind res_bind]. destruct (Z.eqb_spec (12 + 4 * len es + rawsz + rawsz - (12 + 2 * rawsz)) (4 * len es)); [|lia]. cbn [negb].
  assert (ntohl_at (rev_data trailer digest) 0 = Ok RIDX_SIGNATURE /\ ntohl_at (rev_data trailer digest) 4 = Ok 1 /\ ntohl_at (rev_data trailer digest) 8 = Ok algo) as (-> & -> & ->).
  { rewrite rev_data_eq. split_and!; [done|done|]. by destruct Halgo as [->| ->]. }
  cbn [mbind res_bind]. by destruct Halgo as [->| ->].
Qed.

Lemma disk_repr p : idx_repr rawsz p es -> rev_repr rawsz (mkRp p None (Some (rev_data trailer digest))) es order.
Proof using All.
  intros [_ _ Hn Hoff]. assert (forall pos i, order !! pos = Some i -> pack_pos_to_index (mkRp p None (Some (rev_data trailer digest))) (Z.of_nat pos) = Ok i) as Hidx.
  { intros pos i Hi. unfold pack_pos_to_index. cbn [loaded revindex revindex_map negb rp_pack]. destruct (order_range _ _ Hi) as [_ Hlt]. destruct (Z.leb_spec (num_objects p) (Z.of_nat pos)); [rewrite Hn in *; llia|]. by apply rev_data_read. }
  constructor; [done|done|done| |].
  - intros pos i Hi. unfold pack_pos_to_offset. rewrite (Hidx _ _ Hi). cbn [loaded revindex revindex_map negb rp_pack mbind res_bind]. destruct (order_range _ _ Hi) as [_ Hlt]. rewrite Hn.
    destruct (Z.ltb_spec (len es) (Z.of_nat pos)); [llia|]. destruct (Z.eqb_spec (Z.of_nat pos) (len es)); [llia|]. destruct (in_order_lookup _ _ _ _ Horder Hi) as (e & He & -> & Hr).
    specialize (Hoff _ _ He). by rewrite Z2Nat.id in Hoff by lia.
  - unfold pack_pos_to_offset. cbn [loaded revindex revindex_map negb rp_pack]. rewrite Hn. destruct (Z.ltb_spec (len es) (len es)); [lia|]. by rewrite Z.eqb_refl.
Qed.
End OnDisk.

Section WriteOk.
Context `{Memory} `{Disk} {C : Type} `{!Hasher C} {space : C -> Prop} {hashing : C -> list Z -> Prop} {digest : list Z -> list Z} `{!HasherOk space hashing digest}.
Context (crc32 : Z -> list Z -> Z) (n : Z) (ctx0 : C) (junk algo : Z) (Hsp : space ctx0) (Hn : 0 < n < 2 ^ 64) (Halgo : algo = 1 \/ algo = 2).
Context (qsort_s : (Z -> Z -> Z) -> list Z -> list Z) `{!QsortOk qsort_s} (es : list pack_idx_entry) (Hnum : len es < 2 ^ 31) (hash : list Z) (Hhash : hash_rawsz <= len hash) (Hhb : is_bytes hash).

Definition written_order : list Z := QSORT qsort_s (seqZ 0 (len es)) (len es) (pack_order_cmp es).

Lemma written_in_order : in_order es written_order.
Proof using QsortOk0.
  assert (len (seqZ 0 (len es)) = len es) as Hl by (unfold len; rewrite length_seqZ; lia). pose proof (len_nonneg es).
  destruct (QSORT_sorted qsort_s (pack_order_cmp es) (seqZ 0 (len es)) (len es)) as (k & E & _ & Hp & Hs); [lia|]. unfold written_order. rewrite E.
  assert (Z.to_nat (len es) = length (seqZ 0 (len es))) as Et by (rewrite length_seqZ; done). rewrite Et, drop_all, app_nil_r. rewrite Et, firstn_all in Hp. constructor; [done|]. clear - Hs.
  induction Hs as [|i l Hs IH Hall]; [constructor|]. apply SSorted_cons; [done|]. eapply Forall_impl; [exact Hall|]. cbn. intros j. unfold pack_order_cmp. destruct (Z.ltb_spec (order_offset es i) (order_offset es j)), (Z.ltb_spec (order_offset es j) (order_offset es i)); lia.
Qed.

(** The array of positions before the sort. *)
Lemma positions_filled : total (for_range (Z.to_nat (len es)) 0 (fun i l => wr l i i) (replicate (Z.to_nat (len es)) junk)) (fun l => l = seqZ 0 (len es)).
Proof using Type.
  pose proof (len_nonneg es). eapply wp_mono; [apply (wp_for_range no_fault (fun i l => l = seqZ 0 i ++ replicate (Z.to_nat (len es - i)) junk))|].
  - intros i l Hi ->. replace (Z.to_nat (len es - i)) with (S (Z.to_nat (len es - (i + 1)))) by lia. cbn [replicate]. rewrite wr_mid by (unfold len; rewrite length_seqZ; lia). apply wp_ret.
    rewrite seqZ_app by lia. rewrite <- app_assoc. f_equal.
  - rewrite seqZ_nil by lia. cbn [app]. f_equal. lia.
  - intros l ->. replace (0 + Z.of_nat (Z.to_nat (len es))) with (len es) by lia. rewrite Z.sub_diag. cbn [Z.to_nat replicate]. by rewrite app_nil_r.
Qed.

Abbreviation trailer := (take (Z.to_nat hash_rawsz) hash).
Abbreviation chunks := (rev_chunks algo written_order trailer).

Lemma rev_writes f : (f ← write_rev_header crc32 algo f; f ← write_rev_index_positions crc32 f written_order (len es); write_rev_trailer crc32 f hash) = hashwrites crc32 f chunks.
Proof using All.
  unfold rev_chunks. rewrite hashwrites_app. assert (write_rev_header crc32 algo f = hashwrites crc32 f [be32 RIDX_SIGNATURE; be32 RIDX_VERSION; be32 algo]) as ->.
  { unfold write_rev_header. rewrite hashwrite_be32_one, hashwrites_one by done. cbn [hashwrites]. apply res_bind_ext. intros f1. rewrite hashwrite_be32_one, hashwrites_one by done. apply res_bind_ext. intros f2.
    assert (oid_version algo = Ok algo) as -> by (by destruct Halgo as [->| ->]). cbn [mbind res_bind]. rewrite hashwrite_be32_one, hashwrites_one by lia. by rewrite res_bind_ok. }
  apply res_bind_ext. intros f1. rewrite hashwrites_app. pose proof written_in_order as Ho. pose proof (in_order_length _ _ Ho) as Hl.
  assert (write_rev_index_positions crc32 f1 written_order (len es) = hashwrites crc32 f1 (be32 <$> written_order)) as ->.
  { unfold write_rev_index_positions. replace (Z.to_nat (len es)) with (length written_order) by llia. rewrite (for_range_writes crc32 written_order _ (fun x => [be32 x])).
    - f_equal. generalize written_order as l. induction l as [|x l IH]; [done|]. cbn [fmap list_fmap concat app]. f_equal. exact IH.
    - intros i x f2 Hx. rewrite (rd_Some _ _ x) by (lia || by rewrite Nat2Z.id). cbn [mbind res_bind]. apply hashwrite_be32_one. destruct (order_range es written_order Ho Hnum _ _ Hx). lia. }
  apply res_bind_ext. intros f2. unfold write_rev_trailer. assert (0 < hash_rawsz) as Hpos by (destruct hk_rawsz; lia). rewrite rd_slice_ok by lia. cbn [mbind res_bind]. unfold slice. change (drop (Z.to_nat 0) hash) with hash. rewrite hashwrites_one.
  assert (len trailer = hash_rawsz) as -> by (unfold len in *; rewrite length_take; lia). done.
Qed.

Lemma rev_written target fd flags : tr (flags &. WRITE_REV) = true -> tr (flags &. WRITE_REV_VERIFY) = false ->
  wp io (write_rev_file crc32 n ctx0 junk algo qsort_s true target (Some fd) es (len es) hash flags)
    (fun r => exists fd' result f, r = Some (fd', result, f) /\ hf_out f = rev_data algo written_order trailer (digest (concat chunks))).
Proof using All.
  intros Hw Hv. unfold write_rev_file. rewrite Hw. cbn [negb andb]. pose proof (len_nonneg es). apply wp_bind. eapply wp_mono; [eapply wp_weaken; [apply ALLOC_ARRAY_oom; lia|by left]|]. intros l ->.
  apply wp_bind. eapply wp_mono; [apply total_wp, positions_filled|]. intros l ->. fold written_order. unfold write_rev_file_order. rewrite Hw, Hv. cbn [negb andb].
  assert (Forall (fun x => is_bytes x /\ len x < 2 ^ 32) chunks) as Hc.
  { eapply Forall_impl; [apply (rev_chunks_ok hash_rawsz); [apply hk_rawsz| |by apply Forall_take]|]; [destruct hk_rawsz; unfold len in *; rewrite length_take; lia|]. intros x [Hb Hl]. split; [done|lia]. }
  assert (len (concat chunks) < 2 ^ 61) as Hsmall.
  { pose proof (rev_data_len hash_rawsz algo es written_order written_in_order trailer (digest (concat chunks))) as Hl. unfold rev_data in Hl. rewrite len_app in Hl. assert (0 < hash_rawsz <= 32) as Hr by (destruct hk_rawsz; lia).
    pose proof (hk_len (concat chunks)) as Hdl. specialize (Hl ltac:(unfold len in *; rewrite length_take; lia) Hdl). lia. }
  rewrite res_bind_assoc. cbn [mbind res_bind].
  set (fl := CSUM_HASH_IN_STREAM |. CSUM_CLOSE |. (if tr (flags &. WRITE_IDX_VERIFY) then 0 else CSUM_FSYNC)).
  assert (tr (fl &. CSUM_HASH_IN_STREAM) = true) as Hfl by (unfold fl; by destruct (tr (flags &. WRITE_IDX_VERIFY))).
  pose proof (stream_written (hashing := hashing) (digest := digest) crc32 ctx0 junk n fd chunks fl Hsp Hn Hc Hsmall Hfl) as Hs.
  destruct (hashfd n ctx0 junk fd) as [f0|]; [|exact Hs]. cbn [mbind res_bind] in Hs |- *. rewrite <- (rev_writes f0) in Hs.
  destruct (write_rev_header crc32 algo f0) as [f1|]; [|exact Hs]. cbn [mbind res_bind] in Hs |- *. destruct (write_rev_index_positions crc32 f1 written_order (len es)) as [f2|]; [|exact Hs]. cbn [mbind res_bind] in Hs |- *.
  destruct (write_rev_trailer crc32 f2 hash) as [f3|]; [|exact Hs]. cbn [mbind res_bind] in Hs |- *. destruct (finalize_hashfile f3 fl) as [[[fd' result] f4]|]; [|exact Hs]. cbn in Hs |- *. destruct Hs as [-> Hout]. by exists fd', (digest (concat chunks)), f4.
Qed.
End WriteOk.

(** ** The two ways of loading *)

(** An index of the objects [es] for a pack of [ps] bytes: the sizes that the code can
    handle, and no object starts behind the data. *)
Record indexed (rawsz : Z) (opts : pack_idx_option) (es : list pack_idx_entry) (trailer digest : list Z) (v ps : Z) : Prop := {
  ix_raw : rawsz = 20 \/ rawsz = 32;
  ix_es : Forall (pack_entry_ok rawsz) es;
  ix_sort : hashes_sorted rawsz ((fun e => oid_name rawsz (pe_oid e)) <$> es);
  ix_num : len es < 2 ^ 31;
  ix_trailer : len trailer = rawsz /\ is_bytes trailer;
  ix_digest : len digest = rawsz /\ is_bytes digest;
  ix_version : v = 1 \/ v = 2;
  ix_v1 : v = 1 -> len es * (rawsz + 4) <= 2 ^ 32 /\ Forall (fun e => pe_offset e < 2 ^ 32) es;
  ix_size : rawsz <= ps < 2 ^ 48;
  ix_end : Forall (fun e => pe_offset e <= ps - rawsz) es;
}.

Section Load.
Context `{Memory} (rawsz : Z) (opts : pack_idx_option) (junk : revindex_entry) (es : list pack_idx_entry) (trailer digest : list Z) (v ps crc : Z).
Context (Hix : indexed rawsz opts es trailer digest v ps).
(** The pack after its index was opened. *)
Definition opened : packed_git := mkPack (Some (idx_file rawsz opts es trailer digest v)) (len (idx_file rawsz opts es trailer digest v)) (len es) crc v ps.

Lemma opened_repr : idx_repr rawsz opened es.
Proof using Hix.
  destruct Hix as [Hraw Hes Hsort Hnum [Htl Htb] [Hdl Hdb] Hv Hv1 _ _]. unfold opened. destruct Hv as [->| ->]; [apply idx_repr1|apply idx_repr2]; try done. by apply Hv1.
Qed.

Lemma memory_ok idx map : wp oom (create_pack_revindex_in_memory rawsz junk idx false (mkRp opened None map)) (fun '(ret, rp) => ret = 0 /\ exists l,
  rp = mkRp opened (Some (l ++ [mkRe (ps - rawsz) (u32 (-1))])) map /\ rev_repr rawsz rp es (re_nr <$> l) /\ in_order es (re_nr <$> l)).
Proof using Hix.
  destruct Hix as [Hraw Hes Hsort Hnum [Htl Htb] [Hdl Hdb] Hv Hv1 [Hps0 Hps] Hend]. unfold create_pack_revindex_in_memory, open_pack_index. cbn [rp_pack revindex revindex_map opened index_data mbind res_bind]. change (tr 0) with false. cbv iota.
  apply wp_bind. eapply wp_mono; [by apply create_ok|]. intros r (l & -> & Hp & Hs). apply wp_ret. split; [done|]. exists l. split; [done|]. by apply created_repr.
Qed.

Lemma load_memory idx rev read dod : read = false \/ (rev = None /\ dod = false) ->
  wp oom (load_pack_revindex rawsz junk idx rev read false dod (mkRp opened None None)) (fun '(ret, rp) => ret = 0 /\ pack_size (rp_pack rp) = ps /\ exists order, rev_repr rawsz rp es order /\ in_order es order).
Proof using Hix.
  intros Hread. unfold load_pack_revindex. cbn [loaded revindex revindex_map]. cbv iota.
  assert ((if read then '(ret, rp) ← load_pack_revindex_from_disk rawsz idx rev dod (mkRp opened None None); Ok (negb (tr ret), rp) else Ok (false, mkRp opened None None)) = Ok (false, mkRp opened None None)) as ->.
  { destruct Hread as [->|[-> ->]]; [done|]. by destruct read. }
  cbn [mbind res_bind]. cbv iota. apply wp_bind. eapply wp_mono; [apply memory_ok|]. intros [ret rp] (-> & l & -> & Hr & Ho). apply wp_ret. split_and!; [done|done|]. by exists (re_nr <$> l).
Qed.

Lemma load_disk algo order idx dim rtrailer rdigest : algo = 1 \/ algo = 2 -> in_order es order -> len rtrailer = rawsz -> is_bytes rtrailer -> len rdigest = rawsz -> is_bytes rdigest ->
  let data := rev_data algo order rtrailer rdigest in
  load_pack_revindex rawsz junk idx (Some data) true dim false (mkRp opened None None) = Ok (0, mkRp opened None (Some data)) /\ rev_repr rawsz (mkRp opened None (Some data)) es order.
Proof using Hix.
  intros Ha Ho Htl Htb Hdl Hdb data. pose proof (ix_raw _ _ _ _ _ _ _ Hix) as Hraw. pose proof (ix_num _ _ _ _ _ _ _ Hix) as Hnum. split; [|apply disk_repr; try done; apply opened_repr].
  unfold load_pack_revindex. cbn [loaded revindex revindex_map]. cbv iota. unfold load_pack_revindex_from_disk, open_pack_index. cbn [rp_pack revindex revindex_map opened index_data mbind res_bind num_objects]. change (tr 0) with false. cbv iota.
  unfold data. rewrite load_disk_ok; try done.
Qed.
End Load.

Lemma offsets_cover rawsz rp es order e : in_order es order -> e ∈ es -> exists q, (q < length es)%nat /\ offsets rawsz rp es order !! q = Some (pe_offset e).
Proof.
  intros Ho [i He]%list_elem_of_lookup. pose proof (lookup_lt_Some _ _ _ He) as Hi. assert (Z.of_nat i ∈ order) as [q Hq]%list_elem_of_lookup by (rewrite (io_perm _ _ Ho); apply elem_of_seqZ; llia).
  exists q. pose proof (lookup_lt_Some _ _ _ Hq). rewrite <- (in_order_length _ _ Ho). split; [done|]. unfold offsets. apply lookup_app_l_Some. rewrite list_lookup_fmap, Hq. cbn. unfold order_offset. by rewrite Nat2Z.id, He.
Qed.

(** C27: the reverse index, computed in memory from an index in either format (of fewer than [2 ^ 31]
    objects, in version 1 few enough for 32-bit addresses, for a pack of less than [2 ^ 48] bytes in which no
    object starts behind the data): the radix sort stays
    inside of its arrays, and [offset_to_pack_pos] finds every offset at which an object starts, and
    the end of the data, and nothing else; the position leads back to the entry of the
    index, and the position after it is where the next object starts, so no other object starts in between.
    The end of the data is the size of the pack without its trailing checksum: that is what
    [pack_pos_to_offset] returns for the position behind the last object, where its comment promises the
    total size of the pack. *)
Theorem revindex_finds `{Memory} rawsz opts junk es trailer digest v ps crc idx rev read dod ofs : indexed rawsz opts es trailer digest v ps -> (read = false \/ (rev = None /\ dod = false)) ->
  wp oom (offset_to_pack_pos rawsz junk idx rev read false dod (mkRp (opened rawsz opts es trailer digest v ps crc) None None) ofs) (fun '(ret, pos, rp) =>
    (ret = 0 /\ pack_pos_to_offset rawsz rp pos = Ok ofs /\
      ((pos = len es /\ ofs = ps - rawsz) \/
       (exists i e next, pack_pos_to_index rp pos = Ok (Z.of_nat i) /\ es !! i = Some e /\ pe_offset e = ofs /\ pack_pos_to_offset rawsz rp (pos + 1) = Ok next /\
        forall e', e' ∈ es -> pe_offset e' <= ofs \/ next <= pe_offset e'))) \/
    (ret = -1 /\ ofs <> ps - rawsz /\ forall e, e ∈ es -> pe_offset e <> ofs)).
Proof.
  intros Hix Hread. unfold offset_to_pack_pos. apply wp_bind. eapply wp_mono; [by apply load_memory|]. intros [ret rp] (-> & Hps & order & Hr & Ho). change (0 <? 0) with false. cbv iota zeta.
  pose proof (rr_num _ _ _ _ Hr) as Hn. pose proof (ix_num _ _ _ _ _ _ _ Hix) as Hnum. pose proof (len_nonneg es). rewrite Hn, u32_small by lia. apply wp_bind.
  assert (Forall (fun e => pe_offset e <= pack_size (rp_pack rp) - rawsz) es) as Hend by (rewrite Hps; apply (ix_end _ _ _ _ _ _ _ Hix)).
  eapply wp_mono; [apply total_wp, (offset_search rawsz rp es order Hr Ho Hnum Hend)|]. intros [ret pos] [(-> & Hpos & Hx)|[-> Hx]]; apply wp_ret; [left|right].
  - pose proof (offsets_read _ _ _ _ Hr Ho _ _ Hx) as Hrd. rewrite Z2Nat.id in Hrd by lia. split_and!; [done|done|]. pose proof (lookup_lt_Some _ _ _ Hx) as Hlt. pose proof (offsets_len rawsz rp es order Ho) as Hol.
    pose proof (in_order_length _ _ Ho) as Hlo. destruct (decide (pos = len es)) as [->|Hne].
    { left. split; [done|]. rewrite (rr_end _ _ _ _ Hr), Hps in Hrd. by injection Hrd as <-. }
    right. destruct (lookup_lt_is_Some_2 order (Z.to_nat pos)) as [i Hi]; [llia|]. destruct (in_order_lookup _ _ _ _ Ho Hi) as (e & He & Eo & Hir). destruct (lookup_lt_is_Some_2 (offsets rawsz rp es order) (Z.to_nat (pos + 1))) as [next Hnext]; [llia|].
    exists (Z.to_nat i), e, next. rewrite Z2Nat.id by lia. pose proof (rr_index _ _ _ _ Hr _ _ Hi) as Hidx. pose proof (rr_offset _ _ _ _ Hr _ _ Hi) as Hoff. rewrite Z2Nat.id in Hidx, Hoff by lia. split_and!; [done|done|congruence| |].
    + pose proof (offsets_read _ _ _ _ Hr Ho _ _ Hnext) as Hrd2. by rewrite Z2Nat.id in Hrd2 by lia.
    + intros e' He'. destruct (offsets_cover rawsz rp es order e' Ho He') as (q & Hq & Hlook). pose proof (offsets_monotone rawsz rp es order Ho Hend) as Hm.
      destruct (decide (q <= Z.to_nat pos)%nat) as [Hle|Hgt]; [left; destruct (Hm ofs q (Z.to_nat pos) _ _ Hle Hlook Hx); lia|right; destruct (Hm (pe_offset e') (Z.to_nat (pos + 1)) q _ _ ltac:(lia) Hnext Hlook); lia].
  - split_and!; [done| |].
    + intros ->. apply Hx. unfold offsets. rewrite Hps. apply elem_of_app. right. apply list_elem_of_here.
    + intros e He E. apply Hx. destruct (offsets_cover rawsz rp es order e Ho He) as (q & _ & Hq). rewrite <- E. by eapply list_elem_of_lookup_2.
Qed.

(** The comparison of a .rev file with the reverse index that it came from. *)
Lemma verify_loop es order algo rtrailer rdigest rawsz rev : rawsz = 20 \/ rawsz = 32 -> algo = 1 \/ algo = 2 -> in_order es order -> len es < 2 ^ 31 -> len rtrailer = rawsz -> is_bytes rtrailer -> len rdigest = rawsz -> is_bytes rdigest ->
  (forall pos i, order !! pos = Some i -> exists x, rev !! pos = Some x /\ re_nr x = i) ->
  total (for_range (Z.to_nat (len es)) 0 (verify_body rev (rev_data algo order rtrailer rdigest)) 0) (fun r => r = 0).
Proof.
  intros Hraw Ha Ho Hnum Htl Htb Hdl Hdb Hrev. eapply wp_mono; [apply (wp_for_range no_fault (fun i r => r = 0))|]; [|done|done].
  intros k r Hk ->. pose proof (in_order_length _ _ Ho) as Hl. destruct (lookup_lt_is_Some_2 order (Z.to_nat k)) as [i Hi]; [llia|]. destruct (Hrev _ _ Hi) as (x & Hx & <-). unfold verify_body.
  rewrite (rd_Some rev k x) by (done || lia). cbn [mbind res_bind]. pose proof (rev_data_read rawsz algo Hraw Ha es order Ho Hnum rtrailer rdigest Htl Htb Hdl Hdb _ _ Hi) as Hrd. rewrite Z2Nat.id in Hrd by lia. rewrite Hrd. cbn [mbind res_bind]. by rewrite Z.eqb_refl.
Qed.

(** C28: the .rev file that [write_rev_file] writes for the objects of an index, whose offsets are different,
    is accepted by [load_pack_revindex], and then every position has the same entry and the same offset
    as in the reverse index that is computed in memory;
    [verify_pack_revindex] finds no difference. *)
Theorem rev_file_agrees `{Memory} `{Disk} {C} `{!Hasher C} {space hashing digest} `{!HasherOk space hashing digest} crc32 n (ctx0 : C) got0 jz junk algo qsort_s `{!QsortOk qsort_s}
    opts es trailer idigest v ps crc hash target fd flags idx dim dod :
  space ctx0 -> 0 < n < 2 ^ 64 -> len got0 = GIT_MAX_RAWSZ -> algo = 1 \/ algo = 2 -> indexed hash_rawsz opts es trailer idigest v ps -> NoDup (pe_offset <$> es) ->
  hash_rawsz <= len hash -> is_bytes hash -> tr (flags &. WRITE_REV) = true -> tr (flags &. WRITE_REV_VERIFY) = false ->
  let rp0 := mkRp (opened hash_rawsz opts es trailer idigest v ps crc) None None in
  wp io (write_rev_file crc32 n ctx0 jz algo qsort_s true target (Some fd) es (len es) hash flags) (fun r => exists fd' result f, r = Some (fd', result, f) /\
    total (load_pack_revindex hash_rawsz junk idx (Some (hf_out f)) true dim false rp0) (fun '(ret, rp) => ret = 0 /\
      wp oom (load_pack_revindex hash_rawsz junk idx None false false dod rp0) (fun '(ret', rp') => ret' = 0 /\
        forall pos, 0 <= pos <= len es ->
          (exists ofs, pack_pos_to_offset hash_rawsz rp pos = Ok ofs /\ pack_pos_to_offset hash_rawsz rp' pos = Ok ofs) /\
          (pos < len es -> exists i, 0 <= i < len es /\ pack_pos_to_index rp pos = Ok i /\ pack_pos_to_index rp' pos = Ok i)) /\
      wp oom (verify_pack_revindex hash_rawsz junk idx false ctx0 got0 rp) (fun '(ret', _) => ret' = 0))).
Proof.
  intros Hsp Hn Hgot Ha Hix Hnd Hhl Hhb Hw Hwv rp0. pose proof (ix_num _ _ _ _ _ _ _ Hix) as Hnum. pose proof (ix_raw _ _ _ _ _ _ _ Hix) as Hraw.
  eapply wp_mono; [by apply (rev_written (hashing := hashing) (digest := digest))|]. intros r (fd' & result & f & -> & Hout). exists fd', result, f. split; [done|]. rewrite Hout.
  set (order := written_order qsort_s es) in *. set (tr' := take (Z.to_nat hash_rawsz) hash) in *. set (dg := digest _) in *.
  assert (in_order es order) as Ho by exact (written_in_order qsort_s es). assert (len tr' = hash_rawsz) as Htl by (unfold tr', len in *; rewrite length_take; lia).
  assert (is_bytes tr') as Htb by (by apply Forall_take). assert (len dg = hash_rawsz) as Hdl by apply hk_len. assert (is_bytes dg) as Hdb by apply hk_bytes.
  destruct (load_disk hash_rawsz opts junk es trailer idigest v ps crc Hix algo order idx dim tr' dg Ha Ho Htl Htb Hdl Hdb) as [Hload Hrepr]. fold rp0 in Hload. rewrite Hload. apply wp_ret. split_and!; [done| |].
  - eapply wp_mono; [by apply load_memory; [|left]|]. intros [ret' rp'] (-> & Hps' & order' & Hrepr' & Ho'). split; [done|]. intros pos Hpos. assert (order' = order) as -> by (by eapply in_order_unique).
    pose proof (in_order_length _ _ Ho) as Hl. destruct (decide (pos = len es)) as [->|Hne].
    + split; [|lia]. rewrite (rr_end _ _ _ _ Hrepr). pose proof (rr_end _ _ _ _ Hrepr') as He'. eexists. split; [done|]. by rewrite He', Hps'.
    + destruct (lookup_lt_is_Some_2 order (Z.to_nat pos)) as [i Hi]; [llia|]. destruct (in_order_lookup _ _ _ _ Ho Hi) as (e & _ & _ & Hir).
      pose proof (rr_index _ _ _ _ Hrepr _ _ Hi) as H1. pose proof (rr_index _ _ _ _ Hrepr' _ _ Hi) as H2. pose proof (rr_offset _ _ _ _ Hrepr _ _ Hi) as H3. pose proof (rr_offset _ _ _ _ Hrepr' _ _ Hi) as H4.
      rewrite Z2Nat.id in * by lia. split; [by eexists|]. intros _. by exists i.
  - unfold verify_pack_revindex. cbn [revindex_map].
    destruct (checksum_valid_ok (hashing := hashing) (digest := digest) ctx0 got0 (rev_data algo order tr' dg)) as (b & Hv & Hb); [done|done|by apply (rev_data_bytes hash_rawsz)|rewrite (rev_data_len hash_rawsz algo es); try done; lia|].
    rewrite Hv. cbn [mbind res_bind]. assert (b = true) as -> by (apply Hb; by eexists). cbv iota zeta. apply wp_bind. eapply wp_mono; [by apply memory_ok|].
    intros [ret rp] (-> & l & -> & Hr & Hol). change (tr 0) with false. cbv iota. cbn [revindex rp_pack opened num_objects]. assert (re_nr <$> l = order) as El by (by eapply in_order_unique).
    apply wp_bind. eapply wp_mono; [apply total_wp, (verify_loop es order algo tr' dg hash_rawsz); try done|intros r ->; by apply wp_ret].
    intros pos i Hi. rewrite <- El, list_lookup_fmap in Hi. destruct (l !! pos) as [x|] eqn:Hx; [|done]. injection Hi as <-. exists x. split; [|done]. by apply lookup_app_l_Some.
Qed.

(** The objects of the example of PackRoundtrip.v, in the order of their names. *)
Definition ex_sorted : list pack_idx_entry := reverse ex_objects.

Lemma ex_indexed : indexed 20 ex_opts ex_sorted (replicate 20 7) (replicate 20 0) 2 (2 ^ 33 + 100).
Proof.
  constructor; [by left| | |done| | |by right|done|done|].
  - repeat (apply Forall_cons; split); [| |constructor]; (constructor; [constructor; [done|done|by repeat constructor]|done|done]).
  - constructor; [by repeat constructor|]. apply SSorted_cons; [apply SSorted_cons; [apply SSorted_nil|constructor]|]. by repeat constructor.
  - split; [done|by apply Forall_replicate].
  - split; [done|by apply Forall_replicate].
  - by repeat constructor.
Qed.

Lemma revindex_finds_witness :
  wp (@oom plenty) (@offset_to_pack_pos plenty 20 (mkRe 0 0) None None true false false (mkRp (opened 20 ex_opts ex_sorted (replicate 20 7) (replicate 20 0) 2 (2 ^ 33 + 100) 0) None None) 12) (fun '(ret, pos, rp) =>
    (ret = 0 /\ pack_pos_to_offset 20 rp pos = Ok 12 /\
      ((pos = len ex_sorted /\ 12 = 2 ^ 33 + 100 - 20) \/
       (exists i e next, pack_pos_to_index rp pos = Ok (Z.of_nat i) /\ ex_sorted !! i = Some e /\ pe_offset e = 12 /\ pack_pos_to_offset 20 rp (pos + 1) = Ok next /\
        forall e', e' ∈ ex_sorted -> pe_offset e' <= 12 \/ next <= pe_offset e'))) \/
    (ret = -1 /\ 12 <> 2 ^ 33 + 100 - 20 /\ forall e, e ∈ ex_sorted -> pe_offset e <> 12)).
Proof. apply (@revindex_finds plenty); [apply ex_indexed|by right]. Defined.

Lemma rev_file_agrees_witness :
  let rp0 := mkRp (opened 20 ex_opts ex_sorted (replicate 20 7) (replicate 20 0) 2 (2 ^ 33 + 100) 0) None None in
  wp (@io plenty good_disk) (@write_rev_file plenty good_disk _ sha1_hasher (fun c _ => c) 200 (mkCTX 0 (replicate 5 0) (replicate 64 0)) 0 1 (stable_qsort 0) true RevMissing (Some 3) ex_sorted (len ex_sorted) (replicate 20 9) 4)
    (fun r => exists fd' result f, r = Some (fd', result, f) /\
      total (@load_pack_revindex plenty 20 (mkRe 0 0) None (Some (hf_out f)) true false false rp0) (fun '(ret, rp) => ret = 0 /\
        wp (@oom plenty) (@load_pack_revindex plenty 20 (mkRe 0 0) None None false false false rp0) (fun '(ret', rp') => ret' = 0 /\
          forall pos, 0 <= pos <= len ex_sorted ->
            (exists ofs, pack_pos_to_offset 20 rp pos = Ok ofs /\ pack_pos_to_offset 20 rp' pos = Ok ofs) /\
            (pos < len ex_sorted -> exists i, 0 <= i < len ex_sorted /\ pack_pos_to_index rp pos = Ok i /\ pack_pos_to_index rp' pos = Ok i)) /\
        wp (@oom plenty) (@verify_pack_revindex plenty 20 (mkRe 0 0) None false _ sha1_hasher (mkCTX 0 (replicate 5 0) (replicate 64 0)) (replicate 32 0) rp) (fun '(ret', _) => ret' = 0))).
Proof.
  apply (@rev_file_agrees plenty good_disk blk_SHA_CTX sha1_hasher sha1_space sha_repr Fips.sha1 sha1_hasher_ok (fun c _ => c) 200 (mkCTX 0 (replicate 5 0) (replicate 64 0)) (replicate 32 0) 0 (mkRe 0 0) 1 (stable_qsort 0) _
    ex_opts ex_sorted (replicate 20 7) (replicate 20 0) 2 (2 ^ 33 + 100) 0 (replicate 20 9) RevMissing 3 4 None false false).
  - split_and!; [done|done|by apply Forall_replicate].
  - done.
  - done.
  - by left.
  - exact ex_indexed.
  - change (NoDup [12; 2 ^ 33]). apply NoDup_cons. split; [|apply NoDup_singleton]. by intros E%list_elem_of_singleton.
  - done.
  - by apply Forall_replicate.
  - done.
  - done.
Defined.

(** ** What the code does not check *)

(** Six objects whose offsets claim to be in a table of 64-bit offsets that is not there. *)
Definition no_table_idx : list Z :=
  be32 PACK_IDX_SIGNATURE ++ be32 2 ++ concat (replicate 256 (be32 6)) ++ replicate 144 0 ++ concat (replicate 6 (be32 (2 ^ 31))) ++ replicate 40 0.

(** [load_idx] accepts the file, [nth_packed_object_offset] stays inside of it, and
    [create_pack_revindex], which takes the 64-bit offsets one after the other without a check,
    reads behind the map. *)
Example revindex_unchecked :
  match load_idx 20 (Some no_table_idx) (len no_table_idx) (mkPack None 0 0 0 0 1000) with
  | Ok (ret, p) => ret = 0 /\ nth_packed_object_offset 20 p 5 = Ok 0 /\ @create_pack_revindex plenty 20 (mkRe 0 0) p = Fault UB
  | Fault _ => False
  end.
Proof. vm_compute. done. Qed.
