(* ===== verification/TreeWalk.v ===== *)
(** * Tree objects: [tree-walk.c], [tree.c], [object.h]

    A tree object is a sequence of entries: an octal mode, a space, a name, a NUL and an object
    name.  [decode_tree_entry] reads one entry and checks only what keeps its reads inside of the
    buffer; the theorem is that walking any bytes stays inside of them, and
    that it succeeds exactly on the encodings of lists of entries. *)

From stdpp Require Import prelude numbers list sorting.
From S2P Require Import Prelude PatchDelta Alloc CString Hex StableQsort StringList StringListSpec HashLookup PackIdx.

(** ** Modes *)

Definition S_IFMT : Z := 0xf000.
Definition S_IFREG : Z := 0x8000.
Definition S_IFLNK : Z := 0xa000.
Definition S_IFDIR : Z := 0x4000.
Definition S_IFGITLINK : Z := 0xe000.
Definition S_ISREG (m : Z) : bool := m &. S_IFMT =? S_IFREG.
Definition S_ISLNK (m : Z) : bool := m &. S_IFMT =? S_IFLNK.
Definition S_ISDIR (m : Z) : bool := m &. S_IFMT =? S_IFDIR.
Definition S_ISGITLINK (m : Z) : bool := m &. S_IFMT =? S_IFGITLINK.
Definition ce_permissions (mode : Z) : Z := if tr (mode &. 0x40) then 0x1ed else 0x1a4.

Definition create_ce_mode (mode : Z) : Z :=
  if S_ISLNK mode then S_IFLNK
  else if mode =? S_IFDIR then S_IFDIR
  else if S_ISDIR mode || S_ISGITLINK mode then S_IFGITLINK
  else S_IFREG |. ce_permissions mode.

Definition canon_mode (mode : Z) : Z :=
  if S_ISREG mode then S_IFREG |. ce_permissions mode
  else if S_ISLNK mode then S_IFLNK
  else if S_ISDIR mode then S_IFDIR
  else S_IFGITLINK.

(** The loop of [parse_mode]: [str] and the mode; the result is the pointer behind the space and
    the mode as a [uint16_t]. *)
Definition parse_mode_step (mem : list Z) (st : Z * Z) : res (Z * Z + option (Z * Z)) :=
  let '(str, mode) := st in
  c ← rd mem str;
  if c =? 32 then Ok (inr (Some (str + 1, mode `mod` 2 ^ 16)))
  else if (c <? 48) || (55 <? c) then Ok (inr None)
  else Ok (inl (str + 1, u32 (u32 (mode <<. 3) + (c - 48)))).

Definition parse_mode (mem : list Z) (str : Z) : res (option (Z * Z)) :=
  c ← rd mem str;
  if c =? 32 then Ok None else loop (S (length mem)) (parse_mode_step mem) (str, 0).

(** ** Names *)

(** The character behind the common part; directories end with a slash. *)
Definition name_end (mem : list Z) (i mode : Z) : res Z :=
  c ← rd mem i; Ok (if negb (tr c) && S_ISDIR mode then 47 else c).

Definition base_name_compare (mem1 : list Z) (name1 len1 mode1 : Z) (mem2 : list Z) (name2 len2 mode2 : Z) : res Z :=
  let len := if len1 <? len2 then len1 else len2 in
  x ← rd_slice mem1 name1 len; y ← rd_slice mem2 name2 len;
  let cmp := memcmp x y in
  if tr cmp then Ok cmp
  else
    c1 ← name_end mem1 (name1 + len) mode1; c2 ← name_end mem2 (name2 + len) mode2;
    Ok (if c1 <? c2 then -1 else if c2 <? c1 then 1 else 0).

Definition df_name_compare (mem1 : list Z) (name1 len1 mode1 : Z) (mem2 : list Z) (name2 len2 mode2 : Z) : res Z :=
  let len := if len1 <? len2 then len1 else len2 in
  x ← rd_slice mem1 name1 len; y ← rd_slice mem2 name2 len;
  let cmp := memcmp x y in
  if tr cmp then Ok cmp
  else if len1 =? len2 then Ok 0
  else
    c1 ← name_end mem1 (name1 + len) mode1; c2 ← name_end mem2 (name2 + len) mode2;
    Ok (if (c1 =? 47) && negb (tr c2) then 0 else if (c2 =? 47) && negb (tr c1) then 0 else c1 - c2).

Definition name_compare (mem1 : list Z) (name1 len1 : Z) (mem2 : list Z) (name2 len2 : Z) : res Z :=
  let min_len := if len1 <? len2 then len1 else len2 in
  x ← rd_slice mem1 name1 min_len; y ← rd_slice mem2 name2 min_len;
  let cmp := memcmp x y in
  Ok (if tr cmp then cmp else if len1 <? len2 then -1 else if len2 <? len1 then 1 else 0).

(** ** Walking *)

(** [path] is an address in the buffer. *)
Record name_entry := mkNe { ne_oid : object_id; ne_path : Z; ne_pathlen : Z; ne_mode : Z }.

Record tree_desc := mkTd { td_buffer : Z; td_entry : name_entry; td_size : Z; td_flags : Z }.

Definition TREE_DESC_RAW_MODES : Z := 1.

Section Code.
(** The algorithm of the tree, and the buffer. *)
Context (hashsz algo : Z) (mem : list Z).

Definition decode_tree_entry (desc : tree_desc) (buf size : Z) : res (Z * tree_desc) :=
  bad ← (if size <? hashsz + 3 then Ok true else c ← rd mem (buf + (size - (hashsz + 1))); Ok (tr c));
  if (bad : bool) then Ok (-1, desc)
  else
    r ← parse_mode mem buf;
    match r with
    | None => Ok (-1, desc)
    | Some (path, mode) =>
        c ← rd mem path;
        if negb (tr c) then Ok (-1, desc)
        else
          n ← strlen mem path;
          let len := u32 (n + 1) in
          let mode := if tr (td_flags desc &. TREE_DESC_RAW_MODES) then mode else canon_mode mode in
          oid ← oidread hashsz algo mem (path + len);
          Ok (0, mkTd (td_buffer desc) (mkNe oid path (to_int (len - 1)) mode) (td_size desc) (td_flags desc))
    end.

(** [entry0] is what the descriptor holds before. *)
Definition init_tree_desc_internal (entry0 : name_entry) (buffer size flags : Z) : res (Z * tree_desc) :=
  let desc := mkTd buffer entry0 (u32 size) flags in
  if tr size then decode_tree_entry desc buffer size else Ok (0, desc).

Definition init_tree_desc (entry0 : name_entry) (buffer size : Z) : res tree_desc :=
  '(r, desc) ← init_tree_desc_internal entry0 buffer size 0;
  if tr r then Fault Died else Ok desc.

Definition init_tree_desc_gently (entry0 : name_entry) (buffer size flags : Z) : res (Z * tree_desc) :=
  init_tree_desc_internal entry0 buffer size flags.

Definition update_tree_entry_internal (desc : tree_desc) : res (Z * tree_desc) :=
  let buf := td_buffer desc in
  let end_ := ne_path (td_entry desc) + ne_pathlen (td_entry desc) + 1 + hashsz in
  let size := td_size desc in
  let len := u64 (end_ - buf) in
  if size <? len then Fault Died
  else
    let size := size - len in
    let desc := mkTd end_ (td_entry desc) (u32 size) (td_flags desc) in
    if tr size then decode_tree_entry desc end_ size else Ok (0, desc).

Definition update_tree_entry (desc : tree_desc) : res tree_desc :=
  '(r, desc) ← update_tree_entry_internal desc;
  if tr r then Fault Died else Ok desc.

Definition update_tree_entry_gently (desc : tree_desc) : res (Z * tree_desc) :=
  '(r, desc) ← update_tree_entry_internal desc;
  if tr r then Ok (-1, mkTd (td_buffer desc) (td_entry desc) 0 (td_flags desc)) else Ok (0, desc).

(** [None] for the return value 0. *)
Definition tree_entry (desc : tree_desc) : res (option name_entry * tree_desc) :=
  if negb (tr (td_size desc)) then Ok (None, desc)
  else
    let entry := td_entry desc in
    desc ← update_tree_entry desc;
    Ok (Some entry, desc).

Definition tree_entry_gently (desc : tree_desc) : res (option name_entry * tree_desc) :=
  if negb (tr (td_size desc)) then Ok (None, desc)
  else
    let entry := td_entry desc in
    '(r, desc) ← update_tree_entry_gently desc;
    if tr r then Ok (None, desc) else Ok (Some entry, desc).

(** The callers' loop: [while (tree_entry(&desc, &entry))]. *)
Definition walk_step (st : tree_desc * list name_entry) : res (tree_desc * list name_entry + list name_entry) :=
  let '(desc, acc) := st in
  '(e, desc) ← tree_entry desc;
  Ok (match e with None => inr acc | Some e => inl (desc, acc ++ [e]) end).

Definition walk_tree (entry0 : name_entry) : res (list name_entry) :=
  desc ← init_tree_desc entry0 0 (len mem);
  loop (S (length mem)) walk_step (desc, []).
End Code.

(** ** The format *)

Record tentry := mkTe { te_digits : list Z; te_name : list Z; te_hash : list Z }.

Definition octal_digit (c : Z) : Prop := 0 <= c < 8.

Definition mode_of (ds : list Z) : Z := fold_left (fun m d => u32 (u32 (m <<. 3) + d)) ds 0 `mod` 2 ^ 16.

Section Format.
Context (hashsz algo : Z).

Definition te_bytes (t : tentry) : list Z := ((Z.add 48) <$> te_digits t) ++ [32] ++ te_name t ++ [0] ++ te_hash t.

Record te_ok (t : tentry) : Prop := {
  to_digits : te_digits t <> [] /\ Forall octal_digit (te_digits t);
  to_name : te_name t <> [] /\ Forall (fun c => c <> 0) (te_name t);
  to_hash : len (te_hash t) = hashsz;
}.

Definition tree_bytes (ts : list tentry) : list Z := concat (te_bytes <$> ts).

(** What the walk delivers for an entry at [base]. *)
Definition te_entry (base flags : Z) (t : tentry) : name_entry :=
  mkNe (mkOid (te_hash t ++ replicate (Z.to_nat (GIT_MAX_RAWSZ - hashsz)) 0) algo) (base + len (te_digits t) + 1) (len (te_name t))
    (if tr (flags &. TREE_DESC_RAW_MODES) then mode_of (te_digits t) else canon_mode (mode_of (te_digits t))).

Fixpoint tree_entries (base : Z) (ts : list tentry) : list name_entry :=
  match ts with [] => [] | t :: ts => te_entry base 0 t :: tree_entries (base + len (te_bytes t)) ts end.

Lemma te_len t : len (te_bytes t) = len (te_digits t) + len (te_name t) + len (te_hash t) + 2.
Proof using Type. unfold te_bytes. rewrite !len_app. assert (len ((Z.add 48) <$> te_digits t) = len (te_digits t)) as -> by (unfold len; by rewrite length_fmap). change (len [32]) with 1. change (len [0]) with 1. lia. Qed.

(** A tree that is not empty has a NUL in front of its last object name. *)
Lemma tree_nul ts : Forall te_ok ts -> ts <> [] -> exists pre h, tree_bytes ts = pre ++ 0 :: h /\ len h = hashsz.
Proof using Type.
  intros Hok Hne. destruct ts as [|t ts _] using rev_ind; [done|]. unfold tree_bytes. rewrite fmap_app, concat_app. cbn. rewrite app_nil_r. apply Forall_app in Hok as [_ Hok]. apply Forall_singleton in Hok as [_ _ Hh].
  exists (concat (te_bytes <$> ts) ++ ((Z.add 48) <$> te_digits t) ++ [32] ++ te_name t), (te_hash t). split; [|done]. unfold te_bytes. by rewrite <- !app_assoc.
Qed.
End Format.

(** ** Decoding one entry *)

Section Decode.
Context (hashsz algo : Z) (mem : list Z) (Hsz : hashsz = 20 \/ hashsz = 32) (Halgo : algo = 1 \/ algo = 2) (Hb : is_bytes mem) (Hlen : len mem < 2 ^ 31).

Lemma parse_mode_loop ds : forall fuel str m x r, Forall octal_digit ds -> ~ (48 <= x <= 55) -> 0 <= str -> drop (Z.to_nat str) mem = ((Z.add 48) <$> ds) ++ x :: r -> (length ds < fuel)%nat ->
  loop fuel (parse_mode_step mem) (str, m) = Ok (if x =? 32 then Some (str + len ds + 1, fold_left (fun m d => u32 (u32 (m <<. 3) + d)) ds m `mod` 2 ^ 16) else None).
Proof using Type.
  induction ds as [|d ds IH]; intros fuel str m x r Hd Hx Hs Hat Hf; (destruct fuel as [|fuel]; [lia|]); rewrite loop_S; unfold parse_mode_step; cbn [fmap list_fmap app] in Hat; rewrite (rd_drop_cons _ _ _ _ Hs Hat); cbn [mbind res_bind].
  - destruct (Z.eqb_spec x 32); [by rewrite Z.add_0_r|]. destruct (Z.ltb_spec x 48); [done|]. destruct (Z.ltb_spec 55 x); [done|lia].
  - apply Forall_cons in Hd as [Ho Hd]. unfold octal_digit in Ho. destruct (Z.eqb_spec (48 + d) 32); [lia|]. destruct (Z.ltb_spec (48 + d) 48); [lia|]. destruct (Z.ltb_spec 55 (48 + d)); [lia|]. cbn [orb].
    rewrite (IH _ _ _ x r); [|done|done|lia|by eapply drop_cons_tail|cbn in Hf; lia]. cbn [fold_left]. replace (48 + d - 48) with d by lia. rewrite len_cons. by replace (str + 1 + len ds + 1) with (str + (1 + len ds) + 1) by lia.
Qed.

(** A run of octal digits and what follows it. *)
Lemma parse_mode_ok str ds x r : Forall octal_digit ds -> ~ (48 <= x <= 55) -> 0 <= str -> drop (Z.to_nat str) mem = ((Z.add 48) <$> ds) ++ x :: r ->
  parse_mode mem str = Ok (if (x =? 32) && negb (bool_decide (ds = [])) then Some (str + len ds + 1, mode_of ds) else None).
Proof using Type.
  intros Hd Hx Hs Hat. unfold parse_mode. destruct ds as [|d ds]; cbn [fmap list_fmap app] in Hat; rewrite (rd_drop_cons _ _ _ _ Hs Hat); cbn [mbind res_bind].
  - rewrite bool_decide_eq_true_2 by done. cbn [negb]. rewrite andb_false_r. destruct (Z.eqb_spec x 32); [done|]. rewrite (parse_mode_loop [] _ str 0 x r); [|done|done|done|done|cbn; lia]. by destruct (Z.eqb_spec x 32).
  - rewrite bool_decide_eq_false_2 by done. cbn [negb]. rewrite andb_true_r. pose proof Hd as Hd'. apply Forall_cons in Hd' as [Ho _]. unfold octal_digit in Ho. destruct (Z.eqb_spec (48 + d) 32); [lia|].
    rewrite (parse_mode_loop (d :: ds) _ str 0 x r); [done|done|done|done|done|]. apply (f_equal length) in Hat. rewrite length_drop in Hat. cbn [length] in *. rewrite length_app, length_fmap in Hat. cbn in Hat. lia.
Qed.

(** Any bytes with a NUL start with a run of octal digits. *)
Lemma octal_run l : is_bytes l -> 0 ∈ l -> exists ds x r, l = ((Z.add 48) <$> ds) ++ x :: r /\ Forall octal_digit ds /\ ~ (48 <= x <= 55).
Proof using Type.
  induction l as [|c l IH]; intros Hl H0; [by apply not_elem_of_nil in H0|]. apply Forall_cons in Hl as [_ Hl]. destruct (decide (48 <= c <= 55)) as [Hc|Hc].
  - apply elem_of_cons in H0 as [<-|H0]; [lia|]. destruct (IH Hl H0) as (ds & x & r & -> & Hd & Hx). exists (c - 48 :: ds), x, r. split_and!; [cbn; f_equal; lia|constructor; [unfold octal_digit; lia|done]|done].
  - exists [], c, l. split_and!; [done|constructor|done].
Qed.

Lemma oidread_at i h r : 0 <= i -> len h = hashsz -> drop (Z.to_nat i) mem = h ++ r -> oidread hashsz algo mem i = Ok (mkOid (h ++ replicate (Z.to_nat (GIT_MAX_RAWSZ - hashsz)) 0) algo).
Proof using Hsz Halgo.
  intros Hi Hh Hd. unfold oidread. pose proof (f_equal length Hd) as Hl. rewrite length_drop, length_app in Hl. rewrite rd_slice_ok by llia. cbn [mbind res_bind].
  assert (slice mem i hashsz = h) as -> by (unfold slice; rewrite Hd, <- Hh; unfold len; by rewrite Nat2Z.id, take_app_length). by destruct Halgo as [->| ->].
Qed.

Definition starts_tree (rest : list Z) : Prop := exists ts, Forall (te_ok hashsz) ts /\ rest = tree_bytes ts.

Lemma starts_inv rest : starts_tree rest -> rest <> [] -> exists t tl, te_ok hashsz t /\ rest = te_bytes t ++ tl /\ exists pre h, rest = pre ++ 0 :: h /\ len h = hashsz.
Proof using Type.
  intros (ts & Hok & E) Hne. destruct ts as [|t ts]; [done|]. destruct (tree_nul hashsz (t :: ts) Hok ltac:(done)) as (pre & h & Ep & Hh). apply Forall_cons in Hok as [Ht _].
  exists t, (tree_bytes ts). split_and!; [done|done|]. exists pre, h. by rewrite E.
Qed.

(** The parts of an entry can be told apart. *)
Lemma te_shape ds : forall es a b x y, Forall octal_digit ds -> Forall octal_digit es -> ~ (48 <= x <= 55) -> ~ (48 <= y <= 55) -> ((Z.add 48) <$> ds) ++ x :: a = ((Z.add 48) <$> es) ++ y :: b -> ds = es /\ x = y /\ a = b.
Proof using Type.
  induction ds as [|d ds IH]; intros [|e es] a b x y Hd He Hx Hy E; cbn in E; simplify_eq; [done|apply Forall_cons in He as [He _]; unfold octal_digit in He; lia|apply Forall_cons in Hd as [Hd _]; unfold octal_digit in Hd; lia|].
  apply Forall_cons in Hd as [_ Hd], He as [_ He]. destruct (IH es a b x y) as (-> & -> & ->); [done..|]. split_and!; [f_equal; lia|done|done].
Qed.

Lemma name_shape n : forall m a b, Forall (fun c => c <> 0) n -> Forall (fun c => c <> 0) m -> n ++ 0 :: a = m ++ 0 :: b -> n = m /\ a = b.
Proof using Type.
  induction n as [|c n IH]; intros [|d m] a b Hn Hm E; cbn in E; simplify_eq; [done|apply Forall_cons in Hm as []; done|apply Forall_cons in Hn as []; done|].
  apply Forall_cons in Hn as [_ Hn], Hm as [_ Hm]. destruct (IH m a b) as [-> ->]; done.
Qed.

Lemma te_split t tl : te_bytes t ++ tl = ((Z.add 48) <$> te_digits t) ++ 32 :: te_name t ++ 0 :: te_hash t ++ tl.
Proof using Type. unfold te_bytes. by rewrite <- !app_assoc. Qed.

Lemma te_ne t tl : te_bytes t ++ tl <> [].
Proof using Type. intros E. rewrite te_split in E. by destruct (te_digits t). Qed.

(** The two tests at the start. *)
Lemma short_no_tree rest : rest <> [] -> len rest < hashsz + 3 -> ~ starts_tree rest.
Proof using Type.
  intros Hne Hs Ht. destruct (starts_inv _ Ht Hne) as (t & tl & [[Hd _] [Hn _] Hh] & E & _). rewrite E, len_app, te_len, Hh in Hs. pose proof (len_nonneg tl).
  destruct (te_digits t) as [|? ds]; [done|]. destruct (te_name t) as [|? nm]; [done|]. rewrite !len_cons in Hs. pose proof (len_nonneg ds). pose proof (len_nonneg nm). lia.
Qed.

Lemma last_nul rest z : rest <> [] -> rest !! Z.to_nat (len rest - (hashsz + 1)) = Some z -> starts_tree rest -> z = 0.
Proof using Hsz mem.
  intros Hne Hz Ht. destruct (starts_inv _ Ht Hne) as (_ & _ & _ & _ & pre & h & Ep & Hh). rewrite Ep, len_app, len_cons in Hz.
  replace (Z.to_nat (len pre + (1 + len h) - (hashsz + 1))) with (length pre) in Hz by llia. rewrite lookup_app_r, Nat.sub_diag in Hz by lia. by injection Hz as <-.
Qed.

(** After these tests the bytes have this form. *)
Lemma entry_form rest : is_bytes rest -> hashsz + 1 <= len rest -> rest !! Z.to_nat (len rest - (hashsz + 1)) = Some 0 ->
  exists ds x r, rest = ((Z.add 48) <$> ds) ++ x :: r /\ Forall octal_digit ds /\ ~ (48 <= x <= 55) /\
    (x = 32 -> exists n r', r = n ++ 0 :: r' /\ Forall (fun c => c <> 0) n /\ hashsz <= len r').
Proof using Hsz mem.
  intros Hbr Hl Hz. assert (exists pre suf, rest = pre ++ 0 :: suf /\ len suf = hashsz) as (pre & suf & Er & Hsuf).
  { exists (take (Z.to_nat (len rest - (hashsz + 1))) rest), (drop (S (Z.to_nat (len rest - (hashsz + 1)))) rest). rewrite (take_drop_middle rest _ 0 Hz). split; [done|]. unfold len. rewrite length_drop. llia. }
  assert (0 ∈ rest) as H0 by (rewrite Er; apply elem_of_app; right; apply list_elem_of_here).
  destruct (octal_run rest Hbr H0) as (ds & x & r & Es & Hds & Hx). exists ds, x, r. split_and!; [done|done|done|]. intros ->.
  destruct (span_split (fun c => tr c) r) as (n & r0 & -> & _ & Hn & Hr0). assert (Forall (fun c => c <> 0) n) as Hn' by (eapply Forall_impl; [exact Hn|]; intros c Hc; by apply tr_true).
  assert (Forall (fun c => c <> 0) (((Z.add 48) <$> ds) ++ 32 :: n)) as Hnz.
  { apply Forall_app. split; [apply Forall_fmap; eapply Forall_impl; [exact Hds|]; unfold octal_digit; cbn; lia|]. constructor; done. }
  destruct r0 as [|c r0].
  { rewrite app_nil_r in Es. rewrite <- Es in Hnz. rewrite Forall_forall in Hnz. by specialize (Hnz 0 H0). }
  specialize (Hr0 c r0 eq_refl). apply tr_false in Hr0 as ->. exists n, r0. split_and!; [done|done|].
  (* the first NUL is not behind the last one that was tested *)
  pose (front := ((Z.add 48) <$> ds) ++ 32 :: n). assert (length front <= length pre)%nat as Hle.
  { destruct (decide (length pre < length front)%nat) as [Hlt|]; [|lia]. exfalso. assert (rest !! length pre = Some 0) as Hp by (rewrite Er, lookup_app_r, Nat.sub_diag by lia; done).
    replace rest with (front ++ 0 :: r0) in Hp by (unfold front; rewrite Es, <- app_assoc; done). rewrite lookup_app_l in Hp by done. by eapply (Forall_lookup_1 _ _ _ _ Hnz Hp). }
  assert (length rest = length pre + S (length suf))%nat as L1 by (rewrite Er, length_app; done). assert (length rest = length front + S (length r0))%nat as L2 by (unfold front; rewrite Es, !length_app; cbn; rewrite length_app; cbn; lia).
  llia.
Qed.

Lemma decode_ok desc b rest : 0 <= b -> drop (Z.to_nat b) mem = rest -> rest <> [] ->
  total (decode_tree_entry hashsz algo mem desc b (len rest)) (fun '(r, d) =>
    (r = 0 /\ exists t rest', te_ok hashsz t /\ rest = te_bytes t ++ rest' /\ d = mkTd (td_buffer desc) (te_entry hashsz algo b (td_flags desc) t) (td_size desc) (td_flags desc)) \/
    (r = -1 /\ d = desc /\ ~ starts_tree rest)).
Proof using All.
  intros Hb0 Hd Hne. unfold decode_tree_entry. pose proof (f_equal length Hd) as Hl. rewrite length_drop in Hl.
  destruct (Z.ltb_spec (len rest) (hashsz + 3)) as [Hshort|Hlong]; cbn [mbind res_bind]; [apply wp_ret; right; split_and!; [done|done|by apply short_no_tree]|].
  destruct (lookup_lt_is_Some_2 rest (Z.to_nat (len rest - (hashsz + 1)))) as [z Hz]; [llia|].
  rewrite (rd_Some mem _ z); [|lia|replace (Z.to_nat (b + (len rest - (hashsz + 1)))) with (Z.to_nat b + Z.to_nat (len rest - (hashsz + 1)))%nat by lia; by rewrite <- lookup_drop, Hd]. cbn [mbind res_bind]. destruct (tr z) eqn:Ez.
  { apply wp_ret. right. split_and!; [done|done|]. intros Ht. apply tr_true in Ez. apply Ez. by apply (last_nul rest). }
  apply tr_false in Ez as ->. assert (is_bytes rest) as Hbr by (rewrite <- Hd; by apply Forall_drop).
  destruct (entry_form rest Hbr ltac:(lia) Hz) as (ds & x & r & Es & Hds & Hx & Hr). rewrite (parse_mode_ok b ds x r) by (done || by rewrite Hd). cbn [mbind res_bind].
  assert (starts_tree rest -> exists t tl, te_ok hashsz t /\ ds = te_digits t /\ x = 32 /\ r = te_name t ++ 0 :: te_hash t ++ tl) as Huniq.
  { intros Ht. destruct (starts_inv _ Ht Hne) as (t & tl & Hok & E & _). exists t, tl. rewrite te_split, Es in E. apply te_shape in E as (-> & -> & ->); try done; [apply (to_digits _ _ Hok)|lia]. }
  destruct (Z.eqb_spec x 32) as [->|Hx32]; cbn [andb].
  2:{ apply wp_ret. right. split_and!; [done|done|]. intros (t & tl & _ & _ & E & _)%Huniq. done. }
  destruct (bool_decide_reflect (ds = [])) as [->|Hdn]; cbn [negb].
  { apply wp_ret. right. split_and!; [done|done|]. intros (t & tl & [[Hdt _] _ _] & E & _)%Huniq. done. }
  destruct (Hr eq_refl) as (n & r' & -> & Hn & Hhl). assert (drop (Z.to_nat (b + len ds + 1)) mem = n ++ 0 :: r') as Hat.
  { replace (Z.to_nat (b + len ds + 1)) with (Z.to_nat b + (length ds + 1))%nat by llia. rewrite <- drop_drop, Hd, Es. rewrite <- drop_drop, drop_app_length' by (by rewrite length_fmap). done. }
  destruct n as [|c n]; cbn [app] in Hat; rewrite (rd_drop_cons mem (b + len ds + 1) _ _ ltac:(pose proof (len_nonneg ds); lia) Hat); cbn [mbind res_bind].
  { apply wp_ret. right. split_and!; [done|done|]. intros (t & tl & [_ [Hnt Hnz] _] & _ & _ & E)%Huniq. destruct (te_name t); [done|]. cbn in E. simplify_eq. apply Forall_cons in Hnz as []. done. }
  pose proof Hn as Hn'. apply Forall_cons in Hn' as [Hc _]. rewrite (proj2 (tr_true c) Hc). cbn [negb].
  pose proof (len_nonneg ds). rewrite (strlen_ok mem _ (c :: n)) by (split_and!; [lia|done|by exists r']). cbn [mbind res_bind]. cbv zeta.
  assert (len (c :: n) + 1 < 2 ^ 31) as Hnl. { apply (f_equal length) in Es. rewrite !length_app in Es. cbn in Es. rewrite length_app in Es. unfold len in *. cbn [length] in *. lia. }
  rewrite len_cons in *. pose proof (len_nonneg n). rewrite u32_small by lia. replace (1 + len n + 1 - 1) with (1 + len n) by lia. rewrite to_int_small by lia.
  assert (exists h tl, r' = h ++ tl /\ len h = hashsz) as (h & tl & -> & Hh). { exists (take (Z.to_nat hashsz) r'), (drop (Z.to_nat hashsz) r'). rewrite take_drop. split; [done|]. unfold len. rewrite length_take. llia. }
  rewrite (oidread_at _ h tl); [|lia|done|].
  2:{ replace (Z.to_nat (b + len ds + 1 + (1 + len n + 1))) with (Z.to_nat (b + len ds + 1) + (S (length n) + 1))%nat by llia. rewrite <- drop_drop, Hat. rewrite <- drop_drop. change (c :: n ++ 0 :: h ++ tl) with ((c :: n) ++ 0 :: h ++ tl). rewrite drop_app_length' by done. done. }
  cbn [mbind res_bind]. apply wp_ret. left. split; [done|]. exists (mkTe ds (c :: n) h), tl. split_and!; [by constructor| |].
  - rewrite te_split, Es. cbn [te_digits te_name te_hash]. done.
  - unfold te_entry. cbn [te_digits te_name te_hash]. by rewrite len_cons.
Qed.

(** Entries at the front of the same bytes are the same. *)
Lemma te_inj t u a b : te_ok hashsz t -> te_ok hashsz u -> te_bytes t ++ a = te_bytes u ++ b -> t = u /\ a = b.
Proof using Type.
  intros [[_ Ht1] [_ Ht2] Ht3] [[_ Hu1] [_ Hu2] Hu3] E. rewrite !te_split in E. destruct (te_shape _ _ _ _ 32 32 Ht1 Hu1 ltac:(clear; lia) ltac:(clear; lia) E) as (E1 & _ & E').
  destruct (name_shape _ _ _ _ Ht2 Hu2 E') as [E2 E3]. assert (length (te_hash t) = length (te_hash u)) as El by (apply Nat2Z.inj; exact (eq_trans Ht3 (eq_sym Hu3))). apply app_inj_1 in E3 as [E3 E4]; [|done]. split; [|done]. destruct t, u. cbn in E1, E2, E3. by rewrite E1, E2, E3.
Qed.

Lemma tree_inj ts : forall us, Forall (te_ok hashsz) ts -> Forall (te_ok hashsz) us -> tree_bytes ts = tree_bytes us -> ts = us.
Proof using Type.
  induction ts as [|t ts IH]; intros [|u us] Ht Hu E; unfold tree_bytes in E; cbn in E; [done|by destruct (te_ne u (concat (te_bytes <$> us)))|by destruct (te_ne t (concat (te_bytes <$> ts)))|].
  apply Forall_cons in Ht as [Ht Hts], Hu as [Hu Hus]. apply te_inj in E as [-> E]; [|done|done]. f_equal. by apply IH.
Qed.

Lemma starts_tail t rest : te_ok hashsz t -> starts_tree (te_bytes t ++ rest) -> starts_tree rest.
Proof using Type.
  intros Ht ([|u us] & Hus & E); [rewrite te_split in E; by destruct (te_digits t)|]. apply Forall_cons in Hus as [Hu Hus]. unfold tree_bytes in E. cbn in E.
  apply te_inj in E as [_ ->]; [|done|done]. by exists us.
Qed.

(** *** The walk *)

(** The descriptor, with the flags [fl], stands in front of [rest], and has decoded its first entry. *)
Record at_rest (fl : Z) (desc : tree_desc) (b : Z) (rest : list Z) : Prop := {
  ar_pos : 0 <= b;
  ar_rest : drop (Z.to_nat b) mem = rest;
  ar_buffer : td_buffer desc = b;
  ar_size : td_size desc = len rest;
  ar_flags : td_flags desc = fl;
  ar_entry : rest <> [] -> exists t rest', te_ok hashsz t /\ rest = te_bytes t ++ rest' /\ td_entry desc = te_entry hashsz algo b fl t;
}.

(** Decoding at a position gives a descriptor that stands there, or the bytes are no tree. *)
Lemma decode_at fl e0 b rest : 0 <= b -> drop (Z.to_nat b) mem = rest ->
  total (if tr (len rest) then decode_tree_entry hashsz algo mem (mkTd b e0 (u32 (len rest)) fl) b (len rest) else Ok (0, mkTd b e0 (u32 (len rest)) fl)) (fun '(r, d) =>
    (r = 0 /\ at_rest fl d b rest) \/ (r = -1 /\ ~ starts_tree rest)).
Proof using All.
  intros Hb0 Hd. assert (u32 (len rest) = len rest) as Hu. { apply u32_small. pose proof (len_nonneg rest). pose proof (f_equal length Hd) as Hl. rewrite length_drop in Hl. llia. }
  destruct rest as [|c rest]; [apply wp_ret; left; split; [done|]; by constructor|]. rewrite (proj2 (tr_true _)) by (rewrite len_cons; pose proof (len_nonneg rest); lia).
  eapply wp_mono; [apply (decode_ok _ b (c :: rest) Hb0 Hd ltac:(done))|]. intros [r d] [(-> & t & rest' & Hok & E & ->)|(-> & -> & Hn)]; [left|right; done].
  split; [done|]. constructor; cbn; try done. intros _. by exists t, rest'.
Qed.

Lemma update_internal_at fl desc b t rest : at_rest fl desc b (te_bytes t ++ rest) -> te_ok hashsz t ->
  td_entry desc = te_entry hashsz algo b fl t /\
  exists r d, update_tree_entry_internal hashsz algo mem desc = Ok (r, d) /\ ((r = 0 /\ at_rest fl d (b + len (te_bytes t)) rest) \/ (r = -1 /\ ~ starts_tree rest)).
Proof using All.
  intros [Hp Hr Hbuf Hsize Hfl He] Ht. pose proof (te_ne t rest) as Hne.
  destruct (He Hne) as (t' & rest' & Ht' & E & Ee). destruct (te_inj t t' rest rest' Ht Ht' E) as [<- <-]. split; [done|].
  unfold update_tree_entry_internal. rewrite Ee, Hbuf, Hsize, Hfl. cbn [ne_path ne_pathlen te_entry].
  assert (b + len (te_digits t) + 1 + len (te_name t) + 1 + hashsz = b + len (te_bytes t)) as -> by (rewrite te_len, (to_hash _ _ Ht); lia).
  pose proof (f_equal length Hr) as Hl. rewrite length_drop, length_app in Hl. assert (len (te_bytes t) < 2 ^ 31) as Htl by llia. pose proof (len_nonneg (te_bytes t)). pose proof (len_nonneg rest).
  replace (b + len (te_bytes t) - b) with (len (te_bytes t)) by lia. rewrite (u64_small (len (te_bytes t))) by lia. rewrite len_app. destruct (Z.ltb_spec (len (te_bytes t) + len rest) (len (te_bytes t))); [lia|].
  replace (len (te_bytes t) + len rest - len (te_bytes t)) with (len rest) by lia. cbv zeta.
  assert (drop (Z.to_nat (b + len (te_bytes t))) mem = rest) as Hd. { replace (Z.to_nat (b + len (te_bytes t))) with (Z.to_nat b + length (te_bytes t))%nat by llia. by rewrite <- drop_drop, Hr, drop_app_length. }
  destruct (proj1 (total_ok _ _) (decode_at fl (te_entry hashsz algo b fl t) (b + len (te_bytes t)) rest ltac:(lia) Hd)) as ([r d] & E' & Hrd). by exists r, d.
Qed.

Lemma update_at desc b t rest : at_rest 0 desc b (te_bytes t ++ rest) -> te_ok hashsz t ->
  td_entry desc = te_entry hashsz algo b 0 t /\
  ((exists d, update_tree_entry hashsz algo mem desc = Ok d /\ at_rest 0 d (b + len (te_bytes t)) rest) \/ (update_tree_entry hashsz algo mem desc = Fault Died /\ ~ starts_tree rest)).
Proof using All.
  intros Hat Ht. destruct (update_internal_at 0 desc b t rest Hat Ht) as [He (r & d & E & Hrd)]. split; [done|]. unfold update_tree_entry. rewrite E. destruct Hrd as [(-> & Hat')|(-> & Hn)]; [left; by exists d|by right].
Qed.

Lemma update_gently_at fl desc b t rest : at_rest fl desc b (te_bytes t ++ rest) -> te_ok hashsz t ->
  td_entry desc = te_entry hashsz algo b fl t /\
  exists r d, update_tree_entry_gently hashsz algo mem desc = Ok (r, d) /\ ((r = 0 /\ at_rest fl d (b + len (te_bytes t)) rest) \/ (r = -1 /\ ~ starts_tree rest)).
Proof using All.
  intros Hat Ht. destruct (update_internal_at fl desc b t rest Hat Ht) as [He (r & d & E & Hrd)]. split; [done|]. unfold update_tree_entry_gently. rewrite E. destruct Hrd as [(-> & Hat')|(-> & Hn)]; cbn; [exists 0, d; split; [done|by left]|eexists _, _; split; [done|by right]].
Qed.

Lemma walk_loop fuel : forall desc acc b rest, at_rest 0 desc b rest -> (length rest < fuel)%nat ->
  (exists ts, Forall (te_ok hashsz) ts /\ rest = tree_bytes ts /\ loop fuel (walk_step hashsz algo mem) (desc, acc) = Ok (acc ++ tree_entries hashsz algo b ts)) \/
  (~ starts_tree rest /\ loop fuel (walk_step hashsz algo mem) (desc, acc) = Fault Died).
Proof using All.
  induction fuel as [|fuel IH]; intros desc acc b rest Hat Hf; [lia|]. rewrite loop_S. unfold walk_step at 1 3, tree_entry. rewrite (ar_size _ _ _ _ Hat).
  destruct (decide (rest = [])) as [->|Hne]; [left; exists []; cbn; rewrite app_nil_r; split_and!; [constructor|done|done]|].
  rewrite (proj2 (tr_true _)) by (destruct rest; [done|]; rewrite len_cons; pose proof (len_nonneg rest); lia). cbn [negb]. cbv zeta.
  destruct (ar_entry _ _ _ _ Hat Hne) as (t & rest' & Ht & -> & _). destruct (update_at desc b t rest' Hat Ht) as [Ee [(d & -> & Hat')|(-> & Hn)]]; cbn [mbind res_bind].
  - assert (length rest' < fuel)%nat as Hf'. { rewrite te_split in Hf. rewrite length_app in Hf. cbn in Hf. rewrite !length_app in Hf. cbn in Hf. rewrite length_app in Hf. lia. }
    destruct (IH d (acc ++ [td_entry desc]) _ rest' Hat' Hf') as [(ts & Hok & -> & ->)|[Hn ->]].
    + left. exists (t :: ts). split_and!; [by constructor|done|]. cbn [tree_entries]. by rewrite Ee, <- app_assoc.
    + right. split; [|done]. intros H. apply Hn. by eapply starts_tail.
  - right. split; [|done]. intros H. apply Hn. by eapply starts_tail.
Qed.
End Decode.

(** C29: walking a tree object.  For any bytes (fewer than 2 GiB, with the algorithm's object name length of 20 or 32),
    the loop that initialises a descriptor and takes entries from it until there are none ends without a
    read outside of the buffer.  If the bytes are an encoding of a list of entries (an octal mode, a space, a name that
    is not empty, a NUL and an object name), it delivers these entries in their order, each with its object name, the address
    and length of its name, and its mode in canonical form; if they are not, it dies. *)
Theorem tree_walk_exact hashsz algo mem entry0 :
  hashsz = 20 \/ hashsz = 32 -> algo = 1 \/ algo = 2 -> is_bytes mem -> len mem < 2 ^ 31 ->
  (forall ts, Forall (te_ok hashsz) ts -> mem = tree_bytes ts -> walk_tree hashsz algo mem entry0 = Ok (tree_entries hashsz algo 0 ts)) /\
  ((forall ts, Forall (te_ok hashsz) ts -> mem <> tree_bytes ts) -> walk_tree hashsz algo mem entry0 = Fault Died).
Proof.
  intros Hsz Halgo Hb Hlen. unfold walk_tree, init_tree_desc, init_tree_desc_internal. cbv zeta.
  destruct (proj1 (total_ok _ _) (decode_at hashsz algo mem Hsz Halgo Hb Hlen 0 entry0 0 mem ltac:(lia) eq_refl)) as ([r d] & -> & [(-> & Hat)|(-> & Hn)]); cbn [mbind res_bind].
  - change (tr 0) with false. cbn [mbind res_bind].
    destruct (walk_loop hashsz algo mem Hsz Halgo Hb Hlen (S (length mem)) d [] 0 mem Hat ltac:(lia)) as [(us & Hus & E & ->)|(Hn & ->)]; split.
    + intros ts Hts ->. by rewrite (tree_inj hashsz ts us).
    + intros Hno. by destruct (Hno us Hus).
    + intros ts Hts E. destruct Hn. by exists ts.
    + done.
  - split; [|done]. intros ts Hts E. destruct Hn. by exists ts.
Qed.

Definition ex_tree : list tentry :=
  [mkTe [1; 0; 0; 7; 5; 5] [97] (replicate 20 7); mkTe [4; 0; 0; 0; 0] [98; 99] (replicate 20 9)].

Lemma tree_walk_exact_witness : walk_tree 20 1 (tree_bytes ex_tree) (mkNe (mkOid [] 0) 0 0 0) =
  Ok [mkNe (mkOid (replicate 20 7 ++ replicate 12 0) 1) 7 1 0x81ed; mkNe (mkOid (replicate 20 9 ++ replicate 12 0) 1) 35 2 0x4000].
Proof.
  refine (proj1 (tree_walk_exact 20 1 (tree_bytes ex_tree) (mkNe (mkOid [] 0) 0 0 0) _ _ _ _) ex_tree _ eq_refl); [by left|by left|by apply (bool_decide_eq_true_1 _)|done|].
  repeat constructor; cbn; done || (unfold octal_digit; lia).
Defined.
