(* ===== verification/Utf8.v ===== *)
(** * UTF-8: [utf8.c]

    Decoding one character, the width of characters and strings, and the tests for names that HFS+
    takes for [.git] and its relatives.  The decoder is compared with the encoder of the
    Unicode standard. *)

From stdpp Require Import prelude numbers list.
From S2P Require Import Prelude PatchDelta Alloc CString Strbuf.

(** ** The width of a character ([unicode-width.h]) *)

Definition zero_width : list (Z * Z) :=
  [
   (0x0300, 0x036f); (0x0483, 0x0489); (0x0591, 0x05bd); (0x05bf, 0x05bf); (0x05c1, 0x05c2); (0x05c4, 0x05c5); (0x05c7, 0x05c7); (0x0600, 0x0605);
   (0x0610, 0x061a); (0x061c, 0x061c); (0x064b, 0x065f); (0x0670, 0x0670); (0x06d6, 0x06dd); (0x06df, 0x06e4); (0x06e7, 0x06e8); (0x06ea, 0x06ed);
   (0x070f, 0x070f); (0x0711, 0x0711); (0x0730, 0x074a); (0x07a6, 0x07b0); (0x07eb, 0x07f3); (0x07fd, 0x07fd); (0x0816, 0x0819); (0x081b, 0x0823);
   (0x0825, 0x0827); (0x0829, 0x082d); (0x0859, 0x085b); (0x0890, 0x0891); (0x0897, 0x089f); (0x08ca, 0x0902); (0x093a, 0x093a); (0x093c, 0x093c);
   (0x0941, 0x0948); (0x094d, 0x094d); (0x0951, 0x0957); (0x0962, 0x0963); (0x0981, 0x0981); (0x09bc, 0x09bc); (0x09c1, 0x09c4); (0x09cd, 0x09cd);
   (0x09e2, 0x09e3); (0x09fe, 0x09fe); (0x0a01, 0x0a02); (0x0a3c, 0x0a3c); (0x0a41, 0x0a42); (0x0a47, 0x0a48); (0x0a4b, 0x0a4d); (0x0a51, 0x0a51);
   (0x0a70, 0x0a71); (0x0a75, 0x0a75); (0x0a81, 0x0a82); (0x0abc, 0x0abc); (0x0ac1, 0x0ac5); (0x0ac7, 0x0ac8); (0x0acd, 0x0acd); (0x0ae2, 0x0ae3);
   (0x0afa, 0x0aff); (0x0b01, 0x0b01); (0x0b3c, 0x0b3c); (0x0b3f, 0x0b3f); (0x0b41, 0x0b44); (0x0b4d, 0x0b4d); (0x0b55, 0x0b56); (0x0b62, 0x0b63);
   (0x0b82, 0x0b82); (0x0bc0, 0x0bc0); (0x0bcd, 0x0bcd); (0x0c00, 0x0c00); (0x0c04, 0x0c04); (0x0c3c, 0x0c3c); (0x0c3e, 0x0c40); (0x0c46, 0x0c48);
   (0x0c4a, 0x0c4d); (0x0c55, 0x0c56); (0x0c62, 0x0c63); (0x0c81, 0x0c81); (0x0cbc, 0x0cbc); (0x0cbf, 0x0cbf); (0x0cc6, 0x0cc6); (0x0ccc, 0x0ccd);
   (0x0ce2, 0x0ce3); (0x0d00, 0x0d01); (0x0d3b, 0x0d3c); (0x0d41, 0x0d44); (0x0d4d, 0x0d4d); (0x0d62, 0x0d63); (0x0d81, 0x0d81); (0x0dca, 0x0dca);
   (0x0dd2, 0x0dd4); (0x0dd6, 0x0dd6); (0x0e31, 0x0e31); (0x0e34, 0x0e3a); (0x0e47, 0x0e4e); (0x0eb1, 0x0eb1); (0x0eb4, 0x0ebc); (0x0ec8, 0x0ece);
   (0x0f18, 0x0f19); (0x0f35, 0x0f35); (0x0f37, 0x0f37); (0x0f39, 0x0f39); (0x0f71, 0x0f7e); (0x0f80, 0x0f84); (0x0f86, 0x0f87); (0x0f8d, 0x0f97);
   (0x0f99, 0x0fbc); (0x0fc6, 0x0fc6); (0x102d, 0x1030); (0x1032, 0x1037); (0x1039, 0x103a); (0x103d, 0x103e); (0x1058, 0x1059); (0x105e, 0x1060);
   (0x1071, 0x1074); (0x1082, 0x1082); (0x1085, 0x1086); (0x108d, 0x108d); (0x109d, 0x109d); (0x1160, 0x11ff); (0x135d, 0x135f); (0x1712, 0x1714);
   (0x1732, 0x1733); (0x1752, 0x1753); (0x1772, 0x1773); (0x17b4, 0x17b5); (0x17b7, 0x17bd); (0x17c6, 0x17c6); (0x17c9, 0x17d3); (0x17dd, 0x17dd);
   (0x180b, 0x180f); (0x1885, 0x1886); (0x18a9, 0x18a9); (0x1920, 0x1922); (0x1927, 0x1928); (0x1932, 0x1932); (0x1939, 0x193b); (0x1a17, 0x1a18);
   (0x1a1b, 0x1a1b); (0x1a56, 0x1a56); (0x1a58, 0x1a5e); (0x1a60, 0x1a60); (0x1a62, 0x1a62); (0x1a65, 0x1a6c); (0x1a73, 0x1a7c); (0x1a7f, 0x1a7f);
   (0x1ab0, 0x1add); (0x1ae0, 0x1aeb); (0x1b00, 0x1b03); (0x1b34, 0x1b34); (0x1b36, 0x1b3a); (0x1b3c, 0x1b3c); (0x1b42, 0x1b42); (0x1b6b, 0x1b73);
   (0x1b80, 0x1b81); (0x1ba2, 0x1ba5); (0x1ba8, 0x1ba9); (0x1bab, 0x1bad); (0x1be6, 0x1be6); (0x1be8, 0x1be9); (0x1bed, 0x1bed); (0x1bef, 0x1bf1);
   (0x1c2c, 0x1c33); (0x1c36, 0x1c37); (0x1cd0, 0x1cd2); (0x1cd4, 0x1ce0); (0x1ce2, 0x1ce8); (0x1ced, 0x1ced); (0x1cf4, 0x1cf4); (0x1cf8, 0x1cf9);
   (0x1dc0, 0x1dff); (0x200b, 0x200f); (0x202a, 0x202e); (0x2060, 0x2064); (0x2066, 0x206f); (0x20d0, 0x20f0); (0x2cef, 0x2cf1); (0x2d7f, 0x2d7f);
   (0x2de0, 0x2dff); (0x302a, 0x302d); (0x3099, 0x309a); (0xa66f, 0xa672); (0xa674, 0xa67d); (0xa69e, 0xa69f); (0xa6f0, 0xa6f1); (0xa802, 0xa802);
   (0xa806, 0xa806); (0xa80b, 0xa80b); (0xa825, 0xa826); (0xa82c, 0xa82c); (0xa8c4, 0xa8c5); (0xa8e0, 0xa8f1); (0xa8ff, 0xa8ff); (0xa926, 0xa92d);
   (0xa947, 0xa951); (0xa980, 0xa982); (0xa9b3, 0xa9b3); (0xa9b6, 0xa9b9); (0xa9bc, 0xa9bd); (0xa9e5, 0xa9e5); (0xaa29, 0xaa2e); (0xaa31, 0xaa32);
   (0xaa35, 0xaa36); (0xaa43, 0xaa43); (0xaa4c, 0xaa4c); (0xaa7c, 0xaa7c); (0xaab0, 0xaab0); (0xaab2, 0xaab4); (0xaab7, 0xaab8); (0xaabe, 0xaabf);
   (0xaac1, 0xaac1); (0xaaec, 0xaaed); (0xaaf6, 0xaaf6); (0xabe5, 0xabe5); (0xabe8, 0xabe8); (0xabed, 0xabed); (0xfb1e, 0xfb1e); (0xfe00, 0xfe0f);
   (0xfe20, 0xfe2f); (0xfeff, 0xfeff); (0xfff9, 0xfffb); (0x101fd, 0x101fd); (0x102e0, 0x102e0); (0x10376, 0x1037a); (0x10a01, 0x10a03); (0x10a05, 0x10a06);
   (0x10a0c, 0x10a0f); (0x10a38, 0x10a3a); (0x10a3f, 0x10a3f); (0x10ae5, 0x10ae6); (0x10d24, 0x10d27); (0x10d69, 0x10d6d); (0x10eab, 0x10eac); (0x10efa, 0x10eff);
   (0x10f46, 0x10f50); (0x10f82, 0x10f85); (0x11001, 0x11001); (0x11038, 0x11046); (0x11070, 0x11070); (0x11073, 0x11074); (0x1107f, 0x11081); (0x110b3, 0x110b6);
   (0x110b9, 0x110ba); (0x110bd, 0x110bd); (0x110c2, 0x110c2); (0x110cd, 0x110cd); (0x11100, 0x11102); (0x11127, 0x1112b); (0x1112d, 0x11134); (0x11173, 0x11173);
   (0x11180, 0x11181); (0x111b6, 0x111be); (0x111c9, 0x111cc); (0x111cf, 0x111cf); (0x1122f, 0x11231); (0x11234, 0x11234); (0x11236, 0x11237); (0x1123e, 0x1123e);
   (0x11241, 0x11241); (0x112df, 0x112df); (0x112e3, 0x112ea); (0x11300, 0x11301); (0x1133b, 0x1133c); (0x11340, 0x11340); (0x11366, 0x1136c); (0x11370, 0x11374);
   (0x113bb, 0x113c0); (0x113ce, 0x113ce); (0x113d0, 0x113d0); (0x113d2, 0x113d2); (0x113e1, 0x113e2); (0x11438, 0x1143f); (0x11442, 0x11444); (0x11446, 0x11446);
   (0x1145e, 0x1145e); (0x114b3, 0x114b8); (0x114ba, 0x114ba); (0x114bf, 0x114c0); (0x114c2, 0x114c3); (0x115b2, 0x115b5); (0x115bc, 0x115bd); (0x115bf, 0x115c0);
   (0x115dc, 0x115dd); (0x11633, 0x1163a); (0x1163d, 0x1163d); (0x1163f, 0x11640); (0x116ab, 0x116ab); (0x116ad, 0x116ad); (0x116b0, 0x116b5); (0x116b7, 0x116b7);
   (0x1171d, 0x1171d); (0x1171f, 0x1171f); (0x11722, 0x11725); (0x11727, 0x1172b); (0x1182f, 0x11837); (0x11839, 0x1183a); (0x1193b, 0x1193c); (0x1193e, 0x1193e);
   (0x11943, 0x11943); (0x119d4, 0x119d7); (0x119da, 0x119db); (0x119e0, 0x119e0); (0x11a01, 0x11a0a); (0x11a33, 0x11a38); (0x11a3b, 0x11a3e); (0x11a47, 0x11a47);
   (0x11a51, 0x11a56); (0x11a59, 0x11a5b); (0x11a8a, 0x11a96); (0x11a98, 0x11a99); (0x11b60, 0x11b60); (0x11b62, 0x11b64); (0x11b66, 0x11b66); (0x11c30, 0x11c36);
   (0x11c38, 0x11c3d); (0x11c3f, 0x11c3f); (0x11c92, 0x11ca7); (0x11caa, 0x11cb0); (0x11cb2, 0x11cb3); (0x11cb5, 0x11cb6); (0x11d31, 0x11d36); (0x11d3a, 0x11d3a);
   (0x11d3c, 0x11d3d); (0x11d3f, 0x11d45); (0x11d47, 0x11d47); (0x11d90, 0x11d91); (0x11d95, 0x11d95); (0x11d97, 0x11d97); (0x11ef3, 0x11ef4); (0x11f00, 0x11f01);
   (0x11f36, 0x11f3a); (0x11f40, 0x11f40); (0x11f42, 0x11f42); (0x11f5a, 0x11f5a); (0x13430, 0x13440); (0x13447, 0x13455); (0x1611e, 0x16129); (0x1612d, 0x1612f);
   (0x16af0, 0x16af4); (0x16b30, 0x16b36); (0x16f4f, 0x16f4f); (0x16f8f, 0x16f92); (0x16fe4, 0x16fe4); (0x1bc9d, 0x1bc9e); (0x1bca0, 0x1bca3); (0x1cf00, 0x1cf2d);
   (0x1cf30, 0x1cf46); (0x1d167, 0x1d169); (0x1d173, 0x1d182); (0x1d185, 0x1d18b); (0x1d1aa, 0x1d1ad); (0x1d242, 0x1d244); (0x1da00, 0x1da36); (0x1da3b, 0x1da6c);
   (0x1da75, 0x1da75); (0x1da84, 0x1da84); (0x1da9b, 0x1da9f); (0x1daa1, 0x1daaf); (0x1e000, 0x1e006); (0x1e008, 0x1e018); (0x1e01b, 0x1e021); (0x1e023, 0x1e024);
   (0x1e026, 0x1e02a); (0x1e08f, 0x1e08f); (0x1e130, 0x1e136); (0x1e2ae, 0x1e2ae); (0x1e2ec, 0x1e2ef); (0x1e4ec, 0x1e4ef); (0x1e5ee, 0x1e5ef); (0x1e6e3, 0x1e6e3);
   (0x1e6e6, 0x1e6e6); (0x1e6ee, 0x1e6ef); (0x1e6f5, 0x1e6f5); (0x1e8d0, 0x1e8d6); (0x1e944, 0x1e94a); (0xe0001, 0xe0001); (0xe0020, 0xe007f); (0xe0100, 0xe01ef)
  ].

Definition double_width : list (Z * Z) :=
  [
   (0x1100, 0x115f); (0x231a, 0x231b); (0x2329, 0x232a); (0x23e9, 0x23ec); (0x23f0, 0x23f0); (0x23f3, 0x23f3); (0x25fd, 0x25fe); (0x2614, 0x2615);
   (0x2630, 0x2637); (0x2648, 0x2653); (0x267f, 0x267f); (0x268a, 0x268f); (0x2693, 0x2693); (0x26a1, 0x26a1); (0x26aa, 0x26ab); (0x26bd, 0x26be);
   (0x26c4, 0x26c5); (0x26ce, 0x26ce); (0x26d4, 0x26d4); (0x26ea, 0x26ea); (0x26f2, 0x26f3); (0x26f5, 0x26f5); (0x26fa, 0x26fa); (0x26fd, 0x26fd);
   (0x2705, 0x2705); (0x270a, 0x270b); (0x2728, 0x2728); (0x274c, 0x274c); (0x274e, 0x274e); (0x2753, 0x2755); (0x2757, 0x2757); (0x2795, 0x2797);
   (0x27b0, 0x27b0); (0x27bf, 0x27bf); (0x2b1b, 0x2b1c); (0x2b50, 0x2b50); (0x2b55, 0x2b55); (0x2e80, 0x2e99); (0x2e9b, 0x2ef3); (0x2f00, 0x2fd5);
   (0x2ff0, 0x303e); (0x3041, 0x3096); (0x3099, 0x30ff); (0x3105, 0x312f); (0x3131, 0x318e); (0x3190, 0x31e5); (0x31ef, 0x321e); (0x3220, 0x3247);
   (0x3250, 0xa48c); (0xa490, 0xa4c6); (0xa960, 0xa97c); (0xac00, 0xd7a3); (0xf900, 0xfaff); (0xfe10, 0xfe19); (0xfe30, 0xfe52); (0xfe54, 0xfe66);
   (0xfe68, 0xfe6b); (0xff01, 0xff60); (0xffe0, 0xffe6); (0x16fe0, 0x16fe4); (0x16ff0, 0x16ff6); (0x17000, 0x18cd5); (0x18cff, 0x18d1e); (0x18d80, 0x18df2);
   (0x1aff0, 0x1aff3); (0x1aff5, 0x1affb); (0x1affd, 0x1affe); (0x1b000, 0x1b122); (0x1b132, 0x1b132); (0x1b150, 0x1b152); (0x1b155, 0x1b155); (0x1b164, 0x1b167);
   (0x1b170, 0x1b2fb); (0x1d300, 0x1d356); (0x1d360, 0x1d376); (0x1f004, 0x1f004); (0x1f0cf, 0x1f0cf); (0x1f18e, 0x1f18e); (0x1f191, 0x1f19a); (0x1f200, 0x1f202);
   (0x1f210, 0x1f23b); (0x1f240, 0x1f248); (0x1f250, 0x1f251); (0x1f260, 0x1f265); (0x1f300, 0x1f320); (0x1f32d, 0x1f335); (0x1f337, 0x1f37c); (0x1f37e, 0x1f393);
   (0x1f3a0, 0x1f3ca); (0x1f3cf, 0x1f3d3); (0x1f3e0, 0x1f3f0); (0x1f3f4, 0x1f3f4); (0x1f3f8, 0x1f43e); (0x1f440, 0x1f440); (0x1f442, 0x1f4fc); (0x1f4ff, 0x1f53d);
   (0x1f54b, 0x1f54e); (0x1f550, 0x1f567); (0x1f57a, 0x1f57a); (0x1f595, 0x1f596); (0x1f5a4, 0x1f5a4); (0x1f5fb, 0x1f64f); (0x1f680, 0x1f6c5); (0x1f6cc, 0x1f6cc);
   (0x1f6d0, 0x1f6d2); (0x1f6d5, 0x1f6d8); (0x1f6dc, 0x1f6df); (0x1f6eb, 0x1f6ec); (0x1f6f4, 0x1f6fc); (0x1f7e0, 0x1f7eb); (0x1f7f0, 0x1f7f0); (0x1f90c, 0x1f93a);
   (0x1f93c, 0x1f945); (0x1f947, 0x1f9ff); (0x1fa70, 0x1fa7c); (0x1fa80, 0x1fa8a); (0x1fa8e, 0x1fac6); (0x1fac8, 0x1fac8); (0x1facd, 0x1fadc); (0x1fadf, 0x1faea);
   (0x1faef, 0x1faf8); (0x20000, 0x2fffd); (0x30000, 0x3fffd)
  ].

(** The loop of [bisearch]: the bounds; the result is its return value. *)
Definition bisearch_step (ucs : Z) (table : list (Z * Z)) (st : Z * Z) : res (Z * Z + bool) :=
  let '(min, max) := st in
  if max >=? min then
    let mid := min + Z.quot (max - min) 2 in
    '(first, last) ← rd table mid;
    if last <? ucs then Ok (inl (mid + 1, max))
    else if ucs <? first then Ok (inl (min, mid - 1))
    else Ok (inr true)
  else Ok (inr false).

Definition bisearch (ucs : Z) (table : list (Z * Z)) (max : Z) : res bool :=
  '(first, _) ← rd table 0;
  outside ← (if ucs <? first then Ok true else '(_, last) ← rd table max; Ok (last <? ucs));
  if (outside : bool) then Ok false else loop (S (length table)) (bisearch_step ucs table) (0, max).

Definition git_wcwidth (ch : Z) : res Z :=
  if ch =? 0 then Ok 0
  else if (ch <? 32) || ((0x7f <=? ch) && (ch <? 0xa0)) then Ok (-1)
  else
    z ← bisearch ch zero_width (len zero_width - 1);
    if (z : bool) then Ok 0
    else
      d ← bisearch ch double_width (len double_width - 1);
      Ok (if (d : bool) then 2 else 1).

(** ** One character *)

(** The conditions are tested in the order of the code, so that a byte is read only when the ones
    before it have been accepted.  [None] for the pointer that is set to NULL; else the character, the pointer behind it and the
    remainder. *)
Definition pick_one_utf8_char (mem : list Z) (s : Z) (remainder_p : option Z) : res (option (Z * Z * option Z)) :=
  let remainder := default 999 remainder_p in
  let picked ch incr := Some (ch, s + incr, (fun _ => remainder - incr) <$> remainder_p) in
  let cont i := c ← rd mem (s + i); Ok (c &. 0xc0 =? 0x80) in
  if remainder <? 1 then Ok None
  else
    s0 ← rd mem s;
    if s0 <? 0x80 then Ok (picked s0 1)
    else if s0 &. 0xe0 =? 0xc0 then
      if remainder <? 2 then Ok None
      else
        k1 ← cont 1;
        if negb k1 then Ok None
        else if s0 &. 0xfe =? 0xc0 then Ok None
        else s1 ← rd mem (s + 1); Ok (picked ((s0 &. 0x1f) <<. 6 |. (s1 &. 0x3f)) 2)
    else if s0 &. 0xf0 =? 0xe0 then
      if remainder <? 3 then Ok None
      else
        k1 ← cont 1;
        if negb k1 then Ok None
        else
          k2 ← cont 2;
          if negb k2 then Ok None
          else
            s1 ← rd mem (s + 1); s2 ← rd mem (s + 2);
            if (s0 =? 0xe0) && (s1 &. 0xe0 =? 0x80) then Ok None
            else if (s0 =? 0xed) && (s1 &. 0xe0 =? 0xa0) then Ok None
            else if (s0 =? 0xef) && (s1 =? 0xbf) && (s2 &. 0xfe =? 0xbe) then Ok None
            else Ok (picked ((s0 &. 0x0f) <<. 12 |. (s1 &. 0x3f) <<. 6 |. (s2 &. 0x3f)) 3)
    else if s0 &. 0xf8 =? 0xf0 then
      if remainder <? 4 then Ok None
      else
        k1 ← cont 1;
        if negb k1 then Ok None
        else
          k2 ← cont 2;
          if negb k2 then Ok None
          else
            k3 ← cont 3;
            if negb k3 then Ok None
            else
              s1 ← rd mem (s + 1); s2 ← rd mem (s + 2); s3 ← rd mem (s + 3);
              if (s0 =? 0xf0) && (s1 &. 0xf0 =? 0x80) then Ok None
              else if (s0 =? 0xf4) && (0x8f <? s1) then Ok None
              else if 0xf4 <? s0 then Ok None
              else Ok (picked ((s0 &. 0x07) <<. 18 |. (s1 &. 0x3f) <<. 12 |. (s2 &. 0x3f) <<. 6 |. (s3 &. 0x3f)) 4)
    else Ok None.

(** The width, and the pointer behind the character ([None] for NULL) with the remainder. *)
Definition utf8_width (mem : list Z) (start : Z) (remainder_p : option Z) : res (Z * option (Z * option Z)) :=
  r ← pick_one_utf8_char mem start remainder_p;
  match r with
  | None => Ok (0, None)
  | Some (ch, start, remainder_p) => w ← git_wcwidth ch; Ok (w, Some (start, remainder_p))
  end.

(** ** Strings *)

(** The length of an escape sequence that changes the colour, 0 for none. *)
Definition display_mode_esc_sequence_len (mem : list Z) (s : Z) : res Z :=
  c ← rd mem s;
  if negb (c =? 27) then Ok 0
  else
    c ← rd mem (s + 1);
    if negb (c =? 91) then Ok 0
    else
      n ← scan (fun c => isdigit c || (c =? 59)) mem (s + 2);
      c ← rd mem (s + 2 + n);
      if negb (c =? 109) then Ok 0 else Ok (2 + n + 1).

Definition skip_ansi_step (mem : list Z) (string : Z) : res (Z + Z) :=
  skip ← display_mode_esc_sequence_len mem string;
  Ok (if tr skip then inl (string + skip) else inr string).

(** The loop of [utf8_strnwidth]: the pointer, [None] for NULL, and the width. *)
Definition strnwidth_step (mem : list Z) (end_ : Z) (skip_ansi : bool) (st : option Z * Z) : res ((option Z * Z) + (option Z * Z)) :=
  match st with
  | (Some string, width) =>
      if string <? end_ then
        string ← (if skip_ansi then loop (S (length mem)) (skip_ansi_step mem) string else Ok string);
        '(glyph_width, next) ← utf8_width mem string None;
        Ok (inl (match next with None => None | Some (string, _) => Some string end, if 0 <? glyph_width then u64 (width + glyph_width) else width))
      else Ok (inr st)
  | (None, _) => Ok (inr st)
  end.

Definition cast_size_t_to_int (a : Z) : res Z := if 2 ^ 31 - 1 <? a then Fault Died else Ok a.

Definition utf8_strnwidth (mem : list Z) (string n : Z) (skip_ansi : bool) : res Z :=
  '(string, width) ← loop (S (length mem)) (strnwidth_step mem (string + n) skip_ansi) (Some string, 0);
  cast_size_t_to_int (match string with Some _ => width | None => n end).

Definition utf8_strwidth (mem : list Z) (string : Z) : res Z :=
  n ← strlen mem string; utf8_strnwidth mem string n false.

Definition is_utf8_step (mem : list Z) (text : Z) : res (Z + bool) :=
  c ← rd mem text;
  if negb (tr c) then Ok (inr true)
  else if (c =? 10) || (c =? 9) || (c =? 13) then Ok (inl (text + 1))
  else
    '(_, next) ← utf8_width mem text None;
    Ok (match next with None => inr false | Some (text, _) => inl text end).

Definition is_utf8 (mem : list Z) (text : Z) : res bool := loop (S (length mem)) (is_utf8_step mem) text.

(** ** Names on HFS+ *)

Definition hfs_ignored (out : Z) : bool :=
  bool_decide (out ∈ [0x200c; 0x200d; 0x200e; 0x200f; 0x202a; 0x202b; 0x202c; 0x202d; 0x202e; 0x206a; 0x206b; 0x206c; 0x206d; 0x206e; 0x206f; 0xfeff]).

Definition next_hfs_step (mem : list Z) (i : Z) : res (Z + Z * option Z) :=
  r ← pick_one_utf8_char mem i None;
  Ok (match r with
      | None => inr (0, None)
      | Some (out, i, _) => if hfs_ignored out then inl i else inr (out, Some i)
      end).

(** The character and the pointer behind it, which is [None] for NULL. *)
Definition next_hfs_char (mem : list Z) (i : option Z) : res (Z * option Z) :=
  match i with None => Fault UB | Some i => loop (S (length mem)) (next_hfs_step mem) i end.

(** The loop over the needle: the pointer behind it, [None] when a character differs. *)
Fixpoint hfs_needle (mem : list Z) (path : option Z) (needle : list Z) : res (option (option Z)) :=
  match needle with
  | [] => Ok (Some path)
  | n :: needle =>
      '(c, path) ← next_hfs_char mem path;
      if 127 <? c then Ok None
      else if negb (tolower c =? n) then Ok None
      else hfs_needle mem path needle
  end.

Definition is_hfs_dot_generic (mem : list Z) (path : Z) (needle : list Z) : res bool :=
  '(c, path) ← next_hfs_char mem (Some path);
  if negb (c =? 46) then Ok false
  else
    r ← hfs_needle mem path needle;
    match r with
    | None => Ok false
    | Some path =>
        '(c, _) ← next_hfs_char mem path;
        if tr c && negb (git_is_dir_sep c) then Ok false else Ok true
    end.

(** "git", "gitmodules", "gitignore", "gitattributes", "mailmap" *)
Definition str_git : list Z := [103; 105; 116].
Definition str_gitmodules : list Z := [103; 105; 116; 109; 111; 100; 117; 108; 101; 115].
Definition str_gitignore : list Z := [103; 105; 116; 105; 103; 110; 111; 114; 101].
Definition str_gitattributes : list Z := [103; 105; 116; 97; 116; 116; 114; 105; 98; 117; 116; 101; 115].
Definition str_mailmap : list Z := [109; 97; 105; 108; 109; 97; 112].

Definition is_hfs_dotgit (mem : list Z) (path : Z) : res bool := is_hfs_dot_generic mem path str_git.
Definition is_hfs_dotgitmodules (mem : list Z) (path : Z) : res bool := is_hfs_dot_generic mem path str_gitmodules.
Definition is_hfs_dotgitignore (mem : list Z) (path : Z) : res bool := is_hfs_dot_generic mem path str_gitignore.
Definition is_hfs_dotgitattributes (mem : list Z) (path : Z) : res bool := is_hfs_dot_generic mem path str_gitattributes.
Definition is_hfs_dotmailmap (mem : list Z) (path : Z) : res bool := is_hfs_dot_generic mem path str_mailmap.

(** ** The encoding of the standard *)

Definition utf8_enc (ch : Z) : list Z :=
  if ch <? 0x80 then [ch]
  else if ch <? 0x800 then [0xc0 + ch `div` 2 ^ 6; 0x80 + ch `mod` 2 ^ 6]
  else if ch <? 0x10000 then [0xe0 + ch `div` 2 ^ 12; 0x80 + (ch `div` 2 ^ 6) `mod` 2 ^ 6; 0x80 + ch `mod` 2 ^ 6]
  else [0xf0 + ch `div` 2 ^ 18; 0x80 + (ch `div` 2 ^ 12) `mod` 2 ^ 6; 0x80 + (ch `div` 2 ^ 6) `mod` 2 ^ 6; 0x80 + ch `mod` 2 ^ 6].

(** The characters that are accepted: no surrogates, not U+FFFE and not U+FFFF. *)
Definition utf8_ok (ch : Z) : Prop := 0 <= ch <= 0x10ffff /\ ~ (0xd800 <= ch <= 0xdfff) /\ ~ (0xfffe <= ch <= 0xffff).

(** The masks are ranges. *)
Section Masks.
Context (c : Z) (Hc : is_byte c).
Ltac by_bytes := apply eqb_true_iff; revert c Hc; by apply byte_forall.
Lemma mask_c0 : (c &. 0xc0 =? 0x80) = between 0x80 0xbf c.
Proof using Hc. by_bytes. Qed.
Lemma mask_e0 : (c &. 0xe0 =? 0xc0) = between 0xc0 0xdf c.
Proof using Hc. by_bytes. Qed.
Lemma mask_e0_80 : (c &. 0xe0 =? 0x80) = between 0x80 0x9f c.
Proof using Hc. by_bytes. Qed.
Lemma mask_e0_a0 : (c &. 0xe0 =? 0xa0) = between 0xa0 0xbf c.
Proof using Hc. by_bytes. Qed.
Lemma mask_fe : (c &. 0xfe =? 0xc0) = between 0xc0 0xc1 c.
Proof using Hc. by_bytes. Qed.
Lemma mask_fe_be : (c &. 0xfe =? 0xbe) = between 0xbe 0xbf c.
Proof using Hc. by_bytes. Qed.
Lemma mask_f0 : (c &. 0xf0 =? 0xe0) = between 0xe0 0xef c.
Proof using Hc. by_bytes. Qed.
Lemma mask_f0_80 : (c &. 0xf0 =? 0x80) = between 0x80 0x8f c.
Proof using Hc. by_bytes. Qed.
Lemma mask_f8 : (c &. 0xf8 =? 0xf0) = between 0xf0 0xf7 c.
Proof using Hc. by_bytes. Qed.
End Masks.

Lemma low_mask c k m : 0 <= k -> m = Z.ones k -> c &. m = c `mod` 2 ^ k.
Proof. intros Hk ->. by apply Z.land_ones. Qed.

Lemma join2 a b : (a &. 0x1f) <<. 6 |. (b &. 0x3f) = a `mod` 2 ^ 5 * 2 ^ 6 + b `mod` 2 ^ 6.
Proof. rewrite (low_mask a 5), (low_mask b 6) by done. apply lor_shiftl_add; [lia|]. apply Z.mod_pos_bound. lia. Qed.

Lemma join3 a b d : (a &. 0x0f) <<. 12 |. (b &. 0x3f) <<. 6 |. (d &. 0x3f) = a `mod` 2 ^ 4 * 2 ^ 12 + b `mod` 2 ^ 6 * 2 ^ 6 + d `mod` 2 ^ 6.
Proof.
  rewrite (low_mask a 4), (low_mask b 6), (low_mask d 6) by done. rewrite (Z.shiftl_mul_pow2 (b `mod` 2 ^ 6)) by lia.
  rewrite lor_shiftl_add by (try lia; dlia). apply (lor_add _ _ 6); [lia|dlia|dlia].
Qed.

Lemma join4 a b d e : (a &. 0x07) <<. 18 |. (b &. 0x3f) <<. 12 |. (d &. 0x3f) <<. 6 |. (e &. 0x3f) =
  a `mod` 2 ^ 3 * 2 ^ 18 + b `mod` 2 ^ 6 * 2 ^ 12 + d `mod` 2 ^ 6 * 2 ^ 6 + e `mod` 2 ^ 6.
Proof.
  rewrite (low_mask a 3), (low_mask b 6), (low_mask d 6), (low_mask e 6) by done. rewrite (Z.shiftl_mul_pow2 (b `mod` 2 ^ 6)), (Z.shiftl_mul_pow2 (d `mod` 2 ^ 6)) by lia.
  rewrite lor_shiftl_add by (try lia; dlia). rewrite (lor_add _ (d `mod` 2 ^ 6 * 2 ^ 6) 12); [|lia|dlia|dlia]. apply (lor_add _ _ 6); [lia|dlia|dlia].
Qed.

Lemma between_spec lo hi c : BoolSpec (lo <= c <= hi) (~ (lo <= c <= hi)) (between lo hi c).
Proof. unfold between. destruct (Z.leb_spec lo c), (Z.leb_spec c hi); constructor; lia. Qed.

Lemma and_spec a x c lo hi : BoolSpec (a = x /\ lo <= c <= hi) (~ (a = x /\ lo <= c <= hi)) ((a =? x) && between lo hi c).
Proof. destruct (Z.eqb_spec a x), (between_spec lo hi c); constructor; tauto. Qed.

Definition enc_fits (rp : option Z) (ch : Z) : Prop := len (utf8_enc ch) <= default 999 rp.

(** What a test of the decoder excludes. *)
Ltac no_char :=
  intros ch t' [? [? ?]]; unfold enc_fits, utf8_enc; destruct (Z.ltb_spec ch 0x80); [|destruct (Z.ltb_spec ch 0x800); [|destruct (Z.ltb_spec ch 0x10000)]]; intros E Hl; unfold len in Hl; cbn in Hl, E; simplify_eq/=; try dlia.

Section Pick.
Context (mem : list Z) (s : Z) (rp : option Z) (t : list Z) (Hs : 0 <= s) (Ht : drop (Z.to_nat s) mem = t) (Hb : is_bytes t)
  (Hsafe : match rp with Some r => 0 <= r <= len t | None => 0 ∈ t end).

Lemma rd_text i : 0 <= i -> rd mem (s + i) = rd t i.
Proof using Hs Ht.
  intros Hi. unfold rd. destruct (Z.ltb_spec (s + i) 0); [lia|]. destruct (Z.ltb_spec i 0); [lia|]. rewrite <- Ht, lookup_drop. by replace (Z.to_nat (s + i)) with (Z.to_nat s + Z.to_nat i)%nat by lia.
Qed.

(** A byte can be read when the ones before it are not NUL. *)
Lemma rd_next i : 0 <= i -> i < default 999 rp -> (forall j x, 0 <= j < i -> t !! Z.to_nat j = Some x -> x <> 0) -> exists x, rd mem (s + i) = Ok x /\ t !! Z.to_nat i = Some x /\ is_byte x.
Proof using All.
  intros Hi Hr Hz. assert (Z.to_nat i < length t)%nat as Hl.
  { destruct rp as [r|]; cbn in Hr; [llia|]. apply list_elem_of_lookup in Hsafe as [k Hk]. pose proof (lookup_lt_Some _ _ _ Hk). destruct (decide (Z.to_nat i <= k)%nat); [lia|]. destruct (Hz (Z.of_nat k) 0); [lia|by rewrite Nat2Z.id|done]. }
  destruct (lookup_lt_is_Some_2 t _ Hl) as [x Hx]. exists x. split_and!; [|done|by eapply (Forall_lookup_1 _ _ _ _ Hb Hx)]. rewrite rd_text by done. by apply rd_Some.
Qed.

End Pick.

Lemma cons_eq {A} (x y : A) l m : x = y -> l = m -> x :: l = y :: m.
Proof. by intros -> ->. Qed.

(** The next byte, the [i]th, behind bytes that are not NUL. *)
Ltac next_byte Hs Ht Hb Hsafe tl i c E B :=
  let L := fresh in let X := fresh in let y := fresh in
  destruct (rd_next _ _ _ _ Hs Ht Hb Hsafe i) as (c & E & L & B);
    [lia|lia|intros j x Hj X; destruct (Z.to_nat j) as [|[|[|]]] eqn:?; try lia; cbn in X; simplify_eq; lia|];
  destruct tl as [|y tl]; [done|]; cbn in L; injection L as ->; unfold is_byte in B; rewrite E; cbn [mbind res_bind].

(** The character that was decoded. *)
Ltac one_char t' :=
  apply wp_ret; unfold utf8_ok, enc_fits, utf8_enc; (repeat match goal with |- context [Z.ltb ?a ?b] => (destruct (Z.ltb_spec a b); [dlia|]) || (destruct (Z.ltb_spec a b); [|dlia]) end);
  split_and!; [dlia|dlia|dlia|dlia|unfold len; cbn; lia|unfold len; cbn; lia|match goal with |- _ = _ <$> ?rp => by destruct rp end|exists t'; cbn; repeat (apply cons_eq; [dlia|]); done].

Lemma pick_ok mem s rp t : 0 <= s -> drop (Z.to_nat s) mem = t -> is_bytes t -> match rp with Some r => 0 <= r <= len t | None => 0 ∈ t end -> total (pick_one_utf8_char mem s rp) (fun r => match r with
  | Some (ch, s', rp') => utf8_ok ch /\ enc_fits rp ch /\ s' = s + len (utf8_enc ch) /\ rp' = (fun r => r - len (utf8_enc ch)) <$> rp /\ exists t', t = utf8_enc ch ++ t'
  | None => forall ch t', utf8_ok ch -> t = utf8_enc ch ++ t' -> enc_fits rp ch -> False end).
Proof.
  intros Hs Ht Hb Hsafe. unfold pick_one_utf8_char. cbv zeta. destruct (Z.ltb_spec (default 999 rp) 1) as [H1|H1]; [apply wp_ret; no_char|].
  destruct (rd_next _ _ _ _ Hs Ht Hb Hsafe 0) as (c0 & E0 & L0 & B0); [lia|lia|lia|]. rewrite Z.add_0_r in E0. rewrite E0. cbn [mbind res_bind]. unfold is_byte in B0.
  destruct t as [|c t1]; [done|]. cbn in L0. injection L0 as ->.
  destruct (Z.ltb_spec c0 0x80) as [Ha|Ha].
  { apply wp_ret. unfold utf8_ok, enc_fits, utf8_enc. destruct (Z.ltb_spec c0 0x80); [|lia]. split_and!; [lia|lia|lia|lia|done|done|by destruct rp|by exists t1]. }
  rewrite mask_e0, mask_f0, mask_f8, mask_fe by done. destruct (between_spec 0xc0 0xdf c0) as [H2|H2]; [|destruct (between_spec 0xe0 0xef c0) as [H3|H3]; [|destruct (between_spec 0xf0 0xf7 c0) as [H4|H4]; [|apply wp_ret; no_char]]].
  - destruct (Z.ltb_spec (default 999 rp) 2) as [Hr|Hr]; [apply wp_ret; no_char|]. next_byte Hs Ht Hb Hsafe t1 1 c1 E1 B1. rewrite mask_c0 by done. destruct (between_spec 0x80 0xbf c1) as [K1|K1]; cbn [negb]; [|apply wp_ret; no_char].
    destruct (between_spec 0xc0 0xc1 c0) as [K2|K2]; [apply wp_ret; no_char|]. rewrite join2. one_char t1.
  - destruct (Z.ltb_spec (default 999 rp) 3) as [Hr|Hr]; [apply wp_ret; no_char|]. next_byte Hs Ht Hb Hsafe t1 1 c1 E1 B1. rewrite mask_c0 by done. destruct (between_spec 0x80 0xbf c1) as [K1|K1]; cbn [negb]; [|apply wp_ret; no_char].
    next_byte Hs Ht Hb Hsafe t1 2 c2 E2 B2. rewrite mask_c0 by done. destruct (between_spec 0x80 0xbf c2) as [K2|K2]; cbn [negb]; [|apply wp_ret; no_char]. rewrite ?E1. cbn [mbind res_bind].
    rewrite mask_e0_80, mask_e0_a0, mask_fe_be by done. rewrite join3.
    destruct (and_spec c0 0xe0 c1 0x80 0x9f); [apply wp_ret; no_char|]. destruct (and_spec c0 0xed c1 0xa0 0xbf); [apply wp_ret; no_char|].
    destruct (Z.eqb_spec c1 0xbf); [rewrite andb_true_r; destruct (and_spec c0 0xef c2 0xbe 0xbf); [apply wp_ret; no_char|]|rewrite andb_false_r; cbn [andb]]; one_char t1.
  - destruct (Z.ltb_spec (default 999 rp) 4) as [Hr|Hr]; [apply wp_ret; no_char|]. next_byte Hs Ht Hb Hsafe t1 1 c1 E1 B1. rewrite mask_c0 by done. destruct (between_spec 0x80 0xbf c1) as [K1|K1]; cbn [negb]; [|apply wp_ret; no_char].
    next_byte Hs Ht Hb Hsafe t1 2 c2 E2 B2. rewrite mask_c0 by done. destruct (between_spec 0x80 0xbf c2) as [K2|K2]; cbn [negb]; [|apply wp_ret; no_char].
    next_byte Hs Ht Hb Hsafe t1 3 c3 E3 B3. rewrite mask_c0 by done. destruct (between_spec 0x80 0xbf c3) as [K3|K3]; cbn [negb]; [|apply wp_ret; no_char]. cbn [mbind res_bind].
    rewrite mask_f0_80 by done. rewrite join4. destruct (and_spec c0 0xf0 c1 0x80 0x8f); [apply wp_ret; no_char|].
    destruct (Z.ltb_spec 0x8f c1); [rewrite andb_true_r; destruct (Z.eqb_spec c0 0xf4); [apply wp_ret; no_char|]|rewrite andb_false_r]; (destruct (Z.ltb_spec 0xf4 c0); [apply wp_ret; no_char|]); one_char t1.
Qed.

(** ** C strings of characters *)

Definition undecodable (u : list Z) : Prop := forall ch t', utf8_ok ch -> u <> utf8_enc ch ++ t'.

(** [u] is the characters [chs], none of them NUL, and bytes [bad] that do not start with one, if any. *)
Record decodes (u chs bad : list Z) : Prop := {
  dec_text : u = concat (utf8_enc <$> chs) ++ bad;
  dec_ok : Forall (fun ch => utf8_ok ch /\ ch <> 0) chs;
  dec_bad : bad <> [] -> undecodable bad;
}.

Lemma enc_nz ch : utf8_ok ch -> ch <> 0 -> Forall (fun c => c <> 0) (utf8_enc ch).
Proof. intros [Hr _] H0. unfold utf8_enc. repeat match goal with |- context [Z.ltb ?a ?b] => destruct (Z.ltb_spec a b) end; repeat constructor; dlia. Qed.

Lemma enc_ne ch : exists c l, utf8_enc ch = c :: l.
Proof. unfold utf8_enc. repeat case_match; eauto. Qed.

Lemma enc_len ch : 1 <= len (utf8_enc ch) <= 4.
Proof. unfold utf8_enc, len. repeat case_match; cbn; lia. Qed.

(** Bytes without NUL in front of one are a prefix of what is in front of it. *)
Lemma nz_prefix e : forall u rest t', Forall (fun c => c <> 0) e -> u ++ 0 :: rest = e ++ t' -> exists u', u = e ++ u'.
Proof.
  induction e as [|c e IH]; intros u rest t' He E; [by exists u|]. apply Forall_cons in He as [Hc He]. destruct u as [|d u]; cbn in E; [by injection E as <-|]. injection E as -> E.
  destruct (IH u rest t' He E) as [u' ->]. by exists u'.
Qed.

Lemma cstr_elem mem s u : cstr mem s u -> 0 ∈ drop (Z.to_nat s) mem.
Proof. intros (_ & _ & rest & ->). apply elem_of_app. right. apply list_elem_of_here. Qed.

Section Strings.
Context (mem : list Z) (Hb : is_bytes mem).

Lemma pick_nul s : cstr mem s [] -> pick_one_utf8_char mem s None = Ok (Some (0, s + 1, None)).
Proof using Type. intros Hc. unfold pick_one_utf8_char. cbn [default]. by rewrite (cstr_rd _ _ _ Hc). Qed.

Lemma pick_cstr s u : cstr mem s u -> u <> [] ->
  (pick_one_utf8_char mem s None = Ok None /\ undecodable u) \/
  (exists ch u', pick_one_utf8_char mem s None = Ok (Some (ch, s + len (utf8_enc ch), None)) /\ utf8_ok ch /\ ch <> 0 /\ u = utf8_enc ch ++ u' /\ cstr mem (s + len (utf8_enc ch)) u').
Proof using Hb.
  intros Hc Hne. pose proof Hc as (Hs & Hz & rest & Hd).
  destruct (proj1 (total_ok _ _) (pick_ok mem s None _ Hs eq_refl ltac:(by apply Forall_drop) (cstr_elem _ _ _ Hc))) as ([[[ch s'] rp']|] & E & H).
  - destruct H as (Hok & _ & -> & -> & t' & Et). right. rewrite Hd in Et. assert (ch <> 0) as H0.
    { intros ->. destruct u as [|c u]; [done|]. cbn in Et. injection Et as -> _. by apply (cstr_nz _ _ _ _ Hc). }
    destruct (nz_prefix _ _ _ _ (enc_nz ch Hok H0) Et) as [u' ->]. exists ch, u'. split_and!; [done|done|done|done|by apply cstr_app].
  - left. split; [done|]. intros ch t' Hok Eu. apply (H ch (t' ++ 0 :: rest) Hok); [by rewrite Hd, Eu, <- app_assoc|]. unfold enc_fits. cbn. pose proof (enc_len ch). lia.
Qed.
End Strings.

(** Every string can be seen this way. *)
Lemma decodes_exists u : is_bytes u -> Forall (fun c => c <> 0) u -> exists chs bad, decodes u chs bad.
Proof.
  remember (length u) as n eqn:En. revert u En. induction n as [n IH] using lt_wf_ind. intros u -> Hu Hz.
  destruct (decide (u = [])) as [->|Hne]; [exists [], []; constructor; done|].
  assert (cstr (u ++ [0]) 0 u) as Hc by (split_and!; [lia|done|by exists []]).
  destruct (pick_cstr (u ++ [0]) ltac:(apply Forall_app; split; [done|constructor; [done|constructor]]) 0 u Hc Hne) as [[_ Hbad]|(ch & u' & _ & Hok & H0 & -> & _)]; [exists [], u; by constructor|].
  apply Forall_app in Hu as [_ Hu], Hz as [_ Hz]. destruct (enc_ne ch) as (c & l & Ec). destruct (IH (length u')) with (u := u') as (chs & bad & [-> Hchs Hbad]); [rewrite length_app, Ec; cbn; lia|done|done|done|].
  exists (ch :: chs), bad. constructor; [cbn; by rewrite <- app_assoc|by constructor|done].
Qed.

Lemma enc_inj a b l m : utf8_ok a -> utf8_ok b -> utf8_enc a ++ l = utf8_enc b ++ m -> a = b /\ l = m.
Proof.
  intros [Ha _] [Hb _] E. assert (a = b) as ->; [|split; [done|by apply app_inv_head in E]].
  unfold utf8_enc in E. repeat match type of E with context [Z.ltb ?x ?y] => destruct (Z.ltb_spec x y) end; cbn in E; injection E; intros; subst; dlia.
Qed.

Section Decoded.
Context (mem : list Z) (Hb : is_bytes mem).

Lemma pick_dec s u chs bad : cstr mem s u -> decodes u chs bad ->
  match chs with
  | ch :: chs' => exists u', pick_one_utf8_char mem s None = Ok (Some (ch, s + len (utf8_enc ch), None)) /\ u = utf8_enc ch ++ u' /\ cstr mem (s + len (utf8_enc ch)) u' /\ decodes u' chs' bad
  | [] => pick_one_utf8_char mem s None = Ok (if bool_decide (bad = []) then Some (0, s + 1, None) else None)
  end.
Proof using Hb.
  intros Hc [Eu Hok Hbad]. destruct chs as [|ch chs]; cbn in Eu.
  - subst u. case_bool_decide as Hn; [subst; by apply pick_nul|]. destruct (pick_cstr mem Hb s bad Hc Hn) as [[E _]|(ch & u' & _ & Hch & _ & -> & _)]; [done|]. by destruct (Hbad Hn ch u' Hch).
  - apply Forall_cons in Hok as [[Hch H0] Hok]. rewrite <- app_assoc in Eu. destruct (enc_ne ch) as (c & l & Ec). assert (u <> []) as Hne by (rewrite Eu, Ec; done).
    destruct (pick_cstr mem Hb s u Hc Hne) as [[_ Hn]|(ch' & u' & E & Hch' & _ & Eu' & Hc')]; [by destruct (Hn ch (concat (utf8_enc <$> chs) ++ bad) Hch)|].
    rewrite Eu in Eu'. apply enc_inj in Eu' as [<- <-]; [|done|done]. eexists. split_and!; [done|done|done|by constructor].
Qed.

(** *** Names on HFS+ *)

(** What is seen of the characters. *)
Definition hfs_visible (chs : list Z) : list Z := filter (fun ch => hfs_ignored ch = false) chs.

Lemma visible_cons ch chs : hfs_visible (ch :: chs) = if hfs_ignored ch then hfs_visible chs else ch :: hfs_visible chs.
Proof using Type. unfold hfs_visible. rewrite filter_cons. destruct (hfs_ignored ch); [by rewrite decide_False by done|by rewrite decide_True by done]. Qed.

Lemma next_hfs_ok chs : forall fuel i u bad, cstr mem i u -> decodes u chs bad -> (length chs < fuel)%nat ->
  match hfs_visible chs with
  | ch :: vs => exists i' u' chs', loop fuel (next_hfs_step mem) i = Ok (ch, Some i') /\ (utf8_ok ch /\ ch <> 0) /\ cstr mem i' u' /\ decodes u' chs' bad /\ hfs_visible chs' = vs
  | [] => exists p, loop fuel (next_hfs_step mem) i = Ok (0, p)
  end.
Proof using Hb.
  induction chs as [|ch chs IH]; intros fuel i u bad Hc Hd Hf; (destruct fuel as [|fuel]; [lia|]); pose proof (pick_dec i u _ bad Hc Hd) as Hp; cbv beta iota in Hp.
  - change (hfs_visible []) with (@nil Z). rewrite loop_S. unfold next_hfs_step at 1. rewrite Hp. cbn [mbind res_bind]. case_bool_decide; eexists; reflexivity.
  - destruct Hp as (u' & E & _ & Hc' & Hd'). cbn [length] in Hf.
    assert (loop (S fuel) (next_hfs_step mem) i = if hfs_ignored ch then loop fuel (next_hfs_step mem) (i + len (utf8_enc ch)) else Ok (ch, Some (i + len (utf8_enc ch)))) as -> by (rewrite loop_S; unfold next_hfs_step at 1; rewrite E; cbn [mbind res_bind]; by destruct (hfs_ignored ch)).
    rewrite visible_cons. destruct (hfs_ignored ch) eqn:Hi; [apply (IH fuel _ u' bad Hc' Hd'); lia|].
    eexists _, u', chs. split_and!; [done|by apply (Forall_inv (dec_ok _ _ _ Hd))..|done|done|done].
Qed.

(** The visible characters are a dot, the needle in any case, and then the end or a slash. *)
Definition hfs_dot (needle vs : list Z) : Prop :=
  exists v rest, vs = 46 :: v ++ rest /\ Forall2 (fun c n => c <= 127 /\ tolower c = n) v needle /\ (rest = [] \/ exists r, rest = 47 :: r).

Lemma next_char_dec i u chs bad : cstr mem i u -> decodes u chs bad ->
  match hfs_visible chs with
  | ch :: vs => exists i' u' chs', next_hfs_char mem (Some i) = Ok (ch, Some i') /\ (utf8_ok ch /\ ch <> 0) /\ cstr mem i' u' /\ decodes u' chs' bad /\ hfs_visible chs' = vs
  | [] => exists p, next_hfs_char mem (Some i) = Ok (0, p)
  end.
Proof using Hb.
  intros Hc Hd. apply (next_hfs_ok chs _ i u bad Hc Hd). pose proof (cstr_length _ _ _ Hc). assert (length chs <= length u)%nat; [|lia]. rewrite (dec_text _ _ _ Hd), length_app.
  clear. induction chs as [|ch chs IH]; [cbn; lia|]. cbn. rewrite length_app. destruct (enc_ne ch) as (c & l & ->). cbn. lia.
Qed.

Lemma hfs_needle_ok needle : forall i u chs bad, Forall (fun n => n <> 0) needle -> cstr mem i u -> decodes u chs bad ->
  (exists v i' u' chs', hfs_needle mem (Some i) needle = Ok (Some (Some i')) /\ Forall2 (fun c n => c <= 127 /\ tolower c = n) v needle /\ hfs_visible chs = v ++ hfs_visible chs' /\ cstr mem i' u' /\ decodes u' chs' bad) \/
  (hfs_needle mem (Some i) needle = Ok None /\ forall v rest, hfs_visible chs = v ++ rest -> ~ Forall2 (fun c n => c <= 127 /\ tolower c = n) v needle).
Proof using Hb.
  induction needle as [|n needle IH]; intros i u chs bad Hn Hc Hd.
  - left. exists [], i, u, chs. split_and!; [done|constructor|done|done|done].
  - apply Forall_cons in Hn as [H0 Hn]. pose proof (next_char_dec i u chs bad Hc Hd) as Hx. cbn [hfs_needle]. destruct (hfs_visible chs) as [|ch vs].
    + right. destruct Hx as [p ->]. cbn [mbind res_bind]. change (127 <? 0) with false. change (tolower 0) with 0. destruct (Z.eqb_spec 0 n); [by subst|]. split; [done|]. intros [|? ?] rest E F; [inversion F|done].
    + destruct Hx as (i' & u' & chs' & -> & Hch & Hc' & Hd' & <-). cbn [mbind res_bind]. destruct (Z.ltb_spec 127 ch) as [Hbig|Hsmall].
      { right. split; [done|]. intros [|c v] rest E F; [inversion F|]. injection E as -> _. apply Forall2_cons in F as [[? _] _]. lia. }
      destruct (Z.eqb_spec (tolower ch) n) as [Et|Et]; cbn [negb].
      * destruct (IH i' u' chs' bad Hn Hc' Hd') as [(v & j & w & cs & -> & Hv & -> & Hcw & Hdw)|[-> Hno]].
        -- left. exists (ch :: v), j, w, cs. split_and!; [done|by constructor|done|done|done].
        -- right. split; [done|]. intros [|c v] rest E F; [inversion F|]. injection E as -> E. apply Forall2_cons in F as [_ F]. by apply (Hno v rest).
      * right. split; [done|]. intros [|c v] rest E F; [inversion F|]. injection E as -> _. by apply Forall2_cons in F as [[_ ?] _].
Qed.

Lemma is_hfs_ok needle i u chs bad : Forall (fun n => n <> 0) needle -> cstr mem i u -> decodes u chs bad ->
  exists b, is_hfs_dot_generic mem i needle = Ok b /\ (b = true <-> hfs_dot needle (hfs_visible chs)).
Proof using Hb.
  intros Hn Hc Hd. unfold is_hfs_dot_generic, hfs_dot. pose proof (next_char_dec i u chs bad Hc Hd) as Hx. destruct (hfs_visible chs) as [|ch vs].
  { destruct Hx as [p ->]. exists false. split; [done|]. split; [done|]. by intros (? & ? & ? & _). }
  destruct Hx as (i' & u' & chs' & -> & Hch & Hc' & Hd' & <-). cbn [mbind res_bind]. destruct (Z.eqb_spec ch 46) as [->|H46]; cbn [negb].
  2:{ exists false. split; [done|]. split; [done|]. intros (? & ? & [= ? _] & _). done. }
  destruct (hfs_needle_ok needle i' u' chs' bad Hn Hc' Hd') as [(v & j & w & cs & -> & Hv & -> & Hcw & Hdw)|[-> Hno]]; cbn [mbind res_bind].
  2:{ exists false. split; [done|]. split; [done|]. intros (v & rest & [= E] & F & _). by destruct (Hno v rest E). }
  assert (forall v' rest, v ++ hfs_visible cs = v' ++ rest -> Forall2 (fun c n => c <= 127 /\ tolower c = n) v' needle -> rest = hfs_visible cs) as Huniq.
  { intros v' rest E F. apply Forall2_length in F, Hv. apply app_inj_1 in E as [_ E]; [done|lia]. }
  pose proof (next_char_dec j w cs bad Hcw Hdw) as Hy. destruct (hfs_visible cs) as [|c vs] eqn:Ev.
  - destruct Hy as [p ->]. exists true. split; [done|]. split; [|done]. intros _. exists v, []. split_and!; [done|done|by left].
  - destruct Hy as (k & x & ys & -> & [_ Hc0] & _). cbn [mbind res_bind]. unfold git_is_dir_sep. destruct (Z.eqb_spec c 47) as [->|Hc47].
    + rewrite andb_false_r. exists true. split; [done|]. split; [|done]. intros _. exists v, (47 :: vs). split_and!; [done|done|right; by exists vs].
    + rewrite andb_true_r. rewrite (proj2 (tr_true c) Hc0). exists false. split; [done|]. split; [done|].
      intros (v' & rest & [= E] & F & Hr). apply (Huniq v' rest E) in F as ->. destruct Hr as [?|[r [= ? _]]]; done.
Qed.
End Decoded.

(** C31: names that HFS+ takes for [.git] and the other special files.  For every C string, valid UTF-8 or not, the five tests
    end inside of the string.  Reading it as characters, up to its end or to the first bytes that are
    not the UTF-8 encoding of one, and leaving out the characters that HFS+ ignores, a test succeeds exactly if
    there is a dot, then the name in upper or lower case, and then nothing more or a slash.  Nothing more is read behind
    malformed bytes, so that the name followed by malformed bytes is taken for the special name, although a comment in
    [next_hfs_char] says that it is not. *)
Theorem hfs_names_exact mem i u : is_bytes mem -> cstr mem i u ->
  exists chs bad, decodes u chs bad /\
    Forall (fun '(f, needle) => exists b, f mem i = Ok b /\ (b = true <-> hfs_dot needle (hfs_visible chs)))
      [(is_hfs_dotgit, str_git); (is_hfs_dotgitmodules, str_gitmodules); (is_hfs_dotgitignore, str_gitignore);
       (is_hfs_dotgitattributes, str_gitattributes); (is_hfs_dotmailmap, str_mailmap)].
Proof.
  intros Hb Hc. pose proof Hc as (Hi & Hz & rest & Hd). destruct (decodes_exists u) as (chs & bad & Hdec); [|done|].
  { apply (Forall_drop _ (Z.to_nat i)) in Hb. rewrite Hd in Hb. by apply Forall_app in Hb as [? _]. }
  exists chs, bad. split; [done|]. repeat constructor; apply (is_hfs_ok mem Hb _ i u chs bad); done || (repeat constructor; done).
Qed.

(** ".g", ZERO WIDTH JOINER, "IT" *)
Definition ex_hfs : list Z := [46; 103; 0xe2; 0x80; 0x8d; 73; 84; 0].

(** ".git" and bytes that are not UTF-8. *)
Definition ex_malformed : list Z := [46; 103; 105; 116; 0xff; 120; 0].

Lemma hfs_names_exact_witness :
  (is_hfs_dotgit ex_hfs 0 = Ok true /\ exists chs bad, decodes (take 7 ex_hfs) chs bad /\ hfs_dot str_git (hfs_visible chs)) /\
  (is_hfs_dotgit ex_malformed 0 = Ok true /\ exists chs bad, decodes (take 6 ex_malformed) chs bad /\ hfs_dot str_git (hfs_visible chs)).
Proof.
  assert (forall mem n, is_bytes mem -> cstr mem 0 (take n mem) -> is_hfs_dotgit mem 0 = Ok true ->
    is_hfs_dotgit mem 0 = Ok true /\ exists chs bad, decodes (take n mem) chs bad /\ hfs_dot str_git (hfs_visible chs)) as Hall.
  { intros mem n Hb Hc E. split; [done|]. destruct (hfs_names_exact mem 0 (take n mem) Hb Hc) as (chs & bad & Hd & Hf).
    exists chs, bad. split; [done|]. apply Forall_cons in Hf as [(b & Eb & Hiff) _]. apply Hiff. congruence. }
  split; (apply Hall; [by apply (bool_decide_eq_true_1 _)|split_and!; [lia|repeat constructor; done|by exists []]|reflexivity]).
Defined.

(** ** The width of strings *)

(** Intervals in order that do not overlap. *)
Fixpoint intervals_ok (lo : Z) (table : list (Z * Z)) : bool :=
  match table with [] => true | (first, last) :: table => (lo <? first) && (first <=? last) && intervals_ok last table end.

Definition inside (ucs : Z) (p : Z * Z) : Prop := p.1 <= ucs <= p.2.

Lemma intervals_order table : forall lo, intervals_ok lo table = true ->
  (forall k p, table !! k = Some p -> lo < p.1 <= p.2) /\ (forall j k p q, (j < k)%nat -> table !! j = Some p -> table !! k = Some q -> p.2 < q.1).
Proof.
  induction table as [|[a b] table IH]; intros lo Hok; [by split|]. cbn in Hok. apply andb_true_iff in Hok as [[H1 H2]%andb_true_iff Hok]. destruct (IH b Hok) as [Hlo Hord]. split.
  - intros [|k] p Hp; cbn in Hp; [simplify_eq/=; lia|]. specialize (Hlo k p Hp). lia.
  - intros [|j] [|k] p q Hjk Hp Hq; cbn in Hp, Hq; [lia|simplify_eq/=; apply (Hlo k q Hq)|lia|apply (Hord j k p q); [lia|done|done]].
Qed.

Lemma bisearch_ok ucs table lo : intervals_ok lo table = true -> table <> [] -> bisearch ucs table (len table - 1) = Ok (bool_decide (Exists (inside ucs) table)).
Proof.
  intros Hok Hne. destruct (intervals_order table lo Hok) as [Hle Hord].
  assert (forall b, (b = true <-> Exists (inside ucs) table) -> b = bool_decide (Exists (inside ucs) table)) as Hb. { intros b Hb. apply eq_true_iff_eq. by rewrite bool_decide_eq_true. }
  assert (total (bisearch ucs table (len table - 1)) (fun b => b = true <-> Exists (inside ucs) table)) as (b & E & H)%total_ok; [|by rewrite E, (Hb b H)].
  assert (0 < len table) as Hl by (destruct table; [done|rewrite len_cons; pose proof (len_nonneg table); lia]).
  unfold bisearch. destruct (lookup_lt_is_Some_2 table 0) as [[f0 l0] H0]; [llia|]. rewrite (rd_Some table 0 (f0, l0)) by done. cbn [mbind res_bind].
  destruct (lookup_lt_is_Some_2 table (Z.to_nat (len table - 1))) as [[f1 l1] H1]; [llia|]. apply wp_bind.
  destruct (Z.ltb_spec ucs f0) as [Hf|Hf].
  { apply wp_ret. split; [done|]. intros (p & Hp & Hi)%Exists_exists. apply list_elem_of_lookup in Hp as [k Hk]. unfold inside in Hi. destruct k as [|k]; [rewrite H0 in Hk; simplify_eq/=; lia|].
    pose proof (Hord 0%nat (S k) _ _ ltac:(lia) H0 Hk). pose proof (Hle _ _ H0). cbn in *. lia. }
  rewrite (rd_Some table _ (f1, l1)) by (done || lia). cbn [mbind res_bind]. apply wp_ret. destruct (Z.ltb_spec l1 ucs) as [Hu|Hu].
  { apply wp_ret. split; [done|]. intros (p & Hp & Hi)%Exists_exists. apply list_elem_of_lookup in Hp as [k Hk]. unfold inside in Hi. pose proof (lookup_lt_Some _ _ _ Hk).
    destruct (decide (k = Z.to_nat (len table - 1))) as [->|Hn]; [rewrite H1 in Hk; simplify_eq/=; lia|]. pose proof (Hord k (Z.to_nat (len table - 1)) _ _ ltac:(llia) Hk H1). pose proof (Hle _ _ H1). cbn in *. lia. }
  eapply (wp_loop _ (fun '(min, max) => 0 <= min /\ max < len table /\ min <= max + 1 /\ (forall k p, (Z.of_nat k < min) -> table !! k = Some p -> p.2 < ucs) /\ (forall k p, max < Z.of_nat k -> table !! k = Some p -> ucs < p.1)) (fun '(min, max) => Z.to_nat (max + 1 - min))).
  - intros [min max] (Hmin & Hmax & Hmm & Hlow & Hhigh). unfold bisearch_step. destruct (Z.geb_spec max min) as [Hge|Hlt].
    + cbv zeta. set (mid := min + Z.quot (max - min) 2). assert (min <= mid <= max) as Hmid by (subst mid; rewrite Z.quot_div_nonneg by lia; dlia).
      destruct (lookup_lt_is_Some_2 table (Z.to_nat mid)) as [[f l] Hfl]; [llia|]. rewrite (rd_Some table mid (f, l)) by (done || lia). cbn [mbind res_bind]. pose proof (Hle _ _ Hfl) as Hfl'. cbn in Hfl'.
      destruct (Z.ltb_spec l ucs); [|destruct (Z.ltb_spec ucs f)]; apply wp_ret.
      * split; [|lia]. split_and!; [lia|lia|lia| |done]. intros k p Hk Hp. destruct (decide (k = Z.to_nat mid)) as [->|]; [rewrite Hfl in Hp; by simplify_eq/=|]. pose proof (Hord k (Z.to_nat mid) _ _ ltac:(lia) Hp Hfl). cbn in *. lia.
      * split; [|lia]. split_and!; [lia|lia|lia|done|]. intros k p Hk Hp. destruct (decide (k = Z.to_nat mid)) as [->|]; [rewrite Hfl in Hp; by simplify_eq/=|]. pose proof (Hord (Z.to_nat mid) k _ _ ltac:(lia) Hfl Hp). cbn in *. lia.
      * split; [|done]. intros _. apply Exists_exists. exists (f, l). split; [by eapply list_elem_of_lookup_2|]. unfold inside. cbn. lia.
    + apply wp_ret. split; [done|]. intros (p & Hp & Hi)%Exists_exists. apply list_elem_of_lookup in Hp as [k Hk]. unfold inside in Hi. destruct (decide (Z.of_nat k < min)); [specialize (Hlow k p ltac:(lia) Hk)|specialize (Hhigh k p ltac:(lia) Hk)]; lia.
  - split_and!; [lia|lia|lia|lia|]. intros k p Hk Hp. pose proof (lookup_lt_Some _ _ _ Hp). llia.
  - llia.
Qed.

Definition wcwidth (ch : Z) : Z :=
  if ch =? 0 then 0 else if (ch <? 32) || ((0x7f <=? ch) && (ch <? 0xa0)) then -1
  else if bool_decide (Exists (inside ch) zero_width) then 0 else if bool_decide (Exists (inside ch) double_width) then 2 else 1.

Lemma git_wcwidth_ok ch : git_wcwidth ch = Ok (wcwidth ch).
Proof.
  unfold git_wcwidth, wcwidth. destruct (ch =? 0); [done|]. destruct (_ || _); [done|]. rewrite (bisearch_ok ch zero_width 0) by (done || reflexivity). cbn [mbind res_bind].
  case_bool_decide; [done|]. rewrite (bisearch_ok ch double_width 0) by (done || reflexivity). cbn [mbind res_bind]. done.
Qed.

Definition columns (chs : list Z) : Z := fold_right (fun ch a => Z.max 0 (wcwidth ch) + a) 0 chs.

Lemma wcwidth_range ch : -1 <= wcwidth ch <= 2.
Proof. unfold wcwidth. repeat case_match; lia. Qed.

Section Width.
Context (mem : list Z) (Hb : is_bytes mem).

Lemma width_dec s u chs bad : cstr mem s u -> decodes u chs bad ->
  match chs with
  | ch :: chs' => exists u', utf8_width mem s None = Ok (wcwidth ch, Some (s + len (utf8_enc ch), None)) /\ u = utf8_enc ch ++ u' /\ cstr mem (s + len (utf8_enc ch)) u' /\ decodes u' chs' bad
  | [] => bad <> [] -> utf8_width mem s None = Ok (0, None)
  end.
Proof using Hb.
  intros Hc Hd. pose proof (pick_dec mem Hb s u chs bad Hc Hd) as Hp. unfold utf8_width. destruct chs as [|ch chs].
  - intros Hn. rewrite Hp, bool_decide_eq_false_2 by done. done.
  - destruct Hp as (u' & -> & Eu & Hc' & Hd'). exists u'. cbn [mbind res_bind]. by rewrite git_wcwidth_ok.
Qed.

Lemma strnwidth_loop chs : forall fuel s u bad w end_, cstr mem s u -> decodes u chs bad -> end_ = s + len u -> (length chs + 1 < fuel)%nat -> 0 <= w -> w + 2 * len u < 2 ^ 64 ->
  exists w', loop fuel (strnwidth_step mem end_ false) (Some s, w) = Ok (if bool_decide (bad = []) then Some end_ else None, w') /\ (bad = [] -> w' = w + columns chs).
Proof using Hb.
  induction chs as [|ch chs IH]; intros fuel s u bad w end_ Hc Hd -> Hf Hw Hw2; (destruct fuel as [|fuel]; [lia|]); rewrite loop_S; unfold strnwidth_step at 1; pose proof (width_dec s u _ bad Hc Hd) as Hp; cbv beta iota in Hp.
  - pose proof (dec_text _ _ _ Hd) as Eu. cbn in Eu. subst u. case_bool_decide as Hn.
    + subst bad. rewrite len_nil, Z.add_0_r, Z.ltb_irrefl. exists w. split; [done|]. cbn. lia.
    + destruct (Z.ltb_spec s (s + len bad)) as [_|Hle]; [|destruct bad; [done|rewrite len_cons in Hle; pose proof (len_nonneg bad); lia]]. cbn [mbind res_bind]. rewrite (Hp Hn). cbn [mbind res_bind].
      destruct fuel as [|fuel]; [lia|]. rewrite loop_S. cbn. exists w. by split.
  - destruct Hp as (u' & E & -> & Hc' & Hd'). pose proof (enc_len ch). pose proof (len_nonneg u'). rewrite len_app in *. destruct (Z.ltb_spec s (s + (len (utf8_enc ch) + len u'))); [|lia]. cbn [mbind res_bind]. rewrite E. cbn [mbind res_bind].
    pose proof (wcwidth_range ch). destruct (Z.ltb_spec 0 (wcwidth ch)).
    + rewrite u64_small by lia. destruct (IH fuel (s + len (utf8_enc ch)) u' bad (w + wcwidth ch) (s + (len (utf8_enc ch) + len u')) Hc' Hd') as (w' & -> & Hw'); [lia|cbn in Hf; lia|lia|lia|].
      exists w'. split; [done|]. intros Hn. rewrite (Hw' Hn). change (columns (ch :: chs)) with (Z.max 0 (wcwidth ch) + columns chs). lia.
    + destruct (IH fuel (s + len (utf8_enc ch)) u' bad w (s + (len (utf8_enc ch) + len u')) Hc' Hd') as (w' & -> & Hw'); [lia|cbn in Hf; lia|lia|lia|].
      exists w'. split; [done|]. intros Hn. rewrite (Hw' Hn). change (columns (ch :: chs)) with (Z.max 0 (wcwidth ch) + columns chs). lia.
Qed.

Lemma is_utf8_loop chs : forall fuel s u bad, cstr mem s u -> decodes u chs bad -> (length chs < fuel)%nat -> loop fuel (is_utf8_step mem) s = Ok (bool_decide (bad = [])).
Proof using Hb.
  induction chs as [|ch chs IH]; intros fuel s u bad Hc Hd Hf; (destruct fuel as [|fuel]; [lia|]); rewrite loop_S; unfold is_utf8_step at 1; rewrite (cstr_rd _ _ _ Hc); cbn [mbind res_bind]; pose proof (width_dec s u _ bad Hc Hd) as Hp; cbv beta iota in Hp.
  - pose proof (dec_text _ _ _ Hd) as Eu. cbn in Eu. subst u. destruct bad as [|c bad]; [done|]. rewrite (proj2 (tr_true _)) by (by apply (cstr_nz _ _ _ _ Hc)). cbn [negb hd].
    assert ((c =? 10) || (c =? 9) || (c =? 13) = false) as ->.
    { destruct (_ || _ || _) eqn:E; [|done]. exfalso. apply (dec_bad _ _ _ Hd ltac:(done) c bad); [unfold utf8_ok; lia|]. unfold utf8_enc. by destruct (Z.ltb_spec c 0x80); [|lia]. }
    rewrite (Hp ltac:(done)). cbn [mbind res_bind]. by rewrite bool_decide_eq_false_2.
  - destruct Hp as (u' & E & -> & Hc' & Hd'). destruct (enc_ne ch) as (c & l & Ec). rewrite Ec in *. cbn [app hd] in *. rewrite (proj2 (tr_true _)) by (by apply (cstr_nz _ _ _ _ Hc)). cbn [negb]. cbn in Hf.
    destruct (_ || _ || _) eqn:Es; [|rewrite E; cbn [mbind res_bind]; apply (IH fuel _ u'); [done|done|lia]].
    assert (l = []) as ->. { destruct (Forall_inv (dec_ok _ _ _ Hd)) as [[Hr _] _]. revert Ec. unfold utf8_enc. repeat match goal with |- context [Z.ltb ?x ?y] => destruct (Z.ltb_spec x y) end; intros [= <- <-]; done || (exfalso; dlia). }
    apply (IH fuel _ u'); [done|done|lia].
Qed.

Lemma decodes_length u chs bad : decodes u chs bad -> (length chs <= length u)%nat.
Proof using Type.
  intros [-> _ _]. rewrite length_app. induction chs as [|ch chs IH]; [cbn; lia|]. cbn. rewrite length_app. destruct (enc_ne ch) as (c & l & ->). cbn. lia.
Qed.
End Width.

(** C30: strings as UTF-8.  For every C string of fewer than 2^30 bytes: [is_utf8] says whether it is a sequence of UTF-8
    encodings of characters (surrogates, U+FFFE and U+FFFF excluded) and nothing else; and
    [utf8_strwidth] is the sum of the widths of the characters, found by binary search in the tables, control characters
    counted as 0, or the length in bytes if the string is not UTF-8. *)
Theorem utf8_strings_exact mem s u : is_bytes mem -> cstr mem s u -> len u < 2 ^ 30 ->
  exists chs bad, decodes u chs bad /\ is_utf8 mem s = Ok (bool_decide (bad = [])) /\
    utf8_strwidth mem s = Ok (if bool_decide (bad = []) then columns chs else len u).
Proof.
  intros Hb Hc Hl. pose proof Hc as (Hi & Hz & rest & Hd). destruct (decodes_exists u) as (chs & bad & Hdec); [|done|].
  { pose proof Hb as Hb'. apply (Forall_drop _ (Z.to_nat s)) in Hb'. rewrite Hd in Hb'. by apply Forall_app in Hb' as [? _]. }
  pose proof (cstr_length _ _ _ Hc). pose proof (decodes_length _ _ _ Hdec). exists chs, bad. split_and!; [done|by apply (is_utf8_loop mem Hb chs _ s u bad Hc Hdec); lia|].
  unfold utf8_strwidth, utf8_strnwidth. rewrite (strlen_ok _ _ _ Hc). cbn [mbind res_bind].
  pose proof (len_nonneg u). assert (0 <= columns chs <= 2 * len u) as Hcol.
  { assert (0 <= columns chs <= 2 * len chs) as Hx. { clear. induction chs as [|ch chs IH]; [done|]. change (columns (ch :: chs)) with (Z.max 0 (wcwidth ch) + columns chs). rewrite len_cons. pose proof (wcwidth_range ch). lia. } llia. }
  destruct (length mem) as [|n] eqn:En; [lia|]. destruct (strnwidth_loop mem Hb chs (S (S n)) s u bad 0 (s + len u) Hc Hdec eq_refl) as (w' & -> & Hw'); [lia|lia|lia|]. cbn [mbind res_bind].
  unfold cast_size_t_to_int. case_bool_decide as Hn; [rewrite (Hw' Hn); destruct (Z.ltb_spec (2 ^ 31 - 1) (0 + columns chs))|destruct (Z.ltb_spec (2 ^ 31 - 1) (len u))]; done || lia.
Qed.

Lemma utf8_strings_exact_witness : is_utf8 ex_hfs 0 = Ok true /\ utf8_strwidth ex_hfs 0 = Ok 4 /\ exists chs bad, decodes (take 7 ex_hfs) chs bad.
Proof.
  split_and!; [reflexivity|reflexivity|]. destruct (utf8_strings_exact ex_hfs 0 (take 7 ex_hfs)) as (chs & bad & H & _); [by apply (bool_decide_eq_true_1 _)|split_and!; [lia|repeat constructor; done|by exists []]|done|by exists chs, bad].
Defined.
