(* ===== verification/NtfsNames.v ===== *)
(** * Names on NTFS: [is_ntfs_dotgit] and [is_ntfs_dot_generic] of [path.c]

    NTFS takes more than one name for [.git] and for files such as [.gitmodules]: in any case, followed by
    spaces and dots, as the short names of its 8.3 format, or with a stream behind a colon.
    The theorems say which names the tests of [path.c] accept. *)

From stdpp Require Import prelude numbers list.
From S2P Require Import Prelude PatchDelta Alloc CString Utf8.

Definition is_xplatform_dir_sep (c : Z) : bool := (c =? 47) || (c =? 92).

(** The chains of comparisons: [true] if the characters at [name] are one of the given ones each; they are read one after the other. *)
Fixpoint ntfs_chain (mem : list Z) (name : Z) (sets : list (list Z)) : res bool :=
  match sets with
  | [] => Ok true
  | set :: sets =>
      c ← rd mem name;
      if bool_decide (c ∈ set) then ntfs_chain mem (name + 1) sets else Ok false
  end.

(** The loop at the end. *)
Definition dotgit_tail_step (mem : list Z) (name : Z) : res (Z + bool) :=
  c ← rd mem name;
  if negb (tr c) || is_xplatform_dir_sep c || (c =? 58) then Ok (inr true)
  else if negb (c =? 46) && negb (c =? 32) then Ok (inr false)
  else Ok (inl (name + 1)).

Definition is_ntfs_dotgit (mem : list Z) (name : Z) : res bool :=
  c ← rd mem name;
  if c =? 46 then
    ok ← ntfs_chain mem (name + 1) [[103; 71]; [105; 73]; [116; 84]];
    if negb ok then Ok false else loop (S (length mem)) (dotgit_tail_step mem) (name + 4)
  else if (c =? 103) || (c =? 71) then
    ok ← ntfs_chain mem (name + 1) [[105; 73]; [116; 84]; [126]; [49]];
    if negb ok then Ok false else loop (S (length mem)) (dotgit_tail_step mem) (name + 5)
  else Ok false.

(** [!strncasecmp(name, needle, n)]; behind the needle there is a NUL. *)
Fixpoint strncaseeq (mem : list Z) (name : Z) (needle : list Z) (n : nat) : res bool :=
  match n with
  | O => Ok true
  | S n =>
      c ← rd mem name;
      if negb (tolower c =? tolower (hd 0 needle)) then Ok false
      else if negb (tr c) then Ok true
      else strncaseeq mem (name + 1) (tl needle) n
  end.

Definition only_spaces_and_periods_step (mem : list Z) (name i : Z) : res (Z + bool) :=
  c ← rd mem (name + i);
  if negb (tr c) || (c =? 58) then Ok (inr true)
  else if negb (c =? 32) && negb (c =? 46) then Ok (inr false)
  else Ok (inl (i + 1)).

Definition only_spaces_and_periods (mem : list Z) (name i : Z) : res bool :=
  loop (S (length mem)) (only_spaces_and_periods_step mem name) i.

(** The loop over the eight characters of a short name: the index and whether the tilde was seen; the result is the index behind
    it or [None] for the return value 0. *)
Definition shortname_step (mem : list Z) (name : Z) (prefix : list Z) (st : Z * bool) : res (Z * bool + option Z) :=
  let '(i, saw_tilde) := st in
  if 8 <=? i then Ok (inr (Some i))
  else
    c ← rd mem (name + i);
    if negb (tr c) then Ok (inr None)
    else if (saw_tilde : bool) then
      if (c <? 48) || (57 <? c) then Ok (inr None) else Ok (inl (i + 1, saw_tilde))
    else if c =? 126 then
      let i := i + 1 in
      c ← rd mem (name + i);
      if (c <? 49) || (57 <? c) then Ok (inr None) else Ok (inl (i + 1, true))
    else if 6 <=? i then Ok (inr None)
    else if tr (c &. 0x80) then Ok (inr None)
    else
      p ← rd prefix i;
      if negb (tolower c =? p) then Ok (inr None) else Ok (inl (i + 1, saw_tilde)).

Definition is_ntfs_dot_generic (mem : list Z) (name : Z) (dotgit_name : list Z) (n : Z) (shortname_prefix : list Z) : res bool :=
  c ← rd mem name;
  full ← (if c =? 46 then strncaseeq mem (name + 1) dotgit_name (Z.to_nat n) else Ok false);
  if (full : bool) then only_spaces_and_periods mem name (n + 1)
  else
    six ← strncaseeq mem name dotgit_name 6;
    short ← (if (six : bool) then
               c ← rd mem (name + 6);
               if c =? 126 then c ← rd mem (name + 7); Ok ((49 <=? c) && (c <=? 52)) else Ok false
             else Ok false);
    if (short : bool) then only_spaces_and_periods mem name 8
    else
      r ← loop 9 (shortname_step mem name shortname_prefix) (0, false);
      match r with None => Ok false | Some i => only_spaces_and_periods mem name i end.

Definition is_ntfs_dot_str (mem : list Z) (name : Z) (dotgit_name shortname_prefix : list Z) : res bool :=
  is_ntfs_dot_generic mem name dotgit_name (len dotgit_name) shortname_prefix.

(** "gi7eba", "gi250a", "gi7d29", "maba30" *)
Definition short_gitmodules : list Z := [103; 105; 55; 101; 98; 97].
Definition short_gitignore : list Z := [103; 105; 50; 53; 48; 97].
Definition short_gitattributes : list Z := [103; 105; 55; 100; 50; 57].
Definition short_mailmap : list Z := [109; 97; 98; 97; 51; 48].

Definition is_ntfs_dotgitmodules (mem : list Z) (name : Z) : res bool := is_ntfs_dot_str mem name str_gitmodules short_gitmodules.
Definition is_ntfs_dotgitignore (mem : list Z) (name : Z) : res bool := is_ntfs_dot_str mem name str_gitignore short_gitignore.
Definition is_ntfs_dotgitattributes (mem : list Z) (name : Z) : res bool := is_ntfs_dot_str mem name str_gitattributes short_gitattributes.
Definition is_ntfs_dotmailmap (mem : list Z) (name : Z) : res bool := is_ntfs_dot_str mem name str_mailmap short_mailmap.

(** ** What the tests accept *)

(** Behind the name: spaces and dots, and then the end or one of [seps]. *)
Definition ntfs_tail (seps rest : list Z) : Prop :=
  exists pad r, rest = pad ++ r /\ Forall (fun c => c = 32 \/ c = 46) pad /\ (r = [] \/ exists c r', r = c :: r' /\ c ∈ seps).

Definition is_digit (c : Z) : Prop := 48 <= c <= 57.

(** A fall-back short name, eight characters: the start of [prefix], a tilde, and a number. *)
Definition ntfs_fallback (prefix core : list Z) : Prop :=
  exists k d ds, (k <= 6)%nat /\ tolower <$> core = take k prefix ++ 126 :: d :: ds /\ 49 <= d <= 57 /\ Forall is_digit ds /\ length core = 8%nat.

Definition ntfs_core (needle prefix core : list Z) : Prop :=
  tolower <$> core = 46 :: needle \/
  (exists d, tolower <$> core = take 6 needle ++ [126; d] /\ 49 <= d <= 52) \/
  ntfs_fallback prefix core.

Lemma tail_nil seps : ntfs_tail seps [].
Proof. exists [], []. split_and!; [done|constructor|by left]. Qed.

Lemma tail_cons seps c rest : c <> 32 -> c <> 46 -> ntfs_tail seps (c :: rest) <-> c ∈ seps.
Proof.
  intros H1 H2. split.
  - intros (pad & r & E & Hp & Hr). destruct pad as [|x pad]; cbn in E; simplify_eq; [|apply Forall_cons in Hp as [[]]; done]. destruct Hr as [|(c' & r' & [= -> ->] & H)]; done.
  - intros H. exists [], (c :: rest). split_and!; [done|constructor|right; by exists c, rest].
Qed.

Lemma tail_pad seps c rest : c = 32 \/ c = 46 -> c ∉ seps -> ntfs_tail seps (c :: rest) <-> ntfs_tail seps rest.
Proof.
  intros Hc Hn. split.
  - intros (pad & r & E & Hp & Hr). destruct pad as [|x pad]; cbn in E; simplify_eq.
    + destruct Hr as [|(c' & r' & [= -> ->] & H)]; done.
    + apply Forall_cons in Hp as [_ Hp]. by exists pad, r.
  - intros (pad & r & -> & Hp & Hr). exists (c :: pad), r. split_and!; [done|by constructor|done].
Qed.

Lemma lower_tilde c : is_byte c -> tolower c = 126 <-> c = 126.
Proof. intros Hc. rewrite tolower_spec by done. unfold ascii_upper, between. destruct (_ && _) eqn:E; lia. Qed.

Lemma lower_digit c d : is_byte c -> 48 <= d <= 57 -> tolower c = d <-> c = d.
Proof. intros Hc Hd. rewrite tolower_spec by done. unfold ascii_upper, between. destruct (_ && _) eqn:E; lia. Qed.

Lemma lower_digits ds : forall core, is_bytes core -> Forall is_digit ds -> tolower <$> core = ds <-> core = ds.
Proof.
  induction ds as [|d ds IH]; intros [|c core] Hb' Hd; try (by split). apply Forall_cons in Hb' as [Hc Hb'], Hd as [Hd Hds]. cbn. split.
  - intros [= H1 H2]. apply (lower_digit c d Hc Hd) in H1. apply (IH core Hb' Hds) in H2. by subst.
  - intros [= -> ->]. f_equal; [by apply (lower_digit d d Hc Hd)|by apply IH].
Qed.

Section Ntfs.
Context (mem : list Z) (Hb : is_bytes mem).

Lemma dotgit_tail_ok u : forall fuel p, cstr mem p u -> (length u < fuel)%nat -> exists b, loop fuel (dotgit_tail_step mem) p = Ok b /\ (b = true <-> ntfs_tail [47; 92; 58] u).
Proof using All.
  induction u as [|c u IH]; intros fuel p Hc Hf; (destruct fuel as [|fuel]; [lia|]); rewrite loop_S; unfold dotgit_tail_step; rewrite (cstr_rd _ _ _ Hc); cbn [mbind res_bind hd].
  - exists true. split; [done|]. split; [intros _; apply tail_nil|done].
  - rewrite (proj2 (tr_true c)) by (by apply (cstr_nz _ _ _ _ Hc)). unfold is_xplatform_dir_sep. cbn [negb orb].
    destruct (Z.eqb_spec c 47) as [->|]; [|destruct (Z.eqb_spec c 92) as [->|]; [|destruct (Z.eqb_spec c 58) as [->|]]]; cbn [orb];
      [exists true; split; [done|]; rewrite tail_cons by done; split; [intros _; set_solver|done]..|].
    destruct (Z.eqb_spec c 46), (Z.eqb_spec c 32); cbn [negb andb]; try (destruct (IH fuel (p + 1)) as (b & E & H); [by eapply cstr_tl|cbn in Hf; lia|]; exists b; split; [done|]; rewrite H, tail_pad by (lia || set_solver); done).
    exists false. split; [done|]. rewrite tail_cons by done. split; [done|set_solver].
Qed.

Lemma spaces_ok name u : forall fuel i, cstr mem (name + i) u -> (length u < fuel)%nat -> exists b, loop fuel (only_spaces_and_periods_step mem name) i = Ok b /\ (b = true <-> ntfs_tail [58] u).
Proof using All.
  induction u as [|c u IH]; intros fuel i Hc Hf; (destruct fuel as [|fuel]; [lia|]); rewrite loop_S; unfold only_spaces_and_periods_step; rewrite (cstr_rd _ _ _ Hc); cbn [mbind res_bind hd].
  - exists true. split; [done|]. split; [intros _; apply tail_nil|done].
  - rewrite (proj2 (tr_true c)) by (by apply (cstr_nz _ _ _ _ Hc)). cbn [negb orb]. destruct (Z.eqb_spec c 58) as [->|]; [exists true; split; [done|]; rewrite tail_cons by done; split; [intros _; set_solver|done]|].
    destruct (Z.eqb_spec c 46), (Z.eqb_spec c 32); cbn [negb andb]; try (destruct (IH fuel (i + 1)) as (b & E & H); [rewrite Z.add_assoc; by eapply cstr_tl|cbn in Hf; lia|]; exists b; split; [done|]; rewrite H, tail_pad by (lia || set_solver); done).
    exists false. split; [done|]. rewrite tail_cons by done. split; [done|set_solver].
Qed.

Lemma only_spaces_ok name i u : cstr mem (name + i) u -> exists b, only_spaces_and_periods mem name i = Ok b /\ (b = true <-> ntfs_tail [58] u).
Proof using All. intros Hc. apply spaces_ok; [done|]. pose proof (cstr_length _ _ _ Hc). lia. Qed.

(** A chain of comparisons against letters. *)
Lemma chain_ok sets : forall p u, cstr mem p u -> Forall (fun s => 0 ∉ s) sets ->
  (exists a b, ntfs_chain mem p sets = Ok true /\ u = a ++ b /\ Forall2 (fun c s => c ∈ s) a sets /\ cstr mem (p + len sets) b) \/
  (ntfs_chain mem p sets = Ok false /\ forall a b, u = a ++ b -> ~ Forall2 (fun c s => c ∈ s) a sets).
Proof using All.
  induction sets as [|s sets IH]; intros p u Hc Hz.
  - left. exists [], u. split_and!; [done|done|constructor|]. by rewrite len_nil, Z.add_0_r.
  - apply Forall_cons in Hz as [H0 Hz]. cbn [ntfs_chain]. rewrite (cstr_rd _ _ _ Hc). cbn [mbind res_bind]. case_bool_decide as Hin.
    + destruct u as [|c u]; [done|]. cbn [hd] in Hin. destruct (IH (p + 1) u (cstr_tl _ _ _ _ Hc) Hz) as [(a & b & -> & -> & Ha & Hb')|[-> Hn]].
      * left. exists (c :: a), b. split_and!; [done|done|by constructor|]. rewrite len_cons. by replace (p + (1 + len sets)) with (p + 1 + len sets) by lia.
      * right. split; [done|]. intros [|x a] b E F; [inversion F|]. injection E as -> ->. apply Forall2_cons in F as [_ F]. by apply (Hn a b).
    + right. split; [done|]. intros [|x a] b -> F; [inversion F|]. by apply Forall2_cons in F as [? _].
Qed.

(** The letters of a chain, in any case. *)
Lemma chain_lower (sets : list (list Z)) (ls : list Z) : Forall2 (fun s l => forall c, is_byte c -> c ∈ s <-> tolower c = l) sets ls ->
  forall a, is_bytes a -> Forall2 (fun c s => c ∈ s) a sets <-> tolower <$> a = ls.
Proof using Type.
  induction 1 as [|s l sets ls Hs Hss IH]; intros a Ha; [split; [by inversion 1|by destruct a; [constructor|]]|]. destruct a as [|c a]; [split; [inversion 1|done]|].
  apply Forall_cons in Ha as [Hc Ha]. cbn. split.
  - intros [H1 H2]%Forall2_cons. apply Hs in H1; [|done]. apply IH in H2; [|done]. by rewrite H1, H2.
  - intros [= H1 H2]. constructor; [by apply Hs|by apply IH].
Qed.

Lemma lower_pair l c : ascii_lower l = true -> is_byte c -> c ∈ [l; l - 32] <-> tolower c = l.
Proof using Type.
  intros Hl Hc. rewrite tolower_spec by done. unfold ascii_lower, ascii_upper, between in *. destruct ((65 <=? c) && (c <=? 90)) eqn:E; rewrite !elem_of_cons; (split; [intros [|[|H%elem_of_nil]]; [..|done]|intros H]); lia.
Qed.

Lemma lower_other l c : ascii_lower l = false -> is_byte c -> c ∈ [l] /\ ascii_upper l = false <-> tolower c = l.
Proof using Type.
  intros Hl Hc. rewrite tolower_spec by done. unfold ascii_lower, ascii_upper, between in *. rewrite list_elem_of_singleton. destruct ((65 <=? c) && (c <=? 90)) eqn:E; split; intros H; lia.
Qed.

Lemma cstr_is_bytes p u : cstr mem p u -> is_bytes u.
Proof using Hb. intros (_ & _ & rest & Hd). apply (Forall_drop _ (Z.to_nat p)) in Hb. rewrite Hd in Hb. by apply Forall_app in Hb as [? _]. Qed.

Definition ntfs_git (u : list Z) : Prop :=
  exists core rest, u = core ++ rest /\ (tolower <$> core = [46; 103; 105; 116] \/ tolower <$> core = [103; 105; 116; 126; 49]) /\ ntfs_tail [47; 92; 58] rest.

(** The two forms end in the same way. *)
Lemma dotgit_form p c u (sets : list (list Z)) (ls : list Z) k : cstr mem p (c :: u) -> Forall (fun s => 0 ∉ s) sets -> Forall2 (fun s l => forall c, is_byte c -> c ∈ s <-> tolower c = l) sets ls -> k = 1 + len sets ->
  exists b, (ok ← ntfs_chain mem (p + 1) sets; if negb ok then Ok false else loop (S (length mem)) (dotgit_tail_step mem) (p + k)) = Ok b /\
    (b = true <-> exists core rest, u = core ++ rest /\ tolower <$> core = ls /\ ntfs_tail [47; 92; 58] rest).
Proof using Hb.
  intros Hc Hz Hl ->. pose proof (cstr_tl _ _ _ _ Hc) as Ht. pose proof (cstr_is_bytes _ _ Ht) as Hu. destruct (chain_ok sets (p + 1) u Ht Hz) as [(a & r & -> & -> & Ha & Hr)|[-> Hn]]; cbn [mbind res_bind negb].
  - apply Forall_app in Hu as [Hab _]. apply (chain_lower _ _ Hl) in Ha; [|done]. rewrite Z.add_assoc. destruct (dotgit_tail_ok r (S (length mem)) _ Hr) as (b & -> & Hbt); [pose proof (cstr_length _ _ _ Hr); lia|].
    exists b. split; [done|]. rewrite Hbt. split; [intros H; by exists a, r|]. intros (core & rest & E & Hcore & H). apply app_inj_1 in E as [-> ->]; [done|]. apply (f_equal length) in Ha, Hcore. rewrite length_fmap in Ha, Hcore. lia.
  - exists false. split; [done|]. split; [done|]. intros (core & rest & -> & Hcore & _). apply Forall_app in Hu as [Hab _]. destruct (Hn core rest eq_refl). by apply (chain_lower _ _ Hl).
Qed.

Lemma is_ntfs_dotgit_ok p u : cstr mem p u -> exists b, is_ntfs_dotgit mem p = Ok b /\ (b = true <-> ntfs_git u).
Proof using Hb.
  intros Hc. pose proof (cstr_is_bytes _ _ Hc) as Hu. unfold is_ntfs_dotgit. rewrite (cstr_rd _ _ _ Hc). cbn [mbind res_bind]. destruct u as [|c u]; cbn [hd].
  { exists false. split; [done|]. split; [done|]. intros (core & rest & E & H & _). destruct core; [|done]. by destruct H. }
  apply Forall_cons in Hu as [Hcb Hu].
  assert (forall l, (l = 46 \/ l = 126 \/ l = 49) -> forall c, is_byte c -> c ∈ [l] <-> tolower c = l) as Hsame.
  { intros l Hl x Hx. rewrite <- (lower_other l x) by (done || by destruct Hl as [->|[->| ->]]). destruct Hl as [->|[->| ->]]; tauto. }
  assert (ntfs_git (c :: u) <-> (c = 46 /\ exists core rest, u = core ++ rest /\ tolower <$> core = [103; 105; 116] /\ ntfs_tail [47; 92; 58] rest) \/
    ((c = 103 \/ c = 71) /\ exists core rest, u = core ++ rest /\ tolower <$> core = [105; 116; 126; 49] /\ ntfs_tail [47; 92; 58] rest)) as Hspec.
  { assert (tolower c = 46 <-> c = 46) as H46 by (rewrite <- (Hsame 46) by (lia || done); set_solver).
    assert (tolower c = 103 <-> c = 103 \/ c = 71) as H103 by (rewrite <- (lower_pair 103) by done; change (103 - 32) with 71; set_solver). split.
    - intros ([|x core] & rest & E & [H|H] & Ht); cbn in E, H; simplify_eq; [left; split; [by apply H46|]|right; split; [by apply H103|]]; by exists core, rest.
    - intros [[Hx (core & rest & -> & H & Ht)]|[Hx (core & rest & -> & H & Ht)]]; exists (c :: core), rest; (split; [done|]); (split; [|done]); [left; apply H46 in Hx|right; apply H103 in Hx]; cbn; by rewrite Hx, H. }
  destruct (Z.eqb_spec c 46) as [->|H46].
  { destruct (dotgit_form p 46 u [[103; 71]; [105; 73]; [116; 84]] [103; 105; 116] 4 Hc) as (b & E & H); [by apply (bool_decide_eq_true_1 _)|repeat (apply Forall2_cons; split; [intros; by apply lower_pair|]); constructor|done|].
    exists b. split; [done|]. rewrite H, Hspec. split; [by left|intros [[_ ?]|[[|] _]]; done]. }
  destruct ((c =? 103) || (c =? 71)) eqn:Eg.
  { destruct (dotgit_form p c u [[105; 73]; [116; 84]; [126]; [49]] [105; 116; 126; 49] 5 Hc) as (b & E & H); [by apply (bool_decide_eq_true_1 _)|repeat (apply Forall2_cons; split; [intros; first [by apply lower_pair|apply Hsame; lia || done]|]); constructor|done|].
    exists b. split; [done|]. rewrite H, Hspec. split; [right; split; [lia|done]|intros [[? _]|[_ ?]]; done]. }
  exists false. split; [done|]. rewrite Hspec. split; [done|]. intros [[? _]|[? _]]; lia.
Qed.

(** *** The short names *)

Lemma strncaseeq_ok n : forall p u needle, cstr mem p u -> Forall (fun c => c <> 0 /\ tolower c = c) needle -> (n <= length needle)%nat ->
  strncaseeq mem p needle n = Ok (bool_decide (tolower <$> take n u = take n needle)).
Proof using All.
  induction n as [|n IH]; intros p u needle Hc Hn Hl; [done|]. destruct needle as [|x needle]; [cbn in Hl; lia|]. apply Forall_cons in Hn as [[Hx0 Hx] Hn]. cbn [strncaseeq hd tl]. rewrite (cstr_rd _ _ _ Hc), Hx. cbn [mbind res_bind].
  destruct u as [|c u]; cbn [hd].
  - change (tolower 0) with 0. destruct (Z.eqb_spec 0 x); [by subst|]. by rewrite bool_decide_eq_false_2.
  - destruct (Z.eqb_spec (tolower c) x) as [E|E]; cbn [negb].
    + rewrite (proj2 (tr_true c)) by (by apply (cstr_nz _ _ _ _ Hc)). cbn [negb]. rewrite (IH _ u needle); [|by eapply cstr_tl|done|cbn in Hl; lia]. f_equal. apply bool_decide_ext. cbn. rewrite E. split; [by intros ->|by intros [=]].
    + rewrite bool_decide_eq_false_2; [done|]. cbn. by intros [=].
Qed.

Definition digits_first (m : nat) (w : list Z) : Prop := exists ds w', w = ds ++ w' /\ length ds = m /\ Forall is_digit ds.

Lemma shortname_digits name prefix m : forall fuel i w, cstr mem (name + i) w -> i = 8 - Z.of_nat m -> (m < fuel)%nat ->
  exists r, loop fuel (shortname_step mem name prefix) (i, true) = Ok r /\ ((r = Some 8 /\ digits_first m w) \/ (r = None /\ ~ digits_first m w)).
Proof using All.
  induction m as [|m IH]; intros fuel i w Hc Hi Hf; (destruct fuel as [|fuel]; [lia|]); rewrite loop_S; unfold shortname_step at 1.
  - replace i with 8 by lia. exists (Some 8). split; [done|]. left. split; [done|]. by exists [], w.
  - destruct (Z.leb_spec 8 i); [lia|]. rewrite (cstr_rd _ _ _ Hc). cbn [mbind res_bind]. destruct w as [|c w]; cbn [hd].
    { exists None. split; [done|]. right. split; [done|]. by intros ([|] & ? & ? & ? & _). }
    rewrite (proj2 (tr_true c)) by (by apply (cstr_nz _ _ _ _ Hc)). cbn [negb].
    assert (digits_first (S m) (c :: w) <-> is_digit c /\ digits_first m w) as Hd.
    { split; [intros ([|x ds] & w' & E & Hl & Hd); [done|]; cbn in E; simplify_eq/=; apply Forall_cons in Hd as [? Hd]; split; [done|]; by exists ds, w'|].
      intros [H1 (ds & w' & -> & <- & Hd)]. exists (c :: ds), w'. split_and!; [done|done|by constructor]. }
    destruct ((c <? 48) || (57 <? c)) eqn:E.
    + exists None. split; [done|]. right. split; [done|]. rewrite Hd. unfold is_digit. lia.
    + destruct (IH fuel (i + 1) w) as (r & -> & Hr); [rewrite Z.add_assoc; by eapply cstr_tl|lia|lia|]. exists r. split; [done|]. rewrite Hd. assert (is_digit c) by (unfold is_digit; lia). tauto.
Qed.

Section Short.
Context (name : Z) (prefix : list Z) (Hp6 : length prefix = 6%nat) (Hpl : Forall (fun c => c <> 126 /\ 0 < c < 128 /\ tolower c = c) prefix).

Definition short_from (i : nat) (w : list Z) : Prop :=
  exists k d ds core w', w = core ++ w' /\ (k + i <= 6)%nat /\ tolower <$> core = take k (drop i prefix) ++ 126 :: d :: ds /\ 49 <= d <= 57 /\ Forall is_digit ds /\ length core = (8 - i)%nat.

Lemma short_nil i : ~ short_from i [].
Proof using All. intros (k & d & ds & core & w' & E & _ & H & _). symmetry in E. apply app_eq_nil in E as [-> _]. by destruct (take k (drop i prefix)). Qed.

Lemma short_tilde i w : is_bytes w -> (i <= 6)%nat -> short_from i (126 :: w) <-> exists d w2, w = d :: w2 /\ 49 <= d <= 57 /\ digits_first (6 - i) w2.
Proof using All.
  intros Hw Hi. split.
  - intros (k & d & ds & core & w' & E & Hk & H & Hd & Hds & Hl). destruct core as [|c core]; [cbn in Hl; lia|]. cbn in E. injection E as <- ->. destruct k as [|k].
    + cbn in H. injection H as H. destruct core as [|e core]; [done|]. cbn in H. injection H as He Hcore. apply Forall_cons in Hw as [Heb Hw]. apply Forall_app in Hw as [Hw _].
      apply (lower_digit e d Heb ltac:(lia)) in He. apply (lower_digits ds core Hw Hds) in Hcore. subst e core. exists d, (ds ++ w'). split_and!; [done|lia|lia|]. exists ds, w'. cbn in Hl. split_and!; [done|lia|done].
    + destruct (drop i prefix) as [|x dp] eqn:Ed; [apply (f_equal length) in Ed; rewrite length_drop in Ed; cbn in Ed; lia|]. cbn in H. injection H as Hx _. change (tolower 126) with 126 in Hx.
      assert (x ∈ prefix) as Hin by (rewrite <- (take_drop i prefix), Ed; set_solver). rewrite Forall_forall in Hpl. destruct (Hpl x Hin). done.
  - intros (d & w2 & -> & Hd & ds & w' & -> & Hl & Hds). apply Forall_cons in Hw as [Hdb Hw]. apply Forall_app in Hw as [Hw _]. exists 0%nat, d, ds, (126 :: d :: ds), w'.
    split_and!; [done|lia| |lia|lia|done|cbn; lia]. cbn. change (tolower 126) with 126. rewrite (proj2 (lower_digit d d Hdb ltac:(lia)) eq_refl). by rewrite (proj2 (lower_digits ds ds Hw Hds) eq_refl).
Qed.

Lemma short_other i c w : is_byte c -> c <> 126 -> short_from i (c :: w) <-> (i < 6)%nat /\ prefix !! i = Some (tolower c) /\ short_from (S i) w.
Proof using All.
  intros Hc Hn. split.
  - intros (k & d & ds & core & w' & E & Hk & H & Hd & Hds & Hl). destruct core as [|x core]; [cbn in Hl; lia|]. cbn in E. injection E as <- ->. destruct k as [|k].
    { cbn in H. injection H as H _. by apply (lower_tilde c Hc) in H. }
    destruct (lookup_lt_is_Some_2 prefix i) as [x Hx]; [lia|]. rewrite (drop_S _ _ _ Hx) in H. cbn in H. injection H as H1 H2. split_and!; [lia|by rewrite H1|]. exists k, d, ds, core, w'. split_and!; [done|lia|done|lia|lia|done|cbn in Hl; lia].
  - intros (Hi & Hx & k & d & ds & core & w' & -> & Hk & H & Hd & Hds & Hl). exists (S k), d, ds, (c :: core), w'. split_and!; [done|lia| |lia|lia|done|cbn; lia]. rewrite (drop_S _ _ _ Hx). cbn. by rewrite H.
Qed.

(** What is asked of the result. *)
Definition short_result (i : nat) (w : list Z) (m : res (option Z)) : Prop :=
  exists r, m = Ok r /\ ((r = Some 8 /\ short_from i w) \/ (r = None /\ ~ short_from i w)).

Lemma short_no i w : ~ short_from i w -> short_result i w (Ok None).
Proof using All. intros H. exists None. split; [done|by right]. Qed.

Lemma tilde_run fuel i w : (i <= 6)%nat -> cstr mem (name + Z.of_nat i) (126 :: w) -> (6 - i < fuel)%nat ->
  short_result i (126 :: w) (loop (S fuel) (shortname_step mem name prefix) (Z.of_nat i, false)).
Proof using All.
  intros Hi Hc Hf. pose proof (cstr_is_bytes _ _ Hc) as Hw. apply Forall_cons in Hw as [_ Hw]. rewrite loop_S. unfold shortname_step at 1. destruct (Z.leb_spec 8 (Z.of_nat i)); [lia|]. rewrite (cstr_rd _ _ _ Hc). cbn [mbind res_bind hd]. change (tr 126) with true. cbn [negb]. change (126 =? 126) with true. cbv iota zeta.
  pose proof (cstr_tl _ _ _ _ Hc) as Ht. rewrite <- Z.add_assoc in Ht. rewrite (cstr_rd _ _ _ Ht). cbn [mbind res_bind]. destruct ((hd 0 w <? 49) || (57 <? hd 0 w)) eqn:E.
  - apply short_no. rewrite short_tilde by done. intros (d & w2 & -> & Hd & _). cbn [hd] in E. lia.
  - destruct w as [|d w]; [done|]. cbn [hd] in E. pose proof (cstr_tl _ _ _ _ Ht) as Ht2. rewrite <- Z.add_assoc in Ht2.
    destruct (shortname_digits name prefix (6 - i) fuel (Z.of_nat i + 1 + 1) w Ht2) as (r & Er & Hr); [lia|lia|]. exists r. split; [done|]. rewrite short_tilde by done.
    destruct Hr as [[-> Hr]|[-> Hr]]; [left; split; [done|]; exists d, w; split_and!; [done|lia|lia|done]|right; split; [done|]; by intros (? & ? & [= <- <-] & _ & ?)].
Qed.

Lemma shortname_ok j : forall fuel i w, (i + j = 6)%nat -> cstr mem (name + Z.of_nat i) w -> (j + 2 < fuel)%nat ->
  short_result i w (loop fuel (shortname_step mem name prefix) (Z.of_nat i, false)).
Proof using All.
  induction j as [|j IH]; intros fuel i w Hij Hc Hf; (destruct fuel as [|fuel]; [lia|]); pose proof (cstr_is_bytes _ _ Hc) as Hw;
    (destruct (decide (hd 0 w = 126)) as [E|Hn]; [destruct w as [|c w]; [done|]; cbn in E; subst c; apply tilde_run; [lia|done|lia]|]);
    rewrite loop_S; unfold shortname_step at 1; (destruct (Z.leb_spec 8 (Z.of_nat i)); [lia|]); rewrite (cstr_rd _ _ _ Hc); cbn [mbind res_bind];
    (destruct w as [|c w]; cbn [hd] in *; [apply short_no, short_nil|]); rewrite (proj2 (tr_true c)) by (by apply (cstr_nz _ _ _ _ Hc)); cbn [negb]; pose proof (cstr_tl _ _ _ _ Hc) as Ht; apply Forall_cons in Hw as [Hcb Hw]; (destruct (Z.eqb_spec c 126) as [|_]; [done|]).
  - destruct (Z.leb_spec 6 (Z.of_nat i)); [|lia]. apply short_no. rewrite short_other by done. lia.
  - destruct (Z.leb_spec 6 (Z.of_nat i)); [lia|]. rewrite byte_bit7 by done. destruct (lookup_lt_is_Some_2 prefix i) as [x Hx]; [lia|]. destruct (Forall_lookup_1 _ _ _ _ Hpl Hx) as (_ & Hx2 & _).
    destruct (Z.leb_spec 128 c) as [Hbig|Hsm].
    + apply short_no. rewrite short_other by done. intros (_ & E & _). rewrite E in Hx. injection Hx as <-. rewrite tolower_spec in Hx2 by done. unfold ascii_upper, between in Hx2. destruct (_ && _) eqn:Ea in Hx2; lia.
    + rewrite (rd_Some prefix (Z.of_nat i) x) by (lia || by rewrite Nat2Z.id). cbn [mbind res_bind]. destruct (Z.eqb_spec (tolower c) x) as [Ex|Ex]; cbn [negb].
      * replace (Z.of_nat i + 1) with (Z.of_nat (S i)) by lia. destruct (IH fuel (S i) w) as (r & -> & Hr); [lia|by replace (name + Z.of_nat (S i)) with (name + Z.of_nat i + 1) by lia|lia|]. exists r. split; [done|]. rewrite short_other by done. rewrite Hx, Ex.
        destruct Hr as [[-> Hr]|[-> Hr]]; [left|right]; (split; [done|]); [split_and!; [lia|done|done]|by intros (_ & _ & ?)].
      * apply short_no. rewrite short_other by done. intros (_ & E & _). rewrite E in Hx. by injection Hx.
Qed.
End Short.

(** *** The whole test *)

Definition ntfs_name (needle prefix u : list Z) : Prop := exists core rest, u = core ++ rest /\ ntfs_core needle prefix core /\ ntfs_tail [58] rest.

Record needle_ok (needle prefix : list Z) : Prop := {
  no_needle : Forall (fun c => c <> 0 /\ tolower c = c) needle;
  no_long : (6 <= length needle)%nat;
  no_heads : hd 0 needle <> 46 /\ hd 0 prefix <> 46;
  no_prefix : Forall (fun c => c <> 126 /\ 0 < c < 128 /\ tolower c = c) prefix;
  no_six : length prefix = 6%nat;
}.

Context (needle prefix : list Z) (Hok : needle_ok needle prefix).

(** A name that starts with a dot can only have the first form. *)
Lemma core_dot core : hd 0 core = 46 -> ntfs_core needle prefix core <-> tolower <$> core = 46 :: needle.
Proof using Hok.
  intros Hh. split; [|by left]. destruct core as [|c core]; [done|]. cbn in Hh. subst c. destruct (no_heads _ _ Hok) as [H1 H2]. intros [H|[(d & H & _)|(k & d & ds & _ & H & _)]]; [done|exfalso..].
  - pose proof (no_long _ _ Hok). destruct needle as [|x n]; [cbn in *; lia|]. cbn in H. injection H as H _. by apply H1.
  - destruct prefix as [|x n]; [by destruct k|]. destruct k; cbn in H; [done|]. injection H as H _. by apply H2.
Qed.

Lemma core_nodot core : hd 0 core <> 46 -> is_bytes core -> ~ tolower <$> core = 46 :: needle.
Proof using Type. intros Hh Hb' H. destruct core as [|c core]; [done|]. cbn in H, Hh. injection H as H _. apply Forall_cons in Hb' as [Hc _]. rewrite tolower_spec in H by done. unfold ascii_upper, between in H. destruct (_ && _) eqn:E in H; lia. Qed.

(** When a form of the name has been found, what is behind it decides. *)
Lemma form_found name core rest i : cstr mem name (core ++ rest) -> i = len core -> ntfs_core needle prefix core ->
  (forall core' rest', core ++ rest = core' ++ rest' -> ntfs_core needle prefix core' -> core' = core) ->
  exists b, only_spaces_and_periods mem name i = Ok b /\ (b = true <-> ntfs_name needle prefix (core ++ rest)).
Proof using All.
  intros Hc -> Hcore Hu. destruct (only_spaces_ok name (len core) rest (cstr_app _ _ _ _ Hc)) as (b & -> & H). exists b. split; [done|]. rewrite H. split; [intros Ht; by exists core, rest|].
  intros (core' & rest' & E & Hc' & Ht). pose proof (Hu _ _ E Hc'). subst core'. by apply app_inv_head in E as ->.
Qed.

Lemma core_eight core : hd 0 core <> 46 -> is_bytes core -> ntfs_core needle prefix core -> length core = 8%nat.
Proof using Hok.
  intros Hh Hb' [H|[(d & H & _)|(k & d & ds & _ & _ & _ & _ & H)]]; [by destruct (core_nodot core Hh Hb')| |done].
  apply (f_equal length) in H. rewrite length_fmap, length_app, length_take in H. cbn [length] in H. pose proof (no_long _ _ Hok). lia.
Qed.

Lemma core_ne core : ntfs_core needle prefix core -> core <> [].
Proof using Type. intros [H|[(d & H & _)|(k & d & ds & _ & H & _)]] ->; cbn in H; [done|by destruct (take 6 needle)|by destruct (take k prefix)]. Qed.

(** Another form of the same string is the same. *)
Lemma core_unique u core rest core' rest' : is_bytes u -> u = core ++ rest -> u = core' ++ rest' -> ntfs_core needle prefix core -> ntfs_core needle prefix core' -> core' = core.
Proof using Hok.
  intros Hu E E' H H'. pose proof (core_ne _ H) as Hn. pose proof (core_ne _ H') as Hn'. assert (hd 0 core' = hd 0 core) as Hhd. { destruct core, core'; try done. cbn in *. by simplify_eq. }
  assert (is_bytes core) as B by (rewrite E in Hu; by apply Forall_app in Hu as []). assert (is_bytes core') as B' by (rewrite E' in Hu; by apply Forall_app in Hu as []).
  assert (length core' = length core) as Hl.
  { destruct (decide (hd 0 core = 46)) as [Hd|Hd]; [|rewrite (core_eight core), (core_eight core') by (done || by rewrite Hhd); done].
    apply core_dot in H; [|done]. apply core_dot in H'; [|by rewrite Hhd]. apply (f_equal length) in H, H'. rewrite length_fmap in H, H'. congruence. }
  rewrite E' in E. by apply app_inj_1 in E as [-> _].
Qed.

(** The test for a short name of six letters. *)
Lemma six_ok name u : cstr mem name u ->
  exists b, (six ← strncaseeq mem name needle 6; if (six : bool) then c ← rd mem (name + 6); if c =? 126 then c ← rd mem (name + 7); Ok ((49 <=? c) && (c <=? 52)) else Ok false else Ok false) = Ok b /\
    (b = true <-> exists core rest d, u = core ++ rest /\ tolower <$> core = take 6 needle ++ [126; d] /\ 49 <= d <= 52).
Proof using All.
  intros Hc. pose proof (cstr_is_bytes _ _ Hc) as Hu. pose proof (no_long _ _ Hok) as Hlong. rewrite (strncaseeq_ok 6 name u needle Hc (no_needle _ _ Hok) Hlong). cbn [mbind res_bind]. case_bool_decide as H6.
  2:{ exists false. split; [done|]. split; [done|]. intros (core & rest & d & -> & E & _). destruct H6. apply (f_equal (take 6)) in E. rewrite <- fmap_take, take_app_le in E by (rewrite length_take; lia). rewrite take_take in E. cbn [Nat.min] in E. rewrite <- E. rewrite take_app_le; [done|]. apply (f_equal length) in E. rewrite length_fmap, !length_take in E. lia. }
  assert (exists a r, u = a ++ r /\ tolower <$> a = take 6 needle /\ length a = 6%nat) as (a & r & -> & Ha & La).
  { exists (take 6 u), (drop 6 u). split_and!; [by rewrite take_drop|done|]. apply (f_equal length) in H6. rewrite length_fmap, !length_take in H6. rewrite length_take. lia. }
  assert (forall core rest d, a ++ r = core ++ rest -> tolower <$> core = take 6 needle ++ [126; d] -> exists x y, core = a ++ [x; y] /\ r = x :: y :: rest /\ tolower x = 126 /\ tolower y = d) as Hsplit.
  { intros core rest d E Ec. assert (length core = 8%nat) as Lc. { apply (f_equal length) in Ec. rewrite length_fmap, length_app, length_take in Ec. cbn [length] in Ec. lia. }
    rewrite <- (take_drop 6 core) in E, Ec |- *. rewrite <- app_assoc in E. apply app_inj_1 in E as [-> ->]; [|rewrite length_take; lia]. rewrite fmap_app in Ec. apply app_inj_1 in Ec as [_ Ec]; [|rewrite length_fmap, !length_take; lia].
    destruct (drop 6 core) as [|x [|y [|z l]]]; try done. cbn in Ec. injection Ec as Ex Ey. by exists x, y. }
  pose proof (cstr_app _ _ _ _ Hc) as Hr. replace (len a) with 6 in Hr by llia. rewrite (cstr_rd _ _ _ Hr). cbn [mbind res_bind]. apply Forall_app in Hu as [_ Hu]. destruct (Z.eqb_spec (hd 0 r) 126) as [Ex|Ex].
  2:{ exists false. split; [done|]. split; [done|]. intros (core & rest & d & E & Ec & _). destruct (Hsplit _ _ _ E Ec) as (x & y & _ & -> & Hx & _). apply Forall_cons in Hu as [Hxb _]. apply (lower_tilde x Hxb) in Hx. by cbn in Ex. }
  destruct r as [|x r]; [done|]. cbn in Ex. subst x. pose proof (cstr_tl _ _ _ _ Hr) as Hr7. rewrite <- Z.add_assoc in Hr7. change (6 + 1) with 7 in Hr7. rewrite (cstr_rd _ _ _ Hr7). cbn [mbind res_bind]. eexists. split; [done|]. split.
  - intros Hd. destruct r as [|y r]; [done|]. cbn [hd] in Hd. exists (a ++ [126; y]), r, y. split_and!; [by rewrite <- app_assoc| |lia|lia]. rewrite fmap_app, Ha. cbn. apply Forall_cons in Hu as [_ Hu]. apply Forall_cons in Hu as [Hy _]. by rewrite (proj2 (lower_digit y y Hy ltac:(lia)) eq_refl).
  - intros (core & rest & d & E & Ec & Hd). destruct (Hsplit _ _ _ E Ec) as (x & y & _ & [= <- ->] & _ & Hy). cbn [hd]. apply Forall_cons in Hu as [_ Hu]. apply Forall_cons in Hu as [Hyb _]. apply (lower_digit y d Hyb ltac:(lia)) in Hy. lia.
Qed.

Lemma is_ntfs_ok name u : cstr mem name u -> exists b, is_ntfs_dot_generic mem name needle (len needle) prefix = Ok b /\ (b = true <-> ntfs_name needle prefix u).
Proof using All.
  intros Hc. pose proof (cstr_is_bytes _ _ Hc) as Hu. unfold is_ntfs_dot_generic. rewrite (cstr_rd _ _ _ Hc). cbn [mbind res_bind]. replace (Z.to_nat (len needle)) with (length needle) by llia.
  assert (exists full, (if hd 0 u =? 46 then strncaseeq mem (name + 1) needle (length needle) else Ok false) = Ok full /\ (full = true <-> exists core rest, u = core ++ rest /\ tolower <$> core = 46 :: needle)) as (full & -> & Hfull).
  { destruct (Z.eqb_spec (hd 0 u) 46) as [Eh|Eh].
    - destruct u as [|c u]; [done|]. cbn in Eh. subst c. rewrite (strncaseeq_ok (length needle) (name + 1) u needle (cstr_tl _ _ _ _ Hc) (no_needle _ _ Hok)) by lia. eexists. split; [done|]. rewrite bool_decide_eq_true, firstn_all. split.
      + intros E. exists (46 :: take (length needle) u), (drop (length needle) u). split; [cbn; by rewrite take_drop|]. cbn. by rewrite E.
      + intros ([|c core] & rest & E & Ec); [done|]. cbn in E, Ec. injection E as <- ->. injection Ec as Ec. rewrite take_app_le; [|by rewrite <- Ec, length_fmap]. rewrite take_ge; [done|]. by rewrite <- Ec, length_fmap.
    - exists false. split; [done|]. split; [done|]. intros (core & rest & -> & Ec). apply Forall_app in Hu as [Hu _]. destruct (core_nodot core); [|done|done]. by destruct core. }
  cbn [mbind res_bind]. destruct full.
  { destruct (proj1 Hfull eq_refl) as (core & rest & -> & Ec). apply form_found; [done| |by left|].
    - apply (f_equal length) in Ec. rewrite length_fmap in Ec. cbn in Ec. llia.
    - intros core' rest' E Hc'. apply (core_unique (core ++ rest) core rest core' rest'); try done. by left. }
  destruct (six_ok name u Hc) as (short & Es & Hshort). rewrite <- res_bind_assoc. setoid_rewrite Es. cbn [mbind res_bind]. destruct short.
  { destruct (proj1 Hshort eq_refl) as (core & rest & d & -> & Ec & Hd). assert (ntfs_core needle prefix core) as Hcore by (right; left; by exists d). apply form_found; [done| |done|].
    - apply (f_equal length) in Ec. rewrite length_fmap, length_app, length_take in Ec. cbn [length] in Ec. pose proof (no_long _ _ Hok). llia.
    - intros core' rest' E Hc'. by apply (core_unique (core ++ rest) core rest core' rest'). }
  assert (forall core rest, u = core ++ rest -> ntfs_core needle prefix core -> ntfs_fallback prefix core) as Hfb.
  { intros core rest E [Ec|[(d & Ec & Hd)|H]]; [|exfalso|done]; [by specialize (proj2 Hfull ltac:(by exists core, rest))|by specialize (proj2 Hshort ltac:(by exists core, rest, d))]. }
  destruct (shortname_ok name prefix (no_six _ _ Hok) (no_prefix _ _ Hok) 6 9 0 u) as (r & Er & Hr); [lia|by rewrite Z.add_0_r|lia|]. change (Z.of_nat 0) with 0 in Er. rewrite Er. cbn [mbind res_bind]. destruct Hr as [[-> (k & d & ds & core & rest & -> & Hk & Ec & Hd & Hds & Hl)]|[-> Hn]].
  - assert (ntfs_core needle prefix core) as Hcore. { right. right. exists k, d, ds. split_and!; [lia|done|lia|lia|done|done]. } apply form_found; [done|llia|done|]. intros core' rest' E Hc'. by apply (core_unique (core ++ rest) core rest core' rest').
  - exists false. split; [done|]. split; [done|]. intros (core & rest & E & Hcore & _). destruct (Hfb core rest E Hcore) as (k & d & ds & Hk & Ec & Hd & Hds & Hl). destruct Hn. exists k, d, ds, core, rest. split_and!; [done|lia|done|lia|lia|done|done].
Qed.
End Ntfs.

(** The names and prefixes of the code. *)
Lemma needles_ok : needle_ok str_gitmodules short_gitmodules /\ needle_ok str_gitignore short_gitignore /\ needle_ok str_gitattributes short_gitattributes /\ needle_ok str_mailmap short_mailmap.
Proof. split_and!; (constructor; [by apply (bool_decide_eq_true_1 _)|cbn; lia|done|by apply (bool_decide_eq_true_1 _)|done]). Qed.

(** C32: names that NTFS takes for [.git] and the other special files.  For every C string the five tests end inside of the
    string.  [is_ntfs_dotgit] accepts exactly [.git] and [git~1] in any case, followed by spaces and dots and then the end, a
    slash, a backslash or a colon.  The others accept exactly the name with its dot, its first six letters with [~1] to
    [~4], or the eight characters of a fall-back short name (a start of the hashed prefix, a tilde and a number that does not start with 0), in any case,
    followed by spaces and dots and then the end or a colon. *)
Theorem ntfs_names_exact mem name u : is_bytes mem -> cstr mem name u ->
  (exists b, is_ntfs_dotgit mem name = Ok b /\ (b = true <-> ntfs_git u)) /\
  Forall (fun '(f, needle, prefix) => exists b, f mem name = Ok b /\ (b = true <-> ntfs_name needle prefix u))
    [(is_ntfs_dotgitmodules, str_gitmodules, short_gitmodules); (is_ntfs_dotgitignore, str_gitignore, short_gitignore);
     (is_ntfs_dotgitattributes, str_gitattributes, short_gitattributes); (is_ntfs_dotmailmap, str_mailmap, short_mailmap)].
Proof.
  intros Hb Hc. split; [by apply is_ntfs_dotgit_ok|]. destruct needles_ok as (H1 & H2 & H3 & H4). repeat (apply Forall_cons; split; [by apply (is_ntfs_ok mem Hb)|]). constructor.
Qed.

(** "GI7EBA~1 .:x" *)
Definition ex_ntfs : list Z := [71; 73; 55; 69; 66; 65; 126; 49; 32; 46; 58; 120; 0].

Lemma ntfs_names_exact_witness : is_ntfs_dotgitmodules ex_ntfs 0 = Ok true /\ is_ntfs_dotgit ex_ntfs 0 = Ok false /\ ~ ntfs_git (take 12 ex_ntfs).
Proof.
  split_and!; [reflexivity|reflexivity|]. destruct (ntfs_names_exact ex_ntfs 0 (take 12 ex_ntfs)) as [(b & E & H) _]; [by apply (bool_decide_eq_true_1 _)|split_and!; [lia|repeat constructor; done|by exists []]|].
  injection E as <-. intros Hg. by apply H in Hg.
Defined.
