(* ===== verification/FsckOrder.v ===== *)
(** * The order of the entries of a tree: [verify_ordered] of [fsck.c]

    The entries of a tree are sorted by their names, with a slash behind the names of directories, and no two have the same
    name.  Because of the slash two entries with the same name need not be neighbours; [verify_ordered] keeps the file
    names that may come back on a stack.  The theorem is that comparing neighbours this way finds exactly the trees
    that are not in order or have a name twice. *)

From stdpp Require Import prelude numbers list sorting.
From S2P Require Import Prelude PatchDelta Alloc CString TreeWalk.

Definition TREE_UNORDERED : Z := -1.
Definition TREE_HAS_DUPS : Z := -2.

Definition is_less_than_slash (c : Z) : bool := (0 <? c) && (c <? 47).

(** The cells are addresses of names. *)
Record name_stack := mkNs { ns_names : list Z; ns_nr : Z; ns_alloc : Z }.

Section Code.
Context `{Memory} (mem : list Z).

Definition name_stack_push (stack : name_stack) (name : Z) : res name_stack :=
  '(x, al) ← ALLOC_GROW 0 8 u64 (ns_names stack) (u64 (ns_nr stack + 1)) (ns_alloc stack);
  x ← wr x (ns_nr stack) name;
  Ok (mkNs x (u64 (ns_nr stack + 1)) al).

Definition name_stack_pop (stack : name_stack) : res (option Z * name_stack) :=
  if tr (ns_nr stack) then
    n ← rd (ns_names stack) (ns_nr stack - 1);
    Ok (Some n, mkNs (ns_names stack) (ns_nr stack - 1) (ns_alloc stack))
  else Ok (None, stack).

Definition name_stack_clear (stack : name_stack) : name_stack := mkNs [] 0 0.

(** The loop over the candidates; [true] for the return value [TREE_HAS_DUPS]. *)
Definition candidates_step (name2 : Z) (candidates : name_stack) : res (name_stack + name_stack * bool) :=
  '(f_name, candidates) ← name_stack_pop candidates;
  match f_name with
  | None => Ok (inr (candidates, false))
  | Some f_name =>
      p ← skip_prefix mem name2 mem f_name;
      match p with
      | None => Ok (inl candidates)
      | Some p =>
          c ← rd mem p;
          if negb (tr c) then Ok (inr (candidates, true))
          else if is_less_than_slash c then candidates ← name_stack_push candidates f_name; Ok (inr (candidates, false))
          else Ok (inl candidates)
      end
  end.

Definition verify_ordered (mode1 name1 mode2 name2 : Z) (candidates : name_stack) : res (Z * name_stack) :=
  n1 ← strlen mem name1; n2 ← strlen mem name2;
  let len1 := to_int n1 in
  let len2 := to_int n2 in
  let len := if len1 <? len2 then len1 else len2 in
  x ← rd_slice mem name1 len; y ← rd_slice mem name2 len;
  let cmp := memcmp x y in
  if cmp <? 0 then Ok (0, candidates)
  else if 0 <? cmp then Ok (TREE_UNORDERED, candidates)
  else
    c1 ← rd mem (name1 + len); c2 ← rd mem (name2 + len);
    if negb (tr c1) && negb (tr c2) then Ok (TREE_HAS_DUPS, candidates)
    else
      let c1 := if negb (tr c1) && S_ISDIR mode1 then 47 else c1 in
      let c2 := if negb (tr c2) && S_ISDIR mode2 then 47 else c2 in
      '(candidates, dups) ←
        (if negb (tr c1) && is_less_than_slash c2 then candidates ← name_stack_push candidates name1; Ok (candidates, false)
         else if (c2 =? 47) && is_less_than_slash c1 then
           loop (S (S (Z.to_nat (ns_nr candidates)))) (candidates_step name2) candidates
         else Ok (candidates, false));
      if (dups : bool) then Ok (TREE_HAS_DUPS, candidates)
      else Ok (if c1 <? c2 then 0 else TREE_UNORDERED, candidates).
End Code.

(** ** The order *)

(** A name, and whether it is a directory. *)
Abbreviation dent := (list Z * bool)%type.

Definition dkey (e : dent) : list Z := if e.2 then e.1 ++ [47] else e.1.

Fixpoint key_lt (a b : list Z) : Prop :=
  match a, b with
  | _, [] => False
  | [], _ :: _ => True
  | x :: a, y :: b => x < y \/ (x = y /\ key_lt a b)
  end.

(** A name: no NUL and no slash. *)
Definition name_ok (n : list Z) : Prop := n <> [] /\ Forall (fun c => 0 < c /\ c <> 47) n.

Lemma key_lt_irrefl a : ~ key_lt a a.
Proof. induction a as [|x a IH]; cbn; [intros []|]. intros [?|[_ ?]]; [lia|done]. Qed.

Lemma key_lt_trans a : forall b c, key_lt a b -> key_lt b c -> key_lt a c.
Proof. induction a as [|x a IH]; intros [|y b] [|z c] H1 H2; cbn in *; try done. destruct H1 as [|[-> H1]], H2 as [|[-> H2]]; [left; lia..|]. right. split; [done|by eapply IH]. Qed.

#[export] Instance key_lt_transitive : Transitive key_lt.
Proof. intros a b c. apply key_lt_trans. Qed.

Lemma key_lt_app p : forall a b, key_lt (p ++ a) (p ++ b) <-> key_lt a b.
Proof. induction p as [|x p IH]; intros a b; cbn; [done|]. rewrite IH. split; [intros [?|[_ ?]]; [lia|done]|intros ?; by right]. Qed.

(** [g] goes on behind [f] with a character below the slash. *)
Definition extends (f g : list Z) : Prop := exists c y, g = f ++ c :: y /\ 0 < c < 47.

(** Between a file and a directory of the same name there are only names that go on this way. *)
Lemma between_extends n : forall e, name_ok e.1 -> key_lt n (dkey e) -> key_lt (dkey e) (n ++ [47]) -> extends n e.1.
Proof.
  intros [g d] [Hne Hg] H1 H2. unfold dkey in *. cbn [fst snd] in *. assert (forall g, Forall (fun c => 0 < c /\ c <> 47) g -> key_lt n (if d then g ++ [47] else g) -> key_lt (if d then g ++ [47] else g) (n ++ [47]) -> extends n g) as Hx; [|by apply Hx].
  clear. induction n as [|x n IH]; intros g Hg H1 H2.
  - destruct g as [|c g]; [destruct d; cbn in H1, H2; [destruct H2 as [|[_ []]]; lia|done]|]. apply Forall_cons in Hg as [Hc _]. exists c, g. split; [done|]. destruct d; cbn in H2; (destruct H2 as [|[? H2]]; [lia|lia]).
  - destruct g as [|c g]; [destruct d; cbn in H1, H2; [|done]|].
    + destruct H1 as [?|[-> H1]]; [destruct H2 as [?|[? _]]; lia|by destruct n].
    + apply Forall_cons in Hg as [Hc Hg]. assert (c = x) as -> by (destruct d; cbn in H1, H2; lia). destruct (IH g Hg) as (c & y & -> & Hcy); [destruct d; cbn in H1; destruct H1 as [|[_ H1]]; (lia || done)|destruct d; cbn in H2; destruct H2 as [|[_ H2]]; (lia || done)|]. by exists c, y.
Qed.

(** ** Comparing neighbours, on names *)

(** The loop over the stack, its top first. *)
Fixpoint pops (n2 : list Z) (st : list (list Z)) : list (list Z) * bool :=
  match st with
  | [] => ([], false)
  | f :: st =>
      if bool_decide (f `prefix_of` n2) then
        let c := hd 0 (drop (length f) n2) in
        if negb (tr c) then (st, true) else if is_less_than_slash c then (f :: st, false) else pops n2 st
      else pops n2 st
  end.

Definition vordered (st : list (list Z)) (e1 e2 : dent) : Z * list (list Z) :=
  let len := Nat.min (length e1.1) (length e2.1) in
  let cmp := memcmp (take len e1.1) (take len e2.1) in
  if cmp <? 0 then (0, st)
  else if 0 <? cmp then (TREE_UNORDERED, st)
  else
    let c1 := hd 0 (drop len e1.1) in
    let c2 := hd 0 (drop len e2.1) in
    if negb (tr c1) && negb (tr c2) then (TREE_HAS_DUPS, st)
    else
      let c1 := if negb (tr c1) && e1.2 then 47 else c1 in
      let c2 := if negb (tr c2) && e2.2 then 47 else c2 in
      let '(st, dups) := if negb (tr c1) && is_less_than_slash c2 then (e1.1 :: st, false)
                         else if (c2 =? 47) && is_less_than_slash c1 then pops e2.1 st else (st, false) in
      if (dups : bool) then (TREE_HAS_DUPS, st) else (if c1 <? c2 then 0 else TREE_UNORDERED, st).

(** How two names can be related. *)
Lemma names_cases (n1 n2 : list Z) : n1 = n2 \/ (exists c b, n2 = n1 ++ c :: b) \/ (exists c a, n1 = n2 ++ c :: a) \/ (exists p x y a b, n1 = p ++ x :: a /\ n2 = p ++ y :: b /\ x <> y).
Proof.
  revert n2. induction n1 as [|x n1 IH]; intros [|y n2]; [by left|right; left; by exists y, n2|right; right; left; by exists x, n1|].
  destruct (decide (x = y)) as [->|Hn]; [|right; right; right; by exists [], x, y, n1, n2].
  destruct (IH n2) as [->|[(c & b & ->)|[(c & a & ->)|(p & u & v & a & b & -> & -> & Hn)]]]; [by left|right; left; by exists c, b|right; right; left; by exists c, a|right; right; right; by exists (y :: p), u, v, a, b].
Qed.

Lemma memcmp_common p : forall a b, memcmp (p ++ a) (p ++ b) = memcmp a b.
Proof. induction p as [|x p IH]; intros a b; cbn; [done|]. by rewrite Z.eqb_refl. Qed.

Section Vordered.
Context (st : list (list Z)) (d1 d2 : bool).

Lemma vordered_differ p x y a b : x <> y -> vordered st (p ++ x :: a, d1) (p ++ y :: b, d2) = (if x <? y then 0 else TREE_UNORDERED, st).
Proof using Type.
  intros Hn. unfold vordered. cbn [fst snd]. rewrite !length_app. cbn [length]. replace (Nat.min (length p + S (length a)) (length p + S (length b))) with (length p + S (Nat.min (length a) (length b)))%nat by lia.
  rewrite !take_app_add, memcmp_common. cbn. destruct (Z.eqb_spec x y); [done|]. by destruct (Z.ltb_spec x y).
Qed.

Lemma vordered_same n : vordered st (n, d1) (n, d2) = (TREE_HAS_DUPS, st).
Proof using Type. unfold vordered. cbn [fst snd]. rewrite Nat.min_id, !firstn_all, drop_all. rewrite (proj2 (memcmp_0 n n eq_refl) eq_refl). done. Qed.

Lemma vordered_longer n c b : 0 < c -> c <> 47 ->
  vordered st (n, d1) (n ++ c :: b, d2) = (if d1 then (if 47 <? c then 0 else TREE_UNORDERED, st) else (0, if c <? 47 then n :: st else st)).
Proof using Type.
  intros Hc Hs. unfold vordered. cbn [fst snd]. rewrite length_app. replace (Nat.min (length n) (length n + length (c :: b))) with (length n) by lia. rewrite firstn_all, take_app_length, drop_all, drop_app_length.
  rewrite (proj2 (memcmp_0 n n eq_refl) eq_refl). cbn [hd Z.ltb]. change (0 <? 0) with false. cbv iota. change (tr 0) with false. rewrite (proj2 (tr_true c)) by lia. cbn [negb andb]. unfold is_less_than_slash. destruct d1; change (tr 0) with false; change (tr 47) with true; cbn [negb andb].
  - destruct (Z.eqb_spec c 47); [done|]. cbn [andb]. done.
  - destruct (Z.ltb_spec 0 c); [|lia]. cbn [andb]. destruct (Z.ltb_spec c 47); [done|]. destruct (Z.eqb_spec c 47); done.
Qed.

Lemma vordered_shorter n c a : 0 < c -> c <> 47 ->
  vordered st (n ++ c :: a, d1) (n, d2) = if d2 && (c <? 47) then let '(st, dups) := pops n st in (if (dups : bool) then TREE_HAS_DUPS else 0, st) else (TREE_UNORDERED, st).
Proof using Type.
  intros Hc Hs. unfold vordered. cbn [fst snd]. rewrite length_app. replace (Nat.min (length n + length (c :: a)) (length n)) with (length n) by lia. rewrite firstn_all, take_app_length, drop_all, drop_app_length.
  rewrite (proj2 (memcmp_0 n n eq_refl) eq_refl). cbn [hd]. change (0 <? 0) with false. cbv iota. change (tr 0) with false. rewrite (proj2 (tr_true c)) by lia. cbn [negb andb]. unfold is_less_than_slash. destruct (Z.ltb_spec 0 c); [|lia]. destruct d2; cbn [negb andb].
  - rewrite (proj2 (tr_true c)) by lia. cbn [negb andb]. change (47 =? 47) with true. cbn [andb]. destruct (Z.ltb_spec c 47); [|done]. destruct (pops n st) as [st' []]; [done|]. done.
  - rewrite (proj2 (tr_true c)) by lia. change (0 =? 47) with false. cbn [negb andb]. destruct (Z.ltb_spec c 0); [lia|done].
Qed.
End Vordered.

(** ** The stack finds the names that come back *)

Lemma pops_sub n st : forall st' d, pops n st = (st', d) -> st' ⊆ st.
Proof.
  induction st as [|f st IH]; intros st' d E; cbn in E; [by injection E as <- _|]. case_bool_decide; [|apply IH in E; set_solver].
  destruct (negb _); [injection E as <- _; set_solver|]. destruct (is_less_than_slash _); [injection E as <- _; set_solver|]. apply IH in E. set_solver.
Qed.

Lemma pops_dup n st : forall st', pops n st = (st', true) -> Forall (fun c => c <> 0) n -> n ∈ st.
Proof.
  induction st as [|f st IH]; intros st' E Hn; cbn in E; [done|]. case_bool_decide as Hp; [|apply list_elem_of_further; by eapply IH]. destruct Hp as [k ->]. rewrite drop_app_length in E.
  destruct k as [|c k]; [rewrite app_nil_r; apply list_elem_of_here|]. apply Forall_app in Hn as [Hn1 Hn2]. apply Forall_cons in Hn2 as [Hc Hn2]. cbn [hd] in E. rewrite (proj2 (tr_true c)) in E by done. cbn [negb] in E.
  destruct (is_less_than_slash c); [done|]. apply list_elem_of_further. eapply IH; [done|]. apply Forall_app. split; [done|by constructor].
Qed.

(** Names that go on behind [n] are dropped, and [n] is found. *)
Lemma pops_find n above below : Forall (extends n) above -> (pops n (above ++ n :: below)).2 = true.
Proof.
  induction 1 as [|f above (c & y & -> & Hc) Ha IH]; cbn.
  - rewrite bool_decide_eq_true_2 by done. by rewrite drop_all.
  - rewrite bool_decide_eq_false_2; [done|]. intros Hp%prefix_length. rewrite length_app in Hp. cbn in Hp. lia.
Qed.

(** A name that [n] goes on from stays. *)
Lemma pops_keep f n above below st' : extends f n -> Forall (extends f) above -> pops n (above ++ f :: below) = (st', false) ->
  exists above', st' = above' ++ f :: below /\ Forall (extends f) above'.
Proof.
  intros Hf. revert st'. induction above as [|g above IH]; intros st' Ha E; cbn in E.
  - destruct Hf as (c & y & -> & Hc). rewrite bool_decide_eq_true_2 in E by (by eexists). rewrite drop_app_length in E. cbn [hd] in E. rewrite (proj2 (tr_true c)) in E by lia. unfold is_less_than_slash in E. replace ((0 <? c) && (c <? 47)) with true in E by lia.
    injection E as <-. by exists [].
  - apply Forall_cons in Ha as [Hg Ha]. case_bool_decide; [|by apply IH]. destruct (negb _); [done|]. destruct (is_less_than_slash _); [injection E as <-; exists (g :: above); split; [done|by constructor]|by apply IH].
Qed.

(** [past] is the entries so far, the last one first, in order. *)
Record inv (past : list dent) (st : list (list Z)) : Prop := {
  inv_names : Forall (fun e => name_ok e.1) past;
  inv_sorted : StronglySorted (fun a b => key_lt (dkey b) (dkey a)) past;
  inv_stack : st ⊆ past.*1;
  inv_live : forall later f earlier, past = later ++ (f, false) :: earlier -> later <> [] -> Forall (fun e => extends f e.1) later ->
    exists above below, st = above ++ f :: below /\ Forall (extends f) above;
}.

Section Step.
Context (p : dent) (past : list dent) (st : list (list Z)) (e : dent) (Hinv : inv (p :: past) st) (He : name_ok e.1).

Lemma name_pos n c l : name_ok (n ++ c :: l) -> 0 < c /\ c <> 47.
Proof using Type. intros [_ Hn]. apply Forall_app in Hn as [_ Hn]. by apply Forall_inv in Hn. Qed.

Lemma prev_ok : name_ok p.1.
Proof using Hinv. exact (Forall_inv (inv_names _ _ Hinv)). Qed.

(** What the comparison says of the keys. *)
Lemma step_order : ((vordered st p e).1 = 0 -> key_lt (dkey p) (dkey e)) /\ ((vordered st p e).1 = TREE_UNORDERED -> ~ key_lt (dkey p) (dkey e)).
Proof using Hinv He.
  pose proof prev_ok as Hp. clear Hinv. destruct p as [n1 d1], e as [n2 d2]. cbn [fst] in *. unfold dkey. cbn [fst snd].
  destruct (names_cases n1 n2) as [->|[(c & b & ->)|[(c & a & ->)|(q & x & y & a & b & -> & -> & Hn)]]].
  - rewrite vordered_same. done.
  - apply name_pos in He as [Hc Hs]. rewrite vordered_longer by done. destruct d1.
    + assert (key_lt (n1 ++ [47]) (if d2 then (n1 ++ c :: b) ++ [47] else n1 ++ c :: b) <-> 47 < c) as ->; [|destruct (Z.ltb_spec 47 c); unfold TREE_UNORDERED; split; cbn; lia].
      destruct d2; rewrite <- ?app_assoc, key_lt_app; cbn; (split; [intros [?|[? _]]; lia|by left]).
    + split; [|done]. intros _. rewrite <- (app_nil_r n1) at 1. destruct d2; rewrite <- ?app_assoc, key_lt_app; done.
  - apply name_pos in Hp as [Hc Hs]. rewrite vordered_shorter by done.
    assert (key_lt (if d1 then (n2 ++ c :: a) ++ [47] else n2 ++ c :: a) (if d2 then n2 ++ [47] else n2) <-> d2 = true /\ c < 47) as ->.
    { destruct d2; [|rewrite <- (app_nil_r n2) at 3]; destruct d1; rewrite <- ?app_assoc, key_lt_app; cbn; (split; [intros H; (done || (destruct H as [?|[? _]]; [done|lia]))|intros [? ?]; (done || by left)]). }
    destruct d2; cbn [andb]; [|split; [done|intros _ []; done]]. destruct (Z.ltb_spec c 47); [|split; [done|intros _ []; lia]]. destruct (pops n2 st) as [st' []]; done.
  - rewrite vordered_differ by done. destruct d1, d2; rewrite <- ?app_assoc, key_lt_app; cbn; (destruct (Z.ltb_spec x y); [split; [by left|done]|split; [done|intros _ [?|[? _]]; lia]]).
Qed.

Lemma step_dups : (vordered st p e).1 = TREE_HAS_DUPS -> e.1 ∈ (p :: past).*1.
Proof using Hinv He.
  pose proof prev_ok as Hp. pose proof (inv_stack _ _ Hinv) as Hst. clear Hinv. destruct p as [n1 d1], e as [n2 d2]. cbn [fst] in *.
  destruct (names_cases n1 n2) as [->|[(c & b & ->)|[(c & a & ->)|(q & x & y & a & b & -> & -> & Hn)]]].
  - intros _. apply list_elem_of_here.
  - apply name_pos in He as [Hc Hs]. rewrite vordered_longer by done. destruct d1; [|done]. by destruct (47 <? c).
  - apply name_pos in Hp as [Hc Hs]. rewrite vordered_shorter by done. destruct (d2 && (c <? 47)); [|done]. destruct (pops n2 st) as [st' []] eqn:E; [|done]. intros _. apply Hst, (pops_dup _ _ _ E). destruct He as [_ He]. eapply Forall_impl; [exact He|]. cbn. lia.
  - rewrite vordered_differ by done. by destruct (x <? y).
Qed.

(** All keys so far are below the new one. *)
Lemma past_below : (vordered st p e).1 = 0 -> Forall (fun x => key_lt (dkey x) (dkey e)) (p :: past).
Proof using Hinv He.
  intros Hv. pose proof (proj1 step_order Hv) as Hlt. constructor; [done|]. pose proof (inv_sorted _ _ Hinv) as Hs. apply StronglySorted_inv in Hs as [_ Hs]. eapply Forall_impl; [exact Hs|]. cbn. intros x Hx. by eapply key_lt_trans.
Qed.

(** A name that was there before is found. *)
Lemma step_new : (vordered st p e).1 = 0 -> e.1 ∉ (p :: past).*1.
Proof using Hinv He.
  intros Hv Hin. pose proof (past_below Hv) as Hb. apply list_elem_of_fmap in Hin as ([n d] & En & Hg). cbn in En. pose proof (proj1 (Forall_forall _ _) Hb _ Hg) as Hlt.
  destruct e as [n2 d2]. cbn in En. subst n2. assert (d = false /\ d2 = true) as [-> ->].
  { unfold dkey in Hlt. cbn in Hlt. destruct d, d2; try done; [by apply key_lt_irrefl in Hlt|exfalso|by apply key_lt_irrefl in Hlt]. rewrite <- (app_nil_r n) in Hlt at 2. by apply key_lt_app in Hlt. }
  apply list_elem_of_split in Hg as (later & earlier & Ep). destruct later as [|q later].
  { injection Ep as Ep _. rewrite Ep, vordered_same in Hv. done. }
  injection Ep as <- Ep. assert (Forall (fun x => extends n x.1) (p :: later)) as Hext.
  { apply Forall_forall. intros x Hx. assert (x ∈ p :: past) as Hx' by (rewrite Ep; set_solver). apply between_extends.
    - exact (proj1 (Forall_forall _ _) (inv_names _ _ Hinv) _ Hx').
    - pose proof (inv_sorted _ _ Hinv) as Hs. rewrite Ep in Hs. change (p :: later ++ (n, false) :: earlier) with ((p :: later) ++ (n, false) :: earlier) in Hs. exact (StronglySorted_app_1_elem_of _ _ _ _ _ Hs Hx ltac:(apply list_elem_of_here)).
    - exact (proj1 (Forall_forall _ _) Hb _ Hx'). }
  destruct (inv_live _ _ Hinv (p :: later) n earlier) as (above & below & Est & Ha); [by rewrite Ep|done|done|]. apply Forall_inv in Hext as (c & y & Epn & Hc). destruct p as [n1 d1]. cbn in Epn. subst n1.
  rewrite vordered_shorter in Hv by lia. replace (true && (c <? 47)) with true in Hv by lia. rewrite Est in Hv. pose proof (pops_find n above below Ha) as Hf. destruct (pops n (above ++ n :: below)) as [st' d]. cbn in Hf. subst d. done.
Qed.

(** What is on the stack afterwards. *)
Lemma step_stack : (vordered st p e).1 = 0 ->
  ((vordered st p e).2 = st /\ ~ (extends p.1 e.1 /\ p.2 = false)) \/
  ((vordered st p e).2 = p.1 :: st /\ p.2 = false) \/
  ((vordered st p e).2 = (pops e.1 st).1 /\ (pops e.1 st).2 = false /\ ~ extends p.1 e.1).
Proof using Hinv He.
  pose proof prev_ok as Hp. clear Hinv. destruct p as [n1 d1], e as [n2 d2]. cbn [fst snd] in *.
  assert (forall n c l, ~ extends (n ++ c :: l) n) as Hnx by (intros n c l (c' & y & E & _); apply (f_equal length) in E; rewrite !length_app in E; cbn in E; lia).
  destruct (names_cases n1 n2) as [->|[(c & b & ->)|[(c & a & ->)|(q & x & y & a & b & -> & -> & Hn)]]].
  - by rewrite vordered_same.
  - apply name_pos in He as [Hc Hs]. rewrite vordered_longer by done. destruct d1; [intros _; left; split; [done|intros [_ ?]; done]|]. intros _. cbn. destruct (Z.ltb_spec c 47); [by right; left|left]. split; [done|]. intros [(c' & y & E & ?) _]. apply app_inv_head in E. injection E as -> _. lia.
  - apply name_pos in Hp as [Hc Hs]. rewrite vordered_shorter by done. destruct (d2 && (c <? 47)); [|done]. destruct (pops n2 st) as [st' []] eqn:E; [done|]. intros _. right. right. split_and!; [done|done|apply Hnx].
  - rewrite vordered_differ by done. intros _. left. split; [done|]. intros [(c & z & E & _) _]. rewrite <- app_assoc in E. apply app_inv_head in E. cbn in E. by injection E.
Qed.

Lemma step_inv : (vordered st p e).1 = 0 -> inv (e :: p :: past) (vordered st p e).2.
Proof using Hinv He.
  intros Hv. pose proof (past_below Hv) as Hb. pose proof (step_stack Hv) as Hst. constructor.
  - constructor; [done|apply (inv_names _ _ Hinv)].
  - constructor; [apply (inv_sorted _ _ Hinv)|exact Hb].
  - pose proof (inv_stack _ _ Hinv) as Hs. destruct Hst as [[-> _]|[[-> _]|(-> & _ & _)]]; [set_solver|set_solver|]. destruct (pops e.1 st) as [st' d] eqn:E. apply pops_sub in E. set_solver.
  - intros later f earlier E Hl Hf. destruct later as [|x later]; [done|]. injection E as <- E. apply Forall_cons in Hf as [He' Hf]. destruct later as [|q later].
    + injection E as -> ->. cbn [fst snd] in *. destruct Hst as [[_ Hno]|[[-> _]|(_ & _ & Hno)]]; [by destruct Hno|by exists [], st|done].
    + injection E as <- E. destruct (inv_live _ _ Hinv (p :: later) f earlier) as (above & below & Es & Ha); [by rewrite E|done|done|]. destruct Hst as [[-> _]|[[-> _]|(-> & Hd & _)]].
      * by exists above, below.
      * exists (p.1 :: above), below. rewrite Es. split; [done|]. constructor; [exact (Forall_inv Hf)|done].
      * destruct (pops e.1 st) as [st' d] eqn:Ep. cbn in Hd. subst d. rewrite Es in Ep. destruct (pops_keep f e.1 above below st' He' Ha Ep) as (above' & -> & Ha'). by exists above', below.
Qed.
End Step.

(** *** The whole sequence *)

Lemma vordered_range st p e : (vordered st p e).1 = 0 \/ (vordered st p e).1 = TREE_UNORDERED \/ (vordered st p e).1 = TREE_HAS_DUPS.
Proof. unfold vordered. repeat (case_match; try (by left + (by right; left) + (by right; right))); cbn; auto. Qed.

Fixpoint run_ordered (st : list (list Z)) (p : dent) (es : list dent) : list Z :=
  match es with [] => [] | e :: es => let '(v, st) := vordered st p e in v :: run_ordered st e es end.

Lemma run_exact es : forall p past st, inv (p :: past) st -> Forall (fun e => name_ok e.1) es ->
  Forall (fun v => v = 0) (run_ordered st p es) <-> StronglySorted (fun a b => key_lt (dkey b) (dkey a)) (reverse es ++ p :: past) /\ Forall (fun e => e.1 ∉ (p :: past).*1) es /\ NoDup (es.*1).
Proof.
  induction es as [|e es IH]; intros p past st Hinv Hes; cbn [run_ordered].
  - split; [|constructor]. intros _. split_and!; [apply (inv_sorted _ _ Hinv)|constructor|constructor].
  - apply Forall_cons in Hes as [He Hes]. pose proof (step_order p past st e Hinv He) as [Ho Hu]. pose proof (step_dups p past st e Hinv He) as Hd. pose proof (step_new p past st e Hinv He) as Hnew. pose proof (step_inv p past st e Hinv He) as Hinv'.
    pose proof (vordered_range st p e) as Hv.
    destruct (vordered st p e) as [v st'] eqn:E. cbn [fst snd] in *. rewrite reverse_cons, <- app_assoc. cbn [app]. rewrite (fmap_cons fst e es), NoDup_cons, !Forall_cons. split.
    + intros [-> Hr]. apply (IH e (p :: past) st' (Hinv' eq_refl) Hes) in Hr as (Hs & Hn & Hnd). split_and!; [done|by apply Hnew| | |done].
      * eapply Forall_impl; [exact Hn|]. cbn. set_solver.
      * intros (x & Ex & Hx)%list_elem_of_fmap. rewrite Forall_forall in Hn. apply (Hn x Hx). rewrite <- Ex. apply list_elem_of_here.
    + intros (Hs & (Hn1 & Hn) & Hn2 & Hnd). assert (v = 0) as ->.
      { destruct Hv as [|[->| ->]]; [done|destruct (Hu eq_refl)|by destruct Hn1; apply Hd]. apply StronglySorted_app_1_r, StronglySorted_inv in Hs as [_ Hs]. by apply Forall_inv in Hs. }
      split; [done|]. apply (IH e (p :: past) st' (Hinv' eq_refl) Hes). split_and!; [done| |done]. apply Forall_forall. intros x Hx. rewrite Forall_forall in Hn. specialize (Hn x Hx). rewrite fmap_cons, not_elem_of_cons. split; [|done]. intros Ex. apply Hn2. rewrite <- Ex. by apply list_elem_of_fmap_2.
Qed.

Lemma run_range es : forall st p, Forall (fun v => v = 0 \/ v = TREE_UNORDERED \/ v = TREE_HAS_DUPS) (run_ordered st p es).
Proof. induction es as [|e es IH]; intros st p; cbn; [constructor|]. pose proof (vordered_range st p e) as Hv. destruct (vordered st p e) as [v st']. by constructor. Qed.

Lemma run_quiet st p es : Forall (fun v => v = 0) (run_ordered st p es) <-> TREE_HAS_DUPS ∉ run_ordered st p es /\ TREE_UNORDERED ∉ run_ordered st p es.
Proof.
  pose proof (run_range es st p) as Hr. rewrite Forall_forall in Hr |- *. split; [intros H0; split; intros Hin; by specialize (H0 _ Hin)|]. intros [H1 H2] v Hv. destruct (Hr v Hv) as [|[->| ->]]; done.
Qed.

(** The order of a tree: sorted by the keys, and no name twice. *)
Definition tree_in_order (es : list dent) : Prop := StronglySorted (fun a b => key_lt (dkey a) (dkey b)) es /\ NoDup es.*1.

Lemma sorted_reverse {A} (R : A -> A -> Prop) l : StronglySorted (fun a b => R b a) (reverse l) <-> StronglySorted R l.
Proof.
  induction l as [|x l IH]; [split; constructor|]. rewrite reverse_cons, StronglySorted_app. split.
  - intros (Hx & Hl & _). constructor; [by apply IH|]. apply Forall_forall. intros y Hy. apply Hx; [by apply elem_of_reverse|apply list_elem_of_here].
  - intros [Hl Hx]%StronglySorted_inv. rewrite Forall_forall in Hx. split_and!; [|by apply IH|repeat constructor]. intros y z Hy Hz. apply list_elem_of_singleton in Hz as ->. apply Hx. rewrite elem_of_reverse in Hy. done.
Qed.

Lemma order_exact p es : Forall (fun e => name_ok e.1) (p :: es) -> Forall (fun v => v = 0) (run_ordered [] p es) <-> tree_in_order (p :: es).
Proof.
  intros Hn. apply Forall_cons in Hn as [Hp Hes]. rewrite (run_exact es p [] []); [|constructor|done].
  2: by constructor. 2: repeat constructor. 2: set_solver. 2:{ intros [|x later] f earlier E; [done|]. injection E as <- E. by destruct later. }
  unfold tree_in_order. change [p] with (reverse [p]). rewrite <- reverse_app. cbn [app]. rewrite (sorted_reverse (fun a b => key_lt (dkey a) (dkey b))), fmap_cons, NoDup_cons. cbn [fmap list_fmap].
  assert (Forall (fun e => e.1 ∉ [p.1]) es <-> p.1 ∉ es.*1) as ->; [|done]. rewrite Forall_forall. split.
  - intros H (x & Ex & Hx)%list_elem_of_fmap. apply (H x Hx). rewrite Ex. apply list_elem_of_here.
  - intros H x Hx Hin%list_elem_of_singleton. apply H. rewrite <- Hin. by apply list_elem_of_fmap_2.
Qed.

(** ** The code compares this way *)

Section Refine.
Context `{Memory} (mem : list Z) (Hlen : len mem < 2 ^ 31).

(** [fs] is the names on the stack, its top first. *)
Record stack_ok (ns : name_stack) (fs : list (list Z)) : Prop := {
  so_size : len (ns_names ns) = ns_alloc ns /\ ns_alloc ns < 2 ^ 40;
  so_nr : ns_nr ns = len fs /\ ns_nr ns <= ns_alloc ns;
  so_names : Forall2 (cstr mem) (reverse (take (length fs) (ns_names ns))) fs;
}.

Lemma stack_empty : stack_ok (mkNs [] 0 0) [].
Proof using Type. constructor; [done|done|constructor]. Qed.

Lemma stack_push_ok ns fs a f : stack_ok ns fs -> cstr mem a f -> len fs < 2 ^ 38 -> wp oom (name_stack_push ns a) (fun ns' => stack_ok ns' (f :: fs)).
Proof using Type.
  intros [[Hsz Hal] [Hnr Hle] Hf] Hc Hl. pose proof (len_nonneg fs). unfold name_stack_push. rewrite (u64_small (ns_nr ns + 1)) by lia. apply wp_bind.
  eapply wp_mono; [apply (ALLOC_GROW_spec 0 8 (ns_names ns) (ns_nr ns + 1) (ns_alloc ns)); lia|]. intros [x al] (pad & -> & Hx & Ha1 & Ha2 & Hb). rewrite wr_ok by (rewrite Hx; lia). cbn [mbind res_bind]. apply wp_ret. constructor; cbn [ns_names ns_nr ns_alloc].
  - split; [|lia]. rewrite <- Hx. unfold len. by rewrite length_insert.
  - rewrite len_cons. lia.
  - rewrite Hnr. replace (Z.to_nat (len fs)) with (length fs) by llia. cbn [length]. assert (length fs < length (ns_names ns ++ pad))%nat as Hlt by llia. rewrite (take_S_r _ _ a) by (by rewrite list_lookup_insert_eq by done).
    rewrite take_insert_ge by lia. rewrite reverse_app. cbn. constructor; [done|]. rewrite take_app_le by llia. done.
Qed.

Lemma pop_ok ns fs : stack_ok ns fs -> match fs with
  | [] => name_stack_pop ns = Ok (None, ns)
  | f :: fs => exists a ns', name_stack_pop ns = Ok (Some a, ns') /\ cstr mem a f /\ stack_ok ns' fs end.
Proof using Type.
  intros [[Hsz Hal] [Hnr Hle] Hf]. unfold name_stack_pop. destruct fs as [|f fs]; [by rewrite Hnr|]. rewrite len_cons in Hnr. pose proof (len_nonneg fs). rewrite (proj2 (tr_true (ns_nr ns))) by lia.
  assert (length fs < length (ns_names ns))%nat as Hlt by llia. destruct (lookup_lt_is_Some_2 _ _ Hlt) as [a Ha]. rewrite (rd_Some _ _ a); [|lia|replace (Z.to_nat (ns_nr ns - 1)) with (length fs) by llia; done]. cbn [mbind res_bind].
  cbn [length] in Hf. rewrite (take_S_r _ _ a Ha), reverse_app in Hf. cbn in Hf. apply Forall2_cons in Hf as [Hc Hf]. eexists _, _. split_and!; [done|done|]. constructor; cbn [ns_names ns_nr ns_alloc]; [done|lia|done].
Qed.

Lemma candidates_ok a2 n2 fs : forall fuel ns, cstr mem a2 n2 -> stack_ok ns fs -> len fs < 2 ^ 38 -> (length fs < fuel)%nat ->
  wp oom (loop fuel (candidates_step mem a2) ns) (fun '(ns', d) => d = (pops n2 fs).2 /\ stack_ok ns' (pops n2 fs).1).
Proof using Type.
  induction fs as [|f fs IH]; intros fuel ns Hc Hs Hl Hf; (destruct fuel as [|fuel]; [cbn in Hf; lia|]); rewrite loop_S; unfold candidates_step at 1; pose proof (pop_ok _ _ Hs) as Hp; cbv iota in Hp.
  - rewrite Hp. cbn. done.
  - destruct Hp as (a & ns' & -> & Ha & Hs'). cbn [mbind res_bind]. rewrite (skip_prefix_ok mem a2 n2 mem a f Hc Ha). cbn [mbind res_bind]. cbn [pops]. rewrite len_cons in Hl. cbn [length] in Hf. case_bool_decide as Hpre.
    2:{ apply IH; [done|done|lia|lia]. }
    destruct Hpre as [k ->]. rewrite drop_app_length. rewrite (cstr_rd _ _ _ (cstr_app _ _ _ _ Hc)). cbn [mbind res_bind]. destruct (tr (hd 0 k)); cbn [negb]; [|by split]. destruct (is_less_than_slash (hd 0 k)); [|apply IH; [done|done|lia|lia]].
    pose proof (stack_push_ok ns' fs a f Hs' Ha ltac:(lia)) as Hpush. destruct (name_stack_push ns' a) as [ns''|]; [|exact Hpush]. cbn [mbind res_bind]. by split.
Qed.

Lemma cstr_slice a n k : cstr mem a n -> (k <= length n)%nat -> rd_slice mem a (Z.of_nat k) = Ok (take k n) /\ rd mem (a + Z.of_nat k) = Ok (hd 0 (drop k n)).
Proof using Type.
  intros Hc Hk. split.
  - destruct Hc as (Ha & Hn & rest & Hd). pose proof (f_equal length Hd) as Hl. rewrite length_drop, length_app in Hl. cbn in Hl. rewrite rd_slice_ok by llia. unfold slice. rewrite Hd, Nat2Z.id, take_app_le by done. done.
  - rewrite <- (take_drop k n) in Hc. apply cstr_app in Hc. unfold len in Hc. rewrite length_take, Nat.min_l in Hc by done. by apply cstr_rd.
Qed.

Lemma verify_ordered_ok m1 a1 n1 m2 a2 n2 ns fs : cstr mem a1 n1 -> cstr mem a2 n2 -> stack_ok ns fs -> len fs < 2 ^ 38 ->
  wp oom (verify_ordered mem m1 a1 m2 a2 ns) (fun '(v, ns') => v = (vordered fs (n1, S_ISDIR m1) (n2, S_ISDIR m2)).1 /\ stack_ok ns' (vordered fs (n1, S_ISDIR m1) (n2, S_ISDIR m2)).2).
Proof using Hlen.
  intros H1 H2 Hs Hl. unfold verify_ordered. rewrite (strlen_ok _ _ _ H1), (strlen_ok _ _ _ H2). cbn [mbind res_bind]. pose proof (cstr_length _ _ _ H1). pose proof (cstr_length _ _ _ H2). rewrite !to_int_small by llia. cbv zeta.
  replace (if len n1 <? len n2 then len n1 else len n2) with (Z.of_nat (Nat.min (length n1) (length n2))) by (unfold len; destruct (Z.ltb_spec (Z.of_nat (length n1)) (Z.of_nat (length n2))); lia).
  destruct (cstr_slice a1 n1 (Nat.min (length n1) (length n2)) H1 ltac:(lia)) as [-> ->], (cstr_slice a2 n2 (Nat.min (length n1) (length n2)) H2 ltac:(lia)) as [-> ->]. cbn [mbind res_bind]. unfold vordered. cbn [fst snd].
  destruct (_ <? 0); [by apply wp_ret|]. destruct (0 <? memcmp _ _); [by apply wp_ret|]. set (x1 := hd 0 (drop _ n1)). set (x2 := hd 0 (drop _ n2)). destruct (_ && _); [by apply wp_ret|].
  set (c1 := if negb (tr x1) && S_ISDIR m1 then 47 else x1). set (c2 := if negb (tr x2) && S_ISDIR m2 then 47 else x2). destruct (negb (tr c1) && _).
  - pose proof (stack_push_ok ns fs a1 n1 Hs H1 Hl) as Hp. destruct (name_stack_push ns a1) as [ns'|]; [|exact Hp]. cbn [mbind res_bind]. apply wp_ret. cbn. done.
  - destruct ((c2 =? 47) && _); [|cbn [mbind res_bind]; apply wp_ret; done]. pose proof (candidates_ok a2 n2 fs (S (S (Z.to_nat (ns_nr ns)))) ns H2 Hs Hl) as Hp. destruct (so_nr _ _ Hs) as [En _].
    specialize (Hp ltac:(llia)). destruct (loop _ _ ns) as [[ns' d]|]; [|exact Hp]. cbn [mbind res_bind]. destruct Hp as [-> Hs']. destruct (pops n2 fs) as [fs' []]; apply wp_ret; done.
Qed.
End Refine.
