(* ===== verification/FsckTree.v ===== *)
(** * Checking trees: [fsck_tree] of [fsck.c]

    The messages and their severities, the sending of a report, and [fsck_tree] in full.  The theorem says which messages are reported
    for which trees: on every sequence of bytes the check ends, and it reports a problem exactly if the tree has it. *)

From stdpp Require Import prelude numbers list sorting.
From S2P Require Import Prelude PatchDelta Alloc CString Hex StableQsort StringList StringListSpec HashLookup PackIdx Strbuf Wildmatch TreeWalk Utf8 NtfsNames FsckOrder.

(** ** Messages *)

Inductive fsck_msg_type_t := FSCK_IGNORE | FSCK_INFO | FSCK_FATAL | FSCK_ERROR | FSCK_WARN.

Inductive fsck_msg_id :=
| FSCK_MSG_NUL_IN_HEADER
| FSCK_MSG_UNTERMINATED_HEADER
| FSCK_MSG_BAD_HEADER_CONTINUATION
| FSCK_MSG_BAD_DATE
| FSCK_MSG_BAD_DATE_OVERFLOW
| FSCK_MSG_BAD_EMAIL
| FSCK_MSG_BAD_GPGSIG
| FSCK_MSG_BAD_NAME
| FSCK_MSG_BAD_OBJECT_SHA1
| FSCK_MSG_BAD_PACKED_REF_ENTRY
| FSCK_MSG_BAD_PACKED_REF_HEADER
| FSCK_MSG_BAD_PARENT_SHA1
| FSCK_MSG_BAD_REFERENT_NAME
| FSCK_MSG_BAD_REF_CONTENT
| FSCK_MSG_BAD_REF_FILETYPE
| FSCK_MSG_BAD_REF_NAME
| FSCK_MSG_BAD_TIMEZONE
| FSCK_MSG_BAD_TREE
| FSCK_MSG_BAD_TREE_SHA1
| FSCK_MSG_BAD_TYPE
| FSCK_MSG_DUPLICATE_ENTRIES
| FSCK_MSG_GITATTRIBUTES_BLOB
| FSCK_MSG_GITATTRIBUTES_LARGE
| FSCK_MSG_GITATTRIBUTES_LINE_LENGTH
| FSCK_MSG_GITATTRIBUTES_MISSING
| FSCK_MSG_GITMODULES_BLOB
| FSCK_MSG_GITMODULES_LARGE
| FSCK_MSG_GITMODULES_MISSING
| FSCK_MSG_GITMODULES_NAME
| FSCK_MSG_GITMODULES_PATH
| FSCK_MSG_GITMODULES_SYMLINK
| FSCK_MSG_GITMODULES_UPDATE
| FSCK_MSG_GITMODULES_URL
| FSCK_MSG_MISSING_AUTHOR
| FSCK_MSG_MISSING_COMMITTER
| FSCK_MSG_MISSING_EMAIL
| FSCK_MSG_MISSING_NAME_BEFORE_EMAIL
| FSCK_MSG_MISSING_OBJECT
| FSCK_MSG_MISSING_SPACE_BEFORE_DATE
| FSCK_MSG_MISSING_SPACE_BEFORE_EMAIL
| FSCK_MSG_MISSING_TAG
| FSCK_MSG_MISSING_TAG_ENTRY
| FSCK_MSG_MISSING_TREE
| FSCK_MSG_MISSING_TYPE
| FSCK_MSG_MISSING_TYPE_ENTRY
| FSCK_MSG_MULTIPLE_AUTHORS
| FSCK_MSG_PACKED_REF_ENTRY_NOT_TERMINATED
| FSCK_MSG_PACKED_REF_UNSORTED
| FSCK_MSG_TREE_NOT_SORTED
| FSCK_MSG_UNKNOWN_TYPE
| FSCK_MSG_ZERO_PADDED_DATE
| FSCK_MSG_BAD_REFTABLE_TABLE_NAME
| FSCK_MSG_EMPTY_NAME
| FSCK_MSG_FULL_PATHNAME
| FSCK_MSG_HAS_DOT
| FSCK_MSG_HAS_DOTDOT
| FSCK_MSG_HAS_DOTGIT
| FSCK_MSG_LARGE_PATHNAME
| FSCK_MSG_NULL_SHA1
| FSCK_MSG_NUL_IN_COMMIT
| FSCK_MSG_ZERO_PADDED_FILEMODE
| FSCK_MSG_BAD_FILEMODE
| FSCK_MSG_BAD_TAG_NAME
| FSCK_MSG_EMPTY_PACKED_REFS_FILE
| FSCK_MSG_GITATTRIBUTES_SYMLINK
| FSCK_MSG_GITIGNORE_SYMLINK
| FSCK_MSG_GITMODULES_PARSE
| FSCK_MSG_MAILMAP_SYMLINK
| FSCK_MSG_MISSING_TAGGER_ENTRY
| FSCK_MSG_REF_MISSING_NEWLINE
| FSCK_MSG_SYMLINK_REF
| FSCK_MSG_SYMREF_TARGET_IS_NOT_A_REF
| FSCK_MSG_TRAILING_REF_CONTENT
| FSCK_MSG_EXTRA_HEADER_ENTRY.

#[export] Instance fsck_msg_type_eq_dec : EqDecision fsck_msg_type_t.
Proof. solve_decision. Defined.

#[export] Instance fsck_msg_id_eq_dec : EqDecision fsck_msg_id.
Proof. intros x y. unfold Decision. decide equality. Defined.

(** The column [msg_type] of the table. *)
Definition msg_id_info (id : fsck_msg_id) : fsck_msg_type_t :=
  match id with
  | FSCK_MSG_NUL_IN_HEADER | FSCK_MSG_UNTERMINATED_HEADER => FSCK_FATAL
  | FSCK_MSG_BAD_REFTABLE_TABLE_NAME | FSCK_MSG_EMPTY_NAME | FSCK_MSG_FULL_PATHNAME | FSCK_MSG_HAS_DOT
  | FSCK_MSG_HAS_DOTDOT | FSCK_MSG_HAS_DOTGIT | FSCK_MSG_LARGE_PATHNAME | FSCK_MSG_NULL_SHA1
  | FSCK_MSG_NUL_IN_COMMIT | FSCK_MSG_ZERO_PADDED_FILEMODE => FSCK_WARN
  | FSCK_MSG_BAD_FILEMODE | FSCK_MSG_BAD_TAG_NAME | FSCK_MSG_EMPTY_PACKED_REFS_FILE | FSCK_MSG_GITATTRIBUTES_SYMLINK
  | FSCK_MSG_GITIGNORE_SYMLINK | FSCK_MSG_GITMODULES_PARSE | FSCK_MSG_MAILMAP_SYMLINK | FSCK_MSG_MISSING_TAGGER_ENTRY
  | FSCK_MSG_REF_MISSING_NEWLINE | FSCK_MSG_SYMLINK_REF | FSCK_MSG_SYMREF_TARGET_IS_NOT_A_REF | FSCK_MSG_TRAILING_REF_CONTENT => FSCK_INFO
  | FSCK_MSG_EXTRA_HEADER_ENTRY => FSCK_IGNORE
  | _ => FSCK_ERROR
  end.

(** Sets of object names: what [fsck.c] uses of [oidset.h]. *)
Class OidSet (T : Type) := {
  oidset_contains : T -> object_id -> bool;
  oidset_insert : T -> object_id -> T;
}.

Section Report.
Context `{OidSet T}.

Record fsck_options := mkFo {
  fo_strict : bool;
  fo_msg_type : option (fsck_msg_id -> fsck_msg_type_t);
  fo_skip_oids : T;
  fo_gitmodules_found : T;
  fo_gitattributes_found : T;
}.

Definition fsck_msg_type (msg_id : fsck_msg_id) (options : fsck_options) : fsck_msg_type_t :=
  match fo_msg_type options with
  | None =>
      let msg_type := msg_id_info msg_id in
      if fo_strict options && bool_decide (msg_type = FSCK_WARN) then FSCK_ERROR else msg_type
  | Some t => t msg_id
  end.

Definition fsck_set_msg_type_from_ids (options : fsck_options) (msg_id : fsck_msg_id) (msg_type : fsck_msg_type_t) : fsck_options :=
  let severity := match fo_msg_type options with None => fun i => fsck_msg_type i options | Some t => t end in
  mkFo (fo_strict options) (Some (fun i => if bool_decide (i = msg_id) then msg_type else severity i)) (fo_skip_oids options) (fo_gitmodules_found options) (fo_gitattributes_found options).

Definition object_on_skiplist (opts : fsck_options) (oid : object_id) : bool := oidset_contains (fo_skip_oids opts) oid.

(** The callback of the caller: the object, the severity and the message give its return value. *)
Context (error_func : object_id -> fsck_msg_type_t -> fsck_msg_id -> Z).

Definition fsck_vreport (options : fsck_options) (oid : object_id) (msg_id : fsck_msg_id) : Z :=
  let msg_type := fsck_msg_type msg_id options in
  if bool_decide (msg_type = FSCK_IGNORE) then 0
  else
    let msg_type := if bool_decide (msg_type = FSCK_FATAL) then FSCK_ERROR
                    else if bool_decide (msg_type = FSCK_INFO) then FSCK_WARN else msg_type in
    error_func oid msg_type msg_id.

Definition report (options : fsck_options) (oid : object_id) (msg_id : fsck_msg_id) : Z :=
  if object_on_skiplist options oid then 0 else fsck_vreport options oid msg_id.

(** *** [fsck_tree] *)

(** The options, which collect object names, the return value so far, and the messages that [report] was called with. *)
Record fsck_acc := mkFa { fa_options : fsck_options; fa_retval : Z; fa_trace : list fsck_msg_id }.

Definition reported (tree_oid : object_id) (a : fsck_acc) (id : fsck_msg_id) : fsck_acc :=
  mkFa (fa_options a) (fa_retval a + report (fa_options a) tree_oid id) (fa_trace a ++ [id]).

Definition gitmodules_insert (a : fsck_acc) (oid : object_id) : fsck_acc :=
  let o := fa_options a in
  mkFa (mkFo (fo_strict o) (fo_msg_type o) (fo_skip_oids o) (oidset_insert (fo_gitmodules_found o) oid) (fo_gitattributes_found o)) (fa_retval a) (fa_trace a).

Definition gitattributes_insert (a : fsck_acc) (oid : object_id) : fsck_acc :=
  let o := fa_options a in
  mkFa (mkFo (fo_strict o) (fo_msg_type o) (fo_skip_oids o) (fo_gitmodules_found o) (oidset_insert (fo_gitattributes_found o) oid)) (fa_retval a) (fa_trace a).

Record tree_flags := mkTf {
  has_null_sha1 : bool; has_full_path : bool; has_empty_name : bool; has_dot : bool; has_dotdot : bool; has_dotgit : bool;
  has_zero_pad : bool; has_bad_modes : bool; has_dup_entries : bool; not_properly_sorted : bool; has_large_name : bool;
}.

Definition is_null_oid (oid : object_id) : bool := memcmp (oid_hash oid) (replicate (Z.to_nat GIT_MAX_RAWSZ) 0) =? 0.

(** [a() || b()] *)
Definition or_else (a b : res bool) : res bool := x ← a; if (x : bool) then Ok true else b.

Context `{Memory} (hashsz algo max_tree_entry_len : Z) (mem : list Z) (tree_oid : object_id).

(** [!strcmp(name, s)] *)
Definition strcmp_eq (name : Z) (s : list Z) : res bool :=
  n ← strlen mem name; x ← rd_slice mem name n; Ok (bool_decide (x = s)).

(** The flags of one entry. *)
Definition entry_flags (desc : tree_desc) (f : tree_flags) : res tree_flags :=
  let name := ne_path (td_entry desc) in
  slash ← strchr mem name 47;
  c ← rd mem name;
  dot ← strcmp_eq name [46];
  dotdot ← strcmp_eq name [46; 46];
  dotgit ← or_else (is_hfs_dotgit mem name) (is_ntfs_dotgit mem name);
  d ← rd mem (td_buffer desc);
  Ok (mkTf (has_null_sha1 f || is_null_oid (ne_oid (td_entry desc))) (has_full_path f || bool_decide (slash <> None)) (has_empty_name f || negb (tr c))
        (has_dot f || dot) (has_dotdot f || dotdot) (has_dotgit f || dotgit) (has_zero_pad f || (d =? 48)) (has_bad_modes f)
        (has_dup_entries f) (not_properly_sorted f) (has_large_name f || (max_tree_entry_len <? ne_pathlen (td_entry desc)))).

(** The special files: their object names are collected, and links are reported. *)
Definition entry_special (name mode : Z) (entry_oid : object_id) (a : fsck_acc) : res fsck_acc :=
  gm ← or_else (is_hfs_dotgitmodules mem name) (is_ntfs_dotgitmodules mem name);
  let a := if (gm : bool) then if negb (S_ISLNK mode) then gitmodules_insert a entry_oid else reported tree_oid a FSCK_MSG_GITMODULES_SYMLINK else a in
  ga ← or_else (is_hfs_dotgitattributes mem name) (is_ntfs_dotgitattributes mem name);
  let a := if (ga : bool) then if negb (S_ISLNK mode) then gitattributes_insert a entry_oid else reported tree_oid a FSCK_MSG_GITATTRIBUTES_SYMLINK else a in
  if S_ISLNK mode then
    gi ← or_else (is_hfs_dotgitignore mem name) (is_ntfs_dotgitignore mem name);
    let a := if (gi : bool) then reported tree_oid a FSCK_MSG_GITIGNORE_SYMLINK else a in
    mm ← or_else (is_hfs_dotmailmap mem name) (is_ntfs_dotmailmap mem name);
    Ok (if (mm : bool) then reported tree_oid a FSCK_MSG_MAILMAP_SYMLINK else a)
  else Ok a.

(** What is behind a backslash. *)
Definition backslash_step (mode : Z) (entry_oid : object_id) (st : option Z * bool * fsck_acc) : res (option Z * bool * fsck_acc + bool * fsck_acc) :=
  let '(backslash, dotgit, a) := st in
  match backslash with
  | None => Ok (inr (dotgit, a))
  | Some backslash =>
      let backslash := backslash + 1 in
      g ← is_ntfs_dotgit mem backslash;
      gm ← is_ntfs_dotgitmodules mem backslash;
      let a := if (gm : bool) then if negb (S_ISLNK mode) then gitmodules_insert a entry_oid else reported tree_oid a FSCK_MSG_GITMODULES_SYMLINK else a in
      backslash ← strchr mem backslash 92;
      Ok (inl (backslash, dotgit || g, a))
  end.

Definition set_dotgit (f : tree_flags) (b : bool) : tree_flags :=
  mkTf (has_null_sha1 f) (has_full_path f) (has_empty_name f) (has_dot f) (has_dotdot f) b (has_zero_pad f) (has_bad_modes f) (has_dup_entries f) (not_properly_sorted f) (has_large_name f).

Definition set_order (f : tree_flags) (bad dup unsorted : bool) : tree_flags :=
  mkTf (has_null_sha1 f) (has_full_path f) (has_empty_name f) (has_dot f) (has_dotdot f) (has_dotgit f) (has_zero_pad f) (has_bad_modes f || bad) (has_dup_entries f || dup) (not_properly_sorted f || unsorted) (has_large_name f).

(** The [switch] on the mode. *)
Definition bad_mode (strict : bool) (mode : Z) : bool :=
  if bool_decide (mode ∈ [S_IFREG |. 0x1ed; S_IFREG |. 0x1a4; S_IFLNK; S_IFDIR; S_IFGITLINK]) then false
  else if mode =? (S_IFREG |. 0x1b4) then strict else true.

(** The descriptor, the flags, the accumulator, the previous entry ([o_mode] and [o_name]) and the stack. *)
Record fsck_st := mkFs { fs_desc : tree_desc; fs_flags : tree_flags; fs_acc : fsck_acc; fs_o : option (Z * Z); fs_stack : name_stack }.

Definition fsck_tree_step (s : fsck_st) : res (fsck_st + fsck_st) :=
  let desc := fs_desc s in
  if negb (tr (td_size desc)) then Ok (inr s)
  else
    let name := ne_path (td_entry desc) in
    let mode := ne_mode (td_entry desc) `mod` 2 ^ 16 in
    let entry_oid := ne_oid (td_entry desc) in
    f ← entry_flags desc (fs_flags s);
    a ← entry_special name mode entry_oid (fs_acc s);
    backslash ← strchr mem name 92;
    '(dotgit, a) ← loop (S (length mem)) (backslash_step mode entry_oid) (backslash, has_dotgit f, a);
    let f := set_dotgit f dotgit in
    '(r, desc) ← update_tree_entry_gently hashsz algo mem desc;
    if tr r then Ok (inr (mkFs desc f (reported tree_oid a FSCK_MSG_BAD_TREE) (fs_o s) (fs_stack s)))
    else
      let bad := bad_mode (fo_strict (fa_options a)) mode in
      '(v, stack) ← match fs_o s with None => Ok (0, fs_stack s) | Some (o_mode, o_name) => verify_ordered mem o_mode o_name mode name (fs_stack s) end;
      Ok (inl (mkFs desc (set_order f bad (v =? TREE_HAS_DUPS) (v =? TREE_UNORDERED)) a (Some (mode, name)) stack)).

(** The reports at the end. *)
Definition flag_reports (f : tree_flags) (a : fsck_acc) : fsck_acc :=
  fold_left (fun a '((b, id) : bool * fsck_msg_id) => if b then reported tree_oid a id else a)
    [(has_null_sha1 f, FSCK_MSG_NULL_SHA1); (has_full_path f, FSCK_MSG_FULL_PATHNAME); (has_empty_name f, FSCK_MSG_EMPTY_NAME);
     (has_dot f, FSCK_MSG_HAS_DOT); (has_dotdot f, FSCK_MSG_HAS_DOTDOT); (has_dotgit f, FSCK_MSG_HAS_DOTGIT);
     (has_zero_pad f, FSCK_MSG_ZERO_PADDED_FILEMODE); (has_bad_modes f, FSCK_MSG_BAD_FILEMODE); (has_dup_entries f, FSCK_MSG_DUPLICATE_ENTRIES);
     (not_properly_sorted f, FSCK_MSG_TREE_NOT_SORTED); (has_large_name f, FSCK_MSG_LARGE_PATHNAME)] a.

Definition fsck_tree (entry0 : name_entry) (options : fsck_options) : res fsck_acc :=
  let a := mkFa options 0 [] in
  '(r, desc) ← init_tree_desc_gently hashsz algo mem entry0 0 (len mem) TREE_DESC_RAW_MODES;
  if tr r then Ok (reported tree_oid a FSCK_MSG_BAD_TREE)
  else
    s ← loop (S (length mem)) fsck_tree_step (mkFs desc (mkTf false false false false false false false false false false false) a None (mkNs [] 0 0));
    Ok (flag_reports (fs_flags s) (fs_acc s)).
End Report.

(** ** What is reported for an entry *)

Definition hfs_named (needle n : list Z) : Prop := exists chs bad, decodes n chs bad /\ hfs_dot needle (hfs_visible chs).

Definition special (needle prefix n : list Z) : Prop := hfs_named needle n \/ ntfs_name needle prefix n.

Definition after_backslash (P : list Z -> Prop) (n : list Z) : Prop := exists a b, n = a ++ 92 :: b /\ P b.

(** The raw mode. *)
Definition te_mode (t : tentry) : Z := mode_of (te_digits t).

(** The modes that are allowed, written in octal: files, executable files, links,
    directories and submodules; and files that the group may write, unless the
    check is strict. *)
Definition allowed_mode (strict : bool) (mode : Z) : Prop :=
  mode ∈ mode_of <$> [[1; 0; 0; 6; 4; 4]; [1; 0; 0; 7; 5; 5]; [1; 2; 0; 0; 0; 0]; [4; 0; 0; 0; 0]; [1; 6; 0; 0; 0; 0]] \/
  (strict = false /\ mode = mode_of [1; 0; 0; 6; 6; 4]).

Lemma bad_mode_spec strict mode : bad_mode strict mode = true <-> ~ allowed_mode strict mode.
Proof.
  unfold bad_mode, allowed_mode. change (S_IFREG |. 0x1b4) with (mode_of [1; 0; 0; 6; 6; 4]).
  assert (mode ∈ [S_IFREG |. 0x1ed; S_IFREG |. 0x1a4; S_IFLNK; S_IFDIR; S_IFGITLINK] <->
    mode ∈ mode_of <$> [[1; 0; 0; 6; 4; 4]; [1; 0; 0; 7; 5; 5]; [1; 2; 0; 0; 0; 0]; [4; 0; 0; 0; 0]; [1; 6; 0; 0; 0; 0]]) as E.
  { cbn [fmap list_fmap]. rewrite !elem_of_cons, !elem_of_nil. change (S_IFREG |. 0x1ed) with (mode_of [1; 0; 0; 7; 5; 5]).
    change (S_IFREG |. 0x1a4) with (mode_of [1; 0; 0; 6; 4; 4]). change S_IFLNK with (mode_of [1; 2; 0; 0; 0; 0]).
    change S_IFDIR with (mode_of [4; 0; 0; 0; 0]). change S_IFGITLINK with (mode_of [1; 6; 0; 0; 0; 0]). tauto. }
  case_bool_decide as Hin; [split; [done|]; intros Hn; destruct Hn; left; by apply E|].
  destruct (Z.eqb_spec mode (mode_of [1; 0; 0; 6; 6; 4])) as [->|Hne].
  - destruct strict; [|split; [done|]; intros Hn; destruct Hn; by right]. split; [|done]. intros _ [Hl|[? _]]; [by apply Hin, E|done].
  - split; [|done]. intros _ [Hl|[_ ?]]; [by apply Hin, E|done].
Qed.

(** The problem that a message is about. *)
Definition problem (strict : bool) (max_len : Z) (id : fsck_msg_id) (t : tentry) : Prop :=
  let n := te_name t in
  let link := S_ISLNK (te_mode t) = true in
  match id with
  | FSCK_MSG_NULL_SHA1 => Forall (fun c => c = 0) (te_hash t)
  | FSCK_MSG_FULL_PATHNAME => 47 ∈ n
  | FSCK_MSG_HAS_DOT => n = [46]
  | FSCK_MSG_HAS_DOTDOT => n = [46; 46]
  | FSCK_MSG_HAS_DOTGIT => hfs_named str_git n \/ ntfs_git n \/ after_backslash ntfs_git n
  | FSCK_MSG_ZERO_PADDED_FILEMODE => hd 0 (te_digits t) = 0
  | FSCK_MSG_BAD_FILEMODE => ~ allowed_mode strict (te_mode t)
  | FSCK_MSG_LARGE_PATHNAME => max_len < len n
  | FSCK_MSG_GITMODULES_SYMLINK => link /\ (special str_gitmodules short_gitmodules n \/ after_backslash (ntfs_name str_gitmodules short_gitmodules) n)
  | FSCK_MSG_GITATTRIBUTES_SYMLINK => link /\ special str_gitattributes short_gitattributes n
  | FSCK_MSG_GITIGNORE_SYMLINK => link /\ special str_gitignore short_gitignore n
  | FSCK_MSG_MAILMAP_SYMLINK => link /\ special str_mailmap short_mailmap n
  | _ => False
  end.

(** The flag of a message. *)
Definition flag_of (f : tree_flags) (id : fsck_msg_id) : bool :=
  match id with
  | FSCK_MSG_NULL_SHA1 => has_null_sha1 f
  | FSCK_MSG_FULL_PATHNAME => has_full_path f
  | FSCK_MSG_EMPTY_NAME => has_empty_name f
  | FSCK_MSG_HAS_DOT => has_dot f
  | FSCK_MSG_HAS_DOTDOT => has_dotdot f
  | FSCK_MSG_HAS_DOTGIT => has_dotgit f
  | FSCK_MSG_ZERO_PADDED_FILEMODE => has_zero_pad f
  | FSCK_MSG_BAD_FILEMODE => has_bad_modes f
  | FSCK_MSG_DUPLICATE_ENTRIES => has_dup_entries f
  | FSCK_MSG_TREE_NOT_SORTED => not_properly_sorted f
  | FSCK_MSG_LARGE_PATHNAME => has_large_name f
  | _ => false
  end.

Lemma backslash_split P a b : 92 ∉ a -> after_backslash P (a ++ 92 :: b) <-> P b \/ after_backslash P b.
Proof.
  intros Ha. split.
  - intros (a' & b' & E & H). revert a' E. induction a as [|x a IH]; intros a' E; cbn in E.
    + destruct a' as [|y a']; cbn in E; simplify_eq; [by left|right; by exists a', b'].
    + apply not_elem_of_cons in Ha as [Hx Ha]. destruct a' as [|y a']; cbn in E; simplify_eq. by apply (IH Ha a').
  - intros [H|(a' & b' & -> & H)]; [by exists a, b|]. exists (a ++ 92 :: a'), b'. split; [by rewrite <- app_assoc|done].
Qed.

Lemma backslash_none P n : 92 ∉ n -> ~ after_backslash P n.
Proof. intros Hn (a & b & -> & _). apply Hn. set_solver. Qed.

Section Entry.
Context (mem : list Z) (Hb : is_bytes mem).

(** [strchr] finds the first one. *)
Lemma strchr_ok p n c : c <> 0 -> cstr mem p n ->
  (exists a b, n = a ++ c :: b /\ c ∉ a /\ strchr mem p c = Ok (Some (p + len a))) \/ (c ∉ n /\ strchr mem p c = Ok None).
Proof using Type.
  intros Hc Hn. unfold strchr. destruct (span_split (fun x => tr x && negb (x =? c)) n) as (a & b & -> & _ & Ha & Hh).
  assert (c ∉ a) as Hca. { intros Hin. rewrite Forall_forall in Ha. specialize (Ha c Hin). rewrite Z.eqb_refl in Ha. by rewrite andb_false_r in Ha. }
  assert (tr (hd 0 b) && negb (hd 0 b =? c) = false) as Hb0 by (destruct b as [|x b]; [done|by apply (Hh x b)]). destruct (cstr_scan _ mem p a b Hn Ha Hb0) as [-> _]. cbn [mbind res_bind]. rewrite (cstr_rd _ _ _ (cstr_app _ _ _ _ Hn)). cbn [mbind res_bind]. destruct b as [|x b]; cbn [hd].
  - right. rewrite app_nil_r. split; [done|]. destruct (Z.eqb_spec 0 c); [by subst|done].
  - specialize (Hh x b eq_refl). pose proof (cstr_nz _ _ _ _ (cstr_app _ _ _ _ Hn)) as Hx. rewrite (proj2 (tr_true x) Hx) in Hh. cbn in Hh. apply negb_false_iff, Z.eqb_eq in Hh as ->. rewrite Z.eqb_refl. left. by exists a, b.
Qed.

Lemma strcmp_eq_ok p n s : cstr mem p n -> strcmp_eq mem p s = Ok (bool_decide (n = s)).
Proof using Type.
  intros Hn. unfold strcmp_eq. rewrite (strlen_ok _ _ _ Hn). cbn [mbind res_bind]. destruct (cstr_slice mem p n (length n) Hn ltac:(lia)) as [E _]. unfold len. rewrite E. cbn [mbind res_bind]. by rewrite firstn_all.
Qed.

Lemma hfs_test p n needle : cstr mem p n -> Forall (fun c => c <> 0) needle -> exists b, is_hfs_dot_generic mem p needle = Ok b /\ (b = true <-> hfs_named needle n).
Proof using Hb.
  intros Hn Hnz. destruct (decodes_exists n) as (chs & bad & Hd); [by apply (cstr_is_bytes mem Hb p)|by destruct Hn as (_ & ? & _)|]. destruct (is_hfs_ok mem Hb needle p n chs bad Hnz Hn Hd) as (b & E & H). exists b. split; [done|]. split.
  - intros ->. exists chs, bad. split; [done|by apply H].
  - intros (chs' & bad' & Hd' & Hdot). destruct (is_hfs_ok mem Hb needle p n chs' bad' Hnz Hn Hd') as (b' & E' & H'). rewrite E in E'. injection E' as ->. by apply H'.
Qed.

Lemma or_else_ok (x y : res bool) (P Q : Prop) : (exists b, x = Ok b /\ (b = true <-> P)) -> (exists b, y = Ok b /\ (b = true <-> Q)) -> exists b, or_else x y = Ok b /\ (b = true <-> P \/ Q).
Proof using Type. intros (b & -> & H) (c & -> & H'). unfold or_else. cbn [mbind res_bind]. destruct b; [exists true|exists c]; (split; [done|]); naive_solver. Qed.

Lemma special_test p n needle prefix : cstr mem p n -> Forall (fun c => c <> 0) needle -> needle_ok needle prefix ->
  exists b, or_else (is_hfs_dot_generic mem p needle) (is_ntfs_dot_str mem p needle prefix) = Ok b /\ (b = true <-> special needle prefix n).
Proof using Hb. intros Hn Hz Hok. apply or_else_ok; [by apply hfs_test|]. by apply (is_ntfs_ok mem Hb needle prefix Hok). Qed.
End Entry.

Definition when (b : bool) (id : fsck_msg_id) : list fsck_msg_id := if b then [id] else [].

Lemma elem_when b id x : x ∈ when b id <-> b = true /\ x = id.
Proof. unfold when. destruct b; set_solver. Qed.

Section Walk.
Context `{OidSet T} (error_func : object_id -> fsck_msg_type_t -> fsck_msg_id -> Z) `{Memory}
  (hashsz algo max_tree_entry_len : Z) (mem : list Z) (tree_oid : object_id) (Hsz : hashsz = 20 \/ hashsz = 32) (Halgo : algo = 1 \/ algo = 2) (Hb : is_bytes mem) (Hlen : len mem < 2 ^ 31).

Definition total_of (o : @fsck_options T) (ids : list fsck_msg_id) : Z := foldr (fun id a => report error_func o tree_oid id + a) 0 ids.

(** [a'] is [a] with the messages [ids] reported and perhaps more object names collected. *)
Record acc_ext (a : @fsck_acc T) (ids : list fsck_msg_id) (a' : @fsck_acc T) : Prop := {
  ae_strict : fo_strict (fa_options a') = fo_strict (fa_options a);
  ae_type : fo_msg_type (fa_options a') = fo_msg_type (fa_options a);
  ae_skip : fo_skip_oids (fa_options a') = fo_skip_oids (fa_options a);
  ae_trace : fa_trace a' = fa_trace a ++ ids;
  ae_retval : fa_retval a' = fa_retval a + total_of (fa_options a) ids;
}.

Lemma total_same o o' ids : fo_strict o' = fo_strict o -> fo_msg_type o' = fo_msg_type o -> fo_skip_oids o' = fo_skip_oids o -> total_of o' ids = total_of o ids.
Proof using Type. intros H1 H2 H3. unfold total_of. induction ids as [|id ids IH]; [done|]. cbn. rewrite IH. unfold report, object_on_skiplist, fsck_vreport, fsck_msg_type. by rewrite H1, H2, H3. Qed.

Lemma total_app o ids ids' : total_of o (ids ++ ids') = total_of o ids + total_of o ids'.
Proof using Type. unfold total_of. induction ids as [|id ids IH]; [done|]. cbn. rewrite IH. lia. Qed.

Lemma ext_refl a : acc_ext a [] a.
Proof using Type. constructor; try done; [by rewrite app_nil_r|cbn; lia]. Qed.

Lemma ext_trans a ids a' ids' a'' : acc_ext a ids a' -> acc_ext a' ids' a'' -> acc_ext a (ids ++ ids') a''.
Proof using Type.
  intros [A1 A2 A3 A4 A5] [B1 B2 B3 B4 B5]. constructor; [congruence|congruence|congruence|by rewrite B4, A4, app_assoc|]. rewrite B5, A5, total_app, (total_same _ (fa_options a')) by done. lia.
Qed.

Lemma ext_reported a id : acc_ext a [id] (reported error_func tree_oid a id).
Proof using Type. constructor; try done. cbn. lia. Qed.

Lemma ext_gitmodules a oid : acc_ext a [] (gitmodules_insert a oid).
Proof using Type. constructor; try done; [by rewrite app_nil_r|cbn; lia]. Qed.

Lemma ext_gitattributes a oid : acc_ext a [] (gitattributes_insert a oid).
Proof using Type. constructor; try done; [by rewrite app_nil_r|cbn; lia]. Qed.

Lemma ext_when (b : bool) id a : acc_ext a (when b id) (if b then reported error_func tree_oid a id else a).
Proof using Type. destruct b; [apply ext_reported|apply ext_refl]. Qed.

Lemma ext_link (b l : bool) id a a' : acc_ext a [] a' -> acc_ext a (when (b && l) id) (if b then if negb l then a' else reported error_func tree_oid a id else a).
Proof using Type. intros Ha. destruct b, l; cbn; [apply ext_reported|done|apply ext_refl|apply ext_refl]. Qed.

Lemma entry_special_ok p n mode oid a : cstr mem p n ->
  exists b1 b2 b3 b4 a', entry_special error_func mem tree_oid p mode oid a = Ok a' /\
    acc_ext a (when (b1 && S_ISLNK mode) FSCK_MSG_GITMODULES_SYMLINK ++ when (b2 && S_ISLNK mode) FSCK_MSG_GITATTRIBUTES_SYMLINK ++ when (b3 && S_ISLNK mode) FSCK_MSG_GITIGNORE_SYMLINK ++ when (b4 && S_ISLNK mode) FSCK_MSG_MAILMAP_SYMLINK) a' /\
    (b1 = true <-> special str_gitmodules short_gitmodules n) /\ (b2 = true <-> special str_gitattributes short_gitattributes n) /\
    (b3 = true <-> special str_gitignore short_gitignore n) /\ (b4 = true <-> special str_mailmap short_mailmap n).
Proof using Hb.
  intros Hn. destruct needles_ok as (N1 & N2 & N3 & N4). unfold entry_special, is_hfs_dotgitmodules, is_hfs_dotgitattributes, is_hfs_dotgitignore, is_hfs_dotmailmap, is_ntfs_dotgitmodules, is_ntfs_dotgitattributes, is_ntfs_dotgitignore, is_ntfs_dotmailmap.
  destruct (special_test mem Hb p n str_gitmodules short_gitmodules Hn ltac:(by apply (bool_decide_eq_true_1 _)) N1) as (b1 & -> & H1), (special_test mem Hb p n str_gitattributes short_gitattributes Hn ltac:(by apply (bool_decide_eq_true_1 _)) N3) as (b2 & -> & H2),
    (special_test mem Hb p n str_gitignore short_gitignore Hn ltac:(by apply (bool_decide_eq_true_1 _)) N2) as (b3 & -> & H3), (special_test mem Hb p n str_mailmap short_mailmap Hn ltac:(by apply (bool_decide_eq_true_1 _)) N4) as (b4 & -> & H4).
  exists b1, b2, b3, b4. cbn [mbind res_bind]. set (a1 := if b1 then _ else a). set (a2 := if b2 then _ else a1).
  assert (acc_ext a (when (b1 && S_ISLNK mode) FSCK_MSG_GITMODULES_SYMLINK) a1) as E1 by apply ext_link, ext_gitmodules. assert (acc_ext a1 (when (b2 && S_ISLNK mode) FSCK_MSG_GITATTRIBUTES_SYMLINK) a2) as E2 by apply ext_link, ext_gitattributes.
  destruct (S_ISLNK mode); cbn [mbind res_bind]; (eexists; split; [done|]); (split; [|done]); (eapply ext_trans; [exact E1|]); (eapply ext_trans; [exact E2|]); rewrite ?andb_true_r, ?andb_false_r.
  - eapply ext_trans; apply ext_when.
  - apply ext_refl.
Qed.

Lemma backslash_ok mode oid k : forall fuel w q g a bs, (length w <= k)%nat -> (k < fuel)%nat -> cstr mem q w -> strchr mem q 92 = Ok bs ->
  exists g' a' ids, loop fuel (backslash_step error_func mem tree_oid mode oid) (bs, g, a) = Ok (g', a') /\ (g' = true <-> g = true \/ after_backslash ntfs_git w) /\ acc_ext a ids a' /\
    (forall id, id ∈ ids <-> id = FSCK_MSG_GITMODULES_SYMLINK /\ S_ISLNK mode = true /\ after_backslash (ntfs_name str_gitmodules short_gitmodules) w).
Proof using All.
  induction k as [|k IH]; intros fuel w q g a bs Hw Hf Hc Hs; (destruct fuel as [|fuel]; [lia|]); rewrite loop_S; unfold backslash_step at 1;
    (destruct (strchr_ok mem q w 92 ltac:(done) Hc) as [(x & y & -> & Hx & E)|[Hx E]]; rewrite E in Hs; injection Hs as <-).
  1: rewrite length_app in Hw; cbn in Hw; lia.
  2:{ pose proof (cstr_app _ _ _ _ Hc) as Hy. apply cstr_tl in Hy. destruct (is_ntfs_dotgit_ok mem Hb _ y Hy) as (b1 & E1 & H1). rewrite E1. cbn [mbind res_bind]. destruct needles_ok as (N1 & _).
    destruct (is_ntfs_ok mem Hb _ _ N1 _ y Hy) as (b2 & E2 & H2). unfold is_ntfs_dotgitmodules, is_ntfs_dot_str. rewrite E2. cbn [mbind res_bind]. set (a1 := if b2 then _ else a).
    assert (acc_ext a (when (b2 && S_ISLNK mode) FSCK_MSG_GITMODULES_SYMLINK) a1) as Ha1 by apply ext_link, ext_gitmodules.
    assert (exists bs', strchr mem (q + len x + 1) 92 = Ok bs') as [bs' Ebs] by (destruct (strchr_ok mem _ y 92 ltac:(done) Hy) as [(? & ? & _ & _ & ->)|[_ ->]]; by eexists). rewrite Ebs. cbn [mbind res_bind].
    rewrite length_app in Hw. cbn [length] in Hw. destruct (IH fuel y (q + len x + 1) (g || b1) a1 bs') as (g' & a' & ids & -> & Hg & Hext & Hids); [lia|lia|done|done|].
    exists g', a', (when (b2 && S_ISLNK mode) FSCK_MSG_GITMODULES_SYMLINK ++ ids). split_and!; [done| |by eapply ext_trans|].
    - rewrite Hg, orb_true_iff, H1, backslash_split by done. tauto.
    - intros id. rewrite elem_of_app, elem_when, Hids, backslash_split, <- H2, andb_true_iff by done. tauto. }
  all: exists g, a, []; (split_and!; [done| |apply ext_refl|]); [pose proof (backslash_none ntfs_git w Hx); tauto|intros id; pose proof (backslash_none (ntfs_name str_gitmodules short_gitmodules) w Hx); rewrite elem_of_nil; tauto].
Qed.

Lemma memcmp_zero h : len h <= GIT_MAX_RAWSZ -> memcmp (h ++ replicate (Z.to_nat (GIT_MAX_RAWSZ - len h)) 0) (replicate (Z.to_nat GIT_MAX_RAWSZ) 0) = 0 <-> Forall (fun c => c = 0) h.
Proof using All.
  intros Hh. pose proof (len_nonneg h). replace (Z.to_nat GIT_MAX_RAWSZ) with (length h + Z.to_nat (GIT_MAX_RAWSZ - len h))%nat by llia. rewrite replicate_add. generalize (Z.to_nat (GIT_MAX_RAWSZ - len h)) as m. intros m.
  rewrite memcmp_0 by (by rewrite !length_app, !length_replicate). split.
  - intros E. apply app_inj_2 in E as [-> _]; [|done]. by apply Forall_replicate.
  - intros E. f_equal. clear -E. induction E as [|c h -> E IH]; [done|]. cbn. by rewrite <- IH.
Qed.

(** The flags of one entry that stands at [b]. *)
Lemma entry_flags_ok desc f t b rest fl : at_rest hashsz algo mem fl desc b (te_bytes t ++ rest) -> te_ok hashsz t -> td_entry desc = te_entry hashsz algo b fl t ->
  cstr mem (ne_path (td_entry desc)) (te_name t) /\
  exists g, (g = true <-> hfs_named str_git (te_name t) \/ ntfs_git (te_name t)) /\
    entry_flags max_tree_entry_len mem desc f = Ok (mkTf (has_null_sha1 f || bool_decide (Forall (fun c => c = 0) (te_hash t))) (has_full_path f || bool_decide (47 ∈ te_name t)) (has_empty_name f)
      (has_dot f || bool_decide (te_name t = [46])) (has_dotdot f || bool_decide (te_name t = [46; 46])) (has_dotgit f || g) (has_zero_pad f || bool_decide (hd 0 (te_digits t) = 0)) (has_bad_modes f)
      (has_dup_entries f) (not_properly_sorted f) (has_large_name f || (max_tree_entry_len <? len (te_name t)))).
Proof using All.
  intros [Hp Hr Hbuf _ _ _] [[Hd Ho] [Hne Hnz] Hh] Ee. rewrite te_split in Hr.
  assert (cstr mem (b + len (te_digits t) + 1) (te_name t)) as Hc.
  { pose proof (len_nonneg (te_digits t)). split_and!; [lia|done|]. exists (te_hash t ++ rest). replace (Z.to_nat (b + len (te_digits t) + 1)) with (Z.to_nat b + (length (te_digits t) + 1))%nat by llia. rewrite <- !drop_drop, Hr. rewrite drop_app_length' by (by rewrite length_fmap). done. }
  rewrite Ee. cbn [ne_path te_entry]. split; [done|]. unfold entry_flags. rewrite Ee. cbn [ne_path ne_oid ne_pathlen te_entry].
  destruct (or_else_ok _ _ _ _ (hfs_test mem Hb _ _ str_git Hc ltac:(by apply (bool_decide_eq_true_1 _))) (is_ntfs_dotgit_ok mem Hb _ _ Hc)) as (g & Eg & Hg). exists g. split; [done|].
  assert (exists o, strchr mem (b + len (te_digits t) + 1) 47 = Ok o /\ bool_decide (o <> None) = bool_decide (47 ∈ te_name t)) as (o & -> & Eo).
  { destruct (strchr_ok mem _ _ 47 ltac:(done) Hc) as [(x & y & -> & _ & ->)|[Hn ->]]; eexists; (split; [done|]); [rewrite !bool_decide_eq_true_2 by set_solver; done|rewrite !bool_decide_eq_false_2; [done|done|naive_solver]]. }
  cbn [mbind res_bind]. rewrite Eo, (cstr_rd _ _ _ Hc). cbn [mbind res_bind]. rewrite !(strcmp_eq_ok mem _ _ _ Hc). cbn [mbind res_bind]. unfold is_hfs_dotgit. rewrite Eg. cbn [mbind res_bind]. rewrite Hbuf.
  destruct (te_digits t) as [|d ds] eqn:Eds; [done|]. cbn [fmap list_fmap app] in Hr. rewrite (rd_drop_cons mem b _ _ Hp Hr). cbn [mbind res_bind hd]. f_equal.
  destruct (te_name t) as [|c nm] eqn:En; [done|]. cbn [hd]. rewrite (proj2 (tr_true c)) by (by apply (cstr_nz _ _ _ _ Hc)). cbn [negb]. rewrite orb_false_r. f_equal.
  - f_equal. unfold is_null_oid. cbn [oid_hash]. rewrite <- Hh. apply eq_true_iff_eq. rewrite Z.eqb_eq, bool_decide_eq_true. apply memcmp_zero. rewrite Hh. unfold GIT_MAX_RAWSZ. lia.
  - f_equal. apply eq_true_iff_eq. rewrite Z.eqb_eq, bool_decide_eq_true. lia.
Qed.

(** *** One turn of the loop *)

Definition te_dent (t : tentry) : dent := (te_name t, S_ISDIR (te_mode t)).

Definition ostep (x : option dent * list (list Z) * list Z) (e : dent) : option dent * list (list Z) * list Z :=
  let '(o, st, vs) := x in
  match o with None => (Some e, st, vs) | Some p => let '(v, st) := vordered st p e in (Some e, st, vs ++ [v]) end.

(** The previous entry, the stack and the verdicts after some entries. *)
Definition orun (ts : list tentry) : option dent * list (list Z) * list Z := fold_left ostep (te_dent <$> ts) (None, [], []).

Lemma orun_snoc ts t : orun (ts ++ [t]) = ostep (orun ts) (te_dent t).
Proof using Type. unfold orun. by rewrite fmap_app, fold_left_app. Qed.

Lemma orun_verdicts es : forall p st vs, (fold_left ostep es (Some p, st, vs)).2 = vs ++ run_ordered st p es.
Proof using Type. induction es as [|e es IH]; intros p st vs; cbn; [by rewrite app_nil_r|]. destruct (vordered st p e) as [v st']. by rewrite IH, <- app_assoc. Qed.

Lemma orun_stack ts : len (orun ts).1.2 <= len ts.
Proof using Type.
  induction ts as [|t ts IH] using rev_ind; [done|]. rewrite orun_snoc, len_app. change (len [t]) with 1. destruct (orun ts) as [[o st] vs]. cbn in *. destruct o as [p|]; cbn; [|lia].
  assert (len (vordered st p (te_dent t)).2 <= len st + 1) as Hv; [|destruct (vordered st p (te_dent t)); cbn in *; lia].
  assert (forall n l, len (pops n l).1 <= len l) as Hp. { intros n l. induction l as [|f l IHl]; [done|]. cbn. rewrite len_cons. repeat case_match; cbn; rewrite ?len_cons; lia. }
  unfold vordered. destruct (_ <? 0); [cbn; lia|]. destruct (0 <? _); [cbn; lia|]. destruct (_ && _); [cbn; lia|]. destruct (negb _ && is_less_than_slash _); [cbn; rewrite len_cons; lia|]. destruct (_ && _); [|cbn; lia].
  specialize (Hp (te_dent t).1 st). destruct (pops (te_dent t).1 st) as [l []]; cbn in *; lia.
Qed.

Definition prev_rel (fo : option (Z * Z)) (o : option dent) : Prop :=
  match fo, o with
  | None, None => True
  | Some (m, a), Some (n, d) => cstr mem a n /\ S_ISDIR m = d
  | _, _ => False
  end.

Definition order_id (id : fsck_msg_id) : bool := bool_decide (id = FSCK_MSG_DUPLICATE_ENTRIES) || bool_decide (id = FSCK_MSG_TREE_NOT_SORTED).

(** The entries [ts] have been checked, and [rest] is left. *)
Record fsck_inv (a0 : @fsck_acc T) (s : @fsck_st T) (ts : list tentry) (rest : list Z) : Prop := {
  fi_ts : Forall (te_ok hashsz) ts;
  fi_mem : mem = tree_bytes ts ++ rest;
  fi_at : at_rest hashsz algo mem TREE_DESC_RAW_MODES (fs_desc s) (len (tree_bytes ts)) rest;
  fi_prev : prev_rel (fs_o s) (orun ts).1.1;
  fi_stack : stack_ok mem (fs_stack s) (orun ts).1.2;
  fi_dup : has_dup_entries (fs_flags s) = true <-> TREE_HAS_DUPS ∈ (orun ts).2;
  fi_sorted : not_properly_sorted (fs_flags s) = true <-> TREE_UNORDERED ∈ (orun ts).2;
  fi_ids : exists ids, acc_ext a0 ids (fs_acc s) /\ (forall id, order_id id = true -> id ∉ ids) /\
    forall id, order_id id = false -> id ∈ ids \/ flag_of (fs_flags s) id = true <-> Exists (problem (fo_strict (fa_options a0)) max_tree_entry_len id) ts;
}.

Lemma tree_len ts : Forall (te_ok hashsz) ts -> len ts <= len (tree_bytes ts).
Proof using Type.
  induction 1 as [|t ts _ _ IH]; [done|]. unfold tree_bytes in *. cbn. rewrite len_app, len_cons, te_len. pose proof (len_nonneg (te_digits t)). pose proof (len_nonneg (te_name t)). pose proof (len_nonneg (te_hash t)). lia.
Qed.

Lemma tree_snoc ts t : tree_bytes (ts ++ [t]) = tree_bytes ts ++ te_bytes t.
Proof using Type. unfold tree_bytes. rewrite fmap_app, concat_app. cbn. by rewrite app_nil_r. Qed.

Lemma starts_rest ts rest : Forall (te_ok hashsz) ts -> starts_tree hashsz (tree_bytes ts ++ rest) -> starts_tree hashsz rest.
Proof using Type.
  induction 1 as [|t ts Ht _ IH]; [done|]. unfold tree_bytes in *. cbn. rewrite <- app_assoc. intros Hs. apply IH. by eapply starts_tail.
Qed.

(** A verdict adds to the flags of the order. *)
Lemma order_flag (b : bool) (v c : Z) (vs : list Z) : (b = true <-> c ∈ vs) -> b || (v =? c) = true <-> c ∈ vs ++ [v].
Proof using All. intros Hbv. rewrite orb_true_iff, Hbv, Z.eqb_eq, elem_of_app, list_elem_of_singleton. naive_solver. Qed.

(** Which messages the collected reports of an entry are. *)
Lemma reports_of (b1 b2 b3 b4 l : bool) (M : Prop) ids id : (forall id, id ∈ ids <-> id = FSCK_MSG_GITMODULES_SYMLINK /\ l = true /\ M) ->
  id ∈ (when (b1 && l) FSCK_MSG_GITMODULES_SYMLINK ++ when (b2 && l) FSCK_MSG_GITATTRIBUTES_SYMLINK ++ when (b3 && l) FSCK_MSG_GITIGNORE_SYMLINK ++ when (b4 && l) FSCK_MSG_MAILMAP_SYMLINK) ++ ids <->
  l = true /\ match id with
  | FSCK_MSG_GITMODULES_SYMLINK => b1 = true \/ M
  | FSCK_MSG_GITATTRIBUTES_SYMLINK => b2 = true
  | FSCK_MSG_GITIGNORE_SYMLINK => b3 = true
  | FSCK_MSG_MAILMAP_SYMLINK => b4 = true
  | _ => False
  end.
Proof using All. intros Hids. rewrite !elem_of_app, !elem_when, Hids, !andb_true_iff. destruct id; intuition discriminate. Qed.

Lemma flags_of f id n1 n2 n4 n5 n6 n6' n7 n8 d u n11 : order_id id = false ->
  flag_of (set_order (set_dotgit (mkTf (has_null_sha1 f || n1) (has_full_path f || n2) (has_empty_name f) (has_dot f || n4) (has_dotdot f || n5) n6' (has_zero_pad f || n7) (has_bad_modes f) (has_dup_entries f) (not_properly_sorted f) (has_large_name f || n11)) n6) n8 d u) id =
  match id with
  | FSCK_MSG_NULL_SHA1 => flag_of f id || n1
  | FSCK_MSG_FULL_PATHNAME => flag_of f id || n2
  | FSCK_MSG_HAS_DOT => flag_of f id || n4
  | FSCK_MSG_HAS_DOTDOT => flag_of f id || n5
  | FSCK_MSG_HAS_DOTGIT => n6
  | FSCK_MSG_ZERO_PADDED_FILEMODE => flag_of f id || n7
  | FSCK_MSG_BAD_FILEMODE => flag_of f id || n8
  | FSCK_MSG_LARGE_PATHNAME => flag_of f id || n11
  | _ => flag_of f id
  end.
Proof using Type. by destruct id. Qed.

Lemma te_mode_small b t : ne_mode (te_entry hashsz algo b TREE_DESC_RAW_MODES t) `mod` 2 ^ 16 = te_mode t.
Proof using Type. unfold te_entry, te_mode, mode_of. cbn [ne_mode]. change (tr (TREE_DESC_RAW_MODES &. TREE_DESC_RAW_MODES)) with true. cbv iota. by rewrite Z.mod_mod by done. Qed.

Lemma fsck_step_ok a0 s ts rest : fsck_inv a0 s ts rest ->
  wp oom (fsck_tree_step error_func hashsz algo max_tree_entry_len mem tree_oid s) (fun x => match x with
    | inl s' => exists t rest', rest = te_bytes t ++ rest' /\ fsck_inv a0 s' (ts ++ [t]) rest'
    | inr s' => (rest = [] /\ s' = s) \/ (~ starts_tree hashsz mem /\ exists ids, acc_ext a0 ids (fs_acc s') /\ FSCK_MSG_BAD_TREE ∈ ids)
    end).
Proof using All.
  intros [Hts Hmem Hat Hprev Hstack Hdup Hsorted (ids & Hext & Hord & Hids)]. unfold fsck_tree_step. rewrite (ar_size _ _ _ _ _ _ _ Hat). destruct (decide (rest = [])) as [->|Hne]; [apply wp_ret; by left|].
  rewrite (proj2 (tr_true _)) by (destruct rest; [done|]; rewrite len_cons; pose proof (len_nonneg rest); lia). cbn [negb]. cbv zeta.
  destruct (ar_entry _ _ _ _ _ _ _ Hat Hne) as (t & rest' & Ht & -> & Ee). destruct (update_gently_at hashsz algo mem Hsz Halgo Hb Hlen _ _ _ t rest' Hat Ht) as [_ (r & d & Eu & Hu)].
  destruct (entry_flags_ok (fs_desc s) (fs_flags s) t _ rest' _ Hat Ht Ee) as [Hc (g & Hg & ->)]. cbn [mbind res_bind].
  replace (ne_mode (td_entry (fs_desc s)) `mod` 2 ^ 16) with (te_mode t) by (rewrite Ee; symmetry; apply te_mode_small).
  destruct (entry_special_ok _ (te_name t) (te_mode t) (ne_oid (td_entry (fs_desc s))) (fs_acc s) Hc) as (b1 & b2 & b3 & b4 & a1 & -> & E1 & S1 & S2 & S3 & S4). cbn [mbind res_bind].
  assert (exists bs, strchr mem (ne_path (td_entry (fs_desc s))) 92 = Ok bs) as [bs Ebs] by (destruct (strchr_ok mem _ _ 92 ltac:(done) Hc) as [(? & ? & _ & _ & ->)|[_ ->]]; by eexists). rewrite Ebs. cbn [mbind res_bind has_dotgit].
  pose proof (cstr_length _ _ _ Hc) as Hcl. destruct (backslash_ok (te_mode t) (ne_oid (td_entry (fs_desc s))) (length (te_name t)) (S (length mem)) (te_name t) _ (has_dotgit (fs_flags s) || g) a1 bs ltac:(lia) ltac:(lia) Hc Ebs) as (g' & a2 & ids2 & -> & Hg' & E2 & Hids2). cbn [mbind res_bind].
  rewrite Eu. cbn [mbind res_bind]. pose proof (ext_trans _ _ _ _ _ Hext (ext_trans _ _ _ _ _ E1 E2)) as Hall. set (new := _ ++ ids2) in Hall.
  destruct Hu as [(-> & Hat')|(-> & Hno)]; [change (tr 0) with false|change (tr (-1)) with true]; cbv iota.
  2:{ apply wp_ret. right. split.
      - intros Hs. apply Hno. rewrite Hmem, app_assoc, <- tree_snoc in Hs. eapply starts_rest; [|exact Hs]. apply Forall_app. split; [done|by constructor].
      - exists ((ids ++ new) ++ [FSCK_MSG_BAD_TREE]). split; [eapply ext_trans; [exact Hall|apply ext_reported]|set_solver]. }
  assert (fo_strict (fa_options a2) = fo_strict (fa_options a0)) as -> by apply (ae_strict _ _ _ Hall).
  assert (wp oom (match fs_o s with None => Ok (0, fs_stack s) | Some (o_mode, o_name) => verify_ordered mem o_mode o_name (te_mode t) (ne_path (td_entry (fs_desc s))) (fs_stack s) end)
    (fun '(v, ns) => stack_ok mem ns (orun (ts ++ [t])).1.2 /\ (forall c, c <> 0 -> c ∈ (orun (ts ++ [t])).2 <-> c ∈ (orun ts).2 \/ v = c))) as Hv.
  { rewrite orun_snoc. pose proof (orun_stack ts) as Hl. pose proof (tree_len ts Hts) as Hl2. assert (len (tree_bytes ts) <= len mem) as Hl3 by (rewrite Hmem, len_app; pose proof (len_nonneg (te_bytes t ++ rest')); lia).
    destruct (orun ts) as [[o st] vs]. cbn [fst snd] in *. unfold prev_rel in Hprev. destruct (fs_o s) as [[m a]|], o as [[n dd]|]; try done; cbn [ostep].
    - destruct Hprev as [Hca <-]. eapply wp_mono; [apply (verify_ordered_ok mem Hlen m a n (te_mode t) _ (te_name t) (fs_stack s) st Hca Hc Hstack); lia|]. intros [v ns] [-> Hns]. unfold te_dent. destruct (vordered st (n, S_ISDIR m) (te_name t, S_ISDIR (te_mode t))) as [v st']. cbn [fst snd] in *. split; [done|].
      intros c _. rewrite elem_of_app, list_elem_of_singleton. naive_solver.
    - apply wp_ret. cbn. split; [done|]. intros c Hc0. naive_solver. }
  destruct (match fs_o s with None => _ | Some _ => _ end) as [[v ns]|]; [|exact Hv]. cbn [mbind res_bind]. destruct Hv as [Hns Hvs]. apply wp_ret. exists t, rest'. split; [done|]. constructor; cbn [fs_desc fs_flags fs_acc fs_o fs_stack].
  - apply Forall_app. split; [done|by constructor].
  - by rewrite tree_snoc, <- app_assoc.
  - by rewrite tree_snoc, len_app.
  - rewrite orun_snoc. destruct (orun ts) as [[o st] vs]. cbn. destruct o as [p|]; cbn; [destruct (vordered st p (te_dent t)); cbn|]; done.
  - done.
  - rewrite Hvs by done. cbn. rewrite orb_true_iff, Hdup, Z.eqb_eq. done.
  - rewrite Hvs by done. cbn. rewrite orb_true_iff, Hsorted, Z.eqb_eq. done.
  - exists (ids ++ new). split; [done|]. assert (forall id, id ∈ new <-> _) as Hnew by (intros id; apply (reports_of _ _ _ _ _ _ _ id Hids2)). split.
    + intros id Hid. rewrite elem_of_app, Hnew. specialize (Hord id Hid). unfold order_id in Hid. destruct id; done || naive_solver.
    + intros id Hid. specialize (Hids id Hid). rewrite elem_of_app, Hnew, Exists_app, Exists_cons, Exists_nil, <- Hids, flags_of by done. rewrite orb_true_iff in Hg'. generalize (id ∈ ids) as old. clear -Hid Hg Hg' S1 S2 S3 S4. intros old.
      unfold problem. destruct id; try done; cbv iota; rewrite ?orb_true_iff, ?bool_decide_eq_true, ?Z.ltb_lt, ?bad_mode_spec; cbn [flag_of]; tauto.
Qed.

(** *** The whole check *)

Definition bad_tree (a0 : @fsck_acc T) (a : @fsck_acc T) : Prop := ~ starts_tree hashsz mem /\ exists ids, acc_ext a0 ids a /\ FSCK_MSG_BAD_TREE ∈ ids.

Lemma fsck_loop_ok a0 fuel : forall s ts rest, fsck_inv a0 s ts rest -> (length rest < fuel)%nat ->
  wp oom (loop fuel (fsck_tree_step error_func hashsz algo max_tree_entry_len mem tree_oid) s) (fun s' => (exists ts', fsck_inv a0 s' ts' []) \/ bad_tree a0 (fs_acc s')).
Proof using All.
  induction fuel as [|fuel IH]; intros s ts rest Hinv Hf; [lia|]. rewrite loop_S. pose proof (fsck_step_ok a0 s ts rest Hinv) as Hs. destruct (fsck_tree_step _ _ _ _ _ _ s) as [[s'|s']|]; [| |exact Hs]; cbn in Hs.
  - destruct Hs as (t & rest' & -> & Hinv'). apply (IH s' _ rest' Hinv'). rewrite length_app in Hf. pose proof (te_ne t []) as Hne. rewrite app_nil_r in Hne. destruct (te_bytes t); [done|]. cbn in Hf. lia.
  - destruct Hs as [[-> ->]|Hbad]; [left; by exists ts|by right].
Qed.

Lemma flag_fold (l : list (bool * fsck_msg_id)) : forall a, acc_ext a (concat ((fun '(b, id) => when b id) <$> l)) (fold_left (fun a '((b, id) : bool * fsck_msg_id) => if b then reported error_func tree_oid a id else a) l a).
Proof using Type. induction l as [|[b id] l IH]; intros a; cbn; [apply ext_refl|]. eapply ext_trans; [apply ext_when|apply IH]. Qed.

Lemma flag_reports_ok f a : exists ids, acc_ext a ids (flag_reports error_func tree_oid f a) /\ forall id, id ∈ ids <-> flag_of f id = true.
Proof using All.
  eexists. split; [apply flag_fold|]. intros id. set (l := _ :: _). assert (Forall (fun '(b, i) => b = flag_of f i) l) as Hl by repeat constructor.
  assert (id ∈ concat ((fun '(b, id) => when b id) <$> l) <-> (true, id) ∈ l) as ->.
  { clear Hl. induction l as [|[b i] l IH]; cbn; [set_solver|]. rewrite elem_of_app, elem_when, IH, elem_of_cons. naive_solver. }
  split; [intros Hin; rewrite Forall_forall in Hl; by specialize (Hl _ Hin)|]. intros Hf. subst l. rewrite <- Hf. destruct id; try done; cbn [flag_of]; rewrite !elem_of_cons; tauto.
Qed.

Lemma inv_start a0 desc : at_rest hashsz algo mem TREE_DESC_RAW_MODES desc 0 mem -> fsck_inv a0 (mkFs desc (mkTf false false false false false false false false false false false) a0 None (mkNs [] 0 0)) [] mem.
Proof using Type.
  intros Hat. constructor; cbn; [constructor|done|done|done|apply stack_empty|split; [done|intros Hx; by apply elem_of_nil in Hx]|split; [done|intros Hx; by apply elem_of_nil in Hx]|].
  exists []. split_and!; [apply ext_refl|intros id _ Hx; by apply elem_of_nil in Hx|]. intros id _. rewrite Exists_nil, elem_of_nil. split; [intros [[]|Hx]; by destruct id|done].
Qed.

(** What the flags and reports say about a tree in the end. *)
Lemma inv_end a0 s ts ids : fsck_inv a0 s ts [] -> acc_ext a0 ids (flag_reports error_func tree_oid (fs_flags s) (fs_acc s)) -> 
  (forall id, order_id id = false -> id ∈ ids <-> Exists (problem (fo_strict (fa_options a0)) max_tree_entry_len id) ts) /\
  (FSCK_MSG_DUPLICATE_ENTRIES ∈ ids <-> TREE_HAS_DUPS ∈ (orun ts).2) /\ (FSCK_MSG_TREE_NOT_SORTED ∈ ids <-> TREE_UNORDERED ∈ (orun ts).2).
Proof using All.
  intros Hinv Hend. destruct (fi_ids _ _ _ _ Hinv) as (ids1 & Hext & Hord & Hids). destruct (flag_reports_ok (fs_flags s) (fs_acc s)) as (ids2 & Hext2 & Hids2).
  assert (ids = ids1 ++ ids2) as ->. { pose proof (ae_trace _ _ _ Hend) as E. rewrite (ae_trace _ _ _ (ext_trans _ _ _ _ _ Hext Hext2)) in E. by apply app_inv_head in E. }
  split; [|split].
  - intros id Hid. by rewrite elem_of_app, Hids2, <- (Hids id Hid).
  - rewrite elem_of_app, Hids2, <- (fi_dup _ _ _ _ Hinv). cbn. specialize (Hord FSCK_MSG_DUPLICATE_ENTRIES eq_refl). tauto.
  - rewrite elem_of_app, Hids2, <- (fi_sorted _ _ _ _ Hinv). cbn. specialize (Hord FSCK_MSG_TREE_NOT_SORTED eq_refl). tauto.
Qed.

Lemma orun_exact ts : Forall (te_ok hashsz) ts -> is_bytes (tree_bytes ts) -> Forall (fun t => 47 ∉ te_name t) ts -> TREE_HAS_DUPS ∉ (orun ts).2 /\ TREE_UNORDERED ∉ (orun ts).2 <-> tree_in_order (te_dent <$> ts).
Proof using Type.
  intros Hts Hbytes Hsl. destruct ts as [|t ts]; [split; [intros _; split; constructor|intros _; split; intros Hx; by apply elem_of_nil in Hx]|].
  unfold orun. cbn [fmap list_fmap fold_left ostep]. rewrite orun_verdicts. cbn [app]. rewrite <- run_quiet. apply order_exact. change (te_dent t :: (te_dent <$> ts)) with (te_dent <$> t :: ts). generalize dependent (t :: ts). clear. intros ts Hts Hbytes Hsl.
  induction ts as [|t ts IH]; [constructor|]. apply Forall_cons in Hts as [[_ [Hne Hnz] _] Hts], Hsl as [Hs Hsl]. unfold tree_bytes in Hbytes. cbn in Hbytes. apply Forall_app in Hbytes as [Hbt Hbytes]. constructor; [|by apply IH]. split; [done|]. cbn.
  apply Forall_forall. intros c Hc. unfold te_bytes in Hbt. rewrite !Forall_app in Hbt. destruct Hbt as (_ & _ & Hbn & _). rewrite Forall_forall in Hbn, Hnz. specialize (Hbn c Hc). specialize (Hnz c Hc). unfold is_byte in Hbn. split; [lia|]. intros ->. done.
Qed.
End Walk.

(** C33: checking a tree.  On any bytes (fewer than 2 GiB) [fsck_tree] ends, dying only for lack of memory, and its return value is
    the sum of what the reports return.  If the bytes are a tree, a message other than the two about the order is reported exactly
    if some entry has the problem it is about: a null object name, a slash anywhere in the name (the documentation of
    [fullPathname] only mentions names that start with one), [.] and [..], a name that HFS+ or NTFS
    take for [.git] (behind a backslash too), a zero-padded mode, a mode that is not allowed, a name that is too
    long, and links called [.gitmodules], [.gitattributes], [.gitignore] or [.mailmap].  Only for a tree in which no name has a
    slash it is claimed that nothing is reported about the order exactly if the entries are sorted and no name is there twice: with
    slashes the check of the order can complain about a sorted tree ([slash_unsorted]).  If the bytes are not a tree, which is also the case if
    a name is empty, that is reported. *)
Theorem fsck_tree_exact `{OidSet T} `{Memory} (error_func : object_id -> fsck_msg_type_t -> fsck_msg_id -> Z) hashsz algo max_len mem tree_oid entry0 (options : @fsck_options T) :
  hashsz = 20 \/ hashsz = 32 -> algo = 1 \/ algo = 2 -> is_bytes mem -> len mem < 2 ^ 31 ->
  wp oom (fsck_tree error_func hashsz algo max_len mem tree_oid entry0 options) (fun a =>
    fa_retval a = foldr (fun id r => report error_func options tree_oid id + r) 0 (fa_trace a) /\
    (forall ts, Forall (te_ok hashsz) ts -> mem = tree_bytes ts ->
       (forall id, id <> FSCK_MSG_DUPLICATE_ENTRIES -> id <> FSCK_MSG_TREE_NOT_SORTED -> id ∈ fa_trace a <-> Exists (problem (fo_strict options) max_len id) ts) /\
       (Forall (fun t => 47 ∉ te_name t) ts ->
          FSCK_MSG_DUPLICATE_ENTRIES ∉ fa_trace a /\ FSCK_MSG_TREE_NOT_SORTED ∉ fa_trace a <-> tree_in_order (te_dent <$> ts))) /\
    ((forall ts, Forall (te_ok hashsz) ts -> mem <> tree_bytes ts) -> FSCK_MSG_BAD_TREE ∈ fa_trace a)).
Proof.
  intros Hsz Halgo Hb Hlen. pose (a0 := mkFa options 0 []).
  assert (forall a, bad_tree error_func hashsz mem tree_oid a0 a -> fa_retval a = foldr (fun id r => report error_func options tree_oid id + r) 0 (fa_trace a) /\ FSCK_MSG_BAD_TREE ∈ fa_trace a /\ forall ts, Forall (te_ok hashsz) ts -> mem <> tree_bytes ts) as Hbad.
  { intros a (Hn & ids & Hext & Hin). pose proof (ae_trace _ _ _ _ _ Hext) as Et. pose proof (ae_retval _ _ _ _ _ Hext) as Er. cbn in Et, Er. rewrite Et. split_and!; [done|done|]. intros ts Hts E. apply Hn. by exists ts. }
  unfold fsck_tree, init_tree_desc_gently, init_tree_desc_internal. cbv zeta.
  destruct (proj1 (total_ok _ _) (decode_at hashsz algo mem Hsz Halgo Hb Hlen TREE_DESC_RAW_MODES entry0 0 mem ltac:(lia) eq_refl)) as ([r d] & -> & Hr). cbn [mbind res_bind]. destruct Hr as [(-> & Hat)|(-> & Hn)]; [change (tr 0) with false|change (tr (-1)) with true]; cbv iota.
  2:{ apply wp_ret. destruct (Hbad (reported error_func tree_oid a0 FSCK_MSG_BAD_TREE)) as (Hret & Hin & Hno); [split; [done|]; eexists; split; [apply ext_reported|set_solver]|]. split_and!; [done| |done]. intros ts Hts E. by destruct (Hno ts Hts). }
  apply wp_bind. eapply wp_mono; [apply (fsck_loop_ok error_func hashsz algo max_len mem tree_oid Hsz Halgo Hb Hlen a0 _ _ [] mem); [by apply inv_start|lia]|]. intros s Hs. apply wp_ret.
  destruct (flag_reports_ok error_func hashsz algo max_len mem tree_oid Hsz Halgo Hb Hlen (fs_flags s) (fs_acc s)) as (ids2 & Hext2 & _). destruct Hs as [(ts' & Hinv)|(Hn & ids & Hext & Hin)].
  - destruct (fi_ids _ _ _ _ _ _ _ _ _ _ Hinv) as (ids1 & Hext1 & _). pose proof (ext_trans _ _ _ _ _ _ _ Hext1 Hext2) as Hall. pose proof (fi_ts _ _ _ _ _ _ _ _ _ _ Hinv) as Hts'. pose proof (fi_mem _ _ _ _ _ _ _ _ _ _ Hinv) as Em. rewrite app_nil_r in Em.
    destruct (inv_end error_func hashsz algo max_len mem tree_oid Hsz Halgo Hb Hlen a0 s ts' _ Hinv Hall) as (Hids & Hdup & Hsort). pose proof (ae_retval _ _ _ _ _ Hall) as Er. rewrite (ae_trace _ _ _ _ _ Hall). cbn [fa_trace a0 app] in *. split_and!; [exact Er| |].
    + intros ts Hts E. assert (ts = ts') as -> by (apply (tree_inj hashsz); [done|done|by rewrite <- E, <- Em]). split.
      * intros id H1 H2. apply Hids. unfold order_id. by rewrite !bool_decide_eq_false_2.
      * intros Hsl. rewrite Hdup, Hsort. apply (orun_exact hashsz); [done|by rewrite <- Em|done].
    + intros Hno. by destruct (Hno ts' Hts').
  - destruct (Hbad (flag_reports error_func tree_oid (fs_flags s) (fs_acc s))) as (Hret & Hbt & Hno); [split; [done|]; exists (ids ++ ids2); split; [by eapply ext_trans|set_solver]|]. split_and!; [done| |done]. intros ts Hts E. by destruct (Hno ts Hts).
Qed.

(** Sets of object names as lists, machines with enough memory and a callback that counts errors, for the examples. *)
#[local] Instance ex_oidset : OidSet (list object_id) := {
  oidset_contains l o := existsb (fun p => bool_decide (oid_hash p = oid_hash o)) l;
  oidset_insert l o := o :: l;
}.

#[local] Instance ex_memory : Memory := { git_alloc_limit := 0; libc_alloc _ := true }.

Definition ex_error (o : object_id) (t : fsck_msg_type_t) (id : fsck_msg_id) : Z := if bool_decide (t = FSCK_ERROR) then 1 else 0.

(** The files "a" and "a.b", and then the directory "a". *)
Definition ex_dups : list tentry :=
  [mkTe [1; 0; 0; 6; 4; 4] [97] (replicate 20 1); mkTe [1; 0; 0; 6; 4; 4] [97; 46; 98] (replicate 20 2); mkTe [4; 0; 0; 0; 0] [97] (replicate 20 3)].

Definition ex_fsck : res (@fsck_acc (list object_id)) :=
  fsck_tree ex_error 20 1 4096 (tree_bytes ex_dups) (mkOid [] 0) (mkNe (mkOid [] 0) 0 0 0) (mkFo false None [] [] []).

Lemma fsck_tree_exact_witness :
  ex_fsck = Ok (mkFa (mkFo false None [] [] []) 1 [FSCK_MSG_DUPLICATE_ENTRIES]) /\ ~ tree_in_order (te_dent <$> ex_dups).
Proof.
  assert (ex_fsck = Ok (mkFa (mkFo false None [] [] []) 1 [FSCK_MSG_DUPLICATE_ENTRIES])) as E by (vm_compute; reflexivity). split; [exact E|].
  pose proof (fsck_tree_exact ex_error 20 1 4096 (tree_bytes ex_dups) (mkOid [] 0) (mkNe (mkOid [] 0) 0 0 0) (mkFo false None [] [] [])
    ltac:(by left) ltac:(by left) ltac:(by apply (bool_decide_eq_true_1 _)) ltac:(done)) as Hx. fold ex_fsck in Hx. rewrite E in Hx. destruct Hx as (_ & Ht & _).
  destruct (Ht ex_dups) as [_ Ho]; [repeat constructor; cbn; done || (unfold octal_digit; lia)|reflexivity|]. rewrite <- Ho; [|by apply (bool_decide_eq_true_1 _)]. intros [Hd _]. apply Hd. apply list_elem_of_here.
Defined.

(** The directory "a" and then the file "a/b": the names in the order of their bytes. *)
Example slash_unsorted :
  let ts := [mkTe [4; 0; 0; 0; 0] [97] (replicate 20 1); mkTe [1; 0; 0; 6; 4; 4] [97; 47; 98] (replicate 20 2)] in
  exists a, fsck_tree ex_error 20 1 4096 (tree_bytes ts) (mkOid [] 0) (mkNe (mkOid [] 0) 0 0 0) (mkFo false None [] [] []) = Ok a /\
    fa_trace a = [FSCK_MSG_FULL_PATHNAME; FSCK_MSG_TREE_NOT_SORTED].
Proof. eexists. split; vm_compute; reflexivity. Qed.
