(* ===== verification/FsckCommit.v ===== *)
(** * Checking commits: [fsck_commit] of [fsck.c]

    [verify_headers] makes sure that the headers of an object end with a newline, which is what keeps the line by line parsing of
    [fsck_ident] and [fsck_commit] inside of the buffer; the buffer has no NUL behind it here.  The theorems: as long as a report of the two fatal
    messages and of a bad object name makes the check stop, it stays inside of the buffer, ends, and is silent exactly on the commits
    of the documented form; without that it reads an uninitialised pointer or never ends. *)

From stdpp Require Import prelude numbers list.
From S2P Require Import Prelude PatchDelta Alloc CString Hex FsckTree.

(** The strings "tree ", "parent ", "author " and "committer ". *)
Definition str_tree : list Z := [116; 114; 101; 101; 32].
Definition str_parent : list Z := [112; 97; 114; 101; 110; 116; 32].
Definition str_author : list Z := [97; 117; 116; 104; 111; 114; 32].
Definition str_committer : list Z := [99; 111; 109; 109; 105; 116; 116; 101; 114; 32].

Definition TIME_MAX : Z := 2 ^ 64 - 1.

(** A [time_t] of 64 bits. *)
Definition date_overflows (t : Z) : bool :=
  if TIME_MAX <=? t then true
  else
    let sys := if t <? 2 ^ 63 then t else t - 2 ^ 64 in
    negb (t =? u64 sys) || negb (Bool.eqb (t <? 1) (sys <? 1)).

Section Code.
(** What [report] returns for a message about this object, the buffer, and the algorithm of the repository. *)
Context (R : fsck_msg_id -> Z) (mem : list Z) (the_hash_algo : Z).

(** [strtoumax(p, &end, 10)] where [*p] is a digit: the value, [UINTMAX_MAX] when it is too large, and the end. *)
Definition parse_timestamp (p : Z) : res (Z * Z) :=
  n ← scan isdigit mem p;
  ds ← rd_slice mem p n;
  Ok (Z.min (2 ^ 64 - 1) (fold_left (fun v d => v * 10 + (d - 48)) ds 0), p + n).

Definition skip_literal (s : Z) (lit : list Z) : res (option Z) := skip_prefix mem s (lit ++ [0]) 0.

(** The return value, and the messages that were reported. *)
Abbreviation outcome := (Z * list fsck_msg_id)%type.

Definition said (id : fsck_msg_id) : outcome := (R id, [id]).

Definition verify_headers_step (size : Z) (i : Z) : res (Z + outcome) :=
  if i <? size then
    c ← rd mem i;
    if c =? 0 then Ok (inr (said FSCK_MSG_NUL_IN_HEADER))
    else if c =? 10 then
      d ← (if i + 1 <? size then d ← rd mem (i + 1); Ok (d =? 10) else Ok false);
      Ok (if (d : bool) then inr (0, []) else inl (i + 1))
    else Ok (inl (i + 1))
  else
    last ← (if tr size then c ← rd mem (size - 1); Ok (c =? 10) else Ok false);
    Ok (inr (if (last : bool) then (0, []) else said FSCK_MSG_UNTERMINATED_HEADER)).

Definition verify_headers (size : Z) : res outcome := loop (S (S (length mem))) (verify_headers_step size) 0.

(** [!isdigit(p[1]) || ... || p[5] != '\n'], from [p + i] on with [k] digits. *)
Fixpoint zone_digits (p : Z) (k : nat) : res bool :=
  c ← rd mem p;
  match k with
  | O => Ok (c =? 10)
  | S k => if isdigit c then zone_digits (p + 1) k else Ok false
  end.

(** From the start of the date on. *)
Definition ident_date (p : Z) : res outcome :=
  n ← scan (fun c => (c =? 32) || (c =? 9)) mem p;
  let p := p + n in
  c ← rd mem p;
  if negb (isdigit c) then Ok (said FSCK_MSG_BAD_DATE)
  else
    zero ← (if c =? 48 then d ← rd mem (p + 1); Ok (negb (d =? 32)) else Ok false);
    if (zero : bool) then Ok (said FSCK_MSG_ZERO_PADDED_DATE)
    else
      '(t, end_) ← parse_timestamp p;
      if date_overflows t then Ok (said FSCK_MSG_BAD_DATE_OVERFLOW)
      else
        bad ← (if end_ =? p then Ok true else c ← rd mem end_; Ok (negb (c =? 32)));
        if (bad : bool) then Ok (said FSCK_MSG_BAD_DATE)
        else
          let p := end_ + 1 in
          c ← rd mem p;
          ok ← (if (c =? 43) || (c =? 45) then zone_digits (p + 1) 4 else Ok false);
          if (ok : bool) then Ok (0, []) else Ok (said FSCK_MSG_BAD_TIMEZONE).

Definition ident_rest (p : Z) : res outcome :=
  c ← rd mem p;
  if c =? 60 then Ok (said FSCK_MSG_MISSING_NAME_BEFORE_EMAIL)
  else
    n ← strcspn mem p [60; 62; 10];
    let p := p + n in
    c ← rd mem p;
    if c =? 62 then Ok (said FSCK_MSG_BAD_NAME)
    else if negb (c =? 60) then Ok (said FSCK_MSG_MISSING_EMAIL)
    else
      c ← rd mem (p - 1);
      if negb (c =? 32) then Ok (said FSCK_MSG_MISSING_SPACE_BEFORE_EMAIL)
      else
        let p := p + 1 in
        n ← strcspn mem p [60; 62; 10];
        let p := p + n in
        c ← rd mem p;
        if negb (c =? 62) then Ok (said FSCK_MSG_BAD_EMAIL)
        else
          let p := p + 1 in
          c ← rd mem p;
          if negb (c =? 32) then Ok (said FSCK_MSG_MISSING_SPACE_BEFORE_DATE)
          else ident_date (p + 1).

(** The pointer that [*ident] becomes, and the outcome. *)
Definition fsck_ident (ident : Z) : res (Z * outcome) :=
  let p := ident in
  n ← scan (fun c => tr c && negb (c =? 10)) mem ident;
  let ident := ident + n in
  c ← rd mem ident;
  let ident := if c =? 10 then ident + 1 else ident in
  o ← ident_rest p;
  Ok (ident, o).

(** [parse_oid_hex(buffer, &oid, &p) || *p != '\n'], the name, and [p], which is [None] as long as it has not been set. *)
Definition oid_line (buffer : Z) (oid : object_id) (p : option Z) : res (bool * object_id * option Z) :=
  '(r, oid, e) ← parse_oid_hex the_hash_algo mem buffer oid 0;
  if tr r then Ok (true, oid, p)
  else c ← rd mem e; Ok (negb (c =? 10), oid, Some e).

(** The names that [fsck_commit] parses are not used. *)
Definition bad_oid_line (buffer : Z) (p : option Z) : res (bool * option Z) :=
  '(bad, _, p) ← oid_line buffer (mkOid (replicate 32 0) 0) p; Ok (bad, p).

(** [buffer = p + 1] *)
Definition after (p : option Z) : res Z := match p with None => Fault UB | Some p => Ok (p + 1) end.

(** The loop over the parents: [buffer], [p] and the messages; an early return is [inl]. *)
Definition parent_step (buffer_end : Z) (st : Z * option Z * list fsck_msg_id) : res (Z * option Z * list fsck_msg_id + (outcome + Z * list fsck_msg_id)) :=
  let '(buffer, p, t) := st in
  b ← (if buffer <? buffer_end then skip_literal buffer str_parent else Ok None);
  match b with
  | None => Ok (inr (inr (buffer, t)))
  | Some buffer =>
      '(bad, p) ← bad_oid_line buffer p;
      let '(err, t) := if (bad : bool) then (R FSCK_MSG_BAD_PARENT_SHA1, t ++ [FSCK_MSG_BAD_PARENT_SHA1]) else (0, t) in
      if tr err then Ok (inr (inl (err, t)))
      else buffer ← after p; Ok (inl (buffer, p, t))
  end.

(** The loop over the authors: [buffer], [author_count] and the messages. *)
Definition author_step (buffer_end : Z) (st : Z * Z * list fsck_msg_id) : res (Z * Z * list fsck_msg_id + (outcome + Z * Z * list fsck_msg_id)) :=
  let '(buffer, author_count, t) := st in
  b ← (if buffer <? buffer_end then skip_literal buffer str_author else Ok None);
  match b with
  | None => Ok (inr (inr (buffer, author_count, t)))
  | Some buffer =>
      '(buffer, (err, t')) ← fsck_ident buffer;
      if tr err then Ok (inr (inl (err, t ++ t'))) else Ok (inl (buffer, u32 (author_count + 1), t ++ t'))
  end.

(** From the committer on. *)
Definition commit_tail (size buffer : Z) (t : list fsck_msg_id) : res outcome :=
  b ← (if size <=? buffer then Ok None else skip_literal buffer str_committer);
  match b with
  | None => Ok (R FSCK_MSG_MISSING_COMMITTER, t ++ [FSCK_MSG_MISSING_COMMITTER])
  | Some buffer =>
      '(_, (err, t')) ← fsck_ident buffer;
      if tr err then Ok (err, t ++ t')
      else
        nul ← memchr mem 0 0 size;
        match nul with
        | None => Ok (0, t ++ t')
        | Some _ => Ok (R FSCK_MSG_NUL_IN_COMMIT, t ++ t' ++ [FSCK_MSG_NUL_IN_COMMIT])
        end
  end.

Definition commit_authors (fuel : nat) (size buffer : Z) (t : list fsck_msg_id) : res outcome :=
  r ← loop fuel (author_step size) (buffer, 0, t);
  match r with
  | inl o => Ok o
  | inr (buffer, author_count, t) =>
      let '(err, t) := if author_count <? 1 then (R FSCK_MSG_MISSING_AUTHOR, t ++ [FSCK_MSG_MISSING_AUTHOR])
                       else if 1 <? author_count then (R FSCK_MSG_MULTIPLE_AUTHORS, t ++ [FSCK_MSG_MULTIPLE_AUTHORS]) else (0, t) in
      if tr err then Ok (err, t) else commit_tail size buffer t
  end.

(** [fuel] bounds the loops; [size] is the size of the buffer. *)
Definition fsck_commit (fuel : nat) (size : Z) : res outcome :=
  '(v, t) ← verify_headers size;
  if tr v then Ok (-1, t)
  else
    b ← (if size <=? 0 then Ok None else skip_literal 0 str_tree);
    match b with
    | None => Ok (R FSCK_MSG_MISSING_TREE, t ++ [FSCK_MSG_MISSING_TREE])
    | Some buffer =>
        '(bad, p) ← bad_oid_line buffer None;
        let '(err, t) := if (bad : bool) then (R FSCK_MSG_BAD_TREE_SHA1, t ++ [FSCK_MSG_BAD_TREE_SHA1]) else (0, t) in
        if tr err then Ok (err, t)
        else
          buffer ← after p;
          r ← loop fuel (parent_step size) (buffer, p, t);
          match r with
          | inl o => Ok o
          | inr (buffer, t) => commit_authors fuel size buffer t
          end
    end.
End Code.

(** ** The form of a commit *)

(** A newline ends the headers: the buffer ends behind it, or an empty line follows. *)
Definition headers_end (m : list Z) : Prop := exists h t, m = h ++ 10 :: t /\ 0 ∉ h /\ (t = [] \/ exists t', t = 10 :: t').

(** What is left of a buffer at the start of a line of the headers. *)
Inductive hdr : list Z -> Prop :=
| hdr_nil : hdr []
| hdr_blank t : hdr (10 :: t)
| hdr_line l w : Forall (fun c => c <> 10 /\ c <> 0) l -> hdr w -> hdr (l ++ 10 :: w).

Definition in_line (l : list Z) : Prop := Forall (fun c => c <> 10 /\ c <> 0) l.

Definition decimal (ds : list Z) : Z := fold_left (fun v d => v * 10 + (d - 48)) ds 0.

(** Blanks, the seconds since 1970 without leading zeros, and a time zone. *)
Definition date_form (d : list Z) : Prop :=
  exists ws date s z, d = ws ++ date ++ 32 :: s :: z /\ Forall (fun c => c = 32 \/ c = 9) ws /\ date <> [] /\ Forall (fun c => isdigit c = true) date /\
    (hd 0 date = 48 -> date = [48]) /\ decimal date < 2 ^ 63 /\ (s = 43 \/ s = 45) /\ length z = 4%nat /\ Forall (fun c => isdigit c = true) z.

Definition no_angle (l : list Z) : Prop := Forall (fun c => c <> 60 /\ c <> 62) l.

(** A name that ends with a space, an address in angle brackets and a date. *)
Definition ident_form (l : list Z) : Prop :=
  exists name mail d, l = name ++ [32; 60] ++ mail ++ [62; 32] ++ d /\ no_angle name /\ no_angle mail /\ date_form d.

Section Form.
Context (hexlen : nat).

Definition oid_form (l : list Z) : Prop := length l = hexlen /\ Forall (fun c => hexdigit c <> None) l.

Definition tail_form (w : list Z) : Prop := exists i w', w = str_committer ++ i ++ 10 :: w' /\ in_line i /\ ident_form i.

Definition author_form (w : list Z) : Prop := exists i w', w = str_author ++ i ++ 10 :: w' /\ in_line i /\ ident_form i /\ tail_form w'.

Definition line (p l : list Z) : list Z := p ++ l ++ [10].

(** A tree, parents, an author and a committer, in headers that end, and no NUL. *)
Definition commit_form (m : list Z) : Prop :=
  headers_end m /\ 0 ∉ m /\ exists tree parents w, m = line str_tree tree ++ concat (line str_parent <$> parents) ++ w /\ oid_form tree /\ Forall oid_form parents /\ author_form w.
End Form.

(** ** Lines *)

Lemma line_unique l l' w w' : in_line l -> in_line l' -> l ++ 10 :: w = l' ++ 10 :: w' -> l = l' /\ w = w'.
Proof.
  revert l'. induction l as [|c l IH]; intros [|d l'] Hl Hl' E; cbn in E; [by injection E as ->|injection E; intros _ <-; apply Forall_cons in Hl' as [[] _]; done|injection E; intros _ ->; apply Forall_cons in Hl as [[] _]; done|]. injection E as <- E.
  apply Forall_cons in Hl as [_ Hl], Hl' as [_ Hl']. by destruct (IH l' Hl Hl' E) as [-> ->].
Qed.

Lemma hdr_inv w : hdr w -> w = [] \/ (exists t, w = 10 :: t) \/ (exists l w', w = l ++ 10 :: w' /\ l <> [] /\ in_line l /\ hdr w').
Proof. intros [|t|l w' Hl Hw]; [by left|right; left; by exists t|]. destruct l as [|c l]; [right; left; by exists w'|]. right. right. by exists (c :: l), w'. Qed.

Lemma headers_hdr m : headers_end m -> hdr m.
Proof.
  intros (h & t & -> & Hh & Ht). remember (length h) as n eqn:En. revert h En Hh. induction n as [n IH] using lt_wf_ind. intros h -> Hh.
  destruct (span_split (fun c => negb (c =? 10)) h) as (a & b & -> & _ & Ha & Hb). apply not_elem_of_app in Hh as [Ha0 Hb0].
  assert (in_line a) as Hl. { apply Forall_forall. intros c Hc. rewrite Forall_forall in Ha. specialize (Ha c Hc). split; [by apply negb_true_iff, Z.eqb_neq in Ha|intros ->; done]. }
  rewrite <- app_assoc. destruct b as [|c b]; cbn [app].
  - apply hdr_line; [done|]. destruct Ht as [->|(t' & ->)]; constructor.
  - specialize (Hb c b eq_refl). apply negb_false_iff, Z.eqb_eq in Hb as ->. apply hdr_line; [done|]. apply (IH (length b)); [rewrite length_app; cbn; lia|done|]. by apply not_elem_of_cons in Hb0 as [_ ?].
Qed.

Lemma headers_end_at m : headers_end m <-> exists k, m !! k = Some 10 /\ (forall j, (j < k)%nat -> m !! j <> Some 0) /\ (S k = length m \/ m !! S k = Some 10).
Proof.
  split.
  - intros (h & t & -> & Hh & Ht). exists (length h). split_and!; [by apply list_lookup_middle| |].
    + intros j Hj E. rewrite lookup_app_l in E by done. by apply list_elem_of_lookup_2 in E.
    + destruct Ht as [->|(t' & ->)]; [left; rewrite length_app; cbn; lia|right]. rewrite lookup_app_r by lia. by replace (S (length h) - length h)%nat with 1%nat by lia.
  - intros (k & Hk & Hz & Hn). exists (take k m), (drop (S k) m). pose proof (lookup_lt_Some _ _ _ Hk). split_and!; [by rewrite take_drop_middle| |].
    + intros (j & E)%list_elem_of_lookup_1. pose proof (lookup_lt_Some _ _ _ E) as Hj. rewrite length_take in Hj. rewrite lookup_take in E. case_decide; [|done]. by apply (Hz j).
    + destruct Hn as [Hn|Hn]; [left; apply drop_ge; lia|right]. exists (drop (S (S k)) m). by apply drop_S.
Qed.

(** Two splits at the end of a run. *)
Lemma run_unique (p : Z -> bool) a b a' b' : Forall (fun c => p c = true) a -> Forall (fun c => p c = true) a' -> p (hd 10 b) = false -> p (hd 10 b') = false ->
  a ++ b = a' ++ b' -> a = a' /\ b = b'.
Proof.
  revert a'. induction a as [|c a IH]; intros [|c' a'] Ha Ha' Hb Hb' E; cbn [app] in E; [done|subst b; apply Forall_cons in Ha' as [? _]; cbn in Hb; congruence|subst b'; apply Forall_cons in Ha as [? _]; cbn in Hb'; congruence|].
  injection E as <- E. apply Forall_cons in Ha as [_ Ha], Ha' as [_ Ha']. by destruct (IH a' Ha Ha' Hb Hb' E) as [-> ->].
Qed.

(** The blanks of a date are exactly the leading ones. *)
Definition seconds_form (b : list Z) : Prop :=
  exists date s z, b = date ++ 32 :: s :: z /\ date <> [] /\ Forall (fun c => isdigit c = true) date /\ (hd 0 date = 48 -> date = [48]) /\ decimal date < 2 ^ 63 /\
    (s = 43 \/ s = 45) /\ length z = 4%nat /\ Forall (fun c => isdigit c = true) z.

Lemma date_form_blanks ws b : Forall (fun c => (c =? 32) || (c =? 9) = true) ws -> (hd 10 b =? 32) || (hd 10 b =? 9) = false -> date_form (ws ++ b) <-> seconds_form b.
Proof.
  intros Hw Hb. split.
  - intros (ws' & date & s & z & E & Hw' & Hn & Hd & Hr).
    destruct (run_unique (fun c => (c =? 32) || (c =? 9)) ws b ws' (date ++ 32 :: s :: z)) as [-> ->]; [done| |done| |done|by exists date, s, z].
    + eapply Forall_impl; [exact Hw'|]. cbn. lia.
    + destruct date as [|d date]; [done|]. apply Forall_cons in Hd as [Hd _]. cbn. destruct (Z.eqb_spec d 32) as [->|]; [done|]. by destruct (Z.eqb_spec d 9) as [->|].
  - intros (date & s & z & -> & Hr). exists ws, date, s, z. split; [done|]. split; [|done]. eapply Forall_impl; [exact Hw|]. cbn. lia.
Qed.

(** The characters that [strcspn(p, "<>\n")] skips. *)
Abbreviation plain := (fun c : Z => tr c && negb (bool_decide (c ∈ [60; 62; 10]))).

Lemma plain_iff c : plain c = true <-> c <> 0 /\ c <> 10 /\ c <> 60 /\ c <> 62.
Proof. rewrite andb_true_iff, tr_true, negb_true_iff, bool_decide_eq_false, !not_elem_of_cons. split; [naive_solver|]. intros (? & ? & ? & ?). split_and!; try done. apply not_elem_of_nil. Qed.

Lemma plain_stop c : c = 10 \/ c = 60 \/ c = 62 -> plain c = false.
Proof. intros Hc. apply not_true_iff_false. rewrite plain_iff. lia. Qed.

Lemma no_angle_plain l : in_line l -> no_angle l -> Forall (fun c => plain c = true) l.
Proof. unfold in_line, no_angle. rewrite !Forall_forall. intros Hl Ha c Hc. apply plain_iff. specialize (Hl c Hc). specialize (Ha c Hc). tauto. Qed.

Lemma plain_no_angle l : Forall (fun c => plain c = true) l -> no_angle l.
Proof. intros Hl. eapply Forall_impl; [exact Hl|]. intros c Hc%plain_iff. tauto. Qed.

Definition mail_form (b : list Z) : Prop := exists mail d, b = mail ++ 62 :: 32 :: d /\ no_angle mail /\ date_form d.

Lemma ident_form_name a b : in_line (a ++ b) -> Forall (fun c => plain c = true) a -> plain (hd 10 b) = false ->
  ident_form (a ++ b) <-> exists a0 b', a = a0 ++ [32] /\ b = 60 :: b' /\ mail_form b'.
Proof.
  intros Hl Ha Hb. split.
  - intros (name & mail & d & E & Hn & Hm & Hd). change (name ++ [32; 60] ++ mail ++ [62; 32] ++ d) with (name ++ [32] ++ 60 :: mail ++ 62 :: 32 :: d) in E. rewrite app_assoc in E. rewrite E in Hl. apply Forall_app in Hl as [Hl _].
    destruct (run_unique plain a b (name ++ [32]) (60 :: mail ++ 62 :: 32 :: d)) as [-> ->]; [done| |done|apply plain_stop; cbn; lia|done|].
    + apply no_angle_plain; [done|]. apply Forall_app. split; [done|]. by repeat constructor.
    + exists name, (mail ++ 62 :: 32 :: d). split_and!; [done|done|]. by exists mail, d.
  - intros (a0 & b' & -> & -> & mail & d & -> & Hm & Hd). exists a0, mail, d. apply Forall_app in Ha as [Ha _]. split_and!; [by rewrite <- app_assoc|by apply plain_no_angle|done|done].
Qed.

Lemma mail_form_date m e : in_line (m ++ e) -> Forall (fun c => plain c = true) m -> plain (hd 10 e) = false -> mail_form (m ++ e) <-> exists d, e = 62 :: 32 :: d /\ date_form d.
Proof.
  intros Hl Hm He. split.
  - intros (mail & d & E & Hn & Hd). rewrite E in Hl. apply Forall_app in Hl as [Hl _]. destruct (run_unique plain m e mail (62 :: 32 :: d)) as [-> ->]; [done|by apply no_angle_plain|done|apply plain_stop; cbn; lia|done|by exists d].
  - intros (d & -> & Hd). exists m, d. split_and!; [done|by apply plain_no_angle|done].
Qed.

(** Hexadecimal digits do not cross the end of a line. *)
Lemma unhex_line n l w :
  (exists a b bs, l = a ++ b /\ oid_form (n * 2) a /\ unhex n (l ++ 10 :: w) = Some bs /\ unhex n a = Some bs) \/ (unhex n (l ++ 10 :: w) = None /\ ~ oid_form (n * 2) l).
Proof.
  revert l. induction n as [|n IH]; intros l; [left; exists [], l, []; split_and!; [done| |done|done]; by split|]. unfold oid_form. destruct l as [|a [|b l]]; [right; split; [by destruct w|by intros [? _]]|right; cbn; split; [by destruct (hexdigit a)|by intros [? _]]|].
  cbn [app unhex Nat.mul Nat.add]. destruct (hexdigit a) as [x|] eqn:Ea; cbn [mbind option_bind]; [|right; split; [done|]; rewrite Forall_cons; naive_solver].
  destruct (hexdigit b) as [y|] eqn:Eb; cbn [mbind option_bind]; [|right; split; [done|]; rewrite !Forall_cons; naive_solver]. destruct (IH l) as [(a' & b' & bs & -> & [Hl Hd] & -> & Eu)|[-> Hn]].
  - left. exists (a :: b :: a'), b', (x * 16 + y :: bs). split_and!; [done|cbn; by rewrite Hl|constructor; [congruence|]; by constructor; [congruence|]|done|]. cbn [unhex]. rewrite Ea, Eb. cbn [mbind option_bind]. by rewrite Eu.
  - right. split; [done|]. rewrite !Forall_cons. intros (E & _ & _ & Hd). apply Hn. split; [cbn in E; lia|done].
Qed.

(** The rest of a commit behind its tree. *)
Definition parents_form (hexlen : nat) (w : list Z) : Prop := exists ps w', w = concat (line str_parent <$> ps) ++ w' /\ Forall (oid_form hexlen) ps /\ author_form w'.

Lemma oid_in_line n l : oid_form n l -> in_line l.
Proof. intros [_ Hd]. eapply Forall_impl; [exact Hd|]. intros c Hc. split; intros ->; by apply Hc. Qed.

Lemma line_app p l w : line p l ++ w = p ++ l ++ 10 :: w.
Proof. unfold line. by rewrite <- !app_assoc. Qed.

(** The lines of a keyword. *)
Lemma keyword_line lit l w a w' : in_line l -> in_line a -> lit ++ l ++ 10 :: w = lit ++ a ++ 10 :: w' -> l = a /\ w = w'.
Proof. intros Hl Ha E. apply app_inv_head in E. by apply line_unique. Qed.

Lemma author_head w : author_form w -> hd 0 w = 97.
Proof. by intros (i & w' & -> & _). Qed.

Lemma tail_head w : tail_form w -> hd 0 w = 99.
Proof. by intros (i & w' & -> & _). Qed.

Lemma author_line l w : in_line l -> author_form (str_author ++ l ++ 10 :: w) <-> ident_form l /\ tail_form w.
Proof.
  intros Hl. split; [intros (i & w' & E & Hi & Hf & Ht); by destruct (keyword_line _ _ _ _ _ Hl Hi E) as [-> ->]|intros [Hf Ht]; by exists l, w].
Qed.

Lemma tail_line l w : in_line l -> tail_form (str_committer ++ l ++ 10 :: w) <-> ident_form l.
Proof. intros Hl. split; [intros (i & w' & E & Hi & Hf); by destruct (keyword_line _ _ _ _ _ Hl Hi E) as [-> _]|intros Hf; by exists l, w]. Qed.

Lemma parents_line n l w : in_line l -> parents_form n (str_parent ++ l ++ 10 :: w) <-> oid_form n l /\ parents_form n w.
Proof.
  intros Hl. split.
  - intros (ps & w' & E & Hps & Ha). destruct ps as [|x ps]; [cbn in E; subst w'; by apply author_head in Ha|]. cbn [fmap list_fmap concat] in E. apply Forall_cons in Hps as [Hx Hps].
    rewrite <- app_assoc, line_app in E. destruct (keyword_line _ _ _ _ _ Hl (oid_in_line _ _ Hx) E) as [-> ->]. split; [done|]. by exists ps, w'.
  - intros [Hx (ps & w' & -> & Hps & Ha)]. exists (l :: ps), w'. cbn [fmap list_fmap concat]. rewrite <- app_assoc, line_app. split_and!; [done|by constructor|done].
Qed.

Lemma parents_none n w : ~ str_parent `prefix_of` w -> parents_form n w <-> author_form w.
Proof.
  intros Hn. split; [|intros Ha; by exists [], w]. intros (ps & w' & -> & _ & Ha). destruct ps as [|x ps]; [done|]. exfalso. apply Hn. cbn [fmap list_fmap concat]. unfold line. rewrite <- !app_assoc. by eexists.
Qed.

Lemma commit_form_line n m : commit_form n m <-> headers_end m /\ 0 ∉ m /\ exists tree w, m = str_tree ++ tree ++ 10 :: w /\ oid_form n tree /\ parents_form n w.
Proof.
  unfold commit_form. do 2 f_equiv. split.
  - intros (tree & ps & w & -> & Ht & Hps & Ha). exists tree, (concat (line str_parent <$> ps) ++ w). rewrite line_app. split_and!; [done|done|]. by exists ps, w.
  - intros (tree & w & -> & Ht & ps & w' & -> & Hps & Ha). exists tree, ps, w'. by rewrite line_app.
Qed.

Section Parse.
Context (R : fsck_msg_id -> Z) (mem : list Z) (Hb : is_bytes mem).

(** The bytes from [q] on. *)
Definition at_text (q : Z) (w : list Z) : Prop := 0 <= q /\ drop (Z.to_nat q) mem = w.

Lemma at_app q a w : at_text q (a ++ w) -> at_text (q + len a) w.
Proof using Type. intros [Hq Hd]. pose proof (len_nonneg a). split; [lia|]. replace (Z.to_nat (q + len a)) with (Z.to_nat q + length a)%nat by llia. by rewrite <- drop_drop, Hd, drop_app_length. Qed.

Lemma at_rd q c w : at_text q (c :: w) -> rd mem q = Ok c.
Proof using Type. intros [Hq Hd]. by eapply rd_drop_cons. Qed.

Lemma at_rd_line q l w : at_text q (l ++ 10 :: w) -> rd mem q = Ok (hd 10 l).
Proof using Type. intros Hq. destruct l; by eapply at_rd. Qed.

(** A scan that a newline stops. *)
Lemma scan_line p q l w : p 10 = false -> at_text q (l ++ 10 :: w) ->
  exists a b, l = a ++ b /\ scan p mem q = Ok (len a) /\ Forall (fun c => p c = true) a /\ p (hd 10 b) = false /\ at_text (q + len a) (b ++ 10 :: w).
Proof using Type.
  intros Hp Hq. destruct (span_split p l) as (a & b & -> & _ & Ha & Hh). exists a, b. split; [done|]. rewrite <- app_assoc in Hq. pose proof Hq as [Hq0 Hd].
  assert (p (hd 10 b) = false) as Hs by (destruct b as [|c b]; [done|by apply (Hh c b)]). split_and!; [|done|done|by apply at_app]. destruct b as [|c b]; by eapply scan_ok.
Qed.

(** A literal without newline. *)
Lemma skip_at lit q w : at_text q w -> 10 ∈ w -> Forall (fun c => c <> 10 /\ c <> 0) lit ->
  skip_literal mem q lit = Ok (if bool_decide (lit `prefix_of` w) then Some (q + len lit) else None).
Proof using Type.
  intros Hq Hw Hl. unfold skip_literal, skip_prefix. assert (forall fuel pre lit q w, at_text q w -> 10 ∈ w -> Forall (fun c => c <> 10 /\ c <> 0) lit -> (length lit < fuel)%nat ->
    loop fuel (skip_prefix_step mem (pre ++ lit ++ [0])) (q, len pre) = Ok (if bool_decide (lit `prefix_of` w) then Some (q + len lit) else None)) as Hx; [|apply (Hx _ [] lit q w Hq Hw Hl); rewrite length_app; cbn; lia].
  clear. induction fuel as [|fuel IH]; intros pre lit q w Hq Hw Hl Hf; [lia|]. rewrite loop_S. unfold skip_prefix_step at 1. destruct lit as [|c lit].
  - rewrite (rd_mid pre 0 [] _ eq_refl : rd (pre ++ [] ++ [0]) (len pre) = Ok 0). cbn. rewrite bool_decide_eq_true_2 by apply prefix_nil. by rewrite Z.add_0_r.
  - apply Forall_cons in Hl as [[Hc1 Hc0] Hl]. rewrite (rd_mid pre c (lit ++ [0]) _ eq_refl : rd (pre ++ (c :: lit) ++ [0]) (len pre) = Ok c). cbn [mbind res_bind]. rewrite (proj2 (tr_true c) Hc0). cbn [negb].
    destruct w as [|d w]; [by apply elem_of_nil in Hw|]. rewrite (at_rd _ _ _ Hq). cbn [mbind res_bind]. destruct (Z.eqb_spec d c) as [->|Hn].
    + replace (len pre + 1) with (len (pre ++ [c])) by (rewrite len_app; done). replace (pre ++ (c :: lit) ++ [0]) with ((pre ++ [c]) ++ lit ++ [0]) by (by rewrite <- app_assoc).
      rewrite (IH (pre ++ [c]) lit (q + 1) w); [|by apply (at_app q [c] w)|apply elem_of_cons in Hw as [?|]; [congruence|done]|done|cbn in Hf; lia]. f_equal. rewrite len_cons. replace (q + 1 + len lit) with (q + (1 + len lit)) by lia.
      rewrite (bool_decide_ext (c :: lit `prefix_of` c :: w) (lit `prefix_of` w)); [done|]. split; [apply prefix_cons_inv_2|apply prefix_cons].
    + rewrite bool_decide_eq_false_2; [done|]. intros Hp. apply prefix_cons_inv_1 in Hp. congruence.
Qed.

(** The check is silent when the form holds, and reports one message otherwise. *)
Definition verdict (r : res (Z * list fsck_msg_id)) (form : Prop) : Prop := (form /\ r = Ok (0, [])) \/ (~ form /\ exists id, r = Ok (said R id)).

Lemma verify_headers_ok :
  (headers_end mem /\ verify_headers R mem (len mem) = Ok (0, [])) \/
  (~ headers_end mem /\ exists id, (id = FSCK_MSG_NUL_IN_HEADER \/ id = FSCK_MSG_UNTERMINATED_HEADER) /\ verify_headers R mem (len mem) = Ok (said R id)).
Proof using Type.
  unfold verify_headers. assert (forall fuel i, (i <= length mem < fuel + i)%nat -> (forall j, (j < i)%nat -> mem !! j <> Some 0) -> (forall j, (j < i)%nat -> mem !! j = Some 10 -> mem !! S j <> Some 10) ->
    let r := loop fuel (verify_headers_step R mem (len mem)) (Z.of_nat i) in
    (headers_end mem /\ r = Ok (0, [])) \/ (~ headers_end mem /\ exists id, (id = FSCK_MSG_NUL_IN_HEADER \/ id = FSCK_MSG_UNTERMINATED_HEADER) /\ r = Ok (said R id))) as Hx; [|apply (Hx _ 0%nat); [lia|intros ? ?; lia|intros ? ?; lia]].
  induction fuel as [|fuel IH]; intros i Hi Hz Hp; [lia|]. cbv zeta. rewrite loop_S. unfold verify_headers_step at 1 3. destruct (Z.ltb_spec (Z.of_nat i) (len mem)) as [Hlt|Hge].
  - destruct (lookup_lt_is_Some_2 mem i) as (c & Hc); [llia|]. rewrite (rd_Some mem (Z.of_nat i) c) by (rewrite ?Nat2Z.id; done || lia). cbn [mbind res_bind]. destruct (Z.eqb_spec c 0) as [->|Hc0].
    { right. split; [|eauto]. intros (k & Hk & Hkz & Hn)%headers_end_at. destruct (decide (i < k)%nat); [by apply (Hkz i)|]. destruct Hn as [Hn|Hn].
      - pose proof (lookup_lt_Some _ _ _ Hc). assert (k = i) by lia. congruence.
      - destruct (decide (k = i)); [congruence|]. apply (Hp k); [lia|done|done]. }
    assert (forall j, (j < S i)%nat -> mem !! j <> Some 0) as Hz' by (intros j Hj E; destruct (decide (j = i)) as [->|]; [congruence|by apply (Hz j); [lia|]]).
    destruct (Z.eqb_spec c 10) as [->|Hc1].
    + destruct (Z.ltb_spec (Z.of_nat i + 1) (len mem)) as [Hl1|Hg1].
      * destruct (lookup_lt_is_Some_2 mem (S i)) as (d & Hd); [llia|]. rewrite (rd_Some mem (Z.of_nat i + 1) d) by (rewrite ?(Z2Nat.inj_add _ 1), ?Nat2Z.id, ?Nat.add_1_r; done || lia). cbn [mbind res_bind]. destruct (Z.eqb_spec d 10) as [->|Hd1].
        -- left. split; [|done]. apply headers_end_at. exists i. eauto.
        -- replace (Z.of_nat i + 1) with (Z.of_nat (S i)) by lia. apply IH; [llia|done|]. intros j Hj E1 E2. destruct (decide (j = i)) as [->|]; [congruence|apply (Hp j); [lia|done|done]].
      * cbn [mbind res_bind]. replace (Z.of_nat i + 1) with (Z.of_nat (S i)) by lia. apply IH; [llia|done|]. intros j Hj E1 E2. destruct (decide (j = i)) as [->|]; [apply lookup_lt_Some in E2; llia|apply (Hp j); [lia|done|done]].
    + replace (Z.of_nat i + 1) with (Z.of_nat (S i)) by lia. apply IH; [llia|done|]. intros j Hj E1 E2. destruct (decide (j = i)) as [->|]; [congruence|apply (Hp j); [lia|done|done]].
  - assert (i = length mem) as -> by llia. destruct (tr (len mem)) eqn:Et.
    + apply tr_true in Et. destruct (lookup_lt_is_Some_2 mem (pred (length mem))) as (c & Hc); [llia|]. rewrite (rd_Some mem (len mem - 1) c) by (replace (Z.to_nat (len mem - 1)) with (pred (length mem)) by llia; done || llia). cbn [mbind res_bind]. destruct (Z.eqb_spec c 10) as [->|Hc1].
      * left. split; [|done]. apply headers_end_at. exists (pred (length mem)). split_and!; [done|intros j Hj; apply Hz; lia|left; llia].
      * right. split; [|eauto]. intros (k & Hk & _ & [Hn|Hn])%headers_end_at; [replace (pred (length mem)) with k in Hc by lia; congruence|]. apply (Hp k); [by apply lookup_lt_Some in Hk|done|done].
    + apply tr_false in Et. right. split; [|eauto]. intros (k & Hk & _)%headers_end_at. apply lookup_lt_Some in Hk. llia.
Qed.

Lemma zone_ok k q l w : at_text q (l ++ 10 :: w) -> in_line l -> zone_digits mem q k = Ok (bool_decide (length l = k /\ Forall (fun c => isdigit c = true) l)).
Proof using Type.
  revert q l. induction k as [|k IH]; intros q l Hq Hl; cbn [zone_digits]; rewrite (at_rd_line _ _ _ Hq); cbn [mbind res_bind].
  - destruct l as [|c l]; cbn [hd]; [by rewrite bool_decide_eq_true_2|]. rewrite bool_decide_eq_false_2 by (by intros [? _]). apply Forall_cons in Hl as [[Hc _] _]. by rewrite (proj2 (Z.eqb_neq c 10) Hc).
  - destruct l as [|c l]; cbn [hd]; [by rewrite bool_decide_eq_false_2 by (by intros [? _])|]. apply Forall_cons in Hl as [_ Hl]. destruct (isdigit c) eqn:Ec.
    + rewrite (IH (q + 1) l); [|by apply (at_app q [c])|done]. f_equal. apply bool_decide_ext. cbn [length]. rewrite Forall_cons. naive_solver lia.
    + rewrite bool_decide_eq_false_2; [done|]. rewrite Forall_cons. intros (_ & E & _). congruence.
Qed.

Lemma at_bytes q w : at_text q w -> is_bytes w.
Proof using Hb. intros [_ <-]. by apply Forall_drop. Qed.

Lemma decimal_nonneg ds : is_bytes ds -> Forall (fun c => isdigit c = true) ds -> 0 <= decimal ds.
Proof using Type.
  intros Hbs Hd. unfold decimal. assert (forall v, 0 <= v -> 0 <= fold_left (fun v d => v * 10 + (d - 48)) ds v) as Hx; [|by apply Hx].
  induction Hd as [|d ds Hd _ IH]; intros v Hv; [done|]. cbn. apply Forall_cons in Hbs as [Hby Hbs]. apply IH; [done|]. destruct (ctype_ascii d Hby) as (_ & E & _). rewrite E in Hd. unfold between in Hd. lia.
Qed.

Lemma date_overflows_ok v : 0 <= v -> date_overflows (Z.min (2 ^ 64 - 1) v) = negb (v <? 2 ^ 63).
Proof using Type.
  intros Hv. unfold date_overflows, TIME_MAX. destruct (Z.leb_spec (2 ^ 64 - 1) (Z.min (2 ^ 64 - 1) v)) as [H1|H1]; [destruct (Z.ltb_spec v (2 ^ 63)); [lia|done]|]. rewrite Z.min_r by lia.
  destruct (Z.ltb_spec v (2 ^ 63)) as [H2|H2].
  - rewrite u64_small by lia. rewrite Z.eqb_refl. by destruct (v <? 1).
  - rewrite (proj2 (Z.ltb_ge v 1)) by lia. rewrite (proj2 (Z.ltb_lt (v - 2 ^ 64) 1)) by lia. by rewrite orb_true_r.
Qed.

(** From the digits on. *)
Lemma seconds_run ds e : Forall (fun c => isdigit c = true) ds -> isdigit (hd 10 e) = false -> seconds_form (ds ++ e) <->
  exists s z, e = 32 :: s :: z /\ ds <> [] /\ (hd 0 ds = 48 -> ds = [48]) /\ decimal ds < 2 ^ 63 /\ (s = 43 \/ s = 45) /\ length z = 4%nat /\ Forall (fun c => isdigit c = true) z.
Proof using Type.
  intros Hd He. split.
  - intros (date & s & z & E & Hn & Hd' & Hr). destruct (run_unique isdigit ds e date (32 :: s :: z)) as [-> ->]; [done..|]. exists s, z. tauto.
  - intros (s & z & -> & Hr). exists ds, s, z. tauto.
Qed.

Lemma parse_timestamp_ok p ds e w : at_text p (ds ++ e ++ 10 :: w) -> scan isdigit mem p = Ok (len ds) -> parse_timestamp mem p = Ok (Z.min (2 ^ 64 - 1) (decimal ds), p + len ds).
Proof using Type.
  intros [Hp Hd] Es. unfold parse_timestamp. rewrite Es. cbn [mbind res_bind]. assert (exists x rest, e ++ 10 :: w = x :: rest) as (x & rest & E) by (destruct e; eauto). rewrite E in Hd.
  by rewrite (rd_slice_at _ _ _ _ _ Hp Hd).
Qed.

Lemma ident_date_ok q l w : at_text q (l ++ 10 :: w) -> in_line l -> verdict (ident_date R mem q) (date_form l).
Proof using Hb.
  intros Hq Hl. unfold ident_date. destruct (scan_line (fun c => (c =? 32) || (c =? 9)) q l w eq_refl Hq) as (ws & b & -> & -> & Hws & Hnb & Hq1). cbn [mbind res_bind]. cbv zeta.
  apply Forall_app in Hl as [_ Hl]. unfold verdict. rewrite (date_form_blanks ws b Hws Hnb). rewrite (at_rd_line _ _ _ Hq1). cbn [mbind res_bind]. clear Hws Hnb Hq. revert Hq1. generalize (q + len ws) as p. intros p Hp.
  destruct (scan_line isdigit p b w eq_refl Hp) as (ds & e & -> & Es & Hds & He & Hp1). rewrite (seconds_run ds e Hds He). rewrite <- app_assoc in Hp. pose proof (at_bytes _ _ Hp) as [Hbd _]%Forall_app.
  destruct ds as [|d ds]; cbn [app hd]. { rewrite He. cbn [negb]. right. split; [|eauto]. by intros (s & z & _ & ? & _). }
  rewrite (Forall_inv Hds). cbn [negb].
  assert (exists nx, rd mem (p + 1) = Ok nx /\ (nx = 32 <-> ds = [] /\ hd 10 e = 32)) as (nx & Enx & Hnx).
  { assert (at_text (p + 1) (ds ++ e ++ 10 :: w)) as Hp2 by (by apply (at_app p [d])). rewrite app_assoc in Hp2. exists (hd 10 (ds ++ e)). split; [by eapply at_rd_line|]. destruct ds as [|d' ds]; [cbn; tauto|]. cbn. apply Forall_cons in Hds as [_ [Hd' _]%Forall_cons].
    split; [intros ->; discriminate|intros [? _]; discriminate]. }
  destruct (decide (d = 48 /\ nx <> 32)) as [[-> Hx]|Hz].
  { rewrite Z.eqb_refl, Enx. cbn [mbind res_bind]. rewrite (proj2 (Z.eqb_neq nx 32) Hx). cbn [negb]. right. split; [|eauto]. intros (s & z & -> & _ & H0 & _). injection (H0 eq_refl) as ->. by apply Hx, Hnx. }
  assert ((if d =? 48 then x ← rd mem (p + 1); Ok (negb (x =? 32)) else Ok false) = Ok false) as ->.
  { destruct (Z.eqb_spec d 48); [|done]. rewrite Enx. cbn [mbind res_bind]. destruct (Z.eqb_spec nx 32); [done|]. tauto. }
  assert (d = 48 -> d :: ds = [48]) as Hz' by (intros ->; f_equal; destruct (Z.eq_dec nx 32); [tauto|naive_solver]). clear Hz Hnx Enx nx. cbn [mbind res_bind].
  rewrite (parse_timestamp_ok p (d :: ds) e w Hp Es). cbn [mbind res_bind]. rewrite date_overflows_ok by by apply decimal_nonneg. destruct (Z.ltb_spec (decimal (d :: ds)) (2 ^ 63)) as [Hov|Hov]; cbn [negb].
  2:{ right. split; [|eauto]. intros (s & z & _ & _ & _ & H & _). lia. }
  rewrite (proj2 (Z.eqb_neq (p + len (d :: ds)) p)) by (rewrite len_cons; pose proof (len_nonneg ds); lia). rewrite (at_rd_line _ _ _ Hp1). cbn [mbind res_bind]. apply Forall_app in Hl as [_ Hl].
  destruct e as [|c e]; [right; split; [by intros (s & z & ? & _)|eauto]|]. cbn [hd]. destruct (Z.eqb_spec c 32) as [->|Hc]; cbn [negb]; [|right; split; [intros (s & z & E & _); congruence|eauto]].
  apply (at_app _ [32]) in Hp1. change (len [32]) with 1 in Hp1. rewrite (at_rd_line _ _ _ Hp1). cbn [mbind res_bind]. apply Forall_cons in Hl as [_ Hl].
  destruct e as [|c e]; [right; split; [by intros (s & z & ? & _)|eauto]|]. cbn [hd]. destruct ((c =? 43) || (c =? 45)) eqn:Ec; cbn [mbind res_bind]; [|right; split; [intros (s & z & E & _ & _ & _ & Hs & _); injection E as -> ->; lia|eauto]].
  apply (at_app _ [c]) in Hp1. change (len [c]) with 1 in Hp1. apply Forall_cons in Hl as [_ Hl]. rewrite (zone_ok 4 _ e w Hp1 Hl). cbn [mbind res_bind]. destruct (bool_decide_reflect (length e = 4%nat /\ Forall (fun c => isdigit c = true) e)) as [[H4 Hd4]|Hn].
  - left. split; [|done]. exists c, e. split_and!; [done..|lia|done|done].
  - right. split; [|eauto]. intros (s & z & E & _ & _ & _ & _ & Hz). by injection E as -> ->.
Qed.

Lemma ident_rest_ok q l w : at_text q (l ++ 10 :: w) -> in_line l -> verdict (ident_rest R mem q) (ident_form l).
Proof using Hb.
  intros Hq Hl. unfold ident_rest, strcspn. rewrite (at_rd_line _ _ _ Hq). cbn [mbind res_bind].
  destruct (scan_line plain q l w (plain_stop 10 ltac:(lia)) Hq) as (a & b & -> & -> & Ha & Hnb & Hq1). unfold verdict. rewrite (ident_form_name a b Hl Ha Hnb). cbn [mbind res_bind]. cbv zeta. apply Forall_app in Hl as [_ Hl].
  destruct (Z.eqb_spec (hd 10 (a ++ b)) 60) as [E60|N60].
  { right. split; [|eauto]. intros (a0 & b' & -> & -> & _). destruct a0 as [|c a0]; [done|]. cbn in E60. subst c. apply Forall_cons in Ha as [Hx%plain_iff _]. lia. }
  rewrite (at_rd_line _ _ _ Hq1). cbn [mbind res_bind]. destruct (Z.eqb_spec (hd 10 b) 62) as [E62|N62]; [right; split; [|eauto]; by intros (a0 & b' & -> & -> & _)|].
  destruct (Z.eqb_spec (hd 10 b) 60) as [Eb|Nb]; cbn [negb]; [|right; split; [|eauto]; by intros (a0 & b' & -> & -> & _)].
  destruct b as [|c b]; [done|]. cbn in Eb. subst c. destruct a as [|x a _] using rev_ind; [done|].
  assert (rd mem (q + len (a ++ [x]) - 1) = Ok x) as ->.
  { rewrite <- !app_assoc in Hq. apply at_app in Hq. rewrite len_app. change (len [x]) with 1. replace (q + (len a + 1) - 1) with (q + len a) by lia. by eapply at_rd. }
  cbn [mbind res_bind]. destruct (Z.eqb_spec x 32) as [->|Hx]; cbn [negb]; [|right; split; [|eauto]; intros (a0 & b' & E & _); apply app_inj_tail in E as [_ E]; done].
  apply (at_app _ [60]) in Hq1. change (len [60]) with 1 in Hq1. revert Hq1. generalize (q + len (a ++ [32]) + 1) as p. intros p Hp. apply Forall_cons in Hl as [_ Hl].
  destruct (scan_line plain p b w (plain_stop 10 ltac:(lia)) Hp) as (m & e & -> & -> & Hm & He & Hp1). cbn [mbind res_bind]. rewrite (at_rd_line _ _ _ Hp1). cbn [mbind res_bind].
  assert ((exists a0 b', a ++ [32] = a0 ++ [32] /\ 60 :: m ++ e = 60 :: b' /\ mail_form b') <-> exists d, e = 62 :: 32 :: d /\ date_form d) as ->.
  { rewrite <- (mail_form_date m e Hl Hm He). split; [intros (a0 & b' & _ & [= <-] & ?); done|intros ?; by exists a, (m ++ e)]. }
  apply Forall_app in Hl as [_ Hl]. destruct e as [|c e]; [right; split; [by intros (d & ? & _)|cbn; eauto]|]. cbn [hd]. destruct (Z.eqb_spec c 62) as [->|Hc]; cbn [negb]; [|right; split; [intros (d & ? & _); congruence|eauto]].
  apply (at_app _ [62]) in Hp1. change (len [62]) with 1 in Hp1. rewrite (at_rd_line _ _ _ Hp1). cbn [mbind res_bind]. apply Forall_cons in Hl as [_ Hl].
  destruct e as [|c e]; [right; split; [by intros (d & ? & _)|cbn; eauto]|]. cbn [hd]. destruct (Z.eqb_spec c 32) as [->|Hc]; cbn [negb]; [|right; split; [intros (d & ? & _); congruence|eauto]].
  apply (at_app _ [32]) in Hp1. change (len [32]) with 1 in Hp1. apply Forall_cons in Hl as [_ Hl]. destruct (ident_date_ok _ e w Hp1 Hl) as [[Hd Er]|[Hd Er]].
  - left. split; [by exists e|done].
  - right. split; [|done]. intros (d & [= <-] & ?). done.
Qed.

(** The pointer moves to the next line. *)
Lemma fsck_ident_ok q l w : at_text q (l ++ 10 :: w) -> in_line l ->
  exists o, fsck_ident R mem q = Ok (q + len l + 1, o) /\ verdict (Ok o) (ident_form l) /\ at_text (q + len l + 1) w.
Proof using Hb.
  intros Hq Hl. unfold fsck_ident. rewrite (scan_ok _ mem q l 10 w (proj1 Hq) (proj2 Hq)); [|eapply Forall_impl; [exact Hl|]; intros c [H1 H0]; cbn beta; rewrite (proj2 (tr_true c) H0), (proj2 (Z.eqb_neq c 10) H1); done|done].
  cbn [mbind res_bind]. pose proof (at_app _ _ _ Hq) as Hq1. rewrite (at_rd _ _ _ Hq1). cbn [mbind res_bind]. rewrite Z.eqb_refl. apply (at_app _ [10]) in Hq1.
  destruct (ident_rest_ok q l w Hq Hl) as [[Hf Er]|[Hf (id & Er)]]; rewrite Er; eexists; (split; [done|]); (split; [|done]); [by left|right; eauto].
Qed.

Context (algo : Z) (Halgo : algo = 1 \/ algo = 2).

Abbreviation hexlen := (Z.to_nat (algo_rawsz algo) * 2)%nat.

(** A name ends at the end of its line. *)
Lemma line_nondigit q l w : at_text q (l ++ 10 :: w) -> nondigit_from mem q.
Proof using Type.
  intros Hq. exists (q + len l), 10. pose proof (at_app _ _ _ Hq) as [Hq1 Hd1]. assert (mem !! Z.to_nat (q + len l) = Some 10) as E by (rewrite <- (Nat.add_0_r (Z.to_nat _)), <- lookup_drop, Hd1; done).
  pose proof (len_nonneg l). split; [split; [lia|]|done]. apply lookup_lt_Some in E. llia.
Qed.

(** An object name and the end of its line. *)
Lemma oid_line_ok q l w oid p : at_text q (l ++ 10 :: w) -> in_line l -> len (oid_hash oid) = 32 ->
  (exists bs, oid_form hexlen l /\ unhex (Z.to_nat (algo_rawsz algo)) l = Some bs /\
     oid_line mem algo q oid p = Ok (false, mkOid (bs ++ replicate (Z.to_nat (32 - algo_rawsz algo)) 0) algo, Some (q + len l)) /\ at_text (q + len l + 1) w) \/
  (~ oid_form hexlen l /\ exists oid' p', oid_line mem algo q oid p = Ok (true, oid', p')).
Proof using Hb Halgo.
  intros Hq Hl Ho32. pose proof Hq as [Hq0 Hd]. unfold oid_line, parse_oid_hex, parse_oid_hex_algop. destruct (algop_ok algo Halgo) as (f & Ea & _ & _).
  pose proof (get_oid_hex_algop_gen mem q oid algo Hb Hq0 (line_nondigit q l w Hq) Ho32 Halgo) as Hg. rewrite Hd in Hg. destruct (unhex_line (Z.to_nat (algo_rawsz algo)) l w) as [(a & b & bs & -> & Ho & Eu & Eu')|[Eu Hno]]; rewrite Eu in Hg.
  2:{ right. split; [done|]. destruct Hg as (hash' & -> & _). cbn. eauto. }
  rewrite Hg. cbn [mbind res_bind tr negb Z.eqb]. rewrite Ea. cbn [mbind res_bind hexsz]. assert (len a = 2 * algo_rawsz algo) as El by (destruct Ho as [H _]; destruct Halgo as [-> | ->]; unfold len; rewrite H; done). rewrite <- El.
  rewrite <- app_assoc in Hq. apply at_app in Hq. rewrite (at_rd_line _ _ _ Hq). cbn. apply Forall_app in Hl as [_ Hl]. destruct b as [|c b].
  - left. rewrite app_nil_r. exists bs. split_and!; [done|done|done|]. by apply (at_app _ [10]) in Hq.
  - right. apply Forall_cons in Hl as [[Hc _] _]. cbn [hd]. rewrite (proj2 (Z.eqb_neq c 10) Hc). split; [|by eauto]. intros [H _]. destruct Ho as [H' _]. rewrite length_app in H. cbn in H. lia.
Qed.

Lemma bad_oid_line_ok q l w p : at_text q (l ++ 10 :: w) -> in_line l ->
  (oid_form hexlen l /\ bad_oid_line mem algo q p = Ok (false, Some (q + len l)) /\ at_text (q + len l + 1) w) \/
  (~ oid_form hexlen l /\ exists p', bad_oid_line mem algo q p = Ok (true, p')).
Proof using Hb Halgo.
  intros Hq Hl. unfold bad_oid_line. destruct (oid_line_ok q l w (mkOid (replicate 32 0) 0) p Hq Hl eq_refl) as [(bs & Ho & _ & -> & Hq2)|(Ho & oid' & p' & ->)]; [by left|right; eauto].
Qed.

Abbreviation size := (len mem).

(** A keyword at the start of a line. *)
Lemma keyword_at lit q w : at_text q w -> hdr w -> in_line lit -> lit <> [] ->
  (exists l w', w = lit ++ l ++ 10 :: w' /\ in_line l /\ hdr w' /\ q < size /\ skip_literal mem q lit = Ok (Some (q + len lit)) /\ at_text (q + len lit) (l ++ 10 :: w')) \/
  (~ lit `prefix_of` w /\ (q < size -> skip_literal mem q lit = Ok None)).
Proof using Type.
  intros Hq Hw Hlit Hne. destruct (hdr_inv w Hw) as [->|[(t & ->)|(l & w' & -> & Hl & Hin & Hw')]].
  - right. split; [intros ->%prefix_nil_inv; done|]. destruct Hq as [Hq0 Hd]. apply (f_equal length) in Hd. rewrite length_drop in Hd. cbn in Hd. llia.
  - right. assert (~ lit `prefix_of` 10 :: t) as Hn. { destruct lit as [|c lit]; [done|]. intros E%prefix_cons_inv_1. apply Forall_cons in Hlit as [[? _] _]. done. }
    split; [done|]. intros _. rewrite (skip_at lit q _ Hq) by (done || constructor). by rewrite bool_decide_eq_false_2.
  - assert (10 ∈ l ++ 10 :: w') as H10 by (apply elem_of_app; right; constructor). assert (q < size) as Hlt. { destruct Hq as [Hq0 Hd]. apply (f_equal length) in Hd. rewrite length_drop, length_app in Hd. cbn in Hd. llia. }
    pose proof (skip_at lit q _ Hq H10 Hlit) as Es. destruct (bool_decide_reflect (lit `prefix_of` l ++ 10 :: w')) as [[r E]|Hn]; [left|by right].
    assert (exists l', l = lit ++ l') as (l' & ->).
    { clear -E Hlit Hin. revert l Hin E. induction Hlit as [|c lit [Hc _] _ IH]; intros l Hin E; [by exists l|]. destruct l as [|d l]; cbn in E; [injection E; congruence|]. injection E as -> E. apply Forall_cons in Hin as [_ Hin]. destruct (IH l Hin E) as (l' & ->). by exists l'. }
    rewrite <- app_assoc in Hq. apply Forall_app in Hin as [_ Hin]. exists l', w'. split_and!; [by rewrite <- app_assoc|done|done|done|done|by apply at_app].
Qed.

Lemma parents_ok fuel q w p : at_text q w -> hdr w -> R FSCK_MSG_BAD_PARENT_SHA1 <> 0 -> (length w < fuel)%nat ->
  (exists q' w', loop fuel (parent_step R mem algo size) (q, p, []) = Ok (inr (q', [])) /\ at_text q' w' /\ hdr w' /\ (length w' <= length w)%nat /\ (parents_form hexlen w <-> author_form w')) \/
  (loop fuel (parent_step R mem algo size) (q, p, []) = Ok (inl (said R FSCK_MSG_BAD_PARENT_SHA1)) /\ ~ parents_form hexlen w).
Proof using Hb Halgo.
  intros Hq Hw HR. revert q w p Hq Hw. induction fuel as [|fuel IH]; intros q w p Hq Hw Hf; [lia|]. rewrite loop_S. unfold parent_step at 1 3.
  destruct (keyword_at str_parent q w Hq Hw) as [(l & w' & -> & Hl & Hw' & Hlt & -> & Hq1)|[Hn Es]]; [by repeat constructor|done| |].
  - rewrite (proj2 (Z.ltb_lt _ _) Hlt). cbn [mbind res_bind]. destruct (bad_oid_line_ok _ l w' p Hq1 Hl) as [(Ho & -> & Hq2)|(Ho & p' & ->)]; cbn [mbind res_bind].
    + cbn [tr Z.eqb negb after mbind res_bind]. destruct (IH _ w' (Some (q + len str_parent + len l)) Hq2 Hw') as [(q' & w2 & E & Ht & Hh & Hle & Hiff)|[E Hno]]; [rewrite !length_app in Hf; cbn in Hf; lia| |].
      * left. exists q', w2. split_and!; [done|done|done|rewrite !length_app; cbn; lia|]. rewrite (parents_line _ _ _ Hl). tauto.
      * right. split; [done|]. rewrite (parents_line _ _ _ Hl). tauto.
    + rewrite (proj2 (tr_true _) HR). cbn [app]. right. split; [done|]. rewrite (parents_line _ _ _ Hl). tauto.
  - left. exists q, w. assert ((if q <? size then skip_literal mem q str_parent else Ok None) = Ok None) as -> by (destruct (Z.ltb_spec q size); [auto|done]). split_and!; [done|done|done|done|by apply parents_none].
Qed.

(** However the authors look, the loop ends at the start of a line; an early end has something to report. *)
Lemma authors_run fuel q w cnt t : at_text q w -> hdr w -> 0 <= cnt -> cnt + len w < 2 ^ 32 -> (length w < fuel)%nat ->
  exists r, loop fuel (author_step R mem size) (q, cnt, t) = Ok r /\
    match r with
    | inl (_, t') => exists t1, t' = t ++ t1 /\ t1 <> []
    | inr (q', cnt', t') => exists w' t1, t' = t ++ t1 /\ cnt <= cnt' /\ at_text q' w' /\ hdr w'
    end.
Proof using Hb.
  revert q w cnt t. induction fuel as [|fuel IH]; intros q w cnt t Hq Hw Hc Hcw Hf; [lia|]. rewrite loop_S. unfold author_step at 1.
  destruct (keyword_at str_author q w Hq Hw) as [(l & w' & -> & Hl & Hw' & Hlt & -> & Hq1)|[Hn Es]]; [by repeat constructor|done| |].
  - rewrite (proj2 (Z.ltb_lt _ _) Hlt). cbn [mbind res_bind]. rewrite !len_app, len_cons in Hcw. rewrite !length_app in Hf. cbn [length] in Hf. pose proof (len_nonneg l). pose proof (len_nonneg w').
    destruct (fsck_ident_ok _ l w' Hq1 Hl) as ([e t'] & -> & Hv & Hq2). cbn [mbind res_bind]. destruct (tr e) eqn:Ee.
    + exists (inl (e, t ++ t')). split; [done|]. exists t'. split; [done|]. destruct Hv as [[_ [= -> ->]]|[_ (id & [= -> ->])]]; done.
    + change (len str_author) with 7 in *. rewrite u32_small by lia. destruct (IH _ w' (cnt + 1) (t ++ t') Hq2 Hw' ltac:(lia) ltac:(lia) ltac:(lia)) as ([[e' t2]|[[q' c'] t2]] & E & Hr); eexists; (split; [exact E|]); cbn beta iota in Hr |- *.
      * destruct Hr as (t1 & -> & Ht1). exists (t' ++ t1). split; [by rewrite app_assoc|]. intros [_ ?]%app_eq_nil. done.
      * destruct Hr as (w2 & t1 & -> & Hle & Ht & Hh). exists w2, (t' ++ t1). split_and!; [by rewrite app_assoc|lia|done|done].
  - assert ((if q <? size then skip_literal mem q str_author else Ok None) = Ok None) as -> by (destruct (Z.ltb_spec q size); [auto|done]). eexists. split; [done|]. exists w, []. split_and!; [by rewrite app_nil_r|lia|done|done].
Qed.

(** What a part of the check promises: it is silent, and returns 0, exactly on the form. *)
Definition silent_on (r : res (Z * list fsck_msg_id)) (form : Prop) : Prop := exists ret msgs, r = Ok (ret, msgs) /\ (msgs = [] <-> form) /\ (msgs = [] -> ret = 0).

#[local] Instance silent_on_proper r : Proper (iff ==> iff) (silent_on r).
Proof using Type. intros P Q H. unfold silent_on. by setoid_rewrite H. Qed.

Lemma loud ret msgs id form : ~ form -> silent_on (Ok (ret, msgs ++ [id])) form.
Proof using Type. intros Hf. exists ret, (msgs ++ [id]). split; [done|]. split; [split; [|done]|]; intros E; apply app_eq_nil in E as [_ ?]; done. Qed.

Lemma commit_tail_ok q w t : at_text q w -> hdr w -> silent_on (commit_tail R mem size q t) (t = [] /\ tail_form w /\ 0 ∉ mem).
Proof using Hb Halgo.
  intros Hq Hw. unfold commit_tail. rewrite Z.leb_antisym. destruct (keyword_at str_committer q w Hq Hw) as [(l & w' & -> & Hl & Hw' & Hlt & -> & Hq1)|[Hn Es]]; [by repeat constructor|done| |].
  - rewrite (proj2 (Z.ltb_lt _ _) Hlt). cbn [mbind res_bind negb]. destruct (fsck_ident_ok _ l w' Hq1 Hl) as ([e t'] & -> & Hv & Hq2). cbn [mbind res_bind]. rewrite (tail_line l w' Hl). destruct (tr e) eqn:Ee.
    { destruct Hv as [[_ [= -> ->]]|[Hf (id & [= -> ->])]]; [done|]. apply loud. tauto. }
    unfold memchr. rewrite (rd_slice_ok mem 0 size) by (pose proof (len_nonneg mem); lia). cbn [mbind res_bind]. unfold slice. rewrite drop_0, take_ge by llia. cbn [Z.to_nat]. destruct (span_split (fun x => negb (x =? 0)) mem) as (a & b & E & Ha & Hza & Hzb). rewrite <- Ha.
    assert (0 ∉ a) as Ha0. { intros Hin. rewrite Forall_forall in Hza. specialize (Hza 0 Hin). done. }
    destruct b as [|c b].
    + rewrite decide_False by (rewrite E, app_nil_r; lia). exists 0, (t ++ t'). split; [done|]. split; [|done]. rewrite E, app_nil_r. split.
      * intros [-> ->]%app_eq_nil. split; [done|]. split; [|done]. destruct Hv as [[? _]|[_ (id & [= ? ?])]]; done.
      * intros (-> & Hf & _). destruct Hv as [[_ [= -> ->]]|[? _]]; done.
    + specialize (Hzb c b eq_refl). apply negb_false_iff, Z.eqb_eq in Hzb as ->. rewrite decide_True by (rewrite E, length_app; cbn; lia). rewrite app_assoc. apply loud. intros (_ & _ & H). apply H. rewrite E. apply elem_of_app. right. constructor.
  - assert ((if negb (q <? size) then Ok None else skip_literal mem q str_committer) = Ok None) as -> by (destruct (Z.ltb_spec q size); cbn [negb]; [auto|done]). cbn [mbind res_bind]. apply loud. intros (_ & (i & w' & -> & _) & _). apply Hn. by eexists.
Qed.

Lemma commit_authors_ok fuel q w : at_text q w -> hdr w -> size < 2 ^ 32 -> (length mem < fuel)%nat -> silent_on (commit_authors R mem fuel size q []) (author_form w /\ 0 ∉ mem).
Proof using Hb Halgo.
  intros Hq Hw Hsz Hf. assert (length w <= length mem)%nat as Hwm by (destruct Hq as [_ <-]; rewrite length_drop; lia). unfold commit_authors. destruct fuel as [|fuel]; [lia|]. rewrite loop_S. unfold author_step at 1.
  destruct (keyword_at str_author q w Hq Hw) as [(l & w' & -> & Hl & Hw' & Hlt & -> & Hq1)|[Hn Es]]; [by repeat constructor|done| |].
  2:{ assert ((if q <? size then skip_literal mem q str_author else Ok None) = Ok None) as -> by (destruct (Z.ltb_spec q size); [auto|done]). cbn [mbind res_bind Z.ltb Z.compare app].
      assert (~ author_form w) as Hno by (intros (i & w' & -> & _); apply Hn; by eexists). destruct (tr (R FSCK_MSG_MISSING_AUTHOR)); [apply (loud _ []); tauto|].
      eapply silent_on_proper; [|by apply (commit_tail_ok q w)]. naive_solver. }
  rewrite (proj2 (Z.ltb_lt _ _) Hlt). cbn [mbind res_bind]. rewrite !length_app in Hwm. cbn [length] in Hwm. change (length str_author) with 7%nat in Hwm. rewrite (author_line l w' Hl).
  destruct (fsck_ident_ok _ l w' Hq1 Hl) as ([e t'] & -> & Hv & Hq2). cbn [mbind res_bind]. destruct (tr e) eqn:Ee.
  { destruct Hv as [[_ [= -> ->]]|[Hno (id & [= -> ->])]]; [done|]. apply (loud _ []). tauto. }
  assert (t' = [] <-> ident_form l) as Ht'. { destruct Hv as [[? [= -> ->]]|[? (id & [= -> ->])]]; [done|]. split; [done|]. tauto. }
  cbn [app]. change (u32 (0 + 1)) with 1. destruct (decide (str_author `prefix_of` w')) as [Hpre|Hnpre].
  - assert (~ tail_form w') as Hnt by (intros Ht%tail_head; destruct Hpre as (r & ->); done). destruct fuel as [|fuel]; [lia|]. rewrite loop_S. unfold author_step at 1.
    destruct (keyword_at str_author _ w' Hq2 Hw') as [(l2 & w2 & -> & Hl2 & Hw2 & Hlt2 & -> & Hq3)|[Hn _]]; [by repeat constructor|done| |done].
    rewrite (proj2 (Z.ltb_lt _ _) Hlt2). cbn [mbind res_bind]. destruct (fsck_ident_ok _ l2 w2 Hq3 Hl2) as ([e2 t2] & -> & Hv2 & Hq4). cbn [mbind res_bind]. destruct (tr e2) eqn:Ee2.
    { destruct Hv2 as [[_ [= -> ->]]|[_ (id & [= -> ->])]]; [done|]. apply loud. tauto. }
    rewrite !length_app in Hwm. cbn [length] in Hwm. change (length str_author) with 7%nat in Hwm. change (u32 (1 + 1)) with 2.
    destruct (authors_run fuel _ w2 2 (t' ++ t2) Hq4 Hw2) as ([[e' t3]|[[q' c'] t3]] & -> & Hr); [lia|llia|lia| |]; cbn [mbind res_bind].
    + destruct Hr as (t1 & -> & Ht1). exists e', ((t' ++ t2) ++ t1). split; [done|]. split; [split; [|tauto]|]; intros [_ ?]%app_eq_nil; done.
    + destruct Hr as (w3 & t1 & -> & Hle & Hq5 & Hw3). rewrite (proj2 (Z.ltb_ge c' 1)) by lia. rewrite (proj2 (Z.ltb_lt 1 c')) by lia. destruct (tr (R FSCK_MSG_MULTIPLE_AUTHORS)); [apply loud; tauto|].
      eapply silent_on_proper; [|by apply (commit_tail_ok q' w3)]. split; [tauto|]. intros [[_ ?]%app_eq_nil _]. done.
  - destruct fuel as [|fuel]; [lia|]. rewrite loop_S. unfold author_step at 1. destruct (keyword_at str_author _ w' Hq2 Hw') as [(l2 & w2 & -> & _)|[_ Es]]; [by repeat constructor|done|destruct Hnpre; by eexists|].
    assert ((if q + len str_author + len l + 1 <? size then skip_literal mem (q + len str_author + len l + 1) str_author else Ok None) = Ok None) as -> by (destruct (Z.ltb_spec (q + len str_author + len l + 1) size); [auto|done]).
    cbn [mbind res_bind Z.ltb Z.compare Pos.compare Pos.compare_cont tr Z.eqb negb]. eapply silent_on_proper; [|by apply (commit_tail_ok _ w')]. tauto.
Qed.

Lemma fsck_commit_ok fuel : R FSCK_MSG_NUL_IN_HEADER <> 0 -> R FSCK_MSG_UNTERMINATED_HEADER <> 0 -> R FSCK_MSG_BAD_TREE_SHA1 <> 0 -> R FSCK_MSG_BAD_PARENT_SHA1 <> 0 ->
  size < 2 ^ 32 -> (length mem < fuel)%nat -> silent_on (fsck_commit R mem algo fuel size) (commit_form hexlen mem).
Proof using Hb Halgo.
  intros HR1 HR2 HR3 HR4 Hsz Hf. unfold fsck_commit. rewrite commit_form_line. destruct verify_headers_ok as [[Hh ->]|[Hh (id & Hid & ->)]]; cbn [mbind res_bind].
  2:{ assert (R id <> 0) as HR by (by destruct Hid as [-> | ->]). unfold said. rewrite (proj2 (tr_true _) HR). apply (loud _ []). tauto. }
  cbn [tr Z.eqb negb]. assert (at_text 0 mem) as H0 by (by split). rewrite Z.leb_antisym. destruct (keyword_at str_tree 0 mem H0 (headers_hdr _ Hh)) as [(l & w & E & Hl & Hw & Hlt & -> & Hq1)|[Hn Es]]; [by repeat constructor|done| |].
  2:{ assert ((if negb (0 <? size) then Ok None else skip_literal mem 0 str_tree) = Ok None) as -> by (destruct (Z.ltb_spec 0 size); cbn [negb]; [auto|done]). cbn [mbind res_bind]. apply (loud _ []). intros (_ & _ & tree & w & E & _). apply Hn. exists (tree ++ 10 :: w). done. }
  rewrite (proj2 (Z.ltb_lt _ _) Hlt). cbn [mbind res_bind negb].
  assert ((exists tree w, mem = str_tree ++ tree ++ 10 :: w /\ oid_form hexlen tree /\ parents_form hexlen w) <-> oid_form hexlen l /\ parents_form hexlen w) as ->.
  { split; [|intros ?; by exists l, w]. intros (tree & w' & E' & Ho & Hp). rewrite E in E'. by destruct (keyword_line _ _ _ _ _ Hl (oid_in_line _ _ Ho) E') as [-> ->]. }
  destruct (bad_oid_line_ok _ l w None Hq1 Hl) as [(Ho & -> & Hq2)|(Ho & p' & ->)]; cbn [mbind res_bind].
  2:{ rewrite (proj2 (tr_true _) HR3). apply (loud _ []). tauto. }
  cbn [tr Z.eqb negb after mbind res_bind]. assert (length w < fuel)%nat as Hwf by (apply (f_equal length) in E; rewrite !length_app in E; cbn in E; lia).
  destruct (parents_ok fuel _ w (Some (0 + len str_tree + len l)) Hq2 Hw HR4 Hwf) as [(q' & w' & -> & Ht & Hw' & Hle & Hiff)|[-> Hno]]; cbn [mbind res_bind].
  - eapply silent_on_proper; [|by apply (commit_authors_ok fuel q' w')]. tauto.
  - apply (loud _ []). tauto.
Qed.

(** A line that does not even start with an object name leaves the pointer alone. *)
Definition no_oid (l : list Z) : Prop := forall a b, l = a ++ b -> ~ oid_form hexlen a.

Lemma bad_oid_line_keeps q l w p : at_text q (l ++ 10 :: w) -> in_line l -> no_oid l -> bad_oid_line mem algo q p = Ok (true, p).
Proof using Hb Halgo.
  intros Hq Hl Hno. pose proof Hq as [Hq0 Hd]. unfold bad_oid_line, oid_line, parse_oid_hex, parse_oid_hex_algop.
  pose proof (get_oid_hex_algop_gen mem q (mkOid (replicate 32 0) 0) algo Hb Hq0 (line_nondigit q l w Hq) eq_refl Halgo) as Hg. rewrite Hd in Hg.
  destruct (unhex_line (Z.to_nat (algo_rawsz algo)) l w) as [(a & b & bs & -> & Ho & Eu & _)|[Eu _]]; [by destruct (Hno a b)|]. rewrite Eu in Hg. by destruct Hg as (hash' & -> & _).
Qed.

(** The same line is read again and again. *)
Lemma parents_stuck fuel q l w t : at_text q (str_parent ++ l ++ 10 :: w) -> hdr (str_parent ++ l ++ 10 :: w) -> in_line l -> no_oid l -> R FSCK_MSG_BAD_PARENT_SHA1 = 0 ->
  loop fuel (parent_step R mem algo size) (q, Some (q - 1), t) = Fault OutOfFuel.
Proof using Hb Halgo.
  intros Hq Hw Hl Hno HR. revert t. induction fuel as [|fuel IH]; intros t; [done|]. rewrite loop_S. unfold parent_step at 1.
  destruct (keyword_at str_parent q _ Hq Hw) as [(l' & w' & E & Hl' & _ & Hlt & -> & Hq1)|[Hn _]]; [by repeat constructor|done| |destruct Hn; by eexists].
  destruct (keyword_line _ _ _ _ _ Hl Hl' E) as [<- <-]. rewrite (proj2 (Z.ltb_lt _ _) Hlt). cbn [mbind res_bind]. rewrite (bad_oid_line_keeps _ l w _ Hq1 Hl Hno). cbn [mbind res_bind]. rewrite HR. cbn [tr Z.eqb negb after mbind res_bind].
  replace (q - 1 + 1) with q by lia. apply IH.
Qed.

Lemma fsck_commit_stuck fuel tree l w : (forall id, R id = 0) -> headers_end mem -> mem = str_tree ++ tree ++ 10 :: str_parent ++ l ++ 10 :: w -> oid_form hexlen tree -> in_line l -> no_oid l ->
  fsck_commit R mem algo fuel size = Fault OutOfFuel.
Proof using Hb Halgo.
  intros HR Hh E Ht Hl Hno. unfold fsck_commit. destruct verify_headers_ok as [[_ ->]|[? _]]; [|done]. cbn [mbind res_bind tr Z.eqb negb]. rewrite Z.leb_antisym.
  destruct (keyword_at str_tree 0 mem (conj (Z.le_refl 0) eq_refl) (headers_hdr _ Hh)) as [(l0 & w0 & E0 & Hl0 & Hw0 & Hlt & -> & Hq)|[Hn _]]; [by repeat constructor|done| |destruct Hn; by eexists].
  pose proof E0 as E1. rewrite E in E1. destruct (keyword_line _ _ _ _ _ (oid_in_line _ _ Ht) Hl0 E1) as [<- <-]. rewrite (proj2 (Z.ltb_lt _ _) Hlt). cbn [mbind res_bind negb].
  destruct (bad_oid_line_ok _ tree _ None Hq Hl0) as [(_ & -> & Hq2)|[? _]]; [|done]. cbn [tr Z.eqb negb after mbind res_bind].
  pose proof (parents_stuck fuel _ l w [] Hq2 Hw0 Hl Hno (HR _)) as Hs. replace (0 + len str_tree + len tree + 1 - 1) with (0 + len str_tree + len tree) in Hs by lia. by rewrite Hs.
Qed.

Lemma fsck_commit_unset fuel l w : (forall id, R id = 0) -> headers_end mem -> mem = str_tree ++ l ++ 10 :: w -> in_line l -> no_oid l -> fsck_commit R mem algo fuel size = Fault UB.
Proof using Hb Halgo.
  intros HR Hh E Hl Hno. unfold fsck_commit. destruct verify_headers_ok as [[_ ->]|[? _]]; [|done]. cbn [mbind res_bind tr Z.eqb negb]. rewrite Z.leb_antisym.
  destruct (keyword_at str_tree 0 mem (conj (Z.le_refl 0) eq_refl) (headers_hdr _ Hh)) as [(l0 & w0 & E0 & Hl0 & _ & Hlt & -> & Hq)|[Hn _]]; [by repeat constructor|done| |destruct Hn; by eexists].
  rewrite E in E0. destruct (keyword_line _ _ _ _ _ Hl Hl0 E0) as [<- <-]. rewrite (proj2 (Z.ltb_lt _ _) Hlt). cbn [mbind res_bind negb]. rewrite (bad_oid_line_keeps _ l w _ Hq Hl Hno). cbn [mbind res_bind]. by rewrite HR.
Qed.
End Parse.

(** ** The reports *)

Section Reports.
Context `{OidSet T} (error_func : object_id -> fsck_msg_type_t -> fsck_msg_id -> Z) (options : @fsck_options T) (oid : object_id).

Lemma report_stops id : object_on_skiplist options oid = false -> error_func oid FSCK_ERROR id <> 0 -> fsck_msg_type id options = FSCK_ERROR \/ fsck_msg_type id options = FSCK_FATAL ->
  report error_func options oid id <> 0.
Proof using Type. intros Hs He Ht. unfold report, fsck_vreport. rewrite Hs. destruct Ht as [-> | ->]; exact He. Qed.

Lemma report_skipped id : object_on_skiplist options oid = true -> report error_func options oid id = 0.
Proof using Type. intros Hs. unfold report. by rewrite Hs. Qed.
End Reports.

(** The messages whose report has to stop the check. *)
Definition stopping : list fsck_msg_id := [FSCK_MSG_NUL_IN_HEADER; FSCK_MSG_UNTERMINATED_HEADER; FSCK_MSG_BAD_TREE_SHA1; FSCK_MSG_BAD_PARENT_SHA1].

(** C34: for every content of a commit, without any NUL behind it, [fsck_commit] stays inside of the buffer and ends, as long as the object is
    not on the skip list and an unterminated header or a bad name of a tree or parent is an error; it reports nothing, and returns 0,
    exactly when the content is a tree line, parent lines, one author line and a committer line, in this order, with names of the length
    of the algorithm, identities of the form "name <mail> date zone" whose date fits 63 bits, headers that end, and no NUL anywhere.
    The name of an identity may be empty as long as a space stands before the address, although the documentation of [badName] says that this
    message is about an empty name; it is the message for a name that contains a [>]. *)
Theorem fsck_commit_exact `{OidSet T} (error_func : object_id -> fsck_msg_type_t -> fsck_msg_id -> Z) (options : @fsck_options T) oid mem algo fuel :
  is_bytes mem -> len mem < 2 ^ 32 -> algo = 1 \/ algo = 2 -> (length mem < fuel)%nat -> object_on_skiplist options oid = false ->
  (forall id, error_func oid FSCK_ERROR id <> 0) -> (forall id, id ∈ stopping -> fsck_msg_type id options = FSCK_ERROR \/ fsck_msg_type id options = FSCK_FATAL) ->
  exists ret msgs, fsck_commit (report error_func options oid) mem algo fuel (len mem) = Ok (ret, msgs) /\
    (msgs = [] <-> commit_form (Z.to_nat (algo_rawsz algo) * 2) mem) /\ (msgs = [] -> ret = 0).
Proof.
  intros Hb Hsz Ha Hf Hs He Hst. apply fsck_commit_ok; [done|done|idtac..|done|done]; apply report_stops; try done; apply Hst; set_solver.
Qed.

Definition ex_skip : object_id := mkOid (replicate 32 7) 1.

#[local] Existing Instance ex_oidset.

(** "author A <a> 1 +0000" and the committer. *)
Definition ex_author : list Z := str_author ++ [65; 32; 60; 97; 62; 32; 49; 32; 43; 48; 48; 48; 48; 10].
Definition ex_committer : list Z := str_committer ++ [65; 32; 60; 97; 62; 32; 49; 32; 43; 48; 48; 48; 48; 10].
Definition ex_commit : list Z := line str_tree (replicate 40 97) ++ ex_author ++ ex_committer ++ [10; 120].
Definition ex_two_authors : list Z := line str_tree (replicate 40 97) ++ ex_author ++ ex_author ++ ex_committer.

(** The same with an author without a name, " <a> 1 +0000". *)
Definition ex_no_name : list Z := line str_tree (replicate 40 97) ++ str_author ++ [32; 60; 97; 62; 32; 49; 32; 43; 48; 48; 48; 48; 10] ++ ex_committer.

(** The check of a commit with the default severities. *)
Definition ex_commit_run (m : list Z) : res (Z * list fsck_msg_id) := fsck_commit (report ex_error (mkFo false None [] [] []) ex_skip) m 1 200 (len m).

Lemma fsck_commit_exact_witness :
  (ex_commit_run ex_commit = Ok (0, []) /\ commit_form 40 ex_commit) /\
  (ex_commit_run ex_no_name = Ok (0, []) /\ commit_form 40 ex_no_name) /\
  (ex_commit_run ex_two_authors = Ok (1, [FSCK_MSG_MULTIPLE_AUTHORS]) /\ ~ commit_form 40 ex_two_authors).
Proof.
  split; [|split].
  - destruct (fsck_commit_exact ex_error (mkFo false None [] [] []) ex_skip ex_commit 1 200 ltac:(by apply (bool_decide_eq_true_1 _)) ltac:(done) ltac:(by left) ltac:(apply Nat.ltb_lt; by vm_compute) ltac:(done) ltac:(done)
      ltac:(intros id Hid; destruct id; first [by left|by right|set_solver])) as (ret & msgs & E & Hiff & _).
    change (ex_commit_run ex_commit = Ok (ret, msgs)) in E. assert (ex_commit_run ex_commit = Ok (0, [])) as E' by (vm_compute; reflexivity). split; [exact E'|].
    rewrite E' in E. injection E as <- <-. by apply Hiff.
  - destruct (fsck_commit_exact ex_error (mkFo false None [] [] []) ex_skip ex_no_name 1 200 ltac:(by apply (bool_decide_eq_true_1 _)) ltac:(done) ltac:(by left) ltac:(apply Nat.ltb_lt; by vm_compute) ltac:(done) ltac:(done)
      ltac:(intros id Hid; destruct id; first [by left|by right|set_solver])) as (ret & msgs & E & Hiff & _).
    change (ex_commit_run ex_no_name = Ok (ret, msgs)) in E. assert (ex_commit_run ex_no_name = Ok (0, [])) as E' by (vm_compute; reflexivity). split; [exact E'|].
    rewrite E' in E. injection E as <- <-. by apply Hiff.
  - destruct (fsck_commit_exact ex_error (mkFo false None [] [] []) ex_skip ex_two_authors 1 200 ltac:(by apply (bool_decide_eq_true_1 _)) ltac:(done) ltac:(by left) ltac:(apply Nat.ltb_lt; by vm_compute) ltac:(done) ltac:(done)
      ltac:(intros id Hid; destruct id; first [by left|by right|set_solver])) as (ret & msgs & E & Hiff & _).
    change (ex_commit_run ex_two_authors = Ok (ret, msgs)) in E. assert (ex_commit_run ex_two_authors = Ok (1, [FSCK_MSG_MULTIPLE_AUTHORS])) as E' by (vm_compute; reflexivity). split; [exact E'|].
    rewrite E' in E. injection E as <- <-. intros Hc. by apply Hiff in Hc.
Defined.

(** C35: when the object is on the skip list, so that [report] returns 0 and the check goes on.  If behind a good tree line the first parent line
    does not begin with a full object name, it is read again forever; if the tree line does not begin with one, the check uses a pointer that was never
    set: [parse_oid_hex] leaves its pointer alone when it fails, and [buffer = p + 1] is run all the same.  (A full name followed by something else
    sets the pointer, and is not claimed to fail.)  A buffer that ends inside of the keyword [tree], without a newline, is read past its end. *)
Theorem fsck_commit_skiplisted `{OidSet T} (error_func : object_id -> fsck_msg_type_t -> fsck_msg_id -> Z) (options : @fsck_options T) oid algo fuel tree l w :
  let R := report error_func options oid in let n := (Z.to_nat (algo_rawsz algo) * 2)%nat in
  let stuck := str_tree ++ tree ++ 10 :: str_parent ++ l ++ 10 :: w in let unset := str_tree ++ l ++ 10 :: w in
  algo = 1 \/ algo = 2 -> object_on_skiplist options oid = true -> is_bytes stuck -> headers_end stuck -> headers_end unset ->
  oid_form n tree -> in_line l -> (forall a b, l = a ++ b -> ~ oid_form n a) ->
  fsck_commit R stuck algo fuel (len stuck) = Fault OutOfFuel /\ fsck_commit R unset algo fuel (len unset) = Fault UB /\
  (forall k, (0 < k < 5)%nat -> fsck_commit R (take k str_tree) algo fuel (Z.of_nat k) = Fault UB).
Proof.
  intros R n stuck unset Ha Hs Hb Hh Hh' Ht Hl Hno. assert (forall id, R id = 0) as HR by (intros id; by apply report_skipped). split_and!.
  - by apply (fsck_commit_stuck R stuck Hb algo Ha fuel tree l w).
  - apply (fsck_commit_unset R unset) with (l := l) (w := w); try done. apply Forall_app in Hb as [H1 Hb]. apply Forall_app in Hb as [_ Hb]. apply Forall_cons in Hb as [_ Hb]. apply Forall_app in Hb as [_ Hb]. by apply Forall_app.
  - intros k Hk. clearbody R. unfold fsck_commit.
    assert (verify_headers R (take k str_tree) (Z.of_nat k) = Ok (said R FSCK_MSG_UNTERMINATED_HEADER)) as ->.
    { do 5 (destruct k as [|k]; [lia || done|]). lia. }
    cbn [mbind res_bind said]. unfold said. rewrite HR. do 5 (destruct k as [|k]; [lia || done|]). lia.
Qed.

Lemma fsck_commit_skiplisted_witness :
  let R := report ex_error (mkFo false None [ex_skip] [] []) ex_skip in
  fsck_commit R (str_tree ++ replicate 40 97 ++ 10 :: str_parent ++ [120; 10; 10]) 1 1000 56 = Fault OutOfFuel /\
  fsck_commit R (str_tree ++ [120; 10; 10]) 1 1000 8 = Fault UB /\
  fsck_commit R [116; 114] 1 1000 2 = Fault UB.
Proof.
  assert (headers_end (str_tree ++ replicate 40 97 ++ 10 :: str_parent ++ [120; 10; 10])) as H1 by (exists (str_tree ++ replicate 40 97 ++ 10 :: str_parent ++ [120]), [10]; split_and!; [done|by apply (bool_decide_eq_true_1 _)|right; by exists []]).
  assert (headers_end (str_tree ++ [120; 10; 10])) as H2 by (exists (str_tree ++ [120]), [10]; split_and!; [done|by apply (bool_decide_eq_true_1 _)|right; by exists []]).
  assert (oid_form 40 (replicate 40 97)) as H3 by (split; [done|by apply (bool_decide_eq_true_1 _)]).
  assert (in_line [120]) as H4 by (unfold in_line; by apply (bool_decide_eq_true_1 _)).
  assert (forall a b, [120] = a ++ b -> ~ oid_form 40 a) as H5 by (intros a b E [Hl _]; apply (f_equal length) in E; rewrite length_app, Hl in E; done).
  destruct (fsck_commit_skiplisted ex_error (mkFo false None [ex_skip] [] []) ex_skip 1 1000 (replicate 40 97) [120] [10] ltac:(by left) ltac:(done) ltac:(by apply (bool_decide_eq_true_1 _)) H1 H2 H3 H4 H5) as (Hx & Hy & Hz).
  split_and!; [exact Hx|exact Hy|apply (Hz 2%nat); lia].
Defined.
