(* ===== verification/FsckTag.v ===== *)
(** * Checking tags: [fsck_tag] of [fsck.c]

    The lines of a tag are checked by the same means as those of a commit ([FsckCommit]); the name goes through [check_refname_format]
    ([RefName]).  The theorems: as long as a report of a fatal message or a bad object name stops the check, it stays inside of the buffer,
    ends, and is silent exactly on the tags of the documented form, for which it hands out the tagged object; and the return value
    forgets a bad tagger when another header follows. *)

From stdpp Require Import prelude numbers list.
From S2P Require Import Prelude PatchDelta Alloc CString Strbuf RefName Hex FsckTree FsckCommit.

(** The names of the headers, each with a blank. *)
Definition str_object : list Z := [111; 98; 106; 101; 99; 116; 32].
Definition str_type : list Z := [116; 121; 112; 101; 32].
Definition str_tag : list Z := [116; 97; 103; 32].
Definition str_tagger : list Z := [116; 97; 103; 103; 101; 114; 32].
Definition str_gpgsig : list Z := [103; 112; 103; 115; 105; 103; 32].
Definition str_gpgsig_sha256 : list Z := [103; 112; 103; 115; 105; 103; 45; 115; 104; 97; 50; 53; 54; 32].
Definition str_refs_tags : list Z := [114; 101; 102; 115; 47; 116; 97; 103; 115; 47].

(** [object_type_strings] from 1 on. *)
Definition object_type_strings : list (list Z) := [[99; 111; 109; 109; 105; 116; 0]; [116; 114; 101; 101; 0]; [98; 108; 111; 98; 0]; [116; 97; 103; 0]].

Section Strings.
Context (mem : list Z).

(** [strncmp(s, t, n)]. *)
Definition strncmp_step (s : list Z) (t n i : Z) : res (Z + Z) :=
  if i <? n then
    x ← rd s i; y ← rd mem (t + i);
    if negb (x =? y) then Ok (inr (x - y)) else if x =? 0 then Ok (inr 0) else Ok (inl (i + 1))
  else Ok (inr 0).

Definition strncmp (s : list Z) (t n : Z) : res Z := loop (S (length s)) (strncmp_step s t n) 0.

Definition xstrncmpz (s : list Z) (t n : Z) : res Z :=
  r ← strncmp s t n;
  if tr r then Ok r else c ← rd s n; Ok (if c =? 0 then 0 else 1).

Fixpoint type_search (names : list (list Z)) (i str n : Z) : res (option Z) :=
  match names with
  | [] => Ok None
  | s :: names => r ← xstrncmpz s str n; if negb (tr r) then Ok (Some i) else type_search names (i + 1) str n
  end.

Definition type_from_string_gently (str n : Z) (gentle : bool) : res Z :=
  n ← (if n <? 0 then strlen mem str else Ok n);
  r ← type_search object_type_strings 1 str n;
  match r with
  | Some i => Ok i
  | None => if gentle then Ok (-1) else Fault Died
  end.
End Strings.

(** What [%.*s] prints of the string at [s]. *)
Definition precision_text (mem : list Z) (s prec : Z) : res (list Z) :=
  if prec <? 0 then n ← strlen mem s; rd_slice mem s n
  else l ← rd_slice mem s prec; Ok (take (span (fun c => tr c) l) l).

(** The return value, the messages, and the tagged object and its type as the caller gets them. *)
Record tag_out := mkTo { to_ret : Z; to_msgs : list fsck_msg_id; to_oid : object_id; to_type : Z }.

Section Code.
Context `{Memory} (junk : Z) (R : fsck_msg_id -> Z) (mem : list Z) (the_hash_algo : Z).

Abbreviation outcome := (Z * list fsck_msg_id)%type.

(** The end: what follows the headers that are known. *)
Definition tag_extra (size buffer ret : Z) (t : list fsck_msg_id) : res outcome :=
  extra ← (if buffer <? size then b ← starts_with mem buffer [10; 0] 0; Ok (negb b) else Ok false);
  Ok (if (extra : bool) then (R FSCK_MSG_EXTRA_HEADER_ENTRY, t ++ [FSCK_MSG_EXTRA_HEADER_ENTRY]) else (ret, t)).

(** The lines of a signature that start with a blank: the next line, or [None] when the buffer ends in one. *)
Definition continuation_step (size buffer : Z) : res (Z + option Z) :=
  more ← (if buffer <? size then starts_with mem buffer [32; 0] 0 else Ok false);
  if (more : bool) then
    eol ← memchr mem buffer 10 (size - buffer);
    Ok (match eol with None => inr None | Some eol => inl (eol + 1) end)
  else Ok (inr (Some buffer)).

Definition tag_signature (fuel : nat) (size buffer ret : Z) (t : list fsck_msg_id) : res outcome :=
  sig ← (if buffer <? size then
           r ← skip_literal mem buffer str_gpgsig;
           match r with Some b => Ok (Some b) | None => skip_literal mem buffer str_gpgsig_sha256 end
         else Ok None);
  match sig with
  | None => tag_extra size buffer ret t
  | Some buffer =>
      eol ← memchr mem buffer 10 (size - buffer);
      match eol with
      | None => Ok (R FSCK_MSG_BAD_GPGSIG, t ++ [FSCK_MSG_BAD_GPGSIG])
      | Some eol =>
          r ← loop fuel (continuation_step size) (eol + 1);
          match r with
          | None => Ok (R FSCK_MSG_BAD_HEADER_CONTINUATION, t ++ [FSCK_MSG_BAD_HEADER_CONTINUATION])
          | Some buffer => tag_extra size buffer ret t
          end
      end
  end.

(** The tagger, whose outcome is not looked at. *)
Definition tag_tagger (fuel : nat) (size buffer : Z) (t : list fsck_msg_id) : res outcome :=
  b ← (if size <=? buffer then Ok None else skip_literal mem buffer str_tagger);
  match b with
  | None =>
      let ret := R FSCK_MSG_MISSING_TAGGER_ENTRY in let t := t ++ [FSCK_MSG_MISSING_TAGGER_ENTRY] in
      if tr ret then Ok (ret, t) else tag_signature fuel size buffer ret t
  | Some buffer =>
      '(buffer, (ret, t')) ← fsck_ident R mem buffer;
      tag_signature fuel size buffer ret (t ++ t')
  end.

(** The name, printed behind "refs/tags/" into the buffer [sb]. *)
Definition tag_name (fuel : nat) (size buffer : Z) (t : list fsck_msg_id) (sb : strbuf) : res (outcome * strbuf) :=
  b ← (if size <=? buffer then Ok None else skip_literal mem buffer str_tag);
  match b with
  | None => Ok (R FSCK_MSG_MISSING_TAG_ENTRY, t ++ [FSCK_MSG_MISSING_TAG_ENTRY], sb)
  | Some buffer =>
      eol ← memchr mem buffer 10 (size - buffer);
      match eol with
      | None => Ok (R FSCK_MSG_MISSING_TAG, t ++ [FSCK_MSG_MISSING_TAG], sb)
      | Some eol =>
          text ← precision_text mem buffer (s32 (u32 (eol - buffer)));
          sb ← strbuf_vaddf junk sb (Some (str_refs_tags ++ text));
          r ← check_refname_format junk (mem_of (sb_buf sb)) 0 0;
          let '(ret, t) := if tr r then (R FSCK_MSG_BAD_TAG_NAME, t ++ [FSCK_MSG_BAD_TAG_NAME]) else (0, t) in
          if tr ret then Ok (ret, t, sb)
          else o ← tag_tagger fuel size (eol + 1) t; Ok (o, sb)
      end
  end.

(** The type and what follows: the outcome, the buffer and [*tagged_type]. *)
Definition tag_type (fuel : nat) (size buffer : Z) (t : list fsck_msg_id) (sb : strbuf) (tagged_type : Z) : res (outcome * strbuf * Z) :=
  b ← (if size <=? buffer then Ok None else skip_literal mem buffer str_type);
  match b with
  | None => Ok (R FSCK_MSG_MISSING_TYPE_ENTRY, t ++ [FSCK_MSG_MISSING_TYPE_ENTRY], sb, tagged_type)
  | Some buffer =>
      eol ← memchr mem buffer 10 (size - buffer);
      match eol with
      | None => Ok (R FSCK_MSG_MISSING_TYPE, t ++ [FSCK_MSG_MISSING_TYPE], sb, tagged_type)
      | Some eol =>
          tagged_type ← type_from_string_gently mem buffer (eol - buffer) true;
          let '(ret, t) := if tagged_type <? 0 then (R FSCK_MSG_BAD_TYPE, t ++ [FSCK_MSG_BAD_TYPE]) else (0, t) in
          if tr ret then Ok (ret, t, sb, tagged_type)
          else '(o, sb) ← tag_name fuel size (eol + 1) t sb; Ok (o, sb, tagged_type)
      end
  end.

(** The whole check, up to [done]. *)
Definition tag_object (fuel : nat) (size : Z) (sb : strbuf) (tagged_oid : object_id) (tagged_type : Z) : res (outcome * strbuf * object_id * Z) :=
  '(ret, t) ← verify_headers R mem size;
  if tr ret then Ok (ret, t, sb, tagged_oid, tagged_type)
  else
    b ← (if size <=? 0 then Ok None else skip_literal mem 0 str_object);
    match b with
    | None => Ok (R FSCK_MSG_MISSING_OBJECT, t ++ [FSCK_MSG_MISSING_OBJECT], sb, tagged_oid, tagged_type)
    | Some buffer =>
        '(bad, tagged_oid, p) ← oid_line mem the_hash_algo buffer tagged_oid None;
        let '(ret, t) := if (bad : bool) then (R FSCK_MSG_BAD_OBJECT_SHA1, t ++ [FSCK_MSG_BAD_OBJECT_SHA1]) else (0, t) in
        if tr ret then Ok (ret, t, sb, tagged_oid, tagged_type)
        else
          buffer ← after p;
          '(o, sb, tagged_type) ← tag_type fuel size buffer t sb tagged_type;
          Ok (o, sb, tagged_oid, tagged_type)
    end.

(** [tagged_oid] and [tagged_type] are what the caller has there before. *)
Definition fsck_tag_standalone (fuel : nat) (size : Z) (tagged_oid : object_id) (tagged_type : Z) : res tag_out :=
  '(o, sb, tagged_oid, tagged_type) ← tag_object fuel size STRBUF_INIT tagged_oid tagged_type;
  _ ← strbuf_release junk sb;
  let '(ret, t) := o in Ok (mkTo ret t tagged_oid tagged_type).

(** The name and the type are dropped. *)
Definition fsck_tag (fuel : nat) (size : Z) (tagged_oid : object_id) (tagged_type : Z) : res outcome :=
  o ← fsck_tag_standalone fuel size tagged_oid tagged_type; Ok (to_ret o, to_msgs o).
End Code.

(** ** The form of a tag *)

(** The known headers end. *)
Definition headers_done (w : list Z) : Prop := w = [] \/ exists t, w = 10 :: t.

(** An optional signature with its continuation lines. *)
Definition signature_form (w : list Z) : Prop :=
  headers_done w \/
  exists kw l ls w', (kw = str_gpgsig \/ kw = str_gpgsig_sha256) /\ w = kw ++ l ++ 10 :: concat (line [32] <$> ls) ++ w' /\ in_line l /\ Forall in_line ls /\ headers_done w'.

Definition tagger_form (w : list Z) : Prop := exists i w', w = str_tagger ++ i ++ 10 :: w' /\ in_line i /\ ident_form i /\ signature_form w'.

Definition tag_name_ok (name : list Z) : Prop := refname_rules false false (str_refs_tags ++ name).

Definition name_form (w : list Z) : Prop := exists name w', w = str_tag ++ name ++ 10 :: w' /\ in_line name /\ tag_name_ok name /\ tagger_form w'.

(** "commit", "tree", "blob" and "tag". *)
Definition type_text (ty : Z) : option (list Z) :=
  if ty =? 1 then Some [99; 111; 109; 109; 105; 116]
  else if ty =? 2 then Some [116; 114; 101; 101]
  else if ty =? 3 then Some [98; 108; 111; 98]
  else if ty =? 4 then Some [116; 97; 103]
  else None.



(** ** Types *)

Lemma strncmp_run mem s t l w pre fuel : at_text mem (t + len pre) (l ++ 10 :: w) -> in_line l -> Forall (fun c => c <> 0) s -> (length s < fuel)%nat ->
  exists r, loop fuel (strncmp_step mem (pre ++ s ++ [0]) t (len pre + len l)) (len pre) = Ok r /\ (r = 0 <-> l `prefix_of` s).
Proof.
  revert s l pre. induction fuel as [|fuel IH]; intros s l pre Ht Hl Hs Hf; [lia|]. rewrite loop_S. unfold strncmp_step at 1. destruct l as [|c l].
  { rewrite (proj2 (Z.ltb_ge _ _)) by (change (len (@nil Z)) with 0; lia). exists 0. split; [done|]. split; [intros _; apply prefix_nil|done]. }
  rewrite len_cons. pose proof (len_nonneg l). rewrite (proj2 (Z.ltb_lt _ _)) by lia. apply Forall_cons in Hl as [[Hc1 Hc0] Hl]. destruct s as [|x s].
  - rewrite (rd_mid pre 0 [] _ eq_refl : rd (pre ++ [] ++ [0]) (len pre) = Ok 0). cbn [mbind res_bind]. rewrite (at_rd _ _ _ _ Ht). cbn [mbind res_bind]. rewrite (proj2 (Z.eqb_neq 0 c)) by lia. cbn [negb]. exists (0 - c). split; [done|].
    split; [lia|]. by intros ?%prefix_nil_inv.
  - apply Forall_cons in Hs as [Hx Hs]. rewrite (rd_mid pre x (s ++ [0]) _ eq_refl : rd (pre ++ (x :: s) ++ [0]) (len pre) = Ok x). cbn [mbind res_bind]. rewrite (at_rd _ _ _ _ Ht). cbn [mbind res_bind]. destruct (Z.eqb_spec x c) as [->|Hn]; cbn [negb].
    + rewrite (proj2 (Z.eqb_neq c 0) Hc0). destruct (IH s l (pre ++ [c])) as (r & E & Hr); [|done|done|cbn in Hf; lia|].
      { rewrite len_app. replace (t + (len pre + len [c])) with (t + len pre + len [c]) by lia. by apply (at_app mem _ [c]) in Ht. }
      exists r. rewrite len_app, <- app_assoc in E. change (len [c]) with 1 in E. replace (len pre + (1 + len l)) with (len pre + 1 + len l) by lia. split; [exact E|]. rewrite Hr. split; [apply prefix_cons|apply prefix_cons_inv_2].
    + exists (x - c). split; [done|]. split; [lia|]. intros E%prefix_cons_inv_1. congruence.
Qed.

Lemma xstrncmpz_ok mem s t l w : at_text mem t (l ++ 10 :: w) -> in_line l -> Forall (fun c => c <> 0) s ->
  exists r, xstrncmpz mem (s ++ [0]) t (len l) = Ok r /\ (r = 0 <-> l = s).
Proof.
  intros Ht Hl Hs. unfold xstrncmpz, strncmp. destruct (strncmp_run mem s t l w [] (S (length (s ++ [0])))) as (r & E & Hr); [by rewrite Z.add_0_r|done|done|rewrite length_app; cbn; lia|].
  cbn [app] in E. change (len (@nil Z) + len l) with (len l) in E. change (len (@nil Z)) with 0 in E. rewrite E. cbn [mbind res_bind]. destruct (tr r) eqn:Er.
  - exists r. split; [done|]. apply tr_true in Er. split; [done|]. intros ->. by apply Hr.
  - apply tr_false, Hr in Er as [k ->]. rewrite <- app_assoc. destruct k as [|c k].
    + rewrite (rd_mid l 0 [] _ eq_refl : rd (l ++ [] ++ [0]) (len l) = Ok 0). exists 0. split; [done|]. by rewrite app_nil_r.
    + rewrite (rd_mid l c (k ++ [0]) _ eq_refl : rd (l ++ (c :: k) ++ [0]) (len l) = Ok c). apply Forall_app in Hs as [_ [Hc _]%Forall_cons]. cbn. rewrite (proj2 (Z.eqb_neq c 0) Hc). exists 1. split; [done|]. split; [done|]. intros E'. apply (f_equal length) in E'. rewrite length_app in E'. cbn in E'. lia.
Qed.

Definition type_of (l : list Z) : Z :=
  if bool_decide (type_text 1 = Some l) then 1 else if bool_decide (type_text 2 = Some l) then 2
  else if bool_decide (type_text 3 = Some l) then 3 else if bool_decide (type_text 4 = Some l) then 4 else -1.

Lemma type_of_iff l ty : 0 <= ty -> type_of l = ty <-> type_text ty = Some l.
Proof.
  intros Hty. unfold type_of. split.
  - intros <-. repeat case_bool_decide; done || lia.
  - intros E. assert (ty = 1 \/ ty = 2 \/ ty = 3 \/ ty = 4) as Hc.
    { unfold type_text in E. repeat match type of E with context[?x =? ?y] => destruct (Z.eqb_spec x y); [lia|] end. done. }
    destruct Hc as [->|[->|[->| ->]]]; cbn in E; injection E as <-; reflexivity.
Qed.

Lemma type_search_step mem t l w s ty (A : Type) (a b : res A) : at_text mem t (l ++ 10 :: w) -> in_line l -> Forall (fun c => c <> 0) s -> type_text ty = Some s ->
  (r ← xstrncmpz mem (s ++ [0]) t (len l); if negb (tr r) then a else b) = if bool_decide (type_text ty = Some l) then a else b.
Proof.
  intros Ht Hl Hs ->. destruct (xstrncmpz_ok mem s t l w Ht Hl Hs) as (r & -> & Hr). cbn [mbind res_bind].
  case_bool_decide as E; [rewrite (proj2 (tr_false r)); [done|]; apply Hr; congruence|]. rewrite (proj2 (tr_true r)); [done|]. intros ?%Hr. congruence.
Qed.

Lemma type_from_string_ok mem t l w : at_text mem t (l ++ 10 :: w) -> in_line l -> type_from_string_gently mem t (len l) true = Ok (type_of l).
Proof.
  intros Ht Hl. unfold type_from_string_gently, type_of. rewrite (proj2 (Z.ltb_ge _ _) (len_nonneg l)). cbn [mbind res_bind]. unfold object_type_strings. cbn [type_search].
  change [99; 111; 109; 109; 105; 116; 0] with ([99; 111; 109; 109; 105; 116] ++ [0]). rewrite (type_search_step mem t l w [99; 111; 109; 109; 105; 116] 1) by (done || by repeat constructor). case_bool_decide; [done|].
  change [116; 114; 101; 101; 0] with ([116; 114; 101; 101] ++ [0]). rewrite (type_search_step mem t l w [116; 114; 101; 101] 2) by (done || by repeat constructor). case_bool_decide; [done|].
  change [98; 108; 111; 98; 0] with ([98; 108; 111; 98] ++ [0]). rewrite (type_search_step mem t l w [98; 108; 111; 98] 3) by (done || by repeat constructor). case_bool_decide; [done|].
  change [116; 97; 103; 0] with ([116; 97; 103] ++ [0]). rewrite (type_search_step mem t l w [116; 97; 103] 4) by (done || by repeat constructor). case_bool_decide; [done|].
  done.
Qed.

(** ** Signatures *)

Lemma continuation_unique ls w ls' w' : Forall in_line ls -> Forall in_line ls' -> hd 0 w <> 32 -> hd 0 w' <> 32 -> concat (line [32] <$> ls) ++ w = concat (line [32] <$> ls') ++ w' -> w = w'.
Proof.
  revert ls'. induction ls as [|l ls IH]; intros [|l' ls'] Hl Hl' Hw Hw' E; cbn [fmap list_fmap concat] in E; rewrite <- ?app_assoc, ?line_app in E; cbn [app] in E; [done|by subst w|by subst w'|].
  apply Forall_cons in Hl as [Hl Hls], Hl' as [Hl' Hls']. destruct (keyword_line [32] _ _ _ _ Hl Hl' E) as [-> E']. by apply (IH ls').
Qed.

Lemma headers_done_hd w : headers_done w -> hd 0 w <> 32.
Proof. by intros [->|(t & ->)]. Qed.

Lemma signature_none w : ~ str_gpgsig `prefix_of` w -> ~ str_gpgsig_sha256 `prefix_of` w -> signature_form w <-> headers_done w.
Proof.
  intros H1 H2. split; [|by left]. intros [?|(kw & l & ls & w' & Hkw & -> & _)]; [done|]. exfalso. destruct Hkw as [-> | ->]; [apply H1|apply H2]; by eexists.
Qed.

Lemma signature_lines kw l ls w : kw = str_gpgsig \/ kw = str_gpgsig_sha256 -> in_line l -> Forall in_line ls -> hd 0 w <> 32 ->
  signature_form (kw ++ l ++ 10 :: concat (line [32] <$> ls) ++ w) <-> headers_done w.
Proof.
  intros Hkw Hl Hls Hw. split; [|intros Hd; right; by exists kw, l, ls, w]. intros [Hd|(kw' & l' & ls' & w' & Hkw' & E & Hl' & Hls' & Hd')].
  - by destruct Hkw as [-> | ->]; destruct Hd as [?|(t & ?)].
  - assert (kw = kw') as <- by (destruct Hkw as [-> | ->], Hkw' as [-> | ->]; done). destruct (keyword_line _ _ _ _ _ Hl Hl' E) as [<- E']. by rewrite (continuation_unique ls w ls' w' Hls Hls' Hw (headers_done_hd _ Hd') E').
Qed.

Lemma tagger_line i w : in_line i -> tagger_form (str_tagger ++ i ++ 10 :: w) <-> ident_form i /\ signature_form w.
Proof. intros Hi. split; [intros (i' & w' & E & Hi' & Hf); by destruct (keyword_line _ _ _ _ _ Hi Hi' E) as [-> ->]|intros []; by exists i, w]. Qed.

Lemma name_line l w : in_line l -> name_form (str_tag ++ l ++ 10 :: w) <-> tag_name_ok l /\ tagger_form w.
Proof. intros Hl. split; [intros (l' & w' & E & Hl' & Hf); by destruct (keyword_line _ _ _ _ _ Hl Hl' E) as [-> ->]|intros []; by exists l, w]. Qed.

Lemma type_text_line ty l : type_text ty = Some l -> in_line l.
Proof. unfold type_text. intros E. repeat match type of E with context[?x =? ?y] => destruct (Z.eqb_spec x y); [injection E as <-; by repeat constructor|] end. done. Qed.


(** What a part of the check promises: it adds messages, none exactly on the form, and returns 0 then. *)
Definition adds (t : list fsck_msg_id) (form : Prop) (o : Z * list fsck_msg_id) : Prop := exists ms, o.2 = t ++ ms /\ (ms = [] <-> form) /\ (ms = [] -> o.1 = 0).

Lemma adds_loud t form ret id ms : ~ form -> adds t form (ret, t ++ id :: ms).
Proof. intros Hf. exists (id :: ms). split; [done|]. by split. Qed.

#[local] Instance adds_proper t : Proper (iff ==> eq ==> iff) (adds t).
Proof. intros P Q HPQ o ? <-. unfold adds. by setoid_rewrite HPQ. Qed.

(** After a message nothing is silent any more. *)
Lemma adds_after t id form form' o : ~ form' -> adds (t ++ [id]) form o -> adds t form' o.
Proof. intros Hf (ms & E & _). exists (id :: ms). rewrite E, <- app_assoc. split; [done|]. by split. Qed.

Lemma hdr_tail l w : hdr (l ++ 10 :: w) -> in_line l -> l <> [] -> hdr w.
Proof.
  intros Hh Hl Hn. destruct (hdr_inv _ Hh) as [E|[(t & E)|(l' & w' & E & _ & Hl' & Hw')]]; [by destruct l| |by destruct (line_unique _ _ _ _ Hl Hl' E) as [-> ->]].
  destruct l as [|c l]; [done|]. apply Forall_cons in Hl as [[? _] _]. cbn in E. congruence.
Qed.

Lemma hdr_keyword kw l w : hdr (kw ++ l ++ 10 :: w) -> in_line kw -> in_line l -> kw <> [] -> hdr w.
Proof. rewrite app_assoc. intros Hh Hk Hl Hn. eapply hdr_tail; [exact Hh|by apply Forall_app|]. by destruct kw. Qed.

Section Tag.
Context `{Memory} (junk : Z) (R : fsck_msg_id -> Z) (mem : list Z) (Hb : is_bytes mem) (Hsize : len mem < 2 ^ 31 - 16).

Abbreviation size := (len mem).

Lemma memchr_line q l w : at_text mem q (l ++ 10 :: w) -> in_line l -> memchr mem q 10 (size - q) = Ok (Some (q + len l)).
Proof using Type.
  intros [Hq Hd] Hl. assert (length mem - Z.to_nat q = length l + S (length w))%nat as Hlen by (rewrite <- length_drop, Hd, length_app; done). unfold memchr.
  rewrite (rd_slice_ok mem q (size - q)) by llia. cbn [mbind res_bind]. unfold slice. rewrite Hd, take_ge by (rewrite length_app; cbn [length]; llia).
  rewrite span_app; [|eapply Forall_impl; [exact Hl|]; intros c [Hc _]; cbn beta; by rewrite (proj2 (Z.eqb_neq c 10) Hc)|done]. rewrite decide_True by (rewrite length_app; cbn; lia). done.
Qed.

(** The first byte of a line. *)
Lemma starts_at c q w : at_text mem q w -> c <> 0 -> (if q <? size then starts_with mem q [c; 0] 0 else Ok false) = Ok (match w with [] => false | d :: _ => d =? c end).
Proof using Type.
  intros Hq Hc. pose proof Hq as [Hq0 Hd]. pose proof (f_equal length Hd) as Hlen. rewrite length_drop in Hlen. destruct w as [|d w]; cbn [length] in Hlen; [by rewrite (proj2 (Z.ltb_ge _ _)) by llia|]. rewrite (proj2 (Z.ltb_lt _ _)) by llia.
  unfold starts_with. rewrite loop_S. unfold starts_with_step at 1. change (rd [c; 0] 0) with (Ok c). cbn [mbind res_bind]. rewrite (proj2 (tr_true c) Hc). cbn [negb]. rewrite (at_rd _ _ _ _ Hq). cbn [mbind res_bind]. by destruct (Z.eqb_spec d c); cbn [negb].
Qed.

Lemma headers_done_dec w : {headers_done w} + {~ headers_done w}.
Proof using Type. unfold headers_done. destruct w as [|c w]; [left; by left|]. destruct (Z.eq_dec c 10) as [->|Hc]; [left; right; by exists w|right]. intros [?|(t & ?)]; congruence. Qed.

Lemma tag_extra_ok q w ret t : at_text mem q w ->
  tag_extra R mem size q ret t = Ok (if headers_done_dec w then (ret, t) else (R FSCK_MSG_EXTRA_HEADER_ENTRY, t ++ [FSCK_MSG_EXTRA_HEADER_ENTRY])).
Proof using Type.
  intros Hq. unfold tag_extra. assert ((if q <? size then b ← starts_with mem q [10; 0] 0; Ok (negb b) else Ok false) = Ok (match w with [] => false | d :: _ => negb (d =? 10) end)) as ->.
  { pose proof (starts_at 10 q w Hq ltac:(lia)) as Hs. destruct (Z.ltb_spec q size) as [Hlt|Hge]; [rewrite Hs; destruct w; [|done]|destruct w; [done|]].
    - destruct Hq as [Hq0 Hd]. apply (f_equal length) in Hd. rewrite length_drop in Hd. cbn in Hd. llia.
    - destruct Hq as [Hq0 Hd]. apply (f_equal length) in Hd. rewrite length_drop in Hd. cbn in Hd. llia. }
  cbn [mbind res_bind]. destruct (headers_done_dec w) as [[->|(t' & ->)]|Hn]; [done|done|]. destruct w as [|d w]; [destruct Hn; by left|]. destruct (Z.eqb_spec d 10) as [->|]; [destruct Hn; right; by exists w|done].
Qed.

(** The continuation lines are the ones that start with a blank. *)
Lemma continuation_ok fuel q w : at_text mem q w -> hdr w -> (length w < fuel)%nat ->
  exists q' ls w', loop fuel (continuation_step mem size) q = Ok (Some q') /\ w = concat (line [32] <$> ls) ++ w' /\ Forall in_line ls /\ hd 0 w' <> 32 /\ at_text mem q' w'.
Proof using Type.
  revert q w. induction fuel as [|fuel IH]; intros q w Hq Hw Hf; [lia|]. rewrite loop_S. unfold continuation_step at 1. rewrite (starts_at 32 q w Hq) by lia. cbn [mbind res_bind].
  destruct (decide (hd 0 w = 32)) as [E|Hn]; [|exists q, [], w; split_and!; [by destruct w as [|d w]; [|cbn in Hn; rewrite (proj2 (Z.eqb_neq d 32) Hn)]|done|done|done|done]].
  destruct (hdr_inv w Hw) as [->|[(t & ->)|(l & w' & -> & Hl & Hin & Hw')]]; [done|done|]. destruct l as [|c l]; [done|]. cbn in E. subst c. cbn [app]. rewrite Z.eqb_refl. change (32 :: l ++ 10 :: w') with ((32 :: l) ++ 10 :: w') in Hq. rewrite (memchr_line q (32 :: l) w' Hq Hin). cbn [mbind res_bind].
  apply at_app, (at_app _ _ [10]) in Hq. rewrite length_app in Hf. cbn in Hf. destruct (IH _ w' Hq Hw' ltac:(lia)) as (q' & ls & w2 & E & -> & Hls & Hh & Hq'). exists q', (l :: ls), w2. apply Forall_cons in Hin as [_ Hin].
  split_and!; [done| |by constructor|done|done]. cbn [fmap list_fmap concat]. by rewrite <- app_assoc, line_app.
Qed.

(** The branches for a signature without end are never taken behind [verify_headers]. *)
Lemma tag_signature_ok fuel q w ret t : at_text mem q w -> hdr w -> (length mem < fuel)%nat ->
  (signature_form w /\ tag_signature R mem fuel size q ret t = Ok (ret, t)) \/
  (~ signature_form w /\ tag_signature R mem fuel size q ret t = Ok (R FSCK_MSG_EXTRA_HEADER_ENTRY, t ++ [FSCK_MSG_EXTRA_HEADER_ENTRY])).
Proof using Type.
  intros Hq Hw Hf.
  assert (forall kw q0 l w', kw = str_gpgsig \/ kw = str_gpgsig_sha256 -> w = kw ++ l ++ 10 :: w' -> at_text mem q0 (l ++ 10 :: w') -> in_line l -> hdr w' ->
    let r := (eol ← memchr mem q0 10 (size - q0); match eol with None => Ok (R FSCK_MSG_BAD_GPGSIG, t ++ [FSCK_MSG_BAD_GPGSIG])
      | Some eol => r ← loop fuel (continuation_step mem size) (eol + 1); match r with None => Ok (R FSCK_MSG_BAD_HEADER_CONTINUATION, t ++ [FSCK_MSG_BAD_HEADER_CONTINUATION]) | Some b => tag_extra R mem size b ret t end end) in
    (signature_form w /\ r = Ok (ret, t)) \/ (~ signature_form w /\ r = Ok (R FSCK_MSG_EXTRA_HEADER_ENTRY, t ++ [FSCK_MSG_EXTRA_HEADER_ENTRY]))) as Hsig.
  { intros kw q0 l w' Hkw -> Hq0 Hl Hw'. cbv zeta. rewrite (memchr_line q0 l w' Hq0 Hl). cbn [mbind res_bind]. apply at_app, (at_app _ _ [10]) in Hq0.
    assert (length w' <= length mem)%nat as Hle by (destruct Hq0 as [_ <-]; rewrite length_drop; lia). destruct (continuation_ok fuel _ w' Hq0 Hw' ltac:(lia)) as (q' & ls & w2 & E & -> & Hls & Hh & Hq'). change (len [10]) with 1 in E. rewrite E. cbn [mbind res_bind].
    rewrite (tag_extra_ok q' w2 ret t Hq'), (signature_lines kw l ls w2 Hkw Hl Hls Hh). destruct (headers_done_dec w2); [by left|by right]. }
  unfold tag_signature. destruct (keyword_at mem str_gpgsig q w Hq Hw) as [(l & w' & E & Hl & Hw' & Hlt & -> & Hq1)|[H1 Es1]]; [by repeat constructor|done| |].
  { rewrite (proj2 (Z.ltb_lt _ _) Hlt). cbn [mbind res_bind]. apply (Hsig str_gpgsig _ l w'); try done. by left. }
  destruct (keyword_at mem str_gpgsig_sha256 q w Hq Hw) as [(l & w' & E & Hl & Hw' & Hlt & Es2 & Hq1)|[H2 Es2]]; [by repeat constructor|done| |].
  { rewrite (proj2 (Z.ltb_lt _ _) Hlt), (Es1 Hlt), Es2. cbn [mbind res_bind]. apply (Hsig str_gpgsig_sha256 _ l w'); try done. by right. }
  assert ((if q <? size then r ← skip_literal mem q str_gpgsig; match r with Some b => Ok (Some b) | None => skip_literal mem q str_gpgsig_sha256 end else Ok None) = Ok None) as ->
    by (destruct (Z.ltb_spec q size); [rewrite Es1 by done; cbn [mbind res_bind]; auto|done]).
  cbn [mbind res_bind]. rewrite (tag_extra_ok q w ret t Hq), (signature_none w H1 H2). destruct (headers_done_dec w); [by left|by right].
Qed.

Lemma tag_tagger_ok fuel q w t : at_text mem q w -> hdr w -> (length mem < fuel)%nat -> exists o, tag_tagger R mem fuel size q t = Ok o /\ adds t (tagger_form w) o.
Proof using Hb.
  intros Hq Hw Hf. unfold tag_tagger. rewrite Z.leb_antisym. destruct (keyword_at mem str_tagger q w Hq Hw) as [(l & w' & -> & Hl & Hw' & Hlt & -> & Hq1)|[Hn Es]]; [by repeat constructor|done| |].
  - rewrite (proj2 (Z.ltb_lt _ _) Hlt). cbn [mbind res_bind negb]. destruct (fsck_ident_ok R mem Hb _ l w' Hq1 Hl) as ([e t'] & -> & Hv & Hq2). cbn [mbind res_bind]. setoid_rewrite (tagger_line l w' Hl).
    destruct (tag_signature_ok fuel _ w' e (t ++ t') Hq2 Hw' Hf) as [[Hs ->]|[Hs ->]]; eexists; (split; [done|]).
    + destruct Hv as [[Hi [= -> ->]]|[Hi (id & [= -> ->])]]; [|apply adds_loud; tauto]. exists []. split_and!; done || tauto.
    + destruct Hv as [[Hi [= -> ->]]|[Hi (id & [= -> ->])]]; [rewrite app_nil_r|rewrite <- app_assoc]; apply adds_loud; tauto.
  - assert ((if negb (q <? size) then Ok None else skip_literal mem q str_tagger) = Ok None) as -> by (destruct (Z.ltb_spec q size); cbn [negb]; [auto|done]). cbn [mbind res_bind].
    assert (~ tagger_form w) as Hno by (intros (i & w' & -> & _); apply Hn; by eexists). destruct (tr _); [eexists; split; [done|]; by apply adds_loud|].
    destruct (tag_signature_ok fuel q w (R FSCK_MSG_MISSING_TAGGER_ENTRY) (t ++ [FSCK_MSG_MISSING_TAGGER_ENTRY]) Hq Hw Hf) as [[_ ->]|[_ ->]]; eexists; (split; [done|]); rewrite <- ?app_assoc; by apply adds_loud.
Qed.

(** A bad tagger: its message is there, but what follows decides about the return value. *)
Lemma tag_tagger_bad fuel q i w t : at_text mem q (str_tagger ++ i ++ 10 :: w) -> in_line i -> hdr w -> (length mem < fuel)%nat -> ~ ident_form i ->
  exists id, (signature_form w -> tag_tagger R mem fuel size q t = Ok (R id, t ++ [id])) /\
    (~ signature_form w -> tag_tagger R mem fuel size q t = Ok (R FSCK_MSG_EXTRA_HEADER_ENTRY, t ++ [id; FSCK_MSG_EXTRA_HEADER_ENTRY])).
Proof using Hb.
  intros Hq Hi Hw Hf Hno. assert (hdr (str_tagger ++ i ++ 10 :: w)) as Hh by (rewrite app_assoc; apply hdr_line; [apply Forall_app; split; [by repeat constructor|done]|done]). unfold tag_tagger. rewrite Z.leb_antisym.
  destruct (keyword_at mem str_tagger q _ Hq Hh) as [(l & w' & E & Hl & _ & Hlt & -> & Hq1)|[Hn _]]; [by repeat constructor|done| |destruct Hn; by eexists].
  destruct (keyword_line _ _ _ _ _ Hi Hl E) as [<- <-]. rewrite (proj2 (Z.ltb_lt _ _) Hlt). cbn [mbind res_bind negb]. destruct (fsck_ident_ok R mem Hb _ i w Hq1 Hi) as ([e t'] & -> & Hv & Hq2). cbn [mbind res_bind].
  destruct Hv as [[? _]|[_ (id & [= -> ->])]]; [done|]. exists id. destruct (tag_signature_ok fuel _ w (R id) (t ++ [id]) Hq2 Hw Hf) as [[? ->]|[? ->]]; [done|]. by rewrite <- app_assoc.
Qed.

Lemma precision_text_ok q l w : at_text mem q (l ++ 10 :: w) -> in_line l -> precision_text mem q (s32 (u32 (q + len l - q))) = Ok l.
Proof using Hsize.
  intros Hq Hl. pose proof Hq as [Hq0 Hd]. pose proof (len_nonneg l). assert (q + len l < size) as Hlt by (apply (f_equal length) in Hd; rewrite length_drop, length_app in Hd; cbn in Hd; llia).
  replace (q + len l - q) with (len l) by lia. rewrite u32_small by lia. assert (s32 (len l) = len l) as -> by (unfold s32; by rewrite (proj2 (Z.ltb_lt (len l) (2 ^ 31))) by lia). unfold precision_text. rewrite (proj2 (Z.ltb_ge (len l) 0)) by lia.
  rewrite (rd_slice_at mem q l 10 w Hq0 Hd). cbn [mbind res_bind]. f_equal. rewrite take_ge; [done|]. destruct (span_split (fun c => tr c) l) as (a & b & -> & <- & _ & Hs). destruct b as [|c b]; [by rewrite app_nil_r|].
  specialize (Hs c b eq_refl). apply tr_false in Hs as ->. apply Forall_app in Hl as [_ [[_ ?] _]%Forall_cons]. done.
Qed.

(** A line with a name: behind a good one the tagger comes, with a bad one there is something to say. *)
Lemma tag_name_line fuel q l w t : at_text mem q (str_tag ++ l ++ 10 :: w) -> in_line l -> hdr w -> (length mem < fuel)%nat ->
  wp oom (tag_name junk R mem fuel size q t STRBUF_INIT) (fun '(o, sb) => (exists s, sb_ok sb s) /\
    (tag_name_ok l -> tag_tagger R mem fuel size (q + len str_tag + len l + 1) t = Ok o) /\ adds t (tag_name_ok l /\ tagger_form w) o).
Proof using Hb Hsize.
  intros Hq Hl Hw Hf. pose proof (at_bytes mem Hb _ _ Hq) as Hby. pose proof (hdr_line (str_tag ++ l) w) as Hh. rewrite <- app_assoc in Hh. unfold tag_name. rewrite Z.leb_antisym.
  destruct (keyword_at mem str_tag q _ Hq) as [(l' & w' & E & Hl' & _ & Hlt & -> & Hq1)|[Hn _]]; [apply Hh; [apply Forall_app; split; [by repeat constructor|done]|done]|by repeat constructor|done| |destruct Hn; by eexists].
  destruct (keyword_line _ _ _ _ _ Hl Hl' E) as [<- <-]. clear Hl' E Hh. rewrite (proj2 (Z.ltb_lt _ _) Hlt). cbn [mbind res_bind negb]. rewrite (memchr_line _ l w Hq1 Hl). cbn [mbind res_bind]. rewrite (precision_text_ok _ l w Hq1 Hl). cbn [mbind res_bind].
  assert (len l < 2 ^ 31 - 16) as Hll. { destruct Hq1 as [_ Hd]. apply (f_equal length) in Hd. rewrite length_drop, length_app in Hd. cbn in Hd. llia. }
  apply wp_bind. eapply wp_mono; [apply (strbuf_vaddf_spec junk STRBUF_INIT [] _ sb_ok_init); rewrite ?len_app; unfold BIG; change (len str_refs_tags) with 10; change (len (@nil Z)) with 0; lia|]. intros sb Hsb. cbn [app] in Hsb.
  destruct (sb_ok_data sb _ Hsb) as (rest & Hm). assert (cstr (mem_of (sb_buf sb)) 0 (str_refs_tags ++ l)) as Hcs.
  { split; [done|]. split; [|by exists rest]. apply Forall_app. split; [by repeat constructor|]. eapply Forall_impl; [exact Hl|]. by intros c []. }
  apply Forall_app in Hby as [_ Hby]. apply Forall_app in Hby as [Hby _].
  destruct (check_refname_format_ok junk _ 0 _ 0 Hcs) as (r & -> & Hr & Hrules); [apply Forall_app; split; [repeat constructor; lia|done]|rewrite len_app; change (len str_refs_tags) with 10; lia|]. cbn [mbind res_bind].
  apply at_app, (at_app _ _ [10]) in Hq1. change (len [10]) with 1 in Hq1. change (r = 0 <-> tag_name_ok l) in Hrules. destruct (tr r) eqn:Er.
  - apply tr_true in Er. assert (~ tag_name_ok l) as Hno by tauto. destruct (tr (R FSCK_MSG_BAD_TAG_NAME)) eqn:ER; [apply wp_ret; split; [by eexists|]; split; [done|]; apply adds_loud; tauto|].
    destruct (tag_tagger_ok fuel _ w (t ++ [FSCK_MSG_BAD_TAG_NAME]) Hq1 Hw Hf) as (o & -> & Ho). cbn [mbind res_bind]. apply wp_ret. split; [by eexists|]. split; [done|]. eapply adds_after; [|exact Ho]. tauto.
  - apply tr_false in Er. cbn [tr Z.eqb negb]. destruct (tag_tagger_ok fuel _ w t Hq1 Hw Hf) as (o & Eo & Ho). rewrite Eo. cbn [mbind res_bind]. apply wp_ret. split; [by eexists|]. split; [done|]. eapply adds_proper; [|reflexivity|exact Ho]. tauto.
Qed.

Lemma tag_name_any fuel q w t : at_text mem q w -> hdr w -> (length mem < fuel)%nat ->
  wp oom (tag_name junk R mem fuel size q t STRBUF_INIT) (fun '(o, sb) => (exists s, sb_ok sb s) /\ adds t (name_form w) o).
Proof using Hb Hsize.
  intros Hq Hw Hf. destruct (keyword_at mem str_tag q w Hq Hw) as [(l & w' & -> & Hl & Hw' & _)|[Hn Es]]; [by repeat constructor|done| |].
  - eapply wp_mono; [by apply (tag_name_line fuel q l w' t)|]. intros [o sb] (Hsb & _ & Ho). split; [done|]. by rewrite (name_line l w' Hl).
  - unfold tag_name. rewrite Z.leb_antisym. assert ((if negb (q <? size) then Ok None else skip_literal mem q str_tag) = Ok None) as -> by (destruct (Z.ltb_spec q size); cbn [negb]; [auto|done]). cbn [mbind res_bind].
    split; [exists []; apply sb_ok_init|]. apply adds_loud. intros (l & w' & -> & _). apply Hn. by eexists.
Qed.

(** A line with a type: behind a good one the name comes. *)
Lemma tag_type_line fuel q l w t ty0 (Q : Z * list fsck_msg_id * strbuf * Z -> Prop) : at_text mem q (str_type ++ l ++ 10 :: w) -> in_line l -> hdr w -> (length mem < fuel)%nat ->
  (forall ty, type_text ty = Some l -> wp oom (tag_name junk R mem fuel size (q + len str_type + len l + 1) t STRBUF_INIT) (fun '(o, sb) => Q (o, sb, ty))) ->
  ((forall ty, type_text ty <> Some l) -> forall o sb ty, (exists s, sb_ok sb s) -> adds t False o -> Q (o, sb, ty)) ->
  wp oom (tag_type junk R mem fuel size q t STRBUF_INIT ty0) Q.
Proof using Hb Hsize.
  intros Hq Hl Hw Hf Hgood Hbad. pose proof (hdr_line (str_type ++ l) w) as Hh. rewrite <- app_assoc in Hh. unfold tag_type. rewrite Z.leb_antisym.
  destruct (keyword_at mem str_type q _ Hq) as [(l' & w' & E & Hl' & _ & Hlt & -> & Hq1)|[Hn _]]; [apply Hh; [apply Forall_app; split; [by repeat constructor|done]|done]|by repeat constructor|done| |destruct Hn; by eexists].
  destruct (keyword_line _ _ _ _ _ Hl Hl' E) as [<- <-]. clear Hl' E Hh. rewrite (proj2 (Z.ltb_lt _ _) Hlt). cbn [mbind res_bind negb]. rewrite (memchr_line _ l w Hq1 Hl). cbn [mbind res_bind].
  replace (q + len str_type + len l - (q + len str_type)) with (len l) by lia. rewrite (type_from_string_ok mem _ l w Hq1 Hl). cbn [mbind res_bind]. destruct (Z.ltb_spec (type_of l) 0) as [Hneg|Hpos].
  - assert (forall ty, type_text ty <> Some l) as Hno. { intros ty E. destruct (decide (0 <= ty)) as [H0|H0]; [apply (type_of_iff l ty H0) in E; lia|]. unfold type_text in E. repeat match type of E with context[?x =? ?y] => destruct (Z.eqb_spec x y); [lia|] end. done. }
    destruct (tr (R FSCK_MSG_BAD_TYPE)); [apply wp_ret, (Hbad Hno); [exists []; apply sb_ok_init|apply adds_loud; tauto]|]. apply at_app, (at_app _ _ [10]) in Hq1. change (len [10]) with 1 in Hq1.
    apply wp_bind. eapply wp_mono; [by apply (tag_name_any fuel _ w (t ++ [FSCK_MSG_BAD_TYPE]))|]. intros [o sb] [Hsb Ho]. apply wp_ret, (Hbad Hno); [done|]. eapply adds_after; [|exact Ho]. tauto.
  - cbn [tr Z.eqb negb]. apply wp_bind. eapply wp_mono; [apply (Hgood (type_of l)); by apply type_of_iff|]. intros [o sb] HQ. by apply wp_ret.
Qed.


Context (algo : Z) (Halgo : algo = 1 \/ algo = 2).

Abbreviation hexlen := (Z.to_nat (algo_rawsz algo) * 2)%nat.

Definition named (hex : list Z) (oid : object_id) : Prop := exists bs, unhex (Z.to_nat (algo_rawsz algo)) hex = Some bs /\ oid = mkOid (bs ++ replicate (Z.to_nat (32 - algo_rawsz algo)) 0) algo.

(** A good first line. *)
Lemma tag_object_line fuel hex w oid0 ty0 (Q : Z * list fsck_msg_id * strbuf * object_id * Z -> Prop) : headers_end mem -> mem = str_object ++ hex ++ 10 :: w -> oid_form hexlen hex -> len (oid_hash oid0) = 32 ->
  (forall oid q, named hex oid -> hdr w -> at_text mem q w -> wp oom (tag_type junk R mem fuel size q [] STRBUF_INIT ty0) (fun '(o, sb, ty) => Q (o, sb, oid, ty))) ->
  wp oom (tag_object junk R mem algo fuel size STRBUF_INIT oid0 ty0) Q.
Proof using Hb Halgo.
  intros Hh E Ho H32 HQ. unfold tag_object. destruct (verify_headers_ok R mem) as [[_ ->]|[? _]]; [|done]. cbn [mbind res_bind tr Z.eqb negb]. rewrite Z.leb_antisym.
  destruct (keyword_at mem str_object 0 mem (conj (Z.le_refl 0) eq_refl) (headers_hdr _ Hh)) as [(l & w' & E' & Hl & Hw' & Hlt & -> & Hq)|[Hn _]]; [by repeat constructor|done| |destruct Hn; by eexists].
  rewrite E in E'. destruct (keyword_line _ _ _ _ _ (oid_in_line _ _ Ho) Hl E') as [<- <-]. rewrite (proj2 (Z.ltb_lt _ _) Hlt). cbn [mbind res_bind negb].
  destruct (oid_line_ok mem Hb algo Halgo _ hex w oid0 None Hq Hl H32) as [(bs & _ & Eu & -> & Hq2)|[? _]]; [|done]. cbn [mbind res_bind tr Z.eqb negb after].
  apply wp_bind. eapply wp_mono; [apply (HQ _ _ ltac:(by exists bs) Hw' Hq2)|]. intros [[o sb] ty] H'. by apply wp_ret.
Qed.

Lemma strbuf_release_any sb s : sb_ok sb s -> exists sb', strbuf_release junk sb = Ok sb'.
Proof using Type. intros [[tl Hh]|[-> _]]; [|by eexists]. unfold strbuf_release. rewrite (sb_heap_alloc _ _ _ Hh). by eexists. Qed.

Lemma fsck_tag_standalone_wp fuel oid0 ty0 Q : wp oom (tag_object junk R mem algo fuel size STRBUF_INIT oid0 ty0) (fun '(o, sb, oid, ty) => (exists s, sb_ok sb s) /\ Q (mkTo o.1 o.2 oid ty)) ->
  wp oom (fsck_tag_standalone junk R mem algo fuel size oid0 ty0) Q.
Proof using Type.
  intros HQ. unfold fsck_tag_standalone. apply wp_bind. eapply wp_mono; [exact HQ|]. intros [[[[ret t] sb] oid] ty] [(s & Hs) H']. destruct (strbuf_release_any sb s Hs) as (sb' & ->). cbn [mbind res_bind]. by apply wp_ret.
Qed.


(** The lines before the tagger are good. *)
Definition front (hex name : list Z) (ty : Z) (tail : list Z) : list Z := str_object ++ hex ++ 10 :: str_type ++ default [] (type_text ty) ++ 10 :: str_tag ++ name ++ 10 :: tail.

Lemma fsck_tag_bad fuel oid0 ty0 hex ty name i w : (length mem < fuel)%nat -> len (oid_hash oid0) = 32 -> headers_end mem -> mem = front hex name ty (str_tagger ++ i ++ 10 :: w) -> oid_form hexlen hex -> 1 <= ty <= 4 ->
  in_line name -> tag_name_ok name -> in_line i -> ~ ident_form i ->
  wp oom (fsck_tag_standalone junk R mem algo fuel size oid0 ty0) (fun o => exists id,
    (signature_form w -> to_ret o = R id /\ to_msgs o = [id]) /\ (~ signature_form w -> to_ret o = R FSCK_MSG_EXTRA_HEADER_ENTRY /\ to_msgs o = [id; FSCK_MSG_EXTRA_HEADER_ENTRY])).
Proof using Hb Halgo Hsize.
  intros Hf H32 Hh E Ho Hty Hname Hok Hi Hbad. assert (exists tl, type_text ty = Some tl) as (tl & Et). { assert (ty = 1 \/ ty = 2 \/ ty = 3 \/ ty = 4) as [->|[->|[->| ->]]] by lia; by eexists. }
  unfold front in E. rewrite Et in E. cbn [default] in E. apply fsck_tag_standalone_wp. apply (tag_object_line fuel hex _ oid0 ty0 _ Hh E Ho H32). intros oid q _ Hh1 Hq1.
  pose proof (type_text_line _ _ Et) as Htl. pose proof (hdr_keyword _ _ _ Hh1 ltac:(by repeat constructor) Htl ltac:(done)) as Hh2. pose proof (hdr_keyword _ _ _ Hh2 ltac:(by repeat constructor) Hname ltac:(done)) as Hh3. pose proof (hdr_keyword _ _ _ Hh3 ltac:(by repeat constructor) Hi ltac:(done)) as Hh4.
  eapply tag_type_line; [exact Hq1|done|done|done| |intros Hno; by destruct (Hno ty)]. intros ty' _. apply at_app, at_app, (at_app _ _ [10]) in Hq1.
  eapply wp_mono; [by eapply (tag_name_line fuel _ name)|]. intros [o sb] (Hsb & Htg & _). apply at_app, at_app, (at_app _ _ [10]) in Hq1. destruct (tag_tagger_bad fuel _ i w [] Hq1 Hi Hh4 Hf Hbad) as (id & H1 & H2). change (len [10]) with 1 in H1, H2. specialize (Htg Hok).
  split; [done|]. exists id. split; intros Hs; [specialize (H1 Hs)|specialize (H2 Hs)]; cbn [to_ret to_msgs].
  - rewrite H1 in Htg. by injection Htg as <-.
  - rewrite H2 in Htg. by injection Htg as <-.
Qed.
End Tag.


(** C37: a tag whose lines up to the name are good and whose tagger is malformed gets the return value of that message, an error by default, when nothing but a
    signature follows; but when an unknown header follows, whose message is ignored by default, the return value is 0, so that a caller that
    looks at it accepts the tag. *)
Theorem fsck_tag_forgets_tagger `{OidSet T} `{Memory} junk (error_func : object_id -> fsck_msg_type_t -> fsck_msg_id -> Z) (options : @fsck_options T) oid mem algo fuel oid0 ty0 hex ty name i w :
  is_bytes mem -> len mem < 2 ^ 31 - 16 -> algo = 1 \/ algo = 2 -> (length mem < fuel)%nat -> len (oid_hash oid0) = 32 -> fsck_msg_type FSCK_MSG_EXTRA_HEADER_ENTRY options = FSCK_IGNORE ->
  headers_end mem -> mem = front hex name ty (str_tagger ++ i ++ 10 :: w) -> oid_form (Z.to_nat (algo_rawsz algo) * 2) hex -> 1 <= ty <= 4 -> in_line name -> tag_name_ok name -> in_line i -> ~ ident_form i ->
  wp oom (fsck_tag_standalone junk (report error_func options oid) mem algo fuel (len mem) oid0 ty0) (fun o => exists id,
    (signature_form w -> to_ret o = report error_func options oid id /\ to_msgs o = [id]) /\ (~ signature_form w -> to_ret o = 0 /\ to_msgs o = [id; FSCK_MSG_EXTRA_HEADER_ENTRY])).
Proof.
  intros Hb Hsz Ha Hf H32 Hig Hh E Ho Hty Hn Hok Hi Hbad. assert (report error_func options oid FSCK_MSG_EXTRA_HEADER_ENTRY = 0) as HR by (unfold report, fsck_vreport; rewrite Hig; by destruct (object_on_skiplist options oid)).
  eapply wp_mono; [by eapply (fsck_tag_bad junk (report error_func options oid) mem Hb Hsz algo Ha fuel oid0 ty0 hex ty name i w)|]. cbn beta. by rewrite HR.
Qed.

#[local] Existing Instance ex_oidset.
#[local] Existing Instance plenty.

Definition ex_oid0 : object_id := mkOid (replicate 32 0) 0.
Definition ex_options : @fsck_options (list object_id) := mkFo false None [] [] [].


Definition ex_tag_run (m : list Z) : res tag_out := fsck_tag_standalone 0 (report ex_error ex_options ex_skip) m 1 200 (len m) ex_oid0 0.



(** The tagger is "A", and "x y" follows. *)
Definition ex_bad_tagger : list Z := front (replicate 40 97) [118; 49] 1 (str_tagger ++ [65] ++ 10 :: [120; 32; 121; 10]).

Lemma ex_name_ok : tag_name_ok [118; 49].
Proof.
  destruct (check_refname_format_ok 0 (str_refs_tags ++ [118; 49; 0]) 0 (str_refs_tags ++ [118; 49]) 0) as (r & E & _ & Hr); [split_and!; [done|by apply (bool_decide_eq_true_1 _)|by exists []]|by apply (bool_decide_eq_true_1 _)|done|].
  apply Hr. assert (check_refname_format 0 (str_refs_tags ++ [118; 49; 0]) 0 0 = Ok 0) as E' by (vm_compute; reflexivity). congruence.
Qed.

Lemma fsck_tag_forgets_tagger_witness : exists o id, ex_tag_run ex_bad_tagger = Ok o /\ to_ret o = 0 /\ to_msgs o = [id; FSCK_MSG_EXTRA_HEADER_ENTRY].
Proof.
  assert (headers_end ex_bad_tagger) as Hh by (exists (removelast ex_bad_tagger), []; split_and!; [done|by apply (bool_decide_eq_true_1 _)|by left]).
  assert (~ ident_form [65]) as Hi by (intros (name & mail & d & E & _); apply (f_equal length) in E; rewrite !length_app in E; cbn in E; lia).
  assert (~ signature_form [120; 32; 121; 10]) as Hs by (rewrite signature_none; [intros [?|(t & ?)]; done|apply (bool_decide_eq_false_1 _); done|apply (bool_decide_eq_false_1 _); done]).
  pose proof (fsck_tag_forgets_tagger 0 ex_error ex_options ex_skip ex_bad_tagger 1 200 ex_oid0 0 (replicate 40 97) 1 [118; 49] [65] [120; 32; 121; 10] ltac:(by apply (bool_decide_eq_true_1 _)) ltac:(done) ltac:(by left) ltac:(apply Nat.ltb_lt; by vm_compute) ltac:(done) ltac:(done)
    Hh ltac:(done) ltac:(split; [done|by apply (bool_decide_eq_true_1 _)]) ltac:(lia) ltac:(by repeat constructor) ex_name_ok ltac:(by repeat constructor) Hi) as Hx. fold (ex_tag_run ex_bad_tagger) in Hx.
  assert (ex_tag_run ex_bad_tagger = Ok (mkTo 0 [FSCK_MSG_MISSING_EMAIL; FSCK_MSG_EXTRA_HEADER_ENTRY] (mkOid (replicate 20 170 ++ replicate 12 0) 1) 1)) as E by (vm_compute; reflexivity). rewrite E in Hx |- *.
  destruct Hx as (id & _ & Hx). destruct (Hx Hs) as [H1 H2]. eexists _, id. split; [reflexivity|]. by split.
Defined.
