(* ===== verification/CbTree.v ===== *)
(** * Crit-bit trees: [cbtree.c]

    A node is at once a leaf, which holds a key, and an inner node, which holds the place of the first bit that its two subtrees differ in; a
    pointer to a node as an inner node has its lowest bit set.  The theorem is that the tree is a finite map from keys to nodes:
    insertions and lookups, by whole keys or by prefixes, do what they do there, and a walk visits exactly the nodes whose keys have the
    prefix, in the order of the keys, until the callback breaks it off. *)

From stdpp Require Import prelude numbers list gmap sorting.
From S2P Require Import Prelude PatchDelta CString.

(** ** The code *)

Record cb_node := mkCn { cn_child0 : Z; cn_child1 : Z; cn_byte : Z; cn_otherbits : Z; cn_k : list Z }.

Abbreviation cb_heap := (gmap Z cb_node).

(** The root, which is all that [struct cb_tree] has. *)
Definition CBTREE_INIT : Z := 0.

Definition cb_load (h : cb_heap) (p : Z) : res cb_node := match h !! p with Some n => Ok n | None => Fault UB end.

Definition is_inner (p : Z) : bool := tr (1 &. p).

Definition cb_node_of (p : Z) : Z := p - 1.

Definition cn_child (n : cb_node) (direction : Z) : Z := if direction =? 0 then cn_child0 n else cn_child1 n.

Definition cn_set_child (n : cb_node) (direction p : Z) : cb_node :=
  if direction =? 0 then mkCn p (cn_child1 n) (cn_byte n) (cn_otherbits n) (cn_k n) else mkCn (cn_child0 n) p (cn_byte n) (cn_otherbits n) (cn_k n).

(** [q->byte < klen ? k[q->byte] : 0], and the direction that it leads to. *)
Definition cb_direction (q : cb_node) (k : list Z) (klen : Z) : res Z :=
  c ← (if cn_byte q <? klen then rd k (cn_byte q) else Ok 0);
  Ok ((1 + (cn_otherbits q |. c)) >>. 8).

Definition best_match_step (h : cb_heap) (k : list Z) (klen : Z) (p : Z) : res (Z + Z) :=
  if is_inner p then
    q ← cb_load h (cb_node_of p);
    direction ← cb_direction q k klen;
    Ok (inl (cn_child q direction))
  else Ok (inr p).

(** A path has at most as many inner nodes as there are nodes. *)
Definition cb_internal_best_match (h : cb_heap) (p : Z) (k : list Z) (klen : Z) : res Z := loop (S (size h)) (best_match_step h k klen) p.

(** The first byte of the two keys that differs, [None] when [klen] is reached. *)
Definition differ_step (a b : list Z) (klen : Z) (i : Z) : res (Z + option Z) :=
  if i <? klen then
    x ← rd a i; y ← rd b i;
    if negb (x =? y) then Ok (inr (Some i)) else Ok (inl (i + 1))
  else Ok (inr None).

Definition first_difference (a b : list Z) (klen : Z) : res (option Z) := loop (S (Z.to_nat klen)) (differ_step a b klen) 0.

(** [x] with all bits below its highest one set, and from that the complement of the highest one. *)
Definition crit_bits (x : Z) : Z :=
  let o := x in
  let o := o |. (o >>. 1) in
  let o := o |. (o >>. 2) in
  let o := o |. (o >>. 4) in
  (o &. Z.lnot (o >>. 1)) ^. 255.

(** What [wherep] points to: the root of the tree or a child of a node. *)
Inductive cb_slot := SlotRoot | SlotChild (q direction : Z).

Definition slot_read (h : cb_heap) (root : Z) (s : cb_slot) : res Z :=
  match s with SlotRoot => Ok root | SlotChild q d => n ← cb_load h q; Ok (cn_child n d) end.

Definition slot_write (h : cb_heap) (root : Z) (s : cb_slot) (p : Z) : res (cb_heap * Z) :=
  match s with
  | SlotRoot => Ok (h, p)
  | SlotChild q d => n ← cb_load h q; Ok (<[q := cn_set_child n d p]> h, root)
  end.

Definition cb_place_step (h : cb_heap) (root : Z) (k : list Z) (klen newbyte newotherbits : Z) (wherep : cb_slot) : res (cb_slot + cb_slot) :=
  p ← slot_read h root wherep;
  if negb (is_inner p) then Ok (inr wherep)
  else
    q ← cb_load h (cb_node_of p);
    if newbyte <? cn_byte q then Ok (inr wherep)
    else if (cn_byte q =? newbyte) && (newotherbits <? cn_otherbits q) then Ok (inr wherep)
    else
      direction ← cb_direction q k klen;
      Ok (inl (SlotChild (cb_node_of p) direction)).

(** The nodes, the root and the return value. *)
Definition cb_insert (h : cb_heap) (root node klen : Z) : res (cb_heap * Z * Z) :=
  _ ← assert (negb (is_inner node));
  if negb (tr root) then Ok (h, node, 0)
  else
    n ← cb_load h node;
    p ← cb_internal_best_match h root (cn_k n) klen;
    pn ← cb_load h p;
    d ← first_difference (cn_k pn) (cn_k n) klen;
    match d with
    | None => Ok (h, root, p)
    | Some newbyte =>
        c ← rd (cn_k pn) newbyte; x ← rd (cn_k n) newbyte;
        let newotherbits := crit_bits (c ^. x) in
        let newdirection := (1 + (newotherbits |. c)) >>. 8 in
        let n := cn_set_child (mkCn (cn_child0 n) (cn_child1 n) (u32 newbyte) (u8 newotherbits) (cn_k n)) (1 - newdirection) node in
        let h := <[node := n]> h in
        wherep ← loop (S (size h)) (cb_place_step h root (cn_k n) klen newbyte newotherbits) SlotRoot;
        old ← slot_read h root wherep;
        n ← cb_load h node;
        let h := <[node := cn_set_child n newdirection old]> h in
        '(h, root) ← slot_write h root wherep (1 + node);
        Ok (h, root, 0)
    end.

Definition cb_lookup (h : cb_heap) (root : Z) (k : list Z) (klen : Z) : res Z :=
  p ← cb_internal_best_match h root k klen;
  if negb (tr p) then Ok 0
  else
    n ← cb_load h p;
    a ← rd_slice (cn_k n) 0 klen; b ← rd_slice k 0 klen;
    Ok (if negb (tr (memcmp a b)) then p else 0).

Section Each.
(** The callback: the node and what [arg] points to; [true] is [CB_BREAK]. *)
Context {A : Type} (fn : cb_heap -> Z -> A -> res (A * bool)).

Fixpoint cb_descend (fuel : nat) (h : cb_heap) (p : Z) (arg : A) : res (A * bool) :=
  match fuel with
  | O => Fault OutOfFuel
  | S fuel =>
      if is_inner p then
        q ← cb_load h (cb_node_of p);
        '(arg, n) ← cb_descend fuel h (cn_child0 q) arg;
        if (n : bool) then Ok (arg, n) else cb_descend fuel h (cn_child1 q) arg
      else fn h p arg
  end.

Definition cb_each_step (h : cb_heap) (kpfx : list Z) (klen : Z) (st : Z * Z) : res (Z * Z + Z * Z) :=
  let '(p, top) := st in
  if is_inner p then
    q ← cb_load h (cb_node_of p);
    direction ← cb_direction q kpfx klen;
    let p := cn_child q direction in
    Ok (inl (p, if cn_byte q <? klen then p else top))
  else Ok (inr (p, top)).

Definition cb_each (h : cb_heap) (root : Z) (kpfx : list Z) (klen : Z) (arg : A) : res A :=
  if negb (tr root) then Ok arg
  else
    '(p, top) ← loop (S (size h)) (cb_each_step h kpfx klen) (root, root);
    n ← cb_load h p;
    d ← first_difference (cn_k n) kpfx klen;
    match d with
    | Some _ => Ok arg
    | None => '(arg, _) ← cb_descend (S (size h)) h top arg; Ok arg
    end.
End Each.

(** ** Bits of keys *)

(** Bit [c] of a key, counted from the highest bit of its first byte; 0 behind the end. *)
Definition kbit (k : list Z) (c : nat) : bool := Z.testbit (default 0 (k !! (c / 8)%nat)) (7 - Z.of_nat (c mod 8)).

Definition agree (c : nat) (a b : list Z) : Prop := forall j, (j < c)%nat -> kbit a j = kbit b j.

(** The node splits at bit [c]. *)
Definition splits_at (n : cb_node) (c : nat) : Prop := cn_byte n = Z.of_nat (c / 8) /\ cn_otherbits n = 255 - 2 ^ (7 - Z.of_nat (c mod 8)).

Lemma bit_index c : exists i, 7 - Z.of_nat (c mod 8) = i /\ (i = 0 \/ i = 1 \/ i = 2 \/ i = 3 \/ i = 4 \/ i = 5 \/ i = 6 \/ i = 7).
Proof. eexists. split; [done|]. pose proof (Nat.mod_upper_bound c 8). lia. Qed.

Lemma direction_byte x i : is_byte x -> i = 0 \/ i = 1 \/ i = 2 \/ i = 3 \/ i = 4 \/ i = 5 \/ i = 6 \/ i = 7 ->
  (1 + ((255 - 2 ^ i) |. x)) >>. 8 = Z.b2z (Z.testbit x i).
Proof.
  intros Hx Hi. apply Z.eqb_eq. revert x Hx. destruct Hi as [->|[->|[->|[->|[->|[->|[->| ->]]]]]]]; by apply byte_forall.
Qed.

Lemma crit_bits_byte x : is_byte x -> x <> 0 -> crit_bits x = 255 - 2 ^ Z.log2 x.
Proof.
  intros Hx Hn. assert ((x =? 0) || (crit_bits x =? 255 - 2 ^ Z.log2 x) = true) as H by (revert x Hx Hn; intros x Hx _; revert x Hx; by apply byte_forall).
  apply orb_true_iff in H as [H|H]; apply Z.eqb_eq in H; done.
Qed.

Lemma byte_at k c : is_bytes k -> is_byte (default 0 (k !! c)).
Proof. intros Hk. destruct (k !! c) as [x|] eqn:E; [by eapply is_byte_lookup|done]. Qed.

Lemma direction_ok q k c : splits_at q c -> is_bytes k -> cb_direction q k (len k) = Ok (Z.b2z (kbit k c)).
Proof.
  intros [Hb Ho] Hk. unfold cb_direction. rewrite Hb, Ho. destruct (bit_index c) as (i & Hi & Hi'). unfold kbit. rewrite Hi.
  assert ((if Z.of_nat (c / 8) <? len k then rd k (Z.of_nat (c / 8)) else Ok 0) = Ok (default 0 (k !! (c / 8)%nat))) as ->.
  { destruct (Z.ltb_spec (Z.of_nat (c / 8)) (len k)) as [Hlt|Hge]; [|rewrite lookup_ge_None_2 by llia; done]. destruct (lookup_lt_is_Some_2 k (c / 8)%nat) as (x & Hx); [llia|]. rewrite Hx. apply rd_Some; [lia|]. by rewrite Nat2Z.id. }
  cbn [mbind res_bind]. f_equal. apply direction_byte; [by apply byte_at|done].
Qed.

Lemma child_bit n b : cn_child n (Z.b2z b) = if b then cn_child1 n else cn_child0 n.
Proof. by destruct b. Qed.

(** ** Trees *)

(** A tree: leaves, and inner nodes with the bit they split at. *)
Inductive cbt := Lf (p : Z) | Br (q : Z) (c : nat) (l r : cbt).

Fixpoint leaves (t : cbt) : list Z := match t with Lf p => [p] | Br _ _ l r => leaves l ++ leaves r end.
Fixpoint inners (t : cbt) : list Z := match t with Lf _ => [] | Br q _ l r => q :: inners l ++ inners r end.
Fixpoint height (t : cbt) : nat := match t with Lf _ => O | Br _ _ l r => S (height l `max` height r) end.

Definition node_key (h : cb_heap) (p : Z) : list Z := match h !! p with Some n => cn_k n | None => [] end.

(** The tree that a pointer stands for. *)
Fixpoint cb_repr (h : cb_heap) (ptr : Z) (t : cbt) : Prop :=
  match t with
  | Lf p => ptr = p /\ p <> 0 /\ Z.even p = true /\ is_Some (h !! p)
  | Br q c l r => ptr = 1 + q /\ q <> 0 /\ Z.even q = true /\ exists n, h !! q = Some n /\ splits_at n c /\ cb_repr h (cn_child0 n) l /\ cb_repr h (cn_child1 n) r
  end.

(** The root splits behind [c]. *)
Definition below (c : nat) (t : cbt) : Prop := match t with Lf _ => True | Br _ c' _ _ => (c < c')%nat end.

Fixpoint cb_ordered (key : Z -> list Z) (t : cbt) : Prop :=
  match t with
  | Lf _ => True
  | Br _ c l r => Forall (fun p => kbit (key p) c = false) (leaves l) /\ Forall (fun p => kbit (key p) c = true) (leaves r) /\
      (forall p p', p ∈ leaves l ++ leaves r -> p' ∈ leaves l ++ leaves r -> agree c (key p) (key p')) /\ below c l /\ below c r /\ cb_ordered key l /\ cb_ordered key r
  end.

(** Where a key leads to. *)
Fixpoint best (t : cbt) (k : list Z) : Z := match t with Lf p => p | Br _ c l r => if kbit k c then best r k else best l k end.

Lemma cb_load_ok h p n : h !! p = Some n -> cb_load h p = Ok n.
Proof. intros E. unfold cb_load. by rewrite E. Qed.

Lemma inner_even p : Z.even p = true -> is_inner p = false /\ is_inner (1 + p) = true.
Proof.
  intros Hp. unfold is_inner. apply Z.even_spec in Hp as [m ->]. assert (forall x, 1 &. x = x `mod` 2) as Hl by (intros x; rewrite Z.land_comm; exact (Z.land_ones x 1 ltac:(lia))). rewrite !Hl. split; [apply tr_false; dlia|apply tr_true; dlia].
Qed.

Lemma repr_leaf h ptr p : cb_repr h ptr (Lf p) -> is_inner ptr = false.
Proof. intros (-> & _ & He & _). by apply inner_even. Qed.

Lemma repr_inner h ptr q c l r : cb_repr h ptr (Br q c l r) -> is_inner ptr = true /\ cb_node_of ptr = q.
Proof. intros (-> & _ & He & _). split; [by apply inner_even|unfold cb_node_of; lia]. Qed.

Lemma repr_nonnull h ptr t : cb_repr h ptr t -> tr ptr = true.
Proof. intros Hr. apply tr_true. destruct t; [by destruct Hr as (-> & ? & _)|]. destruct Hr as (-> & _ & He & _). intros E. assert (q = -1) as -> by lia. done. Qed.

Lemma repr_leaves h ptr t : cb_repr h ptr t -> forall p, p ∈ leaves t -> p <> 0 /\ Z.even p = true /\ is_Some (h !! p).
Proof.
  revert ptr. induction t as [p|q c l IHl r IHr]; intros ptr Hr p'; cbn [leaves]; [intros ->%list_elem_of_singleton; by destruct Hr as (_ & ? & ? & ?)|]. destruct Hr as (_ & _ & _ & n & _ & _ & Hl & Hr).
  intros [?|?]%elem_of_app; [by apply (IHl _ Hl)|by apply (IHr _ Hr)].
Qed.

Lemma height_inners t : (height t <= length (inners t))%nat.
Proof. induction t as [|q c l IHl r IHr]; cbn; [lia|]. rewrite length_app. lia. Qed.

Lemma best_leaf t k : best t k ∈ leaves t.
Proof. induction t as [p|q c l IHl r IHr]; cbn; [by apply list_elem_of_singleton|]. apply elem_of_app. destruct (kbit k c); tauto. Qed.

Lemma best_match_ok h ptr t k fuel : cb_repr h ptr t -> is_bytes k -> (height t < fuel)%nat -> loop fuel (best_match_step h k (len k)) ptr = Ok (best t k).
Proof.
  revert ptr fuel. induction t as [p|q c l IHl r IHr]; intros ptr fuel Hr Hk Hf; (destruct fuel as [|fuel]; [lia|]); rewrite loop_S; unfold best_match_step at 1.
  - rewrite (repr_leaf _ _ _ Hr). by destruct Hr as (-> & _).
  - destruct (repr_inner _ _ _ _ _ _ Hr) as [-> ->]. destruct Hr as (_ & _ & _ & n & Hn & Hs & Hl & Hr). unfold cb_load. rewrite Hn. cbn [mbind res_bind]. rewrite (direction_ok n k c Hs Hk). cbn [mbind res_bind best height] in *. rewrite child_bit.
    destruct (kbit k c); [apply IHr|apply IHl]; done || lia.
Qed.

(** ** Insertion into trees *)

Definition joined (node : Z) (d : nat) (b : bool) (t : cbt) : cbt := if b then Br node d t (Lf node) else Br node d (Lf node) t.

(** [node] with the key [k] goes where the bits up to [d] lead to. *)
Fixpoint inserted (t : cbt) (k : list Z) (d : nat) (node : Z) : cbt :=
  match t with
  | Lf _ => joined node d (kbit k d) t
  | Br q c l r =>
      if (d <? c)%nat then joined node d (kbit k d) t
      else if kbit k c then Br q c l (inserted r k d node) else Br q c (inserted l k d node) r
  end.

Lemma joined_leaves node d b t p : p ∈ leaves (joined node d b t) <-> p = node \/ p ∈ leaves t.
Proof. destruct b; cbn; rewrite ?elem_of_app, ?elem_of_cons, ?elem_of_nil; tauto. Qed.

Lemma inserted_leaves t k d node p : p ∈ leaves (inserted t k d node) <-> p = node \/ p ∈ leaves t.
Proof.
  induction t as [p'|q c l IHl r IHr]; cbn [inserted]; [apply joined_leaves|]. destruct (d <? c)%nat; [apply joined_leaves|]. destruct (kbit k c); cbn [leaves]; rewrite !elem_of_app; tauto.
Qed.

Lemma joined_inners node d b t : inners (joined node d b t) ≡ₚ node :: inners t.
Proof. destruct b; cbn; [by rewrite app_nil_r|done]. Qed.

Lemma inserted_inners t k d node : inners (inserted t k d node) ≡ₚ node :: inners t.
Proof.
  induction t as [p'|q c l IHl r IHr]; cbn [inserted]; [apply joined_inners|]. destruct (d <? c)%nat; [apply joined_inners|]. destruct (kbit k c); cbn [inners]; [rewrite IHr|rewrite IHl]; solve_Permutation.
Qed.

Lemma agree_sym c a b : agree c a b -> agree c b a.
Proof. intros H j Hj. symmetry. by apply H. Qed.

Lemma agree_trans c a b e : agree c a b -> agree c b e -> agree c a e.
Proof. intros H1 H2 j Hj. by rewrite H1, H2. Qed.

Lemma agree_le c d a b : (c <= d)%nat -> agree d a b -> agree c a b.
Proof. intros Hc H j Hj. apply H. lia. Qed.

(** All keys of a tree that splits behind [d] have the bits of any one of them up to [d]. *)
Lemma ordered_agree key t d p p' : cb_ordered key t -> below d t -> p ∈ leaves t -> p' ∈ leaves t -> agree (S d) (key p) (key p').
Proof. destruct t as [p0|q c l r]; cbn; [by intros _ _ ->%list_elem_of_singleton ->%list_elem_of_singleton|]. intros (_ & _ & Ha & _) Hc Hp Hp'. apply (agree_le _ c); [lia|]. by apply Ha. Qed.

(** A new key [k] that has the bits of [p] up to [d], and not bit [d], above a tree with [p] in it. *)
Lemma joined_ordered key t d p node : cb_ordered key t -> below d t -> p ∈ leaves t -> agree d (key node) (key p) -> kbit (key node) d <> kbit (key p) d -> cb_ordered key (joined node d (kbit (key node) d) t).
Proof.
  intros Ho Hd Hp Ha Hk. assert (forall x, x ∈ leaves t -> agree d (key node) (key x) /\ kbit (key x) d = negb (kbit (key node) d)) as Hx.
  { intros x Hxin. pose proof (ordered_agree key t d p x Ho Hd Hp Hxin) as Hpx. split; [eapply agree_trans; [exact Ha|]; eapply agree_le; [|exact Hpx]; lia|]. rewrite <- (Hpx d) by lia. destruct (kbit (key node) d), (kbit (key p) d); done. }
  assert (forall x y, (x = node \/ x ∈ leaves t) -> (y = node \/ y ∈ leaves t) -> agree d (key x) (key y)) as Hxy.
  { assert (forall x, x = node \/ x ∈ leaves t -> agree d (key node) (key x)) as H0 by (intros x [->|Hxin]; [by intros j _|by apply Hx]). intros x y Hxin Hyin. eapply agree_trans; [apply agree_sym|]; by apply H0. }
  destruct (kbit (key node) d) eqn:E; cbn [joined cb_ordered leaves below negb] in *; split_and!; try done.
  - apply Forall_forall. intros x Hxin. by apply Hx.
  - by apply Forall_singleton.
  - intros x y Hxin Hyin. apply Hxy; rewrite elem_of_app, list_elem_of_singleton in *; tauto.
  - by apply Forall_singleton.
  - apply Forall_forall. intros x Hxin. by apply Hx.
  - intros x y Hxin Hyin. apply Hxy; rewrite elem_of_app, list_elem_of_singleton in *; tauto.
Qed.

Lemma inserted_below t k d node c : below c t -> (c < d)%nat -> below c (inserted t k d node).
Proof. intros Hb Hd. destruct t as [p|q c' l r]; cbn [inserted]; [unfold joined; destruct (kbit k d); done|]. destruct (d <? c')%nat; [unfold joined; destruct (kbit k d); done|]. by destruct (kbit k c'). Qed.

Lemma best_bit key t k c : forall q l r, t = Br q c l r -> cb_ordered key t -> kbit (key (best t k)) c = kbit k c.
Proof.
  intros q l r -> (Hl & Hr & _). cbn [best]. rewrite Forall_forall in Hl, Hr. destruct (kbit k c); [apply Hr|apply Hl]; apply best_leaf.
Qed.

(** [d] is the first bit in which [node] differs from the leaf that its key leads to. *)
Lemma inserted_ordered key t d node : cb_ordered key t -> agree d (key node) (key (best t (key node))) -> kbit (key node) d <> kbit (key (best t (key node))) d -> cb_ordered key (inserted t (key node) d node).
Proof.
  induction t as [p|q c l IHl r IHr]; intros Ho Ha Hk; [apply (joined_ordered key (Lf p) d p); done || by apply list_elem_of_singleton|]. pose proof (best_bit key _ (key node) c q l r eq_refl Ho) as Hbit. cbn [inserted].
  destruct (Nat.ltb_spec d c) as [Hd|Hd]; [eapply joined_ordered; [done|done|apply best_leaf|done|done]|]. assert (c < d)%nat as Hcd by (destruct (decide (c = d)) as [->|]; [congruence|lia]). clear Hd.
  assert (forall x, x = node \/ x ∈ leaves (Br q c l r) -> agree c (key node) (key x)) as H0.
  { intros x [->|Hx]; [by intros j _|]. eapply agree_trans; [eapply agree_le; [|exact Ha]; lia|]. destruct Ho as (_ & _ & Hag & _). apply Hag; [apply (best_leaf (Br q c l r))|done]. }
  assert (forall x y, (x = node \/ x ∈ leaves (Br q c l r)) -> (y = node \/ y ∈ leaves (Br q c l r)) -> agree c (key x) (key y)) as Hxy by (intros x y Hx Hy; eapply agree_trans; [apply agree_sym|]; by apply H0).
  destruct Ho as (Hl & Hr & _ & Hbl & Hbr & Hol & Hor). cbn [best] in Ha, Hk. destruct (kbit (key node) c) eqn:E; cbn [cb_ordered]; split_and!; try done.
  - apply Forall_forall. intros x [->|Hx]%inserted_leaves; [done|]. rewrite Forall_forall in Hr. by apply Hr.
  - intros x y. rewrite !elem_of_app, !inserted_leaves. intros Hx Hy. apply Hxy; cbn [leaves]; rewrite elem_of_app; tauto.
  - by apply inserted_below.
  - by apply IHr.
  - apply Forall_forall. intros x [->|Hx]%inserted_leaves; [done|]. rewrite Forall_forall in Hl. by apply Hl.
  - intros x y. rewrite !elem_of_app, !inserted_leaves. intros Hx Hy. apply Hxy; cbn [leaves]; rewrite elem_of_app; tauto.
  - by apply inserted_below.
  - by apply IHl.
Qed.

(** ** Insertion in memory *)

Definition same_keys (h h' : cb_heap) : Prop := forall a, cn_k <$> h' !! a = cn_k <$> h !! a.

Lemma same_keys_some h h' a : same_keys h h' -> is_Some (h !! a) -> is_Some (h' !! a).
Proof. intros Hk [n Hn]. specialize (Hk a). rewrite Hn in Hk. apply fmap_Some in Hk as (n' & Hn' & _). by exists n'. Qed.

Lemma same_keys_key h h' a : same_keys h h' -> node_key h' a = node_key h a.
Proof. intros Hk. specialize (Hk a). unfold node_key. destruct (h !! a), (h' !! a); cbn in Hk; congruence. Qed.

Lemma repr_frame h h' ptr t : cb_repr h ptr t -> (forall a, a ∈ inners t -> h' !! a = h !! a) -> same_keys h h' -> cb_repr h' ptr t.
Proof.
  intros Hr Hf Hk. revert ptr Hr Hf. induction t as [p|q c l IHl r IHr]; intros ptr Hr Hf.
  - destruct Hr as (-> & Hp & He & Hs). split_and!; [done|done|done|by eapply same_keys_some].
  - destruct Hr as (-> & Hq & He & n & Hn & Hs & Hl & Hr). split_and!; [done|done|done|]. exists n. rewrite (Hf q) by constructor. split_and!; [done|done|apply IHl; [done|]|apply IHr; [done|]]; intros a Ha; apply Hf; cbn; rewrite elem_of_cons, elem_of_app; tauto.
Qed.

Lemma set_child_get n d p : cn_child (cn_set_child n d p) d = p.
Proof. unfold cn_child, cn_set_child. by destruct (d =? 0). Qed.

Lemma set_child_same n d p : cn_child n d = p -> cn_set_child n d p = n.
Proof. unfold cn_child, cn_set_child. destruct n. by destruct (d =? 0); intros <-. Qed.

Lemma set_child_key n d p : cn_k (cn_set_child n d p) = cn_k n.
Proof. unfold cn_set_child. by destruct (d =? 0). Qed.

Lemma set_child_splits n d p c : splits_at n c -> splits_at (cn_set_child n d p) c.
Proof. unfold cn_set_child. by destruct (d =? 0). Qed.

Lemma set_child_bits n b p : cn_child0 (cn_set_child n (Z.b2z b) p) = (if b then cn_child0 n else p) /\ cn_child1 (cn_set_child n (Z.b2z b) p) = (if b then p else cn_child1 n).
Proof. by destruct b. Qed.

(** The heap with a slot changed. *)
Definition slot_upd (h : cb_heap) (s : cb_slot) (p : Z) : cb_heap := match s with SlotRoot => h | SlotChild q d => alter (fun n => cn_set_child n d p) q h end.
Definition root_upd (root : Z) (s : cb_slot) (p : Z) : Z := match s with SlotRoot => p | SlotChild _ _ => root end.
Definition slot_node (s : cb_slot) : list Z := match s with SlotRoot => [] | SlotChild q _ => [q] end.

Lemma slot_write_ok h root s p q : slot_read h root s = Ok q -> slot_write h root s p = Ok (slot_upd h s p, root_upd root s p).
Proof.
  destruct s as [|a d]; cbn; [done|]. unfold cb_load. destruct (h !! a) as [n|] eqn:E; cbn; [|done]. intros _. do 2 f_equal. apply map_eq. intros i. destruct (decide (a = i)) as [->|]; [by rewrite lookup_insert_eq, lookup_alter_eq, E|by rewrite lookup_insert_ne, lookup_alter_ne].
Qed.

Lemma slot_upd_keys h s p : same_keys h (slot_upd h s p).
Proof.
  intros a. destruct s as [|q d]; [done|]. cbn. destruct (decide (q = a)) as [->|]; [|by rewrite lookup_alter_ne]. rewrite lookup_alter_eq. destruct (h !! a); [|done]. cbn. by rewrite set_child_key.
Qed.

Lemma slot_upd_other h s p a : a ∉ slot_node s -> slot_upd h s p !! a = h !! a.
Proof. destruct s as [|q d]; [done|]. cbn. rewrite list_elem_of_singleton. intros Ha. by rewrite lookup_alter_ne. Qed.

Lemma slot_upd_same h root s p a : slot_read h root s = Ok p -> slot_upd h s p !! a = h !! a.
Proof.
  destruct s as [|q d]; [done|]. cbn. unfold cb_load. destruct (h !! q) as [n|] eqn:E; cbn; [|done]. intros [= <-]. destruct (decide (q = a)) as [->|]; [|by rewrite lookup_alter_ne]. rewrite lookup_alter_eq, E. cbn. by rewrite set_child_same.
Qed.

Lemma slot_read_upd h root s p q : slot_read h root s = Ok q -> slot_read (slot_upd h s p) (root_upd root s p) s = Ok p.
Proof. destruct s as [|a d]; cbn; [done|]. unfold cb_load. rewrite lookup_alter_eq. destruct (h !! a) as [n|]; cbn; [|done]. intros _. by rewrite set_child_get. Qed.

Lemma slot_read_frame h h' root s : (forall a, a ∈ slot_node s -> h' !! a = h !! a) -> slot_read h' root s = slot_read h root s.
Proof. destruct s as [|a d]; cbn; [done|]. intros Ha. unfold cb_load. by rewrite Ha by constructor. Qed.

(** The test that ends the walk: the node splits behind bit [d]. *)
Lemma place_test n c d : splits_at n c ->
  (if Z.of_nat (d / 8) <? cn_byte n then true else (cn_byte n =? Z.of_nat (d / 8)) && (255 - 2 ^ (7 - Z.of_nat (d mod 8)) <? cn_otherbits n)) = (d <? c)%nat.
Proof.
  intros [-> ->]. pose proof (Nat.div_mod_eq c 8). pose proof (Nat.div_mod_eq d 8). pose proof (Nat.mod_upper_bound c 8 ltac:(lia)). pose proof (Nat.mod_upper_bound d 8 ltac:(lia)).
  destruct (Z.ltb_spec (Z.of_nat (d / 8)) (Z.of_nat (c / 8))); [symmetry; apply Nat.ltb_lt; lia|]. destruct (Z.eqb_spec (Z.of_nat (c / 8)) (Z.of_nat (d / 8))); cbn [andb]; [|symmetry; apply Nat.ltb_ge; lia].
  destruct (Nat.ltb_spec d c).
  - apply Z.ltb_lt. assert (2 ^ (7 - Z.of_nat (c mod 8)) < 2 ^ (7 - Z.of_nat (d mod 8))) by (apply Z.pow_lt_mono_r; lia). lia.
  - apply Z.ltb_ge. assert (2 ^ (7 - Z.of_nat (d mod 8)) <= 2 ^ (7 - Z.of_nat (c mod 8))) by (apply Z.pow_le_mono_r; lia). lia.
Qed.

Section Place.
Context (h : cb_heap) (root node : Z) (n0 : cb_node) (k : list Z) (d : nat).
Context (Hnode : h !! node = Some n0) (Hn0 : node <> 0) (Heven : Z.even node = true) (Hk : is_bytes k) (Hsplit : splits_at n0 d) (Hown : cn_child n0 (Z.b2z (kbit k d)) = node).

Abbreviation step := (cb_place_step h root k (len k) (Z.of_nat (d / 8)) (255 - 2 ^ (7 - Z.of_nat (d mod 8)))).

(** The node with its other child set, and the memory with it. *)
Definition linked (old : Z) : cb_heap := <[node := cn_set_child n0 (Z.b2z (negb (kbit k d))) old]> h.

Lemma linked_keys old : same_keys h (linked old).
Proof using Hnode. intros a. unfold linked. destruct (decide (node = a)) as [<-|]; [rewrite lookup_insert_eq, Hnode; cbn; by rewrite set_child_key|by rewrite lookup_insert_ne]. Qed.

(** What writing the new node into [s'] makes of the tree [t] that hangs at [s]. *)
Definition cb_placed (s : cb_slot) (t t' : cbt) (s' : cb_slot) : Prop :=
  exists old ptr2, slot_read h root s' = Ok old /\
    let h2 := slot_upd (linked old) s' (1 + node) in let root2 := root_upd root s' (1 + node) in
    slot_read h2 root2 s = Ok ptr2 /\ root2 = root_upd root s ptr2 /\ cb_repr h2 ptr2 t' /\
    (forall a, a <> node -> a ∉ inners t -> h2 !! a = slot_upd h s ptr2 !! a).

Lemma joined_repr h2 old t : h2 !! node = Some (cn_set_child n0 (Z.b2z (negb (kbit k d))) old) -> cb_repr h2 old t -> cb_repr h2 (1 + node) (joined node d (kbit k d) t).
Proof using Hn0 Heven Hsplit Hown.
  intros Hn Ht. pose proof (set_child_bits n0 (negb (kbit k d)) old) as [E0 E1]. pose proof (set_child_splits n0 (Z.b2z (negb (kbit k d))) old d Hsplit) as Hs. unfold joined. destruct (kbit k d); cbn [negb Z.b2z] in *; (split_and!; [done|done|done|]); eexists; (split_and!; [exact Hn|exact Hs| |]); rewrite ?E0, ?E1; [done| | |done].
  - change (cn_child n0 1) with (cn_child1 n0) in Hown. rewrite Hown. split_and!; [done|done|done|by eexists].
  - change (cn_child n0 0) with (cn_child0 n0) in Hown. rewrite Hown. split_and!; [done|done|done|by eexists].
Qed.

(** The walk ends here. *)
Lemma placed_here s ptr t : slot_read h root s = Ok ptr -> cb_repr h ptr t -> node ∉ inners t -> (forall a, a ∈ slot_node s -> a <> node /\ a ∉ inners t) -> cb_placed s t (joined node d (kbit k d) t) s.
Proof using Hnode Hn0 Heven Hsplit Hown.
  intros Hs Hr Hnt Hsn. exists ptr, (1 + node). split; [done|]. assert (slot_read (linked ptr) root s = Ok ptr) as Hs1.
  { rewrite <- Hs. apply slot_read_frame. intros a Ha. unfold linked. rewrite lookup_insert_ne; [done|]. apply not_eq_sym. by apply Hsn. }
  assert (node ∉ slot_node s) as Hns by (intros Ha; by destruct (Hsn _ Ha)). cbv zeta. split_and!; [by eapply slot_read_upd|done| |].
  - apply joined_repr with (old := ptr); [rewrite slot_upd_other by done; unfold linked; by rewrite lookup_insert_eq|].
    apply (repr_frame h); [done| |intros a; by rewrite (slot_upd_keys (linked ptr) s (1 + node) a), (linked_keys ptr a)].
    intros a Ha. rewrite slot_upd_other by (intros Hin; by destruct (Hsn _ Hin)). unfold linked. rewrite lookup_insert_ne; [done|]. intros ->. done.
  - intros a Ha Hat. destruct (decide (a ∈ slot_node s)) as [Hin|Hin].
    + destruct s as [|q dd]; [by apply elem_of_nil in Hin|]. cbn in Hin. apply list_elem_of_singleton in Hin as ->. cbn. rewrite !lookup_alter_eq. unfold linked. by rewrite lookup_insert_ne.
    + rewrite !slot_upd_other by done. unfold linked. by rewrite lookup_insert_ne.
Qed.

(** The walk goes on in a child. *)
Lemma placed_up s ptr q c l r n b t1 s' : slot_read h root s = Ok ptr -> cb_repr h ptr (Br q c l r) -> h !! q = Some n -> NoDup (inners (Br q c l r)) -> node ∉ inners (Br q c l r) -> (forall a, a ∈ slot_node s -> a <> node /\ a ∉ inners (Br q c l r)) ->
  cb_placed (SlotChild q (Z.b2z b)) (if b then r else l) t1 s' -> cb_placed s (Br q c l r) (if b then Br q c l t1 else Br q c t1 r) s'.
Proof using Hnode.
  intros Hs Hr Hn Hnd Hnt Hsn (old & ptr1 & Ho & Hrd & Hroot & Hrep & Hfr). cbv zeta in Hfr, Hrd, Hroot, Hrep. cbn [root_upd] in Hroot. exists old, ptr. split; [done|]. cbv zeta. set (h2 := slot_upd (linked old) s' (1 + node)) in *. rewrite Hroot in *.
  destruct Hr as (-> & Hq0 & Hqe & n' & Hn' & Hsp & Hl & Hrr). assert (n' = n) as -> by congruence. cbn [inners] in *. apply NoDup_cons in Hnd as [Hq Hnd]. apply NoDup_app in Hnd as (_ & Hdis & _). rewrite elem_of_app in Hq. rewrite elem_of_cons, elem_of_app in Hnt.
  assert (same_keys h h2) as Hkeys by (intros a; unfold h2; by rewrite (slot_upd_keys (linked old) s' (1 + node) a), (linked_keys old a)).
  assert (forall a, a <> node -> a ∉ inners (if b then r else l) -> a <> q -> h2 !! a = h !! a) as Hsame by (intros a H1 H2 H3; rewrite Hfr by done; cbn; by rewrite lookup_alter_ne).
  assert (h2 !! q = Some (cn_set_child n (Z.b2z b) ptr1)) as Hq2. { rewrite Hfr; [cbn; by rewrite lookup_alter_eq, Hn|naive_solver|destruct b; tauto]. }
  pose proof (set_child_bits n b ptr1) as [E0 E1].
  split_and!.
  - rewrite <- Hs. destruct s as [|q' dd]; [done|]. cbn. unfold cb_load. destruct (Hsn q' ltac:(by constructor)) as [Hq'1 Hq'2]. rewrite elem_of_cons, elem_of_app in Hq'2. rewrite Hsame; [done|done|destruct b; tauto|tauto].
  - destruct s; [|done]. cbn in Hs |- *. congruence.
  - destruct b; cbn [cb_repr]; (split_and!; [done|done|done|]); eexists; (split_and!; [exact Hq2|by apply set_child_splits| |]); rewrite ?E0, ?E1; try done.
    + apply (repr_frame h); [done| |done]. intros a Ha. apply Hsame; [naive_solver|intros Hb; by apply (Hdis a)|naive_solver].
    + apply (repr_frame h); [done| |done]. intros a Ha. apply Hsame; [naive_solver|intros Hb; by apply (Hdis a)|naive_solver].
  - intros a Ha Hat. rewrite elem_of_cons, elem_of_app in Hat. rewrite (slot_upd_same h root s (1 + q) a Hs). apply Hsame; [done|destruct b; tauto|tauto].
Qed.

Lemma cb_place_ok t : forall s ptr fuel, slot_read h root s = Ok ptr -> cb_repr h ptr t -> NoDup (inners t) -> node ∉ inners t -> (forall a, a ∈ slot_node s -> a <> node /\ a ∉ inners t) -> (height t < fuel)%nat ->
  exists s', loop fuel step s = Ok s' /\ cb_placed s t (inserted t k d node) s'.
Proof using All.
  induction t as [p|q c l IHl r IHr]; intros s ptr fuel Hs Hr Hnd Hnt Hsn Hf; (destruct fuel as [|fuel]; [lia|]); rewrite loop_S; unfold cb_place_step at 1; rewrite Hs; cbn [mbind res_bind].
  { rewrite (repr_leaf _ _ _ Hr). exists s. split; [done|]. by apply (placed_here s ptr). }
  destruct (repr_inner _ _ _ _ _ _ Hr) as [-> ->]. pose proof Hr as (Eptr & Hq0 & Hqe & n & Hn & Hsp & Hl & Hrr). cbn [negb]. unfold cb_load. rewrite Hn. cbn [mbind res_bind].
  pose proof (place_test n c d Hsp) as Ht. destruct (Nat.ltb_spec d c) as [Hd|Hd]; cbn [inserted].
  { rewrite (proj2 (Nat.ltb_lt d c) Hd). exists s. split; [|by apply (placed_here s ptr)]. destruct (Z.of_nat (d / 8) <? cn_byte n); [done|]. by rewrite Ht. }
  rewrite (proj2 (Nat.ltb_ge d c) Hd). destruct (Z.of_nat (d / 8) <? cn_byte n); [done|]. rewrite Ht, (direction_ok n k c Hsp Hk). cbn [mbind res_bind]. clear Ht.
  pose proof Hnd as Hnd'. cbn [inners] in Hnd. apply NoDup_cons in Hnd as [Hq Hnd]. apply NoDup_app in Hnd as (Hndl & Hdis & Hndr). rewrite elem_of_app in Hq. pose proof Hnt as Hnt'. cbn [inners] in Hnt. rewrite elem_of_cons, elem_of_app in Hnt. cbn [height] in Hf.
  assert (exists s', loop fuel step (SlotChild q (Z.b2z (kbit k c))) = Ok s' /\ cb_placed (SlotChild q (Z.b2z (kbit k c))) (if kbit k c then r else l) (inserted (if kbit k c then r else l) k d node) s') as (s' & -> & Hp).
  { destruct (kbit k c); [apply (IHr _ (cn_child1 n))|apply (IHl _ (cn_child0 n))]; try done; try lia; try tauto; (cbn; unfold cb_load; rewrite Hn; done) || (intros a ->%list_elem_of_singleton; split; [naive_solver|tauto]). }
  exists s'. split; [done|]. pose proof (placed_up s ptr q c l r n (kbit k c) _ s' Hs Hr Hn Hnd' Hnt' Hsn Hp) as Hx. by destruct (kbit k c).
Qed.
End Place.

(** ** The first difference *)

Lemma first_difference_ok a b n : (n <= length a)%nat -> (n <= length b)%nat ->
  (take n a = take n b /\ first_difference a b (Z.of_nat n) = Ok None) \/
  (exists i x y, (i < n)%nat /\ a !! i = Some x /\ b !! i = Some y /\ x <> y /\ (forall j, (j < i)%nat -> a !! j = b !! j) /\ first_difference a b (Z.of_nat n) = Ok (Some (Z.of_nat i))).
Proof.
  intros Ha Hb. unfold first_difference. rewrite Nat2Z.id. assert (forall fuel i, (i <= n < fuel + i)%nat -> (forall j, (j < i)%nat -> a !! j = b !! j) ->
    let r := loop fuel (differ_step a b (Z.of_nat n)) (Z.of_nat i) in (take n a = take n b /\ r = Ok None) \/
    (exists i x y, (i < n)%nat /\ a !! i = Some x /\ b !! i = Some y /\ x <> y /\ (forall j, (j < i)%nat -> a !! j = b !! j) /\ r = Ok (Some (Z.of_nat i)))) as Hx; [|apply (Hx _ 0%nat); [lia|intros j Hj; lia]].
  induction fuel as [|fuel IH]; intros i Hi Heq; [lia|]. cbv zeta. rewrite loop_S. unfold differ_step at 1 3. destruct (Z.ltb_spec (Z.of_nat i) (Z.of_nat n)) as [Hlt|Hge].
  - destruct (lookup_lt_is_Some_2 a i) as (x & Hx); [lia|]. destruct (lookup_lt_is_Some_2 b i) as (y & Hy); [lia|]. rewrite (rd_Some a (Z.of_nat i) x), (rd_Some b (Z.of_nat i) y) by (rewrite ?Nat2Z.id; done || lia). cbn [mbind res_bind]. destruct (Z.eqb_spec x y) as [->|Hn]; cbn [negb].
    + replace (Z.of_nat i + 1) with (Z.of_nat (S i)) by lia. apply IH; [lia|]. intros j Hj. destruct (decide (j = i)) as [->|]; [congruence|apply Heq; lia].
    + right. exists i, x, y. split_and!; [lia|done..].
  - left. split; [|done]. apply list_eq. intros j. rewrite !lookup_take. case_decide; [apply Heq; lia|done].
Qed.

Lemma kbit_before a b i c : (forall j, (j < i)%nat -> a !! j = b !! j) -> (c < 8 * i)%nat -> kbit a c = kbit b c.
Proof. intros Heq Hc. unfold kbit. rewrite Heq; [done|]. apply Nat.Div0.div_lt_upper_bound. lia. Qed.

(** The bit at which two keys differ first. *)
Lemma crit_position a b i x y : is_byte x -> is_byte y -> a !! i = Some x -> b !! i = Some y -> x <> y -> (forall j, (j < i)%nat -> a !! j = b !! j) ->
  exists d, (d / 8)%nat = i /\ 7 - Z.of_nat (d mod 8) = Z.log2 (Z.lxor x y) /\ agree d a b /\ kbit a d <> kbit b d.
Proof.
  intros Hx Hy Ea Eb Hn Heq. unfold is_byte in Hx, Hy. assert (0 < Z.lxor x y) as Hpos. { assert (Z.lxor x y <> 0) by (intros E%Z.lxor_eq; done). assert (0 <= Z.lxor x y) by (apply Z.lxor_nonneg; lia). lia. }
  set (m := Z.log2 (Z.lxor x y)). assert (0 <= m <= 7) as Hm. { split; [apply Z.log2_nonneg|]. pose proof (Z.log2_lxor x y ltac:(lia) ltac:(lia)) as Hle. assert (Z.log2 x < 8 \/ x = 0) by (destruct (Z.eq_dec x 0); [by right|left; apply Z.log2_lt_pow2; lia]). assert (Z.log2 y < 8 \/ y = 0) by (destruct (Z.eq_dec y 0); [by right|left; apply Z.log2_lt_pow2; lia]).
    fold m in Hle. destruct H as [|Hx0], H0 as [|Hy0]; subst; cbn [Z.log2] in Hle; lia. }
  exists (8 * i + Z.to_nat (7 - m))%nat. assert ((8 * i + Z.to_nat (7 - m)) / 8 = i /\ (8 * i + Z.to_nat (7 - m)) mod 8 = Z.to_nat (7 - m))%nat as [Ed Em].
  { rewrite (Nat.mul_comm 8 i). split; [rewrite Nat.div_add_l, Nat.div_small by lia; lia|]. rewrite Nat.add_comm, Nat.Div0.mod_add. apply Nat.mod_small. lia. }
  assert (forall j, m < j -> Z.testbit x j = Z.testbit y j) as Hhigh. { intros j Hj. pose proof (Z.bits_above_log2 (Z.lxor x y) j ltac:(lia) Hj) as E. rewrite Z.lxor_spec in E. by destruct (Z.testbit x j), (Z.testbit y j). }
  assert (Z.testbit x m <> Z.testbit y m) as Hdiff. { pose proof (Z.bit_log2 _ Hpos) as E. fold m in E. rewrite Z.lxor_spec in E. by destruct (Z.testbit x m), (Z.testbit y m). }
  split_and!; [done|rewrite Em; lia| |].
  - intros c Hc. destruct (decide (c < 8 * i)%nat) as [|Hge]; [by apply (kbit_before a b i)|]. unfold kbit. assert (c / 8 = i /\ c mod 8 = c - 8 * i)%nat as [-> ->].
    { assert (c = i * 8 + (c - 8 * i))%nat as E by lia. split; [rewrite E, Nat.div_add_l, Nat.div_small by lia; lia|]. rewrite E at 1. rewrite Nat.add_comm, Nat.Div0.mod_add. apply Nat.mod_small. lia. }
    rewrite Ea, Eb. cbn [default]. apply Hhigh. lia.
  - unfold kbit. rewrite Ed, Em, Ea, Eb. cbn [default]. replace (7 - Z.of_nat (Z.to_nat (7 - m))) with m by lia. done.
Qed.

Lemma lxor_byte x y : is_byte x -> is_byte y -> is_byte (Z.lxor x y).
Proof.
  unfold is_byte. intros Hx Hy. assert (0 <= Z.lxor x y) by (apply Z.lxor_nonneg; lia). split; [done|]. destruct (Z.eq_dec (Z.lxor x y) 0) as [->|]; [lia|]. apply (Z.log2_lt_pow2 _ 8); [lia|]. pose proof (Z.log2_lxor x y ltac:(lia) ltac:(lia)) as Hle.
  assert (Z.log2 x < 8) by (destruct (Z.eq_dec x 0) as [->|]; [done|apply Z.log2_lt_pow2; lia]). assert (Z.log2 y < 8) by (destruct (Z.eq_dec y 0) as [->|]; [done|apply Z.log2_lt_pow2; lia]). lia.
Qed.

Lemma inners_size (h : cb_heap) l : NoDup l -> (forall a, a ∈ l -> is_Some (h !! a)) -> (length l <= size h)%nat.
Proof.
  intros Hnd Hl. rewrite <- (size_dom h), <- (size_list_to_set (C := gset Z) l Hnd). apply subseteq_size. intros a Ha%elem_of_list_to_set. by apply elem_of_dom, Hl.
Qed.

(** ** The invariant *)

Record cb_ok (K : nat) (h : cb_heap) (root : Z) (t : cbt) : Prop := {
  co_repr : cb_repr h root t;
  co_ordered : cb_ordered (node_key h) t;
  co_nodup : NoDup (inners t);
  co_inners : forall a, a ∈ inners t -> a ∈ leaves t;
  co_keys : forall p, p ∈ leaves t -> length (node_key h p) = K /\ is_bytes (node_key h p);
}.

Lemma ordered_ext key key' t : (forall p, key' p = key p) -> cb_ordered key t -> cb_ordered key' t.
Proof.
  intros Hk. induction t as [p|q c l IHl r IHr]; cbn; [done|]. intros (Hl & Hr & Ha & Hbl & Hbr & Hol & Hor). split_and!; [| | |done|done|auto|auto].
  - eapply Forall_impl; [exact Hl|]. intros p. cbn. by rewrite Hk.
  - eapply Forall_impl; [exact Hr|]. intros p. cbn. by rewrite Hk.
  - intros p p' Hp Hp'. rewrite !Hk. by apply Ha.
Qed.

Lemma best_self key t p : cb_ordered key t -> p ∈ leaves t -> best t (key p) = p.
Proof.
  induction t as [p'|q c l IHl r IHr]; cbn; [by intros _ ->%list_elem_of_singleton|]. intros (Hl & Hr & _ & _ & _ & Hol & Hor). rewrite Forall_forall in Hl, Hr. rewrite elem_of_app. intros [Hp|Hp]; [rewrite (Hl _ Hp); by apply IHl|rewrite (Hr _ Hp); by apply IHr].
Qed.

Lemma cb_fuel K h root t : cb_ok K h root t -> (height t < S (size h))%nat.
Proof.
  intros Ho. pose proof (height_inners t). pose proof (inners_size h (inners t) (co_nodup _ _ _ _ Ho)) as Hs. assert (length (inners t) <= size h)%nat; [|lia].
  apply Hs. intros a Ha. by apply (repr_leaves _ _ _ (co_repr _ _ _ _ Ho)), (co_inners _ _ _ _ Ho).
Qed.

(** The first node of a tree. *)
Lemma cb_ok_single K h node n : h !! node = Some n -> node <> 0 -> Z.even node = true -> length (cn_k n) = K -> is_bytes (cn_k n) -> cb_ok K h node (Lf node).
Proof.
  intros Hn H0 He Hl Hb. split; cbn; [split_and!; [done|done|done|by eexists]|done|constructor|by intros a ?%elem_of_nil|]. intros p ->%list_elem_of_singleton. unfold node_key. by rewrite Hn.
Qed.

Lemma repr_pre h node n n' ptr t : h !! node = Some n -> cn_k n' = cn_k n -> node ∉ inners t -> cb_repr h ptr t -> cb_repr (<[node := n']> h) ptr t.
Proof.
  intros Hn Hk Ht Hr. apply (repr_frame h); [done| |].
  - intros a Ha. rewrite lookup_insert_ne; [done|]. intros ->. done.
  - intros a. destruct (decide (node = a)) as [<-|]; [rewrite lookup_insert_eq, Hn; cbn; by rewrite Hk|by rewrite lookup_insert_ne].
Qed.

Section Insert.
Context (K : nat) (HK : Z.of_nat K < 2 ^ 32) (h : cb_heap) (root node : Z) (t : cbt) (n : cb_node).
Context (Hok : cb_ok K h root t) (Hnode : h !! node = Some n) (H0 : node <> 0) (Heven : Z.even node = true) (Hlen : length (cn_k n) = K) (Hbytes : is_bytes (cn_k n)) (Hfresh : node ∉ leaves t).

(** The key is new: the first difference from the leaf that it leads to is where the node goes. *)
Lemma cb_insert_new pn i x y d : h !! best t (cn_k n) = Some pn -> (i < K)%nat -> cn_k pn !! i = Some x -> cn_k n !! i = Some y -> is_byte x -> is_byte y -> x <> y ->
  (d / 8)%nat = i -> 7 - Z.of_nat (d mod 8) = Z.log2 (Z.lxor x y) -> agree d (cn_k n) (cn_k pn) -> kbit (cn_k n) d <> kbit (cn_k pn) d ->
  first_difference (cn_k pn) (cn_k n) (Z.of_nat K) = Ok (Some (Z.of_nat i)) ->
  exists h' root', cb_insert h root node (Z.of_nat K) = Ok (h', root', 0) /\ cb_ok K h' root' (inserted t (cn_k n) d node) /\ same_keys h h'.
Proof using All.
  intros Hpn HiK Ex Ey Hx Hy Hxy Ed Em Hag Hkb Efd. assert (len (cn_k n) = Z.of_nat K) as Hlk by (unfold len; by rewrite Hlen).
  assert (node ∉ inners t) as Hnt by (intros ?%(co_inners _ _ _ _ Hok); done). pose proof (co_repr _ _ _ _ Hok) as Hrep. pose proof (cb_fuel _ _ _ _ Hok) as Hfuel.
  unfold cb_insert. rewrite (proj1 (inner_even node Heven)), (repr_nonnull _ _ _ Hrep). cbn [negb assert mbind res_bind]. rewrite (cb_load_ok _ _ _ Hnode). cbn [mbind res_bind].
  unfold cb_internal_best_match. rewrite <- Hlk, (best_match_ok h root t (cn_k n) _ Hrep Hbytes Hfuel). cbn [mbind res_bind]. rewrite (cb_load_ok _ _ _ Hpn). cbn [mbind res_bind]. rewrite Hlk, Efd. cbn [mbind res_bind].
  rewrite (rd_Some (cn_k pn) (Z.of_nat i) x), (rd_Some (cn_k n) (Z.of_nat i) y) by (rewrite ?Nat2Z.id; done || lia). cbn [mbind res_bind].
  assert (Z.lxor x y <> 0) as Hne by (intros E%Z.lxor_eq; done). rewrite (crit_bits_byte (Z.lxor x y) (lxor_byte x y Hx Hy) Hne), <- Em. destruct (bit_index d) as (m & Hm & Hm'). 
  assert ((1 + ((255 - 2 ^ (7 - Z.of_nat (d mod 8))) |. x)) >>. 8 = Z.b2z (negb (kbit (cn_k n) d))) as Edir.
  { rewrite Hm, (direction_byte x m Hx Hm'). f_equal. assert (kbit (cn_k pn) d = Z.testbit x m) as <- by (unfold kbit; rewrite Ed, Ex, Hm; done). destruct (kbit (cn_k n) d), (kbit (cn_k pn) d); done. }
  rewrite Edir. assert (1 - Z.b2z (negb (kbit (cn_k n) d)) = Z.b2z (kbit (cn_k n) d)) as -> by (by destruct (kbit (cn_k n) d)).
  assert (u32 (Z.of_nat i) = Z.of_nat i) as -> by (apply u32_small; lia). assert (u8 (255 - 2 ^ (7 - Z.of_nat (d mod 8))) = 255 - 2 ^ (7 - Z.of_nat (d mod 8))) as -> by (rewrite Hm; destruct Hm' as [->|[->|[->|[->|[->|[->|[->| ->]]]]]]]; done).
  set (n0 := cn_set_child _ (Z.b2z (kbit (cn_k n) d)) node). set (h0 := <[node := n0]> h).
  assert (cn_k n0 = cn_k n) as Hk0 by (unfold n0; by rewrite set_child_key). assert (splits_at n0 d) as Hs0 by (unfold n0; apply set_child_splits; split; cbn [cn_byte cn_otherbits]; [by rewrite Ed|done]). assert (cn_child n0 (Z.b2z (kbit (cn_k n) d)) = node) as Hown by apply set_child_get.
  assert (same_keys h h0) as Hsk by (intros a; unfold h0; destruct (decide (node = a)) as [<-|]; [rewrite lookup_insert_eq, Hnode; cbn; by rewrite Hk0|by rewrite lookup_insert_ne]).
  assert (size h0 = size h) as Hsz by (unfold h0; apply map_size_insert_Some; by eexists).
  destruct (cb_place_ok h0 root node n0 (cn_k n) d (lookup_insert_eq _ _ _) H0 Heven Hbytes Hs0 Hown t SlotRoot root (S (size h0)) eq_refl (repr_pre h node n n0 root t Hnode Hk0 Hnt Hrep) (co_nodup _ _ _ _ Hok) Hnt ltac:(by intros a ?%elem_of_nil) ltac:(lia)) as (s' & Eloop & old & ptr2 & Eold & Hrd & Hroot & Hrp & Hfr).
  rewrite Hk0. rewrite Hlk, Ed in Eloop. rewrite Eloop. cbn [mbind res_bind]. rewrite Eold. cbn [mbind res_bind]. rewrite (cb_load_ok h0 node n0) by apply lookup_insert_eq. cbn [mbind res_bind].
  fold (linked h0 node n0 (cn_k n) d old). assert (exists q, slot_read (linked h0 node n0 (cn_k n) d old) root s' = Ok q) as (q & Eq).
  { destruct s' as [|a dd]; [by eexists|]. cbn in Eold |- *. destruct (h0 !! a) as [na|] eqn:Ea; [|unfold cb_load in Eold; by rewrite Ea in Eold]. assert (is_Some (linked h0 node n0 (cn_k n) d old !! a)) as [na' Ea'] by (apply (same_keys_some h0); [apply linked_keys, lookup_insert_eq|by eexists]). rewrite (cb_load_ok _ _ _ Ea'). by eexists. }
  rewrite (slot_write_ok _ _ _ _ _ Eq). cbn [mbind res_bind]. eexists _, _. split; [done|]. cbv zeta in Hrd, Hroot, Hrp, Hfr. set (h2 := slot_upd _ s' (1 + node)) in *. cbn in Hrd. injection Hrd as Hrd.
  assert (same_keys h h2) as Hsk2 by (intros a; unfold h2; rewrite (slot_upd_keys _ s' (1 + node) a), (linked_keys h0 node n0 (cn_k n) d (lookup_insert_eq _ _ _) old a); apply Hsk).
  split; [|done]. assert (node_key h2 node = cn_k n) as Hkn by (rewrite (same_keys_key h h2 node Hsk2); unfold node_key; by rewrite Hnode). split.
  - by rewrite Hrd.
  - rewrite <- Hkn. apply inserted_ordered; [eapply ordered_ext; [intros p; by apply (same_keys_key h)|]; apply (co_ordered _ _ _ _ Hok)| |]; rewrite Hkn, (same_keys_key h h2 _ Hsk2); unfold node_key; by rewrite Hpn.
  - rewrite inserted_inners. apply NoDup_cons. split; [done|apply (co_nodup _ _ _ _ Hok)].
  - intros a. rewrite inserted_inners, inserted_leaves, elem_of_cons. intros [->|Ha]; [by left|right; by apply (co_inners _ _ _ _ Hok)].
  - intros p. rewrite inserted_leaves, (same_keys_key h h2 _ Hsk2). intros [->|Hp]; [unfold node_key; by rewrite Hnode|by apply (co_keys _ _ _ _ Hok)].
Qed.

Lemma cb_insert_ok :
  (exists p, p ∈ leaves t /\ node_key h p = cn_k n /\ cb_insert h root node (Z.of_nat K) = Ok (h, root, p)) \/
  ((forall p, p ∈ leaves t -> node_key h p <> cn_k n) /\ exists h' root' t', cb_insert h root node (Z.of_nat K) = Ok (h', root', 0) /\ cb_ok K h' root' t' /\ same_keys h h' /\ forall p, p ∈ leaves t' <-> p = node \/ p ∈ leaves t).
Proof using All.
  pose proof (best_leaf t (cn_k n)) as Hbl. destruct (repr_leaves _ _ _ (co_repr _ _ _ _ Hok) _ Hbl) as (_ & _ & pn & Hpn). pose proof (co_keys _ _ _ _ Hok _ Hbl) as [Hpl Hpb]. unfold node_key in Hpl, Hpb. rewrite Hpn in Hpl, Hpb.
  destruct (first_difference_ok (cn_k pn) (cn_k n) K ltac:(lia) ltac:(lia)) as [[E Efd]|(i & x & y & Hi & Ex & Ey & Hxy & Heq & Efd)].
  - rewrite !take_ge in E by lia. left. exists (best t (cn_k n)). split_and!; [done|unfold node_key; by rewrite Hpn|]. assert (len (cn_k n) = Z.of_nat K) as Hlk by (unfold len; by rewrite Hlen).
    unfold cb_insert. rewrite (proj1 (inner_even node Heven)), (repr_nonnull _ _ _ (co_repr _ _ _ _ Hok)). cbn [negb assert mbind res_bind]. rewrite (cb_load_ok _ _ _ Hnode). cbn [mbind res_bind].
    unfold cb_internal_best_match. rewrite <- Hlk at 1. rewrite (best_match_ok h root t (cn_k n) _ (co_repr _ _ _ _ Hok) Hbytes (cb_fuel _ _ _ _ Hok)). cbn [mbind res_bind]. rewrite (cb_load_ok _ _ _ Hpn). cbn [mbind res_bind]. by rewrite Efd.
  - right. pose proof (is_byte_lookup _ _ _ Hpb Ex) as Hx. pose proof (is_byte_lookup _ _ _ Hbytes Ey) as Hy. destruct (crit_position (cn_k pn) (cn_k n) i x y Hx Hy Ex Ey Hxy Heq) as (d & Ed & Em & Hag & Hkb). split.
    + intros p Hp Ekp. apply Hxy. pose proof (best_self (node_key h) t p (co_ordered _ _ _ _ Hok) Hp) as Eb. rewrite Ekp in Eb. rewrite Eb in Hpn. unfold node_key in Ekp. rewrite Hpn in Ekp. congruence.
    + destruct (cb_insert_new pn i x y d Hpn Hi Ex Ey Hx Hy Hxy Ed Em (agree_sym _ _ _ Hag) (not_eq_sym Hkb) Efd) as (h' & root' & E & Hok' & Hsk). exists h', root', (inserted t (cn_k n) d node). split_and!; [done|done|done|]. intros p. apply inserted_leaves.
Qed.
End Insert.

(** ** Prefixes *)

Lemma byte_high z j : is_byte z -> 8 <= j -> Z.testbit z j = false.
Proof. unfold is_byte. intros Hz Hj. destruct (Z.eq_dec z 0) as [->|]; [apply Z.testbit_0_l|]. apply Z.bits_above_log2; [lia|]. apply (Z.lt_le_trans _ 8); [apply Z.log2_lt_pow2; lia|lia]. Qed.

(** A key and a prefix agree on the bits of the prefix when the prefix is one. *)
Lemma agree_take a b : is_bytes a -> is_bytes b -> (length b <= length a)%nat -> agree (8 * length b) a b <-> b `prefix_of` a.
Proof.
  intros Ha Hb Hl. split.
  - intros Hag. exists (drop (length b) a). rewrite <- (take_drop (length b) a) at 1. f_equal. apply list_eq. intros i. rewrite lookup_take. case_decide as Hi; [|symmetry; apply lookup_ge_None_2; lia].
    destruct (lookup_lt_is_Some_2 a i) as (x & Hx); [lia|]. destruct (lookup_lt_is_Some_2 b i) as (y & Hy); [lia|]. rewrite Hx, Hy. f_equal. pose proof (is_byte_lookup _ _ _ Ha Hx) as Hbx. pose proof (is_byte_lookup _ _ _ Hb Hy) as Hby. unfold is_byte in Hbx, Hby.
    apply Z.bits_inj'. intros j Hj. destruct (decide (j < 8)) as [Hj8|Hj8].
    + assert ((8 * i + Z.to_nat (7 - j)) / 8 = i /\ (8 * i + Z.to_nat (7 - j)) mod 8 = Z.to_nat (7 - j))%nat as [Ed Em] by (rewrite (Nat.mul_comm 8 i); split; [rewrite Nat.div_add_l, Nat.div_small by lia; lia|]; rewrite Nat.add_comm, Nat.Div0.mod_add; apply Nat.mod_small; lia).
      pose proof (Hag (8 * i + Z.to_nat (7 - j))%nat ltac:(lia)) as E. unfold kbit in E. rewrite Ed, Em, Hx, Hy in E. cbn [default] in E. by replace (7 - Z.of_nat (Z.to_nat (7 - j))) with j in E by lia.
    + by rewrite !byte_high by (done || lia).
  - intros (r & ->) c Hc. apply (kbit_before _ _ (length b)); [|done]. intros j Hj. by rewrite lookup_app_l.
Qed.

(** The subtree of the keys that have the first [n] bits of [k]. *)
Fixpoint top (n : nat) (t : cbt) (k : list Z) : cbt :=
  match t with Lf _ => t | Br _ c l r => if (c <? n)%nat then (if kbit k c then top n r k else top n l k) else t end.

Lemma top_spec key n t k : cb_ordered key t ->
  best t k ∈ leaves (top n t k) /\ cb_ordered key (top n t k) /\ (forall p, p ∈ leaves (top n t k) -> p ∈ leaves t) /\
  (forall p p', p ∈ leaves (top n t k) -> p' ∈ leaves (top n t k) -> agree n (key p) (key p')) /\ (forall p, p ∈ leaves t -> agree n (key p) k -> p ∈ leaves (top n t k)).
Proof.
  induction t as [p0|q c l IHl r IHr]; intros Ho.
  { cbn. split_and!; [by apply list_elem_of_singleton|done|done| |done]. by intros p p' ->%list_elem_of_singleton ->%list_elem_of_singleton. }
  cbn [top]. pose proof (best_leaf (Br q c l r) k) as Hbl. destruct (Nat.ltb_spec c n) as [Hc|Hc].
  - destruct Ho as (Hl & Hr & _ & _ & _ & Hol & Hor). rewrite Forall_forall in Hl, Hr. cbn [best leaves] in *. setoid_rewrite elem_of_app. destruct (kbit k c) eqn:E.
    + destruct (IHr Hor) as (H1 & H2 & H3 & H4 & H5). split_and!; [done|done|auto|done|]. intros p [Hp|Hp] Ha; [|by apply H5]. pose proof (Ha c Hc). rewrite (Hl p Hp) in *. congruence.
    + destruct (IHl Hol) as (H1 & H2 & H3 & H4 & H5). split_and!; [done|done|auto|done|]. intros p [Hp|Hp] Ha; [by apply H5|]. pose proof (Ha c Hc). rewrite (Hr p Hp) in *. congruence.
  - split_and!; [done|done|done| |done]. intros p p' Hp Hp'. destruct Ho as (_ & _ & Ha & _). apply (agree_le _ c); [lia|]. by apply Ha.
Qed.

Lemma top_height n t k : (height (top n t k) <= height t)%nat.
Proof. induction t as [|q c l IHl r IHr]; cbn [top height]; [done|]. destruct (c <? n)%nat; [destruct (kbit k c); lia|done]. Qed.

Lemma byte_below n c (k : list Z) : splits_at n c -> (cn_byte n <? len k) = (c <? 8 * length k)%nat.
Proof.
  intros [-> _]. pose proof (Nat.div_mod_eq c 8). pose proof (Nat.mod_upper_bound c 8 ltac:(lia)). destruct (Nat.ltb_spec c (8 * length k)); [apply Z.ltb_lt; llia|apply Z.ltb_ge; llia].
Qed.

Section Walk.
Context (h : cb_heap) (k : list Z) (Hk : is_bytes k).

(** Below the last node that the prefix reaches, [top] stays. *)
Lemma each_low key t : forall ptr tp fuel, cb_repr h ptr t -> cb_ordered key t -> (match t with Lf _ => True | Br _ c _ _ => (8 * length k <= c)%nat end) -> (height t < fuel)%nat -> loop fuel (cb_each_step h k (len k)) (ptr, tp) = Ok (best t k, tp).
Proof using Hk.
  induction t as [p|q c l IHl r IHr]; intros ptr tp fuel Hr Ho Hc Hf; (destruct fuel as [|fuel]; [lia|]); rewrite loop_S; unfold cb_each_step at 1.
  - rewrite (repr_leaf _ _ _ Hr). by destruct Hr as (-> & _).
  - destruct (repr_inner _ _ _ _ _ _ Hr) as [-> ->]. destruct Hr as (_ & _ & _ & n & Hn & Hs & Hl & Hr). rewrite (cb_load_ok _ _ _ Hn). cbn [mbind res_bind]. rewrite (direction_ok n k c Hs Hk). cbn [mbind res_bind best height] in *. rewrite child_bit, (byte_below n c k Hs), (proj2 (Nat.ltb_ge _ _) Hc).
    destruct Ho as (_ & _ & _ & Hbl & Hbr & Hol & Hor). destruct (kbit k c); [apply IHr|apply IHl]; try done; try lia; [destruct r|destruct l]; cbn in *; done || lia.
Qed.

Lemma each_walk key t : forall ptr fuel, cb_repr h ptr t -> cb_ordered key t -> (height t < fuel)%nat -> exists tp, loop fuel (cb_each_step h k (len k)) (ptr, ptr) = Ok (best t k, tp) /\ cb_repr h tp (top (8 * length k) t k).
Proof using Hk.
  induction t as [p|q c l IHl r IHr]; intros ptr fuel Hr Ho Hf; (destruct fuel as [|fuel]; [lia|]); rewrite loop_S; unfold cb_each_step at 1.
  - rewrite (repr_leaf _ _ _ Hr). exists ptr. split; [by destruct Hr as (-> & _)|done].
  - destruct (repr_inner _ _ _ _ _ _ Hr) as [-> ->]. pose proof Hr as (_ & _ & _ & n & Hn & Hs & Hl & Hrr). rewrite (cb_load_ok _ _ _ Hn). cbn [mbind res_bind]. rewrite (direction_ok n k c Hs Hk). cbn [mbind res_bind]. rewrite child_bit, (byte_below n c k Hs). cbn [top].
    destruct Ho as (_ & _ & _ & Hbl & Hbr & Hol & Hor). cbn [height] in Hf. destruct (Nat.ltb_spec c (8 * length k)) as [Hc|Hc].
    + cbn [best]. destruct (kbit k c); [apply IHr|apply IHl]; done || lia.
    + exists ptr. split; [|done]. cbn [best]. destruct (kbit k c); apply each_low with (key := key); try done; try lia; [destruct r|destruct l]; cbn in *; done || lia.
Qed.
End Walk.

(** The callback along a list of nodes, until it breaks the walk off. *)
Fixpoint cb_visit {A} (fn : cb_heap -> Z -> A -> res (A * bool)) (h : cb_heap) (l : list Z) (arg : A) : res (A * bool) :=
  match l with
  | [] => Ok (arg, false)
  | p :: l => '(arg, n) ← fn h p arg; if (n : bool) then Ok (arg, true) else cb_visit fn h l arg
  end.

Lemma cb_visit_app {A} (fn : cb_heap -> Z -> A -> res (A * bool)) h l l' arg : cb_visit fn h (l ++ l') arg = '(arg, n) ← cb_visit fn h l arg; if (n : bool) then Ok (arg, true) else cb_visit fn h l' arg.
Proof. revert arg. induction l as [|p l IH]; intros arg; cbn; [done|]. destruct (fn h p arg) as [[arg' []]|]; [done|apply IH|done]. Qed.

Lemma cb_descend_ok {A} (fn : cb_heap -> Z -> A -> res (A * bool)) h t : forall ptr fuel arg, cb_repr h ptr t -> (height t < fuel)%nat -> cb_descend fn fuel h ptr arg = cb_visit fn h (leaves t) arg.
Proof.
  induction t as [p|q c l IHl r IHr]; intros ptr fuel arg Hr Hf; (destruct fuel as [|fuel]; [lia|]); cbn [cb_descend leaves].
  - rewrite (repr_leaf _ _ _ Hr). destruct Hr as (-> & _). cbn. by destruct (fn h p arg) as [[arg' []]|].
  - destruct (repr_inner _ _ _ _ _ _ Hr) as [-> ->]. destruct Hr as (_ & _ & _ & n & Hn & _ & Hl & Hr). rewrite (cb_load_ok _ _ _ Hn). cbn [mbind res_bind height] in *. rewrite (IHl _ fuel arg Hl) by lia. cbn [mbind res_bind]. rewrite cb_visit_app.
    destruct (cb_visit fn h (leaves l) arg) as [[arg' []]|]; [done| |done]. apply IHr; [done|lia].
Qed.

(** ** The order of the keys *)

Lemma memcmp_at i : forall a b x y, (forall j, (j < i)%nat -> a !! j = b !! j) -> a !! i = Some x -> b !! i = Some y -> x < y -> memcmp a b < 0.
Proof.
  induction i as [|i IH]; intros [|u a] [|v b] x y Heq Ea Eb Hxy; try done; cbn in Ea, Eb; cbn [memcmp].
  - injection Ea as ->. injection Eb as ->. rewrite (proj2 (Z.eqb_neq x y)) by lia. by rewrite (proj2 (Z.ltb_lt x y)).
  - pose proof (Heq 0%nat ltac:(lia)) as E. cbn in E. injection E as ->. rewrite Z.eqb_refl. apply (IH a b x y); [|done|done|done]. intros j Hj. apply (Heq (S j)). lia.
Qed.

Lemma top_bit_lt x y m : 0 <= m -> 0 <= x -> 0 <= y -> (forall j, m < j -> Z.testbit x j = Z.testbit y j) -> Z.testbit x m = false -> Z.testbit y m = true -> x < y.
Proof.
  intros Hm Hx Hy Hhigh Ex Ey. assert (x / 2 ^ (m + 1) = y / 2 ^ (m + 1)) as Ediv. { rewrite <- !Z.shiftr_div_pow2 by lia. apply Z.bits_inj'. intros j Hj. rewrite !Z.shiftr_spec by lia. apply Hhigh. lia. }
  rewrite Z.testbit_eqb in Ex, Ey by lia. pose proof (Z.div_mod x (2 ^ m) ltac:(lia)). pose proof (Z.div_mod y (2 ^ m) ltac:(lia)). pose proof (Z.mod_pos_bound x (2 ^ m) ltac:(lia)). pose proof (Z.mod_pos_bound y (2 ^ m) ltac:(lia)).
  rewrite Z.pow_add_r, <- !Z.div_div in Ediv by lia. change (2 ^ 1) with 2 in Ediv. assert (x / 2 ^ m < y / 2 ^ m) by (pose proof (Z.div_mod (x / 2 ^ m) 2); pose proof (Z.div_mod (y / 2 ^ m) 2); apply Z.eqb_neq in Ex; apply Z.eqb_eq in Ey; pose proof (Z.mod_pos_bound (x / 2 ^ m) 2); lia). nia.
Qed.

Lemma memcmp_bits a b c : is_bytes a -> is_bytes b -> length a = length b -> agree c a b -> kbit a c = false -> kbit b c = true -> memcmp a b < 0.
Proof.
  intros Ha Hb Hl Hag Ea Eb. set (i := (c / 8)%nat). set (m := 7 - Z.of_nat (c mod 8)). pose proof (Nat.div_mod_eq c 8) as Ec. pose proof (Nat.mod_upper_bound c 8 ltac:(lia)) as Hc.
  assert (i < length b)%nat as Hi. { destruct (decide (i < length b)%nat) as [|Hge]; [done|]. unfold kbit in Eb. fold i in Eb. rewrite lookup_ge_None_2 in Eb by lia. cbn [default] in Eb. by rewrite Z.testbit_0_l in Eb. }
  destruct (lookup_lt_is_Some_2 a i) as (x & Hx); [lia|]. destruct (lookup_lt_is_Some_2 b i Hi) as (y & Hy). pose proof (is_byte_lookup _ _ _ Ha Hx) as Hbx. pose proof (is_byte_lookup _ _ _ Hb Hy) as Hby. unfold is_byte in Hbx, Hby.
  assert (take i b `prefix_of` a) as Hpre. { apply agree_take; [done|by apply Forall_take|rewrite length_take; lia|]. rewrite length_take_le by lia. intros j Hj. rewrite (Hag j) by lia. apply (kbit_before _ _ i); [|done]. intros j' Hj'. by rewrite lookup_take_lt. }
  apply (memcmp_at i a b x y); [|done|done|].
  - intros j Hj. destruct Hpre as (r & ->). rewrite lookup_app_l by (rewrite length_take_le; lia). by rewrite lookup_take_lt.
  - unfold kbit in Ea, Eb. fold i m in Ea, Eb. rewrite Hx in Ea. rewrite Hy in Eb. cbn [default] in Ea, Eb. apply (top_bit_lt x y m); [lia|lia|lia| |done|done]. intros j Hj.
    destruct (decide (j < 8)) as [Hj8|Hj8].
    + assert ((8 * i + Z.to_nat (7 - j)) / 8 = i /\ (8 * i + Z.to_nat (7 - j)) mod 8 = Z.to_nat (7 - j))%nat as [Ed Em] by (rewrite (Nat.mul_comm 8 i); split; [rewrite Nat.div_add_l, Nat.div_small by lia; lia|]; rewrite Nat.add_comm, Nat.Div0.mod_add; apply Nat.mod_small; lia).
      pose proof (Hag (8 * i + Z.to_nat (7 - j))%nat ltac:(lia)) as E. unfold kbit in E. rewrite Ed, Em, Hx, Hy in E. cbn [default] in E. by replace (7 - Z.of_nat (Z.to_nat (7 - j))) with j in E by lia.
    + rewrite !byte_high by (unfold is_byte; lia). done.
Qed.

Lemma leaves_sorted key t : cb_ordered key t -> (forall p p', p ∈ leaves t -> p' ∈ leaves t -> is_bytes (key p) /\ length (key p) = length (key p')) -> StronglySorted (fun p p' => memcmp (key p) (key p') < 0) (leaves t).
Proof.
  induction t as [p|q c l IHl r IHr]; cbn [leaves cb_ordered]; [intros _ _; by repeat constructor|]. intros (Hl & Hr & Ha & _ & _ & Hol & Hor) Hb. apply StronglySorted_app_2.
  - intros p p' Hp Hp'. rewrite Forall_forall in Hl, Hr. destruct (Hb p p') as [H1 H2]; [rewrite elem_of_app; tauto..|]. destruct (Hb p' p) as [H3 _]; [rewrite elem_of_app; tauto..|]. apply (memcmp_bits _ _ c); auto. apply Ha; rewrite elem_of_app; tauto.
  - apply IHl; [done|]. intros p p' Hp Hp'. apply Hb; rewrite elem_of_app; tauto.
  - apply IHr; [done|]. intros p p' Hp Hp'. apply Hb; rewrite elem_of_app; tauto.
Qed.

(** ** The tree is a map *)

(** The tree at [root] holds the nodes of [m], by their keys of [K] bytes. *)
Definition cb_rep (K : nat) (h : cb_heap) (root : Z) (m : gmap (list Z) Z) : Prop :=
  (root = 0 /\ m = ∅) \/ exists t, cb_ok K h root t /\ forall k p, m !! k = Some p <-> p ∈ leaves t /\ node_key h p = k.

Lemma cb_ok_alloc K h root t node n : cb_ok K h root t -> node ∉ leaves t -> cb_ok K (<[node := n]> h) root t.
Proof.
  intros Ho Hn. assert (forall p, p ∈ leaves t -> <[node := n]> h !! p = h !! p) as Hf by (intros p Hp; rewrite lookup_insert_ne; [done|]; intros ->; done). assert (forall p, p ∈ leaves t -> node_key (<[node := n]> h) p = node_key h p) as Hk by (intros p Hp; unfold node_key; by rewrite Hf).
  destruct Ho as [Hr Hor Hnd Hin Hks]. split; [| |done|done|intros p Hp; rewrite Hk by done; by apply Hks].
  - assert (forall ptr t', (forall p, p ∈ leaves t' \/ p ∈ inners t' -> p ∈ leaves t) -> cb_repr h ptr t' -> cb_repr (<[node := n]> h) ptr t') as Hx; [|apply Hx; [intros p [?|?]; auto|done]].
    intros ptr t'. revert ptr. induction t' as [p|q c l IHl r IHr]; intros ptr Hsub Hrep.
    + destruct Hrep as (-> & H1 & H2 & H3). split_and!; [done|done|done|]. rewrite Hf; [done|]. apply Hsub. left. by apply list_elem_of_singleton.
    + destruct Hrep as (-> & H1 & H2 & nn & H3 & H4 & H5 & H6). split_and!; [done|done|done|]. exists nn. cbn in Hsub. setoid_rewrite elem_of_cons in Hsub. setoid_rewrite elem_of_app in Hsub. rewrite Hf by (apply Hsub; tauto). split_and!; [done|done|apply IHl; [|done]|apply IHr; [|done]]; intros p Hp; apply Hsub; tauto.
  - clear Hr Hnd Hin Hks. revert Hor Hk. clear. induction t as [p|q c l IHl r IHr]; cbn [cb_ordered leaves]; [done|]. intros (Hl & Hr & Ha & Hbl & Hbr & Hol & Hor) Hk. setoid_rewrite elem_of_app in Hk. setoid_rewrite elem_of_app in Ha. setoid_rewrite elem_of_app. rewrite Forall_forall in Hl, Hr. split_and!; [| | |done|done|apply IHl; auto|apply IHr; auto].
    + apply Forall_forall. intros p Hp. rewrite Hk by tauto. by apply Hl.
    + apply Forall_forall. intros p Hp. rewrite Hk by tauto. by apply Hr.
    + intros p p' Hp Hp'. rewrite !Hk by tauto. by apply Ha.
Qed.

Lemma cb_rep_insert K h root m node n : Z.of_nat K < 2 ^ 32 -> cb_rep K h root m -> node <> 0 -> Z.even node = true -> length (cn_k n) = K -> is_bytes (cn_k n) -> (forall k, m !! k <> Some node) ->
  exists h' root', cb_insert (<[node := n]> h) root node (Z.of_nat K) = Ok (h', root', default 0 (m !! cn_k n)) /\ cb_rep K h' root' (match m !! cn_k n with Some _ => m | None => <[cn_k n := node]> m end).
Proof.
  intros HK Hrep H0 He Hl Hb Hfresh. destruct Hrep as [[-> ->]|(t & Hok & Hm)].
  - exists (<[node := n]> h), node. rewrite lookup_empty. unfold cb_insert. rewrite (proj1 (inner_even node He)). cbn. split; [done|]. right. exists (Lf node). split; [eapply cb_ok_single; try done; apply lookup_insert_eq|].
    intros k p. cbn [leaves]. rewrite list_elem_of_singleton. destruct (decide (k = cn_k n)) as [->|Hk]; [rewrite lookup_insert_eq|rewrite lookup_insert_ne by done].
    + split; [intros [= <-]; split; [done|]; unfold node_key; by rewrite lookup_insert_eq|by intros [-> _]].
    + rewrite lookup_empty. split; [done|]. intros [-> E]. unfold node_key in E. rewrite lookup_insert_eq in E. congruence.
  - assert (node ∉ leaves t) as Hnl by (intros Hin; apply (Hfresh (node_key h node)), Hm; done). pose proof (cb_ok_alloc K h root t node n Hok Hnl) as Hok0. assert (forall p, p ∈ leaves t -> node_key (<[node := n]> h) p = node_key h p) as Hk by (intros p Hp; unfold node_key; rewrite lookup_insert_ne; [done|]; intros ->; done).
    destruct (cb_insert_ok K HK (<[node := n]> h) root node t n Hok0 (lookup_insert_eq _ _ _) H0 He Hl Hb Hnl) as [(p & Hp & Ek & E)|(Hno & h' & root' & t' & E & Hok' & Hsk & Hlv)].
    + rewrite Hk in Ek by done. rewrite (proj2 (Hm (cn_k n) p) (conj Hp Ek)). exists (<[node := n]> h), root. split; [done|]. right. exists t. split; [done|]. intros k p'. rewrite Hm. split; intros [? <-]; (split; [done|]); by rewrite Hk.
    + assert (m !! cn_k n = None) as Hnone. { destruct (m !! cn_k n) as [p|] eqn:Em; [|done]. apply Hm in Em as [Hp Ekp]. destruct (Hno p Hp). by rewrite Hk. }
      rewrite Hnone. exists h', root'. split; [done|]. right. exists t'. split; [done|]. intros k p. rewrite Hlv, (same_keys_key _ _ p Hsk). destruct (decide (k = cn_k n)) as [->|Hkn]; [rewrite lookup_insert_eq|rewrite lookup_insert_ne by done].
      * split; [intros [= <-]; split; [by left|]; unfold node_key; by rewrite lookup_insert_eq|]. intros [[->|Hp] Ekp]; [done|]. by destruct (Hno p Hp).
      * rewrite Hm. split; [intros [Hp <-]; split; [by right|by rewrite Hk]|]. intros [[->|Hp] Ekp]; [unfold node_key in Ekp; rewrite lookup_insert_eq in Ekp; congruence|]. by rewrite Hk in Ekp.
Qed.

Lemma cb_rep_key K h root m k p : cb_rep K h root m -> m !! k = Some p -> node_key h p = k.
Proof. intros [[_ ->]|(t & _ & Hm)]; [by rewrite lookup_empty|]. by intros [_ ?]%Hm. Qed.

Lemma cb_rep_lookup K h root m pfx : cb_rep K h root m -> is_bytes pfx -> (length pfx <= K)%nat ->
  exists p, cb_lookup h root pfx (len pfx) = Ok p /\ (p = 0 -> forall k q, m !! k = Some q -> ~ pfx `prefix_of` k) /\ (p <> 0 -> exists k, m !! k = Some p /\ pfx `prefix_of` k).
Proof.
  intros Hrep Hb Hl. destruct Hrep as [[-> ->]|(t & Hok & Hm)]; unfold cb_lookup, cb_internal_best_match.
  - rewrite loop_S. unfold best_match_step at 1. cbn. exists 0. split_and!; [done|intros _ k q; by rewrite lookup_empty|done].
  - rewrite (best_match_ok h root t pfx _ (co_repr _ _ _ _ Hok) Hb (cb_fuel _ _ _ _ Hok)). cbn [mbind res_bind]. pose proof (best_leaf t pfx) as Hbl. destruct (repr_leaves _ _ _ (co_repr _ _ _ _ Hok) _ Hbl) as (Hp0 & _ & n & Hn).
    rewrite (proj2 (tr_true _) Hp0). cbn [negb]. rewrite (cb_load_ok _ _ _ Hn). cbn [mbind res_bind]. destruct (co_keys _ _ _ _ Hok _ Hbl) as [Hkl Hkb]. assert (node_key h (best t pfx) = cn_k n) as Ekn by (unfold node_key; by rewrite Hn). rewrite Ekn in Hkl, Hkb.
    rewrite (rd_slice_ok (cn_k n) 0 (len pfx)), (rd_slice_ok pfx 0 (len pfx)) by llia. cbn [mbind res_bind]. unfold slice. cbn [Z.to_nat]. rewrite !drop_0, (take_ge pfx) by llia. rewrite memcmp_tr by (rewrite length_take; llia).
    destruct (top_spec (node_key h) (8 * length pfx) t pfx (co_ordered _ _ _ _ Hok)) as (H1 & _ & _ & H4 & H5). case_bool_decide as E; cbn [negb].
    + exists (best t pfx). split_and!; [done|done|]. intros _. exists (cn_k n). split; [by apply Hm|]. exists (drop (Z.to_nat (len pfx)) (cn_k n)). rewrite <- E at 1. by rewrite take_drop.
    + exists 0. split_and!; [done| |done]. intros _ k q [Hq Ekq]%Hm Hpre. apply E. assert (pfx `prefix_of` cn_k n) as (r & ->); [|replace (Z.to_nat (len pfx)) with (length pfx) by llia; apply take_app_length].
      destruct (co_keys _ _ _ _ Hok _ Hq) as [Hql Hqb]. rewrite Ekq in Hql, Hqb. apply agree_take in Hpre; [|done|done|lia]. apply agree_take; [done|done|lia|]. rewrite <- Ekn. eapply agree_trans; [apply (H4 _ q); [done|apply H5; [done|by rewrite Ekq]]|by rewrite Ekq].
Qed.

Lemma cb_rep_each K h root m {A} (fn : cb_heap -> Z -> A -> res (A * bool)) pfx arg : cb_rep K h root m -> is_bytes pfx -> (length pfx <= K)%nat ->
  exists l, cb_each fn h root pfx (len pfx) arg = ('(arg, _) ← cb_visit fn h l arg; Ok arg) /\ StronglySorted (fun p p' => memcmp (node_key h p) (node_key h p') < 0) l /\
    (forall p, p ∈ l <-> pfx `prefix_of` node_key h p /\ m !! node_key h p = Some p).
Proof.
  intros Hrep Hb Hl. destruct Hrep as [[-> ->]|(t & Hok & Hm)]; unfold cb_each.
  - exists []. split_and!; [done|constructor|]. intros p. rewrite lookup_empty, elem_of_nil. by split; [|intros []].
  - rewrite (repr_nonnull _ _ _ (co_repr _ _ _ _ Hok)). cbn [negb]. destruct (each_walk h pfx Hb (node_key h) t root _ (co_repr _ _ _ _ Hok) (co_ordered _ _ _ _ Hok) (cb_fuel _ _ _ _ Hok)) as (tp & -> & Htp). cbn [mbind res_bind].
    pose proof (best_leaf t pfx) as Hbl. destruct (repr_leaves _ _ _ (co_repr _ _ _ _ Hok) _ Hbl) as (_ & _ & n & Hn). rewrite (cb_load_ok _ _ _ Hn). cbn [mbind res_bind]. destruct (co_keys _ _ _ _ Hok _ Hbl) as [Hkl Hkb]. assert (node_key h (best t pfx) = cn_k n) as Ekn by (unfold node_key; by rewrite Hn). rewrite Ekn in Hkl, Hkb.
    destruct (top_spec (node_key h) (8 * length pfx) t pfx (co_ordered _ _ _ _ Hok)) as (H1 & H2 & H3 & H4 & H5).
    assert (forall p, p ∈ leaves t -> agree (8 * length pfx) (node_key h p) pfx <-> pfx `prefix_of` node_key h p) as Hpre by (intros p Hp; destruct (co_keys _ _ _ _ Hok _ Hp); apply agree_take; [done|done|lia]).
    destruct (first_difference_ok (cn_k n) pfx (length pfx) ltac:(lia) ltac:(lia)) as [[E Efd]|(i & x & y & Hi & Ex & Ey & Hxy & _ & Efd)]; change (Z.of_nat (length pfx)) with (len pfx) in Efd; rewrite Efd; cbn [mbind res_bind].
    + assert (agree (8 * length pfx) (node_key h (best t pfx)) pfx) as Hag by (apply Hpre; [done|]; rewrite Ekn; exists (drop (length pfx) (cn_k n)); rewrite (take_ge pfx) in E by lia; rewrite <- E at 1; by rewrite take_drop).
      exists (leaves (top (8 * length pfx) t pfx)). assert (height (top (8 * length pfx) t pfx) < S (size h))%nat as Hfu by (pose proof (cb_fuel _ _ _ _ Hok); pose proof (top_height (8 * length pfx) t pfx); lia). rewrite (cb_descend_ok fn h _ tp _ arg Htp Hfu). cbn [mbind res_bind]. split_and!; [done| |].
      * apply leaves_sorted; [done|]. intros p p' Hp%H3 Hp'%H3. destruct (co_keys _ _ _ _ Hok _ Hp), (co_keys _ _ _ _ Hok _ Hp'). split; [done|congruence].
      * intros p. split; [intros Hp; split; [apply Hpre; [by apply H3|]; eapply agree_trans; [by apply (H4 p (best t pfx))|done]|apply Hm; split; [by apply H3|done]]|]. intros [Hp [Hin _]%Hm]. apply H5; [done|by apply Hpre].
    + exists []. split_and!; [done|constructor|]. intros p. rewrite elem_of_nil. split; [done|]. intros [Hp [Hin _]%Hm]. apply Hxy. apply Hpre in Hp; [|done]. assert (agree (8 * length pfx) (node_key h (best t pfx)) pfx) as Hag by (eapply agree_trans; [apply (H4 _ p); [done|by apply H5]|done]).
      apply Hpre in Hag as (r & Er); [|done]. rewrite Ekn in Er. rewrite Er, lookup_app_l in Ex by lia. congruence.
Qed.

(** Insertions of nodes that the caller has filled in: the nodes, the root and what each insertion returns. *)
Fixpoint cb_inserts (K : nat) (h : cb_heap) (root : Z) (l : list (Z * cb_node)) : res (cb_heap * Z * list Z) :=
  match l with
  | [] => Ok (h, root, [])
  | (node, n) :: l =>
      '(h, root, r) ← cb_insert (<[node := n]> h) root node (Z.of_nat K);
      '(h, root, rs) ← cb_inserts K h root l;
      Ok (h, root, r :: rs)
  end.

(** The same with a map. *)
Fixpoint map_inserts (m : gmap (list Z) Z) (l : list (Z * cb_node)) : gmap (list Z) Z * list Z :=
  match l with
  | [] => (m, [])
  | (node, n) :: l =>
      let '(m', rs) := map_inserts (match m !! cn_k n with Some _ => m | None => <[cn_k n := node]> m end) l in
      (m', default 0 (m !! cn_k n) :: rs)
  end.

Definition good_node (K : nat) (x : Z * cb_node) : Prop := x.1 <> 0 /\ Z.even x.1 = true /\ length (cn_k x.2) = K /\ is_bytes (cn_k x.2).

Lemma cb_inserts_ok K l : forall h root m, Z.of_nat K < 2 ^ 32 -> cb_rep K h root m -> Forall (good_node K) l -> NoDup l.*1 -> (forall k p, m !! k = Some p -> p ∉ l.*1) ->
  exists h' root', cb_inserts K h root l = Ok (h', root', (map_inserts m l).2) /\ cb_rep K h' root' (map_inserts m l).1.
Proof.
  induction l as [|[node n] l IH]; intros h root m HK Hrep Hl Hnd Hm; [by exists h, root|]. apply Forall_cons in Hl as [(H0 & He & Hlen & Hb) Hl]. cbn in H0, He, Hlen, Hb, Hnd. apply NoDup_cons in Hnd as [Hnl Hnd]. cbn [fmap list_fmap fst] in Hm. setoid_rewrite elem_of_cons in Hm.
  destruct (cb_rep_insert K h root m node n HK Hrep H0 He Hlen Hb) as (h1 & root1 & E & Hrep1); [intros k E; by destruct (Hm k node E); left|]. cbn [cb_inserts map_inserts]. rewrite E. cbn [mbind res_bind].
  destruct (IH h1 root1 _ HK Hrep1 Hl Hnd) as (h2 & root2 & E2 & Hrep2).
  { intros k p Hk. destruct (m !! cn_k n); [intros Hp; apply (Hm k p Hk); by right|]. apply lookup_insert_Some in Hk as [[_ <-]|[_ Hk]]; [done|]. intros Hp. apply (Hm k p Hk). by right. }
  rewrite E2. cbn [mbind res_bind]. destruct (map_inserts _ l) as [m' rs]. by exists h2, root2.
Qed.

(** C38: a crit-bit tree is a finite map from keys to nodes.  Inserting any nodes with keys of [K] bytes one after the other into an empty
    tree ends without a fault and returns the node with the same key when there is one, and NULL otherwise.  Then a lookup by a whole key or
    by a prefix of one finds a node with it exactly when there is one, and a walk calls the callback for exactly the
    nodes whose keys have the prefix, in the order of [memcmp], until the callback breaks it off. *)
Theorem cb_tree_map K (l : list (Z * cb_node)) : Z.of_nat K < 2 ^ 32 -> Forall (good_node K) l -> NoDup l.*1 ->
  let '(m, rs) := map_inserts ∅ l in
  exists h root, cb_inserts K ∅ CBTREE_INIT l = Ok (h, root, rs) /\
    forall pfx, is_bytes pfx -> (length pfx <= K)%nat ->
      (exists p, cb_lookup h root pfx (len pfx) = Ok p /\ (p = 0 -> forall k q, m !! k = Some q -> ~ pfx `prefix_of` k) /\ (p <> 0 -> exists k, m !! k = Some p /\ pfx `prefix_of` k)) /\
      forall A (fn : cb_heap -> Z -> A -> res (A * bool)) arg, exists vs, cb_each fn h root pfx (len pfx) arg = ('(arg, _) ← cb_visit fn h vs arg; Ok arg) /\
        StronglySorted (fun p p' => memcmp (node_key h p) (node_key h p') < 0) vs /\ (forall p, p ∈ vs <-> pfx `prefix_of` node_key h p /\ m !! node_key h p = Some p).
Proof.
  intros HK Hl Hnd. destruct (cb_inserts_ok K l ∅ CBTREE_INIT ∅ HK ltac:(by left) Hl Hnd ltac:(intros k p; by rewrite lookup_empty)) as (h & root & E & Hrep). destruct (map_inserts ∅ l) as [m rs]. exists h, root. split; [done|].
  intros pfx Hb Hp. split; [by eapply cb_rep_lookup|]. intros A fn arg. by eapply cb_rep_each.
Qed.

(** Nodes at 8, 16, 24 and 32, the last one with a key that is there. *)
Definition ex_nodes : list (Z * cb_node) := (fun '(a, k) => (a, mkCn 0 0 0 0 k)) <$> [(8, [3; 1]); (16, [2; 255]); (24, [3; 0]); (32, [2; 255])].

Lemma cb_tree_map_witness : exists h root, cb_inserts 2 ∅ CBTREE_INIT ex_nodes = Ok (h, root, [0; 0; 0; 16]) /\ cb_lookup h root [2; 255] 2 = Ok 16 /\
  exists vs, cb_each (fun _ p arg => Ok (arg ++ [p], false)) h root [3] 1 [] = ('(arg, _) ← cb_visit (fun _ p arg => Ok (arg ++ [p], false)) h vs []; Ok arg) /\ StronglySorted (fun p p' => memcmp (node_key h p) (node_key h p') < 0) vs.
Proof.
  pose proof (cb_tree_map 2 ex_nodes ltac:(done) ltac:(repeat constructor; cbn; done || lia) ltac:(by apply (bool_decide_eq_true_1 _))) as Hx. assert ((map_inserts ∅ ex_nodes).2 = [0; 0; 0; 16]) as Ers by (vm_compute; reflexivity).
  assert ((map_inserts ∅ ex_nodes).1 !! [2; 255] = Some 16) as Em by (vm_compute; reflexivity). destruct (map_inserts ∅ ex_nodes) as [m rs]. cbn in Ers, Em. subst rs. destruct Hx as (h & root & E & Hx). exists h, root. split; [exact E|].
  destruct (Hx [3] ltac:(repeat constructor; lia) ltac:(cbn; lia)) as [_ He]. destruct (He _ (fun _ p arg => Ok (arg ++ [p], false)) []) as (vs & E' & Hs & _). split; [|by exists vs].
  destruct (Hx [2; 255] ltac:(repeat constructor; lia) ltac:(cbn; lia)) as [(p & Ep & Hz & Hnz) _]. change (len [2; 255]) with 2 in Ep. rewrite Ep. f_equal.
  assert ((h, root) = (match cb_inserts 2 ∅ CBTREE_INIT ex_nodes with Ok (h, root, _) => (h, root) | Fault _ => (∅, 0) end)) as Eh by (rewrite E; done). assert (cb_lookup (match cb_inserts 2 ∅ CBTREE_INIT ex_nodes with Ok (h, root, _) => (h, root) | Fault _ => (∅, 0) end).1 (match cb_inserts 2 ∅ CBTREE_INIT ex_nodes with Ok (h, root, _) => (h, root) | Fault _ => (∅, 0) end).2 [2; 255] 2 = Ok 16) as El by (vm_compute; reflexivity).
  rewrite <- Eh in El. cbn [fst snd] in El. congruence.
Defined.
