(* ===== verification/MemPool.v ===== *)
(** * Memory pools: [mem-pool.c]

    A pool hands out pieces of large blocks of the C library.  Addresses are integers here; the live ranges of the library's heap are threaded
    through, and the class [MallocOk] is what a [malloc] that finds memory promises.  The theorem is that for sizes that a pointer
    difference can hold the pieces are aligned, lie inside of the blocks of the pool and overlap neither each other nor anything that was there
    before.  The contents of the pieces are not modelled, so the functions that fill them are left out. *)

From stdpp Require Import prelude numbers list sorting.
From S2P Require Import Prelude PatchDelta Alloc.

(** ** The C library *)

(** Ranges are pairs of an address and a size. *)
Abbreviation range := (Z * Z)%type.

Definition range_disjoint (r s : range) : Prop := r.1 + r.2 <= s.1 \/ s.1 + s.2 <= r.1.

(** The address that [malloc] finds for a size, next to the live ranges. *)
Class Malloc := libc_malloc : list range -> Z -> Z.

Class MallocOk `{!Malloc} : Prop := {
  malloc_pos live n : 0 < libc_malloc live n;
  malloc_aligned live n : libc_malloc live n `mod` 16 = 0;
  malloc_disjoint live n : 0 < n -> Forall (fun r => range_disjoint (libc_malloc live n, n) r) live;
}.

(** ** The code *)

(** The header is 24 bytes; [space] follows it. *)
Record mp_block := mkMb { mb_base : Z; mb_next_free : Z; mb_end : Z }.

#[global] Instance mp_block_eq_dec : EqDecision mp_block.
Proof. solve_decision. Defined.

Definition sizeof_mp_block : Z := 24.
Definition mb_space (b : mp_block) : Z := mb_base b + sizeof_mp_block.

(** The blocks in the order of [next_block]. *)
Record mem_pool := mkMp { mp_blocks : list mp_block; mp_block_alloc : Z; mp_pool_alloc : Z }.

Definition GIT_MAX_ALIGNMENT : Z := 8.
Definition BLOCK_GROWTH_SIZE : Z := 1024 * 1024 - sizeof_mp_block.

Section Code.
Context `{Memory} `{Malloc}.

Definition xmalloc_at (live : list range) (n : Z) : res (Z * list range) :=
  _ ← xmalloc n;
  let p := libc_malloc live n in
  Ok (p, (p, n) :: live).

(** [p] behind the block at the address [q]. *)
Fixpoint insert_behind (q : Z) (p : mp_block) (l : list mp_block) : list mp_block :=
  match l with
  | [] => []
  | b :: l => if mb_base b =? q then b :: p :: l else b :: insert_behind q p l
  end.

(** The pool, the heap and the address of the block. *)
Definition mem_pool_alloc_block (pool : mem_pool) (live : list range) (block_alloc insert_after : Z) : res (mem_pool * list range * Z) :=
  let pool_alloc := u64 (mp_pool_alloc pool + (sizeof_mp_block + block_alloc)) in
  n ← st_add sizeof_mp_block block_alloc;
  '(p, live) ← xmalloc_at live n;
  let next_free := p + sizeof_mp_block in
  let b := mkMb p next_free (next_free + block_alloc) in
  let blocks := if tr insert_after then insert_behind insert_after b (mp_blocks pool) else b :: mp_blocks pool in
  Ok (mkMp blocks (mp_block_alloc pool) pool_alloc, live, p).

Definition mem_pool_init (live : list range) (initial_size : Z) : res (mem_pool * list range) :=
  let pool := mkMp [] BLOCK_GROWTH_SIZE 0 in
  if 0 <? initial_size then '(pool, live, _) ← mem_pool_alloc_block pool live initial_size 0; Ok (pool, live)
  else Ok (pool, live).

(** [pool->mp_block] *)
Definition mp_head (pool : mem_pool) : Z := match mp_blocks pool with [] => 0 | b :: _ => mb_base b end.

(** [p->next_free += len] for the block at [p], and its value before. *)
Fixpoint take_piece (p len : Z) (l : list mp_block) : res (Z * list mp_block) :=
  match l with
  | [] => Fault UB
  | b :: l =>
      if mb_base b =? p then Ok (mb_next_free b, mkMb (mb_base b) (mb_next_free b + len) (mb_end b) :: l)
      else '(r, l) ← take_piece p len l; Ok (r, b :: l)
  end.

Definition mem_pool_alloc (pool : mem_pool) (live : list range) (len : Z) : res (mem_pool * list range * Z) :=
  let len := u64 (u64 (len + GIT_MAX_ALIGNMENT - 1) / GIT_MAX_ALIGNMENT * GIT_MAX_ALIGNMENT) in
  let p := match mp_blocks pool with
           | [] => 0
           | b :: _ => if len <=? mb_end b - mb_next_free b then mb_base b else 0
           end in
  '(pool, live, p) ← (if negb (tr p) then
                        if mp_block_alloc pool / 2 <=? len then mem_pool_alloc_block pool live len (mp_head pool)
                        else mem_pool_alloc_block pool live (mp_block_alloc pool) 0
                      else Ok (pool, live, p));
  '(r, blocks) ← take_piece p len (mp_blocks pool);
  Ok (mkMp blocks (mp_block_alloc pool) (mp_pool_alloc pool), live, r).

Definition mem_pool_discard (pool : mem_pool) (live : list range) : mem_pool * list range :=
  (mkMp [] (mp_block_alloc pool) 0, foldl (fun live b => filter (fun r : range => r.1 <> mb_base b) live) live (mp_blocks pool)).

Definition mem_pool_contains (pool : mem_pool) (mem : Z) : bool := existsb (fun p => (mb_space p <=? mem) && (mem <? mb_end p)) (mp_blocks pool).

Definition mem_pool_combine (dst src : mem_pool) : mem_pool * mem_pool :=
  (mkMp (mp_blocks dst ++ mp_blocks src) (mp_block_alloc dst) (u64 (mp_pool_alloc dst + mp_pool_alloc src)), mkMp [] (mp_block_alloc src) 0).
End Code.

(** ** The pieces *)

(** Ranges no two of which overlap. *)
Abbreviation apart := (StronglySorted range_disjoint).

Definition block_range (b : mp_block) : range := (mb_base b, mb_end b - mb_base b).

Definition block_ok (b : mp_block) : Prop := 0 < mb_base b /\ mb_base b `mod` 8 = 0 /\ mb_space b <= mb_next_free b <= mb_end b /\ mb_next_free b `mod` 8 = 0.

(** The piece lies in the part of the block that is used. *)
Definition piece_in (r : range) (b : mp_block) : Prop := mb_space b <= r.1 /\ r.1 + r.2 <= mb_next_free b.

(** A pool next to the ranges [live0], with the pieces that it has handed out. *)
Record pool_ok (live0 : list range) (pieces : list range) (pool : mem_pool) (live : list range) : Prop := {
  po_live : live ≡ₚ (block_range <$> mp_blocks pool) ++ live0;
  po_blocks : Forall block_ok (mp_blocks pool);
  po_apart : apart (block_range <$> mp_blocks pool);
  po_before : Forall (fun b => Forall (range_disjoint (block_range b)) live0) (mp_blocks pool);
  po_pieces : Forall (fun r => 0 <= r.2 /\ r.1 `mod` 8 = 0 /\ Exists (piece_in r) (mp_blocks pool)) pieces;
  po_pieces_apart : apart pieces;
  po_size : 0 <= mp_block_alloc pool < 2 ^ 32;
}.

Lemma disjoint_sym r s : range_disjoint r s -> range_disjoint s r.
Proof. unfold range_disjoint. tauto. Qed.

Lemma apart_perm l l' : l ≡ₚ l' -> apart l -> apart l'.
Proof.
  induction 1 as [|x l l' Hp IH|x y l|l l' l'' _ IH1 _ IH2]; intros Ha; [done| | |by apply IH2, IH1].
  - apply StronglySorted_inv in Ha as [Ha Hx]. constructor; [by apply IH|]. by rewrite <- Hp.
  - apply StronglySorted_inv in Ha as [Ha Hx]. apply StronglySorted_inv in Ha as [Ha Hy]. apply Forall_cons in Hx as [Hyx Hx]. constructor; [by constructor|]. constructor; [by apply disjoint_sym|done].
Qed.

Lemma insert_behind_perm q p l : (exists b, b ∈ l /\ mb_base b = q) -> insert_behind q p l ≡ₚ p :: l.
Proof.
  induction l as [|b l IH]; intros (b' & Hb & <-); [by apply elem_of_nil in Hb|]. cbn. destruct (Z.eqb_spec (mb_base b) (mb_base b')) as [|Hn]; [by rewrite Permutation_swap|]. apply elem_of_cons in Hb as [->|Hb]; [done|]. rewrite IH by eauto. by rewrite Permutation_swap.
Qed.

(** A pool does not depend on the order of its blocks. *)
Lemma pool_ok_perm live0 pieces pool live blocks pa : pool_ok live0 pieces pool live -> blocks ≡ₚ mp_blocks pool -> pool_ok live0 pieces (mkMp blocks (mp_block_alloc pool) pa) live.
Proof.
  intros [H1 H2 H3 H4 H5 H6 H7] Hp. split; cbn; [by rewrite H1, Hp|by rewrite Hp| |by rewrite Hp| |done|done].
  - eapply apart_perm; [|exact H3]. by rewrite Hp.
  - eapply Forall_impl; [exact H5|]. intros r (? & ? & He). split_and!; [done|done|]. rewrite Exists_exists in *. destruct He as (b & Hb & Hr). exists b. by rewrite Hp.
Qed.

Lemma take_piece_ok p n b l : b ∈ l -> mb_base b = p -> exists b0 l1 l2, l = l1 ++ b0 :: l2 /\ mb_base b0 = p /\ take_piece p n l = Ok (mb_next_free b0, l1 ++ mkMb (mb_base b0) (mb_next_free b0 + n) (mb_end b0) :: l2).
Proof.
  intros Hb <-. induction l as [|b' l IH]; [by apply elem_of_nil in Hb|]. cbn [take_piece]. destruct (Z.eqb_spec (mb_base b') (mb_base b)) as [E|Hn]; [by exists b', [], l|].
  apply elem_of_cons in Hb as [->|Hb]; [done|]. destruct (IH Hb) as (b0 & l1 & l2 & -> & E0 & E). exists b0, (b' :: l1), l2. rewrite E. by split_and!.
Qed.

(** The addresses of the blocks tell them apart. *)
Lemma block_unique l b b' : Forall block_ok l -> apart (block_range <$> l) -> b ∈ l -> b' ∈ l -> mb_base b = mb_base b' -> b = b'.
Proof.
  intros Hok Ha Hb Hb' E. induction l as [|x l IH]; [by apply elem_of_nil in Hb|]. apply Forall_cons in Hok as [Hx Hok]. cbn in Ha. apply StronglySorted_inv in Ha as [Ha Hd]. rewrite Forall_fmap, Forall_forall in Hd.
  assert (forall y, y ∈ l -> mb_base y <> mb_base x) as Hne. { intros y Hy Ey. pose proof (proj1 (Forall_forall _ _) Hok y Hy) as (_ & _ & Hsy & _). destruct Hx as (_ & _ & Hsx & _). pose proof (Hd y Hy) as Hdd. unfold range_disjoint, block_range, mb_space, sizeof_mp_block in *. cbn in *. lia. }
  apply elem_of_cons in Hb as [->|Hb], Hb' as [->|Hb']; [done|by destruct (Hne b' Hb')|by destruct (Hne b Hb)|by apply IH].
Qed.

Section Specs.
Context `{Memory} `{MallocOk} (live0 : list range).

Lemma alloc_block_ok pieces pool live n after : pool_ok live0 pieces pool live -> 0 <= n < 2 ^ 63 -> after = 0 \/ (mp_blocks pool <> [] /\ after = mp_head pool) ->
  wp oom (mem_pool_alloc_block pool live n after) (fun '(pool', live', p) => pool_ok live0 pieces pool' live' /\ mp_block_alloc pool' = mp_block_alloc pool /\
    exists b, b ∈ mp_blocks pool' /\ mb_base b = p /\ mb_end b - mb_next_free b = n).
Proof using All.
  intros Ho Hn Haf. unfold mem_pool_alloc_block. rewrite st_add_ok by (unfold sizeof_mp_block; lia). cbn [mbind res_bind]. unfold xmalloc_at. apply wp_bind, wp_bind. eapply wp_mono; [apply xmalloc_oom; unfold sizeof_mp_block; lia|]. intros [] _. apply wp_ret, wp_ret.
  set (p := libc_malloc live (sizeof_mp_block + n)). pose proof (malloc_pos live (sizeof_mp_block + n)) as Hp. pose proof (malloc_aligned live (sizeof_mp_block + n)) as Hp16. pose proof (malloc_disjoint live (sizeof_mp_block + n) ltac:(unfold sizeof_mp_block; lia)) as Hdis. fold p in Hp, Hp16, Hdis.
  set (b := mkMb p (p + sizeof_mp_block) (p + sizeof_mp_block + n)). assert (block_range b = (p, sizeof_mp_block + n)) as Er by (unfold block_range, b; cbn; f_equal; lia).
  assert ((if tr after then insert_behind after b (mp_blocks pool) else b :: mp_blocks pool) ≡ₚ b :: mp_blocks pool) as Hperm.
  { destruct Haf as [->|[Hne ->]]; [done|]. unfold mp_head. pose proof (po_blocks _ _ _ _ Ho) as Hbl. destruct (mp_blocks pool) as [|b0 l] eqn:E; [done|]. apply Forall_cons in Hbl as [(Hb0 & _) _]. rewrite (proj2 (tr_true (mb_base b0))) by lia. apply insert_behind_perm. exists b0. split; [constructor|done]. }
  split; [|split; [done|]].
  - destruct Ho as [H1' H2' H3' H4' H5' H6' H7']. apply (pool_ok_perm live0 pieces (mkMp (b :: mp_blocks pool) (mp_block_alloc pool) 0)); [|exact Hperm]. rewrite H1', Forall_app in Hdis. destruct Hdis as [Hdb Hd0].
    split; cbn [mp_blocks mp_block_alloc fmap list_fmap]; rewrite ?Er.
    + by rewrite H1'.
    + constructor; [|done]. unfold block_ok, b, mb_space, sizeof_mp_block in *; cbn. split_and!; [done|dlia|lia|lia|dlia].
    + by constructor.
    + constructor; [by rewrite Er|done].
    + eapply Forall_impl; [exact H5'|]. intros r (? & ? & ?). split_and!; [done|done|by apply Exists_cons_tl].
    + done.
    + done.
  - exists b. cbn [mp_blocks]. rewrite Hperm. split; [constructor|]. split; [done|]. cbn. lia.
Qed.

Lemma take_piece_pool pieces pool live p n b : pool_ok live0 pieces pool live -> b ∈ mp_blocks pool -> mb_base b = p -> 0 <= n -> n `mod` 8 = 0 -> n <= mb_end b - mb_next_free b ->
  exists blocks, take_piece p n (mp_blocks pool) = Ok (mb_next_free b, blocks) /\ pool_ok live0 ((mb_next_free b, n) :: pieces) (mkMp blocks (mp_block_alloc pool) (mp_pool_alloc pool)) live.
Proof using Type.
  intros [H1' H2' H3' H4' H5' H6' H7'] Hb Ep Hn Hn8 Hfit. destruct (take_piece_ok p n b _ Hb Ep) as (b0 & l1 & l2 & El & E0 & Et). rewrite El in *.
  assert (b0 = b) as -> by (apply (block_unique (l1 ++ b0 :: l2)); [done|done|rewrite elem_of_app, elem_of_cons; tauto|done|congruence]). rewrite Et. eexists. split; [done|].
  set (b1 := mkMb (mb_base b) (mb_next_free b + n) (mb_end b)). assert (block_range b1 = block_range b) as Er by done. rewrite Forall_app, Forall_cons in H2'. destruct H2' as (Hk1 & Hkb & Hk2). pose proof Hkb as (Hb0 & Hb8 & Hbs & Hbn).
  assert (forall r, Exists (piece_in r) (l1 ++ b :: l2) -> Exists (piece_in r) (l1 ++ b1 :: l2)) as Hmono. { intros r. rewrite !Exists_app, !Exists_cons. intros [?|[[? ?]|?]]; [tauto| |tauto]. right. left. split; [done|]. cbn. lia. }
  assert (mb_space b1 = mb_space b) as Es by done.
  split; cbn [mp_blocks mp_block_alloc].
  - rewrite H1'. rewrite !fmap_app. done.
  - apply Forall_app. split; [done|]. constructor; [|done]. unfold block_ok. rewrite Es. cbn. split_and!; [done|done|lia|lia|dlia].
  - rewrite fmap_app in *. done.
  - rewrite Forall_app, Forall_cons in *. by rewrite Er.
  - constructor; [|eapply Forall_impl; [exact H5'|]; intros r (? & ? & ?); split_and!; auto]. cbn. split_and!; [done|done|]. apply Exists_app. right. apply Exists_cons_hd. split; cbn; [unfold mb_space in *; lia|lia].
  - constructor; [done|]. apply Forall_forall. intros r Hr. rewrite Forall_forall in H5'. destruct (H5' r Hr) as (Hr0 & _ & Hex). apply Exists_exists in Hex as (b' & Hb' & Hin1 & Hin2).
    destruct (decide (b' = b)) as [->|Hne]; [right; cbn; lia|]. assert (range_disjoint (block_range b) (block_range b')) as Hd.
    { rewrite fmap_app in H3'. cbn in H3'. assert (l1 ++ b :: l2 ≡ₚ b :: l1 ++ l2) as Hperm by (by rewrite Permutation_middle). assert (apart (block_range <$> b :: l1 ++ l2)) as Ha by (eapply apart_perm; [|exact H3']; rewrite <- (Permutation_middle (block_range <$> l1)); cbn; by rewrite fmap_app).
      cbn in Ha. apply StronglySorted_inv in Ha as [_ Hf]. rewrite Forall_fmap, Forall_forall in Hf. apply Hf. rewrite Hperm in Hb'. by apply elem_of_cons in Hb' as [->|?]. }
    assert (block_ok b') as (_ & _ & Hbs' & _). { apply (proj1 (Forall_forall block_ok (l1 ++ b :: l2))); [|done]. apply Forall_app. split; [done|by constructor]. }
    unfold range_disjoint, block_range, mb_space, sizeof_mp_block in *. cbn in *. lia.
  - done.
Qed.

(** [DIV_ROUND_UP] to the alignment. *)
Lemma round_up_ok n : 0 <= n <= 2 ^ 63 - 8 -> exists m, u64 (u64 (n + GIT_MAX_ALIGNMENT - 1) / GIT_MAX_ALIGNMENT * GIT_MAX_ALIGNMENT) = m /\ n <= m < 2 ^ 63 /\ m `mod` 8 = 0.
Proof using Type. intros Hn. unfold GIT_MAX_ALIGNMENT. rewrite (u64_small (n + 8 - 1)) by lia. eexists. split; [done|]. rewrite u64_small by dlia. split; [dlia|]. apply Z.mod_mul. lia. Qed.

Lemma mem_pool_alloc_ok pieces pool live n : pool_ok live0 pieces pool live -> 0 <= n <= 2 ^ 63 - 8 ->
  wp oom (mem_pool_alloc pool live n) (fun '(pool', live', r) => exists m, n <= m /\ pool_ok live0 ((r, m) :: pieces) pool' live').
Proof using All.
  intros Ho Hn. unfold mem_pool_alloc. destruct (round_up_ok n Hn) as (m & -> & Hm & Hm8). cbv zeta. apply wp_bind.
  assert (wp oom (if negb (tr (match mp_blocks pool with [] => 0 | b :: _ => if m <=? mb_end b - mb_next_free b then mb_base b else 0 end)) then
    if mp_block_alloc pool / 2 <=? m then mem_pool_alloc_block pool live m (mp_head pool) else mem_pool_alloc_block pool live (mp_block_alloc pool) 0
    else Ok (pool, live, match mp_blocks pool with [] => 0 | b :: _ => if m <=? mb_end b - mb_next_free b then mb_base b else 0 end))
    (fun '(pool', live', p) => pool_ok live0 pieces pool' live' /\ exists b, b ∈ mp_blocks pool' /\ mb_base b = p /\ m <= mb_end b - mb_next_free b)) as Hp.
  { destruct (tr _) eqn:Et; cbn [negb].
    - apply wp_ret. split; [done|]. destruct (mp_blocks pool) as [|b l] eqn:E; [done|]. destruct (Z.leb_spec m (mb_end b - mb_next_free b)); [|done]. exists b. split; [constructor|done].
    - destruct (Z.leb_spec (mp_block_alloc pool / 2) m).
      + eapply wp_mono; [apply (alloc_block_ok pieces pool live m); [done|lia|]|]; [destruct (mp_blocks pool) as [|b l] eqn:E; [left; unfold mp_head; by rewrite E|right; done]|]. intros [[pool' live'] p] (Hok & _ & b & Hb & Eb & Ee). split; [done|]. exists b. split_and!; [done|done|lia].
      + pose proof (po_size _ _ _ _ Ho) as Hsz. eapply wp_mono; [apply (alloc_block_ok pieces pool live (mp_block_alloc pool)); [done|lia|by left]|]. intros [[pool' live'] p] (Hok & _ & b & Hb & Eb & Ee). split; [done|]. exists b. split_and!; [done|done|dlia]. }
  eapply wp_mono; [exact Hp|]. intros [[pool' live'] p] (Hok & b & Hb & Eb & Ee). destruct (take_piece_pool pieces pool' live' p m b Hok Hb Eb ltac:(lia) Hm8 Ee) as (blocks & -> & Hok'). cbn [mbind res_bind]. apply wp_ret. exists m. split; [lia|done].
Qed.

Lemma mem_pool_init_ok n : 0 <= n < 2 ^ 63 -> wp oom (mem_pool_init live0 n) (fun '(pool, live) => pool_ok live0 [] pool live).
Proof using All.
  intros Hn. unfold mem_pool_init. assert (pool_ok live0 [] (mkMp [] BLOCK_GROWTH_SIZE 0) live0) as Hinit by (split; cbn; try constructor; try constructor; done).
  destruct (Z.ltb_spec 0 n); [|by apply wp_ret]. apply wp_bind. eapply wp_mono; [apply (alloc_block_ok [] _ live0 n 0 Hinit Hn); by left|]. intros [[pool live] p] (Hok & _). by apply wp_ret.
Qed.

(** Every byte of a piece is known to the pool. *)
Lemma mem_pool_contains_ok pieces pool live r a : pool_ok live0 pieces pool live -> r ∈ pieces -> r.1 <= a < r.1 + r.2 -> mem_pool_contains pool a = true.
Proof using Type.
  intros Ho Hr Ha. pose proof (proj1 (Forall_forall _ _) (po_pieces _ _ _ _ Ho) r Hr) as (_ & _ & Hex). apply Exists_exists in Hex as (b & Hb & Hin1 & Hin2). pose proof (proj1 (Forall_forall _ _) (po_blocks _ _ _ _ Ho) b Hb) as (_ & _ & Hbs & _).
  unfold mem_pool_contains. apply existsb_exists. exists b. split; [by apply list_elem_of_In|]. apply andb_true_iff. split; [apply Z.leb_le; lia|apply Z.ltb_lt; lia].
Qed.

Lemma pool_piece_addr pieces pool live r : pool_ok live0 pieces pool live -> r ∈ pieces -> 0 < r.1 /\ r.1 `mod` 8 = 0 /\ Forall (range_disjoint r) live0.
Proof using Type.
  intros Ho Hr. pose proof (proj1 (Forall_forall _ _) (po_pieces _ _ _ _ Ho) r Hr) as (Hr0 & Hr8 & Hex). apply Exists_exists in Hex as (b & Hb & Hin1 & Hin2). pose proof (proj1 (Forall_forall _ _) (po_blocks _ _ _ _ Ho) b Hb) as (Hb0 & _ & Hbs & _). pose proof (proj1 (Forall_forall _ _) (po_before _ _ _ _ Ho) b Hb) as Hd. cbn beta in Hd.
  unfold mb_space, sizeof_mp_block in *. split_and!; [lia|done|]. eapply Forall_impl; [exact Hd|]. intros s. unfold range_disjoint, block_range. cbn. lia.
Qed.
End Specs.

Lemma filter_keeps {A} (P : A -> Prop) `{!forall x, Decision (P x)} l : Forall P l -> filter P l = l.
Proof. induction 1 as [|x l Hx _ IH]; [done|]. rewrite filter_cons_True by done. by rewrite IH. Qed.

(** Everything that the pool got from the C library is given back. *)
Lemma mem_pool_discard_ok live0 pieces pool live : pool_ok live0 pieces pool live -> Forall (fun r => 0 < r.2) live0 -> (mem_pool_discard pool live).2 ≡ₚ live0.
Proof.
  intros [Hl Hb Ha Hd _ _ _] Hpos. unfold mem_pool_discard. cbn [snd]. revert live Hl Hb Ha Hd. induction (mp_blocks pool) as [|b l IH]; intros live Hl Hb Ha Hd; [done|]. cbn [foldl]. cbn in Ha. apply StronglySorted_inv in Ha as [Ha Hab]. apply Forall_cons in Hb as [Hbb Hb], Hd as [Hdb Hd].
  apply IH; [|done|done|done]. destruct Hbb as (_ & _ & Hbs & _). unfold mb_space, sizeof_mp_block in Hbs. rewrite Hl. cbn [fmap list_fmap app]. rewrite filter_cons_False by (cbn; tauto). rewrite filter_app. f_equiv.
  - rewrite filter_keeps; [done|]. rewrite Forall_fmap, Forall_forall in Hab. apply Forall_forall. intros x Hx. apply list_elem_of_fmap in Hx as (b' & -> & Hb'). specialize (Hab b' Hb'). pose proof (proj1 (Forall_forall _ _) Hb b' Hb') as (_ & _ & Hbs' & _). unfold range_disjoint, block_range, mb_space, sizeof_mp_block in *. cbn in *. lia.
  - rewrite filter_keeps; [done|]. apply Forall_forall. intros x Hx. rewrite Forall_forall in Hdb, Hpos. specialize (Hdb x Hx). specialize (Hpos x Hx). unfold range_disjoint, block_range in *. cbn in *. lia.
Qed.

(** Two pools of one heap become one. *)
Lemma mem_pool_combine_ok live0 p1 p2 dst src live : pool_ok ((block_range <$> mp_blocks src) ++ live0) p1 dst live -> pool_ok ((block_range <$> mp_blocks dst) ++ live0) p2 src live -> pool_ok live0 (p1 ++ p2) (mem_pool_combine dst src).1 live.
Proof.
  intros H1 H2. pose proof (fun r => pool_piece_addr _ p2 src live r H2) as Haddr. destruct H1 as [Hl1 Hb1 Ha1 Hd1 Hp1 Hpa1 Hs1], H2 as [Hl2 Hb2 Ha2 Hd2 Hp2 Hpa2 Hs2]. unfold mem_pool_combine. cbn [fst]. split; cbn [mp_blocks mp_block_alloc].
  - by rewrite Hl1, fmap_app, app_assoc.
  - by apply Forall_app.
  - rewrite fmap_app. apply StronglySorted_app_2; [|done|done]. intros r s Hr Hs. apply list_elem_of_fmap in Hr as (b & -> & Hb). rewrite Forall_forall in Hd1. specialize (Hd1 b Hb). rewrite Forall_app in Hd1. destruct Hd1 as [Hd1 _]. rewrite Forall_forall in Hd1. by apply Hd1.
  - apply Forall_app. split; (eapply Forall_impl; [eassumption|]); intros b Hb; rewrite Forall_app in Hb; tauto.
  - apply Forall_app. split; (eapply Forall_impl; [eassumption|]); intros r (? & ? & ?); (split_and!; [done|done|]); rewrite Exists_app; tauto.
  - apply StronglySorted_app_2; [|done|done]. intros r s Hr Hs. destruct (Haddr s Hs) as (_ & _ & Hds). rewrite Forall_app in Hds. destruct Hds as [Hds _]. rewrite Forall_fmap, Forall_forall in Hds. pose proof (proj1 (Forall_forall _ _) Hp1 r Hr) as (Hr0 & _ & Hex). apply Exists_exists in Hex as (b & Hb & Hin1 & Hin2).
    specialize (Hds b Hb). pose proof (proj1 (Forall_forall _ _) Hb1 b Hb) as (_ & _ & Hbs & _). unfold range_disjoint, block_range, mb_space, sizeof_mp_block in *. cbn in *. lia.
  - done.
Qed.

(** Pieces of the given sizes, one after the other. *)
Fixpoint mem_pool_allocs `{Memory} `{Malloc} (pool : mem_pool) (live : list range) (ns : list Z) : res (mem_pool * list range * list Z) :=
  match ns with
  | [] => Ok (pool, live, [])
  | n :: ns => '(pool, live, r) ← mem_pool_alloc pool live n; '(pool, live, rs) ← mem_pool_allocs pool live ns; Ok (pool, live, r :: rs)
  end.

Lemma mem_pool_allocs_ok `{Memory} `{MallocOk} live0 ns : forall pieces pool live, pool_ok live0 pieces pool live -> Forall (fun n => 0 <= n <= 2 ^ 63 - 8) ns ->
  wp oom (mem_pool_allocs pool live ns) (fun '(pool', live', rs) => exists ms, Forall2 (fun n m => n <= m) ns ms /\ length rs = length ns /\ pool_ok live0 (rev (zip rs ms) ++ pieces) pool' live').
Proof.
  induction ns as [|n ns IH]; intros pieces pool live Ho Hns; [exists []; by split_and!|]. apply Forall_cons in Hns as [Hn Hns]. cbn [mem_pool_allocs]. apply wp_bind. eapply wp_mono; [by apply (mem_pool_alloc_ok live0 pieces)|]. intros [[pool1 live1] r] (m & Hm & Ho1).
  apply wp_bind. eapply wp_mono; [by apply (IH _ _ _ Ho1)|]. intros [[pool2 live2] rs] (ms & Hms & Hlen & Ho2). apply wp_ret. exists (m :: ms). split_and!; [by constructor|cbn; lia|]. cbn [zip zip_with rev]. by rewrite <- app_assoc.
Qed.

(** The last seven sizes wrap around when they are rounded up. *)
Lemma mem_pool_alloc_wraps `{Memory} `{Malloc} pool live n : 2 ^ 64 - 8 < n < 2 ^ 64 -> mem_pool_alloc pool live n = mem_pool_alloc pool live 0.
Proof.
  intros Hn. unfold mem_pool_alloc. replace (u64 (n + GIT_MAX_ALIGNMENT - 1) / GIT_MAX_ALIGNMENT) with (u64 (0 + GIT_MAX_ALIGNMENT - 1) / GIT_MAX_ALIGNMENT); [done|].
  unfold u64, GIT_MAX_ALIGNMENT. replace (n + 8 - 1) with ((n + 7 - 2 ^ 64) + 1 * 2 ^ 64) by lia. rewrite Z.mod_add by lia. rewrite (Z.mod_small (n + 7 - 2 ^ 64)) by lia.
  rewrite Z.div_small by (vm_compute; split; congruence). symmetry. apply Z.div_small. lia.
Qed.

(** C39: a memory pool hands out pieces that are apart.  Whatever the initial size (below [2 ^ 63]) and the sizes asked for (at most [2 ^ 63 - 8] bytes each), the
    pieces are at least as large as asked for, aligned to
    eight bytes, overlap neither each other nor any range that was in use before, and every byte of them is recognised by
    [mem_pool_contains]; discarding the pool leaves the heap as it was, and the pool dies only for lack of memory.  For larger sizes this is not claimed: a request of
    more than [2 ^ 64 - 8] bytes, which wraps around when it is rounded up, does just what a request of 0 bytes does. *)
Theorem mem_pool_pieces `{Memory} `{MallocOk} live0 initial_size ns : 0 <= initial_size < 2 ^ 63 -> Forall (fun n => 0 <= n <= 2 ^ 63 - 8) ns -> Forall (fun r => 0 < r.2) live0 ->
  wp oom ('(pool, live) ← mem_pool_init live0 initial_size; mem_pool_allocs pool live ns) (fun '(pool, live, rs) => exists ms,
    length rs = length ns /\ Forall2 (fun n m => n <= m) ns ms /\ apart (rev (zip rs ms)) /\
    (forall r m, (r, m) ∈ zip rs ms -> 0 < r /\ r `mod` 8 = 0 /\ Forall (range_disjoint (r, m)) live0 /\ forall a, r <= a < r + m -> mem_pool_contains pool a = true) /\
    (mem_pool_discard pool live).2 ≡ₚ live0) /\
  (forall pool live n, 2 ^ 64 - 8 < n < 2 ^ 64 -> mem_pool_alloc pool live n = mem_pool_alloc pool live 0).
Proof.
  intros Hi Hns Hpos. split; [|intros; by apply mem_pool_alloc_wraps]. apply wp_bind. eapply wp_mono; [by apply mem_pool_init_ok|]. intros [pool live] Ho. eapply wp_mono; [by apply (mem_pool_allocs_ok live0 ns [])|]. intros [[pool' live'] rs] (ms & Hms & Hlen & Ho'). rewrite app_nil_r in Ho'. exists ms.
  split_and!; [done|done|by apply (po_pieces_apart _ _ _ _ Ho')| |by eapply mem_pool_discard_ok]. intros r m Hin. assert ((r, m) ∈ rev (zip rs ms)) as Hin' by (by rewrite list_elem_of_In, <- in_rev, <- list_elem_of_In). destruct (pool_piece_addr _ _ _ _ _ Ho' Hin') as (H1' & H2' & H3'). split_and!; [done|done|done|]. intros a Ha. by apply (mem_pool_contains_ok _ _ _ _ (r, m) a Ho').
Qed.

(** A [malloc] that never reuses memory. *)
#[local] Instance ex_malloc : Malloc := fun live n => 16 * (1 + foldr (fun r a => Z.max (r.1 + r.2) a) 0 live).

#[local] Instance ex_malloc_ok : MallocOk.
Proof.
  assert (forall live : list range, 0 <= foldr (fun r a => Z.max (r.1 + r.2) a) 0 live) as Hm by (induction live; cbn; lia). split.
  - intros live n. unfold libc_malloc, ex_malloc. specialize (Hm live). lia.
  - intros live n. unfold libc_malloc, ex_malloc. rewrite Z.mul_comm. by apply Z.mod_mul.
  - intros live n _. unfold libc_malloc, ex_malloc. specialize (Hm live). assert (Forall (fun r => r.1 + r.2 <= foldr (fun r a => Z.max (r.1 + r.2) a) 0 live) live) as Hx; [|eapply Forall_impl; [exact Hx|]; intros r Hr; cbn beta in Hr; right; cbn; lia].
    clear Hm. induction live as [|r live IH]; cbn; constructor; [lia|]. eapply Forall_impl; [exact IH|]. intros s Hs. cbn beta in Hs. lia.
Qed.

(** One small piece, one that fits into the same block, and one that gets its own block. *)
Lemma mem_pool_pieces_witness : exists pool live rs ms, ('(pool, live) ← @mem_pool_init plenty _ [(4096, 64)] 0; @mem_pool_allocs plenty _ pool live [1; 60; 3000000]) = Ok (pool, live, rs) /\ length rs = 3%nat /\ apart (rev (zip rs ms)) /\
  @mem_pool_alloc plenty _ pool live (2 ^ 64 - 1) = @mem_pool_alloc plenty _ pool live 0.
Proof.
  pose proof (@mem_pool_pieces plenty _ _ [(4096, 64)] 0 [1; 60; 3000000] ltac:(lia) ltac:(repeat constructor; lia) ltac:(repeat constructor; cbn; lia)) as Hx.
  assert (exists v, ('(pool, live) ← @mem_pool_init plenty _ [(4096, 64)] 0; @mem_pool_allocs plenty _ pool live [1; 60; 3000000]) = Ok v) as (v & Ev) by (eexists; vm_compute; reflexivity).
  rewrite Ev in Hx. destruct v as [[pool live] rs]. destruct Hx as [(ms & Hl & _ & Ha & _) Hw]. exists pool, live, rs, ms. split; [exact Ev|]. split; [exact Hl|]. split; [exact Ha|]. apply Hw. lia.
Defined.
