(* ===== verification/OidTree.v ===== *)
(** * Trees of object names: [oidtree.c]

    A set of object names that is searched by abbreviated names: a crit-bit tree ([CbTree]) whose nodes come from a memory pool ([MemPool]).  The keys
    are the bytes of [struct object_id], the hash in front of the algorithm.  The theorem is about both components: the
    tree is a set of object names, in which a name without algorithm stands for every name with its hash, and a walk visits exactly the
    names that start with the given hexadecimal digits. *)

From stdpp Require Import prelude numbers list gmap sorting.
From S2P Require Import Prelude PatchDelta Bswap Alloc Hex CString CbTree MemPool.

(** ** The code *)

Record oidtree := mkOt { ot_tree : Z; ot_mem_pool : mem_pool }.

Definition sizeof_cb_node : Z := 24.
Definition sizeof_object_id : Z := 36.

(** [struct object_id] in memory, and back. *)
Definition oid_bytes (oid : object_id) : list Z := oid_hash oid ++ le_bytes32 (u32 (oid_algo oid)).
Definition oid_of_bytes (k : list Z) : object_id :=
  mkOid (take 32 k) (s32 (foldr (fun b a => b + 256 * a) 0 (take 4 (drop 32 k)))).

Definition oidcpy (src : object_id) : res object_id := hash ← rd_slice (oid_hash src) 0 32; Ok (mkOid hash (oid_algo src)).

Section Code.
Context `{Memory} `{Malloc} (junk : cb_node).

Definition oidtree_init (live : list range) : res (oidtree * list range) :=
  '(pool, live) ← mem_pool_init live 0;
  Ok (mkOt CBTREE_INIT pool, live).

Definition oidtree_clear (ot : oidtree) (live : list range) : res (oidtree * list range) :=
  oidtree_init (mem_pool_discard (ot_mem_pool ot) live).2.

(** The nodes, the heap of the C library and the tree. *)
Definition oidtree_insert (h : cb_heap) (live : list range) (ot : oidtree) (oid : object_id) : res (cb_heap * list range * oidtree) :=
  if negb (tr (oid_algo oid)) then Fault BugHit
  else
    '(pool, live, on) ← mem_pool_alloc (ot_mem_pool ot) live (sizeof_cb_node + sizeof_object_id);
    k ← oidcpy oid;
    let h := <[on := mkCn (cn_child0 junk) (cn_child1 junk) (cn_byte junk) (cn_otherbits junk) (oid_bytes k)]> h in
    '(h, root, _) ← cb_insert h (ot_tree ot) on sizeof_object_id;
    Ok (h, live, mkOt root pool).

Definition oidtree_contains (h : cb_heap) (ot : oidtree) (oid : object_id) : res Z :=
  k ← oidcpy oid;
  let klen := if oid_algo oid =? 0 then sizeof_object_id - 4 else sizeof_object_id in
  p ← cb_lookup h (ot_tree ot) (oid_bytes k) klen;
  Ok (if tr p then 1 else 0).

Section Each.
Context {A : Type} (fn : object_id -> A -> res (A * bool)).

(** [algo], [last_nibble_at] and [last_byte] of [struct oidtree_iter_data]. *)
Definition iter (algo : Z) (last_nibble_at : option Z) (last_byte : Z) (h : cb_heap) (n : Z) (arg : A) : res (A * bool) :=
  nd ← cb_load h n;
  bytes ← rd_slice (cn_k nd) 0 sizeof_object_id;
  let k := oid_of_bytes bytes in
  if negb (algo =? 0) && negb (algo =? oid_algo k) then Ok (arg, false)
  else
    other ← (match last_nibble_at with
             | Some i => c ← rd (oid_hash k) i; Ok (tr ((c ^. last_byte) &. 0xf0))
             | None => Ok false
             end);
    if (other : bool) then Ok (arg, false) else fn k arg.

Definition oidtree_each (h : cb_heap) (ot : oidtree) (oid : object_id) (oidhexsz : Z) (arg : A) : res A :=
  let klen := oidhexsz / 2 in
  _ ← assert (oidhexsz <=? 64);
  if tr (oidhexsz &. 1) then
    last_byte ← rd (oid_hash oid) klen;
    cb_each (iter (oid_algo oid) (Some klen) last_byte) h (ot_tree ot) (oid_bytes oid) klen arg
  else cb_each (iter (oid_algo oid) None 0) h (ot_tree ot) (oid_bytes oid) klen arg.
End Each.
End Code.

(** ** Object names as keys *)

Definition good_oid (oid : object_id) : Prop := length (oid_hash oid) = 32%nat /\ is_bytes (oid_hash oid) /\ (oid_algo oid = 0 \/ oid_algo oid = 1 \/ oid_algo oid = 2).

Lemma algo_bytes a : a = 0 \/ a = 1 \/ a = 2 -> exists x, le_bytes32 (u32 a) = [x; 0; 0; 0] /\ x = a.
Proof. intros [->|[->| ->]]; by eexists. Qed.

Lemma oid_bytes_ok oid : good_oid oid -> length (oid_bytes oid) = 36%nat /\ is_bytes (oid_bytes oid) /\ take 32 (oid_bytes oid) = oid_hash oid /\ oid_of_bytes (oid_bytes oid) = oid.
Proof.
  intros (Hl & Hb & Ha). unfold oid_bytes, oid_of_bytes. destruct (algo_bytes _ Ha) as (x & -> & ->). rewrite length_app, Hl, take_app_length', drop_app_length' by done. split_and!; [done| |done|].
  - apply Forall_app. split; [done|]. destruct Ha as [->|[->| ->]]; by repeat constructor.
  - destruct oid as [hash a]. cbn in *. f_equal. destruct Ha as [->|[->| ->]]; done.
Qed.

Lemma oid_bytes_inj o o' : good_oid o -> good_oid o' -> oid_bytes o = oid_bytes o' -> o = o'.
Proof. intros Ho Ho' E. destruct (oid_bytes_ok o Ho) as (_ & _ & _ & <-), (oid_bytes_ok o' Ho') as (_ & _ & _ & <-). by rewrite E. Qed.

Lemma oidcpy_ok oid : good_oid oid -> oidcpy oid = Ok oid.
Proof. intros (Hl & _). unfold oidcpy. rewrite rd_slice_ok by (unfold len; rewrite ?Hl; lia). cbn. unfold slice. rewrite drop_0, take_ge by (rewrite Hl; done). by destruct oid. Qed.

(** ** Shorter keys *)

Lemma loop_ext {S R} (f g : S -> res (S + R)) n s : (forall s, f s = g s) -> loop n f s = loop n g s.
Proof. intros E. revert s. induction n as [|n IH]; intros s; [done|]. rewrite !loop_S, E. destruct (g s) as [[s'|r]|]; cbn; [apply IH|done|done]. Qed.

Lemma rd_take (k : list Z) n i : i < n -> rd (take (Z.to_nat n) k) i = rd k i.
Proof. intros Hi. unfold rd. destruct (Z.ltb_spec i 0); [done|]. rewrite lookup_take. by rewrite decide_True by lia. Qed.

(** Only the first [klen] bytes of a key are looked at. *)
Lemma cb_direction_take q k klen : cb_direction q (take (Z.to_nat klen) k) klen = cb_direction q k klen.
Proof. unfold cb_direction. destruct (Z.ltb_spec (cn_byte q) klen); [by rewrite rd_take|done]. Qed.

Lemma cb_lookup_take h root k klen : 0 <= klen <= len k -> cb_lookup h root k klen = cb_lookup h root (take (Z.to_nat klen) k) klen.
Proof.
  intros Hk. unfold cb_lookup, cb_internal_best_match. rewrite (loop_ext (best_match_step h k klen) (best_match_step h (take (Z.to_nat klen) k) klen)) by (intros p; unfold best_match_step; destruct (is_inner p); [|done]; destruct (cb_load h (cb_node_of p)); cbn; [|done]; by rewrite cb_direction_take).
  destruct (loop _ _ root) as [p|]; cbn; [|done]. destruct (tr p); [|done]. cbn. destruct (cb_load h p) as [n|]; cbn; [|done]. destruct (rd_slice (cn_k n) 0 klen) as [a|]; cbn; [|done].
  rewrite !rd_slice_ok by (unfold len; rewrite ?length_take; llia). cbn. unfold slice. rewrite !drop_0, take_take. by rewrite Nat.min_id.
Qed.

Lemma cb_each_take {A} (fn : cb_heap -> Z -> A -> res (A * bool)) h root k klen arg : cb_each fn h root k klen arg = cb_each fn h root (take (Z.to_nat klen) k) klen arg.
Proof.
  unfold cb_each. destruct (tr root); [|done]. cbn [negb]. rewrite (loop_ext (cb_each_step h k klen) (cb_each_step h (take (Z.to_nat klen) k) klen)) by (intros [p tp]; unfold cb_each_step; destruct (is_inner p); [|done]; destruct (cb_load h (cb_node_of p)); cbn; [|done]; by rewrite cb_direction_take).
  destruct (loop _ _ (root, root)) as [[p tp]|]; cbn [mbind res_bind]; [|done]. destruct (cb_load h p) as [n|]; cbn [mbind res_bind]; [|done]. unfold first_difference. rewrite (loop_ext (differ_step (cn_k n) k klen) (differ_step (cn_k n) (take (Z.to_nat klen) k) klen)); [done|].
  intros i. unfold differ_step. destruct (Z.ltb_spec i klen); [by rewrite rd_take|done].
Qed.

(** ** Hexadecimal prefixes *)

Lemma digit_inj x y : 0 <= x < 16 -> 0 <= y < 16 -> digit x = digit y -> x = y.
Proof. intros Hx Hy E. pose proof (digit_hexdigit x Hx) as Ex. rewrite E, (digit_hexdigit y Hy) in Ex. congruence. Qed.

Lemma nibble_test a b : is_byte a -> is_byte b -> tr ((a ^. b) &. 0xf0) = negb (a / 16 =? b / 16).
Proof.
  intros Ha Hb. pose proof (lxor_byte a b Ha Hb) as Hx. assert (tr ((a ^. b) &. 0xf0) = negb (Z.lxor a b / 16 =? 0)) as ->.
  { apply eqb_true_iff. revert Hx. generalize (Z.lxor a b). intros x Hx. revert x Hx. by apply byte_forall. }
  f_equal. change 16 with (2 ^ 4). rewrite <- !Z.shiftr_div_pow2, Z.shiftr_lxor by lia. apply eqb_true_iff. destruct (Z.eqb_spec (Z.lxor (Z.shiftr a 4) (Z.shiftr b 4)) 0) as [E|E], (Z.eqb_spec (Z.shiftr a 4) (Z.shiftr b 4)) as [E'|E']; try done; [by apply Z.lxor_eq in E|]. rewrite E', Z.lxor_nilpotent in E. done.
Qed.

(** The first digits of two hashes: whole bytes and perhaps the upper half of one more. *)
Lemma tohex_take k (odd : bool) a b : is_bytes a -> is_bytes b -> length a = length b -> (k + Nat.b2n odd <= length a)%nat ->
  take (k * 2 + Nat.b2n odd) (tohex a) = take (k * 2 + Nat.b2n odd) (tohex b) <-> take k a = take k b /\ (odd = true -> default 0 (a !! k) / 16 = default 0 (b !! k) / 16).
Proof.
  revert a b. induction k as [|k IH]; intros a b Ha Hb Hl Hk.
  - destruct odd; cbn [Nat.b2n Nat.mul Nat.add] in *; [|cbn; split; [by split|done]]. destruct a as [|x a], b as [|y b]; cbn in Hl, Hk; try lia. rewrite !tohex_cons. apply Forall_cons in Ha as [Hx _], Hb as [Hy _]. unfold is_byte in Hx, Hy. cbn. split; [intros E; injection E as E; split; [done|]; intros _; apply digit_inj; [dlia|dlia|done]|intros [_ E]; by rewrite E].
  - destruct a as [|x a], b as [|y b]; cbn in Hl, Hk; try lia. rewrite !tohex_cons. apply Forall_cons in Ha as [Hx Ha], Hb as [Hy Hb]. unfold is_byte in Hx, Hy. cbn [Nat.mul Nat.add take app lookup list_lookup]. specialize (IH a b Ha Hb ltac:(lia) ltac:(lia)). split.
    + intros E. injection E as E1 E2 E3. apply digit_inj in E1; [|dlia|dlia]. apply digit_inj in E2; [|dlia|dlia]. apply IH in E3 as [E3 E4]. assert (x = y) as -> by (rewrite (Z.div_mod x 16), (Z.div_mod y 16) by lia; congruence). by rewrite E3.
    + intros [E Eo]. injection E as -> E. f_equal. f_equal. by apply IH.
Qed.

(** ** The tree is a set *)

(** The object names of a tree next to the ranges [live0] of the heap. *)
Definition ot_ok (live0 : list range) (ids : list object_id) (h : cb_heap) (live : list range) (ot : oidtree) : Prop :=
  exists m pieces, cb_rep 36 h (ot_tree ot) m /\ pool_ok live0 pieces (ot_mem_pool ot) live /\ (forall k p, m !! k = Some p -> exists s, (p, s) ∈ pieces) /\ Forall (fun r => 0 < r.2) pieces /\
    Forall (fun o => good_oid o /\ oid_algo o <> 0) ids /\ forall k, is_Some (m !! k) <-> exists o, o ∈ ids /\ k = oid_bytes o.

(** The callback along a list of names. *)
Fixpoint visit_oids {A} (fn : object_id -> A -> res (A * bool)) (l : list object_id) (arg : A) : res (A * bool) :=
  match l with
  | [] => Ok (arg, false)
  | o :: l => '(arg, n) ← fn o arg; if (n : bool) then Ok (arg, true) else visit_oids fn l arg
  end.

Definition node_oid (h : cb_heap) (p : Z) : object_id := oid_of_bytes (node_key h p).

(** What [iter] lets through. *)
Definition selects (algo : Z) (nibble : option Z) (last_byte : Z) (o : object_id) : bool :=
  ((algo =? 0) || (algo =? oid_algo o)) && match nibble with Some i => default 0 (oid_hash o !! Z.to_nat i) / 16 =? last_byte / 16 | None => true end.

Lemma iter_ok {A} (fn : object_id -> A -> res (A * bool)) algo nibble last_byte h p nd o arg : is_byte last_byte -> (match nibble with Some i => 0 <= i < 32 | None => True end) -> h !! p = Some nd -> cn_k nd = oid_bytes o -> good_oid o ->
  iter fn algo nibble last_byte h p arg = if selects algo nibble last_byte o then fn o arg else Ok (arg, false).
Proof.
  intros Hlb Hn Hnd Ek Ho. destruct (oid_bytes_ok o Ho) as (Hkl & _ & _ & Eo). unfold iter. rewrite (cb_load_ok _ _ _ Hnd). cbn [mbind res_bind]. rewrite Ek, rd_slice_ok by (unfold len, sizeof_object_id; rewrite ?Hkl; lia). cbn [mbind res_bind]. unfold slice. cbn [Z.to_nat]. rewrite drop_0, take_ge by (rewrite Hkl; done). rewrite Eo.
  rewrite <- negb_orb. unfold selects. destruct ((algo =? 0) || (algo =? oid_algo o)) eqn:Ea; cbn [negb andb]; [|done]. destruct nibble as [i|]; [|done]. destruct Ho as (Hol & Hob & _). destruct (lookup_lt_is_Some_2 (oid_hash o) (Z.to_nat i)) as (c & Hc); [lia|].
  rewrite (rd_Some _ _ c) by (done || lia). cbn [mbind res_bind]. rewrite Hc. change (default 0 (Some c)) with c. rewrite (nibble_test c last_byte (is_byte_lookup _ _ _ Hob Hc) Hlb). cbn [mbind res_bind]. by destruct (c / 16 =? last_byte / 16).
Qed.

Lemma iter_visit {A} (fn : object_id -> A -> res (A * bool)) algo nibble last_byte h l arg : is_byte last_byte -> (match nibble with Some i => 0 <= i < 32 | None => True end) ->
  Forall (fun p => exists nd o, h !! p = Some nd /\ cn_k nd = oid_bytes o /\ good_oid o) l ->
  cb_visit (iter fn algo nibble last_byte) h l arg = visit_oids fn (filter (fun o => selects algo nibble last_byte o = true) (node_oid h <$> l)) arg.
Proof.
  intros Hlb Hn Hl. revert arg. induction Hl as [|p l (nd & o & Hnd & Ek & Ho) _ IH]; intros arg; [done|]. cbn [cb_visit fmap list_fmap]. destruct (oid_bytes_ok o Ho) as (_ & _ & _ & Eo). assert (node_oid h p = o) as -> by (unfold node_oid, node_key; by rewrite Hnd, Ek).
  rewrite (iter_ok fn algo nibble last_byte h p nd o arg Hlb Hn Hnd Ek Ho). destruct (selects algo nibble last_byte o) eqn:Es.
  - rewrite filter_cons_True by done. cbn [visit_oids]. destruct (fn o arg) as [[arg' []]|]; cbn; [done|apply IH|done].
  - rewrite filter_cons_False by (rewrite Es; done). cbn [mbind res_bind]. apply IH.
Qed.

(** A part of a sorted list is sorted. *)
Lemma sorted_filter_map {X Y} (R : Y -> Y -> Prop) (f : X -> Y) (P : Y -> Prop) `{!forall y, Decision (P y)} l : StronglySorted (fun x y => R (f x) (f y)) l -> StronglySorted R (filter P (f <$> l)).
Proof.
  induction 1 as [|x l Hl IH Hx]; [constructor|]. cbn [fmap list_fmap]. destruct (decide (P (f x))); [rewrite filter_cons_True by done|by rewrite filter_cons_False by done]. constructor; [done|]. apply Forall_forall. intros y [_ Hy]%list_elem_of_filter. apply list_elem_of_fmap in Hy as (z & -> & Hz). rewrite Forall_forall in Hx. by apply Hx.
Qed.

Section Specs.
Context `{Memory} `{MallocOk} (junk : cb_node) (live0 : list range).

Lemma oidtree_init_ok : wp oom (oidtree_init live0) (fun '(ot, live) => ot_ok live0 [] ∅ live ot).
Proof using All.
  unfold oidtree_init. apply wp_bind. eapply wp_mono; [apply (mem_pool_init_ok live0 0); lia|]. intros [pool live] Ho. apply wp_ret. exists ∅, []. split_and!; [by left|done|by intros k p; rewrite lookup_empty|constructor|constructor|].
  intros k. rewrite lookup_empty. split; [by intros [? ?]|by intros (o & ?%elem_of_nil & _)].
Qed.

Lemma oidtree_insert_ok ids h live ot oid : ot_ok live0 ids h live ot -> good_oid oid -> oid_algo oid <> 0 -> wp oom (oidtree_insert junk h live ot oid) (fun '(h', live', ot') => ot_ok live0 (oid :: ids) h' live' ot').
Proof using All.
  intros (m & pieces & Hrep & Hpool & Hm & Hpos & Hids & Hdom) Hg Ha. unfold oidtree_insert. rewrite (proj2 (tr_true _) Ha). cbn [negb]. apply wp_bind. eapply wp_mono; [apply (mem_pool_alloc_ok live0 pieces _ live _ Hpool); unfold sizeof_cb_node, sizeof_object_id; lia|]. intros [[pool live'] on] (sz & Hsz & Hpool').
  rewrite (oidcpy_ok oid Hg). cbn [mbind res_bind]. set (n := mkCn _ _ _ _ (oid_bytes oid)). destruct (oid_bytes_ok oid Hg) as (Hkl & Hkb & _ & _). destruct (pool_piece_addr live0 _ _ _ (on, sz) Hpool' ltac:(constructor)) as (Hon & Hon8 & _). cbn in Hon, Hon8. unfold sizeof_cb_node, sizeof_object_id in Hsz.
  assert (forall k, m !! k <> Some on) as Hfresh.
  { intros k E. destruct (Hm k on E) as (s & Hs). pose proof (po_pieces_apart _ _ _ _ Hpool') as Hap. apply StronglySorted_inv in Hap as [_ Hap]. rewrite Forall_forall in Hap, Hpos. specialize (Hap _ Hs). specialize (Hpos _ Hs). unfold range_disjoint in Hap. cbn in Hap, Hpos. lia. }
  destruct (cb_rep_insert 36 h (ot_tree ot) m on n ltac:(done) Hrep ltac:(lia) ltac:(apply Z.even_spec; exists (on / 2); dlia) Hkl Hkb Hfresh) as (h' & root' & E & Hrep'). change (Z.of_nat 36) with sizeof_object_id in E. rewrite E. cbn [mbind res_bind]. apply wp_ret. exists (match m !! cn_k n with Some _ => m | None => <[cn_k n := on]> m end), ((on, sz) :: pieces).
  split_and!; [exact Hrep'|done| |by constructor; [cbn; lia|]|by constructor|].
  - intros k p Hk. assert (m !! k = Some p \/ p = on) as [Hk'| ->]; [|destruct (Hm k p Hk') as (s & Hs); exists s; by right|exists sz; by left]. destruct (m !! cn_k n); [by left|]. apply lookup_insert_Some in Hk as [[_ <-]|[_ ?]]; [by right|by left].
  - intros k. setoid_rewrite elem_of_cons. change (cn_k n) with (oid_bytes oid). destruct (m !! oid_bytes oid) as [p|] eqn:Ek.
    + rewrite Hdom. split; [intros (o & Ho & ->); exists o; tauto|]. intros (o & [->|Ho] & ->); [apply Hdom; by eexists|by exists o].
    + rewrite lookup_insert_is_Some. split; [intros [<-|[_ Hs]]; [exists oid; tauto|apply Hdom in Hs as (o & Ho & ->); exists o; tauto]|].
      intros (o & [->|Ho] & ->); [by left|]. destruct (decide (oid_bytes oid = oid_bytes o)) as [|Hne]; [by left|right]. split; [done|]. apply Hdom. by exists o.
Qed.

Lemma oidtree_contains_ok ids h live ot oid : ot_ok live0 ids h live ot -> good_oid oid ->
  exists r, oidtree_contains h ot oid = Ok r /\ (r = 0 \/ r = 1) /\ (r = 1 <-> exists o, o ∈ ids /\ oid_hash o = oid_hash oid /\ (oid_algo oid = 0 \/ oid_algo o = oid_algo oid)).
Proof using Type.
  intros (m & pieces & Hrep & _ & _ & _ & Hids & Hdom) Hg. unfold oidtree_contains. rewrite (oidcpy_ok oid Hg). cbn [mbind res_bind]. destruct (oid_bytes_ok oid Hg) as (Hkl & Hkb & Hk32 & _). rewrite Forall_forall in Hids.
  set (klen := if oid_algo oid =? 0 then sizeof_object_id - 4 else sizeof_object_id). assert (klen = 32 \/ klen = 36) as Hklen by (unfold klen; destruct (oid_algo oid =? 0); tauto).
  rewrite cb_lookup_take by (unfold len; lia). set (pfx := take (Z.to_nat klen) (oid_bytes oid)). assert (len pfx = klen) as Hpl by (unfold pfx, len; rewrite length_take; lia).
  assert (forall o, o ∈ ids -> pfx `prefix_of` oid_bytes o <-> oid_hash o = oid_hash oid /\ (oid_algo oid = 0 \/ oid_algo o = oid_algo oid)) as Hpre.
  { intros o Ho. destruct (Hids o Ho) as [Hgo _]. destruct (oid_bytes_ok o Hgo) as (Hol & _ & Ho32 & _). unfold pfx, klen. destruct (Z.eqb_spec (oid_algo oid) 0) as [Ez|Ez].
    - change (Z.to_nat (sizeof_object_id - 4)) with 32%nat. rewrite Hk32. split; [intros (r & E); split; [|by left]; rewrite <- Ho32, E; apply take_app_length'; by destruct Hg|intros [E _]; rewrite <- E; unfold oid_bytes; by eexists].
    - change (Z.to_nat sizeof_object_id) with 36%nat. rewrite take_ge by lia. split.
      + intros (r & E). assert (r = []) as -> by (apply (f_equal length) in E; rewrite length_app in E; destruct r; [done|cbn in E; lia]). rewrite app_nil_r in E. apply oid_bytes_inj in E as ->; [tauto|done|done].
      + intros [Eh [?|Ea]]; [done|]. assert (o = oid) as -> by (destruct o, oid; cbn in *; congruence). done. }
  destruct (cb_rep_lookup 36 h (ot_tree ot) m pfx Hrep ltac:(by apply Forall_take) ltac:(unfold len in Hpl; lia)) as (p & E & H0' & H1'). rewrite Hpl in E. rewrite E. cbn [mbind res_bind]. destruct (tr p) eqn:Ep; eexists; (split; [done|]).
  - split; [by right|]. split; [|done]. intros _. apply tr_true in Ep. destruct (H1' Ep) as (k & Hk & Hp). assert (is_Some (m !! k)) as (o & Ho & ->)%Hdom by (by eexists). exists o. split; [done|]. by apply Hpre.
  - split; [by left|]. split; [done|]. intros (o & Ho & Hc). apply tr_false in Ep. assert (is_Some (m !! oid_bytes o)) as [q Hq] by (apply Hdom; by exists o). destruct (H0' Ep _ _ Hq). by apply Hpre.
Qed.

(** The names that a walk visits. *)
Definition matching (oid : object_id) (oidhexsz : Z) (o : object_id) : Prop :=
  (oid_algo oid = 0 \/ oid_algo o = oid_algo oid) /\ take (Z.to_nat oidhexsz) (tohex (oid_hash o)) = take (Z.to_nat oidhexsz) (tohex (oid_hash oid)).

Lemma oidtree_each_ok ids h live ot oid oidhexsz {A} (fn : object_id -> A -> res (A * bool)) arg : ot_ok live0 ids h live ot -> good_oid oid -> 0 <= oidhexsz <= 64 ->
  exists vs, oidtree_each fn h ot oid oidhexsz arg = ('(arg, _) ← visit_oids fn vs arg; Ok arg) /\ StronglySorted (fun o o' => memcmp (oid_bytes o) (oid_bytes o') < 0) vs /\ forall o, o ∈ vs <-> o ∈ ids /\ matching oid oidhexsz o.
Proof using Type.
  intros (m & pieces & Hrep & _ & _ & _ & Hids & Hdom) Hg Hsz. destruct (oid_bytes_ok oid Hg) as (Hkl & Hkb & Hk32 & _). rewrite Forall_forall in Hids. pose proof Hg as (Hhl & Hhb & _).
  set (k := Z.to_nat (oidhexsz / 2)). assert (0 <= oidhexsz / 2 <= 32) as Hk by dlia. set (odd := tr (oidhexsz &. 1)). assert (oidhexsz = 2 * Z.of_nat k + Z.b2z odd) as Eodd.
  { unfold odd, k. change 1 with (Z.ones 1). rewrite Z.land_ones by lia. change (2 ^ 1) with 2. rewrite Z2Nat.id by lia. assert (oidhexsz `mod` 2 = 0 \/ oidhexsz `mod` 2 = 1) as [E|E] by dlia; rewrite E; cbn; dlia. }
  set (nibble := if odd then Some (oidhexsz / 2) else None). set (lb := if odd then default 0 (oid_hash oid !! k) else 0). assert (odd = true -> (k < 32)%nat) as Hk32' by (intros E; rewrite E in Eodd; cbn in Eodd; lia).
  assert (is_byte lb) as Hlb by (unfold lb; destruct odd; [by apply byte_at|done]).
  assert (oidtree_each fn h ot oid oidhexsz arg = cb_each (iter fn (oid_algo oid) nibble lb) h (ot_tree ot) (take k (oid_bytes oid)) (Z.of_nat k) arg) as ->.
  { unfold oidtree_each. rewrite (proj2 (Z.leb_le oidhexsz 64)) by lia. cbn [assert mbind res_bind]. fold odd. assert (Z.of_nat k = oidhexsz / 2) as -> by (unfold k; lia). unfold nibble, lb, k. destruct odd; [|apply cb_each_take].
    destruct (lookup_lt_is_Some_2 (oid_hash oid) k) as (c & Hc); [specialize (Hk32' eq_refl); lia|]. rewrite (rd_Some _ _ c) by (done || lia). cbn [mbind res_bind]. fold k. rewrite Hc. apply cb_each_take. }
  assert (take k (oid_bytes oid) = take k (oid_hash oid)) as -> by (unfold oid_bytes; rewrite take_app_le by lia; done). set (pfx := take k (oid_hash oid)). assert (length pfx = k) as Hpl by (unfold pfx; rewrite length_take; lia).
  destruct (cb_rep_each 36 h (ot_tree ot) m (iter fn (oid_algo oid) nibble lb) pfx arg Hrep ltac:(by apply Forall_take) ltac:(lia)) as (l & E & Hsorted & Hin). unfold len in E. rewrite Hpl in E. rewrite E.
  assert (forall p, p ∈ l -> exists nd o, h !! p = Some nd /\ cn_k nd = oid_bytes o /\ good_oid o /\ o ∈ ids /\ node_oid h p = o) as Hl.
  { intros p [_ Hp]%Hin. assert (is_Some (m !! node_key h p)) as (o & Ho & Eo)%Hdom by (by eexists). destruct (Hids o Ho) as [Hgo _]. destruct (oid_bytes_ok o Hgo) as (Hol & _ & _ & Eof). unfold node_oid. rewrite Eo, Eof. unfold node_key in Eo. destruct (h !! p) as [nd|]; [|rewrite <- Eo in Hol; done]. by exists nd, o. }
  exists (filter (fun o => selects (oid_algo oid) nibble lb o = true) (node_oid h <$> l)). split; [|split].
  - rewrite iter_visit; [done|done| |]; [unfold nibble; destruct odd; [specialize (Hk32' eq_refl); lia|done]|]. apply Forall_forall. intros p Hp. destruct (Hl p Hp) as (nd & o & H1' & H2' & H3' & _). by exists nd, o.
  - apply sorted_filter_map. assert (forall p, p ∈ l -> oid_bytes (node_oid h p) = node_key h p) as Hkey by (intros p Hp; destruct (Hl p Hp) as (nd & o & H1' & H2' & _ & _ & ->); unfold node_key; by rewrite H1', H2').
    clear -Hsorted Hkey. induction Hsorted as [|p l Hs IH Hp]; constructor; [apply IH; intros q Hq; apply Hkey; by right|]. rewrite Forall_forall in Hp |- *. intros q Hq. rewrite !Hkey by (constructor; done). by apply Hp.
  - assert (forall o, o ∈ ids -> matching oid oidhexsz o <-> pfx `prefix_of` oid_bytes o /\ selects (oid_algo oid) nibble lb o = true) as Hmatch.
    { intros o Ho. destruct (Hids o Ho) as [Hgo _]. pose proof Hgo as (Hol & Hob & _). unfold matching. assert (Z.to_nat oidhexsz = k * 2 + Nat.b2n odd)%nat as -> by (rewrite Eodd; destruct odd; cbn; lia). rewrite (tohex_take k odd) by (done || (destruct odd; cbn; [specialize (Hk32' eq_refl)|]; lia)).
      assert (pfx `prefix_of` oid_bytes o <-> take k (oid_hash o) = take k (oid_hash oid)) as ->.
      { split; [intros (r & Er)|intros Et; unfold oid_bytes; rewrite <- (take_drop k (oid_hash o)), Et, <- app_assoc; by eexists]. assert (take k (oid_bytes o) = pfx) as Et by (rewrite Er; by apply take_app_length'). unfold oid_bytes in Et. rewrite take_app_le in Et by lia. exact Et. }
      unfold selects, nibble, lb. rewrite andb_true_iff, orb_true_iff, !Z.eqb_eq. destruct odd; fold k; [rewrite Z.eqb_eq|]; intuition congruence. }
    intros o. rewrite list_elem_of_filter, list_elem_of_fmap. split.
    + intros (Hs & p & -> & Hp). destruct (Hl p Hp) as (nd & o & H1' & H2' & Hgo & Ho & ->). split; [done|]. apply Hmatch; [done|]. destruct (proj1 (Hin p) Hp) as [Hpre _]. unfold node_key in Hpre. rewrite H1', H2' in Hpre. split; [done|]. destruct (Hl p Hp) as (nd' & o' & H1'' & H2'' & Hgo' & _ & E'). rewrite E' in Hs. assert (o' = o) as -> by (apply oid_bytes_inj; [done|done|congruence]). done.
    + intros [Ho Hm']. apply Hmatch in Hm' as [Hpre Hs]; [|done]. split; [done|]. assert (is_Some (m !! oid_bytes o)) as [p Hp] by (apply Hdom; by exists o). assert (node_key h p = oid_bytes o) as Ek by (by eapply cb_rep_key). exists p. destruct (Hids o Ho) as [Hgo _]. split; [unfold node_oid; rewrite Ek; symmetry; by apply oid_bytes_ok|]. apply Hin. by rewrite Ek.
Qed.
End Specs.

(** Insertions one after the other. *)
Fixpoint oidtree_inserts `{Memory} `{Malloc} (junk : cb_node) (h : cb_heap) (live : list range) (ot : oidtree) (ids : list object_id) : res (cb_heap * list range * oidtree) :=
  match ids with
  | [] => Ok (h, live, ot)
  | oid :: ids => '(h, live, ot) ← oidtree_insert junk h live ot oid; oidtree_inserts junk h live ot ids
  end.

Lemma oidtree_inserts_ok `{Memory} `{MallocOk} junk live0 ids : forall ids0 h live ot, ot_ok live0 ids0 h live ot -> Forall (fun o => good_oid o /\ oid_algo o <> 0) ids ->
  wp oom (oidtree_inserts junk h live ot ids) (fun '(h', live', ot') => exists ids', ot_ok live0 ids' h' live' ot' /\ forall o, o ∈ ids' <-> o ∈ ids0 \/ o ∈ ids).
Proof.
  induction ids as [|oid ids IH]; intros ids0 h live ot Ho Hids; [exists ids0; split; [done|]; intros o; rewrite elem_of_nil; tauto|]. apply Forall_cons in Hids as [[Hg Ha] Hids]. cbn [oidtree_inserts]. apply wp_bind. eapply wp_mono; [by apply (oidtree_insert_ok junk live0 ids0)|]. intros [[h1 live1] ot1] Ho1.
  eapply wp_mono; [by apply (IH (oid :: ids0))|]. intros [[h2 live2] ot2] (ids' & Ho2 & Hin). exists ids'. split; [done|]. intros o. rewrite Hin, !elem_of_cons. tauto.
Qed.

(** C40: a tree of object names is a set.  After inserting any names into a fresh tree, which dies only for lack of memory, [oidtree_contains] finds exactly the names that were inserted, or for a
    name without algorithm the ones with its hash; and [oidtree_each] calls the callback for exactly the names of the algorithm, or of
    any when there is none, whose hexadecimal form starts with the first [oidhexsz] digits of the given one, for an odd number of digits too, each
    once and in the order of the names, until the callback breaks it off. *)
Theorem oid_tree_set `{Memory} `{MallocOk} junk live0 ids : Forall (fun o => good_oid o /\ oid_algo o <> 0) ids ->
  wp oom ('(ot, live) ← oidtree_init live0; oidtree_inserts junk ∅ live ot ids) (fun '(h, live, ot) => forall oid, good_oid oid ->
    (exists r, oidtree_contains h ot oid = Ok r /\ (r = 0 \/ r = 1) /\ (r = 1 <-> exists o, o ∈ ids /\ oid_hash o = oid_hash oid /\ (oid_algo oid = 0 \/ oid_algo o = oid_algo oid))) /\
    forall oidhexsz A (fn : object_id -> A -> res (A * bool)) arg, 0 <= oidhexsz <= 64 ->
      exists vs, oidtree_each fn h ot oid oidhexsz arg = ('(arg, _) ← visit_oids fn vs arg; Ok arg) /\ StronglySorted (fun o o' => memcmp (oid_bytes o) (oid_bytes o') < 0) vs /\ forall o, o ∈ vs <-> o ∈ ids /\ matching oid oidhexsz o).
Proof.
  intros Hids. apply wp_bind. eapply wp_mono; [apply (oidtree_init_ok junk live0)|]. intros [ot live] Ho. eapply wp_mono; [by apply (oidtree_inserts_ok junk live0 ids [])|]. intros [[h live'] ot'] (ids' & Ho' & Hin). assert (forall o, o ∈ ids' <-> o ∈ ids) as Hin' by (intros o; rewrite Hin, elem_of_nil; tauto).
  intros oid Hg. split.
  - destruct (oidtree_contains_ok live0 ids' h live' ot' oid Ho' Hg) as (r & E & Hr & Hiff). exists r. split_and!; [done|done|]. rewrite Hiff. by setoid_rewrite Hin'.
  - intros oidhexsz A fn arg Hsz. destruct (oidtree_each_ok live0 ids' h live' ot' oid oidhexsz fn arg Ho' Hg Hsz) as (vs & E & Hs & Hv). exists vs. split_and!; [done|done|]. by setoid_rewrite Hin' in Hv.
Qed.

#[local] Existing Instance ex_malloc_ok.

(** The names 70..., 7f... and 12..., and the abbreviation "7". *)
Definition ex_ids : list object_id := (fun b => mkOid (b :: replicate 31 5) 1) <$> [0x7f; 0x12; 0x70].

Lemma oid_tree_set_witness : exists h live ot vs, ('(ot, live) ← @oidtree_init plenty ex_malloc []; @oidtree_inserts plenty ex_malloc (mkCn 0 0 0 0 []) ∅ live ot ex_ids) = Ok (h, live, ot) /\
  oidtree_each (fun o (l : list object_id) => Ok (l ++ [o], false)) h ot (mkOid (0x70 :: replicate 31 0) 0) 1 [] = ('(arg, _) ← visit_oids (fun o (l : list object_id) => Ok (l ++ [o], false)) vs []; Ok arg) /\
  forall o, o ∈ vs <-> o ∈ ex_ids /\ matching (mkOid (0x70 :: replicate 31 0) 0) 1 o.
Proof.
  pose proof (@oid_tree_set plenty ex_malloc ex_malloc_ok (mkCn 0 0 0 0 []) [] ex_ids ltac:(repeat constructor; cbn; done || lia || tauto)) as Hx.
  assert (exists v, ('(ot, live) ← @oidtree_init plenty ex_malloc []; @oidtree_inserts plenty ex_malloc (mkCn 0 0 0 0 []) ∅ live ot ex_ids) = Ok v) as (v & Ev) by (eexists; vm_compute; reflexivity).
  rewrite Ev in Hx. destruct v as [[h live] ot]. destruct (Hx (mkOid (0x70 :: replicate 31 0) 0)) as [_ He]; [split_and!; [done|by apply (bool_decide_eq_true_1 _)|by left]|]. destruct (He 1 (list object_id) (fun o l => Ok (l ++ [o], false)) [] ltac:(lia)) as (vs & E & _ & Hv). exists h, live, ot, vs. split; [exact Ev|]. by split.
Defined.
